(* ===== verification/_CoqProject ===== *)
-Q . S2P
Prelude.v
GoInt.v
GoFloat.v
AdaptiveTimeout.v
GoStrings.v
GoTime.v
GoParseFloat.v
Config.v
ConfigLoad.v
ConfigCheck.v
ConfigSpec.v
Keyed.v
Dll.v
MatchCache.v
RouteCache.v
Weight.v
StreamPlan.v
StreamSelect.v
Header.v
Chunked.v
Message.v
Connection.v
ConnectionPool.v
ServerSteps.v
Protocol.v
Lifecycle.v
LifecycleSpec.v
Scenario.v
StreamSources.v
Responses.v
Regexp.v
Compile.v
ScenarioV2.v
ScenarioV2Spec.v
ScenarioYaml.v
Sharded.v
ShardedSpec.v
ShardedCache.v
Router.v
Register.v
StreamPayload.v
StreamDelivery.v
IcapResponse.v
Substitute.v
StreamResolve.v
Processor.v
ProcessorSpec.v
Accounting.v
Handler.v
Retry.v
RequestStore.v
RequestStoreSpec.v
Snapshot.v
StorageQueue.v
DiskMonitor.v
Watcher.v
Server.v
ServerSpec.v
Management.v
RegistrySwap.v
PlainRegistry.v
ManagementSpec.v
ManagementApi.v
Pool.v
Health.v
