(* ===== verification/Prelude.v ===== *)
(** * Verification of the icap-mock server: root of the development

    icap-mock is a server for ICAP (RFC 3507) that answers from scenario files. This
    development models its own logic in Rocq, file by file, and proves what makes it
    correct. This comment is the documentation of the whole; every file opens with
    what it holds.

    ** The program and how its parts interact

    A connection is accepted by [internal/server/server.go], which limits the number
    of connections, and is read through pooled buffers ([server/connection.go]). In a
    loop, [server/protocol.go] parses the ICAP head and the HTTP heads it encapsulates;
    [server/lifecycle.go] takes the bodies off the connection ([pkg/icap/encoding.go]
    decodes the chunks into the messages of [pkg/icap/request.go]) or, in preview mode,
    takes the preview and leaves a reader that asks for the rest when it is needed.
    The request goes through [internal/router] to a handler of [internal/handler] and
    from there to a processor of [internal/processor], which asks the registry of
    [internal/storage] for the scenario that matches and builds the response from its
    template, the captures and the request's own messages; streamed bodies are planned
    ([pkg/icap/stream_plan.go]), read ([stream_payload.go]) and delivered on a schedule
    ([streaming.go]). The response is written by [pkg/icap/response_write.go], the
    request accounted for by [server/terminal.go], and what is left of its bodies
    drained before the next one. A request that declares a body but no message it
    belongs to has the rest of the connection as its raw body, decoded, drained and left
    behind like the others. Scenario files are decoded and converted in
    [storage/scenario_v2.go] and compiled into the rules of a registry in
    [storage/scenario.go]; the sharded registry is the one of production. Requests that
    are recorded go through a queue of workers ([internal/middleware]) to the files of
    [storage/filesystem.go], which asks [storage/disk_monitor.go] for room.

    What all of this runs with comes from [internal/config]: defaults, a file, the
    environment, the command line and a validation. [cmd/icap-mock/cli_executor.go] starts
    the servers and hands their registries to [internal/management], which replaces them
    when an administrator asks the endpoints of [internal/health] for a reload.

    ** The files

    Foundations. [Prelude]: results, byte strings, tactics and shared lemmas. [GoInt]:
    64-bit integers, [strconv]. [GoFloat]: [float64], by the exact specification of the
    Standard Library. [GoStrings]: package [strings]. [GoTime]: [time.ParseDuration] and
    the delays of scenarios. [GoParseFloat]: [strconv.ParseFloat] and [ParseBool]. [Keyed], [Dll]: keyed lists and doubly linked lists in a
    heap, shared by the two LRU caches.

    The wire ([pkg/icap]). [Header] ([header.go]). [Chunked] ([encoding.go]: reader,
    writer, bounded lines, preview). [Message] ([HTTPMessage] of [request.go],
    [body_read.go]): lazily loaded bodies against the class [Reader] with its laws.
    [IcapResponse] ([response.go], [response_write.go], [response_read.go]). [StreamPlan] ([stream_plan.go]),
    [StreamPayload] ([stream_payload.go]), [StreamDelivery] ([streaming.go]).

    The server ([internal/server]). [Connection] and [ConnectionPool]
    ([connection.go]); [Protocol] ([protocol.go], [protocol_respmod.go]); [Lifecycle]
    with [LifecycleSpec] ([lifecycle.go]); [Accounting] ([terminal.go], [metrics.go],
    [requestinfo/scenario.go]); [Server] with [ServerSpec] (one connection,
    [handleConnection]); [ServerSteps] (many connections: [acceptLoop], [Start],
    [Stop] as steps).

    Scenarios ([internal/storage]). [ScenarioYaml] (the shapes of a file that the package
    decodes itself), [ScenarioV2] with [ScenarioV2Spec] ([scenario_v2.go]: from a decoded
    file to scenarios), [Weight] ([weight/percentage.go]), [StreamSelect] and [StreamSources] ([streaming.go], [streaming_controls.go],
    [streaming_schema.go]), [Responses] ([response_refs.go]), [Compile] and [Scenario]
    ([scenario.go]: from a file's rule to a compiled one; matching and the plain
    registry), with [Regexp], the fragment of the package [regexp] that endpoints are
    compiled to; [MatchCache], [Sharded], [ShardedSpec], [ShardedCache]
    ([sharded_scenario.go]); [Watcher] ([scenario_watcher.go]).

    Routing ([internal/router], [cmd/icap-mock/cli_executor.go]). [Router],
    [RouteCache], [Register].

    Answering ([internal/processor], [internal/handler]). [Substitute], [StreamResolve], [Processor],
    [ProcessorSpec] ([mock.go], [preview.go], [streaming.go], [block.go]); [Handler] ([base_handler.go],
    [reqmod.go], [respmod.go], [options.go], [handler.go] and the recovery of panics of
    [middleware.go]), [Retry] ([retry.go]), [AdaptiveTimeout] ([adaptive_timeout.go]).

    Recording ([internal/storage], [internal/middleware]). [RequestStore] with
    [RequestStoreSpec] ([filesystem.go]), [DiskMonitor]
    ([disk_monitor.go], [disk_unix.go]), [Snapshot] (how a request
    becomes a record, [storage.go]), [StorageQueue] ([middleware.go]: the queue and its workers).

    Configuration ([internal/config], [cmd/icap-mock/server_cmd_overrides.go]). [Config]
    ([config.go], [bytesize.go]), [ConfigLoad] ([loader.go], the variables of
    [loader_removed_keys.go]), [ConfigCheck] (the command line, [validator.go]),
    [ConfigSpec] (their theorems).

    Reloading ([internal/management], [internal/health]). [Management] ([manager.go],
    [config_file.go], the start of the servers in [cli_executor.go]), against the class
    [ScenarioRegistry] with the promises [RegistryLaws]; [PlainRegistry] is the instance
    around the registry of [Scenario]; [ManagementSpec] the theorems; [RegistrySwap]
    ([registry.go]: the replacement under concurrent requests, lock by lock);
    [ManagementApi] ([api.go]) and [Health] ([health.go]). [Pool] ([pkg/pool]) has the
    reused buffers.

    ** State and operations

    A Go value is modelled by the data it holds: structs as records, enumerations and
    interfaces with a closed set of implementations as inductive types, open
    interfaces ([io.Reader], stream payloads, sinks) as classes with laws and an
    instance per implementation, maps as [gmap], byte strings as [string] or
    [list ascii]. Methods that change their receiver return it; reads from a
    connection return what is left of it. Where Go panics or dereferences nil, the
    operation returns [None], and that it never does is part of the theorems.
    Concurrency is explicit where the code has it: the locks make a critical section
    one definition, and what runs between two of them is a step of its own
    ([RouteCache], [ConnectionPool], [ServerSteps], [RequestStore], [DiskMonitor],
    [StorageQueue], [Watcher], [RegistrySwap], [Pool]). Pointers that are compared or mutated through aliases are addresses in a heap ([Dll], [MatchCache],
    [RouteCache], [Sharded]).

    ** What the theorems show

    Round trips: chunks, responses, whole REQMOD and RESPMOD messages come back as
    they were sent, also cut into packets arbitrarily and behind one another on a
    connection. Refinements: the pooled buffer is a flat sequence of bytes, the lazy
    message a body with a limit, the two caches are keyed lists in order of use, the
    sharded registry gives a scenario that matches, and the one of the plain registry when
    its shards can index that one, also through its cache when the fields of the requests
    have no separator in them, an adaptive timeout is the 95th percentile of the last
    durations, the router's cache never changes a route. Functional behaviour: which scenario
    matches, what a scenario file becomes and which level each field comes from, what a
    preview delivers, what the response to a scenario contains, what handlers reply and
    retry, how a plan divides a body, what is deleted from the store, from which layer a
    setting comes, what validation accepts, what the files of a directory make together.
    Invariants and
    safety: registry order, connection limit, wait group, pool counter, accounting exactly
    once, what becomes of every recorded request whatever the file system answers, the
    sizes of the files of one run, all or nothing and one moment of switching
    for a reload, the settings no reload changes, who may reload, at most one "100 Continue", reserved
    paths, bodies within limits. Termination and liveness: readers reach the end of
    every input, pipelined requests are all served, streams reach the client, a
    shutdown ends, the conversion of a file ends unless weighted templates refer back to
    themselves. Errors: oversized, truncated and malformed input has the error the
    code gives it, and the connection is left or kept accordingly. Where the code does
    not do what it means to, a theorem shows the behaviour it has; these are listed as
    findings of the manifest.

    ** Fuel

    Loops over a list or a gap of indices recurse structurally. A loop whose end
    depends on its reader takes fuel; the theorems show that a bound computed from the
    input is enough (the number of bytes and packets in [Chunked], [Message] and
    [Connection]; the number of requests in [ServerSpec]; the number of chunks in
    [StreamDelivery]; the depth of templates in [ScenarioV2Spec]), so that running out of
    fuel is not a behaviour - except where the code itself does not end, which
    [ScenarioV2Spec] shows as no fuel being enough.

    ** What is not modelled

    Parameters stand for what is not in the repository or not its logic: regular
    expressions (of which [Regexp] states the laws of the anchored patterns made of
    literals and of named groups of one repeated class, with a syntax, a meaning and a
    matcher that keeps them; the theorems on endpoints are about endpoints without
    ["re:"], and leave aside bytes that are no characters: the endpoint has no U+FFFD in it
    or the path is ASCII, and a captured segment starts with a character), MIME and CIDR parsing, the file system, the clock, random draws,
    the sleeper, the order in which Go ranges over a map. They are arguments of the
    definitions, with hypotheses only where a theorem needs them.

    Not modelled: logging and Prometheus registration ([logger], [metrics]), the YAML
    and JSON libraries and with them the decoding of configuration documents, command line
    parsing and the other commands of [cmd/icap-mock], TLS certificate monitoring, the
    pools of buffers of the standard library's types, the test helpers of
    [internal/testing]. The sharded registry is related to the plain one by its own
    theorems ([ShardedSpec]); it is not an instance of [RegistryLaws], since its scenarios
    are addresses. They are I/O and glue around library calls; the components of
    the manifest give the reason for each. Deadlines are durations set on a
    connection; that the network honours them is outside. The Go memory model is
    reduced to the atomicity of critical sections. *)
From Stdlib Require Export ZArith Lia.
From stdpp Require Export base option gmap strings fin_maps tactics.
From stdpp Require Export list.
Export stdpp.list_relations.list stdpp.list_basics.list.
From Stdlib Require Ascii String.
Export Ascii.AsciiSyntax.
Delimit Scope char_scope with char.
Bind Scope char_scope with Ascii.ascii.
Arguments String.String _%_char_scope _%_string_scope.

(** Go strings are byte strings; a byte is an [ascii]. *)
Notation ascii := Ascii.ascii.
Notation nat_of_ascii := Ascii.nat_of_ascii.
Notation ascii_of_nat := Ascii.ascii_of_nat.
#[global] Arguments String.append : simpl nomatch.

#[export] Set Default Proof Using "Type".

(** ** Results: Go functions that return [(value, error)] *)

Inductive result (E A : Type) : Type :=
| Ok (a : A)
| Err (e : E).
Arguments Ok {E A} a.
Arguments Err {E A} e.

Definition result_bind {E A B} (m : result E A) (k : A → result E B) : result E B :=
  match m with
  | Ok a => k a
  | Err e => Err e
  end.

Definition result_map {E A B} (f : A → B) (m : result E A) : result E B :=
  match m with
  | Ok a => Ok (f a)
  | Err e => Err e
  end.

Definition is_ok {E A} (m : result E A) : bool :=
  match m with Ok _ => true | Err _ => false end.

Declare Scope go_scope.
Delimit Scope go_scope with go.
Notation "'let!' x := m 'in' k" := (result_bind m (λ x, k))
  (at level 10, x pattern, m at level 100, k at level 200) : go_scope.
Notation "'guard!' b 'else' e 'in' k" := (if b then k else Err e)
  (at level 10, b at level 100, e at level 100, k at level 200) : go_scope.

(** ** Tactics of the development *)

(** Turns boolean tests of the code into the propositions they decide. *)
Ltac bool_to_prop :=
  repeat match goal with
  | H : _ && _ = true |- _ => apply andb_true_iff in H; destruct H
  | H : _ || _ = false |- _ => apply orb_false_iff in H; destruct H
  | H : negb _ = true |- _ => apply negb_true_iff in H
  | H : negb _ = false |- _ => apply negb_false_iff in H
  | H : (_ <? _)%Z = true |- _ => apply Z.ltb_lt in H
  | H : (_ <? _)%Z = false |- _ => apply Z.ltb_ge in H
  | H : (_ <=? _)%Z = true |- _ => apply Z.leb_le in H
  | H : (_ <=? _)%Z = false |- _ => apply Z.leb_gt in H
  | H : (_ =? _)%Z = true |- _ => apply Z.eqb_eq in H
  | H : (_ =? _)%Z = false |- _ => apply Z.eqb_neq in H
  | H : (_ >? _)%Z = _ |- _ => rewrite Z.gtb_ltb in H
  | H : (_ >=? _)%Z = _ |- _ => rewrite Z.geb_leb in H
  | H : (_ <? _) = true |- _ => apply Nat.ltb_lt in H
  | H : (_ <? _) = false |- _ => apply Nat.ltb_ge in H
  | H : (_ <=? _) = true |- _ => apply Nat.leb_le in H
  | H : (_ <=? _) = false |- _ => apply Nat.leb_gt in H
  | H : (_ =? _) = true |- _ => apply Nat.eqb_eq in H
  | H : (_ =? _) = false |- _ => apply Nat.eqb_neq in H
  | H : bool_decide _ = true |- _ => apply bool_decide_eq_true in H
  | H : bool_decide _ = false |- _ => apply bool_decide_eq_false in H
  | H : String.eqb _ _ = true |- _ => apply String.eqb_eq in H
  | H : String.eqb _ _ = false |- _ => apply String.eqb_neq in H
  end.

(** Splits the outermost conditional of the goal, with its boolean read as a
    proposition on each side. *)
Ltac split_if :=
  match goal with
  | |- context [if ?b then _ else _] =>
      let E := fresh "E" in destruct b eqn:E; bool_to_prop
  end.

(** The same for a hypothesis that runs a definition of the code. *)
Ltac split_if_in H :=
  match type of H with
  | context [if ?b then _ else _] =>
      let E := fresh "E" in destruct b eqn:E; bool_to_prop; simplify_eq
  end.

(** ** Generic lemmas the components share *)

Create HintDb icap discriminated.

Lemma result_bind_ok {E A B} (m : result E A) (k : A → result E B) b :
  result_bind m k = Ok b ↔ ∃ a, m = Ok a ∧ k a = Ok b.
Proof. destruct m; naive_solver. Qed.

Lemma is_ok_inv {E A} (m : result E A) : is_ok m = true → ∃ a, m = Ok a.
Proof. destruct m; [by eexists|done]. Qed.

Lemma result_bind_assoc {E A B C} (m : result E A) (f : A → result E B) (g : B → result E C) :
  result_bind (result_bind m f) g = result_bind m (λ a, result_bind (f a) g).
Proof. by destruct m. Qed.

Lemma sum_list_with_app {A} (f : A → nat) (l k : list A) :
  sum_list_with f (l ++ k) = sum_list_with f l + sum_list_with f k.
Proof. induction l; simpl; lia. Qed.

(** Sums of integers, for byte counts and weights. *)
Fixpoint zsum (l : list Z) : Z :=
  match l with
  | [] => 0
  | x :: l => x + zsum l
  end%Z.

Lemma zsum_app l k : zsum (l ++ k) = (zsum l + zsum k)%Z.
Proof. induction l; simpl; lia. Qed.

Lemma zsum_replicate n x : zsum (replicate n x) = (Z.of_nat n * x)%Z.
Proof. induction n; simpl; lia. Qed.

Lemma zsum_nonneg l : Forall (λ x, 0 ≤ x)%Z l → (0 ≤ zsum l)%Z.
Proof. induction 1; simpl; lia. Qed.

Lemma zsum_map_add {A} (f g : A → Z) l :
  zsum (map (λ x, f x + g x)%Z l) = (zsum (map f l) + zsum (map g l))%Z.
Proof. induction l; simpl; lia. Qed.

Create Rewrite HintDb icap_rw.
#[export] Hint Rewrite zsum_app zsum_replicate : icap_rw.

Lemma NoDup_snoc {A} (l : list A) x : NoDup (l ++ [x]) ↔ (x ∉ l) ∧ NoDup l.
Proof.
  rewrite NoDup_app. split.
  - intros (Hl & Hd & _). split; [|done]. intros Hx. apply (Hd x Hx), list_elem_of_singleton. done.
  - intros [Hx Hl]. split_and!; [done| |apply NoDup_singleton].
    intros y Hy ->%list_elem_of_singleton. done.
Qed.

Lemma filter_all {A} (P : A → Prop) `{∀ x, Decision (P x)} (l : list A) :
  Forall P l → filter P l = l.
Proof.
  induction 1 as [|x l HP _ IH]; [done|].
  rewrite filter_cons. case_decide; [by rewrite IH|done].
Qed.

Lemma filter_none {A} (P : A → Prop) `{∀ x, Decision (P x)} (l : list A) :
  Forall (λ x, ¬ P x) l → filter P l = [].
Proof.
  induction 1 as [|x l HP _ IH]; [done|].
  rewrite filter_cons. case_decide; [done|apply IH].
Qed.

Lemma filter_ext_Forall {A} (P Q : A → Prop) `{∀ x, Decision (P x), ∀ x, Decision (Q x)} (l : list A) :
  Forall (λ x, P x ↔ Q x) l → filter P l = filter Q l.
Proof.
  induction 1 as [|x l HPQ _ IH]; [done|].
  rewrite !filter_cons. do 2 case_decide; rewrite ?IH; tauto.
Qed.

Lemma forallb_Forall {A} (f : A → bool) (l : list A) : forallb f l = true ↔ Forall (λ x, f x = true) l.
Proof.
  induction l as [|x l IH]; simpl; [by split|]. by rewrite andb_true_iff, Forall_cons, IH.
Qed.
