(* ===== verification/GoInt.v ===== *)
(** * Go integers: 64-bit arithmetic, [strconv] parsing and formatting

    [int], [int64] and [time.Duration] are 64-bit two's complement integers:
    a value is a [Z], every arithmetic operation of the code that could leave
    the range goes through [wrap64], and division truncates towards zero. *)
From S2P Require Import Prelude.

Local Open Scope Z_scope.

Definition min_int64 : Z := - 2 ^ 63.
Definition max_int64 : Z := 2 ^ 63 - 1.

Definition in_int64 (z : Z) : Prop := min_int64 ≤ z ≤ max_int64.

#[export] Instance in_int64_dec z : Decision (in_int64 z).
Proof. unfold in_int64. apply _. Defined.

(** Two's complement reduction of the exact result of an operation. *)
Definition wrap64 (z : Z) : Z := (z + 2 ^ 63) mod 2 ^ 64 - 2 ^ 63.

Definition add64 (a b : Z) : Z := wrap64 (a + b).
Definition sub64 (a b : Z) : Z := wrap64 (a - b).
Definition mul64 (a b : Z) : Z := wrap64 (a * b).
(** Go's [/] and [%] truncate towards zero. *)
Definition div64 (a b : Z) : Z := wrap64 (Z.quot a b).
Definition rem64 (a b : Z) : Z := Z.rem a b.

Lemma wrap64_id z : in_int64 z → wrap64 z = z.
Proof.
  unfold in_int64, min_int64, max_int64, wrap64. intros [? ?].
  rewrite Z.mod_small; lia.
Qed.

Lemma wrap64_range z : in_int64 (wrap64 z).
Proof.
  unfold in_int64, min_int64, max_int64, wrap64.
  pose proof (Z.mod_pos_bound (z + 2 ^ 63) (2 ^ 64) ltac:(lia)). lia.
Qed.

Lemma quot_nonneg a b : 0 ≤ a → 0 < b → Z.quot a b = a / b.
Proof. intros. apply Z.quot_div_nonneg; lia. Qed.

Lemma rem_nonneg a b : 0 ≤ a → 0 < b → Z.rem a b = a mod b.
Proof. intros. apply Z.rem_mod_nonneg; lia. Qed.

Lemma div64_nonneg a b : 0 ≤ a ≤ max_int64 → 0 < b → div64 a b = a / b.
Proof.
  intros Ha Hb. unfold div64. rewrite quot_nonneg by lia.
  apply wrap64_id. split.
  - pose proof (Z.div_pos a b). unfold min_int64. lia.
  - pose proof (Z.div_le_upper_bound a b a Hb). nia.
Qed.

Lemma rem64_nonneg a b : 0 ≤ a → 0 < b → rem64 a b = a mod b.
Proof. apply rem_nonneg. Qed.

(** ** Digits *)

Definition digit_val (c : ascii) : Z :=
  let n := Z.of_nat (nat_of_ascii c) in
  if (48 <=? n) && (n <=? 57) then n - 48
  else if (97 <=? n) && (n <=? 122) then n - 87
  else if (65 <=? n) && (n <=? 90) then n - 55
  else 36.

Definition digit_char (d : Z) : ascii :=
  ascii_of_nat (Z.to_nat (if d <? 10 then d + 48 else d + 87)).

Lemma digit_val_char d : 0 ≤ d < 36 → digit_val (digit_char d) = d.
Proof.
  intros Hd.
  assert (Hall : forallb (λ n, digit_val (digit_char (Z.of_nat n)) =? Z.of_nat n)
                         (seq 0 36) = true) by (vm_compute; reflexivity).
  rewrite List.forallb_forall in Hall. specialize (Hall (Z.to_nat d)).
  rewrite Z2Nat.id in Hall by lia. apply Z.eqb_eq, Hall, List.in_seq. lia.
Qed.

(** The digit loop of [strconv.ParseUint]: [None] is a syntax error. *)
Fixpoint parse_digits (base acc : Z) (s : string) : option Z :=
  match s with
  | EmptyString => Some acc
  | String c s' =>
      let d := digit_val c in
      if d <? base then parse_digits base (acc * base + d) s' else None
  end.

Definition parse_uint (base : Z) (s : string) : option Z :=
  match s with
  | EmptyString => None
  | _ => parse_digits base 0 s
  end.

(** [strconv.ParseInt(s, base, 64)]: an optional sign, at least one digit, and
    a range check; [None] is any of its errors. *)
Definition parse_int (base : Z) (s : string) : option Z :=
  match s with
  | EmptyString => None
  | String c s' =>
      if bool_decide (c = "-"%char) then
        n ← parse_uint base s';
        if n <=? 2 ^ 63 then Some (- n) else None
      else
        n ← parse_uint base (if bool_decide (c = "+"%char) then s' else s);
        if n <? 2 ^ 63 then Some n else None
  end.

(** [strconv.Atoi]: [int] has 64 bits. *)
Definition Atoi (s : string) : option Z := parse_int 10 s.

(** [strconv.FormatInt] for non-negative values; lower-case digits. *)
Fixpoint format_digits (fuel : nat) (base n : Z) (acc : string) : string :=
  match fuel with
  | O => acc
  | S f =>
      let acc' := String (digit_char (n mod base)) acc in
      if n / base =? 0 then acc' else format_digits f base (n / base) acc'
  end.

Definition format_uint (base n : Z) : string :=
  format_digits (S (Z.to_nat (Z.log2 n))) base n "".

Definition FormatInt (base n : Z) : string :=
  if n <? 0 then String "-" (format_uint base (- n)) else format_uint base n.

(** The [%0wd] verb: zero padding up to the width, the sign counted in it. *)
Fixpoint zeros (n : nat) : string :=
  match n with O => EmptyString | S n => String "0" (zeros n) end.

Definition pad_zeros (width : nat) (s : string) : string :=
  String.append (zeros (width - String.length s)) s.

Definition format_padded (width : nat) (n : Z) : string :=
  if n <? 0 then String "-" (pad_zeros (width - 1) (format_uint 10 (- n)))
  else pad_zeros width (format_uint 10 n).

(** ** Round trips *)

Lemma parse_digits_format fuel base n acc :
  2 ≤ base ≤ 36 → 0 ≤ n < base ^ Z.of_nat fuel →
  parse_digits base 0 (format_digits fuel base n acc) = parse_digits base n acc.
Proof.
  intros Hb. revert n acc. induction fuel as [|f IH]; intros n acc Hn.
  { simpl in Hn. assert (n = 0) as -> by lia. done. }
  cbn [format_digits].
  assert (Hd : 0 ≤ n mod base < base) by (apply Z.mod_pos_bound; lia).
  assert (Hstep : ∀ a, parse_digits base a (String (digit_char (n mod base)) acc)
                       = parse_digits base (a * base + n mod base) acc).
  { intros a. cbn [parse_digits]. rewrite digit_val_char by lia.
    rewrite (proj2 (Z.ltb_lt _ _)) by lia. done. }
  pose proof (Z.div_mod n base ltac:(lia)) as Hdm.
  destruct (Z.eqb_spec (n / base) 0) as [E|E].
  - rewrite Hstep. f_equal. lia.
  - rewrite IH, Hstep; [f_equal; lia|].
    rewrite Nat2Z.inj_succ, Z.pow_succ_r in Hn by lia.
    split; [apply Z.div_pos; lia|]. apply Z.div_lt_upper_bound; lia.
Qed.

Lemma format_digits_nonempty fuel base n acc :
  format_digits (S fuel) base n acc ≠ "".
Proof.
  revert n acc. induction fuel as [|f IH]; intros n acc; cbn [format_digits].
  - by destruct (n / base =? 0).
  - destruct (n / base =? 0); [done|]. apply IH.
Qed.

Lemma format_fuel base n :
  2 ≤ base → 0 ≤ n → n < base ^ Z.of_nat (S (Z.to_nat (Z.log2 n))).
Proof.
  intros Hb Hn. rewrite Nat2Z.inj_succ, Z2Nat.id by apply Z.log2_nonneg.
  destruct (Z.eq_dec n 0) as [->|Hnz]; [simpl; lia|].
  pose proof (proj2 (Z.log2_spec n ltac:(lia))).
  pose proof (Z.pow_le_mono_l 2 base (Z.succ (Z.log2 n)) ltac:(lia)). lia.
Qed.

Lemma parse_uint_format base n :
  2 ≤ base ≤ 36 → 0 ≤ n → parse_uint base (format_uint base n) = Some n.
Proof.
  intros Hb Hn. unfold parse_uint, format_uint.
  pose proof (format_digits_nonempty (Z.to_nat (Z.log2 n)) base n "") as Hne.
  destruct (format_digits _ base n "") as [|c s] eqn:E; [done|].
  rewrite <- E, parse_digits_format; [done|lia|].
  split; [lia|]. apply format_fuel; lia.
Qed.

(** The first character of a formatted natural is a digit, never a sign. *)
Definition starts_with_digit (base : Z) (s : string) : Prop :=
  match s with
  | EmptyString => False
  | String c _ => digit_val c < base
  end.

Lemma format_digits_head fuel base n acc :
  2 ≤ base ≤ 36 →
  starts_with_digit base acc ∨ fuel ≠ O →
  starts_with_digit base (format_digits fuel base n acc).
Proof.
  intros Hb. revert n acc. induction fuel as [|f IH]; intros n acc Ha.
  { by destruct Ha. }
  cbn [format_digits].
  assert (starts_with_digit base (String (digit_char (n mod base)) acc)).
  { cbn [starts_with_digit].
    pose proof (Z.mod_pos_bound n base ltac:(lia)). rewrite digit_val_char; lia. }
  destruct (n / base =? 0); auto.
Qed.

Lemma digit_not_sign base c :
  base ≤ 36 → digit_val c < base → c ≠ "-"%char ∧ c ≠ "+"%char.
Proof.
  intros Hb Hd.
  split; intros ->;
    [change (digit_val "-"%char) with 36 in Hd | change (digit_val "+"%char) with 36 in Hd]; lia.
Qed.

Lemma parse_int_digits base s :
  base ≤ 36 → starts_with_digit base s →
  parse_int base s = (n ← parse_uint base s; if n <? 2 ^ 63 then Some n else None).
Proof.
  intros Hb Hs. destruct s as [|c s]; [done|].
  destruct (digit_not_sign base c Hb Hs) as [H1 H2].
  unfold parse_int. by rewrite !bool_decide_false.
Qed.

Lemma parse_int_format base n :
  2 ≤ base ≤ 36 → 0 ≤ n ≤ max_int64 → parse_int base (FormatInt base n) = Some n.
Proof.
  intros Hb [Hn Hm]. unfold FormatInt, max_int64 in *.
  rewrite (proj2 (Z.ltb_ge n 0)) by lia.
  rewrite parse_int_digits by (try lia; apply format_digits_head; auto with lia).
  rewrite parse_uint_format by lia. cbn [mbind option_bind].
  by rewrite (proj2 (Z.ltb_lt _ _)) by lia.
Qed.

Lemma zeros_length n : String.length (zeros n) = n.
Proof. induction n; simpl; congruence. Qed.

Lemma parse_digits_zeros base n s :
  2 ≤ base → parse_digits base 0 (String.append (zeros n) s) = parse_digits base 0 s.
Proof.
  intros Hb. induction n as [|n IH]; [done|].
  transitivity (if 0 <? base
                then parse_digits base (0 * base + 0) (String.append (zeros n) s) else None);
    [done|].
  rewrite (proj2 (Z.ltb_lt 0 base)) by lia. by rewrite Z.mul_0_l, Z.add_0_r.
Qed.

Lemma parse_uint_digits base s :
  s ≠ "" → parse_uint base s = parse_digits base 0 s.
Proof. by destruct s. Qed.

Lemma digit_val_nonneg c : 0 ≤ digit_val c.
Proof.
  unfold digit_val. cbv zeta. repeat (split_if; [lia|]). lia.
Qed.

(** A decimal digit is a byte from ['0'] to ['9']. *)
Lemma digit_val_decimal c :
  digit_val c < 10 →
  48 ≤ Z.of_nat (nat_of_ascii c) ≤ 57 ∧ digit_val c = Z.of_nat (nat_of_ascii c) - 48.
Proof.
  unfold digit_val. cbv zeta. intros H.
  destruct (_ && _) eqn:E in H; [bool_to_prop|repeat (split_if_in H; [lia|]); lia].
  split; [lia|]. by rewrite (proj2 (Z.leb_le _ _)), (proj2 (Z.leb_le _ _)) by lia.
Qed.

Lemma parse_digits_app base a s t :
  parse_digits base a (String.append s t)
  = (x ← parse_digits base a s; parse_digits base x t).
Proof.
  revert a. induction s as [|c s IH]; intros a; simpl; [done|].
  destruct (digit_val c <? base); [apply IH|done].
Qed.

Lemma parse_digits_acc base a s m :
  0 < base → parse_digits base a s = Some m →
  ∃ n, parse_digits base 0 s = Some n ∧ m = a * base ^ Z.of_nat (String.length s) + n ∧
       0 ≤ n < base ^ Z.of_nat (String.length s).
Proof.
  intros Hb. revert a m. induction s as [|c s IH]; intros a m H.
  { simpl in H. injection H as <-. exists 0. simpl. repeat split; lia. }
  cbn [parse_digits String.length] in *.
  pose proof (digit_val_nonneg c) as Hd0.
  destruct (Z.ltb_spec (digit_val c) base) as [Hd|]; [|done].
  destruct (IH _ _ H) as (n & Hn & -> & Hr).
  destruct (parse_digits base (0 * base + digit_val c) s) as [m'|] eqn:E.
  - destruct (IH _ _ E) as (n' & Hn' & -> & _). simplify_eq.
    exists (digit_val c * base ^ Z.of_nat (String.length s) + n).
    rewrite Nat2Z.inj_succ, Z.pow_succ_r by lia. split_and!; [f_equal; ring|ring|nia|nia].
  - exfalso. clear -Hn E. rewrite Z.mul_0_l, Z.add_0_l in E.
    assert (∀ x y, is_Some (parse_digits base x s) → is_Some (parse_digits base y s)) as Hall.
    { clear. induction s as [|c s IH]; intros x y; simpl; [done|].
      destruct (digit_val c <? base); [apply IH|done]. }
    destruct (Hall 0 (digit_val c) ltac:(eauto)) as [? ?]. congruence.
Qed.

Lemma parse_digits_bound base s n :
  0 < base → parse_digits base 0 s = Some n → 0 ≤ n < base ^ Z.of_nat (String.length s).
Proof.
  intros Hb H. destruct (parse_digits_acc base 0 s n Hb H) as (n' & H' & -> & Hr).
  rewrite Z.mul_0_l, Z.add_0_l in *. done.
Qed.

Lemma parse_digits_head base a s n :
  s ≠ EmptyString → parse_digits base a s = Some n → starts_with_digit base s.
Proof.
  destruct s as [|c s]; [done|]. intros _ H. simpl in *.
  destruct (Z.ltb_spec (digit_val c) base); [lia|done].
Qed.

Lemma parse_digits_pad base w n :
  2 ≤ base ≤ 36 → 0 ≤ n →
  parse_digits base 0 (pad_zeros w (format_uint base n)) = Some n.
Proof.
  intros Hb Hn. unfold pad_zeros. rewrite parse_digits_zeros by lia.
  rewrite <- parse_uint_digits by apply format_digits_nonempty.
  by apply parse_uint_format.
Qed.

(** ** Shape of formatted naturals *)

Fixpoint string_all (P : ascii → bool) (s : string) : bool :=
  match s with
  | EmptyString => true
  | String c s => P c && string_all P s
  end.

Definition is_digit (base : Z) (c : ascii) : bool := digit_val c <? base.

Lemma format_digits_all fuel base n acc :
  2 ≤ base ≤ 36 → string_all (is_digit base) acc = true →
  string_all (is_digit base) (format_digits fuel base n acc) = true.
Proof.
  intros Hb. revert n acc. induction fuel as [|f IH]; intros n acc Ha; [done|].
  cbn [format_digits].
  assert (string_all (is_digit base) (String (digit_char (n mod base)) acc) = true).
  { cbn [string_all]. rewrite Ha, andb_true_r. unfold is_digit.
    pose proof (Z.mod_pos_bound n base ltac:(lia)). rewrite digit_val_char by lia. apply Z.ltb_lt. lia. }
  destruct (n / base =? 0); auto.
Qed.

Lemma format_digits_length fuel base n acc :
  (String.length (format_digits fuel base n acc) ≤ fuel + String.length acc)%nat.
Proof.
  revert n acc. induction fuel as [|f IH]; intros n acc; cbn [format_digits]; [lia|].
  destruct (n / base =? 0); [cbn [String.length]; lia|].
  specialize (IH (n / base) (String (digit_char (n mod base)) acc)). cbn [String.length] in IH. lia.
Qed.

Lemma FormatInt_all base n :
  2 ≤ base ≤ 36 → 0 ≤ n → string_all (is_digit base) (FormatInt base n) = true.
Proof.
  intros Hb Hn. unfold FormatInt. rewrite (proj2 (Z.ltb_ge _ _)) by lia.
  by apply format_digits_all.
Qed.

Lemma FormatInt_length base n :
  0 ≤ n ≤ max_int64 → (String.length (FormatInt base n) ≤ 63)%nat.
Proof.
  intros Hn. unfold FormatInt. rewrite (proj2 (Z.ltb_ge _ _)) by lia. unfold format_uint.
  pose proof (format_digits_length (S (Z.to_nat (Z.log2 n))) base n "") as Hl.
  assert (Z.log2 n ≤ Z.log2 max_int64) by (apply Z.log2_le_mono; lia).
  assert (E : Z.log2 max_int64 = 62) by reflexivity. pose proof (Z.log2_nonneg n).
  change (String.length "") with O in Hl. lia.
Qed.
