(* ===== verification/GoFloat.v ===== *)
(** * Go's [float64]

    IEEE 754 double precision with rounding to nearest, by the executable
    specification of the Standard Library: exact, with no axiom on machine numbers.
    Go leaves open what the conversion of a value that does not fit an integer type
    gives; it is the parameter [unfit] of [to_int64]. *)
From Stdlib Require Export SpecFloat.
From S2P Require Import Prelude GoInt.

Local Open Scope Z_scope.

Notation float64 := spec_float.

Definition of_int (z : Z) : float64 := binary_normalize 53 1024 z 0 false.
Definition fmul : float64 → float64 → float64 := SFmul 53 1024.
Definition fadd : float64 → float64 → float64 := SFadd 53 1024.
Definition fsub : float64 → float64 → float64 := SFsub 53 1024.
Definition fdiv : float64 → float64 → float64 := SFdiv 53 1024.

(** A literal [n/d] with [n] and [d] below 2^53: division rounds once, as the reading
    of a decimal literal does. *)
Definition literal (n d : Z) : float64 := fdiv (of_int n) (of_int d).

(** Truncation towards zero. *)
Definition truncate (f : float64) : option Z :=
  match f with
  | S754_zero _ => Some 0
  | S754_finite s m e => Some (if s then - Z.shiftl (Zpos m) e else Z.shiftl (Zpos m) e)
  | _ => None
  end.

Definition to_int64 (unfit : float64 → Z) (f : float64) : Z :=
  match truncate f with
  | Some z => if decide (in_int64 z) then z else unfit f
  | None => unfit f
  end.

Definition fle : float64 → float64 → bool := SFleb.
Definition flt : float64 → float64 → bool := SFltb.
Definition feq : float64 → float64 → bool := SFeqb.

(** What processors do with a value that does not fit: the smallest integer (amd64). *)
Definition unfit_amd64 (_ : float64) : Z := min_int64.

Example literal_half : literal 19 20 = S754_finite false 8556839292003942 (-53).
Proof. reflexivity. Qed.

Example truncate_product : to_int64 unfit_amd64 (fmul (of_int 20) (literal 19 20)) = 19.
Proof. reflexivity. Qed.

Example unfit_product : to_int64 unfit_amd64 (fmul (of_int (2 ^ 62)) (of_int 2)) = min_int64.
Proof. reflexivity. Qed.
