(* ===== verification/AdaptiveTimeout.v ===== *)
(** * Adaptive timeouts: [internal/handler/adaptive_timeout.go]

    The timeout of an endpoint follows the 95th percentile of its last durations, which
    are kept in a ring buffer and searched with quickselect. Indices of a slice that
    are out of range panic: [None]. Durations and times are nanoseconds; the clock is
    read up to three times in a call, its answers are arguments. *)
From stdpp Require Import sorting.
From S2P Require Import Prelude GoInt GoFloat.

Local Open Scope Z_scope.

(** ** Quickselect *)

(** [arr[i], arr[j] = arr[j], arr[i]]. *)
Definition swap (arr : list Z) (i j : nat) : option (list Z) :=
  x ← arr !! i; y ← arr !! j; Some (<[i := y]> (<[j := x]> arr)).

(** The loop of [partition], with [n] rounds left. *)
Fixpoint partition_loop (n : nat) (pivot : Z) (arr : list Z) (i j : nat) : option (nat * list Z) :=
  match n with
  | O => Some (i, arr)
  | S n =>
      x ← arr !! j;
      if x <=? pivot then arr ← swap arr i j; partition_loop n pivot arr (S i) (S j)
      else partition_loop n pivot arr i (S j)
  end.

Definition partition (arr : list Z) (left right : nat) : option (nat * list Z) :=
  pivot ← arr !! right;
  '(i, arr) ← partition_loop (right - left) pivot arr left left;
  arr ← swap arr i right;
  Some (i, arr).

(** [pivotIndex - 1] is only taken of an index above [k]. *)
Fixpoint quickselect (fuel : nat) (arr : list Z) (left right k : nat) : option Z :=
  match fuel with
  | O => None
  | S fuel =>
      if (left =? right)%nat then arr !! left
      else
        '(pivotIndex, arr) ← partition arr left right;
        if (k =? pivotIndex)%nat then arr !! k
        else if (k <? pivotIndex)%nat then quickselect fuel arr left (pivotIndex - 1) k
        else quickselect fuel arr (S pivotIndex) right k
  end.

(** ** The statistics of an endpoint *)

Record endpointStats := {
  es_lastAdjust : Z; es_durations : list Z; es_head : nat; es_count : nat; es_totalCount : Z; es_sampleSize : nat
}.

Definition newStats (sampleSize : nat) (now : Z) : endpointStats :=
  {| es_lastAdjust := now; es_durations := replicate sampleSize 0; es_head := 0; es_count := 0; es_totalCount := 0; es_sampleSize := sampleSize |}.

Definition insertDuration (d : Z) (st : endpointStats) : option endpointStats :=
  if decide (es_head st < length (es_durations st))%nat then
    Some {| es_lastAdjust := es_lastAdjust st; es_durations := <[es_head st := d]> (es_durations st);
            es_head := S (es_head st) mod es_sampleSize st;
            es_count := if (es_count st <? es_sampleSize st)%nat then S (es_count st) else es_count st;
            es_totalCount := add64 (es_totalCount st) 1; es_sampleSize := es_sampleSize st |}
  else None.

Definition with_lastAdjust (now : Z) (st : endpointStats) : endpointStats :=
  {| es_lastAdjust := now; es_durations := es_durations st; es_head := es_head st; es_count := es_count st;
     es_totalCount := es_totalCount st; es_sampleSize := es_sampleSize st |}.

(** The copy that is searched. *)
Definition active (st : endpointStats) : list Z :=
  if (es_count st <? es_sampleSize st)%nat then take (es_count st) (es_durations st)
  else take (es_count st) (drop (es_head st) (es_durations st) ++ take (es_head st) (es_durations st)).

(** ** The tracker *)

Definition endpointKey : Type := string * string.

Record AdaptiveTimeoutConfig := {
  SampleSize : Z; AdjustmentInterval : Z; AdjustmentFrequency : Z; SafetyMultiplier : float64; MinTimeout : Z; MaxTimeout : Z; FallbackTimeout : Z
}.

Record AdaptiveTimeoutTracker := {
  at_stats : gmap endpointKey endpointStats; at_currentTimeout : gmap endpointKey Z;
  at_sampleSize : nat; at_interval : Z; at_freq : Z; at_multiplier : float64; at_min : Z; at_max : Z; at_fallback : Z
}.

Definition second : Z := 1000000000.
Definition DefaultSampleSize : Z := 1000.
Definition DefaultAdjustmentInterval : Z := 10 * second.
Definition DefaultAdjustmentFrequency : Z := 100.
Definition DefaultSafetyMultiplier : float64 := of_int 2.
Definition DefaultMinTimeout : Z := 10 * 1000000.
Definition DefaultMaxTimeout : Z := 60 * second.
Definition DefaultFallbackTimeout : Z := 30 * second.
Definition MinDataPoints : nat := 100.

Definition DefaultAdaptiveTimeoutConfig : AdaptiveTimeoutConfig :=
  {| SampleSize := DefaultSampleSize; AdjustmentInterval := DefaultAdjustmentInterval; AdjustmentFrequency := DefaultAdjustmentFrequency;
     SafetyMultiplier := DefaultSafetyMultiplier; MinTimeout := DefaultMinTimeout; MaxTimeout := DefaultMaxTimeout;
     FallbackTimeout := DefaultFallbackTimeout |}.

Definition positive_or (d z : Z) : Z := if z <=? 0 then d else z.

Definition NewAdaptiveTimeoutTracker (cfg : AdaptiveTimeoutConfig) : AdaptiveTimeoutTracker :=
  {| at_stats := ∅; at_currentTimeout := ∅; at_sampleSize := Z.to_nat (positive_or DefaultSampleSize (SampleSize cfg));
     at_interval := positive_or DefaultAdjustmentInterval (AdjustmentInterval cfg);
     at_freq := positive_or DefaultAdjustmentFrequency (AdjustmentFrequency cfg);
     at_multiplier := if fle (SafetyMultiplier cfg) (of_int 0) then DefaultSafetyMultiplier else SafetyMultiplier cfg;
     at_min := positive_or DefaultMinTimeout (MinTimeout cfg); at_max := positive_or DefaultMaxTimeout (MaxTimeout cfg);
     at_fallback := positive_or DefaultFallbackTimeout (FallbackTimeout cfg) |}.

Definition with_stats (stats : gmap endpointKey endpointStats) (t : AdaptiveTimeoutTracker) : AdaptiveTimeoutTracker :=
  {| at_stats := stats; at_currentTimeout := at_currentTimeout t; at_sampleSize := at_sampleSize t; at_interval := at_interval t;
     at_freq := at_freq t; at_multiplier := at_multiplier t; at_min := at_min t; at_max := at_max t; at_fallback := at_fallback t |}.

Definition with_timeouts (timeouts : gmap endpointKey Z) (t : AdaptiveTimeoutTracker) : AdaptiveTimeoutTracker :=
  {| at_stats := at_stats t; at_currentTimeout := timeouts; at_sampleSize := at_sampleSize t; at_interval := at_interval t;
     at_freq := at_freq t; at_multiplier := at_multiplier t; at_min := at_min t; at_max := at_max t; at_fallback := at_fallback t |}.

Section Tracker.
(** What converting a float that does not fit gives. *)
Context (unfit : float64 → Z).

(** [int(float64(n) * 0.95)], at most [n - 1]. *)
Definition p95Index (n : nat) : Z :=
  let index := to_int64 unfit (fmul (of_int (Z.of_nat n)) (literal 19 20)) in
  if Z.of_nat n <=? index then Z.of_nat n - 1 else index.

Definition calculateP95 (t : AdaptiveTimeoutTracker) (st : endpointStats) : option Z :=
  if (es_count st =? 0)%nat then Some (at_fallback t)
  else
    let arr := active st in
    let index := p95Index (length arr) in
    if index <? 0 then None else quickselect (length arr) arr 0 (length arr - 1) (Z.to_nat index).

Definition clampTimeout (t : AdaptiveTimeoutTracker) (timeout : Z) : Z :=
  let timeout := if timeout <? at_min t then at_min t else timeout in
  if at_max t <? timeout then at_max t else timeout.

Definition scaledTimeout (t : AdaptiveTimeoutTracker) (p95 : Z) : Z :=
  clampTimeout t (to_int64 unfit (fmul (of_int p95) (at_multiplier t))).

Definition adjustTimeout (key : endpointKey) (st : endpointStats) (t : AdaptiveTimeoutTracker) : option AdaptiveTimeoutTracker :=
  p95 ← calculateP95 t st; Some (with_timeouts (<[key := scaledTimeout t p95]> (at_currentTimeout t)) t).

(** [created], [checked] and [adjusted] are the readings of the clock. *)
Definition RecordDuration (key : endpointKey) (duration created checked adjusted : Z) (t : AdaptiveTimeoutTracker)
  : option AdaptiveTimeoutTracker :=
  let st := default (newStats (at_sampleSize t) created) (at_stats t !! key) in
  st ← insertDuration duration st;
  let shouldAdjust := (rem64 (es_totalCount st) (at_freq t) =? 0) || (at_interval t <=? sub64 checked (es_lastAdjust st)) in
  if shouldAdjust && (MinDataPoints <=? es_count st)%nat then
    let st := with_lastAdjust adjusted st in
    adjustTimeout key st (with_stats (<[key := st]> (at_stats t)) t)
  else Some (with_stats (<[key := st]> (at_stats t)) t).

Definition GetTimeout (key : endpointKey) (t : AdaptiveTimeoutTracker) : Z := default (at_fallback t) (at_currentTimeout t !! key).

(** ** Quickselect finds the k-th smallest *)

Lemma lookup_mid {A} (a c : list A) x : (a ++ x :: c) !! length a = Some x.
Proof using. by apply list_lookup_middle. Qed.

Lemma insert_mid {A} (a c : list A) x y : <[length a := y]> (a ++ x :: c) = a ++ y :: c.
Proof using. rewrite insert_app_r_alt, Nat.sub_diag by lia. done. Qed.

Lemma mid_after {A} (a b c : list A) (x y : A) : a ++ x :: b ++ y :: c = (a ++ x :: b) ++ y :: c.
Proof using. by rewrite <- app_assoc. Qed.

Lemma swap_apart a x b y c : swap (a ++ x :: b ++ y :: c) (length a) (length a + S (length b)) = Some (a ++ y :: b ++ x :: c).
Proof using.
  unfold swap. rewrite lookup_mid. cbn [mbind option_bind].
  replace (length a + S (length b))%nat with (length (a ++ x :: b)) by (rewrite length_app; done).
  rewrite mid_after, lookup_mid. cbn [mbind option_bind]. by rewrite insert_mid, <- mid_after, insert_mid.
Qed.

Lemma swap_same a x c : swap (a ++ x :: c) (length a) (length a) = Some (a ++ x :: c).
Proof using. unfold swap. rewrite lookup_mid. cbn [mbind option_bind]. by rewrite !insert_mid. Qed.

(** A swap that moves [y] to the end of [a], over the elements [hi]. *)
Lemma swap_over a hi y c : ∃ hi', swap (a ++ hi ++ y :: c) (length a) (length a + length hi) = Some ((a ++ [y]) ++ hi' ++ c) ∧ hi' ≡ₚ hi.
Proof using.
  destruct hi as [|h hi].
  - exists []. cbn [length app]. rewrite Nat.add_0_r, swap_same. by rewrite <- app_assoc.
  - exists (hi ++ [h]). cbn [length app]. rewrite swap_apart. split; [f_equal; by rewrite <- !app_assoc|].
    by rewrite Permutation_app_comm.
Qed.
Lemma partition_loop_spec n : ∀ pre lo hi rest pivot post, length rest = n → Forall (λ y, y ≤ pivot) lo → Forall (λ y, pivot < y) hi →
  ∃ lo' hi', partition_loop n pivot (pre ++ lo ++ hi ++ rest ++ post) (length pre + length lo) (length pre + length lo + length hi) =
      Some ((length pre + length lo')%nat, pre ++ lo' ++ hi' ++ post) ∧
    lo' ++ hi' ≡ₚ lo ++ hi ++ rest ∧ Forall (λ y, y ≤ pivot) lo' ∧ Forall (λ y, pivot < y) hi'.
Proof using.
  induction n as [|n IH]; intros pre lo hi rest pivot post Hn Hlo Hhi.
  { apply nil_length_inv in Hn as ->. exists lo, hi. by rewrite app_nil_r. }
  destruct rest as [|x rest]; [done|]. injection Hn as Hn. cbn [partition_loop].
  assert (E : (pre ++ lo ++ hi ++ (x :: rest) ++ post) !! (length pre + length lo + length hi)%nat = Some x).
  { rewrite <- !length_app, !app_assoc, <- (app_assoc _ (x :: rest)). apply lookup_mid. }
  rewrite E. cbn [mbind option_bind]. destruct (Z.leb_spec x pivot) as [Hx|Hx].
  - destruct (swap_over (pre ++ lo) hi x (rest ++ post)) as (hi' & Esw & Hp). rewrite length_app in Esw. rewrite <- !app_assoc in Esw. cbn [app] in *.
    rewrite Esw. cbn [mbind option_bind]. destruct (IH pre (lo ++ [x]) hi' rest pivot post Hn) as (lo' & hi'' & El & Hpl & ? & ?).
    + apply Forall_app. by split; [|constructor].
    + by rewrite Hp.
    + exists lo', hi''. rewrite length_app, (Permutation_length Hp) in El. cbn [length app] in El. rewrite <- !app_assoc in El. cbn [app] in El.
      replace (S (length pre + length lo))%nat with (length pre + (length lo + 1))%nat by lia.
      replace (S (length pre + length lo + length hi))%nat with (length pre + (length lo + 1) + length hi)%nat by lia.
      split_and!; [exact El| |done|done]. rewrite Hpl, Hp, <- app_assoc. cbn [app]. f_equiv. by rewrite Permutation_middle.
  - destruct (IH pre lo (hi ++ [x]) rest pivot post Hn Hlo) as (lo' & hi'' & El & Hpl & ? & ?).
    + apply Forall_app. by split; [|constructor].
    + exists lo', hi''. rewrite length_app in El. cbn [length] in El. rewrite <- !app_assoc in El. cbn [app] in *.
      replace (S (length pre + length lo + length hi))%nat with (length pre + length lo + (length hi + 1))%nat by lia.
      split_and!; [exact El| |done|done]. by rewrite Hpl, <- app_assoc.
Qed.

Lemma partition_spec pre mid p post : ∃ lo hi,
  partition (pre ++ mid ++ p :: post) (length pre) (length pre + length mid) = Some ((length pre + length lo)%nat, pre ++ lo ++ p :: hi ++ post) ∧
  lo ++ p :: hi ≡ₚ mid ++ [p] ∧ Forall (λ y, y ≤ p) lo ∧ Forall (λ y, p ≤ y) hi.
Proof using.
  unfold partition. assert (E : (pre ++ mid ++ p :: post) !! (length pre + length mid)%nat = Some p)
    by (rewrite <- length_app, app_assoc; apply lookup_mid).
  rewrite E. cbn [mbind option_bind].
  destruct (partition_loop_spec (length pre + length mid - length pre) pre [] [] mid p (p :: post)) as (lo & hi & El & Hp & Hlo & Hhi); [lia|done|done|].
  cbn [length app] in El. rewrite !Nat.add_0_r in El. rewrite El. cbn [mbind option_bind]. cbn [app] in Hp.
  destruct (swap_over (pre ++ lo) hi p post) as (hi' & Esw & Hph). rewrite <- !app_assoc, length_app in Esw. cbn [app] in Esw.
  replace (length pre + length mid)%nat with (length pre + length lo + length hi)%nat by (rewrite <- (Permutation_length Hp), length_app; lia).
  rewrite Esw. cbn [mbind option_bind]. exists lo, hi'. split_and!; [done| |done|].
  - by rewrite Hph, <- Hp, <- app_assoc, Permutation_cons_append.
  - rewrite Hph. eapply Forall_impl; [exact Hhi|]. cbn. lia.
Qed.

(** What is searched is found: [x] with at most as large elements before and at
    least as large ones after it. *)
Lemma quickselect_spec fuel : ∀ pre mid post k, (length mid ≤ fuel)%nat → (length pre ≤ k < length pre + length mid)%nat →
  ∃ x l1 l2, quickselect fuel (pre ++ mid ++ post) (length pre) (length pre + length mid - 1) k = Some x ∧
    l1 ++ x :: l2 ≡ₚ mid ∧ length l1 = (k - length pre)%nat ∧ Forall (λ y, y ≤ x) l1 ∧ Forall (λ y, x ≤ y) l2.
Proof using.
  induction fuel as [|fuel IH]; intros pre mid post k Hf Hk; [lia|]. cbn [quickselect].
  destruct (Nat.eqb_spec (length pre) (length pre + length mid - 1)) as [E|Hne].
  { destruct mid as [|x [|]]; cbn [length] in *; [lia| |lia]. exists x, [], []. cbn [app]. rewrite lookup_mid. split_and!; try done. cbn. lia. }
  destruct mid as [|p mid _] using rev_ind; cbn [length] in *; [lia|]. rewrite length_app in *. cbn [length] in *.
  destruct (partition_spec pre mid p post) as (lo & hi & Ep & Hperm & Hlo & Hhi). rewrite <- (app_assoc mid). cbn [app].
  replace (length pre + (length mid + 1) - 1)%nat with (length pre + length mid)%nat by lia. rewrite Ep. cbn [mbind option_bind].
  assert (Hlen : (length lo + length hi)%nat = length mid).
  { apply Permutation_length in Hperm. rewrite !length_app in Hperm. cbn [length] in Hperm. lia. }
  destruct (Nat.eqb_spec k (length pre + length lo)) as [->|Hkne]; [|destruct (Nat.ltb_spec k (length pre + length lo)) as [Hlt|Hge]].
  - exists p, lo, hi. rewrite <- length_app, app_assoc, lookup_mid. split_and!; [done|done|rewrite length_app; lia|done|done].
  - destruct (IH pre lo (p :: hi ++ post) k ltac:(lia) ltac:(lia)) as (x & l1 & l2 & E & Hp & Hl & H1 & H2).
    exists x, l1, (l2 ++ p :: hi). split_and!; [exact E| |done|done|].
    + rewrite <- Hperm, <- Hp, <- app_assoc. done.
    + assert (x ≤ p) by (rewrite Forall_forall in Hlo; apply Hlo; rewrite <- Hp; set_solver).
      apply Forall_app. split; [done|]. constructor; [done|]. eapply Forall_impl; [exact Hhi|]. cbn. lia.
  - destruct (IH (pre ++ lo ++ [p]) hi post k) as (x & l1 & l2 & E & Hp & Hl & H1 & H2); [lia|rewrite !length_app; cbn; lia|].
    exists x, (lo ++ p :: l1), l2. rewrite !length_app in *. cbn [length] in *. rewrite <- !app_assoc in E. cbn [app] in E.
    replace (length pre + (length lo + 1) + length hi - 1)%nat with (length pre + length mid)%nat in E by lia.
    replace (length pre + (length lo + 1))%nat with (S (length pre + length lo)) in * by lia. split_and!; [exact E| |lia| |done].
    + rewrite <- Hperm, <- app_assoc. cbn [app]. by rewrite Hp.
    + assert (p ≤ x) by (rewrite Forall_forall in Hhi; apply Hhi; rewrite <- Hp; set_solver).
      apply Forall_app. split; [|by constructor]. eapply Forall_impl; [exact Hlo|]. cbn. lia.
Qed.

Lemma sorted_at l l1 x l2 : l1 ++ x :: l2 ≡ₚ l → Forall (λ y, y ≤ x) l1 → Forall (λ y, x ≤ y) l2 → merge_sort Z.le l !! length l1 = Some x.
Proof using.
  intros Hp H1 H2. assert (E : merge_sort Z.le l = merge_sort Z.le l1 ++ x :: merge_sort Z.le l2).
  { apply (StronglySorted_unique Z.le).
    - apply StronglySorted_merge_sort; apply _.
    - apply StronglySorted_app_2.
      + intros a b. rewrite elem_of_cons, !merge_sort_Permutation. rewrite Forall_forall in H1, H2. intros Ha [->|Hb]; [by apply H1|].
        etrans; [by apply H1|by apply H2].
      + apply StronglySorted_merge_sort; apply _.
      + constructor; [apply StronglySorted_merge_sort; apply _|]. by rewrite merge_sort_Permutation.
    - by rewrite !merge_sort_Permutation. }
  rewrite E. replace (length l1) with (length (merge_sort Z.le l1)) by (by rewrite merge_sort_Permutation). apply lookup_mid.
Qed.

Lemma quickselect_sorted arr k : (k < length arr)%nat → quickselect (length arr) arr 0 (length arr - 1) k = merge_sort Z.le arr !! k.
Proof using.
  intros Hk. destruct (quickselect_spec (length arr) [] arr [] k) as (x & l1 & l2 & E & Hp & Hl & H1 & H2); [lia|cbn; lia|].
  cbn [length app Nat.add] in E. rewrite app_nil_r in E. rewrite E. cbn in Hl. rewrite Nat.sub_0_r in Hl. rewrite <- Hl. symmetry. by eapply sorted_at.
Qed.
(** ** The ring buffer keeps the last durations *)

Definition rotated (st : endpointStats) : list Z := drop (es_head st) (es_durations st) ++ take (es_head st) (es_durations st).

(** The statistics after the durations [hist]. *)
Record stats_ok (size : nat) (hist : list Z) (st : endpointStats) : Prop := {
  so_size : es_sampleSize st = size;
  so_length : length (es_durations st) = size;
  so_head : es_head st = (length hist mod size)%nat;
  so_count : es_count st = (length hist `min` size)%nat;
  so_total : es_totalCount st = Z.of_nat (length hist);
  so_ring : drop (size - length hist) (rotated st) = drop (length hist - size) hist
}.

Lemma rotate_step (D : list Z) h d : (h < length D)%nat →
  let h' := (S h mod length D)%nat in
  drop h' (<[h := d]> D) ++ take h' (<[h := d]> D) = drop 1 (drop h D ++ take h D) ++ [d].
Proof using.
  intros Hh. destruct (lookup_lt_is_Some_2 D h Hh) as [x Hx]. apply list_elem_of_split_length in Hx as (a & b & -> & ->).
  cbv zeta. rewrite insert_mid, drop_app_length, take_app_length, length_app. cbn [length drop app].
  destruct b as [|y b].
  - replace (S (length a)) with (length a + 1)%nat by lia. rewrite Nat.Div0.mod_same. cbn [drop take app]. by rewrite app_nil_r.
  - rewrite Nat.mod_small by (cbn; lia). replace (S (length a)) with (length (a ++ [d])) by (rewrite length_app; cbn; lia).
    replace (a ++ d :: y :: b) with ((a ++ [d]) ++ y :: b) by (by rewrite <- app_assoc).
    rewrite drop_app_length, take_app_length, drop_0. by rewrite <- app_assoc.
Qed.

Lemma newStats_ok size now : stats_ok size [] (newStats size now).
Proof using.
  split; cbn; try done; [apply length_replicate|by rewrite Nat.Div0.mod_0_l|].
  unfold rotated. cbn. rewrite take_0, app_nil_r, drop_0, Nat.sub_0_r, drop_ge; [done|]. rewrite length_replicate. lia.
Qed.

Lemma drop_snoc {A} n (l : list A) x : (n ≤ length l)%nat → drop n (l ++ [x]) = drop n l ++ [x].
Proof using. intros. rewrite drop_app_le by done. done. Qed.

Lemma insertDuration_ok size hist st d : (0 < size)%nat → Z.of_nat (length hist) < max_int64 → stats_ok size hist st →
  ∃ st', insertDuration d st = Some st' ∧ stats_ok size (hist ++ [d]) st' ∧ es_lastAdjust st' = es_lastAdjust st.
Proof using.
  intros Hs Hmax [Hsz Hlen Hhead Hcount Htotal Hring]. unfold insertDuration. rewrite Hsz, Hlen.
  assert (Hlt : (es_head st < size)%nat) by (rewrite Hhead; apply Nat.mod_upper_bound; lia).
  rewrite decide_True by done. eexists. split; [reflexivity|]. split; [|done].
  assert (Hn : length (hist ++ [d]) = S (length hist)) by (rewrite length_app; cbn; lia).
  split; cbn [es_sampleSize es_durations es_head es_count es_totalCount]; rewrite ?Hn; [done|by rewrite length_insert| | | |].
  - rewrite Hhead, <- Nat.add_1_r, Nat.Div0.add_mod_idemp_l. f_equal. lia.
  - rewrite Hcount. destruct (Nat.ltb_spec (length hist `min` size) size); lia.
  - rewrite Htotal. unfold add64. rewrite wrap64_id; [lia|]. unfold in_int64, min_int64, max_int64 in *. lia.
  - unfold rotated in *. cbn [es_durations es_head]. pose proof (rotate_step (es_durations st) (es_head st) d ltac:(lia)) as Hrot. cbv zeta in Hrot.
    rewrite Hlen in Hrot. rewrite Hrot.
    set (rot := drop (es_head st) (es_durations st) ++ take (es_head st) (es_durations st)) in *.
    assert (Hr : length rot = size) by (unfold rot; rewrite length_app, length_drop, length_take; lia).
    rewrite drop_snoc by (rewrite length_drop; lia). rewrite drop_drop.
    destruct (Nat.lt_ge_cases (length hist) size) as [Hlt'|Hge].
    + replace (1 + (size - S (length hist)))%nat with (size - length hist)%nat by lia. rewrite Hring.
      replace (length hist - size)%nat with 0%nat by lia. replace (S (length hist) - size)%nat with 0%nat by lia. by rewrite !drop_0.
    + replace (size - S (length hist))%nat with 0%nat by lia. replace (size - length hist)%nat with 0%nat in Hring by lia.
      rewrite drop_0 in Hring. rewrite Nat.add_0_r, Hring, drop_drop. replace (S (length hist) - size)%nat with (length hist - size + 1)%nat by lia.
      rewrite drop_snoc by lia. done.
Qed.

(** The last [size] durations are what is searched. *)
Definition window (size : nat) (hist : list Z) : list Z := drop (length hist - size) hist.

Lemma length_window size hist : length (window size hist) = (length hist `min` size)%nat.
Proof using. unfold window. rewrite length_drop. lia. Qed.

Lemma active_window size hist st : stats_ok size hist st → active st = window size hist.
Proof using.
  intros [Hsz Hlen Hhead Hcount Htotal Hring]. unfold active, window. rewrite Hsz, Hcount.
  destruct (Nat.ltb_spec (length hist `min` size) size) as [Hlt|Hge].
  - assert (Hh : es_head st = length hist) by (rewrite Hhead; apply Nat.mod_small; lia). unfold rotated in Hring.
    rewrite Hh, drop_app_ge in Hring by (rewrite length_drop; lia). rewrite length_drop, Hlen, Nat.sub_diag, drop_0 in Hring.
    by replace (length hist `min` size)%nat with (length hist) by lia.
  - fold (rotated st). replace (size - length hist)%nat with 0%nat in Hring by lia. rewrite drop_0 in Hring.
    rewrite Hring, take_ge; [done|]. rewrite length_drop. lia.
Qed.

(** ** The 95th percentile *)

Lemma index_range n : (1 ≤ n)%nat → 0 ≤ 19 * Z.of_nat n / 20 < Z.of_nat n.
Proof using. intros Hn. split; [apply Z.div_pos; lia|apply Z.div_lt_upper_bound; lia]. Qed.

(** The index for as many durations as the default configuration keeps, by computing
    it for each of them. *)
Lemma p95Index_small n : (1 ≤ n ≤ 1000)%nat → p95Index n = 19 * Z.of_nat n / 20.
Proof using.
  intros Hn. assert (H : forallb (λ n, bool_decide (truncate (fmul (of_int (Z.of_nat n)) (literal 19 20)) = Some (19 * Z.of_nat n / 20))) (seq 1 1000) = true)
    by (vm_compute; reflexivity).
  rewrite forallb_forall in H. specialize (H n). rewrite in_seq in H. specialize (H ltac:(lia)). apply bool_decide_eq_true in H.
  pose proof (index_range n ltac:(lia)). unfold p95Index, to_int64. rewrite H. rewrite decide_True; [|unfold in_int64, min_int64, max_int64; lia].
  destruct (Z.leb_spec (Z.of_nat n) (19 * Z.of_nat n / 20)); [lia|done].
Qed.

(** The 95th percentile of a window: a value of it than which at most 95% of the window
    are smaller, and more than 95% are not larger. *)
Definition smaller (x : Z) (w : list Z) : nat := length (List.filter (λ y, y <? x) w).
Definition not_larger (x : Z) (w : list Z) : nat := length (List.filter (λ y, y <=? x) w).

Definition percentile95 (x : Z) (w : list Z) : bool :=
  (20 * Z.of_nat (smaller x w) <=? 19 * Z.of_nat (length w)) && (19 * Z.of_nat (length w) <? 20 * Z.of_nat (not_larger x w)).

Definition p95 (w : list Z) : Z := default 0 (List.find (λ x, percentile95 x w) w).

Lemma not_larger_smaller x y w : x < y → (not_larger x w ≤ smaller y w)%nat.
Proof using.
  intros Hxy. unfold not_larger, smaller. induction w as [|z w IH]; [done|]. cbn [List.filter].
  destruct (Z.leb_spec z x), (Z.ltb_spec z y); cbn [length]; lia.
Qed.

Lemma percentile95_unique x y w : percentile95 x w = true → percentile95 y w = true → x = y.
Proof using.
  unfold percentile95. rewrite !andb_true_iff, !Z.leb_le, !Z.ltb_lt. intros [Hx1 Hx2] [Hy1 Hy2].
  destruct (Z.lt_trichotomy x y) as [H|[->|H]]; [|done|]; apply (not_larger_smaller _ _ w) in H; lia.
Qed.

Lemma p95_unique x w : x ∈ w → percentile95 x w = true → p95 w = x.
Proof using.
  intros Hin Hx. unfold p95. destruct (List.find _ w) as [y|] eqn:E.
  - apply find_some in E as [_ Hy]. by apply (percentile95_unique _ _ w).
  - pose proof (find_none _ _ E x (proj1 (list_elem_of_In _ _) Hin)) as Hn. cbn in Hn. congruence.
Qed.

Lemma filterb_none {A} (f : A → bool) l : Forall (λ y, f y = false) l → List.filter f l = [].
Proof using. induction 1 as [|y l Hy _ IH]; [done|]. cbn. by rewrite Hy. Qed.

Lemma filterb_all {A} (f : A → bool) l : Forall (λ y, f y = true) l → List.filter f l = l.
Proof using. induction 1 as [|y l Hy _ IH]; [done|]. cbn. by rewrite Hy, IH. Qed.

Lemma filter_perm_length {A} (f : A → bool) l l' : l ≡ₚ l' → length (List.filter f l) = length (List.filter f l').
Proof using. induction 1 as [|x l l' _ IH|x y l|l1 l2 l3 _ IH1 _ IH2]; cbn; [done|destruct (f x); cbn; congruence|by destruct (f x), (f y)|congruence]. Qed.

(** What has its place in the sorted window at 19/20 of the length is the percentile. *)
Lemma split_percentile95 w l1 x l2 : l1 ++ x :: l2 ≡ₚ w → Z.of_nat (length l1) = 19 * Z.of_nat (length w) / 20 →
  Forall (λ y, y ≤ x) l1 → Forall (λ y, x ≤ y) l2 → percentile95 x w = true.
Proof using.
  intros Hp Hl H1 H2. unfold percentile95, smaller, not_larger. rewrite <- !(filter_perm_length _ _ _ Hp), !List.filter_app. cbn [List.filter].
  rewrite Z.ltb_irrefl, Z.leb_refl, (filterb_none _ l2) by (eapply Forall_impl; [exact H2|]; intros y Hy; by apply Z.ltb_ge).
  rewrite (filterb_all (λ y, y <=? x) l1) by (eapply Forall_impl; [exact H1|]; intros y Hy; by apply Z.leb_le).
  rewrite app_nil_r, length_app. cbn [length]. pose proof (List.filter_length_le (λ y, y <? x) l1).
  pose proof (Z.div_mod (19 * Z.of_nat (length w)) 20 ltac:(lia)). pose proof (Z.mod_pos_bound (19 * Z.of_nat (length w)) 20 ltac:(lia)).
  rewrite andb_true_iff, Z.leb_le, Z.ltb_lt. lia.
Qed.

Lemma calculateP95_window t size hist st : stats_ok size hist st → (1 ≤ size ≤ 1000)%nat → hist ≠ [] →
  calculateP95 t st = Some (p95 (window size hist)).
Proof using.
  intros Hst Hs Hne. assert (0 < length hist)%nat by (destruct hist; [done|cbn; lia]).
  unfold calculateP95. rewrite (so_count _ _ _ Hst), (active_window _ _ _ Hst). destruct (Nat.eqb_spec (length hist `min` size) 0); [lia|].
  pose proof (length_window size hist) as Hw. set (w := window size hist) in *.
  pose proof (p95Index_small (length w) ltac:(lia)) as Ei. pose proof (index_range (length w) ltac:(lia)) as Hi.
  destruct (Z.ltb_spec (p95Index (length w)) 0); [lia|].
  destruct (quickselect_spec (length w) [] w [] (Z.to_nat (p95Index (length w)))) as (x & l1 & l2 & E & Hp & Hl & H1 & H2); [lia|cbn [length]; lia|].
  rewrite app_nil_r in E. cbn [app length] in E. change (0 + length w - 1)%nat with (length w - 1)%nat in E. rewrite E. f_equal. symmetry. apply p95_unique.
  - rewrite <- Hp. set_solver.
  - apply (split_percentile95 w l1 x l2); [done| |done|done]. cbn [length] in Hl. lia.
Qed.
(** ** The tracker *)

(** A call of [RecordDuration] with what the clock answers. *)
Record Call := { cl_key : endpointKey; cl_duration : Z; cl_created : Z; cl_checked : Z; cl_adjusted : Z }.

Definition record (c : Call) : AdaptiveTimeoutTracker → option AdaptiveTimeoutTracker :=
  RecordDuration (cl_key c) (cl_duration c) (cl_created c) (cl_checked c) (cl_adjusted c).

Fixpoint recordAll (cs : list Call) (t : AdaptiveTimeoutTracker) : option AdaptiveTimeoutTracker :=
  match cs with [] => Some t | c :: cs => t ← record c t; recordAll cs t end.

(** An endpoint by itself: all its durations, when its timeout was last adjusted, and
    the timeout. It is adjusted with every [freq]-th duration or when the interval is
    over, once there are enough durations. *)
Record Endpoint := { ep_history : list Z; ep_last : Z; ep_timeout : option Z }.

Definition observe (t : AdaptiveTimeoutTracker) (c : Call) (e : option Endpoint) : Endpoint :=
  let e := default {| ep_history := []; ep_last := cl_created c; ep_timeout := None |} e in
  let hist := ep_history e ++ [cl_duration c] in
  let due := (Z.rem (Z.of_nat (length hist)) (at_freq t) =? 0) || (at_interval t <=? sub64 (cl_checked c) (ep_last e)) in
  if due && (MinDataPoints <=? length hist `min` at_sampleSize t)%nat then
    {| ep_history := hist; ep_last := cl_adjusted c; ep_timeout := Some (scaledTimeout t (p95 (window (at_sampleSize t) hist))) |}
  else {| ep_history := hist; ep_last := ep_last e; ep_timeout := ep_timeout e |}.

Definition observeAll (t : AdaptiveTimeoutTracker) (key : endpointKey) (cs : list Call) (e : option Endpoint) : option Endpoint :=
  foldl (λ e c, if decide (cl_key c = key) then Some (observe t c e) else e) e cs.

Definition same_settings (t t' : AdaptiveTimeoutTracker) : Prop :=
  at_sampleSize t' = at_sampleSize t ∧ at_interval t' = at_interval t ∧ at_freq t' = at_freq t ∧ at_multiplier t' = at_multiplier t ∧
  at_min t' = at_min t ∧ at_max t' = at_max t ∧ at_fallback t' = at_fallback t.

Definition endpoint_ok (t : AdaptiveTimeoutTracker) (key : endpointKey) (e : option Endpoint) : Prop :=
  match e with
  | None => at_stats t !! key = None ∧ at_currentTimeout t !! key = None
  | Some e => ∃ st, at_stats t !! key = Some st ∧ stats_ok (at_sampleSize t) (ep_history e) st ∧ es_lastAdjust st = ep_last e ∧
      at_currentTimeout t !! key = ep_timeout e
  end.

Lemma with_lastAdjust_ok size hist now st : stats_ok size hist st → stats_ok size hist (with_lastAdjust now st).
Proof using. by intros [? ? ? ? ? ?]. Qed.

Lemma record_ok t c e : (1 ≤ at_sampleSize t ≤ 1000)%nat → endpoint_ok t (cl_key c) e →
  Z.of_nat (length (default [] (ep_history <$> e))) < max_int64 →
  ∃ t', record c t = Some t' ∧ same_settings t t' ∧ endpoint_ok t' (cl_key c) (Some (observe t c e)) ∧
    ∀ key e, key ≠ cl_key c → endpoint_ok t key e → endpoint_ok t' key e.
Proof using.
  intros Hs He Hmax. unfold record, RecordDuration.
  set (e0 := default {| ep_history := []; ep_last := cl_created c; ep_timeout := None |} e).
  assert (He0 : let st := default (newStats (at_sampleSize t) (cl_created c)) (at_stats t !! cl_key c) in
    stats_ok (at_sampleSize t) (ep_history e0) st ∧ es_lastAdjust st = ep_last e0 ∧ at_currentTimeout t !! cl_key c = ep_timeout e0).
  { destruct e as [e|]; cbn in *; [destruct He as (st & -> & ? & ? & ?)|destruct He as [-> ?]]; split_and!; try done. apply newStats_ok. }
  cbv zeta in He0. set (st0 := default _ (at_stats t !! cl_key c)) in *. destruct He0 as (Hst0 & Hlast0 & Hto).
  assert (Hmax0 : Z.of_nat (length (ep_history e0)) < max_int64) by (by destruct e).
  destruct (insertDuration_ok (at_sampleSize t) (ep_history e0) st0 (cl_duration c) ltac:(lia) Hmax0 Hst0) as (st & -> & Hst & Hlast). cbn [mbind option_bind].
  unfold observe. fold e0. rewrite (so_total _ _ _ Hst), (so_count _ _ _ Hst), Hlast, Hlast0. unfold rem64.
  destruct (_ && _).
  - unfold adjustTimeout. rewrite (calculateP95_window _ (at_sampleSize t) (ep_history e0 ++ [cl_duration c]));
      [|by apply with_lastAdjust_ok|done|by destruct (ep_history e0)].
    cbn [mbind option_bind]. eexists. split; [reflexivity|]. split; [done|]. split.
    + exists (with_lastAdjust (cl_adjusted c) st). cbn. rewrite !lookup_insert_eq. split_and!; try done. by apply with_lastAdjust_ok.
    + intros key e' Hk. unfold endpoint_ok. cbn. by rewrite !lookup_insert_ne by done.
  - eexists. split; [reflexivity|]. split; [done|]. split.
    + exists st. cbn. rewrite lookup_insert_eq. by rewrite <- Hlast0.
    + intros key e' Hk. unfold endpoint_ok. cbn. by rewrite !lookup_insert_ne by done.
Qed.
Lemma observe_settings t t' c e : same_settings t t' → observe t' c e = observe t c e.
Proof using.
  intros (E1 & E2 & E3 & E4 & E5 & E6 & E7). unfold observe, scaledTimeout, clampTimeout. by rewrite E1, E2, E3, E4, E5, E6.
Qed.

Lemma observeAll_settings t t' key cs : same_settings t t' → ∀ e, observeAll t' key cs e = observeAll t key cs e.
Proof using.
  intros Hs. induction cs as [|c cs IH]; intros e; [done|]. cbn. rewrite (observe_settings t t') by done. apply IH.
Qed.

Lemma recordAll_ok cs : ∀ t es, (1 ≤ at_sampleSize t ≤ 1000)%nat → (∀ key, endpoint_ok t key (es key)) →
  (∀ key, Z.of_nat (length (default [] (ep_history <$> es key)) + length cs) ≤ max_int64) →
  ∃ t', recordAll cs t = Some t' ∧ same_settings t t' ∧ ∀ key, endpoint_ok t' key (observeAll t key cs (es key)).
Proof using.
  induction cs as [|c cs IH]; intros t es Hs Hes Hmax; [by exists t|]. cbn [recordAll].
  assert (Hc : Z.of_nat (length (default [] (ep_history <$> es (cl_key c)))) < max_int64).
  { specialize (Hmax (cl_key c)). cbn [length] in Hmax. lia. }
  destruct (record_ok t c (es (cl_key c)) Hs (Hes _) Hc) as (t1 & -> & Hset & Hkey & Hother). cbn [mbind option_bind].
  pose proof Hset as (E1 & _).
  destruct (IH t1 (λ key, if decide (cl_key c = key) then Some (observe t c (es key)) else es key)) as (t2 & E & Hset2 & Hok).
  - by rewrite E1.
  - intros key. destruct (decide (cl_key c = key)) as [<-|]; [exact Hkey|apply Hother; [done|apply Hes]].
  - intros key. specialize (Hmax key). cbn [length] in Hmax. destruct (decide (cl_key c = key)) as [<-|]; [|lia].
    unfold observe. destruct (es (cl_key c)) as [e|]; cbn in *; destruct (_ && _); cbn; rewrite ?length_app; cbn; lia.
  - exists t2. split; [exact E|]. split.
    + destruct Hset as (? & ? & ? & ? & ? & ? & ?), Hset2 as (? & ? & ? & ? & ? & ? & ?). split_and!; congruence.
    + intros key. specialize (Hok key). rewrite (observeAll_settings t t1) in Hok by done. exact Hok.
Qed.

Lemma NewTracker_sampleSize cfg : positive_or DefaultSampleSize (SampleSize cfg) ≤ 1000 →
  (1 ≤ at_sampleSize (NewAdaptiveTimeoutTracker cfg) ≤ 1000)%nat.
Proof using. intros H. cbn. unfold positive_or, DefaultSampleSize in *. destruct (Z.leb_spec (SampleSize cfg) 0); lia. Qed.

Lemma tracker_spec cfg cs : positive_or DefaultSampleSize (SampleSize cfg) ≤ 1000 → Z.of_nat (length cs) ≤ max_int64 →
  let t := NewAdaptiveTimeoutTracker cfg in
  ∃ t', recordAll cs t = Some t' ∧ same_settings t t' ∧ ∀ key, endpoint_ok t' key (observeAll t key cs None).
Proof using.
  intros Hs Hcs t. apply (recordAll_ok cs t (λ _, None)); [by apply NewTracker_sampleSize|done|done].
Qed.

Lemma endpoint_timeout t t' key e : same_settings t t' → endpoint_ok t' key e → GetTimeout key t' = default (at_fallback t) (e ≫= ep_timeout).
Proof using.
  intros (_ & _ & _ & _ & _ & _ & Hf) He. unfold GetTimeout. rewrite Hf. destruct e as [e|]; cbn in *; [destruct He as (? & _ & _ & _ & ->)|destruct He as [_ ->]]; done.
Qed.

Lemma clamp_within t z : at_min t ≤ at_max t → at_min t ≤ clampTimeout t z ≤ at_max t.
Proof using.
  intros H. unfold clampTimeout. destruct (Z.ltb_spec z (at_min t)); [destruct (Z.ltb_spec (at_max t) (at_min t)); lia|].
  destruct (Z.ltb_spec (at_max t) z); lia.
Qed.

Lemma observeAll_within t key cs : at_min t ≤ at_max t → ∀ e, (∀ z, e ≫= ep_timeout = Some z → at_min t ≤ z ≤ at_max t) →
  ∀ z, observeAll t key cs e ≫= ep_timeout = Some z → at_min t ≤ z ≤ at_max t.
Proof using.
  intros Hm. induction cs as [|c cs IH]; intros e He; [done|]. cbn. apply IH. destruct (decide _); [|done].
  intros z. cbn. unfold observe. destruct (_ && _); cbn; [intros [= <-]; by apply clamp_within|]. intros Hz. apply He. by destruct e.
Qed.

(** C32: quickselect, which partitions a copy of the durations in place, never reads
    outside of it, ends, and finds the element that sorting would put at its index. *)
Theorem quickselect_selects arr k : (k < length arr)%nat →
  quickselect (length arr) arr 0 (length arr - 1) k = merge_sort Z.le arr !! k.
Proof using. apply quickselect_sorted. Qed.

(** C27: whatever the endpoints are and in whatever order their durations come, the
    tracker never panics and the timeout of an endpoint is decided by its own
    durations alone: it is the fallback until the first adjustment, then the scaled
    95th percentile of the last [SampleSize] durations at the last adjustment, and
    between the minimum and the maximum. For a [SampleSize] of at most 1000, the default:
    up to there the product with 0.95 in floating point gives the index exactly. *)
Theorem adaptive_timeout_refines cfg cs :
  positive_or DefaultSampleSize (SampleSize cfg) ≤ 1000 → Z.of_nat (length cs) ≤ max_int64 →
  let t := NewAdaptiveTimeoutTracker cfg in
  ∃ t', recordAll cs t = Some t' ∧
    (∀ key, GetTimeout key t' = default (at_fallback t) (observeAll t key cs None ≫= ep_timeout)) ∧
    (∀ key, at_min t ≤ at_max t → GetTimeout key t' = at_fallback t ∨ at_min t ≤ GetTimeout key t' ≤ at_max t).
Proof using.
  intros Hs Hcs t. destruct (tracker_spec cfg cs Hs Hcs) as (t' & E & Hset & Hok). exists t'. split; [exact E|].
  assert (Hget : ∀ key, GetTimeout key t' = default (at_fallback t) (observeAll t key cs None ≫= ep_timeout)).
  { intros key. by apply endpoint_timeout. }
  split; [exact Hget|]. intros key Hm. rewrite Hget.
  destruct (observeAll t key cs None ≫= ep_timeout) as [z|] eqn:Ez; [right|by left]. cbn. by apply (observeAll_within t key cs Hm None).
Qed.

Lemma observeAll_small t key cs : (at_sampleSize t < MinDataPoints)%nat → ∀ e, e ≫= ep_timeout = None → observeAll t key cs e ≫= ep_timeout = None.
Proof using.
  intros Hm. induction cs as [|c cs IH]; intros e He; [done|]. cbn. apply IH. destruct (decide _); [|done].
  cbn. unfold observe. destruct (Nat.leb_spec MinDataPoints (length (ep_history (default {| ep_history := []; ep_last := cl_created c; ep_timeout := None |} e) ++ [cl_duration c]) `min` at_sampleSize t)); [lia|].
  rewrite andb_false_r. cbn. by destruct e.
Qed.

(** With a sample size below [MinDataPoints] the tracker never adapts: the count of
    the durations stops at the sample size, so the timeout of every endpoint stays the
    fallback for ever. *)
Theorem small_samples_never_adapt cfg cs key : 0 < SampleSize cfg < Z.of_nat MinDataPoints → Z.of_nat (length cs) ≤ max_int64 →
  ∃ t', recordAll cs (NewAdaptiveTimeoutTracker cfg) = Some t' ∧ GetTimeout key t' = at_fallback (NewAdaptiveTimeoutTracker cfg).
Proof using.
  intros Hs Hcs. assert (positive_or DefaultSampleSize (SampleSize cfg) = SampleSize cfg) as Hp
    by (unfold positive_or; destruct (Z.leb_spec (SampleSize cfg) 0); lia).
  unfold MinDataPoints in Hs. destruct (tracker_spec cfg cs) as (t' & E & Hset & Hok); [rewrite Hp; lia|done|]. exists t'. split; [exact E|].
  rewrite (endpoint_timeout (NewAdaptiveTimeoutTracker cfg) t' key _ Hset (Hok key)), observeAll_small; [done| |done].
  cbn. rewrite Hp. unfold MinDataPoints. lia.
Qed.
End Tracker.

(** ** Examples *)

Module AtExample.
Definition cfg (samples : Z) : AdaptiveTimeoutConfig :=
  {| SampleSize := samples; AdjustmentInterval := 0; AdjustmentFrequency := 0; SafetyMultiplier := of_int 0; MinTimeout := 0;
     MaxTimeout := 0; FallbackTimeout := 0 |}.
Definition key : endpointKey := ("REQMOD", "/scan").
Definition call (i : nat) : Call :=
  {| cl_key := key; cl_duration := 1000000 * ((Z.of_nat i * 37) mod 100 + 1); cl_created := 0; cl_checked := 0; cl_adjusted := 0 |}.
Definition calls : list Call := map call (seq 0 100).
End AtExample.

Lemma quickselect_selects_witness : quickselect 5 [30; 10; 50; 20; 40] 0 4 3 = Some 40.
Proof. apply (quickselect_selects [30; 10; 50; 20; 40] 3). cbn. lia. Defined.

Lemma adaptive_timeout_refines_witness :
  ∃ t, recordAll unfit_amd64 AtExample.calls (NewAdaptiveTimeoutTracker (AtExample.cfg 0)) = Some t ∧ GetTimeout AtExample.key t = 192 * 1000000.
Proof.
  destruct (adaptive_timeout_refines unfit_amd64 (AtExample.cfg 0) AtExample.calls) as (t & E & Hg & _); [vm_compute; discriminate|vm_compute; discriminate|].
  exists t. split; [exact E|]. rewrite Hg. vm_compute. reflexivity.
Defined.

Lemma small_samples_never_adapt_witness :
  ∃ t, recordAll unfit_amd64 AtExample.calls (NewAdaptiveTimeoutTracker (AtExample.cfg 50)) = Some t ∧ GetTimeout AtExample.key t = 30 * second.
Proof.
  destruct (small_samples_never_adapt unfit_amd64 (AtExample.cfg 50) AtExample.calls AtExample.key) as (t & E & Hg); [vm_compute; by split|vm_compute; discriminate|].
  exists t. split; [exact E|exact Hg].
Defined.
