(* ===== verification/GoStrings.v ===== *)
(** * The functions of Go's [strings] package the program uses

    A Go string is a byte string. [ToLower], [EqualFold] and [TrimSpace] are
    given for ASCII input: the program applies them to protocol tokens, header
    names and numbers. An index of Go that is [-1] when absent is an [option]. *)
From S2P Require Import Prelude GoInt.


(** ** Slices: [s[n:]] and [s[:n]] *)

Fixpoint str_drop (n : nat) (s : string) : string :=
  match n, s with
  | O, _ => s
  | S n, EmptyString => EmptyString
  | S n, String _ s => str_drop n s
  end.

Fixpoint str_take (n : nat) (s : string) : string :=
  match n, s with
  | O, _ => EmptyString
  | S n, EmptyString => EmptyString
  | S n, String c s => String c (str_take n s)
  end.

(** ** Prefixes and suffixes *)

Definition has_prefix (s p : string) : bool := String.prefix p s.

Definition trim_prefix (s p : string) : string :=
  if has_prefix s p then str_drop (String.length p) s else s.

Fixpoint trim_suffix (s p : string) : string :=
  if String.eqb s p then EmptyString
  else match s with
       | EmptyString => EmptyString
       | String c s => String c (trim_suffix s p)
       end.

(** ** Searching *)

Fixpoint index_byte (s : string) (c : ascii) : option nat :=
  match s with
  | EmptyString => None
  | String d s => if bool_decide (d = c) then Some 0 else S <$> index_byte s c
  end.

(** [strings.IndexAny] with the bytes of [cs]. *)
Fixpoint index_any (s : string) (cs : list ascii) : option nat :=
  match s with
  | EmptyString => None
  | String d s => if bool_decide (d ∈ cs) then Some 0 else S <$> index_any s cs
  end.

(** [strings.Index] *)
Fixpoint index_str (s p : string) : option nat :=
  if has_prefix s p then Some 0
  else match s with
       | EmptyString => None
       | String _ s => S <$> index_str s p
       end.

Definition contains_str (s p : string) : bool := bool_decide (is_Some (index_str s p)).

Definition contains_any (s : string) (cs : list ascii) : bool :=
  bool_decide (is_Some (index_any s cs)).

(** ** Splitting on one byte *)

Fixpoint split_byte (s : string) (c : ascii) : list string :=
  match s with
  | EmptyString => [EmptyString]
  | String d s =>
      if bool_decide (d = c) then EmptyString :: split_byte s c
      else match split_byte s c with
           | [] => [String d EmptyString]
           | w :: ws => String d w :: ws
           end
  end.

(** [strings.Cut]: text before, text after, found *)
Definition cut_byte (s : string) (c : ascii) : string * string * bool :=
  match index_byte s c with
  | Some i => (str_take i s, str_drop (S i) s, true)
  | None => (s, EmptyString, false)
  end.

(** [strings.SplitN(s, sep, 2)] *)
Definition split_n2 (s : string) (c : ascii) : list string :=
  match cut_byte s c with
  | (a, b, true) => [a; b]
  | (a, _, false) => [a]
  end.

(** [strings.SplitN(s, sep, 3)] *)
Definition split_n3 (s : string) (c : ascii) : list string :=
  match cut_byte s c with
  | (a, b, true) => a :: split_n2 b c
  | (a, _, false) => [a]
  end.

(** ** Case and space *)

Definition is_space (c : ascii) : bool :=
  let n := nat_of_ascii c in ((9 <=? n) && (n <=? 13)) || (n =? 32).

Definition lower_ascii (c : ascii) : ascii :=
  let n := nat_of_ascii c in
  if (65 <=? n) && (n <=? 90) then ascii_of_nat (n + 32) else c.

Definition upper_ascii (c : ascii) : ascii :=
  let n := nat_of_ascii c in
  if (97 <=? n) && (n <=? 122) then ascii_of_nat (n - 32) else c.

Fixpoint to_lower (s : string) : string :=
  match s with
  | EmptyString => EmptyString
  | String c s => String (lower_ascii c) (to_lower s)
  end.

Definition equal_fold (a b : string) : bool := String.eqb (to_lower a) (to_lower b).

Fixpoint trim_left (s : string) : string :=
  match s with
  | EmptyString => EmptyString
  | String c s' => if is_space c then trim_left s' else s
  end.

Fixpoint trim_right (s : string) : string :=
  match s with
  | EmptyString => EmptyString
  | String c s' =>
      match trim_right s' with
      | EmptyString => if is_space c then EmptyString else String c EmptyString
      | r => String c r
      end
  end.

Definition trim_space (s : string) : string := trim_right (trim_left s).

(** ** Lists of bytes *)

Fixpoint bytes_of (s : string) : list ascii :=
  match s with
  | EmptyString => []
  | String c s => c :: bytes_of s
  end.

Fixpoint string_of (l : list ascii) : string :=
  match l with
  | [] => EmptyString
  | c :: l => String c (string_of l)
  end.

(** A property of every byte of a string. *)
Definition str_forall (P : ascii → bool) (s : string) : bool := forallb P (bytes_of s).

(** ** Lemmas *)

Lemma string_of_bytes s : string_of (bytes_of s) = s.
Proof. induction s; simpl; congruence. Qed.

Lemma bytes_of_string l : bytes_of (string_of l) = l.
Proof. induction l; simpl; congruence. Qed.

Lemma bytes_of_app a b : bytes_of (a +:+ b) = bytes_of a ++ bytes_of b.
Proof. induction a; simpl; congruence. Qed.

Lemma string_of_app a b : string_of (a ++ b) = string_of a +:+ string_of b.
Proof. induction a; simpl; congruence. Qed.

Lemma length_bytes_of s : length (bytes_of s) = String.length s.
Proof. induction s; simpl; congruence. Qed.

Lemma str_app_nil_r s : s +:+ "" = s.
Proof. induction s; simpl; congruence. Qed.

Lemma str_app_assoc a b c : (a +:+ b) +:+ c = a +:+ b +:+ c.
Proof. induction a; simpl; congruence. Qed.

Lemma str_length_app a b : String.length (a +:+ b) = String.length a + String.length b.
Proof. induction a; simpl; congruence. Qed.

Lemma str_take_drop n s : str_take n s +:+ str_drop n s = s.
Proof.
  revert s. induction n as [|n IH]; intros s; [done|].
  destruct s as [|c s]; [done|]. simpl. by rewrite IH.
Qed.

Lemma str_length_take n s : String.length (str_take n s) = Nat.min n (String.length s).
Proof.
  revert s. induction n as [|n IH]; intros [|c s]; simpl; try done. by rewrite IH.
Qed.

Lemma str_length_drop n s : String.length (str_drop n s) = String.length s - n.
Proof. revert s. induction n as [|n IH]; intros [|c s]; simpl; try done. Qed.

Lemma str_drop_app a b : str_drop (String.length a) (a +:+ b) = b.
Proof. by induction a. Qed.

Lemma str_take_app a b : str_take (String.length a) (a +:+ b) = a.
Proof. induction a; simpl; [by destruct b|congruence]. Qed.

Lemma has_prefix_app p s : has_prefix (p +:+ s) p = true.
Proof.
  unfold has_prefix. induction p as [|c p IH]; simpl; [by destruct s|].
  destruct (Ascii.ascii_dec c c); congruence.
Qed.

Lemma has_prefix_spec s p : has_prefix s p = true ↔ ∃ r, s = p +:+ r.
Proof.
  split; [|intros [r ->]; apply has_prefix_app].
  unfold has_prefix. revert s. induction p as [|c p IH]; intros s H; [by exists s|].
  destruct s as [|d s]; [done|]. simpl in H.
  destruct (Ascii.ascii_dec c d) as [->|]; [|done].
  destruct (IH s H) as [r ->]. by exists r.
Qed.

Lemma trim_prefix_app p s : trim_prefix (p +:+ s) p = s.
Proof. unfold trim_prefix. by rewrite has_prefix_app, str_drop_app. Qed.

Lemma str_app_inv_l a b c : a +:+ b = a +:+ c → b = c.
Proof. by induction a; intros H; [|apply IHa; injection H]. Qed.

Lemma index_byte_Some s c i :
  index_byte s c = Some i →
  s = str_take i s +:+ String c (str_drop (S i) s) ∧ c ∉ bytes_of (str_take i s).
Proof.
  revert i. induction s as [|d s IH]; intros i H; [done|]. simpl in H.
  case_bool_decide as E.
  - injection H as <-. subst. split; [done|]. apply not_elem_of_nil.
  - destruct (index_byte s c) as [j|]; [|done]. injection H as <-.
    destruct (IH j eq_refl) as [H1 H2]. split.
    + simpl. by rewrite H1 at 1.
    + simpl. rewrite not_elem_of_cons. auto.
Qed.

Lemma index_byte_None s c : index_byte s c = None ↔ c ∉ bytes_of s.
Proof.
  induction s as [|d s IH]; simpl; [split; [intros _; apply not_elem_of_nil|done]|].
  rewrite not_elem_of_cons. case_bool_decide as E; [naive_solver|].
  destruct (index_byte s c); naive_solver.
Qed.

Lemma index_byte_app a c b :
  c ∉ bytes_of a → index_byte (a +:+ String c b) c = Some (String.length a).
Proof.
  induction a as [|d a IH]; simpl; intros H.
  - by rewrite bool_decide_true.
  - rewrite not_elem_of_cons in H. destruct H as [H1 H2].
    rewrite bool_decide_false by done. by rewrite IH.
Qed.

Lemma cut_byte_none s c : c ∉ bytes_of s → cut_byte s c = (s, "", false).
Proof. intros H. unfold cut_byte. by rewrite (proj2 (index_byte_None s c)). Qed.

Lemma cut_byte_app a c b : c ∉ bytes_of a → cut_byte (a +:+ String c b) c = (a, b, true).
Proof.
  intros H. unfold cut_byte. rewrite index_byte_app by done. rewrite str_take_app.
  replace (str_drop (S (String.length a)) (a +:+ String c b)) with b; [done|]. clear H. by induction a.
Qed.


Lemma split_byte_none s c : c ∉ bytes_of s → split_byte s c = [s].
Proof.
  induction s as [|d s IH]; simpl; intros H; [done|].
  rewrite not_elem_of_cons in H. destruct H as [H1 H2].
  rewrite bool_decide_false by done. by rewrite IH.
Qed.

Lemma split_byte_app a c b :
  c ∉ bytes_of a → split_byte (a +:+ String c b) c = a :: split_byte b c.
Proof.
  induction a as [|d a IH]; simpl; intros H.
  - by rewrite bool_decide_true.
  - rewrite not_elem_of_cons in H. destruct H as [H1 H2].
    rewrite bool_decide_false by done. by rewrite IH.
Qed.

Lemma split_byte_nonempty s c : split_byte s c ≠ [].
Proof.
  destruct s as [|d s]; [done|]. simpl. case_bool_decide; [done|].
  by destruct (split_byte s c).
Qed.

Lemma trim_left_id s : (∀ c r, s = String c r → is_space c = false) → trim_left s = s.
Proof. destruct s as [|c s]; [done|]. intros H. simpl. by rewrite (H c s eq_refl). Qed.

Lemma trim_right_id s :
  str_forall (λ c, negb (is_space c)) s = true → trim_right s = s.
Proof.
  induction s as [|c s IH]; [done|]. intros H.
  unfold str_forall in *. simpl in *. bool_to_prop.
  rewrite IH by done. destruct s; [|done]. by rewrite H.
Qed.

Lemma trim_space_id s :
  str_forall (λ c, negb (is_space c)) s = true → trim_space s = s.
Proof.
  intros H. unfold trim_space. rewrite trim_left_id; [by apply trim_right_id|].
  intros c r ->. unfold str_forall in H. simpl in H. by bool_to_prop.
Qed.

Lemma to_lower_app a b : to_lower (a +:+ b) = to_lower a +:+ to_lower b.
Proof. induction a; simpl; congruence. Qed.

Lemma lower_ascii_idemp c : lower_ascii (lower_ascii c) = lower_ascii c.
Proof.
  destruct c as [[] [] [] [] [] [] [] []]; vm_compute; reflexivity.
Qed.

Lemma to_lower_idemp s : to_lower (to_lower s) = to_lower s.
Proof. induction s as [|c s IH]; simpl; [done|]. by rewrite lower_ascii_idemp, IH. Qed.

Lemma str_forall_app P a b : str_forall P (a +:+ b) = str_forall P a && str_forall P b.
Proof. unfold str_forall. by rewrite bytes_of_app, forallb_app. Qed.

(** [strings.Trim(s, cutset)] for a one-byte cutset *)
Fixpoint trim_left_byte (c : ascii) (s : string) : string :=
  match s with
  | EmptyString => EmptyString
  | String d s' => if bool_decide (d = c) then trim_left_byte c s' else s
  end.

Fixpoint trim_right_byte (c : ascii) (s : string) : string :=
  match s with
  | EmptyString => EmptyString
  | String d s' =>
      match trim_right_byte c s' with
      | EmptyString => if bool_decide (d = c) then EmptyString else String d EmptyString
      | r => String d r
      end
  end.

Definition trim_byte (c : ascii) (s : string) : string := trim_right_byte c (trim_left_byte c s).

Lemma trim_right_byte_empty c s :
  trim_right_byte c s = "" ↔ Forall (λ d, d = c) (bytes_of s).
Proof.
  induction s as [|d s IH]; simpl; [naive_solver|].
  rewrite Forall_cons. destruct (trim_right_byte c s).
  - case_bool_decide; naive_solver.
  - naive_solver.
Qed.

Lemma trim_byte_empty c s : trim_byte c s = "" ↔ Forall (λ d, d = c) (bytes_of s).
Proof.
  unfold trim_byte. rewrite trim_right_byte_empty.
  induction s as [|d s IH]; simpl; [done|].
  rewrite Forall_cons. case_bool_decide; [naive_solver|].
  simpl. rewrite Forall_cons. naive_solver.
Qed.

(** [strings.Join] *)
Fixpoint join_str (sep : string) (ws : list string) : string :=
  match ws with
  | [] => ""
  | [w] => w
  | w :: ws => w +:+ sep +:+ join_str sep ws
  end.

(** Joining back what [split_byte] separated. *)
Fixpoint join_byte (c : ascii) (ws : list string) : string :=
  match ws with
  | [] => EmptyString
  | [w] => w
  | w :: ws => w +:+ String c (join_byte c ws)
  end.

Lemma join_split_byte s c : join_byte c (split_byte s c) = s.
Proof.
  induction s as [|d s IH]; [done|]. simpl.
  pose proof (split_byte_nonempty s c) as Hne.
  case_bool_decide as E; subst.
  - destruct (split_byte s c) as [|w ws]; [done|]. simpl in *. by rewrite IH.
  - destruct (split_byte s c) as [|w [|w' ws]]; [done| |]; simpl in *; by rewrite IH.
Qed.

Lemma trim_suffix_app a p : trim_suffix (a +:+ p) p = a.
Proof.
  induction a as [|c a IH].
  - destruct p; simpl; [done|]. by rewrite Ascii.eqb_refl, String.eqb_refl.
  - cbn [String.append trim_suffix]. destruct (String.eqb _ p) eqn:E; [|by rewrite IH].
    bool_to_prop. apply (f_equal String.length) in E. cbn in E. rewrite str_length_app in E. lia.
Qed.

Lemma trim_suffix_byte_none s c : c ∉ bytes_of s → trim_suffix s (String c "") = s.
Proof.
  induction s as [|d s IH]; [done|]. cbn [bytes_of]. rewrite not_elem_of_cons. intros [H1 H2].
  cbn [trim_suffix]. destruct (String.eqb _ _) eqn:E; [bool_to_prop; naive_solver|]. by rewrite IH.
Qed.

(** A byte that fails a test every byte of a string passes is not in it. *)
Lemma str_forall_not_in P s c : str_forall P s = true → P c = false → c ∉ bytes_of s.
Proof.
  unfold str_forall. rewrite forallb_forall. intros HP Hc Hin%list_elem_of_In.
  apply HP in Hin. congruence.
Qed.

Lemma str_forall_mono (P Q : ascii → bool) s :
  (∀ c, P c = true → Q c = true) → str_forall P s = true → str_forall Q s = true.
Proof. unfold str_forall. rewrite !forallb_forall. auto. Qed.

Lemma str_forall_all P s : str_forall P s = string_all P s.
Proof. unfold str_forall. induction s; simpl; congruence. Qed.

(** What is true of the digits of a base is true of a formatted natural. *)
Lemma FormatInt_forall (P : ascii → bool) base n :
  (2 ≤ base ≤ 36)%Z → (0 ≤ n)%Z → (∀ c, is_digit base c = true → P c = true) →
  str_forall P (FormatInt base n) = true.
Proof.
  intros Hb Hn HP. apply (str_forall_mono _ _ _ HP). rewrite str_forall_all. by apply FormatInt_all.
Qed.

(** A one-byte needle is found exactly when the byte occurs. *)
Lemma contains_str_byte s c : contains_str s (String c "") = bool_decide (c ∈ bytes_of s).
Proof.
  unfold contains_str. apply bool_decide_ext.
  induction s as [|d s IH]; cbn [index_str bytes_of].
  - split; [|by rewrite elem_of_nil]. cbn. by intros [? ?].
  - rewrite elem_of_cons. unfold has_prefix. cbn [String.prefix]. destruct (Ascii.ascii_dec c d) as [->|Hne].
    + split; [by left|]. intros _. destruct s; by eexists.
    + rewrite <- IH. destruct (index_str s (String c "")); cbn; split.
      * intros _. right. by eexists.
      * intros _. by eexists.
      * by intros [? ?].
      * intros [|[? ?]]; congruence.
Qed.

Lemma contains_str_spec s p : contains_str s p = true ↔ ∃ a b, s = a +:+ p +:+ b.
Proof.
  unfold contains_str. rewrite bool_decide_eq_true. induction s as [|c s IH]; cbn [index_str].
  - destruct (has_prefix "" p) eqn:E.
    + split; [|done]. intros _. apply has_prefix_spec in E as [r Hr]. by exists "", r.
    + split; [by intros [? ?]|]. intros (a & b & H). destruct a; [|done]. exfalso. apply eq_true_false_abs in E; [done|].
      apply has_prefix_spec. by exists b.
  - destruct (has_prefix (String c s) p) eqn:E.
    + split; [|done]. intros _. apply has_prefix_spec in E as [r Hr]. by exists "", r.
    + transitivity (is_Some (index_str s p)); [by destruct (index_str s p)|]. rewrite IH. split.
      * intros (a & b & ->). by exists (String c a), b.
      * intros ([|c' a] & b & H); [|injection H as -> ->; by exists a, b]. exfalso. apply eq_true_false_abs in E; [done|].
        apply has_prefix_spec. by exists b.
Qed.

(** [s[i:i+n]]. *)
Lemma substring_slice s : ∀ i n, String.substring i n s = str_take n (str_drop i s).
Proof. induction s as [|c s IH]; intros [|i] [|n]; cbn; try done. all: first [f_equal; exact (IH 0 n)|apply IH]. Qed.
