(* ===== verification/GoTime.v ===== *)
(** * Durations as text

    [time.ParseDuration] of Go's standard library, as it is written there: unsigned
    64-bit integers with explicit overflow checks and a float64 for fractions of a
    unit; and the delays of scenarios, [ParseDelay] of
    [internal/storage/scenario_v2.go]. *)
From S2P Require Import Prelude GoInt GoFloat GoStrings.

Local Open Scope Z_scope.

Definition Nanosecond : Z := 1.
Definition Millisecond : Z := 1000000.
Definition Second : Z := 1000000000.
Definition Minute : Z := 60 * Second.

(** ** [time.ParseDuration] *)

Definition limit63 : Z := 2 ^ 63.

(** [None]: the number does not fit. *)
Fixpoint leadingInt (x : Z) (s : string) : option (Z * string) :=
  match s with
  | String c s' =>
      if is_digit 10 c then
        if limit63 / 10 <? x then None
        else let x := x * 10 + digit_val c in if limit63 <? x then None else leadingInt x s'
      else Some (x, s)
  | "" => Some (x, "")
  end.

(** Digits that do not fit are passed over. *)
Fixpoint leadingFraction (x : Z) (scale : float64) (overflow : bool) (s : string) : Z * float64 * string :=
  match s with
  | String c s' =>
      if is_digit 10 c then
        if overflow then leadingFraction x scale true s'
        else if max_int64 / 10 <? x then leadingFraction x scale true s'
        else let y := x * 10 + digit_val c in
             if limit63 <? y then leadingFraction x scale true s' else leadingFraction y (fmul scale (of_int 10)) false s'
      else (x, scale, s)
  | "" => (x, scale, "")
  end.

(** The name of a unit goes up to the next digit or point. *)
Fixpoint unit_name (s : string) : string * string :=
  match s with
  | String c s' => if Ascii.eqb c "." || is_digit 10 c then ("", s) else let '(u, rest) := unit_name s' in (String c u, rest)
  | "" => ("", "")
  end.

(** The two ways to write a micro sign, U+00B5 and U+03BC. *)
Definition micro_sign : string := String (ascii_of_nat 194) (String (ascii_of_nat 181) "").
Definition greek_mu : string := String (ascii_of_nat 206) (String (ascii_of_nat 188) "").

Definition unitMap (u : string) : option Z :=
  if String.eqb u "ns" then Some Nanosecond
  else if String.eqb u "us" || String.eqb u (micro_sign +:+ "s") || String.eqb u (greek_mu +:+ "s") then Some 1000
  else if String.eqb u "ms" then Some Millisecond
  else if String.eqb u "s" then Some Second
  else if String.eqb u "m" then Some Minute
  else if String.eqb u "h" then Some (60 * Minute)
  else None.

(** [uint64] of a float that fits. *)
Definition to_uint64 (f : float64) : Z := default 0 (truncate f).

(** One number with its unit. *)
Definition parse_component (s : string) : option (Z * string) :=
  match s with
  | "" => None
  | String c _ =>
      if negb (Ascii.eqb c "." || is_digit 10 c) then None
      else
        '(v, s1) ← leadingInt 0 s;
        let pre := negb (String.length s1 =? String.length s)%nat in
        let '(f, scale, s2, post) :=
          match s1 with
          | String c s' =>
              if Ascii.eqb c "." then let '(f, scale, s2) := leadingFraction 0 (of_int 1) false s' in (f, scale, s2, negb (String.length s2 =? String.length s')%nat)
              else (0, of_int 1, s1, false)
          | "" => (0, of_int 1, "", false)
          end in
        if negb (pre || post) then None
        else
          let '(u, s3) := unit_name s2 in
          unit ← unitMap u;
          if limit63 / unit <? v then None
          else
            let v := v * unit in
            let v := if 0 <? f then v + to_uint64 (fmul (of_int f) (fdiv (of_int unit) scale)) else v in
            if limit63 <? v then None else Some (v, s3)
  end.

Fixpoint parse_components (fuel : nat) (d : Z) (s : string) : option Z :=
  match s with
  | "" => Some d
  | _ =>
      match fuel with
      | O => None
      | S fuel => '(v, s) ← parse_component s; let d := d + v in if limit63 <? d then None else parse_components fuel d s
      end
  end.

Definition ParseDuration (s : string) : option Z :=
  let '(neg, s) := match s with String c s' => if Ascii.eqb c "-" then (true, s') else if Ascii.eqb c "+" then (false, s') else (false, s) | "" => (false, "") end in
  if String.eqb s "0" then Some 0
  else if String.eqb s "" then None
  else
    d ← parse_components (String.length s) 0 s;
    if neg then Some (wrap64 (- d)) else if max_int64 <? d then None else Some d.

Example durations :
  map ParseDuration ["1.5s"; "300ms"; "1h2m3s"; "-0.25us"; ".5m"; "9223372036854775807ns"; "9223372036854775808ns"; "-9223372036854775808ns"; "1"; "1d"; "."; "+"; "0"]
  = [Some 1500000000; Some 300000000; Some 3723000000000; Some (-250); Some 30000000000; Some max_int64; None; Some min_int64; None; None; None; None; Some 0].
Proof. vm_compute. reflexivity. Qed.

(** ** [ParseDelay] *)

Record DelayConfig := { delay_Min : Z; delay_Max : Z; IsRange : bool }.

(** One side of [rangePattern]: digits and [ms], [s] or [m]. *)
Fixpoint digits_end (s : string) : string :=
  match s with String c s' => if is_digit 10 c then digits_end s' else s | "" => "" end.

Definition range_side (s : string) : bool :=
  match s with
  | String c s' => is_digit 10 c && (let u := digits_end s' in String.eqb u "ms" || String.eqb u "s" || String.eqb u "m")
  | "" => false
  end.

(** The sides hold no dash, so the first dash is the one of the pattern. *)
Definition rangePattern (s : string) : option (string * string) :=
  let '(a, b, found) := cut_byte s "-" in if found && range_side a && range_side b then Some (a, b) else None.

Inductive DelayError := EmptyDelay | InvalidRangeMin | InvalidRangeMax | RangeReversed | InvalidDelay | NegativeDelay.

Definition ParseDelay (s : string) : result DelayError DelayConfig :=
  let s := trim_space s in
  if String.eqb s "" then Err EmptyDelay
  else
    match rangePattern s with
    | Some (a, b) =>
        match ParseDuration a with
        | None => Err InvalidRangeMin
        | Some lo =>
            match ParseDuration b with
            | None => Err InvalidRangeMax
            | Some hi => if hi <? lo then Err RangeReversed else Ok {| delay_Min := lo; delay_Max := hi; IsRange := true |}
            end
        end
    | None =>
        match ParseDuration s with
        | None => Err InvalidDelay
        | Some d => if d <? 0 then Err NegativeDelay else Ok {| delay_Min := d; delay_Max := d; IsRange := false |}
        end
    end.

Example delays :
  map ParseDelay [" 300ms-1500ms "; "2s-1s"; "1h-2h"; "-5s"; "1m"; ""]
  = [Ok {| delay_Min := 300000000; delay_Max := 1500000000; IsRange := true |}; Err RangeReversed; Err InvalidDelay; Err NegativeDelay;
     Ok {| delay_Min := 60000000000; delay_Max := 60000000000; IsRange := false |}; Err EmptyDelay].
Proof. vm_compute. reflexivity. Qed.

(** ** Whole numbers of a unit *)

Lemma is_digit_val c : is_digit 10 c = true ↔ digit_val c < 10.
Proof. unfold is_digit. apply Z.ltb_lt. Qed.

Lemma leadingInt_digits s rest x n : 0 ≤ x → parse_digits 10 x s = Some n → n ≤ max_int64 →
  (∀ c r, rest = String c r → is_digit 10 c = false) → leadingInt x (s +:+ rest) = Some (n, rest).
Proof.
  intros Hx Hp Hn Hrest. revert x Hx Hp. induction s as [|c s IH]; intros x Hx Hp; cbn [parse_digits String.append] in *.
  - injection Hp as <-. destruct rest as [|c r]; [done|]. cbn [leadingInt]. by rewrite (Hrest c r eq_refl).
  - pose proof (digit_val_nonneg c). destruct (Z.ltb_spec (digit_val c) 10) as [Hd|]; [|done]. cbn [leadingInt]. rewrite (proj2 (is_digit_val c)) by done.
    destruct (parse_digits_acc 10 _ s n ltac:(lia) Hp) as (m & _ & Hm & Hmb).
    assert (Hle : x * 10 + digit_val c ≤ n).
    { rewrite Hm. assert (1 ≤ 10 ^ Z.of_nat (String.length s)) by (pose proof (Z.pow_pos_nonneg 10 (Z.of_nat (String.length s))); lia). nia. }
    change (limit63 / 10) with 922337203685477580. change limit63 with 9223372036854775808. change max_int64 with 9223372036854775807 in Hn.
    rewrite !(proj2 (Z.ltb_ge _ _)) by lia. apply IH; [lia|done].
Qed.

Definition unit_of (u : string) (k : Z) : Prop := (u = "ms" ∧ k = Millisecond) ∨ (u = "s" ∧ k = Second) ∨ (u = "m" ∧ k = Minute).

Lemma unit_of_facts u k : unit_of u k → unitMap u = Some k ∧ unit_name u = (u, "") ∧ 0 < k ∧
  ∃ c r, u = String c r ∧ is_digit 10 c = false ∧ Ascii.eqb c "." = false.
Proof. intros [[-> ->]|[[-> ->]|[-> ->]]]; (split; [reflexivity|]); (split; [reflexivity|]); (split; [reflexivity|]); by do 2 eexists. Qed.

(** Digits and then a unit: the component is their product. *)
Lemma component_digits s u k n : s ≠ "" → unit_of u k → parse_digits 10 0 s = Some n → n * k ≤ max_int64 →
  parse_component (s +:+ u) = Some (n * k, "").
Proof.
  intros Hs Hu Hp Hn. destruct (unit_of_facts u k Hu) as (Hm & Hname & Hk & c & r & -> & Hd & Hdot).
  assert (Hnn : 0 ≤ n) by (by destruct (parse_digits_bound 10 s n ltac:(lia) Hp)).
  assert (Hmax : n ≤ max_int64) by (assert (n ≤ n * k) by nia; lia).
  pose proof (leadingInt_digits s (String c r) 0 n ltac:(lia) Hp Hmax) as Hl. destruct s as [|c0 s]; [done|].
  assert (H0 : is_digit 10 c0 = true).
  { cbn [parse_digits] in Hp. apply is_digit_val. destruct (Z.ltb_spec (digit_val c0) 10); [done|done]. }
  unfold parse_component. cbn [String.append] in *. rewrite H0, orb_true_r. cbn [negb]. rewrite Hl; [|by intros ? ? [= <- <-]].
  cbn [mbind option_bind]. rewrite Hdot. cbv zeta.
  replace (String.length (String c r) =? String.length (String c0 (s +:+ String c r)))%nat with false
    by (symmetry; apply Nat.eqb_neq; cbn; rewrite str_length_app; cbn; lia).
  cbn [negb orb]. rewrite Hname, Hm. cbn [mbind option_bind].
  assert (Hdiv : n ≤ limit63 / k) by (apply Z.div_le_lower_bound; [done|unfold limit63, max_int64 in *; lia]).
  rewrite (proj2 (Z.ltb_ge _ _)) by done. change (0 <? 0) with false. cbv iota.
  rewrite (proj2 (Z.ltb_ge _ _)) by (unfold limit63, max_int64 in *; lia). done.
Qed.

Lemma duration_digits s u k n : s ≠ "" → unit_of u k → parse_digits 10 0 s = Some n → n * k ≤ max_int64 → ParseDuration (s +:+ u) = Some (n * k).
Proof.
  intros Hs Hu Hp Hn. pose proof (component_digits s u k n Hs Hu Hp Hn) as Hc.
  destruct (unit_of_facts u k Hu) as (_ & _ & Hk & cu & ru & Eu & _).
  assert (Hnn : 0 ≤ n) by (by destruct (parse_digits_bound 10 s n ltac:(lia) Hp)).
  unfold ParseDuration. destruct s as [|c s]; [done|]. cbn [String.append] in *.
  assert (Hd : digit_val c < 10) by (cbn [parse_digits] in Hp; destruct (Z.ltb_spec (digit_val c) 10); done).
  destruct (digit_not_sign 10 c ltac:(lia) Hd) as [H1 H2]. rewrite !(proj2 (Ascii.eqb_neq _ _)) by done.
  assert (E0 : String.eqb (String c (s +:+ u)) "0" = false) by (apply String.eqb_neq; intros [= _ E]; subst u; by destruct s).
  rewrite E0. change (String.eqb (String c (s +:+ u)) "") with false. cbn [String.length parse_components]. rewrite Hc. cbn [mbind option_bind].
  rewrite Z.add_0_l, (proj2 (Z.ltb_ge _ _)) by (unfold limit63, max_int64 in *; lia).
  assert (E : ∀ fuel, parse_components fuel (n * k) "" = Some (n * k)) by (by intros []). rewrite E. cbn [mbind option_bind].
  by rewrite (proj2 (Z.ltb_ge _ _)) by lia.
Qed.

(** ** What a delay is *)

Lemma digits_end_app s u : (∀ c r, u = String c r → is_digit 10 c = false) → string_all (is_digit 10) s = true → digits_end (s +:+ u) = u.
Proof.
  intros Hu. induction s as [|c s IH]; cbn.
  - intros _. destruct u as [|c r]; [done|]. cbn. by rewrite (Hu c r eq_refl).
  - intros [Hc H]%andb_true_iff. rewrite Hc. by apply IH.
Qed.

Lemma range_side_spec a : range_side a = true ↔ ∃ s u k n, a = s +:+ u ∧ s ≠ "" ∧ unit_of u k ∧ parse_digits 10 0 s = Some n.
Proof.
  split.
  - destruct a as [|c a]; [done|]. cbn [range_side]. intros [Hc Hu]%andb_true_iff.
    assert (H : ∃ s, a = s +:+ digits_end a ∧ ∀ x, is_Some (parse_digits 10 x s)).
    { clear. induction a as [|c a (s & E & H)]; [exists ""; split; [done|by eexists]|]. cbn. destruct (is_digit 10 c) eqn:Hc.
      - exists (String c s). cbn. split; [by rewrite <- E|]. intros x. apply is_digit_val in Hc. by rewrite (proj2 (Z.ltb_lt _ _) Hc).
      - exists "". split; [done|by eexists]. }
    destruct H as (s & E & H). apply is_digit_val in Hc. destruct (H (0 * 10 + digit_val c)) as [n Hn].
    assert (Hk : ∃ k, unit_of (digits_end a) k).
    { unfold unit_of. destruct (String.eqb_spec (digits_end a) "ms") as [->|]; [by exists Millisecond; left|].
      destruct (String.eqb_spec (digits_end a) "s") as [->|]; [by exists Second; right; left|].
      destruct (String.eqb_spec (digits_end a) "m") as [->|]; [by exists Minute; right; right|done]. }
    destruct Hk as [k Hk]. exists (String c s), (digits_end a), k, n. split_and!; [cbn; by rewrite <- E|done|done|].
    cbn [parse_digits]. by rewrite (proj2 (Z.ltb_lt _ _) Hc).
  - intros (s & u & k & n & -> & Hs & Hu & Hp). destruct s as [|c s]; [done|]. cbn [String.append range_side].
    assert (Hall : ∀ s x n, parse_digits 10 x s = Some n → string_all (is_digit 10) s = true).
    { clear. induction s as [|c s IH]; intros x n; [done|]. cbn. unfold is_digit. destruct (digit_val c <? 10); [|done]. apply IH. }
    pose proof (Hall (String c s) 0 n Hp) as Hd. cbn [string_all] in Hd. apply andb_true_iff in Hd as [-> Hd].
    destruct (unit_of_facts u k Hu) as (_ & _ & _ & cu & ru & -> & Hcu & _).
    rewrite digits_end_app; [|by intros ? ? [= <- <-]|done]. destruct Hu as [[-> _]|[[-> _]|[-> _]]]; reflexivity.
Qed.

Lemma side_no_dash a : range_side a = true → ("-"%char : ascii) ∉ bytes_of a ∧ str_forall (λ c, negb (is_space c)) a = true.
Proof.
  intros (s & u & k & n & -> & _ & Hu & Hp)%range_side_spec. revert Hp. generalize 0 as x.
  assert (Hu' : ("-"%char : ascii) ∉ bytes_of u ∧ str_forall (λ c, negb (is_space c)) u = true).
  { destruct Hu as [[-> _]|[[-> _]|[-> _]]]; (split; [|reflexivity]); apply (str_forall_not_in (λ c, negb (Ascii.eqb c "-"))); reflexivity. }
  induction s as [|c s IH]; intros x Hp; [done|]. cbn [parse_digits] in Hp. destruct (Z.ltb_spec (digit_val c) 10) as [Hd|]; [|done].
  destruct (IH _ Hp) as [H1 H2]. pose proof (digit_val_decimal c Hd) as [Hc _]. cbn [String.append bytes_of]. split.
  - apply not_elem_of_cons. split; [|done]. intros <-. destruct Hc as [Hc _]. by vm_compute in Hc.
  - unfold str_forall in *. cbn [bytes_of forallb]. rewrite H2, andb_true_r. apply negb_true_iff.
    unfold is_space. cbv zeta. apply orb_false_iff. split; [apply andb_false_iff; right; apply Nat.leb_gt; lia|apply Nat.eqb_neq; lia].
Qed.

(** A delay or a range of delays in whole milliseconds, seconds or minutes is read as
    what was written, for every number that fits; a range written the wrong way round is
    refused. *)
Theorem delay_roundtrip n m u v k l : 0 ≤ n → 0 ≤ m → unit_of u k → unit_of v l → n * k ≤ max_int64 → m * l ≤ max_int64 →
  ParseDelay (format_uint 10 n +:+ u) = Ok {| delay_Min := n * k; delay_Max := n * k; IsRange := false |} ∧
  ParseDelay (format_uint 10 n +:+ u +:+ "-" +:+ format_uint 10 m +:+ v) =
    (if m * l <? n * k then Err RangeReversed else Ok {| delay_Min := n * k; delay_Max := m * l; IsRange := true |}).
Proof.
  intros Hn Hm Hu Hv Hnk Hml. pose proof (unit_of_facts u k Hu) as (_ & _ & Hk & _).
  assert (Hp : ∀ j, 0 ≤ j → parse_digits 10 0 (format_uint 10 j) = Some j ∧ format_uint 10 j ≠ "").
  { intros j Hj. pose proof (format_digits_nonempty (Z.to_nat (Z.log2 j)) 10 j "") as Hne. split; [|exact Hne].
    rewrite <- parse_uint_digits by exact Hne. apply parse_uint_format; lia. }
  destruct (Hp n Hn) as [Pn En], (Hp m Hm) as [Pm Em].
  assert (Ha : range_side (format_uint 10 n +:+ u) = true) by (apply range_side_spec; by exists (format_uint 10 n), u, k, n).
  assert (Hb : range_side (format_uint 10 m +:+ v) = true) by (apply range_side_spec; by exists (format_uint 10 m), v, l, m).
  destruct (side_no_dash _ Ha) as [Da Sa], (side_no_dash _ Hb) as [Db Sb].
  pose proof (duration_digits _ u k n En Hu Pn Hnk) as Qa. pose proof (duration_digits _ v l m Em Hv Pm Hml) as Qb.
  set (a := format_uint 10 n +:+ u) in *. set (b := format_uint 10 m +:+ v) in *.
  assert (Ea : a ≠ "") by (intros E; by rewrite E in Ha). split.
  - unfold ParseDelay. rewrite trim_space_id by done. rewrite (proj2 (String.eqb_neq _ _) Ea). unfold rangePattern.
    rewrite cut_byte_none by done. cbn [andb]. rewrite Qa. rewrite (proj2 (Z.ltb_ge _ _)) by nia. done.
  - replace (format_uint 10 n +:+ u +:+ "-" +:+ b) with (a +:+ String "-" b) by (unfold a; by rewrite str_app_assoc).
    unfold ParseDelay. rewrite trim_space_id by (rewrite str_forall_app, Sa; exact Sb).
    assert (E : String.eqb (a +:+ String "-" b) "" = false) by (apply String.eqb_neq; by destruct a). rewrite E.
    unfold rangePattern. rewrite cut_byte_app by done. cbn [andb]. rewrite Ha, Hb. cbn [andb]. by rewrite Qa, Qb.
Qed.

Lemma delay_roundtrip_witness : ParseDelay "300ms-2s" = Ok {| delay_Min := 300000000; delay_Max := 2000000000; IsRange := true |}.
Proof.
  refine (proj2 (delay_roundtrip 300 2 "ms" "s" Millisecond Second _ _ _ _ _ _));
    [lia|lia|by left|by right; left|vm_compute; discriminate|vm_compute; discriminate].
Defined.

(** ** Delays are not negative *)

Lemma leadingInt_rest s rest x v s1 : 0 ≤ x → string_all (is_digit 10) s = true → (∀ c r, rest = String c r → is_digit 10 c = false) →
  leadingInt x (s +:+ rest) = Some (v, s1) → 0 ≤ v ∧ s1 = rest.
Proof.
  intros Hx Hs Hrest. revert x Hx. induction s as [|c s IH]; intros x Hx; cbn [string_all String.append leadingInt] in *.
  - destruct rest as [|c r]; cbn [leadingInt]; [by intros [= <- <-]|]. rewrite (Hrest c r eq_refl). by intros [= <- <-].
  - apply andb_true_iff in Hs as [Hc Hs]. rewrite Hc. destruct (_ <? x); [done|]. cbv zeta. destruct (_ <? _); [done|].
    apply IH; [done|]. pose proof (digit_val_nonneg c). lia.
Qed.

Lemma side_duration a d : range_side a = true → ParseDuration a = Some d → 0 ≤ d.
Proof.
  intros (s & u & k & n & -> & Hs & Hu & Hp)%range_side_spec E. destruct (unit_of_facts u k Hu) as (Hm & Hname & Hk & cu & ru & -> & Hcu & Hdot).
  assert (Hall : ∀ s x n, parse_digits 10 x s = Some n → string_all (is_digit 10) s = true).
  { clear. induction s as [|c s IH]; intros x n; [done|]. cbn. unfold is_digit. destruct (digit_val c <? 10); [|done]. apply IH. }
  pose proof (Hall s 0 n Hp) as Hd. destruct s as [|c0 s]; [done|].
  assert (Hcomp : ∀ v s3, parse_component (String c0 s +:+ String cu ru) = Some (v, s3) → 0 ≤ v ∧ s3 = "").
  { intros v s3. unfold parse_component. cbn [String.append]. cbn [string_all] in Hd. pose proof Hd as Hd'. apply andb_true_iff in Hd' as [Hc0 _].
    rewrite Hc0, orb_true_r. cbn [negb]. change (String c0 (s +:+ String cu ru)) with (String c0 s +:+ String cu ru).
    destruct (leadingInt 0 (String c0 s +:+ String cu ru)) as [[w s1]|] eqn:El; [|done].
    destruct (leadingInt_rest (String c0 s) (String cu ru) 0 w s1) as [Hw ->]; [lia|exact Hd|by intros ? ? [= <- <-]|done|].
    cbn [mbind option_bind]. rewrite Hdot. cbv zeta. destruct (negb (_ || _)); [done|]. rewrite Hname, Hm. cbn [mbind option_bind].
    destruct (_ <? w); [done|]. change (0 <? 0) with false. cbv iota. destruct (_ <? _); [done|]. intros [= <- <-]. split; [nia|done]. }
  unfold ParseDuration in E. cbn [String.append] in E, Hcomp. cbn [string_all] in Hd. apply andb_true_iff in Hd as [Hc0 _]. apply is_digit_val in Hc0.
  destruct (digit_not_sign 10 c0 ltac:(lia) Hc0) as [H1 H2]. rewrite !(proj2 (Ascii.eqb_neq _ _)) in E by done.
  destruct (String.eqb _ "0"); [by injection E as <-|]. destruct (String.eqb _ ""); [done|]. cbn [String.length parse_components] in E.
  destruct (parse_component _) as [[v s3]|]; [|done]. destruct (Hcomp v s3 eq_refl) as [Hv ->]. cbn [mbind option_bind] in E.
  rewrite Z.add_0_l in E. destruct (_ <? v); [done|].
  assert (Ef : ∀ fuel, parse_components fuel v "" = Some v) by (by intros []). rewrite Ef in E. cbn [mbind option_bind] in E.
  destruct (_ <? v); [done|]. by injection E as <-.
Qed.

Lemma duration_max s d : ParseDuration s = Some d → d ≤ max_int64.
Proof.
  unfold ParseDuration. destruct (match s with String _ _ => _ | "" => _ end) as [neg s']. destruct (String.eqb s' "0"); [intros [= <-]; unfold max_int64; lia|].
  destruct (String.eqb s' ""); [done|]. destruct (parse_components _ _ _) as [e|]; [|done]. cbn [mbind option_bind].
  destruct neg; [intros [= <-]; apply wrap64_range|]. destruct (Z.ltb_spec max_int64 e); [done|]. by intros [= <-].
Qed.

(** The bounds of a delay are in order and fit. *)
Lemma ParseDelay_bounds s d : ParseDelay s = Ok d → 0 ≤ delay_Min d ≤ delay_Max d ∧ delay_Max d ≤ max_int64 ∧ (IsRange d = false → delay_Min d = delay_Max d).
Proof.
  unfold ParseDelay. cbv zeta. destruct (String.eqb _ ""); [done|]. destruct (rangePattern _) as [[a b]|] eqn:Er.
  - unfold rangePattern in Er. destruct (cut_byte _ _) as [[a' b'] found]. destruct found; [|done]. cbn [andb] in Er.
    destruct (range_side a') eqn:Ha; [|done]. destruct (range_side b'); [|done]. injection Er as -> ->.
    destruct (ParseDuration a) as [lo|] eqn:Ea; [|done]. destruct (ParseDuration b) as [hi|] eqn:Eb; [|done].
    destruct (Z.ltb_spec hi lo); [done|]. intros [= <-]. cbn. pose proof (side_duration a lo Ha Ea). pose proof (duration_max b hi Eb). split_and!; [lia|lia|lia|done].
  - destruct (ParseDuration _) as [e|] eqn:Ee; [|done]. destruct (Z.ltb_spec e 0); [done|]. intros [= <-]. cbn. pose proof (duration_max _ e Ee). split_and!; [lia|lia|lia|done].
Qed.
