(* ===== verification/GoParseFloat.v ===== *)
(** * Numbers with a point as text

    [strconv.ParseFloat] for 64 bits, as [readFloat] scans it: decimal and hexadecimal
    mantissas, exponents, underscores where the syntax of Go has them, infinities and
    NaN. The value is rounded once, from the exact number. And [strconv.ParseBool]. *)
From S2P Require Import Prelude GoInt GoFloat GoStrings.

Local Open Scope Z_scope.

(** ** [readFloat] *)

(** [fd_frac] digits of the mantissa stand behind the point. *)
Record FloatDigits := { fd_mantissa : Z; fd_frac : Z; fd_seen : bool; fd_underscores : bool; fd_rest : string }.

Fixpoint readMantissa (base : Z) (mantissa frac : Z) (sawdot sawdigits underscores : bool) (s : string) : FloatDigits :=
  let stop := {| fd_mantissa := mantissa; fd_frac := frac; fd_seen := sawdigits; fd_underscores := underscores; fd_rest := s |} in
  match s with
  | "" => stop
  | String c s' =>
      if Ascii.eqb c "_" then readMantissa base mantissa frac sawdot sawdigits true s'
      else if Ascii.eqb c "." then if sawdot then stop else readMantissa base mantissa frac true sawdigits underscores s'
      else if digit_val c <? base then
        readMantissa base (mantissa * base + digit_val c) (if sawdot then frac + 1 else frac) sawdot true underscores s'
      else stop
  end.

(** The digits of an exponent: it stops growing at five digits. *)
Fixpoint readExponent (e : Z) (underscores : bool) (s : string) : Z * bool * string :=
  match s with
  | String c s' =>
      if Ascii.eqb c "_" then readExponent e true s'
      else if digit_val c <? 10 then readExponent (if e <? 10000 then e * 10 + digit_val c else e) underscores s'
      else (e, underscores, s)
  | "" => (e, underscores, s)
  end.

Inductive Seen := Beginning | Digit | Underscore | Other.

Fixpoint underscoresOK (hex : bool) (saw : Seen) (s : string) : bool :=
  match s with
  | "" => match saw with Underscore => false | _ => true end
  | String c s' =>
      if digit_val c <? (if hex then 16 else 10) then underscoresOK hex Digit s'
      else if Ascii.eqb c "_" then match saw with Digit => underscoresOK hex Underscore s' | _ => false end
      else match saw with Underscore => false | _ => underscoresOK hex Other s' end
  end.

Definition unsigned_part (s : string) : string :=
  match s with String c s' => if Ascii.eqb c "-" || Ascii.eqb c "+" then s' else s | "" => "" end.

Definition underscoreOK (s : string) : bool :=
  match unsigned_part s with
  | String "0" (String c s') as s =>
      let c := lower_ascii c in
      if Ascii.eqb c "b" || Ascii.eqb c "o" || Ascii.eqb c "x" then underscoresOK (Ascii.eqb c "x") Digit s' else underscoresOK false Beginning s
  | s => underscoresOK false Beginning s
  end.

Record FloatText := { fx_neg : bool; fx_hex : bool; fx_mantissa : Z; fx_exp : Z }.

(** The text has to be the number entirely; the exponent is of ten, or of two. *)
Definition readFloat (s : string) : option FloatText :=
  let neg := match s with String "-" _ => true | _ => false end in
  let body := unsigned_part s in
  let '(hex, digits) := match body with
                        | String "0" (String c ((String _ _) as s')) => if Ascii.eqb (lower_ascii c) "x" then (true, s') else (false, body)
                        | _ => (false, body)
                        end in
  let d := readMantissa (if hex : bool then 16 else 10) 0 0 false false false digits in
  if negb (fd_seen d) then None
  else
    let scaled := if hex : bool then -4 * fd_frac d else - fd_frac d in
    '(e, underscores, rest) ←
      match fd_rest d with
      | String c s' =>
          if Ascii.eqb (lower_ascii c) (if hex : bool then "p" else "e") then
            let esign := match s' with String "-" _ => -1 | _ => 1 end in
            match unsigned_part s' with
            | String c' _ =>
                if digit_val c' <? 10 then
                  let '(e, u, rest) := readExponent 0 (fd_underscores d) (unsigned_part s') in Some (e * esign, u, rest)
                else None
            | "" => None
            end
          else if hex : bool then None else Some (0, fd_underscores d, fd_rest d)
      | "" => if hex : bool then None else Some (0, fd_underscores d, "")
      end;
    if underscores && negb (underscoreOK s) then None
    else if String.eqb rest "" then Some {| fx_neg := neg; fx_hex := hex; fx_mantissa := fd_mantissa d; fx_exp := scaled + e |}
    else None.

(** ** The value *)

(** A mantissa and an exponent of two, or of ten; a value that is too large is an error. *)
Definition roundFloat (x : FloatText) : option float64 :=
  let f :=
    match fx_mantissa x with
    | Zpos m =>
        if fx_hex x then binary_normalize 53 1024 (if fx_neg x then Zneg m else Zpos m) (fx_exp x) false
        else if 0 <=? fx_exp x then of_int ((if fx_neg x then -1 else 1) * Zpos m * 10 ^ fx_exp x)
        else match 10 ^ (- fx_exp x) with
             | Zpos p => fdiv (S754_finite (fx_neg x) m 0) (S754_finite false p 0)
             | _ => S754_nan
             end
    | _ => S754_zero (fx_neg x)
    end in
  match f with S754_infinity _ => None | _ => Some f end.

Definition specialFloat (s : string) : option float64 :=
  let body := to_lower (unsigned_part s) in
  if String.eqb body "inf" || String.eqb body "infinity" then Some (S754_infinity (match s with String "-" _ => true | _ => false end))
  else if String.eqb (to_lower s) "nan" then Some S754_nan
  else None.

(** [None]: not a number, or one that does not fit. *)
Definition ParseFloat (s : string) : option float64 :=
  match specialFloat s with
  | Some f => Some f
  | None => readFloat s ≫= roundFloat
  end.

Example parsed_floats :
  map ParseFloat ["1.5"; "-2e3"; "0.1"; "0x1p-2"; "1_000"; "Inf"; ".5e1"; "1."]
  = [Some (literal 3 2); Some (of_int (-2000)); Some (literal 1 10); Some (literal 1 4); Some (of_int 1000); Some (S754_infinity false); Some (of_int 5); Some (of_int 1)].
Proof. vm_compute. reflexivity. Qed.

Example refused_floats : map ParseFloat [""; "."; "e5"; "1e"; "1__0"; "_1"; "1_"; "0x1"; "1e400"; "1 "; "infx"; "+nan"; "1.2.3"] = replicate 13 None.
Proof. vm_compute. reflexivity. Qed.

(** ** [strconv.ParseBool] *)

Definition ParseBool (s : string) : option bool :=
  if bool_decide (s ∈ ["1"; "t"; "T"; "TRUE"; "true"; "True"]) then Some true
  else if bool_decide (s ∈ ["0"; "f"; "F"; "FALSE"; "false"; "False"]) then Some false
  else None.
