(* ===== verification/Config.v ===== *)
(** * Configuration: the data of [internal/config/config.go], byte sizes, defaults

    The configuration as the structs of the code, its defaults, how a server entry
    inherits from the shared defaults, and byte sizes as text ([bytesize.go]). Durations
    are nanoseconds. What YAML and JSON decode into these structs is outside. *)
From S2P Require Import Prelude GoInt GoFloat GoStrings GoTime GoParseFloat.

Local Open Scope Z_scope.

(** ** Byte sizes *)

Inductive ConfigError :=
| EmptyByteSize
| InvalidByteSize (s : string)
| BodySizeNotPositive (bytes : Z)
| RemovedEnvVar (name : string)
| FileFailed (message : string)
| PortRequired (server : string)
| ScenariosDirRequired (server : string).

Fixpoint to_upper (s : string) : string :=
  match s with "" => "" | String c s => String (upper_ascii c) (to_upper s) end.

(** The suffix without which [upper] is left, when it has it. *)
Definition suffix_len (upper label : string) : option nat :=
  let n := String.length upper in let k := String.length label in
  if ((k <=? n)%nat && String.eqb (str_drop (n - k) upper) label) then Some (n - k)%nat else None.

Definition byte_suffixes : list (string * Z) := [("GB", 1024 * 1024 * 1024); ("MB", 1024 * 1024); ("KB", 1024)].

(** The first suffix the text ends in: the number before it and its multiplier. *)
Fixpoint find_suffix (s upper : string) (suffixes : list (string * Z)) : option (string * Z) :=
  match suffixes with
  | [] => None
  | (label, multiplier) :: suffixes =>
      match suffix_len upper label with
      | Some k => Some (trim_space (str_take k s), multiplier)
      | None => find_suffix s upper suffixes
      end
  end.

Section ByteSize.
(** What the processor does with a float that does not fit an [int64]. *)
Context (unfit : float64 → Z).

Definition ParseByteSize (text : string) : result ConfigError Z :=
  let s := trim_space text in
  if String.eqb s "" then Err EmptyByteSize
  else
    match find_suffix s (to_upper s) byte_suffixes with
    | Some (numStr, multiplier) =>
        match ParseFloat numStr with
        | Some val => Ok (to_int64 unfit (fmul val (of_int multiplier)))
        | None => Err (InvalidByteSize s)
        end
    | None => match parse_int 10 s with Some val => Ok val | None => Err (InvalidByteSize s) end
    end.
End ByteSize.

(** ** Limits of a body *)

Record BodySizeLimit := { lim_Bytes : Z; lim_Unlimited : bool; lim_set : bool }.

Definition NewBodySizeLimit (bytes : Z) : BodySizeLimit := {| lim_Bytes := bytes; lim_Unlimited := false; lim_set := true |}.
Definition NewUnlimitedBodySizeLimit : BodySizeLimit := {| lim_Bytes := 0; lim_Unlimited := true; lim_set := true |}.
Definition isSet (l : BodySizeLimit) : bool := lim_set l || lim_Unlimited l || negb (lim_Bytes l =? 0).

Definition effectiveUnlimitedBodyPatternLimit (serverMaxBodySize : Z) : BodySizeLimit :=
  if 0 <? serverMaxBodySize then NewBodySizeLimit serverMaxBodySize else NewUnlimitedBodySizeLimit.

Definition effectiveFiniteBodyPatternLimit (limit : BodySizeLimit) (serverMaxBodySize : Z) : BodySizeLimit :=
  if (0 <? serverMaxBodySize) && (serverMaxBodySize <? lim_Bytes limit) then NewBodySizeLimit serverMaxBodySize else limit.

Definition EffectiveBodyPatternLimit (limit : BodySizeLimit) (serverMaxBodySize : Z) : BodySizeLimit :=
  if lim_Unlimited limit then effectiveUnlimitedBodyPatternLimit serverMaxBodySize else effectiveFiniteBodyPatternLimit limit serverMaxBodySize.

Definition parseBodySizeLimitBytes (bytes : Z) : result ConfigError BodySizeLimit :=
  if bytes <=? 0 then Err (BodySizeNotPositive bytes) else Ok (NewBodySizeLimit bytes).

Definition ParseBodySizeLimit (unfit : float64 → Z) (value : string) : result ConfigError BodySizeLimit :=
  if equal_fold (trim_space value) "unlimited" then Ok NewUnlimitedBodySizeLimit
  else match ParseByteSize unfit value with
       | Err e => Err e
       | Ok bytes => parseBodySizeLimitBytes bytes
       end.

(** ** The structs *)

(** Weights are those of [Weight]. *)

Record TLSConfig := {
  tls_CertFile : string; tls_KeyFile : string; tls_ClientCAFile : string; tls_ClientAuth : string;
  tls_CertCheckInterval : Z; tls_ExpiryWarningDays : Z; tls_Enabled : bool
}.

Record ServerConfig := {
  sc_ReadTimeout : Z; sc_WriteTimeout : Z; sc_MaxBodySize : Z; sc_IdleTimeout : Z; sc_ShutdownTimeout : Z; sc_Name : string;
  sc_Port : Z; sc_MaxConnections : Z; sc_Streaming : bool; sc_maxBodySizeSet : bool; sc_TLS : TLSConfig; sc_Host : string
}.

Record LoggingConfig := { lg_Level : string; lg_Format : string; lg_Output : string; lg_MaxSize : Z; lg_MaxBackups : Z; lg_MaxAge : Z }.
Record MetricsConfig := { mt_Host : string; mt_Path : string; mt_Port : Z; mt_Enabled : bool }.
Record MockMatchingConfig := { mm_BodyPatternLimitAction : string; mm_BodyPatternLimit : BodySizeLimit }.
Record HotReloadConfig := { hl_Debounce : Z; hl_Enabled : bool; hl_WatchDirectory : bool }.

Record MockConfig := {
  mk_ScenariosDir : string; mk_ServiceID : string; mk_Matching : MockMatchingConfig; mk_HotReload : HotReloadConfig; mk_DefaultTimeout : Z
}.

Record DiskMonitorConfig := {
  dm_Path : string; dm_CheckInterval : Z; dm_WarningThreshold : float64; dm_ErrorThreshold : float64; dm_CacheInterval : Z;
  dm_Enabled : bool; dm_UseSyscalls : bool
}.

Record StorageConfig := {
  st_RequestsDir : string; st_DiskMonitor : DiskMonitorConfig; st_MaxFileSize : Z; st_RotateAfter : Z; st_Workers : Z; st_QueueSize : Z; st_Enabled : bool
}.

Record HealthConfig := { hc_HealthPath : string; hc_ReadyPath : string; hc_APIToken : string; hc_Port : Z; hc_Enabled : bool }.

Record ManagementConfig := {
  mg_Token : string; mg_TokenEnv : string; mg_Enabled : bool; mg_ScenarioReloadEnabled : bool; mg_ConfigReloadEnabled : bool;
  mg_enabledSet : bool; mg_scenarioReloadSet : bool; mg_configReloadSet : bool
}.

Record ShardingConfig := { sh_ShardCount : Z; sh_CacheSize : Z; sh_Enabled : bool; sh_EnableCache : bool; sh_enabledSet : bool; sh_cacheSet : bool }.

Record DefaultsConfig := {
  df_Host : string; df_ReadTimeout : Z; df_WriteTimeout : Z; df_MaxConnections : Z; df_MaxBodySize : Z; df_IdleTimeout : Z; df_ShutdownTimeout : Z;
  df_Streaming : bool; df_streamingSet : bool; df_maxBodySizeSet : bool
}.

Record InlineWeightedResponse := {
  iw_Set : gmap string string; iw_Body : string; iw_Delay : string; iw_Weight : Z; iw_Status : Z; iw_HTTPStatus : Z
}.

(** [ie_Responses]: [None] when the field is not there. *)
Record InlineScenarioEntry := {
  ie_When : gmap string string; ie_Set : gmap string string; ie_Method : list string; ie_Endpoint : list string; ie_Body : string; ie_BodyFile : string;
  ie_Delay : string; ie_Responses : option (list InlineWeightedResponse); ie_Status : Z; ie_HTTPStatus : Z; ie_Priority : Z
}.

Record ServerEntryConfig := {
  en_Scenarios : gmap string InlineScenarioEntry; en_ScenariosDir : string; en_ServiceID : string; en_Host : string; en_Port : Z;
  en_ReadTimeout : Z; en_WriteTimeout : Z; en_MaxConnections : Z; en_MaxBodySize : Z; en_IdleTimeout : Z; en_ShutdownTimeout : Z;
  en_Streaming : bool; en_streamingSet : bool; en_maxBodySizeSet : bool
}.

Record Config := {
  c_SourcePath : string; c_Servers : gmap string ServerEntryConfig; c_Health : HealthConfig; c_Management : ManagementConfig; c_Metrics : MetricsConfig;
  c_Mock : MockConfig; c_Logging : LoggingConfig; c_Defaults : DefaultsConfig; c_Server : ServerConfig; c_Storage : StorageConfig; c_Sharding : ShardingConfig;
  c_PprofEnabled : bool
}.

(** ** Zero values *)

Definition zeroServer : ServerConfig :=
  {| sc_ReadTimeout := 0; sc_WriteTimeout := 0; sc_MaxBodySize := 0; sc_IdleTimeout := 0; sc_ShutdownTimeout := 0; sc_Name := ""; sc_Port := 0;
     sc_MaxConnections := 0; sc_Streaming := false; sc_maxBodySizeSet := false;
     sc_TLS := {| tls_CertFile := ""; tls_KeyFile := ""; tls_ClientCAFile := ""; tls_ClientAuth := ""; tls_CertCheckInterval := 0; tls_ExpiryWarningDays := 0; tls_Enabled := false |};
     sc_Host := "" |}.

Definition zeroManagement : ManagementConfig :=
  {| mg_Token := ""; mg_TokenEnv := ""; mg_Enabled := false; mg_ScenarioReloadEnabled := false; mg_ConfigReloadEnabled := false;
     mg_enabledSet := false; mg_scenarioReloadSet := false; mg_configReloadSet := false |}.

Definition zeroDefaults : DefaultsConfig :=
  {| df_Host := ""; df_ReadTimeout := 0; df_WriteTimeout := 0; df_MaxConnections := 0; df_MaxBodySize := 0; df_IdleTimeout := 0; df_ShutdownTimeout := 0;
     df_Streaming := false; df_streamingSet := false; df_maxBodySizeSet := false |}.

(** [&Config{}]. *)
Definition zeroConfig : Config :=
  {| c_SourcePath := ""; c_Servers := ∅;
     c_Health := {| hc_HealthPath := ""; hc_ReadyPath := ""; hc_APIToken := ""; hc_Port := 0; hc_Enabled := false |};
     c_Management := zeroManagement;
     c_Metrics := {| mt_Host := ""; mt_Path := ""; mt_Port := 0; mt_Enabled := false |};
     c_Mock := {| mk_ScenariosDir := ""; mk_ServiceID := "";
                  mk_Matching := {| mm_BodyPatternLimitAction := ""; mm_BodyPatternLimit := {| lim_Bytes := 0; lim_Unlimited := false; lim_set := false |} |};
                  mk_HotReload := {| hl_Debounce := 0; hl_Enabled := false; hl_WatchDirectory := false |}; mk_DefaultTimeout := 0 |};
     c_Logging := {| lg_Level := ""; lg_Format := ""; lg_Output := ""; lg_MaxSize := 0; lg_MaxBackups := 0; lg_MaxAge := 0 |};
     c_Defaults := zeroDefaults; c_Server := zeroServer;
     c_Storage := {| st_RequestsDir := "";
                     st_DiskMonitor := {| dm_Path := ""; dm_CheckInterval := 0; dm_WarningThreshold := S754_zero false; dm_ErrorThreshold := S754_zero false;
                                          dm_CacheInterval := 0; dm_Enabled := false; dm_UseSyscalls := false |};
                     st_MaxFileSize := 0; st_RotateAfter := 0; st_Workers := 0; st_QueueSize := 0; st_Enabled := false |};
     c_Sharding := {| sh_ShardCount := 0; sh_CacheSize := 0; sh_Enabled := false; sh_EnableCache := false; sh_enabledSet := false; sh_cacheSet := false |};
     c_PprofEnabled := false |}.

(** ** Defaults *)

Definition defaultHost : string := "0.0.0.0".
Definition defaultServerName : string := "default".
Definition DefaultBodyPatternLimitBytes : Z := 10 * 1024 * 1024.
Definition BodyPatternLimitActionNoMatch : string := "no_match".
Definition BodyPatternLimitActionError : string := "error".
Definition Hour : Z := 60 * Minute.

Definition defaultServer (c : ServerConfig) : ServerConfig :=
  {| sc_ReadTimeout := 30 * Second; sc_WriteTimeout := 30 * Second; sc_MaxBodySize := 10485760; sc_IdleTimeout := 60 * Second; sc_ShutdownTimeout := 30 * Second;
     sc_Name := defaultServerName; sc_Port := 1344; sc_MaxConnections := 15000; sc_Streaming := true; sc_maxBodySizeSet := sc_maxBodySizeSet c;
     sc_TLS := {| tls_CertFile := tls_CertFile (sc_TLS c); tls_KeyFile := tls_KeyFile (sc_TLS c); tls_ClientCAFile := tls_ClientCAFile (sc_TLS c);
                  tls_ClientAuth := tls_ClientAuth (sc_TLS c); tls_CertCheckInterval := 24 * Hour; tls_ExpiryWarningDays := 30; tls_Enabled := false |};
     sc_Host := defaultHost |}.

Definition defaultMock (c : MockConfig) : MockConfig :=
  {| mk_ScenariosDir := mk_ScenariosDir c; mk_ServiceID := "icap-mock";
     mk_Matching := {| mm_BodyPatternLimitAction := BodyPatternLimitActionNoMatch; mm_BodyPatternLimit := NewBodySizeLimit DefaultBodyPatternLimitBytes |};
     mk_HotReload := {| hl_Debounce := Second; hl_Enabled := false; hl_WatchDirectory := true |}; mk_DefaultTimeout := 5 * Second |}.

Definition defaultStorage : StorageConfig :=
  {| st_RequestsDir := "./data/requests";
     st_DiskMonitor := {| dm_Path := ""; dm_CheckInterval := 30 * Second; dm_WarningThreshold := literal 80 100; dm_ErrorThreshold := literal 95 100;
                          dm_CacheInterval := 5 * Second; dm_Enabled := true; dm_UseSyscalls := true |};
     st_MaxFileSize := 104857600; st_RotateAfter := 10000; st_Workers := 16; st_QueueSize := 10000; st_Enabled := false |}.

Definition SetDefaults (c : Config) : Config :=
  {| c_SourcePath := c_SourcePath c; c_Servers := c_Servers c;
     c_Health := {| hc_HealthPath := "/health"; hc_ReadyPath := "/ready"; hc_APIToken := hc_APIToken (c_Health c); hc_Port := 8080; hc_Enabled := true |};
     c_Management := {| mg_Token := mg_Token (c_Management c); mg_TokenEnv := mg_TokenEnv (c_Management c);
                        mg_Enabled := false; mg_ScenarioReloadEnabled := false; mg_ConfigReloadEnabled := false;
                        mg_enabledSet := mg_enabledSet (c_Management c); mg_scenarioReloadSet := mg_scenarioReloadSet (c_Management c);
                        mg_configReloadSet := mg_configReloadSet (c_Management c) |};
     c_Metrics := {| mt_Host := defaultHost; mt_Path := "/metrics"; mt_Port := 9090; mt_Enabled := true |};
     c_Mock := defaultMock (c_Mock c);
     c_Logging := {| lg_Level := "info"; lg_Format := "json"; lg_Output := "stdout"; lg_MaxSize := 100; lg_MaxBackups := 5; lg_MaxAge := 30 |};
     c_Defaults := c_Defaults c; c_Server := defaultServer (c_Server c); c_Storage := defaultStorage;
     c_Sharding := {| sh_ShardCount := 16; sh_CacheSize := 1000; sh_Enabled := false; sh_EnableCache := true;
                      sh_enabledSet := sh_enabledSet (c_Sharding c); sh_cacheSet := sh_cacheSet (c_Sharding c) |};
     c_PprofEnabled := false |}.

(** ** Server entries *)

Definition EffectiveMaxBodySize (c : ServerConfig) (defaultLimit : Z) : Z :=
  if (sc_MaxBodySize c =? 0) && negb (sc_maxBodySizeSet c) then defaultLimit else sc_MaxBodySize c.

(** The value of the entry when it is not zero. *)
Definition or_str (own inherited : string) : string := if String.eqb own "" then inherited else own.
Definition or_num (own inherited : Z) : Z := if own =? 0 then inherited else own.

Definition ToServerConfig (e : ServerEntryConfig) (defaults : DefaultsConfig) : ServerConfig :=
  {| sc_Host := or_str (en_Host e) (df_Host defaults); sc_Port := en_Port e;
     sc_ReadTimeout := or_num (en_ReadTimeout e) (df_ReadTimeout defaults);
     sc_WriteTimeout := or_num (en_WriteTimeout e) (df_WriteTimeout defaults);
     sc_MaxConnections := or_num (en_MaxConnections e) (df_MaxConnections defaults);
     sc_MaxBodySize := if negb (en_MaxBodySize e =? 0) || en_maxBodySizeSet e then en_MaxBodySize e else df_MaxBodySize defaults;
     sc_IdleTimeout := or_num (en_IdleTimeout e) (df_IdleTimeout defaults);
     sc_ShutdownTimeout := or_num (en_ShutdownTimeout e) (df_ShutdownTimeout defaults);
     sc_Streaming := if en_streamingSet e then en_Streaming e else if df_streamingSet defaults then df_Streaming defaults else true;
     sc_Name := ""; sc_maxBodySizeSet := false; sc_TLS := sc_TLS zeroServer |}.

(** ** The token of the management endpoints *)

Record managementConfigWire := { wm_Enabled : option bool; wm_ScenarioReloadEnabled : option bool; wm_ConfigReloadEnabled : option bool; wm_Token : string; wm_TokenEnv : string }.

(** [setBool]: the value and whether one was present. *)
Definition setBool (src : option bool) (dst present : bool) : bool * bool := match src with Some b => (b, true) | None => (dst, present) end.

Definition applyWire (raw : managementConfigWire) (c : ManagementConfig) : ManagementConfig :=
  let '(enabled, enabledSet) := setBool (wm_Enabled raw) (mg_Enabled c) (mg_enabledSet c) in
  let '(scenario, scenarioSet) := setBool (wm_ScenarioReloadEnabled raw) (mg_ScenarioReloadEnabled c) (mg_scenarioReloadSet c) in
  let '(config, configSet) := setBool (wm_ConfigReloadEnabled raw) (mg_ConfigReloadEnabled c) (mg_configReloadSet c) in
  {| mg_Token := wm_Token raw; mg_TokenEnv := wm_TokenEnv raw; mg_Enabled := enabled; mg_ScenarioReloadEnabled := scenario; mg_ConfigReloadEnabled := config;
     mg_enabledSet := enabledSet; mg_scenarioReloadSet := scenarioSet; mg_configReloadSet := configSet |}.

Definition ResolvedToken (Getenv : string → string) (c : ManagementConfig) : string :=
  if negb (String.eqb (mg_Token c) "") then mg_Token c else if String.eqb (mg_TokenEnv c) "" then "" else Getenv (mg_TokenEnv c).
