(* ===== verification/ConfigLoad.v ===== *)
(** * Configuration: layers and validation

    [internal/config/loader.go]: a configuration is the defaults, under the values of a
    file, under those of the environment; [server_cmd_overrides.go] puts the values of
    the command line on top; [validator.go] checks the result. The file is what the
    YAML and JSON libraries decoded, the environment a map. *)
From S2P Require Import Prelude GoInt GoFloat GoStrings GoTime GoParseFloat Config.

Local Open Scope Z_scope.

Notation Environment := (gmap string string).

(** ** Values of a file *)

(** [mergeStr], and [mergeInt], [mergeInt64], [mergeDuration]. *)
Definition mergeStr (dst src : string) : string := if String.eqb src "" then dst else src.
Definition mergeInt (dst src : Z) : Z := if src =? 0 then dst else src.

Definition mergeServerConfig (dst src : ServerConfig) : ServerConfig :=
  {| sc_Host := mergeStr (sc_Host dst) (sc_Host src); sc_Port := mergeInt (sc_Port dst) (sc_Port src);
     sc_ReadTimeout := mergeInt (sc_ReadTimeout dst) (sc_ReadTimeout src); sc_WriteTimeout := mergeInt (sc_WriteTimeout dst) (sc_WriteTimeout src);
     sc_MaxConnections := mergeInt (sc_MaxConnections dst) (sc_MaxConnections src);
     sc_MaxBodySize := if sc_maxBodySizeSet src then sc_MaxBodySize src else mergeInt (sc_MaxBodySize dst) (sc_MaxBodySize src);
     sc_maxBodySizeSet := sc_maxBodySizeSet dst || sc_maxBodySizeSet src;
     sc_Streaming := sc_Streaming src;
     sc_TLS := {| tls_CertFile := mergeStr (tls_CertFile (sc_TLS dst)) (tls_CertFile (sc_TLS src));
                  tls_KeyFile := mergeStr (tls_KeyFile (sc_TLS dst)) (tls_KeyFile (sc_TLS src));
                  tls_Enabled := tls_Enabled (sc_TLS src);
                  tls_ClientCAFile := mergeStr (tls_ClientCAFile (sc_TLS dst)) (tls_ClientCAFile (sc_TLS src));
                  tls_ClientAuth := mergeStr (tls_ClientAuth (sc_TLS dst)) (tls_ClientAuth (sc_TLS src));
                  tls_CertCheckInterval := tls_CertCheckInterval (sc_TLS dst); tls_ExpiryWarningDays := tls_ExpiryWarningDays (sc_TLS dst) |};
     sc_IdleTimeout := sc_IdleTimeout dst; sc_ShutdownTimeout := sc_ShutdownTimeout dst; sc_Name := sc_Name dst |}.

Definition mergeLoggingConfig (dst src : LoggingConfig) : LoggingConfig :=
  {| lg_Level := mergeStr (lg_Level dst) (lg_Level src); lg_Format := mergeStr (lg_Format dst) (lg_Format src);
     lg_Output := mergeStr (lg_Output dst) (lg_Output src); lg_MaxSize := mergeInt (lg_MaxSize dst) (lg_MaxSize src);
     lg_MaxBackups := mergeInt (lg_MaxBackups dst) (lg_MaxBackups src); lg_MaxAge := mergeInt (lg_MaxAge dst) (lg_MaxAge src) |}.

Definition mergeMetricsConfig (dst src : MetricsConfig) : MetricsConfig :=
  {| mt_Enabled := mt_Enabled src; mt_Host := mergeStr (mt_Host dst) (mt_Host src); mt_Port := mergeInt (mt_Port dst) (mt_Port src);
     mt_Path := mergeStr (mt_Path dst) (mt_Path src) |}.

Definition mergeMockMatchingConfig (dst src : MockMatchingConfig) : MockMatchingConfig :=
  {| mm_BodyPatternLimit := if isSet (mm_BodyPatternLimit src) then mm_BodyPatternLimit src else mm_BodyPatternLimit dst;
     mm_BodyPatternLimitAction := mergeStr (mm_BodyPatternLimitAction dst) (mm_BodyPatternLimitAction src) |}.

Definition mergeMockConfig (dst src : MockConfig) : MockConfig :=
  {| mk_ScenariosDir := mergeStr (mk_ScenariosDir dst) (mk_ScenariosDir src);
     mk_DefaultTimeout := mergeInt (mk_DefaultTimeout dst) (mk_DefaultTimeout src);
     mk_Matching := mergeMockMatchingConfig (mk_Matching dst) (mk_Matching src);
     mk_ServiceID := mk_ServiceID dst; mk_HotReload := mk_HotReload dst |}.

Definition mergeStorageConfig (dst src : StorageConfig) : StorageConfig :=
  {| st_Enabled := st_Enabled src; st_RequestsDir := mergeStr (st_RequestsDir dst) (st_RequestsDir src);
     st_MaxFileSize := mergeInt (st_MaxFileSize dst) (st_MaxFileSize src); st_RotateAfter := mergeInt (st_RotateAfter dst) (st_RotateAfter src);
     st_Workers := st_Workers dst; st_QueueSize := st_QueueSize dst; st_DiskMonitor := st_DiskMonitor dst |}.

Definition mergeHealthConfig (dst src : HealthConfig) : HealthConfig :=
  {| hc_Enabled := hc_Enabled src; hc_Port := mergeInt (hc_Port dst) (hc_Port src); hc_HealthPath := mergeStr (hc_HealthPath dst) (hc_HealthPath src);
     hc_ReadyPath := mergeStr (hc_ReadyPath dst) (hc_ReadyPath src); hc_APIToken := mergeStr (hc_APIToken dst) (hc_APIToken src) |}.

Definition mergeManagementConfig (dst src : ManagementConfig) : ManagementConfig :=
  {| mg_Enabled := if mg_enabledSet src then mg_Enabled src else mg_Enabled dst;
     mg_ScenarioReloadEnabled := if mg_scenarioReloadSet src then mg_ScenarioReloadEnabled src else mg_ScenarioReloadEnabled dst;
     mg_ConfigReloadEnabled := if mg_configReloadSet src then mg_ConfigReloadEnabled src else mg_ConfigReloadEnabled dst;
     mg_Token := mergeStr (mg_Token dst) (mg_Token src); mg_TokenEnv := mergeStr (mg_TokenEnv dst) (mg_TokenEnv src);
     mg_enabledSet := mg_enabledSet dst; mg_scenarioReloadSet := mg_scenarioReloadSet dst; mg_configReloadSet := mg_configReloadSet dst |}.

Definition mergeShardingConfig (dst src : ShardingConfig) : ShardingConfig :=
  {| sh_Enabled := if sh_enabledSet src then sh_Enabled src else sh_Enabled dst;
     sh_EnableCache := if sh_cacheSet src then sh_EnableCache src else sh_EnableCache dst;
     sh_ShardCount := mergeInt (sh_ShardCount dst) (sh_ShardCount src); sh_CacheSize := mergeInt (sh_CacheSize dst) (sh_CacheSize src);
     sh_enabledSet := sh_enabledSet dst; sh_cacheSet := sh_cacheSet dst |}.

Definition mergeDefaultsConfig (dst src : DefaultsConfig) : DefaultsConfig :=
  {| df_Host := mergeStr (df_Host dst) (df_Host src); df_ReadTimeout := mergeInt (df_ReadTimeout dst) (df_ReadTimeout src);
     df_WriteTimeout := mergeInt (df_WriteTimeout dst) (df_WriteTimeout src); df_MaxConnections := mergeInt (df_MaxConnections dst) (df_MaxConnections src);
     df_MaxBodySize := if df_maxBodySizeSet src then df_MaxBodySize src else mergeInt (df_MaxBodySize dst) (df_MaxBodySize src);
     df_maxBodySizeSet := df_maxBodySizeSet dst || df_maxBodySizeSet src;
     df_IdleTimeout := mergeInt (df_IdleTimeout dst) (df_IdleTimeout src); df_ShutdownTimeout := mergeInt (df_ShutdownTimeout dst) (df_ShutdownTimeout src);
     df_Streaming := if df_streamingSet src then df_Streaming src else df_Streaming dst; df_streamingSet := df_streamingSet dst || df_streamingSet src |}.

(** [mergeMultiServerConfig] is the servers and their defaults. *)
Definition mergeConfigs (dst src : Config) : Config :=
  {| c_SourcePath := c_SourcePath dst; c_Servers := if decide (c_Servers src = ∅) then c_Servers dst else c_Servers src;
     c_Health := mergeHealthConfig (c_Health dst) (c_Health src); c_Management := mergeManagementConfig (c_Management dst) (c_Management src);
     c_Metrics := mergeMetricsConfig (c_Metrics dst) (c_Metrics src); c_Mock := mergeMockConfig (c_Mock dst) (c_Mock src);
     c_Logging := mergeLoggingConfig (c_Logging dst) (c_Logging src); c_Defaults := mergeDefaultsConfig (c_Defaults dst) (c_Defaults src);
     c_Server := mergeServerConfig (c_Server dst) (c_Server src); c_Storage := mergeStorageConfig (c_Storage dst) (c_Storage src);
     c_Sharding := mergeShardingConfig (c_Sharding dst) (c_Sharding src); c_PprofEnabled := c_PprofEnabled src |}.

(** ** The environment *)

Definition envPrefix : string := "ICAP_".

Definition removedEnvVarNames : list string :=
  ["SERVER_TRUST_CLIENT_IP_HEADER"; "SERVER_TRUSTED_PROXIES"; "MOCK_DEFAULT_MODE"; "STORAGE_CIRCUIT_BREAKER_ENABLED"].
Definition removedEnvVarPrefixes : list string :=
  ["CHAOS"; "CIRCUIT_BREAKER"; "PER_CLIENT_RATE_LIMIT"; "PER_METHOD_RATE_LIMIT"; "PLUGIN"; "PREVIEW"; "RATE_LIMIT"; "REPLAY"].

Definition isRemovedPrefixedEnvVar (name : string) : bool :=
  existsb (λ key, String.eqb name (envPrefix +:+ key) || has_prefix name (envPrefix +:+ key +:+ "_")) removedEnvVarPrefixes.

(** The first that is refused; which one of several with a prefix depends on the order
    of the environment. *)
Definition rejectRemovedEnvVars (env : Environment) : option ConfigError :=
  match List.find (λ key, bool_decide (is_Some (env !! (envPrefix +:+ key)))) removedEnvVarNames with
  | Some key => Some (RemovedEnvVar (envPrefix +:+ key))
  | None => RemovedEnvVar <$> List.find isRemovedPrefixedEnvVar (map fst (map_to_list env))
  end.

Section Env.
Context (unfit : float64 → Z) (env : Environment).

(** A variable that is set, parsed; [None] when it is not, or not well formed. *)
Definition fromEnv {A : Type} (parse : string → option A) (key : string) (dst : A) : A :=
  match env !! (envPrefix +:+ key) with
  | None | Some "" => dst
  | Some v => default dst (parse v)
  end.

Definition result_option {E A : Type} (r : result E A) : option A := match r with Ok a => Some a | Err _ => None end.

Definition envStr : string → string → string := fromEnv Some.
Definition envInt : string → Z → Z := fromEnv Atoi.
Definition envInt64ByteSize : string → Z → Z := fromEnv (λ v, result_option (ParseByteSize unfit v)).
Definition envBodySizeLimit : string → BodySizeLimit → BodySizeLimit := fromEnv (λ v, result_option (ParseBodySizeLimit unfit v)).
Definition envBool : string → bool → bool := fromEnv ParseBool.
Definition envDuration : string → Z → Z := fromEnv ParseDuration.

(** The limit and the mark that it was given. *)
Definition envServerMaxBodySize (dst : Z * bool) : Z * bool :=
  fromEnv (λ v, (λ i, (i, true)) <$> result_option (ParseByteSize unfit v)) "SERVER_MAX_BODY_SIZE" dst.

Definition loadTLSEnv (c : TLSConfig) : TLSConfig :=
  {| tls_Enabled := envBool "SERVER_TLS_ENABLED" (tls_Enabled c); tls_CertFile := envStr "SERVER_TLS_CERT_FILE" (tls_CertFile c);
     tls_KeyFile := envStr "SERVER_TLS_KEY_FILE" (tls_KeyFile c); tls_ClientCAFile := envStr "SERVER_TLS_CLIENT_CA_FILE" (tls_ClientCAFile c);
     tls_ClientAuth := envStr "SERVER_TLS_CLIENT_AUTH" (tls_ClientAuth c); tls_CertCheckInterval := tls_CertCheckInterval c;
     tls_ExpiryWarningDays := tls_ExpiryWarningDays c |}.

Definition loadServerEnv (c : ServerConfig) : ServerConfig :=
  let maxBody := envServerMaxBodySize (sc_MaxBodySize c, sc_maxBodySizeSet c) in
  {| sc_Host := envStr "SERVER_HOST" (sc_Host c); sc_Port := envInt "SERVER_PORT" (sc_Port c);
     sc_ReadTimeout := envDuration "SERVER_READ_TIMEOUT" (sc_ReadTimeout c); sc_WriteTimeout := envDuration "SERVER_WRITE_TIMEOUT" (sc_WriteTimeout c);
     sc_MaxConnections := envInt "SERVER_MAX_CONNECTIONS" (sc_MaxConnections c); sc_MaxBodySize := maxBody.1; sc_maxBodySizeSet := maxBody.2;
     sc_Streaming := envBool "SERVER_STREAMING" (sc_Streaming c); sc_TLS := loadTLSEnv (sc_TLS c);
     sc_IdleTimeout := sc_IdleTimeout c; sc_ShutdownTimeout := sc_ShutdownTimeout c; sc_Name := sc_Name c |}.

Definition loadLoggingEnv (c : LoggingConfig) : LoggingConfig :=
  {| lg_Level := envStr "LOGGING_LEVEL" (lg_Level c); lg_Format := envStr "LOGGING_FORMAT" (lg_Format c); lg_Output := envStr "LOGGING_OUTPUT" (lg_Output c);
     lg_MaxSize := envInt "LOGGING_MAX_SIZE" (lg_MaxSize c); lg_MaxBackups := envInt "LOGGING_MAX_BACKUPS" (lg_MaxBackups c);
     lg_MaxAge := envInt "LOGGING_MAX_AGE" (lg_MaxAge c) |}.

Definition loadMetricsEnv (c : MetricsConfig) : MetricsConfig :=
  {| mt_Enabled := envBool "METRICS_ENABLED" (mt_Enabled c); mt_Host := envStr "METRICS_HOST" (mt_Host c); mt_Port := envInt "METRICS_PORT" (mt_Port c);
     mt_Path := envStr "METRICS_PATH" (mt_Path c) |}.

Definition loadMockEnv (c : MockConfig) : MockConfig :=
  {| mk_ScenariosDir := envStr "MOCK_SCENARIOS_DIR" (mk_ScenariosDir c); mk_DefaultTimeout := envDuration "MOCK_DEFAULT_TIMEOUT" (mk_DefaultTimeout c);
     mk_Matching := {| mm_BodyPatternLimit := envBodySizeLimit "MOCK_MATCHING_BODY_PATTERN_LIMIT" (mm_BodyPatternLimit (mk_Matching c));
                       mm_BodyPatternLimitAction := envStr "MOCK_MATCHING_BODY_PATTERN_LIMIT_ACTION" (mm_BodyPatternLimitAction (mk_Matching c)) |};
     mk_ServiceID := mk_ServiceID c; mk_HotReload := mk_HotReload c |}.

Definition loadStorageEnv (c : StorageConfig) : StorageConfig :=
  {| st_Enabled := envBool "STORAGE_ENABLED" (st_Enabled c); st_RequestsDir := envStr "STORAGE_REQUESTS_DIR" (st_RequestsDir c);
     st_MaxFileSize := envInt64ByteSize "STORAGE_MAX_FILE_SIZE" (st_MaxFileSize c); st_RotateAfter := envInt "STORAGE_ROTATE_AFTER" (st_RotateAfter c);
     st_Workers := st_Workers c; st_QueueSize := st_QueueSize c; st_DiskMonitor := st_DiskMonitor c |}.

Definition loadHealthEnv (c : HealthConfig) : HealthConfig :=
  {| hc_Enabled := envBool "HEALTH_ENABLED" (hc_Enabled c); hc_Port := envInt "HEALTH_PORT" (hc_Port c);
     hc_HealthPath := envStr "HEALTH_HEALTH_PATH" (envStr "HEALTH_PATH" (hc_HealthPath c));
     hc_ReadyPath := envStr "HEALTH_READY_PATH" (hc_ReadyPath c); hc_APIToken := envStr "API_TOKEN" (hc_APIToken c) |}.

Definition loadManagementEnv (c : ManagementConfig) : ManagementConfig :=
  {| mg_Enabled := envBool "MANAGEMENT_ENABLED" (mg_Enabled c);
     mg_ScenarioReloadEnabled := envBool "MANAGEMENT_SCENARIO_RELOAD_ENABLED" (mg_ScenarioReloadEnabled c);
     mg_ConfigReloadEnabled := envBool "MANAGEMENT_CONFIG_RELOAD_ENABLED" (mg_ConfigReloadEnabled c);
     mg_Token := envStr "MANAGEMENT_TOKEN" (mg_Token c); mg_TokenEnv := envStr "MANAGEMENT_TOKEN_ENV" (mg_TokenEnv c);
     mg_enabledSet := mg_enabledSet c; mg_scenarioReloadSet := mg_scenarioReloadSet c; mg_configReloadSet := mg_configReloadSet c |}.

Definition loadShardingEnv (c : ShardingConfig) : ShardingConfig :=
  {| sh_Enabled := envBool "SHARDING_ENABLED" (sh_Enabled c); sh_ShardCount := envInt "SHARDING_SHARD_COUNT" (sh_ShardCount c);
     sh_CacheSize := envInt "SHARDING_CACHE_SIZE" (sh_CacheSize c); sh_EnableCache := envBool "SHARDING_ENABLE_CACHE" (sh_EnableCache c);
     sh_enabledSet := sh_enabledSet c; sh_cacheSet := sh_cacheSet c |}.

Definition LoadFromEnv (c : Config) : result ConfigError Config :=
  match rejectRemovedEnvVars env with
  | Some e => Err e
  | None =>
      Ok {| c_SourcePath := c_SourcePath c; c_Servers := c_Servers c; c_Defaults := c_Defaults c;
            c_Server := loadServerEnv (c_Server c); c_Logging := loadLoggingEnv (c_Logging c); c_Metrics := loadMetricsEnv (c_Metrics c);
            c_Mock := loadMockEnv (c_Mock c); c_Storage := loadStorageEnv (c_Storage c); c_Health := loadHealthEnv (c_Health c);
            c_Management := loadManagementEnv (c_Management c); c_Sharding := loadShardingEnv (c_Sharding c);
            c_PprofEnabled := envBool "PPROF_ENABLED" (c_PprofEnabled c) |}
  end.

(** ** Loading *)

Definition normalizeLoadedConfig (c : Config) : Config :=
  let m := c_Mock c in
  {| c_SourcePath := c_SourcePath c; c_Servers := c_Servers c; c_Defaults := c_Defaults c; c_Server := c_Server c; c_Logging := c_Logging c;
     c_Metrics := c_Metrics c;
     c_Mock := {| mk_ScenariosDir := mk_ScenariosDir m; mk_DefaultTimeout := mk_DefaultTimeout m; mk_ServiceID := mk_ServiceID m; mk_HotReload := mk_HotReload m;
                  mk_Matching := {| mm_BodyPatternLimit := mm_BodyPatternLimit (mk_Matching m);
                                    mm_BodyPatternLimitAction := to_lower (trim_space (mm_BodyPatternLimitAction (mk_Matching m))) |} |};
     c_Storage := c_Storage c; c_Health := c_Health c; c_Management := c_Management c; c_Sharding := c_Sharding c; c_PprofEnabled := c_PprofEnabled c |}.

Definition checkServer (name : string) (entry : ServerEntryConfig) : option ConfigError :=
  if en_Port entry =? 0 then Some (PortRequired name)
  else if String.eqb (en_ScenariosDir entry) "" then Some (ScenariosDirRequired name)
  else None.

(** The first entry in error; Go goes over them in some order. *)
Definition checkServers (servers : gmap string ServerEntryConfig) : option ConfigError :=
  head (omap (λ '(name, entry), checkServer name entry) (map_to_list servers)).

Definition applyServerDefaults (d : DefaultsConfig) : DefaultsConfig :=
  {| df_Host := mergeStr defaultHost (df_Host d); df_ReadTimeout := mergeInt (30 * Second) (df_ReadTimeout d);
     df_WriteTimeout := mergeInt (30 * Second) (df_WriteTimeout d); df_MaxConnections := mergeInt 15000 (df_MaxConnections d);
     df_MaxBodySize := if (df_MaxBodySize d =? 0) && negb (df_maxBodySizeSet d) then 10 * 1024 * 1024 else df_MaxBodySize d;
     df_IdleTimeout := mergeInt (60 * Second) (df_IdleTimeout d); df_ShutdownTimeout := mergeInt (30 * Second) (df_ShutdownTimeout d);
     df_Streaming := df_Streaming d; df_streamingSet := df_streamingSet d; df_maxBodySizeSet := df_maxBodySizeSet d |}.

Definition with_defaults (d : DefaultsConfig) (c : Config) : Config :=
  {| c_SourcePath := c_SourcePath c; c_Servers := c_Servers c; c_Defaults := d; c_Server := c_Server c; c_Logging := c_Logging c;
     c_Metrics := c_Metrics c; c_Mock := c_Mock c; c_Storage := c_Storage c; c_Health := c_Health c; c_Management := c_Management c;
     c_Sharding := c_Sharding c; c_PprofEnabled := c_PprofEnabled c |}.

(** [file]: what [LoadFromFile] gives, when a path is given. *)
Definition Load (file : option (result string Config)) : result ConfigError Config :=
  match (match file with
         | None => Ok (SetDefaults zeroConfig)
         | Some (Err message) => Err (FileFailed message)
         | Some (Ok fileCfg) => Ok (mergeConfigs (SetDefaults zeroConfig) fileCfg)
         end) with
  | Err e => Err e
  | Ok cfg =>
      match LoadFromEnv cfg with
      | Err e => Err e
      | Ok cfg =>
          let cfg := normalizeLoadedConfig cfg in
          match checkServers (c_Servers cfg) with
          | Some e => Err e
          | None => Ok (if decide (c_Servers cfg = ∅) then cfg else with_defaults (applyServerDefaults (c_Defaults cfg)) cfg)
          end
      end
  end.
End Env.

(** ** The metrics of a load *)

(** [recordMetrics]: what is recorded, when there is a collector. A refused server entry
    returns before anything is recorded. *)
Definition recordedStatus (r : result ConfigError Config) : option bool :=
  match r with
  | Ok _ => Some true
  | Err (PortRequired _ | ScenariosDirRequired _) => None
  | Err _ => Some false
  end.
