(* ===== verification/ConfigCheck.v ===== *)
(** * Configuration: the command line and validation

    [server_cmd_overrides.go] of [cmd/icap-mock] puts the flags that were given on top
    of a loaded configuration; [validator.go] of [internal/config] lists what is wrong
    with one. The flag library is outside: which flags were given is a set of names,
    their parsed values a record. *)
From S2P Require Import Prelude GoInt GoFloat GoStrings GoTime Config ConfigLoad.

Local Open Scope Z_scope.

(** ** The command line *)

Record Flags := {
  fl_set : gset string;
  fl_host : string; fl_port : Z; fl_maxConns : Z; fl_maxBodySize : Z; fl_streaming : bool;
  fl_readTimeout : string; fl_writeTimeout : string; fl_shutdownTimeout : string;
  fl_tlsEnable : bool; fl_tlsCert : string; fl_tlsKey : string;
  fl_debugFlag : bool; fl_logLevel : string; fl_logFormat : string; fl_logOutput : string; fl_logMaxSize : Z; fl_logMaxBackups : Z; fl_logMaxAge : Z;
  fl_metricsEnabled : bool; fl_metricsHost : string; fl_metricsPort : Z; fl_metricsPath : string;
  fl_scenariosDir : string; fl_mockTimeout : string;
  fl_storageEnabled : bool; fl_storageDir : string; fl_storageMaxSize : Z; fl_storageRotate : Z;
  fl_healthEnabled : bool; fl_healthPort : Z; fl_healthPath : string; fl_readyPath : string; fl_pprofEnabled : bool
}.

Section Overrides.
Context (f : Flags).

Definition flagWasSet (names : list string) : bool := existsb (λ n, bool_decide (n ∈ fl_set f)) names.

(** The flag's value when one of its names was given. *)
Definition flag {A : Type} (names : list string) (value old : A) : A := if flagWasSet names then value else old.

(** [applyDurationOverride]: a value that is no duration changes nothing. *)
Definition durationFlag (names : list string) (value : string) (old : Z) : Z := flag names (default old (ParseDuration value)) old.

Definition overrideServer (c : ServerConfig) : ServerConfig :=
  {| sc_Host := flag ["server.host"; "server-host"] (fl_host f) (sc_Host c);
     sc_Port := flag ["server.port"; "server-port"; "p"] (fl_port f) (sc_Port c);
     sc_MaxConnections := flag ["server.max-connections"; "server-max-connections"] (fl_maxConns f) (sc_MaxConnections c);
     sc_MaxBodySize := flag ["server.max-body-size"; "server-max-body-size"] (fl_maxBodySize f) (sc_MaxBodySize c);
     sc_maxBodySizeSet := sc_maxBodySizeSet c;
     sc_Streaming := flag ["server.streaming"; "server-streaming"] (fl_streaming f) (sc_Streaming c);
     sc_ReadTimeout := durationFlag ["server.read-timeout"; "server-read-timeout"] (fl_readTimeout f) (sc_ReadTimeout c);
     sc_WriteTimeout := durationFlag ["server.write-timeout"; "server-write-timeout"] (fl_writeTimeout f) (sc_WriteTimeout c);
     sc_ShutdownTimeout := durationFlag ["server.shutdown-timeout"; "server-shutdown-timeout"] (fl_shutdownTimeout f) (sc_ShutdownTimeout c);
     sc_IdleTimeout := sc_IdleTimeout c; sc_Name := sc_Name c;
     sc_TLS := {| tls_Enabled := flag ["server.tls.enabled"; "server-tls-enabled"] (fl_tlsEnable f) (tls_Enabled (sc_TLS c));
                  tls_CertFile := flag ["server.tls.cert"; "server-tls-cert"] (fl_tlsCert f) (tls_CertFile (sc_TLS c));
                  tls_KeyFile := flag ["server.tls.key"; "server-tls-key"] (fl_tlsKey f) (tls_KeyFile (sc_TLS c));
                  tls_ClientCAFile := tls_ClientCAFile (sc_TLS c); tls_ClientAuth := tls_ClientAuth (sc_TLS c);
                  tls_CertCheckInterval := tls_CertCheckInterval (sc_TLS c); tls_ExpiryWarningDays := tls_ExpiryWarningDays (sc_TLS c) |} |}.

Definition overrideDefaults (c : DefaultsConfig) : DefaultsConfig :=
  {| df_Host := flag ["server.host"; "server-host"] (fl_host f) (df_Host c);
     df_MaxConnections := flag ["server.max-connections"; "server-max-connections"] (fl_maxConns f) (df_MaxConnections c);
     df_MaxBodySize := flag ["server.max-body-size"; "server-max-body-size"] (fl_maxBodySize f) (df_MaxBodySize c);
     df_maxBodySizeSet := flag ["server.max-body-size"; "server-max-body-size"] true (df_maxBodySizeSet c);
     df_Streaming := flag ["server.streaming"; "server-streaming"] (fl_streaming f) (df_Streaming c);
     df_streamingSet := flag ["server.streaming"; "server-streaming"] true (df_streamingSet c);
     df_ReadTimeout := durationFlag ["server.read-timeout"; "server-read-timeout"] (fl_readTimeout f) (df_ReadTimeout c);
     df_WriteTimeout := durationFlag ["server.write-timeout"; "server-write-timeout"] (fl_writeTimeout f) (df_WriteTimeout c);
     df_ShutdownTimeout := durationFlag ["server.shutdown-timeout"; "server-shutdown-timeout"] (fl_shutdownTimeout f) (df_ShutdownTimeout c);
     df_IdleTimeout := df_IdleTimeout c |}.

(** What [updateServerEntries] does to an entry. *)
Definition overrideEntry (e : ServerEntryConfig) : ServerEntryConfig :=
  {| en_Scenarios := en_Scenarios e; en_ScenariosDir := en_ScenariosDir e; en_ServiceID := en_ServiceID e; en_IdleTimeout := en_IdleTimeout e;
     en_Host := flag ["server.host"; "server-host"] (fl_host f) (en_Host e);
     en_Port := flag ["server.port"; "server-port"; "p"] (fl_port f) (en_Port e);
     en_MaxConnections := flag ["server.max-connections"; "server-max-connections"] (fl_maxConns f) (en_MaxConnections e);
     en_MaxBodySize := flag ["server.max-body-size"; "server-max-body-size"] (fl_maxBodySize f) (en_MaxBodySize e);
     en_maxBodySizeSet := flag ["server.max-body-size"; "server-max-body-size"] true (en_maxBodySizeSet e);
     en_Streaming := flag ["server.streaming"; "server-streaming"] (fl_streaming f) (en_Streaming e);
     en_streamingSet := flag ["server.streaming"; "server-streaming"] true (en_streamingSet e);
     en_ReadTimeout := durationFlag ["server.read-timeout"; "server-read-timeout"] (fl_readTimeout f) (en_ReadTimeout e);
     en_WriteTimeout := durationFlag ["server.write-timeout"; "server-write-timeout"] (fl_writeTimeout f) (en_WriteTimeout e);
     en_ShutdownTimeout := durationFlag ["server.shutdown-timeout"; "server-shutdown-timeout"] (fl_shutdownTimeout f) (en_ShutdownTimeout e) |}.

Definition overrideLogging (c : LoggingConfig) : LoggingConfig :=
  {| lg_Level := if fl_debugFlag f then "debug" else flag ["logging.level"; "logging-level"; "l"] (fl_logLevel f) (lg_Level c);
     lg_Format := flag ["logging.format"; "logging-format"] (fl_logFormat f) (lg_Format c);
     lg_Output := flag ["logging.output"; "logging-output"] (fl_logOutput f) (lg_Output c);
     lg_MaxSize := flag ["logging.max-size"; "logging-max-size"] (fl_logMaxSize f) (lg_MaxSize c);
     lg_MaxBackups := flag ["logging.max-backups"; "logging-max-backups"] (fl_logMaxBackups f) (lg_MaxBackups c);
     lg_MaxAge := flag ["logging.max-age"; "logging-max-age"] (fl_logMaxAge f) (lg_MaxAge c) |}.

Definition overrideMetrics (c : MetricsConfig) : MetricsConfig :=
  {| mt_Enabled := flag ["metrics.enabled"; "metrics-enabled"] (fl_metricsEnabled f) (mt_Enabled c);
     mt_Host := flag ["metrics.host"; "metrics-host"] (fl_metricsHost f) (mt_Host c);
     mt_Port := flag ["metrics.port"; "metrics-port"] (fl_metricsPort f) (mt_Port c);
     mt_Path := flag ["metrics.path"; "metrics-path"] (fl_metricsPath f) (mt_Path c) |}.

Definition overrideMock (c : MockConfig) : MockConfig :=
  {| mk_ScenariosDir := flag ["mock.scenarios-dir"; "mock-scenarios-dir"] (fl_scenariosDir f) (mk_ScenariosDir c);
     mk_DefaultTimeout := durationFlag ["mock.timeout"; "mock-timeout"] (fl_mockTimeout f) (mk_DefaultTimeout c);
     mk_ServiceID := mk_ServiceID c; mk_Matching := mk_Matching c; mk_HotReload := mk_HotReload c |}.

Definition overrideStorage (c : StorageConfig) : StorageConfig :=
  {| st_Enabled := flag ["storage.enabled"; "storage-enabled"] (fl_storageEnabled f) (st_Enabled c);
     st_RequestsDir := flag ["storage.dir"; "storage-dir"] (fl_storageDir f) (st_RequestsDir c);
     st_MaxFileSize := flag ["storage.max-size"; "storage-max-size"] (fl_storageMaxSize f) (st_MaxFileSize c);
     st_RotateAfter := flag ["storage.rotate"; "storage-rotate"] (fl_storageRotate f) (st_RotateAfter c);
     st_Workers := st_Workers c; st_QueueSize := st_QueueSize c; st_DiskMonitor := st_DiskMonitor c |}.

Definition overrideHealth (c : HealthConfig) : HealthConfig :=
  {| hc_Enabled := flag ["health.enabled"; "health-enabled"] (fl_healthEnabled f) (hc_Enabled c);
     hc_Port := flag ["health.port"; "health-port"] (fl_healthPort f) (hc_Port c);
     hc_HealthPath := flag ["health.path"; "health-path"] (fl_healthPath f) (hc_HealthPath c);
     hc_ReadyPath := flag ["health.ready-path"; "health-ready-path"] (fl_readyPath f) (hc_ReadyPath c); hc_APIToken := hc_APIToken c |}.

Definition applyOverrides (c : Config) : Config :=
  {| c_SourcePath := c_SourcePath c; c_Servers := overrideEntry <$> c_Servers c; c_Defaults := overrideDefaults (c_Defaults c);
     c_Server := overrideServer (c_Server c); c_Logging := overrideLogging (c_Logging c); c_Metrics := overrideMetrics (c_Metrics c);
     c_Mock := overrideMock (c_Mock c); c_Storage := overrideStorage (c_Storage c); c_Health := overrideHealth (c_Health c);
     c_Management := c_Management c; c_Sharding := c_Sharding c;
     c_PprofEnabled := flag ["pprof.enabled"; "pprof-enabled"] (fl_pprofEnabled f) (c_PprofEnabled c) |}.
End Overrides.

(** ** Validation *)

Record ValidationError := { ve_Field : string; ve_Message : string }.

(** An error when a condition holds. *)
Definition wrong (b : bool) (field message : string) : list ValidationError := if b then [{| ve_Field := field; ve_Message := message |}] else [].

Definition outsidePorts (port : Z) : bool := (port <? 1) || (65535 <? port).

Section Validate.
(** [os.IsNotExist] of [os.Stat]. *)
Context (missing : string → bool).

Definition validateTLS (c : TLSConfig) : list ValidationError :=
  if tls_Enabled c then
    (if String.eqb (tls_CertFile c) "" then wrong true "server.tls.cert_file" "TLS certificate file is required when TLS is enabled"
     else wrong (missing (tls_CertFile c)) "server.tls.cert_file" "TLS certificate file not found") ++
    (if String.eqb (tls_KeyFile c) "" then wrong true "server.tls.key_file" "TLS key file is required when TLS is enabled"
     else wrong (missing (tls_KeyFile c)) "server.tls.key_file" "TLS key file not found")
  else [].

Definition validateServer (c : ServerConfig) : list ValidationError :=
  wrong (outsidePorts (sc_Port c)) "server.port" "port must be between 1 and 65535" ++
  wrong (sc_ReadTimeout c <? 0) "server.read_timeout" "read timeout must be non-negative" ++
  wrong (sc_WriteTimeout c <? 0) "server.write_timeout" "write timeout must be non-negative" ++
  wrong (sc_MaxConnections c <? 0) "server.max_connections" "max connections must be non-negative" ++
  wrong (sc_MaxBodySize c <? 0) "server.max_body_size" "max body size must be non-negative" ++
  validateTLS (sc_TLS c).

Definition validLogLevels : list string := ["debug"; "info"; "warn"; "error"].
Definition validLogFormats : list string := ["json"; "text"].
Definition validBodyPatternLimitActions : list string := [BodyPatternLimitActionNoMatch; BodyPatternLimitActionError].

Definition validateLogging (c : LoggingConfig) : list ValidationError :=
  wrong (negb (bool_decide (to_lower (lg_Level c) ∈ validLogLevels))) "logging.level" "invalid log level, must be one of: debug, info, warn, error" ++
  wrong (negb (bool_decide (to_lower (lg_Format c) ∈ validLogFormats))) "logging.format" "invalid log format, must be one of: json, text" ++
  wrong (String.eqb (lg_Output c) "") "logging.output" "log output cannot be empty" ++
  wrong (lg_MaxSize c <? 0) "logging.max_size" "max size must be non-negative" ++
  wrong (lg_MaxBackups c <? 0) "logging.max_backups" "max backups must be non-negative" ++
  wrong (lg_MaxAge c <? 0) "logging.max_age" "max age must be non-negative".

Definition validateMetrics (c : MetricsConfig) : list ValidationError :=
  if mt_Enabled c then
    wrong (outsidePorts (mt_Port c)) "metrics.port" "metrics port must be between 1 and 65535" ++
    wrong (String.eqb (mt_Path c) "") "metrics.path" "metrics path cannot be empty" ++
    wrong (negb (has_prefix (mt_Path c) "/")) "metrics.path" "metrics path must start with /"
  else [].

Definition validateMockMatching (c : MockMatchingConfig) : list ValidationError :=
  wrong (negb (lim_Unlimited (mm_BodyPatternLimit c)) && (lim_Bytes (mm_BodyPatternLimit c) <=? 0)) "mock.matching.body_pattern_limit"
    "body_pattern_limit must be positive or unlimited" ++
  wrong (negb (bool_decide (to_lower (mm_BodyPatternLimitAction c) ∈ validBodyPatternLimitActions))) "mock.matching.body_pattern_limit_action"
    "invalid action, must be one of: no_match, error".

Definition validateMock (c : MockConfig) : list ValidationError :=
  wrong (mk_DefaultTimeout c <? 0) "mock.default_timeout" "default timeout must be non-negative" ++ validateMockMatching (mk_Matching c).

Definition validateStorage (c : StorageConfig) : list ValidationError :=
  if st_Enabled c then
    wrong (st_MaxFileSize c <? 0) "storage.max_file_size" "max file size must be non-negative" ++
    wrong (st_RotateAfter c <? 0) "storage.rotate_after" "rotate after must be non-negative"
  else [].

Definition validateHealth (c : HealthConfig) : list ValidationError :=
  if hc_Enabled c then
    wrong (outsidePorts (hc_Port c)) "health.port" "health port must be between 1 and 65535" ++
    wrong (String.eqb (hc_HealthPath c) "") "health.health_path" "health path cannot be empty" ++
    wrong (String.eqb (hc_ReadyPath c) "") "health.ready_path" "ready path cannot be empty"
  else [].

Definition Validate (c : Config) : list ValidationError :=
  validateServer (c_Server c) ++ validateLogging (c_Logging c) ++ validateMetrics (c_Metrics c) ++ validateMock (c_Mock c) ++
  validateStorage (c_Storage c) ++ validateHealth (c_Health c).
End Validate.
