(* ===== verification/ConfigSpec.v ===== *)
(** * What configuration means

    Which layer each setting comes from, which settings no file can change, what a
    loaded configuration guarantees to the servers it starts, what validation accepts,
    and byte sizes. *)
From S2P Require Import Prelude GoInt GoFloat GoStrings GoTime GoParseFloat Config ConfigLoad ConfigCheck.

Local Open Scope Z_scope.

(** ** Settings and where they can be given *)

(** A setting of type [A]: its environment variable, the names of its flag with the
    flag's value (which may be no value), and where it is in the configuration. *)
Record Setting (A : Type) := { sg_env : string; sg_flags : list string; sg_value : Flags → option A; sg_get : Config → A }.
Arguments Build_Setting {A}.
Arguments sg_env {A}.
Arguments sg_flags {A}.
Arguments sg_value {A}.
Arguments sg_get {A}.

Definition noFlag {A : Type} (_ : Flags) : option A := None.

Definition string_settings : list (Setting string) :=
  [ Build_Setting "SERVER_HOST" ["server.host"; "server-host"] (λ f, Some (fl_host f)) (λ c, sc_Host (c_Server c));
    Build_Setting "SERVER_TLS_CERT_FILE" ["server.tls.cert"; "server-tls-cert"] (λ f, Some (fl_tlsCert f)) (λ c, tls_CertFile (sc_TLS (c_Server c)));
    Build_Setting "SERVER_TLS_KEY_FILE" ["server.tls.key"; "server-tls-key"] (λ f, Some (fl_tlsKey f)) (λ c, tls_KeyFile (sc_TLS (c_Server c)));
    Build_Setting "SERVER_TLS_CLIENT_CA_FILE" [] noFlag (λ c, tls_ClientCAFile (sc_TLS (c_Server c)));
    Build_Setting "SERVER_TLS_CLIENT_AUTH" [] noFlag (λ c, tls_ClientAuth (sc_TLS (c_Server c)));
    Build_Setting "LOGGING_FORMAT" ["logging.format"; "logging-format"] (λ f, Some (fl_logFormat f)) (λ c, lg_Format (c_Logging c));
    Build_Setting "LOGGING_OUTPUT" ["logging.output"; "logging-output"] (λ f, Some (fl_logOutput f)) (λ c, lg_Output (c_Logging c));
    Build_Setting "METRICS_HOST" ["metrics.host"; "metrics-host"] (λ f, Some (fl_metricsHost f)) (λ c, mt_Host (c_Metrics c));
    Build_Setting "METRICS_PATH" ["metrics.path"; "metrics-path"] (λ f, Some (fl_metricsPath f)) (λ c, mt_Path (c_Metrics c));
    Build_Setting "MOCK_SCENARIOS_DIR" ["mock.scenarios-dir"; "mock-scenarios-dir"] (λ f, Some (fl_scenariosDir f)) (λ c, mk_ScenariosDir (c_Mock c));
    Build_Setting "STORAGE_REQUESTS_DIR" ["storage.dir"; "storage-dir"] (λ f, Some (fl_storageDir f)) (λ c, st_RequestsDir (c_Storage c));
    Build_Setting "HEALTH_READY_PATH" ["health.ready-path"; "health-ready-path"] (λ f, Some (fl_readyPath f)) (λ c, hc_ReadyPath (c_Health c));
    Build_Setting "API_TOKEN" [] noFlag (λ c, hc_APIToken (c_Health c));
    Build_Setting "MANAGEMENT_TOKEN" [] noFlag (λ c, mg_Token (c_Management c));
    Build_Setting "MANAGEMENT_TOKEN_ENV" [] noFlag (λ c, mg_TokenEnv (c_Management c)) ].

Definition int_settings : list (Setting Z) :=
  [ Build_Setting "SERVER_PORT" ["server.port"; "server-port"; "p"] (λ f, Some (fl_port f)) (λ c, sc_Port (c_Server c));
    Build_Setting "SERVER_MAX_CONNECTIONS" ["server.max-connections"; "server-max-connections"] (λ f, Some (fl_maxConns f)) (λ c, sc_MaxConnections (c_Server c));
    Build_Setting "LOGGING_MAX_SIZE" ["logging.max-size"; "logging-max-size"] (λ f, Some (fl_logMaxSize f)) (λ c, lg_MaxSize (c_Logging c));
    Build_Setting "LOGGING_MAX_BACKUPS" ["logging.max-backups"; "logging-max-backups"] (λ f, Some (fl_logMaxBackups f)) (λ c, lg_MaxBackups (c_Logging c));
    Build_Setting "LOGGING_MAX_AGE" ["logging.max-age"; "logging-max-age"] (λ f, Some (fl_logMaxAge f)) (λ c, lg_MaxAge (c_Logging c));
    Build_Setting "METRICS_PORT" ["metrics.port"; "metrics-port"] (λ f, Some (fl_metricsPort f)) (λ c, mt_Port (c_Metrics c));
    Build_Setting "STORAGE_ROTATE_AFTER" ["storage.rotate"; "storage-rotate"] (λ f, Some (fl_storageRotate f)) (λ c, st_RotateAfter (c_Storage c));
    Build_Setting "HEALTH_PORT" ["health.port"; "health-port"] (λ f, Some (fl_healthPort f)) (λ c, hc_Port (c_Health c));
    Build_Setting "SHARDING_SHARD_COUNT" [] noFlag (λ c, sh_ShardCount (c_Sharding c));
    Build_Setting "SHARDING_CACHE_SIZE" [] noFlag (λ c, sh_CacheSize (c_Sharding c)) ].

Definition duration_settings : list (Setting Z) :=
  [ Build_Setting "SERVER_READ_TIMEOUT" ["server.read-timeout"; "server-read-timeout"] (λ f, ParseDuration (fl_readTimeout f)) (λ c, sc_ReadTimeout (c_Server c));
    Build_Setting "SERVER_WRITE_TIMEOUT" ["server.write-timeout"; "server-write-timeout"] (λ f, ParseDuration (fl_writeTimeout f)) (λ c, sc_WriteTimeout (c_Server c));
    Build_Setting "MOCK_DEFAULT_TIMEOUT" ["mock.timeout"; "mock-timeout"] (λ f, ParseDuration (fl_mockTimeout f)) (λ c, mk_DefaultTimeout (c_Mock c)) ].

(** Switches: a file decides these whether it names them or not. *)
Definition bool_settings : list (Setting bool) :=
  [ Build_Setting "SERVER_STREAMING" ["server.streaming"; "server-streaming"] (λ f, Some (fl_streaming f)) (λ c, sc_Streaming (c_Server c));
    Build_Setting "SERVER_TLS_ENABLED" ["server.tls.enabled"; "server-tls-enabled"] (λ f, Some (fl_tlsEnable f)) (λ c, tls_Enabled (sc_TLS (c_Server c)));
    Build_Setting "METRICS_ENABLED" ["metrics.enabled"; "metrics-enabled"] (λ f, Some (fl_metricsEnabled f)) (λ c, mt_Enabled (c_Metrics c));
    Build_Setting "STORAGE_ENABLED" ["storage.enabled"; "storage-enabled"] (λ f, Some (fl_storageEnabled f)) (λ c, st_Enabled (c_Storage c));
    Build_Setting "HEALTH_ENABLED" ["health.enabled"; "health-enabled"] (λ f, Some (fl_healthEnabled f)) (λ c, hc_Enabled (c_Health c));
    Build_Setting "PPROF_ENABLED" ["pprof.enabled"; "pprof-enabled"] (λ f, Some (fl_pprofEnabled f)) (λ c, c_PprofEnabled c) ].

Section Layers.
Context (unfit : float64 → Z) (env : Environment) (f : Flags).

(** The value on the command line, else a well-formed one in the environment, else the
    one of the layers below. *)
Definition layered {A : Type} (parse : string → option A) (s : Setting A) (below : A) : A :=
  let environment := match env !! (envPrefix +:+ sg_env s) with
                     | None | Some "" => below
                     | Some v => default below (parse v)
                     end in
  if flagWasSet f (sg_flags s) then default environment (sg_value s f) else environment.

Definition file_or_default {A : Type} (zero : A) `{EqDecision A} (file : option Config) (s : Setting A) : A :=
  match file with
  | None => sg_get s (SetDefaults zeroConfig)
  | Some cfg => if decide (sg_get s cfg = zero) then sg_get s (SetDefaults zeroConfig) else sg_get s cfg
  end.

(** The steps of a load that succeeds. *)
Lemma Load_Ok file c : Load unfit env file = Ok c →
  ∃ base c1, match file with None => base = SetDefaults zeroConfig | Some (Ok cfg) => base = mergeConfigs (SetDefaults zeroConfig) cfg | Some (Err _) => False end ∧
    LoadFromEnv unfit env base = Ok c1 ∧ checkServers (c_Servers (normalizeLoadedConfig c1)) = None ∧
    c = (if decide (c_Servers c1 = ∅) then normalizeLoadedConfig c1
         else with_defaults (applyServerDefaults (c_Defaults c1)) (normalizeLoadedConfig c1)).
Proof using.
  unfold Load. destruct file as [[cfg|m]|]; [| |];
    (destruct (LoadFromEnv unfit env _) as [c1|e] eqn:E || idtac); try done;
    (destruct (checkServers _) eqn:Ec; [done|]); intros [= <-]; do 2 eexists; (split; [reflexivity|]); split; [exact E|split; [exact Ec|reflexivity]|exact E|split; [exact Ec|reflexivity]].
Qed.

Lemma mergeStr_decide dst src : mergeStr dst src = if decide (src = "") then dst else src.
Proof using. unfold mergeStr. destruct (String.eqb_spec src ""), (decide (src = "")); done. Qed.

Lemma mergeInt_decide dst src : mergeInt dst src = if decide (src = 0) then dst else src.
Proof using. unfold mergeInt. destruct (Z.eqb_spec src 0), (decide (src = 0)); done. Qed.

(** C23: every setting of the tables comes from the highest layer that gives it: the
    command line, then a well-formed variable of the environment, then a value of the file
    that is not empty or zero, then the default; a value that is not well formed counts as
    not given, and so does an empty or zero value of the file. A switch is the file's as
    soon as there is a file. *)
Theorem layers_in_order file c :
  Load unfit env (Ok <$> file) = Ok c →
  let final := applyOverrides f c in
  Forall (λ s, sg_get s final = layered Some s (file_or_default "" file s)) string_settings ∧
  Forall (λ s, sg_get s final = layered Atoi s (file_or_default 0 file s)) int_settings ∧
  Forall (λ s, sg_get s final = layered ParseDuration s (file_or_default 0 file s)) duration_settings ∧
  Forall (λ s, sg_get s final = layered ParseBool s (match file with Some cfg => sg_get s cfg | None => sg_get s (SetDefaults zeroConfig) end)) bool_settings.
Proof using.
  intros H final. apply Load_Ok in H as (base & c1 & Hb & He & _ & Hc). unfold LoadFromEnv in He. destruct (rejectRemovedEnvVars env); [done|].
  unfold final. clear final. destruct file as [cfg|]; cbn [fmap option_fmap option_map] in Hb; subst base; injection He as <-;
    (assert (Hget : ∀ A (g : Config → A), (∀ d c0, g (applyOverrides f (with_defaults d c0)) = g (applyOverrides f c0)) →
       g (applyOverrides f c) = g (applyOverrides f (normalizeLoadedConfig _))) by (intros A g Hg; rewrite Hc; destruct (decide _); [reflexivity|apply Hg]));
    clear Hc; unfold string_settings, int_settings, duration_settings, bool_settings; split_and!; repeat (apply Forall_cons_2); try apply Forall_nil_2; (etrans; [apply (Hget _ (sg_get _)); reflexivity|]); cbn; rewrite ?mergeStr_decide, ?mergeInt_decide; reflexivity.
Qed.
End Layers.

(** A file with a cache size of 0, which the example configuration documents as turning
    the cache off, gives the default size. *)
Example zero_cache_size_ignored :
  sh_CacheSize (c_Sharding zeroConfig) = 0 ∧
  match Load unfit_amd64 ∅ (Some (Ok zeroConfig)) with Ok c => sh_CacheSize (c_Sharding c) = 1000 | Err _ => False end.
Proof. split; vm_compute; reflexivity. Qed.

Definition example_env : Environment := {["ICAP_SERVER_PORT" := "2345"; "ICAP_LOGGING_MAX_AGE" := "many"; "ICAP_METRICS_HOST" := ""]}.

Definition no_flags : Flags :=
  {| fl_set := {["server-host"]}; fl_host := "127.0.0.1"; fl_port := 0; fl_maxConns := 0; fl_maxBodySize := 0; fl_streaming := false;
     fl_readTimeout := ""; fl_writeTimeout := ""; fl_shutdownTimeout := ""; fl_tlsEnable := false; fl_tlsCert := ""; fl_tlsKey := "";
     fl_debugFlag := false; fl_logLevel := ""; fl_logFormat := ""; fl_logOutput := ""; fl_logMaxSize := 0; fl_logMaxBackups := 0; fl_logMaxAge := 0;
     fl_metricsEnabled := false; fl_metricsHost := ""; fl_metricsPort := 0; fl_metricsPath := ""; fl_scenariosDir := ""; fl_mockTimeout := "";
     fl_storageEnabled := false; fl_storageDir := ""; fl_storageMaxSize := 0; fl_storageRotate := 0; fl_healthEnabled := false; fl_healthPort := 0;
     fl_healthPath := ""; fl_readyPath := ""; fl_pprofEnabled := false |}.

(** The host from the command line, the port from the environment, a number that is not
    one not from it, and switches off because the file does not name them. *)
Lemma layers_in_order_witness :
  ∃ c, Load unfit_amd64 example_env (Some (Ok zeroConfig)) = Ok c ∧
    (let final := applyOverrides no_flags c in
     (sc_Host (c_Server final), sc_Port (c_Server final), lg_MaxAge (c_Logging final), mt_Enabled (c_Metrics final)) = ("127.0.0.1", 2345, 30, false)).
Proof.
  assert (H : ∃ c, Load unfit_amd64 example_env (Ok <$> Some zeroConfig) = Ok c) by (eexists; vm_compute; reflexivity).
  destruct H as [c H]. exists c. split; [exact H|]. destruct (layers_in_order unfit_amd64 example_env no_flags (Some zeroConfig) c H) as (Hs & Hi & _ & Hb).
  do 4 apply list.Forall_cons_1 in Hi as [?E Hi]. apply list.Forall_cons_1 in Hi as [EAge _]. apply list.Forall_cons_1 in Hs as [EHost _].
  do 2 apply list.Forall_cons_1 in Hb as [_ Hb]. apply list.Forall_cons_1 in Hb as [EMetrics _]. cbn [sg_get] in *. cbv zeta.
  rewrite EHost, E, EAge, EMetrics. vm_compute. reflexivity.
Defined.

(** ** Settings no file can change *)

(** What a file says about these is lost when it is merged, and no variable of the
    environment gives them: idle and shutdown timeouts and the name of the server, the
    checks of its certificate, the service ID, hot reload, and the workers, the queue and
    the disk monitor of the storage always have their defaults. *)
Theorem file_settings_ignored unfit env file c :
  Load unfit env file = Ok c →
  let d := SetDefaults zeroConfig in
  (sc_IdleTimeout (c_Server c), sc_ShutdownTimeout (c_Server c), sc_Name (c_Server c)) = (sc_IdleTimeout (c_Server d), sc_ShutdownTimeout (c_Server d), sc_Name (c_Server d)) ∧
  tls_CertCheckInterval (sc_TLS (c_Server c)) = tls_CertCheckInterval (sc_TLS (c_Server d)) ∧
  tls_ExpiryWarningDays (sc_TLS (c_Server c)) = tls_ExpiryWarningDays (sc_TLS (c_Server d)) ∧
  mk_ServiceID (c_Mock c) = mk_ServiceID (c_Mock d) ∧ mk_HotReload (c_Mock c) = mk_HotReload (c_Mock d) ∧
  st_Workers (c_Storage c) = st_Workers (c_Storage d) ∧ st_QueueSize (c_Storage c) = st_QueueSize (c_Storage d) ∧
  st_DiskMonitor (c_Storage c) = st_DiskMonitor (c_Storage d).
Proof.
  intros H d. apply Load_Ok in H as (base & c1 & Hb & He & _ & ->). unfold LoadFromEnv in He. destruct (rejectRemovedEnvVars env); [done|].
  injection He as <-. destruct file as [[cfg|m]|]; [|done|]; subst base; (destruct (decide _); split_and!; reflexivity).
Qed.

Lemma file_settings_ignored_witness :
  let hot := {| hl_Debounce := 5 * Second; hl_Enabled := true; hl_WatchDirectory := true |} in
  let file := mergeConfigs {| c_SourcePath := ""; c_Servers := ∅; c_Health := c_Health zeroConfig; c_Management := zeroManagement; c_Metrics := c_Metrics zeroConfig;
                c_Mock := {| mk_ScenariosDir := ""; mk_ServiceID := ""; mk_Matching := mk_Matching (c_Mock zeroConfig); mk_HotReload := hot; mk_DefaultTimeout := 0 |};
                c_Logging := c_Logging zeroConfig; c_Defaults := zeroDefaults; c_Server := zeroServer; c_Storage := c_Storage zeroConfig;
                c_Sharding := c_Sharding zeroConfig; c_PprofEnabled := false |} zeroConfig in
  mk_HotReload (c_Mock file) = hot ∧ ∃ c, Load unfit_amd64 ∅ (Some (Ok file)) = Ok c ∧ hl_Enabled (mk_HotReload (c_Mock c)) = false.
Proof.
  intros hot file. split; [reflexivity|]. assert (H : ∃ c, Load unfit_amd64 ∅ (Some (Ok file)) = Ok c) by (eexists; vm_compute; reflexivity).
  destruct H as [c H]. exists c. split; [exact H|]. apply file_settings_ignored in H as (_ & _ & _ & _ & -> & _). reflexivity.
Defined.

(** ** Servers of a loaded configuration *)

Lemma checkServers_None servers name e : checkServers servers = None → servers !! name = Some e → checkServer name e = None.
Proof.
  intros H Hl. unfold checkServers in H. apply elem_of_map_to_list in Hl. revert Hl H. generalize (map_to_list servers) as l.
  induction l as [|[n e'] l IH]; [by intros ?%not_elem_of_nil|]. cbn. intros [[= <- <-]|Hl]%elem_of_cons; [by destruct (checkServer _ _)|].
  destruct (checkServer n e'); [done|by apply IH].
Qed.

(** A server entry of a configuration that loads has a port and a directory, and what
    it starts with after inheriting has a host, timeouts and a connection limit. *)
Theorem loaded_servers_complete unfit env file c name e :
  Load unfit env file = Ok c → c_Servers c !! name = Some e →
  en_Port e ≠ 0 ∧ en_ScenariosDir e ≠ "" ∧
  let s := ToServerConfig e (c_Defaults c) in
  sc_Port s = en_Port e ∧ sc_Host s ≠ "" ∧ sc_ReadTimeout s ≠ 0 ∧ sc_WriteTimeout s ≠ 0 ∧ sc_MaxConnections s ≠ 0 ∧ sc_IdleTimeout s ≠ 0 ∧ sc_ShutdownTimeout s ≠ 0.
Proof.
  intros H Hl. apply Load_Ok in H as (base & c1 & _ & _ & Hc & ->). cbn [normalizeLoadedConfig c_Servers] in Hc.
  assert (Hl1 : c_Servers c1 !! name = Some e) by (destruct (decide _); exact Hl). pose proof (checkServers_None _ _ _ Hc Hl1) as He. unfold checkServer in He.
  destruct (Z.eqb_spec (en_Port e) 0); [done|]. destruct (String.eqb_spec (en_ScenariosDir e) ""); [done|].
  destruct (decide (c_Servers c1 = ∅)) as [E|_]; [by rewrite E in Hl1|]. split_and!; try done.
  cbn. unfold or_str, or_num. rewrite ?mergeStr_decide, ?mergeInt_decide. split_and!; [done|..].
  - destruct (String.eqb_spec (en_Host e) ""); [|done]. destruct (decide _); [discriminate|done].
  - destruct (Z.eqb_spec (en_ReadTimeout e) 0); [|done]. destruct (decide _); [discriminate|done].
  - destruct (Z.eqb_spec (en_WriteTimeout e) 0); [|done]. destruct (decide _); [discriminate|done].
  - destruct (Z.eqb_spec (en_MaxConnections e) 0); [|done]. destruct (decide _); [discriminate|done].
  - destruct (Z.eqb_spec (en_IdleTimeout e) 0); [|done]. destruct (decide _); [discriminate|done].
  - destruct (Z.eqb_spec (en_ShutdownTimeout e) 0); [|done]. destruct (decide _); [discriminate|done].
Qed.

(** A limit of 0 that an entry or the shared defaults give explicitly means no limit, as
    [EffectiveMaxBodySize] has it - but the mark that it was given stays behind in
    [ToServerConfig], so the server takes its default limit instead. *)
Theorem explicit_zero_lost e defaults limit :
  en_MaxBodySize e = 0 → en_maxBodySizeSet e = true → EffectiveMaxBodySize (ToServerConfig e defaults) limit = limit.
Proof. intros H0 Hs. unfold EffectiveMaxBodySize. cbn. rewrite H0, Hs. reflexivity. Qed.

(** ** Validation *)

Definition port_ok (p : Z) : Prop := 1 ≤ p ≤ 65535.

(** What a valid configuration is, section by section. *)
Record valid_config (missing : string → bool) (c : Config) : Prop := {
  vc_server : port_ok (sc_Port (c_Server c)) ∧ 0 ≤ sc_ReadTimeout (c_Server c) ∧ 0 ≤ sc_WriteTimeout (c_Server c) ∧ 0 ≤ sc_MaxConnections (c_Server c) ∧ 0 ≤ sc_MaxBodySize (c_Server c);
  vc_tls : tls_Enabled (sc_TLS (c_Server c)) = true →
    Forall (λ p, p ≠ "" ∧ missing p = false) [tls_CertFile (sc_TLS (c_Server c)); tls_KeyFile (sc_TLS (c_Server c))];
  vc_logging : to_lower (lg_Level (c_Logging c)) ∈ validLogLevels ∧ to_lower (lg_Format (c_Logging c)) ∈ validLogFormats ∧ lg_Output (c_Logging c) ≠ "" ∧
    0 ≤ lg_MaxSize (c_Logging c) ∧ 0 ≤ lg_MaxBackups (c_Logging c) ∧ 0 ≤ lg_MaxAge (c_Logging c);
  vc_metrics : mt_Enabled (c_Metrics c) = true → port_ok (mt_Port (c_Metrics c)) ∧ has_prefix (mt_Path (c_Metrics c)) "/" = true;
  vc_mock : 0 ≤ mk_DefaultTimeout (c_Mock c) ∧
    (lim_Unlimited (mm_BodyPatternLimit (mk_Matching (c_Mock c))) = true ∨ 0 < lim_Bytes (mm_BodyPatternLimit (mk_Matching (c_Mock c)))) ∧
    to_lower (mm_BodyPatternLimitAction (mk_Matching (c_Mock c))) ∈ validBodyPatternLimitActions;
  vc_storage : st_Enabled (c_Storage c) = true → 0 ≤ st_MaxFileSize (c_Storage c) ∧ 0 ≤ st_RotateAfter (c_Storage c);
  vc_health : hc_Enabled (c_Health c) = true → port_ok (hc_Port (c_Health c)) ∧ hc_HealthPath (c_Health c) ≠ "" ∧ hc_ReadyPath (c_Health c) ≠ ""
}.

Lemma wrong_nil b field message : wrong b field message = [] ↔ b = false.
Proof. by destruct b. Qed.

Lemma outsidePorts_false p : outsidePorts p = false ↔ port_ok p.
Proof. unfold outsidePorts, port_ok. rewrite orb_false_iff, !Z.ltb_ge. lia. Qed.

Lemma eqb_false s t : String.eqb s t = false ↔ s ≠ t.
Proof. apply String.eqb_neq. Qed.

Lemma negb_in s l : negb (bool_decide (s ∈ l)) = false ↔ s ∈ (l : list string).
Proof. rewrite negb_false_iff, bool_decide_eq_true. done. Qed.

#[local] Hint Rewrite @app_nil wrong_nil outsidePorts_false eqb_false negb_in Z.ltb_ge : validation.

Lemma validateTLS_nil missing c : validateTLS missing c = [] ↔ (tls_Enabled c = true → Forall (λ p, p ≠ "" ∧ missing p = false) [tls_CertFile c; tls_KeyFile c]).
Proof.
  unfold validateTLS. destruct (tls_Enabled c); [|by split]. rewrite list.Forall_cons, list.Forall_singleton, app_nil.
  assert (H : ∀ p m1 m2 fld, (if String.eqb p "" then wrong true fld m1 else wrong (missing p) fld m2) = [] ↔ p ≠ "" ∧ missing p = false).
  { intros p m1 m2 fld. destruct (String.eqb_spec p ""); [by split; [|intros []]|]. rewrite wrong_nil. split; [done|by intros [_ ?]]. }
  rewrite !H. split; [intros HH _; exact HH|intros HH; exact (HH eq_refl)].
Qed.

Lemma if_nil (b : bool) (l : list ValidationError) (Q : Prop) : (l = [] ↔ Q) → ((if b then l else []) = [] ↔ (b = true → Q)).
Proof. intros HQ. destruct b; [rewrite HQ; split; [intros ? _; done|intros H; exact (H eq_refl)]|by split]. Qed.

Lemma validateServer_nil missing c : validateServer missing c = [] ↔
  (port_ok (sc_Port c) ∧ 0 ≤ sc_ReadTimeout c ∧ 0 ≤ sc_WriteTimeout c ∧ 0 ≤ sc_MaxConnections c ∧ 0 ≤ sc_MaxBodySize c) ∧
  (tls_Enabled (sc_TLS c) = true → Forall (λ p, p ≠ "" ∧ missing p = false) [tls_CertFile (sc_TLS c); tls_KeyFile (sc_TLS c)]).
Proof. unfold validateServer. rewrite <- validateTLS_nil. autorewrite with validation. tauto. Qed.

Lemma validateLogging_nil c : validateLogging c = [] ↔
  to_lower (lg_Level c) ∈ validLogLevels ∧ to_lower (lg_Format c) ∈ validLogFormats ∧ lg_Output c ≠ "" ∧ 0 ≤ lg_MaxSize c ∧ 0 ≤ lg_MaxBackups c ∧ 0 ≤ lg_MaxAge c.
Proof. unfold validateLogging. by autorewrite with validation. Qed.

Lemma validateMetrics_nil c : validateMetrics c = [] ↔ (mt_Enabled c = true → port_ok (mt_Port c) ∧ has_prefix (mt_Path c) "/" = true).
Proof.
  apply if_nil. autorewrite with validation. rewrite negb_false_iff. split; [tauto|]. intros [? Hp]. split_and!; [done| |done]. intros E. by rewrite E in Hp.
Qed.

Lemma validateMock_nil c : validateMock c = [] ↔ 0 ≤ mk_DefaultTimeout c ∧
  (lim_Unlimited (mm_BodyPatternLimit (mk_Matching c)) = true ∨ 0 < lim_Bytes (mm_BodyPatternLimit (mk_Matching c))) ∧
  to_lower (mm_BodyPatternLimitAction (mk_Matching c)) ∈ validBodyPatternLimitActions.
Proof. unfold validateMock, validateMockMatching. autorewrite with validation. rewrite andb_false_iff, negb_false_iff, Z.leb_gt. done. Qed.

Lemma validateStorage_nil c : validateStorage c = [] ↔ (st_Enabled c = true → 0 ≤ st_MaxFileSize c ∧ 0 ≤ st_RotateAfter c).
Proof. apply if_nil. by autorewrite with validation. Qed.

Lemma validateHealth_nil c : validateHealth c = [] ↔ (hc_Enabled c = true → port_ok (hc_Port c) ∧ hc_HealthPath c ≠ "" ∧ hc_ReadyPath c ≠ "").
Proof. apply if_nil. by autorewrite with validation. Qed.

(** Validation accepts exactly the valid configurations. *)
Theorem validate_exact missing c : Validate missing c = [] ↔ valid_config missing c.
Proof.
  unfold Validate. rewrite !app_nil, validateServer_nil, validateLogging_nil, validateMetrics_nil, validateMock_nil, validateStorage_nil, validateHealth_nil.
  split; [intros ([] & ? & ? & ? & ? & ?); by split|by intros []].
Qed.

(** The defaults alone are a valid configuration, and so is what loads without a file and
    without an environment. *)
Theorem defaults_valid missing unfit : Validate missing (SetDefaults zeroConfig) = [] ∧ Load unfit ∅ None = Ok (SetDefaults zeroConfig).
Proof. split; vm_compute; reflexivity. Qed.

(** Validation does not look at the servers of a configuration with several: neither
    their ports nor the limits and timeouts they inherit. *)
Example server_port_unchecked :
  let entry := {| en_Scenarios := ∅; en_ScenariosDir := "s"; en_ServiceID := ""; en_Host := ""; en_Port := 99999; en_ReadTimeout := -1; en_WriteTimeout := 0;
                  en_MaxConnections := -5; en_MaxBodySize := 0; en_IdleTimeout := 0; en_ShutdownTimeout := 0; en_Streaming := false; en_streamingSet := false;
                  en_maxBodySizeSet := false |} in
  let file := {| c_SourcePath := ""; c_Servers := {["a" := entry]}; c_Health := c_Health zeroConfig; c_Management := zeroManagement; c_Metrics := c_Metrics zeroConfig;
                 c_Mock := c_Mock zeroConfig; c_Logging := c_Logging zeroConfig; c_Defaults := zeroDefaults; c_Server := zeroServer; c_Storage := c_Storage zeroConfig;
                 c_Sharding := c_Sharding zeroConfig; c_PprofEnabled := false |} in
  match Load unfit_amd64 ∅ (Some (Ok file)) with
  | Ok c => (Validate (λ _, true) c, (λ e, sc_Port (ToServerConfig e (c_Defaults c))) <$> c_Servers c !! "a")
  | Err _ => ([], None)
  end = ([], Some 99999).
Proof. vm_compute. reflexivity. Qed.

Lemma loaded_servers_complete_witness :
  let entry := {| en_Scenarios := ∅; en_ScenariosDir := "s"; en_ServiceID := ""; en_Host := ""; en_Port := 1345; en_ReadTimeout := 0; en_WriteTimeout := 0;
                  en_MaxConnections := 0; en_MaxBodySize := 0; en_IdleTimeout := 0; en_ShutdownTimeout := 0; en_Streaming := false; en_streamingSet := false;
                  en_maxBodySizeSet := false |} in
  let file := {| c_SourcePath := ""; c_Servers := {["a" := entry]}; c_Health := c_Health zeroConfig; c_Management := zeroManagement; c_Metrics := c_Metrics zeroConfig;
                 c_Mock := c_Mock zeroConfig; c_Logging := c_Logging zeroConfig; c_Defaults := zeroDefaults; c_Server := zeroServer; c_Storage := c_Storage zeroConfig;
                 c_Sharding := c_Sharding zeroConfig; c_PprofEnabled := false |} in
  ∃ c, Load unfit_amd64 ∅ (Some (Ok file)) = Ok c ∧ sc_ReadTimeout (ToServerConfig entry (c_Defaults c)) ≠ 0.
Proof.
  intros entry file. assert (H : ∃ c, Load unfit_amd64 ∅ (Some (Ok file)) = Ok c ∧ c_Servers c !! "a" = Some entry) by (eexists; split; vm_compute; reflexivity).
  destruct H as (c & H & He). exists c. split; [exact H|]. destruct (loaded_servers_complete unfit_amd64 ∅ _ c "a" entry H He) as (_ & _ & Hs). apply Hs.
Defined.

Lemma explicit_zero_lost_witness :
  let entry := {| en_Scenarios := ∅; en_ScenariosDir := "s"; en_ServiceID := ""; en_Host := ""; en_Port := 1345; en_ReadTimeout := 0; en_WriteTimeout := 0;
                  en_MaxConnections := 0; en_MaxBodySize := 0; en_IdleTimeout := 0; en_ShutdownTimeout := 0; en_Streaming := false; en_streamingSet := false;
                  en_maxBodySizeSet := true |} in
  EffectiveMaxBodySize (ToServerConfig entry zeroDefaults) 10485760 = 10485760.
Proof. intros entry. exact (explicit_zero_lost entry zeroDefaults 10485760 eq_refl eq_refl). Defined.

(** ** Byte sizes and limits *)

Lemma to_upper_bytes s : bytes_of (to_upper s) = map upper_ascii (bytes_of s).
Proof. induction s as [|c s IH]; [done|]. cbn. by rewrite IH. Qed.

(** A character of a printed number. *)
Definition number_char (c : ascii) : bool := is_digit 10 c || Ascii.eqb c "-".

Lemma number_char_plain c : number_char c = true → is_space c = false ∧ upper_ascii c ≠ "B"%char.
Proof. destruct c as [[] [] [] [] [] [] [] []]; vm_compute; try done; intros _; split; done. Qed.

Lemma suffix_of_number s label : str_forall number_char s = true → "B"%char ∈ bytes_of label → suffix_len (to_upper s) label = None.
Proof.
  intros Hs HB. unfold suffix_len. destruct (_ <=? _)%nat; [|done]. cbn [andb]. destruct (String.eqb_spec (str_drop (String.length (to_upper s) - String.length label) (to_upper s)) label) as [E|]; [|done].
  exfalso. assert (Hin : "B"%char ∈ bytes_of (to_upper s)).
  { rewrite <- (str_take_drop (String.length (to_upper s) - String.length label) (to_upper s)), bytes_of_app, E. apply elem_of_app. by right. }
  rewrite to_upper_bytes in Hin. apply list_elem_of_fmap in Hin as (c & Hc & Hin). unfold str_forall in Hs. rewrite forallb_forall in Hs.
  apply list_elem_of_In, Hs, number_char_plain in Hin as [_ Hn]. done.
Qed.

Lemma format_number n : str_forall number_char (FormatInt 10 n) = true.
Proof.
  assert (H : ∀ m, 0 ≤ m → str_forall number_char (FormatInt 10 m) = true).
  { intros m Hm. pose proof (FormatInt_all 10 m ltac:(lia) Hm) as Hd. rewrite <- str_forall_all in Hd. unfold str_forall in *.
    rewrite forallb_forall in *. intros c Hc. unfold number_char. by rewrite (Hd c Hc). }
  destruct (Z_lt_le_dec n 0) as [Hn|]; [|by apply H]. specialize (H (- n) ltac:(lia)). unfold FormatInt in *. rewrite (proj2 (Z.ltb_lt _ _)) by done.
  rewrite (proj2 (Z.ltb_ge (- n) 0)) in H by lia. unfold str_forall in *. cbn [bytes_of forallb]. by rewrite H.
Qed.

Lemma parse_int_printed n : in_int64 n → parse_int 10 (FormatInt 10 n) = Some n.
Proof.
  intros [Hlo Hhi]. unfold min_int64 in Hlo. destruct (Z_lt_le_dec n 0) as [Hn|Hn]; [|apply parse_int_format; lia].
  unfold FormatInt. rewrite (proj2 (Z.ltb_lt _ _)) by done. unfold parse_int. rewrite bool_decide_true by done.
  rewrite parse_uint_format by lia. cbn [mbind option_bind]. rewrite (proj2 (Z.leb_le _ _)) by lia. f_equal. lia.
Qed.

(** A byte size printed as a plain number is read back, for every 64-bit integer. *)
Theorem bytesize_roundtrip unfit n : in_int64 n → ParseByteSize unfit (FormatInt 10 n) = Ok n.
Proof.
  intros Hn. pose proof (format_number n) as Hf. unfold ParseByteSize. rewrite trim_space_id.
  2: { unfold str_forall in *. rewrite forallb_forall in *. intros c Hc. destruct (number_char_plain c (Hf c Hc)) as [-> _]. done. }
  assert (Hp : parse_int 10 (FormatInt 10 n) = Some n) by (by apply parse_int_printed).
  destruct (String.eqb_spec (FormatInt 10 n) "") as [E|_]; [by rewrite E in Hp|].
  cbn [find_suffix byte_suffixes]. rewrite !suffix_of_number by first [exact Hf|apply list_elem_of_In; cbn; tauto]. by rewrite Hp.
Qed.

Lemma bytesize_roundtrip_witness : ParseByteSize unfit_amd64 "-9223372036854775808" = Ok min_int64.
Proof. exact (bytesize_roundtrip unfit_amd64 min_int64 ltac:(vm_compute; split; discriminate)). Defined.

Example sizes_with_units :
  map (ParseByteSize unfit_amd64) ["10MB"; " 1.5 gb "; "0.1kb"; "-1KB"; "10B"; "MB"] =
  [Ok 10485760; Ok 1610612736; Ok 102; Ok (-1024); Err (InvalidByteSize "10B"); Err (InvalidByteSize "MB")].
Proof. vm_compute. reflexivity. Qed.

(** Infinities and NaN are numbers to [ParseFloat], and so byte sizes. *)
Example infinite_size : (ParseByteSize unfit_amd64 "infGB", ParseByteSize unfit_amd64 "nanKB") = (Ok min_int64, Ok min_int64).
Proof. vm_compute. reflexivity. Qed.

(** The limit for body patterns that takes effect is a limit that can be kept: a
    limit that was read is positive or unlimited, and under a server with a body limit the
    effective one is the smaller of both; only without either it is unlimited. *)
Theorem effective_limit_bounded unfit text l serverMaxBodySize :
  ParseBodySizeLimit unfit text = Ok l →
  (lim_Unlimited l = false → 0 < lim_Bytes l) ∧
  let e := EffectiveBodyPatternLimit l serverMaxBodySize in
  (0 < serverMaxBodySize → lim_Unlimited e = false ∧ lim_Bytes e = if lim_Unlimited l then serverMaxBodySize else Z.min (lim_Bytes l) serverMaxBodySize) ∧
  (serverMaxBodySize ≤ 0 → lim_Unlimited e = lim_Unlimited l ∧ (lim_Unlimited l = false → lim_Bytes e = lim_Bytes l)).
Proof.
  intros H. assert (Hl : l = NewUnlimitedBodySizeLimit ∨ ∃ bytes, 0 < bytes ∧ l = NewBodySizeLimit bytes).
  { unfold ParseBodySizeLimit in H. destruct (equal_fold _ _); [injection H as <-; by left|]. destruct (ParseByteSize _ _) as [bytes|]; [|done].
    unfold parseBodySizeLimitBytes in H. destruct (Z.leb_spec bytes 0); [done|]. injection H as <-. right. by exists bytes. }
  unfold EffectiveBodyPatternLimit, effectiveUnlimitedBodyPatternLimit, effectiveFiniteBodyPatternLimit.
  destruct Hl as [->|(bytes & Hb & ->)]; cbn.
  - destruct (Z.ltb_spec 0 serverMaxBodySize); cbn; split_and!; try done; lia.
  - destruct (Z.ltb_spec 0 serverMaxBodySize), (Z.ltb_spec serverMaxBodySize bytes); cbn; split_and!; try done; try lia; intros; split; try done; lia.
Qed.

Lemma effective_limit_bounded_witness :
  ∃ l, ParseBodySizeLimit unfit_amd64 "20MB" = Ok l ∧ lim_Bytes (EffectiveBodyPatternLimit l 10485760) = 10485760.
Proof.
  assert (H : ParseBodySizeLimit unfit_amd64 "20MB" = Ok (NewBodySizeLimit 20971520)) by (vm_compute; reflexivity).
  eexists. split; [exact H|]. destruct (effective_limit_bounded unfit_amd64 "20MB" _ 10485760 H) as (_ & Hs & _). by destruct (Hs eq_refl) as [_ ->].
Defined.
