(* ===== verification/Keyed.v ===== *)
(** * Lists of entries with distinct keys

    The lists that the caches stand for: entries with a string key, looked up and
    taken out by it. *)
From S2P Require Import Prelude.

Section Keyed.
Context {A : Type} (key : A → string).
Implicit Types (l : list A) (a : A) (k : string).

Definition without k l : list A := filter (λ a, key a ≠ k) l.
Definition find_key k l : option A := List.find (λ a, String.eqb (key a) k) l.

(** Changes the entries of a key. *)
Definition update (f : A → A) k l : list A := map (λ a, if String.eqb (key a) k then f a else a) l.

Lemma find_key_None k l : find_key k l = None ↔ k ∉ map key l.
Proof using.
  unfold find_key. induction l as [|a l IH]; simpl; [by split; [intros _ ?%elem_of_nil|]|].
  rewrite not_elem_of_cons. destruct (String.eqb_spec (key a) k) as [->|Hne]; [by split; [|intros []]|].
  rewrite IH. naive_solver.
Qed.

Lemma find_key_Some k l a : find_key k l = Some a → a ∈ l ∧ key a = k.
Proof using. intros [Hin E]%find_some. apply String.eqb_eq in E. by rewrite list_elem_of_In. Qed.

Lemma without_elem k l a : a ∈ without k l ↔ a ∈ l ∧ key a ≠ k.
Proof using. unfold without. rewrite list_elem_of_filter. tauto. Qed.

Lemma without_absent k l : k ∉ map key l → without k l = l.
Proof using.
  intros Hk. unfold without. apply filter_all. apply Forall_forall. intros a Ha Heq. apply Hk.
  rewrite <- Heq. by apply list_elem_of_fmap_2.
Qed.

Lemma update_absent f k l : k ∉ map key l → update f k l = l.
Proof using.
  unfold update. induction l as [|a l IH]; simpl; [done|]. intros [Hne Hk]%not_elem_of_cons.
  destruct (String.eqb_spec (key a) k); [congruence|]. by rewrite IH.
Qed.

Lemma keyed_middle l1 a l2 :
  NoDup (map key (l1 ++ a :: l2)) → key a ∉ map key l1 ∧ key a ∉ map key l2 ∧ NoDup (map key (l1 ++ l2)).
Proof using.
  rewrite !map_app. simpl. rewrite <- Permutation_middle. intros [Ha Hnd]%NoDup_cons.
  rewrite elem_of_app in Ha. tauto.
Qed.

Lemma find_key_middle l1 a l2 :
  NoDup (map key (l1 ++ a :: l2)) →
  find_key (key a) (l1 ++ a :: l2) = Some a ∧ without (key a) (l1 ++ a :: l2) = l1 ++ l2 ∧
  ∀ f, update f (key a) (l1 ++ a :: l2) = l1 ++ f a :: l2.
Proof using.
  intros (H1 & H2 & _)%keyed_middle. split_and!.
  - clear H2. unfold find_key. induction l1 as [|d l1 IH]; simpl; [by rewrite String.eqb_refl|].
    simpl in H1. apply not_elem_of_cons in H1 as [Hd H1].
    destruct (String.eqb_spec (key d) (key a)); [congruence|by apply IH].
  - unfold without. rewrite filter_app, filter_cons_False by naive_solver.
    fold (without (key a) l1) (without (key a) l2). by rewrite !without_absent.
  - intros f. unfold update. rewrite map_app. simpl. rewrite String.eqb_refl.
    fold (update f (key a) l1) (update f (key a) l2). by rewrite !update_absent.
Qed.

Lemma without_NoDup k l : NoDup (map key l) → NoDup (map key (without k l)).
Proof using. intros Hnd. eapply sublist_NoDup; [exact Hnd|]. apply fmap_sublist, sublist_filter. Qed.

Lemma update_keys f k l : (∀ a, key (f a) = key a) → map key (update f k l) = map key l.
Proof using.
  intros Hf. unfold update. rewrite map_map. apply map_ext. intros a. by destruct (String.eqb (key a) k).
Qed.
End Keyed.
