(* ===== verification/Dll.v ===== *)
(** * Doubly linked lists in a heap

    The two caches of the program keep their entries in a doubly linked list of
    heap nodes. This file has the heap, the assignments to a field of a node, and
    the shape of a list in it: [dll h p l x] says that the nodes [l] are linked in
    this order, the first after [p] and the last before [x]. *)
From S2P Require Import Prelude.

Record Node (P : Type) := { prev : option nat; next : option nat; payload : P }.
Arguments prev {P} n.
Arguments next {P} n.
Arguments payload {P} n.
Arguments Build_Node {P} prev next payload.

Section Heap.
Context {P : Type}.
Notation Heap := (gmap nat (Node P)).
Implicit Types (h : Heap) (a b : nat) (l : list nat) (p x q y : option nat).

Definition with_next x (n : Node P) : Node P := {| prev := prev n; next := x; payload := payload n |}.
Definition with_prev p (n : Node P) : Node P := {| prev := p; next := next n; payload := payload n |}.
Definition with_payload (v : P) (n : Node P) : Node P := {| prev := prev n; next := next n; payload := v |}.

(** [a.next = x], [a.prev = p] and the payload of [a], for a node that is there. *)
Definition set_next a x h : Heap := alter (with_next x) a h.
Definition set_prev a p h : Heap := alter (with_prev p) a h.
Definition set_payload a (v : P) h : Heap := alter (with_payload v) a h.

Definition first_or l x : option nat := match l with [] => x | a :: _ => Some a end.
Definition last_or p l : option nat := match last l with Some a => Some a | None => p end.

Fixpoint dll h p l x : Prop :=
  match l with
  | [] => True
  | a :: l => (∃ v, h !! a = Some (Build_Node p (first_or l x) v)) ∧ dll h (Some a) l x
  end.

Lemma last_or_cons p a l : last_or p (a :: l) = last_or (Some a) l.
Proof using. unfold last_or. rewrite last_cons. by destruct (last l). Qed.

Lemma last_or_snoc p l a : last_or p (l ++ [a]) = Some a.
Proof using. unfold last_or. by rewrite last_snoc. Qed.

Lemma first_or_app l1 l2 x : first_or (l1 ++ l2) x = first_or l1 (first_or l2 x).
Proof using. by destruct l1. Qed.

Lemma dll_app h p l1 l2 x : dll h p (l1 ++ l2) x ↔ dll h p l1 (first_or l2 x) ∧ dll h (last_or p l1) l2 x.
Proof using.
  revert p. induction l1 as [|a l1 IH]; intros p; simpl; [unfold last_or; naive_solver|].
  rewrite IH, last_or_cons, first_or_app. naive_solver.
Qed.

Lemma dll_frame h h' p l x : (∀ a, a ∈ l → h' !! a = h !! a) → dll h p l x → dll h' p l x.
Proof using.
  revert p. induction l as [|a l IH]; intros p Hh; simpl; [done|]. intros [[v Ha] Hl].
  split; [exists v; by rewrite Hh by set_solver|]. apply IH; [set_solver|done].
Qed.

Lemma dll_lookup h p l x a : dll h p l x → a ∈ l → is_Some (h !! a).
Proof using.
  revert p. induction l as [|b l IH]; intros p; simpl; [by intros _ ?%elem_of_nil|].
  intros [[v Hb] Hl] Ha. apply elem_of_cons in Ha as [->|Ha]; [by eexists|]. by eapply IH.
Qed.

Lemma set_next_other h a b x : b ≠ a → set_next a x h !! b = h !! b.
Proof using. intros. by apply lookup_alter_ne. Qed.
Lemma set_prev_other h a b p : b ≠ a → set_prev a p h !! b = h !! b.
Proof using. intros. by apply lookup_alter_ne. Qed.

(** The last node of a list gets another successor. *)
Lemma dll_set_last h p l a x y : a ∉ l → dll h p (l ++ [a]) x → dll (set_next a y h) p (l ++ [a]) y.
Proof using.
  rewrite !dll_app. simpl. intros Ha (Hl & [v Hv] & _). split_and!; [|exists v|done].
  - eapply dll_frame; [|exact Hl]. intros b Hb. apply set_next_other. by intros ->.
  - unfold set_next. by rewrite lookup_alter_eq, Hv.
Qed.

(** The first node gets another predecessor. *)
Lemma dll_set_first h p q l a x : a ∉ l → dll h p (a :: l) x → dll (set_prev a q h) q (a :: l) x.
Proof using.
  simpl. intros Ha [[v Hv] Hl]. split.
  - exists v. unfold set_prev. by rewrite lookup_alter_eq, Hv.
  - eapply dll_frame; [|exact Hl]. intros b Hb. apply set_prev_other. by intros ->.
Qed.

Lemma set_payload_other h a b v : b ≠ a → set_payload a v h !! b = h !! b.
Proof using. intros. by apply lookup_alter_ne. Qed.

Lemma dll_set_payload h p l x a v : dll h p l x → dll (set_payload a v h) p l x.
Proof using.
  revert p. induction l as [|b l IH]; intros p; simpl; [done|]. intros [[w Hw] Hl]. split; [|by apply IH].
  destruct (decide (a = b)) as [->|Hne].
  - exists v. unfold set_payload. by rewrite lookup_alter_eq, Hw.
  - exists w. by rewrite set_payload_other.
Qed.

(** Heaps whose nodes have the same payloads. *)
Definition same_payload h h' : Prop := ∀ a, payload <$> h' !! a = payload <$> h !! a.

Lemma same_payload_next h a x : same_payload h (set_next a x h).
Proof using.
  intros b. unfold set_next. destruct (decide (a = b)) as [->|Hne]; [|by rewrite lookup_alter_ne].
  rewrite lookup_alter_eq. by destruct (h !! b).
Qed.

Lemma same_payload_prev h a p : same_payload h (set_prev a p h).
Proof using.
  intros b. unfold set_prev. destruct (decide (a = b)) as [->|Hne]; [|by rewrite lookup_alter_ne].
  rewrite lookup_alter_eq. by destruct (h !! b).
Qed.

Lemma same_payload_refl h : same_payload h h.
Proof using. done. Qed.

Lemma same_payload_trans h1 h2 h3 : same_payload h1 h2 → same_payload h2 h3 → same_payload h1 h3.
Proof using. intros H1 H2 a. by rewrite H2, H1. Qed.

Lemma same_payload_is_Some h h' a : same_payload h h' → is_Some (h !! a) → is_Some (h' !! a).
Proof using. intros Hs [n Hn]. specialize (Hs a). rewrite Hn in Hs. by destruct (h' !! a). Qed.

(** ** Assignments around a node that may be missing *)

Definition set_next_opt p x h : Heap := match p with Some a => set_next a x h | None => h end.
Definition set_prev_opt x p h : Heap := match x with Some a => set_prev a p h | None => h end.

Lemma set_next_opt_other p x h b : p ≠ Some b → set_next_opt p x h !! b = h !! b.
Proof using. destruct p; [|done]. intros Hne. apply set_next_other. by intros ->. Qed.
Lemma set_prev_opt_other x p h b : x ≠ Some b → set_prev_opt x p h !! b = h !! b.
Proof using. destruct x; [|done]. intros Hne. apply set_prev_other. by intros ->. Qed.

Lemma same_payload_next_opt h p x : same_payload h (set_next_opt p x h).
Proof using. destruct p; [apply same_payload_next|apply same_payload_refl]. Qed.
Lemma same_payload_prev_opt h x p : same_payload h (set_prev_opt x p h).
Proof using. destruct x; [apply same_payload_prev|apply same_payload_refl]. Qed.

Lemma dll_relink_last h p l x y : NoDup l → dll h p l x → dll (set_next_opt (last l) y h) p l y.
Proof using.
  destruct l as [|a l _] using rev_ind; [done|]. intros Hnd. rewrite last_snoc. apply dll_set_last.
  apply NoDup_app in Hnd as (_ & Hd & _). intros Ha. apply (Hd a Ha). by apply list_elem_of_singleton.
Qed.

Lemma dll_relink_first h p q l x : NoDup l → dll h p l x → dll (set_prev_opt (first_or l None) q h) q l x.
Proof using. destruct l as [|a l]; [done|]. intros [Ha _]%NoDup_cons. by apply dll_set_first. Qed.

Lemma first_or_elem l a : first_or l None = Some a → a ∈ l.
Proof using. destruct l; [done|]. intros [= ->]. left. Qed.

Lemma last_elem l a : last l = Some a → a ∈ l.
Proof using. intros (l' & ->)%last_Some. apply elem_of_app. right. by apply list_elem_of_singleton. Qed.

(** A node is taken out of a list. *)
Lemma dll_remove h l1 a l2 :
  NoDup (l1 ++ a :: l2) → dll h None (l1 ++ a :: l2) None →
  ∃ v, h !! a = Some (Build_Node (last l1) (first_or l2 None) v) ∧
       dll (set_prev_opt (first_or l2 None) (last l1) (set_next_opt (last l1) (first_or l2 None) h)) None (l1 ++ l2) None.
Proof using.
  rewrite dll_app. cbn [dll first_or]. intros Hnd (H1 & [v Hv] & H2).
  assert (Hlo : last_or None l1 = last l1) by (unfold last_or; by destruct (last l1)).
  rewrite Hlo in Hv. apply NoDup_app in Hnd as (Hnd1 & Hdis & Hnd2). apply NoDup_cons in Hnd2 as [Ha Hnd2].
  exists v. split; [done|]. apply dll_app. rewrite Hlo. split.
  - eapply dll_frame; [|by apply (dll_relink_last h None l1 (Some a))]. intros b Hb. apply set_prev_opt_other.
    intros Hf%first_or_elem. apply (Hdis b Hb). by right.
  - apply dll_relink_first with (Some a); [done|]. eapply dll_frame; [|exact H2]. intros b Hb. apply set_next_opt_other.
    intros Hf%last_elem. apply (Hdis b Hf). by right.
Qed.
End Heap.
