(* ===== verification/MatchCache.v ===== *)
(** * The match cache: [ScenarioMatchCache] of [internal/storage/sharded_scenario.go]

    A least-recently-used cache from request keys to scenarios, each entry with
    the generation of the registry it was found in. Its nodes are linked between
    two dummy nodes. A dereference of a nil pointer is [None]; the time stamps of
    entries, which nothing reads, are left out. The cache implements an abstract
    list of entries, the most recently used first. *)
From S2P Require Import Prelude Keyed Dll.

Local Open Scope Z_scope.

Section Cache.
(** The cached scenarios. *)
Context {V : Type}.

Record Entry := { ce_key : string; ce_scenario : V; ce_generation : Z }.

(** The dummy nodes have no entry. *)
Notation Heap := (gmap nat (Node (option Entry))).

Record ScenarioMatchCache := {
  heap : Heap;
  entries : gmap string nat;
  head : nat;
  tail : nat;
  size : Z;
  cap : Z
}.

Definition newScenarioMatchCache (capacity : Z) : ScenarioMatchCache :=
  {| heap := <[0%nat := Build_Node None (Some 1%nat) None]>
             (<[1%nat := Build_Node (Some 0%nat) None None]> ∅);
     entries := ∅; head := 0%nat; tail := 1%nat; size := 0; cap := capacity |}.

Definition assign_next (a : nat) (x : option nat) (h : Heap) : option Heap := _ ← h !! a; Some (set_next a x h).
Definition assign_prev (a : nat) (p : option nat) (h : Heap) : option Heap := _ ← h !! a; Some (set_prev a p h).

Definition addToFront (hd e : nat) (h : Heap) : option Heap :=
  n ← h !! hd;
  h ← assign_next e (next n) h;
  h ← assign_prev e (Some hd) h;
  n ← h !! hd;
  x ← next n;
  h ← assign_prev x (Some e) h;
  assign_next hd (Some e) h.

(** [entry.prev.next = entry.next] and [entry.next.prev = entry.prev]. *)
Definition unlink (e : nat) (h : Heap) : option Heap :=
  n ← h !! e;
  p ← prev n;
  h ← assign_next p (next n) h;
  n ← h !! e;
  x ← next n;
  assign_prev x (prev n) h.

Definition moveToFront (hd e : nat) (h : Heap) : option Heap := h ← unlink e h; addToFront hd e h.

Definition with_heap (h : Heap) (c : ScenarioMatchCache) : ScenarioMatchCache :=
  {| heap := h; entries := entries c; head := head c; tail := tail c; size := size c; cap := cap c |}.

Definition evict (c : ScenarioMatchCache) : option ScenarioMatchCache :=
  t ← heap c !! tail c;
  if bool_decide (prev t = Some (head c)) then Some c
  else
    toRemove ← prev t;
    n ← heap c !! toRemove;
    p ← prev n;
    h ← assign_next p (Some (tail c)) (heap c);
    n ← h !! toRemove;
    h ← assign_prev (tail c) (prev n) h;
    let key := match payload n with Some e => ce_key e | None => "" end in
    Some {| heap := h; entries := delete key (entries c); head := head c; tail := tail c;
            size := size c - 1; cap := cap c |}.

Definition GetGeneration (key : string) (generation : Z) (c : ScenarioMatchCache)
  : option (option V * ScenarioMatchCache) :=
  match entries c !! key with
  | None => Some (None, c)
  | Some a =>
      n ← heap c !! a;
      e ← payload n;
      if negb (ce_generation e =? generation) then Some (None, c)
      else h ← moveToFront (head c) a (heap c); Some (Some (ce_scenario e), with_heap h c)
  end.

Definition PutGeneration (key : string) (v : V) (generation : Z) (c : ScenarioMatchCache)
  : option ScenarioMatchCache :=
  let e := {| ce_key := key; ce_scenario := v; ce_generation := generation |} in
  match entries c !! key with
  | Some a =>
      n ← heap c !! a;
      h ← moveToFront (head c) a (set_payload a (Some e) (heap c));
      Some (with_heap h c)
  | None =>
      let a := fresh (dom (heap c)) in
      h ← addToFront (head c) a (<[a := Build_Node None None (Some e)]> (heap c));
      let c := {| heap := h; entries := <[key := a]> (entries c); head := head c; tail := tail c;
                  size := size c + 1; cap := cap c |} in
      if cap c <? size c then evict c else Some c
  end.

Definition Clear (c : ScenarioMatchCache) : option ScenarioMatchCache :=
  h ← assign_next (head c) (Some (tail c)) (heap c);
  h ← assign_prev (tail c) (Some (head c)) h;
  Some {| heap := h; entries := ∅; head := head c; tail := tail c; size := 0; cap := cap c |}.

(** ** The cache it stands for *)

Notation without := (without ce_key).
Notation find_entry := (find_key ce_key).

Definition abs_get (key : string) (generation : Z) (l : list Entry) : option V * list Entry :=
  match find_entry key l with
  | Some e => if ce_generation e =? generation then (Some (ce_scenario e), e :: without key l) else (None, l)
  | None => (None, l)
  end.

Definition abs_put (capacity : nat) (key : string) (v : V) (generation : Z) (l : list Entry) : list Entry :=
  take capacity ({| ce_key := key; ce_scenario := v; ce_generation := generation |} :: without key l).

(** ** The shape of the nodes *)

Definition entry_at (h : Heap) (a : nat) (e : Entry) : Prop := ∃ n, h !! a = Some n ∧ payload n = Some e.

(** [les] are the nodes between the dummies with their entries, in order. *)
Record represents (c : ScenarioMatchCache) (les : list (nat * Entry)) : Prop := {
  rep_nodup : NoDup (head c :: map fst les ++ [tail c]);
  rep_chain : dll (heap c) None (head c :: map fst les ++ [tail c]) None;
  rep_entry : Forall (λ ae, entry_at (heap c) ae.1 ae.2) les;
  rep_keys : NoDup (map (λ ae, ce_key ae.2) les);
  rep_map : ∀ key a, entries c !! key = Some a ↔ ∃ e, (a, e) ∈ les ∧ ce_key e = key;
  rep_size : size c = Z.of_nat (length les)
}.

Lemma entry_at_payload h h' a e : same_payload h h' → entry_at h a e → entry_at h' a e.
Proof using.
  intros Hs (n & Ha & Hn). specialize (Hs a). rewrite Ha in Hs. simpl in Hs.
  destruct (h' !! a) as [n'|] eqn:E; [|done]. exists n'. split; [done|]. simpl in Hs. congruence.
Qed.

Lemma unlink_spec h q p a x r :
  NoDup (q ++ p :: a :: x :: r) → dll h None (q ++ p :: a :: x :: r) None →
  unlink a h = Some (set_prev x (Some p) (set_next p (Some x) h)) ∧
  dll (set_prev x (Some p) (set_next p (Some x) h)) None (q ++ p :: x :: r) None.
Proof using.
  intros Hnd Hd.
  assert (Hd' : dll h None ((q ++ [p]) ++ a :: x :: r) None) by (by rewrite <- app_assoc).
  apply dll_app in Hd' as [Hq Ha]. rewrite last_or_snoc in Ha. cbn [first_or] in Hq.
  destruct Ha as [[v Hv] Hx]. cbn [first_or] in Hv.
  apply NoDup_app in Hnd as (Hndq & Hdis & Hnd). apply NoDup_cons in Hnd as [Hp Hnd].
  apply NoDup_cons in Hnd as [Hax Hnd]. apply NoDup_cons in Hnd as [Hxr Hnd].
  assert (Hpq : p ∉ q) by (intros Hin; apply (Hdis _ Hin); set_solver).
  destruct (dll_lookup _ _ _ _ p Hq) as [np Hnp]; [set_solver|].
  destruct (dll_lookup _ _ _ _ x Hx) as [nx Hnx]; [set_solver|].
  split.
  - unfold unlink. rewrite Hv. cbn [mbind option_bind prev next]. unfold assign_next. rewrite Hnp.
    cbn [mbind option_bind]. rewrite set_next_other by set_solver. rewrite Hv. cbn [mbind option_bind prev next].
    unfold assign_prev. rewrite set_next_other by set_solver. by rewrite Hnx.
  - replace (q ++ p :: x :: r) with ((q ++ [p]) ++ x :: r) by (by rewrite <- app_assoc).
    apply dll_app. rewrite last_or_snoc. cbn [first_or]. split.
    + eapply dll_frame; [|by apply (dll_set_last _ _ _ _ _ (Some x) Hpq Hq)].
      intros b Hb. apply set_prev_other. intros ->. apply elem_of_app in Hb as [Hb|Hb]; [|set_solver].
      apply (Hdis _ Hb). set_solver.
    + apply (dll_set_first _ (Some a)); [done|]. eapply dll_frame; [|exact Hx].
      intros b Hb. apply set_next_other. intros ->. set_solver.
Qed.

Lemma addToFront_spec h hd a y r :
  NoDup (hd :: y :: r) → a ∉ hd :: y :: r → is_Some (h !! a) → dll h None (hd :: y :: r) None →
  ∃ h', addToFront hd a h = Some h' ∧ dll h' None (hd :: a :: y :: r) None ∧ same_payload h h'.
Proof using.
  intros Hnd Ha [na Hna] [[v Hv] Hd]. cbn [first_or] in Hv.
  apply NoDup_cons in Hnd as [Hhd Hnd]. apply NoDup_cons in Hnd as [Hy Hnd].
  apply not_elem_of_cons in Ha as [Hah Ha].
  set (h1 := set_next a (Some y) h). set (h2 := set_prev a (Some hd) h1).
  set (h3 := set_prev y (Some a) h2). set (h4 := set_next hd (Some a) h3).
  assert (Ho : ∀ b, b ≠ a → h2 !! b = h !! b).
  { intros b Hb. unfold h2, h1. by rewrite set_prev_other, set_next_other. }
  assert (H1a : h1 !! a = Some (with_next (Some y) na)) by (unfold h1, set_next; by rewrite lookup_alter_eq, Hna).
  destruct (dll_lookup _ _ _ _ y Hd) as [ny Hny]; [set_solver|].
  assert (Hyd : dll h3 (Some a) (y :: r) None).
  { apply (dll_set_first _ (Some hd)); [done|]. eapply dll_frame; [|exact Hd]. intros b Hb. apply Ho. set_solver. }
  exists h4. split_and!.
  - assert (H3h : h3 !! hd = Some (Build_Node None (Some y) v)).
    { unfold h3. rewrite set_prev_other by set_solver. by rewrite Ho, Hv by congruence. }
    unfold addToFront, assign_next, assign_prev. rewrite Hv. cbn [mbind option_bind next].
    rewrite Hna. cbn [mbind option_bind]. fold h1. rewrite H1a. cbn [mbind option_bind]. fold h2.
    rewrite (Ho hd), Hv by congruence. cbn [mbind option_bind next].
    rewrite (Ho y), Hny by set_solver. cbn [mbind option_bind]. fold h3. by rewrite H3h.
  - split; [|split].
    + exists v. unfold h4, set_next. rewrite lookup_alter_eq. unfold h3.
      rewrite set_prev_other by set_solver. by rewrite Ho, Hv by congruence.
    + exists (payload na). unfold h4, h3. rewrite set_next_other by congruence.
      rewrite set_prev_other by set_solver. unfold h2, set_prev. by rewrite lookup_alter_eq, H1a.
    + eapply dll_frame; [|exact Hyd]. intros b Hb. apply set_next_other. intros ->. set_solver.
  - unfold h4. eapply same_payload_trans; [|apply same_payload_next]. unfold h3.
    eapply same_payload_trans; [|apply same_payload_prev]. unfold h2.
    eapply same_payload_trans; [|apply same_payload_prev]. apply same_payload_next.
Qed.

Lemma snoc_form {A} (a : A) l : ∃ q p, a :: l = q ++ [p].
Proof using. revert a. induction l as [|b l IH]; intros a; [by exists [], a|]. destruct (IH b) as (q & p & ->). by exists (a :: q), p. Qed.

Lemma cons_form {A} (l : list A) t : ∃ x r, l ++ [t] = x :: r.
Proof using. destruct l as [|x l]; eauto. Qed.

Lemma entries_payload h h' les :
  same_payload h h' → Forall (λ ae, entry_at h ae.1 ae.2) les → Forall (λ ae, entry_at h' ae.1 ae.2) les.
Proof using. intros Hs Hf. eapply Forall_impl; [exact Hf|]. intros [a e]. by apply entry_at_payload. Qed.

Lemma moveToFront_spec c l1 a e l2 :
  represents c (l1 ++ (a, e) :: l2) →
  ∃ h, moveToFront (head c) a (heap c) = Some h ∧ represents (with_heap h c) ((a, e) :: l1 ++ l2).
Proof using.
  intros [Hnd Hd He Hk Hm Hs]. unfold moveToFront.
  rewrite map_app in Hnd, Hd. cbn [map fst] in Hnd, Hd. rewrite <- app_assoc in Hnd, Hd. cbn [app] in Hnd, Hd.
  destruct (snoc_form (head c) (map fst l1)) as (q & p & Eq).
  destruct (cons_form (map fst l2) (tail c)) as (x & r & Ex). rewrite Ex in Hnd, Hd.
  assert (E : head c :: map fst l1 ++ a :: x :: r = q ++ p :: a :: x :: r).
  { rewrite app_comm_cons, Eq, <- app_assoc. done. }
  rewrite E in Hnd, Hd. destruct (unlink_spec _ _ _ _ _ _ Hnd Hd) as [-> Hd'].
  set (h1 := set_prev x (Some p) (set_next p (Some x) (heap c))) in *. cbn [mbind option_bind].
  assert (E2 : q ++ p :: x :: r = head c :: map fst (l1 ++ l2) ++ [tail c]).
  { rewrite map_app, <- app_assoc, Ex, app_comm_cons, Eq, <- app_assoc. done. }
  destruct (cons_form (map fst (l1 ++ l2)) (tail c)) as (y & r' & Ey).
  assert (Hnd2 : NoDup (a :: head c :: y :: r')).
  { assert (Hp : q ++ p :: a :: x :: r ≡ₚ a :: q ++ p :: x :: r).
    { change (p :: a :: x :: r) with ([p] ++ a :: x :: r). rewrite app_assoc, <- Permutation_middle.
      by rewrite <- app_assoc. }
    by rewrite <- Ey, <- E2, <- Hp. }
  apply NoDup_cons in Hnd2 as [Ha Hnd2]. rewrite E2, Ey in Hd'.
  assert (Hp1 : same_payload (heap c) h1).
  { eapply same_payload_trans; [apply same_payload_next|apply same_payload_prev]. }
  assert (Hperm : l1 ++ (a, e) :: l2 ≡ₚ (a, e) :: l1 ++ l2) by (symmetry; apply Permutation_middle).
  rewrite Hperm in He, Hk. pose proof He as He'. apply Forall_cons in He' as [Hea _].
  destruct (entry_at_payload _ _ _ _ Hp1 Hea) as (na & Hna & _).
  destruct (addToFront_spec h1 (head c) a y r' Hnd2 Ha ltac:(by eexists) Hd') as (h & -> & Hd2 & Hp2).
  exists h. split; [done|]. split; cbn.
  - rewrite Ey. apply NoDup_cons in Hnd2 as [Hh Hnd2].
    apply NoDup_cons; split; [set_solver|]. apply NoDup_cons; split; [set_solver|done].
  - by rewrite Ey.
  - eapply entries_payload; [|exact He]. by eapply same_payload_trans.
  - exact Hk.
  - intros key a'. rewrite Hm. by setoid_rewrite Hperm.
  - rewrite Hs. by rewrite Hperm.
Qed.

Lemma evict_spec c les r e :
  represents c (les ++ [(r, e)]) → ∃ c', evict c = Some c' ∧ represents c' les ∧ cap c' = cap c.
Proof using.
  intros [Hnd Hd He Hk Hm Hs].
  rewrite map_app in Hnd, Hd. cbn [map fst] in Hnd, Hd. rewrite <- app_assoc in Hnd, Hd. cbn [app] in Hnd, Hd.
  destruct (snoc_form (head c) (map fst les)) as (q & p & Eq).
  assert (E : head c :: map fst les ++ [r; tail c] = q ++ p :: r :: tail c :: []).
  { rewrite app_comm_cons, Eq, <- app_assoc. done. }
  rewrite E in Hnd, Hd. destruct (unlink_spec _ _ _ _ _ _ Hnd Hd) as [_ Hd'].
  assert (Ht : ∃ v, heap c !! tail c = Some (Build_Node (Some r) None v)).
  { replace (q ++ p :: r :: tail c :: []) with ((q ++ [p; r]) ++ [tail c]) in Hd by (by rewrite <- app_assoc).
    apply dll_app in Hd as [_ [[v Hv] _]]. exists v. by replace (q ++ [p; r]) with ((q ++ [p]) ++ [r]) in Hv
      by (by rewrite <- app_assoc); rewrite last_or_snoc in Hv. }
  assert (Hr : ∃ v, heap c !! r = Some (Build_Node (Some p) (Some (tail c)) v)).
  { replace (q ++ p :: r :: tail c :: []) with ((q ++ [p]) ++ [r; tail c]) in Hd by (by rewrite <- app_assoc).
    apply dll_app in Hd as [_ [[v Hv] _]]. exists v. by rewrite last_or_snoc in Hv. }
  assert (Hpn : is_Some (heap c !! p)) by (eapply dll_lookup; [exact Hd|set_solver]).
  destruct Ht as [vt Ht], Hr as [vr Hr], Hpn as [np Hpn].
  assert (Hhr : head c ≠ r).
  { assert (Hin : head c ∈ q ++ [p]) by (rewrite <- Eq; set_solver). intros Heq. rewrite Heq in Hin.
    apply NoDup_app in Hnd as (_ & Hdis & Hnd). apply elem_of_app in Hin as [Hin|Hin]; [apply (Hdis _ Hin); set_solver|].
    apply list_elem_of_singleton in Hin as ->. apply NoDup_cons in Hnd as [Hnd _]. set_solver. }
  assert (Hd1 : r ≠ p ∧ tail c ≠ p).
  { apply NoDup_app in Hnd as (_ & _ & Hnd). apply NoDup_cons in Hnd as [Hnd _]. set_solver. }
  assert (Hv : vr = Some e).
  { apply Forall_app in He as [_ He]. apply Forall_singleton in He as (n & Hn & Hp). cbn in Hn.
    rewrite Hr in Hn. injection Hn as <-. done. }
  unfold evict. rewrite Ht. cbn [mbind option_bind prev]. rewrite bool_decide_false by congruence.
  cbn [mbind option_bind]. rewrite Hr. cbn [mbind option_bind prev]. unfold assign_next. rewrite Hpn.
  cbn [mbind option_bind]. rewrite set_next_other by tauto. rewrite Hr. cbn [mbind option_bind prev payload].
  unfold assign_prev. rewrite set_next_other by tauto. rewrite Ht. cbn [mbind option_bind]. subst vr.
  eexists. split; [done|]. split; [|done].
  assert (E2 : q ++ p :: tail c :: [] = head c :: map fst les ++ [tail c]).
  { rewrite app_comm_cons, Eq, <- app_assoc. done. }
  assert (Hkey : NoDup (map (λ ae : nat * Entry, ce_key ae.2) les) ∧ ce_key e ∉ map (λ ae : nat * Entry, ce_key ae.2) les).
  { rewrite map_app in Hk. cbn in Hk. apply NoDup_app in Hk as (? & Hdis & _). split; [done|].
    intros Hin. apply (Hdis _ Hin). set_solver. }
  assert (Hrl : r ∉ map fst les).
  { rewrite <- E in Hnd. apply NoDup_cons in Hnd as [_ Hnd]. apply NoDup_app in Hnd as (_ & Hdis & _).
    intros Hin. apply (Hdis _ Hin). set_solver. }
  split; cbn [head tail heap entries size].
  - rewrite <- E2. eapply sublist_NoDup; [exact Hnd|]. apply sublist_app; [done|]. do 2 constructor. done.
  - by rewrite <- E2.
  - apply Forall_app in He as [He _]. eapply entries_payload; [|exact He].
    eapply same_payload_trans; [apply same_payload_next|apply same_payload_prev].
  - tauto.
  - intros key a. rewrite lookup_delete_Some, Hm. split.
    + intros (Hne & e' & Hin & <-). exists e'. split; [|done]. apply elem_of_app in Hin as [?|Hin]; [done|].
      apply list_elem_of_singleton in Hin. by injection Hin as -> ->.
    + intros (e' & Hin & <-). split; [|exists e'; split; [set_solver|done]]. intros Heq.
      apply Hkey. rewrite Heq. apply list_elem_of_fmap. by exists (a, e').
  - rewrite Hs, length_app. simpl. lia.
Qed.

(** ** The operations on the abstract list *)

Lemma keys_of c les : represents c les → NoDup (map ce_key (map snd les)).
Proof using. intros Hr. rewrite map_map. apply (rep_keys _ _ Hr). Qed.

(** Where a cached key is in the list. *)
Lemma represented_at c les key a :
  represents c les → entries c !! key = Some a →
  ∃ l1 e l2, les = l1 ++ (a, e) :: l2 ∧ ce_key e = key ∧
    find_entry key (map snd les) = Some e ∧ without key (map snd les) = map snd (l1 ++ l2) ∧
    ∃ n, heap c !! a = Some n ∧ payload n = Some e.
Proof using.
  intros Hr Ha. apply (rep_map _ _ Hr) in Ha as (e & Hin & <-).
  apply list_elem_of_split in Hin as (l1 & l2 & ->). exists l1, e, l2. split; [done|]. split; [done|].
  pose proof (keys_of _ _ Hr) as Hk. rewrite map_app in *. simpl in *.
  destruct (find_key_middle _ _ _ _ Hk) as (-> & -> & _). rewrite map_app. split_and!; [done..|].
  pose proof (rep_entry _ _ Hr) as He. apply Forall_app in He as [_ He]. by apply Forall_cons in He as [He _].
Qed.

Lemma represented_absent c les key :
  represents c les → entries c !! key = None → key ∉ map ce_key (map snd les).
Proof using.
  intros Hr Hn Hin. rewrite map_map in Hin. apply list_elem_of_fmap in Hin as ([a e] & -> & Hin).
  assert (Ha : entries c !! ce_key e = Some a) by (apply (rep_map _ _ Hr); by exists e).
  simpl in Hn. congruence.
Qed.

Lemma GetGeneration_spec c les key generation :
  represents c les →
  ∃ c' les', GetGeneration key generation c = Some ((abs_get key generation (map snd les)).1, c') ∧
    represents c' les' ∧ map snd les' = (abs_get key generation (map snd les)).2 ∧ cap c' = cap c.
Proof using.
  intros Hr. unfold GetGeneration, abs_get. destruct (entries c !! key) as [a|] eqn:Ea.
  - destruct (represented_at _ _ _ _ Hr Ea) as (l1 & e & l2 & -> & Hkey & Hf & Hw & n & Hn & Hp).
    rewrite Hf, Hn. cbn [mbind option_bind]. rewrite Hp. cbn [mbind option_bind].
    destruct (ce_generation e =? generation) eqn:Eg; cbn [negb].
    + destruct (moveToFront_spec _ _ _ _ _ Hr) as (h & -> & Hr'). cbn [mbind option_bind].
      eexists _, _. split; [done|]. split; [exact Hr'|]. split; [|done]. simpl. by rewrite Hw.
    + eexists _, _. by split_and!.
  - rewrite (proj2 (find_key_None _ _ _) (represented_absent _ _ _ Hr Ea)). eexists _, _. by split_and!.
Qed.

Lemma represents_set_payload c l1 a e l2 v generation :
  represents c (l1 ++ (a, e) :: l2) →
  let e' := {| ce_key := ce_key e; ce_scenario := v; ce_generation := generation |} in
  represents (with_heap (set_payload a (Some e') (heap c)) c) (l1 ++ (a, e') :: l2).
Proof using.
  intros [Hnd Hd He Hk Hm Hs] e'.
  rewrite map_app in Hnd, Hd, Hk. cbn [map fst snd] in Hnd, Hd, Hk.
  assert (a ∉ map fst l1 ∧ a ∉ map fst l2) as [Ha1 Ha2].
  { apply NoDup_cons in Hnd as [_ Hnd]. rewrite <- app_assoc in Hnd. apply NoDup_app in Hnd as (_ & Hdis & Hnd).
    simpl in Hnd. apply NoDup_cons in Hnd as [Hd2 _]. split; [|set_solver].
    intros Hin. apply (Hdis _ Hin). set_solver. }
  assert (Hother : ∀ l, a ∉ map fst l → Forall (λ ae, entry_at (heap c) ae.1 ae.2) l →
    Forall (λ ae, entry_at (set_payload a (Some e') (heap c)) ae.1 ae.2) l).
  { intros l Hl Hf. apply Forall_forall. intros [b d] Hin. rewrite Forall_forall in Hf.
    destruct (Hf _ Hin) as (n & Hn & Hp). exists n. simpl in *. rewrite set_payload_other; [done|].
    intros ->. apply Hl. apply list_elem_of_fmap. by exists (a, d). }
  apply Forall_app in He as [He1 He2]. apply Forall_cons in He2 as [(n & Hn & Hp) He2]. cbn [fst snd] in Hn, Hp.
  split; cbn [with_heap heap entries head tail size]; rewrite ?map_app; cbn [map fst snd].
  - done.
  - by apply dll_set_payload.
  - apply Forall_app. split; [by apply Hother|]. apply Forall_cons. split; [|by apply Hother].
    exists (with_payload (Some e') n). cbn [fst snd]. unfold set_payload. by rewrite lookup_alter_eq, Hn.
  - done.
  - intros key b. rewrite Hm. setoid_rewrite elem_of_app. setoid_rewrite elem_of_cons. split.
    + intros (d & [?|[[= -> ->]|?]] & <-); [exists d; auto|exists e'; auto|exists d; auto].
    + intros (d & [?|[[= -> ->]|?]] & <-); [exists d; auto|exists e; auto|exists d; auto].
  - rewrite Hs, !length_app. done.
Qed.

Lemma take_full {A} n (l : list A) : (length l ≤ n)%nat → take n l = l.
Proof using. intros. by apply take_ge. Qed.

(** A new node in front, before the cache is cut to its capacity. *)
Lemma represents_insert c les key v generation :
  represents c les → entries c !! key = None →
  let e := {| ce_key := key; ce_scenario := v; ce_generation := generation |} in
  let a := fresh (dom (heap c)) in
  ∃ h, addToFront (head c) a (<[a := Build_Node None None (Some e)]> (heap c)) = Some h ∧
    represents {| heap := h; entries := <[key := a]> (entries c); head := head c; tail := tail c;
                  size := size c + 1; cap := cap c |} ((a, e) :: les).
Proof using.
  intros Hr Hkey e a. pose proof (represented_absent _ _ _ Hr Hkey) as Habs. destruct Hr as [Hnd Hd He Hk Hm Hs].
  assert (Hfresh : heap c !! a = None) by (apply not_elem_of_dom; apply is_fresh).
  assert (Hal : a ∉ head c :: map fst les ++ [tail c]).
  { intros Hin. destruct (dll_lookup _ _ _ _ _ Hd Hin) as [n Hn]. congruence. }
  destruct (cons_form (map fst les) (tail c)) as (y & r & Ey).
  set (h0 := <[a := Build_Node None None (Some e)]> (heap c)).
  assert (Hd0 : dll h0 None (head c :: y :: r) None).
  { rewrite <- Ey. eapply dll_frame; [|exact Hd]. intros b Hb. apply lookup_insert_ne. by intros <-. }
  assert (Hsome : is_Some (h0 !! a)) by (unfold h0; rewrite lookup_insert_eq; by eexists).
  rewrite Ey in Hnd, Hal. destruct (addToFront_spec h0 (head c) a y r Hnd Hal Hsome Hd0) as (h & -> & Hd' & Hp).
  exists h. split; [done|]. split; cbn [heap entries head tail size map fst snd app].
  - rewrite Ey. apply NoDup_cons in Hnd as [Hh Hnd]. apply NoDup_cons; split; [set_solver|].
    apply NoDup_cons; split; [set_solver|done].
  - by rewrite Ey.
  - apply Forall_cons. split.
    + apply (entry_at_payload h0); [done|]. eexists. unfold h0. rewrite lookup_insert_eq. done.
    + eapply entries_payload; [exact Hp|]. apply Forall_forall. intros [b d] Hin. rewrite Forall_forall in He.
      destruct (He _ Hin) as (n & Hn & Hpn). exists n. cbn [fst snd] in *. unfold h0. rewrite lookup_insert_ne; [done|].
      intros <-. congruence.
  - apply NoDup_cons. split; [|done]. by rewrite map_map in Habs.
  - intros key' b. destruct (decide (key = key')) as [<-|Hne].
    + rewrite lookup_insert_eq. split; [intros [= <-]; exists e; split; [left|done]|].
      intros (d & Hin & Hdk). apply elem_of_cons in Hin as [Hin|Hin]; [by injection Hin as -> ->|].
      exfalso. apply Habs. rewrite map_map. apply list_elem_of_fmap. by exists (b, d).
    + rewrite lookup_insert_ne by done. rewrite Hm. split.
      * intros (d & Hin & <-). exists d. split; [by right|done].
      * intros (d & Hin & <-). apply elem_of_cons in Hin as [Hin|Hin]; [|by exists d].
        injection Hin as -> ->. done.
  - rewrite Hs. simpl. lia.
Qed.

Lemma PutGeneration_spec c les key v generation :
  represents c les → Z.of_nat (length les) ≤ cap c → 1 ≤ cap c →
  ∃ c' les', PutGeneration key v generation c = Some c' ∧ represents c' les' ∧
    map snd les' = abs_put (Z.to_nat (cap c)) key v generation (map snd les) ∧ cap c' = cap c ∧
    Z.of_nat (length les') ≤ cap c.
Proof using.
  intros Hr Hlen Hcap. unfold PutGeneration, abs_put. destruct (entries c !! key) as [a|] eqn:Ea.
  - destruct (represented_at _ _ _ _ Hr Ea) as (l1 & e & l2 & -> & <- & _ & Hw & n & Hn & _).
    rewrite Hn. cbn [mbind option_bind].
    pose proof (represents_set_payload _ _ _ _ _ v generation Hr) as Hr1. cbv zeta in Hr1.
    destruct (moveToFront_spec _ _ _ _ _ Hr1) as (h & Hmove & Hr2). cbn [with_heap head heap] in Hmove.
    rewrite Hmove. cbn [mbind option_bind]. eexists _, _. split; [done|]. split; [exact Hr2|].
    rewrite Hw. rewrite !length_app in Hlen. simpl in Hlen.
    split_and!; [|done|simpl; rewrite length_app; lia].
    rewrite take_full; [done|]. simpl. rewrite length_map, length_app. lia.
  - destruct (represents_insert _ _ _ v generation Hr Ea) as (h & -> & Hr1). cbv zeta in Hr1. cbn [mbind option_bind].
    rewrite without_absent by (by eapply represented_absent).
    set (e := {| ce_key := key; ce_scenario := v; ce_generation := generation |}) in *.
    set (c1 := {| heap := h; entries := _; head := _; tail := _; size := _; cap := _ |}) in *.
    change (cap c1) with (cap c). change (size c1) with (size c + 1).
    assert (Hs : size c = Z.of_nat (length les)) by apply (rep_size _ _ Hr).
    destruct (cap c <? size c + 1) eqn:E; bool_to_prop.
    + assert (Hl : Z.of_nat (length les) = cap c) by lia.
      destruct (snoc_form (fresh (dom (heap c)), e) les) as (q & [r d] & Eq).
      rewrite Eq in Hr1. destruct (evict_spec _ _ _ _ Hr1) as (c' & -> & Hr' & Hc').
      exists c', q. assert (Hq : length q = length les).
      { apply (f_equal length) in Eq. rewrite length_app in Eq. simpl in Eq. lia. }
      split_and!; [done|done| |by rewrite Hc'|lia].
      replace (e :: map snd les) with (map snd q ++ [d])
        by (apply (f_equal (map snd)) in Eq; rewrite map_app in Eq; by symmetry).
      rewrite take_app_le by (rewrite length_map; lia). rewrite take_full; [done|]. rewrite length_map. lia.
    + exists c1, ((fresh (dom (heap c)), e) :: les). split_and!; [done|done| |done|simpl; lia].
      rewrite take_full; [done|]. simpl. rewrite length_map. lia.
Qed.

Lemma Clear_spec c les :
  represents c les → ∃ c', Clear c = Some c' ∧ represents c' [] ∧ cap c' = cap c.
Proof using.
  intros [Hnd Hd _ _ _ _]. unfold Clear, assign_next, assign_prev.
  assert (Hht : head c ≠ tail c) by (apply NoDup_cons in Hnd as [Hnd _]; set_solver).
  destruct Hd as [[vh Hh] Hd]. rewrite Hh. cbn [mbind option_bind]. rewrite set_next_other by done.
  apply dll_app in Hd as [_ [[vt Ht] _]]. rewrite Ht. cbn [mbind option_bind].
  eexists. split; [done|]. split; [|done]. split; cbn [heap entries head tail size map app].
  - apply NoDup_cons. split; [set_solver|apply NoDup_singleton].
  - split; [|split; [|done]].
    + exists vh. rewrite set_prev_other by done. unfold set_next. by rewrite lookup_alter_eq, Hh.
    + exists vt. unfold set_prev. rewrite lookup_alter_eq, set_next_other by done. by rewrite Ht.
  - constructor.
  - constructor.
  - intros key a. rewrite lookup_empty. split; [done|]. intros (e & Hin & _). by apply elem_of_nil in Hin.
  - done.
Qed.

(** ** Sequences of operations *)

Inductive cache_op :=
| OpGet (key : string) (generation : Z)
| OpPut (key : string) (v : V) (generation : Z)
| OpClear.

(** The answers of the [Get]s. *)
Fixpoint run_cache (ops : list cache_op) (c : ScenarioMatchCache) : option (list (option V) * ScenarioMatchCache) :=
  match ops with
  | [] => Some ([], c)
  | OpGet key g :: ops =>
      '(v, c) ← GetGeneration key g c; '(vs, c) ← run_cache ops c; Some (v :: vs, c)
  | OpPut key v g :: ops => c ← PutGeneration key v g c; run_cache ops c
  | OpClear :: ops => c ← Clear c; run_cache ops c
  end.

Fixpoint run_abs (capacity : nat) (ops : list cache_op) (l : list Entry) : list (option V) * list Entry :=
  match ops with
  | [] => ([], l)
  | OpGet key g :: ops =>
      let r := abs_get key g l in
      let rest := run_abs capacity ops r.2 in (r.1 :: rest.1, rest.2)
  | OpPut key v g :: ops => run_abs capacity ops (abs_put capacity key v g l)
  | OpClear :: ops => run_abs capacity ops []
  end.

Lemma abs_get_length key g l : NoDup (map ce_key l) → length (abs_get key g l).2 = length l.
Proof using.
  intros Hnd. unfold abs_get. destruct (find_entry key l) as [e|] eqn:E; [|done].
  destruct (ce_generation e =? g); [|done]. apply find_key_Some in E as [Hin <-].
  apply list_elem_of_split in Hin as (l1 & l2 & ->).
  destruct (find_key_middle _ l1 e l2 Hnd) as (_ & Hw & _). cbn [snd]. rewrite Hw. simpl. rewrite !length_app. simpl. lia.
Qed.

Lemma new_represents capacity : represents (newScenarioMatchCache capacity) [].
Proof using.
  split; cbn [newScenarioMatchCache heap entries head tail size map app].
  - apply NoDup_cons. split; [set_solver|apply NoDup_singleton].
  - split; [|split; [|done]].
    + exists None. by rewrite lookup_insert_eq.
    + exists None. by rewrite lookup_insert_ne, lookup_insert_eq.
  - constructor.
  - constructor.
  - intros key a. rewrite lookup_empty. split; [done|]. intros (e & Hin & _). by apply elem_of_nil in Hin.
  - done.
Qed.

Lemma run_refines capacity ops c les :
  1 ≤ capacity → represents c les → cap c = capacity → Z.of_nat (length les) ≤ capacity →
  ∃ c' les', run_cache ops c = Some ((run_abs (Z.to_nat capacity) ops (map snd les)).1, c') ∧
    represents c' les' ∧ map snd les' = (run_abs (Z.to_nat capacity) ops (map snd les)).2 ∧
    Z.of_nat (length les') ≤ capacity.
Proof using.
  intros Hcap. revert c les. induction ops as [|[key g|key v g|] ops IH]; intros c les Hr Hc Hl; cbn [run_cache run_abs].
  - eexists _, _. by split_and!.
  - destruct (GetGeneration_spec c les key g Hr) as (c1 & les1 & -> & Hr1 & Hm & Hc1). cbn [mbind option_bind].
    pose proof (abs_get_length key g _ (keys_of _ _ Hr)) as Hlen. rewrite <- Hm, !length_map in Hlen.
    destruct (IH c1 les1 Hr1 ltac:(congruence) ltac:(lia)) as (c' & les' & -> & Hr' & Hm' & Hl').
    cbn [mbind option_bind]. rewrite Hm in *. eexists _, _. by split_and!.
  - subst capacity.
    destruct (PutGeneration_spec c les key v g Hr Hl Hcap) as (c1 & les1 & -> & Hr1 & Hm & Hc1 & Hl1).
    cbn [mbind option_bind]. rewrite <- Hm. by apply IH.
  - destruct (Clear_spec c les Hr) as (c1 & -> & Hr1 & Hc1). cbn [mbind option_bind].
    apply (IH c1 []); [done|congruence|simpl; lia].
Qed.

(** C35: the cache of scenario matches, with its linked nodes, answers every
    sequence of lookups, stores and clears as the list it stands for: a lookup
    gives what was last stored under that key in the same generation, unless
    enough other keys were used since; no nil pointer is followed, and the cache
    never holds more than its capacity. *)
Theorem match_cache_refines capacity ops :
  1 ≤ capacity →
  ∃ c, run_cache ops (newScenarioMatchCache capacity) =
         Some ((run_abs (Z.to_nat capacity) ops []).1, c) ∧
       size c = Z.of_nat (length (run_abs (Z.to_nat capacity) ops []).2) ∧ size c ≤ capacity.
Proof using.
  intros Hcap.
  destruct (run_refines capacity ops (newScenarioMatchCache capacity) [] Hcap (new_represents capacity) eq_refl)
    as (c & les & Hrun & Hr & Hm & Hl); [simpl; lia|].
  exists c. split; [exact Hrun|]. cbn [map] in Hm. rewrite <- Hm, length_map, (rep_size _ _ Hr). by split.
Qed.

(** ** What a lookup can give *)

Lemma abs_get_spec key g l :
  match (abs_get key g l).1 with
  | None => True
  | Some v => ∃ e, e ∈ l ∧ ce_key e = key ∧ ce_generation e = g ∧ ce_scenario e = v
  end ∧ ∀ e, e ∈ (abs_get key g l).2 → e ∈ l.
Proof using.
  unfold abs_get. destruct (find_entry key l) as [d|] eqn:E; [|done].
  apply find_key_Some in E as [E Ek].
  destruct (Z.eqb_spec (ce_generation d) g) as [Eg|]; [|done]. cbn [fst snd]. split; [by exists d|].
  intros e [->|He]%elem_of_cons; [done|]. by apply without_elem in He as [He _].
Qed.

Lemma abs_put_elem capacity key v g l e :
  e ∈ abs_put capacity key v g l → e = {| ce_key := key; ce_scenario := v; ce_generation := g |} ∨ e ∈ l.
Proof using.
  unfold abs_put. intros (i & He & _)%elem_of_take. apply list_elem_of_lookup_2, elem_of_cons in He as [->|He]; [by left|].
  apply without_elem in He as [He _]. by right.
Qed.
End Cache.

Lemma match_cache_refines_witness :
  ∃ c : ScenarioMatchCache,
    run_cache [OpPut "a" 1%nat 0; OpPut "b" 2%nat 0; OpGet "a" 0; OpPut "c" 3%nat 0; OpGet "b" 0; OpGet "a" 0; OpGet "a" 2]
      (newScenarioMatchCache 2) = Some ([Some 1%nat; None; Some 1%nat; None], c) ∧ size c = 2 ∧ size c ≤ 2.
Proof.
  apply (match_cache_refines 2
    [OpPut "a" 1%nat 0; OpPut "b" 2%nat 0; OpGet "a" 0; OpPut "c" 3%nat 0; OpGet "b" 0; OpGet "a" 0; OpGet "a" 2]).
  lia.
Defined.
