(* ===== verification/RouteCache.v ===== *)
(** * The route cache: [internal/router/cache.go]

    An LRU cache of handlers on a nil-terminated doubly linked list of nodes and a
    map from keys to nodes. Each critical section of the code is one definition;
    [Get] is made of up to two of them, between which other calls may come. The
    clock is an argument. Counters of hits and misses are left out. *)
From S2P Require Import Prelude GoInt GoStrings Keyed Dll.

Local Open Scope Z_scope.

Definition DefaultMaxEntries : Z := 1000.
(** Five minutes, in nanoseconds. *)
Definition DefaultTTL : Z := 5 * 60 * 1000000000.

Section Cache.
Context {Handler : Type}.

(** [CacheEntry], with the key of its node. *)
Record CacheEntry := { key : string; handler : Handler; Timestamp : Z; AccessCount : Z }.

Notation Heap := (gmap nat (Node CacheEntry)).

Record RouteCache := {
  nodes : Heap;
  cache : gmap string nat;
  head : option nat;
  tail : option nat;
  evictions : Z;
  maxEntries : Z;
  ttl : Z
}.

Definition NewRouteCache (maxEntries ttl : Z) : RouteCache :=
  {| nodes := ∅; cache := ∅; head := None; tail := None; evictions := 0;
     maxEntries := if maxEntries <=? 0 then DefaultMaxEntries else maxEntries; ttl := ttl |}.

(** ** The list *)

Definition with_list (h : Heap) (hd tl : option nat) (c : RouteCache) : RouteCache :=
  {| nodes := h; cache := cache c; head := hd; tail := tl; evictions := evictions c;
     maxEntries := maxEntries c; ttl := ttl c |}.

Definition with_cache (m : gmap string nat) (c : RouteCache) : RouteCache :=
  {| nodes := nodes c; cache := m; head := head c; tail := tail c; evictions := evictions c;
     maxEntries := maxEntries c; ttl := ttl c |}.

Definition addToFront (node : nat) (c : RouteCache) : RouteCache :=
  let h := set_next node (head c) (set_prev node None (nodes c)) in
  let h := match head c with Some hd => set_prev hd (Some node) h | None => h end in
  with_list h (Some node) (match tail c with None => Some node | Some t => Some t end) c.

Definition removeNode (node : nat) (c : RouteCache) : option RouteCache :=
  n ← nodes c !! node;
  let c := match prev n with
           | Some p => with_list (set_next p (next n) (nodes c)) (head c) (tail c) c
           | None => with_list (nodes c) (next n) (tail c) c
           end in
  n ← nodes c !! node;
  let c := match next n with
           | Some x => with_list (set_prev x (prev n) (nodes c)) (head c) (tail c) c
           | None => with_list (nodes c) (head c) (prev n) c
           end in
  Some (with_list (set_next node None (set_prev node None (nodes c))) (head c) (tail c) c).

Definition moveToFront (node : nat) (c : RouteCache) : option RouteCache :=
  if bool_decide (head c = Some node) then Some c else addToFront node <$> removeNode node c.

Definition count_eviction (c : RouteCache) : RouteCache :=
  {| nodes := nodes c; cache := cache c; head := head c; tail := tail c; evictions := evictions c + 1;
     maxEntries := maxEntries c; ttl := ttl c |}.

Definition evictLRU (c : RouteCache) : option RouteCache :=
  match tail c with
  | None => Some c
  | Some t =>
      n ← nodes c !! t;
      c ← removeNode t c;
      Some (count_eviction (with_cache (delete (key (payload n)) (cache c)) c))
  end.

Definition evictKeyLocked (k : string) (c : RouteCache) : option RouteCache :=
  match cache c !! k with
  | None => Some c
  | Some node => c ← removeNode node c; Some (count_eviction (with_cache (delete k (cache c)) c))
  end.

(** ** Lookups *)

Definition expired (now : Z) (e : CacheEntry) (c : RouteCache) : bool := (0 <? ttl c) && (ttl c <? now - Timestamp e).

Definition counted (e : CacheEntry) : CacheEntry :=
  {| key := key e; handler := handler e; Timestamp := Timestamp e; AccessCount := AccessCount e + 1 |}.

(** What the part of [Get] under the read lock finds. *)
Inductive Looked :=
| Missed
| Expired
| Hit (h : Handler) (node : nat).

Definition get_read (now : Z) (k : string) (c : RouteCache) : option Looked :=
  match cache c !! k with
  | None => Some Missed
  | Some node =>
      n ← nodes c !! node;
      Some (if expired now (payload n) c then Expired else Hit (handler (payload n)) node)
  end.

(** The atomic increment of a hit and whether it asks for a promotion. *)
Definition get_count (node : nat) (c : RouteCache) : option (bool * RouteCache) :=
  n ← nodes c !! node;
  let e := counted (payload n) in
  Some (Z.rem (AccessCount e) 10 =? 0, with_list (set_payload node e (nodes c)) (head c) (tail c) c).

(** The part of [Get] under the write lock after a hit. *)
Definition get_promote (k : string) (node : nat) (c : RouteCache) : option RouteCache :=
  if bool_decide (is_Some (cache c !! k)) then moveToFront node c else Some c.

(** [Get] when nothing comes between its parts. *)
Definition Get (now : Z) (k : string) (c : RouteCache) : option (option Handler * RouteCache) :=
  looked ← get_read now k c;
  match looked with
  | Missed => Some (None, c)
  | Expired => c ← evictKeyLocked k c; Some (None, c)
  | Hit h node =>
      '(promote, c) ← get_count node c;
      c ← (if promote : bool then get_promote k node c else Some c);
      Some (Some h, c)
  end.

Definition Put (now : Z) (k : string) (h : Handler) (c : RouteCache) : option RouteCache :=
  match cache c !! k with
  | Some node =>
      n ← nodes c !! node;
      let e := {| key := key (payload n); handler := h; Timestamp := now; AccessCount := AccessCount (payload n) + 1 |} in
      moveToFront node (with_list (set_payload node e (nodes c)) (head c) (tail c) c)
  | None =>
      c ← (if maxEntries c <=? Z.of_nat (size (cache c)) then evictLRU c else Some c);
      let node := fresh (dom (nodes c)) in
      let e := {| key := k; handler := h; Timestamp := now; AccessCount := 1 |} in
      let c := with_list (<[node := Build_Node None None e]> (nodes c)) (head c) (tail c) c in
      Some (addToFront node (with_cache (<[k := node]> (cache c)) c))
  end.

Definition Delete (k : string) (c : RouteCache) : option RouteCache := evictKeyLocked k c.

Definition Clear (c : RouteCache) : RouteCache := with_list (nodes c) None None (with_cache ∅ c).

(** ** The cache it stands for: the entries, most recently used first *)

Notation without := (without key).
Notation find_entry := (find_key key).

Definition is_expired (ttl now : Z) (e : CacheEntry) : bool := (0 <? ttl) && (ttl <? now - Timestamp e).

(** Every tenth access moves the entry to the front. *)
Definition abs_get (ttl now : Z) (k : string) (l : list CacheEntry) : option Handler * list CacheEntry :=
  match find_entry k l with
  | None => (None, l)
  | Some e =>
      if is_expired ttl now e then (None, without k l)
      else if Z.rem (AccessCount e + 1) 10 =? 0 then (Some (handler e), counted e :: without k l)
      else (Some (handler e), update key counted k l)
  end.

Definition abs_put (max now : Z) (k : string) (h : Handler) (l : list CacheEntry) : list CacheEntry :=
  match find_entry k l with
  | Some e => {| key := k; handler := h; Timestamp := now; AccessCount := AccessCount e + 1 |} :: without k l
  | None => {| key := k; handler := h; Timestamp := now; AccessCount := 1 |} :: take (Z.to_nat max - 1) l
  end.

(** ** The shape of the nodes *)

Definition chain (h : Heap) (hd tl : option nat) (l : list nat) : Prop :=
  NoDup l ∧ dll h None l None ∧ hd = first_or l None ∧ tl = last l.

Definition entry_at (h : Heap) (a : nat) (e : CacheEntry) : Prop := payload <$> h !! a = Some e.

Record represents (c : RouteCache) (les : list (nat * CacheEntry)) : Prop := {
  rep_chain : chain (nodes c) (head c) (tail c) (map fst les);
  rep_entry : Forall (λ ae, entry_at (nodes c) ae.1 ae.2) les;
  rep_keys : NoDup (map (λ ae, key ae.2) les);
  rep_map : ∀ k a, cache c !! k = Some a ↔ ∃ e, (a, e) ∈ les ∧ key e = k
}.

Lemma route_entries_payload h h' les :
  same_payload h h' → Forall (λ ae, entry_at h ae.1 ae.2) les → Forall (λ ae, entry_at h' ae.1 ae.2) les.
Proof using. intros Hs Hf. eapply Forall_impl; [exact Hf|]. intros [a e]. unfold entry_at. by rewrite Hs. Qed.

(** ** The list operations *)

(** Two caches that differ in the list only. *)
Definition same_rest (c c' : RouteCache) : Prop :=
  cache c' = cache c ∧ evictions c' = evictions c ∧ maxEntries c' = maxEntries c ∧ ttl c' = ttl c.

Notation chained c l := (chain (nodes c) (head c) (tail c) l).

Lemma route_addToFront_spec c a l :
  chained c l → a ∉ l → is_Some (nodes c !! a) →
  chained (addToFront a c) (a :: l) ∧ same_payload (nodes c) (nodes (addToFront a c)) ∧ same_rest c (addToFront a c).
Proof using.
  intros (Hnd & Hd & Hhd & Htl) Ha [n Hn]. set (h1 := set_next a (head c) (set_prev a None (nodes c))).
  assert (Hh : nodes (addToFront a c) = set_prev_opt (head c) (Some a) h1) by (cbn; by destruct (head c)).
  assert (Hother : ∀ b, b ≠ a → h1 !! b = nodes c !! b).
  { intros b Hb. unfold h1. by rewrite set_next_other, set_prev_other. }
  assert (Hfl : ∀ b, head c = Some b → b ∈ l) by (intros b Hb; apply first_or_elem; congruence).
  rewrite Hh. split_and!.
  - split_and!; [by constructor| |done|].
    + split.
      * exists (payload n). rewrite set_prev_opt_other by (intros Hb%Hfl; done).
        unfold h1, set_next, set_prev. rewrite !lookup_alter_eq, Hn. cbn. unfold with_next, with_prev. cbn. by rewrite Hhd.
      * rewrite Hhd. apply dll_relink_first with None; [done|]. eapply dll_frame; [|exact Hd].
        intros b Hb. apply Hother. by intros ->.
    + cbn. rewrite Htl. destruct l as [|b l]; [done|]. rewrite last_cons_cons. by destruct (last (b :: l)) eqn:E; [|apply last_None in E].
  - eapply same_payload_trans; [|apply same_payload_prev_opt]. unfold h1.
    eapply same_payload_trans; [apply same_payload_prev|apply same_payload_next].
  - done.
Qed.

Lemma removeNode_spec c l1 a l2 :
  chained c (l1 ++ a :: l2) →
  ∃ c', removeNode a c = Some c' ∧ chained c' (l1 ++ l2) ∧ same_payload (nodes c) (nodes c') ∧ same_rest c c'.
Proof using.
  intros (Hnd & Hd & Hhd & Htl). destruct (dll_remove _ _ _ _ Hnd Hd) as (v & Ha & Hd').
  set (p := last l1) in *. set (x := first_or l2 None) in *.
  set (h1 := set_next_opt p x (nodes c)) in *. set (h2 := set_prev_opt x p h1) in *.
  assert (Hal : a ∉ l1 ∧ a ∉ l2).
  { apply NoDup_app in Hnd as (_ & Hdis & Hnd). apply NoDup_cons in Hnd as [? _]. split; [|done].
    intros Hin. apply (Hdis _ Hin). left. }
  assert (Ha1 : h1 !! a = Some (Build_Node p x v)).
  { unfold h1. rewrite set_next_opt_other; [done|]. intros Hp%last_elem. tauto. }
  unfold removeNode. rewrite Ha. cbn [mbind option_bind prev next]. cbv zeta.
  set (c1 := match p with Some p => _ | None => _ end).
  assert (Hc1 : nodes c1 = h1 ∧ head c1 = first_or l1 x ∧ tail c1 = tail c ∧ same_rest c c1).
  { unfold c1, h1. rewrite Hhd. destruct l1 as [|b l1]; [by split_and!|]. unfold p. rewrite last_cons.
    by destruct (last l1). }
  destruct Hc1 as (En & Eh & Et & Es). rewrite En, Ha1. cbn [mbind option_bind prev next].
  set (c2 := match x with Some x => _ | None => _ end).
  assert (Hc2 : nodes c2 = h2 ∧ head c2 = first_or l1 x ∧ tail c2 = last (l1 ++ l2) ∧ same_rest c1 c2).
  { unfold c2, h2. destruct l2 as [|b l2]; cbn.
    - rewrite app_nil_r. by split_and!.
    - split_and!; [done..| |done]. rewrite Et, Htl, !last_app. done. }
  destruct Hc2 as (En2 & Eh2 & Et2 & Es2). eexists. split; [done|]. cbn [with_list nodes head tail].
  rewrite En2, Eh2, Et2. split_and!.
  - split_and!; [|eapply dll_frame; [|exact Hd']|by rewrite first_or_app|done].
    + eapply sublist_NoDup; [exact Hnd|]. apply sublist_app; [done|]. by apply sublist_cons.
    + intros b Hb. rewrite set_next_other, set_prev_other; [done|..]; intros ->; apply elem_of_app in Hb; tauto.
  - eapply same_payload_trans; [|apply same_payload_next]. eapply same_payload_trans; [|apply same_payload_prev].
    eapply same_payload_trans; [apply same_payload_next_opt|apply same_payload_prev_opt].
  - destruct Es as (?&?&?&?), Es2 as (?&?&?&?). split_and!; cbn; congruence.
Qed.

Lemma route_moveToFront_spec c l1 a l2 :
  chained c (l1 ++ a :: l2) → is_Some (nodes c !! a) →
  ∃ c', moveToFront a c = Some c' ∧ chained c' (a :: l1 ++ l2) ∧ same_payload (nodes c) (nodes c') ∧ same_rest c c'.
Proof using.
  intros Hc Ha. unfold moveToFront. case_bool_decide as Eh.
  - destruct l1 as [|b l1]; [by exists c|]. exfalso. pose proof Hc as (Hnd & _ & Hhd & _). rewrite Eh in Hhd. cbn in Hhd.
    injection Hhd as <-. apply NoDup_cons in Hnd as [Hn _]. apply Hn. set_solver.
  - pose proof Hc as (Hnd & _). destruct (removeNode_spec _ _ _ _ Hc) as (c1 & -> & Hc1 & Hp1 & Hr1).
    cbn [fmap option_fmap option_map]. eexists. split; [done|].
    assert (Hal : a ∉ l1 ++ l2).
    { apply NoDup_app in Hnd as (_ & Hdis & Hnd). apply NoDup_cons in Hnd as [? _].
      intros [Hin|Hin]%elem_of_app; [apply (Hdis _ Hin); left|done]. }
    destruct (route_addToFront_spec c1 a _ Hc1 Hal (same_payload_is_Some _ _ _ Hp1 Ha)) as (Hc2 & Hp2 & Hr2).
    split_and!; [done|by eapply same_payload_trans|]. destruct Hr1 as (?&?&?&?), Hr2 as (?&?&?&?). split_and!; congruence.
Qed.

(** ** The calls *)

Lemma route_represented_at c les k a :
  represents c les → cache c !! k = Some a →
  ∃ l1 e l2, les = l1 ++ (a, e) :: l2 ∧ key e = k ∧ payload <$> nodes c !! a = Some e ∧
    find_entry k (map snd les) = Some e ∧ without k (map snd les) = map snd (l1 ++ l2) ∧
    ∀ f, update key f k (map snd les) = map snd (l1 ++ (a, f e) :: l2).
Proof using.
  intros Hr (e & Hin & <-)%(rep_map _ _ Hr). apply list_elem_of_split in Hin as (l1 & l2 & ->). exists l1, e, l2.
  pose proof (rep_keys _ _ Hr) as Hk. rewrite <- map_map in Hk. rewrite map_app in *. cbn [map snd] in *.
  destruct (find_key_middle key _ _ _ Hk) as (-> & -> & Hf). rewrite map_app. split_and!; [done..| |done|done|].
  - pose proof (rep_entry _ _ Hr) as He. apply Forall_app in He as [_ He]. by apply Forall_cons in He as [He _].
  - intros f. rewrite Hf, map_app. done.
Qed.

Lemma route_represented_absent c les k :
  represents c les → cache c !! k = None → find_entry k (map snd les) = None ∧ k ∉ map (λ ae, key ae.2) les.
Proof using.
  intros Hr Hn. assert (Hk : k ∉ map (λ ae : nat * CacheEntry, key ae.2) les).
  { intros (ae & -> & Hin)%list_elem_of_fmap. destruct ae as [a e].
    assert (Ha : cache c !! key e = Some a) by (apply (rep_map _ _ Hr); by exists e). cbn in Hn. congruence. }
  split; [|done]. apply find_key_None. by rewrite map_map.
Qed.

Lemma represented_size c les : represents c les → size (cache c) = length les.
Proof using.
  intros Hr. rewrite <- (length_map (λ ae : nat * CacheEntry, key ae.2) les), <- size_dom.
  rewrite <- (size_list_to_set (C := gset string)) by apply (rep_keys _ _ Hr). f_equal.
  apply set_eq. intros k. rewrite elem_of_list_to_set, elem_of_dom. split.
  - intros (a & (e & Hin & <-)%(rep_map _ _ Hr)). apply list_elem_of_fmap. by exists (a, e).
  - intros ((a & e) & -> & Hin)%list_elem_of_fmap. exists a. apply (rep_map _ _ Hr). by exists e.
Qed.

(** The entry of a node is replaced by one of the same key. *)
Lemma represents_set_entry c l1 a e l2 e' :
  represents c (l1 ++ (a, e) :: l2) → key e' = key e →
  represents (with_list (set_payload a e' (nodes c)) (head c) (tail c) c) (l1 ++ (a, e') :: l2).
Proof using.
  intros [(Hnd & Hd & Hh & Ht) He Hk Hm] E.
  assert (Hfst : map fst (l1 ++ (a, e') :: l2) = map fst (l1 ++ (a, e) :: l2)) by by rewrite !map_app.
  split; cbn [with_list nodes head tail cache].
  - rewrite Hfst. split_and!; [done|by apply dll_set_payload|done..].
  - rewrite map_app in Hnd. apply NoDup_app in Hnd as (_ & Hdis & Hnd). cbn in Hnd, Hdis. apply NoDup_cons in Hnd as [Hal _].
    apply Forall_app in He as [He1 He2]. apply Forall_cons in He2 as [Hea He2].
    assert (Hother : ∀ l : list (nat * CacheEntry), a ∉ map fst l → Forall (λ ae, entry_at (nodes c) ae.1 ae.2) l →
      Forall (λ ae, entry_at (set_payload a e' (nodes c)) ae.1 ae.2) l).
    { intros l Ha Hf. rewrite Forall_forall in *. intros [b x] Hb. unfold entry_at. cbn.
      rewrite set_payload_other; [by apply (Hf (b, x))|]. intros ->. apply Ha. apply list_elem_of_fmap. by exists (a, x). }
    apply Forall_app. split; [apply Hother; [|done]; intros Hin; apply (Hdis a Hin); left|].
    apply Forall_cons. split; [|by apply Hother]. unfold entry_at in *. cbn in *.
    unfold set_payload. rewrite lookup_alter_eq. by destruct (nodes c !! a).
  - rewrite map_app in *. cbn in *. by rewrite E.
  - intros k b. rewrite Hm. split; intros (x & Hin & <-).
    + apply elem_of_app in Hin as [Hin|[[= -> ->]|Hin]%elem_of_cons]; [exists x; set_solver|exists e'; set_solver|exists x; set_solver].
    + apply elem_of_app in Hin as [Hin|[[= -> ->]|Hin]%elem_of_cons]; [exists x; set_solver|exists e; set_solver|exists x; set_solver].
Qed.

Lemma represents_perm c c' les les' :
  represents c les → les' ≡ₚ les → chained c' (map fst les') → same_payload (nodes c) (nodes c') → cache c' = cache c →
  represents c' les'.
Proof using.
  intros [_ He Hk Hm] Hp Hc Hs E. split; [done| | |].
  - rewrite Hp. by eapply route_entries_payload.
  - by rewrite Hp.
  - intros k a. rewrite E, Hm. by setoid_rewrite Hp.
Qed.

Lemma moveToFront_represents c l1 a e l2 :
  represents c (l1 ++ (a, e) :: l2) →
  ∃ c', moveToFront a c = Some c' ∧ represents c' ((a, e) :: l1 ++ l2) ∧ maxEntries c' = maxEntries c ∧ ttl c' = ttl c.
Proof using.
  intros Hr. pose proof (rep_chain _ _ Hr) as Hc. rewrite map_app in Hc. cbn [map fst] in Hc.
  destruct (route_moveToFront_spec _ _ _ _ Hc) as (c' & -> & Hc' & Hp & Hcache & _ & Hmax & Httl).
  { pose proof (rep_entry _ _ Hr) as He. apply Forall_app in He as [_ He]. apply Forall_cons in He as [He _].
    unfold entry_at in He. cbn in He. destruct (nodes c !! a); [by eexists|done]. }
  exists c'. split; [done|]. split; [|done]. eapply represents_perm; [exact Hr|by rewrite Permutation_middle| |done|done].
  cbn [map fst]. by rewrite map_app.
Qed.

(** A node is taken out with its key. *)
Lemma remove_represents c l1 a e l2 :
  represents c (l1 ++ (a, e) :: l2) →
  ∃ c1, removeNode a c = Some c1 ∧ cache c1 = cache c ∧
    represents (count_eviction (with_cache (delete (key e) (cache c1)) c1)) (l1 ++ l2) ∧
    maxEntries c1 = maxEntries c ∧ ttl c1 = ttl c.
Proof using.
  intros Hr. pose proof (rep_chain _ _ Hr) as Hc. rewrite map_app in Hc. cbn [map fst] in Hc.
  destruct (removeNode_spec _ _ _ _ Hc) as (c1 & -> & Hc1 & Hp & Hcache & _ & Hmax & Httl).
  exists c1. split; [done|]. split; [done|]. split; [|done]. destruct Hr as [_ He Hk Hm].
  assert (Hk' : key e ∉ map (λ ae : nat * CacheEntry, key ae.2) (l1 ++ l2) ∧ NoDup (map (λ ae : nat * CacheEntry, key ae.2) (l1 ++ l2))).
  { destruct (keyed_middle (λ ae : nat * CacheEntry, key ae.2) l1 (a, e) l2 Hk) as (H1 & H2 & ?).
    split; [|done]. rewrite map_app, elem_of_app. cbn in *. tauto. }
  destruct Hk' as [Hne Hk']. split; cbn [count_eviction with_cache nodes head tail cache].
  - by rewrite map_app.
  - apply Forall_app in He as [He1 He2]. apply Forall_cons in He2 as [_ He2].
    eapply route_entries_payload; [exact Hp|]. by apply Forall_app.
  - done.
  - intros k b. rewrite lookup_delete_Some, Hcache, Hm. split.
    + intros (Hkne & x & Hin & <-). exists x. split; [|done].
      apply elem_of_app in Hin as [?|[[= -> ->]|?]%elem_of_cons]; [set_solver|done|set_solver].
    + intros (x & Hin & <-). split; [|exists x; set_solver]. intros Heq. apply Hne. rewrite Heq.
      apply list_elem_of_fmap. by exists (b, x).
Qed.

Lemma evictKeyLocked_represents k c les :
  represents c les →
  ∃ c' les', evictKeyLocked k c = Some c' ∧ represents c' les' ∧ map snd les' = without k (map snd les) ∧
             maxEntries c' = maxEntries c ∧ ttl c' = ttl c.
Proof using.
  intros Hr. unfold evictKeyLocked. destruct (cache c !! k) as [a|] eqn:Ea.
  - destruct (route_represented_at _ _ _ _ Hr Ea) as (l1 & e & l2 & -> & <- & _ & _ & Hw & _).
    destruct (remove_represents _ _ _ _ _ Hr) as (c1 & -> & _ & Hr1 & Hmax & Httl). cbn [mbind option_bind].
    eexists _, _. split; [done|]. split; [exact Hr1|]. split_and!; [by rewrite Hw|done|done].
  - exists c, les. destruct (route_represented_absent _ _ _ Hr Ea) as [_ Hk]. split_and!; [done..| |done|done].
    symmetry. apply without_absent. by rewrite map_map.
Qed.

Lemma evictLRU_represents c les :
  represents c les →
  ∃ c', evictLRU c = Some c' ∧ represents c' (take (length les - 1) les) ∧ maxEntries c' = maxEntries c ∧ ttl c' = ttl c.
Proof using.
  intros Hr. unfold evictLRU. pose proof (rep_chain _ _ Hr) as (_ & _ & _ & Ht).
  destruct les as [|[a e] les _] using rev_ind.
  - cbn in Ht. rewrite Ht. by exists c.
  - rewrite map_app in Ht. cbn in Ht. rewrite last_snoc in Ht. rewrite Ht.
    pose proof (rep_entry _ _ Hr) as He. apply Forall_app in He as [_ He]. apply Forall_cons in He as [He _].
    unfold entry_at in He. cbn in He. destruct (nodes c !! a) as [n|] eqn:En; [|done]. injection He as He.
    cbn [mbind option_bind]. destruct (remove_represents _ _ _ _ _ Hr) as (c1 & -> & _ & Hr1 & Hmax & Httl).
    cbn [mbind option_bind]. rewrite He. eexists. split; [done|]. split; [|done].
    rewrite length_app. simpl. rewrite app_nil_r in Hr1. rewrite Nat.add_sub, take_app_length. done.
Qed.

(** What a cache of this size and lifetime has to be. *)
Record cache_ok (max life : Z) (c : RouteCache) (les : list (nat * CacheEntry)) : Prop := {
  ok_represents : represents c les;
  ok_length : Z.of_nat (length les) ≤ max;
  ok_max : maxEntries c = max;
  ok_ttl : ttl c = life
}.

Lemma Get_refines max life now k c les :
  cache_ok max life c les →
  ∃ c' les', Get now k c = Some ((abs_get life now k (map snd les)).1, c') ∧ cache_ok max life c' les' ∧
             map snd les' = (abs_get life now k (map snd les)).2.
Proof using.
  intros [Hr Hlen Hmax Hlife]. unfold Get, get_read, abs_get.
  destruct (cache c !! k) as [a|] eqn:Ea; cbn [mbind option_bind].
  2:{ destruct (route_represented_absent _ _ _ Hr Ea) as [-> _]. by exists c, les. }
  destruct (route_represented_at _ _ _ _ Hr Ea) as (l1 & e & l2 & -> & Hk & Hp & Hf & Hw & Hu). rewrite Hf.
  destruct (nodes c !! a) as [n|] eqn:En; [|done]. injection Hp as Hp. cbn [mbind option_bind]. rewrite Hp.
  change (expired now e c) with (is_expired (ttl c) now e). rewrite Hlife.
  destruct (is_expired life now e); cbn [mbind option_bind].
  { destruct (evictKeyLocked_represents k c _ Hr) as (c' & les' & -> & Hr' & Hm & Hmax' & Httl').
    exists c', les'. split; [done|]. split; [|done]. split; [done| |congruence..].
    rewrite <- (length_map snd), Hm, Hw, length_map. rewrite length_app in *. cbn in Hlen. lia. }
  unfold get_count. rewrite En. cbn [mbind option_bind]. rewrite Hp.
  pose proof (represents_set_entry c l1 a e l2 (counted e) Hr eq_refl) as Hr1.
  set (c1 := with_list _ _ _ c) in *. cbn [counted AccessCount].
  assert (Hlen1 : Z.of_nat (length (l1 ++ (a, counted e) :: l2)) ≤ max) by (rewrite length_app in *; cbn in *; lia).
  destruct (Z.rem (AccessCount e + 1) 10 =? 0).
  - unfold get_promote. rewrite bool_decide_true by (cbn; by eexists).
    destruct (moveToFront_represents _ _ _ _ _ Hr1) as (c2 & -> & Hr2 & Hmax2 & Httl2). cbn [mbind option_bind].
    exists c2, ((a, counted e) :: l1 ++ l2). split; [done|]. split; [|cbn [map snd]; by rewrite Hw].
    split; [exact Hr2| |rewrite Hmax2; exact Hmax|rewrite Httl2; exact Hlife]. cbn. rewrite !length_app in *. cbn in Hlen1. lia.
  - exists c1, (l1 ++ (a, counted e) :: l2). split; [done|]. split; [by split|]. by rewrite Hu.
Qed.

Lemma Put_refines max life now k h c les :
  1 ≤ max → cache_ok max life c les →
  ∃ c' les', Put now k h c = Some c' ∧ cache_ok max life c' les' ∧ map snd les' = abs_put max now k h (map snd les).
Proof using.
  intros H1 [Hr Hlen Hmax Hlife]. unfold Put, abs_put. destruct (cache c !! k) as [a|] eqn:Ea.
  - destruct (route_represented_at _ _ _ _ Hr Ea) as (l1 & e & l2 & -> & <- & Hp & -> & Hw & _).
    destruct (nodes c !! a) as [n|] eqn:En; [|done]. injection Hp as Hp. cbn [mbind option_bind]. rewrite Hp.
    set (e' := {| key := key e |}). pose proof (represents_set_entry c l1 a e l2 e' Hr eq_refl) as Hr1.
    destruct (moveToFront_represents _ _ _ _ _ Hr1) as (c2 & -> & Hr2 & Hmax2 & Httl2).
    exists c2, ((a, e') :: l1 ++ l2). split; [done|]. split; [|cbn [map snd]; by rewrite Hw].
    split; [exact Hr2| |rewrite Hmax2; exact Hmax|rewrite Httl2; exact Hlife].
    cbn. rewrite !length_app in *. cbn in Hlen. lia.
  - destruct (route_represented_absent _ _ _ Hr Ea) as [-> Hk].
    set (l := take (Z.to_nat max - 1) les).
    assert (He : ∃ c1, (if maxEntries c <=? Z.of_nat (size (cache c)) then evictLRU c else Some c) = Some c1 ∧
      represents c1 l ∧ maxEntries c1 = max ∧ ttl c1 = life).
    { rewrite (represented_size _ _ Hr), Hmax. destruct (Z.leb_spec max (Z.of_nat (length les))).
      - destruct (evictLRU_represents _ _ Hr) as (c1 & -> & Hr1 & ? & ?). exists c1. split; [done|].
        replace l with (take (length les - 1) les) by (unfold l; f_equal; lia). split_and!; [done|congruence..].
      - exists c. unfold l. rewrite take_ge by lia. by split_and!. }
    destruct He as (c1 & -> & Hr1 & Hmax1 & Httl1). cbn [mbind option_bind].
    set (a := fresh (dom (nodes c1))). set (e := {| key := k |}).
    assert (Hfresh : nodes c1 !! a = None) by (apply not_elem_of_dom, is_fresh).
    assert (Hal : a ∉ map fst l).
    { intros ((b & x) & -> & Hin)%list_elem_of_fmap. pose proof (rep_entry _ _ Hr1) as He. rewrite Forall_forall in He.
      specialize (He _ Hin). unfold entry_at in He. cbn in He, Hfresh. by rewrite Hfresh in He. }
    assert (Hkl : k ∉ map (λ ae : nat * CacheEntry, key ae.2) l).
    { intros Hin. apply Hk. unfold l in Hin. rewrite <- (take_drop (Z.to_nat max - 1) les), map_app. apply elem_of_app. by left. }
    destruct Hr1 as [(Hnd & Hd & Hh & Ht) He Hkeys Hm].
    set (c2 := with_list _ _ _ _). set (c3 := with_cache _ c2).
    assert (Hother : ∀ b, b ∈ map fst l → nodes c3 !! b = nodes c1 !! b).
    { intros b Hb. cbn. apply lookup_insert_ne. by intros ->. }
    destruct (route_addToFront_spec c3 a (map fst l)) as (Hc & Hp & Hcache & _ & Hmax2 & Httl2).
    + split_and!; [done| |done..]. eapply dll_frame; [|exact Hd]. intros b Hb. by apply Hother.
    + done.
    + cbn. rewrite lookup_insert_eq. by eexists.
    + exists (addToFront a c3), ((a, e) :: l). split; [done|]. split; [|cbn; unfold l; by rewrite <- firstn_map].
      split; [split| |rewrite Hmax2; exact Hmax1|rewrite Httl2; exact Httl1].
      * exact Hc.
      * eapply route_entries_payload; [exact Hp|]. apply Forall_cons. split; [unfold entry_at; cbn; by rewrite lookup_insert_eq|].
        rewrite Forall_forall in *. intros [b x] Hin. unfold entry_at. cbn [fst snd].
        rewrite Hother by (apply list_elem_of_fmap; by exists (b, x)). by apply (He (b, x)).
      * cbn. by constructor.
      * intros k' b. rewrite Hcache. change (cache c3) with (<[k := a]> (cache c1)). destruct (decide (k' = k)) as [->|Hne].
        -- rewrite lookup_insert_eq. split; [intros [= <-]; exists e; split; [left|done]|].
           intros (x & [[= -> ->]|Hin]%elem_of_cons & Ex); [done|]. destruct Hkl. rewrite <- Ex. apply list_elem_of_fmap. by exists (b, x).
        -- rewrite lookup_insert_ne, Hm by done. split; intros (x & Hin & <-); exists x; (split; [|done]).
           ++ by right.
           ++ apply elem_of_cons in Hin as [[= -> ->]|Hin]; done.
      * cbn. unfold l. rewrite length_take. lia.
Qed.

Lemma Clear_refines max life c les : 0 ≤ max → cache_ok max life c les → cache_ok max life (Clear c) [].
Proof using.
  intros H0 [Hr _ Hmax Hlife]. split; [|done..]. split; cbn.
  - split_and!; [constructor|done..].
  - constructor.
  - constructor.
  - intros k a. rewrite lookup_empty. split; [done|]. by intros (e & Hin%elem_of_nil & _).
Qed.

Lemma Delete_refines max life k c les :
  cache_ok max life c les →
  ∃ c' les', Delete k c = Some c' ∧ cache_ok max life c' les' ∧ map snd les' = without k (map snd les).
Proof using.
  intros [Hr Hlen Hmax Hlife]. destruct (evictKeyLocked_represents k c les Hr) as (c' & les' & E & Hr' & Hm & Hmax' & Httl').
  exists c', les'. split; [done|]. split; [|done]. split; [done| |congruence..].
  rewrite <- (length_map snd), Hm. etrans; [|exact Hlen]. apply Nat2Z.inj_le.
  rewrite <- (length_map snd les). apply sublist_length, sublist_filter.
Qed.

(** ** Sequences of calls *)

Inductive cache_op :=
| OpGet (now : Z) (k : string)
| OpPut (now : Z) (k : string) (h : Handler)
| OpDelete (k : string)
| OpClear.

Definition step (o : cache_op) (c : RouteCache) : option (option Handler * RouteCache) :=
  match o with
  | OpGet now k => Get now k c
  | OpPut now k h => c ← Put now k h c; Some (None, c)
  | OpDelete k => c ← Delete k c; Some (None, c)
  | OpClear => Some (None, Clear c)
  end.

Definition abs_step (max life : Z) (o : cache_op) (l : list CacheEntry) : option Handler * list CacheEntry :=
  match o with
  | OpGet now k => abs_get life now k l
  | OpPut now k h => (None, abs_put max now k h l)
  | OpDelete k => (None, without k l)
  | OpClear => (None, [])
  end.

Fixpoint run_cache (ops : list cache_op) (c : RouteCache) : option (list (option Handler) * RouteCache) :=
  match ops with
  | [] => Some ([], c)
  | o :: ops => '(r, c) ← step o c; '(rs, c) ← run_cache ops c; Some (r :: rs, c)
  end.

Fixpoint run_abs (max life : Z) (ops : list cache_op) (l : list CacheEntry) : list (option Handler) * list CacheEntry :=
  match ops with
  | [] => ([], l)
  | o :: ops => let '(r, l) := abs_step max life o l in let '(rs, l) := run_abs max life ops l in (r :: rs, l)
  end.

Lemma step_refines max life o c les :
  1 ≤ max → cache_ok max life c les →
  ∃ c' les', step o c = Some ((abs_step max life o (map snd les)).1, c') ∧ cache_ok max life c' les' ∧
             map snd les' = (abs_step max life o (map snd les)).2.
Proof using.
  intros H1 Hok. destruct o as [now k|now k h|k|]; cbn [step abs_step fst snd].
  - by apply Get_refines.
  - destruct (Put_refines max life now k h c les H1 Hok) as (c' & les' & -> & ? & ?). by exists c', les'.
  - destruct (Delete_refines max life k c les Hok) as (c' & les' & -> & ? & ?). by exists c', les'.
  - eexists (Clear c), []. split; [done|]. split; [|done]. apply Clear_refines with les; [lia|done].
Qed.

Lemma route_run_refines max life ops c les :
  1 ≤ max → cache_ok max life c les →
  ∃ c' les', run_cache ops c = Some ((run_abs max life ops (map snd les)).1, c') ∧ cache_ok max life c' les' ∧
             map snd les' = (run_abs max life ops (map snd les)).2.
Proof using.
  intros H1. revert c les. induction ops as [|o ops IH]; intros c les Hok; cbn [run_cache run_abs]; [by exists c, les|].
  destruct (step_refines max life o c les H1 Hok) as (c1 & les1 & -> & Hok1 & Hm1). cbn [mbind option_bind].
  destruct (abs_step max life o (map snd les)) as [r l1]. cbn [fst snd] in *. subst l1.
  destruct (IH c1 les1 Hok1) as (c2 & les2 & -> & Hok2 & Hm2). cbn [mbind option_bind].
  destruct (run_abs max life ops (map snd les1)) as [rs l2]. exists c2, les2. by split_and!.
Qed.

Lemma new_ok max life : cache_ok (if max <=? 0 then DefaultMaxEntries else max) life (NewRouteCache max life) [].
Proof using.
  split; [|cbn; unfold DefaultMaxEntries; destruct (Z.leb_spec max 0); lia|done..]. split; cbn.
  - split_and!; [constructor|done..].
  - constructor.
  - constructor.
  - intros k a. rewrite lookup_empty. split; [done|]. by intros (e & Hin%elem_of_nil & _).
Qed.

(** The route cache answers every sequence of [Get], [Put], [Delete] and
    [Clear] as the list it stands for, most recently stored or promoted first: a
    lookup gives the handler stored under the key unless it is older than the
    lifetime, and then forgets it; every tenth access of an entry moves it to
    the front; a full cache drops the entry at the end. No nil pointer is
    followed, and there are never more entries than the maximum. *)
Theorem route_cache_refines max life ops :
  let max' := if max <=? 0 then DefaultMaxEntries else max in
  ∃ c, run_cache ops (NewRouteCache max life) = Some ((run_abs max' life ops []).1, c) ∧
       size (cache c) = length (run_abs max' life ops []).2 ∧ Z.of_nat (size (cache c)) ≤ max'.
Proof using.
  intros max'. destruct (route_run_refines max' life ops (NewRouteCache max life) []) as (c & les & E & [Hr Hlen _ _] & Hm).
  - unfold max', DefaultMaxEntries. destruct (Z.leb_spec max 0); lia.
  - apply new_ok.
  - exists c. split; [exact E|]. cbn [map] in Hm. rewrite <- Hm, length_map, (represented_size _ _ Hr). by split.
Qed.
End Cache.

(** ** Interleavings

    Between the two critical sections of a [Get] other calls may come. Here the
    entry that was hit leaves the list and its key is stored again before the
    promotion, which then takes the old node for the new one. *)
Section Interleaved.
Notation RouteCache := (RouteCache (Handler := nat)).

Definition late_promotion : option RouteCache :=
  let c := NewRouteCache 2 0 in
  c ← Put 0 "REQMOD:/a" 1%nat c;
  c ← Put 0 "REQMOD:/b" 2%nat c;
  old ← cache c !! "REQMOD:/a";
  '(_, c) ← run_cache (repeat (OpGet 0 "REQMOD:/a") 8) c;
  '(promote, c) ← get_count old c;
  c ← Delete "REQMOD:/a" c;
  c ← Put 0 "REQMOD:/a" 3%nat c;
  c ← (if promote : bool then get_promote "REQMOD:/a" old c else Some c);
  c ← Delete "REQMOD:/a" c;
  c ← Put 0 "REQMOD:/c" 4%nat c;
  Put 0 "REQMOD:/d" 5%nat c.

(** A promotion that comes after its key was deleted and stored again leaves the
    list without the other entries, and the cache grows over its maximum. *)
Lemma late_promotion_overflows :
  (λ c, (maxEntries c, size (cache c))) <$> late_promotion = Some (2, 3%nat).
Proof using. vm_compute. reflexivity. Qed.
End Interleaved.
