(* ===== verification/Weight.v ===== *)
(** * Weighted responses: [internal/weight/percentage.go] and the random choice

    Percentages are fixed-point integers, thousandths of one percent. The file
    models parsing and printing, the validation of a list of variants
    ([validateRuntimeWeightTotal] of [internal/storage/scenario.go]) and the
    choice of a variant for one random draw ([internal/processor/mock.go]). *)
From S2P Require Import Prelude GoInt GoStrings.

Local Open Scope Z_scope.

Module Percentage.

Definition Scale : Z := 1000.
Definition TotalUnits : Z := 100 * Scale.

Inductive ParseError :=
| WeightRequired
| WeightNotPositive
| WeightNotDecimal (value : string)
| WeightTooLarge
| WeightRoundsToZero.

Definition parseDecimalParts (value : string) : result ParseError (Z * string) :=
  let normalized := trim_space value in
  if bool_decide (normalized = "") then Err WeightRequired
  else if has_prefix normalized "-" then Err WeightNotPositive
  else if has_prefix normalized "+" then Err (WeightNotDecimal normalized)
  else
    let parts := split_byte normalized "." in
    let whole_text := default "" (parts !! 0%nat) in
    let fraction_text := default "" (parts !! 1%nat) in
    if (2 <? Z.of_nat (length parts))
       || bool_decide (whole_text = "")
       || ((Z.of_nat (length parts) =? 2) && bool_decide (fraction_text = ""))
    then Err (WeightNotDecimal normalized)
    else
      match Atoi whole_text with
      | None => Err (WeightNotDecimal normalized)
      | Some whole =>
          let fraction := if Z.of_nat (length parts) =? 2 then fraction_text else "" in
          if str_forall (λ c, digit_val c <? 10) fraction
          then Ok (whole, fraction)
          else Err (WeightNotDecimal normalized)
      end.

(** [padded[:3]] and [padded[3]]; the error of [Atoi] is dropped by the code. *)
Definition roundedThousandths (fraction : string) : Z :=
  let padded := fraction +:+ "0000" in
  let milli := default 0 (Atoi (str_take 3 padded)) in
  match str_drop 3 padded with
  | String c _ => if 53 <=? Z.of_nat (nat_of_ascii c) then milli + 1 else milli
  | EmptyString => milli
  end.

Definition Parse (value : string) : result ParseError Z :=
  match parseDecimalParts value with
  | Err e => Err e
  | Ok (whole, fraction) =>
      if (100 <? whole)
         || ((whole =? 100) && negb (bool_decide (trim_byte "0" fraction = "")))
      then Err WeightTooLarge
      else
        let milli := roundedThousandths fraction in
        let units := whole * Scale + milli in
        if units =? 0 then Err WeightRoundsToZero
        else if TotalUnits <? units then Ok TotalUnits
        else Ok units
  end.

(** [None] is the panic. *)
Definition MustParse (value : string) : option Z :=
  match Parse value with
  | Ok p => Some p
  | Err _ => None
  end.

Definition toString (p : Z) : string :=
  format_uint 10 (Z.quot p Scale) +:+ "." +:+ format_padded 3 (Z.rem p Scale).

(** JSON numbers are parsed from their text, [null] is refused. *)
Definition UnmarshalJSON (data : string) : result ParseError Z :=
  if bool_decide (data = "null") then Err WeightRequired else Parse data.

(** ** What a decimal text denotes *)

(** [s] writes the number [(w * 10 ^ Z.of_nat k + n) / 10 ^ Z.of_nat k]. *)
Definition denotes (s : string) (w n : Z) (k : nat) : Prop :=
  ∃ ws fs,
    parse_uint 10 ws = Some w ∧ w < 2 ^ 63 ∧
    parse_digits 10 0 fs = Some n ∧ k = String.length fs ∧
    ((s = ws ∧ fs = "") ∨ (s = ws +:+ String "."%char fs ∧ fs ≠ "")).

(** Rounding half up of [1000 * (w * 10 ^ Z.of_nat k + n) / 10 ^ Z.of_nat k]. *)
Definition half_up_units (w n : Z) (k : nat) : Z :=
  (2 * Scale * (w * 10 ^ Z.of_nat k + n) + 10 ^ Z.of_nat k) / (2 * 10 ^ Z.of_nat k).

(** ** Lemmas *)

Lemma digits_all a s :
  str_forall (λ c, digit_val c <? 10) s = true ↔ is_Some (parse_digits 10 a s).
Proof.
  unfold str_forall. revert a. induction s as [|c s IH]; intros a; simpl; [split; eauto|].
  destruct (digit_val c <? 10); simpl; [apply IH|].
  split; [done|]. by intros [? ?].
Qed.

Lemma digits_no_dot a s n : parse_digits 10 a s = Some n → "."%char ∉ bytes_of s.
Proof.
  revert a. induction s as [|c s IH]; intros a H; simpl; [apply not_elem_of_nil|].
  simpl in H. destruct (Z.ltb_spec (digit_val c) 10); [|done].
  apply not_elem_of_cons. split; [|by eapply IH].
  intros <-. change (digit_val "."%char) with 36 in *. lia.
Qed.

(** Only the fourth digit decides the rounding. *)
Lemma roundedThousandths_spec fraction n :
  parse_digits 10 0 fraction = Some n →
  roundedThousandths fraction = half_up_units 0 n (String.length fraction).
Proof.
  intros Hn. set (k := String.length fraction).
  pose proof (parse_digits_bound 10 _ _ ltac:(lia) Hn) as Hnb. fold k in Hnb.
  unfold roundedThousandths. set (padded := fraction +:+ "0000").
  assert (Hp : parse_digits 10 0 padded = Some (n * 10 ^ 4)).
  { unfold padded. rewrite parse_digits_app, Hn.
    transitivity (Some ((((n * 10 + 0) * 10 + 0) * 10 + 0) * 10 + 0)); [done|].
    f_equal. lia. }
  assert (Hlen : String.length padded = (k + 4)%nat)
    by (unfold padded; rewrite str_length_app; done).
  rewrite <- (str_take_drop 3 padded) in Hp.
  assert (Ht : String.length (str_take 3 padded) = 3%nat ∧
               String.length (str_drop 3 padded) = (k + 1)%nat).
  { rewrite str_length_take, str_length_drop, Hlen. lia. }
  destruct Ht as [Ht Hdl]. rewrite parse_digits_app in Hp.
  destruct (parse_digits 10 0 (str_take 3 padded)) as [m3|] eqn:E3; [|done].
  destruct (str_drop 3 padded) as [|c r] eqn:Er; [simpl in Hdl; lia|].
  cbn [mbind option_bind parse_digits String.length] in Hp, Hdl. pose proof (digit_val_nonneg c).
  destruct (Z.ltb_spec (digit_val c) 10) as [Hd|]; [|done].
  destruct (parse_digits_acc 10 _ _ _ ltac:(lia) Hp) as (nr & _ & Hsum & Hr).
  replace (String.length r) with k in * by lia.
  assert (HA : Atoi (str_take 3 padded) = Some m3).
  { unfold Atoi. assert (Hne : str_take 3 padded ≠ "") by (intros H0; by rewrite H0 in Ht).
    rewrite parse_int_digits by (try lia; by eapply parse_digits_head).
    rewrite parse_uint_digits, E3 by done. simpl.
    pose proof (parse_digits_bound 10 _ _ ltac:(lia) E3) as Hb3. rewrite Ht in Hb3.
    simpl in Hb3. by rewrite (proj2 (Z.ltb_lt _ _)) by lia. }
  rewrite HA. cbn [default from_option id].
  destruct (digit_val_decimal c Hd) as [Hc Hdv]. rewrite Hdv in *.
  unfold half_up_units, Scale.
  set (K := 10 ^ Z.of_nat k) in *. set (v := Z.of_nat (nat_of_ascii c)) in *.
  assert (48 * K ≤ v * K ≤ 57 * K) by nia.
  destruct (Z.leb_spec 53 v).
  - assert (53 * K ≤ v * K) by nia. apply (Z.div_unique_pos _ _ _ (2000 * n + K - 2 * K * (m3 + 1))); lia.
  - assert (v * K ≤ 52 * K) by nia. apply (Z.div_unique_pos _ _ _ (2000 * n + K - 2 * K * m3)); lia.
Qed.

Lemma decimal_head s ws w :
  parse_uint 10 ws = Some w → (∃ t, s = ws +:+ t) →
  s ≠ "" ∧ has_prefix s "-" = false ∧ has_prefix s "+" = false.
Proof.
  intros Hw [t ->]. destruct ws as [|c ws]; [done|].
  assert (Hs : starts_with_digit 10 (String c ws)) by (by eapply parse_digits_head).
  simpl in Hs. destruct (digit_not_sign 10 c ltac:(lia) Hs) as [H1 H2].
  split; [done|]. unfold has_prefix; cbn [String.append String.prefix].
  destruct (Ascii.ascii_dec "-" c), (Ascii.ascii_dec "+" c); split; congruence.
Qed.

Lemma Atoi_decimal ws w :
  parse_uint 10 ws = Some w → w < 2 ^ 63 → Atoi ws = Some w ∧ ws ≠ "" ∧ "."%char ∉ bytes_of ws.
Proof.
  intros Hw Hb. assert (Hne : ws ≠ "") by (by intros ->).
  rewrite parse_uint_digits in Hw by done.
  split_and!; [|done|by eapply digits_no_dot].
  unfold Atoi. rewrite parse_int_digits by (try lia; by eapply parse_digits_head).
  rewrite parse_uint_digits, Hw by done. simpl. by rewrite (proj2 (Z.ltb_lt _ _)).
Qed.

(** Without a sign, [Atoi] reads exactly the decimal naturals below [2^63]. *)
Lemma Atoi_unsigned ws w t :
  has_prefix (ws +:+ t) "-" = false → has_prefix (ws +:+ t) "+" = false →
  Atoi ws = Some w → parse_uint 10 ws = Some w ∧ w < 2 ^ 63.
Proof.
  intros H1 H2 Ha. destruct ws as [|c ws]; [done|].
  unfold has_prefix in *. cbn [String.append String.prefix] in *.
  unfold Atoi, parse_int in Ha.
  case_bool_decide; [subst; cbn in H1; by destruct (ws +:+ t)|].
  case_bool_decide; [subst; cbn in H2; by destruct (ws +:+ t)|].
  destruct (parse_uint 10 (String c ws)) as [n|]; [|done]. simpl in Ha.
  by split_if_in Ha.
Qed.

Lemma parseDecimalParts_ok value w f :
  parseDecimalParts value = Ok (w, f) ↔
  ∃ n, parse_digits 10 0 f = Some n ∧
       ∃ ws, parse_uint 10 ws = Some w ∧ w < 2 ^ 63 ∧
             ((trim_space value = ws ∧ f = "") ∨
              (trim_space value = ws +:+ String "."%char f ∧ f ≠ "")).
Proof.
  unfold parseDecimalParts. set (s := trim_space value). split.
  - intros H. case_bool_decide; [done|].
    destruct (has_prefix s "-") eqn:Hm; [done|]. destruct (has_prefix s "+") eqn:Hp; [done|].
    pose proof (join_split_byte s ".") as Hj.
    destruct (split_byte s ".") as [|ws [|fs [|? ?]]] eqn:Hs; simpl in H, Hj; try done.
    + rewrite orb_false_r in H. case_bool_decide; [done|]. simpl in H.
      destruct (Atoi ws) as [w'|] eqn:Ha; [|done]. injection H as <- <-.
      exists 0. split; [done|]. exists ws.
      destruct (Atoi_unsigned ws w' "") as [? ?]; rewrite ?str_app_nil_r; try congruence; auto.
    + case_bool_decide; [done|]. simpl in H. case_bool_decide; [done|]. simpl in H.
      destruct (Atoi ws) as [w'|] eqn:Ha; [|done].
      split_if_in H.
      apply (digits_all 0) in E as [n Hn]. exists n. split; [done|]. exists ws.
      destruct (Atoi_unsigned ws w (String "." f)) as [? ?]; try congruence.
      split_and!; auto.
    + exfalso. cbn in H. replace (2 <? _) with true in H; [done|].
      symmetry. apply Z.ltb_lt. lia.
  - intros (n & Hn & ws & Hw & Hb & Hs).
    destruct (Atoi_decimal ws w Hw Hb) as (Ha & Hne & Hnd).
    assert (∃ t, s = ws +:+ t) as Hpre.
    { destruct Hs as [[-> _]|[-> _]]; [exists ""; by rewrite str_app_nil_r|eauto]. }
    destruct (decimal_head s ws w Hw Hpre) as (H1 & H2 & H3).
    rewrite bool_decide_false, H2, H3 by done.
    destruct Hs as [[-> ->]|[Hs Hf]].
    + rewrite split_byte_none by done. simpl. rewrite bool_decide_false by done. simpl.
      by rewrite Ha.
    + rewrite Hs, split_byte_app, (split_byte_none f) by (try done; by eapply digits_no_dot).
      simpl. rewrite !bool_decide_false by done. simpl. rewrite Ha.
      by rewrite (proj2 (digits_all 0 f)) by eauto.
Qed.

Lemma all_zero_digits f n :
  parse_digits 10 0 f = Some n → (trim_byte "0" f = "" ↔ n = 0).
Proof.
  rewrite trim_byte_empty. intros Hn.
  assert (∀ a, 0 ≤ a → parse_digits 10 a f = Some (a * 10 ^ Z.of_nat (String.length f) + n))
    as Hacc.
  { intros a Ha. destruct (proj1 (digits_all a f) (proj2 (digits_all 0 f) (mk_is_Some _ _ Hn)))
      as [m Hm].
    destruct (parse_digits_acc 10 a f m ltac:(lia) Hm) as (n' & Hn' & -> & _). congruence. }
  clear Hacc. revert n Hn. induction f as [|c f IH]; intros n Hn.
  { simpl in *. simplify_eq. split; [done|constructor]. }
  cbn [parse_digits bytes_of] in *. rewrite Forall_cons.
  pose proof (digit_val_nonneg c). destruct (Z.ltb_spec (digit_val c) 10) as [Hd|]; [|done].
  destruct (parse_digits_acc 10 _ _ _ ltac:(lia) Hn) as (m & Hm & -> & Hb).
  rewrite (IH m Hm). destruct (digit_val_decimal c Hd) as [Hc Hv].
  assert (c = "0"%char ↔ digit_val c = 0) as ->; [|nia].
  split; [by intros ->|]. intros H0. rewrite <- (Ascii.ascii_nat_embedding c).
  by replace (nat_of_ascii c) with 48%nat by lia.
Qed.

Lemma half_up_whole w n k :
  half_up_units w n k = w * Scale + half_up_units 0 n k.
Proof.
  unfold half_up_units, Scale. rewrite <- Z.div_add_l by lia. f_equal. lia.
Qed.

Lemma half_up_bound n k : 0 ≤ n < 10 ^ Z.of_nat k → 0 ≤ half_up_units 0 n k ≤ Scale.
Proof.
  intros H. unfold half_up_units, Scale. split; [apply Z.div_pos; lia|].
  apply Z.lt_succ_r, Z.div_lt_upper_bound; lia.
Qed.

Lemma Parse_ok value p :
  Parse value = Ok p ↔
  ∃ w n k, denotes (trim_space value) w n k ∧
           w * 10 ^ Z.of_nat k + n ≤ 100 * 10 ^ Z.of_nat k ∧
           p = half_up_units w n k ∧ 1 ≤ p.
Proof.
  unfold Parse, denotes. split.
  - destruct (parseDecimalParts value) as [[w f]|] eqn:Hp; [|done]. intros H.
    apply parseDecimalParts_ok in Hp as (n & Hn & ws & Hw & Hb & Hs).
    pose proof (parse_digits_bound 10 _ _ ltac:(lia) Hn) as Hnb.
    rewrite (roundedThousandths_spec f n Hn) in H.
    pose proof (half_up_bound _ _ Hnb) as Hhb. pose proof (half_up_whole w n (String.length f)) as Hh.
    destruct (_ || _) eqn:E in H; [done|]. apply orb_false_iff in E as [E1 E2]. bool_to_prop.
    assert (0 ≤ w) by (destruct ws; [done|]; by eapply (parse_digits_bound 10) in Hw; lia).
    assert (w * 10 ^ Z.of_nat (String.length f) + n ≤ 100 * 10 ^ Z.of_nat (String.length f)).
    { apply andb_false_iff in E2 as [E2|E2]; bool_to_prop; [nia|].
      destruct (decide (w = 100)) as [->|]; [|nia].
      apply (all_zero_digits f n Hn) in E2 as ->. lia. }
    assert (w * Scale + half_up_units 0 n (String.length f) ≤ TotalUnits).
    { unfold TotalUnits, Scale in *. destruct (decide (w = 100)) as [->|]; [|nia].
      assert (n = 0) as -> by lia. unfold half_up_units, Scale.
      rewrite Z.div_small; lia. }
    exists w, n, (String.length f). split_and!; [by exists ws, f|done| |];
      repeat (split_if_in H; try done); unfold Scale in *; lia.
  - intros (w & n & k & (ws & f & Hw & Hb & Hn & -> & Hs) & Hle & -> & H1).
    pose proof (parse_digits_bound 10 _ _ ltac:(lia) Hn) as Hnb.
    rewrite (proj2 (parseDecimalParts_ok value w f)) by eauto 10.
    rewrite (roundedThousandths_spec f n Hn).
    pose proof (half_up_bound _ _ Hnb) as Hhb. rewrite (half_up_whole w) in *.
    rewrite (proj2 (Z.ltb_ge 100 w)) by nia. rewrite orb_false_l.
    replace ((w =? 100) && _) with false.
    2:{ symmetry. apply andb_false_iff. destruct (Z.eqb_spec w 100) as [->|]; [right|by left].
        rewrite bool_decide_true; [done|]. apply (all_zero_digits f n Hn). lia. }
    rewrite (proj2 (Z.eqb_neq _ _)) by lia.
    replace (TotalUnits <? _) with false; [done|]. symmetry. apply Z.ltb_ge.
    unfold TotalUnits, Scale in *. destruct (decide (w = 100)) as [->|]; [|nia].
    assert (n = 0) as -> by lia. unfold half_up_units, Scale. rewrite Z.div_small; lia.
Qed.

Lemma Parse_range value p : Parse value = Ok p → 1 ≤ p ≤ TotalUnits.
Proof.
  intros H. apply Parse_ok in H as (w & n & k & (ws & f & Hw & _ & Hn & -> & _) & Hle & -> & H1).
  split; [done|]. pose proof (parse_digits_bound 10 _ _ ltac:(lia) Hn) as Hnb.
  unfold half_up_units, TotalUnits, Scale. apply Z.lt_succ_r, Z.div_lt_upper_bound; lia.
Qed.

Lemma digits_not_space s :
  str_forall (λ c, digit_val c <? 10) s = true →
  str_forall (λ c, negb (is_space c)) s = true.
Proof.
  unfold str_forall. induction (bytes_of s) as [|c l IH]; [done|]. simpl. intros H.
  bool_to_prop. rewrite IH by done. rewrite andb_true_r.
  destruct (digit_val_decimal c) as [Hc _]; [done|].
  unfold is_space. apply negb_true_iff, orb_false_iff.
  split; [apply andb_false_iff; right; apply Nat.leb_gt; lia|apply Nat.eqb_neq; lia].
Qed.

Lemma parse_digits_all_decimal a s n :
  parse_digits 10 a s = Some n → str_forall (λ c, digit_val c <? 10) s = true.
Proof. intros H. apply (digits_all a). eauto. Qed.

Lemma padded_length r : 0 ≤ r < 1000 → String.length (format_padded 3 r) = 3%nat.
Proof.
  intros Hr.
  assert (Hall : forallb (λ r, Nat.eqb (String.length (format_padded 3 r)) 3) (seqZ 0 1000) = true)
    by (vm_compute; reflexivity).
  rewrite List.forallb_forall in Hall.
  apply Nat.eqb_eq, Hall, list_elem_of_In, elem_of_seqZ. lia.
Qed.

Lemma toString_denotes p :
  0 ≤ p → p < 2 ^ 63 → denotes (trim_space (toString p)) (p / Scale) (p mod Scale) 3.
Proof.
  intros H0 H1. unfold toString, Scale.
  rewrite quot_nonneg, rem_nonneg by lia.
  pose proof (Z.mod_pos_bound p 1000 ltac:(lia)) as Hm.
  assert (Hq : 0 ≤ p / 1000 < 2 ^ 63).
  { split; [apply Z.div_pos; lia|apply Z.div_lt_upper_bound; lia]. }
  pose proof (parse_uint_format 10 (p / 1000) ltac:(lia) ltac:(lia)) as Hw.
  assert (Hf : parse_digits 10 0 (format_padded 3 (p mod 1000)) = Some (p mod 1000)).
  { unfold format_padded. rewrite (proj2 (Z.ltb_ge _ _)) by lia. apply parse_digits_pad; lia. }
  assert (Hwd : parse_digits 10 0 (format_uint 10 (p / 1000)) = Some (p / 1000))
    by (rewrite <- parse_uint_digits by apply format_digits_nonempty; done).
  rewrite trim_space_id.
  2:{ rewrite !str_forall_app. cbn [str_forall bytes_of forallb is_space].
      rewrite !digits_not_space by (by eapply parse_digits_all_decimal). done. }
  exists (format_uint 10 (p / 1000)), (format_padded 3 (p mod 1000)).
  split_and!; try done; [lia|by rewrite padded_length|].
  right. split; [done|]. intros E. apply (f_equal String.length) in E.
  by rewrite padded_length in E.
Qed.

Lemma Parse_toString p : 1 ≤ p ≤ TotalUnits → Parse (toString p) = Ok p.
Proof.
  unfold TotalUnits, Scale. intros Hp. apply Parse_ok.
  exists (p / Scale), (p mod Scale), 3%nat.
  pose proof (Z.div_mod p 1000 ltac:(lia)) as Hdm.
  pose proof (Z.mod_pos_bound p 1000 ltac:(lia)) as Hm.
  split_and!; [apply toString_denotes; lia| | |lia];
    unfold half_up_units, Scale; change (10 ^ Z.of_nat 3) with 1000; [lia|].
  apply (Z.div_unique_pos _ _ _ 1000); lia.
Qed.
End Percentage.

(** ** Weighted variants *)

Module Variants.
Import Percentage.

Inductive WeightError :=
| NoVariants
| MixedWeights
| WeightOutOfRange (variant : nat)
| WeightTotal (total : Z).

Section Variants.
(** The variants of a response and the [Weight] field of one. *)
Context {V : Type} (Weight : V → Z).

Definition weightedCount (variants : list V) : nat :=
  length (filter (λ v, Weight v ≠ 0) variants).

(** [total += units], at 64 bits. *)
Definition weightTotal (variants : list V) : Z :=
  foldl (λ total v, add64 total (Weight v)) 0 variants.

Fixpoint firstOutOfRange (i : nat) (variants : list V) : option nat :=
  match variants with
  | [] => None
  | v :: vs =>
      if (Weight v <? 0) || (TotalUnits <? Weight v) then Some i
      else firstOutOfRange (S i) vs
  end.

(** [None] for the variants is the nil slice: a response without variants. *)
Definition validateRuntimeWeightTotal (variants : option (list V)) : result WeightError unit :=
  match variants with
  | None => Ok tt
  | Some [] => Err NoVariants
  | Some vs =>
      if bool_decide (weightedCount vs = 0%nat) then Ok tt
      else if negb (bool_decide (weightedCount vs = length vs)) then Err MixedWeights
      else match firstOutOfRange 1 vs with
           | Some i => Err (WeightOutOfRange i)
           | None => if weightTotal vs =? TotalUnits then Ok tt
                     else Err (WeightTotal (weightTotal vs))
           end
  end.

(** The cumulative loop over the variants, from index [i]. *)
Fixpoint cumulativeChoice (i : nat) (cumulative n : Z) (responses : list V) : option nat :=
  match responses with
  | [] => None
  | v :: vs =>
      let cumulative := add64 cumulative (Weight v) in
      if n <? cumulative then Some i else cumulativeChoice (S i) cumulative n vs
  end.

(** The index of the chosen variant; [None] is an index out of range. *)
Definition selectWeightedResponseAt (responses : list V) (n : Z) : option nat :=
  match responses with
  | [] => None
  | v :: _ =>
      if Weight v =? 0 then
        if (0 <=? n) && (n <? Z.of_nat (length responses)) then Some (Z.to_nat n) else None
      else match cumulativeChoice 0 0 n responses with
           | Some i => Some i
           | None => Some (length responses - 1)%nat
           end
  end.

(** [intn] is [rand.Intn]; the outer [None] is the nil pointer returned for
    an empty list. *)
Definition selectWeightedResponse (intn : Z → Z) (responses : list V) : option (option nat) :=
  match responses with
  | [] => None
  | v :: _ =>
      Some (selectWeightedResponseAt responses
              (intn (if Weight v =? 0 then Z.of_nat (length responses) else TotalUnits)))
  end.

(** ** Lemmas *)

Notation total vs := (zsum (map Weight vs)).

(** The part of the total before variant [i]. *)
Definition weight_before (vs : list V) (i : nat) : Z := total (take i vs).

Lemma firstOutOfRange_None i vs :
  firstOutOfRange i vs = None → Forall (λ v, 0 ≤ Weight v ≤ TotalUnits) vs.
Proof.
  revert i. induction vs as [|v vs IH]; intros i H; [constructor|].
  simpl in H. destruct (_ || _) eqn:E; [done|]. bool_to_prop.
  constructor; [lia|by eapply IH].
Qed.

Lemma weighted_all vs :
  weightedCount vs = length vs → Forall (λ v, Weight v ≠ 0) vs.
Proof.
  unfold weightedCount. induction vs as [|v vs IH]; [constructor|].
  rewrite filter_cons. destruct (decide _) as [Hv|Hv]; simpl; intros H.
  - constructor; [done|]. apply IH. lia.
  - pose proof (length_filter (λ v, Weight v ≠ 0) vs). lia.
Qed.

Lemma total_bound vs B :
  Forall (λ v, 0 ≤ Weight v ≤ B) vs → 0 ≤ total vs ≤ B * Z.of_nat (length vs).
Proof. induction 1 as [|v vs Hv _ IH]; simpl; lia. Qed.

Lemma weightTotal_exact vs acc :
  0 ≤ acc → Forall (λ v, 0 ≤ Weight v) vs → acc + total vs ≤ max_int64 →
  foldl (λ t v, add64 t (Weight v)) acc vs = acc + total vs.
Proof.
  intros Hacc Hall. revert acc Hacc. induction Hall as [|v vs Hv Hvs IH]; intros acc Hacc Hm;
    simpl in *; [lia|].
  assert (0 ≤ total vs) by (apply zsum_nonneg; by rewrite Forall_map).
  unfold add64 at 2. rewrite wrap64_id by (unfold in_int64, min_int64; lia).
  rewrite IH by lia. lia.
Qed.

(** What validation establishes, for lists that fit in memory. *)
Definition weights_valid (vs : list V) : Prop :=
  Forall (λ v, 1 ≤ Weight v ≤ TotalUnits) vs ∧ total vs = TotalUnits.

Lemma weightedCount_zero vs :
  weightedCount vs = 0%nat ↔ Forall (λ v, Weight v = 0) vs.
Proof.
  unfold weightedCount. rewrite length_zero_iff_nil.
  induction vs as [|v vs IH]; [split; [constructor|done]|].
  rewrite filter_cons, Forall_cons. case_decide; [split; [done|tauto]|].
  rewrite IH. naive_solver lia.
Qed.

Lemma weightedCount_all vs :
  Forall (λ v, Weight v ≠ 0) vs → weightedCount vs = length vs.
Proof.
  unfold weightedCount. induction 1 as [|v vs Hv _ IH]; [done|].
  rewrite filter_cons. case_decide; [simpl; lia|done].
Qed.

Lemma firstOutOfRange_ok i vs :
  Forall (λ v, 0 ≤ Weight v ≤ TotalUnits) vs → firstOutOfRange i vs = None.
Proof.
  intros H. revert i. induction H as [|v vs Hv _ IH]; intros i; [done|].
  simpl. rewrite (proj2 (Z.ltb_ge _ _)), (proj2 (Z.ltb_ge _ _)) by lia. apply IH.
Qed.

Lemma weightTotal_bounded vs :
  Z.of_nat (length vs) < 2 ^ 40 →
  Forall (λ v, 0 ≤ Weight v ≤ TotalUnits) vs → weightTotal vs = total vs.
Proof.
  intros Hl Hr. unfold weightTotal. pose proof (total_bound _ _ Hr).
  rewrite weightTotal_exact; [lia|lia| |].
  - eapply Forall_impl; [done|]. simpl. lia.
  - unfold TotalUnits, Scale, max_int64 in *. lia.
Qed.

Lemma validate_ok vs :
  Z.of_nat (length vs) < 2 ^ 40 →
  validateRuntimeWeightTotal (Some vs) = Ok tt ↔
  vs ≠ [] ∧ (Forall (λ v, Weight v = 0) vs ∨ weights_valid vs).
Proof.
  intros Hlen. rewrite <- weightedCount_zero.
  destruct (decide (vs = [])) as [->|Hne]; [naive_solver|].
  replace (validateRuntimeWeightTotal (Some vs)) with
    (if bool_decide (weightedCount vs = 0%nat) then Ok tt
     else if negb (bool_decide (weightedCount vs = length vs)) then Err MixedWeights
     else match firstOutOfRange 1 vs with
          | Some i => Err (WeightOutOfRange i)
          | None => if weightTotal vs =? TotalUnits then Ok tt
                    else Err (WeightTotal (weightTotal vs))
          end) by (by destruct vs).
  case_bool_decide as Hz; [naive_solver|].
  case_bool_decide as Ha; cbn [negb]; [|split; [done|]].
  - apply weighted_all in Ha. destruct (firstOutOfRange 1 vs) eqn:Ef.
    + split; [done|]. intros [_ [?|[Hv _]]]; [done|].
      rewrite firstOutOfRange_ok in Ef; [done|].
      eapply Forall_impl; [done|]. simpl. lia.
    + apply firstOutOfRange_None in Ef as Hr. rewrite (weightTotal_bounded vs Hlen Hr).
      destruct (Z.eqb_spec (total vs) TotalUnits) as [Ht|Ht].
      * split; [intros _|done]. split; [done|right]. split; [|done].
        clear -Ha Hr. induction Ha as [|v l Hv Hl IH]; [constructor|].
        apply Forall_cons in Hr as [??]. constructor; [lia|auto].
      * split; [done|]. intros [_ [?|[_ ?]]]; done.
  - intros [_ [?|[Hv _]]]; [done|]. destruct Ha. apply weightedCount_all.
    eapply Forall_impl; [done|]. simpl. lia.
Qed.

Lemma cumulativeChoice_spec i c n vs j :
  0 ≤ c → Forall (λ v, 0 ≤ Weight v) vs → c + total vs ≤ max_int64 → c ≤ n →
  cumulativeChoice i c n vs = Some j ↔
  ∃ k, j = (i + k)%nat ∧ (k < length vs)%nat ∧
       c + weight_before vs k ≤ n < c + weight_before vs (S k).
Proof.
  intros Hc Hall. revert i c Hc. induction Hall as [|v vs Hv Hvs IH]; intros i c Hc Hm Hn.
  { split; [done|]. intros (k & _ & Hk & _). simpl in Hk. lia. }
  assert (0 ≤ total vs) by (apply zsum_nonneg; by rewrite Forall_map).
  cbn [map zsum cumulativeChoice] in *.
  unfold add64. rewrite wrap64_id by (unfold in_int64, min_int64; lia).
  unfold weight_before. split_if.
  - split.
    + intros [= <-]. exists 0%nat. simpl. split_and!; lia.
    + intros (k & -> & Hk & Hr). destruct k as [|k]; [f_equal; lia|]. exfalso.
      simpl in Hr. assert (0 ≤ total (take k vs)); [|lia].
      apply zsum_nonneg. rewrite Forall_map. by apply Forall_take.
  - rewrite IH by lia. unfold weight_before. split.
    + intros (k & -> & Hk & Hr). exists (S k). simpl in *. split_and!; lia.
    + intros (k & -> & Hk & Hr). destruct k as [|k]; [simpl in Hr; lia|].
      exists k. simpl in *. split_and!; lia.
Qed.

Lemma weight_before_S vs i v :
  vs !! i = Some v → weight_before vs (S i) = weight_before vs i + Weight v.
Proof.
  intros Hi. unfold weight_before. rewrite (take_S_r _ _ _ Hi), map_app, zsum_app.
  simpl. lia.
Qed.

Lemma weight_before_le vs i j :
  Forall (λ v, 0 ≤ Weight v) vs → (i ≤ j)%nat →
  weight_before vs i ≤ weight_before vs j.
Proof.
  intros Hall Hij. unfold weight_before.
  replace (take i vs) with (take i (take j vs)) by (rewrite take_take; f_equal; lia).
  rewrite <- (take_drop i (take j vs)) at 2. rewrite map_app, zsum_app.
  assert (0 ≤ total (drop i (take j vs))); [|lia].
  apply zsum_nonneg. rewrite Forall_map. by apply Forall_drop, Forall_take.
Qed.

Lemma selectAt_weighted vs n i :
  vs ≠ [] → weights_valid vs → 0 ≤ n < TotalUnits →
  selectWeightedResponseAt vs n = Some i ↔
  (i < length vs)%nat ∧ weight_before vs i ≤ n < weight_before vs (S i).
Proof.
  intros Hne [Hall Ht] Hn.
  assert (Hpos : Forall (λ v, 0 ≤ Weight v) vs)
    by (eapply Forall_impl; [done|]; simpl; lia).
  assert (Hspec : ∀ j, cumulativeChoice 0 0 n vs = Some j ↔
                       (j < length vs)%nat ∧ weight_before vs j ≤ n < weight_before vs (S j)).
  { intros j. rewrite cumulativeChoice_spec; [|lia|done| |lia].
    - split; [intros (k & -> & ?); simpl; naive_solver|]. intros ?. by exists j.
    - rewrite Ht. unfold TotalUnits, Scale, max_int64. lia. }
  rewrite <- Hspec. unfold selectWeightedResponseAt.
  destruct vs as [|v vs]; [done|]. apply Forall_cons in Hall as [Hv _] .
  rewrite (proj2 (Z.eqb_neq _ _)) by lia.
  destruct (cumulativeChoice 0 0 n (v :: vs)) as [j|] eqn:E; [done|].
  (* the loop always finds a variant when the weights sum to the total *)
  exfalso. set (l := v :: vs) in *.
  assert (Hex : ∀ k, (k ≤ length l)%nat → n < weight_before l k → False).
  { induction k as [|k IH]; intros Hk Hlt; [unfold weight_before in Hlt; simpl in Hlt; lia|].
    destruct (Z_lt_dec n (weight_before l k)); [apply IH; [lia|done]|].
    assert (None = Some k) as Habs by (apply Hspec; split; lia). done. }
  apply (Hex (length l)); [done|]. unfold weight_before. rewrite firstn_all, Ht. lia.
Qed.

Lemma cumulativeChoice_lt i c n vs j :
  cumulativeChoice i c n vs = Some j → (i ≤ j < i + length vs)%nat.
Proof.
  revert i c. induction vs as [|v vs IH]; intros i c H; [done|]. cbn in H.
  split_if_in H; simpl; [lia|]. apply IH in H. lia.
Qed.

(** Counting the draws that fall in an interval. *)
Lemma count_interval a b m :
  0 ≤ a → a ≤ b → b ≤ m →
  Z.of_nat (length (filter (λ n, a ≤ n < b) (seqZ 0 m))) = b - a.
Proof.
  intros Ha Hab Hbm.
  replace m with (a + ((b - a) + (m - b))) by lia.
  rewrite !seqZ_app by lia. rewrite !filter_app, !length_app.
  rewrite (filter_none _ (seqZ 0 a)), (filter_all _ (seqZ _ (b - a))),
    (filter_none _ (seqZ _ (m - b)));
    [simpl; rewrite length_seqZ; lia|..];
    apply Forall_forall; intros x Hx%elem_of_seqZ; lia.
Qed.

(** The number of draws, out of [TotalUnits], that choose variant [i]. *)
Definition draws_choosing (vs : list V) (i : nat) : Z :=
  Z.of_nat (length (filter (λ n, selectWeightedResponseAt vs n = Some i)
                           (seqZ 0 TotalUnits))).

Lemma draws_choosing_weight vs i v :
  weights_valid vs → vs !! i = Some v → draws_choosing vs i = Weight v.
Proof.
  intros Hvalid Hi. assert (vs ≠ []) by (by intros ->).
  pose proof (lookup_lt_Some _ _ _ Hi) as Hlt.
  assert (Hpos : Forall (λ v, 0 ≤ Weight v) vs)
    by (destruct Hvalid as [Hr _]; eapply Forall_impl; [done|]; simpl; lia).
  unfold draws_choosing.
  assert (Hcount : filter (λ n, selectWeightedResponseAt vs n = Some i) (seqZ 0 TotalUnits)
    = filter (λ n, weight_before vs i ≤ n < weight_before vs (S i)) (seqZ 0 TotalUnits)).
  { assert (Hin : Forall (λ n, 0 ≤ n < TotalUnits) (seqZ 0 TotalUnits))
      by (apply Forall_forall; intros x Hx%elem_of_seqZ; lia).
    induction Hin as [|n l Hn _ IH]; [done|]. rewrite !filter_cons, IH.
    pose proof (selectAt_weighted vs n i ltac:(done) Hvalid Hn) as Hs.
    repeat case_decide; naive_solver. }
  rewrite Hcount, count_interval.
  - rewrite (weight_before_S _ _ _ Hi). lia.
  - change 0 with (weight_before vs 0). apply weight_before_le; [done|lia].
  - apply weight_before_le; [done|lia].
  - destruct Hvalid as [_ <-]. etrans; [apply (weight_before_le vs _ (length vs)); [done|lia]|].
    unfold weight_before. by rewrite firstn_all.
Qed.
End Variants.
End Variants.

(** ** Properties *)

(** [Parse] accepts exactly the decimal numerals (after trimming space)
    whose value is at most 100 and rounds half up to at least 0.001, and the
    units it returns are that value rounded half up to thousandths, computed
    exactly for any number of fraction digits. *)
Theorem Parse_correct value p :
  Percentage.Parse value = Ok p ↔
  ∃ w n k, Percentage.denotes (trim_space value) w n k ∧
           w * 10 ^ Z.of_nat k + n ≤ 100 * 10 ^ Z.of_nat k ∧
           p = Percentage.half_up_units w n k ∧ 1 ≤ p.
Proof. apply Percentage.Parse_ok. Qed.

(** Parsing the canonical three-decimal text of a percentage gives the
    percentage back, through [Parse] and through [UnmarshalJSON]. *)
Theorem Percentage_roundtrip p :
  1 ≤ p ≤ Percentage.TotalUnits →
  Percentage.Parse (Percentage.toString p) = Ok p ∧
  Percentage.UnmarshalJSON (Percentage.toString p) = Ok p.
Proof.
  intros Hp. pose proof (Percentage.Parse_toString p Hp) as HP. split; [done|].
  unfold Percentage.UnmarshalJSON. case_bool_decide as E; [|done].
  exfalso. rewrite E in HP. vm_compute in HP. done.
Qed.

Lemma Percentage_roundtrip_witness :
  Percentage.toString 33333 = "33.333" ∧ Percentage.Parse "33.333" = Ok 33333.
Proof.
  split; [vm_compute; reflexivity|].
  exact (proj1 (Percentage_roundtrip 33333 ltac:(unfold Percentage.TotalUnits, Percentage.Scale; lia))).
Defined.

(** When validation accepts weighted variants, the random choice is exact:
    out of the 100000 equally likely draws, the number that select variant [i]
    is the weight of variant [i], and every draw selects some variant. *)
Theorem weighted_choice_exact {V} (Weight : V → Z) (vs : list V) :
  Z.of_nat (length vs) < 2 ^ 40 →
  Variants.validateRuntimeWeightTotal Weight (Some vs) = Ok tt →
  Variants.weightedCount Weight vs ≠ 0%nat →
  (∀ i v, vs !! i = Some v → Variants.draws_choosing Weight vs i = Weight v) ∧
  (∀ n, 0 ≤ n < Percentage.TotalUnits →
        ∃ i, Variants.selectWeightedResponseAt Weight vs n = Some i ∧ (i < length vs)%nat).
Proof.
  intros Hlen Hok Hw. apply Variants.validate_ok in Hok as [Hne [Hz|Hvalid]]; [|split|done].
  { by apply Variants.weightedCount_zero in Hz. }
  - intros i v. by apply Variants.draws_choosing_weight.
  - intros n Hn. unfold Variants.selectWeightedResponseAt.
    destruct vs as [|v vs]; [done|].
    destruct Hvalid as [[Hv _]%Forall_cons _].
    rewrite (proj2 (Z.eqb_neq _ _)) by lia.
    destruct (Variants.cumulativeChoice _ _ _ _ _) as [j|] eqn:E.
    + exists j. split; [done|]. apply Variants.cumulativeChoice_lt in E. lia.
    + eexists. split; [done|]. simpl. lia.
Qed.

Lemma weighted_choice_exact_witness :
  Variants.draws_choosing id [70000; 25000; 5000] 1 = 25000.
Proof.
  apply (weighted_choice_exact id [70000; 25000; 5000]);
    [simpl; lia|vm_compute; reflexivity|vm_compute; lia|reflexivity].
Defined.

(** Without weights the choice is uniform: draw [n] selects variant [n]. *)
Theorem unweighted_choice_uniform {V} (Weight : V → Z) (vs : list V) n :
  Forall (λ v, Weight v = 0) vs → (n < length vs)%nat →
  Variants.validateRuntimeWeightTotal Weight (Some vs) = Ok tt ∧
  Variants.selectWeightedResponseAt Weight vs (Z.of_nat n) = Some n.
Proof.
  intros Hz Hn. destruct vs as [|v vs]; [simpl in Hn; lia|]. split.
  - cbn [Variants.validateRuntimeWeightTotal].
    rewrite bool_decide_true; [done|]. by apply (Variants.weightedCount_zero Weight).
  - unfold Variants.selectWeightedResponseAt. apply Forall_cons in Hz as [-> _].
    rewrite Z.eqb_refl, (proj2 (Z.leb_le _ _)), (proj2 (Z.ltb_lt _ _)) by lia.
    simpl. by rewrite Nat2Z.id.
Qed.

Lemma unweighted_choice_uniform_witness :
  Variants.selectWeightedResponseAt id [0; 0; 0] 2 = Some 2%nat.
Proof.
  apply (unweighted_choice_uniform id [0; 0; 0] 2); [repeat constructor|simpl; lia].
Defined.
