(* ===== verification/StreamPlan.v ===== *)
(** * Stream delivery plans: [pkg/icap/stream_plan.go]

    A plan fixes, before any I/O, how many chunks a streamed body has, how long
    each chunk is and when each chunk starts. Sizes are [int64], durations are
    [time.Duration] in nanoseconds; the arithmetic is at 64 bits. *)
From S2P Require Import Prelude GoInt.

Local Open Scope Z_scope.

Definition StreamFinishComplete : string := "complete".
Definition StreamFinishFIN : string := "fin".
Definition StreamFinishTerm : string := "term".
Definition StreamFinishWeighted : string := "weighted".

Definition automaticStreamCadence : Z := 100 * 1000000.
Definition defaultStreamChunkSize : Z := 16 * 1024.
Definition maxStreamChunks : Z := 1000.

Record BodyStreamPlanOptions := {
  FinishMode : string;
  SourceSize : Z;
  SelectedBytes : Z;
  TargetChunkSize : Z;
  Duration : Z;
  Every : Z;
  TargetChunks : Z;
  SelectedBytesSet : bool
}.

Record BodyStreamPlan := {
  p_finishMode : string;
  p_sourceSize : Z;
  p_bodyBytes : Z;
  p_targetChunkSize : Z;
  p_duration : Z;
  p_every : Z;
  p_chunkCount : Z;
  p_targetChunks : Z
}.

Inductive PlanError :=
| SourceSizeUnknown
| NegativeTiming
| NegativeTarget
| ConflictingTargets
| UnsupportedFinishMode (mode : string)
| SelectedBytesRange
| CompleteSelectsAll
| CadenceRange.

(** ** Planning *)

Definition ceilPositive (value divisor : Z) : Z :=
  let result := div64 value divisor in
  if rem64 value divisor =? 0 then result else add64 result 1.

Fixpoint minInt64 (value : Z) (others : list Z) : Z :=
  match others with
  | [] => value
  | other :: others => minInt64 (if other <? value then other else value) others
  end.

Definition maxInt64 (left right : Z) : Z := if right <? left then left else right.

Definition validSelectedFinishMode (mode : string) : bool :=
  bool_decide (mode = StreamFinishComplete) || bool_decide (mode = StreamFinishFIN)
  || bool_decide (mode = StreamFinishTerm).

Definition validateSelectedBodyBytes (o : BodyStreamPlanOptions) : result PlanError unit :=
  if negb (validSelectedFinishMode (FinishMode o)) then Err (UnsupportedFinishMode (FinishMode o))
  else if SelectedBytesSet o && ((SelectedBytes o <? 0) || (SourceSize o <? SelectedBytes o))
  then Err SelectedBytesRange
  else if bool_decide (FinishMode o = StreamFinishComplete) && SelectedBytesSet o
          && negb (SelectedBytes o =? SourceSize o)
  then Err CompleteSelectsAll
  else Ok tt.

Definition validateBodyStreamPlanOptions (o : BodyStreamPlanOptions) : result PlanError unit :=
  if SourceSize o <? 0 then Err SourceSizeUnknown
  else if (Duration o <? 0) || (Every o <? 0) then Err NegativeTiming
  else if (TargetChunkSize o <? 0) || (TargetChunks o <? 0) then Err NegativeTarget
  else if (0 <? TargetChunkSize o) && (0 <? TargetChunks o) then Err ConflictingTargets
  else validateSelectedBodyBytes o.

Definition selectedBodyBytes (o : BodyStreamPlanOptions) : Z :=
  if SelectedBytesSet o then SelectedBytes o else SourceSize o.

Definition preferredChunkCount (o : BodyStreamPlanOptions) (bodyBytes : Z) : Z :=
  if 0 <? TargetChunkSize o then ceilPositive bodyBytes (TargetChunkSize o)
  else if 0 <? TargetChunks o then TargetChunks o
  else if 0 <? Duration o then add64 (ceilPositive (Duration o) automaticStreamCadence) 1
  else ceilPositive bodyBytes defaultStreamChunkSize.

Definition cadenceSlots (duration every : Z) : Z :=
  let intervals := div64 duration every in
  if maxStreamChunks - 1 <=? intervals then maxStreamChunks else add64 intervals 1.

Definition plannedChunkCount (o : BodyStreamPlanOptions) (bodyBytes : Z) : Z :=
  if bodyBytes =? 0 then 0
  else
    let preferred := preferredChunkCount o bodyBytes in
    let preferred := minInt64 preferred [bodyBytes; maxStreamChunks] in
    let preferred :=
      if (0 <? Duration o) && (0 <? Every o)
      then minInt64 preferred [cadenceSlots (Duration o) (Every o)] else preferred in
    maxInt64 preferred 1.

Definition validateCadenceRange (every chunks : Z) : result PlanError unit :=
  if (every =? 0) || (chunks <=? 1) then Ok tt
  else if div64 max_int64 (sub64 chunks 1) <? every then Err CadenceRange
  else Ok tt.

Definition newBodyStreamPlan (o : BodyStreamPlanOptions) (bodyBytes chunks : Z) : BodyStreamPlan :=
  {| p_finishMode := FinishMode o;
     p_sourceSize := SourceSize o;
     p_bodyBytes := bodyBytes;
     p_targetChunkSize := TargetChunkSize o;
     p_duration := Duration o;
     p_every := Every o;
     p_chunkCount := chunks;
     p_targetChunks := TargetChunks o |}.

Definition with_FinishMode (mode : string) (o : BodyStreamPlanOptions) : BodyStreamPlanOptions :=
  {| FinishMode := mode; SourceSize := SourceSize o; SelectedBytes := SelectedBytes o;
     TargetChunkSize := TargetChunkSize o; Duration := Duration o; Every := Every o;
     TargetChunks := TargetChunks o; SelectedBytesSet := SelectedBytesSet o |}.

Definition PlanBodyStream (options : BodyStreamPlanOptions) : result PlanError BodyStreamPlan :=
  let options := if bool_decide (FinishMode options = "")
                 then with_FinishMode StreamFinishComplete options else options in
  match validateBodyStreamPlanOptions options with
  | Err e => Err e
  | Ok _ =>
      let bodyBytes := selectedBodyBytes options in
      let chunkCount := plannedChunkCount options bodyBytes in
      match validateCadenceRange (Every options) chunkCount with
      | Err e => Err e
      | Ok _ => Ok (newBodyStreamPlan options bodyBytes chunkCount)
      end
  end.

(** ** Reading a plan *)

Definition EffectiveChunkSize (p : BodyStreamPlan) : Z :=
  if p_chunkCount p =? 0 then 0 else ceilPositive (p_bodyBytes p) (p_chunkCount p).

Definition in_plan (p : BodyStreamPlan) (index : Z) : bool :=
  negb ((index <? 0) || (p_chunkCount p <=? index)).

Definition ChunkSize (p : BodyStreamPlan) (index : Z) : option Z :=
  if in_plan p index then
    let base := div64 (p_bodyBytes p) (p_chunkCount p) in
    Some (if index <? rem64 (p_bodyBytes p) (p_chunkCount p) then add64 base 1 else base)
  else None.

Definition durationChunkOffset (duration chunks index : Z) : Z :=
  if chunks =? 1 then duration
  else
    let intervals := sub64 chunks 1 in
    let whole := div64 duration intervals in
    let remainder := rem64 duration intervals in
    add64 (mul64 whole index) (div64 (mul64 remainder index) intervals).

Definition ChunkOffset (p : BodyStreamPlan) (index : Z) : option Z :=
  if in_plan p index then
    Some (if 0 <? p_duration p
          then durationChunkOffset (p_duration p) (p_chunkCount p) index
          else mul64 index (p_every p))
  else None.

(** The sizes of the chunks of a plan, in order of delivery. *)
Definition chunk_sizes (p : BodyStreamPlan) : list Z :=
  omap (λ i, ChunkSize p (Z.of_nat i)) (seq 0 (Z.to_nat (p_chunkCount p))).

(** Options whose fields are Go values. *)
Definition options_int64 (o : BodyStreamPlanOptions) : Prop :=
  in_int64 (SourceSize o) ∧ in_int64 (SelectedBytes o) ∧ in_int64 (TargetChunkSize o) ∧
  in_int64 (Duration o) ∧ in_int64 (Every o) ∧ in_int64 (TargetChunks o).

(** ** Arithmetic lemmas *)

Lemma ceilPositive_spec v d :
  0 ≤ v ≤ max_int64 → 0 < d →
  ceilPositive v d = (v + d - 1) / d.
Proof.
  intros Hv Hd. unfold ceilPositive. rewrite div64_nonneg, rem64_nonneg by lia.
  pose proof (Z.div_mod v d ltac:(lia)). pose proof (Z.mod_pos_bound v d ltac:(lia)).
  destruct (Z.eqb_spec (v mod d) 0) as [E|E].
  - apply (Z.div_unique_pos _ _ _ (d - 1)); lia.
  - assert (v / d < v) by (apply Z.div_lt; [|destruct (decide (d = 1)) as [->|]; [|lia]];
      [destruct (decide (v = 0)) as [->|]; [rewrite Z.mod_0_l in E; lia|lia]|
       rewrite Z.mod_1_r in E; lia]).
    unfold add64. rewrite wrap64_id.
    2:{ unfold in_int64, min_int64. pose proof (Z.div_pos v d). lia. }
    apply (Z.div_unique_pos _ _ _ (v mod d - 1)); lia.
Qed.

Lemma ceilPositive_bounds v d :
  0 < v ≤ max_int64 → 0 < d → 1 ≤ ceilPositive v d ≤ v.
Proof.
  intros Hv Hd. rewrite ceilPositive_spec by lia. split.
  - apply Z.div_le_lower_bound; lia.
  - apply Z.lt_succ_r, Z.div_lt_upper_bound; nia.
Qed.

Lemma minInt64_1 v a : minInt64 v [a] = Z.min v a.
Proof. simpl. split_if; lia. Qed.

Lemma minInt64_2 v a b : minInt64 v [a; b] = Z.min v (Z.min a b).
Proof. simpl. destruct (a <? v) eqn:E1; split_if; bool_to_prop; lia. Qed.

Lemma maxInt64_spec a b : maxInt64 a b = Z.max a b.
Proof. unfold maxInt64. destruct (Z.ltb_spec b a); lia. Qed.

Lemma cadenceSlots_spec duration every :
  0 ≤ duration ≤ max_int64 → 0 < every →
  cadenceSlots duration every = Z.min maxStreamChunks (duration / every + 1).
Proof.
  intros Hd He. unfold cadenceSlots, maxStreamChunks. rewrite div64_nonneg by lia.
  pose proof (Z.div_pos duration every).
  destruct (Z.leb_spec (1000 - 1) (duration / every)); [lia|].
  unfold add64. rewrite wrap64_id; [lia|].
  unfold in_int64, min_int64, max_int64. lia.
Qed.

(** ** The invariant of a plan *)

Record plan_wf (p : BodyStreamPlan) : Prop := {
  wf_mode : validSelectedFinishMode (p_finishMode p) = true;
  wf_bytes : 0 ≤ p_bodyBytes p ≤ p_sourceSize p ∧ p_sourceSize p ≤ max_int64;
  wf_timing : 0 ≤ p_duration p ≤ max_int64 ∧ 0 ≤ p_every p ≤ max_int64;
  wf_empty : p_bodyBytes p = 0 → p_chunkCount p = 0;
  wf_count : 0 < p_bodyBytes p → 1 ≤ p_chunkCount p ≤ Z.min (p_bodyBytes p) maxStreamChunks;
  wf_cadence : 1 < p_chunkCount p → p_every p * (p_chunkCount p - 1) ≤ max_int64;
  wf_fits : 1 < p_chunkCount p → 0 < p_duration p →
            p_every p * (p_chunkCount p - 1) ≤ p_duration p
}.

Lemma in_int64_upper z : in_int64 z → z ≤ max_int64.
Proof. unfold in_int64. lia. Qed.

Lemma validate_options_ok o :
  validateBodyStreamPlanOptions o = Ok tt →
  0 ≤ SourceSize o ∧ 0 ≤ Duration o ∧ 0 ≤ Every o ∧ 0 ≤ TargetChunkSize o ∧
  0 ≤ TargetChunks o ∧ (TargetChunkSize o = 0 ∨ TargetChunks o = 0) ∧
  validSelectedFinishMode (FinishMode o) = true ∧
  0 ≤ selectedBodyBytes o ≤ SourceSize o ∧
  (FinishMode o = StreamFinishComplete → selectedBodyBytes o = SourceSize o).
Proof.
  unfold validateBodyStreamPlanOptions, validateSelectedBodyBytes, selectedBodyBytes. intros H.
  split_if_in H. destruct (_ || _) eqn:E1 in H; [done|]. destruct (_ || _) eqn:E2 in H; [done|].
  destruct (_ && _) eqn:E3 in H; [done|]. split_if_in H.
  destruct (SelectedBytesSet o && _) eqn:E4 in H; [done|].
  destruct (_ && _ && _) eqn:E5 in H; [done|]. bool_to_prop.
  assert (TargetChunkSize o = 0 ∨ TargetChunks o = 0)
    by (apply andb_false_iff in E3 as [?|?]; bool_to_prop; lia).
  destruct (SelectedBytesSet o); simpl in *; bool_to_prop; split_and!; try done; try lia.
  intros Hc. rewrite bool_decide_true in E5 by done. simpl in E5. by bool_to_prop.
Qed.

Lemma validate_options_complete o :
  0 ≤ SourceSize o → 0 ≤ Duration o → 0 ≤ Every o → 0 ≤ TargetChunkSize o →
  0 ≤ TargetChunks o → (TargetChunkSize o = 0 ∨ TargetChunks o = 0) →
  validSelectedFinishMode (FinishMode o) = true →
  0 ≤ selectedBodyBytes o ≤ SourceSize o →
  (FinishMode o = StreamFinishComplete → selectedBodyBytes o = SourceSize o) →
  validateBodyStreamPlanOptions o = Ok tt.
Proof.
  intros. unfold validateBodyStreamPlanOptions, validateSelectedBodyBytes, selectedBodyBytes in *.
  rewrite !(proj2 (Z.ltb_ge _ _)) by lia. cbn [orb].
  replace ((0 <? _) && _) with false.
  2:{ symmetry. apply andb_false_iff. rewrite !Z.ltb_ge. lia. }
  rewrite H5. cbn [negb]. destruct (SelectedBytesSet o); cbn [andb].
  - rewrite !(proj2 (Z.ltb_ge _ _)) by lia. cbn [orb]. case_bool_decide; [|done].
    rewrite (proj2 (Z.eqb_eq _ _)) by auto. done.
  - by rewrite andb_false_r.
Qed.

Lemma preferred_positive o b :
  options_int64 o → 0 < b ≤ max_int64 → 0 ≤ Duration o → 1 ≤ preferredChunkCount o b.
Proof.
  intros (_ & _ & Ht & Hd & _ & Hn) Hb Hd0. unfold preferredChunkCount.
  repeat split_if; try lia.
  - apply ceilPositive_bounds; lia.
  - apply in_int64_upper in Hd.
    assert (1 ≤ ceilPositive (Duration o) automaticStreamCadence ≤ 100000000000).
    { split; [apply ceilPositive_bounds; unfold automaticStreamCadence; lia|].
      rewrite ceilPositive_spec by (unfold automaticStreamCadence; lia).
      apply Z.lt_succ_r, Z.div_lt_upper_bound; unfold automaticStreamCadence, max_int64 in *; lia. }
    unfold add64. rewrite wrap64_id; [lia|]. unfold in_int64, min_int64, max_int64. lia.
  - apply ceilPositive_bounds; unfold defaultStreamChunkSize; lia.
Qed.

Lemma plannedChunkCount_spec o b :
  options_int64 o → 0 ≤ b ≤ max_int64 → 0 ≤ Duration o → 0 ≤ Every o →
  (b = 0 → plannedChunkCount o b = 0) ∧
  (0 < b → 1 ≤ plannedChunkCount o b ≤ Z.min b maxStreamChunks) ∧
  (0 < Duration o → 0 < Every o →
   plannedChunkCount o b ≤ Duration o / Every o + 1).
Proof.
  intros Ho Hb Hd He. unfold plannedChunkCount.
  destruct (Z.eqb_spec b 0) as [->|Hnz].
  { split_and!; [done|lia|]. intros. pose proof (Z.div_pos (Duration o) (Every o)). lia. }
  pose proof (preferred_positive o b Ho ltac:(lia) Hd) as Hp.
  cbv zeta. rewrite minInt64_2, maxInt64_spec. split_and!; [lia| |].
  - intros _. destruct (_ && _); [rewrite minInt64_1|]; unfold maxStreamChunks; lia.
  - intros Hd' He'. rewrite (proj2 (Z.ltb_lt _ _) Hd'), (proj2 (Z.ltb_lt _ _) He').
    cbn [andb]. destruct Ho as (_ & _ & _ & Hdi & _). apply in_int64_upper in Hdi.
    rewrite minInt64_1, cadenceSlots_spec by lia.
    pose proof (Z.div_pos (Duration o) (Every o)). lia.
Qed.

Lemma validateCadenceRange_ok every chunks :
  0 ≤ every → chunks ≤ maxStreamChunks →
  validateCadenceRange every chunks = Ok tt ↔ (1 < chunks → every * (chunks - 1) ≤ max_int64).
Proof.
  unfold maxStreamChunks. intros He Hc. unfold validateCadenceRange.
  destruct (_ || _) eqn:E.
  - split; [|done]. intros _ Hc1. apply orb_true_iff in E as [E|E]; bool_to_prop; [|lia].
    subst. unfold max_int64. lia.
  - bool_to_prop. unfold sub64.
    rewrite wrap64_id by (unfold in_int64, min_int64, max_int64; lia).
    rewrite div64_nonneg by (unfold max_int64; lia).
    pose proof (Z.mul_div_le max_int64 (chunks - 1) ltac:(lia)).
    split_if; (split; [try done; intros _ _|intros Hle]); try done.
    + exfalso. specialize (Hle ltac:(lia)).
      assert (every ≤ max_int64 / (chunks - 1)); [apply Z.div_le_lower_bound; lia|lia].
    + nia.
Qed.

(** The options [PlanBodyStream] really plans: an empty mode is "complete". *)
Definition normalized_options (o : BodyStreamPlanOptions) : BodyStreamPlanOptions :=
  if bool_decide (FinishMode o = "") then with_FinishMode StreamFinishComplete o else o.

Lemma normalized_int64 o : options_int64 o → options_int64 (normalized_options o).
Proof. unfold normalized_options. by case_bool_decide. Qed.

Lemma PlanBodyStream_ok o p :
  PlanBodyStream o = Ok p ↔
  let o' := normalized_options o in
  let b := selectedBodyBytes o' in
  validateBodyStreamPlanOptions o' = Ok tt ∧
  validateCadenceRange (Every o') (plannedChunkCount o' b) = Ok tt ∧
  p = newBodyStreamPlan o' b (plannedChunkCount o' b).
Proof.
  cbv zeta. unfold PlanBodyStream. fold (normalized_options o). cbv zeta.
  destruct (validateBodyStreamPlanOptions _) as [[]|]; [|naive_solver].
  destruct (validateCadenceRange _ _) as [[]|]; naive_solver.
Qed.

Lemma PlanBodyStream_wf o p :
  options_int64 o → PlanBodyStream o = Ok p → plan_wf p.
Proof.
  intros Ho%normalized_int64 H. apply PlanBodyStream_ok in H as (Hv & Hc & ->).
  apply validate_options_ok in Hv as (H1 & H2 & H3 & _ & _ & _ & Hm & Hb & _).
  set (o' := normalized_options o) in *. set (b := selectedBodyBytes o') in *.
  pose proof Ho as (Hs%in_int64_upper & _ & _ & Hd%in_int64_upper & He%in_int64_upper & _).
  destruct (plannedChunkCount_spec o' b) as (Hz & Hn & Hf); [done|lia|done|done|].
  assert (plannedChunkCount o' b ≤ maxStreamChunks).
  { destruct (decide (b = 0)) as [Hb0|]; [rewrite (Hz Hb0); unfold maxStreamChunks; lia|].
    specialize (Hn ltac:(lia)). lia. }
  rewrite validateCadenceRange_ok in Hc by done.
  split; simpl; try done.
  - intros Hc1 Hd0. destruct (decide (Every o' = 0)) as [->|]; [lia|].
    specialize (Hf Hd0 ltac:(lia)).
    pose proof (Z.mul_div_le (Duration o') (Every o') ltac:(lia)). nia.
Qed.

(** ** Chunk sizes *)

Lemma ChunkSize_in p i :
  plan_wf p → 0 ≤ i < p_chunkCount p →
  ChunkSize p i =
    Some (p_bodyBytes p / p_chunkCount p +
          (if i <? p_bodyBytes p mod p_chunkCount p then 1 else 0)).
Proof.
  intros Hwf Hi. unfold ChunkSize, in_plan.
  rewrite (proj2 (Z.ltb_ge _ _)), (proj2 (Z.leb_gt _ _)) by lia. cbn [orb negb].
  destruct Hwf as [_ [Hb Hm] _ _ _ _ _].
  rewrite div64_nonneg, rem64_nonneg by lia. f_equal.
  pose proof (Z.mod_pos_bound (p_bodyBytes p) (p_chunkCount p) ltac:(lia)).
  pose proof (Z.div_mod (p_bodyBytes p) (p_chunkCount p) ltac:(lia)).
  pose proof (Z.div_pos (p_bodyBytes p) (p_chunkCount p) ltac:(lia) ltac:(lia)).
  split_if; [|lia]. unfold add64. rewrite wrap64_id; [done|].
  unfold in_int64, min_int64. nia.
Qed.

Lemma balanced_sum b r n :
  0 ≤ r →
  zsum (map (λ i, b + (if Z.of_nat i <? r then 1 else 0)) (seq 0 n))
  = Z.of_nat n * b + Z.min (Z.of_nat n) r.
Proof.
  intros Hr. induction n as [|n IH]; [simpl; lia|].
  rewrite seq_S, map_app, zsum_app, IH. simpl map. cbn [zsum]. split_if; lia.
Qed.

Lemma chunk_sizes_eq p :
  plan_wf p →
  chunk_sizes p = map (λ i, p_bodyBytes p / p_chunkCount p +
                            (if Z.of_nat i <? p_bodyBytes p mod p_chunkCount p then 1 else 0))
                      (seq 0 (Z.to_nat (p_chunkCount p))).
Proof.
  intros Hwf. unfold chunk_sizes.
  assert (Hin : Forall (λ i, 0 ≤ Z.of_nat i < p_chunkCount p) (seq 0 (Z.to_nat (p_chunkCount p))))
    by (apply Forall_forall; intros i Hi%elem_of_seq; lia).
  induction Hin as [|i l Hi _ IH]; [done|]. cbn [omap list_omap map].
  rewrite (ChunkSize_in p _ Hwf Hi). by rewrite <- IH.
Qed.

Lemma chunk_sizes_sum p : plan_wf p → zsum (chunk_sizes p) = p_bodyBytes p.
Proof.
  intros Hwf. rewrite (chunk_sizes_eq p Hwf).
  destruct Hwf as [_ [Hb _] _ Hz Hn _ _].
  destruct (decide (p_bodyBytes p = 0)) as [E|]; [rewrite (Hz E), E; done|].
  specialize (Hn ltac:(lia)).
  pose proof (Z.mod_pos_bound (p_bodyBytes p) (p_chunkCount p) ltac:(lia)).
  pose proof (Z.div_mod (p_bodyBytes p) (p_chunkCount p) ltac:(lia)).
  rewrite balanced_sum, Z2Nat.id by lia. lia.
Qed.

Lemma EffectiveChunkSize_spec p :
  plan_wf p → 0 < p_bodyBytes p →
  EffectiveChunkSize p =
    p_bodyBytes p / p_chunkCount p + (if p_bodyBytes p mod p_chunkCount p =? 0 then 0 else 1).
Proof.
  intros Hwf Hb. destruct Hwf as [_ [? ?] _ _ Hn _ _]. specialize (Hn Hb).
  unfold EffectiveChunkSize. rewrite (proj2 (Z.eqb_neq _ _)) by lia.
  rewrite ceilPositive_spec by lia.
  pose proof (Z.mod_pos_bound (p_bodyBytes p) (p_chunkCount p) ltac:(lia)).
  pose proof (Z.div_mod (p_bodyBytes p) (p_chunkCount p) ltac:(lia)).
  split_if; symmetry.
  - apply (Z.div_unique_pos _ _ _ (p_chunkCount p - 1)); lia.
  - apply (Z.div_unique_pos _ _ _ (p_bodyBytes p mod p_chunkCount p - 1)); lia.
Qed.

(** ** Chunk offsets *)

Lemma durationChunkOffset_spec d n i :
  0 ≤ d ≤ max_int64 → 1 < n ≤ maxStreamChunks → 0 ≤ i < n →
  durationChunkOffset d n i = d * i / (n - 1).
Proof.
  unfold maxStreamChunks. intros Hd Hn Hi. unfold durationChunkOffset.
  rewrite (proj2 (Z.eqb_neq _ _)) by lia. cbv zeta. unfold sub64.
  rewrite wrap64_id by (unfold in_int64, min_int64, max_int64; lia).
  rewrite (div64_nonneg d), rem64_nonneg by lia.
  set (w := d / (n - 1)). set (r := d mod (n - 1)).
  pose proof (Z.mod_pos_bound d (n - 1) ltac:(lia)) as Hr. fold r in Hr.
  pose proof (Z.div_mod d (n - 1) ltac:(lia)) as Hdm. fold w r in Hdm.
  assert (Hw : 0 ≤ w) by (apply Z.div_pos; lia).
  assert (Hri : 0 ≤ r * i ≤ 999 * 999) by nia.
  assert (Hq : 0 ≤ r * i / (n - 1) ≤ r).
  { split; [apply Z.div_pos; lia|]. apply Z.div_le_upper_bound; nia. }
  unfold add64, mul64. rewrite (wrap64_id (r * i)), (wrap64_id (w * i)).
  2,3: unfold in_int64, min_int64, max_int64 in *; nia.
  rewrite div64_nonneg by (unfold max_int64; lia).
  rewrite wrap64_id.
  2:{ unfold in_int64, min_int64. split; [nia|]. transitivity d; [nia|lia]. }
  rewrite <- Z.div_add_l by lia. f_equal. lia.
Qed.

Lemma ChunkOffset_in p i :
  plan_wf p → 0 ≤ i < p_chunkCount p →
  ChunkOffset p i =
    Some (if 0 <? p_duration p
          then if p_chunkCount p =? 1 then p_duration p
               else p_duration p * i / (p_chunkCount p - 1)
          else i * p_every p).
Proof.
  intros Hwf Hi. unfold ChunkOffset, in_plan.
  rewrite (proj2 (Z.ltb_ge i _)), (proj2 (Z.leb_gt _ _)) by lia. cbn [orb negb]. f_equal.
  destruct Hwf as [_ [Hb Hm] [Hd He] Hz Hn Hc _].
  assert (0 < p_bodyBytes p) by (destruct (decide (p_bodyBytes p = 0)) as [E|]; [apply Hz in E|]; lia).
  specialize (Hn ltac:(lia)). split_if.
  - destruct (Z.eqb_spec (p_chunkCount p) 1) as [E1|]; [by rewrite E1|].
    apply durationChunkOffset_spec; lia.
  - unfold mul64. apply wrap64_id. unfold in_int64, min_int64, max_int64 in *.
    destruct (decide (p_chunkCount p = 1)); [assert (i = 0) as -> by lia; lia|].
    specialize (Hc ltac:(lia)). nia.
Qed.

Lemma floor_spacing d m i : 0 < m → d / m ≤ d * (i + 1) / m - d * i / m.
Proof.
  intros Hm. replace (d * (i + 1)) with (d * i + d) by lia.
  pose proof (Z.div_mod d m ltac:(lia)). pose proof (Z.mod_pos_bound d m Hm).
  pose proof (Z.div_mod (d * i) m ltac:(lia)). pose proof (Z.mod_pos_bound (d * i) m Hm).
  assert (d * i / m + d / m ≤ (d * i + d) / m); [|lia].
  apply Z.div_le_lower_bound; lia.
Qed.

Lemma ChunkOffset_spacing p i :
  plan_wf p → 0 ≤ i → i + 1 < p_chunkCount p →
  ∃ a b, ChunkOffset p i = Some a ∧ ChunkOffset p (i + 1) = Some b ∧
         0 ≤ a ∧ p_every p ≤ b - a ∧ (0 < p_duration p → b ≤ p_duration p).
Proof.
  intros Hwf Hi Hi1. rewrite !ChunkOffset_in by (done || lia).
  do 2 eexists. split_and!; [done|done|..];
    destruct Hwf as [_ _ [Hd He] _ _ _ Hf]; specialize (Hf ltac:(lia));
    rewrite ?(proj2 (Z.eqb_neq (p_chunkCount p) 1)) by lia.
  - split_if; [apply Z.div_pos; nia|nia].
  - split_if; [|lia].
    pose proof (floor_spacing (p_duration p) (p_chunkCount p - 1) i ltac:(lia)).
    assert (p_every p ≤ p_duration p / (p_chunkCount p - 1)); [|lia].
    apply Z.div_le_lower_bound; lia.
  - intros Hpos. rewrite (proj2 (Z.ltb_lt _ _)) by done.
    apply Z.div_le_upper_bound; nia.
Qed.

(** ** Properties *)

(** A plan that [PlanBodyStream] accepts partitions the selected bytes into
    its chunks: [ChunkCount] chunks, none empty, at most 1000 of them, whose
    sizes add up to exactly the selected bytes, are balanced (they differ by at
    most one byte) and never exceed [EffectiveChunkSize]; there is no chunk
    exactly when nothing was selected. All arithmetic stays in 64 bits. *)
Theorem PlanBodyStream_partition o p :
  options_int64 o → PlanBodyStream o = Ok p →
  zsum (chunk_sizes p) = p_bodyBytes p ∧
  p_bodyBytes p = selectedBodyBytes (normalized_options o) ∧
  Z.of_nat (length (chunk_sizes p)) = p_chunkCount p ∧
  p_chunkCount p ≤ maxStreamChunks ∧
  (p_chunkCount p = 0 ↔ p_bodyBytes p = 0) ∧
  Forall (λ size, 1 ≤ size ∧ EffectiveChunkSize p - 1 ≤ size ≤ EffectiveChunkSize p)
         (chunk_sizes p).
Proof.
  intros Ho H. pose proof (PlanBodyStream_wf o p Ho H) as Hwf.
  split; [by apply chunk_sizes_sum|].
  split; [by apply PlanBodyStream_ok in H as (_ & _ & ->)|].
  pose proof Hwf as [_ [Hb _] _ Hz Hn _ _].
  rewrite (chunk_sizes_eq p Hwf), length_map, length_seq.
  destruct (decide (p_bodyBytes p = 0)) as [E|Hnz].
  { rewrite (Hz E). unfold maxStreamChunks. split_and!; [lia|lia|lia|constructor]. }
  specialize (Hn ltac:(lia)). split_and!; [lia|lia|lia|].
  rewrite (EffectiveChunkSize_spec p Hwf) by lia.
  apply Forall_map, Forall_forall. intros i _.
  pose proof (Z.mod_pos_bound (p_bodyBytes p) (p_chunkCount p) ltac:(lia)).
  assert (1 ≤ p_bodyBytes p / p_chunkCount p) by (apply Z.div_le_lower_bound; lia).
  split_if; split_if; lia.
Qed.

Definition example_options : BodyStreamPlanOptions :=
  {| FinishMode := "fin"; SourceSize := 100000; SelectedBytes := 40001; TargetChunkSize := 0;
     Duration := 1000000000; Every := 300000000; TargetChunks := 7; SelectedBytesSet := true |}.

Definition example_plan : BodyStreamPlan :=
  {| p_finishMode := "fin"; p_sourceSize := 100000; p_bodyBytes := 40001;
     p_targetChunkSize := 0; p_duration := 1000000000; p_every := 300000000;
     p_chunkCount := 4; p_targetChunks := 7 |}.

Lemma PlanBodyStream_partition_witness :
  PlanBodyStream example_options = Ok example_plan ∧ zsum (chunk_sizes example_plan) = 40001.
Proof.
  split; [vm_compute; reflexivity|].
  refine (proj1 (PlanBodyStream_partition example_options example_plan _ _));
    [vm_compute; repeat split; discriminate|vm_compute; reflexivity].
Defined.

(** The schedule of a plan: chunk starts are exact (no overflow), ordered
    and at least [Every] apart; with a duration they stay within it, the first
    chunk of several starts at once and the last chunk starts at the duration. *)
Theorem ChunkOffset_schedule o p :
  options_int64 o → PlanBodyStream o = Ok p →
  (∀ i, 0 ≤ i → i + 1 < p_chunkCount p →
        ∃ a b, ChunkOffset p i = Some a ∧ ChunkOffset p (i + 1) = Some b ∧
               0 ≤ a ∧ p_every p ≤ b - a ∧ (0 < p_duration p → b ≤ p_duration p)) ∧
  (1 < p_chunkCount p → ChunkOffset p 0 = Some 0) ∧
  (0 < p_chunkCount p → 0 < p_duration p →
   ChunkOffset p (p_chunkCount p - 1) = Some (p_duration p)) ∧
  (∀ i, ChunkOffset p i = None ↔ i < 0 ∨ p_chunkCount p ≤ i).
Proof.
  intros Ho H. pose proof (PlanBodyStream_wf o p Ho H) as Hwf. split_and!.
  - intros i. by apply ChunkOffset_spacing.
  - intros Hc. rewrite ChunkOffset_in by (done || lia).
    rewrite (proj2 (Z.eqb_neq _ _)) by lia. split_if; [|done].
    by rewrite Z.mul_0_r, Z.div_0_l by lia.
  - intros Hc Hd. rewrite ChunkOffset_in by (done || lia).
    rewrite (proj2 (Z.ltb_lt _ _)) by done. split_if; [done|].
    by rewrite Z.div_mul by lia.
  - intros i. unfold ChunkOffset, in_plan. destruct (_ || _) eqn:E; cbn [negb].
    + split; [intros _|done]. apply orb_true_iff in E as [E|E]; bool_to_prop; lia.
    + bool_to_prop. split; [done|lia].
Qed.

Lemma ChunkOffset_schedule_witness :
  PlanBodyStream example_options = Ok example_plan ∧
  ChunkOffset example_plan 3 = Some 1000000000.
Proof.
  split; [vm_compute; reflexivity|].
  refine (proj1 (proj2 (proj2 (ChunkOffset_schedule example_options example_plan _ _))) _ _);
    try (vm_compute; reflexivity).
  vm_compute; repeat split; discriminate.
Defined.

(** [PlanBodyStream] fails exactly on invalid options: its result is a plan
    if and only if sizes and timings are non-negative, at most one target is
    given, the finish mode is one of the three, the selected bytes fit the
    source (all of it for "complete") and the cadence of the planned chunks
    fits in a [time.Duration]. *)
Theorem PlanBodyStream_accepts o :
  options_int64 o →
  let o' := normalized_options o in
  let b := selectedBodyBytes o' in
  (∃ p, PlanBodyStream o = Ok p) ↔
  (0 ≤ SourceSize o' ∧ 0 ≤ Duration o' ∧ 0 ≤ Every o' ∧ 0 ≤ TargetChunkSize o' ∧
   0 ≤ TargetChunks o' ∧ (TargetChunkSize o' = 0 ∨ TargetChunks o' = 0) ∧
   validSelectedFinishMode (FinishMode o') = true ∧
   0 ≤ b ≤ SourceSize o' ∧ (FinishMode o' = StreamFinishComplete → b = SourceSize o') ∧
   (1 < plannedChunkCount o' b → Every o' * (plannedChunkCount o' b - 1) ≤ max_int64)).
Proof.
  intros Ho%normalized_int64 o' b.
  assert (Hbound : 0 ≤ b ≤ SourceSize o' → 0 ≤ Duration o' → 0 ≤ Every o' →
                   plannedChunkCount o' b ≤ maxStreamChunks).
  { intros Hb Hd He. pose proof Ho as (Hs%in_int64_upper & _). fold o' in Hs.
    destruct (plannedChunkCount_spec o' b) as (Hz & Hn & _); [done|lia|done|done|].
    destruct (decide (b = 0)) as [E|]; [rewrite (Hz E); unfold maxStreamChunks; lia|].
    specialize (Hn ltac:(lia)). lia. }
  split.
  - intros [p H]. apply PlanBodyStream_ok in H as (Hv & Hc & _). fold o' b in Hv, Hc.
    pose proof Hv as Hv'. apply validate_options_ok in Hv' as Hf.
    destruct Hf as (H1 & H2 & H3 & H4 & H5 & H6 & H7 & H8 & H9). fold b in H8, H9.
    rewrite validateCadenceRange_ok in Hc by auto. tauto.
  - intros (H1 & H2 & H3 & H4 & H5 & H6 & H7 & H8 & H9 & H10). eexists.
    apply PlanBodyStream_ok. fold o' b. split_and!; [|apply validateCadenceRange_ok; auto|done].
    by apply validate_options_complete.
Qed.

Lemma PlanBodyStream_accepts_witness : ∃ p, PlanBodyStream example_options = Ok p.
Proof.
  apply (PlanBodyStream_accepts example_options);
    [vm_compute; repeat split; discriminate|].
  vm_compute. repeat split; try discriminate; try (by left).
Defined.
