(* ===== verification/StreamSelect.v ===== *)
(** * Stream controls: validation and random selection

    The controls of a streamed response ([internal/storage/streaming.go],
    [streaming_controls.go]) are validated when a scenario is loaded; one
    request then draws concrete values from them and plans the delivery
    ([internal/processor/stream_plan.go]). *)
From S2P Require Import Prelude GoInt StreamPlan.

Local Open Scope Z_scope.

(** ** Configuration *)

(** [SizeSpec], [DurationSpec] and [PercentSpec]: an optional inclusive range. *)
Record RangeSpec := { Min : Z; Max : Z; IsSet : bool }.

Record StreamSendConfig := { send_Percent : RangeSpec; send_Duration : RangeSpec; send_IsSet : bool }.

Record StreamThrottleConfig := {
  throttle_TargetChunkSize : RangeSpec;
  throttle_Every : RangeSpec;
  throttle_TargetChunks : Z;
  throttle_IsSet : bool;
  targetChunksSet : bool
}.

Record StreamEndConfig := { end_Mode : string; end_IsSet : bool }.

Record StreamChunksConfig := { chunks_Size : RangeSpec; chunks_Delay : RangeSpec }.

(** [StreamFINConfig] with its [After] triggers. *)
Record StreamFINConfig := { fin_Close : string; after_Bytes : RangeSpec; after_Time : RangeSpec }.

Record StreamFinishConfig := {
  finish_Mode : string;
  finish_Fin : StreamFINConfig;
  CompletePercent : Z;
  FinPercent : Z
}.

(** The delivery controls of [StreamConfig]; its sources are not used here. *)
Record StreamConfig := {
  cfg_Send : StreamSendConfig;
  cfg_Throttle : StreamThrottleConfig;
  cfg_End : StreamEndConfig;
  cfg_Finish : StreamFinishConfig;
  cfg_Chunks : StreamChunksConfig;
  cfg_Duration : RangeSpec
}.

(** ** Validation *)

Inductive ControlError :=
| ExclusiveWithDuration
| ExclusiveWithChunks
| ExclusiveWithFinish
| TargetChunksNotPositive
| TargetChunkSizeNotPositive
| TargetsExclusive
| EndModeInvalid
| EndModeNeedsPercent
| PercentOutOfPartialRange
| EndModeNeedsPacing
| PercentOnlyForPartial
| ChunksSizeNotPositive
| DelayAndDurationExclusive
| FinishModeInvalid
| FinishFinNotAllowed
| FinishPercentNotAllowed
| FinishPercentRange
| FinishPercentSum
| FinishNeedsFin
| FinCloseInvalid
| FinBytesNotPositive
| FinishTermNeedsControls.

Definition hasFinishFINConfig (fin : StreamFINConfig) : bool :=
  negb (bool_decide (fin_Close fin = "")) || IsSet (after_Bytes fin) || IsSet (after_Time fin).

Definition validPercent (v : Z) : bool := (0 <=? v) && (v <=? 100).

Definition validateFINConfig (fin : StreamFINConfig) : result ControlError unit :=
  if negb (bool_decide (fin_Close fin = "")) && negb (bool_decide (fin_Close fin = "clean"))
  then Err FinCloseInvalid
  else if IsSet (after_Bytes fin) && (Min (after_Bytes fin) <=? 0) then Err FinBytesNotPositive
  else Ok tt.

Definition validatePercentages (f : StreamFinishConfig) : result ControlError unit :=
  if negb (validPercent (CompletePercent f)) || negb (validPercent (FinPercent f))
  then Err FinishPercentRange
  else if bool_decide (finish_Mode f = StreamFinishWeighted)
          && negb (add64 (CompletePercent f) (FinPercent f) =? 100)
  then Err FinishPercentSum
  else Ok tt.

Definition validateWeightedFinish (f : StreamFinishConfig) : result ControlError unit :=
  match validatePercentages f with
  | Err e => Err e
  | Ok _ =>
      if (0 <? FinPercent f) && negb (hasFinishFINConfig (finish_Fin f)) then Err FinishNeedsFin
      else validateFINConfig (finish_Fin f)
  end.

Definition validateFINFinish (f : StreamFinishConfig) : result ControlError unit :=
  if negb (CompletePercent f =? 0) || negb (FinPercent f =? 0) then Err FinishPercentNotAllowed
  else validateFINConfig (finish_Fin f).

Definition validateCompleteFinish (f : StreamFinishConfig) : result ControlError unit :=
  if hasFinishFINConfig (finish_Fin f) then Err FinishFinNotAllowed
  else if negb (CompletePercent f =? 0) || negb (FinPercent f =? 0) then Err FinishPercentNotAllowed
  else Ok tt.

Definition validFinishMode (mode : string) : bool :=
  bool_decide (mode = StreamFinishComplete) || bool_decide (mode = StreamFinishFIN)
  || bool_decide (mode = StreamFinishTerm) || bool_decide (mode = StreamFinishWeighted).

Definition with_finish_mode (mode : string) (f : StreamFinishConfig) : StreamFinishConfig :=
  {| finish_Mode := mode; finish_Fin := finish_Fin f;
     CompletePercent := CompletePercent f; FinPercent := FinPercent f |}.

Definition with_finish (f : StreamFinishConfig) (s : StreamConfig) : StreamConfig :=
  {| cfg_Send := cfg_Send s; cfg_Throttle := cfg_Throttle s; cfg_End := cfg_End s;
     cfg_Finish := f; cfg_Chunks := cfg_Chunks s; cfg_Duration := cfg_Duration s |}.

(** Fills in an omitted mode: the configuration is updated in place. *)
Definition validateStreamFinish (s : StreamConfig) : result ControlError StreamConfig :=
  let f := cfg_Finish s in
  let f := if bool_decide (finish_Mode f = "") then with_finish_mode StreamFinishComplete f else f in
  if negb (validFinishMode (finish_Mode f)) then Err FinishModeInvalid
  else
    let checked :=
      if bool_decide (finish_Mode f = StreamFinishComplete) then validateCompleteFinish f
      else if bool_decide (finish_Mode f = StreamFinishFIN) then validateFINFinish f
      else if bool_decide (finish_Mode f = StreamFinishTerm) then Err FinishTermNeedsControls
      else validateWeightedFinish f in
    result_map (λ _, with_finish f s) checked.

Definition validateStreamTiming (s : StreamConfig) : result ControlError unit :=
  if IsSet (chunks_Size (cfg_Chunks s)) && (Min (chunks_Size (cfg_Chunks s)) <=? 0)
  then Err ChunksSizeNotPositive
  else if IsSet (chunks_Delay (cfg_Chunks s)) && IsSet (cfg_Duration s)
  then Err DelayAndDurationExclusive
  else Ok tt.

Definition positiveDurationSpec (d : RangeSpec) : bool := IsSet d && (0 <? Max d).

Definition newFINHasPacing (s : StreamConfig) : bool :=
  positiveDurationSpec (send_Duration (cfg_Send s))
  || positiveDurationSpec (throttle_Every (cfg_Throttle s)).

Definition partialPercentSpec (p : RangeSpec) : bool := (1 <=? Min p) && (Max p <=? 99).

Definition partialNewEndMode (mode : string) : bool :=
  bool_decide (mode = StreamFinishFIN) || bool_decide (mode = StreamFinishTerm).

Definition validNewEndMode (mode : string) : bool :=
  bool_decide (mode = StreamFinishComplete) || partialNewEndMode mode.

Definition newStreamEndMode (e : StreamEndConfig) : string :=
  if bool_decide (end_Mode e = "") then StreamFinishComplete else end_Mode e.

Definition hasLegacyChunksConfig (c : StreamChunksConfig) : bool :=
  IsSet (chunks_Size c) || IsSet (chunks_Delay c).

Definition hasLegacyFinishConfig (f : StreamFinishConfig) : bool :=
  negb (bool_decide (finish_Mode f = "")) || hasFinishFINConfig (finish_Fin f)
  || negb (CompletePercent f =? 0) || negb (FinPercent f =? 0).

Definition hasNewStreamControls (s : StreamConfig) : bool :=
  send_IsSet (cfg_Send s) || throttle_IsSet (cfg_Throttle s) || end_IsSet (cfg_End s)
  || IsSet (send_Percent (cfg_Send s)) || IsSet (send_Duration (cfg_Send s))
  || IsSet (throttle_TargetChunkSize (cfg_Throttle s)) || targetChunksSet (cfg_Throttle s)
  || negb (throttle_TargetChunks (cfg_Throttle s) =? 0)
  || IsSet (throttle_Every (cfg_Throttle s)) || negb (bool_decide (end_Mode (cfg_End s) = "")).

Definition validatePartialEndControls (s : StreamConfig) : result ControlError unit :=
  if negb (IsSet (send_Percent (cfg_Send s))) then Err EndModeNeedsPercent
  else if negb (partialPercentSpec (send_Percent (cfg_Send s))) then Err PercentOutOfPartialRange
  else if negb (newFINHasPacing s) then Err EndModeNeedsPacing
  else Ok tt.

Definition validateThrottleTargets (t : StreamThrottleConfig) : result ControlError unit :=
  let set := targetChunksSet t || negb (throttle_TargetChunks t =? 0) in
  if set && (throttle_TargetChunks t <=? 0) then Err TargetChunksNotPositive
  else if IsSet (throttle_TargetChunkSize t) && (Min (throttle_TargetChunkSize t) <=? 0)
  then Err TargetChunkSizeNotPositive
  else if IsSet (throttle_TargetChunkSize t) && set then Err TargetsExclusive
  else Ok tt.

Definition validateNewStreamControls (s : StreamConfig) : result ControlError unit :=
  match validateThrottleTargets (cfg_Throttle s) with
  | Err e => Err e
  | Ok _ =>
      let mode := newStreamEndMode (cfg_End s) in
      if negb (validNewEndMode mode) then Err EndModeInvalid
      else if partialNewEndMode mode then validatePartialEndControls s
      else if IsSet (send_Percent (cfg_Send s)) then Err PercentOnlyForPartial
      else Ok tt
  end.

Definition validateNewStreamConflicts (s : StreamConfig) : result ControlError unit :=
  if negb (hasNewStreamControls s) then Ok tt
  else if IsSet (cfg_Duration s) then Err ExclusiveWithDuration
  else if hasLegacyChunksConfig (cfg_Chunks s) then Err ExclusiveWithChunks
  else if hasLegacyFinishConfig (cfg_Finish s) then Err ExclusiveWithFinish
  else Ok tt.

Definition validateStreamControls (s : StreamConfig) : result ControlError StreamConfig :=
  match validateNewStreamConflicts s with
  | Err e => Err e
  | Ok _ =>
      if hasNewStreamControls s then result_map (λ _, s) (validateNewStreamControls s)
      else
        match validateStreamTiming s with
        | Err e => Err e
        | Ok _ => validateStreamFinish s
        end
  end.

(** ** Selection *)

Inductive SelectError :=
| RangeInvalid (minimum maximum : Z)
| SelectorOutside (selected minimum maximum : Z)
| StreamSizeUnknown
| PlanFailed (e : PlanError).

Definition weightedFinishScale : Z := 100.

Definition percentOf (size percent : Z) : Z :=
  add64 (mul64 (div64 size weightedFinishScale) percent)
        (div64 (mul64 (rem64 size weightedFinishScale) percent) weightedFinishScale).

Definition partialStreamFinish (mode : string) : bool :=
  bool_decide (mode = StreamFinishFIN) || bool_decide (mode = StreamFinishTerm).

Definition usesDirectStreamControls (s : StreamConfig) : bool :=
  send_IsSet (cfg_Send s) || throttle_IsSet (cfg_Throttle s) || end_IsSet (cfg_End s)
  || IsSet (send_Percent (cfg_Send s)) || IsSet (send_Duration (cfg_Send s))
  || IsSet (throttle_TargetChunkSize (cfg_Throttle s))
  || negb (throttle_TargetChunks (cfg_Throttle s) =? 0)
  || IsSet (throttle_Every (cfg_Throttle s)) || negb (bool_decide (end_Mode (cfg_End s) = "")).

(** [randomStreamSelector.SelectInclusive]; [Uint64] and [Int63n] are the
    generator's functions on its state. *)
Definition randomSelectInclusive {G} (Uint64 : G → Z * G) (Int63n : G → Z → Z * G)
    (g : G) (minimum maximum : Z) : Z * G :=
  if maximum <=? minimum then (minimum, g)
  else
    let difference := sub64 maximum minimum in
    if difference =? max_int64 then let '(u, g) := Uint64 g in (Z.shiftr u 1, g)
    else let '(n, g) := Int63n g (add64 difference 1) in (add64 minimum n, g).

Section Select.
(** The selector: an oracle with a state (the random source). *)
Context {G : Type} (SelectInclusive : G → Z → Z → Z * G).

Definition M (A : Type) : Type := G → result SelectError A * G.

Definition ret {A} (a : A) : M A := λ g, (Ok a, g).
Definition fail {A} (e : SelectError) : M A := λ g, (Err e, g).
Definition bind {A B} (m : M A) (k : A → M B) : M B :=
  λ g, match m g with
       | (Ok a, g) => k a g
       | (Err e, g) => (Err e, g)
       end.
Notation "x ← m ; k" := (bind m (λ x, k)) (at level 20, m at level 100, k at level 200).

Definition selectInclusive (minimum maximum : Z) : M Z := λ g,
  if (minimum <? 0) || (maximum <? minimum) then (Err (RangeInvalid minimum maximum), g)
  else
    let '(selected, g) := SelectInclusive g minimum maximum in
    if (selected <? minimum) || (maximum <? selected)
    then (Err (SelectorOutside selected minimum maximum), g)
    else (Ok selected, g).

Definition selectSize (spec : RangeSpec) : M Z :=
  if negb (IsSet spec) then ret 0 else selectInclusive (Min spec) (Max spec).

Definition selectDuration (spec : RangeSpec) : M Z :=
  if negb (IsSet spec) then ret 0 else selectInclusive (Min spec) (Max spec).

Definition selectPercent (spec : RangeSpec) : M Z := selectInclusive (Min spec) (Max spec).

Definition selectThrottle (sizeSpec everySpec : RangeSpec) : M (Z * Z) :=
  targetSize ← selectSize sizeSpec;
  every ← selectDuration everySpec;
  ret (targetSize, every).

Definition selectLegacyFinishMode (finish : StreamFinishConfig) : M string :=
  if bool_decide (finish_Mode finish = "") then ret StreamFinishComplete
  else if negb (bool_decide (finish_Mode finish = StreamFinishWeighted))
  then ret (finish_Mode finish)
  else
    draw ← selectInclusive 0 (weightedFinishScale - 1);
    ret (if draw <? CompletePercent finish then StreamFinishComplete else StreamFinishFIN).

Definition selectLegacyDuration (cfg : StreamConfig) (finishMode : string) : M Z :=
  duration ← selectDuration (cfg_Duration cfg);
  if negb (partialStreamFinish finishMode) || negb (IsSet (after_Time (finish_Fin (cfg_Finish cfg))))
  then ret duration
  else
    finishDuration ← selectDuration (after_Time (finish_Fin (cfg_Finish cfg)));
    ret (if (duration =? 0) || (finishDuration <? duration) then finishDuration else duration).

Definition with_selected (n : Z) (o : BodyStreamPlanOptions) : BodyStreamPlanOptions :=
  {| FinishMode := FinishMode o; SourceSize := SourceSize o; SelectedBytes := n;
     TargetChunkSize := TargetChunkSize o; Duration := Duration o; Every := Every o;
     TargetChunks := TargetChunks o; SelectedBytesSet := true |}.

Definition selectLegacyBodyBytes (o : BodyStreamPlanOptions) (bytesSpec : RangeSpec)
  : M BodyStreamPlanOptions :=
  if partialStreamFinish (FinishMode o) && IsSet bytesSpec then
    selected ← selectSize bytesSpec;
    ret (with_selected (Z.min selected (SourceSize o)) o)
  else ret o.

Definition selectLegacyPlanOptions (cfg : StreamConfig) (sourceSize : Z)
  : M BodyStreamPlanOptions :=
  finishMode ← selectLegacyFinishMode (cfg_Finish cfg);
  throttle ← selectThrottle (chunks_Size (cfg_Chunks cfg)) (chunks_Delay (cfg_Chunks cfg));
  duration ← selectLegacyDuration cfg finishMode;
  selectLegacyBodyBytes
    {| FinishMode := finishMode; SourceSize := sourceSize; SelectedBytes := 0;
       TargetChunkSize := throttle.1; Duration := duration; Every := throttle.2;
       TargetChunks := 0; SelectedBytesSet := false |}
    (after_Bytes (finish_Fin (cfg_Finish cfg))).

Definition selectDirectBodyBytes (o : BodyStreamPlanOptions) (percentSpec : RangeSpec)
  : M BodyStreamPlanOptions :=
  if IsSet percentSpec then
    percent ← selectPercent percentSpec;
    ret (with_selected (percentOf (SourceSize o) percent) o)
  else ret o.

Definition selectDirectPlanOptions (cfg : StreamConfig) (sourceSize : Z)
  : M BodyStreamPlanOptions :=
  duration ← selectDuration (send_Duration (cfg_Send cfg));
  throttle ← selectThrottle (throttle_TargetChunkSize (cfg_Throttle cfg))
                            (throttle_Every (cfg_Throttle cfg));
  selectDirectBodyBytes
    {| FinishMode := end_Mode (cfg_End cfg); SourceSize := sourceSize; SelectedBytes := 0;
       TargetChunkSize := throttle.1; Duration := duration; Every := throttle.2;
       TargetChunks := throttle_TargetChunks (cfg_Throttle cfg); SelectedBytesSet := false |}
    (send_Percent (cfg_Send cfg)).

Definition selectBodyStreamPlanOptions (cfg : StreamConfig) (sourceSize : Z)
  : M BodyStreamPlanOptions :=
  if usesDirectStreamControls cfg then selectDirectPlanOptions cfg sourceSize
  else selectLegacyPlanOptions cfg sourceSize.

(** [newBodyStream] for a present configuration and payload; [sizeHint] is the
    payload's size, [None] when it does not know it. *)
Definition newBodyStream (cfg : StreamConfig) (sizeHint : option Z) : M BodyStreamPlan :=
  match sizeHint with
  | None => fail StreamSizeUnknown
  | Some size =>
      options ← selectBodyStreamPlanOptions cfg size;
      match PlanBodyStream options with
      | Ok plan => ret plan
      | Err e => fail (PlanFailed e)
      end
  end.
End Select.

(** ** A Hoare logic for selections *)

Section Logic.
Context {G : Type} (SelectInclusive : G → Z → Z → Z * G).

(** The selector keeps its promise: it answers inside the range asked. *)
Definition selector_ok : Prop :=
  ∀ g lo hi, 0 ≤ lo → lo ≤ hi → lo ≤ (SelectInclusive g lo hi).1 ≤ hi.

(** The selection never fails and its value satisfies [P]. *)
Definition wp {A} (m : M (G:=G) A) (P : A → Prop) : Prop :=
  ∀ g, ∃ a g', m g = (Ok a, g') ∧ P a.

Lemma wp_ret {A} (a : A) (P : A → Prop) : P a → wp (ret a) P.
Proof. intros Ha g. by exists a, g. Qed.

Lemma wp_bind {A B} (m : M A) (k : A → M B) (P : A → Prop) (Q : B → Prop) :
  wp m P → (∀ a, P a → wp (k a) Q) → wp (bind m k) Q.
Proof.
  intros Hm Hk g. destruct (Hm g) as (a & g1 & E & Ha).
  destruct (Hk a Ha g1) as (b & g2 & E2 & Hb).
  exists b, g2. split; [|done]. unfold bind. by rewrite E.
Qed.

Lemma wp_mono {A} (m : M A) (P Q : A → Prop) : wp m P → (∀ a, P a → Q a) → wp m Q.
Proof. intros Hm HPQ g. destruct (Hm g) as (a & g' & E & Ha). exists a, g'. auto. Qed.

Definition range_wf (r : RangeSpec) : Prop := IsSet r = true → 0 ≤ Min r ≤ Max r ∧ Max r ≤ max_int64.

(** The value an optional range may give: zero when it is not set. *)
Definition drawn_from (r : RangeSpec) (v : Z) : Prop :=
  if IsSet r then Min r ≤ v ≤ Max r else v = 0.

Hypothesis Hsel : selector_ok.

Lemma wp_selectInclusive lo hi :
  0 ≤ lo ≤ hi → wp (selectInclusive SelectInclusive lo hi) (λ v, lo ≤ v ≤ hi).
Proof using Hsel.
  intros H g. unfold selectInclusive. rewrite !(proj2 (Z.ltb_ge _ _)) by lia. cbn [orb].
  pose proof (Hsel g lo hi ltac:(lia) ltac:(lia)) as Hr.
  destruct (SelectInclusive g lo hi) as [v g']. cbn [fst] in Hr.
  rewrite !(proj2 (Z.ltb_ge _ _)) by lia. cbn [orb]. by exists v, g'.
Qed.

Lemma wp_selectSize r : range_wf r → wp (selectSize SelectInclusive r) (drawn_from r).
Proof using Hsel.
  intros Hr. unfold selectSize, drawn_from. destruct (IsSet r) eqn:E; cbn [negb].
  - specialize (Hr E). apply wp_selectInclusive. lia.
  - by apply wp_ret.
Qed.

Lemma wp_selectDuration r : range_wf r → wp (selectDuration SelectInclusive r) (drawn_from r).
Proof using Hsel. apply wp_selectSize. Qed.

Lemma wp_selectThrottle s e :
  range_wf s → range_wf e →
  wp (selectThrottle SelectInclusive s e) (λ v, drawn_from s v.1 ∧ drawn_from e v.2).
Proof using Hsel.
  intros Hs He. eapply wp_bind; [by apply wp_selectSize|]. intros t Ht.
  eapply wp_bind; [by apply wp_selectDuration|]. intros v Hv. by apply wp_ret.
Qed.

Lemma drawn_range r v : range_wf r → drawn_from r v → 0 ≤ v ≤ max_int64.
Proof.
  unfold range_wf, drawn_from, max_int64. intros Hr Hv.
  destruct (IsSet r); [specialize (Hr eq_refl)|]; lia.
Qed.
End Logic.
#[export] Hint Resolve drawn_range : icap.

(** ** Percentages of a source *)

Lemma percentOf_floor size percent :
  0 ≤ size ≤ max_int64 → 0 ≤ percent ≤ 100 →
  percentOf size percent = size * percent / 100 ∧ 0 ≤ percentOf size percent ≤ size.
Proof.
  intros Hs Hp. unfold percentOf, weightedFinishScale.
  rewrite (div64_nonneg size), (rem64_nonneg size) by lia.
  pose proof (Z.div_mod size 100 ltac:(lia)) as Hdm.
  pose proof (Z.mod_pos_bound size 100 ltac:(lia)) as Hm.
  pose proof (Z.div_pos size 100 ltac:(lia) ltac:(lia)) as Hq.
  remember (size / 100) as q. remember (size mod 100) as r.
  assert (Hrp : 0 ≤ r * percent ≤ 9900) by nia.
  assert (Hrd : 0 ≤ r * percent / 100 ≤ r).
  { split; [apply Z.div_pos; lia|]. apply Z.div_le_upper_bound; nia. }
  assert (Hqp : 0 ≤ q * percent ≤ 100 * q) by nia.
  unfold mul64. rewrite (wrap64_id (r * percent)), (wrap64_id (q * percent)).
  2,3: unfold in_int64, min_int64, max_int64 in *; lia.
  rewrite div64_nonneg by (unfold max_int64; lia).
  unfold add64. rewrite wrap64_id by (unfold in_int64, min_int64; lia).
  split; [|lia]. rewrite Hdm.
  replace ((100 * q + r) * percent) with (q * percent * 100 + r * percent) by lia.
  by rewrite Z.div_add_l by lia.
Qed.

(** ** What validation guarantees *)

(** The ranges of a configuration as their parsers leave them. *)
Record config_wf (s : StreamConfig) : Prop := {
  cw_send_percent : range_wf (send_Percent (cfg_Send s));
  cw_send_duration : range_wf (send_Duration (cfg_Send s));
  cw_target_size : range_wf (throttle_TargetChunkSize (cfg_Throttle s));
  cw_every : range_wf (throttle_Every (cfg_Throttle s));
  cw_target_chunks : in_int64 (throttle_TargetChunks (cfg_Throttle s));
  cw_after_bytes : range_wf (after_Bytes (finish_Fin (cfg_Finish s)));
  cw_after_time : range_wf (after_Time (finish_Fin (cfg_Finish s)));
  cw_chunks_size : range_wf (chunks_Size (cfg_Chunks s));
  cw_chunks_delay : range_wf (chunks_Delay (cfg_Chunks s));
  cw_duration : range_wf (cfg_Duration s)
}.

Definition normalized_end_mode (s : StreamConfig) : string := newStreamEndMode (cfg_End s).

(** A configuration with the direct controls that validation accepts. *)
Record direct_valid (s : StreamConfig) : Prop := {
  dv_mode : validSelectedFinishMode (normalized_end_mode s) = true;
  dv_percent : IsSet (send_Percent (cfg_Send s)) = partialNewEndMode (normalized_end_mode s);
  dv_partial : IsSet (send_Percent (cfg_Send s)) = true →
               1 ≤ Min (send_Percent (cfg_Send s)) ∧ Max (send_Percent (cfg_Send s)) ≤ 99;
  dv_targets : 0 ≤ throttle_TargetChunks (cfg_Throttle s);
  dv_one_target : IsSet (throttle_TargetChunkSize (cfg_Throttle s)) = true →
                  throttle_TargetChunks (cfg_Throttle s) = 0;
  dv_explicit : targetChunksSet (cfg_Throttle s) = true →
                throttle_TargetChunks (cfg_Throttle s) ≠ 0
}.

Lemma validateThrottleTargets_ok t :
  validateThrottleTargets t = Ok tt →
  0 ≤ throttle_TargetChunks t ∧
  (targetChunksSet t = true → throttle_TargetChunks t ≠ 0) ∧
  (IsSet (throttle_TargetChunkSize t) = true → throttle_TargetChunks t = 0).
Proof.
  unfold validateThrottleTargets. cbv zeta.
  destruct (Z.eqb_spec (throttle_TargetChunks t) 0) as [E|E]; cbn [negb];
    destruct (targetChunksSet t), (IsSet (throttle_TargetChunkSize t)); cbn [orb andb]; intros H;
    repeat split_if_in H; try done; split_and!; (lia || done).
Qed.

Lemma partialNewEndMode_valid m : partialNewEndMode m = true → validSelectedFinishMode m = true.
Proof.
  unfold partialNewEndMode, validSelectedFinishMode. intros E.
  destruct (bool_decide (m = StreamFinishComplete)); done.
Qed.

Lemma validateNewStreamControls_ok s :
  validateNewStreamControls s = Ok tt → direct_valid s.
Proof.
  unfold validateNewStreamControls, validatePartialEndControls, partialPercentSpec.
  destruct (validateThrottleTargets _) as [[]|] eqn:Ht; [|done].
  apply validateThrottleTargets_ok in Ht as (H1 & H2 & H3). cbv zeta.
  fold (normalized_end_mode s). intros H.
  destruct (validNewEndMode (normalized_end_mode s)) eqn:Hv; cbn [negb] in H; [|done].
  destruct (partialNewEndMode (normalized_end_mode s)) eqn:Hp.
  - destruct (IsSet (send_Percent (cfg_Send s))) eqn:Hs; cbn [negb] in H; [|done].
    destruct (_ && _) eqn:E in H; cbn [negb] in H; [|done]. bool_to_prop.
    split; [by apply partialNewEndMode_valid|congruence|done..].
  - destruct (IsSet (send_Percent (cfg_Send s))) eqn:Hs; [done|].
    unfold validNewEndMode in Hv. rewrite Hp, orb_false_r in Hv.
    split; [|congruence|congruence|done..]. unfold validSelectedFinishMode. by rewrite Hv.
Qed.

(** The finish of a legacy configuration that validation accepts. *)
Definition legacy_finish_valid (f : StreamFinishConfig) : Prop :=
  (finish_Mode f = StreamFinishComplete ∨ finish_Mode f = StreamFinishFIN) ∨
  (finish_Mode f = StreamFinishWeighted ∧ 0 ≤ CompletePercent f ∧ 0 ≤ FinPercent f ∧
   CompletePercent f + FinPercent f = 100).

Lemma validateStreamFinish_ok s s' :
  validateStreamFinish s = Ok s' →
  ∃ f, s' = with_finish f s ∧ legacy_finish_valid f ∧ finish_Fin f = finish_Fin (cfg_Finish s).
Proof.
  unfold validateStreamFinish. cbv zeta. intros H.
  eassert (Hf : finish_Fin (if bool_decide (finish_Mode (cfg_Finish s) = "")
             then with_finish_mode StreamFinishComplete (cfg_Finish s) else cfg_Finish s)
             = finish_Fin (cfg_Finish s)) by (by case_bool_decide).
  remember (if bool_decide (finish_Mode (cfg_Finish s) = "")
            then with_finish_mode StreamFinishComplete (cfg_Finish s) else cfg_Finish s) as f eqn:E.
  clear E. exists f. split_if_in H. case_bool_decide.
  { destruct (validateCompleteFinish f); simplify_eq/=. split_and!; [done|by left; left|done]. }
  case_bool_decide.
  { destruct (validateFINFinish f); simplify_eq/=. split_and!; [done|by left; right|done]. }
  case_bool_decide; [done|].
  unfold validateWeightedFinish, validatePercentages, validFinishMode, validPercent in *.
  rewrite !bool_decide_false in E by done. cbn [orb] in E. bool_to_prop.
  destruct (negb (_ && _) || _) eqn:E1 in H; [done|]. bool_to_prop.
  rewrite bool_decide_true in H by done. cbn [andb] in H.
  destruct (negb _) eqn:E2 in H; [done|]. bool_to_prop.
  unfold add64 in E2. rewrite wrap64_id in E2 by (unfold in_int64, min_int64, max_int64; lia).
  destruct (_ && _) in H; [done|]. destruct (validateFINConfig _); simplify_eq/=.
  split_and!; [done| |done]. right. auto.
Qed.

Lemma usesDirect_with_finish f s :
  usesDirectStreamControls (with_finish f s) = usesDirectStreamControls s.
Proof. done. Qed.

Lemma usesDirect_hasNew s :
  (targetChunksSet (cfg_Throttle s) = true → throttle_TargetChunks (cfg_Throttle s) ≠ 0) →
  usesDirectStreamControls s = hasNewStreamControls s.
Proof.
  unfold usesDirectStreamControls, hasNewStreamControls. intros Ht.
  destruct (Z.eqb_spec (throttle_TargetChunks (cfg_Throttle s)) 0) as [E|E]; cbn [negb].
  - destruct (targetChunksSet _); [by specialize (Ht eq_refl)|]. by rewrite !orb_false_r.
  - by rewrite !orb_true_r.
Qed.

(** Validation leaves either the direct controls or the legacy ones. *)
Lemma validateStreamControls_ok s s' :
  validateStreamControls s = Ok s' →
  (usesDirectStreamControls s' = true ∧ s' = s ∧ direct_valid s) ∨
  (usesDirectStreamControls s' = false ∧
   ∃ f, s' = with_finish f s ∧ legacy_finish_valid f ∧ finish_Fin f = finish_Fin (cfg_Finish s)).
Proof.
  unfold validateStreamControls. intros H.
  destruct (validateNewStreamConflicts s); [|done].
  destruct (hasNewStreamControls s) eqn:Hn.
  - destruct (validateNewStreamControls s) as [[]|] eqn:Hv; simplify_eq/=.
    apply validateNewStreamControls_ok in Hv. left. split_and!; [|done|done].
    rewrite usesDirect_hasNew; [done|apply Hv].
  - destruct (validateStreamTiming s); [|done]. apply validateStreamFinish_ok in H as (f & -> & ? & ?).
    right. split; [|by exists f]. rewrite usesDirect_with_finish, usesDirect_hasNew; [done|].
    unfold hasNewStreamControls in Hn. intros Ht. rewrite Ht in Hn. bool_to_prop. done.
Qed.

(** ** The options drawn from a validated configuration *)

(** Options the planner accepts but for the cadence, over a source of [size]. *)
Definition plannable (size : Z) (o : BodyStreamPlanOptions) : Prop :=
  options_int64 o ∧ SourceSize o = size ∧
  validateBodyStreamPlanOptions (normalized_options o) = Ok tt.

Lemma plannable_intro size o :
  0 ≤ size ≤ max_int64 → SourceSize o = size →
  0 ≤ TargetChunkSize o ≤ max_int64 → 0 ≤ Duration o ≤ max_int64 → 0 ≤ Every o ≤ max_int64 →
  0 ≤ TargetChunks o ≤ max_int64 → (TargetChunkSize o = 0 ∨ TargetChunks o = 0) →
  validSelectedFinishMode (FinishMode (normalized_options o)) = true →
  0 ≤ SelectedBytes o ≤ size →
  (SelectedBytesSet o = true → FinishMode (normalized_options o) ≠ StreamFinishComplete) →
  plannable size o.
Proof.
  intros Hs Hsrc Ht Hd He Hn Ht1 Hm Hb Hset. split_and!; [|done|].
  - unfold options_int64, in_int64, min_int64 in *. lia.
  - unfold normalized_options in *. apply validate_options_complete; unfold selectedBodyBytes;
      try (case_bool_decide; simpl in *; lia); try done.
    + case_bool_decide; simpl in *; destruct (SelectedBytesSet o); lia.
    + case_bool_decide; simpl in *; destruct (SelectedBytesSet o); naive_solver.
Qed.

Section Drawn.
Context {G : Type} (SelectInclusive : G → Z → Z → Z * G).
Hypothesis Hsel : selector_ok SelectInclusive.
Context (size : Z).
Hypothesis Hsize : 0 ≤ size ≤ max_int64.

(** What the drawn options say about the bytes to deliver. *)
Definition direct_amount (cfg : StreamConfig) (n : Z) : Prop :=
  if IsSet (send_Percent (cfg_Send cfg)) then
    ∃ percent, Min (send_Percent (cfg_Send cfg)) ≤ percent ≤ Max (send_Percent (cfg_Send cfg)) ∧
               n = size * percent / 100
  else n = size.

Lemma selected_normalized o :
  selectedBodyBytes (normalized_options o) = selectedBodyBytes o.
Proof using. unfold normalized_options, selectedBodyBytes. by case_bool_decide. Qed.

Lemma wp_direct cfg :
  config_wf cfg → direct_valid cfg →
  wp (selectDirectPlanOptions SelectInclusive cfg size)
     (λ o, plannable size o ∧ FinishMode (normalized_options o) = normalized_end_mode cfg ∧
           direct_amount cfg (selectedBodyBytes (normalized_options o))).
Proof using Hsel Hsize.
  intros [] []. unfold selectDirectPlanOptions.
  eapply wp_bind; [by apply wp_selectDuration|]. intros d Hd.
  eapply wp_bind; [by apply wp_selectThrottle|]. intros [t e] [Ht He]. cbn [fst snd] in *.
  assert (Hmode : ∀ o, FinishMode o = end_Mode (cfg_End cfg) →
            FinishMode (normalized_options o) = normalized_end_mode cfg).
  { intros o Ho. unfold normalized_options, normalized_end_mode, newStreamEndMode.
    rewrite Ho. by case_bool_decide. }
  assert (Ht0 : t = 0 ∨ throttle_TargetChunks (cfg_Throttle cfg) = 0).
  { unfold drawn_from in Ht. destruct (IsSet (throttle_TargetChunkSize _)); auto. }
  unfold selectDirectBodyBytes, direct_amount.
  destruct (IsSet (send_Percent (cfg_Send cfg))) eqn:Hp.
  - specialize (dv_partial0 eq_refl). specialize (cw_send_percent0 Hp).
    eapply wp_bind; [apply wp_selectInclusive; [done|lia]|]. intros pc Hpc. cbv beta in Hpc. apply wp_ret.
    cbn [SourceSize]. destruct (percentOf_floor size pc) as [Hfl Hb]; [done|lia|].
    split_and!; [|by apply Hmode|exists pc; rewrite selected_normalized; auto].
    apply plannable_intro; cbn [with_selected SourceSize SelectedBytes TargetChunkSize Duration
      Every TargetChunks SelectedBytesSet]; eauto with icap.
    + unfold in_int64 in *. lia.
    + by rewrite Hmode.
    + rewrite Hmode by done. intros _ Hc. rewrite Hc in dv_percent0. by vm_compute in dv_percent0.
  - apply wp_ret. split_and!; [|by apply Hmode|by rewrite selected_normalized].
    apply plannable_intro; cbn [SourceSize SelectedBytes TargetChunkSize Duration
      Every TargetChunks SelectedBytesSet]; eauto with icap; try lia.
    + unfold in_int64 in *. lia.
    + by rewrite Hmode.
Qed.

Lemma wp_finish_mode f :
  legacy_finish_valid f →
  wp (selectLegacyFinishMode SelectInclusive f)
     (λ m, (m = StreamFinishComplete ∨ m = StreamFinishFIN) ∧
           (finish_Mode f ≠ StreamFinishWeighted → m = finish_Mode f)).
Proof using Hsel.
  unfold selectLegacyFinishMode. intros [Hm|[Hm Hp]].
  - rewrite !bool_decide_false by (destruct Hm as [-> | ->]; done). cbn [negb].
    by apply wp_ret.
  - rewrite Hm. cbn. eapply wp_bind; [by apply wp_selectInclusive|].
    intros draw _. apply wp_ret. split; [|done]. case_match; auto.
Qed.

(** The bytes a legacy finish may deliver: all of them, or for "fin" the
    byte trigger capped at the source. *)
Definition legacy_amount (cfg : StreamConfig) (mode : string) (n : Z) : Prop :=
  let bytes := after_Bytes (finish_Fin (cfg_Finish cfg)) in
  if bool_decide (mode = StreamFinishFIN) && IsSet bytes then
    ∃ v, Min bytes ≤ v ≤ Max bytes ∧ n = Z.min v size
  else n = size.

Lemma wp_legacy_duration cfg m :
  config_wf cfg → wp (selectLegacyDuration SelectInclusive cfg m) (λ d, 0 ≤ d ≤ max_int64).
Proof using Hsel.
  intros []. unfold selectLegacyDuration.
  eapply wp_bind; [by apply wp_selectDuration|]. intros d Hd.
  destruct (_ || _); [apply wp_ret; eauto with icap|].
  eapply wp_bind; [by apply wp_selectDuration|]. intros d' Hd'.
  apply wp_ret. destruct (_ || _); eauto with icap.
Qed.

Lemma wp_legacy cfg :
  config_wf cfg → legacy_finish_valid (cfg_Finish cfg) →
  wp (selectLegacyPlanOptions SelectInclusive cfg size)
     (λ o, plannable size o ∧
           (finish_Mode (cfg_Finish cfg) ≠ StreamFinishWeighted →
            FinishMode (normalized_options o) = finish_Mode (cfg_Finish cfg)) ∧
           legacy_amount cfg (FinishMode (normalized_options o))
                         (selectedBodyBytes (normalized_options o))).
Proof using Hsel Hsize.
  intros Hwf Hfin. pose proof Hwf as []. unfold selectLegacyPlanOptions.
  eapply wp_bind; [by apply wp_finish_mode|]. intros m [Hm Hmw].
  eapply wp_bind; [by apply wp_selectThrottle|]. intros [t e] [Ht He]. cbn [fst snd] in *.
  eapply wp_bind; [by apply wp_legacy_duration|]. intros d Hd. cbv beta in Hd.
  assert (Hnorm : ∀ o, FinishMode o = m → normalized_options o = o).
  { intros o Ho. unfold normalized_options. rewrite bool_decide_false; [done|].
    rewrite Ho. by destruct Hm as [-> | ->]. }
  assert (Hvalid : validSelectedFinishMode m = true) by (by destruct Hm as [-> | ->]).
  unfold selectLegacyBodyBytes, legacy_amount. cbn [FinishMode SourceSize].
  replace (partialStreamFinish m) with (bool_decide (m = StreamFinishFIN))
    by (by destruct Hm as [-> | ->]).
  set (bytes := after_Bytes (finish_Fin (cfg_Finish cfg))) in *.
  destruct (bool_decide (m = StreamFinishFIN) && IsSet bytes) eqn:Hb.
  - apply andb_true_iff in Hb as [Hb1%bool_decide_eq_true Hb2].
    eapply wp_bind; [by apply wp_selectSize|]. intros v Hv. apply wp_ret.
    unfold drawn_from in Hv. rewrite Hb2 in Hv. specialize (cw_after_bytes0 Hb2).
    rewrite Hnorm by done. cbn [with_selected FinishMode SourceSize].
    rewrite Hb2, bool_decide_true by done. split_and!; [|done|by exists v].
    apply plannable_intro; rewrite ?Hnorm by done; cbn [with_selected SourceSize FinishMode
      SelectedBytes TargetChunkSize Duration Every TargetChunks SelectedBytesSet];
      eauto with icap; try lia.
    by rewrite Hb1.
  - apply wp_ret. rewrite Hnorm by done. cbn [FinishMode]. rewrite Hb. split_and!; [|done|done].
    apply plannable_intro; rewrite ?Hnorm by done; cbn [SourceSize FinishMode
      SelectedBytes TargetChunkSize Duration Every TargetChunks SelectedBytesSet];
      eauto with icap; unfold max_int64; try lia.
Qed.

(** What a validated configuration delivers: the mode and the bytes. *)
Definition delivers (cfg : StreamConfig) (mode : string) (n : Z) : Prop :=
  if usesDirectStreamControls cfg then mode = normalized_end_mode cfg ∧ direct_amount cfg n
  else (finish_Mode (cfg_Finish cfg) ≠ StreamFinishWeighted →
        mode = finish_Mode (cfg_Finish cfg)) ∧ legacy_amount cfg mode n.

Lemma config_wf_finish f s :
  config_wf s → finish_Fin f = finish_Fin (cfg_Finish s) → config_wf (with_finish f s).
Proof using. intros [] E. split; simpl; try done; by rewrite E. Qed.

Lemma wp_options s cfg :
  config_wf s → validateStreamControls s = Ok cfg →
  wp (selectBodyStreamPlanOptions SelectInclusive cfg size)
     (λ o, plannable size o ∧ delivers cfg (FinishMode (normalized_options o))
                                           (selectedBodyBytes (normalized_options o))).
Proof using Hsel Hsize.
  intros Hwf Hv. unfold selectBodyStreamPlanOptions, delivers.
  apply validateStreamControls_ok in Hv as [(-> & -> & Hd)|(-> & f & -> & Hl & Hf)].
  - eapply wp_mono; [by apply wp_direct|]. naive_solver.
  - eapply wp_mono; [apply wp_legacy; [by apply config_wf_finish|done]|]. naive_solver.
Qed.
End Drawn.

Lemma plannable_outcome size o :
  plannable size o →
  match PlanBodyStream o with
  | Ok p => p_sourceSize p = size ∧ p_bodyBytes p = selectedBodyBytes (normalized_options o) ∧
            p_finishMode p = FinishMode (normalized_options o)
  | Err e => e = CadenceRange
  end.
Proof.
  intros (_ & Hs & Hv). destruct (PlanBodyStream o) as [p|e] eqn:E.
  - apply PlanBodyStream_ok in E as (_ & _ & ->). split_and!; [|done|done].
    cbn. unfold normalized_options. by case_bool_decide.
  - unfold PlanBodyStream in E. fold (normalized_options o) in E. rewrite Hv in E.
    destruct (validateCadenceRange _ _) as [[]|e'] eqn:Hc; simplify_eq.
    unfold validateCadenceRange in Hc. repeat split_if_in Hc; congruence.
Qed.

(** ** Properties *)

(** A configuration that validation accepts can always be streamed. For
    every source size and every answer of the selector inside the range asked,
    [newBodyStream] plans a body over that source, and the only possible error
    is a cadence that does not fit a duration. The plan delivers what the
    configuration says: direct controls end in their mode with exactly
    [floor(size * percent / 100)] bytes for a percentage in the configured
    range (all bytes when none is set); legacy controls deliver every byte, or
    for "fin" with a byte trigger that many bytes capped at the source. *)
Theorem validated_controls_plan {G} (Sel : G → Z → Z → Z * G) s cfg size g :
  selector_ok Sel → config_wf s → validateStreamControls s = Ok cfg →
  0 ≤ size ≤ max_int64 →
  match (newBodyStream Sel cfg (Some size) g).1 with
  | Ok p => p_sourceSize p = size ∧ delivers size cfg (p_finishMode p) (p_bodyBytes p)
  | Err e => e = PlanFailed CadenceRange
  end.
Proof.
  intros Hsel Hwf Hv Hsize. unfold newBodyStream, bind.
  destruct (wp_options Sel Hsel size Hsize s cfg Hwf Hv g) as (o & g' & -> & Hp & Hd).
  apply plannable_outcome in Hp. destruct (PlanBodyStream o) as [p|e]; cbn.
  - destruct Hp as (-> & -> & ->). done.
  - by subst.
Qed.

Definition no_range : RangeSpec := {| Min := 0; Max := 0; IsSet := false |}.
Definition example_direct : StreamConfig :=
  {| cfg_Send := {| send_Percent := {| Min := 30; Max := 60; IsSet := true |};
                    send_Duration := {| Min := 1000; Max := 2000; IsSet := true |};
                    send_IsSet := true |};
     cfg_Throttle := {| throttle_TargetChunkSize := no_range; throttle_Every := no_range;
                        throttle_TargetChunks := 4; throttle_IsSet := true;
                        targetChunksSet := true |};
     cfg_End := {| end_Mode := "term"; end_IsSet := true |};
     cfg_Finish := {| finish_Mode := ""; CompletePercent := 0; FinPercent := 0;
       finish_Fin := {| fin_Close := ""; after_Bytes := no_range; after_Time := no_range |} |};
     cfg_Chunks := {| chunks_Size := no_range; chunks_Delay := no_range |};
     cfg_Duration := no_range |}.

Definition always_min (g : unit) (lo hi : Z) : Z * unit := (lo, g).

Lemma validated_controls_plan_witness :
  match (newBodyStream always_min example_direct (Some 1001) tt).1 with
  | Ok p => p_sourceSize p = 1001 ∧
            delivers 1001 example_direct (p_finishMode p) (p_bodyBytes p)
  | Err e => e = PlanFailed CadenceRange
  end.
Proof.
  apply (validated_controls_plan always_min example_direct example_direct 1001 tt).
  - intros g lo hi ? ?. cbn. lia.
  - split; vm_compute; solve [discriminate | intros _; repeat split; discriminate | repeat split; discriminate].
  - vm_compute. reflexivity.
  - vm_compute. split; discriminate.
Defined.

(** The draws of [0..99] that end a weighted finish in the given mode. *)
Definition finishes (finish : StreamFinishConfig) (mode : string) : list Z :=
  List.filter (λ draw, match (selectLegacyFinishMode (λ _ _ _, (draw, tt)) finish tt).1 with
                       | Ok m => bool_decide (m = mode)
                       | Err _ => false
                       end) (map Z.of_nat (seq 0 100)).

Lemma filter_below n len :
  List.filter (λ z, z <? n) (map Z.of_nat (seq 0 len)) =
  map Z.of_nat (seq 0 (Nat.min (Z.to_nat n) len)).
Proof.
  induction len as [|len IH]; [by rewrite Nat.min_0_r|].
  rewrite seq_S, map_app, List.filter_app, IH. cbn. split_if.
  - rewrite (Nat.min_r _ len), (Nat.min_r _ (S len)) by lia. by rewrite seq_S, map_app.
  - rewrite (Nat.min_l _ len), (Nat.min_l _ (S len)) by lia. by rewrite app_nil_r.
Qed.

(** A weighted finish that validation accepts is exact: of the hundred
    equally likely draws exactly [CompletePercent] complete the stream and
    exactly [FinPercent] close it with FIN. *)
Theorem weighted_finish_exact f :
  finish_Mode f = StreamFinishWeighted → validatePercentages f = Ok tt →
  Z.of_nat (length (finishes f StreamFinishComplete)) = CompletePercent f ∧
  Z.of_nat (length (finishes f StreamFinishFIN)) = FinPercent f.
Proof.
  intros Hm Hv. unfold validatePercentages, validPercent in Hv.
  destruct (negb _ || negb _) eqn:E1 in Hv; [done|]. bool_to_prop.
  rewrite bool_decide_true in Hv by done. cbn [andb] in Hv.
  destruct (negb _) eqn:E2 in Hv; [done|]. bool_to_prop.
  unfold add64 in E2. rewrite wrap64_id in E2 by (unfold in_int64, min_int64, max_int64; lia).
  assert (Hdraw : ∀ mode, mode = StreamFinishComplete ∨ mode = StreamFinishFIN →
    finishes f mode = List.filter (λ z, if z <? CompletePercent f
      then bool_decide (StreamFinishComplete = mode) else bool_decide (StreamFinishFIN = mode))
      (map Z.of_nat (seq 0 100))).
  { intros mode Hmode. unfold finishes. apply List.filter_ext_in. intros z Hz.
    apply in_map_iff in Hz as [n [<- Hn%in_seq]].
    unfold selectLegacyFinishMode. rewrite Hm. cbn [bool_decide]. unfold bind, selectInclusive, ret.
    rewrite bool_decide_false by done. rewrite bool_decide_true by done.
    unfold weightedFinishScale. cbn [negb Z.sub Z.opp Z.add Z.ltb Z.compare orb].
    rewrite !(proj2 (Z.ltb_ge _ _)) by lia. cbn [orb fst]. by destruct (Z.of_nat n <? CompletePercent f). }
  split; rewrite Hdraw by auto.
  - rewrite (List.filter_ext _ (λ z, z <? CompletePercent f)) by (intros z; by destruct (z <? _)).
    rewrite filter_below, length_map, length_seq. lia.
  - pose proof (List.filter_length (λ z, z <? CompletePercent f) (map Z.of_nat (seq 0 100))) as Hl.
    rewrite filter_below, !length_map, !length_seq in Hl.
    rewrite (List.filter_ext _ (λ z, negb (z <? CompletePercent f)))
      by (intros z; by destruct (z <? _)). lia.
Qed.

Lemma weighted_finish_exact_witness :
  let f := {| finish_Mode := "weighted"; CompletePercent := 70; FinPercent := 30;
              finish_Fin := {| fin_Close := "clean"; after_Bytes := no_range;
                               after_Time := no_range |} |} in
  Z.of_nat (length (finishes f StreamFinishComplete)) = 70.
Proof.
  intros f. apply (weighted_finish_exact f); vm_compute; reflexivity.
Defined.

(** The random selector answers inside the range asked for every pair of
    64-bit bounds with a non-negative minimum, without overflow, given only
    that the generator's [Int63n] answers below its argument. *)
Theorem randomSelectInclusive_range {G} (Uint64 : G → Z * G) (Int63n : G → Z → Z * G) :
  (∀ g, 0 ≤ (Uint64 g).1 < 2 ^ 64) →
  (∀ g n, 0 < n ≤ max_int64 → 0 ≤ (Int63n g n).1 < n) →
  ∀ g lo hi, 0 ≤ lo → lo ≤ hi → hi ≤ max_int64 →
    lo ≤ (randomSelectInclusive Uint64 Int63n g lo hi).1 ≤ hi.
Proof.
  intros Hu Hi g lo hi Hlo Hle Hhi. unfold randomSelectInclusive. split_if; [cbn; lia|].
  unfold sub64. rewrite wrap64_id by (unfold in_int64, min_int64; lia).
  split_if.
  - specialize (Hu g). destruct (Uint64 g) as [u g']. cbn [fst] in *.
    rewrite Z.shiftr_div_pow2 by lia. pose proof (Z.div_pos u (2 ^ 1) ltac:(lia) ltac:(lia)).
    assert (u / 2 ^ 1 < 2 ^ 63); [apply Z.div_lt_upper_bound; lia|].
    unfold max_int64 in *. lia.
  - unfold add64. rewrite (wrap64_id (hi - lo + 1)) by (unfold in_int64, min_int64; lia).
    specialize (Hi g (hi - lo + 1) ltac:(lia)). destruct (Int63n g _) as [n g']. cbn [fst] in *.
    rewrite wrap64_id by (unfold in_int64, min_int64; lia). lia.
Qed.

Lemma randomSelectInclusive_range_witness :
  (randomSelectInclusive (λ g : unit, (2 ^ 64 - 1, g)) (λ g n, (n - 1, g)) tt 5 9).1 = 9 ∧
  5 ≤ (randomSelectInclusive (λ g : unit, (2 ^ 64 - 1, g)) (λ g n, (n - 1, g)) tt 5 9).1 ≤ 9.
Proof.
  split; [vm_compute; reflexivity|].
  apply randomSelectInclusive_range; cbn; unfold max_int64; intros; lia.
Defined.
