(* ===== verification/Header.v ===== *)
(** * ICAP headers: [pkg/icap/header.go]

    A [Header] is a Go map from canonical keys to value lists. A nil map reads
    like the empty one, so both are the empty [gmap]; writes to a nil map, which
    Go turns into a panic, do not occur (every header is made by [NewHeader]).
    The cache of canonical forms only avoids recomputing them and is not
    observable. Keys are ASCII: case mapping is that of [GoStrings]. *)
From S2P Require Import Prelude GoStrings.
From stdpp Require Import sorting.

Notation Header := (gmap string (list string)).

(** ** Canonical keys *)

Definition canonicalHeaderKeys : list (string * string) :=
  [("host", "Host"); ("encapsulated", "Encapsulated"); ("istag", "ISTag");
   ("service", "Service"); ("service-id", "Service-ID");
   ("max-connections", "Max-Connections"); ("options-ttl", "Options-TTL");
   ("date", "Date"); ("allow", "Allow"); ("preview", "Preview");
   ("x-client-ip", "X-Client-IP"); ("x-authenticated-user", "X-Authenticated-User");
   ("content-type", "Content-Type"); ("content-length", "Content-Length");
   ("transfer-encoding", "Transfer-Encoding"); ("connection", "Connection");
   ("cache-control", "Cache-Control"); ("etag", "ETag"); ("te", "TE");
   ("methods", "Methods")].

Fixpoint assoc (k : string) (l : list (string * string)) : option string :=
  match l with
  | [] => None
  | (k', v) :: l => if String.eqb k k' then Some v else assoc k l
  end.

Fixpoint textCanonicalizeFrom (upper : bool) (s : string) : string :=
  match s with
  | EmptyString => EmptyString
  | String c s =>
      let c := if upper then upper_ascii c else lower_ascii c in
      String c (textCanonicalizeFrom (Ascii.eqb c "-"%char) s)
  end.

Definition textCanonicalize (s : string) : string := textCanonicalizeFrom true s.

Definition CanonicalHeaderKey (key : string) : string :=
  match assoc (to_lower key) canonicalHeaderKeys with
  | Some v => v
  | None => textCanonicalize key
  end.

(** ** Operations *)

Definition NewHeader : Header := ∅.

(** Indexing a Go map gives nil for a missing key. *)
Definition at_key (h : Header) (key : string) : list string := default [] (h !! key).

Definition Get (h : Header) (key : string) : option string := head (at_key h (CanonicalHeaderKey key)).

Definition Set_ (h : Header) (key value : string) : Header := <[CanonicalHeaderKey key := [value]]> h.

Definition Add (h : Header) (key value : string) : Header :=
  let key := CanonicalHeaderKey key in <[key := at_key h key ++ [value]]> h.

Definition Del (h : Header) (key : string) : Header := delete (CanonicalHeaderKey key) h.

Definition Values (h : Header) (key : string) : list string := at_key h (CanonicalHeaderKey key).

Definition Has (h : Header) (key : string) : bool := bool_decide (is_Some (Get h key)).

Definition Len (h : Header) : nat := size h.

(** [SetAll] ranges over a Go map; [headers] is one order of its pairs. *)
Definition SetAll (h : Header) (headers : list (string * string)) : Header :=
  foldl (λ h kv, Set_ h kv.1 kv.2) h headers.

Definition ToMap (h : Header) : gmap string string := omap head h.

Definition sortedKeys (h : Header) : list string := merge_sort String.le (map fst (map_to_list h)).

(** The pairs [Walk] and [WriteToBuffer] visit, in order. *)
Definition entries (h : Header) : list (string * string) :=
  flat_map (λ k, map (pair k) (at_key h k)) (sortedKeys h).

(** A walk with a callback over the caller's state; it stops at [false]. *)
Fixpoint walkPairs {S} (fn : S → string → string → bool * S) (l : list (string * string)) (s : S) : S :=
  match l with
  | [] => s
  | (k, v) :: l => let '(continue, s) := fn s k v in if continue then walkPairs fn l s else s
  end.

Definition Walk {S} (h : Header) (fn : S → string → string → bool * S) (s : S) : S :=
  walkPairs fn (entries h) s.

Definition crlf : string := String "013" (String "010" "").

Definition header_line (k v : string) : string := k +:+ ": " +:+ v +:+ crlf.

Definition WriteToBuffer (h : Header) (buf : string) : string :=
  foldl (λ buf kv, buf +:+ header_line kv.1 kv.2) buf (entries h).

Definition toString (h : Header) : string := WriteToBuffer h "".

(** ** Canonicalization lemmas *)

Lemma lower_upper c : lower_ascii (upper_ascii c) = lower_ascii c.
Proof. by destruct c as [[] [] [] [] [] [] [] []]. Qed.

Lemma upper_lower c : upper_ascii (lower_ascii c) = upper_ascii c.
Proof. by destruct c as [[] [] [] [] [] [] [] []]. Qed.

Lemma lower_canonical up s : to_lower (textCanonicalizeFrom up s) = to_lower s.
Proof.
  revert up. induction s as [|c s IH]; intros up; simpl; [done|].
  rewrite IH. destruct up; by rewrite ?lower_upper, ?lower_ascii_idemp.
Qed.

Lemma canonical_lower up s : textCanonicalizeFrom up (to_lower s) = textCanonicalizeFrom up s.
Proof.
  revert up. induction s as [|c s IH]; intros up; simpl; [done|].
  rewrite IH. destruct up; by rewrite ?upper_lower, ?lower_ascii_idemp.
Qed.

Lemma assoc_forallb (P : string → string → bool) l k v :
  forallb (λ kv, P kv.1 kv.2) l = true → assoc k l = Some v → P k v = true.
Proof.
  induction l as [|[k' v'] l IH]; simpl; [done|]. intros [HP Hl]%andb_true_iff.
  destruct (String.eqb k k') eqn:E; [|by apply IH]. bool_to_prop. by intros; simplify_eq.
Qed.

Lemma lower_CanonicalHeaderKey k : to_lower (CanonicalHeaderKey k) = to_lower k.
Proof.
  unfold CanonicalHeaderKey. destruct (assoc _ _) as [v|] eqn:E; [|apply lower_canonical].
  apply (assoc_forallb (λ k v, String.eqb (to_lower v) k)) in E; [|done].
  by bool_to_prop.
Qed.

Lemma CanonicalHeaderKey_lower k : CanonicalHeaderKey (to_lower k) = CanonicalHeaderKey k.
Proof.
  unfold CanonicalHeaderKey, textCanonicalize. by rewrite to_lower_idemp, canonical_lower.
Qed.

Lemma CanonicalHeaderKey_fold a b : CanonicalHeaderKey a = CanonicalHeaderKey b ↔ equal_fold a b = true.
Proof.
  unfold equal_fold. rewrite String.eqb_eq. split; intros E.
  - by rewrite <- (lower_CanonicalHeaderKey a), E, lower_CanonicalHeaderKey.
  - by rewrite <- (CanonicalHeaderKey_lower a), E, CanonicalHeaderKey_lower.
Qed.

Lemma CanonicalHeaderKey_idemp k : CanonicalHeaderKey (CanonicalHeaderKey k) = CanonicalHeaderKey k.
Proof. rewrite <- CanonicalHeaderKey_lower, lower_CanonicalHeaderKey. apply CanonicalHeaderKey_lower. Qed.
#[export] Hint Rewrite CanonicalHeaderKey_idemp CanonicalHeaderKey_lower : icap_rw.

(** ** Lookup lemmas *)

Lemma equal_fold_false a b :
  equal_fold a b = false ↔ CanonicalHeaderKey a ≠ CanonicalHeaderKey b.
Proof. rewrite CanonicalHeaderKey_fold. by rewrite not_true_iff_false. Qed.

Lemma at_key_insert h k k' v :
  at_key (<[CanonicalHeaderKey k := v]> h) (CanonicalHeaderKey k') =
  if equal_fold k k' then v else at_key h (CanonicalHeaderKey k').
Proof.
  unfold at_key. destruct (equal_fold k k') eqn:E.
  - apply CanonicalHeaderKey_fold in E as <-. by rewrite lookup_insert_eq.
  - apply equal_fold_false in E. by rewrite lookup_insert_ne.
Qed.

Lemma Values_Set h k v k' : Values (Set_ h k v) k' = if equal_fold k k' then [v] else Values h k'.
Proof. apply at_key_insert. Qed.

Lemma Values_Add h k v k' :
  Values (Add h k v) k' = if equal_fold k k' then Values h k' ++ [v] else Values h k'.
Proof.
  unfold Values, Add. rewrite at_key_insert. destruct (equal_fold k k') eqn:E; [|done].
  by apply CanonicalHeaderKey_fold in E as ->.
Qed.

Lemma Values_Del h k k' : Values (Del h k) k' = if equal_fold k k' then [] else Values h k'.
Proof.
  unfold Values, Del, at_key. destruct (equal_fold k k') eqn:E.
  - apply CanonicalHeaderKey_fold in E as <-. by rewrite lookup_delete_eq.
  - apply equal_fold_false in E. by rewrite lookup_delete_ne.
Qed.

(** Every key of the map is canonical: what the operations keep. *)
Definition canonical_keys (h : Header) : Prop := ∀ k, is_Some (h !! k) → CanonicalHeaderKey k = k.

Lemma canonical_insert h k v : canonical_keys h → canonical_keys (<[CanonicalHeaderKey k := v]> h).
Proof.
  intros Hh k' Hk'. destruct (decide (k' = CanonicalHeaderKey k)) as [->|].
  - apply CanonicalHeaderKey_idemp.
  - apply Hh. by rewrite lookup_insert_ne in Hk'.
Qed.

Lemma canonical_Set h k v : canonical_keys h → canonical_keys (Set_ h k v).
Proof. apply canonical_insert. Qed.
Lemma canonical_Add h k v : canonical_keys h → canonical_keys (Add h k v).
Proof. apply canonical_insert. Qed.
Lemma canonical_Del h k : canonical_keys h → canonical_keys (Del h k).
Proof. unfold Del. intros Hh k' Hk'. apply Hh. apply lookup_delete_is_Some in Hk'. naive_solver. Qed.
Lemma canonical_SetAll l h : canonical_keys h → canonical_keys (SetAll h l).
Proof. revert h. induction l; simpl; auto using canonical_Set. Qed.
Lemma canonical_New : canonical_keys NewHeader.
Proof. intros k [? Hk]. unfold NewHeader in Hk. by rewrite lookup_empty in Hk. Qed.
#[export] Hint Resolve canonical_Set canonical_Add canonical_Del canonical_SetAll canonical_New : icap.

(** ** Order of the entries *)

Lemma sortedKeys_elem h k : k ∈ sortedKeys h ↔ is_Some (h !! k).
Proof.
  unfold sortedKeys. rewrite merge_sort_Permutation. rewrite list_elem_of_fmap. split.
  - intros ([k' v] & -> & Hk%elem_of_map_to_list). eauto.
  - intros [v Hv]. exists (k, v). split; [done|]. by apply elem_of_map_to_list.
Qed.

Lemma sortedKeys_NoDup h : NoDup (sortedKeys h).
Proof. unfold sortedKeys. rewrite merge_sort_Permutation. apply NoDup_fst_map_to_list. Qed.

Lemma sortedKeys_sorted h : StronglySorted String.le (sortedKeys h).
Proof. apply (StronglySorted_merge_sort _). Qed.

Lemma entries_values h k : map snd (filter (λ kv, kv.1 = k) (entries h)) = at_key h k.
Proof.
  unfold entries.
  assert (Hout : ∀ l, k ∉ l →
    filter (λ kv, kv.1 = k) (flat_map (λ k, map (pair k) (at_key h k)) l) = []).
  { intros l Hl. apply filter_none, Forall_forall. intros [k' v] Hin. apply list_elem_of_In in Hin.
    apply in_flat_map in Hin as (k'' & Hk'' & Hv). apply in_map_iff in Hv as (v' & E & _).
    simplify_eq/=. intros ->. apply Hl, list_elem_of_In, Hk''. }
  destruct (decide (k ∈ sortedKeys h)) as [Hin|Hin].
  - pose proof (sortedKeys_NoDup h) as Hnd. apply list_elem_of_split in Hin as (l1 & l2 & E).
    rewrite E in *. apply NoDup_app in Hnd as (_ & H1 & [H2 _]%NoDup_cons).
    rewrite flat_map_app. cbn [flat_map].
    assert (H1k : k ∉ l1) by (intros ?; eapply H1; [done|by left]).
    rewrite !filter_app, (Hout l1 H1k), (Hout l2 H2), app_nil_r.
    rewrite filter_all; [cbn [app]; by rewrite map_map, map_id|].
    apply Forall_map, Forall_true. done.
  - rewrite Hout by done. unfold at_key. rewrite sortedKeys_elem, <- eq_None_not_Some in Hin.
    by rewrite Hin.
Qed.

Lemma walk_all {S} (fn : S → string → string → S) l s :
  walkPairs (λ s k v, (true, fn s k v)) l s = foldl (λ s kv, fn s kv.1 kv.2) s l.
Proof. revert s. induction l as [|[k v] l IH]; simpl; auto. Qed.

Lemma entries_keys h :
  map fst (entries h) = flat_map (λ k, replicate (length (at_key h k)) k) (sortedKeys h).
Proof.
  unfold entries. induction (sortedKeys h) as [|k l IH]; [done|]. cbn [flat_map].
  rewrite map_app, IH, map_map. f_equal. clear IH.
  generalize (at_key h k). intros vs. induction vs as [|v vs IHv]; cbn; [done|]. by f_equal.
Qed.

Lemma sorted_flat_replicate (f : string → nat) l :
  StronglySorted String.le l → StronglySorted String.le (flat_map (λ k, replicate (f k) k) l).
Proof.
  induction 1 as [|k l Hl IH Hk]; [constructor|]. cbn [flat_map].
  assert (Hall : Forall (String.le k) (flat_map (λ k, replicate (f k) k) l)).
  { apply Forall_forall. intros x Hx%list_elem_of_In. apply in_flat_map in Hx as (k' & Hk' & Hx).
    apply list_elem_of_In, elem_of_replicate in Hx as [-> _].
    rewrite Forall_forall in Hk. by apply Hk, list_elem_of_In. }
  induction (f k) as [|n IHn]; [done|]. cbn [replicate app]. constructor; [done|].
  apply Forall_app. split; [|done]. apply Forall_replicate. reflexivity.
Qed.

Lemma write_lines (l : list (string * string)) buf :
  foldl (λ buf kv, buf +:+ header_line kv.1 kv.2) buf l =
  buf +:+ foldr (λ kv rest, header_line kv.1 kv.2 +:+ rest) "" l.
Proof.
  revert buf. induction l as [|kv l IH]; intros buf; simpl; [by rewrite str_app_nil_r|].
  by rewrite IH, str_app_assoc.
Qed.

(** ** The abstract header: values by case-insensitive name *)

Inductive header_op :=
| OpSet (key value : string)
| OpAdd (key value : string)
| OpDel (key : string).

Definition apply_op (h : Header) (o : header_op) : Header :=
  match o with
  | OpSet k v => Set_ h k v
  | OpAdd k v => Add h k v
  | OpDel k => Del h k
  end.

(** What a list of operations leaves under one name, from the operations only. *)
Definition spec_values (ops : list header_op) (key : string) : list string :=
  foldl (λ vs o, match o with
                 | OpSet k v => if equal_fold k key then [v] else vs
                 | OpAdd k v => if equal_fold k key then vs ++ [v] else vs
                 | OpDel k => if equal_fold k key then [] else vs
                 end) [] ops.

Lemma apply_ops_canonical ops : canonical_keys (foldl apply_op NewHeader ops).
Proof.
  induction ops as [|o ops IH] using rev_ind; [auto with icap|].
  rewrite foldl_snoc. destruct o; simpl; auto with icap.
Qed.

Lemma apply_ops_values ops key :
  Values (foldl apply_op NewHeader ops) key = spec_values ops key.
Proof.
  unfold spec_values. induction ops as [|o ops IH] using rev_ind.
  - unfold Values, at_key. simpl. unfold NewHeader. by rewrite lookup_empty.
  - rewrite !foldl_snoc. destruct o; simpl;
      rewrite ?Values_Set, ?Values_Add, ?Values_Del, IH; done.
Qed.

Lemma entries_fold h key :
  canonical_keys h →
  map snd (filter (λ kv, equal_fold kv.1 key = true) (entries h)) = Values h key.
Proof.
  intros Hc. unfold Values. rewrite <- entries_values. f_equal. apply filter_ext_Forall.
  apply Forall_forall. intros [k v] Hin. cbn [fst].
  assert (Hk : k ∈ map fst (entries h)) by (apply list_elem_of_fmap; by exists (k, v)).
  rewrite entries_keys in Hk. apply list_elem_of_In, in_flat_map in Hk as (k' & Hk' & Hr).
  apply list_elem_of_In, elem_of_replicate in Hr as [-> _].
  apply list_elem_of_In, sortedKeys_elem, Hc in Hk'.
  rewrite <- CanonicalHeaderKey_fold. by rewrite Hk'.
Qed.

(** ** Properties *)

(** Two header names have the same canonical key exactly when they differ
    only in case; canonicalizing changes nothing but the case of a name, and
    doing it twice is doing it once. *)
Theorem canonical_key_case_insensitive a b :
  (CanonicalHeaderKey a = CanonicalHeaderKey b ↔ to_lower a = to_lower b) ∧
  to_lower (CanonicalHeaderKey a) = to_lower a ∧
  CanonicalHeaderKey (CanonicalHeaderKey a) = CanonicalHeaderKey a.
Proof.
  split_and!; [|apply lower_CanonicalHeaderKey|apply CanonicalHeaderKey_idemp].
  rewrite CanonicalHeaderKey_fold. unfold equal_fold. apply String.eqb_eq.
Qed.

(** A header refines a map from case-insensitive names to value lists: after
    any sequence of [Set], [Add] and [Del], [Values], [Get] and [Has] answer for
    every spelling of a name what the operations on that name left, in order. *)
Theorem header_refines_map ops key :
  let h := foldl apply_op NewHeader ops in
  Values h key = spec_values ops key ∧
  Get h key = head (spec_values ops key) ∧
  Has h key = bool_decide (spec_values ops key ≠ []).
Proof.
  cbv zeta. unfold Has, Get. fold (Values (foldl apply_op NewHeader ops) key).
  rewrite apply_ops_values. split_and!; [done|done|]. apply bool_decide_ext.
  destruct (spec_values ops key); simpl; [|naive_solver]. split; [intros [? ?]; done|done].
Qed.

(** The written form of a header built by the operations has one line per
    value: keys in byte order, each with its values in the order they were
    added, nothing lost or repeated; [Walk] visits the same lines. *)
Theorem header_written_form ops :
  let h := foldl apply_op NewHeader ops in
  toString h = foldr (λ kv rest, header_line kv.1 kv.2 +:+ rest) "" (entries h) ∧
  StronglySorted String.le (map fst (entries h)) ∧
  (∀ key, map snd (filter (λ kv, equal_fold kv.1 key = true) (entries h)) = spec_values ops key) ∧
  Walk h (λ buf k v, (true, buf +:+ header_line k v)) "" = toString h.
Proof.
  intros h. split_and!.
  - apply (write_lines _ "").
  - rewrite entries_keys. apply sorted_flat_replicate, sortedKeys_sorted.
  - intros key. rewrite entries_fold by apply apply_ops_canonical. apply apply_ops_values.
  - unfold Walk, toString, WriteToBuffer. by rewrite walk_all.
Qed.

Example header_example :
  toString (foldl apply_op NewHeader
    [OpAdd "x-b" "1"; OpSet "istag" "t"; OpAdd "X-B" "2"; OpSet "allow" "204"; OpDel "ALLOW"])
  = "ISTag: t" +:+ crlf +:+ "X-B: 1" +:+ crlf +:+ "X-B: 2" +:+ crlf.
Proof. vm_compute. reflexivity. Qed.
