(* ===== verification/Chunked.v ===== *)
(** * Chunked transfer encoding: [pkg/icap/encoding.go]

    The reader and the writer of chunked bodies as state machines over the bytes
    of a connection. A source is the list of bytes still to come; after the last
    one every read fails with the section's error [ending] ([io.EOF] for a
    connection the peer closed). The reader is modelled over a source that hands
    out single bytes ([io.ByteReader]); [Connection] proves that the server's
    pooled buffer, which the code asks for whole lines, gives the same lines. *)
From S2P Require Import Prelude GoInt GoStrings.

Local Open Scope Z_scope.

Definition MaxChunkSize : Z := 1048576.
Definition MaxChunkHeaderLength : Z := 4096.
Definition MaxTrailerLineLength : Z := 8192.
Definition MaxTrailerCount : Z := 100.
Definition MaxTrailerBytes : Z := 32 * 1024.

Inductive PreviewError :=
| ErrPreviewNotEnabled
| ErrPreviewNotAtBoundary
| ErrPreviewIEOF
| ErrPreviewAlreadyContinued.

Inductive WriteError := WriteFault | WriteOnClosed | WriteCancelled.

(** What reading from a connection or a body can fail with: the errors of this
    package, those of the network, and those of the server's readers that ask the
    client for the rest of a body. *)
Inductive ReadError :=
| EOF
| ErrUnexpectedEOF
| Fault
| ErrChunkHeaderTooLong
| ErrTrailerLineTooLong
| ErrTooManyTrailers
| ErrTrailersTooLarge
| EmptyChunkSize
| InvalidChunkSize
| NegativeChunkSize
| ChunkSizeExceedsMaximum
| MalformedChunkTerminator
| StreamBodyTooLarge
| ClosedPipe
| PayloadConsumed
| PayloadFactoryNil
| PayloadNil
| PayloadUnavailable
| NoProgress
| ErrShortBuffer
| NetTimeout
| NetClosed
| DeadlineSetup
| ContextDone
| ContinuationWrite (e : WriteError)
| ContinuationRefused (e : PreviewError).

#[export] Instance PreviewError_dec : EqDecision PreviewError.
Proof. solve_decision. Defined.

#[export] Instance WriteError_dec : EqDecision WriteError.
Proof. solve_decision. Defined.

#[export] Instance ReadError_dec : EqDecision ReadError.
Proof. solve_decision. Defined.

Definition CR : ascii := "013"%char.
Definition LF : ascii := "010"%char.

(** ** Chunk sizes *)

Definition ParseChunkSize (s : string) : result ReadError Z :=
  let s := trim_space s in
  if bool_decide (s = "") then Err EmptyChunkSize
  else
    let s := match index_byte s ";" with Some i => str_take i s | None => s end in
    match parse_int 16 s with
    | None => Err InvalidChunkSize
    | Some size => if size <? 0 then Err NegativeChunkSize else Ok size
    end.

Definition FormatChunkSize (n : Z) : string := FormatInt 16 n.

Record parsedChunkHeader := { extensions : list string; h_size : Z }.

Definition hasExtension (h : parsedChunkHeader) (name : string) : bool :=
  existsb (λ extension, equal_fold (trim_space (cut_byte (trim_space extension) "=").1.1) name)
          (extensions h).

(** ** The reader *)

Record ChunkedReader := {
  cr_err : option ReadError;
  cr_n : Z;
  finished : bool;
  previewEnabled : bool;
  previewBoundary : bool;
  previewIEOF : bool;
  previewContinued : bool
}.

Definition NewChunkedReader : ChunkedReader :=
  {| cr_err := None; cr_n := 0; finished := false; previewEnabled := false;
     previewBoundary := false; previewIEOF := false; previewContinued := false |}.

Definition set_err (e : ReadError) (cr : ChunkedReader) : ChunkedReader :=
  {| cr_err := Some e; cr_n := cr_n cr; finished := finished cr;
     previewEnabled := previewEnabled cr; previewBoundary := previewBoundary cr;
     previewIEOF := previewIEOF cr; previewContinued := previewContinued cr |}.

Definition set_n (n : Z) (cr : ChunkedReader) : ChunkedReader :=
  {| cr_err := cr_err cr; cr_n := n; finished := finished cr;
     previewEnabled := previewEnabled cr; previewBoundary := previewBoundary cr;
     previewIEOF := previewIEOF cr; previewContinued := previewContinued cr |}.

Definition set_finished (cr : ChunkedReader) : ChunkedReader :=
  {| cr_err := cr_err cr; cr_n := cr_n cr; finished := true;
     previewEnabled := previewEnabled cr; previewBoundary := previewBoundary cr;
     previewIEOF := previewIEOF cr; previewContinued := previewContinued cr |}.

Definition EnablePreview (cr : ChunkedReader) : ChunkedReader :=
  {| cr_err := cr_err cr; cr_n := cr_n cr; finished := finished cr;
     previewEnabled := true; previewBoundary := previewBoundary cr;
     previewIEOF := previewIEOF cr; previewContinued := previewContinued cr |}.

(** The boundary the first zero chunk of a preview makes. *)
Definition at_preview (ieof : bool) (cr : ChunkedReader) : ChunkedReader :=
  {| cr_err := cr_err cr; cr_n := cr_n cr; finished := ieof;
     previewEnabled := previewEnabled cr; previewBoundary := true;
     previewIEOF := ieof; previewContinued := previewContinued cr |}.

Definition PreviewBoundary (cr : ChunkedReader) : bool * bool := (previewBoundary cr, previewIEOF cr).

Definition ContinueAfterPreview (cr : ChunkedReader) : result PreviewError ChunkedReader :=
  if negb (previewEnabled cr) then Err ErrPreviewNotEnabled
  else if previewContinued cr then Err ErrPreviewAlreadyContinued
  else if negb (previewBoundary cr) then Err ErrPreviewNotAtBoundary
  else if previewIEOF cr then Err ErrPreviewIEOF
  else Ok {| cr_err := cr_err cr; cr_n := cr_n cr; finished := finished cr;
             previewEnabled := previewEnabled cr; previewBoundary := false;
             previewIEOF := previewIEOF cr; previewContinued := true |}.

Section Reader.
(** How the source ends: the error of a read past its last byte. *)
Context (ending : ReadError).

(** [io.ReadFull] of [n] bytes: what was read, the error and the rest. *)
Definition ReadFull (n : nat) (s : list ascii) : list ascii * option ReadError * list ascii :=
  if (n <=? length s)%nat then (take n s, None, drop n s)
  else match s with
       | [] => ([], Some ending, [])
       | _ => (s, Some (if bool_decide (ending = EOF) then ErrUnexpectedEOF else ending), [])
       end.

(** The byte loop of [readBoundedLine]: at most [k] more bytes. *)
Fixpoint boundedLine (k : nat) (limitErr : ReadError) (s : list ascii)
  : result ReadError (list ascii) * list ascii :=
  match k with
  | O => (Err limitErr, s)
  | S k =>
      match s with
      | [] => (Err ending, [])
      | b :: s =>
          if bool_decide (b = LF) then (Ok [b], s)
          else let '(r, s) := boundedLine k limitErr s in (result_map (cons b) r, s)
      end
  end.

Definition readBoundedLine (limit : Z) (limitErr : ReadError) (s : list ascii)
  : result ReadError string * list ascii :=
  let '(r, s) := boundedLine (Z.to_nat limit) limitErr s in (result_map string_of r, s).

Definition parseChunkHeaderLine (line : string) : result ReadError parsedChunkHeader :=
  let line := trim_suffix line (String CR (String LF "")) in
  let line := trim_suffix line (String LF "") in
  let parts := split_byte line ";" in
  match ParseChunkSize (hd "" parts) with
  | Err e => Err e
  | Ok size =>
      if MaxChunkSize <? size then Err ChunkSizeExceedsMaximum
      else Ok {| h_size := size; extensions := tl parts |}
  end.

Definition readChunkHeader (s : list ascii) : result ReadError parsedChunkHeader * list ascii :=
  let '(r, s) := readBoundedLine MaxChunkHeaderLength ErrChunkHeaderTooLong s in
  (result_bind r parseChunkHeaderLine, s).

Definition readCRLF (s : list ascii) : option ReadError * list ascii :=
  match ReadFull 2 s with
  | (_, Some e, s) => (Some e, s)
  | (b, None, s) => (if bool_decide (b = [CR; LF]) then None else Some MalformedChunkTerminator, s)
  end.

(** The loop of [readTrailer]; it ends before [MaxTrailerCount + 2] lines, and
    running out of [fuel] would be reported as an impossible fault. *)
Fixpoint readTrailerFrom (fuel : nat) (trailerCount trailerBytes : Z) (s : list ascii)
  : option ReadError * list ascii :=
  match fuel with
  | O => (Some Fault, s)
  | S fuel =>
      match readBoundedLine MaxTrailerLineLength ErrTrailerLineTooLong s with
      | (Err e, s) => (Some (if bool_decide (e = EOF) then ErrUnexpectedEOF else e), s)
      | (Ok line, s) =>
          if bool_decide (line = String CR (String LF "")) || bool_decide (line = String LF "")
          then (None, s)
          else
            let trailerCount := trailerCount + 1 in
            if MaxTrailerCount <? trailerCount then (Some ErrTooManyTrailers, s)
            else
              let trailerBytes := trailerBytes + Z.of_nat (String.length line) in
              if MaxTrailerBytes <? trailerBytes then (Some ErrTrailersTooLarge, s)
              else readTrailerFrom fuel trailerCount trailerBytes s
      end
  end.

Definition readTrailer (s : list ascii) : option ReadError * list ascii :=
  readTrailerFrom (Z.to_nat (MaxTrailerCount + 2)) 0 0 s.

(** The result of the zero chunk is always an error: [io.EOF] at best. *)
Definition finishZeroChunk (header : parsedChunkHeader) (cr : ChunkedReader) (s : list ascii)
  : ReadError * ChunkedReader * list ascii :=
  match readTrailer s with
  | (Some e, s) => (e, cr, s)
  | (None, s) =>
      if previewEnabled cr && negb (previewContinued cr)
      then (EOF, at_preview (hasExtension header "ieof") cr, s)
      else (EOF, set_finished cr, s)
  end.

Definition startChunk (cr : ChunkedReader) (s : list ascii)
  : option ReadError * ChunkedReader * list ascii :=
  match readChunkHeader s with
  | (Err e, s) => (Some e, cr, s)
  | (Ok header, s) =>
      if 0 <? h_size header then (None, set_n (h_size header) cr, s)
      else let '(e, cr, s) := finishZeroChunk header cr s in (Some e, cr, s)
  end.

(** A read returns the bytes it stored (their number is the code's [n]), its
    error, the new reader and the rest of the source. *)
Definition ReadResult : Type := list ascii * option ReadError * ChunkedReader * list ascii.

Definition readChunkData (len : nat) (cr : ChunkedReader) (s : list ascii) : ReadResult :=
  let toRead := if cr_n cr <? Z.of_nat len then cr_n cr else Z.of_nat len in
  let '(p, err, s) := ReadFull (Z.to_nat toRead) s in
  let cr := set_n (cr_n cr - Z.of_nat (length p)) cr in
  if (cr_n cr =? 0) && bool_decide (err = None) then
    match readCRLF s with
    | (Some e, s) => (p, Some e, set_err e cr, s)
    | (None, s) => (p, err, cr, s)
    end
  else (p, err, cr, s).

(** [Read] into a buffer of [len] bytes. *)
Definition Read (len : nat) (cr : ChunkedReader) (s : list ascii) : ReadResult :=
  match cr_err cr with
  | Some e => ([], Some e, cr, s)
  | None =>
      if finished cr || previewBoundary cr then ([], Some EOF, cr, s)
      else if cr_n cr =? 0 then
        match startChunk cr s with
        | (Some e, cr, s) =>
            ([], Some e, if bool_decide (e = EOF) then cr else set_err e cr, s)
        | (None, cr, s) => readChunkData len cr s
        end
      else readChunkData len cr s
  end.

(** [io.ReadAll]: reads until an error, and [io.EOF] is none. [sizes] gives the
    free space of the growing buffer at each read; [None] when out of fuel. *)
Fixpoint readAllFrom (fuel : nat) (sizes : nat → nat) (i : nat) (cr : ChunkedReader) (s : list ascii)
  : option ReadResult :=
  match fuel with
  | O => None
  | S fuel =>
      match Read (sizes i) cr s with
      | (p, Some e, cr, s) => Some (p, if bool_decide (e = EOF) then None else Some e, cr, s)
      | (p, None, cr, s) =>
          match readAllFrom fuel sizes (S i) cr s with
          | Some (q, e, cr, s) => Some (p ++ q, e, cr, s)
          | None => None
          end
      end
  end.

(** Every read without error takes a byte of the source, so one more step than
    there are bytes is enough ([ReadAll_total]). *)
Definition ReadAll (sizes : nat → nat) (cr : ChunkedReader) (s : list ascii) : option ReadResult :=
  readAllFrom (S (length s)) sizes 0 cr s.

Definition ReadChunkedBody (sizes : nat → nat) (s : list ascii) : option ReadResult :=
  ReadAll sizes NewChunkedReader s.
End Reader.

(** ** The writer *)

(** The underlying writer: the bytes it took and, when it is going to fail, how
    many more it takes before it does. *)
Record Sink := { out : list ascii; room : option nat }.

Definition sink_write (p : list ascii) (w : Sink) : nat * option WriteError * Sink :=
  match room w with
  | None => (length p, None, {| out := out w ++ p; room := None |})
  | Some k =>
      if (length p <=? k)%nat then
        (length p, None, {| out := out w ++ p; room := Some (k - length p)%nat |})
      else (k, Some WriteFault, {| out := out w ++ take k p; room := Some O |})
  end.

Definition chunk_header (p : list ascii) : list ascii :=
  bytes_of (FormatInt 16 (Z.of_nat (length p))) ++ [CR; LF].

Definition last_chunk : list ascii := ["0"%char; CR; LF; CR; LF].

(** The chunked writer over any [io.Writer]. *)
Section Writer.
Context {W : Type} (write : list ascii → W → nat * option WriteError * W).

Record ChunkedWriter := { cw_w : W; closed : bool }.

Definition NewChunkedWriter (w : W) : ChunkedWriter := {| cw_w := w; closed := false |}.
Definition with_w (w : W) (cw : ChunkedWriter) : ChunkedWriter :=
  {| cw_w := w; closed := closed cw |}.

Definition Write (p : list ascii) (cw : ChunkedWriter) : nat * option WriteError * ChunkedWriter :=
  if closed cw then (O, Some WriteOnClosed, cw)
  else if (length p =? 0)%nat then (O, None, cw)
  else
    match write (chunk_header p) (cw_w cw) with
    | (_, Some e, w) => (O, Some e, with_w w cw)
    | (_, None, w) =>
        match write p w with
        | (n, Some e, w) => (n, Some e, with_w w cw)
        | (_, None, w) =>
            match write [CR; LF] w with
            | (_, Some e, w) => (O, Some e, with_w w cw)
            | (_, None, w) => (length p, None, with_w w cw)
            end
        end
    end.

Definition Close (cw : ChunkedWriter) : option WriteError * ChunkedWriter :=
  if closed cw then (None, cw)
  else
    let '(_, err, w) := write last_chunk (cw_w cw) in
    (err, {| cw_w := w; closed := true |}).

Definition WriteChunkedBody (w : W) (data : list ascii) : option WriteError * W :=
  match Write data (NewChunkedWriter w) with
  | (_, Some e, cw) => (Some e, cw_w cw)
  | (_, None, cw) => let '(err, cw) := Close cw in (err, cw_w cw)
  end.
End Writer.
Arguments ChunkedWriter : clear implicits.

(** ** Lines *)

Lemma boundedLine_app ending k e l s :
  LF ∉ l → (length l < k)%nat → boundedLine ending k e (l ++ LF :: s) = (Ok (l ++ [LF]), s).
Proof.
  revert k. induction l as [|b l IH]; intros [|k] Hl Hk; simpl in *; try lia.
  - done.
  - rewrite not_elem_of_cons in Hl. destruct Hl as [Hb Hl].
    rewrite bool_decide_false by auto. rewrite IH by (done || lia). done.
Qed.

Lemma boundedLine_spec ending k e s :
  ∃ l s', s = l ++ s' ∧ (length l ≤ k)%nat ∧
    ((boundedLine ending k e s = (Ok l, s') ∧ l ≠ []) ∨
     boundedLine ending k e s = (Err e, s') ∨ boundedLine ending k e s = (Err ending, s')).
Proof.
  revert s. induction k as [|k IH]; intros s; [by exists [], s; auto|].
  destruct s as [|b s]; simpl; [exists [], []; split_and!; [done|simpl; lia|auto]|].
  case_bool_decide; [exists [b], s; split_and!; [done|simpl; lia|by left]|].
  destruct (IH s) as (l & s' & -> & Hl & Hc). exists (b :: l), s'.
  split_and!; [done|simpl; lia|]. destruct Hc as [[-> ?]|[-> | ->]]; simpl; auto.
Qed.

Lemma readBoundedLine_app ending limit e l s :
  LF ∉ bytes_of l → Z.of_nat (String.length l) < limit →
  readBoundedLine ending limit e (bytes_of l ++ LF :: s) = (Ok (l +:+ String LF ""), s).
Proof.
  intros Hl Hlen. unfold readBoundedLine.
  rewrite boundedLine_app; [|done|rewrite length_bytes_of; lia].
  cbn. by rewrite string_of_app, string_of_bytes.
Qed.

Lemma readBoundedLine_spec ending limit e s :
  ∃ l s', s = l ++ s' ∧ Z.of_nat (length l) ≤ Z.max 0 limit ∧
    ((readBoundedLine ending limit e s = (Ok (string_of l), s') ∧ l ≠ []) ∨
     readBoundedLine ending limit e s = (Err e, s') ∨
     readBoundedLine ending limit e s = (Err ending, s')).
Proof.
  unfold readBoundedLine.
  destruct (boundedLine_spec ending (Z.to_nat limit) e s) as (l & s' & -> & Hl & Hc).
  exists l, s'. split_and!; [done|lia|]. destruct Hc as [[-> ?]|[-> | ->]]; simpl; auto.
Qed.

(** ** Chunk-size lines *)

Lemma hex_forall (P : ascii → bool) n :
  0 ≤ n → (∀ c, is_digit 16 c = true → P c = true) → str_forall P (FormatChunkSize n) = true.
Proof. intros. apply FormatInt_forall; (done || lia). Qed.

Ltac by_bytes := intros [[] [] [] [] [] [] [] []]; vm_compute; (reflexivity || discriminate).

Lemma hex_not_space c : is_digit 16 c = true → negb (is_space c) = true.
Proof. revert c. by_bytes. Qed.

Lemma hex_not_in n c :
  0 ≤ n → is_digit 16 c = false → c ∉ bytes_of (FormatChunkSize n).
Proof. intros Hn Hc. apply (str_forall_not_in (is_digit 16)); [by apply hex_forall|done]. Qed.

Lemma FormatChunkSize_nonempty n : FormatChunkSize n ≠ "".
Proof. unfold FormatChunkSize, FormatInt. case_match; [done|apply format_digits_nonempty]. Qed.

Lemma ParseChunkSize_Format n :
  0 ≤ n ≤ max_int64 → ParseChunkSize (FormatChunkSize n) = Ok n.
Proof.
  intros Hn. unfold ParseChunkSize.
  rewrite trim_space_id by (apply hex_forall; [lia|apply hex_not_space]).
  rewrite bool_decide_false by apply FormatChunkSize_nonempty.
  rewrite (proj2 (index_byte_None _ ";")) by (apply hex_not_in; [lia|done]).
  unfold FormatChunkSize. rewrite parse_int_format by lia.
  by rewrite (proj2 (Z.ltb_ge _ _)) by lia.
Qed.

(** A chunk-size line as the reader splits it: the size and the text after it. *)
Lemma parseChunkHeaderLine_hex n ext :
  0 ≤ n ≤ max_int64 → LF ∉ bytes_of ext → ext = "" ∨ (∃ e, ext = String ";" e) →
  parseChunkHeaderLine (FormatChunkSize n +:+ ext +:+ String CR (String LF "")) =
  if MaxChunkSize <? n then Err ChunkSizeExceedsMaximum
  else Ok {| h_size := n; extensions := tl (split_byte ext ";") |}.
Proof.
  intros Hn Hlf Hext. unfold parseChunkHeaderLine.
  rewrite <- str_app_assoc, trim_suffix_app, trim_suffix_byte_none.
  2:{ rewrite bytes_of_app, not_elem_of_app. split; [apply hex_not_in; [lia|done]|done]. }
  assert (Hsplit : split_byte (FormatChunkSize n +:+ ext) ";" =
                   FormatChunkSize n :: tl (split_byte ext ";")).
  { assert (Hs : ";"%char ∉ bytes_of (FormatChunkSize n)) by (apply hex_not_in; [lia|done]).
    destruct Hext as [-> |[e ->]].
    - by rewrite str_app_nil_r, split_byte_none.
    - by rewrite split_byte_app. }
  rewrite Hsplit. cbn [hd tl]. by rewrite ParseChunkSize_Format.
Qed.

Definition ext_ok (ext : string) : Prop :=
  (ext = "" ∨ ∃ e, ext = String ";" e) ∧ LF ∉ bytes_of ext ∧ (String.length ext < 4000)%nat.

Lemma readChunkHeader_hex ending n ext s :
  0 ≤ n ≤ max_int64 → ext_ok ext →
  readChunkHeader ending (bytes_of (FormatChunkSize n +:+ ext) ++ CR :: LF :: s) =
  (if MaxChunkSize <? n then Err ChunkSizeExceedsMaximum
   else Ok {| h_size := n; extensions := tl (split_byte ext ";") |}, s).
Proof.
  intros Hn (Hext & Hlf & Hlen). unfold readChunkHeader.
  pose proof (FormatInt_length 16 n Hn) as Hl. fold (FormatChunkSize n) in Hl.
  replace (bytes_of (FormatChunkSize n +:+ ext) ++ CR :: LF :: s)
    with (bytes_of (FormatChunkSize n +:+ ext +:+ String CR "") ++ LF :: s).
  2:{ rewrite <- str_app_assoc, (bytes_of_app _ (String CR "")), <- app_assoc. done. }
  rewrite readBoundedLine_app.
  - cbn [result_bind]. f_equal. rewrite <- (parseChunkHeaderLine_hex n ext) by done.
    f_equal. by rewrite !str_app_assoc.
  - rewrite !bytes_of_app, !not_elem_of_app. split_and!; [apply hex_not_in; [lia|done]|done|].
    cbn. rewrite list_elem_of_singleton. done.
  - rewrite !str_length_app. cbn [String.length]. unfold MaxChunkHeaderLength. lia.
Qed.

(** ** Reading chunks *)

(** Between two chunks: nothing pending, no error, not at an end. *)
Definition between (cr : ChunkedReader) : Prop :=
  cr_err cr = None ∧ cr_n cr = 0 ∧ finished cr = false ∧ previewBoundary cr = false.

Definition enc_chunk (p : list ascii) : list ascii :=
  match p with
  | [] => []
  | _ => chunk_header p ++ p ++ [CR; LF]
  end.

Definition encode (ps : list (list ascii)) : list ascii := concat (map enc_chunk ps).

Definition chunk_ok (p : list ascii) : Prop := Z.of_nat (length p) ≤ MaxChunkSize.

Definition prepend (p : list ascii) (r : option ReadResult) : option ReadResult :=
  match r with
  | Some (q, e, cr, s) => Some (p ++ q, e, cr, s)
  | None => None
  end.

Lemma prepend_app p q r : prepend p (prepend q r) = prepend (p ++ q) r.
Proof. destruct r as [[[[? ?] ?] ?]|]; simpl; [by rewrite app_assoc|done]. Qed.

Lemma prepend_nil r : prepend [] r = r.
Proof. by destruct r as [[[[? ?] ?] ?]|]. Qed.

Lemma readAllFrom_S ending fuel sizes i cr s :
  readAllFrom ending (S fuel) sizes i cr s =
  match Read ending (sizes i) cr s with
  | (p, Some e, cr, s) => Some (p, if bool_decide (e = EOF) then None else Some e, cr, s)
  | (p, None, cr, s) => prepend p (readAllFrom ending fuel sizes (S i) cr s)
  end.
Proof. done. Qed.

Lemma set_n_set_n a b cr : set_n a (set_n b cr) = set_n a cr.
Proof. done. Qed.

Lemma set_n_id cr : set_n (cr_n cr) cr = cr.
Proof. by destruct cr. Qed.

Lemma ReadFull_app ending p s : ReadFull ending (length p) (p ++ s) = (p, None, s).
Proof.
  unfold ReadFull. rewrite length_app, (proj2 (Nat.leb_le _ _)) by lia.
  by rewrite take_app_length, drop_app_length.
Qed.

Lemma ReadFull_app' ending n p s : n = length p → ReadFull ending n (p ++ s) = (p, None, s).
Proof. intros ->. apply ReadFull_app. Qed.

(** One read of chunk data that is all there: the last read of a chunk also
    takes its terminator. *)
Lemma readChunkData_spec ending len cr d s :
  cr_n cr = Z.of_nat (length d) → d ≠ [] →
  readChunkData ending len cr (d ++ CR :: LF :: s) =
  if (length d <=? len)%nat then (d, None, set_n 0 cr, s)
  else (take len d, None, set_n (Z.of_nat (length d - len)) cr, drop len d ++ CR :: LF :: s).
Proof.
  intros Hn Hd. unfold readChunkData. rewrite Hn. destruct (Nat.leb_spec (length d) len) as [Hle|Hlt].
  - rewrite ReadFull_app' by (split_if; lia). cbn [cr_n set_n].
    rewrite Z.sub_diag. cbn [Z.eqb]. rewrite bool_decide_true by done. cbn [andb].
    unfold readCRLF. change (CR :: LF :: s) with ([CR; LF] ++ s).
    rewrite (ReadFull_app' _ 2 [CR; LF]) by done. by rewrite bool_decide_true.
  - rewrite <- (take_drop len d) at 3. rewrite <- app_assoc, ReadFull_app'.
    2:{ rewrite length_take. split_if; lia. }
    rewrite length_take, Nat.min_l by lia. cbn [cr_n set_n].
    rewrite (proj2 (Z.eqb_neq _ _)) by lia. cbn [andb]. do 2 f_equal. f_equal. lia.
Qed.

Lemma readAll_data ending sizes cr d s fuel i :
  (∀ i, (0 < sizes i)%nat) → between cr → d ≠ [] →
  (length (d ++ CR :: LF :: s) < fuel)%nat →
  ∃ fuel' i', (length s < fuel')%nat ∧
    readAllFrom ending fuel sizes i (set_n (Z.of_nat (length d)) cr) (d ++ CR :: LF :: s) =
    prepend d (readAllFrom ending fuel' sizes i' cr s).
Proof.
  intros Hs (He & Hn & Hf & Hb). revert d i. induction fuel as [|fuel IH]; intros d i Hd Hfuel; [lia|].
  rewrite length_app in Hfuel. simpl in Hfuel.
  assert (Hlen : (0 < length d)%nat) by (destruct d; [done|simpl; lia]).
  rewrite readAllFrom_S. unfold Read. cbn [cr_err set_n finished previewBoundary cr_n].
  rewrite He, Hf, Hb. cbn [orb]. rewrite (proj2 (Z.eqb_neq _ _)) by lia.
  rewrite readChunkData_spec by done. destruct (Nat.leb_spec (length d) (sizes i)) as [Hle|Hlt].
  - exists fuel, (S i). split; [lia|]. rewrite set_n_set_n. rewrite <- Hn at 1. by rewrite set_n_id.
  - rewrite set_n_set_n, <- length_drop.
    pose proof (length_drop d (sizes i)) as Hld. pose proof (Hs i).
    destruct (IH (drop (sizes i) d) (S i)) as (fuel' & i' & Hfuel' & ->).
    + intros E. rewrite E in Hld. simpl in Hld. lia.
    + rewrite length_app. simpl. lia.
    + exists fuel', i'. split; [done|]. by rewrite prepend_app, take_drop.
Qed.

Lemma between_step ending len cr s :
  between cr →
  Read ending len cr s =
  match startChunk ending cr s with
  | (Some e, cr, s) => ([], Some e, if bool_decide (e = EOF) then cr else set_err e cr, s)
  | (None, cr, s) => readChunkData ending len cr s
  end.
Proof. intros (He & Hn & Hf & Hb). unfold Read. by rewrite He, Hf, Hb, Hn. Qed.

Lemma chunk_header_hex p : chunk_header p = bytes_of (FormatChunkSize (Z.of_nat (length p)) +:+ "") ++ [CR; LF].
Proof. by rewrite str_app_nil_r. Qed.

Lemma ext_ok_nil : ext_ok "".
Proof. split_and!; [by left|apply not_elem_of_nil|simpl; lia]. Qed.
#[local] Hint Resolve ext_ok_nil : core.

Lemma startChunk_enc ending cr p s :
  p ≠ [] → chunk_ok p →
  startChunk ending cr (chunk_header p ++ s) = (None, set_n (Z.of_nat (length p)) cr, s).
Proof.
  unfold chunk_ok, MaxChunkSize. intros Hp Hok. unfold startChunk.
  rewrite chunk_header_hex, <- app_assoc. cbn [app].
  rewrite readChunkHeader_hex by (done || unfold max_int64; lia).
  rewrite (proj2 (Z.ltb_ge _ _)) by (unfold MaxChunkSize; lia). cbn [h_size].
  destruct p; [done|]. by rewrite (proj2 (Z.ltb_lt _ _)) by (simpl; lia).
Qed.

Lemma readAll_chunk ending sizes cr p s fuel i :
  (∀ i, (0 < sizes i)%nat) → between cr → chunk_ok p →
  (length (enc_chunk p ++ s) < fuel)%nat →
  ∃ fuel' i', (length s < fuel')%nat ∧
    readAllFrom ending fuel sizes i cr (enc_chunk p ++ s) =
    prepend p (readAllFrom ending fuel' sizes i' cr s).
Proof.
  intros Hs Hcr Hok Hfuel. destruct p as [|b p0] eqn:E.
  { exists fuel, i. by rewrite prepend_nil. }
  rewrite <- E in *. assert (Hp : p ≠ []) by (by subst).
  replace (enc_chunk p) with (chunk_header p ++ p ++ [CR; LF]) in * by (by subst). clear E b p0.
  rewrite <- !app_assoc in Hfuel |- *. cbn [app] in Hfuel |- *.
  (* the header and the first read of data happen in one Read *)
  destruct fuel as [|fuel]; [lia|]. rewrite !length_app in Hfuel.
  assert (Hh : (0 < length (chunk_header p))%nat)
    by (unfold chunk_header; rewrite length_app; simpl; lia).
  assert (Hstep : readAllFrom ending (S fuel) sizes i cr (chunk_header p ++ p ++ CR :: LF :: s) =
                  readAllFrom ending (S fuel) sizes i (set_n (Z.of_nat (length p)) cr)
                              (p ++ CR :: LF :: s)).
  { rewrite !readAllFrom_S. rewrite between_step, startChunk_enc by done.
    unfold Read. destruct Hcr as (He & Hn & Hf & Hb). cbn [cr_err set_n finished previewBoundary cr_n].
    rewrite He, Hf, Hb. cbn [orb]. rewrite (proj2 (Z.eqb_neq _ _)); [done|].
    destruct p; [done|simpl; lia]. }
  rewrite Hstep. apply readAll_data; try done. rewrite length_app. lia.
Qed.

Lemma readAll_chunks ending sizes cr ps s fuel i :
  (∀ i, (0 < sizes i)%nat) → between cr → Forall chunk_ok ps →
  (length (encode ps ++ s) < fuel)%nat →
  ∃ fuel' i', (length s < fuel')%nat ∧
    readAllFrom ending fuel sizes i cr (encode ps ++ s) =
    prepend (concat ps) (readAllFrom ending fuel' sizes i' cr s).
Proof.
  intros Hs Hcr Hps. revert fuel i. induction Hps as [|p ps Hp _ IH]; intros fuel i Hfuel.
  { exists fuel, i. by rewrite prepend_nil. }
  unfold encode in *. cbn [map concat] in *. rewrite <- app_assoc in Hfuel |- *.
  destruct (readAll_chunk ending sizes cr p (concat (map enc_chunk ps) ++ s) fuel i)
    as (f1 & i1 & Hf1 & ->); [done..|].
  destruct (IH f1 i1 Hf1) as (f2 & i2 & Hf2 & ->). exists f2, i2. by rewrite prepend_app.
Qed.

(** ** The end of a body *)

Lemma readTrailerFrom_S ending fuel count bytes s :
  readTrailerFrom ending (S fuel) count bytes s =
  match readBoundedLine ending MaxTrailerLineLength ErrTrailerLineTooLong s with
  | (Err e, s) => (Some (if bool_decide (e = EOF) then ErrUnexpectedEOF else e), s)
  | (Ok line, s) =>
      if bool_decide (line = String CR (String LF "")) || bool_decide (line = String LF "")
      then (None, s)
      else if MaxTrailerCount <? count + 1 then (Some ErrTooManyTrailers, s)
      else if MaxTrailerBytes <? bytes + Z.of_nat (String.length line)
      then (Some ErrTrailersTooLarge, s)
      else readTrailerFrom ending fuel (count + 1) (bytes + Z.of_nat (String.length line)) s
  end.
Proof. done. Qed.

Lemma readTrailer_unfold ending s :
  readTrailer ending s = readTrailerFrom ending (S (Z.to_nat (MaxTrailerCount + 1))) 0 0 s.
Proof. unfold readTrailer, MaxTrailerCount. f_equal. Qed.

Lemma readTrailer_empty ending s : readTrailer ending (CR :: LF :: s) = (None, s).
Proof.
  rewrite readTrailer_unfold, readTrailerFrom_S.
  change (CR :: LF :: s) with (bytes_of (String CR "") ++ LF :: s).
  rewrite readBoundedLine_app; [|cbn; by rewrite list_elem_of_singleton|done].
  by rewrite bool_decide_true.
Qed.

(** The fuel of [readTrailer] is never used up: more of it changes nothing. *)
Lemma readTrailerFrom_fuel ending fuel count bytes s :
  0 ≤ count ≤ MaxTrailerCount → MaxTrailerCount + 1 - count < Z.of_nat fuel →
  readTrailerFrom ending (S fuel) count bytes s = readTrailerFrom ending fuel count bytes s.
Proof.
  revert count bytes s. induction fuel as [|fuel IH]; intros count bytes s Hc Hf.
  - lia.
  - rewrite readTrailerFrom_S, (readTrailerFrom_S ending fuel).
    destruct (readBoundedLine _ _ _ s) as [[line|e] s']; [|done].
    destruct (_ || _); [done|]. split_if; [done|]. split_if; [done|]. apply IH; lia.
Qed.

Lemma readTrailerFrom_spec ending fuel count bytes s :
  0 ≤ bytes ≤ MaxTrailerBytes →
  ∃ used, s = used ++ (readTrailerFrom ending fuel count bytes s).2 ∧
          bytes + Z.of_nat (length used) ≤ MaxTrailerBytes + MaxTrailerLineLength.
Proof.
  revert count bytes s. induction fuel as [|fuel IH]; intros count bytes s Hb.
  { exists []. simpl. unfold MaxTrailerLineLength. split; [done|lia]. }
  rewrite readTrailerFrom_S.
  destruct (readBoundedLine_spec ending MaxTrailerLineLength ErrTrailerLineTooLong s)
    as (l & s' & -> & Hl & Hc). unfold MaxTrailerLineLength in *.
  assert (Hstop : ∃ used, l ++ s' = used ++ s' ∧
    bytes + Z.of_nat (length used) ≤ MaxTrailerBytes + 8192) by (exists l; split; [done|lia]).
  destruct Hc as [[-> _]|[-> | ->]]; try exact Hstop.
  destruct (_ || _); [exact Hstop|]. split_if; [exact Hstop|]. split_if; [exact Hstop|].
  rewrite <- length_bytes_of, bytes_of_string in E0 |- *.
  destruct (IH (count + 1) (bytes + Z.of_nat (length l)) s') as (used & E1 & Hused); [lia|].
  exists (l ++ used). rewrite length_app, <- app_assoc. split; [by rewrite <- E1|lia].
Qed.

Lemma finishZeroChunk_enc ending header cr s :
  finishZeroChunk ending header cr (CR :: LF :: s) =
  (EOF, if previewEnabled cr && negb (previewContinued cr)
        then at_preview (hasExtension header "ieof") cr else set_finished cr, s).
Proof. unfold finishZeroChunk. rewrite readTrailer_empty. by destruct (_ && _). Qed.

(** The zero chunk with an extension, such as "; ieof". *)
Definition zero_chunk (ext : string) : list ascii := bytes_of ("0" +:+ ext) ++ [CR; LF; CR; LF].

Lemma readAll_zero ending sizes cr ext s fuel i :
  between cr → ext_ok ext → (0 < fuel)%nat →
  readAllFrom ending fuel sizes i cr (zero_chunk ext ++ s) =
  Some ([], None,
        if previewEnabled cr && negb (previewContinued cr)
        then at_preview (hasExtension {| h_size := 0; extensions := tl (split_byte ext ";") |} "ieof") cr
        else set_finished cr, s).
Proof.
  intros Hcr Hext Hfuel. destruct fuel as [|fuel]; [lia|].
  rewrite readAllFrom_S, between_step by done. unfold startChunk, zero_chunk.
  rewrite <- app_assoc. cbn [app]. change "0" with (FormatChunkSize 0).
  rewrite readChunkHeader_hex by (done || unfold max_int64; lia).
  rewrite (proj2 (Z.ltb_ge _ _)) by (unfold MaxChunkSize; lia). cbn [h_size Z.ltb Z.compare].
  rewrite finishZeroChunk_enc. rewrite bool_decide_true by done. done.
Qed.

(** ** Every read makes progress *)

Lemma ReadFull_spec ending n s p e s' :
  ReadFull ending n s = (p, e, s') →
  s = p ++ s' ∧ (length p ≤ n)%nat ∧ (e = None → length p = n).
Proof.
  unfold ReadFull. destruct (Nat.leb_spec n (length s)).
  - intros [= <- <- <-]. rewrite take_drop, length_take. split_and!; [done|lia|lia].
  - destruct s as [|b s]; intros [= <- <- <-]; rewrite ?app_nil_r; split_and!; try done; simpl in *; lia.
Qed.

Lemma readCRLF_spec ending s : ∃ used, s = used ++ (readCRLF ending s).2.
Proof.
  unfold readCRLF. destruct (ReadFull ending 2 s) as [[p e] s'] eqn:E.
  apply ReadFull_spec in E as (-> & _). exists p. by destruct e.
Qed.

Lemma readChunkHeader_spec ending s :
  ∃ used, s = used ++ (readChunkHeader ending s).2 ∧ Z.of_nat (length used) ≤ MaxChunkHeaderLength ∧
    (∀ h, (readChunkHeader ending s).1 = Ok h → 0 ≤ h_size h ≤ MaxChunkSize).
Proof.
  unfold readChunkHeader.
  destruct (readBoundedLine_spec ending MaxChunkHeaderLength ErrChunkHeaderTooLong s)
    as (l & s' & -> & Hl & Hc). exists l. unfold MaxChunkHeaderLength in *.
  assert (Hsize : ∀ line h, parseChunkHeaderLine line = Ok h → 0 ≤ h_size h ≤ MaxChunkSize).
  { intros line h. unfold parseChunkHeaderLine, ParseChunkSize. cbv zeta.
    case_bool_decide; [done|]. destruct (parse_int 16 _); [|done].
    split_if; [done|]. split_if; [done|]. intros [= <-]. simpl. lia. }
  destruct Hc as [[-> _]|[-> | ->]]; simpl; split_and!; try done; try lia. apply Hsize.
Qed.

Lemma readChunkData_progress ending len cr s p e cr' s' :
  0 ≤ cr_n cr ≤ MaxChunkSize → readChunkData ending len cr s = (p, e, cr', s') →
  (∃ used, s = used ++ s' ∧ (length p ≤ length used)%nat) ∧ 0 ≤ cr_n cr' ≤ MaxChunkSize ∧
  (length p ≤ len)%nat ∧ ((0 < len)%nat → 0 < cr_n cr → e = None → p ≠ []).
Proof.
  intros Hn H. unfold readChunkData in H.
  destruct (ReadFull _ _ s) as [[q err] s1] eqn:E. apply ReadFull_spec in E as (-> & Hl & He).
  cbn [cr_n set_n] in H.
  assert (Hle : (Z.of_nat (length q) ≤ cr_n cr) ∧ (length q ≤ len)%nat)
    by (destruct (Z.ltb_spec (cr_n cr) (Z.of_nat len)); lia).
  assert (Hpos : (0 < len)%nat → 0 < cr_n cr → err = None → q ≠ []).
  { intros Hl0 Hn0 ->. specialize (He eq_refl). intros ->. simpl in He.
    destruct (Z.ltb_spec (cr_n cr) (Z.of_nat len)); lia. }
  destruct (_ && _) eqn:Ez in H.
  - apply andb_true_iff in Ez as [_ ->%bool_decide_eq_true].
    destruct (readCRLF_spec ending s1) as [used E1]. destruct (readCRLF ending s1) as [[e1|] s2];
      injection H as <- <- <- <-; simpl in E1; subst s1; cbn [cr_n set_n set_err];
      (split_and!; [exists (q ++ used); rewrite length_app, app_assoc; split; [done|lia]|lia|lia|lia|]);
      naive_solver.
  - injection H as <- <- <- <-. cbn [cr_n set_n].
    split_and!; [exists q; split; [done|lia]|lia|lia|lia|done].
Qed.

Lemma startChunk_progress ending cr s e cr' s' :
  cr_n cr = 0 → startChunk ending cr s = (e, cr', s') →
  (∃ used, s = used ++ s') ∧ 0 ≤ cr_n cr' ≤ MaxChunkSize ∧ (e = None → 0 < cr_n cr').
Proof.
  intros Hn H. unfold startChunk in H.
  destruct (readChunkHeader_spec ending s) as (used & E & _ & Hh).
  destruct (readChunkHeader ending s) as [[h|e1] s1]; simpl in E, Hh; subst s.
  - specialize (Hh h eq_refl). destruct (Z.ltb_spec 0 (h_size h)).
    + injection H as <- <- <-. simpl. split_and!; [by exists used|lia|lia|lia].
    + unfold finishZeroChunk in H.
      destruct (readTrailerFrom_spec ending (Z.to_nat (MaxTrailerCount + 2)) 0 0 s1)
        as (used2 & E2 & _); [unfold MaxTrailerBytes; lia|]. fold (readTrailer ending s1) in E2.
      destruct (readTrailer ending s1) as [[e2|] s2]; simpl in E2; subst s1;
        [|destruct (_ && _)]; injection H as <- <- <-; simpl;
        (split_and!; [exists (used ++ used2); by rewrite app_assoc|lia|unfold MaxChunkSize; lia|done]).
  - injection H as <- <- <-. split_and!; [by exists used|lia|unfold MaxChunkSize; lia|done].
Qed.

Lemma Read_progress ending len cr s p e cr' s' :
  0 ≤ cr_n cr ≤ MaxChunkSize → Read ending len cr s = (p, e, cr', s') →
  (∃ used, s = used ++ s' ∧ (length p ≤ length used)%nat) ∧ 0 ≤ cr_n cr' ≤ MaxChunkSize ∧
  ((0 < len)%nat → e = None → p ≠ []).
Proof.
  intros Hn H. unfold Read in H.
  assert (Hstop : ∀ e0 c, ([], Some e0, c, s) = (p, e, cr', s') → c = cr →
    (∃ used, s = used ++ s' ∧ (length p ≤ length used)%nat) ∧ 0 ≤ cr_n cr' ≤ MaxChunkSize ∧
    ((0 < len)%nat → e = None → p ≠ [])).
  { intros e0 c [= <- <- <- <-] ->. split_and!; [by exists []|lia|lia|done]. }
  destruct (cr_err cr); [by eapply Hstop|]. destruct (_ || _); [by eapply Hstop|].
  destruct (Z.eqb_spec (cr_n cr) 0) as [E|E].
  - destruct (startChunk ending cr s) as [[e1 cr1] s1] eqn:Hst.
    apply startChunk_progress in Hst as ([used ->] & Hn1 & Hpos); [|done]. destruct e1 as [e1|].
    + injection H as <- <- <- <-. split_and!; [exists used; split; [done|simpl; lia]| | |done];
        case_bool_decide; simpl; lia.
    + specialize (Hpos eq_refl). apply readChunkData_progress in H as ((u2 & -> & Hu) & Hn2 & _ & Hp); [|done].
      split_and!; [exists (used ++ u2); rewrite app_assoc, length_app; split; [done|lia]|lia|lia|auto].
  - apply readChunkData_progress in H as (Hu & Hn2 & _ & Hp); [|done].
    split_and!; [done|lia|lia|]. intros. apply Hp; (done || lia).
Qed.

Lemma readAll_total ending sizes fuel i cr s :
  (∀ i, (0 < sizes i)%nat) → 0 ≤ cr_n cr ≤ MaxChunkSize → (length s < fuel)%nat →
  ∃ p e cr' s' used, readAllFrom ending fuel sizes i cr s = Some (p, e, cr', s') ∧
    s = used ++ s' ∧ (length p ≤ length used)%nat ∧ e ≠ Some EOF.
Proof.
  intros Hs. revert i cr s. induction fuel as [|fuel IH]; intros i cr s Hn Hf; [lia|].
  rewrite readAllFrom_S. destruct (Read ending (sizes i) cr s) as [[[p e] cr1] s1] eqn:E.
  apply Read_progress in E as ((used & -> & Hl) & Hn1 & Hp); [|done]. destruct e as [e|].
  - do 4 eexists. exists used. split_and!; [done|done|done|]. case_bool_decide; congruence.
  - specialize (Hp (Hs i) eq_refl).
    assert (0 < length p)%nat by (destruct p; [done|simpl; lia]). rewrite length_app in Hf.
    destruct (IH (S i) cr1 s1 Hn1) as (q & e & cr2 & s2 & u2 & -> & -> & Hl2 & He); [lia|].
    exists (p ++ q), e, cr2, s2, (used ++ u2). rewrite !length_app, app_assoc.
    split_and!; [done|done|lia|done].
Qed.

(** ** Writing *)

Definition fresh_sink : Sink := {| out := []; room := None |}.

(** The calls a client makes: some writes, then [Close]. *)
Definition write_body (ps : list (list ascii)) (w : Sink) : ChunkedWriter Sink :=
  (Close sink_write (foldl (λ cw p, (Write sink_write p cw).2) (NewChunkedWriter w) ps)).2.

Lemma Write_ok p cw :
  closed cw = false → room (cw_w cw) = None →
  Write sink_write p cw = (length p, None, with_w {| out := out (cw_w cw) ++ enc_chunk p; room := None |} cw).
Proof.
  intros Hc Hr. unfold Write. rewrite Hc. destruct p as [|b p].
  - simpl. rewrite app_nil_r. destruct cw as [[]]; simpl in *. by subst.
  - cbn [length Nat.eqb]. unfold sink_write. rewrite Hr. cbn [room out].
    by rewrite <- !app_assoc.
Qed.

Lemma writes_ok ps cw :
  closed cw = false → room (cw_w cw) = None →
  foldl (λ cw p, (Write sink_write p cw).2) cw ps =
  with_w {| out := out (cw_w cw) ++ encode ps; room := None |} cw.
Proof.
  revert cw. induction ps as [|p ps IH]; intros cw Hc Hr; simpl.
  - rewrite app_nil_r. destruct cw as [[]]; simpl in *. by subst.
  - rewrite Write_ok by done. cbn [snd]. rewrite IH by done. cbn [cw_w with_w out].
    unfold with_w, encode. cbn. by rewrite <- app_assoc.
Qed.

Lemma write_body_ok ps :
  write_body ps fresh_sink =
  {| cw_w := {| out := encode ps ++ last_chunk; room := None |}; closed := true |}.
Proof. unfold write_body. by rewrite writes_ok. Qed.

(** Everything a sink took is a prefix of what it was sent, all of it when
    there was no error. *)
Lemma sink_write_spec p w :
  match sink_write p w with
  | (n, e, w') =>
      out w' = out w ++ match room w with None => p | Some k => take k p end ∧
      (e = None ↔ match room w with None => True | Some k => (length p ≤ k)%nat end) ∧
      room w' = match room w with None => None | Some k => Some (k - length p)%nat end
  end.
Proof.
  unfold sink_write. destruct (room w) as [k|]; [|done].
  destruct (Nat.leb_spec (length p) k); simpl; split_and!; try done; try (f_equal; lia).
  - by rewrite take_ge.
  - split; [done|lia].
Qed.

Definition fits (w : Sink) (p : list ascii) : Prop :=
  match room w with None => True | Some k => (length p ≤ k)%nat end.

Definition taken (w : Sink) (p : list ascii) : list ascii :=
  match room w with None => p | Some k => take k p end.

Lemma sink_write_cases p w :
  (∃ n w', sink_write p w = (n, None, w') ∧ fits w p ∧ out w' = out w ++ p ∧
           (∀ q, fits w (p ++ q) ↔ fits w' q) ∧ (∀ q, taken w (p ++ q) = p ++ taken w' q)) ∨
  (∃ n w', sink_write p w = (n, Some WriteFault, w') ∧ ¬ fits w p ∧
           (∀ q, out w' = out w ++ taken w (p ++ q)) ∧ (∀ q, ¬ fits w (p ++ q))).
Proof.
  unfold sink_write, fits, taken. destruct (room w) as [k|].
  - destruct (Nat.leb_spec (length p) k) as [Hle|Hlt]; [left|right].
    + do 2 eexists. split_and!; [done|lia|done| |]; intros q; cbn [room].
      * rewrite length_app. lia.
      * by rewrite take_app, (take_ge p) by lia.
    + do 2 eexists. split_and!; [done|lia| |]; intros q; cbn [out].
      * rewrite take_app, (proj2 (Nat.sub_0_le k _)) by lia. by rewrite app_nil_r.
      * rewrite length_app. lia.
  - left. do 2 eexists. done.
Qed.

Lemma WriteChunkedBody_spec data w :
  let whole := enc_chunk data ++ last_chunk in
  out (WriteChunkedBody sink_write w data).2 = out w ++ taken w whole ∧
  ((WriteChunkedBody sink_write w data).1 = None ↔ fits w whole).
Proof.
  cbv zeta. unfold WriteChunkedBody, Write, Close, NewChunkedWriter. cbn [closed cw_w with_w].
  assert (Hclose : ∀ w, let r := sink_write last_chunk w in
    out r.2 = out w ++ taken w last_chunk ∧ (r.1.2 = None ↔ fits w last_chunk)).
  { intros w1. pose proof (sink_write_spec last_chunk w1) as H.
    destruct (sink_write last_chunk w1) as [[n e] w2]. cbn [fst snd] in *. unfold fits, taken. tauto. }
  destruct data as [|b data0] eqn:E; cbn [length Nat.eqb closed cw_w].
  { specialize (Hclose w). destruct (sink_write last_chunk w) as [[n e] w']. done. }
  assert (Henc : enc_chunk (b :: data0) = chunk_header (b :: data0) ++ (b :: data0) ++ [CR; LF]) by done.
  rewrite Henc, <- E, <- !app_assoc. clear E Henc.
  destruct (sink_write_cases (chunk_header data) w)
    as [(n1 & w1 & -> & _ & Ho1 & Hf1 & Ht1)|(n1 & w1 & -> & _ & Ho1 & Hf1)];
    [|cbn [cw_w fst snd]; split; [apply Ho1|split; [done|by intros ?%Hf1]]].
  cbn [closed cw_w with_w]. rewrite Ht1, Hf1.
  destruct (sink_write_cases data w1)
    as [(n2 & w2 & -> & _ & Ho2 & Hf2 & Ht2)|(n2 & w2 & -> & _ & Ho2 & Hf2)].
  2:{ cbn [cw_w with_w fst snd].
      split; [by rewrite (Ho2 ([CR; LF] ++ last_chunk)), Ho1, <- app_assoc|split; [done|by intros ?%Hf2]]. }
  cbn [closed cw_w with_w]. rewrite Ht2, Hf2.
  destruct (sink_write_cases [CR; LF] w2)
    as [(n3 & w3 & -> & _ & Ho3 & Hf3 & Ht3)|(n3 & w3 & -> & _ & Ho3 & Hf3)].
  2:{ cbn [cw_w with_w fst snd].
      split; [by rewrite (Ho3 last_chunk), Ho2, Ho1, <- !app_assoc|split; [done|by intros ?%Hf3]]. }
  cbn [closed cw_w with_w]. rewrite Ht3, Hf3. specialize (Hclose w3).
  destruct (sink_write last_chunk w3) as [[n4 e4] w4]. cbn [fst snd closed cw_w] in *.
  destruct Hclose as [-> ->]. by rewrite Ho3, Ho2, Ho1, <- !app_assoc.
Qed.

Lemma ReadChunkedBody_encode ending sizes ps rest :
  (∀ i, (0 < sizes i)%nat) → Forall chunk_ok ps →
  ReadChunkedBody ending sizes (encode ps ++ last_chunk ++ rest) = Some (concat ps, None, set_finished NewChunkedReader, rest).
Proof.
  intros Hs Hps. unfold ReadChunkedBody, ReadAll.
  destruct (readAll_chunks ending sizes NewChunkedReader ps (last_chunk ++ rest)
              (S (length (encode ps ++ last_chunk ++ rest))) 0) as (f & i & Hf & ->);
    [done|done|done|lia|].
  change last_chunk with (zero_chunk "").
  rewrite readAll_zero by (done || lia). cbn. by rewrite app_nil_r.
Qed.

(** ** Properties *)

(** C1: what the writer writes the reader reads back, whatever the sizes of the
    writes (up to the chunk limit) and of the read buffers: exactly the bytes
    written, no error, and not one byte of what follows on the connection
    (the next request) is consumed. *)
Theorem chunked_roundtrip ending sizes ps rest :
  (∀ i, (0 < sizes i)%nat) → Forall chunk_ok ps →
  ReadChunkedBody ending sizes (out (cw_w (write_body ps fresh_sink)) ++ rest) =
  Some (concat ps, None, set_finished NewChunkedReader, rest).
Proof.
  intros Hs Hps. rewrite write_body_ok. cbn [cw_w out]. rewrite <- app_assoc. by apply ReadChunkedBody_encode.
Qed.

Lemma chunked_roundtrip_witness :
  ReadChunkedBody EOF (λ _, 2%nat)
    (out (cw_w (write_body [bytes_of "hello"; []; bytes_of "icap"] fresh_sink)) ++ bytes_of "OPTIONS")
  = Some (bytes_of "helloicap", None, set_finished NewChunkedReader, bytes_of "OPTIONS").
Proof.
  apply (chunked_roundtrip EOF (λ _, 2%nat) [bytes_of "hello"; []; bytes_of "icap"]).
  - intros _. lia.
  - repeat constructor; vm_compute; discriminate.
Defined.

(** Reading a body always terminates, on any bytes whatsoever: the result
    is the body or an error other than [io.EOF], the bytes delivered are no
    more than the bytes taken from the connection, and what is left is a
    suffix of the input. *)
Theorem ReadChunkedBody_total ending sizes s :
  (∀ i, (0 < sizes i)%nat) →
  ∃ p e cr rest used, ReadChunkedBody ending sizes s = Some (p, e, cr, rest) ∧
    s = used ++ rest ∧ (length p ≤ length used)%nat ∧ e ≠ Some EOF.
Proof. intros Hs. apply readAll_total; [done|simpl; unfold MaxChunkSize; lia|lia]. Qed.

Lemma ReadChunkedBody_total_witness :
  ∃ p e cr rest used, ReadChunkedBody EOF (λ _, 1%nat) (bytes_of "zz") = Some (p, e, cr, rest) ∧
    bytes_of "zz" = used ++ rest ∧ (length p ≤ length used)%nat ∧ e ≠ Some EOF.
Proof. apply (ReadChunkedBody_total EOF (λ _, 1%nat)). intros _. lia. Defined.

(** The reader's memory is bounded whatever the peer sends: a chunk-size
    line takes at most 4096 bytes of the connection and an accepted size is
    between 0 and 1 MiB, and the trailers of a body take at most 32 KiB and one
    more line. *)
Theorem reader_bounds ending s :
  (∃ used, s = used ++ (readChunkHeader ending s).2 ∧
           Z.of_nat (length used) ≤ MaxChunkHeaderLength) ∧
  (∀ h, (readChunkHeader ending s).1 = Ok h → 0 ≤ h_size h ≤ MaxChunkSize) ∧
  (∃ used, s = used ++ (readTrailer ending s).2 ∧
           Z.of_nat (length used) ≤ MaxTrailerBytes + MaxTrailerLineLength).
Proof.
  destruct (readChunkHeader_spec ending s) as (used & E & Hl & Hh).
  destruct (readTrailerFrom_spec ending (Z.to_nat (MaxTrailerCount + 2)) 0 0 s) as (u2 & E2 & Hl2);
    [unfold MaxTrailerBytes; lia|].
  split_and!; [by exists used|done|exists u2; split; [done|lia]].
Qed.

(** C3: the preview exchange. A reader in preview mode delivers the preview and
    stops exactly at its terminator; the body can be resumed once, and then
    reads to its own end; resuming before the boundary or a second time fails.
    When the terminator carries the [ieof] extension the body is complete and
    cannot be resumed. *)
Theorem preview_exchange ending sizes ps qs rest :
  (∀ i, (0 < sizes i)%nat) → Forall chunk_ok ps → Forall chunk_ok qs →
  let cr0 := EnablePreview NewChunkedReader in
  ContinueAfterPreview cr0 = Err ErrPreviewNotAtBoundary ∧
  (∃ cr1 cr2 cr3,
     ReadAll ending sizes cr0 (encode ps ++ last_chunk ++ encode qs ++ last_chunk ++ rest) =
       Some (concat ps, None, cr1, encode qs ++ last_chunk ++ rest) ∧
     PreviewBoundary cr1 = (true, false) ∧
     ContinueAfterPreview cr1 = Ok cr2 ∧
     ReadAll ending sizes cr2 (encode qs ++ last_chunk ++ rest) = Some (concat qs, None, cr3, rest) ∧
     finished cr3 = true ∧
     ContinueAfterPreview cr2 = Err ErrPreviewAlreadyContinued ∧
     ContinueAfterPreview cr3 = Err ErrPreviewAlreadyContinued) ∧
  (∃ cr1,
     ReadAll ending sizes cr0 (encode ps ++ zero_chunk "; ieof" ++ rest) =
       Some (concat ps, None, cr1, rest) ∧
     PreviewBoundary cr1 = (true, true) ∧ finished cr1 = true ∧
     ContinueAfterPreview cr1 = Err ErrPreviewIEOF).
Proof.
  intros Hs Hps Hqs cr0. change last_chunk with (zero_chunk "").
  assert (Hread : ∀ cr ps ext s, between cr → Forall chunk_ok ps → ext_ok ext →
    ReadAll ending sizes cr (encode ps ++ zero_chunk ext ++ s) =
    Some (concat ps, None,
      if previewEnabled cr && negb (previewContinued cr)
      then at_preview (hasExtension {| h_size := 0; extensions := tl (split_byte ext ";") |} "ieof") cr
      else set_finished cr, s)).
  { intros cr ps' ext s Hcr Hps' Hext. unfold ReadAll.
    destruct (readAll_chunks ending sizes cr ps' (zero_chunk ext ++ s)
      (S (length (encode ps' ++ zero_chunk ext ++ s))) 0) as (f & i & Hf & ->); [done|done|done|lia|].
    rewrite readAll_zero by (done || lia). cbn [prepend]. by rewrite app_nil_r. }
  split; [done|split].
  - do 3 eexists. split_and!; [by apply Hread|done|done|by apply Hread|done..].
  - eexists. split_and!; [apply Hread; [done|done|]|done|done|done].
    split_and!; [right; by eexists|cbn|simpl; lia]. rewrite !not_elem_of_cons. split_and!; try done.
    apply not_elem_of_nil.
Qed.

Lemma preview_exchange_witness :
  ContinueAfterPreview (EnablePreview NewChunkedReader) = Err ErrPreviewNotAtBoundary.
Proof.
  apply (preview_exchange EOF (λ _, 3%nat) [bytes_of "pre"] [bytes_of "view"] (bytes_of "x")).
  - intros _. lia.
  - repeat constructor; vm_compute; discriminate.
  - repeat constructor; vm_compute; discriminate.
Defined.

(** Chunk sizes round-trip through their hexadecimal form for every
    non-negative 64-bit size. *)
Theorem chunk_size_roundtrip n : 0 ≤ n ≤ max_int64 → ParseChunkSize (FormatChunkSize n) = Ok n.
Proof. apply ParseChunkSize_Format. Qed.

Lemma chunk_size_roundtrip_witness : ParseChunkSize (FormatChunkSize 1048576) = Ok 1048576.
Proof. apply (chunk_size_roundtrip 1048576). vm_compute. split; discriminate. Defined.

(** [WriteChunkedBody] on a writer that may fail at any byte: the writer
    got a prefix of the encoding (a chunk with the data when there is any, then
    the last chunk), and no error is returned exactly when it got all of it. *)
Theorem WriteChunkedBody_faults data w :
  let whole := enc_chunk data ++ last_chunk in
  out (WriteChunkedBody sink_write w data).2 = out w ++ taken w whole ∧
  ((WriteChunkedBody sink_write w data).1 = None ↔ fits w whole).
Proof. apply WriteChunkedBody_spec. Qed.

(** A body the peer cuts off between chunks (the connection ends before the
    zero chunk) is returned as if it were complete: the end of input inside the
    chunk-size line is reported as a plain [io.EOF], which [io.ReadAll] takes
    for the end of the body. *)
Theorem truncated_body_accepted sizes ps :
  (∀ i, (0 < sizes i)%nat) → Forall chunk_ok ps →
  ∃ cr, ReadChunkedBody EOF sizes (encode ps) = Some (concat ps, None, cr, []) ∧
        finished cr = false.
Proof.
  intros Hs Hps. exists NewChunkedReader. split; [|done]. unfold ReadChunkedBody, ReadAll.
  rewrite <- (app_nil_r (encode ps)) at 2.
  destruct (readAll_chunks EOF sizes NewChunkedReader ps []
              (S (length (encode ps))) 0) as (f & i & Hf & ->); [done|done|done| |].
  { rewrite app_nil_r. lia. }
  destruct f as [|f]; [simpl in Hf; lia|]. rewrite readAllFrom_S, between_step by done.
  unfold startChunk, readChunkHeader, readBoundedLine, MaxChunkHeaderLength.
  destruct (Z.to_nat 4096) eqn:E; [lia|]. cbn. by rewrite app_nil_r.
Qed.

Lemma truncated_body_accepted_witness :
  ∃ cr, ReadChunkedBody EOF (λ _, 4%nat) (encode [bytes_of "hello"]) =
          Some (concat [bytes_of "hello"], None, cr, []) ∧ finished cr = false.
Proof.
  apply (truncated_body_accepted (λ _, 4%nat) [bytes_of "hello"]).
  - intros _. lia.
  - repeat constructor; vm_compute; discriminate.
Defined.
