(* ===== verification/Message.v ===== *)
(** * Message bodies: [HTTPMessage] of [pkg/icap/request.go], [pkg/icap/body_read.go]

    A message loads its body lazily and once from an [io.Reader], bounded by a
    limit, and can hand out a preview of it first. The reader is an interface:
    the class [Reader] with the laws [ReaderLaws] says what a reader delivers;
    the chunked reader of a connection is an instance ([ChunkedConn] below), and
    everything about messages is proved against the interface. *)
From S2P Require Import Prelude GoInt GoStrings Header Chunked.

Local Open Scope Z_scope.

(** ** Readers *)

(** [Read] into a buffer of the given length: bytes stored, error, new state. *)
Class Reader (R : Type) := reader_read : nat → R → list ascii * option ReadError * R.

(** [delivers r bs e]: reads of any sizes yield exactly the bytes [bs], and then
    the error [e], for good. *)
Class ReaderLaws (R : Type) `{Reader R} := {
  delivers : R → list ascii → ReadError → Prop;
  reader_step : ∀ r bs e len, delivers r bs e → (0 < len)%nat →
    match reader_read len r with
    | (p, None, r') => p ≠ [] ∧ (length p ≤ len)%nat ∧ ∃ bs', bs = p ++ bs' ∧ delivers r' bs' e
    | (p, Some e', r') => p = bs ∧ (length p ≤ len)%nat ∧ e' = e ∧ delivers r' [] e
    end
}.

(** The connection's chunked reader: its state and the bytes still to come. *)
Record ChunkedConn := { cc_reader : ChunkedReader; cc_source : list ascii; cc_ending : ReadError }.

#[export] Instance ChunkedConn_Reader : Reader ChunkedConn := λ len c,
  let '(p, e, cr, s) := Read (cc_ending c) len (cc_reader c) (cc_source c) in
  (p, e, {| cc_reader := cr; cc_source := s; cc_ending := cc_ending c |}).

(** [io.MultiReader] of byte slices before a reader, as previews build it. *)
Record Prefixed (R : Type) := { segments : list (list ascii); tail_reader : R }.
Arguments segments {R} p.
Arguments tail_reader {R} p.

(** A [bytes.Reader] answers from what it has; once empty the next one is read. *)
Fixpoint read_segments (len : nat) (segs : list (list ascii)) : option (list ascii * list (list ascii)) :=
  match segs with
  | [] => None
  | [] :: segs => read_segments len segs
  | s :: segs => Some (take len s, drop len s :: segs)
  end.

#[export] Instance Prefixed_Reader {R} `{Reader R} : Reader (Prefixed R) := λ len r,
  match read_segments len (segments r) with
  | Some (p, segs) => (p, None, {| segments := segs; tail_reader := tail_reader r |})
  | None =>
      let '(p, e, t) := reader_read len (tail_reader r) in
      (p, e, {| segments := []; tail_reader := t |})
  end.

(** ** Reading a whole body *)

Inductive BodyError :=
| ReadFailed (e : ReadError)
| ErrBodyTooLarge (maxBytes : Z)
| PreviewTooLarge (size : Z)
| OutOfFuel.

Definition stackReadBufferSize : nat := 512.
Definition maxInitialBodyReadCapacity : Z := 1 * 1024 * 1024.
Definition DefaultMaxPreviewBytes : Z := 1 * 1024 * 1024.

Definition readCapacityWithinLimit (maxBytes capacity : Z) : bool := (maxBytes <? 0) || (capacity <=? maxBytes).

Definition initialReadCapacity (maxBytes capacity : Z) : Z :=
  if (capacity <=? 0) || negb (readCapacityWithinLimit maxBytes capacity) then 0
  else if maxInitialBodyReadCapacity <? capacity then 0
  else capacity.

Definition normalizeReadAllError (e : ReadError) : option ReadError :=
  if bool_decide (e = EOF) then None else Some e.

Section Body.
Context {R : Type} `{Reader R}.

(** How Go's [append] grows a buffer is not specified: [grow c n] is the new
    capacity when [n] bytes have to fit and [c] do. *)
Context (grow : nat → nat → nat).

(** [io.ReadAll] over a reader limited to [limit] more bytes ([io.LimitedReader];
    [None] when there is no limit); [sizes] is the free space at each read. *)
Definition limited_read (len : nat) (limit : option Z) (r : R)
  : list ascii * option ReadError * option Z * R :=
  match limit with
  | None => let '(p, e, r) := reader_read len r in (p, e, None, r)
  | Some n =>
      if n <=? 0 then ([], Some EOF, Some n, r)
      else
        let len := if n <? Z.of_nat len then Z.to_nat n else len in
        let '(p, e, r) := reader_read len r in
        (p, e, Some (sub64 n (Z.of_nat (length p))), r)
  end.

Fixpoint readAllLoop (fuel : nat) (sizes : nat → nat) (i : nat) (limit : option Z) (r : R) (acc : list ascii)
  : option (list ascii * option ReadError * R) :=
  match fuel with
  | O => None
  | S fuel =>
      match limited_read (sizes i) limit r with
      | (p, Some e, _, r) => Some (acc ++ p, normalizeReadAllError e, r)
      | (p, None, limit, r) => readAllLoop fuel sizes (S i) limit r (acc ++ p)
      end
  end.

Definition bodyWithinLimit (data : list ascii) (maxBytes : Z) : result BodyError (list ascii) :=
  if maxBytes <? Z.of_nat (length data) then Err (ErrBodyTooLarge maxBytes) else Ok data.

Definition readAllLimitedDefault (fuel : nat) (sizes : nat → nat) (maxBytes : Z) (r : R)
  : result BodyError (list ascii) * R :=
  if maxBytes <? 0 then
    match readAllLoop fuel sizes 0 None r [] with
    | None => (Err OutOfFuel, r)
    | Some (data, Some e, r) => (Err (ReadFailed e), r)
    | Some (data, None, r) => (Ok data, r)
    end
  else
    match readAllLoop fuel sizes 0 (Some (add64 maxBytes 1)) r [] with
    | None => (Err OutOfFuel, r)
    | Some (data, Some e, r) => (Err (ReadFailed e), r)
    | Some (data, None, r) => (bodyWithinLimit data maxBytes, r)
    end.

(** One read of [readNextBodyBytes]: into the free capacity, or through the
    scratch buffer when there is none. *)
Definition readNextBodyBytes (r : R) (data : list ascii) (cap : nat)
  : list ascii * option ReadError * R * nat :=
  if (length data =? cap)%nat then
    let '(p, e, r) := reader_read stackReadBufferSize r in
    (p, e, r, if (length p =? 0)%nat then cap else grow cap (length data + length p)%nat)
  else
    let '(p, e, r) := reader_read (cap - length data)%nat r in (p, e, r, cap).

Fixpoint readWithCapacityLoop (fuel : nat) (maxBytes : Z) (r : R) (data : list ascii) (cap : nat)
  : result BodyError (list ascii) * R :=
  match fuel with
  | O => (Err OutOfFuel, r)
  | S fuel =>
      let '(p, e, r, cap) := readNextBodyBytes r data cap in
      let data := data ++ p in
      if (0 <? length p)%nat && (0 <=? maxBytes) && (maxBytes <? Z.of_nat (length data))
      then (Err (ErrBodyTooLarge maxBytes), r)
      else
        match e with
        | Some e =>
            (match normalizeReadAllError e with
             | None => Ok data
             | Some e => Err (ReadFailed e)
             end, r)
        | None => readWithCapacityLoop fuel maxBytes r data cap
        end
  end.

(** The caller drops the data that comes with an error, so it is not returned. *)
Definition readAllLimitedWithCapacity (fuel : nat) (sizes : nat → nat) (maxBytes capacity : Z) (r : R)
  : result BodyError (list ascii) * R :=
  let initialCapacity := initialReadCapacity maxBytes capacity in
  if initialCapacity =? 0 then readAllLimitedDefault fuel sizes maxBytes r
  else readWithCapacityLoop fuel maxBytes r [] (Z.to_nat initialCapacity).

(** ** The lazily loaded body of a message *)

(** The body fields of [HTTPMessage]; [bodyOnce] is whether the [sync.Once] ran. *)
Record BodyState := {
  BodyReader : option (Prefixed R);
  Body : option (list ascii);
  bodyLoaded : bool;
  bodyErr : option BodyError;
  bodyOnce : bool
}.

Definition body_state (reader : option (Prefixed R)) (body : option (list ascii)) (loaded : bool)
    (err : option BodyError) (once : bool) : BodyState :=
  {| BodyReader := reader; Body := body; bodyLoaded := loaded; bodyErr := err; bodyOnce := once |}.

(** A message whose parser attached a reader, or none. *)
Definition fresh_body (r : option R) : BodyState :=
  body_state ((λ r, {| segments := []; tail_reader := r |}) <$> r) None false None false.
End Body.
Arguments BodyState : clear implicits.

Section Lazy.
Context {R : Type} `{Reader R}.
Context (grow : nat → nat → nat) (fuel : nat) (sizes : nat → nat).

(** The function given to [once.Do]: the reader stays in its field, consumed. *)
Definition loadOnce (maxBytes capacity : Z) (m : BodyState R) : BodyState R :=
  if bodyOnce m then m
  else
    match BodyReader m with
    | None => body_state None (Body m) (bodyLoaded m) (bodyErr m) true
    | Some reader =>
        match readAllLimitedWithCapacity grow fuel sizes maxBytes capacity reader with
        | (Err e, reader) => body_state (Some reader) None (bodyLoaded m) (Some e) true
        | (Ok data, reader) => body_state (Some reader) (Some data) true (bodyErr m) true
        end
    end.

Definition bytes_or_nil (b : option (list ascii)) : list ascii := default [] b.

Definition lazyLoadBodyLimitedWithCapacity (maxBytes capacity : Z) (m : BodyState R)
  : result BodyError (option (list ascii)) * BodyState R :=
  let m := loadOnce maxBytes capacity m in
  match bodyErr m with
  | Some e => (Err e, m)
  | None =>
      if (0 <=? maxBytes) && (maxBytes <? Z.of_nat (length (bytes_or_nil (Body m))))
      then (Err (ErrBodyTooLarge maxBytes), m)
      else (Ok (Body m), m)
  end.

(** [capacity] is the message's Content-Length hint. *)
Definition GetBody (capacity : Z) (m : BodyState R) : result BodyError (option (list ascii)) * BodyState R :=
  lazyLoadBodyLimitedWithCapacity (-1) capacity m.

Definition GetBodyLimited (maxBytes capacity : Z) (m : BodyState R)
  : result BodyError (option (list ascii)) * BodyState R :=
  lazyLoadBodyLimitedWithCapacity maxBytes capacity m.

Definition HasBody (m : BodyState R) : bool :=
  (bodyLoaded m && (0 <? length (bytes_or_nil (Body m)))%nat) || bool_decide (is_Some (BodyReader m)).

Definition SetLoadedBody (body : option (list ascii)) (m : BodyState R) : BodyState R :=
  body_state None body true None (bodyOnce m).

Definition GetPreviewBody (previewSize capacity : Z) (m : BodyState R)
  : result BodyError (option (list ascii)) * BodyState R :=
  if previewSize <=? 0 then GetBody capacity m
  else if DefaultMaxPreviewBytes <? previewSize then (Err (PreviewTooLarge previewSize), m)
  else
    match bodyLoaded m, Body m with
    | true, Some body =>
        (Ok (Some (if Z.of_nat (length body) <=? previewSize then body
                   else take (Z.to_nat previewSize) body)), m)
    | _, _ =>
        match BodyReader m with
        | None => (Ok None, m)
        | Some reader =>
            match readAllLoop fuel sizes 0 (Some previewSize) reader [] with
            | None => (Err OutOfFuel, m)
            | Some (preview, err, reader) =>
                let reader := {| segments := preview :: segments reader;
                                 tail_reader := tail_reader reader |} in
                let m := body_state (Some reader) (Body m) (bodyLoaded m) (bodyErr m) (bodyOnce m) in
                (match err with
                 | Some e => Err (ReadFailed e)
                 | None => Ok (Some preview)
                 end, m)
            end
        end
    end.
End Lazy.

(** Loading twice is loading once: the second call finds the first one's state. *)
Lemma lazyLoad_idemp {R} `{Reader R} grow fuel sizes maxBytes capacity (m : BodyState R) :
  let '(res, m') := lazyLoadBodyLimitedWithCapacity grow fuel sizes maxBytes capacity m in
  lazyLoadBodyLimitedWithCapacity grow fuel sizes maxBytes capacity m' = (res, m').
Proof.
  unfold lazyLoadBodyLimitedWithCapacity.
  assert (Honce : loadOnce grow fuel sizes maxBytes capacity (loadOnce grow fuel sizes maxBytes capacity m)
                  = loadOnce grow fuel sizes maxBytes capacity m).
  { unfold loadOnce at 1. assert (bodyOnce (loadOnce grow fuel sizes maxBytes capacity m) = true) as ->; [|done].
    unfold loadOnce. destruct (bodyOnce m) eqn:E; [done|]. destruct (BodyReader m); [|done].
    by destruct (readAllLimitedWithCapacity _ _ _ _ _ _) as [[] ?]. }
  destruct (bodyErr (loadOnce grow fuel sizes maxBytes capacity m)) eqn:Ee.
  - by rewrite Honce, Ee.
  - destruct (_ && _) eqn:Eb; rewrite Honce, Ee, Eb; done.
Qed.

(** ** The chunked reader is a reader *)

Lemma Read_between ending len cr s :
  (0 < len)%nat → between cr →
  ∀ p ps rest, chunk_ok p → p ≠ [] →
  s = encode (p :: ps) ++ rest →
  Read ending len cr s = readChunkData ending len (set_n (Z.of_nat (length p)) cr)
                           (p ++ CR :: LF :: encode ps ++ rest).
Proof.
  intros Hlen Hcr p ps rest Hok Hp ->. unfold encode. cbn [map concat].
  destruct p as [|b p0] eqn:E; [done|]. rewrite <- E in *.
  replace (enc_chunk p) with (chunk_header p ++ p ++ [CR; LF]) by (by subst).
  rewrite <- !app_assoc. rewrite between_step, startChunk_enc by done. done.
Qed.

(** Non-empty chunks only: empty writes leave nothing on the wire. *)
Lemma encode_skip_nil ps : encode ([] :: ps) = encode ps.
Proof. done. Qed.

(** What the zero chunk with extension [ext] makes of a reader: the end of the
    body or, in preview mode, the boundary of the preview. *)
Definition ended (ext : string) (cr : ChunkedReader) : ChunkedReader :=
  if previewEnabled cr && negb (previewContinued cr)
  then at_preview (hasExtension {| h_size := 0; extensions := tl (split_byte ext ";") |} "ieof") cr
  else set_finished cr.

(** The connection holds a well-formed body for the reader [cr]: what is left of a
    chunk, more chunks and the zero chunk, then bytes of the next message. *)
Definition body_holds (cr : ChunkedReader) (ext : string) (c : ChunkedConn) (bs : list ascii) (rest : list ascii) : Prop :=
  (∃ d ps, cc_reader c = set_n (Z.of_nat (length d)) cr ∧ d ≠ [] ∧
           Forall chunk_ok ps ∧ bs = d ++ concat ps ∧
           cc_source c = d ++ CR :: LF :: encode ps ++ zero_chunk ext ++ rest) ∨
  (∃ ps, cc_reader c = cr ∧ Forall chunk_ok ps ∧ bs = concat ps ∧
         cc_source c = encode ps ++ zero_chunk ext ++ rest) ∨
  (bs = [] ∧ cc_reader c = ended ext cr ∧ cc_source c = rest).

(** For a reader outside preview mode. *)
Definition conn_holds : ChunkedConn → list ascii → list ascii → Prop := body_holds NewChunkedReader "".

Lemma conn_data ending len cr ext d ps rest :
  (0 < len)%nat → between cr → d ≠ [] → Forall chunk_ok ps →
  match readChunkData ending len (set_n (Z.of_nat (length d)) cr)
          (d ++ CR :: LF :: encode ps ++ zero_chunk ext ++ rest) with
  | (p, None, cr', s) => p ≠ [] ∧ (length p ≤ len)%nat ∧
      ∃ bs', d ++ concat ps = p ++ bs' ∧
             body_holds cr ext {| cc_reader := cr'; cc_source := s; cc_ending := ending |} bs' rest
  | _ => False
  end.
Proof.
  intros Hlen Hcr Hd Hps. rewrite readChunkData_spec by done. pose proof Hcr as (_ & Hn & _ & _).
  destruct (Nat.leb_spec (length d) len).
  - split_and!; [done|done|]. exists (concat ps). split; [done|]. right; left. exists ps.
    rewrite ?set_n_set_n. split_and!; [|done..]. cbn [cc_reader]. rewrite <- (set_n_id cr) at 2. by rewrite Hn.
  - assert (drop len d ≠ []) by (intros E; apply (f_equal length) in E; rewrite length_drop in E; simpl in E; lia).
    split_and!; [destruct d, len; (done || lia)|rewrite length_take; lia|].
    exists (drop len d ++ concat ps). split; [by rewrite app_assoc, take_drop|].
    left. exists (drop len d), ps. rewrite length_drop, ?set_n_set_n. done.
Qed.

Lemma conn_zero ending len cr ext rest :
  between cr → ext_ok ext →
  Read ending len cr (zero_chunk ext ++ rest) = ([], Some EOF, ended ext cr, rest).
Proof.
  intros Hcr Hext. rewrite between_step by done. unfold startChunk, zero_chunk.
  rewrite <- app_assoc. cbn [app]. change "0" with (FormatChunkSize 0).
  rewrite readChunkHeader_hex by (done || unfold max_int64; lia).
  rewrite (proj2 (Z.ltb_ge _ _)) by (unfold MaxChunkSize; lia). cbn [h_size Z.ltb Z.compare].
  by rewrite finishZeroChunk_enc.
Qed.

Lemma ended_stays ending len ext cr s : between cr → Read ending len (ended ext cr) s = ([], Some EOF, ended ext cr, s).
Proof.
  intros (He & _). unfold Read, ended. destruct (_ && _); cbn; rewrite He; [|done].
  by rewrite orb_true_r.
Qed.

(** A read delivers a part of the body, or all that was left of it (nothing) with
    [io.EOF]: then the reader has ended and the source stands behind the body. *)
Lemma conn_step cr ext c bs rest len :
  between cr → ext_ok ext → body_holds cr ext c bs rest → (0 < len)%nat →
  match reader_read len c with
  | (p, None, c') => p ≠ [] ∧ (length p ≤ len)%nat ∧ cc_ending c' = cc_ending c ∧ ∃ bs', bs = p ++ bs' ∧ body_holds cr ext c' bs' rest
  | (p, Some e', c') => bs = [] ∧ p = [] ∧ e' = EOF ∧
      c' = {| cc_reader := ended ext cr; cc_source := rest; cc_ending := cc_ending c |}
  end.
Proof.
  destruct c as [cr' s ending]. unfold reader_read, ChunkedConn_Reader. cbn [cc_reader cc_source cc_ending].
  intros Hcr Hext Hc Hlen. destruct Hc as [(d & ps & Hr & Hd & Hps & -> & Hs)|[(ps & Hr & Hps & -> & Hs)|(-> & Hr & Hs)]];
    cbn [cc_reader cc_source cc_ending] in *; subst cr' s.
  - pose proof (conn_data ending len cr ext d ps rest Hlen Hcr Hd Hps) as Hdata.
    unfold Read. pose proof Hcr as (He & _ & Hf & Hb). cbn [cr_err set_n finished previewBoundary cr_n].
    rewrite He, Hf, Hb. cbn [orb]. rewrite (proj2 (Z.eqb_neq _ _)) by (destruct d; [done|simpl; lia]).
    destruct (readChunkData _ _ _ _) as [[[p [e|]] cr'] s]; naive_solver.
  - induction Hps as [|p ps Hp Hps IH].
    + change (encode [] ++ zero_chunk ext ++ rest) with (zero_chunk ext ++ rest). by rewrite conn_zero.
    + destruct (decide (p = [])) as [->|Hne]; [by apply IH|].
      rewrite (Read_between ending len cr _ Hlen Hcr p ps (zero_chunk ext ++ rest)) by done.
      pose proof (conn_data ending len cr ext p ps rest Hlen Hcr Hne Hps) as Hdata.
      destruct (readChunkData _ _ _ _) as [[[q [e|]] cr'] s]; naive_solver.
  - by rewrite ended_stays.
Qed.

#[export] Program Instance ChunkedConn_Laws : ReaderLaws ChunkedConn :=
  {| delivers := λ c bs e, e = EOF ∧ ∃ rest, conn_holds c bs rest |}.
Next Obligation.
  intros c bs e len (-> & rest & Hc) Hlen.
  pose proof (conn_step NewChunkedReader "" c bs rest len ltac:(done) ext_ok_nil Hc Hlen) as Hstep.
  destruct (reader_read len c) as [[p [e|]] c']; [|naive_solver]. destruct Hstep as (-> & -> & -> & ->).
  split; [done|]. split; [simpl; lia|]. split; [done|]. split; [done|]. exists rest. right; right. done.
Qed.

(** ** Prefixing keeps what a reader delivers *)

Lemma read_segments_spec len segs p segs' :
  (0 < len)%nat → read_segments len segs = Some (p, segs') →
  p ≠ [] ∧ (length p ≤ len)%nat ∧ concat segs = p ++ concat segs'.
Proof.
  intros Hlen. induction segs as [|[|b s] segs IH]; intros H; [done|by apply IH|].
  destruct len as [|len]; [lia|]. cbn in H. injection H as <- <-.
  split_and!; [done|simpl; rewrite length_take; lia|]. simpl. f_equal.
  by rewrite app_assoc, take_drop.
Qed.

Lemma read_segments_none len segs : read_segments len segs = None → concat segs = [].
Proof. induction segs as [|[|b s] segs IH]; simpl; [done|done|]. done. Qed.

#[export] Program Instance Prefixed_Laws {R} `{ReaderLaws R} : ReaderLaws (Prefixed R) :=
  {| delivers := λ r bs e, ∃ bs', bs = concat (segments r) ++ bs' ∧ delivers (tail_reader r) bs' e |}.
Next Obligation.
  intros R ?? [segs t] bs e len (bs' & -> & Ht) Hlen. cbn [segments tail_reader] in *.
  unfold reader_read, Prefixed_Reader. cbn [segments tail_reader].
  destruct (read_segments len segs) as [[p segs']|] eqn:E.
  - apply read_segments_spec in E as (Hp & Hl & ->); [|done]. split_and!; [done|done|].
    exists (concat segs' ++ bs'). rewrite <- app_assoc. split; [done|]. by exists bs'.
  - apply read_segments_none in E. rewrite E. cbn [app].
    pose proof (reader_step t bs' e len Ht Hlen) as Hstep.
    destruct (reader_read len t) as [[p [e'|]] t'].
    + destruct Hstep as (-> & Hl & -> & Hd). split_and!; [done|done|done|]. by exists [].
    + destruct Hstep as (Hp & Hl & bs2 & -> & Hd). split_and!; [done|done|].
      exists bs2. split; [done|]. by exists bs2.
Qed.

(** ** Reading everything *)

Section ReadAll.
Context {R : Type} `{ReaderLaws R}.
Context (grow : nat → nat → nat).
Hypothesis Hgrow : ∀ c n, (n ≤ grow c n)%nat.

(** No limit: all the bytes, whatever the sizes of the reads. *)
Lemma readAllLoop_unlimited fuel sizes i r bs e acc :
  (∀ i, (0 < sizes i)%nat) → delivers r bs e → (length bs < fuel)%nat →
  ∃ r', readAllLoop fuel sizes i None r acc = Some (acc ++ bs, normalizeReadAllError e, r') ∧
        delivers r' [] e.
Proof using.
  intros Hs. revert i r bs acc. induction fuel as [|fuel IH]; intros i r bs acc Hd Hf; [lia|].
  cbn [readAllLoop limited_read]. pose proof (reader_step r bs e (sizes i) Hd (Hs i)) as Hstep.
  destruct (reader_read (sizes i) r) as [[p [e'|]] r'].
  - destruct Hstep as (-> & _ & -> & Hd'). by exists r'.
  - destruct Hstep as (Hp & _ & bs' & -> & Hd'). rewrite length_app in Hf.
    assert (0 < length p)%nat by (destruct p; [done|simpl; lia]).
    destruct (IH (S i) r' bs' (acc ++ p) Hd') as (r2 & -> & Hd2); [lia|].
    exists r2. by rewrite app_assoc.
Qed.

(** With a limit: a prefix, and the reader still delivers the rest. *)
Lemma readAllLoop_limited fuel sizes i n r bs e acc :
  (∀ i, (0 < sizes i)%nat) → delivers r bs e → 0 ≤ n ≤ max_int64 → (length bs < fuel)%nat →
  ∃ err r', readAllLoop fuel sizes i (Some n) r acc = Some (acc ++ take (Z.to_nat n) bs, err, r') ∧
    delivers r' (drop (Z.to_nat n) bs) e ∧
    (err = None ∨ (err = normalizeReadAllError e ∧ Z.of_nat (length bs) ≤ n)) ∧
    (Z.of_nat (length bs) < n → err = normalizeReadAllError e).
Proof using.
  intros Hs. revert i n r bs acc. induction fuel as [|fuel IH]; intros i n r bs acc Hd Hn Hf; [lia|].
  cbn [readAllLoop limited_read]. destruct (Z.leb_spec n 0).
  { assert (n = 0) as -> by lia. exists None, r. change (Z.to_nat 0) with O.
    rewrite take_0, drop_0, app_nil_r. split_and!; [done|done|by left|lia]. }
  remember (if n <? Z.of_nat (sizes i) then Z.to_nat n else sizes i) as len eqn:El.
  assert (Hlen : (0 < len)%nat ∧ Z.of_nat len ≤ n)
    by (pose proof (Hs i); destruct (Z.ltb_spec n (Z.of_nat (sizes i))); lia).
  pose proof (reader_step r bs e len Hd (proj1 Hlen)) as Hstep.
  destruct (reader_read len r) as [[p [e'|]] r'].
  - destruct Hstep as (-> & Hl & -> & Hd'). exists (normalizeReadAllError e), r'.
    rewrite take_ge, drop_ge by lia. split_and!; [done|done|right; split; [done|lia]|done].
  - destruct Hstep as (Hp & Hl & bs' & -> & Hd'). rewrite length_app in Hf.
    assert (0 < length p)%nat by (destruct p; [done|simpl; lia]).
    unfold sub64. rewrite wrap64_id by (unfold in_int64, min_int64; lia).
    destruct (IH (S i) (n - Z.of_nat (length p)) r' bs' (acc ++ p) Hd')
      as (err & r2 & -> & Hd2 & He1 & He2); [lia|lia|].
    exists err, r2. rewrite length_app.
    replace (Z.to_nat (n - Z.of_nat (length p))) with (Z.to_nat n - length p)%nat in * by lia.
    rewrite take_app, drop_app, (take_ge p), (drop_ge p), <- app_assoc by lia.
    split_and!; [done|done|destruct He1 as [|[? ?]]; [by left|right; split; [done|lia]]|].
    intros. apply He2. lia.
Qed.

Lemma readWithCapacityLoop_spec fuel maxBytes r bs data cap :
  delivers r bs EOF → (length bs < fuel)%nat → (length data ≤ cap)%nat → (0 < cap)%nat →
  (0 ≤ maxBytes → Z.of_nat (length data) ≤ maxBytes) →
  ∃ r', readWithCapacityLoop grow fuel maxBytes r data cap =
    (if (0 <=? maxBytes) && (maxBytes <? Z.of_nat (length (data ++ bs)))
     then Err (ErrBodyTooLarge maxBytes) else Ok (data ++ bs), r').
Proof using Hgrow.
  revert r bs data cap. induction fuel as [|fuel IH]; intros r bs data cap Hd Hf Hcap Hpos Hmax; [lia|].
  cbn [readWithCapacityLoop].
  assert (Hnext : ∃ len cap', (0 < len)%nat ∧ (0 < cap')%nat ∧
    (∀ p e r', reader_read len r = (p, e, r') → (length p ≤ len)%nat →
     ∃ c, readNextBodyBytes grow r data cap = (p, e, r', c) ∧ (0 < c)%nat ∧
          (length (data ++ p) ≤ c)%nat)).
  { unfold readNextBodyBytes. destruct (Nat.eqb_spec (length data) cap) as [E|E].
    - exists stackReadBufferSize, 1%nat. unfold stackReadBufferSize. split_and!; [lia|lia|].
      intros p e r' -> Hp. eexists. split; [done|]. rewrite length_app.
      pose proof (Hgrow cap (length data + length p)). case_match eqn:E2; bool_to_prop; lia.
    - exists (cap - length data)%nat, 1%nat. split_and!; [lia|lia|].
      intros p e r' -> Hp. eexists. split; [done|]. rewrite length_app. lia. }
  destruct Hnext as (len & _ & Hlen & _ & Hnext).
  pose proof (reader_step r bs EOF len Hd Hlen) as Hstep.
  destruct (reader_read len r) as [[p oe] r'] eqn:Er.
  destruct (Hnext p oe r' eq_refl) as (c & -> & Hc & Hdp); [destruct oe; naive_solver|].
  destruct ((0 <? length p)%nat && (0 <=? maxBytes) && (maxBytes <? Z.of_nat (length (data ++ p)))) eqn:Ebig.
  - (* over the limit already *)
    exists r'. bool_to_prop. rewrite (proj2 (Z.leb_le _ _)) by done.
    assert (maxBytes < Z.of_nat (length (data ++ bs))).
    { destruct oe; [destruct Hstep as (-> & _)|destruct Hstep as (_ & _ & bs' & -> & _)];
        rewrite !length_app in *; lia. }
    by rewrite (proj2 (Z.ltb_lt _ _)) by done.
  - assert (Hfits : 0 ≤ maxBytes → Z.of_nat (length (data ++ p)) ≤ maxBytes).
    { intros Hm. specialize (Hmax Hm). rewrite length_app in *.
      destruct p as [|b p]; [simpl; lia|]. apply andb_false_iff in Ebig as [Ebig|Ebig].
      - apply andb_false_iff in Ebig as [Ebig|Ebig]; bool_to_prop; simpl in *; lia.
      - bool_to_prop. lia. }
    destruct oe as [e|].
    + destruct Hstep as (-> & _ & -> & _). exists r'. unfold normalizeReadAllError.
      rewrite bool_decide_true by done. destruct (Z.leb_spec 0 maxBytes); [|done].
      by rewrite (proj2 (Z.ltb_ge _ _)) by auto.
    + destruct Hstep as (Hp & _ & bs' & -> & Hd'). rewrite length_app in Hf.
      assert (0 < length p)%nat by (destruct p; [done|simpl; lia]).
      destruct (IH r' bs' (data ++ p) c Hd') as (r2 & ->); [lia|done|done|done|].
      exists r2. by rewrite <- app_assoc.
Qed.

(** A body a message accepts under a limit; negative is no limit. *)
Definition within (maxBytes : Z) (bs : list ascii) : bool :=
  negb ((0 <=? maxBytes) && (maxBytes <? Z.of_nat (length bs))).

(** Both strategies of the code read the same: the body when it is within the
    limit, the too-large error when it is not. *)
Lemma readAllLimited_spec fuel sizes maxBytes capacity r bs :
  (∀ i, (0 < sizes i)%nat) → delivers r bs EOF → (length bs < fuel)%nat → maxBytes < max_int64 →
  ∃ r', readAllLimitedWithCapacity grow fuel sizes maxBytes capacity r =
    (if within maxBytes bs then Ok bs else Err (ErrBodyTooLarge maxBytes), r').
Proof using Hgrow.
  intros Hs Hd Hf Hmax. unfold readAllLimitedWithCapacity, within. cbv zeta.
  destruct (Z.eqb_spec (initialReadCapacity maxBytes capacity) 0) as [E|E].
  - unfold readAllLimitedDefault. destruct (Z.ltb_spec maxBytes 0).
    + destruct (readAllLoop_unlimited fuel sizes 0 r bs EOF [] Hs Hd Hf) as (r' & -> & _).
      exists r'. cbn. by rewrite (proj2 (Z.leb_gt _ _)) by lia.
    + unfold add64. rewrite wrap64_id by (unfold in_int64, min_int64; lia).
      destruct (readAllLoop_limited fuel sizes 0 (maxBytes + 1) r bs EOF [] Hs Hd ltac:(lia) Hf)
        as (err & r' & -> & _ & Herr & _). cbn [app].
      assert (err = None) as -> by (destruct Herr as [->|[-> _]]; reflexivity).
      exists r'. unfold bodyWithinLimit. rewrite (proj2 (Z.leb_le _ _)) by lia. cbn [andb].
      rewrite length_take. destruct (Z.ltb_spec maxBytes (Z.of_nat (length bs))).
      * by rewrite (proj2 (Z.ltb_lt _ _)) by lia.
      * rewrite (proj2 (Z.ltb_ge _ _)) by lia. cbn [negb]. by rewrite take_ge by lia.
  - destruct (readWithCapacityLoop_spec fuel maxBytes r bs [] (Z.to_nat (initialReadCapacity maxBytes capacity)))
      as (r' & ->); [done|done|simpl; lia| |simpl; lia|].
    { unfold initialReadCapacity in *. destruct (_ || _) eqn:Eo; [done|]. bool_to_prop.
      destruct (_ <? _); lia. }
    exists r'. cbn [app]. by destruct (_ && _).
Qed.
End ReadAll.

(** ** The state a reader is left in *)

(** A body that was read whole was read up to an error (its end): the reader is in
    a state that a failing read left. [I] is any property that reads keep. *)
Section Last.
Context {R : Type} `{Reader R} (grow : nat → nat → nat) (I : R → Prop).
Hypothesis Hgrow : ∀ c n, (n ≤ grow c n)%nat.
Hypothesis HI : ∀ r len p r', I r → (0 < len)%nat → reader_read len r = (p, None, r') → I r' ∧ (length p ≤ len)%nat.

Definition left_by_error (r' : R) : Prop :=
  ∃ r len p e, I r ∧ (0 < len)%nat ∧ reader_read len r = (p, Some e, r').

Lemma readAllLoop_last fuel sizes i limit r acc data err r' :
  (∀ i, (0 < sizes i)%nat) → I r → (∀ n, limit = Some n → 0 ≤ n ≤ max_int64) →
  readAllLoop fuel sizes i limit r acc = Some (data, err, r') →
  left_by_error r' ∨ ∃ n, limit = Some n ∧ I r' ∧ Z.of_nat (length acc) + n ≤ Z.of_nat (length data).
Proof using HI.
  intros Hs. revert i limit r acc. induction fuel as [|fuel IH]; intros i limit r acc Hr Hn E; [done|].
  cbn [readAllLoop] in E. destruct (limited_read (sizes i) limit r) as [[[p e] limit'] r1] eqn:Er.
  unfold limited_read in Er. destruct limit as [n|].
  - specialize (Hn n eq_refl). destruct (Z.leb_spec n 0).
    { injection Er as <- <- <- <-. injection E as <- <- <-. right. exists n. rewrite app_nil_r. split_and!; [done|done|lia]. }
    destruct (reader_read _ r) as [[p1 e1] r2] eqn:Ed in Er. injection Er as -> -> <- ->.
    assert (Hlen : (0 < if (n <? Z.of_nat (sizes i))%Z then Z.to_nat n else sizes i)%nat)
      by (pose proof (Hs i); destruct (Z.ltb_spec n (Z.of_nat (sizes i))); lia).
    destruct e as [e|].
    { injection E as <- <- <-. left. by do 4 eexists. }
    destruct (HI _ _ _ _ Hr Hlen Ed) as [Hr1 Hp].
    assert (Z.of_nat (length p) ≤ n) by (destruct (Z.ltb_spec n (Z.of_nat (sizes i))); lia).
    assert (Esub : sub64 n (Z.of_nat (length p)) = n - Z.of_nat (length p))
      by (unfold sub64; apply wrap64_id; unfold in_int64, min_int64; lia).
    rewrite Esub in E. destruct (IH _ (Some (n - Z.of_nat (length p))) _ _ Hr1 ltac:(intros n' Hn'; injection Hn' as <-; lia) E) as [|(n' & Hn' & Hr' & Hl)]; [by left|].
    injection Hn' as <-. right. exists n. rewrite length_app in Hl. split_and!; [done|done|lia].
  - destruct (reader_read (sizes i) r) as [[p1 e1] r2] eqn:Ed. injection Er as -> -> <- ->. destruct e as [e|].
    + injection E as <- <- <-. left. exists r. by exists (sizes i), p, e.
    + destruct (HI _ _ _ _ Hr (Hs i) Ed) as [Hr1 _].
      destruct (IH _ None _ _ Hr1 ltac:(done) E) as [|(n' & Hn' & _)]; [by left|done].
Qed.

Lemma readWithCapacityLoop_last fuel maxBytes r data cap bs r' :
  I r → (length data ≤ cap)%nat → (0 < cap)%nat →
  readWithCapacityLoop grow fuel maxBytes r data cap = (Ok bs, r') → left_by_error r'.
Proof using HI Hgrow.
  revert r data cap. induction fuel as [|fuel IH]; intros r data cap Hr Hcap Hpos E; [done|].
  cbn [readWithCapacityLoop] in E. destruct (readNextBodyBytes grow r data cap) as [[[p e] r1] cap'] eqn:En.
  assert (Hnext : ∃ len, (0 < len)%nat ∧ reader_read len r = (p, e, r1) ∧
                    ((length p ≤ len)%nat → (length (data ++ p) ≤ cap')%nat ∧ (0 < cap')%nat)).
  { unfold readNextBodyBytes in En. rewrite length_app. destruct (Nat.eqb_spec (length data) cap).
    - exists stackReadBufferSize. destruct (reader_read stackReadBufferSize r) as [[p1 e1] r2]. injection En as -> -> -> <-.
      split; [unfold stackReadBufferSize; lia|]. split; [done|]. intros _. pose proof (Hgrow cap (length data + length p)).
      destruct (Nat.eqb_spec (length p) 0); lia.
    - exists (cap - length data)%nat. destruct (reader_read _ r) as [[p1 e1] r2]. injection En as -> -> -> <-.
      split; [lia|]. split; [done|]. lia. }
  destruct Hnext as (len & Hlen & Ed & Hc). destruct (_ && _ && _) in E; [done|]. destruct e as [e|].
  - destruct (normalizeReadAllError e); [done|]. injection E as _ <-. exists r. by exists len, p, e.
  - destruct (HI _ _ _ _ Hr Hlen Ed) as [Hr1 Hp]. destruct (Hc Hp). by eapply IH.
Qed.

Lemma readAllLimited_last fuel sizes maxBytes capacity r bs r' :
  (∀ i, (0 < sizes i)%nat) → I r → maxBytes < max_int64 →
  readAllLimitedWithCapacity grow fuel sizes maxBytes capacity r = (Ok bs, r') → left_by_error r'.
Proof using HI Hgrow.
  intros Hs Hr Hmax E. unfold readAllLimitedWithCapacity in E. cbv zeta in E.
  destruct (Z.eqb_spec (initialReadCapacity maxBytes capacity) 0) as [Ec|Ec].
  - unfold readAllLimitedDefault in E. destruct (Z.ltb_spec maxBytes 0).
    + destruct (readAllLoop _ _ _ _ _ _) as [[[data [e|]] r1]|] eqn:El; [done| |done]. injection E as _ <-.
      by destruct (readAllLoop_last _ _ _ None _ _ _ _ _ Hs Hr ltac:(done) El) as [|(n & Hn & _)].
    + assert (add64 maxBytes 1 = maxBytes + 1) as Ea
        by (unfold add64; apply wrap64_id; unfold in_int64, min_int64; lia).
      destruct (readAllLoop _ _ _ _ _ _) as [[[data [e|]] r1]|] eqn:El; [done| |done]. injection E as Eb <-.
      destruct (readAllLoop_last _ _ _ (Some (add64 maxBytes 1)) _ _ _ _ _ Hs Hr ltac:(intros n Hn; injection Hn as <-; lia) El) as [|(n & Hn & _ & Hl)]; [done|].
      injection Hn as <-.
      unfold bodyWithinLimit in Eb. rewrite Ea in Hl. cbn in Hl. by rewrite (proj2 (Z.ltb_lt _ _)) in Eb by lia.
  - eapply readWithCapacityLoop_last; [done| | |done]; [simpl; lia|].
    unfold initialReadCapacity in *. destruct (_ || _) eqn:Eo; [done|]. bool_to_prop. destruct (_ <? _); lia.
Qed.
End Last.

(** ** What a message promises: an abstract body *)

Inductive body_spec :=
| Unloaded (bs : list ascii)
| Loaded (bs : list ascii)
| Failed (maxBytes : Z).

Inductive body_op :=
| CallGet (maxBytes capacity : Z)
| CallPreview (previewSize capacity : Z)
| CallSetLoaded (body : list ascii).

Definition body_result : Type := result BodyError (option (list ascii)).

Definition limited_result (maxBytes : Z) (bs : list ascii) : body_result :=
  if within maxBytes bs then Ok (Some bs) else Err (ErrBodyTooLarge maxBytes).

Inductive spec_step : body_spec → body_op → body_result → body_spec → Prop :=
| step_load bs maxBytes capacity :
    within maxBytes bs = true →
    spec_step (Unloaded bs) (CallGet maxBytes capacity) (Ok (Some bs)) (Loaded bs)
| step_fail bs maxBytes capacity :
    within maxBytes bs = false →
    spec_step (Unloaded bs) (CallGet maxBytes capacity) (Err (ErrBodyTooLarge maxBytes)) (Failed maxBytes)
| step_again bs maxBytes capacity :
    spec_step (Loaded bs) (CallGet maxBytes capacity) (limited_result maxBytes bs) (Loaded bs)
| step_failed limit maxBytes capacity :
    spec_step (Failed limit) (CallGet maxBytes capacity) (Err (ErrBodyTooLarge limit)) (Failed limit)
| step_preview bs n capacity :
    0 < n ≤ DefaultMaxPreviewBytes →
    spec_step (Unloaded bs) (CallPreview n capacity) (Ok (Some (take (Z.to_nat n) bs))) (Unloaded bs)
| step_preview_loaded bs n capacity :
    0 < n ≤ DefaultMaxPreviewBytes →
    spec_step (Loaded bs) (CallPreview n capacity) (Ok (Some (take (Z.to_nat n) bs))) (Loaded bs)
| step_preview_failed limit n capacity res :
    spec_step (Failed limit) (CallPreview n capacity) res (Failed limit)
| step_preview_all st n capacity res st' :
    n ≤ 0 → spec_step st (CallGet (-1) capacity) res st' →
    spec_step st (CallPreview n capacity) res st'
| step_preview_big st n capacity :
    DefaultMaxPreviewBytes < n →
    spec_step st (CallPreview n capacity) (Err (PreviewTooLarge n)) st
| step_set st bs : spec_step st (CallSetLoaded bs) (Ok None) (Loaded bs).

Inductive spec_run : body_spec → list body_op → list body_result → Prop :=
| run_nil st : spec_run st [] []
| run_cons st o res st' os rs :
    spec_step st o res st' → spec_run st' os rs → spec_run st (o :: os) (res :: rs).

Section Refine.
Context {R : Type} `{ReaderLaws R}.
Context (grow : nat → nat → nat) (fuel : nat) (sizes : nat → nat).
Hypothesis Hgrow : ∀ c n, (n ≤ grow c n)%nat.
Hypothesis Hsizes : ∀ i, (0 < sizes i)%nat.

Definition body_call (o : body_op) (m : BodyState R) : body_result * BodyState R :=
  match o with
  | CallGet maxBytes capacity => GetBodyLimited grow fuel sizes maxBytes capacity m
  | CallPreview n capacity => GetPreviewBody grow fuel sizes n capacity m
  | CallSetLoaded bs => (Ok None, SetLoadedBody (Some bs) m)
  end.

Fixpoint body_calls (os : list body_op) (m : BodyState R) : list body_result :=
  match os with
  | [] => []
  | o :: os => let '(res, m) := body_call o m in res :: body_calls os m
  end.

Definition op_ok (o : body_op) : Prop :=
  match o with CallGet maxBytes _ => maxBytes < max_int64 | _ => True end.

(** The simulation relation. *)
Definition body_rel (m : BodyState R) (st : body_spec) : Prop :=
  match st with
  | Unloaded bs => bodyLoaded m = false ∧ bodyErr m = None ∧ bodyOnce m = false ∧
                   (length bs < fuel)%nat ∧ ∃ r, BodyReader m = Some r ∧ delivers r bs EOF
  | Loaded bs => bodyLoaded m = true ∧ bodyErr m = None ∧ Body m = Some bs ∧
                 (bodyOnce m = true ∨ BodyReader m = None)
  | Failed limit => bodyLoaded m = false ∧ bodyErr m = Some (ErrBodyTooLarge limit) ∧
                    bodyOnce m = true
  end.

Lemma get_refines maxBytes capacity m st :
  maxBytes < max_int64 → body_rel m st →
  ∃ st', spec_step st (CallGet maxBytes capacity)
           (GetBodyLimited grow fuel sizes maxBytes capacity m).1 st' ∧
         body_rel (GetBodyLimited grow fuel sizes maxBytes capacity m).2 st'.
Proof using Hgrow Hsizes.
  intros Hmax Hrel. unfold GetBodyLimited, lazyLoadBodyLimitedWithCapacity, loadOnce.
  destruct st as [bs|bs|limit]; cbn [body_rel] in Hrel.
  - destruct Hrel as (Hl & He & Ho & Hf & r & Hr & Hd). rewrite Ho, Hr.
    destruct (readAllLimited_spec grow Hgrow fuel sizes maxBytes capacity r bs Hsizes Hd Hf Hmax) as (r' & ->).
    destruct (within maxBytes bs) eqn:Hw; cbn [bodyErr body_state Body bytes_or_nil default from_option id].
    + rewrite He. pose proof Hw as Hw'. unfold within in Hw. apply negb_true_iff in Hw. rewrite Hw.
      exists (Loaded bs). split; [by apply step_load|]. cbn. split_and!; [done|done|done|by left].
    + exists (Failed maxBytes). split; [by apply step_fail|]. cbn. split_and!; done.
  - destruct Hrel as (Hl & He & Hb & Ho).
    assert (∃ m', (if bodyOnce m then m else match BodyReader m with
        | None => body_state None (Body m) (bodyLoaded m) (bodyErr m) true
        | Some reader => match readAllLimitedWithCapacity grow fuel sizes maxBytes capacity reader with
          | (Err e, reader) => body_state (Some reader) None (bodyLoaded m) (Some e) true
          | (Ok data, reader) => body_state (Some reader) (Some data) true (bodyErr m) true
          end end) = m' ∧ bodyLoaded m' = true ∧ bodyErr m' = None ∧ Body m' = Some bs ∧ bodyOnce m' = true)
      as (m' & -> & Hl' & He' & Hb' & Ho').
    { destruct (bodyOnce m) eqn:E; [by exists m|]. destruct Ho as [|Hr]; [done|]. rewrite Hr.
      eexists. by split_and!. }
    rewrite He', Hb'. cbn [bytes_or_nil default from_option id]. exists (Loaded bs).
    assert (body_rel m' (Loaded bs)) by (cbn; auto).
    pose proof (step_again bs maxBytes capacity) as Hst. unfold limited_result, within in Hst.
    destruct (_ && _); cbn [negb] in Hst; by split.
  - destruct Hrel as (Hl & He & Ho). rewrite Ho, He. exists (Failed limit). split; [constructor|]. done.
Qed.

Lemma preview_refines n capacity m st :
  body_rel m st →
  ∃ st', spec_step st (CallPreview n capacity) (GetPreviewBody grow fuel sizes n capacity m).1 st' ∧
         body_rel (GetPreviewBody grow fuel sizes n capacity m).2 st'.
Proof using Hgrow Hsizes.
  intros Hrel. unfold GetPreviewBody. destruct (Z.leb_spec n 0).
  { destruct (get_refines (-1) capacity m st) as (st' & Hs & Hr); [unfold max_int64; lia|done|].
    exists st'. split; [by apply step_preview_all|done]. }
  destruct (Z.ltb_spec DefaultMaxPreviewBytes n).
  { exists st. split; [by apply step_preview_big|done]. }
  destruct st as [bs|bs|limit]; cbn [body_rel] in Hrel.
  - destruct Hrel as (Hl & He & Ho & Hf & r & Hr & Hd). rewrite Hl, Hr.
    destruct (readAllLoop_limited fuel sizes 0 n r bs EOF [] Hsizes Hd) as (err & r' & -> & Hd' & Herr & _);
      [unfold DefaultMaxPreviewBytes, max_int64 in *; lia|done|]. cbn [app].
    assert (err = None) as -> by (destruct Herr as [->|[-> _]]; reflexivity).
    exists (Unloaded bs). split; [by apply step_preview|].
    cbn. split_and!; [done|done|done|done|]. eexists. split; [done|].
    destruct Hd' as (bs2 & Hbs2 & Ht). exists bs2. cbn [segments tail_reader concat].
    rewrite <- app_assoc, <- Hbs2. by rewrite take_drop.
  - destruct Hrel as (Hl & He & Hb & Ho). rewrite Hl, Hb. exists (Loaded bs). split; [|done].
    assert (Htake : (if Z.of_nat (length bs) <=? n then bs else take (Z.to_nat n) bs) = take (Z.to_nat n) bs).
    { split_if; [|done]. by rewrite take_ge by lia. }
    cbn [fst]. rewrite Htake. by apply step_preview_loaded.
  - destruct Hrel as (Hl & He & Ho). rewrite Hl. destruct (BodyReader m) as [r|];
      [destruct (readAllLoop fuel sizes 0 (Some n) r []) as [[[preview err] r']|]|];
      exists (Failed limit); (split; [apply step_preview_failed|done]).
Qed.

Lemma call_refines o m st :
  op_ok o → body_rel m st →
  ∃ st', spec_step st o (body_call o m).1 st' ∧ body_rel (body_call o m).2 st'.
Proof using Hgrow Hsizes.
  intros Ho Hrel. destruct o as [maxBytes capacity|n capacity|bs]; cbn [body_call].
  - by apply get_refines.
  - by apply preview_refines.
  - exists (Loaded bs). split; [constructor|]. cbn. auto.
Qed.

Lemma calls_refine os m st :
  Forall op_ok os → body_rel m st → spec_run st os (body_calls os m).
Proof using Hgrow Hsizes.
  intros Hos. revert m st. induction Hos as [|o os Ho _ IH]; intros m st Hrel; [constructor|].
  cbn [body_calls]. destruct (call_refines o m st Ho Hrel) as (st' & Hs & Hr).
  destruct (body_call o m) as [res m']. econstructor; [done|by apply IH].
Qed.
End Refine.

(** ** Properties *)

(** C4: a message body over a connection refines the abstract body. For any
    sequence of [GetBody], [GetBodyLimited], [GetPreviewBody] and
    [SetLoadedBody] on a message whose chunked body is well formed: the first
    load decides (the whole body, or the too-large error), every later call
    agrees with it, previews return the first bytes and lose none, whatever the
    buffer sizes, the Content-Length hint and the growth of slices. *)
Theorem message_body_refines grow fuel sizes (c : ChunkedConn) bs rest os :
  (∀ c n, (n ≤ grow c n)%nat) → (∀ i, (0 < sizes i)%nat) →
  conn_holds c bs rest → (length bs < fuel)%nat → Forall op_ok os →
  spec_run (Unloaded bs) os (body_calls grow fuel sizes os (fresh_body (Some c))).
Proof.
  intros Hg Hs Hc Hf Hos. apply calls_refine; [done|done|done|]. cbn. split_and!; [done..|].
  eexists. split; [done|]. exists bs. split; [done|]. cbn. split; [done|]. by exists rest.
Qed.

Definition example_conn : ChunkedConn :=
  {| cc_reader := NewChunkedReader; cc_ending := EOF;
     cc_source := encode [bytes_of "hello "; bytes_of "world"] ++ last_chunk ++ bytes_of "OPTIONS" |}.

Lemma message_body_refines_witness :
  spec_run (Unloaded (bytes_of "hello world")) [CallPreview 3 0; CallGet 100 11; CallGet 5 11]
    [Ok (Some (bytes_of "hel")); Ok (Some (bytes_of "hello world")); Err (ErrBodyTooLarge 5)].
Proof.
  apply (message_body_refines (λ c n, Nat.max c n) 20%nat (λ _, 4%nat) example_conn
           (bytes_of "hello world") (bytes_of "OPTIONS") [CallPreview 3 0; CallGet 100 11; CallGet 5 11]).
  - intros c n. lia.
  - intros _. lia.
  - right; left. exists [bytes_of "hello "; bytes_of "world"]. split_and!; [done| |done|done].
    repeat constructor; vm_compute; discriminate.
  - vm_compute. lia.
  - repeat constructor; vm_compute; reflexivity.
Defined.

(** Once a limited load has failed, a preview no longer starts at the
    beginning of the body: the bytes the failed load took from the reader are
    gone, and [GetPreviewBody] returns the bytes after them. *)
Theorem preview_after_failed_load grow fuel sizes (c : ChunkedConn) bs rest maxBytes n :
  (∀ i, (0 < sizes i)%nat) → conn_holds c bs rest → (length bs < fuel)%nat →
  0 ≤ maxBytes < Z.of_nat (length bs) → maxBytes < max_int64 → 0 < n ≤ DefaultMaxPreviewBytes →
  body_calls grow fuel sizes [CallGet maxBytes (-1); CallPreview n (-1)] (fresh_body (Some c)) =
  [Err (ErrBodyTooLarge maxBytes);
   Ok (Some (take (Z.to_nat n) (drop (Z.to_nat (maxBytes + 1)) bs)))].
Proof.
  intros Hs Hc Hf Hmax Hint Hn.
  assert (Hd : delivers {| segments := []; tail_reader := c |} bs EOF).
  { exists bs. split; [done|]. cbn. split; [done|]. by exists rest. }
  unfold body_calls, body_call, GetBodyLimited, lazyLoadBodyLimitedWithCapacity, loadOnce.
  cbn [fresh_body body_state bodyOnce BodyReader fmap option_fmap option_map].
  unfold readAllLimitedWithCapacity, readAllLimitedDefault. cbn [initialReadCapacity Z.leb Z.compare orb].
  change (initialReadCapacity maxBytes (-1)) with 0. cbn [Z.eqb].
  rewrite (proj2 (Z.ltb_ge maxBytes 0)) by lia.
  unfold add64. rewrite wrap64_id by (unfold in_int64, min_int64; lia).
  destruct (readAllLoop_limited fuel sizes 0 (maxBytes + 1) _ bs EOF [] Hs Hd ltac:(lia) Hf)
    as (err & r' & -> & Hd' & Herr & _). cbn [app].
  assert (err = None) as -> by (destruct Herr as [->|[-> _]]; reflexivity).
  unfold bodyWithinLimit. rewrite length_take, (proj2 (Z.ltb_lt _ _)) by lia.
  cbn [bodyErr body_state]. f_equal. unfold GetPreviewBody.
  rewrite (proj2 (Z.leb_gt _ _)), (proj2 (Z.ltb_ge _ _)) by lia.
  cbn [bodyLoaded body_state fresh_body BodyReader Body].
  destruct (readAllLoop_limited fuel sizes 0 n r' _ EOF [] Hs Hd') as (err & r2 & -> & _ & Herr2 & _).
  { unfold DefaultMaxPreviewBytes, max_int64 in *. lia. }
  { rewrite length_drop. lia. }
  by assert (err = None) as -> by (destruct Herr2 as [->|[-> _]]; reflexivity).
Qed.

Lemma preview_after_failed_load_witness :
  body_calls (λ c n, n) 20%nat (λ _, 4%nat) [CallGet 4 (-1); CallPreview 3 (-1)]
    (fresh_body (Some example_conn)) =
  [Err (ErrBodyTooLarge 4); Ok (Some (bytes_of " wo"))].
Proof.
  apply (preview_after_failed_load (λ c n, n) 20%nat (λ _, 4%nat) example_conn
           (bytes_of "hello world") (bytes_of "OPTIONS") 4 3).
  - intros _. lia.
  - right; left. exists [bytes_of "hello "; bytes_of "world"]. split_and!; [done| |done|done].
    repeat constructor; vm_compute; discriminate.
  - vm_compute. lia.
  - vm_compute. split; [discriminate|reflexivity].
  - vm_compute. reflexivity.
  - vm_compute. split; [reflexivity|discriminate].
Defined.
