(* ===== verification/Connection.v ===== *)
(** * Connections: [internal/server/connection.go]

    The buffers between the protocol code and a socket; the connection itself and the
    pool the server waits for are in [ConnectionPool].

    [pooledBuffer] is a reader over any reader [R]: [pb_buf] is the part of the
    pooled slice up to [wpos], [pb_rpos] the read position in it. Its operations
    are proved to be those of a flat sequence of bytes with an error at its end, for
    every socket ([ReaderLaws]) and every cutting of the bytes into packets; lines
    come out as the byte loop of [Chunked] reads them. [bufferedWriter] is proved to
    pass on what it took, in order. Locks make every method atomic. Giving slices back
    to their pool has no effect here. *)
From S2P Require Import Prelude GoInt GoStrings Chunked Message.

Local Open Scope Z_scope.

Definition SizeMedium : Z := 8 * 1024.

(** ** The buffered reader *)

Record pooledBuffer (R : Type) := {
  pb_buf : list ascii;
  pb_rpos : nat;
  pb_err : option ReadError;
  pb_closed : bool;
  pb_rw : R
}.
Arguments pb_buf {R} p.
Arguments pb_rpos {R} p.
Arguments pb_err {R} p.
Arguments pb_closed {R} p.
Arguments pb_rw {R} p.

Section Buffer.
Context {R : Type}.
Notation pooledBuffer := (pooledBuffer R).

Definition newPooledReadBuffer (rw : R) : pooledBuffer :=
  {| pb_buf := []; pb_rpos := 0; pb_err := None; pb_closed := false; pb_rw := rw |}.

Definition with_rpos (n : nat) (pb : pooledBuffer) : pooledBuffer :=
  {| pb_buf := pb_buf pb; pb_rpos := n; pb_err := pb_err pb; pb_closed := pb_closed pb; pb_rw := pb_rw pb |}.

Definition with_pb_err (e : option ReadError) (pb : pooledBuffer) : pooledBuffer :=
  {| pb_buf := pb_buf pb; pb_rpos := pb_rpos pb; pb_err := e; pb_closed := pb_closed pb; pb_rw := pb_rw pb |}.

(** [pb.buf[pb.rpos:pb.wpos]]. *)
Definition unread (pb : pooledBuffer) : list ascii := drop (pb_rpos pb) (pb_buf pb).

Definition Buffered (pb : pooledBuffer) : nat := length (pb_buf pb) - pb_rpos pb.

(** Another socket; the saved error stays. *)
Definition Reset (rw : R) (pb : pooledBuffer) : pooledBuffer :=
  {| pb_buf := []; pb_rpos := 0; pb_err := pb_err pb; pb_closed := pb_closed pb; pb_rw := rw |}.

Definition closeBuffer (pb : pooledBuffer) : pooledBuffer :=
  if pb_closed pb then pb
  else {| pb_buf := pb_buf pb; pb_rpos := pb_rpos pb; pb_err := pb_err pb; pb_closed := true; pb_rw := pb_rw pb |}.

(** [bytes.IndexByte]. *)
Fixpoint IndexByte (l : list ascii) (c : ascii) : option nat :=
  match l with
  | [] => None
  | b :: l => if bool_decide (b = c) then Some O else S <$> IndexByte l c
  end.

Context `{Reader R} (size : nat).

(** Fills an empty buffer, as every method begins: an error that was saved comes
    first; an error that comes with data is saved. *)
Definition refill (pb : pooledBuffer) : option ReadError * pooledBuffer :=
  if (length (pb_buf pb) <=? pb_rpos pb)%nat then
    match pb_err pb with
    | Some e => (Some e, with_pb_err None pb)
    | None =>
        let '(p, e, rw) := reader_read size (pb_rw pb) in
        let pb := {| pb_buf := pb_buf pb; pb_rpos := pb_rpos pb; pb_err := pb_err pb; pb_closed := pb_closed pb; pb_rw := rw |} in
        let pb := if (0 <? length p)%nat
                  then {| pb_buf := p; pb_rpos := 0; pb_err := pb_err pb; pb_closed := pb_closed pb; pb_rw := rw |}
                  else pb in
        match e with
        | Some e => if (0 <? length p)%nat then (None, with_pb_err (Some e) pb) else (Some e, pb)
        | None => if (length p =? 0)%nat then (Some EOF, pb) else (None, pb)
        end
    end
  else (None, pb).

Definition readBuffer (len : nat) (pb : pooledBuffer) : list ascii * option ReadError * pooledBuffer :=
  if pb_closed pb then ([], Some ClosedPipe, pb)
  else if (len =? 0)%nat then ([], None, pb)
  else
    match refill pb with
    | (Some e, pb) => ([], Some e, pb)
    | (None, pb) => let p := take len (unread pb) in (p, None, with_rpos (pb_rpos pb + length p) pb)
    end.

#[export] Instance pooledBuffer_Reader : Reader pooledBuffer := readBuffer.

(** A filled buffer is not empty, so the last case does not occur. *)
Definition ReadByte (pb : pooledBuffer) : result ReadError ascii * pooledBuffer :=
  if pb_closed pb then (Err ClosedPipe, pb)
  else
    match refill pb with
    | (Some e, pb) => (Err e, pb)
    | (None, pb) =>
        match unread pb with
        | b :: _ => (Ok b, with_rpos (pb_rpos pb + 1) pb)
        | [] => (Err NoProgress, pb)
        end
    end.

(** The loop of [ReadBytes] and [ReadLine]: up to and with the delimiter, after
    [line]. [None] is for a socket that gives data for ever. *)
Fixpoint readDelimited (fuel : nat) (delim : ascii) (line : list ascii) (pb : pooledBuffer)
  : option (list ascii * option ReadError * pooledBuffer) :=
  match fuel with
  | O => None
  | S fuel =>
      match refill pb with
      | (Some e, pb) => Some (line, Some e, pb)
      | (None, pb) =>
          match IndexByte (unread pb) delim with
          | Some idx => Some (line ++ take (idx + 1) (unread pb), None, with_rpos (pb_rpos pb + (idx + 1)) pb)
          | None => readDelimited fuel delim (line ++ unread pb) (with_rpos (length (pb_buf pb)) pb)
          end
      end
  end.

Definition ReadBytes (fuel : nat) (delim : ascii) (pb : pooledBuffer) : option (list ascii * option ReadError * pooledBuffer) :=
  if pb_closed pb then Some ([], Some ClosedPipe, pb) else readDelimited fuel delim [] pb.

Definition ReadString (fuel : nat) (delim : ascii) (pb : pooledBuffer) : option (string * option ReadError * pooledBuffer) :=
  '(b, e, pb) ← ReadBytes fuel delim pb; Some (string_of b, e, pb).

(** A carriage return at the end goes. *)
Definition trim_CR (l : list ascii) : list ascii :=
  match last l with Some c => if bool_decide (c = CR) then take (length l - 1) l else l | None => l end.

(** The line without its newline; what there is of it when it does not end. *)
Definition ReadLine (fuel : nat) (pb : pooledBuffer) : option (list ascii * option ReadError * pooledBuffer) :=
  if pb_closed pb then Some ([], Some ClosedPipe, pb)
  else
    '(line, e, pb) ← readDelimited fuel LF [] pb;
    Some (match e with None => trim_CR (take (length line - 1) line) | Some _ => line end, e, pb).

Fixpoint readBounded (fuel : nat) (limit : nat) (line : list ascii) (pb : pooledBuffer)
  : option (list ascii * option ReadError * pooledBuffer) :=
  match fuel with
  | O => None
  | S fuel =>
      match refill pb with
      | (Some e, pb) => Some (line, Some e, pb)
      | (None, pb) =>
          let buffered := unread pb in
          let segmentLen := match IndexByte buffered LF with Some newline => (newline + 1)%nat | None => length buffered end in
          let remaining := (limit - length line)%nat in
          if (remaining <? segmentLen)%nat
          then Some (line ++ take remaining buffered, Some ErrShortBuffer, with_rpos (pb_rpos pb + remaining) pb)
          else
            let line := line ++ take segmentLen buffered in
            let pb := with_rpos (pb_rpos pb + segmentLen) pb in
            if (segmentLen <? length buffered)%nat || bool_decide (buffered !! (segmentLen - 1)%nat = Some LF)
            then Some (line, None, pb)
            else if (length line =? limit)%nat then Some (line, Some ErrShortBuffer, pb)
            else readBounded fuel limit line pb
      end
  end.

Definition ReadBoundedLine (fuel : nat) (limit : Z) (pb : pooledBuffer) : option (list ascii * option ReadError * pooledBuffer) :=
  if pb_closed pb then Some ([], Some ClosedPipe, pb)
  else if limit <=? 0 then Some ([], Some ErrShortBuffer, pb)
  else readBounded fuel (Z.to_nat limit) [] pb.
End Buffer.

(** ** What the buffer holds *)

Lemma IndexByte_Some l c i : IndexByte l c = Some i → ∃ l1 l2, l = l1 ++ c :: l2 ∧ c ∉ l1 ∧ length l1 = i.
Proof.
  revert i. induction l as [|b l IH]; intros i E; [done|]. cbn in E. case_bool_decide as Hb.
  - injection E as <-. subst. exists [], l. split_and!; [done|apply not_elem_of_nil|done].
  - destruct (IndexByte l c) as [j|]; [|done]. injection E as <-. destruct (IH j eq_refl) as (l1 & l2 & -> & Hn & <-).
    exists (b :: l1), l2. split_and!; [done|by apply not_elem_of_cons|done].
Qed.

Lemma IndexByte_None l c : IndexByte l c = None → c ∉ l.
Proof.
  induction l as [|b l IH]; intros E; [apply not_elem_of_nil|]. cbn in E. case_bool_decide; [done|].
  destruct (IndexByte l c); [done|]. apply not_elem_of_cons. split; [done|by apply IH].
Qed.

Lemma not_in_take (c : ascii) n l : c ∉ l → c ∉ take n l.
Proof. intros Hn Hin. apply Hn. rewrite <- (take_drop n l), elem_of_app. by left. Qed.

Section Delivers.
Context {R : Type} `{HL : ReaderLaws R}.
Notation pooledBuffer := (pooledBuffer R).

(** The bytes still to be handed out, and the error after them. *)
Definition holds (pb : pooledBuffer) (bs : list ascii) (e : ReadError) : Prop :=
  pb_closed pb = false ∧ ∃ bs', bs = unread pb ++ bs' ∧
    match pb_err pb with Some e' => e' = e ∧ bs' = [] ∧ delivers (pb_rw pb) [] e | None => delivers (pb_rw pb) bs' e end.

Lemma holds_nil (pb : pooledBuffer) e :
  pb_closed pb = false → unread pb = [] → pb_err pb = None → delivers (pb_rw pb) [] e → holds pb [] e.
Proof using. intros Hc Hu He Hd. split; [done|]. exists []. by rewrite Hu, He. Qed.

Lemma unread_nil (pb : pooledBuffer) : (length (pb_buf pb) <=? pb_rpos pb)%nat = bool_decide (unread pb = []).
Proof using.
  unfold unread. destruct (Nat.leb_spec (length (pb_buf pb)) (pb_rpos pb)).
  - rewrite drop_ge by done. by rewrite bool_decide_true.
  - rewrite bool_decide_false; [done|]. intros E%(f_equal length). rewrite length_drop in E. cbn in E. lia.
Qed.

(** Taking bytes from a filled buffer. *)
Lemma holds_take pb bs e n :
  holds pb bs e → (n ≤ length (unread pb))%nat → holds (with_rpos (pb_rpos pb + n) pb) (drop n bs) e.
Proof using.
  intros (Hc & bs' & -> & Hb) Hn. split; [done|]. exists bs'. split; [|done]. unfold unread, with_rpos. cbn [pb_buf pb_rpos].
  rewrite drop_app_le by done. unfold unread. by rewrite drop_drop.
Qed.

Lemma holds_take_prefix pb bs e n : holds pb bs e → (n ≤ length (unread pb))%nat → take n bs = take n (unread pb).
Proof using. intros (Hc & bs' & -> & Hb) Hn. by rewrite take_app_le. Qed.

(** Up to a delimiter. *)
Definition split_at_delim (delim : ascii) (bs line rest : list ascii) : Prop := ∃ l, line = l ++ [delim] ∧ bs = line ++ rest ∧ delim ∉ l.

(** What a line of at most [limit] bytes is: [k] more may come after [line]. *)
Inductive bounded_line (limit : nat) (e : ReadError) (line bs : list ascii) : list ascii → option ReadError → list ascii → Prop :=
| line_whole l rest : split_at_delim LF (line ++ bs) l rest → (length l ≤ limit)%nat → bounded_line limit e line bs l None rest
| line_long (k := (limit - length line)%nat) : LF ∉ take k bs → (k ≤ length bs)%nat →
    bounded_line limit e line bs (line ++ take k bs) (Some ErrShortBuffer) (drop k bs)
| line_cut : LF ∉ bs → (length bs < limit - length line)%nat → bounded_line limit e line bs (line ++ bs) (Some e) [].

Lemma bounded_line_shift limit e line u bs l er rest :
  LF ∉ u → (length line + length u ≤ limit)%nat →
  bounded_line limit e (line ++ u) bs l er rest → bounded_line limit e line (u ++ bs) l er rest.
Proof using.
  intros Hu Hl Hb. destruct Hb as [l rest Hs Hle|k Hn Hk|Hn Hk].
  - apply line_whole; [by rewrite app_assoc|done].
  - unfold k in *. clear k. rewrite length_app in *.
    assert (Etk : (limit - length line = length u + (limit - (length line + length u)))%nat) by lia.
    assert (E1 : take (limit - length line) (u ++ bs) = u ++ take (limit - (length line + length u)) bs).
    { rewrite Etk. by rewrite take_app_add. }
    assert (E2 : drop (limit - length line) (u ++ bs) = drop (limit - (length line + length u)) bs).
    { rewrite Etk. by rewrite drop_app_add. }
    rewrite <- app_assoc, <- E1, <- E2. apply line_long; [rewrite E1; by rewrite not_elem_of_app|rewrite length_app; lia].
  - rewrite length_app in Hk. rewrite <- app_assoc. apply line_cut; [by rewrite not_elem_of_app|rewrite length_app; lia].
Qed.

(** The byte loop of [Chunked] reads the same lines. *)
Lemma boundedLine_long e k limitErr bs : LF ∉ take k bs → (k ≤ length bs)%nat → boundedLine e k limitErr bs = (Err limitErr, drop k bs).
Proof using.
  revert bs. induction k as [|k IH]; intros bs Hn Hk; [by rewrite drop_0|]. destruct bs as [|b bs]; [cbn in Hk; lia|].
  cbn in Hn. apply not_elem_of_cons in Hn as [Hb Hn]. cbn [boundedLine drop]. rewrite bool_decide_false by done.
  rewrite IH; [done|done|cbn in Hk; lia].
Qed.

Lemma boundedLine_cut e k limitErr bs : LF ∉ bs → (length bs < k)%nat → boundedLine e k limitErr bs = (Err e, []).
Proof using.
  revert bs. induction k as [|k IH]; intros bs Hn Hk; [lia|]. destruct bs as [|b bs]; [done|].
  apply not_elem_of_cons in Hn as [Hb Hn]. cbn [boundedLine]. rewrite bool_decide_false by done. rewrite IH; [done|done|cbn in Hk; lia].
Qed.

Lemma boundedLine_agrees limit e limitErr bs l er rest :
  bounded_line limit e [] bs l er rest → e ≠ ErrShortBuffer →
  boundedLine e limit limitErr bs =
    (match er with None => Ok l | Some er => Err (if bool_decide (er = ErrShortBuffer) then limitErr else er) end, rest).
Proof using.
  intros Hb He. destruct Hb as [l rest (l' & -> & E & Hn) Hle|k Hn Hk|Hn Hk]; cbn [app length] in *.
  - rewrite E, <- app_assoc. apply boundedLine_app; [done|]. rewrite length_app in Hle. cbn in Hle. lia.
  - rewrite bool_decide_true by done. unfold k in *. rewrite Nat.sub_0_r in *. by apply boundedLine_long.
  - rewrite bool_decide_false by done. apply boundedLine_cut; [done|lia].
Qed.

Context (size : nat) (Hsize : (0 < size)%nat).

Lemma refill_spec pb bs e :
  holds pb bs e →
  match refill size pb with
  | (None, pb') => holds pb' bs e ∧ unread pb' ≠ []
  | (Some e', pb') => e' = e ∧ bs = [] ∧ holds pb' [] e ∧ unread pb' = []
  end.
Proof using Hsize.
  intros (Hc & bs' & -> & Hb). unfold refill. rewrite unread_nil. case_bool_decide as Hu.
  2:{ split; [|done]. split; [done|]. by exists bs'. }
  rewrite Hu. cbn [app]. destruct (pb_err pb) as [e'|] eqn:Ee.
  { destruct Hb as (-> & -> & Hd). split_and!; [done|done|by apply holds_nil|exact Hu]. }
  pose proof (reader_step (pb_rw pb) bs' e size Hb Hsize) as Hs. destruct (reader_read size (pb_rw pb)) as [[p [er|]] rw].
  - destruct Hs as (-> & Hl & -> & Hd). destruct bs' as [|c bs']; cbn [length Nat.ltb Nat.leb].
    + split_and!; [done|done|by apply holds_nil|exact Hu].
    + split; [|done]. split; [done|]. exists []. cbn. by rewrite app_nil_r.
  - destruct Hs as (Hp & Hl & bs2 & -> & Hd). destruct p as [|c p]; [done|]. cbn [length Nat.ltb Nat.leb Nat.eqb].
    split; [|done]. split; [done|]. by exists bs2.
Qed.

Lemma read_spec pb bs e len : holds pb bs e → (0 < len)%nat →
  match readBuffer size len pb with
  | (p, None, pb') => p ≠ [] ∧ (length p ≤ len)%nat ∧ ∃ bs', bs = p ++ bs' ∧ holds pb' bs' e
  | (p, Some e', pb') => p = [] ∧ bs = [] ∧ e' = e ∧ holds pb' [] e
  end.
Proof using Hsize.
  intros Hh Hlen. unfold readBuffer. rewrite (proj1 Hh), (proj2 (Nat.eqb_neq len 0)) by lia.
  pose proof (refill_spec pb bs e Hh) as Hr. destruct (refill size pb) as [[e'|] pb'].
  { destruct Hr as (-> & -> & Hh' & _). by split_and!. }
  destruct Hr as [Hh' Hu]. cbv zeta. set (p := take len (unread pb')).
  assert (Hp : p = take (length p) (unread pb')).
  { unfold p. rewrite length_take. destruct (decide (len ≤ length (unread pb'))%nat); [by rewrite Nat.min_l|].
    by rewrite Nat.min_r, !take_ge by lia. }
  assert (Hpl : (length p ≤ length (unread pb'))%nat) by (unfold p; rewrite length_take; lia).
  split_and!.
  - unfold p. destruct (unread pb'), len; [done|done|lia|done].
  - unfold p. rewrite length_take. lia.
  - exists (drop (length p) bs). split; [|by apply holds_take].
    rewrite <- (take_drop (length p) bs) at 1. f_equal. by rewrite (holds_take_prefix pb' bs e _ Hh' Hpl), <- Hp.
Qed.

#[export] Program Instance pooledBuffer_Laws : ReaderLaws (H := pooledBuffer_Reader size) pooledBuffer := {| delivers := holds |}.
Next Obligation.
  intros pb bs e len Hh Hlen. unfold reader_read, pooledBuffer_Reader. pose proof (read_spec pb bs e len Hh Hlen) as Hr.
  destruct (readBuffer size len pb) as [[p [e'|]] pb']; [|exact Hr]. destruct Hr as (-> & -> & -> & Hh'). split_and!; [done|simpl; lia|done|done].
Qed.

Lemma ReadByte_spec pb bs e : holds pb bs e →
  match bs with
  | [] => ∃ pb', ReadByte size pb = (Err e, pb') ∧ holds pb' [] e
  | b :: bs' => ∃ pb', ReadByte size pb = (Ok b, pb') ∧ holds pb' bs' e
  end.
Proof using Hsize.
  intros Hh. unfold ReadByte. rewrite (proj1 Hh). pose proof (refill_spec pb bs e Hh) as Hr.
  destruct (refill size pb) as [[e'|] pb'].
  { destruct Hr as (-> & -> & Hh' & _). by eexists. }
  destruct Hr as [Hh' Hu]. pose proof (holds_take pb' bs e 1 Hh') as Ht. pose proof (holds_take_prefix pb' bs e 1 Hh') as Hp.
  destruct (unread pb') as [|b u]; [done|]. cbn [length] in *. specialize (Ht ltac:(lia)). specialize (Hp ltac:(lia)).
  destruct bs as [|b' bs]; [done|]. injection Hp as ->. by eexists.
Qed.

Lemma readDelimited_spec fuel delim line pb bs e :
  holds pb bs e → delim ∉ line → (length bs < fuel)%nat →
  (∃ l rest pb', split_at_delim delim (line ++ bs) l rest ∧ readDelimited size fuel delim line pb = Some (l, None, pb') ∧ holds pb' rest e) ∨
  (delim ∉ bs ∧ ∃ pb', readDelimited size fuel delim line pb = Some (line ++ bs, Some e, pb') ∧ holds pb' [] e).
Proof using Hsize.
  revert line pb bs. induction fuel as [|fuel IH]; intros line pb bs Hh Hline Hf; [lia|]. cbn [readDelimited].
  pose proof (refill_spec pb bs e Hh) as Hr. destruct (refill size pb) as [[e'|] pb'].
  { destruct Hr as (-> & -> & Hh' & _). right. split; [apply not_elem_of_nil|]. rewrite app_nil_r. by eexists. }
  destruct Hr as [Hh' Hu]. destruct (IndexByte (unread pb') delim) as [idx|] eqn:Ei.
  - apply IndexByte_Some in Ei as (l1 & l2 & Eu & Hn & <-). left.
    assert (Hle : (length l1 + 1 ≤ length (unread pb'))%nat) by (rewrite Eu, length_app; cbn; lia).
    assert (Htk : take (length l1 + 1) (unread pb') = l1 ++ [delim]).
    { rewrite Eu, cons_middle, app_assoc. apply take_app_length'. rewrite length_app. cbn. lia. }
    do 3 eexists. split; [|split; [reflexivity|by apply holds_take]]. rewrite Htk. exists (line ++ l1).
    rewrite app_assoc. split_and!; [done| |by rewrite not_elem_of_app].
    rewrite <- (take_drop (length l1 + 1) bs) at 1. rewrite (holds_take_prefix pb' bs e _ Hh' Hle), Htk. by rewrite !app_assoc.
  - apply IndexByte_None in Ei. pose proof (holds_take pb' bs e (length (unread pb')) Hh' (le_n _)) as Ht.
    pose proof (holds_take_prefix pb' bs e (length (unread pb')) Hh' (le_n _)) as Hp. rewrite (take_ge (unread pb')) in Hp by done.
    assert (Hpos : with_rpos (length (pb_buf pb')) pb' = with_rpos (pb_rpos pb' + length (unread pb')) pb').
    { unfold with_rpos. f_equal. unfold unread in *. rewrite length_drop.
      destruct (decide (pb_rpos pb' ≤ length (pb_buf pb'))%nat); [lia|]. exfalso. apply Hu. apply drop_ge. lia. }
    rewrite Hpos. rewrite <- Hpos in Ht. rewrite <- Hpos.
    assert (Hlen : (length (drop (length (unread pb')) bs) < fuel)%nat).
    { destruct (unread pb') eqn:Eu; [done|]. assert (0 < length bs)%nat by (destruct bs; [by rewrite take_nil in Hp|cbn; lia]).
      rewrite length_drop. cbn. lia. }
    assert (Ebs : bs = unread pb' ++ drop (length (unread pb')) bs) by (rewrite <- Hp at 1; by rewrite take_drop).
    destruct (IH (line ++ unread pb') _ _ Ht ltac:(by rewrite not_elem_of_app) Hlen) as [(l & rest & pb2 & Hs & E & Hh2)|(Hd & pb2 & E & Hh2)].
    + left. exists l, rest, pb2. split_and!; [|done|done]. by rewrite Ebs, app_assoc.
    + right. split; [rewrite Ebs; by rewrite not_elem_of_app|]. exists pb2. rewrite E, <- app_assoc, <- Ebs. by split.
Qed.

Lemma readBounded_spec fuel limit line pb bs e :
  holds pb bs e → LF ∉ line → (length line < limit)%nat → (length bs < fuel)%nat →
  ∃ l er rest pb', readBounded size fuel limit line pb = Some (l, er, pb') ∧ holds pb' rest e ∧ bounded_line limit e line bs l er rest.
Proof using Hsize.
  revert line pb bs. induction fuel as [|fuel IH]; intros line pb bs Hh Hline Hlt Hf; [lia|]. cbn [readBounded].
  pose proof (refill_spec pb bs e Hh) as Hr. destruct (refill size pb) as [[e'|] pb'].
  { destruct Hr as (-> & -> & Hh' & _). exists line, (Some e), [], pb'. split; [done|]. split; [done|].
    rewrite <- (app_nil_r line) at 2. apply line_cut; [apply not_elem_of_nil|cbn; lia]. }
  destruct Hr as [Hh' Hu]. cbv zeta. set (u := unread pb') in *.
  assert (Htake : ∀ n, (n ≤ length u)%nat → take n bs = take n u) by (intros n Hn; by apply (holds_take_prefix pb' bs e)).
  assert (Hdrop : ∀ n, (n ≤ length u)%nat → holds (with_rpos (pb_rpos pb' + n) pb') (drop n bs) e) by (intros n Hn; by apply holds_take).
  assert (Hlu : (length u ≤ length bs)%nat).
  { specialize (Htake (length u) (le_n _)). apply (f_equal length) in Htake. rewrite !length_take in Htake. lia. }
  destruct (IndexByte u LF) as [i|] eqn:Ei.
  - apply IndexByte_Some in Ei as (l1 & l2 & Eu & Hn & <-).
    assert (Hlen : length u = (length l1 + 1 + length l2)%nat) by (rewrite Eu, length_app; cbn; lia).
    assert (Hseg : take (length l1 + 1) u = l1 ++ [LF]).
    { rewrite Eu, cons_middle, app_assoc. apply take_app_length'. rewrite length_app. cbn. lia. }
    destruct (Nat.ltb_spec (limit - length line) (length l1 + 1)) as [Hs|Hs].
    + do 4 eexists. split; [reflexivity|]. split; [apply Hdrop; lia|].
      assert (Etk : take (limit - length line) u = take (limit - length line) l1) by (rewrite Eu; by apply take_app_le; lia).
      rewrite <- Htake by lia. apply line_long; [|lia]. rewrite Htake, Etk by lia. by apply not_in_take.
    + assert (Hlf : (length l1 + 1 <? length u)%nat || bool_decide (u !! (length l1 + 1 - 1)%nat = Some LF) = true).
      { apply orb_true_iff. right. apply bool_decide_eq_true. rewrite Eu, Nat.add_sub. by apply list_lookup_middle. }
      rewrite Hlf. do 4 eexists. split; [reflexivity|]. split; [apply Hdrop; lia|]. rewrite Hseg.
      apply line_whole; [|rewrite !length_app; cbn; lia]. exists (line ++ l1). split_and!; [by rewrite app_assoc| |by rewrite not_elem_of_app].
      rewrite <- (take_drop (length l1 + 1) bs) at 1. by rewrite Htake, Hseg, !app_assoc by lia.
  - apply IndexByte_None in Ei. rewrite (take_ge u (length u)) by done.
    assert (Hbs : bs = u ++ drop (length u) bs) by (rewrite <- (take_ge u (length u)) at 1 by done; by rewrite <- Htake, take_drop).
    assert (Hlast : (length u <? length u)%nat || bool_decide (u !! (length u - 1)%nat = Some LF) = false).
    { rewrite Nat.ltb_irrefl. apply bool_decide_eq_false. intros El. apply Ei. by eapply list_elem_of_lookup_2. }
    destruct (Nat.ltb_spec (limit - length line) (length u)) as [Hs|Hs].
    + do 4 eexists. split; [reflexivity|]. split; [apply Hdrop; lia|]. rewrite <- Htake by lia.
      apply line_long; [|lia]. rewrite Htake by lia. by apply not_in_take.
    + rewrite Hlast. rewrite length_app. destruct (Nat.eqb_spec (length line + length u) limit) as [El|El].
      * exists (line ++ u), (Some ErrShortBuffer), (drop (length u) bs). eexists. split; [reflexivity|]. split; [by apply Hdrop|].
        assert (Ek : (limit - length line = length u)%nat) by lia.
        assert (Eu : take (limit - length line) bs = u) by (rewrite Ek, Htake, take_ge by lia; done).
        rewrite <- Ek, <- Eu. apply line_long; [by rewrite Eu|lia].
      * assert (Hlu1 : (0 < length u)%nat) by (destruct u; [done|cbn; lia]).
        destruct (IH (line ++ u) _ _ (Hdrop (length u) (le_n _)) ltac:(by rewrite not_elem_of_app) ltac:(rewrite length_app; lia) ltac:(rewrite length_drop; lia))
          as (l & er & rest & pb2 & E & Hh2 & Hb).
        exists l, er, rest, pb2. split; [exact E|]. split; [done|]. rewrite Hbs. apply bounded_line_shift; [done|lia|done].
Qed.

End Delivers.

(** ** Reading as from a flat sequence of bytes *)

Inductive read_op := OpRead (len : nat) | OpReadByte | OpReadLine | OpReadBytes (delim : ascii) | OpReadBoundedLine (limit : Z).

(** The bytes that are returned with the error, from [bs] before [e]. *)
Inductive flat_read (e : ReadError) : list ascii → read_op → list ascii → option ReadError → list ascii → Prop :=
| flat_nothing bs : flat_read e bs (OpRead 0) [] None bs
| flat_some len p bs : p ≠ [] → (length p ≤ len)%nat → flat_read e (p ++ bs) (OpRead len) p None bs
| flat_end len : (0 < len)%nat → flat_read e [] (OpRead len) [] (Some e) []
| flat_byte b bs : flat_read e (b :: bs) OpReadByte [b] None bs
| flat_byte_end : flat_read e [] OpReadByte [] (Some e) []
| flat_bytes delim l bs : delim ∉ l → flat_read e (l ++ delim :: bs) (OpReadBytes delim) (l ++ [delim]) None bs
| flat_bytes_end delim bs : delim ∉ bs → flat_read e bs (OpReadBytes delim) bs (Some e) []
| flat_line l bs : LF ∉ l → flat_read e (l ++ LF :: bs) OpReadLine (trim_CR l) None bs
| flat_line_end bs : LF ∉ bs → flat_read e bs OpReadLine bs (Some e) []
| flat_no_line limit bs : limit ≤ 0 → flat_read e bs (OpReadBoundedLine limit) [] (Some ErrShortBuffer) bs
| flat_bounded limit bs l er rest : 0 < limit → bounded_line (Z.to_nat limit) e [] bs l er rest →
    flat_read e bs (OpReadBoundedLine limit) l er rest.

Inductive flat_reads (e : ReadError) : list ascii → list read_op → list (list ascii * option ReadError) → list ascii → Prop :=
| reads_nil bs : flat_reads e bs [] [] bs
| reads_cons bs o p er bs' os rs bs2 :
    flat_read e bs o p er bs' → flat_reads e bs' os rs bs2 → flat_reads e bs (o :: os) ((p, er) :: rs) bs2.

Section Refinement.
Context {R : Type} `{HL : ReaderLaws R} (size : nat) (Hsize : (0 < size)%nat).
Notation pooledBuffer := (pooledBuffer R).

Definition buffer_call (fuel : nat) (o : read_op) (pb : pooledBuffer) : option (list ascii * option ReadError * pooledBuffer) :=
  match o with
  | OpRead len => Some (readBuffer size len pb)
  | OpReadByte => Some (match ReadByte size pb with (Ok b, pb) => ([b], None, pb) | (Err e, pb) => ([], Some e, pb) end)
  | OpReadLine => ReadLine size fuel pb
  | OpReadBytes delim => ReadBytes size fuel delim pb
  | OpReadBoundedLine limit => ReadBoundedLine size fuel limit pb
  end.

Fixpoint buffer_calls (fuel : nat) (os : list read_op) (pb : pooledBuffer)
  : option (list (list ascii * option ReadError) * pooledBuffer) :=
  match os with
  | [] => Some ([], pb)
  | o :: os =>
      '(p, e, pb) ← buffer_call fuel o pb;
      '(rs, pb) ← buffer_calls fuel os pb;
      Some ((p, e) :: rs, pb)
  end.

Lemma split_at_delim_app delim bs l rest : split_at_delim delim ([] ++ bs) l rest →
  ∃ l', l = l' ++ [delim] ∧ bs = l' ++ delim :: rest ∧ delim ∉ l'.
Proof using. intros (l' & -> & E & Hn). exists l'. split_and!; [done| |done]. cbn in E. by rewrite E, <- app_assoc. Qed.

Lemma buffer_call_spec fuel o pb bs e :
  holds pb bs e → (length bs < fuel)%nat →
  ∃ p er bs' pb', buffer_call fuel o pb = Some (p, er, pb') ∧ flat_read e bs o p er bs' ∧ holds pb' bs' e ∧
    (length bs' ≤ length bs)%nat.
Proof using Hsize.
  intros Hh Hf. destruct o as [len| | |delim|limit]; cbn [buffer_call].
  - destruct len as [|len].
    { exists [], None, bs, pb. split_and!; [|constructor|done|done]. unfold readBuffer. by rewrite (proj1 Hh). }
    pose proof (read_spec size Hsize pb bs e (S len) Hh ltac:(lia)) as Hr. destruct (readBuffer size (S len) pb) as [[p [er|]] pb'].
    + destruct Hr as (-> & -> & -> & Hh'). exists [], (Some e), [], pb'. split_and!; [done|constructor; lia|done|done].
    + destruct Hr as (Hp & Hl & bs' & -> & Hh'). exists p, None, bs', pb'. split_and!; [done|by constructor|done|rewrite length_app; lia].
  - pose proof (ReadByte_spec size Hsize pb bs e Hh) as Hr. destruct bs as [|b bs]; destruct Hr as (pb' & -> & Hh').
    + exists [], (Some e), [], pb'. split_and!; [done|constructor|done|done].
    + exists [b], None, bs, pb'. split_and!; [done|constructor|done|cbn; lia].
  - unfold ReadLine. rewrite (proj1 Hh).
    destruct (readDelimited_spec size Hsize fuel LF [] pb bs e Hh (not_elem_of_nil _) Hf) as [(l & rest & pb' & Hs & -> & Hh')|(Hn & pb' & -> & Hh')].
    + apply split_at_delim_app in Hs as (l' & -> & -> & Hn). cbn [mbind option_bind]. do 4 eexists. split; [reflexivity|].
      rewrite length_app, Nat.add_sub, take_app_length. split_and!; [by constructor|done|rewrite length_app; cbn; lia].
    + cbn [mbind option_bind app]. exists bs, (Some e), [], pb'. split_and!; [done|by constructor|done|cbn; lia].
  - unfold ReadBytes. rewrite (proj1 Hh).
    destruct (readDelimited_spec size Hsize fuel delim [] pb bs e Hh (not_elem_of_nil _) Hf) as [(l & rest & pb' & Hs & -> & Hh')|(Hn & pb' & -> & Hh')].
    + apply split_at_delim_app in Hs as (l' & -> & -> & Hn). do 4 eexists. split; [reflexivity|].
      split_and!; [by constructor|done|rewrite length_app; cbn; lia].
    + exists bs, (Some e), [], pb'. split_and!; [done|by constructor|done|cbn; lia].
  - unfold ReadBoundedLine. rewrite (proj1 Hh). destruct (Z.leb_spec limit 0) as [Hl|Hl].
    { exists [], (Some ErrShortBuffer), bs, pb. split_and!; [done|by constructor|done|done]. }
    destruct (readBounded_spec size Hsize fuel (Z.to_nat limit) [] pb bs e Hh (not_elem_of_nil _) ltac:(cbn; lia) Hf) as (l & er & rest & pb' & -> & Hh' & Hb).
    exists l, er, rest, pb'. split_and!; [done|by constructor|done|]. destruct Hb as [l rest Hs Hle|k Hn Hk|Hn Hk].
    + apply split_at_delim_app in Hs as (l' & -> & -> & Hn). rewrite length_app. cbn. lia.
    + rewrite length_drop. lia.
    + cbn. lia.
Qed.

(** C10: however the bytes of a client are cut into packets, the server's buffer hands
    them out as one sequence: any calls of its methods, in any order, return what the
    same calls on the flat sequence return - bytes, whole lines, lines over a limit,
    and the error of the socket only after the last byte, again and again. None of the
    calls runs for ever. *)
Theorem pooled_buffer_refines fuel os pb bs e :
  holds pb bs e → (length bs < fuel)%nat →
  ∃ rs bs' pb', buffer_calls fuel os pb = Some (rs, pb') ∧ flat_reads e bs os rs bs' ∧ holds pb' bs' e.
Proof using Hsize.
  revert pb bs. induction os as [|o os IH]; intros pb bs Hh Hf; [exists [], bs, pb; split_and!; [done|constructor|done]|].
  destruct (buffer_call_spec fuel o pb bs e Hh Hf) as (p & er & bs1 & pb1 & E & Hr & Hh1 & Hl).
  destruct (IH pb1 bs1 Hh1 ltac:(lia)) as (rs & bs2 & pb2 & E2 & Hrs & Hh2).
  exists ((p, er) :: rs), bs2, pb2. cbn [buffer_calls]. rewrite E. cbn. rewrite E2. cbn. split_and!; [done|by econstructor|done].
Qed.

(** The lines that the protocol code asks the buffer for are those of the byte
    loop that the chunked reader and the parser are modelled with: the same bytes, the
    same rest, and the limit's error at the same place. *)
Theorem bounded_lines_agree fuel limit limitErr pb bs e :
  holds pb bs e → (length bs < fuel)%nat → 0 < limit → e ≠ ErrShortBuffer →
  ∃ l er pb' rest, ReadBoundedLine size fuel limit pb = Some (l, er, pb') ∧ holds pb' rest e ∧
    readBoundedLine e limit limitErr bs =
      (match er with None => Ok (string_of l) | Some er => Err (if bool_decide (er = ErrShortBuffer) then limitErr else er) end, rest).
Proof using Hsize.
  intros Hh Hf Hl He. unfold ReadBoundedLine. rewrite (proj1 Hh), (proj2 (Z.leb_gt limit 0)) by lia.
  destruct (readBounded_spec size Hsize fuel (Z.to_nat limit) [] pb bs e Hh (not_elem_of_nil _) ltac:(cbn; lia) Hf) as (l & er & rest & pb' & -> & Hh' & Hb).
  exists l, er, pb', rest. split; [done|]. split; [done|]. unfold readBoundedLine.
  rewrite (boundedLine_agrees _ e limitErr bs l er rest Hb He). by destruct er.
Qed.
End Refinement.

(** ** The buffered writer *)

Record bufferedWriter (W : Type) := { bw_buf : list ascii; bw_closed : bool; bw_w : W }.
Arguments bw_buf {W} b.
Arguments bw_closed {W} b.
Arguments bw_w {W} b.

Section Writer.
Context {W : Type} (write : list ascii → W → nat * option WriteError * W).
(** The capacity of the pooled slice. *)
Context (size : nat).
Notation bufferedWriter := (bufferedWriter W).

Definition newBufferedWriter (w : W) : bufferedWriter := {| bw_buf := []; bw_closed := false; bw_w := w |}.

(** What was not written when writing fails is dropped. *)
Definition flushLocked (bw : bufferedWriter) : option WriteError * bufferedWriter :=
  if (length (bw_buf bw) =? 0)%nat then (None, bw)
  else
    let '(_, err, w) := write (bw_buf bw) (bw_w bw) in
    (err, {| bw_buf := []; bw_closed := bw_closed bw; bw_w := w |}).

Definition append_buf (p : list ascii) (bw : bufferedWriter) : bufferedWriter :=
  {| bw_buf := bw_buf bw ++ p; bw_closed := bw_closed bw; bw_w := bw_w bw |}.

Definition writeLocked (p : list ascii) (bw : bufferedWriter) : nat * option WriteError * bufferedWriter :=
  if (length p =? 0)%nat then (O, None, bw)
  else if (size - length (bw_buf bw) <? length p)%nat then
    match flushLocked bw with
    | (Some err, bw) => (O, Some err, bw)
    | (None, bw) =>
        if (size <=? length p)%nat then
          let '(n, err, w) := write p (bw_w bw) in
          (n, err, {| bw_buf := bw_buf bw; bw_closed := bw_closed bw; bw_w := w |})
        else (length p, None, append_buf p bw)
    end
  else (length p, None, append_buf p bw).

Definition writeBuffered (p : list ascii) (bw : bufferedWriter) : nat * option WriteError * bufferedWriter :=
  if bw_closed bw then (O, Some WriteOnClosed, bw) else writeLocked p bw.

(** The same for a string. *)
Definition WriteString (s : string) (bw : bufferedWriter) : nat * option WriteError * bufferedWriter :=
  if bw_closed bw then (O, Some WriteOnClosed, bw) else writeLocked (bytes_of s) bw.

Definition Flush (bw : bufferedWriter) : option WriteError * bufferedWriter :=
  if bw_closed bw then (Some WriteOnClosed, bw) else flushLocked bw.

Definition released (bw : bufferedWriter) : bufferedWriter := {| bw_buf := []; bw_closed := true; bw_w := bw_w bw |}.

Definition closeWriter (bw : bufferedWriter) : option WriteError * bufferedWriter :=
  if bw_closed bw then (None, bw)
  else let '(err, bw) := flushLocked bw in (err, released bw).

Definition closeDiscard (bw : bufferedWriter) : bufferedWriter := if bw_closed bw then bw else released bw.
End Writer.

Inductive write_op := OpWrite (p : list ascii) | OpWriteString (s : string) | OpFlush | OpClose.

Section WriterSpec.
Context (size : nat).
Notation bufferedWriter := (bufferedWriter Sink).

Definition writer_call (o : write_op) (bw : bufferedWriter) : option WriteError * bufferedWriter :=
  match o with
  | OpWrite p => let '(_, e, bw) := writeBuffered sink_write size p bw in (e, bw)
  | OpWriteString s => let '(_, e, bw) := WriteString sink_write size s bw in (e, bw)
  | OpFlush => Flush sink_write bw
  | OpClose => closeWriter sink_write bw
  end.

Definition op_data (o : write_op) : list ascii :=
  match o with OpWrite p => p | OpWriteString s => bytes_of s | OpFlush | OpClose => [] end.

(** Calls until the first error. *)
Fixpoint writer_calls (os : list write_op) (bw : bufferedWriter) : option WriteError * bufferedWriter :=
  match os with
  | [] => (None, bw)
  | o :: os =>
      match writer_call o bw with
      | (Some e, bw) => (Some e, bw)
      | (None, bw) => writer_calls os bw
      end
  end.

(** The sink gained [d], and no error comes from nowhere. *)
Definition gained (w w' : Sink) (d : list ascii) : Prop := out w' = out w ++ d ∧ (room w = None → room w' = None).

Lemma gained_trans w1 w2 w3 d1 d2 : gained w1 w2 d1 → gained w2 w3 d2 → gained w1 w3 (d1 ++ d2).
Proof using. intros [E1 R1] [E2 R2]. split; [by rewrite E2, E1, app_assoc|auto]. Qed.

Lemma sink_gained p w : ∃ n e w', sink_write p w = (n, e, w') ∧ ∃ d, gained w w' d ∧ d `prefix_of` p ∧
  match e with None => d = p | Some _ => room w ≠ None end.
Proof using.
  pose proof (sink_write_spec p w) as Hs. destruct (sink_write p w) as [[n e] w']. destruct Hs as (Ho & He & Hr).
  exists n, e, w'. split; [done|]. exists (match room w with None => p | Some k => take k p end). split_and!.
  - split; [done|]. rewrite Hr. by destruct (room w).
  - destruct (room w); [apply prefix_take|done].
  - destruct e as [e|]; [intros Hn; rewrite Hn in He; discriminate (proj2 He I)|].
    destruct (room w) as [k|]; [|done]. apply take_ge. by apply He.
Qed.

Lemma flushLocked_spec (bw : bufferedWriter) :
  match flushLocked sink_write bw with
  | (e, bw') => bw_buf bw' = [] ∧ bw_closed bw' = bw_closed bw ∧ ∃ d, gained (bw_w bw) (bw_w bw') d ∧ d `prefix_of` bw_buf bw ∧
      match e with None => d = bw_buf bw | Some _ => room (bw_w bw) ≠ None end
  end.
Proof using.
  unfold flushLocked. destruct (bw_buf bw) as [|c b] eqn:Eb.
  - cbn. split_and!; [done|done|]. exists []. split_and!; [by split; [rewrite app_nil_r|]|done|done].
  - cbn [length Nat.eqb]. destruct (sink_gained (c :: b) (bw_w bw)) as (n & e & w' & -> & d & Hg & Hp & He).
    split; [done|]. split; [done|]. by exists d.
Qed.

(** The buffer never holds more than its slice, and nothing once it is closed. *)
Definition writer_ok (bw : bufferedWriter) : Prop := (length (bw_buf bw) ≤ size)%nat ∧ (bw_closed bw = true → bw_buf bw = []).

(** What came to the sink, from a writer to the next, of its buffer and [data]. *)
Definition passed (bw : bufferedWriter) (data : list ascii) (e : option WriteError) (bw' : bufferedWriter) : Prop :=
  writer_ok bw' ∧ ∃ d, gained (bw_w bw) (bw_w bw') d ∧ d `prefix_of` bw_buf bw ++ data ∧
  match e with None => d ++ bw_buf bw' = bw_buf bw ++ data | Some _ => bw_closed bw = true ∨ room (bw_w bw) ≠ None end.

Lemma gained_nil (w : Sink) : gained w w [].
Proof using. split; [by rewrite app_nil_r|done]. Qed.

Lemma passed_closed bw data e : writer_ok bw → bw_closed bw = true → passed bw data (Some e) bw.
Proof using. intros Hok Hc. split; [done|]. exists []. split_and!; [apply gained_nil|apply prefix_nil|by left]. Qed.

Lemma flush_passed bw closed' :
  writer_ok bw → let '(e, bw') := flushLocked sink_write bw in
  passed bw [] e {| bw_buf := bw_buf bw'; bw_closed := closed'; bw_w := bw_w bw' |} ∧ bw_buf bw' = [].
Proof using.
  intros Hok. pose proof (flushLocked_spec bw) as Hf. destruct (flushLocked sink_write bw) as [e bw1].
  destruct Hf as (Hb1 & Hc1 & d & Hg & Hp & He). split; [|done]. rewrite Hb1. split; [split; [cbn; lia|done]|]. exists d.
  rewrite app_nil_r. split_and!; [done|done|]. destruct e; [by right|]. subst. apply app_nil_r.
Qed.

Lemma writeLocked_passed p bw :
  writer_ok bw → bw_closed bw = false →
  let '(_, e, bw') := writeLocked sink_write size p bw in passed bw p e bw' ∧ bw_closed bw' = false.
Proof using.
  intros [Hle _] Hc. assert (Hopen : ∀ b w, (length b ≤ size)%nat → writer_ok {| bw_buf := b; bw_closed := bw_closed bw; bw_w := w |}).
  { intros b w Hb. split; [done|]. cbn. by rewrite Hc. }
  unfold writeLocked. destruct (Nat.eqb_spec (length p) 0) as [E0|E0].
  { apply nil_length_inv in E0 as ->. split; [|done]. split; [destruct bw; by apply Hopen|]. exists [].
    split_and!; [apply gained_nil|apply prefix_nil|by rewrite app_nil_r]. }
  destruct (Nat.ltb_spec (size - length (bw_buf bw)) (length p)) as [Hbig|Hfit].
  - pose proof (flushLocked_spec bw) as Hf. destruct (flushLocked sink_write bw) as [[e|] [b1 c1 w1]]; cbn [bw_buf bw_closed bw_w] in Hf.
    + destruct Hf as (-> & -> & d & Hg & Hp & He). split; [|done]. split; [apply Hopen; cbn; lia|]. exists d.
      split_and!; [done|by apply prefix_app_r|by right].
    + destruct Hf as (-> & -> & d & Hg & _ & ->). destruct (Nat.leb_spec size (length p)).
      * cbn [bw_w bw_buf bw_closed]. destruct (sink_gained p w1) as (n & e & w' & -> & d2 & Hg2 & Hp2 & He2).
        split; [|done]. split; [apply Hopen; cbn; lia|]. exists (bw_buf bw ++ d2). split; [by eapply gained_trans|]. split; [by apply prefix_app|].
        destruct e as [e|]; [|subst d2; by rewrite app_nil_r]. right. intros Hr. apply He2. by apply Hg.
      * split; [|done]. split; [apply Hopen; cbn; lia|]. exists (bw_buf bw). split_and!; [done|by apply prefix_app_r|done].
  - split; [|done]. split; [apply Hopen; rewrite length_app; lia|]. exists [].
    split_and!; [apply gained_nil|apply prefix_nil|done].
Qed.

Lemma writer_call_passed o bw :
  writer_ok bw →
  let '(e, bw') := writer_call o bw in
  passed bw (op_data o) e bw' ∧ (bw_closed bw' = true → bw_closed bw = true ∨ o = OpClose) ∧
  (e = None → o = OpFlush ∨ o = OpClose → bw_buf bw' = []).
Proof using.
  intros Hok. destruct o as [p|s| |]; cbn [writer_call op_data].
  - unfold writeBuffered. destruct (bw_closed bw) eqn:Ec; [split_and!; [by apply passed_closed|by left|done]|].
    pose proof (writeLocked_passed p bw Hok Ec) as Hp. destruct (writeLocked _ _ _ _) as [[n e] bw']. destruct Hp as [Hp Hc].
    split_and!; [done|by rewrite Hc|by intros _ [?|?]].
  - unfold WriteString. destruct (bw_closed bw) eqn:Ec; [split_and!; [by apply passed_closed|by left|done]|].
    pose proof (writeLocked_passed (bytes_of s) bw Hok Ec) as Hp. destruct (writeLocked _ _ _ _) as [[n e] bw']. destruct Hp as [Hp Hc].
    split_and!; [done|by rewrite Hc|by intros _ [?|?]].
  - unfold Flush. destruct (bw_closed bw) eqn:Ec; [split_and!; [by apply passed_closed|by left|done]|].
    pose proof (flush_passed bw false Hok) as Hf. pose proof (flushLocked_spec bw) as Hs.
    destruct (flushLocked sink_write bw) as [e [b c w]]. destruct Hf as [Hf Hb]. cbn in Hs, Hb. rewrite Ec in Hs. destruct Hs as (_ & -> & _).
    split_and!; [exact Hf|done|done].
  - unfold closeWriter. destruct (bw_closed bw) eqn:Ec.
    { split_and!; [|by left|intros _ _; by apply Hok]. split; [done|]. exists [].
      split_and!; [apply gained_nil|apply prefix_nil|by rewrite app_nil_r]. }
    pose proof (flush_passed bw true Hok) as Hf. destruct (flushLocked sink_write bw) as [e bw']. destruct Hf as [Hf Hb].
    rewrite Hb in Hf. split_and!; [exact Hf|by right|done].
Qed.

Lemma writer_calls_passed os bw :
  writer_ok bw →
  let '(e, bw') := writer_calls os bw in
  writer_ok bw' ∧ ∃ d, gained (bw_w bw) (bw_w bw') d ∧ d `prefix_of` bw_buf bw ++ concat (map op_data os) ∧
  match e with
  | None => d ++ bw_buf bw' = bw_buf bw ++ concat (map op_data os) ∧ (last os = Some OpFlush ∨ last os = Some OpClose → bw_buf bw' = [])
  | Some _ => bw_closed bw = true ∨ room (bw_w bw) ≠ None ∨ OpClose ∈ os
  end.
Proof using.
  revert bw. induction os as [|o os IH]; intros bw Hok; cbn [writer_calls map concat].
  { split; [done|]. exists []. rewrite app_nil_r. split_and!; [apply gained_nil|apply prefix_nil|done|by intros [?|?]]. }
  pose proof (writer_call_passed o bw Hok) as Hc. destruct (writer_call o bw) as [[e|] bw1].
  - destruct Hc as ((Hok1 & d & Hg & Hp & He) & Hcl & _). split; [done|]. exists d. split_and!; [done| |tauto].
    rewrite app_assoc. by apply prefix_app_r.
  - destruct Hc as ((Hok1 & d & Hg & Hp & He) & Hcl & Hend). specialize (IH bw1 Hok1). destruct (writer_calls os bw1) as [e2 bw2].
    destruct IH as (Hok2 & d2 & Hg2 & Hp2 & He2). split; [done|]. exists (d ++ d2). split; [by eapply gained_trans|].
    rewrite app_assoc, <- He, <- app_assoc. split; [by apply prefix_app|]. destruct e2 as [e2|].
    + destruct He2 as [H2|[H2|H2]]; [destruct (Hcl H2) as [Hx|Hx]; [by left|subst o; right; right; by left]|right; left; intros Hr; apply H2; by apply Hg|right; right; by right].
    + destruct He2 as [H2 Hlast]. rewrite <- app_assoc, H2. split; [done|]. intros Hl. destruct os as [|o' os]; [|by apply Hlast].
      cbn in H2. assert (bw_buf bw1 = []) as Hb1 by (apply Hend; [done|destruct Hl as [Hx|Hx]; injection Hx as ->; [by left|by right]]).
      rewrite Hb1 in H2. cbn in H2. by apply app_nil in H2 as [_ ->].
Qed.

(** The writer passes on what it is given, in order and unchanged: as long as no
    call fails, the bytes at the socket followed by those in the buffer are those of
    the calls, and the buffer never holds more than its slice. After a flush or a
    close the buffer is empty. When a call fails, what the socket got is a prefix, and
    the socket had failed or the writer was closed before. *)
Theorem buffered_writer_refines os sink :
  let '(e, bw) := writer_calls os (newBufferedWriter sink) in
  (length (bw_buf bw) ≤ size)%nat ∧
  ∃ d, out (bw_w bw) = out sink ++ d ∧ d `prefix_of` concat (map op_data os) ∧
    match e with
    | None => d ++ bw_buf bw = concat (map op_data os) ∧ (last os = Some OpFlush ∨ last os = Some OpClose → d = concat (map op_data os))
    | Some _ => room sink = None → OpClose ∈ os
    end.
Proof using.
  pose proof (writer_calls_passed os (newBufferedWriter sink)) as Hw. destruct (writer_calls os _) as [e bw].
  destruct Hw as ([Hl _] & d & [Ho _] & Hp & He); [split; [cbn; lia|done]|]. split; [done|]. exists d. split_and!; [done|done|].
  destruct e as [e|].
  - intros Hr. destruct He as [He|[He|He]]; [discriminate He|by destruct He|done].
  - destruct He as [He Hlast]. split; [done|]. intros Hl2. cbn in He. rewrite <- He, (Hlast Hl2). by rewrite app_nil_r.
Qed.
End WriterSpec.

(** ** Instances *)

(** A socket that gives its data in packets: a read takes from the first one. *)
Record Packets := { pk_data : list (list ascii); pk_end : ReadError }.

#[export] Instance Packets_Reader : Reader Packets := λ len s,
  match pk_data s with
  | [] => ([], Some (pk_end s), s)
  | p :: ps =>
      (take len p, None,
       {| pk_data := if (length p <=? len)%nat then ps else drop len p :: ps; pk_end := pk_end s |})
  end.

#[export] Program Instance Packets_Laws : ReaderLaws Packets :=
  {| delivers := λ s bs e, Forall (λ p, p ≠ []) (pk_data s) ∧ bs = concat (pk_data s) ∧ e = pk_end s |}.
Next Obligation.
  intros [ps e0] bs e len (Hne & -> & ->) Hlen. unfold reader_read, Packets_Reader. cbn [pk_data pk_end] in *.
  destruct ps as [|p ps]; [split_and!; (done || (simpl; lia))|]. apply List.Forall_cons_iff in Hne as [Hp Hps].
  split; [destruct p, len; [done|done|lia|done]|]. split; [rewrite length_take; lia|]. cbn [concat].
  destruct (Nat.leb_spec (length p) len).
  - exists (concat ps). rewrite take_ge by done. by split_and!.
  - exists (drop len p ++ concat ps). rewrite app_assoc, take_drop. split; [done|]. split_and!; [|done|done].
    constructor; [|done]. intros E%(f_equal length). rewrite length_drop in E. cbn in E. lia.
Qed.

Module Cut.
Definition socket : Packets := {| pk_data := [bytes_of "OPT"; bytes_of "IONS"; [CR]; LF :: bytes_of "x"]; pk_end := EOF |}.
Definition buffer : pooledBuffer Packets := newPooledReadBuffer socket.
Definition stream : list ascii := bytes_of "OPTIONS" ++ [CR; LF] ++ bytes_of "x".

Lemma buffer_holds : holds buffer stream EOF.
Proof. split; [reflexivity|]. exists stream. split; [reflexivity|]. split; [repeat constructor; discriminate|]. split; reflexivity. Qed.
End Cut.

Lemma pooled_buffer_refines_witness :
  ∃ rs bs' pb', buffer_calls 4 20 [OpReadByte; OpReadLine; OpReadBoundedLine 4; OpRead 3] Cut.buffer = Some (rs, pb') ∧
    flat_reads EOF Cut.stream [OpReadByte; OpReadLine; OpReadBoundedLine 4; OpRead 3] rs bs' ∧
    rs = [(bytes_of "O", None); (bytes_of "PTIONS", None); (bytes_of "x", Some EOF); ([], Some EOF)].
Proof.
  destruct (pooled_buffer_refines 4 ltac:(lia) 20 [OpReadByte; OpReadLine; OpReadBoundedLine 4; OpRead 3] Cut.buffer Cut.stream EOF
    Cut.buffer_holds ltac:(vm_compute; lia)) as (rs & bs' & pb' & E & Hr & _).
  exists rs, bs', pb'. split; [exact E|]. split; [exact Hr|]. vm_compute in E. injection E as <- _. reflexivity.
Defined.

Lemma bounded_lines_agree_witness :
  ∃ l er pb' rest, ReadBoundedLine 4 20 5 Cut.buffer = Some (l, er, pb') ∧ rest = bytes_of "NS" ++ [CR; LF] ++ bytes_of "x" ∧
    readBoundedLine EOF 5 ErrChunkHeaderTooLong Cut.stream = (Err ErrChunkHeaderTooLong, rest) ∧ er = Some ErrShortBuffer.
Proof.
  destruct (bounded_lines_agree 4 ltac:(lia) 20 5 ErrChunkHeaderTooLong Cut.buffer Cut.stream EOF Cut.buffer_holds ltac:(vm_compute; lia)
    ltac:(lia) ltac:(discriminate)) as (l & er & pb' & rest & E & _ & Hl).
  exists l, er, pb', rest. split; [exact E|].
  assert (Hr : readBoundedLine EOF 5 ErrChunkHeaderTooLong Cut.stream =
    (Err ErrChunkHeaderTooLong, bytes_of "NS" ++ [CR; LF] ++ bytes_of "x")) by (vm_compute; reflexivity).
  rewrite Hr in Hl. injection Hl as Hl1 Hl2. rewrite Hr. vm_compute in E. injection E as _ <- _. rewrite <- Hl2. by split_and!.
Defined.
