(* ===== verification/ConnectionPool.v ===== *)
(** * Connections and their pool: [internal/server/connection.go]

    A connection over a socket with its two ways of being closed, the wrappers that
    note activity, and the pool that the server counts and waits for. Times are
    nanoseconds. Methods are atomic under their locks; [CloseAll] gives up the lock of
    the pool before it counts down, so its count-downs are steps of their own, between
    which handlers remove themselves. *)
From S2P Require Import Prelude GoInt GoStrings Chunked Message Connection.

Local Open Scope Z_scope.

Inductive ConnectionState := ConnStateActive | ConnStateIdle | ConnStateClosed.

#[export] Instance ConnectionState_dec : EqDecision ConnectionState.
Proof. solve_decision. Defined.

Definition stateString (s : ConnectionState) : string :=
  match s with ConnStateActive => "active" | ConnStateIdle => "idle" | ConnStateClosed => "closed" end.

Record ConnectionConfig := {
  ReadTimeout : Z; WriteTimeout : Z; MaxBodySize : Z; Streaming : bool; IdleTimeout : Z
}.

(** The socket is written to through the buffered writer; [c_closes] counts how often
    it was closed. The two [sync.Once] are flags. *)
Record Connection (R : Type) := {
  c_config : ConnectionConfig;
  c_reader : pooledBuffer R;
  c_writer : bufferedWriter Sink;
  c_state : ConnectionState;
  c_closed : bool;
  c_once : bool;
  c_socketOnce : bool;
  c_closes : nat;
  c_lastActivity : Z
}.
Arguments c_config {R} c.
Arguments c_reader {R} c.
Arguments c_writer {R} c.
Arguments c_state {R} c.
Arguments c_closed {R} c.
Arguments c_once {R} c.
Arguments c_socketOnce {R} c.
Arguments c_closes {R} c.
Arguments c_lastActivity {R} c.

Inductive ConnError := WriterError (e : WriteError) | SocketError | DeadlineError.

Section Connection.
Context {R : Type} `{Reader R}.
Notation Connection := (Connection R).

Definition newConnection (socket : R) (sink : Sink) (config : ConnectionConfig) (now : Z) : Connection :=
  {| c_config := config; c_reader := newPooledReadBuffer socket; c_writer := newBufferedWriter sink;
     c_state := ConnStateActive; c_closed := false; c_once := false; c_socketOnce := false; c_closes := 0; c_lastActivity := now |}.

Definition UpdateActivity (now : Z) (c : Connection) : Connection :=
  {| c_config := c_config c; c_reader := c_reader c; c_writer := c_writer c; c_state := c_state c; c_closed := c_closed c;
     c_once := c_once c; c_socketOnce := c_socketOnce c; c_closes := c_closes c; c_lastActivity := now |}.

Definition SetState (s : ConnectionState) (c : Connection) : Connection :=
  {| c_config := c_config c; c_reader := c_reader c; c_writer := c_writer c; c_state := s; c_closed := c_closed c;
     c_once := c_once c; c_socketOnce := c_socketOnce c; c_closes := c_closes c; c_lastActivity := c_lastActivity c |}.

Definition with_reader (r : pooledBuffer R) (c : Connection) : Connection :=
  {| c_config := c_config c; c_reader := r; c_writer := c_writer c; c_state := c_state c; c_closed := c_closed c;
     c_once := c_once c; c_socketOnce := c_socketOnce c; c_closes := c_closes c; c_lastActivity := c_lastActivity c |}.

Definition with_writer (w : bufferedWriter Sink) (c : Connection) : Connection :=
  {| c_config := c_config c; c_reader := c_reader c; c_writer := w; c_state := c_state c; c_closed := c_closed c;
     c_once := c_once c; c_socketOnce := c_socketOnce c; c_closes := c_closes c; c_lastActivity := c_lastActivity c |}.

Definition with_once (closed once : bool) (c : Connection) : Connection :=
  {| c_config := c_config c; c_reader := c_reader c; c_writer := c_writer c; c_state := c_state c; c_closed := closed;
     c_once := once; c_socketOnce := c_socketOnce c; c_closes := c_closes c; c_lastActivity := c_lastActivity c |}.

Definition IsIdle (now : Z) (c : Connection) : bool :=
  if IdleTimeout (c_config c) <=? 0 then false
  else IdleTimeout (c_config c) <? sub64 now (c_lastActivity c).

(** [size] is the capacity of the pooled slices; [dl] is whether setting the deadline
    works, when there is a timeout. *)
Definition connRead (size len : nat) (dl : bool) (now : Z) (c : Connection) : list ascii * option (ReadError + ConnError) * Connection :=
  if (0 <? ReadTimeout (c_config c)) && negb dl then ([], Some (inr DeadlineError), c)
  else
    let '(p, e, r) := readBuffer size len (c_reader c) in
    let c := with_reader r c in
    (p, inl <$> e, if (0 <? length p)%nat then UpdateActivity now c else c).

Definition connWrite (size : nat) (b : list ascii) (dl : bool) (now : Z) (c : Connection) : nat * option ConnError * Connection :=
  if (0 <? WriteTimeout (c_config c)) && negb dl then (O, Some DeadlineError, c)
  else
    let '(n, e, w) := writeBuffered sink_write size b (c_writer c) in
    let c := with_writer w c in
    (n, WriterError <$> e, if (0 <? n)%nat then UpdateActivity now c else c).

Definition connFlush (c : Connection) : option ConnError * Connection :=
  let '(e, w) := Flush sink_write (c_writer c) in (WriterError <$> e, with_writer w c).

(** Closes the socket the first time; [ok] is whether that works. *)
Definition closeSocket (ok : bool) (c : Connection) : option ConnError * Connection :=
  if c_socketOnce c then (None, c)
  else
    (if ok then None else Some SocketError,
     {| c_config := c_config c; c_reader := c_reader c; c_writer := c_writer c; c_state := c_state c; c_closed := c_closed c;
        c_once := c_once c; c_socketOnce := true; c_closes := S (c_closes c); c_lastActivity := c_lastActivity c |}).

Definition first_error {A} (a b : option A) : option A := match a with Some _ => a | None => b end.

Definition connClose (abort ok : bool) (c : Connection) : option ConnError * Connection :=
  if c_once c then (None, c)
  else
    let c := with_once true true (SetState ConnStateClosed c) in
    let '(err, c) :=
      if abort then (None, with_writer (closeDiscard (c_writer c)) c)
      else
        let '(err, w) := closeWriter sink_write (c_writer c) in
        let '(closeErr, c) := closeSocket ok (with_writer w c) in
        (first_error (WriterError <$> err) closeErr, c) in
    (err, with_reader (closeBuffer (c_reader c)) c).

Definition Close (ok : bool) (c : Connection) : option ConnError * Connection := connClose false ok c.

Definition Abort_ (ok : bool) (c : Connection) : option ConnError * Connection :=
  let '(socketErr, c) := closeSocket ok c in
  let '(cleanupErr, c) := connClose true ok c in
  (first_error socketErr cleanupErr, c).
End Connection.

(** ** Activity *)

Section Activity.
Context {R : Type} `{Reader R} (size : nat).

(** [activityReader] over the pooled buffer: whether the call touches the connection. *)
Definition activityRead (len : nat) (pb : pooledBuffer R) : list ascii * option ReadError * pooledBuffer R * bool :=
  let '(p, e, pb) := readBuffer size len pb in (p, e, pb, (0 <? length p)%nat).

Definition activityReadByte (pb : pooledBuffer R) : result ReadError ascii * pooledBuffer R * bool :=
  let buffered := Buffered pb in
  let '(b, pb) := ReadByte size pb in
  (b, pb, is_ok b && (buffered =? 0)%nat).

Definition activityReadBoundedLine (fuel : nat) (limit : Z) (pb : pooledBuffer R)
  : option (list ascii * option ReadError * pooledBuffer R * bool) :=
  let buffered := Buffered pb in
  '(line, e, pb) ← ReadBoundedLine size fuel limit pb;
  Some (line, e, pb, negb (bool_decide (line = [])) && ((buffered =? 0)%nat || (buffered <? length line)%nat)).

Definition activityReadString (fuel : nat) (delim : ascii) (pb : pooledBuffer R)
  : option (string * option ReadError * pooledBuffer R * bool) :=
  '(s, e, pb) ← ReadString size fuel delim pb; Some (s, e, pb, negb (String.eqb s "")).

Definition activityWrite (p : list ascii) (bw : bufferedWriter Sink) : nat * option WriteError * bufferedWriter Sink * bool :=
  let '(n, e, bw) := writeBuffered sink_write size p bw in (n, e, bw, (0 <? n)%nat).

Definition activityWriteString (s : string) (bw : bufferedWriter Sink) : nat * option WriteError * bufferedWriter Sink * bool :=
  let '(n, e, bw) := WriteString sink_write size s bw in (n, e, bw, (0 <? n)%nat).
End Activity.

(** ** The pool *)

(** Connections by an identity; [p_wg] is the counter of the [sync.WaitGroup]. *)
Record ConnectionPool := { p_connections : gset positive; p_wg : Z }.

Definition NewConnectionPool : ConnectionPool := {| p_connections := ∅; p_wg := 0 |}.

Definition AddConn (c : positive) (p : ConnectionPool) : ConnectionPool :=
  {| p_connections := {[c]} ∪ p_connections p; p_wg := p_wg p + 1 |}.

Definition RemoveConn (c : positive) (p : ConnectionPool) : ConnectionPool :=
  if decide (c ∈ p_connections p) then {| p_connections := p_connections p ∖ {[c]}; p_wg := p_wg p - 1 |} else p.

Definition CountConns (p : ConnectionPool) : nat := size (p_connections p).

Definition ListConns (p : ConnectionPool) : list positive := elements (p_connections p).

(** The first half of [CloseAll], under the lock; the connections are aborted and
    counted down after it, one by one. *)
Definition takeAll (p : ConnectionPool) : list positive * ConnectionPool :=
  (elements (p_connections p), {| p_connections := ∅; p_wg := p_wg p |}).

Definition doneOne (p : ConnectionPool) : ConnectionPool := {| p_connections := p_connections p; p_wg := p_wg p - 1 |}.

(** [CloseAll] when nobody comes between. *)
Definition CloseAll (p : ConnectionPool) : list positive * ConnectionPool :=
  let '(conns, p) := takeAll p in (conns, foldl (λ p _, doneOne p) p conns).

(** [Wait] returns before its context ends when the counter is zero. *)
Definition waitReturns (p : ConnectionPool) : bool := p_wg p =? 0.

(** ** Closing *)

Inductive close_op := OpCloseConn (ok : bool) | OpAbort (ok : bool).

Section Closing.
Context {R : Type} `{Reader R} (size : nat).
Notation Connection := (Connection R).

Definition close_call (o : close_op) (c : Connection) : option ConnError * Connection :=
  match o with OpCloseConn ok => Close ok c | OpAbort ok => Abort_ ok c end.

Fixpoint close_calls (os : list close_op) (c : Connection) : list (option ConnError) * Connection :=
  match os with
  | [] => ([], c)
  | o :: os => let '(e, c) := close_call o c in let '(es, c) := close_calls os c in (e :: es, c)
  end.

(** What no call changes any more. *)
Definition shut (c : Connection) : Prop :=
  c_once c = true ∧ c_socketOnce c = true ∧ c_state c = ConnStateClosed ∧ c_closed c = true ∧
  pb_closed (c_reader c) = true ∧ bw_closed (c_writer c) = true.

Lemma shut_call o c : shut c → close_call o c = (None, c).
Proof using.
  intros (Ho & Hs & _). destruct o as [ok|ok]; cbn [close_call]; unfold Close, Abort_, closeSocket, connClose; rewrite ?Hs, ?Ho; done.
Qed.

Lemma shut_calls os c : shut c → close_calls os c = (replicate (length os) None, c).
Proof using.
  intros Hc. induction os as [|o os IH]; [done|]. cbn [close_calls length replicate]. by rewrite (shut_call o c Hc), IH.
Qed.

(** A connection in use. *)
Definition in_use (c : Connection) : Prop :=
  c_once c = false ∧ c_socketOnce c = false ∧ c_closes c = O ∧ pb_closed (c_reader c) = false ∧ bw_closed (c_writer c) = false.

Lemma first_call o c : in_use c → shut (close_call o c).2 ∧ c_closes (close_call o c).2 = 1%nat ∧
  match o with
  | OpAbort ok => bw_w (c_writer (close_call o c).2) = bw_w (c_writer c) ∧ (close_call o c).1 = if ok then None else Some SocketError
  | OpCloseConn ok =>
      ∃ d, out (bw_w (c_writer (close_call o c).2)) = out (bw_w (c_writer c)) ++ d ∧ d `prefix_of` bw_buf (c_writer c) ∧
           (room (bw_w (c_writer c)) = None → d = bw_buf (c_writer c) ∧ (close_call o c).1 = if ok then None else Some SocketError)
  end.
Proof using.
  intros (Ho & Hs & Hn & Hr & Hw). destruct o as [ok|ok]; cbn [close_call].
  - unfold Close, connClose. rewrite Ho. unfold closeWriter, closeSocket. cbn [c_writer with_once SetState]. rewrite Hw.
    pose proof (flushLocked_spec (c_writer c)) as Hf. destruct (flushLocked sink_write (c_writer c)) as [e bw].
    destruct Hf as (_ & _ & d & [Hout _] & Hpre & He). cbn [c_socketOnce with_writer with_once SetState]. rewrite Hs.
    cbn. unfold shut. cbn. unfold closeBuffer. rewrite Hr. cbn. split_and!; try done; [by rewrite Hn|].
    exists d. split_and!; [done|done|]. intros Hroom. destruct e as [e|]; [done|]. split; [done|]. by destruct ok.
  - unfold Abort_, closeSocket. rewrite Hs. unfold connClose. cbn [c_once]. rewrite Ho. cbn [c_writer with_once SetState closeDiscard].
    unfold shut. cbn. unfold closeBuffer, closeDiscard. rewrite Hr, Hw. cbn. split_and!; try done; [by rewrite Hn|by destruct ok].
Qed.

(** However often and in whatever order a connection is closed and aborted, its
    socket is closed exactly once and only the first call can fail. A graceful close
    first sends what is buffered, an abort nothing; afterwards every read and write is
    refused. *)
Theorem connection_closes_once o os c :
  in_use c →
  let '(es, c') := close_calls (o :: os) c in
  c_closes c' = 1%nat ∧ c_state c' = ConnStateClosed ∧ tail es = replicate (length os) None ∧
  (∀ len now, (connRead size len true now c').1 = ([], Some (inl ClosedPipe))) ∧
  (∀ b now, (connWrite size b true now c').1 = (O, Some (WriterError WriteOnClosed))) ∧
  match o with
  | OpAbort _ => out (bw_w (c_writer c')) = out (bw_w (c_writer c))
  | OpCloseConn _ =>
      out (bw_w (c_writer c')) `prefix_of` out (bw_w (c_writer c)) ++ bw_buf (c_writer c) ∧
      (room (bw_w (c_writer c)) = None → out (bw_w (c_writer c')) = out (bw_w (c_writer c)) ++ bw_buf (c_writer c))
  end.
Proof using.
  intros Hc. destruct (first_call o c Hc) as (Hshut & Hn & Hout). cbn [close_calls]. destruct (close_call o c) as [e c1]. cbn [fst snd] in *.
  rewrite (shut_calls os c1 Hshut). destruct Hshut as (Ho & Hs & Hst & Hcl & Hr & Hw). split_and!; [done|done|done| | |].
  - intros len now. unfold connRead. rewrite andb_false_r. unfold readBuffer. by rewrite Hr.
  - intros b now. unfold connWrite. rewrite andb_false_r. unfold writeBuffered. by rewrite Hw.
  - destruct o as [ok|ok]; [|by destruct Hout as [-> _]]. destruct Hout as (d & -> & Hpre & Hall).
    split; [by apply prefix_app|]. intros Hroom. by destruct (Hall Hroom) as [-> _].
Qed.
End Closing.

(** ** Handlers and [CloseAll], interleaved *)

(** The pool, the handlers that did not return yet, and the connections that calls of
    [CloseAll] still have to count down. *)
Record PoolState := { ps_pool : ConnectionPool; ps_handlers : gset positive; ps_pending : list positive }.

Inductive pool_step : PoolState → PoolState → Prop :=
| step_add c s : c ∉ ps_handlers s →
    pool_step s {| ps_pool := AddConn c (ps_pool s); ps_handlers := {[c]} ∪ ps_handlers s; ps_pending := ps_pending s |}
| step_remove c s : c ∈ ps_handlers s →
    pool_step s {| ps_pool := RemoveConn c (ps_pool s); ps_handlers := ps_handlers s ∖ {[c]}; ps_pending := ps_pending s |}
| step_take s : let '(conns, p) := takeAll (ps_pool s) in
    pool_step s {| ps_pool := p; ps_handlers := ps_handlers s; ps_pending := conns ++ ps_pending s |}
| step_done before c after s : ps_pending s = before ++ c :: after →
    pool_step s {| ps_pool := doneOne (ps_pool s); ps_handlers := ps_handlers s; ps_pending := before ++ after |}.

Definition pool_start : PoolState := {| ps_pool := NewConnectionPool; ps_handlers := ∅; ps_pending := [] |}.

Record pool_ok (s : PoolState) : Prop := {
  po_count : p_wg (ps_pool s) = Z.of_nat (CountConns (ps_pool s)) + Z.of_nat (length (ps_pending s));
  po_handlers : p_connections (ps_pool s) ⊆ ps_handlers s
}.

Lemma pool_step_ok s s' : pool_ok s → pool_step s s' → pool_ok s'.
Proof.
  intros [Hc Hh] Hstep. destruct Hstep as [c s Hn|c s Hin|s|before c after s Hp]; unfold CountConns in *.
  - assert (c ∉ p_connections (ps_pool s)) by set_solver. split; cbn; [|set_solver].
    rewrite size_union, size_singleton by set_solver. lia.
  - unfold RemoveConn. destruct (decide (c ∈ p_connections (ps_pool s))) as [Hi|Hi]; split; cbn; [|set_solver|done|set_solver].
    assert (size ({[c]} : gset positive) ≤ size (p_connections (ps_pool s)))%nat by (apply subseteq_size; set_solver).
    rewrite size_difference by set_solver. rewrite size_singleton in *. lia.
  - cbn. split; cbn; [|set_solver]. rewrite size_empty, length_app. change (length (elements (p_connections (ps_pool s)))) with (size (p_connections (ps_pool s))). lia.
  - split; cbn; [|done]. rewrite Hp, length_app in Hc. cbn in Hc. rewrite length_app. lia.
Qed.

(** The counter that shutdown waits on always is the number of connections in the
    pool and of those a [CloseAll] still counts down, whatever handlers do meanwhile:
    no connection is counted down twice, so the counter is never negative (which would
    panic), and waiting ends exactly when all are gone. *)
Theorem pool_counts s :
  rtc pool_step pool_start s →
  p_wg (ps_pool s) = Z.of_nat (CountConns (ps_pool s)) + Z.of_nat (length (ps_pending s)) ∧ 0 ≤ p_wg (ps_pool s) ∧
  (waitReturns (ps_pool s) = true ↔ ListConns (ps_pool s) = [] ∧ ps_pending s = []).
Proof.
  intros Hr. assert (Hok : pool_ok s).
  { assert (H0 : pool_ok pool_start) by (split; [reflexivity|done]).
    induction Hr as [s|s1 s2 s3 Hs _ IH]; [done|]. apply IH. by eapply pool_step_ok. }
  destruct Hok as [Hc _]. split; [done|]. split; [lia|]. unfold waitReturns, CountConns, ListConns in *. rewrite Z.eqb_eq, Hc.
  change (size (p_connections (ps_pool s))) with (length (elements (p_connections (ps_pool s)))).
  split.
  - intros E. split; apply length_zero_iff_nil; lia.
  - intros [-> ->]. done.
Qed.

(** ** Instances *)

Module Pooled.
Definition config : ConnectionConfig := {| ReadTimeout := 0; WriteTimeout := 5; MaxBodySize := 0; Streaming := false; IdleTimeout := 0 |}.
Definition connection : Connection Packets :=
  (connWrite 8 (bytes_of "HTTP") true 1 (newConnection Cut.socket {| out := []; room := None |} config 0)).2.
(** Two handlers; the pool is emptied under them; the first returns while the
    count-down is under way. *)
Definition emptied : PoolState :=
  {| ps_pool := {| p_connections := ∅; p_wg := 1 |}; ps_handlers := {[2%positive]}; ps_pending := [2%positive] |}.
End Pooled.

Lemma connection_closes_once_witness :
  in_use Pooled.connection ∧
  out (bw_w (c_writer (close_calls [OpCloseConn true; OpAbort true; OpCloseConn false] Pooled.connection).2)) = bytes_of "HTTP".
Proof.
  assert (Hu : in_use Pooled.connection) by (repeat split). split; [exact Hu|].
  pose proof (connection_closes_once 8 (OpCloseConn true) [OpAbort true; OpCloseConn false] Pooled.connection Hu) as Hc.
  destruct (close_calls _ _) as [es c']. destruct Hc as (_ & _ & _ & _ & _ & _ & Hout). cbn [snd]. rewrite Hout; reflexivity.
Defined.

Lemma pool_counts_witness :
  rtc pool_step pool_start Pooled.emptied ∧ p_wg (ps_pool Pooled.emptied) = 1 ∧ waitReturns (ps_pool Pooled.emptied) = false.
Proof.
  assert (Hr : rtc pool_step pool_start Pooled.emptied).
  { eapply rtc_l; [apply (step_add 1%positive); set_solver|]. eapply rtc_l; [apply (step_add 2%positive); set_solver|].
    eapply rtc_l; [apply step_take|]. eapply rtc_l; [apply (step_remove 1%positive); set_solver|].
    eapply rtc_l; [apply (step_done [2%positive] 1%positive []); vm_compute; reflexivity|].
    assert (E : ∀ s, s = Pooled.emptied → rtc pool_step s Pooled.emptied) by (intros s ->; constructor). apply E.
    vm_compute. reflexivity. }
  split; [exact Hr|]. destruct (pool_counts Pooled.emptied Hr) as (Hc & _ & Hw). split; [rewrite Hc; reflexivity|].
  apply not_true_is_false. intros E. apply Hw in E as [_ E]. discriminate E.
Defined.
