(* ===== verification/ServerSteps.v ===== *)
(** * Many connections: [acceptLoop], the end of [handleConnection], [Start] and [Stop] of
    [internal/server/server.go]

    The accept loop, the handlers of the connections, the monitors and the call that
    stops the server run at once; a step is one operation on what they share: the
    semaphore, the pool, the wait group, the stop channel, the listener and the
    sockets. What a handler does between its start and its end is [Server]. *)
From S2P Require Import Prelude GoInt Chunked Message Connection ConnectionPool.

Local Open Scope Z_scope.

(** Where the accept loop is: before the look at the stop channel, in [Accept], and then
    with a connection up to the [go] statement. *)
Inductive Acceptor :=
| AtTop
| InAccept
| Accepted (c : positive)
| Slotted (c : positive)
| Pooled (c : positive)
| Counted (c : positive)
| AcceptorDone.

(** Where [Stop] is. *)
Inductive Stopper := NotStopped | Signalled | Waiting | Forcing (conns : list positive) | Draining | Stopped.

(** How far a handler is: running; with the connection closed; out of the pool; with the
    slot released, before the last [wg.Done]. *)
Inductive Stage := Serving | Closed | Removed | Released.

#[export] Instance Stage_dec : EqDecision Stage.
Proof. solve_decision. Defined.

Record Server := {
  sv_running : bool;
  sv_stopChan : bool;
  sv_listening : bool;
  sv_acceptor : Acceptor;
  sv_stopper : Stopper;
  sv_slots : Z;
  sv_pool : ConnectionPool;
  sv_wg : Z;
  sv_monitors : nat;
  sv_handlers : gmap positive Stage;
  sv_sockets : gset positive
}.

Definition NewServer : Server :=
  {| sv_running := false; sv_stopChan := false; sv_listening := false; sv_acceptor := AcceptorDone; sv_stopper := NotStopped;
     sv_slots := 0; sv_pool := NewConnectionPool; sv_wg := 0; sv_monitors := 0; sv_handlers := ∅; sv_sockets := ∅ |}.

Definition with_acceptor (a : Acceptor) (s : Server) : Server :=
  {| sv_running := sv_running s; sv_stopChan := sv_stopChan s; sv_listening := sv_listening s; sv_acceptor := a;
     sv_stopper := sv_stopper s; sv_slots := sv_slots s; sv_pool := sv_pool s; sv_wg := sv_wg s; sv_monitors := sv_monitors s;
     sv_handlers := sv_handlers s; sv_sockets := sv_sockets s |}.

Definition with_stopper (t : Stopper) (s : Server) : Server :=
  {| sv_running := sv_running s; sv_stopChan := sv_stopChan s; sv_listening := sv_listening s; sv_acceptor := sv_acceptor s;
     sv_stopper := t; sv_slots := sv_slots s; sv_pool := sv_pool s; sv_wg := sv_wg s; sv_monitors := sv_monitors s;
     sv_handlers := sv_handlers s; sv_sockets := sv_sockets s |}.

Definition with_flags (running stopChan listening : bool) (s : Server) : Server :=
  {| sv_running := running; sv_stopChan := stopChan; sv_listening := listening; sv_acceptor := sv_acceptor s;
     sv_stopper := sv_stopper s; sv_slots := sv_slots s; sv_pool := sv_pool s; sv_wg := sv_wg s; sv_monitors := sv_monitors s;
     sv_handlers := sv_handlers s; sv_sockets := sv_sockets s |}.

Definition with_counts (slots wg : Z) (pool : ConnectionPool) (s : Server) : Server :=
  {| sv_running := sv_running s; sv_stopChan := sv_stopChan s; sv_listening := sv_listening s; sv_acceptor := sv_acceptor s;
     sv_stopper := sv_stopper s; sv_slots := slots; sv_pool := pool; sv_wg := wg; sv_monitors := sv_monitors s;
     sv_handlers := sv_handlers s; sv_sockets := sv_sockets s |}.

Definition with_monitors (n : nat) (s : Server) : Server :=
  {| sv_running := sv_running s; sv_stopChan := sv_stopChan s; sv_listening := sv_listening s; sv_acceptor := sv_acceptor s;
     sv_stopper := sv_stopper s; sv_slots := sv_slots s; sv_pool := sv_pool s; sv_wg := sv_wg s; sv_monitors := n;
     sv_handlers := sv_handlers s; sv_sockets := sv_sockets s |}.

Definition with_handlers (handlers : gmap positive Stage) (sockets : gset positive) (s : Server) : Server :=
  {| sv_running := sv_running s; sv_stopChan := sv_stopChan s; sv_listening := sv_listening s; sv_acceptor := sv_acceptor s;
     sv_stopper := sv_stopper s; sv_slots := sv_slots s; sv_pool := sv_pool s; sv_wg := sv_wg s; sv_monitors := sv_monitors s;
     sv_handlers := handlers; sv_sockets := sockets |}.

Definition with_sockets (sockets : gset positive) (s : Server) : Server :=
  with_handlers (sv_handlers s) sockets s.

(** ** [Start] *)

Inductive StartError := AlreadyRunning | ResolveFailed | ListenFailed | CertFailed | CAFailed | CAInvalid.

(** What the environment answers, in the order of the questions: the address, the
    listener, and with TLS the certificate, and the client CA when one is set: whether
    the file is read and holds a certificate. *)
Record StartEnv := {
  en_resolves : bool; en_listens : bool; en_tls : bool; en_cert : bool; en_clientCA : option (bool * bool); en_monitorsTLS : bool
}.

Definition tlsError (e : StartEnv) : option StartError :=
  if negb (en_tls e) then None
  else if negb (en_cert e) then Some CertFailed
  else match en_clientCA e with
       | None => None
       | Some (readable, valid) => if negb readable then Some CAFailed else if negb valid then Some CAInvalid else None
       end.

Definition Start (e : StartEnv) (s : Server) : option StartError * Server :=
  if sv_running s then (Some AlreadyRunning, s)
  else
    let failed s := with_flags false (sv_stopChan s) false s in
    if negb (en_resolves e) then (Some ResolveFailed, with_flags false (sv_stopChan s) (sv_listening s) s)
    else if negb (en_listens e) then (Some ListenFailed, with_flags false (sv_stopChan s) (sv_listening s) s)
    else
      match tlsError e with
      | Some err => (Some err, failed s)
      | None =>
          let monitors := if en_monitorsTLS e then 2%nat else 1%nat in
          (None,
           with_counts (sv_slots s) (sv_wg s + 1 + Z.of_nat monitors) (sv_pool s)
             (with_monitors (sv_monitors s + monitors)
               (with_acceptor AtTop (with_flags true (sv_stopChan s) true s))))
      end.

(** ** Steps *)

Section Steps.
Context (MaxConnections : Z).

(** The accept loop. The context of [Start] may end at any time. A failed [Accept] goes back to the top, except when the error is no
    network error and the stop channel is closed. *)
Inductive accept_step (s : Server) : Server → Prop :=
| accept_stops : sv_acceptor s = AtTop → sv_stopChan s = true →
    accept_step s (with_acceptor AcceptorDone (with_counts (sv_slots s) (sv_wg s - 1) (sv_pool s) s))
| accept_cancelled : sv_acceptor s = AtTop →
    accept_step s (with_acceptor AcceptorDone (with_counts (sv_slots s) (sv_wg s - 1) (sv_pool s) s))
| accept_waits : sv_acceptor s = AtTop → sv_stopChan s = false → accept_step s (with_acceptor InAccept s)
| accept_fails : sv_acceptor s = InAccept → accept_step s (with_acceptor AtTop s)
| accept_fails_stopped : sv_acceptor s = InAccept → sv_stopChan s = true →
    accept_step s (with_acceptor AcceptorDone (with_counts (sv_slots s) (sv_wg s - 1) (sv_pool s) s))
| accept_gets c : sv_acceptor s = InAccept → sv_listening s = true → sv_handlers s !! c = None → c ∉ sv_sockets s → c ∉ p_connections (sv_pool s) →
    accept_step s (with_acceptor (Accepted c) (with_sockets ({[c]} ∪ sv_sockets s) s))
| accept_rejects c : sv_acceptor s = Accepted c → MaxConnections ≤ sv_slots s →
    accept_step s (with_acceptor AtTop (with_sockets (sv_sockets s ∖ {[c]}) s))
| accept_slot c : sv_acceptor s = Accepted c → sv_slots s < MaxConnections →
    accept_step s (with_acceptor (Slotted c) (with_counts (sv_slots s + 1) (sv_wg s) (sv_pool s) s))
| accept_pools c : sv_acceptor s = Slotted c →
    accept_step s (with_acceptor (Pooled c) (with_counts (sv_slots s) (sv_wg s) (AddConn c (sv_pool s)) s))
| accept_counts c : sv_acceptor s = Pooled c →
    accept_step s (with_acceptor (Counted c) (with_counts (sv_slots s) (sv_wg s + 1) (sv_pool s) s))
| accept_goes c : sv_acceptor s = Counted c →
    accept_step s (with_acceptor AtTop (with_handlers (<[c := Serving]> (sv_handlers s)) (sv_sockets s) s)).

(** A handler that ends, whatever the reason: the deferred function. *)
Inductive handler_step (s : Server) : Server → Prop :=
| handler_closes c : sv_handlers s !! c = Some Serving →
    handler_step s (with_handlers (<[c := Closed]> (sv_handlers s)) (sv_sockets s ∖ {[c]}) s)
| handler_removes c : sv_handlers s !! c = Some Closed →
    handler_step s (with_handlers (<[c := Removed]> (sv_handlers s)) (sv_sockets s)
      (with_counts (sv_slots s) (sv_wg s) (RemoveConn c (sv_pool s)) s))
| handler_releases c : sv_handlers s !! c = Some Removed →
    handler_step s (with_handlers (<[c := Released]> (sv_handlers s)) (sv_sockets s)
      (with_counts (sv_slots s - 1) (sv_wg s) (sv_pool s) s))
| handler_done c : sv_handlers s !! c = Some Released →
    handler_step s (with_handlers (delete c (sv_handlers s)) (sv_sockets s)
      (with_counts (sv_slots s) (sv_wg s - 1) (sv_pool s) s))
| monitor_done n : sv_monitors s = S n → sv_stopChan s = true →
    handler_step s (with_monitors n (with_counts (sv_slots s) (sv_wg s - 1) (sv_pool s) s)).

(** [Stop] runs its body once; its waits end when what they wait for is there or, at
    any time, when its context ends. [forceCloseAllConnections] aborts the connections
    the pool listed. *)
Inductive stop_step (s : Server) : Server → Prop :=
| stop_signals : sv_stopper s = NotStopped → stop_step s (with_stopper Signalled (with_flags (sv_running s) true (sv_listening s) s))
| stop_closes : sv_stopper s = Signalled → stop_step s (with_stopper Waiting (with_flags (sv_running s) (sv_stopChan s) false s))
| stop_graceful : sv_stopper s = Waiting → sv_wg s = 0 → stop_step s (with_stopper Draining s)
| stop_expires : sv_stopper s = Waiting → stop_step s (with_stopper (Forcing (ListConns (sv_pool s))) s)
| stop_forces c cs : sv_stopper s = Forcing (c :: cs) → stop_step s (with_stopper (Forcing cs) (with_sockets (sv_sockets s ∖ {[c]}) s))
| stop_forced : sv_stopper s = Forcing [] → stop_step s (with_stopper Draining s)
| stop_drained (expired : bool) : sv_stopper s = Draining → expired = true ∨ waitReturns (sv_pool s) = true →
    stop_step s (with_stopper Stopped (with_flags false (sv_stopChan s) (sv_listening s) s)).

Definition step (s s' : Server) : Prop := accept_step s s' ∨ handler_step s s' ∨ stop_step s s'.

(** ** The invariant *)

(** The connection that the accept loop holds, and whether it has the slot, is in the
    pool, is counted. *)
Definition held (a : Acceptor) : option positive :=
  match a with Accepted c | Slotted c | Pooled c | Counted c => Some c | _ => None end.
Definition held_slot (a : Acceptor) : Z := match a with Slotted _ | Pooled _ | Counted _ => 1 | _ => 0 end.
Definition held_pool (a : Acceptor) : option positive := match a with Pooled c | Counted c => Some c | _ => None end.
Definition held_wg (a : Acceptor) : Z := match a with Counted _ => 2 | AcceptorDone => 0 | _ => 1 end.

(** How many handlers have a slot. *)
Definition has_slot (st : Stage) : Prop := st ≠ Released.
Definition slotted (m : gmap positive Stage) : gmap positive Stage := filter (λ kv, has_slot kv.2) m.

Record server_ok (s : Server) : Prop := {
  ok_slots : sv_slots s = Z.of_nat (size (slotted (sv_handlers s))) + held_slot (sv_acceptor s);
  ok_limit : sv_slots s ≤ Z.max 0 MaxConnections;
  ok_wg : sv_wg s = Z.of_nat (sv_monitors s) + held_wg (sv_acceptor s) + Z.of_nat (size (sv_handlers s));
  ok_held : ∀ c, held (sv_acceptor s) = Some c → sv_handlers s !! c = None;
  ok_pool : ∀ c, c ∈ p_connections (sv_pool s) ↔
      sv_handlers s !! c = Some Serving ∨ sv_handlers s !! c = Some Closed ∨ held_pool (sv_acceptor s) = Some c;
  ok_poolwg : p_wg (sv_pool s) = Z.of_nat (size (p_connections (sv_pool s)));
  ok_sockets : ∀ c, c ∈ sv_sockets s → sv_handlers s !! c = Some Serving ∨ held (sv_acceptor s) = Some c
}.

(** ** Counting handlers *)

Implicit Types (m : gmap positive Stage) (c : positive).

Lemma slotted_insert m c st st' : m !! c = Some st → has_slot st → has_slot st' → size (slotted (<[c := st']> m)) = size (slotted m).
Proof using.
  intros Hc Hst Hst'. unfold slotted. rewrite map_filter_insert_True by done. apply map_size_insert_Some.
  exists st. by apply map_lookup_filter_Some.
Qed.

Lemma slotted_new m c : m !! c = None → Z.of_nat (size (slotted (<[c := Serving]> m))) = Z.of_nat (size (slotted m)) + 1.
Proof using.
  intros Hc. unfold slotted. rewrite map_filter_insert_True by done. rewrite map_size_insert_None; [lia|].
  apply map_lookup_filter_None. by left.
Qed.

Lemma slotted_delete m c st : m !! c = Some st → has_slot st → Z.of_nat (size (slotted (delete c m))) = Z.of_nat (size (slotted m)) - 1.
Proof using.
  intros Hc Hst. unfold slotted. rewrite map_filter_delete.
  assert (Hin : filter (λ kv : positive * Stage, has_slot kv.2) m !! c = Some st) by (by apply map_lookup_filter_Some).
  rewrite map_size_delete_Some by (by eexists). pose proof (map_size_non_empty_iff (filter (λ kv : positive * Stage, has_slot kv.2) m)) as Hne.
  assert (size (filter (λ kv : positive * Stage, has_slot kv.2) m) ≠ 0%nat); [|lia].
  apply map_size_non_empty_iff. intros E. by rewrite E, lookup_empty in Hin.
Qed.

Lemma slotted_released m c : size (slotted (<[c := Released]> m)) = size (slotted (delete c m)).
Proof using. unfold slotted. rewrite map_filter_insert_False by (unfold has_slot; cbn; tauto). done. Qed.

Lemma slotted_done m c : m !! c = Some Released → size (slotted (delete c m)) = size (slotted m).
Proof using.
  intros Hc. unfold slotted. rewrite map_filter_delete, delete_id; [done|]. apply map_lookup_filter_None. right.
  intros st Hst. rewrite Hc in Hst. injection Hst as <-. unfold has_slot. cbn. tauto.
Qed.

Lemma handlers_moved m c (st st' : Stage) : m !! c = Some st → size (<[c := st']> m) = size m.
Proof using. intros Hc. apply map_size_insert_Some. by eexists. Qed.

Lemma handlers_done m c (st : Stage) : m !! c = Some st → Z.of_nat (size (delete c m)) = Z.of_nat (size m) - 1.
Proof using.
  intros Hc. rewrite map_size_delete_Some by (by eexists). assert (size m ≠ 0%nat); [|lia].
  apply map_size_non_empty_iff. intros E. by rewrite E, lookup_empty in Hc.
Qed.

Lemma size_add (X : gset positive) c : c ∉ X → Z.of_nat (size ({[c]} ∪ X)) = Z.of_nat (size X) + 1.
Proof using. intros H. rewrite size_union by set_solver. rewrite size_singleton. lia. Qed.

Lemma size_take (X : gset positive) c : c ∈ X → Z.of_nat (size (X ∖ {[c]})) = Z.of_nat (size X) - 1.
Proof using.
  intros H. assert (size ({[c]} : gset positive) ≤ size X)%nat by (apply subseteq_size; set_solver).
  rewrite size_difference by set_solver. rewrite size_singleton in *. lia.
Qed.

(** The clauses about a connection [x] after a step that moved [c]. *)
Ltac at_connection c :=
  let x := fresh "x" in intros x;
  repeat match goal with H : ∀ _ : positive, _ |- _ => pose proof (H x); pose proof (H c); clear H end;
  rewrite ?elem_of_union, ?elem_of_difference, ?elem_of_singleton in *;
  destruct (decide (x = c)) as [->|];
  repeat first [rewrite lookup_insert_eq in * | rewrite lookup_insert_ne in * by done | rewrite lookup_delete_eq in * | rewrite lookup_delete_ne in * by done];
  naive_solver.

Lemma accept_step_ok s s' : server_ok s → accept_step s s' → server_ok s'.
Proof using.
  intros [Hslots Hlimit Hwg Hheld Hpool Hpoolwg Hsock] Hstep.
  destruct Hstep as [E Es|E|E Es|E|E Es|c E El Hk Hs Hp|c E Hl|c E Hl|c E|c E|c E]; rewrite E in *; cbn [held held_slot held_wg held_pool] in *.
  - split; cbn; try done; lia.
  - split; cbn; try done; lia.
  - by split.
  - by split.
  - split; cbn; try done; lia.
  - split; cbn; try done; at_connection c.
  - split; cbn; try done; at_connection c.
  - split; cbn; try done; lia.
  - assert (c ∉ p_connections (sv_pool s)) by (rewrite Hpool, Hheld by done; naive_solver).
    split; cbn; try done; [at_connection c|]. rewrite size_add by done. lia.
  - split; cbn; try done; lia.
  - specialize (Hheld c eq_refl) as Hc. split; cbn; try done.
    + rewrite slotted_new by done. lia.
    + rewrite map_size_insert_None by done. lia.
    + at_connection c.
    + at_connection c.
Qed.

Lemma handler_step_ok s s' : server_ok s → handler_step s s' → server_ok s'.
Proof using.
  intros [Hslots Hlimit Hwg Hheld Hpool Hpoolwg Hsock] Hstep. destruct Hstep as [c Hc|c Hc|c Hc|c Hc|n E Es].
  - split; cbn; try done; [by erewrite slotted_insert|by erewrite handlers_moved| | |]; at_connection c.
  - assert (Hin : c ∈ p_connections (sv_pool s)) by (rewrite Hpool; auto).
    assert (Hnp : held_pool (sv_acceptor s) ≠ Some c).
    { intros Eh. assert (held (sv_acceptor s) = Some c) as Hh by (by destruct (sv_acceptor s)). by rewrite (Hheld c Hh) in Hc. }
    unfold RemoveConn. rewrite decide_True by done.
    split; cbn; try done; [by erewrite slotted_insert|by erewrite handlers_moved| | | |]; [at_connection c|at_connection c|rewrite size_take by done; lia|at_connection c].
  - split; cbn; try done; [rewrite slotted_released; erewrite slotted_delete by done; lia|lia|by erewrite handlers_moved| | |]; at_connection c.
  - split; cbn; try done; [by rewrite slotted_done|erewrite handlers_done by done; lia| | |]; at_connection c.
  - split; cbn; try done; lia.
Qed.

Lemma stop_step_ok s s' : server_ok s → stop_step s s' → server_ok s'.
Proof using.
  intros [Hslots Hlimit Hwg Hheld Hpool Hpoolwg Hsock] Hstep. destruct Hstep as [| | | |c cs E| |]; split; cbn; try done. at_connection c.
Qed.

Lemma step_ok s s' : server_ok s → step s s' → server_ok s'.
Proof using. intros Hok [H|[H|H]]; [by eapply accept_step_ok|by eapply handler_step_ok|by eapply stop_step_ok]. Qed.

Lemma steps_ok s s' : server_ok s → rtc step s s' → server_ok s'.
Proof using. intros Hok Hr. induction Hr as [|s1 s2 s3 H _ IH]; [done|]. apply IH. by eapply step_ok. Qed.

(** ** Starting *)

(** The accept loop of an earlier start, if any, has ended. *)
Lemma Start_ok e s s' : server_ok s → sv_acceptor s = AcceptorDone → Start e s = (None, s') →
  server_ok s' ∧ sv_running s' = true ∧ sv_listening s' = true ∧ sv_acceptor s' = AtTop ∧ sv_stopChan s' = sv_stopChan s ∧
  sv_stopper s' = sv_stopper s ∧ sv_handlers s' = sv_handlers s.
Proof using.
  intros [Hslots Hlimit Hwg Hheld Hpool Hpoolwg Hsock] Ha E. unfold Start in E. destruct (sv_running s); [done|].
  destruct (en_resolves e); [|done]. destruct (en_listens e); [|done]. destruct (tlsError e); [done|]. injection E as <-.
  rewrite Ha in *. cbn [held held_slot held_wg held_pool] in *. split_and!; try done. split; cbn; try done. destruct (en_monitorsTLS e); lia.
Qed.

Lemma NewServer_ok : server_ok NewServer.
Proof using. split; cbn; try done; [lia|]. intros c. rewrite lookup_empty. set_solver. Qed.

(** What runs: the states after a first start. *)
Definition reachable (e : StartEnv) (s : Server) : Prop := ∃ s0, Start e NewServer = (None, s0) ∧ rtc step s0 s.

Lemma reachable_ok e s : reachable e s → server_ok s.
Proof using. intros (s0 & E & Hr). destruct (Start_ok e NewServer s0 NewServer_ok eq_refl E) as [Hok _]. by eapply steps_ok. Qed.

Lemma slotted_pool s : server_ok s → Z.of_nat (CountConns (sv_pool s)) ≤ sv_slots s.
Proof using.
  intros [Hslots Hlimit Hwg Hheld Hpool Hpoolwg Hsock]. rewrite Hslots. unfold CountConns.
  set (S1 := dom (slotted (sv_handlers s))).
  assert (Hdom : size (slotted (sv_handlers s)) = size S1) by (unfold S1; by rewrite size_dom).
  assert (Hsub : p_connections (sv_pool s) ⊆ S1 ∪ match held_pool (sv_acceptor s) with Some c => {[c]} | None => ∅ end).
  { intros c Hc. apply Hpool in Hc. apply elem_of_union. destruct Hc as [Hc|[Hc|Hc]].
    - left. apply elem_of_dom. exists Serving. by apply map_lookup_filter_Some.
    - left. apply elem_of_dom. exists Closed. by apply map_lookup_filter_Some.
    - right. rewrite Hc. set_solver. }
  apply subseteq_size in Hsub. rewrite Hdom, size_union_alt in *.
  assert (∀ Y : gset positive, size (Y ∖ S1) ≤ size Y)%nat as Hle by (intros Y; apply subseteq_size; set_solver).
  specialize (Hle (match held_pool (sv_acceptor s) with Some c => {[c]} | None => ∅ end)).
  destruct (sv_acceptor s); cbn [held_pool held_slot] in *; rewrite ?size_empty, ?size_singleton in Hle; lia.
Qed.

(** C17: the limit on connections holds at every moment: the slots in use are those of
    the handlers that have not given theirs back and of a connection on its way from the
    accept loop, never more than [MaxConnections]; the pool never holds more connections
    than that and its own counter is their number; and a socket is open only while its
    handler runs or the accept loop has it. *)
Theorem connection_limit e s : reachable e s →
  sv_slots s = Z.of_nat (size (slotted (sv_handlers s))) + held_slot (sv_acceptor s) ∧
  0 ≤ sv_slots s ≤ Z.max 0 MaxConnections ∧
  p_wg (sv_pool s) = Z.of_nat (CountConns (sv_pool s)) ∧ Z.of_nat (CountConns (sv_pool s)) ≤ Z.max 0 MaxConnections ∧
  (∀ c, c ∈ sv_sockets s → sv_handlers s !! c = Some Serving ∨ held (sv_acceptor s) = Some c).
Proof using.
  intros Hok%reachable_ok. pose proof (slotted_pool s Hok). destruct Hok as [Hslots Hlimit Hwg Hheld Hpool Hpoolwg Hsock].
  assert (0 ≤ held_slot (sv_acceptor s)) by (by destruct (sv_acceptor s)). split_and!; [done|lia|done|done|lia|done].
Qed.

(** C25: what [Stop] waits for is the end of everything: the wait group is never negative,
    is never raised while it is zero (which would race with the wait), and when it is
    zero the accept loop, the monitors and all handlers have ended, every slot is free,
    the pool is empty, so waiting for it returns at once, and no socket is open. *)
Theorem wait_group_complete e s : reachable e s →
  0 ≤ sv_wg s ∧ (∀ c, sv_acceptor s = Pooled c → 0 < sv_wg s) ∧
  (sv_wg s = 0 → sv_acceptor s = AcceptorDone ∧ sv_monitors s = 0%nat ∧ sv_handlers s = ∅ ∧ sv_slots s = 0 ∧
     p_connections (sv_pool s) = ∅ ∧ waitReturns (sv_pool s) = true ∧ sv_sockets s = ∅).
Proof using.
  intros Hok%reachable_ok. destruct Hok as [Hslots Hlimit Hwg Hheld Hpool Hpoolwg Hsock].
  assert (Hnn : 0 ≤ held_wg (sv_acceptor s)) by (by destruct (sv_acceptor s)). split; [lia|]. split.
  { intros c E. rewrite E in Hwg. cbn [held_wg] in Hwg. lia. }
  intros H0. assert (Ha : sv_acceptor s = AcceptorDone) by (destruct (sv_acceptor s); cbn [held_wg] in *; (done || lia)).
  assert (Hh : sv_handlers s = ∅) by (apply map_size_empty_iff; lia).
  rewrite Ha, Hh in *. cbn [held held_slot held_pool] in *.
  assert (Hp : p_connections (sv_pool s) = ∅).
  { apply set_eq. intros c. rewrite Hpool, lookup_empty. set_solver. }
  split_and!; [done|lia|done|rewrite Hslots; done|done| |].
  - unfold waitReturns. rewrite Hpoolwg, Hp. done.
  - apply set_eq. intros c. split; [|set_solver]. intros Hc%Hsock. rewrite lookup_empty in Hc. naive_solver.
Qed.

(** ** Shutting down *)

(** What is left to do for the accept loop, the handlers and the monitors once the stop
    channel and the listener are closed. *)
Definition accept_work (a : Acceptor) : nat :=
  match a with AcceptorDone => 0 | AtTop => 1 | InAccept => 2 | Counted _ => 6 | Pooled _ => 7 | Slotted _ => 8 | Accepted _ => 9 end.
Definition stage_work (st : Stage) : nat := match st with Serving => 4 | Closed => 3 | Removed => 2 | Released => 1 end.
Definition handlers_work (m : gmap positive Stage) : nat := map_fold (λ (_ : positive) st n, (stage_work st + n)%nat) 0%nat m.
Definition work_left (s : Server) : nat := sv_monitors s + accept_work (sv_acceptor s) + handlers_work (sv_handlers s).

Definition work (s s' : Server) : Prop := accept_step s s' ∨ handler_step s s'.
Definition stopping (s : Server) : Prop := sv_stopChan s = true ∧ sv_listening s = false.

Lemma handlers_work_delete m c st : m !! c = Some st → handlers_work m = (stage_work st + handlers_work (delete c m))%nat.
Proof using. intros Hc. unfold handlers_work. apply (map_fold_delete_L (λ (_ : positive) st n, (stage_work st + n)%nat) 0%nat c st m); [intros; lia|done]. Qed.

Lemma handlers_work_new m c st : m !! c = None → handlers_work (<[c := st]> m) = (stage_work st + handlers_work m)%nat.
Proof using. intros Hc. unfold handlers_work. apply (map_fold_insert_L (λ (_ : positive) st n, (stage_work st + n)%nat) 0%nat c st m); [intros; lia|done]. Qed.

Lemma handlers_work_move m c st st' : m !! c = Some st →
  (handlers_work (<[c := st']> m) + stage_work st = handlers_work m + stage_work st')%nat.
Proof using.
  intros Hc. rewrite (handlers_work_delete (<[c := st']> m) c st') by apply lookup_insert_eq.
  rewrite delete_insert_eq, (handlers_work_delete m c st) by done. lia.
Qed.

Lemma work_decreases s s' : server_ok s → stopping s → work s s' → (work_left s' < work_left s)%nat ∧ stopping s' ∧ server_ok s'.
Proof using.
  intros Hok [Hs Hl] Hw. split; [|split; [|destruct Hw; [by eapply accept_step_ok|by eapply handler_step_ok]]].
  - unfold work_left. destruct Hw as [Hw|Hw].
    + destruct Hw as [E Es|E|E Es|E|E Es|c E El Hk Hsk Hp|c E Hm|c E Hm|c E|c E|c E]; rewrite E; cbn -[handlers_work]; try lia; try congruence.
      rewrite handlers_work_new by (apply (ok_held _ Hok); by rewrite E). cbn. lia.
    + destruct Hw as [c Hc|c Hc|c Hc|c Hc|n E Es]; cbn -[handlers_work].
      * pose proof (handlers_work_move _ c _ Closed Hc). cbn in *. lia.
      * pose proof (handlers_work_move _ c _ Removed Hc). cbn in *. lia.
      * pose proof (handlers_work_move _ c _ Released Hc). cbn in *. lia.
      * rewrite (handlers_work_delete _ _ _ Hc). cbn. lia.
      * lia.
  - destruct Hw as [Hw|Hw]; destruct Hw; done.
Qed.

Lemma work_possible s : server_ok s → stopping s → sv_wg s ≠ 0 → ∃ s', work s s'.
Proof using.
  intros [Hslots Hlimit Hwg Hheld Hpool Hpoolwg Hsock] [Hs Hl] Hne. destruct (sv_acceptor s) as [| |c|c|c|c|] eqn:Ea.
  - eexists. left. by apply accept_stops.
  - eexists. left. by apply accept_fails.
  - destruct (Z.lt_ge_cases (sv_slots s) MaxConnections); eexists; left; [by apply (accept_slot _ c)|by apply (accept_rejects _ c)].
  - eexists. left. by apply (accept_pools _ c).
  - eexists. left. by apply (accept_counts _ c).
  - eexists. left. by apply (accept_goes _ c).
  - destruct (sv_monitors s) as [|n] eqn:Em; [|eexists; right; by apply (monitor_done _ n)].
    cbn [held_wg] in Hwg. destruct (map_choose (sv_handlers s)) as (c & st & Hc).
    { intros E. rewrite E, map_size_empty in Hwg. lia. }
    destruct st; eexists; right; [by apply (handler_closes _ c)|by apply (handler_removes _ c)|by apply (handler_releases _ c)|by apply (handler_done _ c)].
Qed.

(** A graceful shutdown ends: once the stop channel and the listener are closed, the
    accept loop, the handlers and the monitors can only make a bounded number of steps,
    whatever their order, and when none is left the wait group is zero: [Stop] never
    waits for something that does not happen, provided handlers return. *)
Theorem shutdown_ends e s : reachable e s → stopping s →
  (∀ n s', nsteps work n s s' → (n ≤ work_left s)%nat) ∧
  (∀ s', rtc work s s' → (∀ s'', ¬ work s' s'') → sv_wg s' = 0) ∧
  ∃ s', rtc work s s' ∧ sv_wg s' = 0 ∧ sv_handlers s' = ∅.
Proof using.
  intros Hok%reachable_ok Hst.
  assert (Hkeep : ∀ s', rtc work s s' → server_ok s' ∧ stopping s').
  { intros s' Hr. revert Hok Hst. induction Hr as [|s1 s2 s3 Hw _ IH]; [done|]. intros Hok Hst.
    destruct (work_decreases _ _ Hok Hst Hw) as (_ & ? & ?). auto. }
  split; [|split].
  - intros n s' Hn. clear Hkeep. revert Hok Hst. induction Hn as [|n s1 s2 s3 Hw _ IH]; intros Hok Hst; [lia|].
    destruct (work_decreases _ _ Hok Hst Hw) as (Hlt & Hst' & Hok'). specialize (IH Hok' Hst'). lia.
  - intros s' Hr Hno. destruct (Hkeep s' Hr) as [Hok' Hst']. destruct (decide (sv_wg s' = 0)) as [|Hne]; [done|].
    destruct (work_possible s' Hok' Hst' Hne) as (s'' & Hw). by destruct (Hno s'').
  - clear Hkeep. remember (work_left s) as n eqn:En. revert s Hok Hst En. induction n as [n IH] using lt_wf_ind. intros s Hok Hst ->.
    destruct (decide (sv_wg s = 0)) as [H0|Hne].
    + exists s. split; [done|]. split; [done|]. destruct Hok as [Hslots Hlimit Hwg Hheld Hpool Hpoolwg Hsock].
      apply map_size_empty_iff. assert (0 ≤ held_wg (sv_acceptor s)) by (by destruct (sv_acceptor s)). lia.
    + destruct (work_possible s Hok Hst Hne) as (s1 & Hw). destruct (work_decreases _ _ Hok Hst Hw) as (Hlt & Hst' & Hok').
      destruct (IH _ Hlt s1 Hok' Hst' eq_refl) as (s2 & Hr & H2). exists s2. split; [by eapply rtc_l|done].
Qed.

(** A server that was stopped cannot be started again, but does not say so: [Start]
    succeeds, the server counts as running and its listener accepts connections in the
    kernel, but the stop channel stays closed, so the accept loop ends at once: no
    connection is ever served, and [Stop], which runs once, does not close the listener. *)
Theorem restarted_server_deaf e s e2 s1 s2 :
  reachable e s → sv_stopper s = Stopped → sv_stopChan s = true → sv_acceptor s = AcceptorDone → Start e2 s = (None, s1) → rtc step s1 s2 →
  sv_running s2 = true ∧ sv_listening s2 = true ∧ (sv_acceptor s2 = AtTop ∨ sv_acceptor s2 = AcceptorDone) ∧
  ∀ c, is_Some (sv_handlers s2 !! c) → is_Some (sv_handlers s !! c).
Proof using.
  intros Hok%reachable_ok Hstop Hch Ha E Hr. destruct (Start_ok e2 s s1 Hok Ha E) as (_ & Hrun & Hl & Ha1 & Hc1 & Hst1 & Hh1). rewrite <- Hh1.
  clear E Hok Ha Hh1. rewrite Hch in Hc1. rewrite Hstop in Hst1. clear Hch Hstop.
  assert (Ha1' : sv_acceptor s1 = AtTop ∨ sv_acceptor s1 = AcceptorDone) by auto. clear Ha1.
  revert Hrun Hl Ha1' Hc1 Hst1. induction Hr as [s1|s1 s2 s3 Hstep _ IH]; intros Hrun Hl Ha Hc Hst; [by split_and!|].
  assert (Hkeep : sv_running s2 = true ∧ sv_listening s2 = true ∧ (sv_acceptor s2 = AtTop ∨ sv_acceptor s2 = AcceptorDone) ∧ sv_stopChan s2 = true ∧
    sv_stopper s2 = Stopped ∧ ∀ c, is_Some (sv_handlers s2 !! c) → is_Some (sv_handlers s1 !! c)).
  { destruct Hstep as [Hstep|[Hstep|Hstep]]; destruct Hstep; try (exfalso; destruct Ha; congruence); cbn; split_and!; auto.
    all: intros x; destruct (decide (x = c)) as [->|]; [by eexists|rewrite ?lookup_insert_ne, ?lookup_delete_ne by done; done]. }
  destruct Hkeep as (? & ? & ? & ? & ? & Hsub). destruct IH as (? & ? & ? & Hsub2); [done..|]. split_and!; auto.
Qed.
End Steps.

(** ** An example

    A server for one connection serves one and rejects another; then it is stopped. *)
Module Served.
Definition env : StartEnv :=
  {| en_resolves := true; en_listens := true; en_tls := false; en_cert := false; en_clientCA := None; en_monitorsTLS := false |}.
Definition started : Server := (Start env NewServer).2.
Definition busy : Server :=
  {| sv_running := true; sv_stopChan := false; sv_listening := true; sv_acceptor := AtTop; sv_stopper := NotStopped; sv_slots := 1;
       sv_pool := AddConn 1%positive NewConnectionPool; sv_wg := 3; sv_monitors := 1; sv_handlers := {[1%positive := Serving]};
       sv_sockets := {[1%positive]} |}.
Definition asked : Server := with_stopper Waiting (with_flags true true false busy).
Definition ended : Server :=
  {| sv_running := true; sv_stopChan := true; sv_listening := false; sv_acceptor := AcceptorDone; sv_stopper := Waiting; sv_slots := 0;
       sv_pool := NewConnectionPool; sv_wg := 0; sv_monitors := 0; sv_handlers := ∅; sv_sockets := ∅ |}.
Definition stopped : Server := with_stopper Stopped (with_flags false true false ended).
Definition restarted : Server := (Start env stopped).2.
Definition deaf : Server := with_acceptor AcceptorDone (with_counts 0 1 NewConnectionPool restarted).
End Served.

Ltac computed := apply (bool_decide_unpack _); vm_compute; exact I.
Ltac one_step tac := eapply rtc_l; [tac; first [done | computed]|].
Ltac arrived s := match goal with |- rtc _ ?x _ => replace x with s by (vm_compute; reflexivity) end; constructor.

(** The accept loop takes connection 1 through to its handler and turns 2 away. *)
Lemma served_busy : rtc (step 1) Served.started Served.busy.
Proof.
  one_step ltac:(left; apply accept_waits). one_step ltac:(left; apply (accept_gets _ _ 1%positive)).
  one_step ltac:(left; apply (accept_slot _ _ 1%positive)). one_step ltac:(left; apply (accept_pools _ _ 1%positive)).
  one_step ltac:(left; apply (accept_counts _ _ 1%positive)). one_step ltac:(left; apply (accept_goes _ _ 1%positive)).
  one_step ltac:(left; apply accept_waits). one_step ltac:(left; apply (accept_gets _ _ 2%positive)).
  one_step ltac:(left; apply (accept_rejects _ _ 2%positive)). arrived Served.busy.
Qed.

Lemma served_asked : rtc (step 1) Served.busy Served.asked.
Proof.
  one_step ltac:(right; right; apply stop_signals). one_step ltac:(right; right; apply stop_closes). arrived Served.asked.
Qed.

Lemma served_ended : rtc (step 1) Served.asked Served.ended.
Proof.
  one_step ltac:(left; apply accept_stops). one_step ltac:(right; left; apply (handler_closes _ 1%positive)).
  one_step ltac:(right; left; apply (handler_removes _ 1%positive)). one_step ltac:(right; left; apply (handler_releases _ 1%positive)).
  one_step ltac:(right; left; apply (handler_done _ 1%positive)). one_step ltac:(right; left; apply (monitor_done _ 0)).
  arrived Served.ended.
Qed.

Lemma served_stopped : rtc (step 1) Served.ended Served.stopped.
Proof.
  one_step ltac:(right; right; apply stop_graceful).
  eapply rtc_l; [right; right; apply (stop_drained _ false); [done|right; vm_compute; done]|]. arrived Served.stopped.
Qed.

Lemma served_reachable s : rtc (step 1) Served.started s → reachable 1 Served.env s.
Proof. intros Hr. exists Served.started. by split. Qed.

Lemma connection_limit_witness :
  reachable 1 Served.env Served.busy ∧ sv_slots Served.busy = 1 ∧ CountConns (sv_pool Served.busy) = 1%nat.
Proof.
  assert (Hr : reachable 1 Served.env Served.busy) by (apply served_reachable, served_busy).
  split; [exact Hr|]. destruct (connection_limit 1 Served.env Served.busy Hr) as (Hs & _ & Hp & _).
  split; [rewrite Hs; vm_compute; reflexivity|]. vm_compute in Hp |- *. reflexivity.
Defined.

Lemma wait_group_complete_witness :
  reachable 1 Served.env Served.ended ∧ sv_wg Served.ended = 0 ∧ waitReturns (sv_pool Served.ended) = true ∧ sv_sockets Served.ended = ∅.
Proof.
  assert (Hr : reachable 1 Served.env Served.ended).
  { apply served_reachable. etransitivity; [apply served_busy|]. etransitivity; [apply served_asked|apply served_ended]. }
  split; [exact Hr|]. destruct (wait_group_complete 1 Served.env Served.ended Hr) as (_ & _ & H).
  destruct (H eq_refl) as (_ & _ & _ & _ & _ & Hw & Hk). split; [reflexivity|]. split; [exact Hw|exact Hk].
Defined.

Lemma shutdown_ends_witness :
  reachable 1 Served.env Served.asked ∧ stopping Served.asked ∧ ∃ s, rtc (work 1) Served.asked s ∧ sv_wg s = 0 ∧ sv_handlers s = ∅.
Proof.
  assert (Hr : reachable 1 Served.env Served.asked).
  { apply served_reachable. etransitivity; [apply served_busy|apply served_asked]. }
  assert (Hst : stopping Served.asked) by (split; reflexivity).
  split; [exact Hr|]. split; [exact Hst|]. exact (proj2 (proj2 (shutdown_ends 1 Served.env Served.asked Hr Hst))).
Defined.

Lemma restarted_server_deaf_witness :
  reachable 1 Served.env Served.stopped ∧ Start Served.env Served.stopped = (None, Served.restarted) ∧
  rtc (step 1) Served.restarted Served.deaf ∧ sv_listening Served.deaf = true ∧ sv_acceptor Served.deaf = AcceptorDone.
Proof.
  assert (Hr : reachable 1 Served.env Served.stopped).
  { apply served_reachable. etransitivity; [apply served_busy|]. etransitivity; [apply served_asked|].
    etransitivity; [apply served_ended|apply served_stopped]. }
  assert (Hd : rtc (step 1) Served.restarted Served.deaf).
  { one_step ltac:(left; apply accept_stops). arrived Served.deaf. }
  split; [exact Hr|]. split; [reflexivity|]. split; [exact Hd|].
  destruct (restarted_server_deaf 1 Served.env Served.stopped Served.env Served.restarted Served.deaf Hr) as (_ & Hl & _);
    [reflexivity|reflexivity|reflexivity|reflexivity|exact Hd|]. split; [exact Hl|reflexivity].
Defined.
