(* ===== verification/Protocol.v ===== *)
(** * The server's request parser

    [internal/server/protocol.go] and [protocol_respmod.go], with the header
    value parsers of [pkg/icap/request.go]. A connection is the list of bytes
    still to come; the parser takes single bytes from it and stops where the
    chunked body begins, so a parsed body is only a mark that the rest of the
    connection is to be read as chunks. *)
From S2P Require Import Prelude GoInt GoStrings Header Chunked.

Local Open Scope Z_scope.

Definition MethodREQMOD : string := "REQMOD".
Definition MethodRESPMOD : string := "RESPMOD".
Definition MethodOPTIONS : string := "OPTIONS".

Definition maxProtocolRequestLineBytes : Z := 8 * 1024.
Definition maxProtocolStatusLineBytes : Z := 4 * 1024.
Definition maxProtocolHeaderLineBytes : Z := 8 * 1024.
Definition maxProtocolHeaderBytes : Z := 64 * 1024.
Definition maxHeaders : Z := 1000.
Definition maxSegmentedRESPMODRequestBodyBytes : Z := 10 * 1024 * 1024.
Definition DefaultMaxPreviewBytes : Z := 1 * 1024 * 1024.

Inductive ProtocolError :=
| ReadingFailed (e : ReadError)
| ErrInvalidRequestLine
| ErrInvalidMethod
| ErrInvalidVersion
| ErrInvalidURIScheme
| ErrMalformedHeaders
| ErrBodyTooLarge
| ErrLineTooLong
| ErrHeadersTooLarge
| TooManyHeaders
| EmptyPreview
| InvalidPreview
| NegativePreview
| PreviewExceedsMaximum
| InvalidEncapsulatedPart
| InvalidOffsetValue
| InvalidEmbeddedRequestLine
| InvalidEmbeddedResponseLine
| InvalidRESPMODOffsets
| InvalidSectionSize
| SectionHasExtraData
| NoFuel.

(** ** Requests *)

Definition encapNotSet : Z := -1.

Record Encapsulated := { ReqHdr : Z; ReqBody : Z; ResHdr : Z; ResBody : Z; NullBody : Z }.

Definition NewEncapsulated : Encapsulated :=
  {| ReqHdr := encapNotSet; ReqBody := encapNotSet; ResHdr := encapNotSet;
     ResBody := encapNotSet; NullBody := encapNotSet |}.

(** Go's zero value of the struct: every offset is 0. *)
Definition zeroEncapsulated : Encapsulated :=
  {| ReqHdr := 0; ReqBody := 0; ResHdr := 0; ResBody := 0; NullBody := 0 |}.

Definition IsEmpty (e : Encapsulated) : bool :=
  (ReqHdr e =? encapNotSet) && (ReqBody e =? encapNotSet) && (ResHdr e =? encapNotSet)
  && (ResBody e =? encapNotSet) && (NullBody e =? encapNotSet).

Definition HasReqBody (e : Encapsulated) : bool := negb (ReqBody e =? encapNotSet).
Definition HasResBody (e : Encapsulated) : bool := negb (ResBody e =? encapNotSet).

(** Where the body of an embedded message is read from. *)
Inductive BodySource :=
| NoBody
| ConnectionChunks
| SectionChunks (data : list ascii).

Record HTTPMessage := {
  m_Method : string; m_URI : string; m_Status : string; m_StatusText : string;
  m_Proto : string; m_Header : Header; m_Body : BodySource
}.

Record Request := {
  r_Method : string; r_URI : string; r_Proto : string; r_Header : Header;
  r_Preview : Z; r_PreviewSet : bool; r_Encapsulated : Encapsulated;
  HTTPRequest : option HTTPMessage; HTTPResponse : option HTTPMessage
}.

Definition with_preview (n : Z) (r : Request) : Request :=
  {| r_Method := r_Method r; r_URI := r_URI r; r_Proto := r_Proto r; r_Header := r_Header r;
     r_Preview := n; r_PreviewSet := true; r_Encapsulated := r_Encapsulated r;
     HTTPRequest := HTTPRequest r; HTTPResponse := HTTPResponse r |}.

Definition with_encap (e : Encapsulated) (r : Request) : Request :=
  {| r_Method := r_Method r; r_URI := r_URI r; r_Proto := r_Proto r; r_Header := r_Header r;
     r_Preview := r_Preview r; r_PreviewSet := r_PreviewSet r; r_Encapsulated := e;
     HTTPRequest := HTTPRequest r; HTTPResponse := HTTPResponse r |}.

Definition with_HTTPRequest (m : HTTPMessage) (r : Request) : Request :=
  {| r_Method := r_Method r; r_URI := r_URI r; r_Proto := r_Proto r; r_Header := r_Header r;
     r_Preview := r_Preview r; r_PreviewSet := r_PreviewSet r; r_Encapsulated := r_Encapsulated r;
     HTTPRequest := Some m; HTTPResponse := HTTPResponse r |}.

Definition with_HTTPResponse (m : HTTPMessage) (r : Request) : Request :=
  {| r_Method := r_Method r; r_URI := r_URI r; r_Proto := r_Proto r; r_Header := r_Header r;
     r_Preview := r_Preview r; r_PreviewSet := r_PreviewSet r; r_Encapsulated := r_Encapsulated r;
     HTTPRequest := HTTPRequest r; HTTPResponse := Some m |}.

Definition with_body (b : BodySource) (m : HTTPMessage) : HTTPMessage :=
  {| m_Method := m_Method m; m_URI := m_URI m; m_Status := m_Status m;
     m_StatusText := m_StatusText m; m_Proto := m_Proto m; m_Header := m_Header m; m_Body := b |}.

Definition HasBody (r : Request) : bool :=
  HasReqBody (r_Encapsulated r) || HasResBody (r_Encapsulated r).

(** ** Header values *)

Definition set_offset (key : string) (value : Z) (e : Encapsulated) : Encapsulated :=
  if bool_decide (key = "req-hdr") then
    {| ReqHdr := value; ReqBody := ReqBody e; ResHdr := ResHdr e; ResBody := ResBody e; NullBody := NullBody e |}
  else if bool_decide (key = "req-body") then
    {| ReqHdr := ReqHdr e; ReqBody := value; ResHdr := ResHdr e; ResBody := ResBody e; NullBody := NullBody e |}
  else if bool_decide (key = "res-hdr") then
    {| ReqHdr := ReqHdr e; ReqBody := ReqBody e; ResHdr := value; ResBody := ResBody e; NullBody := NullBody e |}
  else if bool_decide (key = "res-body") then
    {| ReqHdr := ReqHdr e; ReqBody := ReqBody e; ResHdr := ResHdr e; ResBody := value; NullBody := NullBody e |}
  else if bool_decide (key = "null-body") then
    {| ReqHdr := ReqHdr e; ReqBody := ReqBody e; ResHdr := ResHdr e; ResBody := ResBody e; NullBody := value |}
  else e.

Fixpoint parseEncapsulatedParts (parts : list string) (e : Encapsulated) : result ProtocolError Encapsulated :=
  match parts with
  | [] => Ok e
  | part :: parts =>
      match split_n2 (trim_space part) "=" with
      | [k; v] =>
          match Atoi (trim_space v) with
          | None => Err InvalidOffsetValue
          | Some value => parseEncapsulatedParts parts (set_offset (to_lower (trim_space k)) value e)
          end
      | _ => Err InvalidEncapsulatedPart
      end
  end.

Definition ParseEncapsulatedHeader (s : string) : result ProtocolError Encapsulated :=
  parseEncapsulatedParts (split_byte s ",") NewEncapsulated.

Definition ParsePreviewHeader (s : string) : result ProtocolError Z :=
  let s := trim_space s in
  if bool_decide (s = "") then Err EmptyPreview
  else
    match Atoi s with
    | None => Err InvalidPreview
    | Some value =>
        if value <? 0 then Err NegativePreview
        else if DefaultMaxPreviewBytes <? value then Err PreviewExceedsMaximum
        else Ok value
    end.

Definition isValidICAPMethod (method : string) : bool :=
  bool_decide (method = MethodREQMOD) || bool_decide (method = MethodRESPMOD)
  || bool_decide (method = MethodOPTIONS).

Definition isValidICAPVersion (version : string) : bool := bool_decide (version = "ICAP/1.0").

(** ** Lines and headers *)

Section Parse.
(** The error of a read past the last byte of the connection. *)
Context (ending : ReadError).

Definition trimProtocolLineEnding (line : list ascii) : list ascii :=
  match last line with
  | Some c => if bool_decide (c = CR) then take (length line - 1) line else line
  | None => line
  end.

(** The byte loop of [readProtocolLine]; [buf] is what it has collected. *)
Fixpoint readLineLoop (maxBytes : Z) (buf s : list ascii) : result ProtocolError string * list ascii :=
  match s with
  | [] =>
      if bool_decide (ending = EOF) && (0 <? length buf)%nat
      then (Ok (string_of (trimProtocolLineEnding buf)), [])
      else (Err (ReadingFailed ending), [])
  | b :: s =>
      if bool_decide (b = LF) then (Ok (string_of (trimProtocolLineEnding buf)), s)
      else if maxBytes <=? Z.of_nat (length buf) then (Err ErrLineTooLong, s)
      else readLineLoop maxBytes (buf ++ [b]) s
  end.

Definition readProtocolLine (maxBytes : Z) (s : list ascii) : result ProtocolError string * list ascii :=
  readLineLoop maxBytes [] s.

Definition parseHeaderLine (line : string) : result ProtocolError (string * string) :=
  match index_byte line ":" with
  | None => Err ErrMalformedHeaders
  | Some idx =>
      let key := trim_space (str_take idx line) in
      let value := trim_space (str_drop (S idx) line) in
      if bool_decide (key = "") then Err ErrMalformedHeaders else Ok (key, value)
  end.

(** Every line takes a byte, so one more step than bytes is enough. *)
Fixpoint parseHeadersLoop (fuel : nat) (headers : Header) (count totalBytes : Z) (s : list ascii)
  : result ProtocolError Header * list ascii :=
  match fuel with
  | O => (Err NoFuel, s)
  | S fuel =>
      match readProtocolLine maxProtocolHeaderLineBytes s with
      | (Err e, s) =>
          match e with
          | ReadingFailed EOF => (Ok headers, s)
          | _ => (Err e, s)
          end
      | (Ok line, s) =>
          let totalBytes := totalBytes + Z.of_nat (String.length line) + 2 in
          if maxProtocolHeaderBytes <? totalBytes then (Err ErrHeadersTooLarge, s)
          else if bool_decide (line = "") then (Ok headers, s)
          else
            match parseHeaderLine line with
            | Err e => (Err e, s)
            | Ok (key, value) =>
                let headers := Add headers key value in
                if maxHeaders <? count + 1 then (Err TooManyHeaders, s)
                else parseHeadersLoop fuel headers (count + 1) totalBytes s
            end
      end
  end.

Definition parseHeaders (s : list ascii) : result ProtocolError Header * list ascii :=
  parseHeadersLoop (S (length s)) NewHeader 0 0 s.

Definition valid_scheme (uri : string) : bool :=
  negb (String.length uri <? 7)%nat && equal_fold (str_take 7 uri) "icap://".

Definition checkRequestLine (line : string) : result ProtocolError (string * string * string) :=
  match split_byte line " " with
  | [method; uri; version] =>
      if negb (isValidICAPMethod method) then Err ErrInvalidMethod
      else if negb (valid_scheme uri) then Err ErrInvalidURIScheme
      else if negb (isValidICAPVersion version) then Err ErrInvalidVersion
      else Ok (method, uri, version)
  | _ => Err ErrInvalidRequestLine
  end.

Definition parseRequestLine (s : list ascii) : result ProtocolError (string * string * string) * list ascii :=
  match readProtocolLine maxProtocolRequestLineBytes s with
  | (Err e, s) => (Err e, s)
  | (Ok line, s) => (checkRequestLine line, s)
  end.

(** ** Embedded messages *)

Definition new_request_message (method uri proto : string) (h : Header) (b : BodySource) : HTTPMessage :=
  {| m_Method := method; m_URI := uri; m_Status := ""; m_StatusText := ""; m_Proto := proto;
     m_Header := h; m_Body := b |}.

Definition new_response_message (proto status text : string) (h : Header) (b : BodySource) : HTTPMessage :=
  {| m_Method := ""; m_URI := ""; m_Status := status; m_StatusText := text; m_Proto := proto;
     m_Header := h; m_Body := b |}.

Definition ParseState : Type := result ProtocolError Request * list ascii.

Definition parseEmbeddedHTTPRequestStreaming (req : Request) (s : list ascii) : ParseState :=
  match readProtocolLine maxProtocolRequestLineBytes s with
  | (Err (ReadingFailed EOF), s) => (Ok req, s)
  | (Err e, s) => (Err e, s)
  | (Ok line, s) =>
      match split_byte line " " with
      | method :: uri :: proto :: _ =>
          match parseHeaders s with
          | (Err e, s) => (Err e, s)
          | (Ok h, s) =>
              let b := if HasReqBody (r_Encapsulated req) then ConnectionChunks else NoBody in
              (Ok (with_HTTPRequest (new_request_message method uri proto h b) req), s)
          end
      | _ => (Err InvalidEmbeddedRequestLine, s)
      end
  end.

Definition parseEmbeddedHTTPResponseStreaming (req : Request) (s : list ascii) : ParseState :=
  match readProtocolLine maxProtocolStatusLineBytes s with
  | (Err (ReadingFailed EOF), s) => (Ok req, s)
  | (Err e, s) => (Err e, s)
  | (Ok line, s) =>
      match split_n3 line " " with
      | [proto; status; text] =>
          match parseHeaders s with
          | (Err e, s) => (Err e, s)
          | (Ok h, s) =>
              let b := if HasResBody (r_Encapsulated req) then ConnectionChunks else NoBody in
              (Ok (with_HTTPResponse (new_response_message proto status text h b) req), s)
          end
      | _ => (Err InvalidEmbeddedResponseLine, s)
      end
  end.
End Parse.

(** ** Segmented RESPMOD *)

Definition needsSegmentedRESPMODParsing (req : Request) : bool :=
  bool_decide (r_Method req = MethodRESPMOD) && HasReqBody (r_Encapsulated req)
  && (0 <=? ResHdr (r_Encapsulated req)).

Definition segmentedRESPMODResponseEnd (e : Encapsulated) : Z :=
  if HasResBody e then ResBody e else NullBody e.

Definition validateSegmentedRESPMODOffsets (e : Encapsulated) : result ProtocolError unit :=
  if (ReqHdr e <? 0) || (ReqBody e <? ReqHdr e) || (ResHdr e <? ReqBody e) then Err InvalidRESPMODOffsets
  else if HasResBody e && (ResBody e <? ResHdr e) then Err InvalidRESPMODOffsets
  else if (0 <=? NullBody e) && (NullBody e <? ResHdr e) then Err InvalidRESPMODOffsets
  else Ok tt.

(** Sections are parsed from a byte slice, which ends in [io.EOF]. *)
Definition ensureSectionConsumed (s : list ascii) : result ProtocolError unit :=
  match s with [] => Ok tt | _ => Err SectionHasExtraData end.

Definition newRequestSectionMessage (line : string) : result ProtocolError HTTPMessage :=
  match split_byte line " " with
  | method :: uri :: proto :: _ => Ok (new_request_message method uri proto NewHeader NoBody)
  | _ => Err InvalidEmbeddedRequestLine
  end.

Definition newResponseSectionMessage (line : string) : result ProtocolError HTTPMessage :=
  match split_n3 line " " with
  | [proto; status; text] => Ok (new_response_message proto status text NewHeader NoBody)
  | _ => Err InvalidEmbeddedResponseLine
  end.

Definition with_header (h : Header) (m : HTTPMessage) : HTTPMessage :=
  {| m_Method := m_Method m; m_URI := m_URI m; m_Status := m_Status m;
     m_StatusText := m_StatusText m; m_Proto := m_Proto m; m_Header := h; m_Body := m_Body m |}.

Definition parseSection (maxLine : Z) (newMessage : string → result ProtocolError HTTPMessage)
    (data : list ascii) : result ProtocolError HTTPMessage :=
  match readProtocolLine EOF maxLine data with
  | (Err e, _) => Err e
  | (Ok line, s) =>
      match newMessage line with
      | Err e => Err e
      | Ok message =>
          match parseHeaders EOF s with
          | (Err e, _) => Err e
          | (Ok h, s) => result_map (λ _, with_header h message) (ensureSectionConsumed s)
          end
      end
  end.

Definition parseHTTPRequestSection (data : list ascii) : result ProtocolError HTTPMessage :=
  parseSection maxProtocolRequestLineBytes newRequestSectionMessage data.

Definition parseHTTPResponseSection (data : list ascii) : result ProtocolError HTTPMessage :=
  parseSection maxProtocolStatusLineBytes newResponseSectionMessage data.

Section Segmented.
Context (ending : ReadError).

Definition readRESPMODSection (size maxSize : Z) (s : list ascii) : result ProtocolError (list ascii) * list ascii :=
  if size <? 0 then (Err InvalidSectionSize, s)
  else if maxSize <? size then (Err ErrBodyTooLarge, s)
  else
    match ReadFull ending (Z.to_nat size) s with
    | (_, Some e, s) => (Err (ReadingFailed e), s)
    | (data, None, s) => (Ok data, s)
    end.

(** [io.CopyN] to nowhere. *)
Definition discardRESPMODSection (size : Z) (s : list ascii) : result ProtocolError unit * list ascii :=
  if size <? 0 then (Err InvalidSectionSize, s)
  else if (size <=? Z.of_nat (length s)) then (Ok tt, drop (Z.to_nat size) s)
  else (Err (ReadingFailed ending), []).

Definition attachSegmentedRequestBody (req : Request) (message : HTTPMessage) (s : list ascii) : ParseState :=
  let e := r_Encapsulated req in
  match readRESPMODSection (sub64 (ResHdr e) (ReqBody e)) maxSegmentedRESPMODRequestBodyBytes s with
  | (Err e, s) => (Err e, s)
  | (Ok body, s) =>
      (Ok (with_HTTPRequest (if (0 <? length body)%nat then with_body (SectionChunks body) message
                             else message) req), s)
  end.

Definition parseSegmentedRESPMODRequest (req : Request) (s : list ascii) : ParseState :=
  let e := r_Encapsulated req in
  match readRESPMODSection (sub64 (ReqBody e) (ReqHdr e)) maxProtocolHeaderBytes s with
  | (Err e, s) => (Err e, s)
  | (Ok header, s) =>
      match parseHTTPRequestSection header with
      | Err e => (Err e, s)
      | Ok message => attachSegmentedRequestBody req message s
      end
  end.

Definition parseSegmentedRESPMODResponse (req : Request) (s : list ascii) : ParseState :=
  let e := r_Encapsulated req in
  let responseEnd := segmentedRESPMODResponseEnd e in
  if responseEnd <? 0 then parseEmbeddedHTTPResponseStreaming ending req s
  else
    match readRESPMODSection (sub64 responseEnd (ResHdr e)) maxProtocolHeaderBytes s with
    | (Err e, s) => (Err e, s)
    | (Ok header, s) =>
        match parseHTTPResponseSection header with
        | Err e => (Err e, s)
        | Ok message =>
            (Ok (with_HTTPResponse (if HasResBody e then with_body ConnectionChunks message
                                    else message) req), s)
        end
    end.

Definition parseSegmentedRESPMOD (req : Request) (s : list ascii) : ParseState :=
  let e := r_Encapsulated req in
  match validateSegmentedRESPMODOffsets e with
  | Err e => (Err e, s)
  | Ok _ =>
      match discardRESPMODSection (ReqHdr e) s with
      | (Err e, s) => (Err e, s)
      | (Ok _, s) =>
          match parseSegmentedRESPMODRequest req s with
          | (Err e, s) => (Err e, s)
          | (Ok req, s) => parseSegmentedRESPMODResponse req s
          end
      end
  end.

(** ** The whole request *)

Definition parseEmbeddedHTTP (req : Request) (s : list ascii) : ParseState :=
  if IsEmpty (r_Encapsulated req) then (Ok req, s)
  else if needsSegmentedRESPMODParsing req then parseSegmentedRESPMOD req s
  else if bool_decide (r_Method req = MethodREQMOD) && (0 <=? ReqHdr (r_Encapsulated req))
  then parseEmbeddedHTTPRequestStreaming ending req s
  else if bool_decide (r_Method req = MethodRESPMOD) && (0 <=? ReqHdr (r_Encapsulated req))
  then
    match parseEmbeddedHTTPRequestStreaming ending req s with
    | (Err e, s) => (Err e, s)
    | (Ok req, s) =>
        if 0 <? ResHdr (r_Encapsulated req) then parseEmbeddedHTTPResponseStreaming ending req s
        else (Ok req, s)
    end
  else (Ok req, s).

Definition parsePreview (headers : Header) (req : Request) : result ProtocolError Request :=
  match Get headers "Preview" with
  | None => Ok req
  | Some previewStr => result_map (λ n, with_preview n req) (ParsePreviewHeader previewStr)
  end.

Definition parseICAPRequest (s : list ascii) : ParseState :=
  match parseRequestLine ending s with
  | (Err e, s) => (Err e, s)
  | (Ok (method, uri, proto), s) =>
      match parseHeaders ending s with
      | (Err e, s) => (Err e, s)
      | (Ok headers, s) =>
          let req := {| r_Method := method; r_URI := uri; r_Proto := proto; r_Header := headers;
                        r_Preview := 0; r_PreviewSet := false; r_Encapsulated := zeroEncapsulated;
                        HTTPRequest := None; HTTPResponse := None |} in
          match parsePreview headers req with
          | Err e => (Err e, s)
          | Ok req =>
              match Get headers "Encapsulated" with
              | None => (Ok req, s)
              | Some encapStr =>
                  match ParseEncapsulatedHeader encapStr with
                  | Err e => (Err e, s)
                  | Ok encap => parseEmbeddedHTTP (with_encap encap req) s
                  end
              end
          end
      end
  end.
End Segmented.

(** [Request.WriteTo]: how a client writes a request. *)
Definition WriteTo (r : Request) (body : list ascii) : list ascii :=
  bytes_of (r_Method r) ++ " "%char :: bytes_of (r_URI r) ++ " "%char ::
  bytes_of (if bool_decide (r_Proto r = "") then "ICAP/1.0" else r_Proto r) ++ CR :: LF ::
  bytes_of (toString (r_Header r)) ++ CR :: LF :: body.

(** ** Lines *)

Lemma readLineLoop_app ending maxBytes buf l s :
  LF ∉ l → Z.of_nat (length buf + length l) ≤ maxBytes →
  readLineLoop ending maxBytes buf (l ++ LF :: s) =
  (Ok (string_of (trimProtocolLineEnding (buf ++ l))), s).
Proof.
  revert buf. induction l as [|b l IH]; intros buf Hl Hlen; cbn [app readLineLoop].
  - rewrite bool_decide_true by done. by rewrite app_nil_r.
  - rewrite not_elem_of_cons in Hl. destruct Hl as [Hb Hl]. cbn [length] in Hlen.
    rewrite bool_decide_false by auto. rewrite (proj2 (Z.leb_gt _ _)) by lia.
    rewrite IH by (done || rewrite length_app; simpl; lia). by rewrite <- app_assoc.
Qed.

Lemma trim_cr l : trimProtocolLineEnding (l ++ [CR]) = l.
Proof.
  unfold trimProtocolLineEnding. rewrite last_snoc, bool_decide_true by done.
  rewrite length_app. cbn [length]. by rewrite Nat.add_sub, take_app_length.
Qed.

(** A line as every peer ends it. *)
Lemma readProtocolLine_crlf ending maxBytes line s :
  LF ∉ bytes_of line → Z.of_nat (String.length line) < maxBytes →
  readProtocolLine ending maxBytes (bytes_of line ++ CR :: LF :: s) = (Ok line, s).
Proof.
  intros Hlf Hlen. unfold readProtocolLine.
  replace (bytes_of line ++ CR :: LF :: s) with ((bytes_of line ++ [CR]) ++ LF :: s)
    by (by rewrite <- app_assoc).
  rewrite readLineLoop_app.
  - cbn [app]. by rewrite trim_cr, string_of_bytes.
  - rewrite not_elem_of_app, list_elem_of_singleton. split; [done|discriminate].
  - rewrite length_app, length_bytes_of. simpl. lia.
Qed.

(** A line takes at least a byte and at most the limit and one more; without a
    terminator it is the whole rest. *)
Lemma readLineLoop_spec ending maxBytes buf s :
  Z.of_nat (length buf) ≤ maxBytes →
  ∃ used, s = used ++ (readLineLoop ending maxBytes buf s).2 ∧
    Z.of_nat (length buf + length used) ≤ maxBytes + 1 ∧
    (∀ line, (readLineLoop ending maxBytes buf s).1 = Ok line →
       Z.of_nat (length buf + length used) ≤ Z.of_nat (String.length line) + 2 ∧
       (used = [] → buf ≠ [])) ∧
    (readLineLoop ending maxBytes buf s).1 ≠ Err NoFuel.
Proof.
  assert (Htrim : ∀ l, (length l ≤ String.length (string_of (trimProtocolLineEnding l)) + 1)%nat).
  { intros l. rewrite <- length_bytes_of, bytes_of_string. unfold trimProtocolLineEnding.
    destruct (last l) eqn:E; [|lia]. case_bool_decide; [|lia]. rewrite length_take. lia. }
  revert buf. induction s as [|b s IH]; intros buf Hbuf; cbn [readLineLoop].
  - exists []. destruct (bool_decide (ending = EOF) && (0 <? length buf)%nat) eqn:E; cbn [fst snd].
    + apply andb_true_iff in E as [_ E]. bool_to_prop. split_and!; [done|simpl; lia| |done].
      intros line [= <-]. specialize (Htrim buf). simpl. split; [lia|].
      intros _ ->. simpl in E. lia.
    + split_and!; [done|simpl; lia|done|done].
  - case_bool_decide; [|split_if].
    + exists [b]. cbn [fst snd length]. split_and!; [done|lia| |done].
      intros line [= <-]. specialize (Htrim buf). split; [lia|done].
    + exists [b]. cbn [fst snd length]. split_and!; [done|lia|done|done].
    + destruct (IH (buf ++ [b])) as (used & E1 & Hl & Hok & Hnf); [rewrite length_app; simpl; lia|].
      exists (b :: used). rewrite length_app in *. cbn [length] in *.
      split_and!; [by rewrite E1 at 1|lia| |done].
      intros line Hline. destruct (Hok line Hline). split; [lia|done].
Qed.

(** ** Header lines *)

Definition field_ok (k v : string) : Prop :=
  k ≠ "" ∧ trim_space k = k ∧ trim_space v = v ∧ ":"%char ∉ bytes_of k ∧
  LF ∉ bytes_of k ∧ LF ∉ bytes_of v.

Definition field_length (kv : string * string) : Z :=
  Z.of_nat (String.length kv.1 + 2 + String.length kv.2).

Lemma parseHeaderLine_field k v :
  field_ok k v → parseHeaderLine (k +:+ ": " +:+ v) = Ok (k, v).
Proof.
  intros (Hk & Htk & Htv & Hc & _ & _). unfold parseHeaderLine.
  change (k +:+ ": " +:+ v) with (k +:+ String ":" (String " " v)).
  rewrite index_byte_app by done. rewrite str_take_app.
  replace (str_drop (S (String.length k)) (k +:+ String ":" (String " " v))) with (String " " v).
  2:{ clear. induction k as [|c k IH]; [by simpl; destruct v|]. exact IH. }
  rewrite Htk. rewrite bool_decide_false by done. f_equal. f_equal.
  unfold trim_space in *. cbn [trim_left]. done.
Qed.

(** The limits the parser puts on a header section. *)
Definition fields_fit (fs : list (string * string)) : Prop :=
  Forall (λ kv, field_ok kv.1 kv.2) fs ∧
  Forall (λ kv, field_length kv < maxProtocolHeaderLineBytes) fs ∧
  zsum (map (λ kv, field_length kv + 2) fs) + 2 ≤ maxProtocolHeaderBytes ∧
  Z.of_nat (length fs) ≤ maxHeaders.

Definition header_bytes (fs : list (string * string)) : list ascii :=
  concat (map (λ kv, bytes_of (header_line kv.1 kv.2)) fs).

Definition add_fields (h : Header) (fs : list (string * string)) : Header :=
  foldl (λ h kv, Add h kv.1 kv.2) h fs.

Lemma header_line_bytes k v :
  bytes_of (header_line k v) = bytes_of (k +:+ ": " +:+ v) ++ [CR; LF].
Proof. unfold header_line. by rewrite !bytes_of_app, <- !app_assoc. Qed.

Lemma field_no_lf k v : field_ok k v → LF ∉ bytes_of (k +:+ ": " +:+ v).
Proof.
  intros (_ & _ & _ & _ & Hk & Hv). rewrite !bytes_of_app, !not_elem_of_app.
  split_and!; [done| |done]. cbn. rewrite !not_elem_of_cons. split_and!; (discriminate || apply not_elem_of_nil).
Qed.

Lemma parseHeadersLoop_fields ending fs fuel h count total s :
  Forall (λ kv, field_ok kv.1 kv.2) fs →
  Forall (λ kv, field_length kv < maxProtocolHeaderLineBytes) fs →
  0 ≤ total → total + zsum (map (λ kv, field_length kv + 2) fs) + 2 ≤ maxProtocolHeaderBytes →
  0 ≤ count → count + Z.of_nat (length fs) ≤ maxHeaders → (length fs < fuel)%nat →
  parseHeadersLoop ending fuel h count total (header_bytes fs ++ CR :: LF :: s) = (Ok (add_fields h fs), s).
Proof.
  intros Hok Hlen. revert fuel h count total. induction Hok as [|[k v] fs Hkv Hok IH];
    intros fuel h count total Ht0 Ht Hc0 Hc Hfuel; (destruct fuel as [|fuel]; [simpl in Hfuel; lia|]).
  - cbn [header_bytes map concat app parseHeadersLoop].
    rewrite (readProtocolLine_crlf ending _ "" s); [|apply not_elem_of_nil|done].
    cbn [zsum map] in Ht. rewrite (proj2 (Z.ltb_ge _ _)) by (simpl; lia).
    by rewrite bool_decide_true.
  - apply Forall_cons_1 in Hlen as [Hl Hlen]. unfold field_length in Hl. cbn [fst snd] in *.
    cbn [zsum map length] in *. unfold field_length in Ht at 1. cbn [fst snd] in Ht.
    assert (Hll : String.length (k +:+ ": " +:+ v) = (String.length k + 2 + String.length v)%nat)
      by (rewrite !str_length_app; simpl; lia).
    assert (0 ≤ zsum (map (λ kv, field_length kv + 2) fs)).
    { apply zsum_nonneg, Forall_map, Forall_true. intros x. unfold field_length. cbn. lia. }
    cbn [parseHeadersLoop header_bytes map concat fst snd]. rewrite header_line_bytes.
    fold (header_bytes fs). rewrite <- !app_assoc. cbn [app].
    rewrite readProtocolLine_crlf; [|by apply field_no_lf|lia].
    rewrite (proj2 (Z.ltb_ge _ _)) by lia. rewrite bool_decide_false.
    2:{ intros E. rewrite E in Hll. simpl in Hll. lia. }
    rewrite parseHeaderLine_field by done. rewrite (proj2 (Z.ltb_ge _ _)) by lia.
    apply IH; (done || lia).
Qed.

Lemma header_bytes_length fs : (2 * length fs ≤ length (header_bytes fs))%nat.
Proof.
  induction fs as [|[k v] fs IH]; [simpl; lia|]. unfold header_bytes in *. cbn [map concat length].
  rewrite length_app, header_line_bytes, length_app. simpl length at 3. lia.
Qed.

Lemma parseHeaders_fields ending fs s :
  fields_fit fs → parseHeaders ending (header_bytes fs ++ CR :: LF :: s) = (Ok (add_fields NewHeader fs), s).
Proof.
  intros (H1 & H2 & H3 & H4). unfold parseHeaders. apply parseHeadersLoop_fields; (done || lia || idtac).
  pose proof (header_bytes_length fs). rewrite length_app. simpl. lia.
Qed.

(** ** Bounds *)

Lemma parseHeadersLoop_spec ending fuel h count total s :
  0 ≤ total ≤ maxProtocolHeaderBytes → (length s < fuel)%nat →
  ∃ used, s = used ++ (parseHeadersLoop ending fuel h count total s).2 ∧
    total + Z.of_nat (length used) ≤ maxProtocolHeaderBytes + maxProtocolHeaderLineBytes + 1 ∧
    (parseHeadersLoop ending fuel h count total s).1 ≠ Err NoFuel.
Proof.
  revert h count total s. induction fuel as [|fuel IH]; intros h count total s Ht Hf; [lia|].
  cbn [parseHeadersLoop]. unfold readProtocolLine, maxProtocolHeaderLineBytes in *.
  destruct (readLineLoop_spec ending (8 * 1024) [] s ltac:(simpl; lia)) as (used & E & Hl & Hok & Hnf).
  destruct (readLineLoop ending (8 * 1024) [] s) as [[line|e] s1]; cbn [fst snd length] in *; subst s.
  - destruct (Hok line eq_refl) as [Hlen Hne].
    assert (used ≠ []) by (intros Hn; by apply Hne). clear Hne Hok.
    assert (Hstop : ∃ used', used ++ s1 = used' ++ s1 ∧
      total + Z.of_nat (length used') ≤ maxProtocolHeaderBytes + 8 * 1024 + 1)
      by (exists used; split; [done|lia]).
    split_if; [destruct Hstop as (u & ? & ?); by exists u|].
    case_bool_decide; [destruct Hstop as (u & ? & ?); by exists u|].
    destruct (parseHeaderLine line) as [[key value]|e] eqn:Ek.
    2:{ destruct Hstop as (u & ? & ?). exists u. split_and!; [done|done|]. intros [= ->].
        unfold parseHeaderLine in Ek. destruct (index_byte line ":"); [case_bool_decide|]; done. }
    split_if; [destruct Hstop as (u & ? & ?); by exists u|].
    assert (0 < length used)%nat by (destruct used; [done|simpl; lia]).
    destruct (IH (Add h key value) (count + 1) (total + Z.of_nat (String.length line) + 2) s1)
      as (u2 & E2 & Hl2 & Hnf2); [lia|rewrite length_app in Hf; lia|].
    exists (used ++ u2). rewrite length_app, <- app_assoc. split_and!; [by rewrite <- E2|lia|done].
  - assert (Hstop : ∃ used', used ++ s1 = used' ++ s1 ∧
      total + Z.of_nat (length used') ≤ maxProtocolHeaderBytes + 8 * 1024 + 1)
      by (exists used; split; [done|lia]).
    destruct Hstop as (u & ? & ?).
    destruct e as [[]| | | | | | | | | | | | | | | | | | | | |]; by exists u.
Qed.

(** ** A header map and its lines *)

Definition header_ok (h : Header) : Prop := canonical_keys h ∧ ∀ k, h !! k ≠ Some [].

Lemma Add_lookup h key v k :
  Add h key v !! k = if decide (CanonicalHeaderKey key = k) then Some (at_key h k ++ [v]) else h !! k.
Proof.
  unfold Add. case_decide as E; [by rewrite E, lookup_insert_eq|by rewrite lookup_insert_ne].
Qed.

Lemma add_fields_lookup fs k :
  add_fields NewHeader fs !! k =
  match map snd (filter (λ kv, CanonicalHeaderKey kv.1 = k) fs) with
  | [] => None
  | vs => Some vs
  end.
Proof.
  unfold add_fields. induction fs as [|[key v] fs IH] using rev_ind.
  - simpl. unfold NewHeader. by rewrite lookup_empty.
  - rewrite foldl_snoc, filter_app, map_app, Add_lookup, filter_cons. cbn [fst snd].
    case_decide as E; rewrite filter_nil; cbn [map snd].
    + unfold at_key. rewrite IH. by destruct (map snd _).
    + by rewrite IH, app_nil_r.
Qed.

Lemma add_fields_entries h : header_ok h → add_fields NewHeader (entries h) = h.
Proof.
  intros [Hc Hne]. apply map_eq. intros k. rewrite add_fields_lookup.
  destruct (decide (CanonicalHeaderKey k = k)) as [Hk|Hk].
  - assert (E : map snd (filter (λ kv, CanonicalHeaderKey kv.1 = k) (entries h)) = Values h k).
    { rewrite <- entries_fold by done. f_equal. apply filter_ext_Forall, Forall_true.
      intros kv. rewrite <- CanonicalHeaderKey_fold. by rewrite Hk. }
    rewrite E. unfold Values, at_key. rewrite Hk. specialize (Hne k).
    destruct (h !! k) as [[|v vs]|]; done.
  - assert (h !! k = None) as -> by (apply eq_None_not_Some; intros Hs; by apply Hk, Hc).
    rewrite filter_none; [done|]. apply Forall_true. intros [k' v] Hk'. cbn in Hk'.
    apply Hk. rewrite <- Hk'. apply CanonicalHeaderKey_idemp.
Qed.

Lemma toString_bytes h : bytes_of (toString h) = header_bytes (entries h).
Proof.
  unfold toString, WriteToBuffer. rewrite write_lines. cbn [String.append].
  unfold header_bytes. induction (entries h) as [|kv l IH]; [done|].
  cbn [foldr map concat]. by rewrite bytes_of_app, IH.
Qed.

(** ** Request lines *)

Definition no_sp_lf (s : string) : Prop := " "%char ∉ bytes_of s ∧ LF ∉ bytes_of s.

Definition line_ok (method uri proto : string) : Prop :=
  no_sp_lf method ∧ no_sp_lf uri ∧ no_sp_lf proto ∧
  Z.of_nat (String.length (method +:+ " " +:+ uri +:+ " " +:+ proto)) < maxProtocolRequestLineBytes.

Lemma three_words a b c :
  no_sp_lf a → no_sp_lf b → no_sp_lf c →
  split_byte (a +:+ " " +:+ b +:+ " " +:+ c) " " = [a; b; c].
Proof.
  intros [Ha _] [Hb _] [Hc _]. change (a +:+ " " +:+ b +:+ " " +:+ c)
    with (a +:+ String " " (b +:+ String " " c)).
  by rewrite split_byte_app, split_byte_app, split_byte_none.
Qed.

Lemma three_words_lf a b c :
  no_sp_lf a → no_sp_lf b → no_sp_lf c → LF ∉ bytes_of (a +:+ " " +:+ b +:+ " " +:+ c).
Proof.
  intros [_ Ha] [_ Hb] [_ Hc]. rewrite !bytes_of_app, !not_elem_of_app.
  split_and!; try done; cbn; rewrite list_elem_of_singleton; discriminate.
Qed.

Lemma read_three_words ending a b c s :
  line_ok a b c →
  readProtocolLine ending maxProtocolRequestLineBytes
    (bytes_of a ++ " "%char :: bytes_of b ++ " "%char :: bytes_of c ++ CR :: LF :: s) =
  (Ok (a +:+ " " +:+ b +:+ " " +:+ c), s).
Proof.
  intros (Ha & Hb & Hc & Hl).
  replace (bytes_of a ++ _) with (bytes_of (a +:+ " " +:+ b +:+ " " +:+ c) ++ CR :: LF :: s).
  - apply readProtocolLine_crlf; [by apply three_words_lf|done].
  - rewrite !bytes_of_app, <- !app_assoc. done.
Qed.

Lemma valid_method_words m : isValidICAPMethod m = true → no_sp_lf m.
Proof.
  unfold isValidICAPMethod. intros H.
  assert (m = MethodREQMOD ∨ m = MethodRESPMOD ∨ m = MethodOPTIONS) as Hm.
  { apply orb_true_iff in H as [H|H]; [apply orb_true_iff in H as [H|H]|]; bool_to_prop; auto. }
  destruct Hm as [->|[-> | ->]]; split; cbn; rewrite !not_elem_of_cons; split_and!;
    (discriminate || apply not_elem_of_nil).
Qed.

(** A request a client can write: what [WriteTo] is given. *)
Record request_ok (r : Request) : Prop := {
  ok_method : isValidICAPMethod (r_Method r) = true;
  ok_scheme : valid_scheme (r_URI r) = true;
  ok_proto : r_Proto r = "" ∨ r_Proto r = "ICAP/1.0";
  ok_line : line_ok (r_Method r) (r_URI r) "ICAP/1.0";
  ok_header : header_ok (r_Header r);
  ok_fields : fields_fit (entries (r_Header r))
}.

Definition parsed_head (r : Request) : Request :=
  {| r_Method := r_Method r; r_URI := r_URI r; r_Proto := "ICAP/1.0"; r_Header := r_Header r;
     r_Preview := 0; r_PreviewSet := false; r_Encapsulated := zeroEncapsulated;
     HTTPRequest := None; HTTPResponse := None |}.

(** Parsing a written request comes down to what follows the headers. *)
Lemma parse_written ending r body :
  request_ok r →
  parseICAPRequest ending (WriteTo r body) =
  match parsePreview (r_Header r) (parsed_head r) with
  | Err e => (Err e, body)
  | Ok req =>
      match Get (r_Header r) "Encapsulated" with
      | None => (Ok req, body)
      | Some v =>
          match ParseEncapsulatedHeader v with
          | Err e => (Err e, body)
          | Ok encap => parseEmbeddedHTTP ending (with_encap encap req) body
          end
      end
  end.
Proof.
  intros []. unfold parseICAPRequest, WriteTo, parseRequestLine.
  assert (Hp : (if bool_decide (r_Proto r = "") then "ICAP/1.0" else r_Proto r) = "ICAP/1.0")
    by (destruct ok_proto0 as [-> | ->]; done).
  rewrite Hp, read_three_words by done. destruct ok_line0 as (H1 & H2 & H3 & _).
  unfold checkRequestLine. rewrite three_words by done. rewrite ok_method0, ok_scheme0. cbn [negb].
  replace (isValidICAPVersion "ICAP/1.0") with true by done. cbn [negb].
  rewrite toString_bytes, parseHeaders_fields by done. by rewrite add_fields_entries.
Qed.

(** ** Embedded messages *)

(** The head of an HTTP message in the body of a request. *)
Definition http_head (line : string) (fs : list (string * string)) : list ascii :=
  bytes_of line ++ CR :: LF :: header_bytes fs ++ [CR; LF].

Lemma parse_request_head ending req method uri proto fs s :
  line_ok method uri proto → fields_fit fs →
  parseEmbeddedHTTPRequestStreaming ending req
    (http_head (method +:+ " " +:+ uri +:+ " " +:+ proto) fs ++ s) =
  (Ok (with_HTTPRequest (new_request_message method uri proto (add_fields NewHeader fs)
         (if HasReqBody (r_Encapsulated req) then ConnectionChunks else NoBody)) req), s).
Proof.
  intros (Ha & Hb & Hc & Hl) Hf. unfold parseEmbeddedHTTPRequestStreaming, http_head.
  rewrite <- app_assoc. cbn [app]. rewrite <- app_assoc. cbn [app].
  rewrite readProtocolLine_crlf by (done || by apply three_words_lf).
  rewrite three_words by done. by rewrite parseHeaders_fields.
Qed.

Lemma parseSection_head newMessage maxLine line m fs :
  LF ∉ bytes_of line → Z.of_nat (String.length line) < maxLine → fields_fit fs →
  newMessage line = Ok m →
  parseSection maxLine newMessage (http_head line fs) = Ok (with_header (add_fields NewHeader fs) m).
Proof.
  intros Hlf Hl Hf Hm. unfold parseSection, http_head.
  rewrite readProtocolLine_crlf by done. rewrite Hm, parseHeaders_fields by done. done.
Qed.

Lemma readRESPMODSection_app ending size maxSize data s :
  size = Z.of_nat (length data) → size ≤ maxSize →
  readRESPMODSection ending size maxSize (data ++ s) = (Ok data, s).
Proof.
  intros -> Hm. unfold readRESPMODSection. rewrite !(proj2 (Z.ltb_ge _ _)) by lia.
  rewrite Nat2Z.id. unfold ReadFull. rewrite length_app, (proj2 (Nat.leb_le _ _)) by lia.
  by rewrite take_app_length, drop_app_length.
Qed.

(** ** Encapsulated offsets *)

Definition encap_keys : list string := ["req-hdr"; "req-body"; "res-hdr"; "res-body"; "null-body"].

Definition encap_part (kv : string * Z) : string := kv.1 +:+ "=" +:+ FormatInt 10 kv.2.

Fixpoint encap_text (kvs : list (string * Z)) : string :=
  match kvs with
  | [] => ""
  | [kv] => encap_part kv
  | kv :: kvs => encap_part kv +:+ ", " +:+ encap_text kvs
  end.

Definition encap_pair_ok (kv : string * Z) : Prop := kv.1 ∈ encap_keys ∧ 0 ≤ kv.2 ≤ max_int64.

Lemma encap_key_plain k :
  k ∈ encap_keys →
  str_forall (λ c, negb (is_space c) && negb (Ascii.eqb c ",") && negb (Ascii.eqb c "=")) k = true ∧
  to_lower k = k.
Proof.
  intros Hk. unfold encap_keys in Hk. rewrite !elem_of_cons in Hk.
  destruct Hk as [->|[->|[->|[->|[->|Hk]]]]]; try (split; vm_compute; reflexivity).
  by apply not_elem_of_nil in Hk.
Qed.

Lemma encap_part_plain kv c :
  encap_pair_ok kv → c = ","%char ∨ is_space c = true → c ∉ bytes_of (encap_part kv).
Proof.
  intros [Hk Hv] Hc. destruct (encap_key_plain kv.1 Hk) as [Hp _]. unfold encap_part.
  apply (str_forall_not_in (λ c, negb (is_space c) && negb (Ascii.eqb c ","))).
  - rewrite !str_forall_app. rewrite !andb_true_iff. split_and!; [|done|].
    + eapply str_forall_mono; [|exact Hp]. cbn beta. intros d Hd. by apply andb_true_iff in Hd as [Hd _].
    + apply FormatInt_forall; [lia|lia|]. intros [[] [] [] [] [] [] [] []]; vm_compute; (reflexivity || discriminate).
  - destruct Hc as [-> |Hc]; [done|]. by rewrite Hc.
Qed.

Lemma encap_part_trim kv : encap_pair_ok kv → trim_space (encap_part kv) = encap_part kv.
Proof.
  intros Hkv. apply trim_space_id. unfold str_forall. apply forallb_forall. intros c Hc.
  apply negb_true_iff. destruct (is_space c) eqn:E; [|done]. exfalso.
  apply (encap_part_plain kv c Hkv); [by right|]. by apply list_elem_of_In.
Qed.

Lemma parse_encap_part kv parts e :
  encap_pair_ok kv →
  parseEncapsulatedParts (encap_part kv :: parts) e =
  parseEncapsulatedParts parts (set_offset kv.1 kv.2 e).
Proof.
  intros Hkv. cbn [parseEncapsulatedParts]. rewrite encap_part_trim by done.
  destruct Hkv as [Hk Hv]. destruct (encap_key_plain kv.1 Hk) as [Hp Hlow].
  assert (Heq : "="%char ∉ bytes_of kv.1).
  { eapply str_forall_not_in; [exact Hp|done]. }
  unfold split_n2, cut_byte, encap_part.
  change (kv.1 +:+ "=" +:+ FormatInt 10 kv.2) with (kv.1 +:+ String "=" (FormatInt 10 kv.2)).
  rewrite index_byte_app by done. rewrite str_take_app.
  replace (str_drop (S (String.length kv.1)) (kv.1 +:+ String "=" (FormatInt 10 kv.2)))
    with (FormatInt 10 kv.2).
  2:{ generalize (FormatInt 10 kv.2). clear. intros t. induction kv.1 as [|c k IH]; [by destruct t|]. exact IH. }
  assert (Hsp : ∀ c, is_digit 10 c = true → negb (is_space c) = true)
    by (intros [[] [] [] [] [] [] [] []]; vm_compute; (reflexivity || discriminate)).
  rewrite (trim_space_id (FormatInt 10 kv.2)) by (apply FormatInt_forall; [lia|lia|done]).
  rewrite (trim_space_id kv.1).
  2:{ eapply str_forall_mono; [|exact Hp]. cbn beta. intros c Hc. apply andb_true_iff in Hc as [Hc _].
      by apply andb_true_iff in Hc as [Hc _]. }
  unfold Atoi. rewrite parse_int_format by lia. by rewrite Hlow.
Qed.

Lemma encap_text_cons kv kvs :
  kvs ≠ [] → encap_text (kv :: kvs) = encap_part kv +:+ ", " +:+ encap_text kvs.
Proof. by destruct kvs. Qed.

Lemma parse_encap_text kvs e :
  Forall encap_pair_ok kvs → kvs ≠ [] →
  ∀ pre, (pre = "" ∨ pre = " ") →
  parseEncapsulatedParts (split_byte (pre +:+ encap_text kvs) ",") e =
  Ok (foldl (λ e kv, set_offset kv.1 kv.2 e) e kvs).
Proof.
  intros Hall. revert e. induction Hall as [|kv kvs Hkv Hall IH]; intros e Hne pre Hpre; [done|].
  assert (Htrim : ∀ parts e, parseEncapsulatedParts ((pre +:+ encap_part kv) :: parts) e =
                             parseEncapsulatedParts (encap_part kv :: parts) e).
  { intros parts e'. destruct Hpre as [->| ->]; [done|]. cbn [parseEncapsulatedParts].
    by replace (trim_space (" " +:+ encap_part kv)) with (trim_space (encap_part kv)) by done. }
  assert (Hcomma : ","%char ∉ bytes_of (pre +:+ encap_part kv)).
  { rewrite bytes_of_app, not_elem_of_app. split; [|apply encap_part_plain; auto].
    destruct Hpre as [->| ->]; cbn; [apply not_elem_of_nil|]. by rewrite list_elem_of_singleton. }
  destruct kvs as [|kv2 kvs].
  - cbn [encap_text foldl]. rewrite split_byte_none by done. by rewrite Htrim, parse_encap_part.
  - rewrite encap_text_cons by done.
    replace (pre +:+ encap_part kv +:+ ", " +:+ encap_text (kv2 :: kvs))
      with ((pre +:+ encap_part kv) +:+ String "," (" " +:+ encap_text (kv2 :: kvs))) by (by rewrite str_app_assoc).
    rewrite split_byte_app by done. rewrite Htrim, parse_encap_part by done. cbn [foldl].
    apply IH; [done|by right].
Qed.

(** ** Properties *)

(** A request a client writes with [WriteTo] is parsed by the server to the
    same method, URI and header (every name, value and order of values), and the
    body is left on the connection, byte for byte. *)
Theorem request_roundtrip ending r body :
  request_ok r → Get (r_Header r) "Encapsulated" = None → Get (r_Header r) "Preview" = None →
  parseICAPRequest ending (WriteTo r body) = (Ok (parsed_head r), body).
Proof.
  intros Hr He Hp. rewrite parse_written by done. unfold parsePreview. by rewrite Hp, He.
Qed.

Definition example_options_request : Request :=
  {| r_Method := "OPTIONS"; r_URI := "icap://localhost/scan"; r_Proto := "";
     r_Header := <["Host" := ["localhost"]]> (<["X-A" := ["1"; "2"]]> ∅);
     r_Preview := 0; r_PreviewSet := false; r_Encapsulated := NewEncapsulated;
     HTTPRequest := None; HTTPResponse := None |}.

Lemma header_ok_forallb h :
  forallb (λ kv, String.eqb (CanonicalHeaderKey kv.1) kv.1 && negb (bool_decide (kv.2 = [])))
    (map_to_list h) = true → header_ok h.
Proof.
  rewrite forallb_forall. intros H. split.
  - intros k [vs Hk]. specialize (H (k, vs)). rewrite <- list_elem_of_In, elem_of_map_to_list in H.
    specialize (H Hk). by bool_to_prop.
  - intros k Hk. specialize (H (k, [])). rewrite <- list_elem_of_In, elem_of_map_to_list in H.
    specialize (H Hk). apply andb_true_iff in H as [_ H]. done.
Qed.

Definition mem_byte (c : ascii) (s : string) : bool := existsb (Ascii.eqb c) (bytes_of s).

Lemma mem_byte_false c s : mem_byte c s = false → c ∉ bytes_of s.
Proof.
  unfold mem_byte. intros H Hin%list_elem_of_In.
  assert (existsb (Ascii.eqb c) (bytes_of s) = true); [|congruence].
  apply existsb_exists. exists c. split; [done|apply Ascii.eqb_refl].
Qed.

Definition field_okb (kv : string * string) : bool :=
  negb (String.eqb kv.1 "") && String.eqb (trim_space kv.1) kv.1 && String.eqb (trim_space kv.2) kv.2
  && negb (mem_byte ":" kv.1) && negb (mem_byte LF kv.1) && negb (mem_byte LF kv.2)
  && (field_length kv <? maxProtocolHeaderLineBytes).

Lemma fields_fit_bool fs :
  forallb field_okb fs = true →
  (zsum (map (λ kv, field_length kv + 2) fs) + 2 <=? maxProtocolHeaderBytes) = true →
  (Z.of_nat (length fs) <=? maxHeaders) = true → fields_fit fs.
Proof.
  rewrite forallb_forall. intros H H1 H2. bool_to_prop.
  split_and!; [apply Forall_forall|apply Forall_forall|done|done];
    intros kv Hkv%list_elem_of_In; specialize (H kv Hkv); unfold field_okb in H; bool_to_prop; [|done].
  split_and!; try done; by apply mem_byte_false.
Qed.

Definition words_ok (ws : list string) : bool :=
  forallb (λ w, negb (mem_byte " " w) && negb (mem_byte LF w)) ws.

Lemma line_ok_bool a b c :
  words_ok [a; b; c] = true →
  (Z.of_nat (String.length (a +:+ " " +:+ b +:+ " " +:+ c)) <? maxProtocolRequestLineBytes) = true →
  line_ok a b c.
Proof.
  unfold words_ok. cbn [forallb]. intros H H2. bool_to_prop.
  split_and!; try done; split; by apply mem_byte_false.
Qed.

Lemma request_roundtrip_witness :
  parseICAPRequest EOF (WriteTo example_options_request (bytes_of "next")) =
  (Ok (parsed_head example_options_request), bytes_of "next").
Proof.
  apply (request_roundtrip EOF example_options_request (bytes_of "next")).
  - split; [vm_compute; reflexivity|vm_compute; reflexivity|by left| | |].
    + apply line_ok_bool; vm_compute; reflexivity.
    + apply header_ok_forallb. vm_compute. reflexivity.
    + apply fields_fit_bool; vm_compute; reflexivity.
  - vm_compute. reflexivity.
  - vm_compute. reflexivity.
Defined.

(** C6: a REQMOD request end to end: the parser takes the ICAP head and the
    embedded HTTP head, the chunked reader then takes exactly the body, and what
    follows (the next request of the connection) is untouched. *)
Theorem reqmod_end_to_end ending sizes r v encap method uri proto fs ps rest :
  (∀ i, (0 < sizes i)%nat) →
  request_ok r → r_Method r = MethodREQMOD → Get (r_Header r) "Preview" = None →
  Get (r_Header r) "Encapsulated" = Some v → ParseEncapsulatedHeader v = Ok encap →
  0 ≤ ReqHdr encap → HasReqBody encap = true →
  line_ok method uri proto → fields_fit fs → Forall chunk_ok ps →
  ∃ req s,
    parseICAPRequest ending (WriteTo r
      (http_head (method +:+ " " +:+ uri +:+ " " +:+ proto) fs ++ encode ps ++ last_chunk ++ rest))
      = (Ok req, s) ∧
    HTTPRequest req = Some (new_request_message method uri proto (add_fields NewHeader fs) ConnectionChunks) ∧
    HTTPResponse req = None ∧
    ReadChunkedBody ending sizes s = Some (concat ps, None, set_finished NewChunkedReader, rest).
Proof.
  intros Hs Hr Hm Hp Hv He Hh Hb Hl Hf Hps. rewrite parse_written by done.
  unfold parsePreview. rewrite Hp, Hv, He. unfold parseEmbeddedHTTP.
  cbn [r_Encapsulated with_encap r_Method parsed_head].
  assert (IsEmpty encap = false) as ->.
  { unfold IsEmpty. by rewrite (proj2 (Z.eqb_neq _ _)) by (unfold encapNotSet; lia). }
  unfold needsSegmentedRESPMODParsing. cbn [r_Encapsulated with_encap r_Method parsed_head]. rewrite Hm.
  rewrite (bool_decide_false (MethodREQMOD = MethodRESPMOD)) by done. cbn [andb].
  rewrite bool_decide_true, (proj2 (Z.leb_le _ _)) by done. cbn [andb].
  rewrite parse_request_head by done. do 2 eexists. split_and!; [done| |done|].
  - cbn. by rewrite Hb.
  - unfold ReadChunkedBody, ReadAll.
    destruct (readAll_chunks ending sizes NewChunkedReader ps (last_chunk ++ rest)
                (S (length (encode ps ++ last_chunk ++ rest))) 0) as (f & i & Hfu & ->); [done|done|done|lia|].
    change last_chunk with (zero_chunk "").
    rewrite readAll_zero by (done || apply ext_ok_nil || lia). cbn. by rewrite app_nil_r.
Qed.

Definition example_reqmod : Request :=
  {| r_Method := "REQMOD"; r_URI := "icap://localhost/reqmod"; r_Proto := "ICAP/1.0";
     r_Header := <["Encapsulated" := ["req-hdr=0, req-body=33"]]> ∅;
     r_Preview := 0; r_PreviewSet := false; r_Encapsulated := NewEncapsulated;
     HTTPRequest := None; HTTPResponse := None |}.

Lemma reqmod_end_to_end_witness :
  ∃ req s,
    parseICAPRequest EOF (WriteTo example_reqmod
      (http_head ("POST" +:+ " " +:+ "/" +:+ " " +:+ "HTTP/1.1") [("Host", "example")] ++
       encode [bytes_of "data"] ++ last_chunk ++ bytes_of "OPTIONS")) = (Ok req, s) ∧
    HTTPRequest req = Some (new_request_message "POST" "/" "HTTP/1.1"
                              (add_fields NewHeader [("Host", "example")]) ConnectionChunks) ∧
    HTTPResponse req = None ∧
    ReadChunkedBody EOF (λ _, 3%nat) s =
      Some (concat [bytes_of "data"], None, set_finished NewChunkedReader, bytes_of "OPTIONS").
Proof.
  apply (reqmod_end_to_end EOF (λ _, 3%nat) example_reqmod "req-hdr=0, req-body=33"
    {| ReqHdr := 0; ReqBody := 33; ResHdr := -1; ResBody := -1; NullBody := -1 |}).
  - intros _. lia.
  - split; [vm_compute; reflexivity|vm_compute; reflexivity|by right| | |].
    + apply line_ok_bool; vm_compute; reflexivity.
    + apply header_ok_forallb. vm_compute. reflexivity.
    + apply fields_fit_bool; vm_compute; reflexivity.
  - reflexivity.
  - vm_compute. reflexivity.
  - vm_compute. reflexivity.
  - vm_compute. reflexivity.
  - done.
  - reflexivity.
  - apply line_ok_bool; vm_compute; reflexivity.
  - apply fields_fit_bool; vm_compute; reflexivity.
  - repeat constructor; vm_compute; discriminate.
Defined.

(** The [Encapsulated] header round-trips: a list of offsets written as
    "req-hdr=0, req-body=412" sets exactly those offsets, the last one winning
    for a repeated name, and every other offset is absent. *)
Theorem encapsulated_roundtrip kvs :
  Forall encap_pair_ok kvs → kvs ≠ [] →
  ParseEncapsulatedHeader (encap_text kvs) =
  Ok (foldl (λ e kv, set_offset kv.1 kv.2 e) NewEncapsulated kvs).
Proof. intros Hall Hne. apply (parse_encap_text kvs NewEncapsulated Hall Hne ""). by left. Qed.

Lemma encapsulated_roundtrip_witness :
  ParseEncapsulatedHeader "req-hdr=0, res-hdr=137, res-body=296" =
  Ok {| ReqHdr := 0; ReqBody := -1; ResHdr := 137; ResBody := 296; NullBody := -1 |}.
Proof.
  apply (encapsulated_roundtrip [("req-hdr", 0); ("res-hdr", 137); ("res-body", 296)]); [|done].
  repeat constructor; cbn; try (unfold max_int64; lia); vm_compute;
    rewrite !elem_of_cons; auto.
Defined.

(** ** Segmented messages *)

Lemma split_n3_words a b c :
  no_sp_lf a → no_sp_lf b → split_n3 (a +:+ " " +:+ b +:+ " " +:+ c) " " = [a; b; c].
Proof.
  intros [Ha _] [Hb _]. unfold split_n3, split_n2, cut_byte.
  change (a +:+ " " +:+ b +:+ " " +:+ c) with (a +:+ String " " (b +:+ String " " c)).
  assert (Hdrop : ∀ a t, str_drop (S (String.length a)) (a +:+ String " " t) = t).
  { intros x t. induction x as [|d x IH]; [by destruct t|exact IH]. }
  rewrite index_byte_app by done. rewrite str_take_app, Hdrop.
  rewrite index_byte_app by done. by rewrite str_take_app, Hdrop.
Qed.

Lemma parse_request_section a b c fs :
  line_ok a b c → fields_fit fs →
  parseHTTPRequestSection (http_head (a +:+ " " +:+ b +:+ " " +:+ c) fs) =
  Ok (new_request_message a b c (add_fields NewHeader fs) NoBody).
Proof.
  intros (Ha & Hb & Hc & Hl) Hf. unfold parseHTTPRequestSection.
  rewrite (parseSection_head _ _ _ (new_request_message a b c NewHeader NoBody)); try done.
  - by apply three_words_lf.
  - unfold newRequestSectionMessage. by rewrite three_words.
Qed.

(** A status line: the text after the code may hold spaces. *)
Definition status_line_ok (proto status text : string) : Prop :=
  no_sp_lf proto ∧ no_sp_lf status ∧ LF ∉ bytes_of text ∧
  Z.of_nat (String.length (proto +:+ " " +:+ status +:+ " " +:+ text)) < maxProtocolStatusLineBytes.

Lemma parse_response_section a b c fs :
  status_line_ok a b c → fields_fit fs →
  parseHTTPResponseSection (http_head (a +:+ " " +:+ b +:+ " " +:+ c) fs) =
  Ok (new_response_message a b c (add_fields NewHeader fs) NoBody).
Proof.
  intros (Ha & Hb & Hc & Hl) Hf. unfold parseHTTPResponseSection.
  rewrite (parseSection_head _ _ _ (new_response_message a b c NewHeader NoBody)); try done.
  - destruct Ha as [_ Ha], Hb as [_ Hb]. rewrite !bytes_of_app, !not_elem_of_app.
    split_and!; try done; cbn; rewrite list_elem_of_singleton; discriminate.
  - unfold newResponseSectionMessage. by rewrite split_n3_words.
Qed.

(** A RESPMOD body whose parts lie at the declared offsets. *)
Record segmented_layout := {
  l_skip : list ascii;
  l_method : string; l_uri : string; l_proto : string; l_request_fields : list (string * string);
  l_body : list ascii;
  l_rproto : string; l_status : string; l_text : string; l_response_fields : list (string * string)
}.

Definition l_request_head (l : segmented_layout) : list ascii :=
  http_head (l_method l +:+ " " +:+ l_uri l +:+ " " +:+ l_proto l) (l_request_fields l).
Definition l_response_head (l : segmented_layout) : list ascii :=
  http_head (l_rproto l +:+ " " +:+ l_status l +:+ " " +:+ l_text l) (l_response_fields l).

Definition layout_bytes (l : segmented_layout) : list ascii :=
  l_skip l ++ l_request_head l ++ l_body l ++ l_response_head l.

Definition layout_encap (l : segmented_layout) (has_body : bool) : Encapsulated :=
  let a := Z.of_nat (length (l_skip l)) in
  let b := a + Z.of_nat (length (l_request_head l)) in
  let c := b + Z.of_nat (length (l_body l)) in
  let d := c + Z.of_nat (length (l_response_head l)) in
  {| ReqHdr := a; ReqBody := b; ResHdr := c;
     ResBody := if has_body then d else encapNotSet; NullBody := if has_body then encapNotSet else d |}.

Record layout_ok (l : segmented_layout) : Prop := {
  lo_request : line_ok (l_method l) (l_uri l) (l_proto l);
  lo_response : status_line_ok (l_rproto l) (l_status l) (l_text l);
  lo_request_fields : fields_fit (l_request_fields l);
  lo_response_fields : fields_fit (l_response_fields l);
  lo_request_size : Z.of_nat (length (l_request_head l)) ≤ maxProtocolHeaderBytes;
  lo_response_size : Z.of_nat (length (l_response_head l)) ≤ maxProtocolHeaderBytes;
  lo_body_size : Z.of_nat (length (l_body l)) ≤ maxSegmentedRESPMODRequestBodyBytes;
  lo_skip : Z.of_nat (length (l_skip l)) ≤ 2 ^ 62
}.

Lemma validate_layout l has_body : validateSegmentedRESPMODOffsets (layout_encap l has_body) = Ok tt.
Proof.
  unfold validateSegmentedRESPMODOffsets, layout_encap, HasResBody, encapNotSet.
  destruct has_body; cbn [ReqHdr ReqBody ResHdr ResBody NullBody];
    change (0 <=? -1) with false; change (-1 =? -1) with true; cbn [negb andb];
    rewrite !(proj2 (Z.ltb_ge _ _)) by lia; cbn [orb]; rewrite ?andb_false_r; done.
Qed.

Lemma segmented_spec ending l has_body req s :
  layout_ok l → r_Encapsulated req = layout_encap l has_body →
  parseSegmentedRESPMOD ending req (layout_bytes l ++ s) =
  (Ok (with_HTTPResponse
         (new_response_message (l_rproto l) (l_status l) (l_text l) (add_fields NewHeader (l_response_fields l))
            (if has_body then ConnectionChunks else NoBody))
       (with_HTTPRequest
         (new_request_message (l_method l) (l_uri l) (l_proto l) (add_fields NewHeader (l_request_fields l))
            (match l_body l with [] => NoBody | b => SectionChunks b end)) req)), s).
Proof.
  intros [] He. unfold parseSegmentedRESPMOD. rewrite He, validate_layout.
  unfold layout_bytes. rewrite <- !app_assoc.
  unfold discardRESPMODSection. cbn [layout_encap ReqHdr].
  rewrite (proj2 (Z.ltb_ge _ _)), (proj2 (Z.leb_le _ _)) by (rewrite ?length_app; lia).
  rewrite Nat2Z.id, drop_app_length.
  assert (Hsub : ∀ a b, 0 ≤ b ≤ maxSegmentedRESPMODRequestBodyBytes → 0 ≤ a ≤ 2 ^ 62 + 2 ^ 30 →
    sub64 (a + b) a = b).
  { intros a b Hb Ha. unfold sub64. rewrite wrap64_id; [lia|].
    unfold in_int64, min_int64, max_int64, maxSegmentedRESPMODRequestBodyBytes in *. lia. }
  unfold maxProtocolHeaderBytes, maxSegmentedRESPMODRequestBodyBytes in *.
  unfold parseSegmentedRESPMODRequest. rewrite He. cbn [layout_encap ReqHdr ReqBody].
  rewrite Hsub by lia. rewrite readRESPMODSection_app by (done || lia).
  unfold l_request_head at 1. rewrite parse_request_section by done.
  unfold attachSegmentedRequestBody. rewrite He. cbn [layout_encap ResHdr ReqBody].
  rewrite Hsub by lia. rewrite readRESPMODSection_app by (done || lia).
  unfold parseSegmentedRESPMODResponse. cbn [r_Encapsulated with_HTTPRequest]. rewrite He.
  assert (Hend : segmentedRESPMODResponseEnd (layout_encap l has_body) =
    ResHdr (layout_encap l has_body) + Z.of_nat (length (l_response_head l))).
  { unfold segmentedRESPMODResponseEnd, HasResBody, layout_encap, encapNotSet.
    destruct has_body; cbn [ResBody NullBody ResHdr]; [|done].
    by rewrite (proj2 (Z.eqb_neq _ _)) by lia. }
  rewrite Hend. cbn [layout_encap ResHdr].
  rewrite (proj2 (Z.ltb_ge _ _)), Hsub by lia. rewrite readRESPMODSection_app by (done || lia).
  unfold l_response_head at 1. rewrite parse_response_section by done.
  assert (HasResBody (layout_encap l has_body) = has_body) as ->.
  { unfold HasResBody, layout_encap, encapNotSet. destruct has_body; [|done].
    cbn [ResBody]. by rewrite (proj2 (Z.eqb_neq _ _)) by lia. }
  by destruct has_body, (l_body l).
Qed.

(** ** Accepted requests *)

Definition head_valid (r : Request) : Prop :=
  isValidICAPMethod (r_Method r) = true ∧ valid_scheme (r_URI r) = true ∧
  r_Proto r = "ICAP/1.0" ∧ 0 ≤ r_Preview r ≤ DefaultMaxPreviewBytes.

Definition same_head (r r' : Request) : Prop :=
  r_Method r' = r_Method r ∧ r_URI r' = r_URI r ∧ r_Proto r' = r_Proto r ∧ r_Preview r' = r_Preview r.

Lemma same_head_refl r : same_head r r.
Proof. done. Qed.
Lemma same_head_request m r : same_head r (with_HTTPRequest m r).
Proof. done. Qed.
Lemma same_head_response m r : same_head r (with_HTTPResponse m r).
Proof. done. Qed.
Lemma same_head_trans r1 r2 r3 : same_head r1 r2 → same_head r2 r3 → same_head r1 r3.
Proof. unfold same_head. intuition congruence. Qed.
#[export] Hint Resolve same_head_refl same_head_request same_head_response : icap.

(** Case analysis on the parser's own matches. *)
Ltac parse_cases H :=
  repeat match type of H with
  | context [match ?x with _ => _ end] => destruct x eqn:?; simplify_eq
  end.

Lemma streaming_request_head ending req s req' s' :
  parseEmbeddedHTTPRequestStreaming ending req s = (Ok req', s') → same_head req req'.
Proof.
  unfold parseEmbeddedHTTPRequestStreaming. intros H. parse_cases H; auto with icap.
Qed.

Lemma streaming_response_head ending req s req' s' :
  parseEmbeddedHTTPResponseStreaming ending req s = (Ok req', s') → same_head req req'.
Proof.
  unfold parseEmbeddedHTTPResponseStreaming. intros H. parse_cases H; auto with icap.
Qed.

Lemma segmented_head ending req s req' s' :
  parseSegmentedRESPMOD ending req s = (Ok req', s') → same_head req req'.
Proof.
  unfold parseSegmentedRESPMOD, parseSegmentedRESPMODRequest, attachSegmentedRequestBody,
    parseSegmentedRESPMODResponse. intros H.
  destruct (validateSegmentedRESPMODOffsets _); [|done].
  destruct (discardRESPMODSection _ _ s) as [[]]; [|done].
  destruct (readRESPMODSection _ _ _ l) as [[header|] s1]; [|done].
  destruct (parseHTTPRequestSection header); [|done].
  destruct (readRESPMODSection _ _ _ s1) as [[body|] s2]; [|done].
  split_if_in H; [apply streaming_response_head in H; by eapply same_head_trans; [apply same_head_request|]|].
  destruct (readRESPMODSection _ _ _ s2) as [[h2|] s3]; [|done].
  destruct (parseHTTPResponseSection h2); simplify_eq.
  eapply same_head_trans; [apply same_head_request|apply same_head_response].
Qed.

Lemma embedded_head ending req s req' s' :
  parseEmbeddedHTTP ending req s = (Ok req', s') → same_head req req'.
Proof.
  unfold parseEmbeddedHTTP. intros H.
  destruct (IsEmpty _); [simplify_eq; auto with icap|].
  destruct (needsSegmentedRESPMODParsing _); [by eapply segmented_head|].
  destruct (_ && _); [by eapply streaming_request_head|].
  destruct (_ && _); [|simplify_eq; auto with icap].
  destruct (parseEmbeddedHTTPRequestStreaming ending req s) as [[req1|] s1] eqn:E; [|done].
  apply streaming_request_head in E.
  split_if_in H; [|done]. apply streaming_response_head in H. by eapply same_head_trans.
Qed.

Lemma checkRequestLine_ok line method uri proto :
  checkRequestLine line = Ok (method, uri, proto) →
  isValidICAPMethod method = true ∧ valid_scheme uri = true ∧ proto = "ICAP/1.0".
Proof.
  unfold checkRequestLine. intros H.
  destruct (split_byte line " ") as [|m [|u [|v [|]]]]; try done.
  repeat split_if_in H. unfold isValidICAPVersion in *. by bool_to_prop.
Qed.

Lemma ParsePreviewHeader_ok s n : ParsePreviewHeader s = Ok n → 0 ≤ n ≤ DefaultMaxPreviewBytes.
Proof.
  unfold ParsePreviewHeader. cbv zeta. case_bool_decide as E0; [done|]. destruct (Atoi _); [|done].
  intros Hn. repeat split_if_in Hn. lia.
Qed.

(** Whatever bytes arrive, a request the server accepts has one of the three
    methods, an [icap://] URI in any case, version ICAP/1.0 and a preview size
    between 0 and 1 MiB. *)
Theorem accepted_request_valid ending s req rest :
  parseICAPRequest ending s = (Ok req, rest) → head_valid req.
Proof.
  unfold parseICAPRequest, parseRequestLine. intros H.
  destruct (readProtocolLine _ _ s) as [[line|] s1]; [|done].
  destruct (checkRequestLine line) as [[[method uri] proto]|] eqn:El; [|done].
  apply checkRequestLine_ok in El as (Hm & Hu & ->).
  destruct (parseHeaders ending s1) as [[headers|] s2]; [|done].
  match type of H with context [parsePreview headers ?r] => remember r as req0 eqn:E0 end.
  assert (H0 : head_valid req0) by (subst req0; split_and!; [exact Hm|exact Hu|reflexivity|simpl; lia|unfold DefaultMaxPreviewBytes; simpl; lia]).
  destruct (parsePreview headers req0) as [req1|] eqn:Ep; [|done].
  assert (H1 : head_valid req1).
  { unfold parsePreview in Ep. destruct (Get headers "Preview") as [v|]; [|by simplify_eq].
    destruct (ParsePreviewHeader v) as [n|] eqn:En; simplify_eq/=.
    apply ParsePreviewHeader_ok in En. destruct H0 as (? & ? & ? & _).
    unfold head_valid. cbn [with_preview r_Method r_URI r_Proto r_Preview]. tauto. }
  destruct (Get headers "Encapsulated") as [v|]; [|by simplify_eq].
  destruct (ParseEncapsulatedHeader v) as [encap|]; [|done].
  apply embedded_head in H as (E1 & E2 & E3 & E4). unfold head_valid. by rewrite E1, E2, E3, E4.
Qed.

Lemma accepted_request_valid_witness :
  parseICAPRequest EOF (WriteTo example_reqmod (http_head "GET / HTTP/1.1" [])) =
    (Ok (with_HTTPRequest (new_request_message "GET" "/" "HTTP/1.1" NewHeader ConnectionChunks)
      (with_encap {| ReqHdr := 0; ReqBody := 33; ResHdr := -1; ResBody := -1; NullBody := -1 |}
        (parsed_head example_reqmod))), []) ∧
  head_valid (with_HTTPRequest (new_request_message "GET" "/" "HTTP/1.1" NewHeader ConnectionChunks)
      (with_encap {| ReqHdr := 0; ReqBody := 33; ResHdr := -1; ResBody := -1; NullBody := -1 |}
        (parsed_head example_reqmod))).
Proof.
  split; [vm_compute; reflexivity|].
  apply (accepted_request_valid EOF (WriteTo example_reqmod (http_head "GET / HTTP/1.1" [])) _ []).
  vm_compute. reflexivity.
Defined.

(** C11: a RESPMOD request whose parts are separated by a request body is cut at
    its declared offsets: bytes before the request head are skipped, the request
    head, the request body (kept as its own chunk stream) and the response head
    are each taken exactly, and the connection is left at the response body. *)
Theorem segmented_respmod ending l has_body req s :
  layout_ok l → r_Method req = MethodRESPMOD → r_Encapsulated req = layout_encap l has_body →
  parseEmbeddedHTTP ending req (layout_bytes l ++ s) =
  (Ok (with_HTTPResponse
         (new_response_message (l_rproto l) (l_status l) (l_text l) (add_fields NewHeader (l_response_fields l))
            (if has_body then ConnectionChunks else NoBody))
       (with_HTTPRequest
         (new_request_message (l_method l) (l_uri l) (l_proto l) (add_fields NewHeader (l_request_fields l))
            (match l_body l with [] => NoBody | b => SectionChunks b end)) req)), s).
Proof.
  intros Hl Hm He. unfold parseEmbeddedHTTP.
  assert (IsEmpty (r_Encapsulated req) = false) as ->.
  { unfold IsEmpty. rewrite He. cbn [layout_encap ReqHdr]. unfold encapNotSet.
    by rewrite (proj2 (Z.eqb_neq _ _)) by lia. }
  assert (needsSegmentedRESPMODParsing req = true) as ->.
  { unfold needsSegmentedRESPMODParsing, HasReqBody. rewrite Hm, He, bool_decide_true by done.
    cbn [layout_encap ReqBody ResHdr]. unfold encapNotSet.
    by rewrite (proj2 (Z.eqb_neq _ _)), (proj2 (Z.leb_le _ _)) by lia. }
  by apply segmented_spec.
Qed.

Definition example_layout : segmented_layout :=
  {| l_skip := []; l_method := "POST"; l_uri := "/f"; l_proto := "HTTP/1.1";
     l_request_fields := [("Host", "h")]; l_body := bytes_of "0" ++ [CR; LF; CR; LF];
     l_rproto := "HTTP/1.1"; l_status := "200"; l_text := "All OK";
     l_response_fields := [("Server", "s")] |}.

Definition example_respmod : Request :=
  {| r_Method := "RESPMOD"; r_URI := "icap://h/respmod"; r_Proto := "ICAP/1.0"; r_Header := ∅;
     r_Preview := 0; r_PreviewSet := false; r_Encapsulated := layout_encap example_layout true;
     HTTPRequest := None; HTTPResponse := None |}.

Lemma segmented_respmod_witness :
  (parseEmbeddedHTTP EOF example_respmod (layout_bytes example_layout ++ bytes_of "body")).2 = bytes_of "body".
Proof.
  rewrite (segmented_respmod EOF example_layout true example_respmod (bytes_of "body")); [reflexivity| |reflexivity|reflexivity].
  split.
  - apply line_ok_bool; vm_compute; reflexivity.
  - split_and!; [split; apply mem_byte_false; vm_compute; reflexivity..|apply mem_byte_false; vm_compute; reflexivity|].
    apply Z.ltb_lt. vm_compute. reflexivity.
  - apply fields_fit_bool; vm_compute; reflexivity.
  - apply fields_fit_bool; vm_compute; reflexivity.
  - apply Z.leb_le. vm_compute. reflexivity.
  - apply Z.leb_le. vm_compute. reflexivity.
  - apply Z.leb_le. vm_compute. reflexivity.
  - apply Z.leb_le. vm_compute. reflexivity.
Defined.

(** A RESPMOD request without an HTTP request head parses without its messages. *)
Lemma respmod_unparsed ending r v encap body :
  request_ok r → r_Method r = MethodRESPMOD → Get (r_Header r) "Preview" = None →
  Get (r_Header r) "Encapsulated" = Some v → ParseEncapsulatedHeader v = Ok encap →
  ReqHdr encap = encapNotSet → HasReqBody encap = false →
  parseICAPRequest ending (WriteTo r body) = (Ok (with_encap encap (parsed_head r)), body) ∧
  HTTPResponse (with_encap encap (parsed_head r)) = None.
Proof.
  intros Hr Hm Hp Hv He Hh Hb. split; [|done]. rewrite parse_written by done.
  unfold parsePreview. rewrite Hp, Hv, He. unfold parseEmbeddedHTTP, needsSegmentedRESPMODParsing.
  cbn [r_Encapsulated with_encap r_Method parsed_head]. rewrite Hb, Hh. unfold encapNotSet.
  rewrite andb_false_r. cbn [andb Z.leb Z.compare]. rewrite !andb_false_r. by destruct (IsEmpty encap).
Qed.

(** A RESPMOD request without an HTTP request head ("res-hdr=0,
    res-body=n", which RFC 3507 allows) is accepted with its HTTP response
    unparsed: nothing of the message is read, so the response head and body
    stay on the connection in front of the next request. *)
Theorem respmod_without_request_head ending r v encap body :
  request_ok r → r_Method r = MethodRESPMOD → Get (r_Header r) "Preview" = None →
  Get (r_Header r) "Encapsulated" = Some v → ParseEncapsulatedHeader v = Ok encap →
  ReqHdr encap = encapNotSet → HasReqBody encap = false →
  parseICAPRequest ending (WriteTo r body) = (Ok (with_encap encap (parsed_head r)), body) ∧
  HTTPResponse (with_encap encap (parsed_head r)) = None.
Proof. apply respmod_unparsed. Qed.

Definition example_res_only : Request :=
  {| r_Method := "RESPMOD"; r_URI := "icap://h/respmod"; r_Proto := "ICAP/1.0";
     r_Header := <["Encapsulated" := ["res-hdr=0, res-body=38"]]> ∅;
     r_Preview := 0; r_PreviewSet := false; r_Encapsulated := NewEncapsulated;
     HTTPRequest := None; HTTPResponse := None |}.

Lemma example_res_only_ok : request_ok example_res_only.
Proof.
  split; [vm_compute; reflexivity|vm_compute; reflexivity|by right| | |].
  - apply line_ok_bool; vm_compute; reflexivity.
  - apply header_ok_forallb. vm_compute. reflexivity.
  - apply fields_fit_bool; vm_compute; reflexivity.
Qed.

Lemma respmod_without_request_head_witness :
  let encap := {| ReqHdr := -1; ReqBody := -1; ResHdr := 0; ResBody := 38; NullBody := -1 |} in
  parseICAPRequest EOF (WriteTo example_res_only (bytes_of "HTTP/1.1 200 OK")) =
    (Ok (with_encap encap (parsed_head example_res_only)), bytes_of "HTTP/1.1 200 OK") ∧
  HTTPResponse (with_encap encap (parsed_head example_res_only)) = None.
Proof.
  intros encap.
  apply (respmod_without_request_head EOF example_res_only "res-hdr=0, res-body=38" encap).
  - exact example_res_only_ok.
  - reflexivity.
  - vm_compute. reflexivity.
  - vm_compute. reflexivity.
  - vm_compute. reflexivity.
  - reflexivity.
  - reflexivity.
Defined.

(** The header section a peer can make the server read is bounded: parsing
    the headers always ends (the fuel is never used up), takes at most 64 KiB
    and one more line of the connection, and leaves a suffix of it. *)
Theorem header_section_bounded ending s :
  ∃ used, s = used ++ (parseHeaders ending s).2 ∧
    Z.of_nat (length used) ≤ maxProtocolHeaderBytes + maxProtocolHeaderLineBytes + 1 ∧
    (parseHeaders ending s).1 ≠ Err NoFuel.
Proof.
  destruct (parseHeadersLoop_spec ending (S (length s)) NewHeader 0 0 s) as (used & H1 & H2 & H3);
    [unfold maxProtocolHeaderBytes; lia|lia|]. by exists used.
Qed.
