(* ===== verification/Lifecycle.v ===== *)
(** * Bodies of a request on its connection: [internal/server/lifecycle.go]

    The server takes a request's bodies off the connection before it answers, except
    that in preview mode it takes the preview and leaves a reader behind which asks
    the client to go on (100 Continue) when someone reads past the preview. The
    connection is explicit: the readers of a body share its input, its output and its
    deadlines ([Wire]), and a body read through the code of [pkg/icap] runs with the
    wire attached to its reader. Durations are nanoseconds. *)
From S2P Require Import Prelude GoInt GoStrings Header Chunked Protocol Message Connection.

Local Open Scope Z_scope.

Definition defaultDrainBodyLimit : Z := 10 * 1024 * 1024.
Definition defaultDrainTimeout : Z := 30 * 1000000000.

(** The part of the server's configuration the lifecycle reads. *)
Record ServerConfig := {
  cfg_ReadTimeout : Z; cfg_WriteTimeout : Z; cfg_IdleTimeout : Z;
  cfg_MaxBodySize : Z; cfg_maxBodySizeSet : bool; cfg_MaxConnections : Z
}.

Definition EffectiveMaxBodySize (c : ServerConfig) (defaultLimit : Z) : Z :=
  if (cfg_MaxBodySize c =? 0) && negb (cfg_maxBodySizeSet c) then defaultLimit else cfg_MaxBodySize c.

(** ** The wire *)

(** A deadline that was set: so many nanoseconds from then, or none. *)
Inductive Deadline := ReadBy (timeout : option Z) | WriteBy (timeout : option Z).

Record Wire := {
  w_in : list ascii; w_ending : ReadError;
  w_out : bufferedWriter Sink;
  w_closed : bool;
  w_deadlines : list Deadline
}.

Definition with_in (s : list ascii) (w : Wire) : Wire :=
  {| w_in := s; w_ending := w_ending w; w_out := w_out w; w_closed := w_closed w; w_deadlines := w_deadlines w |}.

Definition with_out (o : bufferedWriter Sink) (w : Wire) : Wire :=
  {| w_in := w_in w; w_ending := w_ending w; w_out := o; w_closed := w_closed w; w_deadlines := w_deadlines w |}.

(** Setting a deadline fails on a closed socket. *)
Definition SetDeadline (d : Deadline) (w : Wire) : option ReadError * Wire :=
  if w_closed w then (Some DeadlineSetup, w)
  else (None, {| w_in := w_in w; w_ending := w_ending w; w_out := w_out w; w_closed := false;
                 w_deadlines := w_deadlines w ++ [d] |}).

Definition SetReadDeadline (timeout : option Z) (w : Wire) : option ReadError * Wire := SetDeadline (ReadBy timeout) w.
Definition SetWriteDeadline (timeout : option Z) (w : Wire) : option ReadError * Wire := SetDeadline (WriteBy timeout) w.

Section Deadlines.
Context (cfg : ServerConfig).

Definition waitReadTimeout (keepAliveWait : bool) : Z :=
  if keepAliveWait && (0 <? cfg_IdleTimeout cfg) then cfg_IdleTimeout cfg
  else if 0 <? cfg_ReadTimeout cfg then cfg_ReadTimeout cfg
  else cfg_IdleTimeout cfg.

Definition setWaitReadDeadline (keepAliveWait : bool) (w : Wire) : option ReadError * Wire :=
  let timeout := waitReadTimeout keepAliveWait in
  if timeout <=? 0 then SetReadDeadline None w else SetReadDeadline (Some timeout) w.

Definition activeTimeout : Z := if cfg_ReadTimeout cfg <=? 0 then defaultDrainTimeout else cfg_ReadTimeout cfg.

Definition setActiveReadDeadline (w : Wire) : option ReadError * Wire := SetReadDeadline (Some activeTimeout) w.
Definition setDrainReadDeadline (w : Wire) : option ReadError * Wire := SetReadDeadline (Some activeTimeout) w.

Definition drainBodyLimit : Z := EffectiveMaxBodySize cfg defaultDrainBodyLimit.
End Deadlines.

(** ** Readers of a body *)

(** A chunked reader over the connection or over bytes the parser took off it. *)
Inductive ChunkRd := OnConn (cr : ChunkedReader) | OnSection (cr : ChunkedReader) (data : list ascii).

(** [previewContinuationReader]; [k_ctx] is its context, when set, and whether it is
    done; [k_materialized] is the mark left with the context at the end of the body. *)
Record Continuation := {
  k_reader : ChunkRd; k_err : option ReadError; k_once : bool;
  k_ctx : option bool; k_materialized : bool
}.

(** [Plain] is the connection itself, not chunked; [Deferred] the reader left after a
    preview, with what of the preview was not read yet. *)
Inductive BodyRd :=
| Plain
| Chunks (c : ChunkRd)
| Deferred (preview unread : list ascii) (continuation : Continuation).

Definition chunk_state (c : ChunkRd) : ChunkedReader := match c with OnConn cr => cr | OnSection cr _ => cr end.

Definition with_chunk_state (cr : ChunkedReader) (c : ChunkRd) : ChunkRd :=
  match c with OnConn _ => OnConn cr | OnSection _ data => OnSection cr data end.

Definition with_k (c : ChunkRd) (e : option ReadError) (once : bool) (k : Continuation) : Continuation :=
  {| k_reader := c; k_err := e; k_once := once; k_ctx := k_ctx k; k_materialized := k_materialized k |}.

Definition newDeferredPreviewBodyReader (preview : list ascii) (k : Continuation) : BodyRd := Deferred preview preview k.
Definition newContinuation (c : ChunkRd) : Continuation :=
  {| k_reader := c; k_err := None; k_once := false; k_ctx := None; k_materialized := false |}.

Definition PreviewBodySnapshot (r : BodyRd) : option (list ascii) :=
  match r with Deferred preview _ _ => Some preview | _ => None end.

Definition continueMessage : string := "ICAP/1.0 100 Continue" +:+ String CR (String LF (String CR (String LF ""))).

Definition readChunks (len : nat) (c : ChunkRd) (w : Wire) : list ascii * option ReadError * ChunkRd * Wire :=
  match c with
  | OnConn cr => let '(p, e, cr, s) := Read (w_ending w) len cr (w_in w) in (p, e, OnConn cr, with_in s w)
  | OnSection cr data => let '(p, e, cr, s) := Read EOF len cr data in (p, e, OnSection cr s, w)
  end.

Section Readers.
(** The size of the write buffer. *)
Context (cfg : ServerConfig) (size : nat).

(** The steps of [continueBody], each only when those before it went well; the
    result is the error that is kept. *)
Definition continueWriteDeadline (w : Wire) : option ReadError * Wire :=
  if 0 <? cfg_WriteTimeout cfg then SetWriteDeadline (Some (cfg_WriteTimeout cfg)) w else (None, w).

Definition continueWrite (w : Wire) : option ReadError * Wire :=
  match WriteString sink_write size continueMessage (w_out w) with
  | (_, Some e, o) => (Some (ContinuationWrite e), with_out o w)
  | (_, None, o) =>
      match Flush sink_write o with
      | (Some e, o) => (Some (ContinuationWrite e), with_out o w)
      | (None, o) => (None, with_out o w)
      end
  end.

Definition continueBody (k : Continuation) (w : Wire) : Continuation * Wire :=
  let failed e w := (with_k (k_reader k) (Some e) true k, w) in
  match continueWriteDeadline w with
  | (Some e, w) => failed e w
  | (None, w) =>
      match continueWrite w with
      | (Some e, w) => failed e w
      | (None, w) =>
          match setActiveReadDeadline cfg w with
          | (Some e, w) => failed e w
          | (None, w) =>
              match ContinueAfterPreview (chunk_state (k_reader k)) with
              | Err e => failed (ContinuationRefused e) w
              | Ok cr => (with_k (with_chunk_state cr (k_reader k)) None true k, w)
              end
          end
      end
  end.

(** A context that is done ends the read before anything else. *)
Definition readContinuation (len : nat) (k : Continuation) (w : Wire) : list ascii * option ReadError * Continuation * Wire :=
  match k_ctx k with
  | Some true => ([], Some ContextDone, k, w)
  | _ =>
      let '(k, w) := if k_once k then (k, w) else continueBody k w in
      match k_err k with
      | Some e => ([], Some e, k, w)
      | None =>
          let '(p, e, c, w) := readChunks len (k_reader k) w in
          (p, e, {| k_reader := c; k_err := None; k_once := k_once k; k_ctx := k_ctx k;
                    k_materialized := k_materialized k || (bool_decide (e = Some EOF) && bool_decide (is_Some (k_ctx k))) |}, w)
      end
  end.

#[export] Instance Wired_Reader : Reader (BodyRd * Wire) := λ len rw,
  let '(r, w) := rw in
  match r with
  | Plain =>
      match w_in w with
      | [] => ([], Some (w_ending w), (r, w))
      | s => (take len s, None, (r, with_in (drop len s) w))
      end
  | Chunks c => let '(p, e, c, w) := readChunks len c w in (p, e, (Chunks c, w))
  | Deferred preview [] k => let '(p, e, k, w) := readContinuation len k w in (p, e, (Deferred preview [] k, w))
  | Deferred preview unread k => (take len unread, None, (Deferred preview (drop len unread) k, w))
  end.
End Readers.

(** [NewChunkedReader] over a reader that is none yet; a [Deferred] reader is only
    ever given to an HTTP message, whose body is read as it is. *)
Definition asChunked (r : BodyRd) : BodyRd :=
  match r with Plain => Chunks (OnConn NewChunkedReader) | _ => r end.

(** ** Requests with their bodies *)

(** The message bodies of a request, and the body of the ICAP request itself, which is
    the connection as it comes; the headers are those of [Protocol.Request]. *)
Record LRequest := {
  l_head : Request;
  l_request : option (BodyState BodyRd);
  l_response : option (BodyState BodyRd);
  l_raw : BodyState BodyRd
}.

Definition with_request (m : option (BodyState BodyRd)) (r : LRequest) : LRequest :=
  {| l_head := l_head r; l_request := m; l_response := l_response r; l_raw := l_raw r |}.
Definition with_response (m : option (BodyState BodyRd)) (r : LRequest) : LRequest :=
  {| l_head := l_head r; l_request := l_request r; l_response := m; l_raw := l_raw r |}.
Definition with_raw (m : BodyState BodyRd) (r : LRequest) : LRequest :=
  {| l_head := l_head r; l_request := l_request r; l_response := l_response r; l_raw := m |}.

Definition body_reader (b : BodySource) : option BodyRd :=
  match b with
  | NoBody => None
  | ConnectionChunks => Some (Chunks (OnConn NewChunkedReader))
  | SectionChunks data => Some (Chunks (OnSection NewChunkedReader data))
  end.

(** The reader that [parseICAPRequest] leaves with the request itself: the connection,
    when there is an Encapsulated header. *)
Definition raw_reader (r : Request) : option BodyRd :=
  if bool_decide (is_Some (Get (r_Header r) "Encapsulated")) then Some Plain else None.

(** The request the parser hands over. *)
Definition newLRequest (r : Request) : LRequest :=
  {| l_head := r; l_request := (λ m, fresh_body (body_reader (m_Body m))) <$> HTTPRequest r;
     l_response := (λ m, fresh_body (body_reader (m_Body m))) <$> HTTPResponse r; l_raw := fresh_body (raw_reader r) |}.

Definition contentLengthHint (m : option HTTPMessage) : Z :=
  match m ≫= λ m, Get (m_Header m) "Content-Length" with
  | None => -1
  | Some value => match parse_int 10 value with None => -1 | Some size => if size <? 0 then -1 else size end
  end.

Definition HasPreview (r : Request) : bool := r_PreviewSet r || (0 <? r_Preview r).
Definition IsPreviewMode (r : Request) : bool := HasPreview r.

Definition plain (r : BodyRd) : Prefixed BodyRd := {| segments := []; tail_reader := r |}.

Definition set_reader (p : option (Prefixed BodyRd)) (m : BodyState BodyRd) : BodyState BodyRd :=
  body_state p (Body m) (bodyLoaded m) (bodyErr m) (bodyOnce m).

(** Running the code of a body with the wire attached to its reader; without a reader
    nothing is read. *)
Definition attach_reader (w : Wire) (p : Prefixed BodyRd) : Prefixed (BodyRd * Wire) :=
  {| segments := segments p; tail_reader := (tail_reader p, w) |}.
Definition detach_reader (p : Prefixed (BodyRd * Wire)) : Prefixed BodyRd :=
  {| segments := segments p; tail_reader := (tail_reader p).1 |}.
Definition attach (w : Wire) (m : BodyState BodyRd) : BodyState (BodyRd * Wire) :=
  body_state (attach_reader w <$> BodyReader m) (Body m) (bodyLoaded m) (bodyErr m) (bodyOnce m).
Definition detach (m : BodyState (BodyRd * Wire)) : BodyState BodyRd :=
  body_state (detach_reader <$> BodyReader m) (Body m) (bodyLoaded m) (bodyErr m) (bodyOnce m).
Definition wire_of (w : Wire) (m : BodyState (BodyRd * Wire)) : Wire :=
  match BodyReader m with Some p => (tail_reader p).2 | None => w end.

(** ** Receiving and draining *)

Inductive LifecycleError :=
| DeadlineFailed
| PreviewNotChunked
| PreviewTooLong (limit : Z)
| PreviewTerminatorMissing
| PreviewExceedsDeclared (received declared : Z)
| BodyFailed (e : BodyError)
| BodyTooLarge (maxBytes : Z).

(** [BodyTooLarge] is the server's own [ErrBodyTooLarge]; the one of [pkg/icap] is
    another value, [BodyFailed (ErrBodyTooLarge _)] here. *)

Section Receive.
Context (cfg : ServerConfig) (size : nat).
Context (grow : nat → nat → nat) (fuel : nat) (sizes : nat → nat).
#[local] Existing Instance Wired_Reader.
#[local] Instance Wired : Reader (BodyRd * Wire) := Wired_Reader cfg size.

Definition loadHTTPMessageBody (maxBytes hint : Z) (m : BodyState BodyRd) (w : Wire)
  : body_result * BodyState BodyRd * Wire :=
  let '(res, m') := if maxBytes <=? 0 then GetBody grow fuel sizes hint (attach w m)
                    else GetBodyLimited grow fuel sizes maxBytes hint (attach w m) in
  (res, detach m', wire_of w m').

Definition receiveHTTPMessageBody (maxBytes hint : Z) (message : option (BodyState BodyRd)) (w : Wire)
  : option LifecycleError * option (BodyState BodyRd) * Wire :=
  match message with
  | None => (None, None, w)
  | Some m =>
      if bodyLoaded m || negb (bool_decide (is_Some (BodyReader m))) then (None, Some m, w)
      else
        match loadHTTPMessageBody maxBytes hint m w with
        | (Err e, m, w) => (Some (BodyFailed e), Some m, w)
        | (Ok body, m, w) => (None, Some (SetLoadedBody body m), w)
        end
  end.

(** [io.ReadAll] of a reader limited to [maxBytes + 1] bytes; its [N] counts down. *)
Definition readLimitedBody (r : Prefixed BodyRd) (maxBytes : Z) (w : Wire)
  : result LifecycleError (list ascii) * Prefixed BodyRd * Wire :=
  let limit := if maxBytes <=? 0 then None else Some (add64 maxBytes 1) in
  match readAllLoop fuel sizes 0 limit (attach_reader w r) [] with
  | None => (Err (BodyFailed OutOfFuel), r, w)
  | Some (data, err, r) =>
      (match err with
       | Some e => Err (BodyFailed (ReadFailed e))
       | None =>
           if (0 <? maxBytes) && (sub64 (add64 maxBytes 1) (Z.of_nat (length data)) =? 0)
           then Err (BodyTooLarge maxBytes)
           else Ok data
       end, detach_reader r, (tail_reader r).2)
  end.

(** [io.Copy] to nowhere under the same limit. *)
Definition drainLimited (r : Prefixed BodyRd) (maxBytes : Z) (w : Wire) : option LifecycleError * Prefixed BodyRd * Wire :=
  match readLimitedBody r maxBytes w with
  | (Err e, r, w) => (Some e, r, w)
  | (Ok _, r, w) => (None, r, w)
  end.

Definition drainHTTPMessageBody (maxBytes : Z) (message : option (BodyState BodyRd)) (w : Wire)
  : option LifecycleError * option (BodyState BodyRd) * Wire :=
  match message with
  | None => (None, None, w)
  | Some m =>
      match BodyReader m with
      | None => (None, Some m, w)
      | Some r =>
          match drainLimited r maxBytes w with
          | (Some e, r, w) => (Some e, Some (set_reader (Some r) m), w)
          | (None, _, w) => (None, Some (set_reader None m), w)
          end
      end
  end.

Definition has_reader (m : option (BodyState BodyRd)) : bool :=
  match m with Some m => bool_decide (is_Some (BodyReader m)) | None => false end.

Definition hasHTTPBodyReader (r : LRequest) : bool := has_reader (l_request r) || has_reader (l_response r).

Definition shouldDrainRawBody (r : LRequest) : bool :=
  bool_decide (is_Some (BodyReader (l_raw r))) && negb (bool_decide (is_Some (l_request r)))
  && negb (bool_decide (is_Some (l_response r)))
  && (HasReqBody (r_Encapsulated (l_head r)) || HasResBody (r_Encapsulated (l_head r))).

Definition rechunk (r : Prefixed BodyRd) : Prefixed BodyRd :=
  match segments r with [] => plain (asChunked (tail_reader r)) | _ => r end.

Definition drainRawChunkedBody (maxBytes : Z) (m : BodyState BodyRd) (w : Wire)
  : option LifecycleError * BodyState BodyRd * Wire :=
  match BodyReader m with
  | None => (None, m, w)
  | Some r =>
      match drainLimited (rechunk r) maxBytes w with
      | (Some e, r, w) => (Some e, set_reader (Some r) m, w)
      | (None, _, w) => (None, set_reader None m, w)
      end
  end.

Definition receiveRawChunkedBody (maxBytes : Z) (m : BodyState BodyRd) (w : Wire)
  : option LifecycleError * BodyState BodyRd * Wire :=
  if bodyLoaded m then (None, m, w)
  else
    match BodyReader m with
    | None => (None, m, w)
    | Some r =>
        match readLimitedBody (rechunk r) maxBytes w with
        | (Err e, r, w) => (Some e, set_reader (Some r) m, w)
        | (Ok body, _, w) => (None, SetLoadedBody (Some body) m, w)
        end
    end.

(** The two walk over the bodies of a request in the same way: the HTTP request, the
    HTTP response and, when neither had a reader, the raw body. *)
Definition over_bodies
    (http : option HTTPMessage → option (BodyState BodyRd) → Wire → option LifecycleError * option (BodyState BodyRd) * Wire)
    (raw : BodyState BodyRd → Wire → option LifecycleError * BodyState BodyRd * Wire)
    (r : LRequest) (w : Wire) : option LifecycleError * LRequest * Wire :=
  let hadHTTPBodyReader := hasHTTPBodyReader r in
  let '(e1, m1, w) := http (HTTPRequest (l_head r)) (l_request r) w in
  let r := with_request m1 r in
  match e1 with
  | Some e => (Some e, r, w)
  | None =>
      let '(e2, m2, w) := http (HTTPResponse (l_head r)) (l_response r) w in
      let r := with_response m2 r in
      match e2 with
      | Some e => (Some e, r, w)
      | None =>
          if negb hadHTTPBodyReader && shouldDrainRawBody r then
            let '(e3, b, w) := raw (l_raw r) w in (e3, with_raw b r, w)
          else (None, r, w)
      end
  end.

Definition receiveBodies (r : LRequest) (maxBytes : Z) (w : Wire) : option LifecycleError * LRequest * Wire :=
  over_bodies (λ head, receiveHTTPMessageBody maxBytes (contentLengthHint head)) (receiveRawChunkedBody maxBytes) r w.

Definition drainBodies (r : LRequest) (maxBytes : Z) (w : Wire) : option LifecycleError * LRequest * Wire :=
  over_bodies (λ _, drainHTTPMessageBody maxBytes) (drainRawChunkedBody maxBytes) r w.

Definition drainRequestBodies (r : LRequest) (w : Wire) : option LifecycleError * LRequest * Wire :=
  match setDrainReadDeadline cfg w with
  | (Some _, w) => (Some DeadlineFailed, r, w)
  | (None, w) => drainBodies r (drainBodyLimit cfg) w
  end.

(** ** Previews *)

Definition shouldDeferBodyReceive (r : LRequest) : bool := IsPreviewMode (l_head r).

(** The side a preview is of, as a lens. *)
Definition previewBodyMessage (r : LRequest) : option (option (BodyState BodyRd) * (option (BodyState BodyRd) → LRequest)) :=
  if bool_decide (r_Method (l_head r) = MethodREQMOD) then Some (l_request r, λ m, with_request m r)
  else if bool_decide (r_Method (l_head r) = MethodRESPMOD) then Some (l_response r, λ m, with_response m r)
  else None.

Definition previewLimit (r : LRequest) : Z :=
  let limit := r_Preview (l_head r) in
  if (0 <? drainBodyLimit cfg) && (drainBodyLimit cfg <? limit) then drainBodyLimit cfg else limit.

(** Reading the preview through the message's chunked reader [c]. *)
Definition readPreview (declared limit : Z) (c : ChunkRd) (m : BodyState BodyRd) (w : Wire)
  : option LifecycleError * BodyState BodyRd * Wire :=
  let c := with_chunk_state (EnablePreview (chunk_state c)) c in
  match readAllLoop fuel sizes 0 (Some (add64 limit 1)) (Chunks c, w) [] with
  | None => (Some (BodyFailed OutOfFuel), m, w)
  | Some (preview, err, (rd, w)) =>
      let c := match rd with Chunks c => c | _ => c end in
      let left := set_reader (Some (plain rd)) m in
      match err with
      | Some e => (Some (BodyFailed (ReadFailed e)), left, w)
      | None =>
          if limit <? Z.of_nat (length preview) then (Some (PreviewTooLong limit), left, w)
          else
            let '(atBoundary, ieof) := PreviewBoundary (chunk_state c) in
            if negb atBoundary then (Some PreviewTerminatorMissing, left, w)
            else if declared <? Z.of_nat (length preview)
            then (Some (PreviewExceedsDeclared (Z.of_nat (length preview)) declared), left, w)
            else if ieof : bool then (None, SetLoadedBody (Some preview) m, w)
            else (None, set_reader (Some (plain (newDeferredPreviewBodyReader preview (newContinuation c)))) m, w)
      end
  end.

Definition receivePreviewBody (r : LRequest) (w : Wire) : option LifecycleError * LRequest * Wire :=
  match previewBodyMessage r with
  | None | Some (None, _) => (None, r, w)
  | Some (Some m, put) =>
      match bodyLoaded m, BodyReader m with
      | true, _ | _, None => (None, r, w)
      | false, Some {| segments := []; tail_reader := Chunks c |} =>
          match setActiveReadDeadline cfg w with
          | (Some _, w) => (Some DeadlineFailed, r, w)
          | (None, w) =>
              let '(e, m, w) := readPreview (r_Preview (l_head r)) (previewLimit r) c m w in (e, put (Some m), w)
          end
      | false, Some _ => (Some PreviewNotChunked, r, w)
      end
  end.

Definition receiveRequestBodies (r : LRequest) (w : Wire) : option LifecycleError * LRequest * Wire :=
  if shouldDeferBodyReceive r then receivePreviewBody r w
  else
    match setActiveReadDeadline cfg w with
    | (Some _, w) => (Some DeadlineFailed, r, w)
    | (None, w) => receiveBodies r (drainBodyLimit cfg) w
    end.

(** The request's context is given to the reader left after a preview. *)
Definition with_ctx (done : bool) (m : BodyState BodyRd) : BodyState BodyRd :=
  match BodyReader m with
  | Some {| segments := []; tail_reader := Deferred preview unread k |} =>
      set_reader (Some (plain (Deferred preview unread
        {| k_reader := k_reader k; k_err := k_err k; k_once := k_once k; k_ctx := Some done; k_materialized := k_materialized k |}))) m
  | _ => m
  end.

Definition setPreviewContinuationContext (done : bool) (r : LRequest) : LRequest :=
  match previewBodyMessage r with
  | Some (Some m, put) => put (Some (with_ctx done m))
  | _ => r
  end.

Definition body_loaded (m : option (BodyState BodyRd)) : bool :=
  match m with Some m => bodyLoaded m | None => true end.

Definition requestBodiesLoaded (r : LRequest) : bool :=
  body_loaded (l_request r) && body_loaded (l_response r) && bodyLoaded (l_raw r).

Definition shouldDrainAfterResponse (r : LRequest) : bool := negb (shouldDeferBodyReceive r) || requestBodiesLoaded r.
End Receive.

(** ** The first byte of a request *)

(** [requestDeadlineReader]: [activate] runs at the first byte. An error may be two,
    joined; no error is the empty list. *)
Record requestDeadlineReader := { rd_started : bool; rd_activated : bool }.

Definition newRequestDeadlineReader : requestDeadlineReader := {| rd_started := false; rd_activated := false |}.

Section FirstByte.
Context {W R : Type} `{Reader R} (activate : option (W → option ReadError * W)) (size fuel : nat).

Definition activateOnce (readErr : option ReadError) (r : requestDeadlineReader) (w : W) : list ReadError * requestDeadlineReader * W :=
  let r := {| rd_started := true; rd_activated := rd_activated r |} in
  match activate with
  | None => (option_list readErr, r, w)
  | Some activate =>
      if rd_activated r then (option_list readErr, r, w)
      else
        let '(deadlineErr, w) := activate w in
        (option_list readErr ++ option_list deadlineErr, {| rd_started := true; rd_activated := true |}, w)
  end.

(** What the methods of the reader do with an answer of the reader under it. *)
Definition answered (p : list ascii) (e : option ReadError) (r : requestDeadlineReader) (w : W)
  : list ascii * list ReadError * requestDeadlineReader * W :=
  if (0 <? length p)%nat then let '(es, r, w) := activateOnce e r w in (p, es, r, w) else (p, option_list e, r, w).

Definition deadlineRead (len : nat) (pb : pooledBuffer R) (r : requestDeadlineReader) (w : W)
  : list ascii * list ReadError * pooledBuffer R * requestDeadlineReader * W :=
  let '(p, e, pb) := readBuffer size len pb in
  let '(p, es, r, w) := answered p e r w in (p, es, pb, r, w).

Definition deadlineReadByte (pb : pooledBuffer R) (r : requestDeadlineReader) (w : W)
  : list ascii * list ReadError * pooledBuffer R * requestDeadlineReader * W :=
  match ReadByte size pb with
  | (Ok b, pb) => let '(es, r, w) := activateOnce None r w in ([b], es, pb, r, w)
  | (Err e, pb) => ([], [e], pb, r, w)
  end.

Definition deadlineReadBoundedLine (limit : Z) (pb : pooledBuffer R) (r : requestDeadlineReader) (w : W)
  : option (list ascii * list ReadError * pooledBuffer R * requestDeadlineReader * W) :=
  '(line, e, pb) ← ReadBoundedLine size fuel limit pb;
  let '(line, es, r, w) := answered line e r w in Some (line, es, pb, r, w).

Definition deadlineReadString (delim : ascii) (pb : pooledBuffer R) (r : requestDeadlineReader) (w : W)
  : option (list ascii * list ReadError * pooledBuffer R * requestDeadlineReader * W) :=
  '(line, e, pb) ← ReadBytes size fuel delim pb;
  let '(line, es, r, w) := answered line e r w in Some (line, es, pb, r, w).

(** The line reader for a reader that only has [ReadByte]; [k] is how much of the
    limit is left. *)
Fixpoint readBoundedLineBytesFrom (k : nat) (line : list ascii) (pb : pooledBuffer R) : list ascii * option ReadError * pooledBuffer R :=
  match k with
  | O => (line, Some ErrShortBuffer, pb)
  | S k =>
      match ReadByte size pb with
      | (Err e, pb) => (line, Some e, pb)
      | (Ok b, pb) =>
          if bool_decide (b = LF) then (line ++ [b], None, pb) else readBoundedLineBytesFrom k (line ++ [b]) pb
      end
  end.

Definition readBoundedLineBytes (limit : Z) (pb : pooledBuffer R) : list ascii * option ReadError * pooledBuffer R :=
  if limit <=? 0 then ([], Some ErrShortBuffer, pb) else readBoundedLineBytesFrom (Z.to_nat limit) [] pb.
End FirstByte.

Definition isDeadlineSetupError (es : list ReadError) : bool := bool_decide (DeadlineSetup ∈ es).

(** ** Closing *)

Definition headerValueHasToken (value token : string) : bool :=
  existsb (λ part, equal_fold (trim_space part) token) (split_byte value ",").

Definition headerHasToken (h : Header) (key token : string) : bool :=
  match Get h key with Some value => headerValueHasToken value token | None => false end.

(** What of a response decides about the connection: its headers and its own flag. *)
Definition shouldCloseAfterResponse (h : Header) (closeAfterWrite : bool) : bool :=
  closeAfterWrite || headerHasToken h "Connection" "close".

(** ** Why a connection is closed *)

Definition isNetTimeout (e : ReadError) : bool := bool_decide (e = NetTimeout).

Definition connectionReadCloseReason (e : ReadError) (keepAliveWait : bool) : string :=
  if bool_decide (e = EOF) then "client_closed"
  else if isNetTimeout e then (if keepAliveWait then "idle_timeout" else "read_timeout")
  else "read_error".

(** [None] is an error of the parser that no read caused. *)
Definition parseErrorCloseReason (e : option ReadError) (started keepAliveWait : bool) : string :=
  if negb started then match e with Some e => connectionReadCloseReason e keepAliveWait | None => "read_error" end
  else
    match e with
    | Some NetTimeout => "read_timeout"
    | Some EOF => "client_closed_mid_request"
    | _ => "malformed_request"
    end.

(** What is noted about a request that could not be parsed: nothing when the client
    left between two requests, a warning and a count when it idled too long. *)
Inductive ParseNote := NoteDeadline | NoteNothing | NoteIdle | NoteFailure (reason : string).

Definition handleParseError (cfg : ServerConfig) (e : option ReadError) (started keepAliveWait : bool) : ParseNote :=
  match e with
  | Some DeadlineSetup => NoteDeadline
  | _ =>
      if negb started && (bool_decide (e = Some EOF) || bool_decide (e = Some NetClosed)) then NoteNothing
      else if bool_decide (e = Some NetTimeout) && negb started && keepAliveWait && (0 <? cfg_IdleTimeout cfg) then NoteIdle
      else NoteFailure (parseErrorCloseReason e started keepAliveWait)
  end.

Definition bodyReceiveErrorType (e : LifecycleError) : string :=
  match e with
  | BodyTooLarge _ => "body_too_large"
  | BodyFailed (ReadFailed NetTimeout) => "deadline_exceeded"
  | _ => "body_receive_failed"
  end.
