(* ===== verification/LifecycleSpec.v ===== *)
(** * What the lifecycle does to a connection

    Taking the bodies of a request leaves the connection exactly behind them; the
    preview exchange asks for the rest of a body at most once, and only when it is
    read; the first byte of a request changes the deadline once. *)
From S2P Require Import Prelude GoInt GoStrings Header Chunked Protocol Message Connection Lifecycle.

Local Open Scope Z_scope.

(** ** Writing the interim response *)

(** What was given to the writer so far, and a writer that works. *)
Definition sent (w : Wire) : list ascii := out (bw_w (w_out w)) ++ bw_buf (w_out w).

Definition writable (w : Wire) : Prop :=
  w_closed w = false ∧ bw_closed (w_out w) = false ∧ room (bw_w (w_out w)) = None.

Lemma writable_in s w : writable w → writable (with_in s w).
Proof. done. Qed.

Lemma SetDeadline_ok d w : w_closed w = false →
  ∃ w', SetDeadline d w = (None, w') ∧ w_in w' = w_in w ∧ w_ending w' = w_ending w ∧ w_out w' = w_out w ∧
        w_closed w' = false ∧ w_deadlines w' = w_deadlines w ++ [d].
Proof. intros H. unfold SetDeadline. rewrite H. by eexists. Qed.

Lemma flush_sent (o : bufferedWriter Sink) : bw_closed o = false → room (bw_w o) = None →
  ∃ o', flushLocked sink_write o = (None, o') ∧ bw_closed o' = false ∧ room (bw_w o') = None ∧
        bw_buf o' = [] ∧ out (bw_w o') = out (bw_w o) ++ bw_buf o.
Proof.
  destruct o as [buf c [o r]]. cbn. intros -> ->. unfold flushLocked. cbn [bw_buf bw_w bw_closed].
  destruct buf; [by eexists; rewrite app_nil_r|]. cbn [length Nat.eqb]. unfold sink_write. cbn [room]. by eexists.
Qed.

Lemma WriteString_sent size s (o : bufferedWriter Sink) : s ≠ "" → bw_closed o = false → room (bw_w o) = None →
  ∃ n o', WriteString sink_write size s o = (n, None, o') ∧ bw_closed o' = false ∧ room (bw_w o') = None ∧
        out (bw_w o') ++ bw_buf o' = (out (bw_w o) ++ bw_buf o) ++ bytes_of s.
Proof.
  intros Hs Hc Hr. unfold WriteString. rewrite Hc. unfold writeLocked.
  destruct (Nat.eqb_spec (length (bytes_of s)) 0) as [E|_]; [by destruct s|].
  destruct (Nat.ltb_spec (size - length (bw_buf o)) (length (bytes_of s))).
  - destruct (flush_sent o Hc Hr) as (o' & -> & Hc' & Hr' & Hb & Ho). destruct (Nat.leb_spec size (length (bytes_of s))).
    + unfold sink_write. rewrite Hr'. do 2 eexists. split; [done|]. cbn. rewrite Hb, Ho, app_nil_r. done.
    + do 2 eexists. split; [done|]. cbn. by rewrite Hb, Ho.
  - do 2 eexists. split; [done|]. cbn. by rewrite app_assoc.
Qed.

Lemma continueWrite_ok size w : writable w →
  ∃ w', continueWrite size w = (None, w') ∧ writable w' ∧ w_in w' = w_in w ∧ w_ending w' = w_ending w ∧
        sent w' = sent w ++ bytes_of continueMessage ∧ bw_buf (w_out w') = [] ∧ w_deadlines w' = w_deadlines w.
Proof.
  intros (Ho & Hc & Hr). unfold continueWrite.
  destruct (WriteString_sent size continueMessage (w_out w) ltac:(done) Hc Hr) as (n & o & -> & Hc1 & Hr1 & Hs).
  unfold Flush. rewrite Hc1. destruct (flush_sent o Hc1 Hr1) as (o' & -> & Hc2 & Hr2 & Hb & Hs2).
  eexists. split; [done|]. split_and!; try done. unfold sent. cbn. by rewrite Hb, Hs2, app_nil_r.
Qed.

Section Wired.
Context (cfg : ServerConfig) (size : nat).
#[local] Instance WiredR : Reader (BodyRd * Wire) := Wired_Reader cfg size.

Lemma continueBody_ok k w cr : writable w → ContinueAfterPreview (chunk_state (k_reader k)) = Ok cr →
  ∃ w', continueBody cfg size k w = (with_k (with_chunk_state cr (k_reader k)) None true k, w') ∧ writable w' ∧
        w_in w' = w_in w ∧ w_ending w' = w_ending w ∧ sent w' = sent w ++ bytes_of continueMessage ∧ bw_buf (w_out w') = [].
Proof.
  intros (Ho & Hc & Hr) Hk. unfold continueBody.
  assert (∃ w1, continueWriteDeadline cfg w = (None, w1) ∧ writable w1 ∧ w_in w1 = w_in w ∧ w_ending w1 = w_ending w ∧ sent w1 = sent w)
    as (w1 & -> & Hw1 & Hi1 & He1 & Hs1).
  { unfold continueWriteDeadline. destruct (_ <? _); [|by exists w]. unfold SetWriteDeadline.
    destruct (SetDeadline_ok (WriteBy (Some (cfg_WriteTimeout cfg))) w Ho) as (w1 & -> & Hi & He & Hou & Hcl & _).
    exists w1. unfold writable, sent. rewrite Hou. by split_and!. }
  destruct (continueWrite_ok size w1 Hw1) as (w2 & -> & Hw2 & Hi2 & He2 & Hs2 & Hb2 & _).
  unfold setActiveReadDeadline, SetReadDeadline.
  destruct (SetDeadline_ok (ReadBy (Some (activeTimeout cfg))) w2 (proj1 Hw2)) as (w3 & -> & Hi3 & He3 & Ho3 & Hcl3 & _).
  rewrite Hk. exists w3. unfold writable, sent in *. rewrite Ho3. destruct Hw2 as (_ & ? & ?).
  split_and!; try done; congruence.
Qed.

(** ** What is left of a body *)

Definition chunk_conn (c : ChunkRd) (w : Wire) : ChunkedConn :=
  match c with
  | OnConn cr => {| cc_reader := cr; cc_source := w_in w; cc_ending := w_ending w |}
  | OnSection cr data => {| cc_reader := cr; cc_source := data; cc_ending := EOF |}
  end.

(** The reader has the bytes [bs] of its body to deliver, and the connection will
    then stand at [rest]; [cr] is its state between chunks. *)
Definition chunks_hold (cr : ChunkedReader) (ext : string) (c : ChunkRd) (w : Wire) (bs rest : list ascii) : Prop :=
  between cr ∧ ext_ok ext ∧
  match c with
  | OnConn _ => body_holds cr ext (chunk_conn c w) bs rest
  | OnSection _ _ => (∃ tail, body_holds cr ext (chunk_conn c w) bs tail) ∧ w_in w = rest
  end.

Definition continuation_holds (k : Continuation) (w : Wire) (bs rest : list ascii) : Prop :=
  k_ctx k ≠ Some true ∧ k_err k = None ∧
  if k_once k then ∃ cr ext, chunks_hold cr ext (k_reader k) w bs rest
  else writable w ∧ ∃ cr ext, ContinueAfterPreview (chunk_state (k_reader k)) = Ok cr ∧
         chunks_hold cr ext (with_chunk_state cr (k_reader k)) w bs rest.

Definition wired_holds (rest : list ascii) (rw : BodyRd * Wire) (bs : list ascii) : Prop :=
  match rw.1 with
  | Plain => False
  | Chunks c => ∃ cr ext, chunks_hold cr ext c rw.2 bs rest
  | Deferred _ unread k => ∃ bs', bs = unread ++ bs' ∧ continuation_holds k rw.2 bs' rest
  end.

Lemma readChunks_step cr ext c w bs rest len : chunks_hold cr ext c w bs rest → (0 < len)%nat →
  match readChunks len c w with
  | (p, None, c', w') => p ≠ [] ∧ (length p ≤ len)%nat ∧ ∃ bs', bs = p ++ bs' ∧ chunks_hold cr ext c' w' bs' rest
  | (p, Some e, c', w') => bs = [] ∧ p = [] ∧ e = EOF ∧ chunks_hold cr ext c' w' [] rest ∧ w_in w' = rest ∧
      chunk_state c' = ended ext cr
  end.
Proof using.
  intros (Hcr & Hext & Hc) Hlen. destruct c as [cr0|cr0 data]; cbn [readChunks].
  - pose proof (conn_step cr ext _ bs rest len Hcr Hext Hc Hlen) as Hs.
    unfold reader_read, ChunkedConn_Reader in Hs. cbn [chunk_conn cc_ending cc_reader cc_source] in Hs.
    destruct (Read (w_ending w) len cr0 (w_in w)) as [[[p [e|]] cr'] s].
    + destruct Hs as (-> & -> & -> & E). injection E as -> ->. split_and!; try done. split_and!; [done..|]. right; right. done.
    + destruct Hs as (Hp & Hl & _ & bs' & -> & Hh). split_and!; [done|done|]. exists bs'. by split_and!.
  - destruct Hc as ((tail & Hc) & Hw). pose proof (conn_step cr ext _ bs tail len Hcr Hext Hc Hlen) as Hs.
    unfold reader_read, ChunkedConn_Reader in Hs. cbn [chunk_conn cc_ending cc_reader cc_source] in Hs.
    destruct (Read EOF len cr0 data) as [[[p [e|]] cr'] s].
    + destruct Hs as (-> & -> & -> & E). injection E as -> ->. split_and!; try done. split_and!; [done|done| |done]. exists tail. right; right. done.
    + destruct Hs as (Hp & Hl & _ & bs' & -> & Hh). split_and!; [done|done|]. exists bs'. split; [done|]. split_and!; [done|done| |done]. by exists tail.
Qed.

Lemma readContinuation_step k w bs rest len : continuation_holds k w bs rest → (0 < len)%nat →
  match readContinuation cfg size len k w with
  | (p, None, k', w') => p ≠ [] ∧ (length p ≤ len)%nat ∧ ∃ bs', bs = p ++ bs' ∧ continuation_holds k' w' bs' rest
  | (p, Some e, k', w') => bs = [] ∧ p = [] ∧ e = EOF ∧ continuation_holds k' w' [] rest ∧ w_in w' = rest
  end.
Proof using.
  intros (Hctx & Herr & Hk) Hlen. unfold readContinuation.
  assert (∃ k1 w1 cr ext, (if k_once k then (k, w) else continueBody cfg size k w) = (k1, w1) ∧ k_err k1 = None ∧ k_once k1 = true ∧
          k_ctx k1 = k_ctx k ∧ chunks_hold cr ext (k_reader k1) w1 bs rest) as (k1 & w1 & cr & ext & E & He1 & Ho1 & Hc1 & Hh).
  { destruct (k_once k) eqn:Ho.
    - destruct Hk as (cr & ext & Hh). by exists k, w, cr, ext.
    - destruct Hk as (Hw & cr & ext & Hcont & Hh). destruct (continueBody_ok k w cr Hw Hcont) as (w1 & -> & Hw1 & Hi & Hen & _).
      exists (with_k (with_chunk_state cr (k_reader k)) None true k), w1, cr, ext. split_and!; try done.
      destruct Hh as (? & ? & Hh). split_and!; [done|done|]. cbn [with_k k_reader].
      destruct (k_reader k) as [c0|c0 d]; cbn in *; by rewrite ?Hi, ?Hen in *. }
  rewrite E, He1. pose proof (readChunks_step cr ext (k_reader k1) w1 bs rest len Hh Hlen) as Hs.
  destruct (k_ctx k) as [[]|] eqn:Hx; [done| |];
    (destruct (readChunks len (k_reader k1) w1) as [[[p [e|]] c'] w2];
     [destruct Hs as (-> & -> & -> & Hc2 & Hw2 & _); split_and!; try done; split; [|split]|
      destruct Hs as (Hp & Hl & bs' & -> & Hc2); split_and!; [done|done|]; exists bs'; split; [done|]; split; [|split]];
     cbn; rewrite ?Hc1, ?Ho1; try done; by exists cr, ext).
Qed.

Lemma wired_step rest rw bs len : wired_holds rest rw bs → (0 < len)%nat →
  match reader_read len rw with
  | (p, None, rw') => p ≠ [] ∧ (length p ≤ len)%nat ∧ ∃ bs', bs = p ++ bs' ∧ wired_holds rest rw' bs'
  | (p, Some e, rw') => bs = [] ∧ p = [] ∧ e = EOF ∧ wired_holds rest rw' [] ∧ w_in rw'.2 = rest
  end.
Proof using.
  destruct rw as [[|c|preview unread k] w]; unfold wired_holds; cbn [fst snd]; [done| |].
  - intros (cr & ext & Hh) Hlen. pose proof (readChunks_step cr ext c w bs rest len Hh Hlen) as Hs.
    unfold reader_read, WiredR, Wired_Reader. destruct (readChunks len c w) as [[[p [e|]] c'] w'].
    + destruct Hs as (-> & -> & -> & Hc & Hw & _). split_and!; try done. by exists cr, ext.
    + destruct Hs as (Hp & Hl & bs' & -> & Hc). split_and!; [done|done|]. exists bs'. split; [done|]. by exists cr, ext.
  - intros (bs1 & -> & Hk) Hlen. unfold reader_read, WiredR, Wired_Reader. destruct unread as [|b u].
    + pose proof (readContinuation_step k w bs1 rest len Hk Hlen) as Hs.
      destruct (readContinuation cfg size len k w) as [[[p [e|]] k'] w'].
      * destruct Hs as (-> & -> & -> & Hc & Hw). split_and!; try done. by exists [].
      * destruct Hs as (Hp & Hl & bs' & -> & Hc). split_and!; [done|done|]. exists bs'. split; [done|]. by exists bs'.
    + destruct len as [|len]; [lia|]. split_and!; [done|rewrite length_take; lia|].
      exists (drop (S len) (b :: u) ++ bs1). split; [by rewrite app_assoc, take_drop|]. by exists bs1.
Qed.

(** The interface of the readers of [pkg/icap], for a connection that will stand at
    [rest]. *)
#[local] Program Instance WiredLaws (rest : list ascii) : ReaderLaws (BodyRd * Wire) :=
  {| delivers := λ rw bs e, e = EOF ∧ wired_holds rest rw bs |}.
Next Obligation.
  intros rest rw bs e len (-> & Hw) Hlen. pose proof (wired_step rest rw bs len Hw Hlen) as Hs.
  destruct (reader_read len rw) as [[p [e|]] rw'].
  - destruct Hs as (-> & -> & -> & Hw' & _). split_and!; [done|simpl; lia|done|done|done].
  - destruct Hs as (Hp & Hl & bs' & -> & Hw'). split_and!; [done|done|]. by exists bs'.
Qed.

Context (grow : nat → nat → nat) (fuel : nat) (sizes : nat → nat).
Hypothesis Hgrow : ∀ c n, (n ≤ grow c n)%nat.
Hypothesis Hsizes : ∀ i, (0 < sizes i)%nat.

(** The limit in force: none when it is not positive. *)
Definition body_limit (maxBytes : Z) : Z := if maxBytes <=? 0 then -1 else maxBytes.

Definition loaded_body (bs : list ascii) (once : bool) : BodyState BodyRd := body_state None (Some bs) true None once.

Lemma load_attached maxBytes hint rd w :
  loadHTTPMessageBody cfg size grow fuel sizes maxBytes hint (fresh_body (Some rd)) w =
  let '(res, m') := lazyLoadBodyLimitedWithCapacity grow fuel sizes (body_limit maxBytes) hint
                      (body_state (Some (attach_reader w (plain rd))) None false None false) in
  (res, detach m', wire_of w m').
Proof using. unfold loadHTTPMessageBody, body_limit. by destruct (maxBytes <=? 0). Qed.

Lemma body_limit_max maxBytes : maxBytes < max_int64 → body_limit maxBytes < max_int64.
Proof using. unfold body_limit, max_int64. destruct (Z.leb_spec maxBytes 0); lia. Qed.

(** A load that succeeds ends with a read that returned an error. *)
Lemma load_last (I : BodyRd * Wire → Prop) maxBytes hint rd w b m' w' :
  (∀ rw len p rw', I rw → (0 < len)%nat → reader_read len rw = (p, None, rw') → I rw' ∧ (length p ≤ len)%nat) →
  I (rd, w) → maxBytes < max_int64 →
  loadHTTPMessageBody cfg size grow fuel sizes maxBytes hint (fresh_body (Some rd)) w = (Ok b, m', w') →
  ∃ rw len p e rd', I rw ∧ (0 < len)%nat ∧ reader_read len rw = (p, Some e, (rd', w')).
Proof using Hgrow Hsizes.
  intros HI Hr Hmax%body_limit_max E. rewrite load_attached in E. unfold lazyLoadBodyLimitedWithCapacity, loadOnce in E.
  cbn [bodyOnce BodyReader Body bodyLoaded bodyErr body_state] in E.
  destruct (readAllLimitedWithCapacity _ _ _ _ _ _) as [[data|er] r'] eqn:Er; [|done]. cbn [bodyErr body_state] in E.
  assert (w' = (tail_reader r').2) as -> by (destruct (_ && _) in E; [done|by injection E]).
  destruct (readAllLimited_last grow (λ r : Prefixed (BodyRd * Wire), I (tail_reader r)) Hgrow) with (2 := Hsizes) (4 := Hmax) (5 := Er)
    as (r & len & p & e & Hir & Hlen & Ed); [|done|].
  - intros r len p r1 Hir Hlen Ed. unfold reader_read, Prefixed_Reader in Ed. destruct (read_segments len (segments r)) as [[q segs]|] eqn:Es.
    + injection Ed as <- <-. split; [done|]. by apply read_segments_spec in Es as (_ & Hl & _).
    + destruct (reader_read len (tail_reader r)) as [[q [e|]] t] eqn:Et; [done|]. injection Ed as <- <-. by eapply HI.
  - unfold reader_read, Prefixed_Reader in Ed. destruct (read_segments len (segments r)) as [[q segs]|]; [done|].
    destruct (reader_read len (tail_reader r)) as [[q e'] [rd' wt]] eqn:Et. injection Ed as -> -> <-. by exists (tail_reader r), len, p, e, rd'.
Qed.

Lemma wired_keeps rest rw len p rw' :
  (∃ bs, wired_holds rest rw bs) → (0 < len)%nat → reader_read len rw = (p, None, rw') →
  (∃ bs, wired_holds rest rw' bs) ∧ (length p ≤ len)%nat.
Proof using.
  intros (bs & Hw) Hlen E. pose proof (wired_step rest rw bs len Hw Hlen) as Hs. rewrite E in Hs.
  destruct Hs as (_ & Hl & bs' & _ & Hw'). split; [by exists bs'|done].
Qed.

Lemma load_received maxBytes hint rest rd w bs :
  wired_holds rest (rd, w) bs → (length bs < fuel)%nat → maxBytes < max_int64 →
  ∃ m' w', loadHTTPMessageBody cfg size grow fuel sizes maxBytes hint (fresh_body (Some rd)) w =
    (if within (body_limit maxBytes) bs then Ok (Some bs) else Err (ErrBodyTooLarge (body_limit maxBytes)), m', w') ∧
    (within (body_limit maxBytes) bs = true → w_in w' = rest ∧ bodyOnce m' = true).
Proof using Hgrow Hsizes.
  intros Hw Hf Hmax. pose proof (body_limit_max _ Hmax) as HL. set (r := attach_reader w (plain rd)) in *.
  assert (Hd : delivers (ReaderLaws := Prefixed_Laws (H0 := WiredLaws rest)) r bs EOF) by (by exists bs).
  destruct (readAllLimited_spec grow Hgrow fuel sizes (body_limit maxBytes) hint r bs Hsizes Hd Hf HL) as (r' & E).
  assert (El : ∃ m' w', loadHTTPMessageBody cfg size grow fuel sizes maxBytes hint (fresh_body (Some rd)) w =
    (if within (body_limit maxBytes) bs then Ok (Some bs) else Err (ErrBodyTooLarge (body_limit maxBytes)), m', w') ∧
    (within (body_limit maxBytes) bs = true → bodyOnce m' = true)).
  { rewrite load_attached. unfold lazyLoadBodyLimitedWithCapacity, loadOnce. cbn [bodyOnce BodyReader Body bodyLoaded bodyErr body_state].
    fold r. rewrite E. destruct (within (body_limit maxBytes) bs) eqn:Ew; [|by do 2 eexists]. cbn [bodyErr body_state].
    unfold within in Ew. apply negb_true_iff in Ew. unfold bytes_or_nil. cbn. rewrite Ew. by do 2 eexists. }
  destruct El as (m' & w' & El & Ho). exists m', w'. split; [exact El|]. intros Hin. split; [|auto]. rewrite Hin in El.
  destruct (load_last (λ rw, ∃ bs, wired_holds rest rw bs) maxBytes hint rd w _ m' w' (wired_keeps rest) ltac:(by exists bs) Hmax El)
    as (rw & len & p & e & rd' & (bs1 & Hw1) & Hlen & Ed).
  pose proof (wired_step rest rw bs1 len Hw1 Hlen) as Hs. rewrite Ed in Hs. by destruct Hs as (_ & _ & _ & _ & ?).
Qed.

(** The socket is as it was. *)
Definition same_conn (w w' : Wire) : Prop := w_ending w' = w_ending w ∧ w_closed w' = w_closed w.

Lemma same_conn_trans w1 w2 w3 : same_conn w1 w2 → same_conn w2 w3 → same_conn w1 w3.
Proof using. intros [? ?] [? ?]. split; congruence. Qed.

Lemma readChunks_same len c w p e c' w' : readChunks len c w = (p, e, c', w') → same_conn w w' ∧ w_out w' = w_out w.
Proof using.
  destruct c; cbn [readChunks]; destruct (Read _ _ _ _) as [[[? ?] ?] ?]; intros H; by injection H as <- <- <- <-.
Qed.

(** A read of a chunked body leaves a chunked body and the socket as it was. *)
Lemma wired_read_chunks c1 w1 len p e rw' : reader_read len (Chunks c1, w1) = (p, e, rw') → ∃ c2, rw'.1 = Chunks c2 ∧ same_conn w1 rw'.2.
Proof using.
  intros Er. unfold reader_read, WiredR, Wired_Reader in Er. destruct (readChunks len c1 w1) as [[[p1 e1] c2] w2] eqn:Ec.
  injection Er as <- <- <-. exists c2. split; [done|]. by apply readChunks_same in Ec as [? _].
Qed.

Lemma load_same maxBytes hint rest c w bs b m' w' :
  wired_holds rest (Chunks c, w) bs → maxBytes < max_int64 →
  loadHTTPMessageBody cfg size grow fuel sizes maxBytes hint (fresh_body (Some (Chunks c))) w = (Ok b, m', w') → same_conn w w'.
Proof using Hgrow Hsizes.
  intros Hw Hmax E.
  set (I := λ rw : BodyRd * Wire, (∃ bs, wired_holds rest rw bs) ∧ (∃ c1, rw.1 = Chunks c1) ∧ same_conn w rw.2).
  destruct (load_last I maxBytes hint (Chunks c) w b m' w') with (3 := Hmax) (4 := E)
    as ([rd0 w0] & len & p & e & rd' & (_ & (c1 & E1) & Hs) & Hlen & Ed).
  - intros [rd1 w1] len p rw' (Hb & (c1 & E1) & Hs) Hlen Ed. cbn [fst snd] in *. subst rd1.
    destruct (wired_keeps rest _ len p rw' Hb Hlen Ed) as [Hb' Hl]. destruct (wired_read_chunks _ _ _ _ _ _ Ed) as (c2 & E2 & Hs2).
    split; [|done]. split; [done|]. split; [by exists c2|]. by eapply same_conn_trans.
  - split; [by exists bs|]. split; [by exists c|done].
  - cbn [fst snd] in *. subst rd0. destruct (wired_read_chunks _ _ _ _ _ _ Ed) as (c2 & _ & Hs2). by eapply same_conn_trans.
Qed.

(** ** Requests whose bodies are on the connection *)

(** What the parser left for a body: nothing, a section it took off already, or
    chunks between [s] and [s'] on the connection. *)
Definition carried (b : BodySource) (bs : option (list ascii)) (s s' : list ascii) : Prop :=
  match b with
  | NoBody => bs = None ∧ s = s'
  | SectionChunks data => s = s' ∧ ∃ ps tail, Forall chunk_ok ps ∧ bs = Some (concat ps) ∧ data = encode ps ++ last_chunk ++ tail
  | ConnectionChunks => ∃ ps, Forall chunk_ok ps ∧ bs = Some (concat ps) ∧ s = encode ps ++ last_chunk ++ s'
  end.

(** The body of the ICAP request itself: what follows the head on the connection when
    the request has an Encapsulated header with a body, and no message was parsed. *)
Definition raw_source (req : Request) : BodySource :=
  if shouldDrainRawBody (newLRequest req) then ConnectionChunks else NoBody.

(** The bodies of a request, one behind the other between [s] and [rest]. *)
Definition carries (req : Request) (b1 b2 b3 : option (list ascii)) (s rest : list ascii) : Prop :=
  ∃ s1 s2, carried (from_option m_Body NoBody (HTTPRequest req)) b1 s s1 ∧
           carried (from_option m_Body NoBody (HTTPResponse req)) b2 s1 s2 ∧
           carried (raw_source req) b3 s2 rest.

Definition accepts (bs : option (list ascii)) : bool := from_option (within (body_limit (drainBodyLimit cfg))) true bs.

(** The body after it was received. *)
Definition received (m : option HTTPMessage) (bs : option (list ascii)) : option (BodyState BodyRd) :=
  (λ _, match bs with Some bs => loaded_body bs true | None => fresh_body None end) <$> m.

Lemma carried_holds b bs s s' w rd : carried b (Some bs) s s' → body_reader b = Some rd → w_in w = s →
  wired_holds s' (rd, w) bs.
Proof using.
  destruct b as [| |data]; cbn [carried body_reader]; intros Hc [= <-] Hw; exists NewChunkedReader, "".
  - destruct Hc as (ps & Hps & [= ->] & Hs). split_and!; [done|apply ext_ok_nil|]. right; left. exists ps.
    split_and!; [done..|]. cbn. by rewrite Hw.
  - destruct Hc as (-> & ps & tail & Hps & [= ->] & Hs). split_and!; [done|apply ext_ok_nil| |done]. exists tail. right; left. by exists ps.
Qed.

Lemma carried_reader b bs s s' : carried b bs s s' → bs = None ∧ body_reader b = None ∧ s = s' ∨
  ∃ data rd, bs = Some data ∧ body_reader b = Some rd.
Proof using.
  destruct b; cbn; [intros [-> ->]; by left| |]; right.
  - destruct H as (ps & _ & -> & _). by do 2 eexists.
  - destruct H as (_ & ps & tail & _ & -> & _). by do 2 eexists.
Qed.

Lemma receive_message head bs s s' hint w :
  carried (from_option m_Body NoBody head) bs s s' → w_in w = s →
  (length (default [] bs) < fuel)%nat → drainBodyLimit cfg < max_int64 →
  ∃ e m' w', receiveHTTPMessageBody cfg size grow fuel sizes (drainBodyLimit cfg) hint
      ((λ m, fresh_body (body_reader (m_Body m))) <$> head) w = (e, m', w') ∧
    if accepts bs then e = None ∧ m' = received head bs ∧ w_in w' = s' ∧ same_conn w w'
    else e = Some (BodyFailed (ErrBodyTooLarge (body_limit (drainBodyLimit cfg)))).
Proof using Hgrow Hsizes.
  intros Hc Hw Hf Hmax. unfold receiveHTTPMessageBody. destruct head as [m|]; cbn [fmap option_fmap option_map from_option] in *.
  2: { destruct Hc as [-> ->]. by do 3 eexists. }
  destruct (carried_reader _ _ _ _ Hc) as [(-> & Er & ->)|(data & rd & -> & Er)]; rewrite Er.
  { do 3 eexists. split; [reflexivity|]. by cbn. }
  cbn [bodyLoaded fresh_body body_state fmap option_fmap option_map BodyReader orb]. rewrite bool_decide_true by by eexists. cbn [negb].
  pose proof (carried_holds _ _ _ _ _ _ Hc Er Hw) as Hh.
  destruct (load_received (drainBodyLimit cfg) hint s' rd w data Hh Hf Hmax) as (m' & w' & E & Hin). rewrite E. cbn [accepts from_option].
  destruct (within _ data); [|by do 3 eexists]. destruct (Hin eq_refl) as [Hi Ho].
  assert (Hs : same_conn w w').
  { destruct (m_Body m); cbn [body_reader] in Er; [done| |]; injection Er as <-; by eapply load_same. }
  do 3 eexists. split; [reflexivity|]. split_and!; [done| |done|apply Hs..]. unfold SetLoadedBody. by rewrite Ho.
Qed.

(** A body of the ICAP request itself over the limit has the server's own error. *)
Lemma raw_received bs rest w maxBytes :
  wired_holds rest (Chunks (OnConn NewChunkedReader), w) bs → (length bs < fuel)%nat → maxBytes < max_int64 →
  ∃ e m' w', receiveRawChunkedBody cfg size fuel sizes maxBytes (fresh_body (Some Plain)) w = (e, m', w') ∧
    if within (body_limit maxBytes) bs then e = None ∧ m' = loaded_body bs false ∧ w_in w' = rest ∧ same_conn w w'
    else e = Some (BodyTooLarge maxBytes).
Proof using Hsizes.
  intros Hw Hf Hmax. set (r := attach_reader w (plain (Chunks (OnConn NewChunkedReader)))).
  assert (Hd : delivers (ReaderLaws := Prefixed_Laws (H0 := WiredLaws rest)) r bs EOF) by (by exists bs).
  set (I := λ r : Prefixed (BodyRd * Wire), segments r = [] ∧ (∃ bs, wired_holds rest (tail_reader r) bs) ∧
              (∃ c, (tail_reader r).1 = Chunks c) ∧ same_conn w (tail_reader r).2).
  assert (HI : ∀ r len p r', I r → (0 < len)%nat → reader_read len r = (p, None, r') → I r' ∧ (length p ≤ len)%nat).
  { intros [segs [rd1 w1]] len p r' (E0 & Hb & (c1 & E1) & Hs) Hlen Ed. cbn [segments tail_reader fst snd] in *. subst segs rd1.
    unfold reader_read, Prefixed_Reader in Ed. cbn [segments tail_reader read_segments] in Ed.
    destruct (reader_read len (Chunks c1, w1)) as [[q e] [rd2 w2]] eqn:Er. injection Ed as <- -> <-.
    destruct (wired_keeps rest _ len q _ Hb Hlen Er) as [Hb' Hl]. destruct (wired_read_chunks _ _ _ _ _ _ Er) as (c2 & E2 & Hs2).
    split; [|done]. split_and!; [done|exact Hb'|by exists c2|by eapply same_conn_trans]. }
  assert (HIr : I r) by (split_and!; [done|by exists bs|by eexists|done]).
  assert (Hend : ∀ r', left_by_error I r' → w_in (tail_reader r').2 = rest ∧ same_conn w (tail_reader r').2).
  { intros r' ([segs [rd1 w1]] & len & p & e & (E0 & (bs1 & Hb) & (c1 & E1) & Hs) & Hlen & Ed). cbn [segments tail_reader fst snd] in *. subst segs rd1.
    unfold reader_read, Prefixed_Reader in Ed. cbn [segments tail_reader read_segments] in Ed.
    pose proof (wired_step rest _ bs1 len Hb Hlen) as Hst.
    destruct (reader_read len (Chunks c1, w1)) as [[q e'] [rd2 w2]] eqn:Er. injection Ed as <- -> <-. cbn [tail_reader snd] in *.
    destruct Hst as (_ & _ & _ & _ & Hi). split; [exact Hi|]. destruct (wired_read_chunks _ _ _ _ _ _ Er) as (_ & _ & Hs2). by eapply same_conn_trans. }
  unfold receiveRawChunkedBody, readLimitedBody. cbn [bodyLoaded fresh_body body_state BodyReader fmap option_fmap option_map].
  unfold rechunk. cbn [segments tail_reader asChunked]. fold (plain (Chunks (OnConn NewChunkedReader))). fold r.
  unfold body_limit, within. destruct (Z.leb_spec maxBytes 0) as [H0|H0].
  - destruct (readAllLoop_unlimited (H0 := Prefixed_Laws (H0 := WiredLaws rest)) fuel sizes 0 r bs EOF [] Hsizes Hd Hf) as (r' & E & _).
    change (Wired cfg size) with WiredR. rewrite E. cbn [app normalizeReadAllError].
    rewrite (proj2 (Z.ltb_ge _ _)) by done. cbn [andb]. do 3 eexists. split; [reflexivity|].
    destruct (readAllLoop_last I HI fuel sizes 0 None r [] _ _ r' Hsizes HIr ltac:(done) E) as [Hl|(n & Hn & _)]; [|done].
    destruct (Hend _ Hl) as [? ?]. by split_and!.
  - assert (Ea : add64 maxBytes 1 = maxBytes + 1) by (unfold add64; apply wrap64_id; unfold in_int64, min_int64; lia). rewrite Ea.
    destruct (readAllLoop_limited (H0 := Prefixed_Laws (H0 := WiredLaws rest)) fuel sizes 0 (maxBytes + 1) r bs EOF [] Hsizes Hd ltac:(lia) Hf)
      as (err & r' & E & _ & Herr & _).
    change (Wired cfg size) with WiredR. rewrite E. cbn [app]. rewrite (proj2 (Z.ltb_lt _ _)) by done. cbn [andb].
    replace err with (@None ReadError) by (by destruct Herr as [->|[-> _]]). rewrite length_take.
    assert (Es : ∀ k, 0 ≤ k ≤ maxBytes + 1 → sub64 (maxBytes + 1) k = maxBytes + 1 - k)
      by (intros k Hk; unfold sub64; apply wrap64_id; unfold in_int64, min_int64; lia).
    rewrite Es by lia. rewrite (proj2 (Z.leb_le 0 maxBytes)) by lia. cbn [andb].
    destruct (Z.ltb_spec maxBytes (Z.of_nat (length bs))); cbn [negb].
    + rewrite (proj2 (Z.eqb_eq _ _)) by lia. by do 3 eexists.
    + rewrite (proj2 (Z.eqb_neq _ _)) by lia. rewrite take_ge in * by lia. do 3 eexists. split; [reflexivity|].
      destruct (readAllLoop_last I HI fuel sizes 0 (Some (maxBytes + 1)) r [] _ _ r' Hsizes HIr ltac:(intros n [= <-]; lia) E) as [Hl|(n & Hn & _ & Hl)].
      * destruct (Hend _ Hl) as [? ?]. by split_and!.
      * injection Hn as <-. cbn in Hl. lia.
Qed.

(** The request after its bodies were received. *)
Definition received_request (req : Request) (b1 b2 b3 : option (list ascii)) : LRequest :=
  {| l_head := req; l_request := received (HTTPRequest req) b1; l_response := received (HTTPResponse req) b2;
     l_raw := match b3 with Some bs => loaded_body bs false | None => fresh_body (raw_reader req) end |}.

Lemma received_reader m b : has_reader (received m b) = false.
Proof using. by destruct m, b. Qed.

Lemma received_some m b : bool_decide (is_Some (received m b)) = bool_decide (is_Some m).
Proof using. by destruct m. Qed.

(** Which requests have a body of their own. *)
Lemma raw_source_cases req :
  raw_source req = NoBody ∧
    (∀ b1 b2, shouldDrainRawBody
      (with_response (received (HTTPResponse req) b2) (with_request (received (HTTPRequest req) b1) (newLRequest req))) = false) ∨
  raw_source req = ConnectionChunks ∧ HTTPRequest req = None ∧ HTTPResponse req = None ∧ l_raw (newLRequest req) = fresh_body (Some Plain) ∧
    shouldDrainRawBody (newLRequest req) = true.
Proof using.
  unfold raw_source. destruct (shouldDrainRawBody (newLRequest req)) eqn:E; [right|left].
  - pose proof E as E'. unfold shouldDrainRawBody, newLRequest in E'. cbn [l_raw l_request l_response l_head] in E'.
    apply andb_prop in E' as [[[Hr Hq]%andb_prop Hp]%andb_prop _].
    destruct (HTTPRequest req) eqn:Eq; [discriminate Hq|]. destruct (HTTPResponse req) eqn:Ep; [discriminate Hp|].
    split_and!; try done. unfold newLRequest. cbn [l_raw]. unfold raw_reader in *. by destruct (bool_decide (is_Some (Get (r_Header req) "Encapsulated"))); [|discriminate Hr].
  - split; [done|]. intros b1 b2.
    rewrite <- E. unfold shouldDrainRawBody. cbn [l_raw l_request l_response l_head with_request with_response newLRequest].
    rewrite !received_some. by destruct (HTTPRequest req), (HTTPResponse req).
Qed.

Definition receive_error (b1 b2 : option (list ascii)) : LifecycleError :=
  if accepts b1 && accepts b2 then BodyTooLarge (drainBodyLimit cfg)
  else BodyFailed (ErrBodyTooLarge (body_limit (drainBodyLimit cfg))).

Lemma receiveBodies_spec req b1 b2 b3 s rest w :
  carries req b1 b2 b3 s rest → w_in w = s → (length (default [] b1) + length (default [] b2) + length (default [] b3) < fuel)%nat →
  drainBodyLimit cfg < max_int64 →
  ∃ e r' w', receiveBodies cfg size grow fuel sizes (newLRequest req) (drainBodyLimit cfg) w = (e, r', w') ∧
    if accepts b1 && accepts b2 && accepts b3 then e = None ∧ r' = received_request req b1 b2 b3 ∧ w_in w' = rest ∧ same_conn w w'
    else e = Some (receive_error b1 b2).
Proof using Hgrow Hsizes.
  intros (s1 & s2 & Hc1 & Hc2 & Hc3) Hw Hf Hmax. unfold receiveBodies, over_bodies, receive_error. cbn [newLRequest l_head l_request l_response].
  destruct (receive_message (HTTPRequest req) b1 s s1 (contentLengthHint (HTTPRequest req)) w Hc1 Hw ltac:(lia) Hmax)
    as (e1 & m1 & w1 & -> & H1).
  destruct (accepts b1); cbn [andb]; [|by subst e1; do 3 eexists]. destruct H1 as (-> & -> & Hw1 & Hs1). cbn [with_request l_head l_response newLRequest].
  destruct (receive_message (HTTPResponse req) b2 s1 s2 (contentLengthHint (HTTPResponse req)) w1 Hc2 Hw1 ltac:(lia) Hmax)
    as (e2 & m2 & w2 & -> & H2).
  destruct (accepts b2); [|by subst e2; do 3 eexists]. destruct H2 as (-> & -> & Hw2 & Hs2). cbn [andb].
  fold (newLRequest req). set (r2 := with_response (received (HTTPResponse req) b2) (with_request (received (HTTPRequest req) b1) (newLRequest req))).
  destruct (raw_source_cases req) as [[Er Hr]|(Er & Eq & Ep & El & Hr)]; rewrite Er in Hc3.
  - destruct Hc3 as [-> ->]. assert (Hn : shouldDrainRawBody r2 = false) by apply Hr.
    change (shouldDrainRawBody _) with (shouldDrainRawBody r2). rewrite Hn, andb_false_r. cbn [accepts from_option].
    do 3 eexists. split; [reflexivity|]. split_and!; [done|done|done|..]; by eapply same_conn_trans.
  - destruct Hc3 as (ps & Hps & -> & ->). rewrite Eq, Ep in *. cbn [carried from_option] in Hc1, Hc2.
    destruct Hc1 as [-> ->], Hc2 as [-> ->]. cbn [default from_option length id] in Hf.
    assert (Hr2 : shouldDrainRawBody r2 = true) by (rewrite <- Hr; unfold r2, newLRequest; rewrite Eq, Ep; reflexivity).
    change (shouldDrainRawBody _) with (shouldDrainRawBody r2). rewrite Hr2.
    assert (Hno : hasHTTPBodyReader (newLRequest req) = false) by (unfold hasHTTPBodyReader, newLRequest; by rewrite Eq, Ep).
    change (hasHTTPBodyReader _) with (hasHTTPBodyReader (newLRequest req)). rewrite Hno. cbn [negb andb].
    change (l_raw r2) with (l_raw (newLRequest req)). rewrite El.
    assert (Hh : wired_holds rest (Chunks (OnConn NewChunkedReader), w2) (concat ps)).
    { by apply (carried_holds ConnectionChunks (concat ps) (encode ps ++ last_chunk ++ rest)); [exists ps| |exact Hw2]. }
    destruct (raw_received (concat ps) rest w2 (drainBodyLimit cfg) Hh ltac:(lia) Hmax) as (e & m' & w3 & -> & H3).
    cbn [accepts from_option]. destruct (within _ (concat ps)); [|by subst e; do 3 eexists]. destruct H3 as (-> & -> & Hi3 & Hs3).
    do 3 eexists. split; [reflexivity|]. split; [done|]. split; [|split; [done|]].
    + unfold r2, received_request, newLRequest. rewrite Eq, Ep. reflexivity.
    + eapply same_conn_trans; [eapply same_conn_trans; [exact Hs1|exact Hs2]|exact Hs3].
Qed.

Lemma received_drains req b1 b2 b3 s rest : carries req b1 b2 b3 s rest → shouldDrainRawBody (received_request req b1 b2 b3) = false.
Proof using.
  intros (s1 & s2 & _ & _ & H3). destruct (raw_source_cases req) as [[Er Hr]|(Er & Eq & Ep & El & Hr)]; rewrite Er in H3.
  - destruct H3 as [-> _]. exact (Hr b1 b2).
  - destruct H3 as (ps & _ & -> & _). done.
Qed.

(** C8: taking a request off a connection that is to be used again: when the bodies
    that the parser announced - those of its messages or, when no message was parsed,
    the one of the request itself - are on the connection and within the limit,
    receiving them loads exactly their bytes and leaves the connection exactly at what
    follows the request; draining after the response then takes nothing more, so the
    next request is parsed from its first byte. A body over the limit is an error (and
    the connection is closed). *)
Theorem bodies_received req b1 b2 b3 rest w :
  carries req b1 b2 b3 (w_in w) rest → IsPreviewMode req = false → w_closed w = false →
  (length (default [] b1) + length (default [] b2) + length (default [] b3) < fuel)%nat → drainBodyLimit cfg < max_int64 →
  ∃ e r' w', receiveRequestBodies cfg size grow fuel sizes (newLRequest req) w = (e, r', w') ∧
    if accepts b1 && accepts b2 && accepts b3 then
      e = None ∧ r' = received_request req b1 b2 b3 ∧ w_in w' = rest ∧ shouldDrainAfterResponse r' = true ∧
      ∀ w2, w_in w2 = rest → w_closed w2 = false →
        ∃ w3, drainRequestBodies cfg size fuel sizes r' w2 = (None, r', w3) ∧ w_in w3 = rest ∧ w_closed w3 = false
    else e = Some (receive_error b1 b2).
Proof using Hgrow Hsizes.
  intros Hc Hp Hcl Hf Hmax. unfold receiveRequestBodies, shouldDeferBodyReceive. cbn [newLRequest l_head]. rewrite Hp.
  unfold setActiveReadDeadline, SetReadDeadline.
  destruct (SetDeadline_ok (ReadBy (Some (activeTimeout cfg))) w Hcl) as (w1 & -> & Hi1 & _).
  destruct (receiveBodies_spec req b1 b2 b3 (w_in w) rest w1 Hc Hi1 Hf Hmax) as (e & r' & w' & E & Hr).
  exists e, r', w'. split; [exact E|]. destruct (accepts b1 && accepts b2 && accepts b3); [|done]. destruct Hr as (-> & -> & Hw' & _).
  split_and!; [done|done|done| |].
  { unfold shouldDrainAfterResponse, shouldDeferBodyReceive. cbn. by rewrite Hp. }
  intros w2 Hw2 Hcl2. unfold drainRequestBodies, setDrainReadDeadline, SetReadDeadline.
  destruct (SetDeadline_ok (ReadBy (Some (activeTimeout cfg))) w2 Hcl2) as (w3 & -> & Hi3 & _ & _ & Hcl3 & _).
  exists w3. split; [|by rewrite Hi3]. pose proof (received_drains _ _ _ _ _ _ Hc) as Hraw.
  assert (Hnone : ∀ m b, drainHTTPMessageBody cfg size fuel sizes (drainBodyLimit cfg) (received m b) w3 = (None, received m b, w3))
    by (intros [] []; reflexivity).
  unfold drainBodies, over_bodies. cbn [received_request l_head l_request l_response with_request]. rewrite Hnone.
  cbn [received_request l_head l_request l_response with_request]. rewrite Hnone.
  change (with_response _ _) with (received_request req b1 b2 b3). by rewrite Hraw, andb_false_r.
Qed.

(** ** Previews *)

(** The connection's chunked reader, somewhere in a body with terminator [ext], with
    nothing written. *)
Definition on_conn (cr : ChunkedReader) (ext : string) (o : bufferedWriter Sink) (rest : list ascii) (rw : BodyRd * Wire) : Prop :=
  ∃ cr' bs, rw.1 = Chunks (OnConn cr') ∧ w_out rw.2 = o ∧ chunks_hold cr ext (OnConn cr') rw.2 bs rest.

Lemma on_conn_step cr ext o rest rw len : on_conn cr ext o rest rw → (0 < len)%nat →
  match reader_read len rw with
  | (p, None, rw') => on_conn cr ext o rest rw' ∧ (length p ≤ len)%nat
  | (p, Some e, rw') => rw'.1 = Chunks (OnConn (ended ext cr)) ∧ w_in rw'.2 = rest ∧ w_out rw'.2 = o
  end.
Proof using.
  destruct rw as [rd w]. intros (cr' & bs & E & Ho & Hh) Hlen. cbn [fst snd] in *. subst rd.
  pose proof (readChunks_step cr ext _ w bs rest len Hh Hlen) as Hs.
  unfold reader_read, WiredR, Wired_Reader. cbn [readChunks] in *. destruct (Read (w_ending w) len cr' (w_in w)) as [[[p [e|]] cr2] s].
  - destruct Hs as (_ & _ & _ & _ & Hw & Hst). cbn in *. by rewrite Hst.
  - destruct Hs as (_ & Hl & bs' & _ & Hh'). split; [|done]. by exists cr2, bs'.
Qed.

Lemma read_to_boundary n cr ext o rest rw bs :
  on_conn cr ext o rest rw → wired_holds rest rw bs → (length bs < fuel)%nat → Z.of_nat (length bs) < n ≤ max_int64 →
  ∃ w', readAllLoop fuel sizes 0 (Some n) rw [] = Some (bs, None, (Chunks (OnConn (ended ext cr)), w')) ∧
    w_in w' = rest ∧ w_out w' = o.
Proof using Hsizes.
  intros Hon Hw Hf Hn.
  destruct (readAllLoop_limited (H0 := WiredLaws rest) fuel sizes 0 n rw bs EOF [] Hsizes (conj eq_refl Hw) ltac:(lia) Hf)
    as (err & [rd' w'] & E & _ & _ & Herr).
  rewrite (Herr ltac:(lia)) in E. cbn [app normalizeReadAllError] in E. rewrite take_ge in E by lia.
  destruct (readAllLoop_last (on_conn cr ext o rest)
    (λ r len p r' Hr Hl Er, ltac:(pose proof (on_conn_step cr ext o rest r len Hr Hl) as Hs; by rewrite Er in Hs))
    fuel sizes 0 (Some n) rw [] bs _ (rd', w') Hsizes Hon ltac:(intros n' Hn'; injection Hn' as <-; lia) E) as [(r & len & p & e & Hr & Hlen & Er)|(n' & Hn' & _ & Hl)].
  - pose proof (on_conn_step cr ext o rest r len Hr Hlen) as Hs. rewrite Er in Hs. cbn [fst snd] in Hs.
    destruct Hs as (-> & Hi & Ho). exists w'. by split_and!.
  - injection Hn' as <-. cbn in Hl. lia.
Qed.

Lemma read_past_limit n rest rw bs :
  wired_holds rest rw bs → (length bs < fuel)%nat → 0 ≤ n ≤ max_int64 → n ≤ Z.of_nat (length bs) →
  ∃ rw', readAllLoop fuel sizes 0 (Some n) rw [] = Some (take (Z.to_nat n) bs, None, rw').
Proof using Hsizes.
  intros Hw Hf Hn Hl.
  destruct (readAllLoop_limited (H0 := WiredLaws rest) fuel sizes 0 n rw bs EOF [] Hsizes (conj eq_refl Hw) ltac:(lia) Hf)
    as (err & rw' & E & _ & Herr & _). exists rw'. rewrite E. by destruct Herr as [->|[-> _]].
Qed.

(** The chunked reader at the boundary of a preview. *)
Definition at_boundary (ieof : bool) : ChunkedReader := at_preview ieof (EnablePreview NewChunkedReader).

(** The reader that takes over when the client goes on. *)
Definition resumed : ChunkedReader :=
  {| cr_err := None; cr_n := 0; finished := false; previewEnabled := true; previewBoundary := false;
     previewIEOF := false; previewContinued := true |}.

Lemma resumed_ok : ContinueAfterPreview (at_boundary false) = Ok resumed.
Proof using. done. Qed.

Definition preview_request (req : Request) (put : option (BodyState BodyRd) → LRequest) : Prop :=
  IsPreviewMode req = true ∧ 0 ≤ r_Preview req < max_int64 ∧
  previewBodyMessage (newLRequest req) = Some (Some (fresh_body (body_reader ConnectionChunks)), put).

Definition preview_result (ieof : bool) (bs : list ascii) : BodyState BodyRd :=
  if ieof then loaded_body bs false
  else body_state (Some (plain (Deferred bs bs (newContinuation (OnConn (at_boundary false)))))) None false None false.

Lemma preview_limit_range req : 0 ≤ r_Preview req < max_int64 → 0 ≤ previewLimit cfg (newLRequest req) ≤ r_Preview req.
Proof using. intros H. unfold previewLimit. cbn [newLRequest l_head]. destruct (_ && _) eqn:E; bool_to_prop; lia. Qed.

Lemma receive_preview req put ps ext ieof rest w :
  preview_request req put → ext_ok ext → hasExtension {| h_size := 0; extensions := tl (split_byte ext ";") |} "ieof" = ieof →
  w_closed w = false → Forall chunk_ok ps → w_in w = encode ps ++ zero_chunk ext ++ rest → (length (concat ps) < fuel)%nat →
  ∃ e r' w', receiveRequestBodies cfg size grow fuel sizes (newLRequest req) w = (e, r', w') ∧
    if previewLimit cfg (newLRequest req) <? Z.of_nat (length (concat ps)) then
      e = Some (PreviewTooLong (previewLimit cfg (newLRequest req)))
    else e = None ∧ r' = put (Some (preview_result ieof (concat ps))) ∧ w_in w' = rest ∧ w_out w' = w_out w.
Proof using Hsizes.
  intros (Hp & Hn & Hput) Hext Hieof Hcl Hps Hw Hf. pose proof (preview_limit_range req Hn) as Hlim.
  unfold receiveRequestBodies, shouldDeferBodyReceive. cbn [newLRequest l_head]. rewrite Hp.
  unfold receivePreviewBody. rewrite Hput. cbn [bodyLoaded fresh_body body_state BodyReader body_reader fmap option_fmap option_map].
  unfold setActiveReadDeadline, SetReadDeadline.
  destruct (SetDeadline_ok (ReadBy (Some (activeTimeout cfg))) w Hcl) as (w1 & -> & Hi1 & He1 & Ho1 & _).
  unfold readPreview. cbn [chunk_state with_chunk_state l_head newLRequest]. change (Wired cfg size) with WiredR.
  set (limit := previewLimit cfg (newLRequest req)) in *. set (cr0 := EnablePreview NewChunkedReader).
  assert (Ea : add64 limit 1 = limit + 1) by (unfold add64; apply wrap64_id; unfold in_int64, min_int64; lia). rewrite Ea.
  assert (Hh : chunks_hold cr0 ext (OnConn cr0) w1 (concat ps) rest).
  { split_and!; [done|done|]. right; left. exists ps. split_and!; [done|done|done|]. cbn. by rewrite Hi1. }
  assert (Hwh : wired_holds rest (Chunks (OnConn cr0), w1) (concat ps)) by (by exists cr0, ext).
  destruct (Z.ltb_spec limit (Z.of_nat (length (concat ps)))).
  - destruct (read_past_limit (limit + 1) rest _ _ Hwh Hf ltac:(lia) ltac:(lia)) as ([rd' w'] & ->).
    rewrite length_take, (proj2 (Z.ltb_lt _ _)) by lia. by do 3 eexists.
  - destruct (read_to_boundary (limit + 1) cr0 ext (w_out w1) rest (Chunks (OnConn cr0), w1) (concat ps)) as (w' & -> & Hi & Ho);
      [by exists cr0, (concat ps)|done|done|lia|].
    rewrite (proj2 (Z.ltb_ge _ _)) by lia. cbn [chunk_state].
    assert (Hend : ended ext cr0 = at_boundary ieof) by (unfold ended; cbn [previewEnabled cr0 EnablePreview NewChunkedReader previewContinued negb andb]; by rewrite Hieof).
    rewrite Hend. cbn [PreviewBoundary at_boundary at_preview previewBoundary previewIEOF negb].
    rewrite (proj2 (Z.ltb_ge _ _)) by lia. destruct ieof.
    all: do 3 eexists; split; [reflexivity|]; split_and!; [done|done|done|congruence].
Qed.

(** ** Asking the client to go on *)

(** A deferred reader that handed out [data] so far: either it is still within the
    preview and nothing was written or read, or 100 Continue was written once. *)
Definition asked (s0 inp preview data : list ascii) (rw : BodyRd * Wire) : Prop :=
  ∃ unread k, rw.1 = Deferred preview unread k ∧
    ((k_once k = false ∧ sent rw.2 = s0 ∧ w_in rw.2 = inp ∧ data ++ unread = preview ∧ writable rw.2) ∨
     (k_once k = true ∧ unread = [] ∧ sent rw.2 = s0 ++ bytes_of continueMessage ∧ preview `prefix_of` data)).

Lemma readChunks_out len c w p e c' w' : readChunks len c w = (p, e, c', w') → w_out w' = w_out w ∧ w_closed w' = w_closed w.
Proof using.
  destruct c; cbn [readChunks]; destruct (Read _ _ _ _) as [[[? ?] ?] ?]; intros H; by injection H as <- <- <- <-.
Qed.

Lemma continueBody_asks k w : writable w →
  ∃ k' w', continueBody cfg size k w = (k', w') ∧ k_once k' = true ∧ k_ctx k' = k_ctx k ∧ sent w' = sent w ++ bytes_of continueMessage.
Proof using.
  intros Hw. destruct (ContinueAfterPreview (chunk_state (k_reader k))) as [cr|pe] eqn:E.
  - destruct (continueBody_ok k w cr Hw E) as (w' & -> & _ & _ & _ & Hs & _). by do 2 eexists.
  - unfold continueBody. assert (∃ w1, continueWriteDeadline cfg w = (None, w1) ∧ writable w1 ∧ sent w1 = sent w) as (w1 & -> & Hw1 & Hs1).
    { unfold continueWriteDeadline. destruct (_ <? _); [|by exists w]. unfold SetWriteDeadline.
      destruct (SetDeadline_ok (WriteBy (Some (cfg_WriteTimeout cfg))) w (proj1 Hw)) as (w1 & -> & _ & _ & Ho & Hc & _).
      exists w1. destruct Hw as (_ & ? & ?). unfold writable, sent. rewrite Ho. by split_and!. }
    destruct (continueWrite_ok size w1 Hw1) as (w2 & -> & Hw2 & _ & _ & Hs2 & _).
    unfold setActiveReadDeadline, SetReadDeadline.
    destruct (SetDeadline_ok (ReadBy (Some (activeTimeout cfg))) w2 (proj1 Hw2)) as (w3 & -> & _ & _ & Ho3 & _).
    rewrite E. do 2 eexists. split; [done|]. split_and!; [done|done|]. unfold sent in *. by rewrite Ho3, Hs2, Hs1.
Qed.

Lemma asked_step s0 inp preview data rw len p e rw' :
  asked s0 inp preview data rw → reader_read len rw = (p, e, rw') →
  asked s0 inp preview (data ++ p) rw' ∧
  (e = Some EOF → ∃ k, rw'.1 = Deferred preview [] k ∧ sent rw'.2 = s0 ++ bytes_of continueMessage).
Proof using.
  destruct rw as [rd w]. intros (unread & k & Erd & Hk) E. cbn [fst snd] in *. subst rd.
  unfold reader_read, WiredR, Wired_Reader in E. destruct unread as [|b u].
  2: { injection E as <- <- <-. split; [|done]. exists (drop len (b :: u)), k. split; [done|]. left.
       destruct Hk as [(Ho & Hs & Hi & Hd & Hw)|(_ & [=] & _)]. split_and!; [done|done|done| |done].
       by rewrite <- app_assoc, take_drop. }
  destruct (readContinuation cfg size len k w) as [[[p1 e1] k1] w1] eqn:Ec. injection E as -> -> <-.
  unfold readContinuation in Ec.
  assert (Hlive : k_ctx k = Some true ∨ k_ctx k ≠ Some true) by (destruct (k_ctx k) as [[]|]; auto).
  destruct Hlive as [Hctx|Hctx].
  { rewrite Hctx in Ec. injection Ec as <- <- <- <-. split; [|done]. exists [], k. split; [done|]. by rewrite !app_nil_r in *. }
  assert (∃ k2 w2, (if k_once k then (k, w) else continueBody cfg size k w) = (k2, w2) ∧ k_once k2 = true ∧
    sent w2 = s0 ++ bytes_of continueMessage) as (k2 & w2 & E2 & Ho2 & Hs2).
  { destruct Hk as [(Ho & Hs & _ & _ & Hw)|(Ho & _ & Hs & _)]; rewrite Ho.
    - destruct (continueBody_asks k w Hw) as (k2 & w2 & -> & Ho2 & _ & Hs2). exists k2, w2. by rewrite Hs2, Hs.
    - by exists k, w. }
  assert (Hpre : preview `prefix_of` data ++ p).
  { destruct Hk as [(_ & _ & _ & <- & _)|(_ & _ & _ & Hp)]; [by exists p; rewrite app_nil_r|by apply prefix_app_r]. }
  assert (Ec' : match k_err k2 with
      | Some e0 => ([], Some e0, k2, w2)
      | None => let '(p, e, c, w) := readChunks len (k_reader k2) w2 in
          (p, e, {| k_reader := c; k_err := None; k_once := k_once k2; k_ctx := k_ctx k2;
                    k_materialized := k_materialized k2 || (bool_decide (e = Some EOF) && bool_decide (is_Some (k_ctx k2))) |}, w)
      end = (p, e, k1, w1)) by (rewrite E2 in Ec; by destruct (k_ctx k) as [[]|]).
  clear Ec. destruct (k_err k2).
  - injection Ec' as <- <- <- <-. split; [exists [], k2|by exists k2]. split; [done|]. right. by rewrite app_nil_r in *.
  - destruct (readChunks len (k_reader k2) w2) as [[[p2 e2] c2] w3] eqn:Er. injection Ec' as -> -> <- ->.
    apply readChunks_out in Er as [Hout _]. unfold sent in *. rewrite <- Hout in Hs2.
    split; [|by eexists]. do 2 eexists. split; [done|]. right. by rewrite Ho2.
Qed.

(** Any sequence of reads; what they returned, one after the other. *)
Fixpoint reads (lens : list nat) (rw : BodyRd * Wire) : list ascii * (BodyRd * Wire) :=
  match lens with
  | [] => ([], rw)
  | len :: lens =>
      let '(p, _, rw) := reader_read len rw in
      let '(q, rw) := reads lens rw in (p ++ q, rw)
  end.

Lemma reads_asked s0 inp preview lens : ∀ data rw, asked s0 inp preview data rw →
  asked s0 inp preview (data ++ (reads lens rw).1) (reads lens rw).2.
Proof using.
  induction lens as [|len lens IH]; intros data rw H; [by rewrite app_nil_r|]. cbn [reads].
  destruct (reader_read len rw) as [[p e] rw1] eqn:E. destruct (asked_step _ _ _ _ _ _ _ _ _ H E) as [H1 _].
  specialize (IH _ _ H1). destruct (reads lens rw1) as [q rw2]. cbn [fst snd] in *. by rewrite app_assoc.
Qed.

(** C40: the server asks for the rest of a body at most once and only when somebody
    reads past the preview: after any reads through the reader that a preview leaves,
    either nothing was written to the client, nothing was taken off the connection and
    only bytes of the preview were handed out, or exactly one 100 Continue was written
    and the whole preview was handed out first. *)
Theorem continue_at_most_once preview c w lens :
  writable w →
  let '(data, (rd, w')) := reads lens (newDeferredPreviewBodyReader preview (newContinuation c), w) in
  (sent w' = sent w ∧ w_in w' = w_in w ∧ data `prefix_of` preview) ∨
  (sent w' = sent w ++ bytes_of continueMessage ∧ preview `prefix_of` data).
Proof using.
  intros Hw. assert (H0 : asked (sent w) (w_in w) preview [] (newDeferredPreviewBodyReader preview (newContinuation c), w))
    by (exists preview, (newContinuation c); split; [done|]; left; done).
  pose proof (reads_asked _ _ _ lens _ _ H0) as (unread & k & E & H). destruct (reads lens _) as [data [rd w']]. cbn [fst snd app] in *.
  destruct H as [(_ & Hs & Hi & Hd & _)|(_ & _ & Hs & Hp)]; [left|by right]. split_and!; [done|done|by exists unread].
Qed.

(** C14: the preview exchange of the server. Receiving a request in preview mode takes
    exactly the preview off the connection and writes nothing. When the client goes on
    after it, reading the body later asks it to once and yields the preview and the
    rest, and the connection then stands behind the body; when the client said [ieof]
    the preview is the whole body and nothing is left to read; more bytes than the
    declared preview, or than the limit of the server, are refused. *)
Theorem preview_exchange_served req put ps qs rest w :
  preview_request req put → writable w → Forall chunk_ok ps → Forall chunk_ok qs →
  (length (concat ps ++ concat qs) < fuel)%nat →
  let fits := Z.of_nat (length (concat ps)) ≤ previewLimit cfg (newLRequest req) in
  let receive w := receiveRequestBodies cfg size grow fuel sizes (newLRequest req) w in
  (fits → w_in w = encode ps ++ last_chunk ++ encode qs ++ last_chunk ++ rest →
     ∃ m w', receive w = (None, put (Some m), w') ∧ sent w' = sent w ∧ w_in w' = encode qs ++ last_chunk ++ rest ∧
       (writable w' → ∀ maxBytes hint, maxBytes < max_int64 → within (body_limit maxBytes) (concat ps ++ concat qs) = true →
          ∃ m2 w2, loadHTTPMessageBody cfg size grow fuel sizes maxBytes hint m w' = (Ok (Some (concat ps ++ concat qs)), m2, w2) ∧
            sent w2 = sent w ++ bytes_of continueMessage ∧ w_in w2 = rest)) ∧
  (fits → w_in w = encode ps ++ zero_chunk "; ieof" ++ rest →
     ∃ w', receive w = (None, put (Some (loaded_body (concat ps) false)), w') ∧ sent w' = sent w ∧ w_in w' = rest) ∧
  (∀ ext, ext_ok ext → ¬ fits → w_in w = encode ps ++ zero_chunk ext ++ rest →
     (receive w).1.1 = Some (PreviewTooLong (previewLimit cfg (newLRequest req)))).
Proof using Hgrow Hsizes.
  intros Hreq Hw Hps Hqs Hf fits receive. rewrite length_app in Hf.
  assert (Hieof : ext_ok "; ieof").
  { split_and!; [right; by eexists|cbn|simpl; lia]. rewrite !not_elem_of_cons. split_and!; try done. apply not_elem_of_nil. }
  split; [|split].
  - intros Hfit Hi. change last_chunk with (zero_chunk "") in Hi at 1.
    destruct (receive_preview req put ps "" false (encode qs ++ last_chunk ++ rest) w Hreq ext_ok_nil eq_refl (proj1 Hw) Hps Hi ltac:(lia))
      as (e & r' & w' & E & H). rewrite (proj2 (Z.ltb_ge _ _)) in H by done. destruct H as (-> & -> & Hi' & Ho').
    eexists _, w'. split; [exact E|]. split; [unfold sent; by rewrite Ho'|]. split; [done|].
    intros Hw' maxBytes hint Hmax Hin. set (k := newContinuation (OnConn (at_boundary false))).
    assert (Hh : wired_holds rest (Deferred (concat ps) (concat ps) k, w') (concat ps ++ concat qs)).
    { exists (concat qs). split; [done|]. split_and!; [done|done|]. cbn [k newContinuation k_once k_reader]. split; [done|].
      exists resumed, "". split; [done|]. split_and!; [done|apply ext_ok_nil|]. right; left. exists qs. split_and!; [done|done|done|].
      cbn. by rewrite Hi'. }
    destruct (load_received maxBytes hint rest _ w' _ Hh ltac:(rewrite length_app; lia) Hmax) as (m2 & w2 & El & H2).
    rewrite Hin in El. destruct (H2 Hin) as [Hrest _]. exists m2, w2. split; [exact El|]. split; [|done].
    set (I := λ rw, (∃ bs, wired_holds rest rw bs) ∧ ∃ data, asked (sent w') (w_in w') (concat ps) data rw).
    destruct (load_last I maxBytes hint (Deferred (concat ps) (concat ps) k) w' (Some (concat ps ++ concat qs)) m2 w2) with (3 := Hmax) (4 := El)
      as (rw & len & p & e & rd' & ((bs & Hb) & data & Ha) & Hlen & Ed).
    + intros rw len p rw' [Hb (data & Ha)] Hlen Ed. destruct (wired_keeps rest rw len p rw' Hb Hlen Ed) as [Hb' Hl].
      split; [|done]. split; [done|]. exists (data ++ p). by destruct (asked_step _ _ _ _ _ _ _ _ _ Ha Ed).
    + split; [by eexists|]. exists [], (concat ps), k. split; [done|]. by left.
    + pose proof (wired_step rest rw bs len Hb Hlen) as Hs. rewrite Ed in Hs. destruct Hs as (_ & _ & -> & _).
      destruct (asked_step _ _ _ _ _ _ _ _ _ Ha Ed) as [_ Hk]. destruct (Hk eq_refl) as (_ & _ & Hs).
      cbn in Hs. rewrite Hs. unfold sent. by rewrite Ho'.
  - intros Hfit Hi.
    destruct (receive_preview req put ps "; ieof" true rest w Hreq Hieof eq_refl (proj1 Hw) Hps Hi ltac:(lia))
      as (e & r' & w' & E & H). rewrite (proj2 (Z.ltb_ge _ _)) in H by done. destruct H as (-> & -> & Hi' & Ho').
    exists w'. split_and!; [exact E|unfold sent; by rewrite Ho'|done].
  - intros ext Hext Hfit Hi.
    destruct (receive_preview req put ps ext _ rest w Hreq Hext eq_refl (proj1 Hw) Hps Hi ltac:(lia))
      as (e & r' & w' & E & H). rewrite (proj2 (Z.ltb_lt _ _)) in H by (unfold fits in *; lia). unfold receive. by rewrite E.
Qed.

(** A connection never outlives a request in preview mode. The body of the ICAP
    request itself counts among the bodies that have to be loaded, and nothing loads it
    when a preview is received - so the connection is closed for an unread preview body
    also when the client sent the whole body ([ieof]) or there was none. *)
Theorem preview_closes_connection req w r' w' e :
  IsPreviewMode req = true → receiveRequestBodies cfg size grow fuel sizes (newLRequest req) w = (e, r', w') →
  shouldDrainAfterResponse r' = false.
Proof using.
  intros Hp E. assert (l_head r' = req ∧ bodyLoaded (l_raw r') = false) as [Hh Hl].
  { unfold receiveRequestBodies, shouldDeferBodyReceive in E. cbn [newLRequest l_head] in E. rewrite Hp in E. unfold receivePreviewBody in E.
    assert (Hput : ∀ m put, previewBodyMessage (newLRequest req) = Some (m, put) → ∀ x, l_head (put x) = req ∧ bodyLoaded (l_raw (put x)) = false).
    { unfold previewBodyMessage. intros m put H x. destruct (bool_decide _); [by injection H as <- <-|]. by destruct (bool_decide _); [injection H as <- <-|]. }
    destruct (previewBodyMessage (newLRequest req)) as [[[m|] put]|]; [|by injection E as <- <- <-..].
    specialize (Hput _ _ eq_refl). destruct (bodyLoaded m); [by injection E as <- <- <-|].
    destruct (BodyReader m) as [[[|? ?] [|c|? ? ?]]|]; try by injection E as <- <- <-.
    destruct (setActiveReadDeadline cfg w) as [[er|] w1]; [by injection E as <- <- <-|].
    destruct (readPreview _ _ _ _ _ _ _ _ _) as [[e1 m1] w2]. injection E as <- <- <-. apply Hput. }
  unfold shouldDrainAfterResponse, shouldDeferBodyReceive, requestBodiesLoaded. rewrite Hh, Hp, Hl. cbn. by rewrite andb_false_r.
Qed.

(** An HTTP body over the limit is reported as a body that could not be received:
    the error is the one of [pkg/icap], and the classification asks for the server's
    own value of the same name. *)
Theorem oversized_body_label req b1 b2 b3 rest w :
  carries req b1 b2 b3 (w_in w) rest → IsPreviewMode req = false → w_closed w = false →
  (length (default [] b1) + length (default [] b2) + length (default [] b3) < fuel)%nat → drainBodyLimit cfg < max_int64 →
  accepts b1 && accepts b2 = false →
  ∃ e r' w', receiveRequestBodies cfg size grow fuel sizes (newLRequest req) w = (Some e, r', w') ∧
    bodyReceiveErrorType e = "body_receive_failed".
Proof using Hgrow Hsizes.
  intros Hc Hp Hcl Hf Hmax Ha. unfold receiveRequestBodies, shouldDeferBodyReceive. cbn [newLRequest l_head]. rewrite Hp.
  unfold setActiveReadDeadline, SetReadDeadline.
  destruct (SetDeadline_ok (ReadBy (Some (activeTimeout cfg))) w Hcl) as (w1 & -> & Hi1 & _).
  destruct (receiveBodies_spec req b1 b2 b3 (w_in w) rest w1 Hc Hi1 Hf Hmax) as (e & r' & w' & E & Hr). rewrite Ha in Hr. cbn [andb] in Hr. subst e.
  do 3 eexists. split; [exact E|]. unfold receive_error. by rewrite Ha.
Qed.
End Wired.

(** ** The first byte of a request *)

Section FirstByteSpec.
Context {W R : Type} `{HR : Reader R} (A : W → option ReadError * W) (size fuel : nat).

Definition deadline_call (o : read_op) (pb : pooledBuffer R) (r : requestDeadlineReader) (w : W)
  : option (list ascii * list ReadError * pooledBuffer R * requestDeadlineReader * W) :=
  match o with
  | OpRead len => Some (deadlineRead (Some A) size len pb r w)
  | OpReadByte => Some (deadlineReadByte (Some A) size pb r w)
  | OpReadBytes delim => deadlineReadString (Some A) size fuel delim pb r w
  | OpReadBoundedLine limit => deadlineReadBoundedLine (Some A) size fuel limit pb r w
  | OpReadLine => None
  end.

Fixpoint deadline_calls (os : list read_op) (pb : pooledBuffer R) (r : requestDeadlineReader) (w : W)
  : option (list (list ascii * list ReadError) * pooledBuffer R * requestDeadlineReader * W) :=
  match os with
  | [] => Some ([], pb, r, w)
  | o :: os =>
      '(p, es, pb, r, w) ← deadline_call o pb r w;
      '(rs, pb, r, w) ← deadline_calls os pb r w;
      Some ((p, es) :: rs, pb, r, w)
  end.

(** What is asked of the reader: the answers of the reader under it, and [A] run with
    the first answer that has a byte, its error joined to that answer's. *)
Fixpoint with_first_byte (started : bool) (rs : list (list ascii * option ReadError)) (w : W)
  : list (list ascii * list ReadError) * bool * W :=
  match rs with
  | [] => ([], started, w)
  | (p, e) :: rs =>
      if (0 <? length p)%nat && negb started then
        let '(de, w) := A w in
        let '(l, s, w) := with_first_byte true rs w in ((p, option_list e ++ option_list de) :: l, s, w)
      else
        let '(l, s, w) := with_first_byte started rs w in ((p, option_list e) :: l, s, w)
  end.

Definition reader_at (started : bool) : requestDeadlineReader := {| rd_started := started; rd_activated := started |}.

Lemma answered_spec p e started w :
  answered (Some A) p e (reader_at started) w =
  if (0 <? length p)%nat && negb started then
    let '(de, w) := A w in (p, option_list e ++ option_list de, reader_at true, w)
  else (p, option_list e, reader_at started, w).
Proof.
  unfold answered, activateOnce. destruct (0 <? length p)%nat; [|done]. destruct started; cbn; [done|]. by destruct (A w).
Qed.

Lemma deadline_call_spec o pb started w : o ≠ OpReadLine →
  deadline_call o pb (reader_at started) w =
  '(p, e, pb) ← buffer_call size fuel o pb;
  let '(p, es, r, w) := answered (Some A) p e (reader_at started) w in Some (p, es, pb, r, w).
Proof.
  intros Ho. destruct o as [len| | |delim|limit]; cbn [deadline_call buffer_call]; [| |done| |].
  - unfold deadlineRead. destruct (readBuffer size len pb) as [[p e] pb']. cbn. by destruct (answered _ _ _ _ _) as [[[? ?] ?] ?].
  - unfold deadlineReadByte. destruct (ReadByte size pb) as [[b|e] pb']; cbn [mbind option_bind]; [|done].
    unfold answered. cbn [length Nat.ltb Nat.leb]. by destruct (activateOnce (Some A) None (reader_at started) w) as [[? ?] ?].
  - reflexivity.
  - reflexivity.
Qed.

(** The reader that watches for the first byte of a request changes nothing else:
    any calls return what the same calls on the connection's buffer return, and the
    switch from the waiting deadline to the active one happens exactly once, with the
    first answer that carries a byte; when it fails, its error is joined to that
    answer's own. *)
Theorem deadline_reader_transparent os pb w :
  Forall (λ o, o ≠ OpReadLine) os →
  deadline_calls os pb newRequestDeadlineReader w =
  '(rs, pb) ← buffer_calls size fuel os pb;
  let '(l, s, w) := with_first_byte false rs w in Some (l, pb, reader_at s, w).
Proof.
  change newRequestDeadlineReader with (reader_at false). generalize false. intros started Hos. revert pb w started.
  induction Hos as [|o os Ho _ IH]; intros pb w started; [done|]. cbn [deadline_calls buffer_calls].
  rewrite deadline_call_spec by done. destruct (buffer_call size fuel o pb) as [[[p e] pb1]|]; [|done]. cbn [mbind option_bind].
  rewrite answered_spec. destruct (buffer_calls size fuel os pb1) as [[rs pb2]|] eqn:E.
  - cbn [with_first_byte mbind option_bind]. destruct (_ && _).
    + destruct (A w) as [de w1]. cbn. rewrite IH, E. cbn. by destruct (with_first_byte true rs w1) as [[? ?] ?].
    + cbn. rewrite IH, E. cbn. by destruct (with_first_byte started rs w) as [[? ?] ?].
  - destruct (_ && _); [destruct (A w) as [de w1]|]; cbn; by rewrite IH, E.
Qed.
End FirstByteSpec.

(** ** At concrete connections *)

Module LExample.
Definition cfg : ServerConfig :=
  {| cfg_ReadTimeout := 30; cfg_WriteTimeout := 30; cfg_IdleTimeout := 60; cfg_MaxBodySize := 8; cfg_maxBodySizeSet := true;
     cfg_MaxConnections := 2 |}.

Definition wire (s : list ascii) : Wire :=
  {| w_in := s; w_ending := EOF; w_out := newBufferedWriter {| out := []; room := None |}; w_closed := false; w_deadlines := [] |}.

Definition head (preview : option Z) : Request :=
  let r := {| r_Method := "REQMOD"; r_URI := "icap://h/reqmod"; r_Proto := "ICAP/1.0"; r_Header := NewHeader;
     r_Preview := 0; r_PreviewSet := false; r_Encapsulated := {| ReqHdr := 0; ReqBody := 33; ResHdr := -1; ResBody := -1; NullBody := -1 |};
     HTTPRequest := Some (new_request_message "POST" "/" "HTTP/1.1" NewHeader ConnectionChunks); HTTPResponse := None |} in
  match preview with Some n => with_preview n r | None => r end.

Definition grow (_ n : nat) : nat := n.
Definition sizes (_ : nat) : nat := 3.

Lemma small_chunks ps : forallb (λ p, Z.of_nat (length p) <=? MaxChunkSize) ps = true → Forall chunk_ok ps.
Proof. intros H. apply forallb_Forall in H. eapply Forall_impl; [exact H|]. intros p Hp. by apply Z.leb_le. Qed.

Lemma carries_body ps rest : Forall chunk_ok ps →
  carries (head None) (Some (concat ps)) None None (w_in (wire (encode ps ++ last_chunk ++ rest))) rest.
Proof. intros Hps. exists rest, rest. split; [by exists ps|]. by split. Qed.
End LExample.

Lemma bodies_received_witness :
  ∃ e r' w', receiveRequestBodies LExample.cfg 16 LExample.grow 20 LExample.sizes (newLRequest (LExample.head None))
      (LExample.wire (encode [bytes_of "dat"; bytes_of "a"] ++ last_chunk ++ bytes_of "OPTIONS")) = (e, r', w') ∧
    e = None ∧ w_in w' = bytes_of "OPTIONS" ∧ l_request r' = Some (loaded_body (bytes_of "data") true).
Proof.
  destruct (bodies_received LExample.cfg 16 LExample.grow 20 LExample.sizes (λ _ n, le_n n) (λ _, Nat.lt_0_succ 2) (LExample.head None)
    (Some (concat [bytes_of "dat"; bytes_of "a"])) None None (bytes_of "OPTIONS")
    (LExample.wire (encode [bytes_of "dat"; bytes_of "a"] ++ last_chunk ++ bytes_of "OPTIONS"))
    (LExample.carries_body _ _ (LExample.small_chunks [bytes_of "dat"; bytes_of "a"] eq_refl)) eq_refl eq_refl) as (e & r' & w' & E & H);
    [vm_compute; lia|reflexivity|].
  exists e, r', w'. split; [exact E|]. destruct H as (-> & -> & Hw & _). split_and!; [reflexivity|exact Hw|reflexivity].
Defined.

Lemma oversized_body_label_witness :
  ∃ e r' w', receiveRequestBodies LExample.cfg 16 LExample.grow 20 LExample.sizes (newLRequest (LExample.head None))
      (LExample.wire (encode [bytes_of "more than 8"] ++ last_chunk ++ bytes_of "OPTIONS")) = (Some e, r', w') ∧
    bodyReceiveErrorType e = "body_receive_failed".
Proof.
  apply (oversized_body_label LExample.cfg 16 LExample.grow 20 LExample.sizes (λ _ n, le_n n) (λ _, Nat.lt_0_succ 2) (LExample.head None)
    (Some (concat [bytes_of "more than 8"])) None None (bytes_of "OPTIONS")
    (LExample.wire (encode [bytes_of "more than 8"] ++ last_chunk ++ bytes_of "OPTIONS"))
    (LExample.carries_body _ _ (LExample.small_chunks [bytes_of "more than 8"] eq_refl)) eq_refl eq_refl);
    [vm_compute; lia|reflexivity|reflexivity].
Defined.

Lemma continue_at_most_once_witness :
  let '(data, (rd, w')) := @reads LExample.cfg 16 [2; 2; 4]%nat
      (newDeferredPreviewBodyReader (bytes_of "pre") (newContinuation (OnConn (at_boundary false))),
       LExample.wire (encode [bytes_of "view"] ++ last_chunk)) in
  sent w' = bytes_of continueMessage ∧ bytes_of "pre" `prefix_of` data.
Proof.
  pose proof (continue_at_most_once LExample.cfg 16 (bytes_of "pre") (OnConn (at_boundary false))
    (LExample.wire (encode [bytes_of "view"] ++ last_chunk)) [2; 2; 4]%nat (conj eq_refl (conj eq_refl eq_refl))) as H.
  destruct (reads _ _ _ _) as [data [rd w']] eqn:E. vm_compute in E. injection E as <- <- <-. destruct H as [(H & _)|H]; [discriminate|exact H].
Defined.

Lemma preview_exchange_served_witness :
  ∃ m w' m2 w2, receiveRequestBodies LExample.cfg 16 LExample.grow 20 LExample.sizes (newLRequest (LExample.head (Some 4)))
      (LExample.wire (encode [bytes_of "pre"] ++ last_chunk ++ encode [bytes_of "view"] ++ last_chunk ++ bytes_of "OPTIONS")) =
      (None, with_request (Some m) (newLRequest (LExample.head (Some 4))), w') ∧
    loadHTTPMessageBody LExample.cfg 16 LExample.grow 20 LExample.sizes 8 (-1) m w' = (Ok (Some (bytes_of "preview")), m2, w2) ∧
    sent w2 = bytes_of continueMessage ∧ w_in w2 = bytes_of "OPTIONS".
Proof.
  destruct (preview_exchange_served LExample.cfg 16 LExample.grow 20 LExample.sizes (λ _ n, le_n n) (λ _, Nat.lt_0_succ 2)
    (LExample.head (Some 4)) (λ m, with_request m (newLRequest (LExample.head (Some 4)))) [bytes_of "pre"] [bytes_of "view"] (bytes_of "OPTIONS")
    (LExample.wire (encode [bytes_of "pre"] ++ last_chunk ++ encode [bytes_of "view"] ++ last_chunk ++ bytes_of "OPTIONS")))
    as (H & _ & _).
  - split; [reflexivity|]. split; [split; [vm_compute; discriminate|reflexivity]|reflexivity].
  - split; [reflexivity|split; reflexivity].
  - by apply LExample.small_chunks.
  - by apply LExample.small_chunks.
  - vm_compute. lia.
  - destruct H as (m & w' & E & _ & _ & H); [vm_compute; discriminate|reflexivity|].
    destruct (H ltac:(vm_compute in E; injection E as <- <-; split; [reflexivity|split; reflexivity]) 8 (-1) eq_refl eq_refl) as (m2 & w2 & E2 & Hs & Hi).
    exists m, w', m2, w2. split_and!; [exact E|exact E2|exact Hs|exact Hi].
Defined.

Lemma preview_closes_connection_witness :
  let '(e, r', w') := receiveRequestBodies LExample.cfg 16 LExample.grow 20 LExample.sizes (newLRequest (LExample.head (Some 4)))
      (LExample.wire (encode [bytes_of "pre"] ++ zero_chunk "; ieof" ++ bytes_of "OPTIONS")) in
  e = None ∧ body_loaded (l_request r') = true ∧ w_in w' = bytes_of "OPTIONS" ∧ shouldDrainAfterResponse r' = false.
Proof.
  destruct (receiveRequestBodies _ _ _ _ _ _ _) as [[e r'] w'] eqn:E.
  pose proof (preview_closes_connection LExample.cfg 16 LExample.grow 20 LExample.sizes (LExample.head (Some 4)) _ r' w' e eq_refl E) as H.
  vm_compute in E. injection E as <- <- <-. split_and!; [reflexivity|reflexivity|reflexivity|exact H].
Defined.

Lemma deadline_reader_transparent_witness :
  deadline_calls (λ n : nat, (None, S n)) 4 20 [OpReadByte; OpReadBoundedLine 20; OpRead 3] Cut.buffer newRequestDeadlineReader 0%nat =
  Some ([(bytes_of "O", []); (bytes_of "PTIONS" ++ [CR; LF], []); (bytes_of "x", [])],
        match buffer_calls 4 20 [OpReadByte; OpReadBoundedLine 20; OpRead 3] Cut.buffer with Some (_, pb) => pb | None => Cut.buffer end,
        reader_at true, 1%nat).
Proof.
  rewrite deadline_reader_transparent by (repeat constructor; discriminate). vm_compute. reflexivity.
Defined.
