(* ===== verification/Scenario.v ===== *)
(** * Scenarios: [internal/storage/scenario.go]

    Which scenario answers a request: the conditions of a scenario and of its
    branches, the registry that keeps scenarios in priority order, and the rules
    for replacing a registry's endpoints. The regular-expression, media-type and
    IP libraries are parameters. Matching works on the request it is given: it
    stores captures and the chosen branch in it and loads a body when a
    body pattern needs it, so a request is threaded through every call, together
    with the answers of the context's [Err] at each place it is asked. *)
From S2P Require Import Prelude GoInt GoStrings Header Chunked Message.
From Stdlib Require Import Sorted.

Local Open Scope Z_scope.

Section Scenarios.
(** A compiled regular expression: its submatches in a string (the whole match
    first) and the names of its groups. *)
Context {Regexp : Type}.
Context (FindStringSubmatch : Regexp → string → option (list string)).
Context (SubexpNames : Regexp → list string).
(** [mime.ParseMediaType], [net.ParseIP] and [IPNet.Contains]. *)
Context (ParseMediaType : string → option (string * gmap string string)).
Context {IP IPNet : Type} (ParseIP : string → option IP) (Contains : IPNet → IP → bool).
(** The response a scenario gives; matching does not look at it. *)
Context {Response : Type}.
(** Bodies of embedded messages. *)
Context {R : Type} `{Reader R} (grow : nat → nat → nat) (fuel : nat) (sizes : nat → nat).

Definition MatchString (re : Regexp) (s : string) : bool := bool_decide (is_Some (FindStringSubmatch re s)).

(** ** Data *)

Record MatchRule := {
  Routes : gmap string (list string);
  Path : string;
  Paths : list string;
  Methods : list string;
  mr_HTTPMethod : string;
  HTTPURL : string;
  Headers : gmap string string;
  HeaderContains : gmap string (list string);
  HTTPHeaders : gmap string string;
  HTTPHeaderContains : gmap string (list string);
  BodyPattern : string;
  ClientIP : string;
  CIDRRanges : list string
}.

Record compiledEndpoint := { re : option Regexp; raw : string; captures : list string }.

Record contentTypeMatcher := { parameters : gmap string string; mediaType : string }.

Record compiledHeaderListMatcher := {
  mediaTypes : gset string;
  parameterized : list contentTypeMatcher;
  contains : list string;
  isContentType : bool
}.

(** The compiled header and URL rules, which a scenario and a branch share. *)
Record CompiledRules := {
  compiledHeaders : gmap string Regexp;
  compiledHeaderLists : gmap string compiledHeaderListMatcher;
  compiledHTTPHeaders : gmap string Regexp;
  compiledHTTPLists : gmap string compiledHeaderListMatcher;
  compiledHTTPURL : option Regexp
}.

Record Branch := { b_Match : MatchRule; b_rules : CompiledRules; b_Response : Response }.

Record Scenario := {
  Name : string;
  Match_ : MatchRule;
  rules : CompiledRules;
  compiledBody : option Regexp;
  compiledRoutes : option (gmap string (list compiledEndpoint));
  compiledPaths : list compiledEndpoint;
  compiledCIDRs : list IPNet;
  Branches : list Branch;
  s_Response : Response;
  Priority : Z;
  order : Z
}.

Record BodyPatternOptions := { Limit : Z; LimitAction : string }.

Record Message := {
  msg_Method : string; msg_URI : string; msg_Status : string; msg_StatusText : string; msg_Proto : string;
  msg_Header : Header; msg_Body : BodyState R
}.

Definition with_msg_body (b : BodyState R) (m : Message) : Message :=
  {| msg_Method := msg_Method m; msg_URI := msg_URI m; msg_Status := msg_Status m;
     msg_StatusText := msg_StatusText m; msg_Proto := msg_Proto m; msg_Header := msg_Header m; msg_Body := b |}.

Record Request := {
  q_Method : string;
  q_URI : string;
  q_Header : Header;
  q_HTTPRequest : option Message;
  q_HTTPResponse : option Message;
  q_ClientIP : string;
  q_Preview : Z;
  q_PreviewSet : bool;
  Captures : option (gmap string string);
  matchedBranch : Z;
  matchedBranchSet : bool
}.

Inductive MatchError :=
| ContextError
| BodyPatternLimitExceeded (limit : Z)
| BodyReadFailed (e : BodyError)
| NoScenarioMatched (checkedCount : nat).

(** ** Updates of a request *)

Definition set_captures (c : gmap string string) (q : Request) : Request :=
  {| q_Method := q_Method q; q_URI := q_URI q; q_Header := q_Header q;
     q_HTTPRequest := q_HTTPRequest q; q_HTTPResponse := q_HTTPResponse q; q_ClientIP := q_ClientIP q;
     q_Preview := q_Preview q; q_PreviewSet := q_PreviewSet q;
     Captures := Some c; matchedBranch := matchedBranch q; matchedBranchSet := matchedBranchSet q |}.

Definition set_branch (index : Z) (isSet : bool) (q : Request) : Request :=
  {| q_Method := q_Method q; q_URI := q_URI q; q_Header := q_Header q;
     q_HTTPRequest := q_HTTPRequest q; q_HTTPResponse := q_HTTPResponse q; q_ClientIP := q_ClientIP q;
     q_Preview := q_Preview q; q_PreviewSet := q_PreviewSet q;
     Captures := Captures q; matchedBranch := index; matchedBranchSet := isSet |}.

Definition set_messages (m1 m2 : option Message) (q : Request) : Request :=
  {| q_Method := q_Method q; q_URI := q_URI q; q_Header := q_Header q;
     q_HTTPRequest := m1; q_HTTPResponse := m2; q_ClientIP := q_ClientIP q;
     q_Preview := q_Preview q; q_PreviewSet := q_PreviewSet q;
     Captures := Captures q; matchedBranch := matchedBranch q; matchedBranchSet := matchedBranchSet q |}.

Definition SetMatchedBranch (index : Z) (q : Request) : Request := set_branch index (0 <=? index) q.
Definition ClearMatchedBranch (q : Request) : Request := set_branch 0 false q.
Definition MatchedBranch (q : Request) : Z * bool := (matchedBranch q, matchedBranchSet q).

(** ** Endpoints *)

Definition extractPath (uri : string) : string :=
  let uri := trim_prefix uri "icap://" in
  let uri := trim_prefix uri "icaps://" in
  match index_byte uri "/" with
  | None => "/"
  | Some idx => str_drop idx uri
  end.

Definition cut_at (c : ascii) (s : string) : string :=
  match index_byte s c with Some i => str_take i s | None => s end.

Definition capture_values (p : compiledEndpoint) (r : Regexp) (m : list string) : gmap string string :=
  foldl (λ caps nv, if bool_decide (nv.1 = "") then caps else <[nv.1 := nv.2]> caps) ∅
        (zip (tl (SubexpNames r)) (tl m)).

Fixpoint matchEndpointLoop (paths : list compiledEndpoint) (reqPath : string) : option (gmap string string) :=
  match paths with
  | [] => None
  | p :: paths =>
      match re p with
      | None => matchEndpointLoop paths reqPath
      | Some r =>
          match FindStringSubmatch r reqPath with
          | None => matchEndpointLoop paths reqPath
          | Some m => Some (if bool_decide (captures p = []) then ∅ else capture_values p r m)
          end
      end
  end.

Definition matchEndpoint (paths : list compiledEndpoint) (reqPath : string) : option (gmap string string) :=
  matchEndpointLoop paths (cut_at "#" (cut_at "?" reqPath)).

(** ** Headers *)

Definition containsAnyLower (value : string) (alternatives : list string) : bool :=
  existsb (contains_str value) alternatives.

Definition contentTypeParametersMatch (actual expected : gmap string string) : bool :=
  forallb (λ kv, match actual !! kv.1 with
                 | None => false
                 | Some v => if bool_decide (kv.1 = "charset") then equal_fold v kv.2
                             else bool_decide (v = kv.2)
                 end) (map_to_list expected).

Definition matchesContentType (m : compiledHeaderListMatcher) (value : string) : bool :=
  let mediaTypePrefix := to_lower (trim_space (cut_byte value ";").1.1) in
  if bool_decide (mediaTypePrefix ∈ mediaTypes m) then true
  else if bool_decide (parameterized m = []) then false
  else
    match ParseMediaType value with
    | None => false
    | Some (mt, ps) =>
        existsb (λ expected, bool_decide (mt = mediaType expected) &&
                             contentTypeParametersMatch ps (parameters expected)) (parameterized m)
    end.

Definition list_matches (m : compiledHeaderListMatcher) (value : string) : bool :=
  if negb (isContentType m) then containsAnyLower (to_lower value) (contains m)
  else matchesContentType m value.

Definition headerRulesMatch (exact : gmap string string) (compiledRegex : gmap string Regexp)
    (compiledLists : gmap string compiledHeaderListMatcher) (lookup : string → option string) : bool :=
  forallb (λ kv, match lookup kv.1 with
                 | None => false
                 | Some header =>
                     match compiledRegex !! kv.1 with
                     | Some pattern => MatchString pattern header
                     | None => bool_decide (header = kv.2)
                     end
                 end) (map_to_list exact)
  && forallb (λ km, match lookup km.1 with
                    | None => false
                    | Some header => list_matches km.2 header
                    end) (map_to_list compiledLists).

Definition MethodREQMOD : string := "REQMOD".
Definition MethodRESPMOD : string := "RESPMOD".

Definition httpHeaderLookup (req : Request) (key : string) : option string :=
  let from_request := m ← q_HTTPRequest req; Get (msg_Header m) key in
  if bool_decide (q_Method req = MethodRESPMOD) then
    match (m ← q_HTTPResponse req; Get (msg_Header m) key) with
    | Some v => Some v
    | None => from_request
    end
  else from_request.

Definition hasEncapsulatedHTTP (req : Request) : bool :=
  bool_decide (is_Some (q_HTTPRequest req)) || bool_decide (is_Some (q_HTTPResponse req)).

Definition methodMatches (methods : list string) (reqMethod : string) : bool :=
  bool_decide (methods = []) || existsb (String.eqb reqMethod) methods.

Definition matchClientIP (pattern clientIP : string) : bool := bool_decide (pattern = clientIP).

Definition matchByCIDR (cidrRanges : list IPNet) (clientIP : string) : bool :=
  if bool_decide (cidrRanges = []) then true
  else
    match ParseIP clientIP with
    | None => false
    | Some ip => existsb (λ n, Contains n ip) cidrRanges
    end.

(** The checks a scenario and a branch share, in the code's order. *)
Definition httpMethodMatches (r : MatchRule) (req : Request) : bool :=
  if bool_decide (mr_HTTPMethod r = "") then true
  else match q_HTTPRequest req with
       | None => false
       | Some m => bool_decide (msg_Method m = mr_HTTPMethod r)
       end.

Definition httpHeadersMatch (r : MatchRule) (c : CompiledRules) (req : Request) : bool :=
  if bool_decide (HTTPHeaders r = ∅) && bool_decide (HTTPHeaderContains r = ∅) then true
  else
    hasEncapsulatedHTTP req
    && headerRulesMatch (HTTPHeaders r) (compiledHTTPHeaders c) (compiledHTTPLists c) (httpHeaderLookup req).

Definition httpURLMatches (r : MatchRule) (c : CompiledRules) (req : Request) : bool :=
  if bool_decide (HTTPURL r = "") then true
  else match q_HTTPRequest req with
       | None => false
       | Some m =>
           match compiledHTTPURL c with
           | Some re => MatchString re (msg_URI m)
           | None => bool_decide (msg_URI m = HTTPURL r)
           end
       end.

Definition branchMatches (b : Branch) (req : Request) : bool :=
  headerRulesMatch (Headers (b_Match b)) (compiledHeaders (b_rules b)) (compiledHeaderLists (b_rules b))
                   (Get (q_Header req))
  && httpMethodMatches (b_Match b) req
  && httpHeadersMatch (b_Match b) (b_rules b) req
  && httpURLMatches (b_Match b) (b_rules b) req.

Fixpoint selectBranchFrom (i : Z) (branches : list Branch) (req : Request) : Z :=
  match branches with
  | [] => -1
  | b :: branches => if branchMatches b req then i else selectBranchFrom (i + 1) branches req
  end.

Definition SelectBranch (s : Scenario) (req : Request) : Z := selectBranchFrom 0 (Branches s) req.

(** ** The body pattern *)

Definition defaultBodyPatternLimit : Z := 10 * 1024 * 1024.
Definition BodyPatternLimitActionNoMatch : string := "no_match".
Definition BodyPatternLimitActionError : string := "error".

Definition DefaultBodyPatternOptions : BodyPatternOptions :=
  {| Limit := defaultBodyPatternLimit; LimitAction := BodyPatternLimitActionNoMatch |}.

Definition normalized (o : BodyPatternOptions) : BodyPatternOptions :=
  let action := to_lower (trim_space (LimitAction o)) in
  {| Limit := if Limit o =? 0 then defaultBodyPatternLimit else Limit o;
     LimitAction := if bool_decide (action = "") then BodyPatternLimitActionNoMatch else action |}.

Definition UnknownStreamPayloadSize : Z := -1.

Definition parseContentLengthHint (value : string) : Z :=
  match parse_int 10 value with
  | None => UnknownStreamPayloadSize
  | Some size => if size <? 0 then UnknownStreamPayloadSize else size
  end.

Definition contentLengthHint (m : Message) : Z :=
  match Get (msg_Header m) "Content-Length" with
  | None => UnknownStreamPayloadSize
  | Some value => parseContentLengthHint value
  end.

(** Which message [bodyPatternMessage] picks: the request's or the response's. *)
Inductive Side := RequestSide | ResponseSide.

Definition side_message (d : Side) (req : Request) : option Message :=
  match d with RequestSide => q_HTTPRequest req | ResponseSide => q_HTTPResponse req end.

Definition bodyPatternSide (req : Request) : Side :=
  if bool_decide (q_Method req = MethodRESPMOD) then ResponseSide
  else if bool_decide (q_Method req = MethodREQMOD) then RequestSide
  else if bool_decide (is_Some (q_HTTPRequest req)) then RequestSide
  else ResponseSide.

Definition set_side (d : Side) (m : Message) (req : Request) : Request :=
  match d with
  | RequestSide => set_messages (Some m) (q_HTTPResponse req) req
  | ResponseSide => set_messages (q_HTTPRequest req) (Some m) req
  end.

Definition readBodyForPattern (m : Message) (o : BodyPatternOptions) : body_result * Message :=
  let '(res, b) := if Limit o <? 0 then GetBody grow fuel sizes (contentLengthHint m) (msg_Body m)
                   else GetBodyLimited grow fuel sizes (Limit o) (contentLengthHint m) (msg_Body m) in
  (res, with_msg_body b m).

Definition handleBodyPatternReadError (e : BodyError) (o : BodyPatternOptions) : option MatchError :=
  match e with
  | ErrBodyTooLarge _ =>
      if bool_decide (LimitAction o = BodyPatternLimitActionNoMatch) then None
      else Some (BodyPatternLimitExceeded (Limit o))
  | _ => Some (BodyReadFailed e)
  end.

(** ** Matching *)

(** The request and the answers still to come of the context's [Err]: [true]
    is an error, and an exhausted list is a context that stays alive. *)
Record MatchState := { st_req : Request; st_ctx : list bool }.

Definition MM (A : Type) : Type := MatchState → result MatchError A * MatchState.

Definition mret {A} (a : A) : MM A := λ st, (Ok a, st).
Definition merr {A} (e : MatchError) : MM A := λ st, (Err e, st).
Definition mbind' {A B} (m : MM A) (k : A → MM B) : MM B :=
  λ st, match m st with (Ok a, st) => k a st | (Err e, st) => (Err e, st) end.

(** [ctx.Err()] followed by the early return. *)
Definition ctxAlive : MM unit := λ st,
  match st_ctx st with
  | [] => (Ok tt, st)
  | b :: polls => (if b then Err ContextError else Ok tt, {| st_req := st_req st; st_ctx := polls |})
  end.

Definition get_req : MM Request := λ st, (Ok (st_req st), st).
Definition put_req (q : Request) : MM unit := λ st, (Ok tt, {| st_req := q; st_ctx := st_ctx st |}).

Notation "'do' x ← m ; k" := (mbind' m (λ x, k)) (at level 200, x name, m at level 100, k at level 200).
Notation "'run' m ; k" := (mbind' m (λ _, k)) (at level 200, m at level 100, k at level 200).

Definition routePathsFor (s : Scenario) (method : string) : option (list compiledEndpoint) :=
  match compiledRoutes s with
  | Some routes => routes !! method
  | None => if methodMatches (Methods (Match_ s)) method then Some (compiledPaths s) else None
  end.

(** Merges the captures of the matched endpoint into the request. *)
Definition checkEndpoint (routePaths : list compiledEndpoint) : MM bool :=
  do req ← get_req;
  if bool_decide (routePaths = []) then mret true
  else
    match matchEndpoint routePaths (extractPath (q_URI req)) with
    | None => mret false
    | Some caps =>
        if bool_decide (caps = ∅) then mret true
        else run put_req (set_captures (caps ∪ default ∅ (Captures req)) req); mret true
    end.

Definition bodyPatternMatches (pattern : Regexp) (d : Side) (m : Message) (o : BodyPatternOptions) : MM bool :=
  let o := normalized o in
  let '(res, m) := readBodyForPattern m o in
  do req ← get_req;
  run put_req (set_side d m req);
  run ctxAlive;
  match res with
  | Err e => match handleBodyPatternReadError e o with None => mret false | Some e => merr e end
  | Ok body => mret (MatchString pattern (string_of (bytes_or_nil body)))
  end.

Definition checkBody (s : Scenario) (o : BodyPatternOptions) : MM bool :=
  match compiledBody s with
  | None => mret true
  | Some pattern =>
      run ctxAlive;
      do req ← get_req;
      let d := bodyPatternSide req in
      match side_message d req with
      | None => mret false
      | Some m => bodyPatternMatches pattern d m o
      end
  end.

Definition checkClient (s : Scenario) (req : Request) : bool :=
  (bool_decide (ClientIP (Match_ s) = "") || matchClientIP (ClientIP (Match_ s)) (q_ClientIP req))
  && (bool_decide (compiledCIDRs s = []) || matchByCIDR (compiledCIDRs s) (q_ClientIP req)).

Definition checkBranches (s : Scenario) : MM bool :=
  do req ← get_req;
  let req := ClearMatchedBranch req in
  run put_req req;
  if bool_decide (Branches s = []) then mret true
  else
    let branch := SelectBranch s req in
    if branch <? 0 then mret false
    else run put_req (SetMatchedBranch branch req); mret true.

Definition checkHTTP (s : Scenario) (req : Request) : bool :=
  headerRulesMatch (Headers (Match_ s)) (compiledHeaders (rules s)) (compiledHeaderLists (rules s))
                   (Get (q_Header req))
  && httpMethodMatches (Match_ s) req
  && httpHeadersMatch (Match_ s) (rules s) req
  && httpURLMatches (Match_ s) (rules s) req.

Definition matchesScenario (s : Scenario) (o : BodyPatternOptions) : MM bool :=
  run ctxAlive;
  do req ← get_req;
  match routePathsFor s (q_Method req) with
  | None => mret false
  | Some routePaths =>
      do endpoint ← checkEndpoint routePaths;
      if negb endpoint then mret false
      else
        do req ← get_req;
        if negb (checkHTTP s req) then mret false
        else
          do body ← checkBody s o;
          if negb body then mret false
          else
            run ctxAlive;
            do req ← get_req;
            if negb (checkClient s req) then mret false else checkBranches s
  end.

(** The loop of [scenarioRegistry.Match]. *)
Fixpoint matchLoop (scenarios : list Scenario) (checkedCount : nat) (o : BodyPatternOptions) : MM Scenario :=
  match scenarios with
  | [] => merr (NoScenarioMatched checkedCount)
  | s :: scenarios =>
      run ctxAlive;
      do matched ← matchesScenario s o;
      if matched then mret s else matchLoop scenarios (S checkedCount) o
  end.

Definition Match (scenarios : list Scenario) (o : BodyPatternOptions) : MM Scenario :=
  run ctxAlive; matchLoop scenarios 0 o.

(** ** The registry *)

Definition scenarioOutranks (left right : Scenario) : bool :=
  if negb (Priority left =? Priority right) then Priority right <? Priority left
  else order left <? order right.

(** [sort.SliceStable] with that order: the stable insertion of each element. *)
Fixpoint insert_ranked (s : Scenario) (l : list Scenario) : list Scenario :=
  match l with
  | [] => [s]
  | x :: l => if scenarioOutranks x s then x :: insert_ranked s l else s :: x :: l
  end.

Definition sortScenariosByPriority (l : list Scenario) : list Scenario := foldr insert_ranked [] l.

Definition nextScenarioOrder (scenarios : list Scenario) : Z :=
  foldl (λ next s, if next <=? order s then order s + 1 else next) 0 scenarios.

Definition with_order (n : Z) (s : Scenario) : Scenario :=
  {| Name := Name s; Match_ := Match_ s; rules := rules s; compiledBody := compiledBody s;
     compiledRoutes := compiledRoutes s; compiledPaths := compiledPaths s;
     compiledCIDRs := compiledCIDRs s; Branches := Branches s; s_Response := s_Response s;
     Priority := Priority s; order := n |}.

(** Removes the first scenario of that name and gives its order. *)
Fixpoint remove_named (name : string) (scenarios : list Scenario) : option (Z * list Scenario) :=
  match scenarios with
  | [] => None
  | s :: scenarios =>
      if String.eqb (Name s) name then Some (order s, scenarios)
      else '(n, l) ← remove_named name scenarios; Some (n, s :: l)
  end.

(** The locked part of [Add], for a scenario that has been validated. *)
Definition addValidated (s : Scenario) (scenarios : list Scenario) : list Scenario :=
  let '(n, l) := match remove_named (Name s) scenarios with
                 | Some (n, l) => (n, l)
                 | None => (nextScenarioOrder scenarios, scenarios)
                 end in
  sortScenariosByPriority (l ++ [with_order n s]).

(** [None] is [ErrNoMatch]. *)
Definition Remove (name : string) (scenarios : list Scenario) : option (list Scenario) :=
  snd <$> remove_named name scenarios.

Definition defaultScenarioName : string := "default".

Fixpoint number_from (n : Z) (l : list Scenario) : list Scenario :=
  match l with [] => [] | s :: l => with_order n s :: number_from (n + 1) l end.

(** The locked part of [Load]: what becomes of the validated scenarios of a file. *)
Definition installLoaded (DefaultScenario : Scenario) (loaded : list Scenario) : list Scenario :=
  let loaded := if existsb (λ s, String.eqb (Name s) defaultScenarioName) loaded then loaded
                else loaded ++ [DefaultScenario] in
  sortScenariosByPriority (number_from 0 loaded).

(** ** Endpoint topology *)

Definition HasExactRoutes (scenarios : list Scenario) : bool :=
  existsb (λ s, negb (bool_decide (Routes (Match_ s) = ∅))) scenarios.

Definition scenarioPaths (s : Scenario) : list string :=
  List.filter (λ p, negb (String.eqb p "")) (Paths (Match_ s) ++ [Path (Match_ s)]).

(** A set printed in order, as the sorted slice of its members. *)
Definition ScenarioEndpointTopology (scenarios : list Scenario) : gset string :=
  list_to_set (flat_map scenarioPaths scenarios).

Definition ValidateExactRouteTopology (current next : list Scenario) : bool :=
  (negb (HasExactRoutes current) && negb (HasExactRoutes next))
  || bool_decide (ScenarioEndpointTopology current = ScenarioEndpointTopology next).

(** [Reload] with the scenarios the file now holds; [None] when it is refused. *)
Definition reloadWith (current next : list Scenario) : option (list Scenario) :=
  if ValidateExactRouteTopology current next then Some next else None.

(** ** The conditions of a scenario, without the effects *)

Definition routeCondition (s : Scenario) (req : Request) : bool :=
  match routePathsFor s (q_Method req) with
  | None => false
  | Some paths => bool_decide (paths = [])
                  || bool_decide (is_Some (matchEndpoint paths (extractPath (q_URI req))))
  end.

(** What reading a message for a body pattern gives. *)
Definition outcome (o : BodyPatternOptions) (m : Message) : body_result := (readBodyForPattern m (normalized o)).1.

Definition bodyCondition (s : Scenario) (o : BodyPatternOptions) (req : Request) : result MatchError bool :=
  match compiledBody s with
  | None => Ok true
  | Some pattern =>
      match side_message (bodyPatternSide req) req with
      | None => Ok false
      | Some m =>
          match outcome o m with
          | Ok body => Ok (MatchString pattern (string_of (bytes_or_nil body)))
          | Err e => match handleBodyPatternReadError e (normalized o) with
                     | None => Ok false
                     | Some e => Err e
                     end
          end
      end
  end.

Definition branchCondition (s : Scenario) (req : Request) : bool :=
  bool_decide (Branches s = []) || existsb (λ b, branchMatches b req) (Branches s).

(** Whether the scenario answers the request, or the error of reading its body. *)
Definition conditions (s : Scenario) (o : BodyPatternOptions) (req : Request) : result MatchError bool :=
  if negb (routeCondition s req) || negb (checkHTTP s req) then Ok false
  else
    match bodyCondition s o req with
    | Err e => Err e
    | Ok b => Ok (b && checkClient s req && branchCondition s req)
    end.

(** ** What matching may change in a request *)

Definition same_message (o : BodyPatternOptions) (m m' : option Message) : Prop :=
  match m, m' with
  | None, None => True
  | Some m, Some m' => msg_Method m' = msg_Method m ∧ msg_URI m' = msg_URI m ∧
                       msg_Header m' = msg_Header m ∧ outcome o m' = outcome o m
  | _, _ => False
  end.

(** Captures, branch and loaded bodies change; nothing a condition reads does. *)
Definition same_view (o : BodyPatternOptions) (q q' : Request) : Prop :=
  q_Method q' = q_Method q ∧ q_URI q' = q_URI q ∧ q_Header q' = q_Header q ∧
  q_ClientIP q' = q_ClientIP q ∧
  same_message o (q_HTTPRequest q) (q_HTTPRequest q') ∧
  same_message o (q_HTTPResponse q) (q_HTTPResponse q').

Lemma same_message_refl o m : same_message o m m.
Proof using. by destruct m. Qed.

Lemma same_message_trans o m1 m2 m3 : same_message o m1 m2 → same_message o m2 m3 → same_message o m1 m3.
Proof using. destruct m1, m2, m3; simpl; try done. intuition congruence. Qed.

Lemma same_view_refl o q : same_view o q q.
Proof using. unfold same_view. split_and!; auto using same_message_refl. Qed.

Lemma same_view_trans o q1 q2 q3 : same_view o q1 q2 → same_view o q2 q3 → same_view o q1 q3.
Proof using.
  intros (?&?&?&?&?&?) (?&?&?&?&?&?). unfold same_view.
  split_and!; [congruence..|eapply same_message_trans; eassumption|eapply same_message_trans; eassumption].
Qed.

Lemma same_view_captures o q c : same_view o q (set_captures c q).
Proof using. unfold same_view. split_and!; auto using same_message_refl. Qed.

Lemma same_view_branch o q i b : same_view o q (set_branch i b q).
Proof using. unfold same_view. split_and!; auto using same_message_refl. Qed.

Lemma readBodyForPattern_idemp o m res m' :
  readBodyForPattern m o = (res, m') →
  readBodyForPattern m' o = (res, m') ∧ msg_Method m' = msg_Method m ∧ msg_URI m' = msg_URI m ∧
  msg_Header m' = msg_Header m.
Proof using.
  unfold readBodyForPattern. intros Hr.
  assert (Hcap : ∀ b, contentLengthHint (with_msg_body b m) = contentLengthHint m) by done.
  destruct (Limit o <? 0) eqn:El.
  - pose proof (lazyLoad_idemp grow fuel sizes (-1) (contentLengthHint m) (msg_Body m)) as Hi.
    unfold GetBody in *.
    destruct (lazyLoadBodyLimitedWithCapacity _ _ _ _ _ (msg_Body m)) as [r b]. injection Hr as <- <-.
    rewrite Hcap. cbn [with_msg_body msg_Body]. rewrite Hi. done.
  - pose proof (lazyLoad_idemp grow fuel sizes (Limit o) (contentLengthHint m) (msg_Body m)) as Hi.
    unfold GetBodyLimited in *.
    destruct (lazyLoadBodyLimitedWithCapacity _ _ _ _ _ (msg_Body m)) as [r b]. injection Hr as <- <-.
    rewrite Hcap. cbn [with_msg_body msg_Body]. rewrite Hi. done.
Qed.

Lemma same_view_side o q d m m' :
  side_message d q = Some m → (readBodyForPattern m (normalized o)).2 = m' →
  same_view o q (set_side d m' q).
Proof using.
  intros Hm Hr. destruct (readBodyForPattern m (normalized o)) as [res m2] eqn:E. simpl in Hr. subst m2.
  pose proof (readBodyForPattern_idemp _ _ _ _ E) as (Hi & H1 & H2 & H3).
  assert (Hs : same_message o (Some m) (Some m')).
  { simpl. split_and!; try done. unfold outcome. by rewrite Hi, E. }
  unfold same_view. destruct d; simpl in Hm |- *; rewrite Hm; split_and!; auto using same_message_refl.
Qed.

(** Replaces the fields of a message that matching left alone. *)
Ltac view_rewrite :=
  repeat match goal with H : _ ∧ _ |- _ => destruct H end;
  repeat match goal with
  | H : msg_Header _ = _ |- _ => rewrite H; clear H
  | H : msg_URI _ = _ |- _ => rewrite H; clear H
  | H : msg_Method _ = _ |- _ => rewrite H; clear H
  end.

(** Conditions read only what matching leaves alone. *)
Lemma httpHeaderLookup_view o q q' : same_view o q q' → ∀ key, httpHeaderLookup q' key = httpHeaderLookup q key.
Proof using.
  intros (Hm & _ & _ & _ & H1 & H2) key. unfold httpHeaderLookup. rewrite Hm.
  destruct (q_HTTPRequest q), (q_HTTPRequest q'); simpl in H1; try done;
    destruct (q_HTTPResponse q), (q_HTTPResponse q'); simpl in H2; try done; simpl;
    by view_rewrite.
Qed.

Lemma headerRulesMatch_ext exact regexes lists l1 l2 :
  (∀ key, l1 key = l2 key) → headerRulesMatch exact regexes lists l1 = headerRulesMatch exact regexes lists l2.
Proof using.
  intros Hl. unfold headerRulesMatch. f_equal.
  - induction (map_to_list exact) as [|[k v] l IH]; [done|]. simpl. by rewrite Hl, IH.
  - induction (map_to_list lists) as [|[k v] l IH]; [done|]. simpl. by rewrite Hl, IH.
Qed.

Lemma http_view o q q' r c :
  same_view o q q' →
  httpMethodMatches r q' = httpMethodMatches r q ∧ httpHeadersMatch r c q' = httpHeadersMatch r c q ∧
  httpURLMatches r c q' = httpURLMatches r c q.
Proof using.
  intros Hv. pose proof (httpHeaderLookup_view o q q' Hv) as Hlk.
  destruct Hv as (_ & _ & _ & _ & H1 & H2).
  unfold httpMethodMatches, httpHeadersMatch, httpURLMatches, hasEncapsulatedHTTP.
  rewrite (headerRulesMatch_ext _ _ _ _ _ Hlk).
  destruct (q_HTTPRequest q), (q_HTTPRequest q'); simpl in H1; try done;
    destruct (q_HTTPResponse q), (q_HTTPResponse q'); simpl in H2; try done;
    split_and!; by view_rewrite.
Qed.

Lemma branch_view o q q' b : same_view o q q' → branchMatches b q' = branchMatches b q.
Proof using.
  intros Hv. unfold branchMatches. destruct (http_view o q q' (b_Match b) (b_rules b) Hv) as (-> & -> & ->).
  destruct Hv as (_ & _ & -> & _). done.
Qed.

Lemma checkHTTP_view o q q' s : same_view o q q' → checkHTTP s q' = checkHTTP s q.
Proof using.
  intros Hv. unfold checkHTTP. destruct (http_view o q q' (Match_ s) (rules s) Hv) as (-> & -> & ->).
  destruct Hv as (_ & _ & -> & _). done.
Qed.

Lemma existsb_view o q q' l :
  same_view o q q' → existsb (λ b, branchMatches b q') l = existsb (λ b, branchMatches b q) l.
Proof using. intros Hv. induction l as [|b l IH]; [done|]. simpl. by rewrite IH, (branch_view o q q'). Qed.

Lemma bodyCondition_view o q q' s : same_view o q q' → bodyCondition s o q' = bodyCondition s o q.
Proof using.
  intros Hv. unfold bodyCondition, bodyPatternSide. destruct Hv as (-> & _ & _ & _ & H1 & H2).
  assert (Hr : bool_decide (is_Some (q_HTTPRequest q')) = bool_decide (is_Some (q_HTTPRequest q))).
  { apply bool_decide_ext. destruct (q_HTTPRequest q), (q_HTTPRequest q'); simpl in H1; try done;
      (split; intros _; by eexists). }
  rewrite Hr. destruct (compiledBody s); [|done].
  destruct (if bool_decide (q_Method q = MethodRESPMOD) then ResponseSide
            else if bool_decide (q_Method q = MethodREQMOD) then RequestSide
            else if bool_decide (is_Some (q_HTTPRequest q)) then RequestSide else ResponseSide); simpl.
  - destruct (q_HTTPRequest q), (q_HTTPRequest q'); simpl in H1; try done. by destruct H1 as (_ & _ & _ & ->).
  - destruct (q_HTTPResponse q), (q_HTTPResponse q'); simpl in H2; try done. by destruct H2 as (_ & _ & _ & ->).
Qed.

Lemma conditions_view o q q' s : same_view o q q' → conditions s o q' = conditions s o q.
Proof using.
  intros Hv. unfold conditions, routeCondition, branchCondition, checkClient.
  rewrite (checkHTTP_view o q q'), (existsb_view o q q'), (bodyCondition_view o q q') by done.
  by destruct Hv as (-> & -> & _ & -> & _).
Qed.

(** ** Matching one scenario *)

Definition state_of (q : Request) : MatchState := {| st_req := q; st_ctx := [] |}.

(** The captures of the endpoint of [s] that accepts the request. *)
Definition endpointCaptures (s : Scenario) (req : Request) : gmap string string :=
  match routePathsFor s (q_Method req) with
  | Some paths => if bool_decide (paths = []) then ∅
                  else default ∅ (matchEndpoint paths (extractPath (q_URI req)))
  | None => ∅
  end.

Definition merged_captures (caps : gmap string string) (old : option (gmap string string)) : option (gmap string string) :=
  if bool_decide (caps = ∅) then old else Some (caps ∪ default ∅ old).

(** The branch recorded in the request is the first that matches. *)
Definition branch_chosen (s : Scenario) (req q' : Request) : Prop :=
  if bool_decide (Branches s = []) then MatchedBranch q' = (0, false)
  else ∃ i b, Branches s !! i = Some b ∧ branchMatches b req = true ∧
       (∀ j b', (j < i)%nat → Branches s !! j = Some b' → branchMatches b' req = false) ∧
       MatchedBranch q' = (Z.of_nat i, true).

Lemma checkEndpoint_spec o paths q :
  ∃ q', checkEndpoint paths (state_of q) =
    (Ok (bool_decide (paths = []) || bool_decide (is_Some (matchEndpoint paths (extractPath (q_URI q))))),
     state_of q') ∧ same_view o q q' ∧
    Captures q' = merged_captures (if bool_decide (paths = []) then ∅
      else default ∅ (matchEndpoint paths (extractPath (q_URI q)))) (Captures q).
Proof using.
  unfold checkEndpoint, mbind', get_req, mret, put_req, merged_captures, state_of. cbn [st_req st_ctx].
  case_bool_decide as Ep; cbn [orb].
  { exists q. rewrite bool_decide_true by done. split_and!; [done|apply same_view_refl|done]. }
  destruct (matchEndpoint paths (extractPath (q_URI q))) as [caps|] eqn:Em; cbn [default from_option id].
  - rewrite (bool_decide_true (is_Some _)) by eauto. case_bool_decide as Ec.
    + exists q. split_and!; [done|apply same_view_refl|done].
    + eexists. split_and!; [done|apply same_view_captures|done].
  - rewrite (bool_decide_false (is_Some _)) by (intros [? ?]; done). exists q.
    rewrite bool_decide_true by done. split_and!; [done|apply same_view_refl|done].
Qed.

Lemma checkBody_spec s o q :
  ∃ q', checkBody s o (state_of q) = (bodyCondition s o q, state_of q') ∧ same_view o q q' ∧
        Captures q' = Captures q.
Proof using.
  unfold checkBody, bodyCondition. destruct (compiledBody s) as [pattern|].
  2:{ exists q. split_and!; [done|apply same_view_refl|done]. }
  unfold mbind', ctxAlive, get_req, state_of. cbn [st_req st_ctx].
  destruct (side_message (bodyPatternSide q) q) as [m|] eqn:Em.
  2:{ exists q. split_and!; [done|apply same_view_refl|done]. }
  unfold bodyPatternMatches, outcome. cbv zeta.
  destruct (readBodyForPattern m (normalized o)) as [res m'] eqn:Er.
  unfold mbind', get_req, put_req, ctxAlive, mret, merr. cbn [st_req st_ctx].
  exists (set_side (bodyPatternSide q) m' q). split_and!.
  - cbn [fst]. destruct res as [body|e]; [done|]. by destruct (handleBodyPatternReadError e (normalized o)).
  - eapply same_view_side; [done|]. by rewrite Er.
  - by destruct (bodyPatternSide q).
Qed.

Lemma selectBranchFrom_spec i bs req :
  match existsb (λ b, branchMatches b req) bs with
  | true => ∃ j b, bs !! j = Some b ∧ branchMatches b req = true ∧
              (∀ k b', (k < j)%nat → bs !! k = Some b' → branchMatches b' req = false) ∧
              selectBranchFrom i bs req = i + Z.of_nat j
  | false => selectBranchFrom i bs req = -1
  end.
Proof using.
  revert i. induction bs as [|b bs IH]; intros i; simpl; [done|].
  destruct (branchMatches b req) eqn:Eb; simpl.
  - exists O, b. split_and!; [done|done|lia|lia].
  - specialize (IH (i + 1)). destruct (existsb _ bs).
    + destruct IH as (j & b' & Hj & Hb & Hlt & ->). exists (S j), b'. split_and!; [done|done| |lia].
      intros [|k] b2 Hk; simpl; [by intros [= <-]|]. apply Hlt. lia.
    + done.
Qed.

Lemma SelectBranch_range s req : -1 ≤ SelectBranch s req < Z.of_nat (length (Branches s)).
Proof using.
  unfold SelectBranch. pose proof (selectBranchFrom_spec 0 (Branches s) req) as Hs.
  destruct (existsb _ _); [|lia]. destruct Hs as (j & b & Hj & _ & _ & ->).
  apply lookup_lt_Some in Hj. lia.
Qed.

Lemma checkBranches_spec o s q :
  ∃ q', checkBranches s (state_of q) = (Ok (branchCondition s q), state_of q') ∧ same_view o q q' ∧
        Captures q' = Captures q ∧ (branchCondition s q = true → branch_chosen s q q').
Proof using.
  unfold checkBranches, branchCondition, branch_chosen, mbind', get_req, put_req, mret, state_of.
  cbn [st_req st_ctx]. case_bool_decide as Eb; cbn [orb].
  { eexists. split_and!; [done|apply same_view_branch|done|done]. }
  assert (Hv : same_view o q (ClearMatchedBranch q)) by apply same_view_branch.
  unfold SelectBranch. pose proof (selectBranchFrom_spec 0 (Branches s) (ClearMatchedBranch q)) as Hs.
  rewrite (existsb_view o q (ClearMatchedBranch q) _ Hv) in Hs.
  destruct (existsb (λ b, branchMatches b q) (Branches s)).
  - destruct Hs as (j & b & Hj & Hb & Hlt & ->). rewrite (proj2 (Z.ltb_ge _ _)) by lia.
    eexists. split_and!; [done|eapply same_view_trans; [exact Hv|apply same_view_branch]|done|].
    intros _. exists j, b. split_and!; [done|by rewrite <- (branch_view o q _ b Hv)| |].
    + intros k b' Hk Hb'. rewrite <- (branch_view o q _ b' Hv). by eapply Hlt.
    + unfold MatchedBranch, SetMatchedBranch. cbn. by rewrite (proj2 (Z.leb_le _ _)) by lia.
  - rewrite Hs. eexists. split_and!; [done|exact Hv|done|done].
Qed.

Lemma branch_chosen_view o q q1 q' s : same_view o q q1 → branch_chosen s q1 q' → branch_chosen s q q'.
Proof using.
  intros Hv. unfold branch_chosen. case_bool_decide; [done|].
  intros (j & b & Hj & Hb & Hlt & Hm). exists j, b. split_and!; [done| | |done].
  - by rewrite <- (branch_view o q q1 b Hv).
  - intros k b' Hk Hb'. rewrite <- (branch_view o q q1 b' Hv). by eapply Hlt.
Qed.

Lemma endpointCaptures_view o q q' s : same_view o q q' → endpointCaptures s q' = endpointCaptures s q.
Proof using. intros (Hm & Hu & _). unfold endpointCaptures. by rewrite Hm, Hu. Qed.

Lemma merged_captures_empty c : merged_captures ∅ c = c.
Proof using. done. Qed.

Lemma matchesScenario_spec s o q :
  ∃ q', matchesScenario s o (state_of q) = (conditions s o q, state_of q') ∧ same_view o q q' ∧
        Captures q' = merged_captures (endpointCaptures s q) (Captures q) ∧
        (conditions s o q = Ok true → branch_chosen s q q').
Proof using.
  unfold matchesScenario, conditions, routeCondition, endpointCaptures.
  unfold mbind' at 1, ctxAlive at 1. cbn [st_ctx state_of]. unfold mbind' at 1, get_req at 1. cbn [st_req state_of].
  destruct (routePathsFor s (q_Method q)) as [paths|] eqn:Er.
  2:{ exists q. split_and!; [done|apply same_view_refl|by rewrite merged_captures_empty|done]. }
  unfold mbind' at 1. destruct (checkEndpoint_spec o paths q) as (q1 & -> & Hv1 & Hc1).
  destruct (bool_decide (paths = []) || _) eqn:Eroute; cbn [negb orb].
  2:{ exists q1. by split_and!. }
  unfold mbind' at 1, get_req at 1. cbn [st_req state_of]. rewrite (checkHTTP_view o q q1 s Hv1).
  destruct (checkHTTP s q) eqn:Eh; cbn [negb].
  2:{ exists q1. by split_and!. }
  unfold mbind' at 1. destruct (checkBody_spec s o q1) as (q2 & -> & Hv2 & Hc2).
  rewrite (bodyCondition_view o q q1 s Hv1).
  assert (Hv12 : same_view o q q2) by (by eapply same_view_trans).
  destruct (bodyCondition s o q) as [body|e] eqn:Eb.
  2:{ exists q2. split_and!; [done|done|congruence|done]. }
  destruct body; cbn [negb andb].
  2:{ exists q2. split_and!; [done|done|congruence|done]. }
  unfold mbind' at 1, ctxAlive at 1. cbn [st_ctx state_of]. unfold mbind' at 1, get_req at 1. cbn [st_req state_of].
  assert (Hcl : checkClient s q2 = checkClient s q).
  { unfold checkClient. by destruct Hv12 as (_ & _ & _ & -> & _). }
  rewrite Hcl. destruct (checkClient s q); cbn [negb andb].
  2:{ exists q2. split_and!; [done|done|congruence|done]. }
  destruct (checkBranches_spec o s q2) as (q3 & -> & Hv3 & Hc3 & Hb3).
  assert (Hbr : branchCondition s q2 = branchCondition s q).
  { unfold branchCondition. by rewrite (existsb_view o q q2). }
  rewrite Hbr in *. exists q3. split_and!; [done|by eapply same_view_trans|congruence|].
  intros [= Htrue]. apply (branch_chosen_view o q q2 q3 s Hv12). by apply Hb3.
Qed.

(** ** The order of a registry *)

Definition outranks (s1 s2 : Scenario) : Prop := scenarioOutranks s1 s2 = true.

(** What every operation of a registry keeps: scenarios in priority order, and
    no two of the same order of declaration. *)
Definition registry_ok (l : list Scenario) : Prop :=
  StronglySorted outranks l ∧ NoDup (map order l).

Lemma outranks_iff s1 s2 :
  outranks s1 s2 ↔ Priority s2 < Priority s1 ∨ Priority s1 = Priority s2 ∧ order s1 < order s2.
Proof using.
  unfold outranks, scenarioOutranks. destruct (Z.eqb_spec (Priority s1) (Priority s2)); simpl;
    rewrite Z.ltb_lt; lia.
Qed.

Lemma outranks_trans s1 s2 s3 : outranks s1 s2 → outranks s2 s3 → outranks s1 s3.
Proof using. rewrite !outranks_iff. lia. Qed.

Lemma outranks_irrefl s : ¬ outranks s s.
Proof using. rewrite outranks_iff. lia. Qed.

Lemma not_outranks s1 s2 : scenarioOutranks s1 s2 = false → order s1 ≠ order s2 → outranks s2 s1.
Proof using.
  intros Hf. assert (Hn : ¬ outranks s1 s2) by (unfold outranks; congruence).
  revert Hn. rewrite !outranks_iff. lia.
Qed.

Lemma insert_ranked_perm s l : insert_ranked s l ≡ₚ s :: l.
Proof using.
  induction l as [|x l IH]; simpl; [done|]. destruct (scenarioOutranks x s); [|done].
  rewrite IH. apply Permutation_swap.
Qed.

Lemma insert_ranked_sorted s l :
  order s ∉ map order l → StronglySorted outranks l → StronglySorted outranks (insert_ranked s l).
Proof using.
  intros Hs Hl. induction Hl as [|x l Hl IH Hx]; simpl.
  { constructor; [constructor|constructor]. }
  simpl in Hs. apply not_elem_of_cons in Hs as [Hx' Hs].
  destruct (scenarioOutranks x s) eqn:E; constructor.
  - by apply IH.
  - rewrite insert_ranked_perm. by constructor.
  - by constructor.
  - assert (Hsx : outranks s x) by (by apply not_outranks). constructor; [done|].
    eapply Forall_impl; [exact Hx|]. intros y. by apply outranks_trans.
Qed.

Lemma sort_perm l : sortScenariosByPriority l ≡ₚ l.
Proof using. induction l as [|s l IH]; simpl; [done|]. by rewrite insert_ranked_perm, IH. Qed.

Lemma sort_registry_ok l : NoDup (map order l) → registry_ok (sortScenariosByPriority l).
Proof using.
  intros Hnd. split.
  - induction l as [|s l IH]; simpl; [constructor|]. simpl in Hnd. apply NoDup_cons in Hnd as [Hs Hnd].
    apply insert_ranked_sorted; [by rewrite sort_perm|by apply IH].
  - by rewrite sort_perm.
Qed.

Lemma registry_ok_cons s l :
  registry_ok (s :: l) → registry_ok l ∧ Forall (outranks s) l.
Proof using.
  intros [Hs Hn]. inversion Hs; subst. simpl in Hn. apply NoDup_cons in Hn as [_ Hn]. by split_and!.
Qed.

(** ** Adding and removing *)

Lemma nextScenarioOrder_above l : Forall (λ s, order s < nextScenarioOrder l) l.
Proof using.
  unfold nextScenarioOrder.
  assert (Hg : ∀ n, n ≤ foldl (λ next s, if next <=? order s then order s + 1 else next) n l ∧
    Forall (λ s, order s < foldl (λ next s, if next <=? order s then order s + 1 else next) n l) l).
  { induction l as [|s l IH]; intros n; cbn [foldl]; [by split; [lia|constructor]|].
    destruct (IH (if n <=? order s then order s + 1 else n)) as [Hle Hall].
    destruct (Z.leb_spec n (order s)); (split; [lia|constructor; [lia|exact Hall]]). }
  apply Hg.
Qed.

Lemma remove_named_spec name l :
  match remove_named name l with
  | Some (n, l') => ∃ l1 s l2, l = l1 ++ s :: l2 ∧ l' = l1 ++ l2 ∧ Name s = name ∧ n = order s ∧
                               Forall (λ x, Name x ≠ name) l1
  | None => Forall (λ x, Name x ≠ name) l
  end.
Proof using.
  induction l as [|s l IH]; simpl; [constructor|]. destruct (String.eqb_spec (Name s) name) as [E|E].
  - exists [], s, l. by split_and!.
  - destruct (remove_named name l) as [[n l']|]; simpl.
    + destruct IH as (l1 & s' & l2 & -> & -> & Hn & Ho & Hl1). exists (s :: l1), s', l2.
      split_and!; [done..|by constructor].
    + by constructor.
Qed.

Lemma StronglySorted_remove l1 s l2 :
  StronglySorted outranks (l1 ++ s :: l2) → StronglySorted outranks (l1 ++ l2).
Proof using.
  induction l1 as [|x l1 IH]; simpl; intros Hs; inversion Hs as [|? ? Hs' Hf]; subst; [done|].
  constructor; [by apply IH|]. apply Forall_app in Hf as [Hf1 Hf2]. inversion Hf2; subst.
  by apply Forall_app.
Qed.

Lemma NoDup_remove_order l1 s l2 :
  NoDup (map order (l1 ++ s :: l2)) → NoDup (map order (l1 ++ l2)) ∧ order s ∉ map order (l1 ++ l2).
Proof using.
  rewrite !map_app. simpl. rewrite <- Permutation_middle. intros Hn. by apply NoDup_cons in Hn as [? ?].
Qed.

Lemma Remove_ok name l l' : registry_ok l → Remove name l = Some l' → registry_ok l'.
Proof using.
  intros [Hs Hn]. unfold Remove. pose proof (remove_named_spec name l) as Hr.
  destruct (remove_named name l) as [[n l2]|]; simpl; intros [= <-].
  destruct Hr as (l1 & s & l3 & -> & -> & _). split; [by eapply StronglySorted_remove|].
  by destruct (NoDup_remove_order _ _ _ Hn).
Qed.

Lemma NoDup_snoc_order l s : NoDup (map order l) → order s ∉ map order l → NoDup (map order (l ++ [s])).
Proof using.
  intros Hn Hs. rewrite map_app. simpl. rewrite <- Permutation_cons_append. by constructor.
Qed.

Lemma addValidated_ok s l : registry_ok l → registry_ok (addValidated s l).
Proof using.
  intros [Hs Hn]. unfold addValidated. pose proof (remove_named_spec (Name s) l) as Hr.
  destruct (remove_named (Name s) l) as [[n l2]|]; apply sort_registry_ok.
  - destruct Hr as (l1 & s' & l3 & -> & -> & _ & -> & _).
    destruct (NoDup_remove_order _ _ _ Hn). by apply NoDup_snoc_order.
  - apply NoDup_snoc_order; [done|]. simpl. intros Hin. apply list_elem_of_fmap in Hin as (x & Ho & Hx).
    pose proof (nextScenarioOrder_above l) as Ha. rewrite Forall_forall in Ha. specialize (Ha x Hx). lia.
Qed.

Lemma number_from_ge n l : Forall (λ s, n ≤ order s) (number_from n l).
Proof using.
  revert n. induction l as [|s l IH]; intros n; simpl; [constructor|]. constructor; [simpl; lia|].
  eapply Forall_impl; [apply IH|]. simpl. lia.
Qed.

Lemma number_from_NoDup n l : NoDup (map order (number_from n l)).
Proof using.
  revert n. induction l as [|s l IH]; intros n; simpl; constructor; [|apply IH].
  intros Hin. apply list_elem_of_fmap in Hin as (x & Ho & Hx).
  pose proof (number_from_ge (n + 1) l) as Ha. rewrite Forall_forall in Ha. specialize (Ha x Hx). lia.
Qed.

Lemma installLoaded_ok d l : registry_ok (installLoaded d l).
Proof using. unfold installLoaded. apply sort_registry_ok, number_from_NoDup. Qed.

(** What the management calls and the loader do to a registry. *)
Inductive registry_step (DefaultScenario : Scenario) : list Scenario → list Scenario → Prop :=
| step_load loaded l : registry_step DefaultScenario l (installLoaded DefaultScenario loaded)
| step_reload loaded l l' :
    reloadWith l (installLoaded DefaultScenario loaded) = Some l' → registry_step DefaultScenario l l'
| step_add s l : registry_step DefaultScenario l (addValidated s l)
| step_remove name l l' : Remove name l = Some l' → registry_step DefaultScenario l l'.

(** A registry that starts with the default scenario and then is loaded,
    reloaded, added to and removed from in any order always holds its scenarios
    in priority order, ties broken by order of declaration, and no two of them
    share that order. *)
Theorem registry_invariant (DefaultScenario : Scenario) l :
  rtc (registry_step DefaultScenario) [DefaultScenario] l → registry_ok l.
Proof using.
  intros Hr. remember [DefaultScenario] as l0 eqn:E.
  assert (H0 : registry_ok l0).
  { subst l0. split; [repeat constructor|]. apply NoDup_singleton. }
  clear E. induction Hr as [|l0 l1 l2 Hs _ IH]; [done|]. apply IH.
  destruct Hs as [loaded l|loaded l l' Hl|s l|name l l' Hl].
  - apply installLoaded_ok.
  - unfold reloadWith in Hl. destruct (ValidateExactRouteTopology _ _); [|done].
    injection Hl as <-. apply installLoaded_ok.
  - by apply addValidated_ok.
  - by eapply Remove_ok.
Qed.

(** [Add] replaces the first scenario of the same name, which gives its
    place in the order of declaration to the new one; a scenario of a new name
    is placed after all others of its priority. Nothing else in the registry
    changes. *)
Theorem add_replaces s l :
  (∃ l1 old l2, l = l1 ++ old :: l2 ∧ Name old = Name s ∧ Forall (λ x, Name x ≠ Name s) l1 ∧
     addValidated s l ≡ₚ with_order (order old) s :: l1 ++ l2) ∨
  (Forall (λ x, Name x ≠ Name s) l ∧
     ∃ n, addValidated s l ≡ₚ with_order n s :: l ∧ Forall (λ x, order x < n) l).
Proof using.
  unfold addValidated. pose proof (remove_named_spec (Name s) l) as Hr.
  destruct (remove_named (Name s) l) as [[n l']|].
  - left. destruct Hr as (l1 & old & l2 & -> & -> & Hn & -> & Hl1). exists l1, old, l2.
    split_and!; [done..|]. by rewrite sort_perm, <- Permutation_cons_append.
  - right. split; [done|]. exists (nextScenarioOrder l). split; [|apply nextScenarioOrder_above].
    by rewrite sort_perm, <- Permutation_cons_append.
Qed.

(** ** Matching a request against a registry *)

(** The captures left after the endpoints of these scenarios were tried. *)
Definition captures_after (q : Request) (tried : list Scenario) : option (gmap string string) :=
  foldl (λ c s, merged_captures (endpointCaptures s q) c) (Captures q) tried.

Lemma conditions_Forall_view o q q1 l :
  same_view o q q1 → Forall (λ s, conditions s o q1 = Ok false) l → Forall (λ s, conditions s o q = Ok false) l.
Proof using.
  intros Hv Hl. eapply Forall_impl; [exact Hl|]. intros s. cbn beta. by rewrite (conditions_view o q q1 s Hv).
Qed.

Lemma captures_after_view o q q1 s tried :
  same_view o q q1 → Captures q1 = merged_captures (endpointCaptures s q) (Captures q) →
  captures_after q1 tried = captures_after q (s :: tried).
Proof using.
  intros Hv Hc. unfold captures_after. simpl. rewrite Hc. generalize (merged_captures (endpointCaptures s q) (Captures q)).
  induction tried as [|x tried IH]; intros c; [done|]. simpl. by rewrite (endpointCaptures_view o q q1 x Hv), IH.
Qed.

(** The loop tries scenarios in turn until one answers or fails. *)
Lemma matchLoop_spec o l n q :
  ∃ tried rest res q', l = tried ++ rest ∧ matchLoop l n o (state_of q) = (res, state_of q') ∧ same_view o q q' ∧
    Forall (λ s, conditions s o q = Ok false) tried ∧
    match rest with
    | [] => res = Err (NoScenarioMatched (n + length l)) ∧ Captures q' = captures_after q tried
    | s :: _ => Captures q' = captures_after q (tried ++ [s]) ∧
        (conditions s o q = Ok true ∧ res = Ok s ∧ branch_chosen s q q' ∨
         ∃ e, conditions s o q = Err e ∧ res = Err e)
    end.
Proof using.
  revert n q. induction l as [|s l IH]; intros n q.
  { exists [], [], (Err (NoScenarioMatched n)), q. split_and!; [done|done|apply same_view_refl|constructor| |done].
    simpl. by rewrite Nat.add_0_r. }
  cbn [matchLoop]. unfold mbind' at 1, ctxAlive at 1. cbn [st_ctx state_of]. unfold mbind' at 1.
  destruct (matchesScenario_spec s o q) as (q1 & -> & Hv & Hc & Hb).
  destruct (conditions s o q) as [[]|e] eqn:Ec.
  - exists [], (s :: l), (Ok s), q1. split_and!; [done..|constructor|done|]. left. by split_and!; [|done|apply Hb].
  - destruct (IH (S n) q1) as (tried & rest & res & q' & -> & Hm & Hv' & Hf & Hrest).
    exists (s :: tried), rest, res, q'. rewrite Hm. cbn [app].
    split_and!; [done|done|by eapply same_view_trans| |].
    + constructor; [done|]. by eapply conditions_Forall_view.
    + destruct rest as [|s' rest].
      * destruct Hrest as [-> ->]. split; [|by apply captures_after_view with o].
        rewrite app_nil_r. f_equal. f_equal. simpl. lia.
      * destruct Hrest as [-> Hr]. split; [by apply (captures_after_view o q q1 s (tried ++ [s']))|].
        rewrite (conditions_view o q q1 s' Hv) in Hr. destruct Hr as [(?&?&?)|?]; [left|right; done].
        split_and!; [done..|]. by eapply branch_chosen_view.
  - exists [], (s :: l), (Err e), q1. split_and!; [done..|constructor|done|]. right. by exists e.
Qed.

Lemma registry_ok_app tried s rest :
  registry_ok (tried ++ s :: rest) → Forall (λ x, outranks x s) tried ∧ Forall (outranks s) rest.
Proof using.
  induction tried as [|x tried IH]; cbn [app]; intros Ho; apply registry_ok_cons in Ho as [Ho Hx].
  - by split.
  - destruct (IH Ho) as [IH1 IH2]. split; [|done]. constructor; [|done].
    apply Forall_app in Hx as [_ Hx]. by inversion Hx.
Qed.

(** C2: matching a request against a registry. The scenario given is one whose
    conditions hold, every other scenario whose conditions hold comes after it
    in priority order, and the branch stored in the request is the first of its
    branches that holds. Without a scenario the conditions of all fail, or the
    body could not be read for a scenario before which none matched. The
    request keeps what conditions read. *)
Theorem match_selects l o q :
  registry_ok l →
  ∃ res q', Match l o (state_of q) = (res, state_of q') ∧ same_view o q q' ∧
  match res with
  | Ok s => s ∈ l ∧ conditions s o q = Ok true ∧ branch_chosen s q q' ∧
            ∀ s', s' ∈ l → conditions s' o q = Ok true → s' = s ∨ outranks s s'
  | Err (NoScenarioMatched n) => n = length l ∧ ∀ s, s ∈ l → conditions s o q = Ok false
  | Err e => ∃ s, s ∈ l ∧ conditions s o q = Err e ∧
             ∀ s', s' ∈ l → outranks s' s → conditions s' o q = Ok false
  end.
Proof using.
  intros Hok. unfold Match, mbind', ctxAlive. cbn [st_ctx state_of].
  destruct (matchLoop_spec o l 0 q) as (tried & rest & res & q' & -> & Hm & Hv & Hf & Hrest).
  rewrite Hm. exists res, q'. split_and!; [done..|]. rewrite Forall_forall in Hf.
  destruct rest as [|s rest].
  { destruct Hrest as [-> _]. rewrite app_nil_r. split; [done|]. intros s. apply Hf. }
  destruct (registry_ok_app _ _ _ Hok) as [Hbefore Hafter]. rewrite Forall_forall in Hbefore, Hafter.
  assert (Hs : s ∈ tried ++ s :: rest) by set_solver.
  destruct Hrest as [_ [(Hc & -> & Hb)|(e & Hc & ->)]].
  - split_and!; [done..|]. intros s' Hs' Hc'. apply elem_of_app in Hs' as [Hs'|Hs'].
    + by rewrite (Hf _ Hs') in Hc'.
    + apply elem_of_cons in Hs' as [->|Hs']; [by left|right; by apply Hafter].
  - assert (Hbest : ∀ s', s' ∈ tried ++ s :: rest → outranks s' s → conditions s' o q = Ok false).
    { intros s' Hs' Ho. apply elem_of_app in Hs' as [Hs'|Hs']; [by apply Hf|].
      apply elem_of_cons in Hs' as [->|Hs']; [by apply outranks_irrefl in Ho|].
      destruct (outranks_irrefl s). by apply outranks_trans with s'; [apply Hafter|]. }
    destruct e; try by exists s.
    exfalso. revert Hc. unfold conditions, bodyCondition, handleBodyPatternReadError.
    clear. repeat case_match; naive_solver.
Qed.

(** A scenario that is tried and does not match leaves the captures of its
    endpoint in the request: they are there for the answer of the scenario
    that matches, as if its own endpoint had captured them. *)
Theorem captures_of_failed_candidates o s1 s2 l q key v :
  conditions s1 o q = Ok false → endpointCaptures s1 q !! key = Some v →
  conditions s2 o q = Ok true → endpointCaptures s2 q !! key = None →
  ∃ q', Match (s1 :: s2 :: l) o (state_of q) = (Ok s2, state_of q') ∧
        (default ∅ (Captures q') !! key = Some v).
Proof using.
  intros H1 Hk H2 Hn. unfold Match, mbind' at 1, ctxAlive at 1. cbn [st_ctx state_of matchLoop].
  unfold mbind' at 1, ctxAlive at 1. cbn [st_ctx state_of]. unfold mbind' at 1.
  destruct (matchesScenario_spec s1 o q) as (q1 & -> & Hv1 & Hc1 & _). rewrite H1.
  unfold mbind' at 1, ctxAlive at 1. cbn [st_ctx state_of]. unfold mbind' at 1.
  destruct (matchesScenario_spec s2 o q1) as (q2 & -> & _ & Hc2 & _).
  rewrite (conditions_view o q q1 s2 Hv1), H2. exists q2. split; [done|].
  rewrite Hc2, (endpointCaptures_view o q q1 s2 Hv1), Hc1. unfold merged_captures.
  rewrite (bool_decide_false (endpointCaptures s1 q = ∅)) by (intros E; by rewrite E in Hk).
  case_bool_decide; cbn [default from_option id].
  - by apply lookup_union_Some_l.
  - rewrite lookup_union_r by done. by apply lookup_union_Some_l.
Qed.
End Scenarios.

(** ** A registry of three scenarios *)

Module Demo.

(** A pattern is the submatches it finds in each string, and its group names. *)
Definition Pattern : Type := (string → option (list string)) * list string.

Definition exactly (s : string) : Pattern := (λ t, if String.eqb t s then Some [t] else None, [""]).
Definition scan_id : Pattern :=
  (λ t, if String.prefix "/scan/" t then Some [t; str_drop 6 t] else None, [""; "id"]).
Definition containing (needle : string) : Pattern :=
  (λ t, if contains_str t needle then Some [needle] else None, [""]).

Definition no_rule : MatchRule :=
  {| Routes := ∅; Path := ""; Paths := []; Methods := []; mr_HTTPMethod := ""; HTTPURL := "";
     Headers := ∅; HeaderContains := ∅; HTTPHeaders := ∅; HTTPHeaderContains := ∅;
     BodyPattern := ""; ClientIP := ""; CIDRRanges := [] |}.
Definition no_rules : CompiledRules (Regexp := Pattern) :=
  {| compiledHeaders := ∅; compiledHeaderLists := ∅; compiledHTTPHeaders := ∅;
     compiledHTTPLists := ∅; compiledHTTPURL := None |}.

Definition scenario (name : string) (priority n : Z) (rule : MatchRule) (body : option Pattern)
    (paths : list (compiledEndpoint (Regexp := Pattern))) : Scenario (Regexp := Pattern) (IPNet := string) (Response := nat) :=
  {| Name := name; Match_ := rule; rules := no_rules; compiledBody := body; compiledRoutes := None;
     compiledPaths := paths; compiledCIDRs := []; Branches := []; s_Response := 204%nat;
     Priority := priority; order := n |}.

Definition premium : Scenario :=
  scenario "premium" 10 0 {| Routes := ∅; Path := ""; Paths := ["/scan/{id}"]; Methods := []; mr_HTTPMethod := "";
    HTTPURL := ""; Headers := {[ "X-Plan" := "premium" ]}; HeaderContains := ∅; HTTPHeaders := ∅; HTTPHeaderContains := ∅;
    BodyPattern := ""; ClientIP := ""; CIDRRanges := [] |} None [{| re := Some scan_id; raw := "/scan/{id}"; captures := ["id"] |}].
Definition eicar : Scenario :=
  scenario "eicar" 5 1 no_rule (Some (containing "EICAR")) [].
Definition fallback : Scenario := scenario "default" (-1) 2 no_rule None [].

Definition message : Message (R := ChunkedConn) :=
  {| msg_Method := "GET"; msg_URI := "/"; msg_Status := ""; msg_StatusText := ""; msg_Proto := "HTTP/1.1"; msg_Header := ∅;
     msg_Body := fresh_body (Some {| cc_reader := NewChunkedReader; cc_ending := EOF;
       cc_source := encode [bytes_of "xxEICA"; bytes_of "Rxx"] ++ last_chunk |}) |}.
Definition request : Request (R := ChunkedConn) :=
  {| q_Method := MethodREQMOD; q_URI := "icap://host/scan/42?x=1"; q_Header := ∅; q_HTTPRequest := Some message;
     q_HTTPResponse := None; q_ClientIP := "10.0.0.1"; q_Preview := 0; q_PreviewSet := false; Captures := None; matchedBranch := 0;
     matchedBranchSet := false |}.

Definition grow : nat → nat → nat := λ c n, Nat.max c n.
Definition match_in (l : list (Scenario (Response := nat))) (o : BodyPatternOptions) (q : Request) :=
  Match (λ (p : Pattern) s, p.1 s) (λ p, p.2) (λ _, None) Some String.eqb grow 10 (λ _, 4%nat) l o
        (state_of q).
Definition holds (s : Scenario (Response := nat)) (o : BodyPatternOptions) (q : Request) :=
  conditions (λ (p : Pattern) t, p.1 t) (λ p, p.2) (λ _, None) Some String.eqb grow 10 (λ _, 4%nat) s o q.
End Demo.

Lemma demo_registry_ok : registry_ok [Demo.premium; Demo.eicar; Demo.fallback].
Proof.
  split.
  - repeat first [apply SSorted_nil | apply SSorted_cons | apply Forall_cons; split | apply Forall_nil; done | reflexivity].
  - repeat (apply NoDup_cons; split; [set_solver|]). apply NoDup_nil_2.
Qed.

Lemma match_selects_witness :
  registry_ok [Demo.premium; Demo.eicar; Demo.fallback] ∧
  ∃ res q', Demo.match_in [Demo.premium; Demo.eicar; Demo.fallback] DefaultBodyPatternOptions Demo.request =
            (res, state_of q') ∧ res = Ok Demo.eicar ∧ MatchedBranch q' = (0, false).
Proof.
  split; [exact demo_registry_ok|].
  destruct (match_selects (λ (p : Demo.Pattern) s, p.1 s) (λ p, p.2) (λ _, None) Some String.eqb Demo.grow 10
    (λ _, 4%nat) [Demo.premium; Demo.eicar; Demo.fallback] DefaultBodyPatternOptions Demo.request
    demo_registry_ok) as (res & q' & Hm & _ & Hres).
  exists res, q'. split; [exact Hm|].
  assert (Hr : (Demo.match_in [Demo.premium; Demo.eicar; Demo.fallback] DefaultBodyPatternOptions Demo.request).1 =
               Ok Demo.eicar) by (vm_compute; reflexivity).
  unfold Demo.match_in in Hr. rewrite Hm in Hr. cbn [fst] in Hr. subst res. split; [reflexivity|].
  destruct Hres as (_ & _ & Hb & _). exact Hb.
Defined.

Lemma registry_invariant_witness :
  rtc (registry_step Demo.fallback) [Demo.fallback] (addValidated Demo.eicar [Demo.fallback]) ∧
  registry_ok (addValidated Demo.eicar [Demo.fallback]).
Proof.
  assert (H : rtc (registry_step Demo.fallback) [Demo.fallback] (addValidated Demo.eicar [Demo.fallback]))
    by (eapply rtc_l; [apply step_add|apply rtc_refl]).
  split; [exact H|]. exact (registry_invariant Demo.fallback _ H).
Defined.

Lemma captures_of_failed_candidates_witness :
  ∃ q', Demo.match_in [Demo.premium; Demo.eicar; Demo.fallback] DefaultBodyPatternOptions Demo.request =
        (Ok Demo.eicar, state_of q') ∧ default ∅ (Captures q') !! "id" = Some "42".
Proof.
  refine (captures_of_failed_candidates (λ (p : Demo.Pattern) s, p.1 s) (λ p, p.2) (λ _, None) Some String.eqb
    Demo.grow 10 (λ _, 4%nat) DefaultBodyPatternOptions Demo.premium Demo.eicar [Demo.fallback] Demo.request
    "id" "42" _ _ _ _).
  - vm_compute; reflexivity.
  - vm_compute; reflexivity.
  - vm_compute; reflexivity.
  - vm_compute; reflexivity.
Defined.
