(* ===== verification/StreamSources.v ===== *)
(** * Stream sources: [internal/storage/streaming.go], [streaming_schema.go]

    Where the bytes of a streamed response come from: one source or an ordered
    list of parts, a multipart selection and a fallback. [validateStreamConfig]
    brings a configuration to its canonical form and rejects what the server
    could not stream; together with the delivery controls of [StreamSelect] it
    is the whole check of a [stream] block. [os.Stat] and [regexp.Compile] are
    parameters: whether a file is there and whether a pattern compiles. *)
From S2P Require Import Prelude GoInt GoStrings StreamPlan StreamSelect.

Local Open Scope Z_scope.
Local Open Scope go_scope.

Definition streamSourceRequestBody : string := "request_body".
Definition streamSourceResponseBody : string := "response_body".
Definition streamSourceRequestHTTPBody : string := "request_http_body".
Definition streamSourceResponseHTTPBody : string := "response_http_body".
Definition streamSourceAdaptedHTTPBody : string := "adapted_http_body".
Definition streamSourceBody : string := "body".
Definition streamSourceBodyFile : string := "body_file".

(** [StreamSourceConfig] and [StreamPartConfig], which have the same fields. *)
Record StreamSourceConfig := { src_From : string; src_Body : string; src_BodyFile : string }.

Record StreamMultipartFilesConfig := { files_Filename : list string; files_Enabled : bool; files_IsSet : bool }.

Record StreamMultipartConfig := {
  mp_Fields : list string;
  mp_Files : StreamMultipartFilesConfig;
  mp_AllowEmpty : bool;
  mp_IsSet : bool
}.

Record StreamRawFileFallback := { raw_Filename : list string; raw_Enabled : bool; raw_IsSet : bool }.

Record StreamFallbackConfig := {
  fb_Body : string;
  fb_BodyFile : string;
  fb_From : string;
  fb_RawFile : StreamRawFileFallback
}.

(** [StreamConfig]: sources and delivery controls. *)
Record Stream := {
  Fallback : StreamFallbackConfig;
  Source : StreamSourceConfig;
  Parts : list StreamSourceConfig;
  From : string;
  Body : string;
  BodyFile : string;
  Multipart : StreamMultipartConfig;
  Controls : StreamConfig;
  PartsSet : bool
}.

Inductive StreamError :=
| PartsEmpty
| TopLevelAndSource
| FromAndParts
| PartNotOneSource
| SourceWithLiteral
| BodyRequired
| BodyFileNotAllowed
| BodyNotAllowed
| BodyFileRequired
| FileMissing
| UnsupportedSource
| ExplicitMethodRequired
| OtherMethodsDeclared
| NoModificationMethod
| MultipartNotAllowed
| InvalidFilenamePattern
| FallbackNotOneSource
| UnsupportedFallback
| HTTPBodyConflict
| ControlsInvalid (e : ControlError).

(** ** The canonical form *)

Definition nonempty (s : string) : bool := negb (String.eqb s "").

Definition boolCount (values : list bool) : nat := length (List.filter id values).

Definition hasTopLevelStreamSource (s : Stream) : bool :=
  nonempty (From s) || nonempty (Body s) || nonempty (BodyFile s).

Definition streamSourceEmpty (src : StreamSourceConfig) : bool :=
  String.eqb (src_From src) "" && String.eqb (src_Body src) "" && String.eqb (src_BodyFile src) "".

Definition countPartSources (part : StreamSourceConfig) : nat :=
  if String.eqb (src_From part) streamSourceBody && nonempty (src_Body part) && String.eqb (src_BodyFile part) ""
  then 1
  else if String.eqb (src_From part) streamSourceBodyFile && nonempty (src_BodyFile part)
          && String.eqb (src_Body part) ""
  then 1
  else boolCount [nonempty (src_From part); nonempty (src_Body part); nonempty (src_BodyFile part)].

Definition with_from (from : string) (src : StreamSourceConfig) : StreamSourceConfig :=
  {| src_From := from; src_Body := src_Body src; src_BodyFile := src_BodyFile src |}.

Definition normalizeStreamPart (part : StreamSourceConfig) : result StreamError StreamSourceConfig :=
  guard! Nat.eqb (countPartSources part) 1 else PartNotOneSource in
  let part := if nonempty (src_Body part) then with_from streamSourceBody part else part in
  let part := if nonempty (src_BodyFile part) then with_from streamSourceBodyFile part else part in
  Ok part.

Definition normalizeSingleStreamSource (src : StreamSourceConfig) : StreamSourceConfig :=
  let src := if String.eqb (src_From src) "" && nonempty (src_Body src)
             then with_from streamSourceBody src else src in
  if String.eqb (src_From src) "" && nonempty (src_BodyFile src)
  then with_from streamSourceBodyFile src else src.

(** Runs a check over a list, keeping what it returns; the first error wins. *)
Fixpoint check_all {E A B} (f : A → result E B) (l : list A) : result E (list B) :=
  match l with
  | [] => Ok []
  | a :: l => let! b := f a in let! rest := check_all f l in Ok (b :: rest)
  end.

Definition with_sources (source : StreamSourceConfig) (parts : list StreamSourceConfig) (s : Stream) : Stream :=
  {| Fallback := Fallback s; Source := source; Parts := parts; From := ""; Body := ""; BodyFile := "";
     Multipart := Multipart s; Controls := Controls s; PartsSet := PartsSet s |}.

Definition normalizeStreamSourceShape (s : Stream) : result StreamError Stream :=
  if negb (bool_decide (Parts s = [])) then
    let! parts := check_all normalizeStreamPart (Parts s) in
    Ok (with_sources (Source s) parts s)
  else
    let source := if streamSourceEmpty (Source s)
                  then {| src_From := From s; src_Body := Body s; src_BodyFile := BodyFile s |}
                  else Source s in
    Ok (with_sources (normalizeSingleStreamSource source) (Parts s) s).

(** The shorthand fields are cleared by [with_sources]. *)
Definition normalizeStreamConfig (s : Stream) : result StreamError Stream :=
  guard! negb (PartsSet s && bool_decide (Parts s = [])) else PartsEmpty in
  guard! negb (hasTopLevelStreamSource s && negb (streamSourceEmpty (Source s))) else TopLevelAndSource in
  guard! negb (PartsSet s && (negb (streamSourceEmpty (Source s)) || hasTopLevelStreamSource s)) else FromAndParts in
  normalizeStreamSourceShape s.

(** ** Sources and methods *)

Definition methodSetAllows (methods : list string) (method : string) : bool :=
  existsb (λ item, equal_fold item method) methods.

Definition hasImplicitAnyMethod (methods : list string) : bool :=
  bool_decide (methods = []) || methodSetAllows methods "*".

Definition validateBodyStreamMethods (methods : list string) (required : string) : result StreamError unit :=
  guard! negb (hasImplicitAnyMethod methods) else ExplicitMethodRequired in
  guard! forallb (λ m, equal_fold m required) methods else OtherMethodsDeclared in Ok tt.

Definition validateAdaptedHTTPBodyMethods (methods : list string) : result StreamError unit :=
  guard! negb (hasImplicitAnyMethod methods) else ExplicitMethodRequired in
  guard! forallb (λ m, equal_fold m "REQMOD" || equal_fold m "RESPMOD") methods else OtherMethodsDeclared in Ok tt.

Definition source_is (source : string) (l : list string) : bool := existsb (String.eqb source) l.

Definition validateStreamSourceMethods (source : string) (methods : list string) : result StreamError unit :=
  if source_is source [streamSourceRequestBody; streamSourceRequestHTTPBody]
  then validateBodyStreamMethods methods "REQMOD"
  else if source_is source [streamSourceResponseBody; streamSourceResponseHTTPBody]
  then validateBodyStreamMethods methods "RESPMOD"
  else if String.eqb source streamSourceAdaptedHTTPBody then validateAdaptedHTTPBodyMethods methods
  else if hasImplicitAnyMethod methods then Ok tt
  else
    guard! methodSetAllows methods "REQMOD" || methodSetAllows methods "RESPMOD" else NoModificationMethod in
    Ok tt.

Definition streamSourceSupportsMultipart (source : string) : bool :=
  source_is source [streamSourceRequestHTTPBody; streamSourceResponseHTTPBody; streamSourceAdaptedHTTPBody].

Definition body_sources : list string :=
  [streamSourceRequestBody; streamSourceResponseBody; streamSourceRequestHTTPBody;
   streamSourceResponseHTTPBody; streamSourceAdaptedHTTPBody].

Definition streamSourceCanFallbackFrom (source : string) : bool := source_is source body_sources.

Definition fallback_IsSet (f : StreamFallbackConfig) : bool :=
  raw_IsSet (fb_RawFile f) || nonempty (fb_Body f) || nonempty (fb_BodyFile f) || nonempty (fb_From f).

Definition countFallbackSources (f : StreamFallbackConfig) : nat :=
  boolCount [raw_IsSet (fb_RawFile f); nonempty (fb_Body f); nonempty (fb_BodyFile f); nonempty (fb_From f)].

Definition validateFallbackShape (f : StreamFallbackConfig) : result StreamError unit :=
  guard! Nat.eqb (countFallbackSources f) 1 else FallbackNotOneSource in
  guard! negb (nonempty (fb_From f) && negb (streamSourceCanFallbackFrom (fb_From f))) else UnsupportedFallback in
  Ok tt.

Definition validateStreamHTTPBodyConflict (httpBody httpBodyFile : string) : result StreamError unit :=
  guard! String.eqb httpBody "" && String.eqb httpBodyFile "" else HTTPBodyConflict in Ok tt.

Section Validate.
Context (FileExists : string → bool) (PatternCompiles : string → bool).

Definition validateStreamSource (src : StreamSourceConfig) : result StreamError unit :=
  if source_is (src_From src) body_sources then
    guard! String.eqb (src_Body src) "" && String.eqb (src_BodyFile src) "" else SourceWithLiteral in Ok tt
  else if String.eqb (src_From src) streamSourceBody then
    guard! nonempty (src_Body src) else BodyRequired in
    guard! String.eqb (src_BodyFile src) "" else BodyFileNotAllowed in Ok tt
  else if String.eqb (src_From src) streamSourceBodyFile then
    guard! String.eqb (src_Body src) "" else BodyNotAllowed in
    guard! nonempty (src_BodyFile src) else BodyFileRequired in
    guard! FileExists (src_BodyFile src) else FileMissing in Ok tt
  else Err UnsupportedSource.

Definition validateStreamSourceWithMethods (methods : list string) (src : StreamSourceConfig) : result StreamError unit :=
  let! _ := validateStreamSource src in validateStreamSourceMethods (src_From src) methods.

Definition validateStreamSources (s : Stream) (methods : list string) : result StreamError unit :=
  if bool_decide (Parts s = []) then validateStreamSourceWithMethods methods (Source s)
  else result_map (λ _, tt) (check_all (validateStreamSourceWithMethods methods) (Parts s)).

Definition validateRegexList (patterns : list string) : result StreamError unit :=
  guard! forallb PatternCompiles patterns else InvalidFilenamePattern in Ok tt.

Definition validateStreamMultipart (s : Stream) : result StreamError unit :=
  if negb (mp_IsSet (Multipart s)) then Ok tt
  else
    guard! negb (negb (bool_decide (Parts s = [])) || negb (streamSourceSupportsMultipart (src_From (Source s))))
    else MultipartNotAllowed in
    validateRegexList (files_Filename (mp_Files (Multipart s))).

Definition validateStreamFallback (f : StreamFallbackConfig) (methods : list string) : result StreamError unit :=
  if negb (fallback_IsSet f) then Ok tt
  else
    let! _ := validateFallbackShape f in
    let! _ := validateRegexList (raw_Filename (fb_RawFile f)) in
    if nonempty (fb_From f) then validateStreamSourceMethods (fb_From f) methods
    else if nonempty (fb_BodyFile f) then guard! FileExists (fb_BodyFile f) else FileMissing in Ok tt
    else Ok tt.

Definition with_controls (c : StreamConfig) (s : Stream) : Stream :=
  {| Fallback := Fallback s; Source := Source s; Parts := Parts s; From := From s; Body := Body s;
     BodyFile := BodyFile s; Multipart := Multipart s; Controls := c; PartsSet := PartsSet s |}.

Definition validateStreamConfig (s : Stream) (methods : list string) : result StreamError Stream :=
  let! s := normalizeStreamConfig s in
  let! _ := validateStreamSources s methods in
  let! _ := validateStreamMultipart s in
  let! _ := validateStreamFallback (Fallback s) methods in
  match validateStreamControls (Controls s) with
  | Err e => Err (ControlsInvalid e)
  | Ok c => Ok (with_controls c s)
  end.
End Validate.

(** ** Validating twice *)

Lemma nonempty_false s : nonempty s = false ↔ s = "".
Proof. unfold nonempty. rewrite negb_false_iff. apply String.eqb_eq. Qed.

Lemma nonempty_true s : nonempty s = true ↔ s ≠ "".
Proof. unfold nonempty. rewrite negb_true_iff. apply String.eqb_neq. Qed.

Lemma check_all_idemp {E A} (f : A → result E A) l l' :
  (∀ a b, f a = Ok b → f b = Ok b) → check_all f l = Ok l' → check_all f l' = Ok l'.
Proof.
  intros Hf. revert l'. induction l as [|a l IH]; intros l'; simpl; [by intros [= <-]|].
  destruct (f a) as [b|] eqn:Ea; [|done]. cbn [result_bind].
  destruct (check_all f l) as [rest|]; [|done]. intros [= <-]. simpl. rewrite (Hf _ _ Ea). cbn [result_bind].
  by rewrite IH.
Qed.

Lemma check_all_Forall {E A B} (f : A → result E B) l l' :
  check_all f l = Ok l' → Forall2 (λ a b, f a = Ok b) l l'.
Proof.
  revert l'. induction l as [|a l IH]; intros l'; simpl; [by intros [= <-]|].
  destruct (f a) as [b|] eqn:Ea; [|done]. cbn [result_bind].
  destruct (check_all f l) as [rest|]; [|done]. intros [= <-]. constructor; [done|by apply IH].
Qed.

Lemma normalizeStreamPart_idemp p p' : normalizeStreamPart p = Ok p' → normalizeStreamPart p' = Ok p'.
Proof.
  destruct p as [from body file]. unfold normalizeStreamPart, countPartSources.
  cbn [src_From src_Body src_BodyFile].
  destruct (String.eqb_spec from streamSourceBody) as [->|H1];
    [|destruct (String.eqb_spec from streamSourceBodyFile) as [->|H2]; [|destruct (String.eqb_spec from "") as [->|H3]]];
    destruct body as [|b body], file as [|f file]; cbn; try done; try by intros [= <-].
  - rewrite (proj2 (nonempty_true from) H3). cbn. intros [= <-]. cbn.
    by rewrite (proj2 (String.eqb_neq _ _) H1), (proj2 (String.eqb_neq _ _) H2), (proj2 (nonempty_true from) H3).
  - rewrite (proj2 (nonempty_true from) H3). cbn. done.
  - rewrite (proj2 (nonempty_true from) H3). cbn. done.
  - rewrite (proj2 (nonempty_true from) H3). cbn. done.
Qed.

Lemma normalizeSingleStreamSource_idemp src :
  normalizeSingleStreamSource (normalizeSingleStreamSource src) = normalizeSingleStreamSource src.
Proof. destruct src as [[|c from] [|b body] [|f file]]; reflexivity. Qed.

Lemma normalizeSingle_empty src :
  streamSourceEmpty (normalizeSingleStreamSource src) = streamSourceEmpty src.
Proof. destruct src as [[|c from] [|b body] [|f file]]; reflexivity. Qed.

Lemma check_all_nil {E A} (f : A → result E A) l : check_all f l = Ok [] → l = [].
Proof. intros Hc. apply check_all_Forall in Hc. by inversion Hc. Qed.

Lemma streamSourceEmpty_eq src :
  streamSourceEmpty src = true → src = {| src_From := ""; src_Body := ""; src_BodyFile := "" |}.
Proof. by destruct src as [[|c from] [|b body] [|f file]]. Qed.

(** A canonical configuration stays as it is, whatever its controls become. *)
Lemma normalizeStreamConfig_idemp s s' c :
  normalizeStreamConfig s = Ok s' →
  normalizeStreamConfig (with_controls c s') = Ok (with_controls c s').
Proof.
  unfold normalizeStreamConfig. destruct (PartsSet s && bool_decide (Parts s = [])) eqn:E1; [done|].
  destruct (hasTopLevelStreamSource s && _) eqn:E2; [done|].
  destruct (PartsSet s && (_ || _)) eqn:E3; [done|]. cbn [negb].
  unfold normalizeStreamSourceShape. case_bool_decide as Ep; cbn [negb].
  - intros [= <-]. cbn. rewrite andb_true_r in E1.
    rewrite E1, Ep. cbn.
    set (src0 := if streamSourceEmpty (Source s) then _ else Source s).
    rewrite !normalizeSingle_empty. destruct (streamSourceEmpty src0) eqn:Es; cbn.
    + by rewrite (streamSourceEmpty_eq src0 Es).
    + unfold with_controls, with_sources. cbn. by rewrite normalizeSingleStreamSource_idemp, E1.
  - destruct (check_all normalizeStreamPart (Parts s)) as [ps|] eqn:Ec; [|done]. cbn [result_bind].
    intros [= <-]. cbn.
    assert (Hps : ps ≠ []) by (intros ->; by apply check_all_nil in Ec).
    rewrite !(bool_decide_false (ps = [])) by done. cbn. rewrite andb_false_r. cbn.
    assert (Hs : PartsSet s && (negb (streamSourceEmpty (Source s)) || false) = false).
    { destruct (PartsSet s); [|done]. cbn in E3 |- *. apply orb_false_iff in E3 as [-> _]. done. }
    rewrite Hs. cbn. rewrite (check_all_idemp _ _ _ normalizeStreamPart_idemp Ec). done.
Qed.

Lemma validateStreamControls_idemp c c' : validateStreamControls c = Ok c' → validateStreamControls c' = Ok c'.
Proof.
  unfold validateStreamControls. destruct (validateNewStreamConflicts c) as [[]|] eqn:Ec; [|done].
  destruct (hasNewStreamControls c) eqn:En.
  - destruct (validateNewStreamControls c) as [[]|] eqn:Ev; [|done]. cbn. intros [= <-].
    rewrite Ec, En, Ev. done.
  - destruct (validateStreamTiming c) as [[]|] eqn:Et; [|done]. unfold validateStreamFinish.
    set (f := if bool_decide (finish_Mode (cfg_Finish c) = "") then _ else _).
    assert (Hf : finish_Mode f ≠ "").
    { subst f. by case_bool_decide. }
    destruct (validFinishMode (finish_Mode f)) eqn:Em; [|done]. cbn [negb].
    destruct (if bool_decide (finish_Mode f = StreamFinishComplete) then _ else _) as [[]|] eqn:Er; [|done].
    cbn [result_map]. intros [= <-].
    assert (Hn : hasNewStreamControls (with_finish f c) = false) by exact En.
    assert (Hc : validateNewStreamConflicts (with_finish f c) = Ok tt) by (unfold validateNewStreamConflicts; by rewrite Hn).
    assert (Ht : validateStreamTiming (with_finish f c) = Ok tt) by exact Et.
    rewrite Hc, Hn, Ht. cbn [cfg_Finish with_finish]. rewrite (bool_decide_false (finish_Mode f = "")) by done.
    rewrite Em. cbn [negb]. rewrite Er. done.
Qed.

Section Validated.
Context (FileExists : string → bool) (PatternCompiles : string → bool).
Notation validate := (validateStreamConfig FileExists PatternCompiles).

Lemma validateStreamConfig_inv s methods s' :
  validate s methods = Ok s' →
  ∃ s1 c, normalizeStreamConfig s = Ok s1 ∧ s' = with_controls c s1 ∧
    validateStreamSources FileExists s1 methods = Ok tt ∧ validateStreamMultipart PatternCompiles s1 = Ok tt ∧
    validateStreamFallback FileExists PatternCompiles (Fallback s1) methods = Ok tt ∧
    validateStreamControls (Controls s1) = Ok c.
Proof using.
  unfold validateStreamConfig. destruct (normalizeStreamConfig s) as [s1|]; [|done]. cbn [result_bind].
  destruct (validateStreamSources _ s1 methods) as [[]|] eqn:E1; [|done]. cbn [result_bind].
  destruct (validateStreamMultipart _ s1) as [[]|] eqn:E2; [|done]. cbn [result_bind].
  destruct (validateStreamFallback _ _ (Fallback s1) methods) as [[]|] eqn:E3; [|done]. cbn [result_bind].
  destruct (validateStreamControls (Controls s1)) as [c|] eqn:E4; [|done]. intros [= <-].
  exists s1, c. by split_and!.
Qed.

(** A stream template that was validated for one scenario gives, when
    another scenario that shares it is validated, the same verdict for that
    scenario's methods as the template did before: its canonical form is never
    mistaken for a conflict. *)
Theorem shared_stream_revalidates s methods s' :
  validateStreamConfig FileExists PatternCompiles s methods = Ok s' →
  (∀ methods', match validate s methods' with
               | Ok s2 => validate s' methods' = Ok s2 ∧ s2 = s'
               | Err e => validate s' methods' = Err e
               end).
Proof using.
  intros Hv methods'. destruct (validateStreamConfig_inv _ _ _ Hv) as (s1 & c & Hn & -> & _ & Hm & _ & Hc).
  pose proof (normalizeStreamConfig_idemp _ _ c Hn) as Hn'. unfold validateStreamConfig.
  rewrite Hn, Hn'. cbn [result_bind].
  change (validateStreamSources FileExists (with_controls c s1) methods')
    with (validateStreamSources FileExists s1 methods').
  change (validateStreamMultipart PatternCompiles (with_controls c s1)) with (validateStreamMultipart PatternCompiles s1).
  change (Fallback (with_controls c s1)) with (Fallback s1).
  change (Controls (with_controls c s1)) with c. rewrite Hm, Hc, (validateStreamControls_idemp _ _ Hc).
  destruct (validateStreamSources _ s1 methods') as [[]|]; [|done]. cbn [result_bind].
  destruct (validateStreamFallback _ _ (Fallback s1) methods') as [[]|]; done.
Qed.

(** ** What an accepted configuration streams *)

(** The sources of a configuration, in order. *)
Definition sources (s : Stream) : list StreamSourceConfig :=
  if bool_decide (Parts s = []) then [Source s] else Parts s.

(** A scenario for which bodies of this kind are there whatever it matches. *)
Definition source_available (from : string) (methods : list string) : Prop :=
  methods ≠ [] ∧
  Forall (λ m, match source_is from [streamSourceRequestBody; streamSourceRequestHTTPBody],
                     source_is from [streamSourceResponseBody; streamSourceResponseHTTPBody] with
               | true, _ => equal_fold m "REQMOD" = true
               | _, true => equal_fold m "RESPMOD" = true
               | _, _ => equal_fold m "REQMOD" = true ∨ equal_fold m "RESPMOD" = true
               end) methods.

Definition source_ok (methods : list string) (src : StreamSourceConfig) : Prop :=
  src_From src ∈ body_sources ∧ src_Body src = "" ∧ src_BodyFile src = "" ∧ source_available (src_From src) methods ∨
  src_From src = streamSourceBody ∧ src_Body src ≠ "" ∧ src_BodyFile src = "" ∨
  src_From src = streamSourceBodyFile ∧ src_Body src = "" ∧ src_BodyFile src ≠ "" ∧
    FileExists (src_BodyFile src) = true.

Lemma source_is_elem source l : source_is source l = true ↔ source ∈ l.
Proof using.
  unfold source_is. rewrite existsb_exists. setoid_rewrite String.eqb_eq. setoid_rewrite <- list_elem_of_In.
  split; [by intros (x & Hx & ->)|by exists source].
Qed.

Lemma methods_available from methods :
  from ∈ body_sources → validateStreamSourceMethods from methods = Ok tt → source_available from methods.
Proof using.
  intros Hf. unfold validateStreamSourceMethods, source_available.
  assert (Hne : ∀ ms, hasImplicitAnyMethod ms = false → ms ≠ []) by (by intros [|]).
  assert (Ha : source_is from [streamSourceRequestBody; streamSourceRequestHTTPBody] = false →
               source_is from [streamSourceResponseBody; streamSourceResponseHTTPBody] = false →
               from = streamSourceAdaptedHTTPBody).
  { intros H1 H2. apply source_is_elem in Hf. unfold body_sources, source_is in *. cbn [existsb] in *.
    repeat match goal with
    | H : context [String.eqb from ?x] |- _ => destruct (String.eqb_spec from x); [subst; try done|]
    end; done. }
  destruct (source_is from [streamSourceRequestBody; _]) eqn:E1;
    [|destruct (source_is from [streamSourceResponseBody; _]) eqn:E2].
  - unfold validateBodyStreamMethods. destruct (hasImplicitAnyMethod methods) eqn:Ei; [done|]. cbn [negb].
    destruct (forallb _ methods) eqn:Ef; [|done]. intros _. split; [by apply Hne|].
    by apply forallb_Forall.
  - unfold validateBodyStreamMethods. destruct (hasImplicitAnyMethod methods) eqn:Ei; [done|]. cbn [negb].
    destruct (forallb _ methods) eqn:Ef; [|done]. intros _. split; [by apply Hne|].
    by apply forallb_Forall.
  - rewrite (Ha eq_refl eq_refl), String.eqb_refl. unfold validateAdaptedHTTPBodyMethods.
    destruct (hasImplicitAnyMethod methods) eqn:Ei; [done|]. cbn [negb].
    destruct (forallb _ methods) eqn:Ef; [|done]. intros _. split; [by apply Hne|].
    apply forallb_Forall in Ef. eapply Forall_impl; [exact Ef|]. intros m Hm. by apply orb_true_iff in Hm.
Qed.

Lemma source_validated methods src :
  validateStreamSourceWithMethods FileExists methods src = Ok tt → source_ok methods src.
Proof using.
  unfold validateStreamSourceWithMethods, validateStreamSource, source_ok.
  destruct (source_is (src_From src) body_sources) eqn:Eb.
  - destruct (String.eqb_spec (src_Body src) ""); [|done]. destruct (String.eqb_spec (src_BodyFile src) ""); [|done].
    cbn. intros Hm. left. apply source_is_elem in Eb. split_and!; [done..|by apply methods_available].
  - destruct (String.eqb_spec (src_From src) streamSourceBody) as [E|E].
    + destruct (nonempty (src_Body src)) eqn:En; [|done]. apply nonempty_true in En.
      destruct (String.eqb_spec (src_BodyFile src) ""); [|done]. intros _. by right; left.
    + destruct (String.eqb_spec (src_From src) streamSourceBodyFile) as [E'|E']; [|done].
      destruct (String.eqb_spec (src_Body src) ""); [|done].
      destruct (nonempty (src_BodyFile src)) eqn:En; [|done]. apply nonempty_true in En.
      destruct (FileExists (src_BodyFile src)) eqn:Ex; [|done]. intros _. by right; right.
Qed.

(** Every source of an accepted stream can be read whenever the scenario
    answers: a body of the request only in scenarios for REQMOD alone, one of
    the response only for RESPMOD alone, an adapted body for those two, or a
    literal, or a file that was there; a multipart selection is taken from one
    embedded body, and a fallback body obeys the same rules. The shorthand
    fields are empty. *)
Theorem accepted_stream_sources s methods s' :
  validateStreamConfig FileExists PatternCompiles s methods = Ok s' →
  From s' = "" ∧ Body s' = "" ∧ BodyFile s' = "" ∧ Forall (source_ok methods) (sources s') ∧
  (mp_IsSet (Multipart s') = true → Parts s' = [] ∧ streamSourceSupportsMultipart (src_From (Source s')) = true) ∧
  (fb_From (Fallback s') ≠ "" → source_available (fb_From (Fallback s')) methods) ∧
  (fallback_IsSet (Fallback s') = true → countFallbackSources (Fallback s') = 1%nat).
Proof using.
  intros Hv. destruct (validateStreamConfig_inv _ _ _ Hv) as (s1 & c & Hn & -> & Hs & Hm & Hf & _). cbn.
  assert (Hshort : From s1 = "" ∧ Body s1 = "" ∧ BodyFile s1 = "").
  { unfold normalizeStreamConfig in Hn. repeat case_match; try done; unfold normalizeStreamSourceShape in Hn;
      case_match; [destruct (check_all _ _); [|done]|]; by injection Hn as <-. }
  destruct Hshort as (-> & -> & ->). split_and!; [done..| | | |].
  - unfold sources, validateStreamSources in *. cbn. case_bool_decide.
    + apply Forall_singleton. by apply source_validated.
    + destruct (check_all _ (Parts s1)) as [us|] eqn:Ec; [|done]. apply check_all_Forall in Ec.
      apply Forall_forall. intros p Hp. apply list_elem_of_lookup in Hp as [i Hi].
      destruct (Forall2_lookup_l _ _ _ _ _ Ec Hi) as ([] & _ & Hp). by apply source_validated.
  - unfold validateStreamMultipart in Hm. intros Hset. rewrite Hset in Hm. cbn [negb] in Hm.
    case_bool_decide; [|done]. cbn [negb orb] in Hm. split; [done|].
    assert (Hsup : streamSourceSupportsMultipart (src_From (Source s1)) = true)
      by (destruct (streamSourceSupportsMultipart _); [done|discriminate Hm]). exact Hsup.
  - unfold validateStreamFallback, validateFallbackShape in Hf. intros Hfrom.
    assert (Hset : fallback_IsSet (Fallback s1) = true).
    { unfold fallback_IsSet. rewrite (proj2 (nonempty_true _) Hfrom). by rewrite orb_true_r. }
    rewrite Hset, (proj2 (nonempty_true _) Hfrom) in Hf. cbn [negb andb] in Hf.
    destruct (Nat.eqb _ 1); [|done]. destruct (streamSourceCanFallbackFrom _) eqn:Ec; [|done].
    cbn in Hf. destruct (validateRegexList _ _) as [[]|]; [|done]. cbn in Hf.
    apply methods_available; [|done]. by apply source_is_elem.
  - intros Hset. unfold validateStreamFallback, validateFallbackShape in Hf. rewrite Hset in Hf. cbn [negb] in Hf.
    destruct (Nat.eqb_spec (countFallbackSources (Fallback s1)) 1); done.
Qed.
End Validated.

Definition unset : RangeSpec := {| Min := 0; Max := 0; IsSet := false |}.
Definition no_controls : StreamConfig :=
  {| cfg_Send := {| send_Percent := unset; send_Duration := unset; send_IsSet := false |};
     cfg_Throttle := {| throttle_TargetChunkSize := unset; throttle_Every := unset; throttle_TargetChunks := 0;
                        throttle_IsSet := false; targetChunksSet := false |};
     cfg_End := {| end_Mode := ""; end_IsSet := false |};
     cfg_Finish := {| finish_Mode := ""; finish_Fin := {| fin_Close := ""; after_Bytes := unset; after_Time := unset |};
                      CompletePercent := 0; FinPercent := 0 |};
     cfg_Chunks := {| chunks_Size := unset; chunks_Delay := unset |};
     cfg_Duration := unset |}.

(** [stream: {from: request_http_body, multipart: {files: ["\.exe$"]}, fallback: {body: none}}]. *)
Definition demo_stream : Stream :=
  {| Fallback := {| fb_Body := "none"; fb_BodyFile := ""; fb_From := "";
                    fb_RawFile := {| raw_Filename := []; raw_Enabled := false; raw_IsSet := false |} |};
     Source := {| src_From := ""; src_Body := ""; src_BodyFile := "" |}; Parts := [];
     From := "request_http_body"; Body := ""; BodyFile := "";
     Multipart := {| mp_Fields := []; mp_Files := {| files_Filename := ["\.exe$"]; files_Enabled := true; files_IsSet := true |};
                     mp_AllowEmpty := false; mp_IsSet := true |};
     Controls := no_controls; PartsSet := false |}.

Lemma shared_stream_revalidates_witness :
  ∃ s', validateStreamConfig (λ _, true) (λ _, true) demo_stream ["REQMOD"] = Ok s' ∧ From s' = "" ∧
    validateStreamConfig (λ _, true) (λ _, true) s' ["RESPMOD"] = Err OtherMethodsDeclared.
Proof.
  destruct (validateStreamConfig (λ _, true) (λ _, true) demo_stream ["REQMOD"]) as [s'|] eqn:E;
    [|vm_compute in E; discriminate E].
  exists s'. split; [reflexivity|]. split; [vm_compute in E; injection E as <-; reflexivity|].
  pose proof (shared_stream_revalidates (λ _, true) (λ _, true) demo_stream ["REQMOD"] s' E ["RESPMOD"]) as H.
  assert (Ho : validateStreamConfig (λ _, true) (λ _, true) demo_stream ["RESPMOD"] = Err OtherMethodsDeclared)
    by (vm_compute; reflexivity).
  rewrite Ho in H. exact H.
Defined.

Lemma accepted_stream_sources_witness :
  ∃ s', validateStreamConfig (λ _, true) (λ _, true) demo_stream ["REQMOD"] = Ok s' ∧
    Forall (source_ok (λ _, true) ["REQMOD"]) (sources s').
Proof.
  destruct (validateStreamConfig (λ _, true) (λ _, true) demo_stream ["REQMOD"]) as [s'|] eqn:E;
    [|vm_compute in E; discriminate E].
  exists s'. split; [reflexivity|].
  exact (proj1 (proj2 (proj2 (proj2 (accepted_stream_sources (λ _, true) (λ _, true) demo_stream ["REQMOD"] s' E))))).
Defined.
