(* ===== verification/Responses.v ===== *)
(** * Response templates: [internal/storage/response_refs.go] and the response
    half of [validateAndCompile] in [scenario.go]

    The templates a scenario, its branches and their weighted variants answer
    with; how a template that another one names is merged into it; and the
    checks a scenario's responses pass when it is loaded. *)
From S2P Require Import Prelude GoInt GoTime GoStrings Weight StreamPlan StreamSelect StreamSources.

Local Open Scope Z_scope.
Local Open Scope go_scope.

Record ResponseTemplate := {
  rt_Headers : gmap string string;
  rt_HTTPHeaders : gmap string string;
  rt_DelayRange : option DelayConfig;
  rt_Stream : option Stream;
  rt_Block : option bool;
  rt_ResponseName : string;
  rt_Use : string;
  rt_Body : string;
  rt_BodyFile : string;
  rt_HTTPBody : string;
  rt_HTTPBodyFile : string;
  rt_Error : string;
  rt_Status : Z;
  rt_ICAPStatus : Z;
  rt_HTTPStatus : Z;
  rt_Delay : Z
}.

Record WeightedResponse := {
  wr_Headers : gmap string string;
  wr_HTTPHeaders : gmap string string;
  wr_Stream : option Stream;
  wr_Block : option bool;
  wr_ResponseName : string;
  wr_Body : string;
  wr_BodyFile : string;
  wr_HTTPBody : string;
  wr_HTTPBodyFile : string;
  wr_Error : string;
  wr_Delay : DelayConfig;
  wr_Weight : Z;
  wr_ICAPStatus : Z;
  wr_HTTPStatus : Z
}.

(** What a scenario or a branch answers with; [None] is the nil slice. *)
Record Responses := { Response : ResponseTemplate; WeightedResponses : option (list WeightedResponse) }.

Inductive ResponseError :=
| BodyFileMissing
| StreamInvalid (e : StreamError)
| WeightsInvalid (e : Variants.WeightError)
| ResponseNotDefined (name : string)
| ReferenceOfReference (name : string).

(** ** References to templates *)

(** [mergeHeaders]; the nil map and an empty one are not told apart. *)
Definition mergeHeaders (base overlay : gmap string string) : gmap string string := overlay ∪ base.

Definition or_else (over base : string) : string := if String.eqb over "" then base else over.
Definition or_else_num (over base : Z) : Z := if over =? 0 then base else over.
Definition or_else_opt {A} (over base : option A) : option A := match over with Some a => Some a | None => base end.

Definition mergeResponseTemplate (base over : ResponseTemplate) : ResponseTemplate :=
  {| rt_Headers := mergeHeaders (rt_Headers base) (rt_Headers over);
     rt_HTTPHeaders := mergeHeaders (rt_HTTPHeaders base) (rt_HTTPHeaders over);
     rt_DelayRange := rt_DelayRange base;
     rt_Stream := or_else_opt (rt_Stream over) (rt_Stream base);
     rt_Block := or_else_opt (rt_Block over) (rt_Block base);
     rt_ResponseName := rt_ResponseName base;
     rt_Use := "";
     rt_Body := or_else (rt_Body over) (rt_Body base);
     rt_BodyFile := or_else (rt_BodyFile over) (rt_BodyFile base);
     rt_HTTPBody := or_else (rt_HTTPBody over) (rt_HTTPBody base);
     rt_HTTPBodyFile := or_else (rt_HTTPBodyFile over) (rt_HTTPBodyFile base);
     rt_Error := rt_Error base;
     rt_Status := or_else_num (rt_Status over) (rt_Status base);
     rt_ICAPStatus := if rt_Status over =? 0 then or_else_num (rt_ICAPStatus over) (rt_ICAPStatus base)
                      else rt_Status over;
     rt_HTTPStatus := or_else_num (rt_HTTPStatus over) (rt_HTTPStatus base);
     rt_Delay := or_else_num (rt_Delay over) (rt_Delay base) |}.

Definition with_name (name : string) (r : ResponseTemplate) : ResponseTemplate :=
  {| rt_Headers := rt_Headers r; rt_HTTPHeaders := rt_HTTPHeaders r; rt_DelayRange := rt_DelayRange r;
     rt_Stream := rt_Stream r; rt_Block := rt_Block r; rt_ResponseName := name; rt_Use := rt_Use r;
     rt_Body := rt_Body r; rt_BodyFile := rt_BodyFile r; rt_HTTPBody := rt_HTTPBody r;
     rt_HTTPBodyFile := rt_HTTPBodyFile r; rt_Error := rt_Error r; rt_Status := rt_Status r;
     rt_ICAPStatus := rt_ICAPStatus r; rt_HTTPStatus := rt_HTTPStatus r; rt_Delay := rt_Delay r |}.

Definition resolveResponseRef (resp : ResponseTemplate) (templates : gmap string ResponseTemplate)
  : result ResponseError ResponseTemplate :=
  if String.eqb (rt_Use resp) "" then Ok resp
  else
    match templates !! rt_Use resp with
    | None => Err (ResponseNotDefined (rt_Use resp))
    | Some base =>
        guard! String.eqb (rt_Use base) "" else ReferenceOfReference (rt_Use resp) in
        Ok (with_name (rt_Use resp) (mergeResponseTemplate base resp))
    end.

(** [resolveScenarioResponseRefs], on the responses of the scenarios. *)
Definition resolveScenarioResponseRefs (responses : list ResponseTemplate) (templates : gmap string ResponseTemplate)
  : result ResponseError (list ResponseTemplate) :=
  if bool_decide (templates = ∅) then Ok responses
  else check_all (λ r, resolveResponseRef r templates) responses.

(** ** Validation *)

Definition with_status (status : Z) (r : ResponseTemplate) : ResponseTemplate :=
  {| rt_Headers := rt_Headers r; rt_HTTPHeaders := rt_HTTPHeaders r; rt_DelayRange := rt_DelayRange r;
     rt_Stream := rt_Stream r; rt_Block := rt_Block r; rt_ResponseName := rt_ResponseName r; rt_Use := rt_Use r;
     rt_Body := rt_Body r; rt_BodyFile := rt_BodyFile r; rt_HTTPBody := rt_HTTPBody r;
     rt_HTTPBodyFile := rt_HTTPBodyFile r; rt_Error := rt_Error r; rt_Status := rt_Status r;
     rt_ICAPStatus := status; rt_HTTPStatus := rt_HTTPStatus r; rt_Delay := rt_Delay r |}.

Definition with_stream (s : option Stream) (r : ResponseTemplate) : ResponseTemplate :=
  {| rt_Headers := rt_Headers r; rt_HTTPHeaders := rt_HTTPHeaders r; rt_DelayRange := rt_DelayRange r;
     rt_Stream := s; rt_Block := rt_Block r; rt_ResponseName := rt_ResponseName r; rt_Use := rt_Use r;
     rt_Body := rt_Body r; rt_BodyFile := rt_BodyFile r; rt_HTTPBody := rt_HTTPBody r;
     rt_HTTPBodyFile := rt_HTTPBodyFile r; rt_Error := rt_Error r; rt_Status := rt_Status r;
     rt_ICAPStatus := rt_ICAPStatus r; rt_HTTPStatus := rt_HTTPStatus r; rt_Delay := rt_Delay r |}.

Definition with_variant_stream (s : option Stream) (r : WeightedResponse) : WeightedResponse :=
  {| wr_Headers := wr_Headers r; wr_HTTPHeaders := wr_HTTPHeaders r; wr_Stream := s; wr_Block := wr_Block r;
     wr_ResponseName := wr_ResponseName r; wr_Body := wr_Body r; wr_BodyFile := wr_BodyFile r;
     wr_HTTPBody := wr_HTTPBody r; wr_HTTPBodyFile := wr_HTTPBodyFile r; wr_Error := wr_Error r;
     wr_Delay := wr_Delay r; wr_Weight := wr_Weight r; wr_ICAPStatus := wr_ICAPStatus r;
     wr_HTTPStatus := wr_HTTPStatus r |}.

(** The status taken over from the older field, as scenarios and branches do. *)
Definition inheritStatus (r : ResponseTemplate) : ResponseTemplate :=
  if (rt_ICAPStatus r =? 0) && negb (rt_Status r =? 0) then with_status (rt_Status r) r else r.

Section Checks.
Context (FileExists : string → bool) (PatternCompiles : string → bool).

(** The stream of one response, when it has one. *)
Definition checkStream (httpBody httpBodyFile : string) (stream : option Stream) (methods : list string)
  : result ResponseError (option Stream) :=
  match stream with
  | None => Ok None
  | Some s =>
      match validateStreamHTTPBodyConflict httpBody httpBodyFile with
      | Err e => Err (StreamInvalid e)
      | Ok _ =>
          match validateStreamConfig FileExists PatternCompiles s methods with
          | Err e => Err (StreamInvalid e)
          | Ok s => Ok (Some s)
          end
      end
  end.

Definition validateResponseStreaming (resp : ResponseTemplate) (methods : list string)
  : result ResponseError ResponseTemplate :=
  let! s := checkStream (rt_HTTPBody resp) (rt_HTTPBodyFile resp) (rt_Stream resp) methods in
  Ok (with_stream s resp).

Definition validateWeightedStreaming (weighted : list WeightedResponse) (methods : list string)
  : result ResponseError (list WeightedResponse) :=
  check_all (λ w, let! s := checkStream (wr_HTTPBody w) (wr_HTTPBodyFile w) (wr_Stream w) methods in
                  Ok (with_variant_stream s w)) weighted.

Definition checkWeights (weighted : option (list WeightedResponse)) : result ResponseError unit :=
  match Variants.validateRuntimeWeightTotal wr_Weight weighted with
  | Err e => Err (WeightsInvalid e)
  | Ok _ => Ok tt
  end.

(** The stream of the template, the weights, the streams of the variants. *)
Definition validateResponses (r : Responses) (methods : list string) : result ResponseError Responses :=
  let! resp := validateResponseStreaming (Response r) methods in
  let! _ := checkWeights (WeightedResponses r) in
  match WeightedResponses r with
  | None => Ok {| Response := resp; WeightedResponses := None |}
  | Some ws => let! ws := validateWeightedStreaming ws methods in
               Ok {| Response := resp; WeightedResponses := Some ws |}
  end.

(** A scenario's responses: an omitted status is 204, a body file must be there. *)
Definition validateScenarioResponses (r : Responses) (methods : list string) : result ResponseError Responses :=
  let resp := inheritStatus (Response r) in
  let resp := if rt_ICAPStatus resp =? 0 then with_status 204 resp else resp in
  guard! String.eqb (rt_BodyFile resp) "" || FileExists (rt_BodyFile resp) else BodyFileMissing in
  validateResponses {| Response := resp; WeightedResponses := WeightedResponses r |} methods.

(** A branch's responses. *)
Definition validateBranchResponses (r : Responses) (methods : list string) : result ResponseError Responses :=
  validateResponses {| Response := inheritStatus (Response r); WeightedResponses := WeightedResponses r |} methods.
End Checks.
