(* ===== verification/Regexp.v ===== *)
(** * The fragment of [regexp] that endpoint patterns are written in

    [regexp] is not part of the program: what the endpoints rely on of it is stated
    here, as the laws of a class, for the anchored patterns that are sequences of
    literal characters and of named groups of one repeated character class. A pattern
    of the fragment is syntax ([Atom]), with its text ([anchored]) and its meaning
    ([rx_match]) given separately, so that the text a component builds has to be the
    text of the pattern it means. [Engine] is a matcher for the fragment that keeps the
    laws. *)
From S2P Require Import Prelude GoInt GoStrings.

Local Open Scope nat_scope.
Local Open Scope go_scope.

(** ** Syntax and text *)

(** The bytes with a meaning of their own in a pattern. *)
Definition is_meta (c : ascii) : bool := existsb (Ascii.eqb c) (bytes_of "\.+*?()|[]{}^$").

Inductive CharClass := NotSlash | AnyChar.
Inductive Quantifier := OneOrMore | ZeroOrMore.
Inductive Atom := Char (c : ascii) | Group (name : string) (cls : CharClass) (q : Quantifier).

Definition char_text (c : ascii) : string := if is_meta c then String "\" (String c "") else String c "".
Definition class_text (cls : CharClass) : string := match cls with NotSlash => "[^/]" | AnyChar => "." end.
Definition quantifier_text (q : Quantifier) : string := match q with OneOrMore => "+" | ZeroOrMore => "*" end.

Definition atom_text (a : Atom) : string :=
  match a with
  | Char c => char_text c
  | Group name cls q => "(?P<" +:+ name +:+ ">" +:+ class_text cls +:+ quantifier_text q +:+ ")"
  end.

Definition rx_text (l : list Atom) : string := foldr (λ a s, atom_text a +:+ s) "" l.

Definition anchored (l : list Atom) : string := "^" +:+ rx_text l +:+ "$".

Definition group_names (l : list Atom) : list string :=
  flat_map (λ a, match a with Group name _ _ => [name] | Char _ => [] end) l.

(** The names that groups can have. *)
Definition word_char (c : ascii) : bool :=
  let n := nat_of_ascii c in
  (48 <=? n) && (n <=? 57) || (65 <=? n) && (n <=? 90) || (97 <=? n) && (n <=? 122) || (n =? 95).
Definition names_ok (l : list Atom) : bool := forallb (str_forall word_char) (group_names l).

(** ** Meaning *)

Definition in_class (cls : CharClass) (c : ascii) : bool :=
  match cls with NotSlash => negb (Ascii.eqb c "/") | AnyChar => negb (Ascii.eqb c "010"%char) end.

Definition run_ok (cls : CharClass) (q : Quantifier) (v : string) : bool :=
  str_forall (in_class cls) v && match q with OneOrMore => negb (String.eqb v "") | ZeroOrMore => true end.

(** The whole of a text is a match, and the values of the groups. *)
Inductive rx_match : list Atom → string → list string → Prop :=
| match_end : rx_match [] "" []
| match_char c l p vs : rx_match l p vs → rx_match (Char c :: l) (String c p) vs
| match_group name cls q l v p vs :
    run_ok cls q v = true → rx_match l p vs → rx_match (Group name cls q :: l) (v +:+ p) (v :: vs).

(** A text of ASCII characters, where bytes and characters are the same. *)
Definition ascii_only (s : string) : bool := str_forall (λ c, nat_of_ascii c <? 128) s.

(** A text does not start inside of a character. *)
Definition starts_char (s : string) : bool :=
  match s with String c _ => negb ((128 <=? nat_of_ascii c) && (nat_of_ascii c <? 192)) | "" => true end.

(** A pattern does not ask for U+FFFD, for which [regexp] also takes a byte that is not
    part of a character. *)
Definition asks_replacement (l : list Atom) : bool :=
  match l with
  | Char a :: Char b :: Char c :: _ => (nat_of_ascii a =? 239) && (nat_of_ascii b =? 191) && (nat_of_ascii c =? 189)
  | _ => false
  end.

Fixpoint plain_rx (l : list Atom) : bool :=
  match l with [] => true | _ :: l' => negb (asks_replacement l) && plain_rx l' end.

(** ** What is documented *)

(** A match of an anchored pattern is a match of the whole text, given with the values
    of the groups; there is one when the text is one in which values start with a
    character (the text of the pattern always does); the groups have their names, behind the unnamed whole, and no name is given twice. *)
Class RegexpLaws {Regexp : Type} (FindStringSubmatch : Regexp → string → option (list string))
    (SubexpNames : Regexp → list string) (Compile : string → option Regexp) : Prop := {
  rx_names : ∀ l r, names_ok l = true → Compile (anchored l) = Some r → SubexpNames r = "" :: group_names l;
  rx_distinct : ∀ l r, names_ok l = true → Compile (anchored l) = Some r → NoDup (group_names l);
  rx_sound : ∀ l r p m, names_ok l = true → Compile (anchored l) = Some r → plain_rx l = true ∨ ascii_only p = true →
    FindStringSubmatch r p = Some m → ∃ vs, m = p :: vs ∧ rx_match l p vs;
  rx_complete : ∀ l r p vs, names_ok l = true → Compile (anchored l) = Some r →
    rx_match l p vs → Forall (λ v, starts_char v = true) vs → is_Some (FindStringSubmatch r p)
}.

Lemma rx_match_length l p vs : rx_match l p vs → length vs = length (group_names l).
Proof. induction 1 as [| |? ? ? ? ? ? ? ? ? IH]; [done|done|]. cbn. by rewrite IH. Qed.

(** ** A matcher for the fragment *)

Module Engine.

(** *** Reading a pattern *)

Definition runs : list (CharClass * Quantifier) :=
  [(NotSlash, OneOrMore); (NotSlash, ZeroOrMore); (AnyChar, OneOrMore); (AnyChar, ZeroOrMore)].
Definition run_text (r : CharClass * Quantifier) : string := class_text r.1 +:+ quantifier_text r.2 +:+ ")".

Fixpoint parse (fuel : nat) (s : string) : option (list Atom) :=
  match fuel, s with
  | S fuel, String c s' =>
      if String.eqb s "$" then Some []
      else if has_prefix s "(?P<" then
        let '(name, rest, found) := cut_byte (str_drop 4 s) ">" in
        run ← (if found : bool then List.find (λ r, has_prefix rest (run_text r)) runs else None);
        l ← parse fuel (trim_prefix rest (run_text run)); Some (Group name run.1 run.2 :: l)
      else if Ascii.eqb c "\" then
        match s' with
        | String d s'' => if is_meta d then l ← parse fuel s''; Some (Char d :: l) else None
        | "" => None
        end
      else if is_meta c then None
      else l ← parse fuel s'; Some (Char c :: l)
  | _, _ => None
  end.

Definition Compile (s : string) : option (list Atom) :=
  if has_prefix s "^" then
    l ← parse (String.length s) (trim_prefix s "^");
    if bool_decide (NoDup (group_names l)) then Some l else None
  else None.

(** *** Matching *)

(** The values of the groups, the longest first. *)
Fixpoint find_atoms (l : list Atom) : string → option (list string) :=
  match l with
  | [] => λ s, if String.eqb s "" then Some [] else None
  | Char c :: l => λ s, match s with String d s => if Ascii.eqb c d then find_atoms l s else None | "" => None end
  | Group _ cls q :: l => λ s,
      (fix longest n :=
         if run_ok cls q (str_take n s) && (String.length (str_take n s) =? n)
         then match find_atoms l (str_drop n s) with
              | Some vs => Some (str_take n s :: vs)
              | None => match n with O => None | S m => longest m end
              end
         else match n with O => None | S m => longest m end) (String.length s)
  end.

Definition find (l : list Atom) (p : string) : option (list string) := vs ← find_atoms l p; Some (p :: vs).
Definition names (l : list Atom) : list string := "" :: group_names l.

Lemma word_no_close name : str_forall word_char name = true → Ascii.ascii_of_nat 62 ∉ bytes_of name.
Proof. intros H. by eapply str_forall_not_in. Qed.

Lemma find_run cls q s : List.find (λ r, has_prefix (run_text (cls, q) +:+ s) (run_text r)) runs = Some (cls, q).
Proof. destruct cls, q, s; vm_compute; reflexivity. Qed.

Lemma parse_group fuel name cls q rest l : str_forall word_char name = true → parse fuel rest = Some l →
  parse (S fuel) (atom_text (Group name cls q) +:+ rest) = Some (Group name cls q :: l).
Proof.
  intros Hw Hl. assert (E : atom_text (Group name cls q) +:+ rest = "(?P<" +:+ name +:+ String ">" (run_text (cls, q) +:+ rest))
    by (unfold atom_text, run_text; cbn [fst snd]; by rewrite !str_app_assoc).
  rewrite E. pose proof (has_prefix_app "(?P<" (name +:+ String ">" (run_text (cls, q) +:+ rest))) as Hp.
  cbn [String.append] in *. cbn [parse str_drop]. rewrite Hp, cut_byte_app by by apply word_no_close.
  change (String.eqb _ "$") with false. cbn iota. rewrite find_run. cbn [mbind option_bind]. by rewrite trim_prefix_app, Hl.
Qed.

Lemma parse_text l : ∀ fuel, names_ok l = true → (String.length (rx_text l) < fuel)%nat →
  parse fuel (rx_text l +:+ "$") = Some l.
Proof.
  induction l as [|[c|name cls q] l IH]; intros fuel Hn Hf; (destruct fuel as [|fuel]; [lia|]).
  - done.
  - cbn [rx_text foldr atom_text] in *. fold (rx_text l) in *. unfold char_text in *.
    rewrite str_length_app in Hf. rewrite str_app_assoc. destruct (is_meta c) eqn:Em.
    + cbn [String.append String.length parse] in *. cbn [String.eqb Ascii.eqb].
      change (has_prefix (String "\" _) "(?P<") with false. cbn iota. change (Ascii.eqb "\"%char "\"%char) with true. cbn iota.
      change (Ascii.eqb "\"%char "$"%char) with false. cbn iota. rewrite Em, IH by (done || lia). done.
    + assert (Ha : ∀ d, is_meta d = true → Ascii.eqb c d = false).
      { intros d Hd. apply Ascii.eqb_neq. intros ->. congruence. }
      cbn [String.append String.length parse] in *. cbn [String.eqb]. rewrite (Ha "$"%char) by reflexivity.
      assert (Hp : ∀ s, has_prefix (String c s) "(?P<" = false).
      { intros s. apply not_true_iff_false. intros [r E]%has_prefix_spec. injection E as -> _. discriminate Em. }
      rewrite Hp, (Ha "\"%char), Em, IH by (reflexivity || done || lia). done.
  - unfold names_ok in *. cbn [group_names flat_map app forallb] in Hn. apply andb_prop in Hn as [Hw Hn].
    cbn [rx_text foldr] in *. fold (rx_text l) in *. rewrite str_app_assoc. apply parse_group; [exact Hw|].
    apply IH; [exact Hn|]. cbn in Hf. rewrite !str_length_app in Hf. lia.
Qed.

Lemma Compile_anchored l r : names_ok l = true → Compile (anchored l) = Some r → r = l ∧ NoDup (group_names l).
Proof.
  intros Hn. unfold Compile, anchored. rewrite has_prefix_app, trim_prefix_app, parse_text; [|done|].
  - cbn. case_bool_decide; [|done]. by intros [= <-].
  - rewrite !str_length_app. cbn. lia.
Qed.

Lemma find_atoms_sound l s vs : find_atoms l s = Some vs → rx_match l s vs.
Proof.
  revert s vs. induction l as [|[c|name cls q] l IH]; intros s vs; cbn [find_atoms].
  - destruct (String.eqb_spec s "") as [->|]; [|done]. intros [= <-]. constructor.
  - destruct s as [|d s]; [done|]. destruct (Ascii.eqb_spec c d) as [->|]; [|done]. intros H. constructor. by apply IH.
  - generalize (String.length s) as k. induction k as [|k IHk];
      (destruct (run_ok _ _ _ && _) eqn:E; [|first [exact IHk|done]]).
    + apply andb_prop in E as [Hr _]. destruct (find_atoms l _) as [ws|] eqn:Ef; [|done]. intros [= <-].
      assert (E : s = str_take 0 s +:+ str_drop 0 s) by (symmetry; apply str_take_drop).
      rewrite E at 1. constructor; [done|by apply IH].
    + apply andb_prop in E as [Hr _]. destruct (find_atoms l _) as [ws|] eqn:Ef; [|exact IHk]. intros [= <-].
      assert (E : s = str_take (S k) s +:+ str_drop (S k) s) by (symmetry; apply str_take_drop).
      rewrite E at 1. constructor; [done|by apply IH].
Qed.

Lemma find_atoms_complete l s vs : rx_match l s vs → is_Some (find_atoms l s).
Proof.
  induction 1 as [|c l p vs _ IH|name cls q l v p vs Hv _ IH]; cbn [find_atoms].
  - by eexists.
  - by rewrite Ascii.eqb_refl.
  - destruct IH as [ws Hws].
    assert (Hk : (String.length v ≤ String.length (v +:+ p))%nat) by (rewrite str_length_app; lia).
    revert Hk. generalize (String.length (v +:+ p)) as k. induction k as [|k IHk]; intros Hk.
    { destruct v; [|simpl in Hk; lia]. cbn [str_take str_drop String.append]. rewrite Hv. cbn. rewrite Hws. by eexists. }
    destruct (decide (String.length v = S k)) as [E|E].
    + rewrite <- E, str_take_app, str_drop_app, Hws, Hv, Nat.eqb_refl. by eexists.
    + destruct (run_ok _ _ _ && _); [|apply IHk; lia].
      destruct (find_atoms l (str_drop _ _)); [by eexists|apply IHk; lia].
Qed.

Global Instance laws : RegexpLaws find names Compile.
Proof.
  split.
  - intros l r Hn Hc. by destruct (Compile_anchored _ _ Hn Hc) as [-> _].
  - intros l r Hn Hc. by destruct (Compile_anchored _ _ Hn Hc) as [_ ?].
  - intros l r p m Hn Hc _. destruct (Compile_anchored _ _ Hn Hc) as [-> _]. unfold find.
    destruct (find_atoms l p) as [vs|] eqn:E; [|done]. intros [= <-]. exists vs. split; [done|]. by apply find_atoms_sound.
  - intros l r p vs Hn Hc Hm _. destruct (Compile_anchored _ _ Hn Hc) as [-> _]. unfold find.
    destruct (find_atoms_complete _ _ _ Hm) as [ws ->]. by eexists.
Qed.
End Engine.

Example engine_reads :
  Engine.Compile "^/a\.b/(?P<id>[^/]+)$" = Some (map Char (bytes_of "/a.b/") ++ [Group "id" NotSlash OneOrMore]) ∧
  Engine.Compile "^(?P<a>.*)(?P<a>.*)$" = None.
Proof. split; vm_compute; reflexivity. Qed.
