(* ===== verification/Compile.v ===== *)
(** * Compiling scenarios: [validateAndCompile] of [internal/storage/scenario.go]

    How the rules of a scenario file become the compiled rules that [Scenario]
    matches with: endpoints with [{name}] captures, exact routes and the reserved
    service paths, header lists, ["re:"] values, client networks and branches;
    the responses are checked by [Responses] in between, where the code does.
    [regexp.Compile], [mime.ParseMediaType], [net.ParseCIDR] and [os.Stat] are
    parameters; of [regexp] the laws of [Regexp] are used. *)
From S2P Require Import Prelude GoInt GoStrings Regexp Header Chunked Message Scenario Responses.

Local Open Scope Z_scope.
Local Open Scope go_scope.

(** ** Endpoints *)

(** [regexp.QuoteMeta]. *)
Fixpoint QuoteMeta (s : string) : string :=
  match s with
  | "" => ""
  | String c s => if is_meta c then String "\" (String c (QuoteMeta s)) else String c (QuoteMeta s)
  end.

(** An endpoint declaration cut at its [{name}] placeholders. *)
Inductive Piece := Literal (s : string) | Placeholder (name : string).

Definition is_letter (c : ascii) : bool :=
  let n := nat_of_ascii (lower_ascii c) in (97 <=? n)%nat && (n <=? 122)%nat.
Definition ident_start (c : ascii) : bool := is_letter c || Ascii.eqb c "_".
Definition ident_char (c : ascii) : bool := ident_start c || is_digit 10 c.

(** The leftmost matches of [endpointCapturePattern], in one pass: [lit] is the
    literal so far and [pending] a placeholder that has been opened. *)
Fixpoint scan (lit : string) (pending : option string) (s : string) : list Piece :=
  match s with
  | "" => [Literal (lit +:+ match pending with Some name => String "{" name | None => "" end)]
  | String c s =>
      match pending with
      | None => if Ascii.eqb c "{" then scan lit (Some "") s else scan (lit +:+ String c "") None s
      | Some name =>
          if Ascii.eqb c "{" then scan (lit +:+ String "{" name) (Some "") s
          else if Ascii.eqb c "}" && negb (String.eqb name "") then Literal lit :: Placeholder name :: scan "" None s
          else if (if String.eqb name "" then ident_start c else ident_char c)
          then scan lit (Some (name +:+ String c "")) s
          else scan (lit +:+ String "{" (name +:+ String c "")) None s
      end
  end.

Definition pieces (raw : string) : list Piece := scan "" None raw.

Definition piece_regexp (p : Piece) : string :=
  match p with
  | Literal s => QuoteMeta s
  | Placeholder name => "(?P<" +:+ name +:+ ">[^/]+)"
  end.

Definition concat_str (l : list string) : string := foldr String.append "" l.

Definition endpoint_regexp (l : list Piece) : string := "^" +:+ concat_str (map piece_regexp l) +:+ "$".

Definition placeholder_names (l : list Piece) : list string :=
  flat_map (λ p, match p with Placeholder name => [name] | Literal _ => [] end) l.

(** ** Rules that compilation rejects *)

Inductive CompileError :=
| NameRequired
| InvalidRoutes
| InvalidPattern
| ReservedRoute
| InvalidHeaderList
| InvalidMediaType
| InvalidCIDR
| InvalidResponse (e : ResponseError).

Definition MethodOPTIONS : string := "OPTIONS".

Definition exactRouteMethodOrder : list string := [MethodREQMOD; MethodRESPMOD].

Definition orderedRouteMethods (routes : gmap string (list string)) : list string :=
  List.filter (λ m, bool_decide (is_Some (routes !! m))) exactRouteMethodOrder.

Definition endpoints_valid (endpoints : list string) : bool :=
  negb (bool_decide (endpoints = [])) && forallb (λ e, negb (String.eqb (trim_space e) "")) endpoints
  && bool_decide (NoDup endpoints).

Definition validateRouteMap (routes : gmap string (list string)) : bool :=
  negb (bool_decide (routes = ∅)) &&
  forallb (λ me, (String.eqb me.1 MethodREQMOD || String.eqb me.1 MethodRESPMOD) && endpoints_valid me.2)
          (map_to_list routes).

Definition reservedICAPServicePaths : list (string * string) :=
  [("/reqmod", MethodREQMOD); ("/respmod", MethodRESPMOD); ("/options", MethodOPTIONS)].

Definition isContentTypeHeader (key : string) : bool := equal_fold key "Content-Type".

Definition normalize_value (key value : string) : string :=
  if isContentTypeHeader key then trim_space value else to_lower value.

Definition normalizeHeaderContainsRules (exact : gmap string string) (rules : gmap string (list string))
  : option (gmap string (list string)) :=
  if forallb (λ kv, bool_decide (exact !! kv.1 = None) && negb (bool_decide (kv.2 = []))
                    && forallb (λ v, negb (String.eqb (trim_space v) "")) kv.2) (map_to_list rules)
  then Some (map_imap (λ key values, Some (map (normalize_value key) values)) rules)
  else None.

(** Every value of a map, when all of them are there. *)
Definition all_some {A} (m : gmap string (option A)) : option (gmap string A) :=
  if forallb (λ kv, bool_decide (is_Some kv.2)) (map_to_list m) then Some (omap id m) else None.

Section Compiling.
Context {Regexp : Type}.
Context (FindStringSubmatch : Regexp → string → option (list string)).
Context (Compile : string → option Regexp).
Context (ParseMediaType : string → option (string * gmap string string)).
Context {IPNet : Type} (ParseCIDR : string → option IPNet).
Context (FileExists : string → bool).

Notation Scenario' := (Scenario (Regexp := Regexp) (IPNet := IPNet) (Response := Responses)).
Notation Branch' := (Branch (Regexp := Regexp) (Response := Responses)).
Notation Rules' := (CompiledRules (Regexp := Regexp)).
Notation Endpoint' := (compiledEndpoint (Regexp := Regexp)).

Definition compileEndpoint (raw : string) : option Endpoint' :=
  if String.eqb raw "" then Some {| re := None; raw := ""; captures := [] |}
  else if has_prefix raw "re:" then
    r ← Compile (trim_prefix raw "re:"); Some {| re := Some r; raw := raw; captures := [] |}
  else
    r ← Compile (endpoint_regexp (pieces raw));
    Some {| re := Some r; raw := raw; captures := placeholder_names (pieces raw) |}.

(** [false] is a conflict with a reserved path. *)
Definition validateReservedExactRoute (method raw : string) (compiled : Endpoint') : bool :=
  let isPattern := has_prefix raw "re:" || contains_str raw "{" in
  forallb (λ pr,
    if isPattern then match re compiled with Some r => negb (MatchString FindStringSubmatch r pr.1) | None => true end
    else if negb (String.eqb raw pr.1) then true
    else negb (String.eqb pr.2 MethodOPTIONS || negb (String.eqb method pr.2)))
    reservedICAPServicePaths.

(** *** Routes and endpoints *)

Fixpoint compileRouteEndpoints (method : string) (endpoints : list string) : result CompileError (list Endpoint') :=
  match endpoints with
  | [] => Ok []
  | e :: endpoints =>
      match compileEndpoint e with
      | None => Err InvalidPattern
      | Some c =>
          guard! validateReservedExactRoute method e c else ReservedRoute in
          let! l := compileRouteEndpoints method endpoints in Ok (c :: l)
      end
  end.

Fixpoint compileRouteMethods (routes : gmap string (list string)) (methods : list string)
  : result CompileError (gmap string (list Endpoint')) :=
  match methods with
  | [] => Ok ∅
  | m :: methods =>
      let! l := compileRouteEndpoints m (default [] (routes !! m)) in
      let! rest := compileRouteMethods routes methods in
      Ok (<[m := l]> rest)
  end.

Definition compileRoutes (routes : gmap string (list string))
  : result CompileError (option (gmap string (list Endpoint'))) :=
  if bool_decide (routes = ∅) then Ok None
  else
    guard! validateRouteMap routes else InvalidRoutes in
    let! compiled := compileRouteMethods routes (orderedRouteMethods routes) in
    Ok (Some compiled).

Definition compilePaths (rule : MatchRule) (old : list Endpoint') : result CompileError (list Endpoint') :=
  if negb (bool_decide (Paths rule = [])) then
    match mapM compileEndpoint (Paths rule) with Some l => Ok l | None => Err InvalidPattern end
  else if negb (String.eqb (Path rule) "") then
    match Compile (Path rule) with
    | Some r => Ok [{| re := Some r; raw := Path rule; captures := [] |}]
    | None => Err InvalidPattern
    end
  else Ok old.

Definition compileBodyPattern (rule : MatchRule) (old : option Regexp) : result CompileError (option Regexp) :=
  if String.eqb (BodyPattern rule) "" then Ok old
  else match Compile (BodyPattern rule) with Some r => Ok (Some r) | None => Err InvalidPattern end.

(** *** Headers and URLs *)

Fixpoint compileContentTypeValues (values : list string) (m : compiledHeaderListMatcher)
  : option compiledHeaderListMatcher :=
  match values with
  | [] => Some m
  | value :: values =>
      '(mt, ps) ← ParseMediaType value;
      let '(name, subtype, hasSubtype) := cut_byte mt "/" in
      if negb hasSubtype || String.eqb name "" || String.eqb subtype "" then None
      else
        compileContentTypeValues values
          (if contains_str value ";"
           then {| mediaTypes := mediaTypes m;
                   parameterized := parameterized m ++ [{| parameters := ps; mediaType := mt |}];
                   contains := contains m; isContentType := isContentType m |}
           else {| mediaTypes := {[ mt ]} ∪ mediaTypes m; parameterized := parameterized m;
                   contains := contains m; isContentType := isContentType m |})
  end.

Definition compileContentTypeListMatcher (values : list string) : option compiledHeaderListMatcher :=
  compileContentTypeValues values {| mediaTypes := ∅; parameterized := []; contains := []; isContentType := true |}.

Definition compileHeaderListMatchers (rules : gmap string (list string))
  : option (gmap string compiledHeaderListMatcher) :=
  all_some (map_imap (λ key values, Some
    (if isContentTypeHeader key then compileContentTypeListMatcher values
     else Some {| mediaTypes := ∅; parameterized := []; contains := values; isContentType := false |})) rules).

(** The ["re:"] values of a map, compiled over what was compiled before. *)
Definition compileHeaderPatterns (exact : gmap string string) (old : gmap string Regexp)
  : option (gmap string Regexp) :=
  compiled ← all_some (omap (λ v, if has_prefix v "re:" then Some (Compile (trim_prefix v "re:")) else None) exact);
  Some (compiled ∪ old).

Definition compileURL (url : string) (old : option Regexp) : result CompileError (option Regexp) :=
  if has_prefix url "re:" then
    match Compile (trim_prefix url "re:") with Some r => Ok (Some r) | None => Err InvalidPattern end
  else Ok old.

Definition or_error {A} (e : CompileError) (o : option A) : result CompileError A :=
  match o with Some a => Ok a | None => Err e end.

Definition with_lists (lists httpLists : gmap string (list string)) (r : MatchRule) : MatchRule :=
  {| Routes := Routes r; Path := Path r; Paths := Paths r; Methods := Methods r;
     mr_HTTPMethod := mr_HTTPMethod r; HTTPURL := HTTPURL r; Headers := Headers r; HeaderContains := lists;
     HTTPHeaders := HTTPHeaders r; HTTPHeaderContains := httpLists; BodyPattern := BodyPattern r;
     ClientIP := ClientIP r; CIDRRanges := CIDRRanges r |}.

(** The normalized lists of a rule and their matchers. *)
Definition compileLists (rule : MatchRule)
  : result CompileError (MatchRule * gmap string compiledHeaderListMatcher * gmap string compiledHeaderListMatcher) :=
  let! lists := or_error InvalidHeaderList (normalizeHeaderContainsRules (Headers rule) (HeaderContains rule)) in
  let! httpLists := or_error InvalidHeaderList
                      (normalizeHeaderContainsRules (HTTPHeaders rule) (HTTPHeaderContains rule)) in
  let! headerLists := or_error InvalidMediaType (compileHeaderListMatchers lists) in
  let! httpHeaderLists := or_error InvalidMediaType (compileHeaderListMatchers httpLists) in
  Ok (with_lists lists httpLists rule, headerLists, httpHeaderLists).

(** The patterns of a rule, with the matchers of its lists. *)
Definition compilePatterns (rule : MatchRule) (headerLists httpHeaderLists : gmap string compiledHeaderListMatcher)
    (old : Rules') : result CompileError Rules' :=
  let! headers := or_error InvalidPattern (compileHeaderPatterns (Headers rule) (compiledHeaders old)) in
  let! httpHeaders := or_error InvalidPattern (compileHeaderPatterns (HTTPHeaders rule) (compiledHTTPHeaders old)) in
  let! url := compileURL (HTTPURL rule) (compiledHTTPURL old) in
  Ok {| compiledHeaders := headers; compiledHeaderLists := headerLists;
        compiledHTTPHeaders := httpHeaders; compiledHTTPLists := httpHeaderLists; compiledHTTPURL := url |}.

(** The header and URL rules of a scenario. *)
Definition compileRules (rule : MatchRule) (old : Rules') : result CompileError (MatchRule * Rules') :=
  let! lists := compileLists rule in
  let! compiled := compilePatterns rule lists.1.2 lists.2 old in
  Ok (lists.1.1, compiled).

Definition compileCIDRs (rule : MatchRule) (old : list IPNet) : result CompileError (list IPNet) :=
  if bool_decide (CIDRRanges rule = []) then Ok old
  else or_error InvalidCIDR (mapM ParseCIDR (CIDRRanges rule)).

(** What the code calls [regexp.Compile] for in the lists of file names. *)
Definition PatternCompiles (pattern : string) : bool := bool_decide (is_Some (Compile pattern)).

Definition checked (r : result ResponseError Responses) : result CompileError Responses :=
  match r with Ok r => Ok r | Err e => Err (InvalidResponse e) end.

(** [methods] are those of the scenario. *)
Fixpoint compileBranches (methods : list string) (bs : list Branch') : result CompileError (list Branch') :=
  match bs with
  | [] => Ok []
  | b :: bs =>
      let! lists := compileLists (b_Match b) in
      let! responses := checked (validateBranchResponses FileExists PatternCompiles (b_Response b) methods) in
      let! compiled := compilePatterns (b_Match b) lists.1.2 lists.2 (b_rules b) in
      let! rest := compileBranches methods bs in
      Ok ({| b_Match := lists.1.1; b_rules := compiled; b_Response := responses |} :: rest)
  end.

Definition validateAndCompile (s : Scenario') : result CompileError Scenario' :=
  guard! negb (String.eqb (Name s) "") else NameRequired in
  let! routes := compileRoutes (Routes (Match_ s)) in
  let! paths := compilePaths (Match_ s) (compiledPaths s) in
  let! body := compileBodyPattern (Match_ s) (compiledBody s) in
  let! responses := checked (validateScenarioResponses FileExists PatternCompiles (s_Response s) (Methods (Match_ s))) in
  let! mr := compileRules (Match_ s) (rules s) in
  let! cidrs := compileCIDRs (Match_ s) (compiledCIDRs s) in
  let! branches := compileBranches (Methods (Match_ s)) (Branches s) in
  Ok {| Name := Name s; Match_ := mr.1; rules := mr.2; compiledBody := body; compiledRoutes := routes;
        compiledPaths := paths; compiledCIDRs := cidrs; Branches := branches; s_Response := responses;
        Priority := Priority s; order := order s |}.
End Compiling.

(** ** Placeholders *)

Definition piece_text (p : Piece) : string :=
  match p with Literal s => s | Placeholder name => "{" +:+ name +:+ "}" end.

(** What an endpoint matches when its placeholders take these values, in order. *)
Fixpoint fill (l : list Piece) (values : list string) : string :=
  match l with
  | [] => ""
  | Literal s :: l => s +:+ fill l values
  | Placeholder _ :: l =>
      match values with [] => "" | v :: values => v +:+ fill l values end
  end.

(** An endpoint with its placeholders replaced by captured values. *)
Definition expand (caps : gmap string string) (l : list Piece) : string :=
  concat_str (map (λ p, match p with Literal s => s | Placeholder name => default "" (caps !! name) end) l).

Lemma scan_text lit pending s :
  concat_str (map piece_text (scan lit pending s)) =
  lit +:+ match pending with Some name => String "{" name | None => "" end +:+ s.
Proof.
  revert lit pending. induction s as [|c s IH]; intros lit pending; cbn [scan].
  { simpl. by rewrite !str_app_nil_r. }
  destruct pending as [name|].
  - destruct (Ascii.eqb_spec c "{") as [->|_].
    { rewrite IH. by rewrite !str_app_assoc. }
    destruct (Ascii.eqb_spec c "}") as [->|_]; cbn [andb].
    + destruct (String.eqb_spec name "") as [->|_]; cbn [negb andb].
      * change (String.eqb "" "") with true. cbn iota. change (ident_start "}") with false. cbn iota.
        rewrite IH. by rewrite str_app_assoc.
      * cbn [map concat_str foldr]. fold concat_str. change (foldr String.append "") with concat_str.
        rewrite IH. simpl. by rewrite !str_app_assoc.
    + destruct (if String.eqb name "" then ident_start c else ident_char c); rewrite IH;
        by rewrite ?str_app_assoc; cbn [String.append]; rewrite ?str_app_assoc.
  - destruct (Ascii.eqb_spec c "{") as [->|_]; rewrite IH; [done|]. by rewrite str_app_assoc.
Qed.

Lemma pieces_text raw : concat_str (map piece_text (pieces raw)) = raw.
Proof. unfold pieces. by rewrite scan_text. Qed.

Lemma scan_literal lit s : Ascii.ascii_of_nat 123 ∉ bytes_of s → scan lit None s = [Literal (lit +:+ s)].
Proof.
  revert lit. induction s as [|c s IH]; intros lit Hs; cbn [scan]; [done|].
  simpl in Hs. apply not_elem_of_cons in Hs as [Hc Hs].
  destruct (Ascii.eqb_spec c "{") as [->|_]; [by destruct Hc|]. rewrite IH by done. by rewrite str_app_assoc.
Qed.

Lemma scan_names lit pending s : Forall (λ n, n ≠ "") (placeholder_names (scan lit pending s)).
Proof.
  revert lit pending. induction s as [|c s IH]; intros lit pending; cbn [scan]; [constructor|].
  destruct pending as [name|]; [|destruct (Ascii.eqb c "{"); apply IH].
  destruct (Ascii.eqb c "{"); [apply IH|]. destruct (Ascii.eqb c "}"); cbn [andb].
  - destruct (String.eqb_spec name "") as [->|Hn]; cbn [negb].
    + change (String.eqb "" "") with true. cbn iota. destruct (ident_start c); apply IH.
    + constructor; [done|apply IH].
  - destruct (if String.eqb name "" then ident_start c else ident_char c); apply IH.
Qed.

Lemma expand_fill l values caps :
  Forall2 (λ n v, caps !! n = Some v) (placeholder_names l) values → expand caps l = fill l values.
Proof.
  revert values. unfold expand. induction l as [|[s|n] l IH]; intros values Hf; [done| |].
  - simpl in *. by rewrite (IH values).
  - simpl in Hf. inversion Hf as [|? v ? values' Hn Hf']; subst. simpl. rewrite Hn. cbn [default from_option id].
    by rewrite (IH values').
Qed.

Definition insert_capture (caps : gmap string string) (nv : string * string) : gmap string string :=
  if bool_decide (nv.1 = "") then caps else <[nv.1 := nv.2]> caps.

Lemma insert_capture_ne acc n v : n ≠ "" → insert_capture acc (n, v) = <[n := v]> acc.
Proof. intros Hn. unfold insert_capture. by rewrite bool_decide_false. Qed.

Lemma captures_other names values acc n :
  n ∉ names → foldl insert_capture acc (zip names values) !! n = acc !! n.
Proof.
  revert values acc. induction names as [|m names IH]; intros [|v values] acc Hn; try done.
  apply not_elem_of_cons in Hn as [Hn Hns]. simpl. rewrite IH by done. unfold insert_capture. simpl.
  case_bool_decide; [done|]. by rewrite lookup_insert_ne.
Qed.

Lemma captures_lookup names values acc :
  NoDup names → Forall (λ n, n ≠ "") names → length values = length names →
  Forall2 (λ n v, foldl insert_capture acc (zip names values) !! n = Some v) names values.
Proof.
  revert values acc. induction names as [|n names IH]; intros [|v values] acc Hnd Hne Hl; try done.
  apply NoDup_cons in Hnd as [Hn Hnd]. inversion Hne as [|? ? Hn0 Hne']; subst. simpl in Hl. simpl.
  rewrite insert_capture_ne by done. constructor.
  - rewrite captures_other by done. by rewrite lookup_insert_eq.
  - apply IH; [done..|lia].
Qed.

Lemma captures_dom names values (acc : gmap string string) :
  Forall (λ n, n ≠ "") names → length values = length names →
  dom (foldl insert_capture acc (zip names values)) = list_to_set names ∪ dom acc.
Proof.
  revert values acc. induction names as [|n names IH]; intros [|v values] acc Hne Hl; try done; [set_solver|].
  inversion Hne as [|? ? Hn Hne']; subst. simpl in Hl |- *. rewrite IH by (done || lia).
  rewrite insert_capture_ne by done. rewrite dom_insert_L. set_solver.
Qed.

(** A placeholder takes one non-empty path segment. *)
Definition segment (v : string) : Prop := v ≠ "" ∧ Ascii.ascii_of_nat 47 ∉ bytes_of v.

Definition strip_query (path : string) : string := cut_at "#" (cut_at "?" path).

(** The pattern an endpoint stands for: its literal text, and a group of one or more
    characters other than a slash for each placeholder. *)
Definition rx_of (l : list Piece) : list Atom :=
  flat_map (λ p, match p with
                 | Literal s => map Char (bytes_of s)
                 | Placeholder name => [Group name NotSlash OneOrMore]
                 end) l.

Definition plain (raw : string) : bool := plain_rx (rx_of (pieces raw)).

Lemma rx_text_app a b : rx_text (a ++ b) = rx_text a +:+ rx_text b.
Proof. induction a as [|x a IH]; [done|]. cbn [app rx_text foldr]. fold (rx_text (a ++ b)) (rx_text a). by rewrite IH, str_app_assoc. Qed.

Lemma QuoteMeta_text s : QuoteMeta s = rx_text (map Char (bytes_of s)).
Proof.
  induction s as [|c s IH]; [done|]. cbn [QuoteMeta bytes_of map rx_text foldr atom_text]. rewrite IH. unfold char_text.
  by destruct (is_meta c).
Qed.

(** The text that is compiled for an endpoint is the text of that pattern. *)
Lemma endpoint_regexp_text l : endpoint_regexp l = anchored (rx_of l).
Proof.
  unfold endpoint_regexp, anchored. do 2 f_equal. induction l as [|[s|name] l IH]; [done| |];
    cbn [map concat_str foldr rx_of flat_map piece_regexp]; rewrite rx_text_app; change (foldr String.append "" ?m) with (concat_str m);
    fold (rx_of l); rewrite <- IH.
  - by rewrite QuoteMeta_text.
  - cbn [rx_text foldr atom_text class_text quantifier_text]. by rewrite str_app_nil_r, !str_app_assoc.
Qed.

Lemma group_names_chars s l : group_names (map Char (bytes_of s) ++ l) = group_names l.
Proof. by induction s. Qed.

Lemma rx_of_names l : group_names (rx_of l) = placeholder_names l.
Proof.
  induction l as [|[s|name] l IH]; [done| |]; cbn [rx_of flat_map placeholder_names app]; fold (rx_of l).
  - by rewrite group_names_chars, IH.
  - cbn. by f_equal.
Qed.

Lemma rx_chars s l p vs : rx_match (map Char (bytes_of s) ++ l) p vs ↔ ∃ p', p = s +:+ p' ∧ rx_match l p' vs.
Proof.
  revert p. induction s as [|c s IH]; intros p; cbn [bytes_of map app String.append].
  - naive_solver.
  - split.
    + intros H. inversion H as [|? ? p1 ? H1|]; subst. apply IH in H1 as (p' & -> & H1). by exists p'.
    + intros (p' & -> & H1). constructor. apply IH. by exists p'.
Qed.

Lemma segment_run v : segment v ↔ run_ok NotSlash OneOrMore v = true.
Proof.
  unfold segment, run_ok. rewrite andb_true_iff, negb_true_iff, String.eqb_neq. unfold str_forall. rewrite forallb_forall.
  split; intros [H1 H2]; split; try done.
  - intros c Hc. cbn. apply negb_true_iff, Ascii.eqb_neq. intros ->. apply H2. by apply list_elem_of_In.
  - intros Hc%list_elem_of_In. by apply H1 in Hc.
Qed.

Lemma rx_of_match l p vs : rx_match (rx_of l) p vs → p = fill l vs ∧ Forall segment vs.
Proof.
  revert p vs. induction l as [|[s|name] l IH]; intros p vs; cbn [rx_of flat_map fill].
  - intros H. inversion H; subst. by split; [|constructor].
  - fold (rx_of l). intros (p' & -> & H)%rx_chars. destruct (IH _ _ H) as [-> Hs]. done.
  - fold (rx_of l). cbn [app]. intros H. inversion H as [| |? ? ? ? v p' vs' Hv H1]; subst. destruct (IH _ _ H1) as [-> Hs].
    split; [done|]. constructor; [by apply segment_run|done].
Qed.

Lemma rx_of_fill l vs : length vs = length (placeholder_names l) → Forall segment vs → rx_match (rx_of l) (fill l vs) vs.
Proof.
  revert vs. induction l as [|[s|name] l IH]; intros vs Hl Hs; cbn [rx_of flat_map fill].
  - destruct vs; [constructor|done].
  - fold (rx_of l). apply rx_chars. eexists. split; [done|]. by apply IH.
  - destruct vs as [|v vs]; [done|]. inversion Hs; subst. constructor; [by apply segment_run|]. apply IH; [by injection Hl|done].
Qed.

(** The names of placeholders are names that groups can have. *)
Lemma ident_word c : ident_char c = true → word_char c = true.
Proof. by destruct c as [[] [] [] [] [] [] [] []]. Qed.

Lemma scan_words lit pending s :
  str_forall word_char (default "" pending) = true →
  forallb (str_forall word_char) (placeholder_names (scan lit pending s)) = true.
Proof.
  revert lit pending. induction s as [|c s IH]; intros lit pending Hp; cbn [scan]; [done|].
  destruct pending as [name|]; [|destruct (Ascii.eqb c "{"); by apply IH]. cbn [default from_option id] in Hp.
  destruct (Ascii.eqb c "{"); [by apply IH|]. destruct (Ascii.eqb c "}" && _).
  { cbn. rewrite Hp. by apply IH. }
  destruct (if String.eqb name "" then ident_start c else ident_char c) eqn:E; [|by apply IH]. apply IH. cbn [default from_option id].
  rewrite str_forall_app, Hp. unfold str_forall. cbn. rewrite ident_word; [done|].
  unfold ident_char. destruct (String.eqb name ""); [by rewrite E|done].
Qed.

Lemma rx_of_names_ok raw : names_ok (rx_of (pieces raw)) = true.
Proof. unfold names_ok. rewrite rx_of_names. by apply scan_words. Qed.

Section Endpoints.
Context {Regexp : Type}.
Context (FindStringSubmatch : Regexp → string → option (list string)).
Context (SubexpNames : Regexp → list string).
Context (Compile : string → option Regexp).

(** Endpoints are tried one by one. *)
Lemma matchEndpoint_elem ces path :
  is_Some (matchEndpoint FindStringSubmatch SubexpNames ces path) →
  ∃ ce, ce ∈ ces ∧ is_Some (matchEndpoint FindStringSubmatch SubexpNames [ce] path).
Proof using.
  unfold Scenario.matchEndpoint. induction ces as [|ce ces IH]; simpl; [by intros []|].
  destruct (re ce) as [r|] eqn:Er.
  - destruct (FindStringSubmatch r _) as [m|] eqn:Em.
    + intros _. exists ce. split; [left|]. rewrite Er, Em. by eexists.
    + intros Hs. destruct (IH Hs) as (c & Hc & Hs'). exists c. split; [by right|done].
  - intros Hs. destruct (IH Hs) as (c & Hc & Hs'). exists c. split; [by right|done].
Qed.

Context {Hlaws : RegexpLaws FindStringSubmatch SubexpNames Compile}.

(** The pattern of a compiled endpoint matches what its pieces can be filled to give. *)
Record endpoint_spec (r : Regexp) (l : list Piece) : Prop := {
  spec_names : SubexpNames r = "" :: placeholder_names l;
  spec_distinct : NoDup (placeholder_names l);
  spec_match : ∀ p m, plain_rx (rx_of l) = true ∨ ascii_only p = true → FindStringSubmatch r p = Some m →
    ∃ values, m = p :: values ∧ length values = length (placeholder_names l) ∧
              p = fill l values ∧ Forall segment values;
  spec_found : ∀ values, length values = length (placeholder_names l) → Forall segment values →
    Forall (λ v, starts_char v = true) values → is_Some (FindStringSubmatch r (fill l values))
}.

Lemma endpoint_compiled raw r : Compile (endpoint_regexp (pieces raw)) = Some r → endpoint_spec r (pieces raw).
Proof using Hlaws.
  rewrite endpoint_regexp_text. intros Hc. pose proof (rx_of_names_ok raw) as Hn.
  pose proof (rx_of_names (pieces raw)) as En. split.
  - rewrite <- En. by apply rx_names.
  - rewrite <- En. by eapply rx_distinct.
  - intros p m Hp Hm. destruct (rx_sound _ _ _ _ Hn Hc Hp Hm) as (vs & -> & Hv). exists vs. split; [done|].
    split; [|by apply rx_of_match]. rewrite <- En. by eapply rx_match_length.
  - intros vs Hl Hs Hv. eapply rx_complete; [exact Hn|exact Hc| |exact Hv]. by apply rx_of_fill.
Qed.

(** C18: an endpoint declaration matches exactly the paths that its text gives
    when each [{name}] is replaced by a non-empty segment without a slash; the
    captures are such segments, one for each name, and putting them back into
    the declaration gives the path. The query and the fragment do not count. (Bytes that
    are no characters are left aside: the declaration does not contain U+FFFD or the path
    is ASCII, and a segment that must match starts with a character.) *)
Theorem endpoint_captures raw ce :
  raw ≠ "" → has_prefix raw "re:" = false → compileEndpoint Compile raw = Some ce →
  ∀ reqPath, plain raw = true ∨ ascii_only (strip_query reqPath) = true →
  match matchEndpoint FindStringSubmatch SubexpNames [ce] reqPath with
  | Some caps => expand caps (pieces raw) = strip_query reqPath ∧
                 dom caps = list_to_set (placeholder_names (pieces raw)) ∧
                 ∀ name v, caps !! name = Some v → segment v
  | None => ∀ values, length values = length (placeholder_names (pieces raw)) → Forall segment values →
            Forall (λ v, starts_char v = true) values → fill (pieces raw) values ≠ strip_query reqPath
  end.
Proof using Hlaws.
  intros Hraw Hre Hc reqPath Hplain. unfold compileEndpoint in Hc.
  destruct (String.eqb_spec raw "") as [->|_]; [done|]. rewrite Hre in Hc.
  destruct (Compile (endpoint_regexp (pieces raw))) as [r|] eqn:Er; [|done]. cbn in Hc. injection Hc as <-.
  destruct (endpoint_compiled _ _ Er) as [Hnames Hnd Hmatch Hfound].
  unfold matchEndpoint. fold (strip_query reqPath). cbn [matchEndpointLoop re captures].
  destruct (FindStringSubmatch r (strip_query reqPath)) as [m|] eqn:Em.
  - destruct (Hmatch _ _ Hplain Em) as (values & -> & Hlen & Hp & Hseg).
    pose proof (scan_names "" None raw : Forall (λ n, n ≠ "") (placeholder_names (pieces raw))) as Hne.
    assert (Hcaps : (if bool_decide (placeholder_names (pieces raw) = []) then ∅
      else capture_values SubexpNames {| re := Some r; raw := raw; captures := placeholder_names (pieces raw) |} r
             (strip_query reqPath :: values)) = foldl insert_capture ∅ (zip (placeholder_names (pieces raw)) values)).
    { case_bool_decide as E; [by rewrite E|]. unfold capture_values. by rewrite Hnames. }
    rewrite Hcaps. pose proof (captures_lookup _ values ∅ Hnd Hne Hlen) as Hl. split_and!.
    + rewrite (expand_fill _ values); [done|exact Hl].
    + rewrite captures_dom by done. set_solver.
    + intros name v Hv. assert (Hin : name ∈ placeholder_names (pieces raw)).
      { apply elem_of_dom_2 in Hv. rewrite captures_dom in Hv by done. set_solver. }
      apply list_elem_of_lookup in Hin as [i Hi]. destruct (Forall2_lookup_l _ _ _ _ _ Hl Hi) as (v' & Hv' & Hn).
      rewrite Hv in Hn. injection Hn as ->. rewrite Forall_forall in Hseg. apply Hseg.
      by apply list_elem_of_lookup_2 with i.
  - intros values Hlen Hseg Hst Hf. destruct (Hfound values Hlen Hseg Hst) as [m Hm]. rewrite Hf in Hm. congruence.
Qed.

(** An endpoint without placeholders matches its own text only. *)
Lemma endpoint_literal raw ce path :
  plain raw = true ∨ ascii_only (strip_query path) = true → raw ≠ "" → has_prefix raw "re:" = false → Ascii.ascii_of_nat 123 ∉ bytes_of raw →
  compileEndpoint Compile raw = Some ce →
  is_Some (matchEndpoint FindStringSubmatch SubexpNames [ce] path) ↔ strip_query path = raw.
Proof using Hlaws.
  intros Hplain Hraw Hre Hlit Hc. unfold compileEndpoint in Hc.
  destruct (String.eqb_spec raw "") as [->|_]; [done|]. rewrite Hre in Hc.
  destruct (Compile (endpoint_regexp (pieces raw))) as [r|] eqn:Er; [|done]. cbn in Hc. injection Hc as <-.
  unfold plain in Hplain. destruct (endpoint_compiled _ _ Er) as [Hnames _ Hmatch Hfound].
  assert (Hp : pieces raw = [Literal raw]) by (unfold pieces; by rewrite scan_literal).
  rewrite Hp in *. unfold matchEndpoint. fold (strip_query path). cbn [matchEndpointLoop re captures placeholder_names flat_map app].
  rewrite bool_decide_true by done. split.
  - destruct (FindStringSubmatch r (strip_query path)) as [m|] eqn:Em; [|by intros []].
    intros _. destruct (Hmatch _ _ Hplain Em) as (values & _ & _ & -> & _). simpl. apply str_app_nil_r.
  - intros E. destruct (Hfound [] eq_refl (Forall_nil_2 _) (Forall_nil_2 _)) as [m Hm]. simpl in Hm.
    rewrite str_app_nil_r in Hm. rewrite E, Hm. by eexists.
Qed.
End Endpoints.

(** ** Header rules *)

Lemma forallb_map_to_list {A} (f : string * A → bool) (m : gmap string A) :
  forallb f (map_to_list m) = true ↔ ∀ k a, m !! k = Some a → f (k, a) = true.
Proof.
  rewrite forallb_forall. split.
  - intros Hf k a Hk. apply Hf. apply list_elem_of_In. by apply elem_of_map_to_list.
  - intros Hf [k a] Hin. apply Hf. apply elem_of_map_to_list. by apply list_elem_of_In.
Qed.

Lemma all_some_lookup {A} (m : gmap string (option A)) m' k :
  all_some m = Some m' → m' !! k = m !! k ≫= id ∧ (∀ o, m !! k = Some o → is_Some o).
Proof.
  unfold all_some. destruct (forallb _ _) eqn:E; [|done]. intros [= <-]. split; [by rewrite lookup_omap|].
  intros o Hk. rewrite forallb_map_to_list in E. specialize (E k o Hk). by apply bool_decide_eq_true in E.
Qed.

Section Declared.
Context {Regexp : Type}.
Context (FindStringSubmatch : Regexp → string → option (list string)).
Context (Compile : string → option Regexp).
Context (ParseMediaType : string → option (string * gmap string string)).

(** What the values of a scenario file mean. *)
Definition declared_value (value h : string) : Prop :=
  if has_prefix value "re:"
  then ∃ r, Compile (trim_prefix value "re:") = Some r ∧ MatchString FindStringSubmatch r h = true
  else h = value.

Definition content_type_accepts (h value : string) : Prop :=
  ∃ mt ps, ParseMediaType value = Some (mt, ps) ∧
    if contains_str value ";"
    then ∃ ps', ParseMediaType h = Some (mt, ps') ∧ contentTypeParametersMatch ps' ps = true
    else to_lower (trim_space (cut_byte h ";").1.1) = mt.

Definition declared_list (key : string) (values : list string) (h : string) : Prop :=
  if isContentTypeHeader key then Exists (λ v, content_type_accepts h (trim_space v)) values
  else Exists (λ v, contains_str (to_lower h) (to_lower v) = true) values.

Definition declared_headers (exact : gmap string string) (lists : gmap string (list string))
    (lookup : string → option string) : Prop :=
  (∀ key value, exact !! key = Some value → ∃ h, lookup key = Some h ∧ declared_value value h) ∧
  (∀ key values, lists !! key = Some values → ∃ h, lookup key = Some h ∧ declared_list key values h).

Lemma matchesContentType_iff m h :
  matchesContentType ParseMediaType m h = true ↔
  to_lower (trim_space (cut_byte h ";").1.1) ∈ mediaTypes m ∨
  ∃ e ps, e ∈ parameterized m ∧ ParseMediaType h = Some (mediaType e, ps) ∧
          contentTypeParametersMatch ps (parameters e) = true.
Proof using.
  clear FindStringSubmatch Compile Regexp.
  unfold matchesContentType. case_bool_decide as Em; [by split; [left|]|].
  case_bool_decide as Ep.
  { rewrite Ep. split; [done|]. intros [?|(e & ps & He & _)]; [done|]. by apply elem_of_nil in He. }
  destruct (ParseMediaType h) as [[mt ps]|]; [|naive_solver].
  rewrite existsb_exists. split.
  - intros (e & He & Hb). apply andb_true_iff in Hb as [Ht Hps]. apply bool_decide_eq_true in Ht as ->.
    right. exists e, ps. split_and!; [by apply list_elem_of_In|done|done].
  - intros [?|(e & ps' & He & [= -> ->] & Hps)]; [done|]. exists e. split; [by apply list_elem_of_In|].
    by rewrite bool_decide_true.
Qed.

Lemma content_types_compiled values m m' h :
  compileContentTypeValues ParseMediaType values m = Some m' →
  isContentType m' = isContentType m ∧
  (matchesContentType ParseMediaType m' h = true ↔
   matchesContentType ParseMediaType m h = true ∨ Exists (content_type_accepts h) values).
Proof using.
  clear FindStringSubmatch Compile Regexp.
  revert m. induction values as [|v values IH]; intros m; cbn [compileContentTypeValues].
  { intros [= <-]. split; [done|]. rewrite Exists_nil. tauto. }
  destruct (ParseMediaType v) as [[mt ps]|] eqn:Ev; cbn; [|done].
  destruct (cut_byte mt "/") as [[name sub] has]. destruct (_ || _); [done|]. intros Hc.
  destruct (IH _ Hc) as [Ht Hiff]. split.
  { rewrite Ht. by destruct (contains_str v ";"). }
  rewrite Hiff, Exists_cons. unfold content_type_accepts at 2. rewrite !matchesContentType_iff, Ev.
  destruct (contains_str v ";"); cbn [mediaTypes parameterized].
  - split.
    + intros [[?|(e & ps' & He & Hm & Hp)]|?]; [by left; left| |by right; right].
      apply elem_of_app in He as [He|He]; [left; right; by exists e, ps'|].
      apply list_elem_of_singleton in He as ->. right; left. exists mt, ps. split; [done|]. by exists ps'.
    + intros [[?|(e & ps' & He & Hm & Hp)]|[(mt' & ps' & [= <- <-] & ps2 & Hm & Hp)|?]];
        [by left; left| | |by right].
      * left; right. exists e, ps'. split; [|done]. apply elem_of_app. by left.
      * left; right. eexists _, ps2. split; [apply elem_of_app; right; by apply list_elem_of_singleton|done].
  - rewrite elem_of_union, elem_of_singleton. split.
    + intros [[[->|?]|?]|?]; [|by left; left|by left; right|by right; right].
      right; left. by exists mt, ps.
    + intros [[?|?]|[(mt' & ps' & [= <- <-] & ->)|?]];
        [left; left; by right|left; by right|left; left; by left|by right].
Qed.

Lemma list_compiled key values m h :
  (if isContentTypeHeader key then compileContentTypeListMatcher ParseMediaType values
   else Some {| mediaTypes := ∅; parameterized := []; contains := values; isContentType := false |}) = Some m →
  list_matches ParseMediaType m h = true ↔
  if isContentTypeHeader key then Exists (content_type_accepts h) values
  else Exists (λ v, contains_str (to_lower h) v = true) values.
Proof using.
  destruct (isContentTypeHeader key).
  - intros Hc. destruct (content_types_compiled _ _ _ h Hc) as [Ht Hiff]. unfold list_matches.
    rewrite Ht. cbn [isContentType negb]. rewrite Hiff, matchesContentType_iff. cbn [mediaTypes parameterized].
    split; [|by right]. intros [[?|(e & ps & He & _)]|?]; [set_solver|by apply elem_of_nil in He|done].
  - intros [= <-]. unfold list_matches, containsAnyLower. cbn [isContentType negb contains].
    rewrite existsb_exists, Exists_exists. by setoid_rewrite list_elem_of_In.
Qed.

Lemma headers_compiled exact lists lists' compiled regexes lookup :
  normalizeHeaderContainsRules exact lists = Some lists' →
  compileHeaderListMatchers ParseMediaType lists' = Some compiled →
  compileHeaderPatterns Compile exact ∅ = Some regexes →
  headerRulesMatch FindStringSubmatch ParseMediaType exact regexes compiled lookup = true ↔
  declared_headers exact lists lookup.
Proof using.
  unfold normalizeHeaderContainsRules. destruct (forallb _ _); [|done]. intros [= <-] Hl Hp.
  unfold compileHeaderPatterns in Hp.
  destruct (all_some (omap _ exact)) as [rs|] eqn:Ers; [|done]. injection Hp as <-. rewrite map_union_empty.
  unfold headerRulesMatch, declared_headers. rewrite andb_true_iff, !forallb_map_to_list. cbn [fst snd]. f_equiv.
  - split; intros Hf key value Hk; specialize (Hf key value Hk); revert Hf;
      destruct (all_some_lookup _ _ key Ers) as [Hrs Hsome]; rewrite lookup_omap, Hk in Hrs, Hsome;
      cbn in Hrs, Hsome; rewrite Hrs; unfold declared_value; destruct (lookup key) as [h|];
      destruct (has_prefix value "re:"); cbn [mbind option_bind id];
      try (destruct (Compile (trim_prefix value "re:")) as [r|]; [|by destruct (Hsome None eq_refl)]);
      rewrite ?bool_decide_eq_true; naive_solver.
  - unfold compileHeaderListMatchers in Hl. unfold declared_list.
    assert (Hc : ∀ key, compiled !! key = values ← lists !! key;
      (if isContentTypeHeader key
       then compileContentTypeListMatcher ParseMediaType (map (normalize_value key) values)
       else Some {| mediaTypes := ∅; parameterized := []; contains := map (normalize_value key) values;
                    isContentType := false |})).
    { intros key. destruct (all_some_lookup _ _ key Hl) as [-> _]. rewrite !map_lookup_imap.
      by destruct (lists !! key). }
    assert (Hs : ∀ key values, lists !! key = Some values → is_Some (compiled !! key)).
    { intros key values Hk. destruct (all_some_lookup _ _ key Hl) as [He Hsome]. rewrite He.
      rewrite !map_lookup_imap, Hk in Hsome |- *. cbn in Hsome |- *. by apply Hsome. }
    split.
    + intros Hf key values Hk. destruct (Hs key values Hk) as [m Hm]. specialize (Hf key m Hm).
      rewrite Hc, Hk in Hm. cbn in Hm. destruct (lookup key) as [h|]; [|done]. exists h. split; [done|].
      apply (list_compiled _ _ _ h Hm) in Hf. unfold normalize_value in Hf.
      by destruct (isContentTypeHeader key); rewrite Exists_map in Hf.
    + intros Hf key m Hm. rewrite Hc in Hm. destruct (lists !! key) as [values|] eqn:Hk; [|done]. cbn in Hm.
      destruct (Hf key values Hk) as (h & -> & Hd). apply (list_compiled _ _ _ h Hm). unfold normalize_value.
      by destruct (isContentTypeHeader key); rewrite Exists_map.
Qed.
End Declared.

(** ** What compilation establishes *)

Section Compiled.
Context {Regexp : Type}.
Context (FindStringSubmatch : Regexp → string → option (list string)).
Context (SubexpNames : Regexp → list string).
Context (Compile : string → option Regexp).
Context (ParseMediaType : string → option (string * gmap string string)).
Context {IPNet : Type} (ParseCIDR : string → option IPNet).
Context (FileExists : string → bool).

Notation Scenario' := (Scenario (Regexp := Regexp) (IPNet := IPNet) (Response := Responses)).
Notation validate := (validateAndCompile FindStringSubmatch Compile ParseMediaType ParseCIDR FileExists).

Lemma or_error_Ok {A} e (o : option A) a : or_error e o = Ok a → o = Some a.
Proof using. by destruct o; simpl; [intros [= ->]|]. Qed.

Lemma compileRules_inv rule old mr :
  compileRules Compile ParseMediaType rule old = Ok mr →
  ∃ lists httpLists,
    normalizeHeaderContainsRules (Headers rule) (HeaderContains rule) = Some lists ∧
    normalizeHeaderContainsRules (HTTPHeaders rule) (HTTPHeaderContains rule) = Some httpLists ∧
    mr.1 = with_lists lists httpLists rule ∧
    compileHeaderListMatchers ParseMediaType lists = Some (compiledHeaderLists mr.2) ∧
    compileHeaderListMatchers ParseMediaType httpLists = Some (compiledHTTPLists mr.2) ∧
    compileHeaderPatterns Compile (Headers rule) (compiledHeaders old) = Some (compiledHeaders mr.2) ∧
    compileHeaderPatterns Compile (HTTPHeaders rule) (compiledHTTPHeaders old) = Some (compiledHTTPHeaders mr.2) ∧
    compileURL Compile (HTTPURL rule) (compiledHTTPURL old) = Ok (compiledHTTPURL mr.2).
Proof using.
  unfold compileRules, compileLists, compilePatterns. intros Hc.
  repeat match goal with
  | H : result_bind _ _ = Ok _ |- _ => apply result_bind_ok in H; destruct H as (? & ? & ?)
  | H : or_error _ _ = Ok _ |- _ => apply or_error_Ok in H
  | H : Ok _ = Ok _ |- _ => injection H as <-
  end.
  cbn [fst snd] in *. eexists _, _. by split_and!.
Qed.

(** After compilation a header rule holds exactly when the scenario file
    says so: each scalar is matched by the pattern after ["re:"] or equal to the
    header, each list has an alternative that the header contains in any case,
    and a Content-Type alternative names the media type with its parameters. The
    same holds for the headers of the embedded message. *)
Theorem compiled_rules_declared rule old mr :
  compileRules Compile ParseMediaType rule old = Ok mr →
  compiledHeaders old = ∅ → compiledHTTPHeaders old = ∅ →
  ∀ lookup,
  (headerRulesMatch FindStringSubmatch ParseMediaType (Headers mr.1) (compiledHeaders mr.2)
     (compiledHeaderLists mr.2) lookup = true ↔
   declared_headers FindStringSubmatch Compile ParseMediaType (Headers rule) (HeaderContains rule) lookup) ∧
  (headerRulesMatch FindStringSubmatch ParseMediaType (HTTPHeaders mr.1) (compiledHTTPHeaders mr.2)
     (compiledHTTPLists mr.2) lookup = true ↔
   declared_headers FindStringSubmatch Compile ParseMediaType (HTTPHeaders rule) (HTTPHeaderContains rule) lookup).
Proof using.
  intros Hc H1 H2 lookup.
  destruct (compileRules_inv _ _ _ Hc) as (l1 & l2 & Hn1 & Hn2 & -> & Hl1 & Hl2 & Hp1 & Hp2 & _).
  rewrite H1 in Hp1. rewrite H2 in Hp2. split; cbn [with_lists Headers HTTPHeaders]; by eapply headers_compiled.
Qed.

Lemma validateAndCompile_inv (s s' : Scenario') :
  validate s = Ok s' →
  Name s ≠ "" ∧ compileRoutes FindStringSubmatch Compile (Routes (Match_ s)) = Ok (compiledRoutes s') ∧
  compilePaths Compile (Match_ s) (compiledPaths s) = Ok (compiledPaths s') ∧
  compileBodyPattern Compile (Match_ s) (compiledBody s) = Ok (compiledBody s') ∧
  compileRules Compile ParseMediaType (Match_ s) (rules s) = Ok (Match_ s', rules s') ∧
  compileCIDRs ParseCIDR (Match_ s) (compiledCIDRs s) = Ok (compiledCIDRs s').
Proof using.
  unfold validateAndCompile. intros Hc. destruct (String.eqb_spec (Name s) "") as [|Hn]; [discriminate Hc|].
  cbn [negb] in Hc.
  repeat match type of Hc with
  | result_bind ?m _ = Ok _ =>
      let E := fresh "E" in let a := fresh "a" in
      destruct m as [a|] eqn:E; [cbn [result_bind] in Hc|discriminate Hc]
  end.
  injection Hc as <-. cbn. split_and!; try done. by rewrite <- surjective_pairing.
Qed.

(** A scenario that is compiled again after its rules changed keeps what
    was compiled for a rule that is gone: the body pattern, the endpoints, the
    client networks, the URL pattern, and the pattern of a header whose value is now plain
    text. Only the exact routes are forgotten. *)
Theorem revalidation_keeps_rules (s s' : Scenario') :
  validateAndCompile FindStringSubmatch Compile ParseMediaType ParseCIDR FileExists s = Ok s' →
  (BodyPattern (Match_ s) = "" → compiledBody s' = compiledBody s) ∧
  (Paths (Match_ s) = [] → Path (Match_ s) = "" → compiledPaths s' = compiledPaths s) ∧
  (CIDRRanges (Match_ s) = [] → compiledCIDRs s' = compiledCIDRs s) ∧
  (has_prefix (HTTPURL (Match_ s)) "re:" = false →
   compiledHTTPURL (rules s') = compiledHTTPURL (rules s)) ∧
  (∀ key value r, Headers (Match_ s) !! key = Some value → has_prefix value "re:" = false →
     compiledHeaders (rules s) !! key = Some r → compiledHeaders (rules s') !! key = Some r) ∧
  (Routes (Match_ s) = ∅ → compiledRoutes s' = None).
Proof using.
  intros Hc. destruct (validateAndCompile_inv _ _ Hc) as (_ & Hr & Hp & Hb & Hrules & Hcidr).
  destruct (compileRules_inv _ _ _ Hrules) as (l1 & l2 & _ & _ & _ & _ & _ & Hh & _ & Hu). cbn [snd] in *.
  split_and!.
  - intros E. unfold compileBodyPattern in Hb. rewrite E in Hb. by injection Hb.
  - intros E1 E2. unfold compilePaths in Hp. rewrite E1, E2 in Hp. by injection Hp.
  - intros E. unfold compileCIDRs in Hcidr. rewrite E in Hcidr. by injection Hcidr.
  - intros E. unfold compileURL in Hu. rewrite E in Hu. by injection Hu.
  - intros key value r Hk Hre Hold. unfold compileHeaderPatterns in Hh.
    destruct (all_some _) as [new|] eqn:En; [|done]. injection Hh as <-.
    destruct (all_some_lookup _ _ key En) as [Hnew _]. rewrite lookup_omap, Hk in Hnew. cbn in Hnew.
    rewrite Hre in Hnew. by rewrite lookup_union_r.
  - intros E. unfold compileRoutes in Hr. rewrite E in Hr. by injection Hr.
Qed.

(** *** Exact routes *)

Lemma compileRouteEndpoints_inv method eps ces :
  compileRouteEndpoints FindStringSubmatch Compile method eps = Ok ces →
  Forall2 (λ e c, compileEndpoint Compile e = Some c ∧
                  validateReservedExactRoute FindStringSubmatch method e c = true) eps ces.
Proof using.
  revert ces. induction eps as [|e eps IH]; intros ces; cbn [compileRouteEndpoints]; [by intros [= <-]|].
  destruct (compileEndpoint Compile e) as [c|] eqn:Ece; [|done].
  destruct (validateReservedExactRoute _ _ _ _) eqn:Ev; [|done].
  destruct (compileRouteEndpoints _ _ _ eps) as [l|]; [|done]. intros [= <-]. constructor; [done|by apply IH].
Qed.

Lemma compileRouteMethods_inv routes methods compiled :
  compileRouteMethods FindStringSubmatch Compile routes methods = Ok compiled →
  (∀ m, m ∈ methods → ∃ ces, compiled !! m = Some ces ∧
     compileRouteEndpoints FindStringSubmatch Compile m (default [] (routes !! m)) = Ok ces) ∧
  (∀ m ces, compiled !! m = Some ces → m ∈ methods).
Proof using.
  clear ParseMediaType ParseCIDR FileExists. revert compiled. induction methods as [|m methods IH]; intros compiled; cbn [compileRouteMethods].
  { intros [= <-]. split; [intros m Hm; by apply elem_of_nil in Hm|done]. }
  destruct (compileRouteEndpoints _ _ m _) as [l|] eqn:El; [|done]. cbn [result_bind].
  destruct (compileRouteMethods _ _ _ methods) as [rest|]; [|done]. intros [= <-].
  destruct (IH rest eq_refl) as [IH1 IH2]. split.
  - intros m' Hm'. destruct (decide (m = m')) as [<-|Hne].
    + exists l. by rewrite lookup_insert_eq.
    + rewrite lookup_insert_ne by done. apply IH1. set_solver.
  - intros m' ces. destruct (decide (m = m')) as [<-|Hne]; [set_solver|].
    rewrite lookup_insert_ne by done. intros Hc. apply elem_of_cons. right. by eapply IH2.
Qed.

Lemma orderedRouteMethods_elem routes m :
  m ∈ orderedRouteMethods routes ↔ (m = MethodREQMOD ∨ m = MethodRESPMOD) ∧ is_Some (routes !! m).
Proof using.
  clear FindStringSubmatch SubexpNames Compile ParseMediaType ParseCIDR FileExists. unfold orderedRouteMethods, exactRouteMethodOrder. rewrite list_elem_of_In, filter_In, <- list_elem_of_In.
  rewrite bool_decide_eq_true. set_solver.
Qed.

(** The compiled routes are the declared ones, endpoint by endpoint. *)
Lemma compileRoutes_inv routes compiled :
  compileRoutes FindStringSubmatch Compile routes = Ok compiled →
  match compiled with
  | None => routes = ∅
  | Some cs => ∀ m, match routes !! m, cs !! m with
      | Some eps, Some ces => (m = MethodREQMOD ∨ m = MethodRESPMOD) ∧ eps ≠ [] ∧
          Forall2 (λ e c, compileEndpoint Compile e = Some c ∧
                          validateReservedExactRoute FindStringSubmatch m e c = true) eps ces
      | None, None => True
      | _, _ => False
      end
  end.
Proof using.
  unfold compileRoutes. case_bool_decide as E; [by intros [= <-]|].
  destruct (validateRouteMap routes) eqn:Ev; [|done].
  destruct (compileRouteMethods _ _ _ _) as [cs|] eqn:Ec; [|done]. intros [= <-] m.
  destruct (compileRouteMethods_inv _ _ _ Ec) as [H1 H2].
  unfold validateRouteMap in Ev. apply andb_true_iff in Ev as [_ Ev]. rewrite forallb_map_to_list in Ev.
  destruct (routes !! m) as [eps|] eqn:Em.
  - specialize (Ev m eps Em). cbn [fst snd] in Ev. apply andb_true_iff in Ev as [Hm Hv].
    apply orb_true_iff in Hm. rewrite !String.eqb_eq in Hm.
    destruct (H1 m) as (ces & -> & Hces); [apply orderedRouteMethods_elem; by rewrite Em|].
    rewrite Em in Hces. cbn in Hces. split_and!; [done| |by apply compileRouteEndpoints_inv].
    intros ->. by unfold endpoints_valid in Hv.
  - destruct (cs !! m) as [ces|] eqn:Ecs; [|done]. specialize (H2 m ces Ecs).
    apply orderedRouteMethods_elem in H2. rewrite Em in H2. by destruct H2 as [_ []].
Qed.

Context {Hlaws : RegexpLaws FindStringSubmatch SubexpNames Compile}.

(** C30: an exact route never takes a reserved service path from its service:
    whatever route of an accepted scenario answers [/reqmod], [/respmod] or
    [/options] is that very path bound to the path's own method, and none
    answers [/options]. *)
Theorem reserved_paths_protected (s s' : Scenario') method endpoints i raw ce path reserved :
  validate s = Ok s' →
  Routes (Match_ s) !! method = Some endpoints → endpoints !! i = Some raw →
  (routes ← compiledRoutes s'; routes !! method) ≫= (.!! i) = Some ce →
  (path, reserved) ∈ reservedICAPServicePaths →
  is_Some (matchEndpoint FindStringSubmatch SubexpNames [ce] path) →
  raw = path ∧ method = reserved ∧ method ≠ MethodOPTIONS.
Proof using Hlaws.
  intros Hc Hm Hi Hce Hres Hmatch.
  destruct (validateAndCompile_inv _ _ Hc) as (_ & Hr & _). apply compileRoutes_inv in Hr.
  destruct (compiledRoutes s') as [cs|]; [|done]. cbn in Hce. specialize (Hr method). rewrite Hm in Hr.
  destruct (cs !! method) as [ces|]; [|done]. destruct Hr as (_ & _ & Hf). cbn in Hce.
  destruct (Forall2_lookup_lr _ _ _ _ _ _ Hf Hi Hce) as [Hcomp Hv].
  unfold validateReservedExactRoute in Hv. rewrite forallb_forall in Hv.
  specialize (Hv (path, reserved) (proj1 (list_elem_of_In _ _) Hres)). cbn [fst snd] in Hv.
  assert (Hstrip : strip_query path = path ∧ ascii_only path = true).
  { unfold reservedICAPServicePaths in Hres. by repeat (apply elem_of_cons in Hres as [[= -> ->]|Hres]; [done|]);
      apply elem_of_nil in Hres. }
  destruct Hstrip as [Hstrip Hascii].
  destruct (has_prefix raw "re:" || contains_str raw "{") eqn:Ep.
  - exfalso. unfold matchEndpoint in Hmatch. fold (strip_query path) in Hmatch. rewrite Hstrip in Hmatch.
    cbn [matchEndpointLoop] in Hmatch. destruct (re ce) as [r|]; [|by destruct Hmatch].
    unfold MatchString in Hv. destruct (FindStringSubmatch r path); [|by destruct Hmatch].
    by rewrite bool_decide_true in Hv.
  - apply orb_false_iff in Ep as [Hre Hlit].
    assert (Hraw : raw ≠ "").
    { intros ->. cbn in Hcomp. injection Hcomp as <-. cbn in Hmatch. by destruct Hmatch. }
    assert (Hb : Ascii.ascii_of_nat 123 ∉ bytes_of raw).
    { rewrite contains_str_byte in Hlit. by apply bool_decide_eq_false in Hlit. }
    apply (endpoint_literal FindStringSubmatch SubexpNames Compile raw) in Hmatch; try done; [|right; by rewrite Hstrip].
    rewrite Hstrip in Hmatch. subst path. rewrite String.eqb_refl in Hv. cbn [negb] in Hv.
    apply negb_true_iff, orb_false_iff in Hv as [Ho Hmeth]. apply negb_false_iff, String.eqb_eq in Hmeth as ->.
    apply String.eqb_neq in Ho. done.
Qed.
End Compiled.

(** ** Instances *)

Module Demo.
Definition rule (routes : gmap string (list string)) (headers : gmap string string) (url : string) : MatchRule :=
  {| Routes := routes; Path := ""; Paths := []; Methods := []; mr_HTTPMethod := ""; HTTPURL := url;
     Headers := headers; HeaderContains := {[ "X-Kind" := ["Virus"] ]}; HTTPHeaders := ∅;
     HTTPHeaderContains := ∅; BodyPattern := ""; ClientIP := ""; CIDRRanges := [] |}.
Definition fresh_rules : CompiledRules (Regexp := list Atom) :=
  {| compiledHeaders := ∅; compiledHeaderLists := ∅; compiledHTTPHeaders := ∅; compiledHTTPLists := ∅;
     compiledHTTPURL := None |}.
Definition no_content : ResponseTemplate :=
  {| rt_Headers := ∅; rt_HTTPHeaders := ∅; rt_DelayRange := None; rt_Stream := None; rt_Block := None;
     rt_ResponseName := ""; rt_Use := ""; rt_Body := ""; rt_BodyFile := ""; rt_HTTPBody := "";
     rt_HTTPBodyFile := ""; rt_Error := ""; rt_Status := 0; rt_ICAPStatus := 0; rt_HTTPStatus := 0; rt_Delay := 0 |}.
Definition scenario (r : MatchRule) (old : CompiledRules) (body : option (list Atom)) :
    Scenario (Regexp := list Atom) (IPNet := string) (Response := Responses) :=
  {| Name := "s"; Match_ := r; rules := old; compiledBody := body; compiledRoutes := None; compiledPaths := [];
     compiledCIDRs := []; Branches := []; s_Response := {| Response := no_content; WeightedResponses := None |};
     Priority := 0; order := 0 |}.
End Demo.

Definition demo_endpoint : compiledEndpoint :=
  {| re := Some (rx_of (pieces "/scan.v1/{id}/x")); raw := "/scan.v1/{id}/x"; captures := ["id"] |}.

Lemma endpoint_captures_witness :
  matchEndpoint Engine.find Engine.names [demo_endpoint] "/scan.v1/42/x?q=1" = Some {[ "id" := "42" ]} ∧
  expand {[ "id" := "42" ]} (pieces "/scan.v1/{id}/x") = "/scan.v1/42/x" ∧
  matchEndpoint Engine.find Engine.names [demo_endpoint] "/scan.v1/4/2/x" = None ∧
  fill (pieces "/scan.v1/{id}/x") ["4"] ≠ "/scan.v1/4/2/x" ∧
  matchEndpoint Engine.find Engine.names [demo_endpoint] "/scan-v1/42/x" = None.
Proof.
  assert (H1 : matchEndpoint Engine.find Engine.names [demo_endpoint] "/scan.v1/42/x?q=1" = Some {[ "id" := "42" ]})
    by (vm_compute; reflexivity).
  assert (H2 : matchEndpoint Engine.find Engine.names [demo_endpoint] "/scan.v1/4/2/x" = None)
    by (vm_compute; reflexivity).
  assert (Hc : compileEndpoint Engine.Compile "/scan.v1/{id}/x" = Some demo_endpoint) by (vm_compute; reflexivity).
  assert (Hre : has_prefix "/scan.v1/{id}/x" "re:" = false) by reflexivity.
  assert (Hpl : plain "/scan.v1/{id}/x" = true) by (vm_compute; reflexivity).
  assert (Hne : "/scan.v1/{id}/x" ≠ "") by discriminate.
  pose proof (endpoint_captures Engine.find Engine.names Engine.Compile "/scan.v1/{id}/x" demo_endpoint Hne Hre Hc) as Hall.
  pose proof (Hall "/scan.v1/42/x?q=1" (or_introl Hpl)) as Ha. rewrite H1 in Ha.
  pose proof (Hall "/scan.v1/4/2/x" (or_introl Hpl)) as Hb. rewrite H2 in Hb.
  split; [exact H1|]. split; [exact (proj1 Ha)|]. split; [exact H2|]. split; [|vm_compute; reflexivity].
  apply (Hb ["4"]); [reflexivity| |].
  - apply Forall_singleton. split; [discriminate|]. apply (bool_decide_unpack _). vm_compute. exact I.
  - apply Forall_singleton. reflexivity.
Defined.

Lemma compiled_rules_declared_witness :
  ∃ mr, compileRules Engine.Compile (λ _, None)
          (Demo.rule ∅ {[ "X-Id" := "re:^a$" ]} "") Demo.fresh_rules = Ok mr ∧
    (headerRulesMatch Engine.find (λ _, None) (Headers mr.1) (compiledHeaders mr.2) (compiledHeaderLists mr.2)
       (λ key, if String.eqb key "X-Id" then Some "a" else Some "a virus") = true ↔
     declared_headers Engine.find Engine.Compile (λ _, None) {[ "X-Id" := "re:^a$" ]}
       {[ "X-Kind" := ["Virus"] ]} (λ key, if String.eqb key "X-Id" then Some "a" else Some "a virus")).
Proof.
  destruct (compileRules Engine.Compile (λ _, None)
    (Demo.rule ∅ {[ "X-Id" := "re:^a$" ]} "") Demo.fresh_rules) as [mr|] eqn:E;
    [|vm_compute in E; discriminate E].
  exists mr. split; [reflexivity|].
  exact (proj1 (compiled_rules_declared Engine.find Engine.Compile (λ _, None)
    (Demo.rule ∅ {[ "X-Id" := "re:^a$" ]} "") Demo.fresh_rules mr E eq_refl eq_refl _)).
Defined.

Lemma revalidation_keeps_rules_witness :
  ∃ s', validateAndCompile Engine.find Engine.Compile (λ _, None) Some (λ _, true)
          (Demo.scenario (Demo.rule ∅ ∅ "") Demo.fresh_rules (Some (map Char (bytes_of "EICAR")))) = Ok s' ∧
        compiledBody s' = Some (map Char (bytes_of "EICAR")).
Proof.
  destruct (validateAndCompile Engine.find Engine.Compile (λ _, None) Some (λ _, true)
    (Demo.scenario (Demo.rule ∅ ∅ "") Demo.fresh_rules (Some (map Char (bytes_of "EICAR"))))) as [s'|] eqn:E;
    [|vm_compute in E; discriminate E].
  exists s'. split; [reflexivity|].
  exact (proj1 (revalidation_keeps_rules Engine.find Engine.Compile (λ _, None) Some (λ _, true)
    (Demo.scenario (Demo.rule ∅ ∅ "") Demo.fresh_rules (Some (map Char (bytes_of "EICAR")))) s' E) eq_refl).
Defined.

Lemma reserved_paths_protected_witness :
  ∃ s', validateAndCompile Engine.find Engine.Compile (λ _, None) Some (λ _, true)
          (Demo.scenario (Demo.rule {[ MethodREQMOD := ["/reqmod"] ]} ∅ "") Demo.fresh_rules None) = Ok s' ∧
        ("/reqmod" = "/reqmod" ∧ MethodREQMOD = MethodREQMOD ∧ MethodREQMOD ≠ MethodOPTIONS).
Proof.
  destruct (validateAndCompile Engine.find Engine.Compile (λ _, None) Some (λ _, true)
    (Demo.scenario (Demo.rule {[ MethodREQMOD := ["/reqmod"] ]} ∅ "") Demo.fresh_rules None)) as [s'|] eqn:E;
    [|vm_compute in E; discriminate E].
  exists s'. split; [reflexivity|].
  assert (Hc : (routes ← compiledRoutes s'; routes !! MethodREQMOD) ≫= (.!! 0%nat) =
               Some {| re := Some (rx_of (pieces "/reqmod")); raw := "/reqmod"; captures := [] |}).
  { vm_compute in E. injection E as <-. vm_compute. reflexivity. }
  refine (reserved_paths_protected Engine.find Engine.names Engine.Compile (λ _, None) Some (λ _, true)
    _ s' MethodREQMOD ["/reqmod"] 0 "/reqmod" _ "/reqmod" MethodREQMOD E _ _ Hc _ _).
  - reflexivity.
  - reflexivity.
  - left.
  - vm_compute. eexists. reflexivity.
Defined.
