(* ===== verification/ScenarioV2.v ===== *)
(** * Scenario files: [internal/storage/scenario_v2.go]

    A scenario file names its scenarios, gives defaults and named response templates;
    [ConvertV2ToScenarios] turns it into the scenarios of [Scenario] and the responses
    of [Responses]. Decoding the text is the YAML library's and not here; the shapes that
    the package decodes itself are in [ScenarioYaml]. Where the code goes over a map, the
    model goes over it in some fixed order, which decides only which of several errors
    is reported. *)
From S2P Require Import Prelude GoInt GoTime GoStrings Header Weight StreamPlan StreamSelect StreamSources Scenario Responses Compile.

Local Open Scope Z_scope.
Local Open Scope go_scope.

(** ** Data *)

Record HeaderMatchValueV2 := { hm_Scalar : string; hm_Contains : list string; hm_IsList : bool }.
Notation HeaderMatchesV2 := (gmap string HeaderMatchValueV2).

Record WhenHTTPV2 := { wh_Headers : HeaderMatchesV2; wh_URL : string; wh_Method : string }.

(** The fields of a response, which scenarios, branches, variants and templates share. *)
Record InlineResponseV2 := {
  in_Set : gmap string string; in_HTTPSet : gmap string string; in_Stream : option Stream; in_Block : option bool;
  in_Use : string; in_Body : string; in_BodyFile : string; in_HTTPBody : string; in_HTTPBodyFile : string;
  in_Error : string; in_Delay : string; in_Status : Z; in_HTTPStatus : Z
}.

Definition emptyInline : InlineResponseV2 :=
  {| in_Set := ∅; in_HTTPSet := ∅; in_Stream := None; in_Block := None; in_Use := ""; in_Body := ""; in_BodyFile := ""; in_HTTPBody := "";
     in_HTTPBodyFile := ""; in_Error := ""; in_Delay := ""; in_Status := 0; in_HTTPStatus := 0 |}.

(** A variant has no [body_file]. *)
Record WeightedResponseV2 := { wv_response : InlineResponseV2; wv_Weight : Z }.

Definition variant_inline (w : WeightedResponseV2) : InlineResponseV2 :=
  let i := wv_response w in
  {| in_Set := in_Set i; in_HTTPSet := in_HTTPSet i; in_Stream := in_Stream i; in_Block := in_Block i; in_Use := in_Use i; in_Body := in_Body i;
     in_BodyFile := ""; in_HTTPBody := in_HTTPBody i; in_HTTPBodyFile := in_HTTPBodyFile i; in_Error := in_Error i; in_Delay := in_Delay i;
     in_Status := in_Status i; in_HTTPStatus := in_HTTPStatus i |}.

(** For a list, [None] is the nil slice: the field is not there. *)
Record ResponseTemplateV2 := { t_Inline : option InlineResponseV2; t_Weighted : option (list WeightedResponseV2) }.

Record BranchV2 := {
  br_When : HeaderMatchesV2; br_WhenHTTP : option WhenHTTPV2; br_response : InlineResponseV2; br_Responses : option (list WeightedResponseV2)
}.

Notation RouteMap := (gmap string (list string)).

Record ScenarioEntryV2 := {
  e_When : HeaderMatchesV2; e_WhenHTTP : option WhenHTTPV2; e_response : InlineResponseV2; e_Responses : option (list WeightedResponseV2);
  e_Routes : option RouteMap; e_Method : list string; e_Endpoint : list string; e_routesSet : bool; e_methodSet : bool; e_endpointSet : bool;
  e_Branches : list BranchV2; e_Priority : Z
}.

Record ScenarioDefaultsV2 := {
  d_Headers : gmap string string; d_ResponseTemplates : gmap string ResponseTemplateV2; d_Use : string;
  d_Routes : option RouteMap; d_Method : list string; d_Endpoint : list string; d_routesSet : bool; d_methodSet : bool; d_endpointSet : bool;
  d_Status : Z; d_HTTPStatus : Z
}.

Record ScenarioFileV2 := { f_Scenarios : gmap string ScenarioEntryV2; f_Defaults : ScenarioDefaultsV2 }.

Inductive ConvertError :=
| NilFile | DefaultsRoutesCombined | RoutesCombined | RouteMapInvalid | MethodNotSet | MethodInvalid | EndpointNotSet | MethodNotInDefaults
| DefaultsUseUndefined | BranchesCombined | TemplateUndefined | TemplateUsesTemplate | WeightedOverlay | ResponsesWithUse | NestedWeighted
| WeightError (e : Variants.WeightError) | DelayInvalid (e : DelayError).

(** ** Conditions *)

(** [splitHeaderMatches] *)
Definition splitScalar (matches : HeaderMatchesV2) : gmap string string :=
  omap (λ m, if hm_IsList m then None else Some (hm_Scalar m)) matches.
Definition splitContains (matches : HeaderMatchesV2) : gmap string (list string) :=
  omap (λ m, if hm_IsList m then Some (hm_Contains m) else None) matches.

Definition whenRule (routes : RouteMap) (methods paths : list string) (w : HeaderMatchesV2) (http : option WhenHTTPV2) : MatchRule :=
  {| Routes := routes; Path := ""; Paths := paths; Methods := methods; mr_HTTPMethod := from_option wh_Method "" http; HTTPURL := from_option wh_URL "" http;
     Headers := splitScalar w; HeaderContains := splitContains w;
     HTTPHeaders := from_option (splitScalar ∘ wh_Headers) ∅ http; HTTPHeaderContains := from_option (splitContains ∘ wh_Headers) ∅ http;
     BodyPattern := ""; ClientIP := ""; CIDRRanges := [] |}.

(** ** Routing *)

Record resolvedScenarioRouting := { rs_routes : option RouteMap; rs_methods : list string; rs_endpoints : list string }.

Definition hasRoutes (isSet : bool) (routes : option RouteMap) : bool := isSet || bool_decide (is_Some routes).
Definition combined (methodSet endpointSet : bool) (method endpoint : list string) : bool :=
  methodSet || endpointSet || negb (bool_decide (method = [])) || negb (bool_decide (endpoint = [])).

Definition validICAPMethod (m : string) : bool := String.eqb m MethodREQMOD || String.eqb m MethodRESPMOD || String.eqb m MethodOPTIONS.

Definition validateLegacyRouting (methods endpoints : list string) : result ConvertError resolvedScenarioRouting :=
  if bool_decide (methods = []) then Err MethodNotSet
  else if negb (forallb validICAPMethod methods) then Err MethodInvalid
  else if bool_decide (endpoints = []) then Err EndpointNotSet
  else Ok {| rs_routes := None; rs_methods := methods; rs_endpoints := endpoints |}.

(** Each endpoint once, where it is first seen. *)
Fixpoint uniqueEndpoints (seen : list string) (endpoints : list string) : list string :=
  match endpoints with
  | [] => []
  | e :: endpoints => if bool_decide (e ∈ seen) then uniqueEndpoints seen endpoints else e :: uniqueEndpoints (e :: seen) endpoints
  end.

Definition routingFromRouteMap (routes : RouteMap) : resolvedScenarioRouting :=
  let methods := orderedRouteMethods routes in
  {| rs_routes := Some routes; rs_methods := methods; rs_endpoints := uniqueEndpoints [] (flat_map (λ m, default [] (routes !! m)) methods) |}.

Definition validRouting (routes : RouteMap) : result ConvertError resolvedScenarioRouting :=
  if validateRouteMap routes then Ok (routingFromRouteMap routes) else Err RouteMapInvalid.

Fixpoint selectMethods (defaults : RouteMap) (methods : list string) (selected : RouteMap) : option RouteMap :=
  match methods with
  | [] => Some selected
  | m :: methods => endpoints ← defaults !! m; selectMethods defaults methods (<[m := endpoints]> selected)
  end.

Definition selectDefaultRouteMethods (defaults : RouteMap) (methods : list string) : result ConvertError resolvedScenarioRouting :=
  match selectMethods defaults methods ∅ with
  | None => Err MethodNotInDefaults
  | Some selected => validRouting selected
  end.

Definition replaceDefaultRouteEndpoints (defaults : RouteMap) (endpoints : list string) : result ConvertError resolvedScenarioRouting :=
  validRouting (foldl (λ replaced m, <[m := endpoints]> replaced) ∅ (orderedRouteMethods defaults)).

Definition resolveFromDefaultRoutes (defaults : RouteMap) (entry : ScenarioEntryV2) : result ConvertError resolvedScenarioRouting :=
  match e_Method entry, e_Endpoint entry with
  | [], [] => Ok (routingFromRouteMap defaults)
  | _ :: _, _ :: _ => validateLegacyRouting (e_Method entry) (e_Endpoint entry)
  | _ :: _, [] => selectDefaultRouteMethods defaults (e_Method entry)
  | [], _ :: _ => replaceDefaultRouteEndpoints defaults (e_Endpoint entry)
  end.

Definition validateDefaultRoutes (d : ScenarioDefaultsV2) : result ConvertError unit :=
  let has := hasRoutes (d_routesSet d) (d_Routes d) in
  if has && combined (d_methodSet d) (d_endpointSet d) (d_Method d) (d_Endpoint d) then Err DefaultsRoutesCombined
  else if has && negb (validateRouteMap (default ∅ (d_Routes d))) then Err RouteMapInvalid
  else Ok tt.

Definition validateRoutingDeclarations (d : ScenarioDefaultsV2) (entry : ScenarioEntryV2) : result ConvertError unit :=
  let dHas := hasRoutes (d_routesSet d) (d_Routes d) in
  let eHas := hasRoutes (e_routesSet entry) (e_Routes entry) in
  if dHas && combined (d_methodSet d) (d_endpointSet d) (d_Method d) (d_Endpoint d) then Err DefaultsRoutesCombined
  else if eHas && combined (e_methodSet entry) (e_endpointSet entry) (e_Method entry) (e_Endpoint entry) then Err RoutesCombined
  else if dHas && negb (validateRouteMap (default ∅ (d_Routes d))) then Err RouteMapInvalid
  else if eHas && negb (validateRouteMap (default ∅ (e_Routes entry))) then Err RouteMapInvalid
  else Ok tt.

Definition resolveScenarioRouting (d : ScenarioDefaultsV2) (entry : ScenarioEntryV2) : result ConvertError resolvedScenarioRouting :=
  let! _ := validateRoutingDeclarations d entry in
  if hasRoutes (e_routesSet entry) (e_Routes entry) then Ok (routingFromRouteMap (default ∅ (e_Routes entry)))
  else if hasRoutes (d_routesSet d) (d_Routes d) then resolveFromDefaultRoutes (default ∅ (d_Routes d)) entry
  else
    validateLegacyRouting (if bool_decide (e_Method entry = []) then d_Method d else e_Method entry)
                          (if bool_decide (e_Endpoint entry = []) then d_Endpoint d else e_Endpoint entry).

(** ** Responses *)

Definition mergeInline (base over : InlineResponseV2) : InlineResponseV2 :=
  {| in_Set := mergeHeaders (in_Set base) (in_Set over); in_HTTPSet := mergeHeaders (in_HTTPSet base) (in_HTTPSet over);
     in_Stream := or_else_opt (in_Stream over) (in_Stream base); in_Block := or_else_opt (in_Block over) (in_Block base);
     in_Use := in_Use base; in_Body := or_else (in_Body over) (in_Body base); in_BodyFile := or_else (in_BodyFile over) (in_BodyFile base);
     in_HTTPBody := or_else (in_HTTPBody over) (in_HTTPBody base); in_HTTPBodyFile := or_else (in_HTTPBodyFile over) (in_HTTPBodyFile base);
     in_Error := or_else (in_Error over) (in_Error base); in_Delay := or_else (in_Delay over) (in_Delay base);
     in_Status := or_else_num (in_Status over) (in_Status base); in_HTTPStatus := or_else_num (in_HTTPStatus over) (in_HTTPStatus base) |}.

Definition isEmptyInlineExceptUse (i : InlineResponseV2) : bool :=
  (in_Status i =? 0) && (in_HTTPStatus i =? 0) && String.eqb (in_Body i) "" && String.eqb (in_BodyFile i) "" && String.eqb (in_HTTPBody i) ""
  && String.eqb (in_HTTPBodyFile i) "" && String.eqb (in_Error i) "" && String.eqb (in_Delay i) "" && negb (bool_decide (is_Some (in_Block i)))
  && negb (bool_decide (is_Some (in_Stream i))) && bool_decide (in_Set i = ∅) && bool_decide (in_HTTPSet i = ∅).

Definition isEmptyInline (i : InlineResponseV2) : bool := String.eqb (in_Use i) "" && isEmptyInlineExceptUse i.

Definition inlineToTemplate (inline : InlineResponseV2) (defHeaders : gmap string string) (defStatus defHTTPStatus : Z) (name : string)
  : result ConvertError ResponseTemplate :=
  let mk delay range :=
    {| rt_Headers := mergeHeaders defHeaders (in_Set inline); rt_HTTPHeaders := in_HTTPSet inline; rt_DelayRange := range; rt_Stream := in_Stream inline;
       rt_Block := in_Block inline; rt_ResponseName := name; rt_Use := ""; rt_Body := in_Body inline; rt_BodyFile := in_BodyFile inline;
       rt_HTTPBody := in_HTTPBody inline; rt_HTTPBodyFile := in_HTTPBodyFile inline; rt_Error := in_Error inline; rt_Status := 0;
       rt_ICAPStatus := or_else_num (or_else_num (in_Status inline) defStatus) 204; rt_HTTPStatus := or_else_num (in_HTTPStatus inline) defHTTPStatus;
       rt_Delay := delay |} in
  if String.eqb (in_Delay inline) "" then Ok (mk 0 None)
  else match ParseDelay (in_Delay inline) with Err e => Err (DelayInvalid e) | Ok dc => Ok (mk (delay_Min dc) (Some dc)) end.

(** [ResponseTemplate{ICAPStatus: 204}] *)
Definition template204 : ResponseTemplate :=
  {| rt_Headers := ∅; rt_HTTPHeaders := ∅; rt_DelayRange := None; rt_Stream := None; rt_Block := None; rt_ResponseName := ""; rt_Use := ""; rt_Body := "";
     rt_BodyFile := ""; rt_HTTPBody := ""; rt_HTTPBodyFile := ""; rt_Error := ""; rt_Status := 0; rt_ICAPStatus := 204; rt_HTTPStatus := 0; rt_Delay := 0 |}.

Definition noDelay : DelayConfig := {| delay_Min := 0; delay_Max := 0; IsRange := false |}.

Definition validateV2WeightTotal (variants : list WeightedResponseV2) : result ConvertError unit :=
  if bool_decide (variants = []) then Err (WeightError Variants.NoVariants)
  else
    let weighted := Variants.weightedCount wv_Weight variants in
    if bool_decide (weighted = 0%nat) then Ok tt
    else if negb (bool_decide (weighted = length variants)) then Err (WeightError Variants.MixedWeights)
    else match Variants.firstOutOfRange wv_Weight 1 variants with
         | Some i => Err (WeightError (Variants.WeightOutOfRange i))
         | None =>
             let total := Variants.weightTotal wv_Weight variants in
             if total =? Percentage.TotalUnits then Ok tt else Err (WeightError (Variants.WeightTotal total))
         end.

Definition selectedResponseName (variantName baseName : string) : string := if String.eqb variantName "" then baseName else variantName.

Section Resolve.
Context (file : ScenarioFileV2).
Notation defaults := (f_Defaults file).
Notation tpls := (d_ResponseTemplates defaults).

Definition toVariant (w : WeightedResponseV2) (tpl : ResponseTemplate) (baseName : string) : WeightedResponse :=
  {| wr_Headers := rt_Headers tpl; wr_HTTPHeaders := rt_HTTPHeaders tpl; wr_Stream := rt_Stream tpl; wr_Block := rt_Block tpl;
     wr_ResponseName := selectedResponseName (in_Use (wv_response w)) baseName; wr_Body := rt_Body tpl; wr_BodyFile := rt_BodyFile tpl;
     wr_HTTPBody := rt_HTTPBody tpl; wr_HTTPBodyFile := rt_HTTPBodyFile tpl; wr_Error := rt_Error tpl; wr_Delay := default noDelay (rt_DelayRange tpl);
     wr_Weight := wv_Weight w; wr_ICAPStatus := rt_ICAPStatus tpl; wr_HTTPStatus := rt_HTTPStatus tpl |}.

(** What a variant shows before it is resolved: one that uses a template does not get
    the fields of the level above. *)
Definition variantInline (base : InlineResponseV2) (w : WeightedResponseV2) : InlineResponseV2 :=
  let inl := variant_inline w in if String.eqb (in_Use inl) "" then mergeInline base inl else inl.

(** The variants in turn; the outer [option] is the fuel of the recursion. *)
Fixpoint buildVariants (resolve : InlineResponseV2 → option (result ConvertError Responses)) (base : InlineResponseV2) (baseName : string)
  (variants : list WeightedResponseV2) : option (result ConvertError (list WeightedResponse)) :=
  match variants with
  | [] => Some (Ok [])
  | w :: variants =>
      r ← resolve (variantInline base w);
      match r with
      | Err e => Some (Err e)
      | Ok r =>
          match WeightedResponses r with
          | Some (_ :: _) => Some (Err NestedWeighted)
          | _ =>
              rest ← buildVariants resolve base baseName variants;
              Some (result_map (cons (toVariant w (Response r) baseName)) rest)
          end
      end
  end.

Definition buildWeightedList (resolve : InlineResponseV2 → option (result ConvertError Responses)) (variants : list WeightedResponseV2)
  (base : InlineResponseV2) (baseName : string) : option (result ConvertError (list WeightedResponse)) :=
  match validateV2WeightTotal variants with
  | Err e => Some (Err e)
  | Ok _ => buildVariants resolve base baseName variants
  end.

Definition weightedResult (r : option (result ConvertError (list WeightedResponse))) : option (result ConvertError Responses) :=
  r ← r; Some (result_map (λ l, {| Response := template204; WeightedResponses := Some l |}) r).

Definition effectiveUse (inline : InlineResponseV2) : string :=
  if String.eqb (in_Use inline) "" && negb (String.eqb (d_Use defaults) "") && isEmptyInline inline then d_Use defaults else in_Use inline.

(** The template a response is based on: fields to merge, or variants. *)
Definition baseOf (inline : InlineResponseV2) : result ConvertError (InlineResponseV2 + list WeightedResponseV2) :=
  let useRef := effectiveUse inline in
  if String.eqb useRef "" then Ok (inl emptyInline)
  else
    match tpls !! useRef with
    | None => Err TemplateUndefined
    | Some t =>
        match t_Inline t with
        | Some base => if String.eqb (in_Use base) "" then Ok (inl base) else Err TemplateUsesTemplate
        | None =>
            match t_Weighted t with
            | Some ws => if isEmptyInlineExceptUse inline then Ok (inr ws) else Err WeightedOverlay
            | None => Ok (inl emptyInline)
            end
        end
    end.

Fixpoint resolveSingle (fuel : nat) (inline : InlineResponseV2) : option (result ConvertError Responses) :=
  match fuel with
  | O => None
  | S fuel =>
      match baseOf inline with
      | Err e => Some (Err e)
      | Ok (inr variants) => weightedResult (buildWeightedList (resolveSingle fuel) variants emptyInline (effectiveUse inline))
      | Ok (inl base) =>
          Some (result_map (λ t, {| Response := t; WeightedResponses := None |})
            (inlineToTemplate (mergeInline base inline) (d_Headers defaults) (d_Status defaults) (d_HTTPStatus defaults) (effectiveUse inline)))
      end
  end.

Definition resolveResponse (fuel : nat) (inline : InlineResponseV2) (weighted : option (list WeightedResponseV2)) : option (result ConvertError Responses) :=
  match weighted with
  | None => resolveSingle fuel inline
  | Some ws =>
      if bool_decide (ws = []) then Some (Err (WeightError Variants.NoVariants))
      else if negb (String.eqb (in_Use inline) "") then Some (Err ResponsesWithUse)
      else weightedResult (buildWeightedList (resolveSingle fuel) ws inline "")
  end.

(** ** Scenarios *)

Section Convert.
Context {Regexp IPNet : Type} (fuel : nat).
Notation Scenario' := (Scenario (Regexp := Regexp) (IPNet := IPNet) (Response := Responses)).
Notation Branch' := (Branch (Regexp := Regexp) (Response := Responses)).

Definition noRules : CompiledRules (Regexp := Regexp) :=
  {| compiledHeaders := ∅; compiledHeaderLists := ∅; compiledHTTPHeaders := ∅; compiledHTTPLists := ∅; compiledHTTPURL := None |}.

(** A scenario before it is compiled. *)
Definition mkScenario (name : string) (rule : MatchRule) (branches : list Branch') (resp : Responses) (priority : Z) : Scenario' :=
  {| Name := name; Match_ := rule; rules := noRules; compiledBody := None; compiledRoutes := None; compiledPaths := []; compiledCIDRs := [];
     Branches := branches; s_Response := resp; Priority := priority; order := 0 |}.

Definition noResponse : Responses := {| Response := with_status 0 template204; WeightedResponses := None |}.

Fixpoint buildBranches (branches : list BranchV2) : option (result ConvertError (list Branch')) :=
  match branches with
  | [] => Some (Ok [])
  | b :: branches =>
      r ← resolveResponse fuel (br_response b) (br_Responses b);
      match r with
      | Err e => Some (Err e)
      | Ok r =>
          rest ← buildBranches branches;
          Some (result_map (cons {| b_Match := whenRule ∅ [] [] (br_When b) (br_WhenHTTP b); b_rules := noRules; b_Response := r |}) rest)
      end
  end.

(** The fields that may not stand beside branches. *)
Definition hasInline (entry : ScenarioEntryV2) : bool :=
  let i := e_response entry in
  negb (in_Status i =? 0) || negb (in_HTTPStatus i =? 0) || negb (String.eqb (in_Body i) "") || negb (String.eqb (in_BodyFile i) "")
  || negb (String.eqb (in_Error i) "") || negb (String.eqb (in_Delay i) "") || bool_decide (is_Some (e_Responses entry))
  || negb (String.eqb (in_Use i) "") || bool_decide (is_Some (in_Stream i)) || bool_decide (is_Some (in_Block i)).

Definition basePriority : Z := 1000.

Definition convertEntry (i : Z) (name : string) (entry : ScenarioEntryV2) : option (result ConvertError Scenario') :=
  match resolveScenarioRouting defaults entry with
  | Err e => Some (Err e)
  | Ok routing =>
      if negb (bool_decide (e_Branches entry = [])) && hasInline entry then Some (Err BranchesCombined)
      else
        let priority := if e_Priority entry =? 0 then basePriority - i else e_Priority entry in
        let rule := whenRule (default ∅ (rs_routes routing)) (rs_methods routing) (rs_endpoints routing) (e_When entry) (e_WhenHTTP entry) in
        if negb (bool_decide (e_Branches entry = [])) then
          bs ← buildBranches (e_Branches entry);
          Some (result_map (λ bs, mkScenario name rule bs noResponse priority) bs)
        else
          r ← resolveResponse fuel (e_response entry) (e_Responses entry);
          Some (result_map (λ r, mkScenario name rule [] r priority) r)
  end.

(** Names without an entry keep their place in the count. *)
Fixpoint convertEntries (i : Z) (names : list string) : option (result ConvertError (list Scenario')) :=
  match names with
  | [] => Some (Ok [])
  | name :: names =>
      match f_Scenarios file !! name with
      | None => convertEntries (i + 1) names
      | Some entry =>
          s ← convertEntry i name entry;
          match s with
          | Err e => Some (Err e)
          | Ok s => rest ← convertEntries (i + 1) names; Some (result_map (cons s) rest)
          end
      end
  end.

Definition anyRule : MatchRule := whenRule ∅ [] [] ∅ None.

Definition buildDefaultsUseFallbackScenario : option (result ConvertError Scenario') :=
  let inline := {| in_Set := ∅; in_HTTPSet := ∅; in_Stream := None; in_Block := None; in_Use := d_Use defaults; in_Body := ""; in_BodyFile := "";
                   in_HTTPBody := ""; in_HTTPBodyFile := ""; in_Error := ""; in_Delay := ""; in_Status := 0; in_HTTPStatus := 0 |} in
  r ← resolveResponse fuel inline None;
  Some (result_map (λ r, mkScenario defaultScenarioName anyRule [] r (-1)) r).

Fixpoint validateTemplates (templates : list (string * ResponseTemplateV2)) : result ConvertError unit :=
  match templates with
  | [] => Ok tt
  | (_, t) :: templates =>
      let! _ := match t_Weighted t with Some ws => validateV2WeightTotal ws | None => Ok tt end in validateTemplates templates
  end.

Definition convertFile (orderedNames : list string) : option (result ConvertError (list Scenario')) :=
  let checked :=
    let! _ := validateDefaultRoutes defaults in
    if negb (String.eqb (d_Use defaults) "") && bool_decide (tpls !! d_Use defaults = None) then Err DefaultsUseUndefined
    else validateTemplates (map_to_list tpls) in
  match checked with
  | Err e => Some (Err e)
  | Ok _ =>
      r ← convertEntries 0 orderedNames;
      match r with
      | Err e => Some (Err e)
      | Ok scenarios =>
          if negb (String.eqb (d_Use defaults) "") && negb (existsb (λ s, String.eqb (Name s) defaultScenarioName) scenarios) then
            fallback ← buildDefaultsUseFallbackScenario; Some (result_map (λ f, scenarios ++ [f]) fallback)
          else Some (Ok scenarios)
      end
  end.
End Convert.
End Resolve.

Definition ConvertV2ToScenarios {Regexp IPNet : Type} (fuel : nat) (file : option ScenarioFileV2) (orderedNames : list string)
  : option (result ConvertError (list (Scenario (Regexp := Regexp) (IPNet := IPNet) (Response := Responses)))) :=
  match file with
  | None => Some (Err NilFile)
  | Some file => convertFile file fuel orderedNames
  end.
