(* ===== verification/ScenarioV2Spec.v ===== *)
(** * What a scenario file becomes

    The conversion ends unless weighted templates refer back to themselves; what it gives
    passes the checks the registry makes afterwards; each field of a response comes from
    the nearest level that sets it; names, order and routing are those of the file. *)
From S2P Require Import Prelude GoInt GoTime GoStrings Header Weight StreamPlan StreamSelect StreamSources Scenario Responses Compile ScenarioV2.

Local Open Scope Z_scope.

(** ** Merging *)

Lemma or_else_empty s : or_else s "" = s.
Proof. unfold or_else. by destruct (String.eqb_spec s ""). Qed.
Lemma or_else_num_0 n : or_else_num n 0 = n.
Proof. unfold or_else_num. by destruct (Z.eqb_spec n 0). Qed.
Lemma or_else_opt_None {A} (o : option A) : or_else_opt o None = o.
Proof. by destruct o. Qed.

Lemma merge_empty i : in_Use i = "" → mergeInline emptyInline i = i.
Proof.
  destruct i. cbn. intros ->. unfold mergeInline, mergeHeaders. cbn. by rewrite !(right_id_L ∅ union), !or_else_empty, !or_else_num_0, !or_else_opt_None.
Qed.

(** ** Termination *)

Section Termination.
Context (file : ScenarioFileV2).
Notation defaults := (f_Defaults file).
Notation tpls := (d_ResponseTemplates defaults).

(** The variants of a name, when it is a weighted template. *)
Definition variantsOf (a : string) : list WeightedResponseV2 :=
  match tpls !! a with
  | Some t => match t_Inline t with Some _ => [] | None => default [] (t_Weighted t) end
  | None => []
  end.

(** The template that a variant of a weighted template leads to. *)
Definition leadsTo (w : WeightedResponseV2) : string := effectiveUse file (variantInline emptyInline w).

Lemma baseOf_variants inline ws : baseOf file inline = Ok (inr ws) → variantsOf (effectiveUse file inline) = ws.
Proof using.
  unfold baseOf, variantsOf. destruct (String.eqb _ ""); [done|]. destruct (tpls !! _) as [t|]; [|done].
  destruct (t_Inline t) as [base|]; [by destruct (String.eqb _ _)|]. destruct (t_Weighted t); [|done]. destruct (isEmptyInlineExceptUse _); [|done]. by intros [= ->].
Qed.

Lemma buildVariants_mono resolve resolve' base name ws r : (∀ i x, resolve i = Some x → resolve' i = Some x) →
  buildVariants resolve base name ws = Some r → buildVariants resolve' base name ws = Some r.
Proof using.
  intros H. revert r. induction ws as [|w ws IH]; intros r; [done|]. cbn [buildVariants].
  destruct (resolve (variantInline base w)) as [x|] eqn:E; [|done]. rewrite (H _ _ E). cbn [mbind option_bind]. destruct x as [x|e]; [|done].
  assert (Hrest : ∀ k, (rest ← buildVariants resolve base name ws; Some (k rest)) = Some r → (rest ← buildVariants resolve' base name ws; Some (k rest)) = Some r).
  { intros k. destruct (buildVariants resolve base name ws) as [rest|]; [|done]. by rewrite (IH rest eq_refl). }
  destruct (WeightedResponses x) as [[|v vs]|]; [apply Hrest|done|apply Hrest].
Qed.

Lemma resolveSingle_eq fuel inline :
  resolveSingle file (S fuel) inline =
    match baseOf file inline with
    | Err e => Some (Err e)
    | Ok (inr variants) => weightedResult (buildWeightedList (resolveSingle file fuel) variants emptyInline (effectiveUse file inline))
    | Ok (inl base) => Some (result_map (λ t, {| Response := t; WeightedResponses := None |})
        (inlineToTemplate (mergeInline base inline) (d_Headers defaults) (d_Status defaults) (d_HTTPStatus defaults) (effectiveUse file inline)))
    end.
Proof using. done. Qed.

Lemma resolveSingle_S fuel inline r : resolveSingle file fuel inline = Some r → resolveSingle file (S fuel) inline = Some r.
Proof using.
  revert inline r. induction fuel as [|fuel IH]; intros inline r; [done|]. rewrite !resolveSingle_eq.
  destruct (baseOf file inline) as [[base|ws]|e]; [done| |done].
  unfold buildWeightedList. destruct (validateV2WeightTotal ws); [|done]. unfold weightedResult.
  destruct (buildVariants (resolveSingle file fuel) _ _ ws) as [l|] eqn:El; [|done]. by rewrite (buildVariants_mono _ (resolveSingle file (S fuel)) _ _ _ l IH El).
Qed.

Lemma resolveSingle_mono fuel fuel' inline r : (fuel ≤ fuel')%nat → resolveSingle file fuel inline = Some r → resolveSingle file fuel' inline = Some r.
Proof using. intros Hle E. induction Hle as [|fuel' _ IH]; [done|]. by apply resolveSingle_S. Qed.

Lemma buildVariants_some resolve base name ws : (∀ w, w ∈ ws → is_Some (resolve (variantInline base w))) → is_Some (buildVariants resolve base name ws).
Proof using.
  induction ws as [|w ws IH]; intros H; [by eexists|]. cbn [buildVariants]. destruct (H w ltac:(left)) as [x ->]. cbn [mbind option_bind].
  destruct x as [x|e]; [|by eexists]. destruct IH as [rest Hrest]; [intros w' Hw'; apply H; by right|]. rewrite Hrest. cbn [mbind option_bind].
  destruct (WeightedResponses x) as [[|v vs]|]; by eexists.
Qed.

(** No chain of weighted templates is endless. *)
Definition well_founded_templates (rank : string → nat) : Prop :=
  ∀ a w, w ∈ variantsOf a → variantsOf (leadsTo w) ≠ [] → (rank (leadsTo w) < rank a)%nat.

Lemma resolveSingle_terminates rank : well_founded_templates rank →
  ∀ fuel inline, (variantsOf (effectiveUse file inline) ≠ [] → rank (effectiveUse file inline) < fuel)%nat → is_Some (resolveSingle file (S fuel) inline).
Proof using.
  intros Hwf. induction fuel as [|fuel IH]; intros inline Hr; rewrite resolveSingle_eq; destruct (baseOf file inline) as [[base|ws]|e] eqn:E; try by eexists.
  - apply baseOf_variants in E. unfold buildWeightedList. destruct ws as [|w ws]; [by eexists|]. rewrite E in Hr. specialize (Hr ltac:(done)). lia.
  - apply baseOf_variants in E. unfold buildWeightedList. destruct (validateV2WeightTotal ws); [|by eexists]. unfold weightedResult.
    destruct (buildVariants_some (resolveSingle file (S fuel)) emptyInline (effectiveUse file inline) ws) as [l ->]; [|by eexists].
    intros w Hw. apply IH. intros Hne. change (effectiveUse file (variantInline emptyInline w)) with (leadsTo w) in *.
    assert (Hlt : (rank (leadsTo w) < rank (effectiveUse file inline))%nat) by (apply Hwf; [by rewrite E|done]).
    assert (variantsOf (effectiveUse file inline) ≠ []) by (rewrite E; by destruct ws; [apply not_elem_of_nil in Hw|]). specialize (Hr ltac:(done)). lia.
Qed.

Section Files.
Context {Regexp IPNet : Type}.

Lemma resolveResponse_terminates rank bound : well_founded_templates rank → (∀ a, rank a < bound)%nat →
  ∀ inline weighted, is_Some (resolveResponse file (S bound) inline weighted).
Proof using.
  intros Hwf Hb inline [ws|]; [|apply (resolveSingle_terminates rank); [done|intros _; apply Hb]]. unfold resolveResponse.
  destruct (bool_decide _); [by eexists|]. destruct (negb _); [by eexists|]. unfold buildWeightedList. destruct (validateV2WeightTotal ws); [|by eexists].
  unfold weightedResult. destruct (buildVariants_some (resolveSingle file (S bound)) inline "" ws) as [l ->]; [|by eexists].
  intros w _. apply (resolveSingle_terminates rank); [done|]. intros _. apply Hb.
Qed.

Lemma buildBranches_terminates fuel branches : (∀ inline weighted, is_Some (resolveResponse file fuel inline weighted)) →
  is_Some (buildBranches file (Regexp := Regexp) fuel branches).
Proof using.
  intros H. induction branches as [|b branches [rest IH]]; [by eexists|]. cbn [buildBranches]. destruct (H (br_response b) (br_Responses b)) as [r ->].
  cbn [mbind option_bind]. destruct r; [|by eexists]. rewrite IH. by eexists.
Qed.

Lemma convertEntries_terminates fuel names i : (∀ inline weighted, is_Some (resolveResponse file fuel inline weighted)) →
  is_Some (convertEntries file (Regexp := Regexp) (IPNet := IPNet) fuel i names).
Proof using.
  intros H. revert i. induction names as [|name names IH]; intros i; [by eexists|]. cbn [convertEntries]. destruct (f_Scenarios file !! name) as [entry|]; [|apply IH].
  assert (He : is_Some (convertEntry file (Regexp := Regexp) (IPNet := IPNet) fuel i name entry)).
  { unfold convertEntry. destruct (resolveScenarioRouting defaults entry); [|by eexists]. destruct (_ && _); [by eexists|]. destruct (negb _).
    - destruct (buildBranches_terminates fuel (e_Branches entry) H) as [bs ->]. by eexists.
    - destruct (H (e_response entry) (e_Responses entry)) as [r ->]. by eexists. }
  destruct He as [s ->]. cbn [mbind option_bind]. destruct s; [|by eexists]. destruct (IH (i + 1)) as [rest ->]. by eexists.
Qed.
End Files.
End Termination.

Lemma conversion_terminates {Regexp IPNet : Type} file rank bound names fuel :
  well_founded_templates file rank → (∀ a, rank a < bound)%nat → (bound < fuel)%nat →
  is_Some (ConvertV2ToScenarios (Regexp := Regexp) (IPNet := IPNet) fuel (Some file) names).
Proof.
  intros Hwf Hb Hf. destruct fuel as [|fuel]; [lia|].
  assert (H : ∀ inline weighted, is_Some (resolveResponse file (S fuel) inline weighted)).
  { apply (resolveResponse_terminates file rank fuel Hwf). intros a. specialize (Hb a). lia. }
  cbn [ConvertV2ToScenarios]. unfold convertFile. set (checked := result_bind _ _). destruct checked; [|by eexists].
  destruct (convertEntries_terminates file (Regexp := Regexp) (IPNet := IPNet) (S fuel) names 0 H) as [r ->]. cbn [mbind option_bind].
  destruct r as [l|e]; [|by eexists]. destruct (_ && _); [|by eexists]. unfold buildDefaultsUseFallbackScenario.
  match goal with |- context [resolveResponse file (S fuel) ?i None] => destruct (H i None) as [r ->] end. by eexists.
Qed.

(** C26: the conversion ends, with scenarios or an error, whenever no chain of weighted
    templates - by [use] or by the file-wide fallback - leads back to where it was: then
    the number of templates bounds the depth. *)
Theorem conversion_ends {Regexp IPNet : Type} file rank bound names fuel :
  well_founded_templates file rank → (∀ a, rank a < bound)%nat → (bound < fuel)%nat →
  is_Some (ConvertV2ToScenarios (Regexp := Regexp) (IPNet := IPNet) fuel (Some file) names).
Proof. apply conversion_terminates. Qed.

(** C33: a weighted template whose first variant leads back to it - by naming it, or by
    being empty when the template is the file-wide fallback - is never resolved: the
    recursion has no end, whatever fuel it is given, although weights and names were
    checked before. *)
Theorem weighted_cycle_diverges file a w ws inline fuel :
  a ≠ "" → d_ResponseTemplates (f_Defaults file) !! a = Some {| t_Inline := None; t_Weighted := Some (w :: ws) |} →
  validateV2WeightTotal (w :: ws) = Ok tt → isEmptyInlineExceptUse (variant_inline w) = true → leadsTo file w = a →
  isEmptyInlineExceptUse inline = true → effectiveUse file inline = a →
  resolveSingle file fuel inline = None.
Proof.
  intros Ha Ht Hv Hew Hlw Hei Hui.
  assert (Hbase : ∀ i, isEmptyInlineExceptUse i = true → effectiveUse file i = a → baseOf file i = Ok (inr (w :: ws))).
  { intros i Hi Hu. unfold baseOf. rewrite Hu, Ht, Hi. cbn [t_Inline t_Weighted]. by destruct (String.eqb_spec a ""). }
  assert (Hw : isEmptyInlineExceptUse (variantInline emptyInline w) = true).
  { unfold variantInline. destruct (String.eqb_spec (in_Use (variant_inline w)) ""); [by rewrite merge_empty|done]. }
  revert inline Hei Hui. induction fuel as [|fuel IH]; intros inline Hei Hui; [done|]. rewrite resolveSingle_eq.
  rewrite (Hbase inline Hei Hui). unfold buildWeightedList. rewrite Hv. cbn [buildVariants]. by rewrite (IH _ Hw Hlw).
Qed.

(** ** What the conversion gives passes the later checks *)

Lemma weights_ext {V W} (f : V → Z) (g : W → Z) vs ws : map f vs = map g ws →
  Variants.weightedCount f vs = Variants.weightedCount g ws ∧ Variants.weightTotal f vs = Variants.weightTotal g ws ∧
  length vs = length ws ∧ ∀ i, Variants.firstOutOfRange f i vs = Variants.firstOutOfRange g i ws.
Proof.
  intros E. unfold Variants.weightedCount, Variants.weightTotal. split_and!.
  - revert ws E. induction vs as [|v vs IH]; intros [|w ws] E; try done. injection E as Ev E. rewrite !filter_cons. specialize (IH ws E).
    rewrite Ev. case_decide; cbn; by rewrite IH.
  - revert ws E. generalize 0 as t. induction vs as [|v vs IH]; intros t [|w ws] E; try done. injection E as Ev E. cbn. rewrite Ev. by apply IH.
  - by rewrite <- (length_map f vs), E, length_map.
  - revert ws E. induction vs as [|v vs IH]; intros [|w ws] E i; try done. injection E as Ev E. cbn. rewrite Ev. destruct (_ || _); [done|]. by apply IH.
Qed.

Lemma weights_checked ws vs : validateV2WeightTotal ws = Ok tt → map wr_Weight vs = map wv_Weight ws →
  Variants.validateRuntimeWeightTotal wr_Weight (Some vs) = Ok tt.
Proof.
  intros Hv E. destruct (weights_ext wr_Weight wv_Weight vs ws E) as (Hc & Ht & Hl & Hr). unfold validateV2WeightTotal in Hv. cbv zeta in Hv.
  destruct vs as [|v vs]; [destruct ws; [done|by inversion E]|]. destruct ws as [|w ws]; [by inversion E|]. cbn [bool_decide] in Hv.
  unfold Variants.validateRuntimeWeightTotal. rewrite Hc, Ht, Hl, Hr. destruct (bool_decide (w :: ws = [])); [done|].
  destruct (bool_decide (Variants.weightedCount _ _ = 0%nat)); [done|]. destruct (negb _); [done|]. destruct (Variants.firstOutOfRange _ _ _); [done|].
  by destruct (_ =? _).
Qed.

Definition delay_fine (d : DelayConfig) : Prop := 0 ≤ delay_Min d ≤ delay_Max d ∧ delay_Max d ≤ max_int64.

Record template_ok (t : ResponseTemplate) : Prop := {
  to_status : rt_ICAPStatus t ≠ 0;
  to_use : rt_Use t = "";
  to_delay : match rt_DelayRange t with Some d => delay_fine d ∧ rt_Delay t = delay_Min d | None => rt_Delay t = 0 end
}.

(** Either one template or a list of variants with a template that is not used. *)
Definition responses_ok (r : Responses) : Prop :=
  match WeightedResponses r with
  | None => template_ok (Response r)
  | Some vs => Response r = template204 ∧ checkWeights (Some vs) = Ok tt ∧ Forall (λ v, wr_ICAPStatus v ≠ 0 ∧ delay_fine (wr_Delay v)) vs
  end.

Lemma or_else_num_nz a b : b ≠ 0 → or_else_num a b ≠ 0.
Proof. unfold or_else_num. by destruct (Z.eqb_spec a 0). Qed.

Lemma inlineToTemplate_ok i h s hs name t : inlineToTemplate i h s hs name = Ok t → template_ok t.
Proof.
  unfold inlineToTemplate. destruct (String.eqb _ ""); [intros [= <-]; split; cbn; [by apply or_else_num_nz|done|done]|].
  destruct (ParseDelay (in_Delay i)) as [dc|] eqn:E; [|done]. intros [= <-]. destruct (ParseDelay_bounds _ _ E) as (? & ? & _).
  split; cbn; [by apply or_else_num_nz|done|done].
Qed.

Lemma template_variant_ok t w name : template_ok t → wr_ICAPStatus (toVariant w t name) ≠ 0 ∧ delay_fine (wr_Delay (toVariant w t name)).
Proof.
  intros [Hs _ Hd]. split; [done|]. cbn. destruct (rt_DelayRange t) as [d|]; [by destruct Hd|]. cbn. unfold delay_fine, max_int64. cbn. lia.
Qed.

Section WellFormed.
Context (file : ScenarioFileV2).

Lemma buildVariants_ok resolve base name ws l : (∀ i r, resolve i = Some (Ok r) → responses_ok r) →
  buildVariants resolve base name ws = Some (Ok l) →
  map wr_Weight l = map wv_Weight ws ∧ Forall (λ v, wr_ICAPStatus v ≠ 0 ∧ delay_fine (wr_Delay v)) l.
Proof using.
  intros H. revert l. induction ws as [|w ws IH]; intros l; cbn [buildVariants]; [intros [= <-]; by split|].
  destruct (resolve (variantInline base w)) as [[r|e]|] eqn:E; [|done|done]. cbn [mbind option_bind]. pose proof (H _ _ E) as Hr. unfold responses_ok in Hr.
  assert (Hrest : template_ok (Response r) →
    (rest ← buildVariants resolve base name ws; Some (result_map (cons (toVariant w (Response r) name)) rest)) = Some (Ok l) →
    map wr_Weight l = map wv_Weight (w :: ws) ∧ Forall (λ v, wr_ICAPStatus v ≠ 0 ∧ delay_fine (wr_Delay v)) l).
  { intros Ht. destruct (buildVariants resolve base name ws) as [[rest|e]|]; [|done|done]. cbn. intros [= <-]. destruct (IH rest eq_refl) as [Hm Hf]. split.
    - cbn. by rewrite Hm.
    - constructor; [by apply template_variant_ok|done]. }
  destruct (WeightedResponses r) as [[|v vs]|]; [|done|by apply Hrest]. by destruct Hr as (_ & Hc & _).
Qed.

Lemma weightedResult_ok resolve base name ws r : (∀ i r, resolve i = Some (Ok r) → responses_ok r) →
  weightedResult (buildWeightedList resolve ws base name) = Some (Ok r) → responses_ok r.
Proof using.
  intros H. unfold weightedResult, buildWeightedList. destruct (validateV2WeightTotal ws) as [[]|] eqn:Ev; [|done].
  destruct (buildVariants resolve base name ws) as [[l|e]|] eqn:E; [|done|done]. cbn. intros [= <-]. destruct (buildVariants_ok _ _ _ _ _ H E) as [Hm Hf].
  unfold responses_ok. cbn [WeightedResponses Response]. split_and!; [done| |done]. unfold checkWeights. by rewrite (weights_checked ws l).
Qed.

Lemma resolveSingle_ok fuel inline r : resolveSingle file fuel inline = Some (Ok r) → responses_ok r.
Proof using.
  revert inline r. induction fuel as [|fuel IH]; intros inline r; [done|]. rewrite resolveSingle_eq. destruct (baseOf file inline) as [[base|ws]|e]; [| |done].
  - destruct (inlineToTemplate _ _ _ _ _) as [t|] eqn:E; [|done]. intros [= <-]. by eapply inlineToTemplate_ok.
  - by apply weightedResult_ok.
Qed.

Lemma resolveResponse_ok fuel inline weighted r : resolveResponse file fuel inline weighted = Some (Ok r) → responses_ok r.
Proof using.
  unfold resolveResponse. destruct weighted as [ws|]; [|apply resolveSingle_ok]. destruct (bool_decide _); [done|]. destruct (negb _); [done|].
  apply weightedResult_ok. intros i r'. apply resolveSingle_ok.
Qed.

(** Methods and endpoints that a rule may have. *)
Definition routing_ok (routes : option RouteMap) (methods endpoints : list string) : Prop :=
  methods ≠ [] ∧ endpoints ≠ [] ∧
  match routes with
  | None => Forall (λ m, validICAPMethod m = true) methods
  | Some routes => validateRouteMap routes = true ∧ methods = orderedRouteMethods routes ∧ NoDup endpoints ∧
      ∀ e, e ∈ endpoints ↔ ∃ m es, routes !! m = Some es ∧ e ∈ es
  end.

Lemma uniqueEndpoints_spec seen l : NoDup (uniqueEndpoints seen l) ∧ ∀ e, e ∈ uniqueEndpoints seen l ↔ e ∈ l ∧ e ∉ seen.
Proof using.
  revert seen. induction l as [|x l IH]; intros seen; cbn [uniqueEndpoints]; [split; [constructor|set_solver]|].
  case_bool_decide as Hx.
  - destruct (IH seen) as [Hn He]. split; [done|]. intros e. rewrite He. set_solver.
  - destruct (IH (x :: seen)) as [Hn He]. split.
    + constructor; [|done]. rewrite He. set_solver.
    + intros e. rewrite elem_of_cons, He. set_unfold. split; [intros [->|[? ?]]; [by split; [left|]|split; [by right|tauto]]|].
      intros [[->|?] ?]; [by left|]. destruct (decide (e = x)); [by left|right; tauto].
Qed.

Lemma elem_of_orderedRouteMethods routes m : m ∈ orderedRouteMethods routes ↔ (m = MethodREQMOD ∨ m = MethodRESPMOD) ∧ is_Some (routes !! m).
Proof using.
  unfold orderedRouteMethods. rewrite list_elem_of_In, filter_In, <- list_elem_of_In, bool_decide_eq_true. unfold exactRouteMethodOrder. set_solver.
Qed.

Lemma validateRouteMap_lookup routes m es : validateRouteMap routes = true → routes !! m = Some es → (m = MethodREQMOD ∨ m = MethodRESPMOD) ∧ es ≠ [].
Proof using.
  unfold validateRouteMap. intros [_ H]%andb_true_iff Hm. rewrite forallb_forall in H.
  specialize (H (m, es) ltac:(apply list_elem_of_In, elem_of_map_to_list, Hm)). cbn in H. apply andb_true_iff in H as [H1 H2].
  unfold endpoints_valid in H2. split; [apply orb_true_iff in H1 as [E|E]; apply String.eqb_eq in E; auto|]. by intros ->.
Qed.

Lemma routingFromRouteMap_ok routes : validateRouteMap routes = true →
  let r := routingFromRouteMap routes in routing_ok (rs_routes r) (rs_methods r) (rs_endpoints r).
Proof using.
  intros Hv. cbv zeta. unfold routingFromRouteMap. cbn [rs_routes rs_methods rs_endpoints]. destruct (uniqueEndpoints_spec [] (flat_map (λ m, default [] (routes !! m)) (orderedRouteMethods routes))) as [Hnd He].
  set (l := uniqueEndpoints _ _) in *.
  assert (Hin : ∀ e, e ∈ l ↔ ∃ m es, routes !! m = Some es ∧ e ∈ es).
  { intros e. rewrite He, list_elem_of_In, in_flat_map. split.
    - intros [(m & Hm & Hes) _]. apply list_elem_of_In, elem_of_orderedRouteMethods in Hm as [_ [es Hes']]. exists m, es. rewrite Hes' in Hes.
      split; [done|by apply list_elem_of_In].
    - intros (m & es & Hm & Hes). split; [|apply not_elem_of_nil]. exists m. rewrite Hm. split; [|by apply list_elem_of_In].
      apply list_elem_of_In, elem_of_orderedRouteMethods. split; [|by eexists]. by apply (validateRouteMap_lookup routes m es Hv Hm). }
  assert (Hex : ∃ m e es, routes !! m = Some (e :: es)).
  { unfold validateRouteMap in Hv. apply andb_true_iff in Hv as Hv'. destruct Hv' as [Hne _]. apply negb_true_iff, bool_decide_eq_false in Hne.
    apply map_choose in Hne as (m & es & Hm). destruct es as [|e es]; [by destruct (validateRouteMap_lookup _ _ _ Hv Hm)|]. by exists m, e, es. }
  destruct Hex as (m & e & es & Hm). split_and!; try done.
  - intros E. assert (Hmm : m ∈ orderedRouteMethods routes) by (apply elem_of_orderedRouteMethods; split; [by apply (validateRouteMap_lookup routes m (e :: es) Hv Hm)|by eexists]).
    rewrite E in Hmm. by apply not_elem_of_nil in Hmm.
  - intros E. assert (Hel : e ∈ l) by (apply Hin; exists m, (e :: es); split; [done|left]). rewrite E in Hel. by apply not_elem_of_nil in Hel.
Qed.
End WellFormed.

(** ** Routing *)

Lemma validateLegacyRouting_ok ms es r : validateLegacyRouting ms es = Ok r →
  r = {| rs_routes := None; rs_methods := ms; rs_endpoints := es |} ∧ routing_ok (rs_routes r) (rs_methods r) (rs_endpoints r).
Proof.
  unfold validateLegacyRouting. destruct (bool_decide_reflect (ms = [])); [done|]. destruct (forallb validICAPMethod ms) eqn:Hf; [|done]. cbn [negb].
  destruct (bool_decide_reflect (es = [])); [done|]. intros [= <-]. split; [done|]. split_and!; [done|done|]. cbn. apply Forall_forall.
  intros m Hm. rewrite forallb_forall in Hf. apply Hf. by apply list_elem_of_In.
Qed.

Lemma validRouting_ok routes r : validRouting routes = Ok r → r = routingFromRouteMap routes ∧ routing_ok (rs_routes r) (rs_methods r) (rs_endpoints r).
Proof.
  unfold validRouting. destruct (validateRouteMap routes) eqn:Hv; [|done]. intros [= <-]. split; [done|]. by apply routingFromRouteMap_ok.
Qed.

Lemma selectMethods_lookup defaults ms acc routes : selectMethods defaults ms acc = Some routes →
  (∀ m, m ∈ ms → is_Some (defaults !! m)) ∧ ∀ m, routes !! m = if bool_decide (m ∈ ms) then defaults !! m else acc !! m.
Proof.
  revert acc. induction ms as [|x ms IH]; intros acc; cbn [selectMethods].
  - intros [= <-]. split; [intros m Hm; by apply not_elem_of_nil in Hm|]. intros m. rewrite bool_decide_false; [done|apply not_elem_of_nil].
  - destruct (defaults !! x) as [es|] eqn:E; [|done]. cbn [mbind option_bind]. intros H. destruct (IH _ H) as [H1 H2]. split.
    + intros m [->|Hm]%elem_of_cons; [by eexists|by apply H1].
    + intros m. rewrite H2. destruct (bool_decide_reflect (m ∈ ms)) as [Hm|Hm].
      * by rewrite bool_decide_true by (by right).
      * destruct (decide (m = x)) as [->|Hne]; [rewrite lookup_insert_eq, bool_decide_true by left; done|].
        rewrite lookup_insert_ne by done. rewrite bool_decide_false; [done|]. set_solver.
Qed.

Lemma replace_lookup (es : list string) ms acc m :
  foldl (λ (acc : RouteMap) m, <[m := es]> acc) acc ms !! m = if bool_decide (m ∈ ms) then Some es else acc !! m.
Proof.
  revert acc. induction ms as [|x ms IH]; intros acc; cbn [foldl]; [rewrite bool_decide_false; [done|apply not_elem_of_nil]|].
  rewrite IH. destruct (bool_decide_reflect (m ∈ ms)) as [Hm|Hm]; [by rewrite bool_decide_true by (by right)|].
  destruct (decide (m = x)) as [->|Hne]; [by rewrite lookup_insert_eq, bool_decide_true by left|]. rewrite lookup_insert_ne by done.
  rewrite bool_decide_false; [done|set_solver].
Qed.

Lemma hasRoutes_declared d entry : validateRoutingDeclarations d entry = Ok tt →
  (hasRoutes (d_routesSet d) (d_Routes d) = true → validateRouteMap (default ∅ (d_Routes d)) = true) ∧
  (hasRoutes (e_routesSet entry) (e_Routes entry) = true →
     validateRouteMap (default ∅ (e_Routes entry)) = true ∧ e_Method entry = [] ∧ e_Endpoint entry = []).
Proof.
  unfold validateRoutingDeclarations. cbv zeta. destruct (_ && combined _ _ (d_Method d) _); [done|].
  destruct (hasRoutes (e_routesSet entry) (e_Routes entry)); cbn [andb].
  - unfold combined. destruct (e_methodSet entry), (e_endpointSet entry), (bool_decide_reflect (e_Method entry = [])), (bool_decide_reflect (e_Endpoint entry = [])); try done.
    cbn [orb negb]. destruct (_ && negb (validateRouteMap (default ∅ (d_Routes d)))) eqn:Ed; [done|].
    destruct (validateRouteMap (default ∅ (e_Routes entry))) eqn:Ee; [|done]. intros _. split; [|intros _; by split_and!].
    intros H. rewrite H in Ed. cbn [andb] in Ed. by apply negb_false_iff in Ed.
  - destruct (hasRoutes (d_routesSet d) (d_Routes d)); cbn [andb]; [|by split]. destruct (validateRouteMap _); [|done]. by split.
Qed.

(** The exact routes a scenario gets from its own declarations and the defaults; [None]
    where methods and endpoints are combined freely. *)
Definition effective_route (d : ScenarioDefaultsV2) (entry : ScenarioEntryV2) (m : string) : option (list string) :=
  if hasRoutes (e_routesSet entry) (e_Routes entry) then default ∅ (e_Routes entry) !! m
  else if hasRoutes (d_routesSet d) (d_Routes d) then
    match e_Method entry, e_Endpoint entry with
    | [], [] => default ∅ (d_Routes d) !! m
    | ms, [] => if bool_decide (m ∈ ms) then default ∅ (d_Routes d) !! m else None
    | _, es => if bool_decide (is_Some (default ∅ (d_Routes d) !! m)) then Some es else None
    end
  else None.

(** The routing of a scenario: its own routes, or those of the defaults, restricted to
    the methods it names or with the endpoints it names; a scenario that names both, or
    a file without routes, combines methods and endpoints freely, its own before the
    defaults. What comes out always passes the checks made of it later. *)
Theorem routing_resolved d entry r : resolveScenarioRouting d entry = Ok r →
  routing_ok (rs_routes r) (rs_methods r) (rs_endpoints r) ∧
  (∀ routes, rs_routes r = Some routes → ∀ m, routes !! m = effective_route d entry m) ∧
  (rs_routes r = None →
     rs_methods r = (if bool_decide (e_Method entry = []) then d_Method d else e_Method entry) ∧
     rs_endpoints r = (if bool_decide (e_Endpoint entry = []) then d_Endpoint d else e_Endpoint entry)).
Proof.
  unfold resolveScenarioRouting, effective_route. destruct (validateRoutingDeclarations d entry) as [[]|] eqn:Ev; [|done]. cbn [result_bind].
  destruct (hasRoutes_declared d entry Ev) as [Hd He]. destruct (hasRoutes (e_routesSet entry) (e_Routes entry)) eqn:Ee.
  { intros [= <-]. destruct (He eq_refl) as [Hv _]. split; [by apply routingFromRouteMap_ok|]. split; [|done]. by intros routes [= <-]. }
  destruct (hasRoutes (d_routesSet d) (d_Routes d)) eqn:Ed.
  - specialize (Hd eq_refl). unfold resolveFromDefaultRoutes. destruct (e_Method entry) as [|m0 ms] eqn:Em, (e_Endpoint entry) as [|e0 es] eqn:Ees.
    + intros [= <-]. split; [by apply routingFromRouteMap_ok|]. split; [|done]. by intros routes [= <-].
    + unfold replaceDefaultRouteEndpoints. intros H. destruct (validRouting_ok _ _ H) as [-> Hok]. split; [exact Hok|]. split; [|done].
      intros routes [= <-] m. rewrite replace_lookup, lookup_empty.
      destruct (default ∅ (d_Routes d) !! m) as [l|] eqn:El.
      * rewrite (bool_decide_true (is_Some _)) by by eexists. rewrite bool_decide_true; [done|]. apply elem_of_orderedRouteMethods. rewrite El.
        split; [by apply (validateRouteMap_lookup _ m l Hd El)|by eexists].
      * rewrite (bool_decide_false (is_Some _)) by (by intros [? ?]). rewrite bool_decide_false; [done|]. intros Hm. apply elem_of_orderedRouteMethods in Hm.
        rewrite El in Hm. by destruct Hm as [_ [? ?]].
    + unfold selectDefaultRouteMethods. destruct (selectMethods _ _ ∅) as [sel|] eqn:Es; [|done]. intros H.
      destruct (validRouting_ok _ _ H) as [-> Hok]. split; [exact Hok|]. split; [|done]. intros routes [= <-] m.
      destruct (selectMethods_lookup _ _ _ _ Es) as [_ Hl]. rewrite Hl. by rewrite lookup_empty.
    + intros H. destruct (validateLegacyRouting_ok _ _ _ H) as [-> Hok]. by split_and!.
  - intros H. destruct (validateLegacyRouting_ok _ _ _ H) as [-> Hok]. by split_and!.
Qed.

(** ** Whole files *)

Section Converted.
Context {Regexp IPNet : Type} (file : ScenarioFileV2) (fuel : nat).
Notation Scenario' := (Scenario (Regexp := Regexp) (IPNet := IPNet) (Response := Responses)).
Notation defaults := (f_Defaults file).

Definition converted_ok (s : Scenario') : Prop :=
  routing_ok (if bool_decide (Routes (Match_ s) = ∅) then None else Some (Routes (Match_ s))) (Methods (Match_ s)) (Paths (Match_ s)) ∧
  (Branches s = [] → responses_ok (s_Response s)) ∧ Forall (λ b, responses_ok (b_Response b)) (Branches s).

Lemma buildBranches_ok branches l : buildBranches file (Regexp := Regexp) fuel branches = Some (Ok l) →
  length l = length branches ∧ Forall (λ b, responses_ok (b_Response b)) l.
Proof using.
  revert l. induction branches as [|b branches IH]; intros l; cbn [buildBranches]; [intros [= <-]; by split|].
  destruct (resolveResponse _ _ _ _) as [[r|e]|] eqn:E; [|done|done]. cbn [mbind option_bind].
  destruct (buildBranches file fuel branches) as [[rest|e]|]; [|done|done]. cbn. intros [= <-]. destruct (IH rest eq_refl) as [Hl Hf].
  split; [cbn; by rewrite Hl|]. constructor; [|done]. by eapply resolveResponse_ok.
Qed.

Lemma routing_rule r name s : routing_ok (rs_routes r) (rs_methods r) (rs_endpoints r) →
  Routes (Match_ s) = default ∅ (rs_routes r) → Methods (Match_ s) = rs_methods r → Paths (Match_ s) = rs_endpoints r → name = Name (s : Scenario') →
  routing_ok (if bool_decide (Routes (Match_ s) = ∅) then None else Some (Routes (Match_ s))) (Methods (Match_ s)) (Paths (Match_ s)).
Proof using.
  intros Hr -> -> -> _. destruct (rs_routes r) as [routes|]; cbn [default from_option id]; [|by rewrite bool_decide_true].
  rewrite bool_decide_false; [done|]. intros ->. destruct Hr as (_ & _ & Hv & _). by vm_compute in Hv.
Qed.

(** The scenario of an entry: its name, where it stands, its rules and responses. *)
Lemma convertEntry_ok i name entry s : convertEntry file fuel i name entry = Some (Ok s) →
  Name s = name ∧ Priority s = (if e_Priority entry =? 0 then basePriority - i else e_Priority entry) ∧ converted_ok s.
Proof using.
  unfold convertEntry. destruct (resolveScenarioRouting defaults entry) as [r|e] eqn:Er; [|done]. destruct (_ && hasInline entry); [done|].
  destruct (routing_resolved _ _ _ Er) as [Hr _]. destruct (bool_decide_reflect (e_Branches entry = [])) as [Eb|Eb]; cbn [negb].
  - destruct (resolveResponse _ _ _ _) as [[resp|e]|] eqn:E; [|done|done]. cbn. intros [= <-]. split_and!; [done|done|]. split_and!.
    + by eapply (routing_rule r name).
    + intros _. by eapply resolveResponse_ok.
    + constructor.
  - destruct (buildBranches file fuel (e_Branches entry)) as [[bs|e]|] eqn:E; [|done|done]. cbn. intros [= <-]. split_and!; [done|done|].
    destruct (buildBranches_ok _ _ E) as [Hl Hf]. split_and!.
    + by eapply (routing_rule r name).
    + cbn. intros ->. by destruct (e_Branches entry).
    + exact Hf.
Qed.

(** The scenarios that are declared, with the places of their names. *)
Fixpoint declared (i : Z) (names : list string) : list (Z * string * ScenarioEntryV2) :=
  match names with
  | [] => []
  | name :: names => option_list ((λ e, (i, name, e)) <$> f_Scenarios file !! name) ++ declared (i + 1) names
  end.

Definition converted_from (d : Z * string * ScenarioEntryV2) (s : Scenario') : Prop :=
  Name s = d.1.2 ∧ Priority s = (if e_Priority d.2 =? 0 then basePriority - d.1.1 else e_Priority d.2) ∧ converted_ok s.

Lemma convertEntries_ok i names l : convertEntries file fuel i names = Some (Ok l) → Forall2 converted_from (declared i names) l.
Proof using.
  revert i l. induction names as [|name names IH]; intros i l; cbn [convertEntries declared]; [intros [= <-]; constructor|].
  destruct (f_Scenarios file !! name) as [entry|]; cbn [option_list fmap option_fmap option_map app]; [|apply IH].
  destruct (convertEntry file fuel i name entry) as [[s|e]|] eqn:Es; [|done|done]. cbn [mbind option_bind].
  destruct (convertEntries file fuel (i + 1) names) as [[rest|e]|] eqn:Er; [|done|done]. cbn. intros [= <-].
  constructor; [by eapply convertEntry_ok|by apply IH].
Qed.

Definition is_fallback (s : Scenario') : Prop :=
  Name s = defaultScenarioName ∧ Priority s = -1 ∧ Match_ s = anyRule ∧ Branches s = [] ∧ responses_ok (s_Response s).

Lemma fallback_ok s : buildDefaultsUseFallbackScenario file fuel = Some (Ok s) → is_fallback s.
Proof using.
  unfold buildDefaultsUseFallbackScenario. destruct (resolveResponse _ _ _ _) as [[r|e]|] eqn:E; [|done|done]. cbn. intros [= <-].
  split_and!; try done. by eapply resolveResponse_ok.
Qed.
End Converted.

(** C13: a file becomes exactly its declared scenarios, in their order, each with its name,
    its own priority or one that falls with its place, a routing that is valid, and
    either one response or weighted variants that pass the check of weights again; and,
    last, the file-wide fallback when it is declared and no scenario has its name. *)
Theorem file_converted {Regexp IPNet : Type} file fuel names l :
  ConvertV2ToScenarios (Regexp := Regexp) (IPNet := IPNet) fuel (Some file) names = Some (Ok l) →
  ∃ l0 fallback, l = l0 ++ fallback ∧ Forall2 converted_from (declared file 0 names) l0 ∧ Forall is_fallback fallback ∧
    (fallback = [] ↔ d_Use (f_Defaults file) = "" ∨ defaultScenarioName ∈ map Name l0).
Proof.
  cbn [ConvertV2ToScenarios]. unfold convertFile. set (checked := result_bind _ _). destruct checked; [|done].
  destruct (convertEntries file fuel 0 names) as [[l0|e]|] eqn:E; [|done|done]. cbn [mbind option_bind]. pose proof (convertEntries_ok file fuel 0 names l0 E) as H0.
  assert (Hex : existsb (λ s : Scenario, String.eqb (Name s) defaultScenarioName) l0 = true ↔ defaultScenarioName ∈ map Name l0).
  { rewrite existsb_exists, list_elem_of_fmap. split.
    - intros (s & Hs & Hn%String.eqb_eq). exists s. by rewrite list_elem_of_In.
    - intros (s & Hn & Hs). exists s. rewrite String.eqb_eq, <- list_elem_of_In. done. }
  destruct (String.eqb_spec (d_Use (f_Defaults file)) "") as [Hu|Hu]; cbn [negb andb].
  { intros [= <-]. exists l0, []. rewrite app_nil_r. split_and!; [done|done|constructor|]. split; [by left|done]. }
  destruct (existsb _ l0); cbn [negb].
  { intros [= <-]. exists l0, []. rewrite app_nil_r. split_and!; [done|done|constructor|]. split; [right; by apply Hex|done]. }
  destruct (buildDefaultsUseFallbackScenario file fuel) as [[f|e]|] eqn:Ef; [|done|done]. cbn. intros [= <-]. exists l0, [f].
  split_and!; [done|done|constructor; [by eapply fallback_ok|constructor]|]. split; [done|]. intros [?|H]; [done|]. by apply Hex in H.
Qed.

(** ** Fields by levels *)

Fixpoint first_string (levels : list string) : string :=
  match levels with [] => "" | s :: levels => if String.eqb s "" then first_string levels else s end.
Fixpoint first_num (levels : list Z) : Z :=
  match levels with [] => 0 | n :: levels => if n =? 0 then first_num levels else n end.
Fixpoint first_some {A} (levels : list (option A)) : option A :=
  match levels with [] => None | o :: levels => match o with Some a => Some a | None => first_some levels end end.

Lemma or_else_first a b : or_else a b = first_string [a; b].
Proof. unfold or_else. cbn. destruct (String.eqb a ""); [|done]. by destruct (String.eqb_spec b ""). Qed.
Lemma or_else_num_first a b : or_else_num a b = first_num [a; b].
Proof. unfold or_else_num. cbn. destruct (a =? 0); [|done]. by destruct (Z.eqb_spec b 0). Qed.
Lemma or_else_opt_first {A} (a b : option A) : or_else_opt a b = first_some [a; b].
Proof. by destruct a, b. Qed.
Lemma merge_lookup (base over : gmap string string) k : mergeHeaders base over !! k = first_some [over !! k; base !! k].
Proof. unfold mergeHeaders. rewrite lookup_union. by destruct (over !! k), (base !! k). Qed.

(** C21: every field of a response that is not weighted comes from the nearest level that
    sets it: the response itself, then the template it uses, then the defaults of the
    file (for headers and statuses), then 204 for the ICAP status. Headers are merged one
    by one; the delay is the nearest one, parsed. *)
Theorem fields_by_levels file fuel i base r :
  baseOf file i = Ok (inl base) → resolveResponse file (S fuel) i None = Some (Ok r) →
  let t := Response r in let d := f_Defaults file in
  WeightedResponses r = None ∧ rt_ResponseName t = effectiveUse file i ∧
  rt_ICAPStatus t = first_num [in_Status i; in_Status base; d_Status d; 204] ∧
  rt_HTTPStatus t = first_num [in_HTTPStatus i; in_HTTPStatus base; d_HTTPStatus d] ∧
  (∀ k, rt_Headers t !! k = first_some [in_Set i !! k; in_Set base !! k; d_Headers d !! k]) ∧
  (∀ k, rt_HTTPHeaders t !! k = first_some [in_HTTPSet i !! k; in_HTTPSet base !! k]) ∧
  rt_Body t = first_string [in_Body i; in_Body base] ∧ rt_BodyFile t = first_string [in_BodyFile i; in_BodyFile base] ∧
  rt_HTTPBody t = first_string [in_HTTPBody i; in_HTTPBody base] ∧ rt_HTTPBodyFile t = first_string [in_HTTPBodyFile i; in_HTTPBodyFile base] ∧
  rt_Error t = first_string [in_Error i; in_Error base] ∧
  rt_Stream t = first_some [in_Stream i; in_Stream base] ∧ rt_Block t = first_some [in_Block i; in_Block base] ∧
  match first_string [in_Delay i; in_Delay base] with
  | "" => rt_DelayRange t = None
  | s => ∃ dc, ParseDelay s = Ok dc ∧ rt_DelayRange t = Some dc
  end.
Proof.
  intros Hb. unfold resolveResponse. rewrite resolveSingle_eq, Hb. cbv zeta.
  destruct (inlineToTemplate _ _ _ _ _) as [t|] eqn:E; [|done]. cbn [result_map]. intros [= <-]. cbn [Response WeightedResponses].
  assert (Hn : ∀ a b c, first_num (a :: b :: c) = or_else_num (or_else_num a b) (first_num c)).
  { intros a b c. unfold or_else_num. cbn. destruct (Z.eqb_spec a 0) as [->|]; [by destruct (Z.eqb_spec b 0)|]. by destruct (Z.eqb_spec a 0). }
  unfold inlineToTemplate in E. cbn [mergeInline in_Set in_HTTPSet in_Stream in_Block in_Body in_BodyFile in_HTTPBody in_HTTPBodyFile in_Error in_Delay in_Status in_HTTPStatus] in E.
  assert (Hall : ∃ delay range, t = {| rt_Headers := mergeHeaders (d_Headers (f_Defaults file)) (mergeHeaders (in_Set base) (in_Set i));
      rt_HTTPHeaders := mergeHeaders (in_HTTPSet base) (in_HTTPSet i); rt_DelayRange := range; rt_Stream := or_else_opt (in_Stream i) (in_Stream base);
      rt_Block := or_else_opt (in_Block i) (in_Block base); rt_ResponseName := effectiveUse file i; rt_Use := ""; rt_Body := or_else (in_Body i) (in_Body base);
      rt_BodyFile := or_else (in_BodyFile i) (in_BodyFile base); rt_HTTPBody := or_else (in_HTTPBody i) (in_HTTPBody base);
      rt_HTTPBodyFile := or_else (in_HTTPBodyFile i) (in_HTTPBodyFile base); rt_Error := or_else (in_Error i) (in_Error base); rt_Status := 0;
      rt_ICAPStatus := or_else_num (or_else_num (or_else_num (in_Status i) (in_Status base)) (d_Status (f_Defaults file))) 204;
      rt_HTTPStatus := or_else_num (or_else_num (in_HTTPStatus i) (in_HTTPStatus base)) (d_HTTPStatus (f_Defaults file)); rt_Delay := delay |} ∧
      match or_else (in_Delay i) (in_Delay base) with "" => range = None | s => ∃ dc, ParseDelay s = Ok dc ∧ range = Some dc end).
  { destruct (String.eqb_spec (or_else (in_Delay i) (in_Delay base)) "") as [Ed|Ed]; [injection E as <-; do 2 eexists; split; [done|by rewrite Ed]|].
    destruct (ParseDelay _) as [dc|] eqn:Ep; [|done]. injection E as <-. do 2 eexists. split; [done|].
    destruct (or_else (in_Delay i) (in_Delay base)); [done|]. by exists dc. }
  destruct Hall as (delay & range & -> & Hdelay).
  assert (H3 : ∀ a b c, or_else_num (or_else_num a b) c = first_num [a; b; c]) by (intros a b c; rewrite Hn; f_equal; cbn; by destruct (Z.eqb_spec c 0)).
  assert (H4 : ∀ a b c d, or_else_num (or_else_num (or_else_num a b) c) d = first_num [a; b; c; d]).
  { intros a b c d. rewrite H3. unfold or_else_num. cbn. destruct (Z.eqb_spec a 0), (Z.eqb_spec b 0), (Z.eqb_spec c 0), (Z.eqb_spec d 0); subst; cbn; try done;
      rewrite ?(proj2 (Z.eqb_neq _ _)) by done; done. }
  assert (Hk : ∀ (a b c : gmap string string) k, mergeHeaders a (mergeHeaders b c) !! k = first_some [c !! k; b !! k; a !! k]).
  { intros a b c k. rewrite !merge_lookup. by destruct (c !! k), (b !! k). }
  split; [done|]. split; [done|]. split; [apply H4|]. split; [apply H3|]. split; [intros k; apply Hk|]. split; [intros k; apply merge_lookup|].
  do 5 (split; [apply or_else_first|]). do 2 (split; [apply or_else_opt_first|]). rewrite <- or_else_first. exact Hdelay.
Qed.

(** ** At concrete inputs *)

Definition with_fields (use body delay : string) (status httpStatus : Z) : InlineResponseV2 :=
  {| in_Set := ∅; in_HTTPSet := ∅; in_Stream := None; in_Block := None; in_Use := use; in_Body := body; in_BodyFile := ""; in_HTTPBody := "";
     in_HTTPBodyFile := ""; in_Error := ""; in_Delay := delay; in_Status := status; in_HTTPStatus := httpStatus |}.

Definition plain_entry (i : InlineResponseV2) (methods : list string) : ScenarioEntryV2 :=
  {| e_When := ∅; e_WhenHTTP := None; e_response := i; e_Responses := None; e_Routes := None; e_Method := methods; e_Endpoint := [];
     e_routesSet := false; e_methodSet := bool_decide (methods ≠ []); e_endpointSet := false; e_Branches := []; e_Priority := 0 |}.

Definition toy_defaults (use : string) (templates : gmap string ResponseTemplateV2) : ScenarioDefaultsV2 :=
  {| d_Headers := {["Server" := "mock"]}; d_ResponseTemplates := templates; d_Use := use;
     d_Routes := Some {[MethodREQMOD := ["/scan"]; MethodRESPMOD := ["/scan"; "/av"]]}; d_Method := []; d_Endpoint := []; d_routesSet := true;
     d_methodSet := false; d_endpointSet := false; d_Status := 0; d_HTTPStatus := 0 |}.

Definition toy_templates : gmap string ResponseTemplateV2 :=
  {[ "block" := {| t_Inline := Some (with_fields "" "denied" "" 200 403); t_Weighted := None |};
     "dice" := {| t_Inline := None; t_Weighted := Some [{| wv_response := with_fields "block" "" "" 0 0; wv_Weight := 40000 |};
                                                        {| wv_response := with_fields "" "ok" "5ms" 0 0; wv_Weight := 60000 |}] |} ]}.

Definition toy_file : ScenarioFileV2 :=
  {| f_Scenarios := {[ "a" := plain_entry (with_fields "dice" "" "" 0 0) []; "b" := plain_entry (with_fields "block" "no" "1s-2s" 0 0) [MethodRESPMOD] ]};
     f_Defaults := toy_defaults "block" toy_templates |}.

Definition toy_scenarios : list (Scenario (Regexp := unit) (IPNet := unit) (Response := Responses)) :=
  match ConvertV2ToScenarios 3 (Some toy_file) ["a"; "gone"; "b"] with Some (Ok l) => l | _ => [] end.

Example toy_converted :
  map (λ s, (Name s, Priority s, Methods (Match_ s), Paths (Match_ s))) toy_scenarios =
    [("a", 1000, [MethodREQMOD; MethodRESPMOD], ["/scan"; "/av"]); ("b", 998, [MethodRESPMOD], ["/scan"; "/av"]); ("default", -1, [], [])] ∧
  map (λ s, (rt_Body (Response (s_Response s)), rt_HTTPStatus (Response (s_Response s)))) toy_scenarios = [("", 0); ("no", 403); ("denied", 403)].
Proof. split; vm_compute; reflexivity. Qed.

Lemma file_converted_witness : Forall2 converted_from (declared toy_file 0 ["a"; "gone"; "b"]) (take 2 toy_scenarios).
Proof.
  destruct (file_converted toy_file 3 ["a"; "gone"; "b"] toy_scenarios) as (l0 & fb & E & H & _); [vm_compute; reflexivity|].
  assert (Hl : length l0 = 2%nat) by (rewrite <- (Forall2_length _ _ _ H); vm_compute; reflexivity).
  rewrite E, <- Hl, take_app_length. exact H.
Defined.

Lemma toy_well_founded : well_founded_templates toy_file (λ a, if String.eqb a "dice" then 1 else 0)%nat.
Proof.
  intros a w Hw Hl. assert (a = "dice") as ->.
  { unfold variantsOf in Hw. cbn [toy_file f_Defaults toy_defaults d_ResponseTemplates] in Hw. unfold toy_templates in Hw.
    destruct (decide (a = "block")) as [->|Hb]; [apply not_elem_of_nil in Hw; done|]. rewrite lookup_insert_ne in Hw by done.
    destruct (decide (a = "dice")) as [->|Hd]; [done|]. rewrite lookup_singleton_ne in Hw by done. by apply not_elem_of_nil in Hw. }
  change (variantsOf toy_file "dice") with [{| wv_response := with_fields "block" "" "" 0 0; wv_Weight := 40000 |};
    {| wv_response := with_fields "" "ok" "5ms" 0 0; wv_Weight := 60000 |}] in Hw.
  apply elem_of_cons in Hw as [->|Hw]; [done|]. apply elem_of_cons in Hw as [->|Hw]; [done|]. by apply not_elem_of_nil in Hw.
Qed.

Lemma conversion_ends_witness : is_Some (ConvertV2ToScenarios (Regexp := unit) (IPNet := unit) 3 (Some toy_file) ["a"; "b"]).
Proof.
  apply (conversion_ends toy_file (λ a, if String.eqb a "dice" then 1 else 0)%nat 2 ["a"; "b"] 3); [exact toy_well_founded| |lia].
  intros a. destruct (String.eqb a "dice"); lia.
Defined.

(** A file-wide fallback with a variant that says nothing but its weight. *)
Definition cyclic_file : ScenarioFileV2 :=
  {| f_Scenarios := {[ "a" := plain_entry (with_fields "" "" "" 0 0) [] ]};
     f_Defaults := toy_defaults "dice" {[ "dice" := {| t_Inline := None; t_Weighted := Some [{| wv_response := emptyInline; wv_Weight := 100000 |}] |} ]} |}.

Lemma weighted_cycle_diverges_witness : validateDefaultRoutes (f_Defaults cyclic_file) = Ok tt ∧
  ∀ fuel, ConvertV2ToScenarios (Regexp := unit) (IPNet := unit) fuel (Some cyclic_file) ["a"] = None.
Proof.
  split; [vm_compute; reflexivity|]. intros fuel.
  assert (H : resolveSingle cyclic_file fuel (with_fields "" "" "" 0 0) = None).
  { apply (weighted_cycle_diverges cyclic_file "dice" {| wv_response := emptyInline; wv_Weight := 100000 |} [] (with_fields "" "" "" 0 0) fuel);
      [discriminate|reflexivity|vm_compute; reflexivity|reflexivity|reflexivity|reflexivity|reflexivity]. }
  assert (E : convertEntry cyclic_file (Regexp := unit) (IPNet := unit) fuel 0 "a" (plain_entry (with_fields "" "" "" 0 0) []) = None).
  { unfold convertEntry. replace (resolveScenarioRouting _ _) with (@Ok ConvertError _ (routingFromRouteMap (default ∅ (d_Routes (f_Defaults cyclic_file)))))
      by (vm_compute; reflexivity).
    change (negb (bool_decide (e_Branches (plain_entry (with_fields "" "" "" 0 0) []) = []))) with false. cbn [andb].
    unfold resolveResponse. change (e_Responses (plain_entry (with_fields "" "" "" 0 0) [])) with (@None (list WeightedResponseV2)).
    change (e_response (plain_entry (with_fields "" "" "" 0 0) [])) with (with_fields "" "" "" 0 0). cbv iota. by rewrite H. }
  cbn [ConvertV2ToScenarios]. unfold convertFile. replace (result_bind _ _) with (@Ok ConvertError _ tt) by (vm_compute; reflexivity).
  cbn [convertEntries]. replace (f_Scenarios cyclic_file !! "a") with (Some (plain_entry (with_fields "" "" "" 0 0) [])) by (vm_compute; reflexivity).
  by rewrite E.
Defined.

Lemma routing_resolved_witness : ∃ r, resolveScenarioRouting (f_Defaults toy_file) (plain_entry emptyInline [MethodRESPMOD]) = Ok r ∧
  routing_ok (rs_routes r) (rs_methods r) (rs_endpoints r) ∧ rs_endpoints r = ["/scan"; "/av"].
Proof.
  eexists. split; [vm_compute; reflexivity|]. split; [|vm_compute; reflexivity].
  eapply (routing_resolved (f_Defaults toy_file) (plain_entry emptyInline [MethodRESPMOD])). vm_compute. reflexivity.
Defined.

Lemma fields_by_levels_witness : ∃ base r, resolveResponse toy_file 1 (with_fields "block" "no" "1s-2s" 0 0) None = Some (Ok r) ∧
  baseOf toy_file (with_fields "block" "no" "1s-2s" 0 0) = Ok (inl base) ∧ rt_ICAPStatus (Response r) = first_num [0; 200; 0; 204].
Proof.
  eexists (with_fields "" "denied" "" 200 403), _. split; [vm_compute; reflexivity|]. split; [vm_compute; reflexivity|].
  eapply (fields_by_levels toy_file 0 (with_fields "block" "no" "1s-2s" 0 0) (with_fields "" "denied" "" 200 403)); vm_compute; reflexivity.
Defined.

(** The 1003rd scenario of a file comes after the fallback, which matches everything. *)
Example late_scenario :
  (s ← convertEntry toy_file (Regexp := unit) (IPNet := unit) 3 1002 "late" (plain_entry (with_fields "block" "" "" 0 0) []);
   Some (result_map Priority s)) = Some (Ok (-2)) ∧
  (s ← buildDefaultsUseFallbackScenario toy_file (Regexp := unit) (IPNet := unit) 3; Some (result_map Priority s)) = Some (Ok (-1)).
Proof. split; vm_compute; reflexivity. Qed.

(** An HTTP body and headers beside branches are let pass and lost. *)
Definition body_beside_branches : ScenarioEntryV2 :=
  let i := {| in_Set := {["X" := "1"]}; in_HTTPSet := ∅; in_Stream := None; in_Block := None; in_Use := ""; in_Body := ""; in_BodyFile := "";
              in_HTTPBody := "page"; in_HTTPBodyFile := ""; in_Error := ""; in_Delay := ""; in_Status := 0; in_HTTPStatus := 0 |} in
  {| e_When := ∅; e_WhenHTTP := None; e_response := i; e_Responses := None; e_Routes := None; e_Method := []; e_Endpoint := [];
     e_routesSet := false; e_methodSet := false; e_endpointSet := false;
     e_Branches := [{| br_When := ∅; br_WhenHTTP := None; br_response := with_fields "block" "" "" 0 0; br_Responses := None |}]; e_Priority := 0 |}.

Example body_lost :
  match convertEntry toy_file (Regexp := unit) (IPNet := unit) 3 0 "x" body_beside_branches with
  | Some (Ok s) => map (λ b, rt_HTTPBody (Response (b_Response b))) (Branches s) = [""] ∧ rt_HTTPBody (Response (s_Response s)) = ""
  | _ => False
  end.
Proof. vm_compute. split; reflexivity. Qed.

(** A variant that uses a template does not get the delay of the level above. *)
Example delay_lost :
  (r ← resolveResponse toy_file 2 (with_fields "" "" "5s" 0 0) (Some [{| wv_response := with_fields "block" "" "" 0 0; wv_Weight := 0 |};
                                                                     {| wv_response := with_fields "" "ok" "" 0 0; wv_Weight := 0 |}]);
   Some (result_map (λ r, map (λ v, delay_Min (wr_Delay v)) (default [] (WeightedResponses r))) r)) = Some (Ok [0; 5000000000]).
Proof. vm_compute. reflexivity. Qed.
