(* ===== verification/ScenarioYaml.v ===== *)
(** * The shapes of scenario files: what [internal/storage] decodes itself

    The YAML library parses a text into nodes; how nodes become the fields of
    [ScenarioV2] and of the stream controls is the library's, except where a type has an
    [UnmarshalYAML] of its own - lists that may be written as one value, exact routes,
    header conditions, templates, durations and percentages - and for finding out
    whether a file is of this format and in which order its scenarios stand. *)
From S2P Require Import Prelude GoInt GoTime GoStrings Header Weight StreamPlan StreamSelect StreamSources Scenario Responses Compile ScenarioV2.

Local Open Scope Z_scope.
Local Open Scope go_scope.

(** A node of the YAML library; a mapping holds keys and values in turn. *)
Inductive Node :=
| ScalarNode (tag value : string)
| SequenceNode (content : list Node)
| MappingNode (content : list Node)
| AliasNode (target : Node)
| DocumentNode (content : list Node).

Definition node_value (n : Node) : string := match n with ScalarNode _ v => v | _ => "" end.

Definition strTag : string := "!!str".
Definition nullTag : string := "!!null".

Inductive ShapeError :=
| NotStringOrList | ItemNotString | RoutesNotMap | RouteMethodInvalid | RouteMethodDuplicate | RouteEndpointInvalid | RouteEndpointsEmpty | RouteEndpointShape
| HeaderListEmpty | HeaderItemInvalid | TemplateShape | NotScalar | DurationInvalid (e : DelayError) | PercentInvalid | PercentRange | PercentReversed.

(** ** Lists that may be one value *)

Fixpoint scalarItems (items : list Node) : result ShapeError (list string) :=
  match items with
  | [] => Ok []
  | ScalarNode _ v :: items => let! rest := scalarItems items in Ok (if String.eqb v "" then rest else v :: rest)
  | _ :: _ => Err ItemNotString
  end.

Definition stringList_UnmarshalYAML (n : Node) : result ShapeError (list string) :=
  match n with
  | ScalarNode _ v => Ok (if String.eqb v "" then [] else [v])
  | SequenceNode items => scalarItems items
  | _ => Err NotStringOrList
  end.

(** [None] leaves the field out. *)
Definition stringList_MarshalYAML (s : list string) : option Node :=
  match s with
  | [] => None
  | [v] => Some (ScalarNode strTag v)
  | _ => Some (SequenceNode (map (ScalarNode strTag) s))
  end.

(** ** Exact routes *)

Definition strictString (n : Node) : option string :=
  match n with
  | ScalarNode tag v => if String.eqb tag strTag && negb (String.eqb (trim_space v) "") then Some v else None
  | _ => None
  end.

Fixpoint strictItems (items : list Node) : result ShapeError (list string) :=
  match items with
  | [] => Ok []
  | n :: items => match strictString n with None => Err RouteEndpointInvalid | Some v => let! rest := strictItems items in Ok (v :: rest) end
  end.

Definition decodeStrictRouteEndpoints (n : Node) : result ShapeError (list string) :=
  match n with
  | ScalarNode _ _ => match strictString n with Some v => Ok [v] | None => Err RouteEndpointInvalid end
  | SequenceNode items => if bool_decide (items = []) then Err RouteEndpointsEmpty else strictItems items
  | _ => Err RouteEndpointShape
  end.

Fixpoint routePairs (content : list Node) (routes : RouteMap) : result ShapeError RouteMap :=
  match content with
  | methodNode :: endpointNode :: content =>
      match strictString methodNode with
      | None => Err RouteMethodInvalid
      | Some m =>
          guard! negb (bool_decide (is_Some (routes !! m))) else RouteMethodDuplicate in
          let! endpoints := decodeStrictRouteEndpoints endpointNode in
          routePairs content (<[m := endpoints]> routes)
      end
  | _ => Ok routes
  end.

Definition RouteMap_UnmarshalYAML (n : Node) : result ShapeError RouteMap :=
  match n with
  | MappingNode content => routePairs content ∅
  | _ => Err RoutesNotMap
  end.

(** ** Header conditions *)

Fixpoint headerItems (items : list Node) : result ShapeError (list string) :=
  match items with
  | [] => Ok []
  | n :: items => match strictString n with None => Err HeaderItemInvalid | Some v => let! rest := headerItems items in Ok (v :: rest) end
  end.

Definition decodeHeaderMatch (n : Node) : result ShapeError HeaderMatchValueV2 :=
  match n with
  | ScalarNode _ v => Ok {| hm_Scalar := v; hm_Contains := []; hm_IsList := false |}
  | SequenceNode items =>
      if bool_decide (items = []) then Err HeaderListEmpty
      else let! values := headerItems items in Ok {| hm_Scalar := ""; hm_Contains := values; hm_IsList := true |}
  | _ => Err NotStringOrList
  end.

Definition headerMatch_MarshalYAML (m : HeaderMatchValueV2) : Node :=
  if hm_IsList m then SequenceNode (map (ScalarNode strTag) (hm_Contains m)) else ScalarNode strTag (hm_Scalar m).

(** ** Keys *)

Fixpoint keyIn (key : string) (content : list Node) : bool :=
  match content with
  | k :: _ :: content => String.eqb (node_value k) key || keyIn key content
  | _ => false
  end.

(** [mappingContainsKey] *)
Definition mappingContainsKey (n : Node) (key : string) : bool := match n with MappingNode content => keyIn key content | _ => false end.

(** [yamlMappingHasKey] also follows aliases and merged mappings. A node is looked at
    once; going over it again would find nothing new. *)
Fixpoint yamlMappingHasKey (key : string) (n : Node) {struct n} : bool :=
  let fix pairs (content : list Node) : bool :=
    match content with
    | k :: v :: content =>
        String.eqb (node_value k) key
        || (String.eqb (node_value k) "<<" &&
            match v with
            | SequenceNode items => (fix any (items : list Node) : bool := match items with [] => false | i :: items => yamlMappingHasKey key i || any items end) items
            | v => yamlMappingHasKey key v
            end)
        || pairs content
    | _ => false
    end in
  match n with
  | AliasNode target => yamlMappingHasKey key target
  | MappingNode content => pairs content
  | _ => false
  end.

(** A field that is there and empty is kept apart from one that is not there. *)
Definition presentList {A} (n : Node) (key : string) (l : option (list A)) : option (list A) :=
  if mappingContainsKey n key && negb (bool_decide (is_Some l)) then Some [] else l.

Section Decode.
(** The library's decoding of the fields of an inline response and of a list of
    variants. *)
Context (decodeInline : Node → option InlineResponseV2) (decodeVariants : Node → option (list WeightedResponseV2)).

Definition WeightedList_UnmarshalYAML (n : Node) : option (list WeightedResponseV2) :=
  match n with
  | ScalarNode tag _ => if String.eqb tag nullTag then Some [] else decodeVariants n
  | _ => decodeVariants n
  end.

Definition ResponseTemplateV2_UnmarshalYAML (n : Node) : option ResponseTemplateV2 :=
  match n with
  | MappingNode _ => (λ i, {| t_Inline := Some i; t_Weighted := None |}) <$> decodeInline n
  | SequenceNode _ => (λ ws, {| t_Inline := None; t_Weighted := Some ws |}) <$> WeightedList_UnmarshalYAML n
  | _ => None
  end.
End Decode.

(** ** Controls of streams *)

Definition Duration_UnmarshalYAML (n : Node) : result ShapeError RangeSpec :=
  match n with
  | ScalarNode _ v => match ParseDelay v with Err e => Err (DurationInvalid e) | Ok dc => Ok {| Min := delay_Min dc; Max := delay_Max dc; IsSet := true |} end
  | _ => Err NotScalar
  end.

Definition parsePercentValue (raw : string) : result ShapeError Z :=
  match Atoi (trim_space (trim_suffix (trim_space raw) "%")) with Some v => Ok v | None => Err PercentInvalid end.

Definition validatePercentRange (lo hi : Z) : result ShapeError (Z * Z) :=
  if negb (validPercent lo) || negb (validPercent hi) then Err PercentRange
  else if hi <? lo then Err PercentReversed
  else Ok (lo, hi).

Definition parsePercentSpec (raw : string) : result ShapeError (Z * Z) :=
  match split_byte (trim_space raw) "-" with
  | [a] => let! v := parsePercentValue a in Ok (v, v)
  | [a; b] => let! lo := parsePercentValue a in let! hi := parsePercentValue b in validatePercentRange lo hi
  | _ => Err PercentInvalid
  end.

Definition Percent_UnmarshalYAML (n : Node) : result ShapeError RangeSpec :=
  match n with
  | ScalarNode _ v => let! r := parsePercentSpec v in Ok {| Min := r.1; Max := r.2; IsSet := true |}
  | _ => Err NotScalar
  end.

(** ** The format of a file *)

Fixpoint lookupKey (key : string) (content : list Node) : option Node :=
  match content with
  | k :: v :: content => if String.eqb (node_value k) key then Some v else lookupKey key content
  | _ => None
  end.

Fixpoint keysOf (content : list Node) : list string :=
  match content with
  | k :: _ :: content => node_value k :: keysOf content
  | _ => []
  end.

(** Only a mapping counts as defaults, and the first one that is does. *)
Fixpoint hasMappingKey (key : string) (content : list Node) : bool :=
  match content with
  | k :: v :: content => (String.eqb (node_value k) key && match v with MappingNode _ => true | _ => false end) || hasMappingKey key content
  | _ => false
  end.

(** Whether a file is of this format, and the names of its scenarios in order. *)
Definition detectV2Format (root : Node) : bool * list string :=
  match root with
  | DocumentNode (MappingNode content :: _) =>
      match lookupKey "scenarios" content with
      | Some (MappingNode scenarios) => (true, keysOf scenarios)
      | Some _ => (false, [])
      | None => (hasMappingKey "defaults" content, [])
      end
  | _ => (false, [])
  end.

(** ** Round trips *)

Lemma pairs_ind {A} (P : list A → Prop) : P [] → (∀ k, P [k]) → (∀ k v l, P l → P (k :: v :: l)) → ∀ l, P l.
Proof. intros H0 H1 H2. fix IH 1. intros [|k [|v l]]; [exact H0|apply H1|apply H2, IH]. Qed.

Lemma scalarItems_strings tag vs : Forall (λ v, v ≠ "") vs → scalarItems (map (ScalarNode tag) vs) = Ok vs.
Proof. induction 1 as [|v vs Hv _ IH]; [done|]. cbn. rewrite IH. cbn. by destruct (String.eqb_spec v ""). Qed.

Lemma strictItems_strings vs : Forall (λ v, trim_space v ≠ "") vs → headerItems (map (ScalarNode strTag) vs) = Ok vs.
Proof. induction 1 as [|v vs Hv _ IH]; [done|]. cbn. destruct (String.eqb_spec (trim_space v) ""); [done|]. cbn. by rewrite IH. Qed.

(** What a list or a header condition must be to be written down: no empty members, and a
    list of conditions not empty. *)
Definition header_match_ok (m : HeaderMatchValueV2) : Prop :=
  if hm_IsList m then hm_Scalar m = "" ∧ hm_Contains m ≠ [] ∧ Forall (λ v, trim_space v ≠ "") (hm_Contains m) else hm_Contains m = [].

(** Lists of methods and endpoints, and header conditions, are read back as they are
    written, one value as one value and a list as a list; a condition that was read is
    one that can be written; and the empty list, which is not written, is what a missing
    field means. *)
Theorem shapes_roundtrip (s : list string) (m : HeaderMatchValueV2) (n : Node) :
  (Forall (λ v, v ≠ "") s → from_option stringList_UnmarshalYAML (Ok []) (stringList_MarshalYAML s) = Ok s) ∧
  (header_match_ok m → decodeHeaderMatch (headerMatch_MarshalYAML m) = Ok m) ∧
  (∀ m', decodeHeaderMatch n = Ok m' → header_match_ok m') ∧
  (∀ s', stringList_UnmarshalYAML n = Ok s' → Forall (λ v, v ≠ "") s').
Proof.
  split_and!.
  - intros Hs. destruct s as [|v [|w s]]; [done| |].
    + apply Forall_cons in Hs as [Hv _]. cbn. by destruct (String.eqb_spec v "").
    + cbn [stringList_MarshalYAML from_option stringList_UnmarshalYAML]. by apply scalarItems_strings.
  - unfold header_match_ok, headerMatch_MarshalYAML. destruct m as [sc cs il]. destruct il; cbn [hm_IsList hm_Scalar hm_Contains].
    + intros (-> & Hne & Hf). cbn [decodeHeaderMatch]. rewrite bool_decide_false by (by destruct cs). by rewrite strictItems_strings.
    + by intros ->.
  - intros m'. unfold header_match_ok. destruct n as [tag v|items|c|t|c]; cbn; try done; [by intros [= <-]|]. case_bool_decide as Hne; [done|].
    destruct (headerItems items) as [vs|] eqn:E; [|done]. cbn. intros [= <-]. cbn. split; [done|].
    assert (Hf : Forall (λ v, trim_space v ≠ "") vs ∧ length vs = length items).
    { clear Hne. revert vs E. induction items as [|i items IH]; intros vs; cbn; [by intros [= <-]|]. destruct (strictString i) as [v|] eqn:Ei; [|done].
      destruct (headerItems items) as [rest|]; [|done]. cbn. intros [= <-]. destruct (IH rest eq_refl) as [Hf Hl]. split; [|cbn; by rewrite Hl].
      constructor; [|done]. unfold strictString in Ei. destruct i; try done. destruct (_ && _) eqn:Eb; [|done]. injection Ei as ->.
      apply andb_true_iff in Eb as [_ Eb]. apply negb_true_iff, String.eqb_neq in Eb. done. }
    destruct Hf as [Hf Hl]. split; [|done]. intros ->. by destruct items.
  - intros s'. destruct n as [tag v|items|c|t|c]; cbn; try done.
    + intros [= <-]. destruct (String.eqb_spec v ""); [constructor|by repeat constructor].
    + revert s'. induction items as [|i items IH]; intros s'; cbn; [intros [= <-]; constructor|]. destruct i as [tag v| | | |]; try done.
      destruct (scalarItems items) as [rest|]; [|done]. cbn. intros [= <-]. specialize (IH rest eq_refl). destruct (String.eqb_spec v ""); [done|by constructor].
Qed.

Lemma shapes_roundtrip_witness :
  from_option stringList_UnmarshalYAML (Ok []) (stringList_MarshalYAML ["/a"; "/b"]) = Ok ["/a"; "/b"] ∧
  decodeHeaderMatch (headerMatch_MarshalYAML {| hm_Scalar := ""; hm_Contains := ["x"]; hm_IsList := true |}) = Ok {| hm_Scalar := ""; hm_Contains := ["x"]; hm_IsList := true |}.
Proof.
  destruct (shapes_roundtrip ["/a"; "/b"] {| hm_Scalar := ""; hm_Contains := ["x"]; hm_IsList := true |} (ScalarNode strTag "x")) as (H1 & H2 & _).
  split; [apply H1; by repeat constructor|apply H2]. split_and!; [done|done|]. repeat constructor. discriminate.
Defined.

(** Exact routes that are read have a list of endpoints for each method, none of them
    blank, and pass the check of routes unless a method is unknown or an endpoint is
    written twice. *)
Theorem routes_decoded n routes : RouteMap_UnmarshalYAML n = Ok routes →
  map_Forall (λ _ es, es ≠ [] ∧ Forall (λ e, trim_space e ≠ "") es) routes ∧
  (routes ≠ ∅ → map_Forall (λ m es, (m = MethodREQMOD ∨ m = MethodRESPMOD) ∧ NoDup es) routes → validateRouteMap routes = true).
Proof.
  intros H. assert (H1 : map_Forall (λ _ es, es ≠ [] ∧ Forall (λ e, trim_space e ≠ "") es) routes).
  { destruct n as [| |content| |]; try done. cbn in H. revert H.
    assert (H0 : map_Forall (λ _ es, es ≠ [] ∧ Forall (λ e, trim_space e ≠ "") es) (∅ : RouteMap)) by apply map_Forall_empty. revert H0.
    generalize (∅ : RouteMap) as acc. induction content as [|k|k v content IH] using pairs_ind; intros acc H0; cbn [routePairs]; [by intros [= <-]|by intros [= <-]|].
    destruct (strictString k) as [m|]; [|done]. destruct (negb _); [|done]. destruct (decodeStrictRouteEndpoints v) as [es|] eqn:Ev; [|done]. cbn [result_bind].
    apply IH. apply map_Forall_insert_2; [|done]. clear -Ev.
    assert (Hs : ∀ i e, strictString i = Some e → trim_space e ≠ "").
    { intros i e. unfold strictString. destruct i; try done. destruct (_ && _) eqn:Eb; [|done]. intros [= ->].
      apply andb_true_iff in Eb as [_ Eb]. by apply negb_true_iff, String.eqb_neq in Eb. }
    assert (Hi : ∀ items es, strictItems items = Ok es → Forall (λ e, trim_space e ≠ "") es ∧ length es = length items).
    { induction items as [|i items IH]; intros es'; cbn; [by intros [= <-]|]. destruct (strictString i) as [e|] eqn:Ei; [|done].
      destruct (strictItems items) as [rest|]; [|done]. cbn. intros [= <-]. destruct (IH rest eq_refl) as [? Hl]. split; [by constructor; [eapply Hs|]|cbn; by rewrite Hl]. }
    destruct v as [tag s|items| | |]; try done; cbn [decodeStrictRouteEndpoints] in Ev.
    - destruct (strictString (ScalarNode tag s)) as [e|] eqn:Ee; [|done]. injection Ev as <-. split; [done|]. constructor; [by eapply Hs|constructor].
    - case_bool_decide as Hne; [done|]. destruct (Hi items es Ev) as [Hf Hl]. split; [|done]. intros ->. by destruct items. }
  split; [exact H1|]. intros Hne H2. unfold validateRouteMap. apply andb_true_iff. split; [by apply negb_true_iff, bool_decide_eq_false|].
  apply forallb_forall. intros [m es] Hin. apply list_elem_of_In, elem_of_map_to_list in Hin. destruct (H1 m es Hin) as [Hes Hf]. destruct (H2 m es Hin) as [Hm Hnd].
  cbn. apply andb_true_iff. split; [apply orb_true_iff; destruct Hm as [->| ->]; [left|right]; by apply String.eqb_eq|].
  unfold endpoints_valid. rewrite !andb_true_iff. split_and!; [by apply negb_true_iff, bool_decide_eq_false| |by apply bool_decide_eq_true].
  apply forallb_forall. intros e He. apply negb_true_iff, String.eqb_neq. rewrite Forall_forall in Hf. apply Hf. by apply list_elem_of_In.
Qed.

Definition yaml_str (s : string) : Node := ScalarNode strTag s.
Definition toy_routes : Node := MappingNode [yaml_str MethodREQMOD; yaml_str "/scan"; yaml_str MethodRESPMOD; SequenceNode [yaml_str "/scan"; yaml_str "/av"]].

Lemma routes_decoded_witness :
  validateRouteMap (<[MethodRESPMOD := ["/scan"; "/av"]]> (<[MethodREQMOD := ["/scan"]]> ∅)) = true.
Proof.
  refine (proj2 (routes_decoded toy_routes _ _) _ _); [vm_compute; reflexivity|discriminate|].
  intros m es [[<- <-]|[_ [[<- <-]|[_ H]]%lookup_insert_Some]]%lookup_insert_Some.
  - split; [by right|]. apply (bool_decide_unpack _). vm_compute. exact I.
  - split; [by left|]. apply (bool_decide_unpack _). vm_compute. exact I.
  - by rewrite lookup_empty in H.
Defined.

Example percents : map parsePercentSpec ["5%-80%"; " 50 % "; "150"; "80-5"; "1-2-3"; "-5"] =
  [Ok (5, 80); Ok (50, 50); Ok (150, 150); Err PercentReversed; Err PercentInvalid; Err PercentInvalid].
Proof. vm_compute. reflexivity. Qed.

(** A file with only defaults is of this format; a list of scenarios is of the older
    one. *)
Example formats :
  map detectV2Format [DocumentNode [MappingNode [yaml_str "defaults"; MappingNode []]];
                      DocumentNode [MappingNode [yaml_str "scenarios"; SequenceNode []; yaml_str "defaults"; MappingNode []]];
                      DocumentNode [MappingNode [yaml_str "scenarios"; MappingNode [yaml_str "b"; MappingNode []; yaml_str "a"; MappingNode []]]]] =
  [(true, []); (false, []); (true, ["b"; "a"])].
Proof. vm_compute. reflexivity. Qed.

(** A merged mapping holds the key. *)
Example merged_key : let n := MappingNode [yaml_str "<<"; SequenceNode [AliasNode (MappingNode [yaml_str "parts"; yaml_str ""])]] in
  (yamlMappingHasKey "parts" n, mappingContainsKey n "parts") = (true, false).
Proof. reflexivity. Qed.
