(* ===== verification/Sharded.v ===== *)
(** * The sharded registry: [internal/storage/sharded_scenario.go]

    Scenarios are spread over shards by the hash of their path and indexed there
    by method and path; those without one literal path are kept aside and tried
    for every request. A match is looked up in a cache, then in the shard of the
    request's path, then in all shards, and compared with the best of the
    scenarios kept aside. Pointers to scenarios are an address with the object,
    which no operation changes once it is indexed. The cache is the abstract list
    that [MatchCache] implements; the counters of the metrics are left out. *)
From S2P Require Import Prelude GoInt GoStrings Header Chunked Message Scenario Regexp Compile MatchCache.

Local Open Scope Z_scope.

Definition DefaultShardCount : Z := 16.
Definition DefaultCacheSize : Z := 1000.
Definition MaxCacheSize : Z := 10000.
Definition MinShardCount : Z := 1.
Definition MaxShardCount : Z := 256.

Record ShardingConfig := { ShardCount : Z; CacheSize : Z; EnableCache : bool }.

Definition DefaultShardingConfig : ShardingConfig :=
  {| ShardCount := DefaultShardCount; CacheSize := DefaultCacheSize; EnableCache := true |}.

(** The limits that [newShardedScenarioRegistryWithConfig] puts on a configuration. *)
Definition normalizeConfig (c : ShardingConfig) : ShardingConfig :=
  let shards := if ShardCount c <? MinShardCount then DefaultShardCount else ShardCount c in
  let shards := if MaxShardCount <? shards then MaxShardCount else shards in
  let size := if CacheSize c <=? 0 then DefaultCacheSize else CacheSize c in
  let size := if MaxCacheSize <? size then MaxCacheSize else size in
  {| ShardCount := shards; CacheSize := size; EnableCache := EnableCache c |}.

(** ** Keys *)

(** FNV-1a at 32 bits, modulo the number of shards. *)
Definition fnv1a (s : string) : Z :=
  foldl (λ h c, (Z.lxor h (Z.of_nat (nat_of_ascii c)) * 16777619) mod 2 ^ 32) 2166136261 (bytes_of s).

Definition hashString (shardCount : Z) (s : string) : nat := Z.to_nat (fnv1a s mod shardCount).

Definition shardLookupPath (uri : string) : string :=
  let path := extractPath uri in
  match index_any path (bytes_of "?#") with Some i => str_take i path | None => path end.

(** Up to the first character that is special in patterns, without a leading [^]. *)
Definition extractPathPrefix (pattern : string) : string :=
  let prefix := match pattern with String c rest => if Ascii.eqb c "^" then rest else pattern | "" => "" end in
  match index_any prefix (bytes_of "*?[(+$.") with Some i => str_take i prefix | None => prefix end.

(** Keeps the first of equal strings. *)
Fixpoint first_seen (seen : list string) (l : list string) : list string :=
  match l with
  | [] => []
  | s :: l => if bool_decide (s ∈ seen) then first_seen seen l else s :: first_seen (s :: seen) l
  end.

(** The prefixes of a path before its slashes, the longest first. *)
Fixpoint slash_prefixes (n : nat) (path : string) : list string :=
  match n with
  | O => []
  | S n =>
      match n, str_drop n path with
      | S _, String c _ => if Ascii.eqb c "/" then str_take n path :: slash_prefixes n path else slash_prefixes n path
      | _, _ => slash_prefixes n path
      end
  end.

Definition search_keys (method path : string) : list string :=
  let method := if String.eqb method "" then "*" else method in
  [method +:+ ":" +:+ path; method +:+ ":*"; "*:" +:+ path; "*:*"]
  ++ map (λ prefix, method +:+ ":" +:+ prefix) (slash_prefixes (String.length path) path).

Section Sharded.
Context {Regexp : Type}.
Context (FindStringSubmatch : Regexp → string → option (list string)).
Context (SubexpNames : Regexp → list string).
Context (ParseMediaType : string → option (string * gmap string string)).
Context {IP IPNet : Type} (ParseIP : string → option IP) (Contains : IPNet → IP → bool).
Context {Response : Type}.
Context {R : Type} `{Reader R} (grow : nat → nat → nat) (fuel : nat) (sizes : nat → nat).

Notation Scenario' := (Scenario (Regexp := Regexp) (IPNet := IPNet) (Response := Response)).
Notation Request' := (Request (R := R)).

(** A pointer to a scenario. *)
Record Ptr := { addr : nat; obj : Scenario' }.

Record ScenarioShard := { index : gmap string (list Ptr); shard_scenarios : list Ptr }.

Record Registry := {
  shards : list ScenarioShard;
  globalScenarios : list Ptr;
  cacheDisabledForComplexMatch : bool;
  cache : option (list (Entry (V := Ptr)));
  generation : Z;
  config : ShardingConfig;
  bodyPattern : BodyPatternOptions
}.

(** ** Placing a scenario *)

Definition route_pairs (s : Scenario') : list (string * string) :=
  flat_map (λ m, map (λ path, (m, path)) (default [] (Routes (Match_ s) !! m)))
           (orderedRouteMethods (Routes (Match_ s))).

Definition pattern_path (path : string) : bool :=
  String.eqb path "" || has_prefix path "re:" || contains_str path "{".

(** Adds each new key to the shard of its path. *)
Fixpoint shard_entries (shardCount : Z) (pairs : list (string * string)) (seen : list string)
    (entries : gmap nat (list string)) : gmap nat (list string) :=
  match pairs with
  | [] => entries
  | (m, path) :: pairs =>
      let key := m +:+ ":" +:+ path in
      if bool_decide (key ∈ seen) then shard_entries shardCount pairs seen entries
      else
        let i := hashString shardCount path in
        shard_entries shardCount pairs (key :: seen) (<[i := default [] (entries !! i) ++ [key]]> entries)
  end.

Definition exactRouteShardEntries (shardCount : Z) (s : Scenario') : option (gmap nat (list string)) :=
  if bool_decide (Routes (Match_ s) = ∅) then None
  else if existsb (λ mp, pattern_path mp.2) (route_pairs s) then None
  else Some (shard_entries shardCount (route_pairs s) [] ∅).

Definition shardSafePath (s : Scenario') : option string :=
  match Paths (Match_ s) with
  | [path] =>
      if String.eqb path "" || has_prefix path "re:" then None
      else if contains_any path (bytes_of "{}") then None
      else Some path
  | _ => None
  end.

Definition scenarioRequiresGlobalPriorityCheck (s : Scenario') : bool :=
  negb (bool_decide (is_Some (shardSafePath s))).

Definition getShardForScenario (shardCount : Z) (s : Scenario') : nat :=
  match shardSafePath s with
  | Some path => hashString shardCount path
  | None =>
      match Paths (Match_ s) with
      | path :: _ => hashString shardCount path
      | [] => if negb (String.eqb (Path (Match_ s)) "") then hashString shardCount (Path (Match_ s))
              else hashString shardCount (Name s)
      end
  end.

Definition or_any (prefix : string) : string := if String.eqb prefix "" then "*" else prefix.

Definition buildIndexKeys (s : Scenario') : list string :=
  let prefixes :=
    match Paths (Match_ s) with
    | [] => if negb (String.eqb (Path (Match_ s)) "") then [or_any (extractPathPrefix (Path (Match_ s)))] else ["*"]
    | paths => map (λ p, or_any (extractPathPrefix p)) paths
    end in
  let methods := match Methods (Match_ s) with [] => ["*"] | ms => ms end in
  first_seen [] (flat_map (λ pre, map (λ m, m +:+ ":" +:+ pre) methods) prefixes).

Definition add_keys (p : Ptr) (keys : list string) (shard : ScenarioShard) : ScenarioShard :=
  {| index := foldl (λ idx k, <[k := default [] (idx !! k) ++ [p]]> idx) (index shard) keys;
     shard_scenarios := shard_scenarios shard ++ [p] |}.

Definition with_contents (ss : list ScenarioShard) (global : list Ptr) (r : Registry) : Registry :=
  {| shards := ss; globalScenarios := global; cacheDisabledForComplexMatch := cacheDisabledForComplexMatch r;
     cache := cache r; generation := generation r; config := config r; bodyPattern := bodyPattern r |}.

Definition indexScenario (p : Ptr) (r : Registry) : Registry :=
  match exactRouteShardEntries (ShardCount (config r)) (obj p) with
  | Some entries =>
      with_contents (imap (λ i shard, match entries !! i with Some keys => add_keys p keys shard | None => shard end)
                          (shards r)) (globalScenarios r) r
  | None =>
      if scenarioRequiresGlobalPriorityCheck (obj p) then with_contents (shards r) (globalScenarios r ++ [p]) r
      else with_contents (alter (add_keys p (buildIndexKeys (obj p)))
                                (getShardForScenario (ShardCount (config r)) (obj p)) (shards r))
                         (globalScenarios r) r
  end.

(** ** Which scenarios rule out the cache *)

Definition hasDynamicMatchRule (s : Scenario') : bool :=
  negb (bool_decide (Headers (Match_ s) = ∅)) || negb (bool_decide (HeaderContains (Match_ s) = ∅))
  || negb (bool_decide (HTTPHeaders (Match_ s) = ∅)) || negb (bool_decide (HTTPHeaderContains (Match_ s) = ∅))
  || negb (String.eqb (ClientIP (Match_ s)) "") || negb (bool_decide (CIDRRanges (Match_ s) = []))
  || negb (String.eqb (BodyPattern (Match_ s)) "").

Definition hasEndpointCaptures (paths : list (compiledEndpoint (Regexp := Regexp))) : bool :=
  existsb (λ p, negb (bool_decide (captures p = []))) paths.

Definition scenarioDisablesMatchCache (s : Scenario') : bool :=
  hasDynamicMatchRule s || hasEndpointCaptures (compiledPaths s) || negb (bool_decide (Branches s = [])).

Definition scenariosDisableMatchCache (l : list Ptr) : bool := existsb (λ p, scenarioDisablesMatchCache (obj p)) l.

(** ** The registry's content *)

(** Keeps the first scenario named "default" and the first pointer to each. *)
Fixpoint unique (seen : list nat) (defaultSeen : bool) (l : list Ptr) : list Ptr :=
  match l with
  | [] => []
  | p :: l =>
      if String.eqb (Name (obj p)) defaultScenarioName && defaultSeen then unique seen defaultSeen l
      else
        let defaultSeen := defaultSeen || String.eqb (Name (obj p)) defaultScenarioName in
        if bool_decide (addr p ∈ seen) then unique seen defaultSeen l
        else p :: unique (addr p :: seen) defaultSeen l
  end.

Definition uniqueScenarioPointers (l : list Ptr) : list Ptr := unique [] false l.

Definition all_pointers (r : Registry) : list Ptr :=
  concat (map shard_scenarios (shards r)) ++ globalScenarios r.

(** [List], sorted by priority. *)
Fixpoint insert_ptr (p : Ptr) (l : list Ptr) : list Ptr :=
  match l with
  | [] => [p]
  | x :: l => if scenarioOutranks (obj x) (obj p) then x :: insert_ptr p l else p :: x :: l
  end.
Definition List (r : Registry) : list Ptr := foldr insert_ptr [] (uniqueScenarioPointers (all_pointers r)).

Definition scenarioOrderForAdd (scenarios : list Scenario') (name : string) : Z :=
  match List.find (λ s, String.eqb (Name s) name) scenarios with
  | Some s => order s
  | None => nextScenarioOrder scenarios
  end.

Definition not_named (name : string) (l : list Ptr) : list Ptr :=
  List.filter (λ p, negb (String.eqb (Name (obj p)) name)) l.

(** The keys whose last scenario goes are deleted. *)
Definition remove_from_shard (name : string) (shard : ScenarioShard) : ScenarioShard :=
  {| index := omap (λ l, match not_named name l with [] => None | l => Some l end) (index shard);
     shard_scenarios := not_named name (shard_scenarios shard) |}.

Fixpoint remove_first (name : string) (l : list Ptr) : list Ptr :=
  match l with
  | [] => []
  | p :: l => if String.eqb (Name (obj p)) name then l else p :: remove_first name l
  end.

Definition has_named (name : string) (r : Registry) : bool :=
  existsb (λ p, String.eqb (Name (obj p)) name) (all_pointers r)
  || existsb (λ shard, existsb (λ kl, existsb (λ p, String.eqb (Name (obj p)) name) kl.2) (map_to_list (index shard)))
             (shards r).

(** [remove]: [None] is [ErrNoMatch], which leaves the registry as it was. *)
Definition remove (name : string) (r : Registry) : option Registry :=
  if negb (has_named name r) then None
  else
    let ss := map (remove_from_shard name) (shards r) in
    let global := remove_first name (globalScenarios r) in
    Some {| shards := ss; globalScenarios := global;
            cacheDisabledForComplexMatch := existsb (λ shard, scenariosDisableMatchCache (shard_scenarios shard)) ss
                                            || scenariosDisableMatchCache global;
            cache := (λ _, []) <$> cache r; generation := generation r; config := config r;
            bodyPattern := bodyPattern r |}.

Definition finish_mutation (disabled : bool) (r : Registry) : Registry :=
  {| shards := shards r; globalScenarios := globalScenarios r; cacheDisabledForComplexMatch := disabled;
     cache := (λ _, []) <$> cache r; generation := generation r + 2; config := config r; bodyPattern := bodyPattern r |}.

(** [Load], with the list the file gives, and [Add] of a validated scenario. *)
Definition Load (scenarios : list Ptr) (r : Registry) : Registry :=
  let empty := with_contents (map (λ _, {| index := ∅; shard_scenarios := [] |}) (shards r)) [] r in
  finish_mutation (scenariosDisableMatchCache scenarios) (foldl (λ r p, indexScenario p r) empty scenarios).

Definition Add (p : Ptr) (r : Registry) : Registry :=
  let n := scenarioOrderForAdd (map obj (List r)) (Name (obj p)) in
  let p := {| addr := addr p; obj := with_order n (obj p) |} in
  let r := default r (remove (Name (obj p)) r) in
  let r := indexScenario p r in
  finish_mutation (cacheDisabledForComplexMatch r || scenarioDisablesMatchCache (obj p)) r.

(** The error, if any, and the registry. *)
Definition Remove (name : string) (r : Registry) : bool * Registry :=
  match remove name r with
  | Some r => (true, finish_mutation (cacheDisabledForComplexMatch r) r)
  | None => (false, {| shards := shards r; globalScenarios := globalScenarios r;
                       cacheDisabledForComplexMatch := cacheDisabledForComplexMatch r; cache := cache r;
                       generation := generation r + 2; config := config r; bodyPattern := bodyPattern r |})
  end.

(** A new registry: every shard holds a default scenario, indexed nowhere. *)
Definition newShardedScenarioRegistryWithConfig (DefaultScenario : Scenario') (c : ShardingConfig) (o : BodyPatternOptions)
  : Registry :=
  let c := normalizeConfig c in
  {| shards := imap (λ i _, {| index := ∅; shard_scenarios := [{| addr := i; obj := DefaultScenario |}] |})
                    (replicate (Z.to_nat (ShardCount c)) tt);
     globalScenarios := []; cacheDisabledForComplexMatch := false;
     cache := if EnableCache c then Some [] else None; generation := 0; config := c; bodyPattern := normalized o |}.

(** [replaceValidated] and [Reload] with the scenarios the file now holds, as
    pointers; [None] when the endpoints of exact routes would change. *)
Definition replaceValidated (next r : Registry) : Registry :=
  finish_mutation (cacheDisabledForComplexMatch next) (with_contents (shards next) (globalScenarios next) r).

Definition Reload (DefaultScenario : Scenario') (scenarios : list Ptr) (r : Registry) : option Registry :=
  let next := Load scenarios (newShardedScenarioRegistryWithConfig DefaultScenario (config r) (bodyPattern r)) in
  if ValidateExactRouteTopology (map obj (List r)) (map obj (List next)) then Some (replaceValidated next r) else None.

(** ** Matching *)

Notation "'do' x ← m ; k" := (mbind' m (λ x, k)) (at level 200, x name, m at level 100, k at level 200).
Notation "'run' m ; k" := (mbind' m (λ _, k)) (at level 200, m at level 100, k at level 200).
Notation matches := (matchesScenario FindStringSubmatch SubexpNames ParseMediaType ParseIP Contains grow fuel sizes).
Notation MM := (MM (R := R)).

Definition better (s : Ptr) (best : option Ptr) : bool :=
  match best with None => true | Some b => scenarioOutranks (obj s) (obj b) end.

(** One candidate of a search for the best. *)
Definition try_candidate (o : BodyPatternOptions) (s : Ptr) (best : option Ptr) : MM (option Ptr) :=
  run ctxAlive;
  do matched ← matches (obj s) o;
  mret (if matched && better s best then Some s else best).

Fixpoint best_of (o : BodyPatternOptions) (candidates : list Ptr) (best : option Ptr) : MM (option Ptr) :=
  match candidates with
  | [] => mret best
  | s :: candidates => do best ← try_candidate o s best; best_of o candidates best
  end.

Definition shard_candidates (shard : ScenarioShard) (q : Request') : list Ptr :=
  uniqueScenarioPointers
    (flat_map (λ key, default [] (index shard !! key)) (search_keys (q_Method q) (shardLookupPath (q_URI q)))).

Definition matchInShard (r : Registry) (shard : ScenarioShard) : MM (option Ptr) :=
  do q ← get_req; best_of (bodyPattern r) (shard_candidates shard q) None.

(** The state of [fallbackMatch]: addresses seen, a default seen, the best. *)
Fixpoint fallback_shard (o : BodyPatternOptions) (l : list Ptr) (seen : list nat) (defaultSeen : bool)
    (best : option Ptr) : MM (list nat * bool * option Ptr) :=
  match l with
  | [] => mret (seen, defaultSeen, best)
  | p :: l =>
      if String.eqb (Name (obj p)) defaultScenarioName && defaultSeen then fallback_shard o l seen defaultSeen best
      else
        let defaultSeen := defaultSeen || String.eqb (Name (obj p)) defaultScenarioName in
        if bool_decide (addr p ∈ seen) then fallback_shard o l seen defaultSeen best
        else do best ← try_candidate o p best; fallback_shard o l (addr p :: seen) defaultSeen best
  end.

Fixpoint fallback_shards (o : BodyPatternOptions) (ss : list ScenarioShard) (seen : list nat) (defaultSeen : bool)
    (best : option Ptr) : MM (option Ptr) :=
  match ss with
  | [] => mret best
  | shard :: ss =>
      run ctxAlive;
      do st ← fallback_shard o (shard_scenarios shard) seen defaultSeen best;
      fallback_shards o ss st.1.1 st.1.2 st.2
  end.

Definition fallbackMatch (r : Registry) : MM (option Ptr) :=
  fallback_shards (bodyPattern r) (shards r) [] false None.

Definition getShardForRequest (r : Registry) (q : Request') : nat :=
  hashString (ShardCount (config r)) (shardLookupPath (q_URI q)).

(** An index out of range cannot happen: the hash is below the shard count. *)
Definition matchShardedAndFallback (r : Registry) : MM (option Ptr) :=
  do q ← get_req;
  match shards r !! getShardForRequest r q with
  | None => mret None
  | Some shard =>
      do found ← matchInShard r shard;
      match found with Some s => mret (Some s) | None => fallbackMatch r end
  end.

Definition matchGlobalPriorityCandidates (r : Registry) : MM (option Ptr) :=
  best_of (bodyPattern r) (globalScenarios r) None.

Definition applyGlobalPriorityCandidate (r : Registry) (current : option Ptr) : MM (option Ptr) :=
  do global ← matchGlobalPriorityCandidates r;
  mret (match global with
        | None => current
        | Some g => match current with
                    | None => Some g
                    | Some c => if scenarioOutranks (obj g) (obj c) then Some g else Some c
                    end
        end).

Definition content_type (q : Request') : string :=
  let of_response := m ← q_HTTPResponse q; Get (msg_Header m) "Content-Type" in
  let ct := default "" of_response in
  if String.eqb ct "" then
    default "" (m ← q_HTTPRequest q; Get (msg_Header m) "Content-Type")
  else ct.

Definition buildCacheKey (q : Request') : string :=
  let httpMethod := match q_HTTPRequest q with Some m => msg_Method m | None => "" end in
  let httpURI := match q_HTTPRequest q with Some m => msg_URI m | None => "" end in
  q_Method q +:+ "|" +:+ q_URI q +:+ "|" +:+ httpMethod +:+ "|" +:+ httpURI +:+ "|" +:+ content_type q.

Definition with_cache (c : option (list (Entry (V := Ptr)))) (r : Registry) : Registry :=
  {| shards := shards r; globalScenarios := globalScenarios r;
     cacheDisabledForComplexMatch := cacheDisabledForComplexMatch r; cache := c; generation := generation r;
     config := config r; bodyPattern := bodyPattern r |}.

(** The cache when it is used. *)
Definition matchCache (r : Registry) : option (list (Entry (V := Ptr))) :=
  if cacheDisabledForComplexMatch r then None else cache r.

(** [Match], with no mutation of the registry at the same time: [None] is the
    default scenario, which the code makes afresh. *)
Definition Match (r : Registry) (st : MatchState) : result MatchError (option Ptr) * MatchState * Registry :=
  match ctxAlive st with
  | (Err e, st) => (Err e, st, r)
  | (Ok _, st) =>
      let key := buildCacheKey (st_req st) in
      let looked_up := match matchCache r with
                       | None => (None, r)
                       | Some c => let got := abs_get key (generation r) c in (got.1, with_cache (Some got.2) r)
                       end in
      let r := looked_up.2 in
      match looked_up.1 with
      | Some p =>
          match ctxAlive st with
          | (Err e, st) => (Err e, st, r)
          | (Ok _, st) => (Ok (Some p), st, r)
          end
      | None =>
          match (do current ← matchShardedAndFallback r; applyGlobalPriorityCandidate r current) st with
          | (Err e, st) => (Err e, st, r)
          | (Ok None, st) => (Ok None, st, r)
          | (Ok (Some p), st) =>
              match ctxAlive st with
              | (Err e, st) => (Err e, st, r)
              | (Ok _, st) =>
                  let r := match matchCache r with
                           | None => r
                           | Some c => with_cache (Some (abs_put (Z.to_nat (CacheSize (config r)))
                                         (buildCacheKey (st_req st)) p (generation r) c)) r
                           end in
                  (Ok (Some p), st, r)
              end
          end
      end
  end.

(** ** Searching for the best candidate *)

Notation cond o s q :=
  (conditions FindStringSubmatch SubexpNames ParseMediaType ParseIP Contains grow fuel sizes (obj s) o q).
Notation same_view := (same_view grow fuel sizes).
Notation branch_chosen := (branch_chosen FindStringSubmatch ParseMediaType).

Definition pick (o : BodyPatternOptions) (q : Request') (best : option Ptr) (s : Ptr) : option Ptr :=
  match cond o s q with Ok true => if better s best then Some s else best | _ => best end.

(** No condition of these scenarios ends in an error. *)
Definition no_errors (o : BodyPatternOptions) (q : Request') (l : list Ptr) : Prop :=
  Forall (λ s, is_ok (cond o s q) = true) l.

(** A best of a list: it matches, and none that matches outranks it. *)
Definition best_among (o : BodyPatternOptions) (q : Request') (l : list Ptr) (best : option Ptr) : Prop :=
  match best with
  | None => ∀ s, s ∈ l → cond o s q ≠ Ok true
  | Some p => p ∈ l ∧ cond o p q = Ok true ∧
              ∀ s, s ∈ l → cond o s q = Ok true → scenarioOutranks (obj s) (obj p) = false
  end.

Lemma try_candidate_spec o s best q :
  ∃ q', try_candidate o s best (state_of q) =
          (match cond o s q with Ok _ => Ok (pick o q best s) | Err e => Err e end, state_of q') ∧
        same_view o q q' ∧ (cond o s q = Ok true → branch_chosen (obj s) q q').
Proof using.
  unfold try_candidate, pick, mbind' at 1, ctxAlive. cbn [st_ctx state_of]. unfold mbind', mret.
  destruct (matchesScenario_spec FindStringSubmatch SubexpNames ParseMediaType ParseIP Contains grow fuel sizes
    (obj s) o q) as (q' & Hm & Hv & _ & Hb).
  exists q'. rewrite Hm. split_and!; [|done|done]. by destruct (cond o s q) as [[]|].
Qed.

Lemma cond_view o q q' s : same_view o q q' → cond o s q' = cond o s q.
Proof using. intros Hv. by apply conditions_view. Qed.

Lemma pick_view o q q' best s : same_view o q q' → pick o q' best s = pick o q best s.
Proof using. intros Hv. unfold pick. by rewrite (cond_view o q q' s Hv). Qed.

Lemma foldl_pick_view o q q' l best : same_view o q q' → foldl (pick o q') best l = foldl (pick o q) best l.
Proof using. intros Hv. revert best. induction l as [|s l IH]; intros best; [done|]. simpl. by rewrite IH, (pick_view o q q'). Qed.

Lemma no_errors_view o q q' l : same_view o q q' → no_errors o q l → no_errors o q' l.
Proof using.
  intros Hv Hl. eapply Forall_impl; [exact Hl|]. intros s Hs. cbn beta in *. by rewrite (cond_view o q q' s Hv).
Qed.

Lemma best_of_spec o l best q :
  no_errors o q l →
  ∃ q', best_of o l best (state_of q) = (Ok (foldl (pick o q) best l), state_of q') ∧ same_view o q q'.
Proof using.
  revert best q. induction l as [|s l IH]; intros best q Hl.
  { exists q. split; [done|apply same_view_refl]. }
  apply Forall_cons in Hl as [Hs Hl]. cbn [best_of foldl]. unfold mbind'.
  destruct (try_candidate_spec o s best q) as (q1 & -> & Hv & Hb).
  destruct (cond o s q) as [b|] eqn:Ec; [|done].
  destruct (IH (pick o q best s) q1 (no_errors_view _ _ _ _ Hv Hl)) as (q' & -> & Hv').
  exists q'. split; [by rewrite (foldl_pick_view o q q1)|by eapply same_view_trans].
Qed.

Lemma best_of_snoc o l d best st :
  best_of o (l ++ [d]) best st = (do best ← best_of o l best; try_candidate o d best) st.
Proof using.
  revert best st. induction l as [|s l IH]; intros best st; cbn [app best_of]; unfold mbind', mret in *.
  - by destruct (try_candidate o d best st) as [[|] ?].
  - destruct (try_candidate o s best st) as [[b|] st1]; [apply IH|done].
Qed.

(** The last candidate, when it matches, decides the branch in the request. *)
Lemma best_of_last_branch o l d best q :
  no_errors o q (l ++ [d]) → cond o d q = Ok true →
  ∃ q', (best_of o (l ++ [d]) best (state_of q)).2 = state_of q' ∧ branch_chosen (obj d) q q'.
Proof using.
  intros Hl Hd. apply Forall_app in Hl as [Hl _]. rewrite best_of_snoc. unfold mbind'.
  destruct (best_of_spec o l best q Hl) as (q1 & -> & Hv).
  destruct (try_candidate_spec o d (foldl (pick o q) best l) q1) as (q' & -> & _ & Hb).
  exists q'. split; [done|]. eapply branch_chosen_view; [exact Hv|]. apply Hb. by rewrite (cond_view o q q1).
Qed.

(** *** The choice of the best *)

Lemma outranks_chain (a b c : Scenario') :
  scenarioOutranks a b = true → scenarioOutranks b c = true → scenarioOutranks a c = true.
Proof using. apply outranks_trans. Qed.

Lemma outranks_self (a : Scenario') : scenarioOutranks a a = false.
Proof using. destruct (scenarioOutranks a a) eqn:E; [|done]. by apply outranks_irrefl in E. Qed.

Lemma best_among_snoc o q l s best :
  best_among o q l best → is_ok (cond o s q) = true → best_among o q (l ++ [s]) (pick o q best s).
Proof using.
  intros Hb Hok. unfold pick. destruct (cond o s q) as [[]|] eqn:Ec; [| |done].
  - destruct best as [p|]; simpl.
    + destruct Hb as (Hp & Hcp & Hall). destruct (scenarioOutranks (obj s) (obj p)) eqn:Er.
      * split_and!; [set_solver|done|]. intros x Hx Hcx. apply elem_of_app in Hx as [Hx|Hx].
        -- destruct (scenarioOutranks (obj x) (obj s)) eqn:E; [|done].
           rewrite <- (Hall x Hx Hcx). symmetry. by apply outranks_chain with (obj s).
        -- apply list_elem_of_singleton in Hx as ->. apply outranks_self.
      * split_and!; [set_solver|done|]. intros x Hx Hcx. apply elem_of_app in Hx as [Hx|Hx]; [by apply Hall|].
        by apply list_elem_of_singleton in Hx as ->.
    + split_and!; [set_solver|done|]. intros x Hx Hcx. apply elem_of_app in Hx as [Hx|Hx]; [by apply Hb in Hcx|].
      apply list_elem_of_singleton in Hx as ->. apply outranks_self.
  - destruct best as [p|].
    + destruct Hb as (Hp & Hcp & Hall). split_and!; [set_solver|done|]. intros x Hx Hcx.
      apply elem_of_app in Hx as [Hx|Hx]; [by apply Hall|]. apply list_elem_of_singleton in Hx as ->. congruence.
    + intros x Hx. apply elem_of_app in Hx as [Hx|Hx]; [by apply Hb|].
      apply list_elem_of_singleton in Hx as ->. congruence.
Qed.

Lemma foldl_pick_best o q l : no_errors o q l → best_among o q l (foldl (pick o q) None l).
Proof using.
  induction l as [|s l IH] using rev_ind; intros Hl; [intros s Hs; by apply elem_of_nil in Hs|].
  apply Forall_app in Hl as [Hl Hs]. apply Forall_cons in Hs as [Hs _]. rewrite foldl_app. simpl.
  apply best_among_snoc; [|exact Hs]. apply IH. exact Hl.
Qed.

Lemma best_among_ext o q l l' best : (∀ s, s ∈ l ↔ s ∈ l') → best_among o q l best → best_among o q l' best.
Proof using. intros He. destruct best; simpl; setoid_rewrite <- He; done. Qed.

(** The better of the bests of two lists. *)
Lemma best_among_app o q l l' b b' :
  best_among o q l b → best_among o q l' b' →
  best_among o q (l ++ l')
    (match b' with
     | None => b
     | Some g => match b with
                 | None => Some g
                 | Some c => if scenarioOutranks (obj g) (obj c) then Some g else Some c
                 end
     end).
Proof using.
  destruct b as [c|], b' as [g|]; simpl.
  - intros (Hc & Hcc & Hca) (Hg & Hcg & Hga). destruct (scenarioOutranks (obj g) (obj c)) eqn:E.
    + split_and!; [set_solver|done|]. intros x Hx Hcx. apply elem_of_app in Hx as [Hx|Hx]; [|by apply Hga].
      destruct (scenarioOutranks (obj x) (obj g)) eqn:Ex; [|done].
      rewrite <- (Hca x Hx Hcx). symmetry. by apply outranks_chain with (obj g).
    + split_and!; [set_solver|done|]. intros x Hx Hcx. apply elem_of_app in Hx as [Hx|Hx]; [by apply Hca|].
      destruct (scenarioOutranks (obj x) (obj c)) eqn:Ex; [|done]. specialize (Hga x Hx Hcx).
      revert E Ex Hga. unfold scenarioOutranks. clear.
      destruct (Z.eqb_spec (Priority (obj g)) (Priority (obj c))), (Z.eqb_spec (Priority (obj x)) (Priority (obj c))),
        (Z.eqb_spec (Priority (obj x)) (Priority (obj g))); simpl; rewrite ?Z.ltb_lt, ?Z.ltb_ge; lia.
  - intros (Hc & Hcc & Hca) Hn. split_and!; [set_solver|done|]. intros x Hx Hcx.
    apply elem_of_app in Hx as [Hx|Hx]; [by apply Hca|by apply Hn in Hcx].
  - intros Hn (Hg & Hcg & Hga). split_and!; [set_solver|done|]. intros x Hx Hcx.
    apply elem_of_app in Hx as [Hx|Hx]; [by apply Hn in Hcx|by apply Hga].
  - intros H1 H2 x Hx. apply elem_of_app in Hx as [Hx|Hx]; [by apply H1|by apply H2].
Qed.

(** *** Pointers without repetition *)

(** What [unique] has seen after a list. *)
Fixpoint seen_after (seen : list nat) (defaultSeen : bool) (l : list Ptr) : list nat * bool :=
  match l with
  | [] => (seen, defaultSeen)
  | p :: l =>
      if String.eqb (Name (obj p)) defaultScenarioName && defaultSeen then seen_after seen defaultSeen l
      else
        let defaultSeen := defaultSeen || String.eqb (Name (obj p)) defaultScenarioName in
        if bool_decide (addr p ∈ seen) then seen_after seen defaultSeen l
        else seen_after (addr p :: seen) defaultSeen l
  end.

Lemma unique_app seen d l1 l2 :
  unique seen d (l1 ++ l2) = unique seen d l1 ++ unique (seen_after seen d l1).1 (seen_after seen d l1).2 l2.
Proof using.
  revert seen d. induction l1 as [|p l1 IH]; intros seen d; [done|]. cbn [app unique seen_after].
  destruct (_ && d); [apply IH|]. cbv zeta. case_bool_decide; [apply IH|]. cbn [app]. by rewrite IH.
Qed.

Lemma unique_incl seen d l p : p ∈ unique seen d l → p ∈ l.
Proof using.
  revert seen d. induction l as [|x l IH]; intros seen d; cbn [unique]; [done|].
  destruct (_ && d); [intros ?; right; by eapply IH|]. cbv zeta.
  case_bool_decide; [intros ?; right; by eapply IH|].
  intros [->|Hp]%elem_of_cons; [by left|right; by eapply IH].
Qed.

(** Distinct scenarios have distinct addresses, and one at most is the default. *)
Definition distinct (l : list Ptr) : Prop :=
  (∀ p p', p ∈ l → p' ∈ l → addr p = addr p' → p = p') ∧
  (∀ p p', p ∈ l → p' ∈ l → Name (obj p) = defaultScenarioName → Name (obj p') = defaultScenarioName → p = p').

Lemma distinct_incl l l' : (∀ p, p ∈ l' → p ∈ l) → distinct l → distinct l'.
Proof using. intros Hi [H1 H2]. split; intros p p' Hp Hp'; [apply H1|apply H2]; auto. Qed.

Lemma unique_cons seen d x l :
  let isDefault := String.eqb (Name (obj x)) defaultScenarioName in
  unique seen d (x :: l) =
  if isDefault && d || bool_decide (addr x ∈ seen) then unique seen (d || isDefault) l
  else x :: unique (addr x :: seen) (d || isDefault) l.
Proof using.
  cbn [unique]. destruct (String.eqb _ _), d; cbn [andb orb]; done.
Qed.

(** Whatever was in front, a pointer is kept or was already there. *)
Lemma unique_complete seen d (prefix l : list Ptr) p :
  distinct (prefix ++ l) → p ∈ l →
  (∀ a, a ∈ seen → ∃ x, x ∈ prefix ∧ addr x = a) →
  (d = true → ∃ x, x ∈ prefix ∧ Name (obj x) = defaultScenarioName) →
  p ∈ unique seen d l ∨ p ∈ prefix.
Proof using.
  clear grow fuel sizes.
  revert seen d prefix. induction l as [|x l IH]; intros seen d prefix Hd Hp Hseen Hdef; [by apply elem_of_nil in Hp|].
  rewrite unique_cons. cbv zeta.
  assert (Hmove : distinct ((prefix ++ [x]) ++ l)).
  { eapply distinct_incl; [|exact Hd]. intros y. by rewrite <- app_assoc. }
  assert (Hdef' : d || String.eqb (Name (obj x)) defaultScenarioName = true →
    ∃ y, y ∈ prefix ++ [x] ∧ Name (obj y) = defaultScenarioName).
  { intros E. apply orb_true_iff in E as [E|E]; [|apply String.eqb_eq in E; exists x; set_solver].
    destruct (Hdef E) as (y & Hy & Hn). exists y. set_solver. }
  assert (Hprefix : ∀ y, y ∈ prefix ++ [x] → y ∈ prefix ∨ y = x).
  { intros y Hy. apply elem_of_app in Hy as [?|?%list_elem_of_singleton]; auto. }
  destruct (String.eqb (Name (obj x)) defaultScenarioName && d || bool_decide (addr x ∈ seen)) eqn:Es.
  - assert (Hx : x ∈ prefix).
    { apply orb_true_iff in Es as [Es|Es].
      - apply andb_true_iff in Es as [En Ed]. apply String.eqb_eq in En. destruct (Hdef Ed) as (y & Hy & Hyn).
        rewrite ((proj2 Hd) x y); [done|set_solver..|done|done].
      - apply bool_decide_eq_true in Es. destruct (Hseen _ Es) as (y & Hy & Hya).
        rewrite ((proj1 Hd) x y); [done|set_solver..|done]. }
    apply elem_of_cons in Hp as [->|Hp]; [by right|].
    destruct (IH seen (d || String.eqb (Name (obj x)) defaultScenarioName) (prefix ++ [x]) Hmove Hp) as [?|Hin].
    + intros a Ha. destruct (Hseen a Ha) as (y & Hy & Hya). exists y. set_solver.
    + exact Hdef'.
    + by left.
    + right. by destruct (Hprefix _ Hin) as [?| ->].
  - apply elem_of_cons in Hp as [->|Hp]; [left; left|].
    destruct (IH (addr x :: seen) (d || String.eqb (Name (obj x)) defaultScenarioName) (prefix ++ [x]) Hmove Hp) as [?|Hin].
    + intros a Ha. apply elem_of_cons in Ha as [->|Ha]; [exists x; set_solver|].
      destruct (Hseen a Ha) as (y & Hy & Hya). exists y. set_solver.
    + exact Hdef'.
    + left. by right.
    + destruct (Hprefix _ Hin) as [?| ->]; [by right|left; left].
Qed.

Lemma unique_elem l p : distinct l → p ∈ uniqueScenarioPointers l ↔ p ∈ l.
Proof using.
  clear grow fuel sizes. intros Hd. split; [apply unique_incl|]. intros Hp.
  destruct (unique_complete [] false [] l p Hd Hp) as [?|Hn]; [|done|done|by apply elem_of_nil in Hn].
  intros a Ha. by apply elem_of_nil in Ha.
Qed.

(** *** The search over all shards *)

Lemma fallback_shard_spec o l seen d best q :
  no_errors o q (unique seen d l) →
  ∃ q', fallback_shard o l seen d best (state_of q) =
    (Ok ((seen_after seen d l).1, (seen_after seen d l).2, foldl (pick o q) best (unique seen d l)), state_of q') ∧
    same_view o q q'.
Proof using.
  revert seen d best q. induction l as [|p l IH]; intros seen d best q; cbn [fallback_shard unique seen_after].
  { exists q. split; [done|apply same_view_refl]. }
  destruct (_ && d); [apply IH|]. cbv zeta. case_bool_decide; [apply IH|]. intros Hl.
  apply Forall_cons in Hl as [Hp Hl]. unfold mbind'.
  destruct (try_candidate_spec o p best q) as (q1 & -> & Hv & _). destruct (cond o p q) as [b|]; [|done].
  destruct (IH (addr p :: seen) (d || String.eqb (Name (obj p)) defaultScenarioName) (pick o q best p) q1)
    as (q' & -> & Hv'); [by eapply no_errors_view|].
  exists q'. split; [|by eapply same_view_trans]. cbn [foldl]. by rewrite (foldl_pick_view o q q1).
Qed.

Lemma fallback_shards_spec o ss seen d best q :
  no_errors o q (unique seen d (concat (map shard_scenarios ss))) →
  ∃ q', fallback_shards o ss seen d best (state_of q) =
    (Ok (foldl (pick o q) best (unique seen d (concat (map shard_scenarios ss)))), state_of q') ∧ same_view o q q'.
Proof using.
  revert seen d best q. induction ss as [|shard ss IH]; intros seen d best q; cbn [fallback_shards map concat].
  { exists q. split; [done|apply same_view_refl]. }
  rewrite unique_app. intros Hl. apply Forall_app in Hl as [Hl1 Hl2].
  unfold mbind' at 1, ctxAlive. cbn [st_ctx state_of]. unfold mbind'.
  destruct (fallback_shard_spec o (shard_scenarios shard) seen d best q Hl1) as (q1 & -> & Hv). cbn [fst snd].
  destruct (IH (seen_after seen d (shard_scenarios shard)).1 (seen_after seen d (shard_scenarios shard)).2
    (foldl (pick o q) best (unique seen d (shard_scenarios shard))) q1) as (q' & -> & Hv'); [by eapply no_errors_view|].
  exists q'. split; [|by eapply same_view_trans]. by rewrite foldl_app, (foldl_pick_view o q q1).
Qed.

Lemma no_errors_incl o q l l' : (∀ s, s ∈ l → s ∈ l') → no_errors o q l' → no_errors o q l.
Proof using. unfold no_errors. rewrite !Forall_forall. intros Hi Hl s Hs. apply Hl. by apply Hi. Qed.

Lemma shard_in_all r i shard p :
  shards r !! i = Some shard → p ∈ shard_scenarios shard → p ∈ all_pointers r.
Proof using.
  intros Hi Hp. unfold all_pointers. apply elem_of_app. left. apply list_elem_of_In, in_concat.
  exists (shard_scenarios shard). split; [|by apply list_elem_of_In]. apply in_map, list_elem_of_In.
  by apply list_elem_of_lookup_2 with i.
Qed.

(** The best scenario as far as those of [P] go: a scenario that matches, and no matching
    scenario of [P] is before it; none at all when none matches. *)
Definition best_within (P : Ptr → Prop) (o : BodyPatternOptions) (q : Request') (l : list Ptr) (best : option Ptr) : Prop :=
  match best with
  | Some p => p ∈ l ∧ cond o p q = Ok true ∧
              ∀ p', p' ∈ l → P p' → cond o p' q = Ok true → scenarioOutranks (obj p') (obj p) = false
  | None => ∀ p', p' ∈ l → cond o p' q ≠ Ok true
  end.

Lemma best_among_within P o q l best : best_among o q l best → best_within P o q l best.
Proof using. destruct best; simpl; naive_solver. Qed.

Lemma best_within_among (P : Ptr → Prop) o q l best : (∀ p, p ∈ l → P p) → best_within P o q l best → best_among o q l best.
Proof using. intros HP. destruct best; simpl; naive_solver. Qed.

Lemma best_within_incl (P : Ptr → Prop) o q l l' p :
  (∀ s, s ∈ l → s ∈ l') → (∀ s, s ∈ l' → P s → cond o s q = Ok true → s ∈ l) →
  best_among o q l (Some p) → best_within P o q l' (Some p).
Proof using. intros H1 H2 (Hp & Hc & Hall). split_and!; [by apply H1|done|]. intros s Hs HP Hcs. apply Hall; [by apply H2|done]. Qed.

(** The shard and the scenarios kept aside have every scenario of [P] that matches. *)
Definition search_complete (P : Ptr → Prop) (r : Registry) (shard : ScenarioShard) (q : Request') : Prop :=
  (∀ key p, p ∈ default [] (index shard !! key) → p ∈ shard_scenarios shard) ∧
  (∀ p, p ∈ all_pointers r → P p → cond (bodyPattern r) p q = Ok true →
     p ∈ globalScenarios r ∨
     ∃ key, key ∈ search_keys (q_Method q) (shardLookupPath (q_URI q)) ∧ p ∈ default [] (index shard !! key)).

Lemma search_best P r shard q :
  shards r !! getShardForRequest r q = Some shard →
  distinct (all_pointers r) → no_errors (bodyPattern r) q (all_pointers r) → search_complete P r shard q →
  ∃ best q', (do current ← matchShardedAndFallback r; applyGlobalPriorityCandidate r current) (state_of q) =
             (Ok best, state_of q') ∧ same_view (bodyPattern r) q q' ∧
             best_within P (bodyPattern r) q (all_pointers r) best ∧
             ∃ q1, same_view (bodyPattern r) q q1 ∧
                   (best_of (bodyPattern r) (globalScenarios r) None (state_of q1)).2 = state_of q'.
Proof using.
  intros Hshard Hd Hok [Hidx Hcomp]. set (o := bodyPattern r) in *.
  set (cands := shard_candidates shard q).
  set (raw := flat_map (λ key, default [] (index shard !! key)) (search_keys (q_Method q) (shardLookupPath (q_URI q)))).
  assert (Hraw : ∀ p, p ∈ raw ↔
    ∃ key, key ∈ search_keys (q_Method q) (shardLookupPath (q_URI q)) ∧ p ∈ default [] (index shard !! key)).
  { intros p. unfold raw. rewrite list_elem_of_In, in_flat_map. setoid_rewrite <- list_elem_of_In. done. }
  assert (Hrawall : ∀ p, p ∈ raw → p ∈ all_pointers r).
  { intros p Hp. apply Hraw in Hp as (key & _ & Hp). eapply shard_in_all; [exact Hshard|by eapply Hidx]. }
  assert (Hcands : ∀ p, p ∈ cands ↔ p ∈ raw).
  { intros p. apply unique_elem. by eapply distinct_incl. }
  assert (Hcok : no_errors o q cands).
  { eapply no_errors_incl; [|exact Hok]. intros p Hp. by apply Hrawall, Hcands. }
  assert (Hgok : no_errors o q (globalScenarios r)).
  { eapply no_errors_incl; [|exact Hok]. intros p Hp. apply elem_of_app. by right. }
  destruct (best_of_spec o cands None q Hcok) as (q1 & E1 & Hv1).
  pose proof (foldl_pick_best o q cands Hcok) as Hb1.
  unfold matchShardedAndFallback, mbind' at 1, get_req. unfold mbind' at 1. cbn [st_req state_of]. rewrite Hshard.
  unfold matchInShard, get_req. unfold mbind' at 1. unfold mbind' at 1. cbn [st_req state_of]. fold cands o. rewrite E1.
  destruct (foldl (pick o q) None cands) as [c|] eqn:Ec.
  - unfold applyGlobalPriorityCandidate, matchGlobalPriorityCandidates, mbind', mret. fold o.
    destruct (best_of_spec o (globalScenarios r) None q1 (no_errors_view _ _ _ _ Hv1 Hgok)) as (q2 & E2 & Hv2).
    rewrite E2, (foldl_pick_view o q q1 _ _ Hv1). eexists _, q2. split; [done|]. split; [by eapply same_view_trans|].
    split; [|exists q1; by rewrite E2].
    pose proof (foldl_pick_best o q (globalScenarios r) Hgok) as Hb2.
    pose proof (best_among_app _ _ _ _ _ _ Hb1 Hb2) as Hb. clear Hb1 Hb2 E2.
    assert (Hin : ∀ p, p ∈ cands ++ globalScenarios r → p ∈ all_pointers r).
    { intros p Hp. apply elem_of_app in Hp as [Hp|Hp]; [by apply Hrawall, Hcands|apply elem_of_app; by right]. }
    assert (Hall : ∀ p, p ∈ all_pointers r → P p → cond o p q = Ok true → p ∈ cands ++ globalScenarios r).
    { intros p Hp HP Hcp. apply elem_of_app. destruct (Hcomp p Hp HP Hcp) as [?|Hk]; [by right|left]. by apply Hcands, Hraw. }
    destruct (foldl (pick o q) None (globalScenarios r)) as [g|]; [destruct (scenarioOutranks (obj g) (obj c))|];
      by eapply best_within_incl.
  - unfold fallbackMatch, applyGlobalPriorityCandidate, matchGlobalPriorityCandidates, mbind'. fold o.
    set (all := concat (map shard_scenarios (shards r))).
    assert (Hdall : distinct all).
    { eapply distinct_incl; [|exact Hd]. intros p Hp. apply elem_of_app. by left. }
    assert (Haok : no_errors o q (unique [] false all)).
    { eapply no_errors_incl; [|exact Hok]. intros p Hp. apply elem_of_app. left. by eapply unique_incl. }
    destruct (fallback_shards_spec o (shards r) [] false None q1) as (q2 & E2 & Hv2);
      [by eapply no_errors_view|]. fold all in E2. rewrite (foldl_pick_view o q q1 _ _ Hv1) in E2.
    rewrite E2. assert (Hv12 : same_view o q q2) by (by eapply same_view_trans).
    destruct (best_of_spec o (globalScenarios r) None q2 (no_errors_view _ _ _ _ Hv12 Hgok)) as (q3 & E3 & Hv3).
    rewrite E3, (foldl_pick_view o q q2 _ _ Hv12). eexists _, q3. split; [done|]. split; [by eapply same_view_trans|].
    split; [|exists q2; by rewrite E3].
    apply best_among_within, best_among_app; [|by apply foldl_pick_best].
    eapply best_among_ext; [|by apply foldl_pick_best]. intros p. by apply unique_elem.
Qed.

(** ** A scenario is indexed where requests for it are looked up *)

Lemma cut_at_cons x c s : cut_at x (String c s) = if bool_decide (c = x) then "" else String c (cut_at x s).
Proof using.
  unfold cut_at. cbn [index_byte]. case_bool_decide; [done|]. by destruct (index_byte s x).
Qed.

Lemma shardLookupPath_strip uri : shardLookupPath uri = strip_query (extractPath uri).
Proof using.
  unfold shardLookupPath, strip_query. generalize (extractPath uri) as s.
  induction s as [|c s IH]; [done|]. rewrite cut_at_cons. cbn [index_any].
  destruct (decide (c = Ascii.ascii_of_nat 63)) as [->|Hq]; [done|].
  rewrite (bool_decide_false (c = Ascii.ascii_of_nat 63)) by done. rewrite cut_at_cons.
  destruct (decide (c = Ascii.ascii_of_nat 35)) as [->|Hh]; [done|].
  rewrite (bool_decide_false (c = Ascii.ascii_of_nat 35)) by done. rewrite bool_decide_false.
  - rewrite <- IH. by destruct (index_any s (bytes_of "?#")).
  - cbn [bytes_of]. rewrite !elem_of_cons, elem_of_nil. intros [?|[?|[]]]; done.
Qed.

Context (Compile : string → option Regexp) {Hlaws : RegexpLaws FindStringSubmatch SubexpNames Compile}.

(** What compilation has established for a scenario: its routes and endpoints
    are compiled as declared, the endpoints of routes are among its endpoints,
    and none asks for U+FFFD, which is also matched by bytes that are no character. *)
Record sound_scenario (s : Scenario') : Prop := {
  sound_routes : compileRoutes FindStringSubmatch Compile (Routes (Match_ s)) = Ok (compiledRoutes s);
  sound_paths : Paths (Match_ s) ≠ [] → mapM (compileEndpoint Compile) (Paths (Match_ s)) = Some (compiledPaths s);
  sound_union : ∀ m path, (m, path) ∈ route_pairs s → path ∈ Paths (Match_ s);
  sound_plain : ∀ raw, raw ∈ Paths (Match_ s) → plain raw = true
}.

(** The path of a scenario without exact routes is its own index prefix: it has
    no character that is special in patterns. *)
Definition indexable (shardCount : Z) (s : Scenario') : Prop :=
  ∀ path, exactRouteShardEntries shardCount s = None → shardSafePath s = Some path → extractPathPrefix path = path.

Definition placed (r : Registry) (p : Ptr) : Prop :=
  match exactRouteShardEntries (ShardCount (config r)) (obj p) with
  | Some entries => ∀ i keys, entries !! i = Some keys →
      ∃ shard, shards r !! i = Some shard ∧ p ∈ shard_scenarios shard ∧
               ∀ k, k ∈ keys → p ∈ default [] (index shard !! k)
  | None =>
      if scenarioRequiresGlobalPriorityCheck (obj p) then p ∈ globalScenarios r
      else ∃ shard, shards r !! getShardForScenario (ShardCount (config r)) (obj p) = Some shard ∧
           p ∈ shard_scenarios shard ∧
           ∀ k, k ∈ buildIndexKeys (obj p) → p ∈ default [] (index shard !! k)
  end.

Notation matchEndpoint := (matchEndpoint FindStringSubmatch SubexpNames).

(** A declared literal endpoint that answers is the request's path. *)
Lemma literal_answers raw ce uri :
  plain raw = true →
  pattern_path raw = false → compileEndpoint Compile raw = Some ce →
  is_Some (matchEndpoint [ce] (extractPath uri)) → shardLookupPath uri = raw.
Proof using Hlaws.
  intros Hplain Hp Hc Hm. unfold pattern_path in Hp. apply orb_false_iff in Hp as [Hp Hlit].
  apply orb_false_iff in Hp as [Hne Hre]. apply String.eqb_neq in Hne.
  rewrite contains_str_byte in Hlit. apply bool_decide_eq_false in Hlit.
  rewrite shardLookupPath_strip. apply (endpoint_literal FindStringSubmatch SubexpNames Compile raw ce); [by left|done..].
Qed.

Lemma route_pairs_elem s m path :
  (m, path) ∈ route_pairs s ↔
  (m = MethodREQMOD ∨ m = MethodRESPMOD) ∧ ∃ eps, Routes (Match_ s) !! m = Some eps ∧ path ∈ eps.
Proof using.
  unfold route_pairs. rewrite list_elem_of_In, in_flat_map. setoid_rewrite <- list_elem_of_In.
  setoid_rewrite orderedRouteMethods_elem. split.
  - intros (m' & [Hm [eps Heps]] & Hin). rewrite Heps in Hin. apply list_elem_of_fmap in Hin as (p & [= -> ->] & Hin).
    split; [done|]. by exists eps.
  - intros [Hm (eps & Heps & Hin)]. exists m. split; [split; [done|by eexists]|]. rewrite Heps.
    apply list_elem_of_fmap. by exists path.
Qed.

Lemma exact_route_answers n s entries (q : Request') :
  sound_scenario s → exactRouteShardEntries n s = Some entries →
  routeCondition FindStringSubmatch SubexpNames s q = true →
  (q_Method q, shardLookupPath (q_URI q)) ∈ route_pairs s.
Proof using Hlaws.
  intros Hs He Hr. unfold exactRouteShardEntries in He. case_bool_decide as En; [done|].
  destruct (existsb _ (route_pairs s)) eqn:Ep; [done|]. clear He.
  assert (Hlit : ∀ mp, mp ∈ route_pairs s → pattern_path mp.2 = false).
  { intros mp Hmp. destruct (pattern_path mp.2) eqn:E; [|done].
    rewrite (proj2 (existsb_exists _ _)) in Ep; [done|]. exists mp. by split; [apply list_elem_of_In|]. }
  pose proof (compileRoutes_inv _ _ _ _ (sound_routes _ Hs)) as Hinv.
  unfold routeCondition, routePathsFor in Hr. destruct (compiledRoutes s) as [cs|]; [|done].
  specialize (Hinv (q_Method q)). destruct (cs !! q_Method q) as [ces|] eqn:Ecs; [|done].
  destruct (Routes (Match_ s) !! q_Method q) as [eps|] eqn:Eeps; [|done]. destruct Hinv as (Hm & Hne & Hf).
  assert (Hces : ces ≠ []) by (intros ->; inversion Hf; subst; done).
  rewrite (bool_decide_false (ces = [])) in Hr by done. cbn [orb] in Hr. apply bool_decide_eq_true in Hr.
  destruct (matchEndpoint_elem FindStringSubmatch SubexpNames _ _ Hr) as (ce & Hce & Hmatch).
  apply list_elem_of_lookup in Hce as [i Hi]. destruct (Forall2_lookup_r _ _ _ _ _ Hf Hi) as (raw & Hraw & Hcomp & _).
  assert (Hin : (q_Method q, raw) ∈ route_pairs s).
  { apply route_pairs_elem. split; [done|]. exists eps. split; [done|]. by apply list_elem_of_lookup_2 with i. }
  rewrite (literal_answers raw ce (q_URI q)); [done| |exact (Hlit (_, _) Hin)|done|done].
  apply (sound_plain _ Hs). by eapply (sound_union _ Hs).
Qed.

Lemma contains_any_false s cs c : contains_any s cs = false → c ∈ cs → c ∉ bytes_of s.
Proof using.
  unfold contains_any. intros Ha Hc. apply bool_decide_eq_false in Ha. revert Ha.
  induction s as [|d s IH]; simpl; [intros _; apply not_elem_of_nil|]. case_bool_decide as Ed.
  - intros Ha. destruct Ha. by eexists.
  - intros Ha. apply not_elem_of_cons. split; [by intros ->|]. apply IH. intros [i Hi]. apply Ha. rewrite Hi. by eexists.
Qed.

Lemma shardSafePath_literal s path :
  shardSafePath s = Some path → Paths (Match_ s) = [path] ∧ pattern_path path = false.
Proof using.
  unfold shardSafePath. destruct (Paths (Match_ s)) as [|p [|]]; [done| |done].
  destruct (String.eqb p "" || has_prefix p "re:") eqn:E1; [done|].
  destruct (contains_any p (bytes_of "{}")) eqn:E2; [done|]. intros [= <-]. split; [done|].
  unfold pattern_path. rewrite E1. cbn [orb]. rewrite contains_str_byte. apply bool_decide_eq_false.
  eapply contains_any_false; [exact E2|]. left.
Qed.

Lemma path_answers n s path (q : Request') :
  sound_scenario s → exactRouteShardEntries n s = None → shardSafePath s = Some path →
  routeCondition FindStringSubmatch SubexpNames s q = true →
  methodMatches (Methods (Match_ s)) (q_Method q) = true ∧ shardLookupPath (q_URI q) = path.
Proof using Hlaws.
  intros Hs He Hp Hr. destruct (shardSafePath_literal _ _ Hp) as [Hpaths Hlit].
  assert (HR : Routes (Match_ s) = ∅).
  { unfold exactRouteShardEntries in He. case_bool_decide as E; [done|]. exfalso.
    destruct (existsb _ (route_pairs s)) eqn:Ep; [|done]. apply existsb_exists in Ep as ([m p] & Hin & Hpat).
    apply list_elem_of_In in Hin. apply (sound_union _ Hs) in Hin. rewrite Hpaths in Hin.
    apply list_elem_of_singleton in Hin as ->. simpl in Hpat. congruence. }
  pose proof (sound_routes _ Hs) as Hroutes. unfold compileRoutes in Hroutes. rewrite HR in Hroutes.
  rewrite bool_decide_true in Hroutes by done. injection Hroutes as Hroutes.
  unfold routeCondition, routePathsFor in Hr. rewrite <- Hroutes in Hr.
  destruct (methodMatches (Methods (Match_ s)) (q_Method q)); [|done]. split; [done|].
  pose proof (sound_paths _ Hs) as Hc. rewrite Hpaths in Hc. specialize (Hc ltac:(done)). simpl in Hc.
  destruct (compileEndpoint Compile path) as [ce|] eqn:Ece; [|done]. simpl in Hc. injection Hc as Hc.
  rewrite <- Hc in Hr. cbn [orb] in Hr. rewrite bool_decide_false in Hr by done. cbn [orb] in Hr.
  apply bool_decide_eq_true in Hr. eapply literal_answers; [|done|done|exact Hr].
  apply (sound_plain _ Hs). rewrite Hpaths. left.
Qed.

(** *** Keys *)

Definition exact_key (mp : string * string) : string := mp.1 +:+ ":" +:+ mp.2.

Lemma exact_key_inj m path m' path' :
  m = MethodREQMOD ∨ m = MethodRESPMOD → m' = MethodREQMOD ∨ m' = MethodRESPMOD →
  exact_key (m, path) = exact_key (m', path') → (m, path) = (m', path').
Proof using. intros [-> | ->] [-> | ->]; cbn; intros E; congruence. Qed.

Lemma shard_entries_mono n pairs seen entries i k :
  k ∈ default [] (entries !! i) → k ∈ default [] (shard_entries n pairs seen entries !! i).
Proof using.
  revert seen entries. induction pairs as [|[m path] pairs IH]; intros seen entries Hk; cbn [shard_entries]; [done|].
  case_bool_decide; [by apply IH|]. apply IH. cbv zeta.
  destruct (decide (hashString n path = i)) as [<-|Hne].
  - rewrite lookup_insert_eq. cbn. apply elem_of_app. by left.
  - by rewrite lookup_insert_ne.
Qed.

Lemma shard_entries_complete n pairs seen entries m path :
  (∀ mp, mp ∈ pairs → mp.1 = MethodREQMOD ∨ mp.1 = MethodRESPMOD) → (m, path) ∈ pairs →
  exact_key (m, path) ∉ seen →
  exact_key (m, path) ∈ default [] (shard_entries n pairs seen entries !! hashString n path).
Proof using.
  revert seen entries. induction pairs as [|[m0 p0] pairs IH]; intros seen entries Hm Hin Hns; [by apply elem_of_nil in Hin|].
  assert (Hm0 := Hm (m0, p0) ltac:(left)). assert (Hm1 := Hm (m, path) Hin).
  cbn [shard_entries]. change (m0 +:+ ":" +:+ p0) with (exact_key (m0, p0)). cbv zeta.
  assert (IH' := λ s e, IH s e (λ mp Hmp, Hm mp (list_elem_of_further _ _ _ Hmp))).
  case_bool_decide as Es.
  - apply elem_of_cons in Hin as [[= -> ->]|Hin]; [done|]. by apply IH'.
  - destruct (decide (exact_key (m, path) = exact_key (m0, p0))) as [E|Hne].
    + apply exact_key_inj in E; [|done|done]. injection E as -> ->. apply shard_entries_mono.
      rewrite lookup_insert_eq. cbn. apply elem_of_app. right. by apply list_elem_of_singleton.
    + apply elem_of_cons in Hin as [Hin|Hin]; [by rewrite Hin in Hne|]. apply IH'; [done|].
      by apply not_elem_of_cons.
Qed.

Lemma first_seen_elem seen l k : k ∈ l → k ∈ first_seen seen l ∨ k ∈ seen.
Proof using.
  revert seen. induction l as [|s l IH]; intros seen Hk; [by apply elem_of_nil in Hk|]. cbn [first_seen].
  case_bool_decide as Es.
  - apply elem_of_cons in Hk as [->|Hk]; [by right|by apply IH].
  - apply elem_of_cons in Hk as [->|Hk]; [left; left|]. destruct (IH (s :: seen) Hk) as [?|Hin]; [left; by right|].
    apply elem_of_cons in Hin as [->|Hin]; [left; left|by right].
Qed.

Lemma buildIndexKeys_path s path k :
  Paths (Match_ s) = [path] → path ≠ "" → extractPathPrefix path = path →
  (Methods (Match_ s) = [] ∧ k = "*:" +:+ path ∨ ∃ m, m ∈ Methods (Match_ s) ∧ k = exact_key (m, path)) →
  k ∈ buildIndexKeys s.
Proof using.
  intros Hp Hne Hpre Hk. unfold buildIndexKeys. rewrite Hp. cbn [map]. rewrite Hpre.
  unfold or_any. rewrite (proj2 (String.eqb_neq path "")) by done. cbn [flat_map]. rewrite app_nil_r.
  destruct (first_seen_elem [] (map (λ m, m +:+ ":" +:+ path) match Methods (Match_ s) with [] => ["*"] | ms => ms end) k)
    as [?|Hn]; [|done|by apply elem_of_nil in Hn].
  apply list_elem_of_fmap. destruct Hk as [[-> ->]|(m & Hm & ->)].
  - exists "*". split; [done|left].
  - exists m. split; [done|]. by destruct (Methods (Match_ s)); [apply elem_of_nil in Hm|].
Qed.

Lemma search_keys_exact m path : m ≠ "" → exact_key (m, path) ∈ search_keys m path.
Proof using.
  intros Hm. unfold search_keys. rewrite (proj2 (String.eqb_neq m "")) by done. left.
Qed.

Lemma search_keys_any m path : "*:" +:+ path ∈ search_keys m path.
Proof using. unfold search_keys. right; right; left. Qed.

Lemma methodMatches_elem ms m : methodMatches ms m = true → ms = [] ∨ m ∈ ms.
Proof using.
  unfold methodMatches. intros Hm. apply orb_true_iff in Hm as [Hm|Hm]; [left; by apply bool_decide_eq_true in Hm|].
  right. apply existsb_exists in Hm as (x & Hx & E). apply String.eqb_eq in E as ->. by apply list_elem_of_In.
Qed.

Lemma placed_found r p q :
  placed r p → sound_scenario (obj p) → indexable (ShardCount (config r)) (obj p) → q_Method q ≠ "" →
  routeCondition FindStringSubmatch SubexpNames (obj p) q = true →
  p ∈ globalScenarios r ∨
  ∃ shard key, shards r !! getShardForRequest r q = Some shard ∧
    key ∈ search_keys (q_Method q) (shardLookupPath (q_URI q)) ∧ p ∈ default [] (index shard !! key).
Proof using Hlaws.
  intros Hpl Hs Hi Hq Hr. unfold placed in Hpl. unfold getShardForRequest.
  destruct (exactRouteShardEntries _ (obj p)) as [entries|] eqn:Ee.
  - right. pose proof (exact_route_answers _ _ _ q Hs Ee Hr) as Hin.
    assert (Hent : entries = shard_entries (ShardCount (config r)) (route_pairs (obj p)) [] ∅).
    { unfold exactRouteShardEntries in Ee. case_bool_decide; [done|]. destruct (existsb _ _); [done|]. by injection Ee. }
    pose proof (shard_entries_complete (ShardCount (config r)) (route_pairs (obj p)) [] ∅ _ _
      (λ mp Hmp, proj1 (proj1 (route_pairs_elem (obj p) mp.1 mp.2)
         (eq_ind _ (λ x, x ∈ _) Hmp _ (surjective_pairing mp)))) Hin (not_elem_of_nil _)) as Hkey.
    rewrite <- Hent in Hkey.
    destruct (entries !! hashString (ShardCount (config r)) (shardLookupPath (q_URI q))) as [keys|] eqn:Ek;
      [|by apply elem_of_nil in Hkey].
    destruct (Hpl _ _ Ek) as (shard & Hshard & _ & Hidx). exists shard, (exact_key (q_Method q, shardLookupPath (q_URI q))).
    split_and!; [done|by apply search_keys_exact|]. by apply Hidx.
  - destruct (scenarioRequiresGlobalPriorityCheck (obj p)) eqn:Eg; [by left|right].
    unfold scenarioRequiresGlobalPriorityCheck in Eg. apply negb_false_iff, bool_decide_eq_true in Eg as [path Epath].
    destruct (path_answers _ _ _ q Hs Ee Epath Hr) as [Hm Hpath].
    destruct (shardSafePath_literal _ _ Epath) as [Hpaths Hlit].
    assert (Hne : path ≠ "") by (intros ->; done).
    destruct Hpl as (shard & Hshard & _ & Hidx). unfold getShardForScenario in Hshard. rewrite Epath in Hshard.
    rewrite Hpath. exists shard. pose proof (Hi _ Ee Epath) as Hpre.
    destruct (methodMatches_elem _ _ Hm) as [Hms|Hms].
    + exists ("*:" +:+ path). split_and!; [done|apply search_keys_any|]. apply Hidx.
      eapply buildIndexKeys_path; [done..|]. by left.
    + exists (exact_key (q_Method q, path)). split_and!; [done|by apply search_keys_exact|]. apply Hidx.
      eapply buildIndexKeys_path; [done..|]. right. by exists (q_Method q).
Qed.
End Sharded.
