(* ===== verification/ShardedSpec.v ===== *)
(** * What the sharded registry guarantees

    [Sharded] against the plain registry of [Scenario]: an invariant on where
    scenarios are placed, a simulation of [Load], [Add] and [Remove], the
    refinement of [Match], and what the cache may be trusted with. *)
From S2P Require Import Prelude GoInt GoStrings Header Chunked Message Scenario Regexp Compile MatchCache Sharded.

Local Open Scope Z_scope.

Section Placement.
Context {Regexp : Type}.
Context {IPNet Response : Type}.

Notation Scenario' := (Scenario (Regexp := Regexp) (IPNet := IPNet) (Response := Response)).
Notation Ptr' := (Ptr (Regexp := Regexp) (IPNet := IPNet) (Response := Response)).
Notation Registry' := (Registry (Regexp := Regexp) (IPNet := IPNet) (Response := Response)).
Implicit Types (r : Registry') (p x : Ptr') (s : Scenario') (l : list Scenario').

(** Scenarios without one literal path, which are kept aside. *)
Definition kept_aside (n : Z) (s : Scenario') : bool :=
  match exactRouteShardEntries n s with Some _ => false | None => scenarioRequiresGlobalPriorityCheck s end.

(** Every scenario is where requests for it look, and indexes lead to scenarios
    of their shard. *)
Record shard_wf (r : Registry') : Prop := {
  wf_config : normalizeConfig (config r) = config r;
  wf_pos : 0 < ShardCount (config r);
  wf_length : length (shards r) = Z.to_nat (ShardCount (config r));
  wf_index : ∀ i shard key p,
    shards r !! i = Some shard → p ∈ default [] (index shard !! key) → p ∈ shard_scenarios shard;
  wf_placed : ∀ p, p ∈ all_pointers r → placed r p;
  wf_aside : ∀ p, p ∈ globalScenarios r → kept_aside (ShardCount (config r)) (obj p) = true
}.

Lemma hashString_bound r path : 0 < ShardCount (config r) → length (shards r) = Z.to_nat (ShardCount (config r)) →
  (hashString (ShardCount (config r)) path < length (shards r))%nat.
Proof using.
  intros Hp ->. unfold hashString. pose proof (Z.mod_pos_bound (fnv1a path) _ Hp). lia.
Qed.

Lemma getShardForScenario_hash n s : ∃ path, getShardForScenario n s = hashString n path.
Proof using.
  unfold getShardForScenario. destruct (shardSafePath s); [by eexists|].
  destruct (Paths (Match_ s)); [|by eexists]. destruct (negb _); by eexists.
Qed.

Lemma shard_entries_keys n pairs seen entries i :
  is_Some (shard_entries n pairs seen entries !! i) → is_Some (entries !! i) ∨ ∃ path, i = hashString n path.
Proof using.
  revert seen entries. induction pairs as [|[m path] pairs IH]; intros seen entries; cbn [shard_entries]; [by left|].
  case_bool_decide; [apply IH|]. intros Hs. destruct (IH _ _ Hs) as [Hi|?]; [|by right].
  destruct (decide (i = hashString n path)) as [->|Hne]; [right; by eexists|left].
  by rewrite lookup_insert_ne in Hi by done.
Qed.

Lemma exact_entries_key n s entries i :
  exactRouteShardEntries n s = Some entries → is_Some (entries !! i) → ∃ path, i = hashString n path.
Proof using.
  unfold exactRouteShardEntries. case_bool_decide; [done|]. destruct (existsb _ _); [done|]. intros [= <-] Hi.
  destruct (shard_entries_keys _ _ _ _ _ Hi) as [Hn|?]; [|done]. rewrite lookup_empty in Hn. by destruct Hn.
Qed.

Lemma all_pointers_elem r p :
  p ∈ all_pointers r ↔ (∃ i shard, shards r !! i = Some shard ∧ p ∈ shard_scenarios shard) ∨ p ∈ globalScenarios r.
Proof using.
  unfold all_pointers. rewrite elem_of_app, list_elem_of_In, in_concat. apply or_iff_compat_r. split.
  - intros (l & Hl & Hp). apply in_map_iff in Hl as (shard & <- & Hs).
    apply list_elem_of_In, list_elem_of_lookup in Hs as [i Hi]. exists i, shard. by rewrite list_elem_of_In.
  - intros (i & shard & Hi & Hp). exists (shard_scenarios shard). split; [|by apply list_elem_of_In].
    apply in_map, list_elem_of_In. by eapply list_elem_of_lookup_2.
Qed.

(** ** Indexing *)

Lemma add_keys_index p keys shard k x :
  x ∈ default [] (index (add_keys p keys shard) !! k) ↔ x ∈ default [] (index shard !! k) ∨ x = p ∧ k ∈ keys.
Proof using.
  unfold add_keys. cbn [index]. generalize (index shard) as idx.
  induction keys as [|key keys IH]; intros idx; cbn [foldl].
  { split; [by left|]. intros [?|[_ Hn]]; [done|by apply elem_of_nil in Hn]. }
  rewrite IH, elem_of_cons. destruct (decide (k = key)) as [->|Hne].
  - rewrite lookup_insert_eq. cbn [default from_option id]. rewrite elem_of_app, list_elem_of_singleton.
    clear IH. tauto.
  - rewrite lookup_insert_ne by done. clear IH. tauto.
Qed.

Lemma add_keys_scenarios p keys shard x :
  x ∈ shard_scenarios (add_keys p keys shard) ↔ x ∈ shard_scenarios shard ∨ x = p.
Proof using. unfold add_keys. cbn [shard_scenarios]. by rewrite elem_of_app, list_elem_of_singleton. Qed.

(** The keys under which the shard with this index takes a scenario. *)
Definition keys_of (n : Z) (s : Scenario') (i : nat) : option (list string) :=
  match exactRouteShardEntries n s with
  | Some entries => entries !! i
  | None => if scenarioRequiresGlobalPriorityCheck s then None
            else if decide (i = getShardForScenario n s) then Some (buildIndexKeys s) else None
  end.

Lemma indexScenario_lookup p r i :
  shards (indexScenario p r) !! i =
  (λ shard, match keys_of (ShardCount (config r)) (obj p) i with
            | Some keys => add_keys p keys shard | None => shard end) <$> shards r !! i.
Proof using.
  unfold indexScenario, keys_of. destruct (exactRouteShardEntries _ _) as [entries|]; cbn [shards with_contents].
  - by rewrite list_lookup_imap.
  - destruct (scenarioRequiresGlobalPriorityCheck _); cbn [shards with_contents].
    + by destruct (shards r !! i).
    + destruct (decide (i = getShardForScenario (ShardCount (config r)) (obj p))) as [->|Hne].
      * by rewrite list_lookup_alter_eq.
      * rewrite list_lookup_alter_ne by done. by destruct (shards r !! i).
Qed.

Lemma indexScenario_aside p r :
  globalScenarios (indexScenario p r) =
  if kept_aside (ShardCount (config r)) (obj p) then globalScenarios r ++ [p] else globalScenarios r.
Proof using.
  unfold indexScenario, kept_aside. destruct (exactRouteShardEntries _ _); [done|].
  by destruct (scenarioRequiresGlobalPriorityCheck (obj p)).
Qed.

Lemma indexScenario_config p r : config (indexScenario p r) = config r.
Proof using. unfold indexScenario. destruct (exactRouteShardEntries _ _); [done|]. by destruct (scenarioRequiresGlobalPriorityCheck (obj p)). Qed.

Lemma placed_keys r p :
  placed r p ↔
  (kept_aside (ShardCount (config r)) (obj p) = true → p ∈ globalScenarios r) ∧
  ∀ i keys, keys_of (ShardCount (config r)) (obj p) i = Some keys →
    ∃ shard, shards r !! i = Some shard ∧ p ∈ shard_scenarios shard ∧ ∀ k, k ∈ keys → p ∈ default [] (index shard !! k).
Proof using.
  unfold placed, kept_aside, keys_of. destruct (exactRouteShardEntries _ _) as [entries|].
  - split; [by intros Hp; split; [|exact Hp]|by intros [_ ?]].
  - destruct (scenarioRequiresGlobalPriorityCheck _).
    + split; [by intros Hp; split|by intros [Hp _]; apply Hp].
    + split.
      * intros Hp. split; [done|]. intros i keys. case_decide as Ei; [|done]. intros [= <-]. rewrite Ei. exact Hp.
      * intros [_ Hp]. apply (Hp (getShardForScenario (ShardCount (config r)) (obj p))). by rewrite decide_True.
Qed.

(** Nothing but additions. *)
Lemma indexScenario_keeps p r x : placed r x → placed (indexScenario p r) x.
Proof using.
  rewrite !placed_keys, indexScenario_config. intros [Ha Hk]. split.
  - intros Hx. rewrite indexScenario_aside. apply Ha in Hx. destruct (kept_aside _ (obj p)); [|done].
    apply elem_of_app. by left.
  - intros i keys Hi. destruct (Hk i keys Hi) as (shard & Hshard & Hin & Hidx).
    rewrite indexScenario_lookup, Hshard. cbn [fmap option_fmap option_map].
    eexists. split; [done|]. destruct (keys_of _ (obj p) i); [|by split].
    split; [apply add_keys_scenarios; by left|]. intros k Hkk. apply add_keys_index. left. by apply Hidx.
Qed.

Lemma keys_of_bound r s i :
  0 < ShardCount (config r) → length (shards r) = Z.to_nat (ShardCount (config r)) →
  is_Some (keys_of (ShardCount (config r)) s i) → (i < length (shards r))%nat.
Proof using.
  intros Hp Hl. unfold keys_of. destruct (exactRouteShardEntries _ _) as [entries|] eqn:Ee.
  - intros Hi. destruct (exact_entries_key _ _ _ _ Ee Hi) as [path ->]. by apply hashString_bound.
  - destruct (scenarioRequiresGlobalPriorityCheck s); [by intros []|]. case_decide as Ei; [|by intros []]. intros _.
    destruct (getShardForScenario_hash (ShardCount (config r)) s) as [path E]. rewrite Ei, E. by apply hashString_bound.
Qed.

Lemma indexScenario_places p r :
  0 < ShardCount (config r) → length (shards r) = Z.to_nat (ShardCount (config r)) → placed (indexScenario p r) p.
Proof using.
  intros Hp Hl. rewrite placed_keys, indexScenario_config. split.
  - intros Ha. rewrite indexScenario_aside, Ha. apply elem_of_app. right. by apply list_elem_of_singleton.
  - intros i keys Hi.
    destruct (lookup_lt_is_Some_2 (shards r) i) as [shard Hshard]; [eapply keys_of_bound; [done..|by eexists]|].
    rewrite indexScenario_lookup, Hshard, Hi. cbn [fmap option_fmap option_map]. eexists. split; [done|].
    split; [apply add_keys_scenarios; by right|]. intros k Hk. apply add_keys_index. by right.
Qed.

Lemma indexScenario_incl p r x : x ∈ all_pointers (indexScenario p r) → x ∈ all_pointers r ∨ x = p.
Proof using.
  rewrite !all_pointers_elem. intros [(i & shard & Hi & Hx)|Hx].
  - rewrite indexScenario_lookup in Hi. destruct (shards r !! i) as [old|] eqn:Eo; [|done].
    simpl in Hi. injection Hi as <-. destruct (keys_of _ _ _).
    + apply add_keys_scenarios in Hx as [?|?]; [left; left; by exists i, old|by right].
    + left; left. by exists i, old.
  - rewrite indexScenario_aside in Hx. destruct (kept_aside _ _); [|by left; right].
    apply elem_of_app in Hx as [?|?%list_elem_of_singleton]; [by left; right|by right].
Qed.

Lemma indexScenario_old p r x : x ∈ all_pointers r → x ∈ all_pointers (indexScenario p r).
Proof using.
  rewrite !all_pointers_elem. intros [(i & shard & Hi & Hx)|Hx].
  - left. exists i. rewrite indexScenario_lookup, Hi. simpl. eexists. split; [done|].
    destruct (keys_of _ _ _); [apply add_keys_scenarios; by left|done].
  - right. rewrite indexScenario_aside. destruct (kept_aside _ _); [|done]. apply elem_of_app. by left.
Qed.

Context (FindStringSubmatch : Regexp → string → option (list string)).
Context (Compile : string → option Regexp).

(** A scenario with compiled routes has an entry in some shard. *)
Lemma exact_entries_some n s entries :
  compileRoutes FindStringSubmatch Compile (Routes (Match_ s)) = Ok (compiledRoutes s) →
  exactRouteShardEntries n s = Some entries → ∃ i, is_Some (entries !! i).
Proof using.
  intros Hc He. unfold exactRouteShardEntries in He. case_bool_decide as En; [done|].
  destruct (existsb _ _); [done|]. injection He as <-.
  apply compileRoutes_inv in Hc. destruct (compiledRoutes s) as [cs|]; [|done].
  apply map_choose in En as (m & eps & Hm). specialize (Hc m). rewrite Hm in Hc.
  destruct (cs !! m); [|done]. destruct Hc as (Hmeth & Hne & _). destruct eps as [|path eps]; [done|].
  exists (hashString n path).
  pose proof (shard_entries_complete n (route_pairs s) [] ∅ m path) as Hk.
  destruct (shard_entries n (route_pairs s) [] ∅ !! hashString n path); [by eexists|].
  exfalso. refine (not_elem_of_nil _ (Hk _ _ (not_elem_of_nil _))).
  - intros [m' path'] Hmp. by apply route_pairs_elem in Hmp as [? _].
  - apply route_pairs_elem. split; [done|]. exists (path :: eps). split; [done|left].
Qed.

(** A scenario with compiled routes is somewhere. *)
Definition routes_compiled (s : Scenario') : Prop :=
  compileRoutes FindStringSubmatch Compile (Routes (Match_ s)) = Ok (compiledRoutes s).

Lemma placed_in_all r p : placed r p → routes_compiled (obj p) → p ∈ all_pointers r.
Proof using.
  rewrite placed_keys, all_pointers_elem. intros [Ha Hk] Hc.
  destruct (kept_aside (ShardCount (config r)) (obj p)) eqn:E; [right; by apply Ha|left].
  assert (∃ i, is_Some (keys_of (ShardCount (config r)) (obj p) i)) as (i & keys & Hi).
  { unfold keys_of, kept_aside in *. destruct (exactRouteShardEntries _ _) eqn:Ee; [by eapply exact_entries_some|].
    rewrite E. exists (getShardForScenario (ShardCount (config r)) (obj p)). rewrite decide_True by done. by eexists. }
  destruct (Hk i keys Hi) as (shard & ? & ? & _). by exists i, shard.
Qed.

Lemma indexScenario_wf p r : shard_wf r → shard_wf (indexScenario p r).
Proof using.
  intros Hw. split; rewrite ?indexScenario_config; [apply Hw|apply Hw| | | |].
  - rewrite <- (wf_length r Hw). unfold indexScenario. destruct (exactRouteShardEntries _ _); cbn [shards with_contents].
    + apply length_imap.
    + destruct (scenarioRequiresGlobalPriorityCheck _); cbn [shards with_contents]; [done|apply length_alter].
  - intros i shard key x Hi Hx. rewrite indexScenario_lookup in Hi. destruct (shards r !! i) as [old|] eqn:Eo; [|done].
    simpl in Hi. injection Hi as <-. destruct (keys_of _ _ _) as [keys|]; [|by eapply (wf_index r Hw)].
    apply add_keys_scenarios. apply add_keys_index in Hx as [Hx|[-> _]]; [left; by eapply (wf_index r Hw)|by right].
  - intros x Hx. apply indexScenario_incl in Hx as [Hx| ->].
    + by apply indexScenario_keeps, (wf_placed r Hw).
    + apply indexScenario_places; apply Hw.
  - intros x. rewrite indexScenario_aside. destruct (kept_aside _ (obj p)) eqn:E; [|apply (wf_aside r Hw)].
    intros [?| ->%list_elem_of_singleton]%elem_of_app; [by apply (wf_aside r Hw)|done].
Qed.

(** ** Loading *)

Lemma foldl_index r ps :
  shard_wf r →
  let r' := foldl (λ r p, indexScenario p r) r ps in
  shard_wf r' ∧ config r' = config r ∧
  globalScenarios r' = globalScenarios r ++ List.filter (λ p, kept_aside (ShardCount (config r)) (obj p)) ps ∧
  (∀ x, x ∈ all_pointers r' → x ∈ all_pointers r ∨ x ∈ ps) ∧
  (∀ x, x ∈ all_pointers r ∨ x ∈ ps ∧ routes_compiled (obj x) → x ∈ all_pointers r').
Proof using.
  revert r. induction ps as [|p ps IH]; intros r Hw; cbn [foldl List.filter].
  { rewrite app_nil_r. split_and!; [done..|by left|]. intros x [?|[Hn _]]; [done|by apply elem_of_nil in Hn]. }
  destruct (IH _ (indexScenario_wf p r Hw)) as (Hw' & Hc & Hg & Hincl & Hall).
  rewrite indexScenario_config in *. split_and!; [done..| | |].
  - rewrite Hg, indexScenario_aside. destruct (kept_aside _ (obj p)); [by rewrite <- app_assoc|done].
  - intros x Hx. apply Hincl in Hx as [Hx|Hx]; [|right; by right].
    apply indexScenario_incl in Hx as [?| ->]; [by left|right; left].
  - intros x Hx. apply Hall. destruct Hx as [Hx|[Hx Hc']]; [left; by apply indexScenario_old|].
    apply elem_of_cons in Hx as [->|Hx]; [left|by right].
    apply placed_in_all; [|done]. by apply indexScenario_places; apply Hw.
Qed.

Lemma finish_wf d r : shard_wf r → shard_wf (finish_mutation d r).
Proof using. by intros []. Qed.

(** A registry of the configured size, whatever it holds. *)
Definition sized (r : Registry') : Prop :=
  normalizeConfig (config r) = config r ∧ length (shards r) = Z.to_nat (ShardCount (config r)).

Lemma normal_pos c : normalizeConfig c = c → 0 < ShardCount c.
Proof using.
  intros <-. unfold normalizeConfig, MinShardCount, MaxShardCount, DefaultShardCount. cbn [ShardCount].
  destruct (Z.ltb_spec (ShardCount c) 1); [done|]. destruct (Z.ltb_spec 256 (ShardCount c)); lia.
Qed.

Lemma normalizeConfig_idemp c : normalizeConfig (normalizeConfig c) = normalizeConfig c.
Proof using.
  unfold normalizeConfig, MinShardCount, MaxShardCount, DefaultShardCount, DefaultCacheSize, MaxCacheSize.
  cbn [ShardCount CacheSize EnableCache].
  f_equal.
  - destruct (Z.ltb_spec (ShardCount c) 1); [done|]. cbv iota.
    destruct (Z.ltb_spec 256 (ShardCount c)); [done|]. cbv iota.
    rewrite (proj2 (Z.ltb_ge (ShardCount c) 1)) by done. cbv iota. by rewrite (proj2 (Z.ltb_ge 256 (ShardCount c))).
  - destruct (Z.leb_spec (CacheSize c) 0); [done|]. cbv iota.
    destruct (Z.ltb_spec 10000 (CacheSize c)); [done|]. cbv iota.
    rewrite (proj2 (Z.leb_gt (CacheSize c) 0)) by done. cbv iota. by rewrite (proj2 (Z.ltb_ge 10000 (CacheSize c))).
Qed.

Lemma new_sized D c o : sized (newShardedScenarioRegistryWithConfig (D : Scenario') c o).
Proof using.
  split; [apply normalizeConfig_idemp|]. cbn [newShardedScenarioRegistryWithConfig shards config].
  by rewrite length_imap, length_replicate.
Qed.

(** The registry [Load] indexes into. *)
Local Notation emptied r :=
  (with_contents (map (λ _, {| index := ∅; shard_scenarios := [] |}) (shards r)) [] r).

Lemma emptied_wf r :
  sized r → shard_wf (emptied r).
Proof using.
  intros [Hp Hl]. split; cbn [config shards globalScenarios with_contents]; [done|by apply normal_pos|by rewrite length_map| | |].
  - intros i shard key p Hi. rewrite list_lookup_fmap in Hi. destruct (shards r !! i); [|done].
    simpl in Hi. injection Hi as <-. cbn [index]. rewrite lookup_empty. intros Hn. by apply elem_of_nil in Hn.
  - intros p Hin. exfalso. apply all_pointers_elem in Hin as [(i & shard & Hi & Hin)|Hin]; cbn in *; [|by apply elem_of_nil in Hin].
    rewrite list_lookup_fmap in Hi. destruct (shards r !! i); [|done]. simpl in Hi. injection Hi as <-.
    by apply elem_of_nil in Hin.
  - intros p Hin. by apply elem_of_nil in Hin.
Qed.

Lemma emptied_all r x :
  x ∉ all_pointers (emptied r).
Proof using.
  intros Hin. apply all_pointers_elem in Hin as [(i & shard & Hi & Hin)|Hin]; cbn in *; [|by apply elem_of_nil in Hin].
  rewrite list_lookup_fmap in Hi. destruct (shards r !! i); [|done]. simpl in Hi. injection Hi as <-.
  by apply elem_of_nil in Hin.
Qed.

(** ** Removing *)

Lemma not_named_elem name (ps : list Ptr') x : x ∈ not_named name ps ↔ x ∈ ps ∧ Name (obj x) ≠ name.
Proof using.
  unfold not_named. rewrite !list_elem_of_In, filter_In, negb_true_iff, String.eqb_neq. done.
Qed.

Lemma remove_first_incl name (ps : list Ptr') x : x ∈ remove_first name ps → x ∈ ps.
Proof using.
  induction ps as [|p ps IH]; simpl; [done|]. destruct (String.eqb _ _); [by right|].
  intros [->|?]%elem_of_cons; [left|right; by apply IH].
Qed.

Lemma remove_first_keeps name (ps : list Ptr') x : x ∈ ps → Name (obj x) ≠ name → x ∈ remove_first name ps.
Proof using.
  induction ps as [|p ps IH]; simpl; [done|]. intros Hx Hn.
  destruct (String.eqb_spec (Name (obj p)) name); (apply elem_of_cons in Hx as [->|Hx]; [done || left|]).
  - done.
  - right. by apply IH.
Qed.

Lemma remove_first_sublist name (ps : list Ptr') : remove_first name ps `sublist_of` ps.
Proof using.
  induction ps as [|p ps IH]; simpl; [done|]. destruct (String.eqb _ _); [by apply sublist_cons|by apply sublist_skip].
Qed.

(** When one pointer at most has the name, none is left. *)
Lemma remove_first_gone name (ps : list Ptr') x :
  NoDup ps → (∀ p p', p ∈ ps → p' ∈ ps → Name (obj p) = Name (obj p') → p = p') →
  x ∈ remove_first name ps → Name (obj x) ≠ name.
Proof using.
  induction ps as [|p ps IH]; simpl; [intros _ _ Hn; by apply elem_of_nil in Hn|].
  intros [Hp Hnd]%NoDup_cons Hu. destruct (String.eqb_spec (Name (obj p)) name) as [E|E].
  - intros Hx Hn. apply Hp. rewrite (Hu p x); [done|left|by right|by rewrite E].
  - intros [->|Hx]%elem_of_cons; [done|]. apply IH; [done| |done]. intros y y' Hy Hy'. apply Hu; by right.
Qed.

Lemma remove_from_shard_index name (shard : ScenarioShard) k x :
  x ∈ default [] (index (remove_from_shard name shard) !! k) ↔
  x ∈ default [] (index shard !! k) ∧ Name (obj x) ≠ name.
Proof using.
  unfold remove_from_shard. cbn [index]. rewrite lookup_omap.
  destruct (index shard !! k) as [ps|]; cbn [mbind option_bind option_map omap default from_option id].
  - rewrite <- not_named_elem. by destruct (not_named name ps).
  - split; [intros Hn|intros [Hn _]]; by apply elem_of_nil in Hn.
Qed.

Lemma has_named_spec r name :
  shard_wf r → has_named name r = true ↔ ∃ x, x ∈ all_pointers r ∧ Name (obj x) = name.
Proof using.
  intros Hw. unfold has_named. rewrite orb_true_iff, !existsb_exists. split.
  - intros [(x & Hx & E)|(shard & Hs & Hk)].
    + exists x. apply String.eqb_eq in E. by rewrite list_elem_of_In.
    + apply existsb_exists in Hk as ([k ps] & Hkp & Hx). apply existsb_exists in Hx as (x & Hx & E).
      exists x. apply String.eqb_eq in E. split; [|done]. apply all_pointers_elem. left.
      apply list_elem_of_In, list_elem_of_lookup in Hs as [i Hi]. exists i, shard. split; [done|].
      apply (wf_index r Hw i shard k); [done|]. apply list_elem_of_In, elem_of_map_to_list in Hkp. rewrite Hkp.
      by apply list_elem_of_In.
  - intros (x & Hx & E). left. exists x. rewrite list_elem_of_In in Hx. split; [done|]. by apply String.eqb_eq.
Qed.

(** No two pointers have an address or a name in common. *)
Definition unambiguous (r : Registry') : Prop :=
  NoDup (globalScenarios r) ∧
  ∀ p p', p ∈ all_pointers r → p' ∈ all_pointers r → addr p = addr p' ∨ Name (obj p) = Name (obj p') → p = p'.

Lemma remove_spec r name :
  shard_wf r → unambiguous r →
  match remove name r with
  | None => ∀ x, x ∈ all_pointers r → Name (obj x) ≠ name
  | Some r' => shard_wf r' ∧ config r' = config r ∧ (∃ x, x ∈ all_pointers r ∧ Name (obj x) = name) ∧
               globalScenarios r' `sublist_of` globalScenarios r ∧
               ∀ x, x ∈ all_pointers r' ↔ x ∈ all_pointers r ∧ Name (obj x) ≠ name
  end.
Proof using.
  intros Hw [Hnd Hu]. unfold remove. pose proof (has_named_spec r name Hw) as Hh.
  destruct (has_named name r); cbn [negb]; [|by intros x Hx E; discriminate (proj2 Hh (ex_intro _ x (conj Hx E)))].
  set (r' := {| shards := _ |}).
  assert (Hlk : ∀ i, shards r' !! i = remove_from_shard name <$> shards r !! i).
  { intros i. apply list_lookup_fmap. }
  assert (Hg : globalScenarios r' = remove_first name (globalScenarios r)) by done.
  assert (Hall : ∀ x, x ∈ all_pointers r' ↔ x ∈ all_pointers r ∧ Name (obj x) ≠ name).
  { intros x. rewrite !all_pointers_elem, Hg. split.
    - intros [(i & shard & Hi & Hx)|Hx].
      + rewrite Hlk in Hi. destruct (shards r !! i) as [old|] eqn:Eo; [|done]. simpl in Hi. injection Hi as <-.
        apply not_named_elem in Hx as [Hx Hn]. split; [left; by exists i, old|done].
      + split; [right; by eapply remove_first_incl|]. eapply remove_first_gone; [exact Hnd| |exact Hx].
        intros p p' Hp Hp' En. apply Hu; [apply all_pointers_elem; by right..|by right].
    - intros [[(i & old & Hi & Hx)|Hx] Hn]; [left|right; by apply remove_first_keeps].
      exists i, (remove_from_shard name old). rewrite Hlk, Hi. split; [done|]. by apply not_named_elem. }
  split_and!; [|done|by apply Hh|by apply remove_first_sublist|exact Hall].
  split; [apply Hw|apply Hw|cbn; rewrite length_map; apply Hw| | |].
  - intros i shard key p Hi Hp. rewrite Hlk in Hi. destruct (shards r !! i) as [old|] eqn:Eo; [|done].
    simpl in Hi. injection Hi as <-. apply remove_from_shard_index in Hp as [Hp Hn].
    apply not_named_elem. split; [|done]. by eapply (wf_index r Hw).
  - intros p Hp. apply Hall in Hp as [Hp Hn]. apply (wf_placed r Hw), placed_keys in Hp as [Ha Hk].
    apply placed_keys. split; [intros E; rewrite Hg; apply remove_first_keeps; [by apply Ha|done]|].
    intros i keys Hi. destruct (Hk i keys Hi) as (shard & Hs & Hin & Hidx). exists (remove_from_shard name shard).
    rewrite Hlk, Hs. split_and!; [done|by apply not_named_elem|]. intros k Hkk. apply remove_from_shard_index.
    split; [by apply Hidx|done].
  - intros p. rewrite Hg. intros Hp%remove_first_incl. by apply (wf_aside r Hw).
Qed.

(** ** The plain registry as a specification *)

(** The sharded registry holds the scenarios of the plain one. *)
Record represents (r : Registry') (l : list Scenario') : Prop := {
  rep_wf : shard_wf r;
  rep_ptrs : unambiguous r;
  rep_ok : registry_ok l;
  rep_names : NoDup (map Name l);
  rep_objs : ∀ s, s ∈ l ↔ ∃ p, p ∈ all_pointers r ∧ obj p = s
}.

Lemma unambiguous_distinct r : unambiguous r → distinct (all_pointers r).
Proof using.
  intros [_ Hu]. split; intros p p' Hp Hp'; [intros E; apply Hu; auto|].
  intros E E'. apply Hu; [done..|right; congruence].
Qed.

Lemma List_elem r p : unambiguous r → p ∈ List r ↔ p ∈ all_pointers r.
Proof using.
  intros Hu. rewrite <- (unique_elem (all_pointers r) p) by by apply unambiguous_distinct.
  unfold List. induction (uniqueScenarioPointers (all_pointers r)) as [|x ps IH]; [done|]. simpl.
  assert (Hins : ∀ ys, p ∈ insert_ptr x ys ↔ p = x ∨ p ∈ ys).
  { intros ys. induction ys as [|y ys IHy]; simpl; [by rewrite list_elem_of_singleton; set_solver|].
    destruct (scenarioOutranks _ _); rewrite !elem_of_cons, ?IHy; tauto. }
  by rewrite Hins, elem_of_cons, IH.
Qed.

(** The order a new scenario gets depends on the set of scenarios only. *)
Lemma nextScenarioOrder_ext l l' : (∀ s, s ∈ l ↔ s ∈ l') → nextScenarioOrder l = nextScenarioOrder l'.
Proof using.
  assert (Hmax : ∀ l1 l2 : list Scenario', (∀ s, s ∈ l1 → s ∈ l2) → nextScenarioOrder l1 ≤ nextScenarioOrder l2).
  { intros l1 l2 Hi. pose proof (nextScenarioOrder_above l2) as Ha. rewrite Forall_forall in Ha.
    assert (H0 : 0 ≤ nextScenarioOrder l2).
    { unfold nextScenarioOrder. generalize (Z.le_refl 0). generalize 0 at 2 4. clear.
      induction l2 as [|s l2 IH]; intros n Hn; [done|]. simpl. apply IH. destruct (Z.leb_spec n (order s)); lia. }
    assert (Hall : ∀ s, s ∈ l1 → order s < nextScenarioOrder l2) by auto. clear Ha Hi. revert Hall H0.
    unfold nextScenarioOrder at 3. generalize (nextScenarioOrder l2) as m, 0 as n. clear.
    induction l1 as [|s l1 IH]; intros m n Hall Hn; [done|]. simpl. apply IH; [intros; apply Hall; by right|].
    pose proof (Hall s ltac:(left)). destruct (Z.leb_spec n (order s)); lia. }
  intros He. apply Z.le_antisymm; apply Hmax; intros s; by rewrite He.
Qed.

Lemma find_named_elem name (l : list Scenario') :
  match List.find (λ s, String.eqb (Name s) name) l with
  | Some s => s ∈ l ∧ Name s = name
  | None => Forall (λ s, Name s ≠ name) l
  end.
Proof using.
  induction l as [|s l IH]; simpl; [constructor|]. destruct (String.eqb_spec (Name s) name); [by split; [left|]|].
  destruct (List.find _ l); [destruct IH; split; [by right|done]|by constructor].
Qed.

Lemma map_unique {A B} (f : A → B) (xs : list A) (y z : A) :
  NoDup (map f xs) → y ∈ xs → z ∈ xs → f y = f z → y = z.
Proof using.
  induction xs as [|x0 xs IH]; simpl; [by intros _ Hn%elem_of_nil|]. intros [Hx Hn]%NoDup_cons Hs Hs' E.
  assert (Hno : ∀ w, w ∈ xs → f w ≠ f x0).
  { intros w Hw E'. apply Hx. rewrite <- E'. by apply list_elem_of_fmap_2. }
  apply elem_of_cons in Hs as [->|Hs], Hs' as [->|Hs']; [done| | |by apply IH].
  - by destruct (Hno z Hs').
  - by destruct (Hno y Hs).
Qed.

Lemma scenarioOrderForAdd_ext l l' name :
  NoDup (map Name l) → (∀ s, s ∈ l' ↔ s ∈ l) → scenarioOrderForAdd l' name = scenarioOrderForAdd l name.
Proof using.
  intros Hn He. unfold scenarioOrderForAdd.
  pose proof (find_named_elem name l) as Hf. pose proof (find_named_elem name l') as Hf'.
  destruct (List.find _ l') as [s'|], (List.find _ l) as [s|].
  - destruct Hf as [Hs E], Hf' as [Hs' E']. apply He in Hs'. by rewrite (map_unique Name l s s') by congruence.
  - destruct Hf' as [Hs' E']. apply He in Hs'. rewrite Forall_forall in Hf. by destruct (Hf s' Hs').
  - destruct Hf as [Hs E]. apply He in Hs. rewrite Forall_forall in Hf'. by destruct (Hf' s Hs).
  - by apply nextScenarioOrder_ext.
Qed.

Lemma scenarioOrderForAdd_named name l :
  scenarioOrderForAdd l name =
  match remove_named name l with Some (n, _) => n | None => nextScenarioOrder l end.
Proof using.
  unfold scenarioOrderForAdd. generalize (nextScenarioOrder l) as n. intros n.
  induction l as [|s l IH]; simpl; [done|]. destruct (String.eqb _ _); [done|]. rewrite IH.
  by destruct (remove_named name l) as [[m l']|].
Qed.

Lemma NoDup_map_app_remove {A} (f : A → string) (l1 l2 : list A) (x : A) :
  NoDup (map f (l1 ++ x :: l2)) → NoDup (map f (l1 ++ l2)) ∧ ∀ y, y ∈ l1 ++ l2 → f y ≠ f x.
Proof using.
  rewrite !map_app. simpl. rewrite <- Permutation_middle. intros [Hx Hn]%NoDup_cons. split; [done|].
  intros y Hy E. apply Hx. rewrite <- E, <- map_app. by apply list_elem_of_fmap_2.
Qed.

(** What the plain registry holds after [Remove] and [Add]. *)
Lemma plain_remove name l :
  NoDup (map Name l) →
  match Scenario.Remove name l with
  | None => ∀ s, s ∈ l → Name s ≠ name
  | Some l' => NoDup (map Name l') ∧ (∃ s, s ∈ l ∧ Name s = name) ∧ ∀ s, s ∈ l' ↔ s ∈ l ∧ Name s ≠ name
  end.
Proof using.
  intros Hn. unfold Scenario.Remove. pose proof (remove_named_spec name l) as Hr.
  destruct (remove_named name l) as [[n l']|]; simpl; [|by apply Forall_forall].
  destruct Hr as (l1 & s & l2 & -> & -> & <- & _ & _). apply NoDup_map_app_remove in Hn as [Hn Hne].
  split_and!; [done|exists s; set_solver|]. intros x. split.
  - intros Hx. split; [set_solver|by apply Hne].
  - intros [Hx Hnx]. set_solver.
Qed.

Lemma plain_add s0 l :
  NoDup (map Name l) →
  let s1 := with_order (scenarioOrderForAdd l (Name s0)) s0 in
  NoDup (map Name (addValidated s0 l)) ∧
  ∀ s, s ∈ addValidated s0 l ↔ s ∈ l ∧ Name s ≠ Name s0 ∨ s = s1.
Proof using.
  intros Hn s1. unfold addValidated. pose proof (plain_remove (Name s0) l Hn) as Hp. unfold Scenario.Remove in Hp.
  unfold s1. rewrite scenarioOrderForAdd_named. destruct (remove_named (Name s0) l) as [[n l']|]; simpl in Hp.
  - destruct Hp as (Hn' & _ & Hel). rewrite sort_perm, <- Permutation_cons_append. split.
    + simpl. constructor; [|done]. intros (x & E & Hx)%list_elem_of_fmap. apply Hel in Hx as [_ Hx]. by apply Hx.
    + intros s. rewrite sort_perm, <- Permutation_cons_append, elem_of_cons, Hel. tauto.
  - rewrite sort_perm, <- Permutation_cons_append. split.
    + simpl. constructor; [|done]. intros (x & E & Hx)%list_elem_of_fmap. by apply (Hp x).
    + intros s. rewrite sort_perm, <- Permutation_cons_append, elem_of_cons.
      split; [intros [->|Hs]; [by right|left; split; [done|by apply Hp]]|intros [[Hs _]| ->]; [by right|by left]].
Qed.

Lemma represents_load r ps :
  sized r → registry_ok (map obj ps) → NoDup (map Name (map obj ps)) → NoDup (map addr ps) →
  Forall (λ p, routes_compiled (obj p)) ps → represents (Load ps r) (map obj ps).
Proof using.
  intros Hs Hok Hn Ha Hc. rewrite Forall_forall in Hc.
  destruct (foldl_index _ ps (emptied_wf r Hs)) as (Hw & _ & Hg & Hincl & Hall).
  assert (Hel : ∀ x, x ∈ all_pointers (Load ps r) ↔ x ∈ ps).
  { intros x. split; [|intros Hx; apply Hall; right; by split; [|apply Hc]].
    intros [Hx|Hx]%Hincl; [by apply emptied_all in Hx|done]. }
  split; [by apply finish_wf| |done|done|].
  - split.
    + change (globalScenarios (Load ps r)) with (globalScenarios
        (foldl (λ r p, indexScenario p r) (emptied r) ps)).
      rewrite Hg. apply NoDup_ListNoDup, List.NoDup_filter, NoDup_ListNoDup. by eapply NoDup_fmap_1.
    + intros p p'. rewrite !Hel. rewrite map_map in Hn.
      intros Hp Hp' [E|E]; [by apply (map_unique addr ps)|by apply (map_unique (λ p, Name (obj p)) ps)].
  - intros s. rewrite list_elem_of_fmap. setoid_rewrite Hel. naive_solver.
Qed.

Lemma represents_remove r l name :
  represents r l →
  represents (Sharded.Remove name r).2 (default l (Scenario.Remove name l)) ∧
  ((Sharded.Remove name r).1 = true ↔ is_Some (Scenario.Remove name l)).
Proof using.
  intros [Hw Hu Hok Hn Ho]. pose proof (remove_spec r name Hw Hu) as Hr. pose proof (plain_remove name l Hn) as Hp.
  pose proof (λ l', Remove_ok name l l' Hok) as Hok'. unfold Sharded.Remove.
  destruct (remove name r) as [r'|], (Scenario.Remove name l) as [l'|]; cbn [fst snd default from_option id].
  - destruct Hr as (Hw' & _ & _ & Hsub & Hel), Hp as (Hn' & _ & Hel'). split; [|split; [by eexists|done]].
    split; [by apply finish_wf| |by apply Hok'|done|].
    + split; [by eapply sublist_NoDup; [apply Hu|exact Hsub]|].
      intros p p' Hp Hp'. apply Hel in Hp as [Hp _], Hp' as [Hp' _]. by apply Hu.
    + intros s. rewrite Hel', Ho. change (all_pointers (finish_mutation _ r')) with (all_pointers r'). setoid_rewrite Hel.
      split; [intros [(p & Hp & <-) Hs]; by exists p|intros (p & [Hp Hs] & <-); split; [by exists p|done]].
  - exfalso. destruct Hr as (_ & _ & (x & Hx & E) & _). apply (Hp (obj x)); [|done]. apply Ho. by exists x.
  - exfalso. destruct Hp as (_ & (s & Hs & E) & _). apply Ho in Hs as (p & Hp & <-). by apply (Hr p).
  - split; [|split; [done|by intros []]]. split; [|done..]. by destruct Hw.
Qed.

Lemma represents_add r l p :
  represents r l → routes_compiled (obj p) → (∀ x, x ∈ all_pointers r → addr x ≠ addr p) →
  represents (Sharded.Add p r) (addValidated (obj p) l).
Proof using.
  intros [Hw Hu Hok Hn Ho] Hc Hfresh. destruct (plain_add (obj p) l Hn) as [Hn' Hel'].
  assert (Ho' : ∀ s, s ∈ map obj (List r) ↔ s ∈ l).
  { intros s. rewrite Ho, list_elem_of_fmap. setoid_rewrite (List_elem r _ Hu). naive_solver. }
  unfold Sharded.Add. rewrite (scenarioOrderForAdd_ext l _ _ Hn Ho'). cbv zeta.
  set (s1 := with_order (scenarioOrderForAdd l (Name (obj p))) (obj p)) in *.
  set (p1 := {| addr := addr p; obj := s1 |}). cbn [obj addr].
  set (r1 := default r (remove (Name (obj p)) r)).
  assert (H1 : shard_wf r1 ∧ NoDup (globalScenarios r1) ∧
    ∀ x, x ∈ all_pointers r1 ↔ x ∈ all_pointers r ∧ Name (obj x) ≠ Name (obj p)).
  { unfold r1. pose proof (remove_spec r (Name (obj p)) Hw Hu) as Hr.
    destruct (remove _ r) as [r'|]; cbn [default from_option id].
    - destruct Hr as (? & _ & _ & Hsub & ?). split_and!; [done| |done]. by eapply sublist_NoDup; [apply Hu|exact Hsub].
    - split_and!; [done|apply Hu|]. intros x. split; [intros Hx; split; [done|by apply Hr]|by intros []]. }
  destruct H1 as (Hw1 & Hg1 & Hel1).
  assert (Hel : ∀ x, x ∈ all_pointers (indexScenario p1 r1) ↔ x ∈ all_pointers r ∧ Name (obj x) ≠ Name (obj p) ∨ x = p1).
  { intros x. rewrite <- Hel1. split; [apply indexScenario_incl|]. intros [Hx| ->]; [by apply indexScenario_old|].
    apply placed_in_all; [|exact Hc]. apply indexScenario_places; apply Hw1. }
  split; [by apply finish_wf, indexScenario_wf| |by apply addValidated_ok|done|].
  - split.
    + change (NoDup (globalScenarios (indexScenario p1 r1))). rewrite indexScenario_aside.
      destruct (kept_aside _ _); [|done]. rewrite <- Permutation_cons_append. constructor; [|done].
      intros Hin. destruct (proj1 (Hel1 p1)) as [_ Hne]; [apply all_pointers_elem; by right|]. by apply Hne.
    + change (all_pointers (finish_mutation _ _)) with (all_pointers (indexScenario p1 r1)).
      intros x x'. rewrite !Hel. intros [[Hx Hxn]| ->] [[Hx' Hxn']| ->] E; [by apply Hu| | |done].
      * destruct E as [E|E]; [by destruct (Hfresh x)|by destruct Hxn].
      * destruct E as [E|E]; [by destruct (Hfresh x')|by destruct Hxn'].
  - intros s. change (all_pointers (finish_mutation _ _)) with (all_pointers (indexScenario p1 r1)).
    setoid_rewrite Hel. rewrite Hel', Ho. split.
    + intros [[(x & Hx & <-) Hxn]| ->]; [exists x; split; [by left|done]|exists p1; split; [by right|done]].
    + intros (x & [[Hx Hxn]| ->] & <-); [left; split; [by exists x|done]|by right].
Qed.

(** The endpoint topology of a registry depends on the set of scenarios only. *)
Lemma topology_ext l1 l2 l1' l2' :
  (∀ s, s ∈ l1 ↔ s ∈ l2) → (∀ s, s ∈ l1' ↔ s ∈ l2') →
  ValidateExactRouteTopology l1 l1' = ValidateExactRouteTopology l2 l2'.
Proof using.
  assert (Hex : ∀ l l', (∀ s, s ∈ l ↔ s ∈ l') → HasExactRoutes l = HasExactRoutes l').
  { intros l l' He. apply eq_iff_eq_true. unfold HasExactRoutes. rewrite !existsb_exists.
    setoid_rewrite <- list_elem_of_In. by setoid_rewrite He. }
  assert (Htop : ∀ l l', (∀ s, s ∈ l ↔ s ∈ l') → ScenarioEndpointTopology l = ScenarioEndpointTopology l').
  { intros l l' He. apply set_eq. intros x. unfold ScenarioEndpointTopology. rewrite !elem_of_list_to_set.
    rewrite !list_elem_of_In, !in_flat_map. setoid_rewrite <- list_elem_of_In. by setoid_rewrite He. }
  intros H1 H2. unfold ValidateExactRouteTopology. by rewrite (Hex l1 l2), (Hex l1' l2'), (Htop l1 l2), (Htop l1' l2').
Qed.

Lemma List_objs r l : represents r l → ∀ s, s ∈ map obj (List r) ↔ s ∈ l.
Proof using.
  intros [_ Hu _ _ Ho] s. rewrite Ho, list_elem_of_fmap. setoid_rewrite (List_elem r _ Hu). naive_solver.
Qed.

Lemma represents_replace r next l :
  config next = config r → represents next l → represents (replaceValidated next r) l.
Proof using.
  intros Hc [Hw Hu Hok Hn Ho]. split; [|exact Hu|done..]. apply finish_wf.
  destruct Hw as [H1 H2 H3 H4 H5 H6]. rewrite Hc in *.
  split; cbn [with_contents config shards globalScenarios]; try done.
  intros p Hp. specialize (H5 p Hp). unfold placed in *. by rewrite Hc in H5.
Qed.

(** What [Load] and [Reload] read, each scenario with an object of its own. *)
Record readable (ps : list Ptr') : Prop := {
  rd_ok : registry_ok (map obj ps);
  rd_names : NoDup (map Name (map obj ps));
  rd_addrs : NoDup (map addr ps);
  rd_routes : Forall (λ p, routes_compiled (obj p)) ps
}.

Lemma represents_reload D r l ps :
  represents r l → readable ps →
  (∀ r', Reload D ps r = Some r' → represents r' (map obj ps)) ∧
  (is_Some (Reload D ps r) ↔ is_Some (reloadWith l (map obj ps))).
Proof using.
  intros Hr [Hok Hn Ha Hc].
  pose proof (represents_load _ ps (new_sized D (config r) (bodyPattern r)) Hok Hn Ha Hc) as Hnext.
  unfold Reload, reloadWith. set (next := Load ps _) in *.
  assert (Hcfg : config next = config r).
  { unfold next, Load. cbn [finish_mutation config].
    destruct (foldl_index _ ps (emptied_wf _ (new_sized D (config r) (bodyPattern r)))) as (_ & -> & _). cbn.
    exact (wf_config _ (rep_wf _ _ Hr)). }
  rewrite (topology_ext _ l _ (map obj ps) (List_objs r l Hr) (List_objs _ _ Hnext)).
  destruct (ValidateExactRouteTopology l (map obj ps)).
  - split; [|split; by eexists]. intros r' [= <-]. by apply represents_replace.
  - split; [done|]. split; by intros [].
Qed.

(** The registries that one call of [Load] and then any calls of [Reload], [Add]
    and [Remove] lead to, the sharded one and the plain one: each scenario has
    an object of its own, and names are not repeated in a file. *)
Inductive reached : Registry' → list Scenario' → Prop :=
| reached_load r ps : sized r → readable ps → reached (Load ps r) (map obj ps)
| reached_reload D r l ps r' :
    reached r l → readable ps → Reload D ps r = Some r' → reached r' (map obj ps)
| reached_add r l p :
    reached r l → routes_compiled (obj p) → (∀ x, x ∈ all_pointers r → addr x ≠ addr p) →
    reached (Sharded.Add p r) (addValidated (obj p) l)
| reached_remove r l name :
    reached r l → reached (Sharded.Remove name r).2 (default l (Scenario.Remove name l)).

Lemma reached_represents r l : reached r l → represents r l.
Proof using.
  induction 1 as [r ps Hs []|D r l ps r' _ IH Hps Hre|r l p _ IH|r l name _ IH].
  - by apply represents_load.
  - by apply (represents_reload D r l ps IH Hps).
  - by apply represents_add.
  - by apply represents_remove.
Qed.

(** The sharded registry holds what the plain registry holds after the same
    calls: after a [Load] and any sequence of [Reload], [Add] and [Remove], the scenarios
    of its shards and of its list kept aside are those of the plain registry,
    with the orders the plain registry gives them, without two of one name;
    each is in every shard and under every key where requests for it are looked
    up, or kept aside; every index entry is a scenario of its shard; and
    removing a name fails exactly when the plain registry has no such scenario. *)
Theorem sharded_simulates r l :
  reached r l →
  (∀ s, s ∈ l ↔ ∃ p, p ∈ List r ∧ obj p = s) ∧ registry_ok l ∧ NoDup (map Name l) ∧
  (∀ p, p ∈ List r → placed r p) ∧
  (∀ i shard key p, shards r !! i = Some shard → p ∈ default [] (index shard !! key) →
     p ∈ shard_scenarios shard ∧ p ∈ List r) ∧
  (∀ name, (Sharded.Remove name r).1 = true ↔ is_Some (Scenario.Remove name l)) ∧
  (∀ D ps, readable ps → is_Some (Reload D ps r) ↔ is_Some (reloadWith l (map obj ps))).
Proof using.
  intros Hr%reached_represents. pose proof Hr as [Hw Hu Hok Hn Ho]. split_and!; [|done|done| | | |].
  - intros s. rewrite Ho. by setoid_rewrite (List_elem r _ Hu).
  - intros p Hp. apply (wf_placed r Hw). by apply List_elem.
  - intros i shard key p Hi Hp. split; [by eapply (wf_index r Hw)|]. apply List_elem; [done|].
    eapply shard_in_all; [done|]. by eapply (wf_index r Hw).
  - intros name. by apply represents_remove.
  - intros D ps Hps. by apply represents_reload.
Qed.
End Placement.

(** ** Matching *)

Section Matching.
Context {Regexp : Type}.
Context (FindStringSubmatch : Regexp → string → option (list string)).
Context (SubexpNames : Regexp → list string).
Context (ParseMediaType : string → option (string * gmap string string)).
Context {IP IPNet : Type} (ParseIP : string → option IP) (Contains : IPNet → IP → bool).
Context {Response : Type}.
Context {R : Type} `{Reader R} (grow : nat → nat → nat) (fuel : nat) (sizes : nat → nat).
Context (Compile : string → option Regexp).

Notation Scenario' := (Scenario (Regexp := Regexp) (IPNet := IPNet) (Response := Response)).
Notation Ptr' := (Ptr (Regexp := Regexp) (IPNet := IPNet) (Response := Response)).
Notation Registry' := (Registry (Regexp := Regexp) (IPNet := IPNet) (Response := Response)).
Notation Request' := (Request (R := R)).
Notation conditions := (conditions FindStringSubmatch SubexpNames ParseMediaType ParseIP Contains grow fuel sizes).
Notation same_view := (same_view grow fuel sizes).
Notation plain_match := (Scenario.Match FindStringSubmatch SubexpNames ParseMediaType ParseIP Contains grow fuel sizes).
Notation sharded_match := (Sharded.Match FindStringSubmatch SubexpNames ParseMediaType ParseIP Contains grow fuel sizes).
Notation best_among := (best_among FindStringSubmatch SubexpNames ParseMediaType ParseIP Contains grow fuel sizes).
Notation best_within := (best_within FindStringSubmatch SubexpNames ParseMediaType ParseIP Contains grow fuel sizes).
Notation sound_scenario := (sound_scenario FindStringSubmatch Compile).
Implicit Types (r : Registry') (p : Ptr') (s : Scenario') (l : list Scenario') (q : Request').

(** What the plain registry answers when no condition ends in an error. *)
Lemma plain_best l o q :
  registry_ok l → Forall (λ s, is_ok (conditions s o q) = true) l →
  match (plain_match l o (state_of q)).1 with
  | Ok s => s ∈ l ∧ conditions s o q = Ok true ∧
            ∀ s', s' ∈ l → conditions s' o q = Ok true → s' = s ∨ outranks s s'
  | Err (NoScenarioMatched _) => ∀ s, s ∈ l → conditions s o q ≠ Ok true
  | Err _ => False
  end.
Proof using.
  intros Hok He. unfold Scenario.Match, mbind', ctxAlive. cbn [st_ctx state_of].
  destruct (matchLoop_spec FindStringSubmatch SubexpNames ParseMediaType ParseIP Contains grow fuel sizes o l 0 q)
    as (tried & rest & res & q' & -> & -> & _ & Hf & Hrest). cbn [fst].
  rewrite Forall_forall in Hf. destruct rest as [|s rest].
  { destruct Hrest as [-> _]. rewrite app_nil_r. intros s Hs. by rewrite (Hf s Hs). }
  destruct Hrest as [_ [(Hc & -> & _)|(e & Hc & _)]].
  2:{ apply Forall_app in He as [_ He]. apply Forall_cons in He as [He _]. by rewrite Hc in He. }
  destruct (registry_ok_app _ _ _ Hok) as [_ Hafter]. rewrite Forall_forall in Hafter.
  split_and!; [set_solver|done|]. intros s' Hs' Hc'. apply elem_of_app in Hs' as [Hs'|Hs'].
  - by rewrite (Hf _ Hs') in Hc'.
  - apply elem_of_cons in Hs' as [->|Hs']; [by left|right; by apply Hafter].
Qed.

(** The entries of a lookup that missed. *)
Definition cache_missed (r : Registry') (q : Request') : Prop :=
  ∀ c, matchCache r = Some c → (abs_get (buildCacheKey q) (generation r) c).1 = None.

Definition search (r : Registry') : MM (option Ptr') :=
  mbind' (matchShardedAndFallback FindStringSubmatch SubexpNames ParseMediaType ParseIP Contains grow fuel sizes r)
    (λ current, applyGlobalPriorityCandidate FindStringSubmatch SubexpNames ParseMediaType ParseIP Contains
                  grow fuel sizes r current).

Lemma match_missed r q best q' :
  cache_missed r q → search r (state_of q) = (Ok best, state_of q') →
  (sharded_match r (state_of q)).1 = (Ok best, state_of q').
Proof using.
  intros Hmiss Hs. unfold Sharded.Match, ctxAlive at 1. cbn [st_ctx st_req state_of].
  set (looked := match matchCache r with None => _ | Some c => _ end).
  assert (Hl : looked.1 = None ∧ (looked.2 = r ∨ ∃ c, looked.2 = with_cache (Some c) r)).
  { unfold looked. destruct (matchCache r) as [c|] eqn:Ec; [|split; [done|by left]].
    split; [by apply Hmiss|right; by eexists]. }
  destruct Hl as [-> Hr]. clearbody looked. fold (search looked.2) (state_of q).
  assert (Hs' : search looked.2 (state_of q) = (Ok best, state_of q')) by (destruct Hr as [->|[c ->]]; exact Hs).
  rewrite Hs'. by destruct best.
Qed.

Lemma cond_route o q s : conditions s o q = Ok true → routeCondition FindStringSubmatch SubexpNames s q = true.
Proof using. unfold Scenario.conditions. by destruct (routeCondition _ _ s q). Qed.

Context {Hlaws : RegexpLaws FindStringSubmatch SubexpNames Compile}.

Lemma represents_search r l q :
  represents r l → Forall sound_scenario l → q_Method q ≠ "" →
  Forall (λ s, is_ok (conditions s (bodyPattern r) q) = true) l →
  ∃ best q', search r (state_of q) = (Ok best, state_of q') ∧ same_view (bodyPattern r) q q' ∧
             best_within (λ p, indexable (ShardCount (config r)) (obj p)) (bodyPattern r) q (all_pointers r) best ∧
             ∃ q1, same_view (bodyPattern r) q q1 ∧
                   (best_of FindStringSubmatch SubexpNames ParseMediaType ParseIP Contains grow fuel sizes
                      (bodyPattern r) (globalScenarios r) None (state_of q1)).2 = state_of q'.
Proof using Hlaws.
  intros [Hw Hu _ _ Ho] Hs Hq He. rewrite !Forall_forall in *.
  assert (Hobj : ∀ p, p ∈ all_pointers r → obj p ∈ l) by (intros p Hp; apply Ho; by exists p).
  destruct (lookup_lt_is_Some_2 (shards r) (getShardForRequest r q)) as [shard Hshard].
  { apply hashString_bound; apply Hw. }
  apply (search_best FindStringSubmatch SubexpNames ParseMediaType ParseIP Contains grow fuel sizes _ r shard q Hshard).
  - by apply unambiguous_distinct.
  - apply Forall_forall. intros p Hp. by apply He, Hobj.
  - split; [intros key p; by eapply (wf_index r Hw)|]. intros p Hp Hi Hc.
    destruct (placed_found FindStringSubmatch SubexpNames Compile r p q) as [?|(shard' & key & Hs' & Hk & Hin)];
      [by apply (wf_placed r Hw)|by apply Hs, Hobj|exact Hi|done|by eapply cond_route|by left|right].
    rewrite Hshard in Hs'. injection Hs' as <-. by exists key.
Qed.

(** A best scenario of the sharded registry against the one of the plain registry. *)
Lemma best_is_plain P r l q best :
  represents r l → Forall (λ s, is_ok (conditions s (bodyPattern r) q) = true) l →
  best_within P (bodyPattern r) q (all_pointers r) best →
  match best, (plain_match l (bodyPattern r) (state_of q)).1 with
  | Some p, Ok s => p ∈ List r ∧ conditions (obj p) (bodyPattern r) q = Ok true ∧
      ((∀ p', p' ∈ List r → obj p' = s → P p') → obj p = s)
  | None, Err (NoScenarioMatched _) => True
  | _, _ => False
  end.
Proof using.
  intros [_ Hu Hok _ Ho] He Hb. pose proof (plain_best l (bodyPattern r) q Hok He) as Hp.
  destruct best as [p|], (plain_match l (bodyPattern r) (state_of q)).1 as [s|[| | |n]]; try done.
  - destruct Hb as (Hin & Hc & Hbest). assert (Hpl : obj p ∈ l) by (apply Ho; by exists p).
    destruct Hp as (Hs' & Hcs & Hall). split; [by apply List_elem|]. split; [done|]. intros HP.
    destruct (Hall _ Hpl Hc) as [?|Ho']; [done|]. apply Ho in Hs' as (p' & Hp' & <-).
    unfold outranks in Ho'. by rewrite (Hbest p' Hp' (HP p' (proj2 (List_elem r p' Hu) Hp') eq_refl) Hcs) in Ho'.
  - destruct Hb as (Hin & Hc & _). apply (Hp (obj p)); [|done]. apply Ho. by exists p.
  - destruct Hp as (Hs' & Hcs & _). apply Ho in Hs' as (p' & Hp' & <-). by apply (Hb p').
Qed.

(** C16: the sharded registry answers as the plain one: when the cache has no
    entry for the request, and no scenario's body condition ends in an error,
    the search over the shard of the request's path, then over all shards, then
    over the scenarios kept aside gives a scenario that matches, and the default
    scenario exactly when the plain registry finds none. It is the scenario that the
    plain registry finds in priority order whenever the index can hold that one:
    whenever its path is its own index prefix, or it is indexed by exact routes, or
    kept aside. (A scenario with one literal endpoint with a character of ["*?[(+$."] is
    under another key; then a scenario of a lower priority may be the answer.) The
    scenarios are compiled ones, none of whose endpoints has U+FFFD in it, and the
    request has a method. *)
Theorem sharded_refines_plain r l q :
  reached FindStringSubmatch Compile r l → Forall sound_scenario l → q_Method q ≠ "" →
  Forall (λ s, is_ok (conditions s (bodyPattern r) q) = true) l → cache_missed r q →
  match (sharded_match r (state_of q)).1.1, (plain_match l (bodyPattern r) (state_of q)).1 with
  | Ok (Some p), Ok s => p ∈ List r ∧ conditions (obj p) (bodyPattern r) q = Ok true ∧
      (indexable (ShardCount (config r)) s → obj p = s)
  | Ok None, Err (NoScenarioMatched _) => True
  | _, _ => False
  end.
Proof using Hlaws.
  intros Hr%reached_represents Hs Hq He Hmiss.
  destruct (represents_search r l q Hr Hs Hq He) as (best & q' & Hf & _ & Hb & _).
  rewrite (match_missed r q best q' Hmiss Hf). cbn [fst]. pose proof (best_is_plain _ r l q best Hr He Hb) as H'.
  destruct best as [p|], (plain_match l (bodyPattern r) (state_of q)).1 as [s|e]; try done.
  destruct H' as (Hin & Hc & Hp). split_and!; [done..|]. intros Hi. apply Hp. by intros p' _ ->.
Qed.

(** The branch a request carries after the sharded registry has answered is
    not the answer's: the search ends with the scenarios kept aside, and when
    the last of them matches and has no branches, as the default scenario at the
    end of a loaded registry does, the request carries no branch, whichever
    scenario was chosen. *)
Theorem sharded_branch_lost r l q g d :
  reached FindStringSubmatch Compile r l → Forall sound_scenario l → q_Method q ≠ "" →
  Forall (λ s, is_ok (conditions s (bodyPattern r) q) = true) l → cache_missed r q →
  globalScenarios r = g ++ [d] → Branches (obj d) = [] → conditions (obj d) (bodyPattern r) q = Ok true →
  ∃ p q', (sharded_match r (state_of q)).1 = (Ok (Some p), state_of q') ∧ MatchedBranch q' = (0, false).
Proof using Hlaws.
  intros Hr%reached_represents Hs Hq He Hmiss Hg Hd Hc.
  destruct (represents_search r l q Hr Hs Hq He) as (best & q' & Hf & _ & Hb & q1 & Hv & Hlast).
  rewrite (match_missed r q best q' Hmiss Hf).
  assert (Hin : d ∈ all_pointers r) by (apply all_pointers_elem; right; rewrite Hg; set_solver).
  destruct best as [p|]; [|by destruct (Hb d)]. exists p, q'. split; [done|].
  rewrite Hg in Hlast. destruct (best_of_last_branch FindStringSubmatch SubexpNames ParseMediaType ParseIP Contains
    grow fuel sizes (bodyPattern r) g d None q1) as (q2 & E & Hbr).
  - apply (no_errors_view _ _ _ _ _ _ _ _ _ q _ _ Hv). apply Forall_forall. intros x Hx.
    rewrite Forall_forall in He. apply He, (rep_objs _ _ Hr). exists x. split; [|done].
    apply all_pointers_elem. right. by rewrite Hg.
  - by rewrite (conditions_view _ _ _ _ _ _ _ _ _ q q1 _ Hv).
  - rewrite Hlast in E. injection E as <-. unfold branch_chosen in Hbr. by rewrite bool_decide_true in Hbr.
Qed.
End Matching.

(** ** A registry of four shards *)

Module Shards.
Definition endpoint (path : string) : compiledEndpoint :=
  {| re := Some (rx_of (pieces path)); raw := path; captures := [] |}.
Definition rule (routes : gmap string (list string)) (paths methods : list string) : MatchRule :=
  {| Routes := routes; Path := ""; Paths := paths; Methods := methods; mr_HTTPMethod := ""; HTTPURL := "";
     Headers := ∅; HeaderContains := ∅; HTTPHeaders := ∅; HTTPHeaderContains := ∅; BodyPattern := "";
     ClientIP := ""; CIDRRanges := [] |}.
Definition scenario (name : string) (priority n : Z) (r : MatchRule) (routes : option (gmap string (list compiledEndpoint)))
    (paths : list compiledEndpoint) (branches : list (Branch (Regexp := list Atom) (Response := nat)))
  : Scenario (Regexp := list Atom) (IPNet := string) (Response := nat) :=
  {| Name := name; Match_ := r; rules := Demo.fresh_rules; compiledBody := None; compiledRoutes := routes;
     compiledPaths := paths; compiledCIDRs := []; Branches := branches; s_Response := 204%nat;
     Priority := priority; order := n |}.
Definition branch : Branch :=
  {| b_Match := rule ∅ [] []; b_rules := Demo.fresh_rules; b_Response := 200%nat |}.
Definition scan : Scenario :=
  scenario "scan" 10 0 (rule {[ MethodREQMOD := ["/scan"] ]} ["/scan"] [])
    (Some {[ MethodREQMOD := [endpoint "/scan"] ]}) [endpoint "/scan"] [].
Definition av (branches : list Branch) : Scenario :=
  scenario "av" 5 1 (rule ∅ ["/av"] [MethodREQMOD; MethodRESPMOD]) None [endpoint "/av"] branches.
Definition fallback : Scenario := scenario "default" (-1) 2 (rule ∅ [] []) None [] [].
Definition pointers (branches : list Branch) : list Ptr :=
  [{| addr := 100; obj := scan |}; {| addr := 101; obj := av branches |}; {| addr := 102; obj := fallback |}].
Definition fresh : Registry :=
  newShardedScenarioRegistryWithConfig fallback {| ShardCount := 4; CacheSize := 2; EnableCache := true |}
    DefaultBodyPatternOptions.
Definition loaded (branches : list Branch) : Registry := Load (pointers branches) fresh.
Definition request (uri : string) : Request (R := ChunkedConn) :=
  {| q_Method := MethodREQMOD; q_URI := uri; q_Header := ∅; q_HTTPRequest := None; q_HTTPResponse := None;
     q_ClientIP := "10.0.0.1"; q_Preview := 0; q_PreviewSet := false; Captures := None; matchedBranch := 0; matchedBranchSet := false |}.
Definition grow : nat → nat → nat := λ c n, Nat.max c n.

Lemma fresh_sized : sized fresh.
Proof. split; vm_compute; reflexivity. Qed.

Lemma scan_sound : sound_scenario Engine.find Engine.Compile scan.
Proof.
  split.
  - vm_compute. reflexivity.
  - intros _. vm_compute. reflexivity.
  - intros m path Hin. vm_compute in Hin. apply list_elem_of_singleton in Hin as [= _ ->]. left.
  - intros raw Hin. apply list_elem_of_singleton in Hin as ->. vm_compute. reflexivity.
Qed.

Lemma av_sound branches : sound_scenario Engine.find Engine.Compile (av branches).
Proof.
  split.
  - vm_compute. reflexivity.
  - intros _. vm_compute. reflexivity.
  - intros m path Hin. vm_compute in Hin. by apply elem_of_nil in Hin.
  - intros raw Hin. apply list_elem_of_singleton in Hin as ->. vm_compute. reflexivity.
Qed.

Lemma fallback_sound : sound_scenario Engine.find Engine.Compile fallback.
Proof.
  split.
  - vm_compute. reflexivity.
  - intros Hn. by destruct Hn.
  - intros m path Hin. vm_compute in Hin. by apply elem_of_nil in Hin.
  - intros raw Hin. by apply elem_of_nil in Hin.
Qed.

Lemma all_sound branches : Forall (sound_scenario Engine.find Engine.Compile) (map obj (pointers branches)).
Proof.
  apply Forall_cons. split; [exact scan_sound|]. apply Forall_cons. split; [apply av_sound|].
  apply Forall_cons. split; [exact fallback_sound|]. by apply Forall_nil.
Qed.

Lemma all_indexable branches : Forall (indexable 4) (map obj (pointers branches)).
Proof.
  apply Forall_cons. split; [intros path Hn; vm_compute in Hn; discriminate Hn|].
  apply Forall_cons. split; [by intros path _ [= <-]|].
  apply Forall_cons. split; [by intros path _ [=]|]. by apply Forall_nil.
Qed.

Lemma all_ok branches : registry_ok (map obj (pointers branches)).
Proof.
  cbn [map pointers obj]. split.
  - repeat first [apply Sorted.SSorted_nil | apply Sorted.SSorted_cons | apply Forall_cons; split | apply Forall_nil; done | reflexivity].
  - repeat (apply NoDup_cons; split; [set_solver|]). apply NoDup_nil_2.
Qed.

Lemma loaded_reached branches : reached Engine.find Engine.Compile (loaded branches) (map obj (pointers branches)).
Proof.
  apply reached_load; [exact fresh_sized|]. split; [apply all_ok| | |].
  - repeat (apply NoDup_cons; split; [set_solver|]). apply NoDup_nil_2.
  - repeat (apply NoDup_cons; split; [set_solver|]). apply NoDup_nil_2.
  - pose proof (all_sound branches) as Hs. rewrite Forall_forall in Hs. apply Forall_forall. intros p Hp.
    apply (Hs (obj p)). by apply list_elem_of_fmap_2.
Qed.
End Shards.

Lemma sharded_simulates_witness :
  let r := (Sharded.Remove "scan" (Sharded.Add {| addr := 103; obj := Shards.av [] |} (Shards.loaded []))).2 in
  (∃ p, p ∈ List r ∧ obj p = Shards.av [] ∧ placed r p) ∧ (Sharded.Remove "scan" r).1 ≠ true.
Proof.
  cbv zeta. set (r := (Sharded.Remove _ _).2).
  assert (Hr : reached Engine.find Engine.Compile r [Shards.av []; Shards.fallback]).
  { refine (reached_remove _ _ _ _ "scan" (reached_add _ _ _ _ {| addr := 103; obj := Shards.av [] |}
      (Shards.loaded_reached []) _ _)).
    - vm_compute. reflexivity.
    - apply Forall_forall, (bool_decide_unpack _). vm_compute. exact I. }
  destruct (sharded_simulates Engine.find Engine.Compile r _ Hr) as (Ho & _ & _ & Hp & _ & Hrem & _). split.
  - destruct (proj1 (Ho (Shards.av []))) as (p & Hin & Hobj); [left|]. exists p. split_and!; [exact Hin|exact Hobj|by apply Hp].
  - intros E. destruct (proj1 (Hrem "scan") E) as [l' Hl]. discriminate Hl.
Defined.


Notation demo_match :=
  (Sharded.Match Engine.find Engine.names (λ _, None) Some String.eqb Shards.grow 10 (λ _, 4%nat)).
Notation demo_plain :=
  (Scenario.Match Engine.find Engine.names (λ _, None) Some String.eqb Shards.grow 10 (λ _, 4%nat)).

Lemma sharded_refines_plain_witness :
  ∃ p, (demo_match (Shards.loaded []) (state_of (Shards.request "icap://host/av?x=1"))).1.1 = Ok (Some p) ∧
       p ∈ List (Shards.loaded []) ∧ obj p = Shards.av [].
Proof.
  assert (Hok : Forall (λ s, is_ok (Scenario.conditions Engine.find Engine.names (λ _, None) Some String.eqb Shards.grow 10
    (λ _, 4%nat) s (bodyPattern (Shards.loaded [])) (Shards.request "icap://host/av?x=1")) = true)
    (map obj (Shards.pointers []))) by (apply (bool_decide_unpack _); vm_compute; exact I).
  assert (Hmiss : cache_missed (Shards.loaded []) (Shards.request "icap://host/av?x=1")).
  { intros c Hc. vm_compute in Hc. injection Hc as <-. vm_compute. reflexivity. }
  pose proof (sharded_refines_plain Engine.find Engine.names (λ _, None) Some String.eqb Shards.grow 10 (λ _, 4%nat)
    Engine.Compile (Shards.loaded []) _ (Shards.request "icap://host/av?x=1") (Shards.loaded_reached [])
    (Shards.all_sound []) ltac:(discriminate) Hok Hmiss) as Ht.
  assert (Hp : (demo_plain (map obj (Shards.pointers [])) (bodyPattern (Shards.loaded []))
    (state_of (Shards.request "icap://host/av?x=1"))).1 = Ok (Shards.av [])) by (vm_compute; reflexivity).
  rewrite Hp in Ht.
  destruct (demo_match (Shards.loaded []) (state_of (Shards.request "icap://host/av?x=1"))).1.1 as [[p|]|e];
    [|destruct Ht..]. exists p. split; [reflexivity|]. destruct Ht as (Hin & _ & Hobj). split; [exact Hin|]. apply Hobj.
  intros path _ [= <-]. reflexivity.
Defined.

(** The scenario with a branch is the answer, and no branch comes with it. *)
Lemma sharded_branch_lost_witness :
  ∃ p q', (demo_match (Shards.loaded [Shards.branch]) (state_of (Shards.request "icap://host/av"))).1 =
            (Ok (Some p), state_of q') ∧ MatchedBranch q' = (0, false) ∧ Branches (obj p) = [Shards.branch].
Proof.
  destruct (sharded_branch_lost Engine.find Engine.names (λ _, None) Some String.eqb Shards.grow 10 (λ _, 4%nat)
    Engine.Compile (Shards.loaded [Shards.branch]) _ (Shards.request "icap://host/av") [] {| addr := 102; obj := Shards.fallback |}
    (Shards.loaded_reached [Shards.branch]) (Shards.all_sound [Shards.branch]))
    as (p & q' & Hm & Hb).
  - discriminate.
  - apply (bool_decide_unpack _). vm_compute. exact I.
  - intros c Hc. vm_compute in Hc. discriminate Hc.
  - vm_compute. reflexivity.
  - reflexivity.
  - vm_compute. reflexivity.
  - exists p, q'. split; [exact Hm|]. split; [exact Hb|].
    assert (Ha : (demo_match (Shards.loaded [Shards.branch]) (state_of (Shards.request "icap://host/av"))).1.1 =
      Ok (Some {| addr := 101; obj := Shards.av [Shards.branch] |})) by (vm_compute; reflexivity).
    rewrite Hm in Ha. injection Ha as ->. reflexivity.
Defined.
