(* ===== verification/ShardedCache.v ===== *)
(** * The match cache of the sharded registry is transparent

    For scenarios the shards can index, and requests whose fields have no ['|'] of
    their own, requests answered from the cache of [Sharded] get the scenario that the
    plain registry of [Scenario] gives: the cache is off when a scenario reads
    anything that is not in its keys, and changing the registry makes what was
    stored before unusable. *)
From S2P Require Import Prelude GoInt GoStrings Header Chunked Message Scenario Regexp Compile MatchCache Sharded ShardedSpec.

Local Open Scope Z_scope.

(** ** Keys *)

Definition bar : ascii := ascii_of_nat 124.

Lemma bar_split a b a' b' :
  bar ∉ bytes_of a → bar ∉ bytes_of a' → a +:+ "|" +:+ b = a' +:+ "|" +:+ b' → a = a' ∧ b = b'.
Proof.
  intros Ha Ha' E.
  pose proof (index_byte_app a bar b Ha) as Hi. pose proof (index_byte_app a' bar b' Ha') as Hi'.
  change (String bar b) with ("|" +:+ b) in Hi. change (String bar b') with ("|" +:+ b') in Hi'.
  rewrite E, Hi' in Hi. injection Hi as Hl.
  assert (a = a') as <-.
  { rewrite <- (str_take_app a ("|" +:+ b)), <- Hl, E. apply str_take_app. }
  split; [done|]. apply str_app_inv_l in E. by injection E.
Qed.

Section Transparent.
Context {Regexp : Type}.
Context (FindStringSubmatch : Regexp → string → option (list string)).
Context (SubexpNames : Regexp → list string).
Context (ParseMediaType : string → option (string * gmap string string)).
Context {IP IPNet : Type} (ParseIP : string → option IP) (Contains : IPNet → IP → bool).
Context {Response : Type}.
Context {R : Type} `{Reader R} (grow : nat → nat → nat) (fuel : nat) (sizes : nat → nat).
Context (Compile : string → option Regexp) {Hlaws : RegexpLaws FindStringSubmatch SubexpNames Compile}.

Notation Scenario' := (Scenario (Regexp := Regexp) (IPNet := IPNet) (Response := Response)).
Notation Ptr' := (Ptr (Regexp := Regexp) (IPNet := IPNet) (Response := Response)).
Notation Registry' := (Registry (Regexp := Regexp) (IPNet := IPNet) (Response := Response)).
Notation Request' := (Request (R := R)).
Notation conditions := (conditions FindStringSubmatch SubexpNames ParseMediaType ParseIP Contains grow fuel sizes).
Notation same_view := (same_view grow fuel sizes).
Notation plain_match := (Scenario.Match FindStringSubmatch SubexpNames ParseMediaType ParseIP Contains grow fuel sizes).
Notation sharded_match := (Sharded.Match FindStringSubmatch SubexpNames ParseMediaType ParseIP Contains grow fuel sizes).
Notation best_among := (best_among FindStringSubmatch SubexpNames ParseMediaType ParseIP Contains grow fuel sizes).
Notation search := (search FindStringSubmatch SubexpNames ParseMediaType ParseIP Contains grow fuel sizes).
Notation sound_scenario := (sound_scenario FindStringSubmatch Compile).
Implicit Types (r : Registry') (p : Ptr') (s : Scenario') (l : list Scenario') (q : Request').

(** A request whose key tells its fields apart. *)
Definition clean (q : Request') : Prop :=
  q_Method q ≠ "" ∧ bar ∉ bytes_of (q_Method q) ∧ bar ∉ bytes_of (q_URI q) ∧
  match q_HTTPRequest q with
  | None => True
  | Some m => msg_Method m ≠ "" ∧ bar ∉ bytes_of (msg_Method m) ∧ bar ∉ bytes_of (msg_URI m)
  end.

(** What a key stands for. *)
Lemma buildCacheKey_fields q q' :
  clean q → clean q' → buildCacheKey q = buildCacheKey q' →
  q_Method q = q_Method q' ∧ q_URI q = q_URI q' ∧
  (λ m, (msg_Method m, msg_URI m)) <$> q_HTTPRequest q = (λ m, (msg_Method m, msg_URI m)) <$> q_HTTPRequest q'.
Proof using.
  intros (_ & Hm & Hu & Hh) (_ & Hm' & Hu' & Hh') E. unfold buildCacheKey in E.
  apply bar_split in E as [-> E]; [|done..]. apply bar_split in E as [-> E]; [|done..]. split_and!; [done..|].
  assert (Hempty : bar ∉ bytes_of "") by apply not_elem_of_nil.
  destruct (q_HTTPRequest q) as [m|], (q_HTTPRequest q') as [m'|]; cbn [fmap option_fmap option_map].
  - destruct Hh as (_ & ? & ?), Hh' as (_ & ? & ?).
    apply bar_split in E as [-> E]; [|done..]. by apply bar_split in E as [-> _].
  - destruct Hh as (Hne & ? & _). by apply bar_split in E as [? _].
  - destruct Hh' as (Hne & ? & _). by apply bar_split in E as [? _].
  - done.
Qed.

(** What compilation leaves of a rule that is not declared. *)
Record nothing_undeclared (s : Scenario') : Prop := {
  nu_body : BodyPattern (Match_ s) = "" → compiledBody s = None;
  nu_lists : HeaderContains (Match_ s) = ∅ → compiledHeaderLists (rules s) = ∅;
  nu_http_lists : HTTPHeaderContains (Match_ s) = ∅ → compiledHTTPLists (rules s) = ∅;
  nu_cidrs : CIDRRanges (Match_ s) = [] → compiledCIDRs s = []
}.

(** Without rules that rule the cache out, routes, method and URL decide. *)
Definition static_conditions (s : Scenario') (q : Request') : bool :=
  routeCondition FindStringSubmatch SubexpNames s q && httpMethodMatches (Match_ s) q
  && httpURLMatches FindStringSubmatch (Match_ s) (rules s) q.

Lemma conditions_static o s q :
  nothing_undeclared s → scenarioDisablesMatchCache s = false → conditions s o q = Ok (static_conditions s q).
Proof using.
  intros Hn Hd. unfold scenarioDisablesMatchCache, hasDynamicMatchRule in Hd. rewrite !orb_false_iff, !negb_false_iff in Hd.
  destruct Hd as [[[[[[[[Hh Hhc] Hhh] Hhhc] Hip] Hcidr] Hb] _] Hbr].
  apply bool_decide_eq_true in Hh, Hhc, Hhh, Hhhc, Hcidr, Hbr. apply String.eqb_eq in Hip, Hb.
  unfold Scenario.conditions, static_conditions, checkHTTP, bodyCondition, checkClient, branchCondition, httpHeadersMatch.
  rewrite (nu_body _ Hn Hb), (nu_cidrs _ Hn Hcidr), Hh, Hhh, Hhhc, Hip, Hbr. unfold headerRulesMatch.
  rewrite (nu_lists _ Hn Hhc), !map_to_list_empty. rewrite !bool_decide_true by done. cbn [forallb andb orb].
  destruct (routeCondition _ _ s q), (httpMethodMatches _ q), (httpURLMatches _ _ _ q); done.
Qed.

Lemma static_conditions_key s q q' :
  clean q → clean q' → buildCacheKey q = buildCacheKey q' → static_conditions s q = static_conditions s q'.
Proof using.
  intros Hc Hc' E. destruct (buildCacheKey_fields q q' Hc Hc' E) as (Em & Eu & Eh).
  unfold static_conditions, routeCondition, httpMethodMatches, httpURLMatches. rewrite Em, Eu.
  destruct (q_HTTPRequest q) as [m|], (q_HTTPRequest q') as [m'|]; try done.
  cbn [fmap option_fmap option_map] in Eh. by injection Eh as -> ->.
Qed.

(** ** Calls and requests in any order *)

(** A scenario that the loader has compiled for a registry of [n] shards. *)
Definition compiled_for (n : Z) (s : Scenario') : Prop :=
  sound_scenario s ∧ indexable n s ∧ nothing_undeclared s.

Lemma compiled_for_order n m s : compiled_for n s → compiled_for n (with_order m s).
Proof using. intros ([] & Hi & []). split; [by constructor|]. split; [exact Hi|by constructor]. Qed.

(** A call of [Load], then calls of [Reload], [Add], [Remove] and [Match]. *)
Inductive served : Registry' → list Scenario' → Prop :=
| served_load r ps :
    sized r → readable FindStringSubmatch Compile ps →
    Forall (λ p, compiled_for (ShardCount (config r)) (obj p)) ps → served (Load ps r) (map obj ps)
| served_reload D r l ps r' :
    served r l → readable FindStringSubmatch Compile ps →
    Forall (λ p, compiled_for (ShardCount (config r)) (obj p)) ps → Reload D ps r = Some r' →
    served r' (map obj ps)
| served_add r l p :
    served r l → compiled_for (ShardCount (config r)) (obj p) →
    (∀ x, x ∈ all_pointers r → addr x ≠ addr p) → served (Sharded.Add p r) (addValidated (obj p) l)
| served_remove r l name :
    served r l → served (Sharded.Remove name r).2 (default l (Scenario.Remove name l))
| served_match r l q :
    served r l → clean q → served (sharded_match r (state_of q)).2 l.

(** An entry of the current generation is the best scenario for its key. *)
Definition entry_right (r : Registry') (e : Entry (V := Ptr')) : Prop :=
  ce_generation e = generation r → ∃ q, clean q ∧ ce_key e = buildCacheKey q ∧
    best_among (bodyPattern r) q (all_pointers r) (Some (ce_scenario e)).

Record serving (r : Registry') (l : list Scenario') : Prop := {
  srv_represents : represents r l;
  srv_compiled : Forall (compiled_for (ShardCount (config r))) l;
  srv_flag : cacheDisabledForComplexMatch r = false → ∀ p, p ∈ all_pointers r → scenarioDisablesMatchCache (obj p) = false;
  srv_cache : ∀ c e, cache r = Some c → e ∈ c → ce_generation e ≤ generation r;
  srv_entries : ∀ c e, matchCache r = Some c → e ∈ c → entry_right r e
}.

Definition flag_right (r : Registry') : Prop :=
  cacheDisabledForComplexMatch r = false → ∀ p, p ∈ all_pointers r → scenarioDisablesMatchCache (obj p) = false.

Lemma disable_none (ps : list Ptr') :
  scenariosDisableMatchCache ps = false → ∀ p, p ∈ ps → scenarioDisablesMatchCache (obj p) = false.
Proof using.
  intros Hd p Hp. destruct (scenarioDisablesMatchCache (obj p)) eqn:E; [|done]. unfold scenariosDisableMatchCache in Hd.
  rewrite (proj2 (existsb_exists _ _)) in Hd; [done|]. exists p. by rewrite <- list_elem_of_In.
Qed.

Lemma remove_flag name r r' : remove name r = Some r' → flag_right r'.
Proof using.
  unfold remove. destruct (negb _); [done|]. intros [= <-] Hf p Hp. cbn [cacheDisabledForComplexMatch] in Hf.
  apply orb_false_iff in Hf as [Hs Hg]. apply all_pointers_elem in Hp as [(i & shard & Hi & Hp)|Hp].
  - cbn [shards] in Hi. apply (disable_none (shard_scenarios shard)); [|done].
    destruct (scenariosDisableMatchCache (shard_scenarios shard)) eqn:E; [|done].
    rewrite (proj2 (existsb_exists _ _)) in Hs; [done|]. exists shard. rewrite <- list_elem_of_In.
    split; [by eapply list_elem_of_lookup_2|done].
  - by apply (disable_none _ Hg).
Qed.

Lemma remove_config name r r' : remove name r = Some r' →
  config r' = config r ∧ cache r' = (λ _, []) <$> cache r.
Proof using. unfold remove. destruct (negb _); [done|]. by intros [= <-]. Qed.

Lemma indexScenario_flag p r : cacheDisabledForComplexMatch (indexScenario p r) = cacheDisabledForComplexMatch r.
Proof using. unfold indexScenario. destruct (exactRouteShardEntries _ _); [done|]. by destruct (scenarioRequiresGlobalPriorityCheck (obj p)). Qed.

Lemma indexScenario_cache p r : cache (indexScenario p r) = cache r.
Proof using. unfold indexScenario. destruct (exactRouteShardEntries _ _); [done|]. by destruct (scenarioRequiresGlobalPriorityCheck (obj p)). Qed.

Lemma indexScenario_flag_right p r :
  flag_right r → ∀ d, d = cacheDisabledForComplexMatch r || scenarioDisablesMatchCache (obj p) →
  flag_right (finish_mutation d (indexScenario p r)).
Proof using.
  intros Hr d -> Hd x Hx. cbn [finish_mutation cacheDisabledForComplexMatch] in Hd. apply orb_false_iff in Hd as [Hd Hp].
  change (x ∈ all_pointers (indexScenario p r)) in Hx. apply indexScenario_incl in Hx as [Hx| ->]; [by apply Hr|done].
Qed.

(** An empty cache has nothing wrong. *)
Lemma serving_fresh r l :
  represents r l → Forall (compiled_for (ShardCount (config r))) l → flag_right r →
  (∀ c, cache r = Some c → c = []) → serving r l.
Proof using.
  intros Hr Hc Hf Hempty. split; [done..| |].
  - intros c e Hce He. rewrite (Hempty c Hce) in He. by apply elem_of_nil in He.
  - intros c e Hce He. unfold matchCache in Hce. destruct (cacheDisabledForComplexMatch r); [done|].
    rewrite (Hempty c Hce) in He. by apply elem_of_nil in He.
Qed.

Lemma cleared {A} (o : option (list A)) (c : list A) : (λ _, [] : list A) <$> o = Some c → c = [].
Proof using. destruct o; [|done]. by intros [= <-]. Qed.

Lemma serving_load r ps :
  sized r → readable FindStringSubmatch Compile ps →
  Forall (λ p, compiled_for (ShardCount (config r)) (obj p)) ps →
  serving (Load ps r) (map obj ps) ∧ config (Load ps r) = config r.
Proof using.
  intros Hs [Hok Hn Ha Hroutes] Hc.
  destruct (foldl_index FindStringSubmatch Compile _ ps (emptied_wf r Hs)) as (_ & Hcfg & _ & Hincl & _).
  assert (Hconf : config (Load ps r) = config r) by exact Hcfg.
  split; [|done]. apply serving_fresh.
  - by apply (represents_load FindStringSubmatch Compile).
  - rewrite Hconf. by apply Forall_fmap.
  - intros Hd p Hp. apply (disable_none ps Hd). apply Hincl in Hp as [Hp|Hp]; [by apply emptied_all in Hp|done].
  - intros c. cbn [Load finish_mutation cache]. apply cleared.
Qed.

Lemma serving_reload D r l ps r' :
  serving r l → readable FindStringSubmatch Compile ps →
  Forall (λ p, compiled_for (ShardCount (config r)) (obj p)) ps → Reload D ps r = Some r' →
  serving r' (map obj ps).
Proof using.
  intros Hsrv Hps Hc Hre. pose proof (wf_config _ (rep_wf _ _ (srv_represents _ _ Hsrv))) as Hnorm.
  assert (Hr' : represents r' (map obj ps)).
  { by apply (proj1 (represents_reload FindStringSubmatch Compile D r l ps (srv_represents _ _ Hsrv) Hps)). }
  unfold Reload in Hre. set (fresh := newShardedScenarioRegistryWithConfig D (config r) (bodyPattern r)) in *.
  assert (Hfresh : config fresh = config r) by exact Hnorm.
  destruct (serving_load fresh ps (new_sized D _ _) Hps) as [Hnext Hcfg]; [by rewrite Hfresh|].
  destruct (ValidateExactRouteTopology _ _); [|done]. injection Hre as <-. apply serving_fresh; [exact Hr'| | |].
  - by apply Forall_fmap.
  - exact (srv_flag _ _ Hnext).
  - intros c. cbn [replaceValidated finish_mutation cache]. apply cleared.
Qed.

Lemma serving_remove r l name :
  serving r l → serving (Sharded.Remove name r).2 (default l (Scenario.Remove name l)).
Proof using.
  intros [Hr Hc Hf Hg He]. pose proof (proj1 (represents_remove r l name Hr)) as Hr'.
  assert (Hc' : Forall (compiled_for (ShardCount (config r))) (default l (Scenario.Remove name l))).
  { pose proof (plain_remove name l (rep_names _ _ Hr)) as Hp.
    destruct (Scenario.Remove name l) as [l'|]; [|done]. destruct Hp as (_ & _ & Hel). rewrite Forall_forall in *.
    intros s Hs. apply Hc. by apply Hel. }
  unfold Sharded.Remove in *. destruct (remove name r) as [r1|] eqn:E; cbn [snd] in *.
  - destruct (remove_config _ _ _ E) as [Hcfg Hcache]. apply serving_fresh; [exact Hr'|cbn; by rewrite Hcfg| |].
    + intros Hd. exact (remove_flag _ _ _ E Hd).
    + intros c. apply cleared.
  - split; [exact Hr'|exact Hc'|exact Hf| |].
    + intros c e Hce Hin. specialize (Hg c e Hce Hin). cbn. lia.
    + intros c e Hce Hin Hgen. exfalso. unfold matchCache in Hce. cbn in Hce, Hgen.
      destruct (cacheDisabledForComplexMatch r); [done|]. specialize (Hg c e Hce Hin). lia.
Qed.

Lemma serving_add r l p :
  serving r l → compiled_for (ShardCount (config r)) (obj p) → (∀ x, x ∈ all_pointers r → addr x ≠ addr p) →
  serving (Sharded.Add p r) (addValidated (obj p) l).
Proof using.
  intros [Hr Hc Hf Hg He] Hp Hfresh.
  assert (Hcomp : routes_compiled FindStringSubmatch Compile (obj p)) by apply Hp.
  pose proof (represents_add FindStringSubmatch Compile r l p Hr Hcomp Hfresh) as Hr'.
  assert (Hcfg : config (Sharded.Add p r) = config r).
  { unfold Sharded.Add. cbn [finish_mutation config obj Name with_order]. rewrite indexScenario_config.
    destruct (remove (Name (obj p)) r) as [r1|] eqn:E; [|done]. by destruct (remove_config _ _ _ E). }
  apply serving_fresh; [exact Hr'| | |].
  - rewrite Hcfg, Forall_forall in *. intros s Hs.
    destruct (plain_add (obj p) l (rep_names _ _ Hr)) as [_ Hel]. apply Hel in Hs as [[Hs _]| ->]; [by apply Hc|by apply compiled_for_order].
  - unfold Sharded.Add. cbn [obj Name with_order]. apply indexScenario_flag_right; [|by rewrite indexScenario_flag].
    destruct (remove (Name (obj p)) r) as [r1|] eqn:E; [|exact Hf]. exact (remove_flag _ _ _ E).
  - intros c. unfold Sharded.Add. cbn [finish_mutation cache]. apply cleared.
Qed.

(** ** One request *)

Lemma match_uncached r st : matchCache r = None → (sharded_match r st).2 = r.
Proof using.
  intros Hn. unfold Sharded.Match. destruct (ctxAlive st) as [[[]|e] st1]; [|done]. rewrite Hn. cbn [fst snd].
  destruct (mbind' _ _ st1) as [[[p|]|e] st2]; [|done..].
  destruct (ctxAlive st2) as [[[]|e] st3]; [|done]. by rewrite Hn.
Qed.

Lemma match_hit r c q p :
  matchCache r = Some c → (abs_get (buildCacheKey q) (generation r) c).1 = Some p →
  sharded_match r (state_of q) =
  (Ok (Some p), state_of q, with_cache (Some (abs_get (buildCacheKey q) (generation r) c).2) r).
Proof using.
  intros Hc Hp. unfold Sharded.Match, ctxAlive. cbn [st_ctx st_req state_of]. rewrite Hc. cbn [fst snd]. by rewrite Hp.
Qed.

Lemma match_stored r c q best q' :
  matchCache r = Some c → (abs_get (buildCacheKey q) (generation r) c).1 = None →
  search r (state_of q) = (Ok best, state_of q') →
  let c' := (abs_get (buildCacheKey q) (generation r) c).2 in
  sharded_match r (state_of q) =
  (Ok best, state_of q',
   with_cache (Some match best with
                    | Some p => abs_put (Z.to_nat (CacheSize (config r))) (buildCacheKey q') p (generation r) c'
                    | None => c'
                    end) r).
Proof using.
  intros Hc Hp Hs c'. unfold Sharded.Match, ctxAlive. cbn [st_ctx st_req state_of]. rewrite Hc. cbn [fst snd]. rewrite Hp.
  fold c'. fold (search (with_cache (Some c') r)).
  change (search (with_cache (Some c') r) (state_of q) = (Ok best, state_of q')) in Hs.
  change {| st_req := q; st_ctx := [] |} with (state_of q). rewrite Hs.
  destruct best as [p|]; [|done]. cbn [state_of st_ctx].
  assert (Hc' : matchCache (with_cache (Some c') r) = Some c').
  { unfold matchCache in *. cbn. by destruct (cacheDisabledForComplexMatch r). }
  by rewrite Hc'.
Qed.

Lemma buildCacheKey_view o q q' : same_view o q q' → buildCacheKey q' = buildCacheKey q.
Proof using.
  intros (Hm & Hu & _ & _ & H1 & H2). unfold buildCacheKey, content_type. rewrite Hm, Hu.
  destruct (q_HTTPRequest q), (q_HTTPRequest q'); simpl in H1; try done;
    destruct (q_HTTPResponse q), (q_HTTPResponse q'); simpl in H2; try done; simpl;
    try destruct H1 as (-> & -> & -> & _); try destruct H2 as (_ & _ & -> & _); done.
Qed.

Lemma clean_view o q q' : same_view o q q' → clean q → clean q'.
Proof using.
  intros (Hm & Hu & _ & _ & H1 & _). unfold clean. rewrite Hm, Hu.
  destruct (q_HTTPRequest q), (q_HTTPRequest q'); simpl in H1; try done.
  by destruct H1 as (-> & -> & _).
Qed.

Lemma represents_with_cache c r l : represents r l → represents (with_cache c r) l.
Proof using. intros [[] ? ? ? ?]. split; [by split|done..]. Qed.

Section Cached.
Context (r : Registry') (l : list Scenario') (Hsrv : serving r l) (Hflag : cacheDisabledForComplexMatch r = false).

Lemma served_static p o q : p ∈ all_pointers r → conditions (obj p) o q = Ok (static_conditions (obj p) q).
Proof using Hsrv Hflag.
  intros Hp. apply conditions_static; [|by apply (srv_flag _ _ Hsrv)].
  pose proof (srv_compiled _ _ Hsrv) as Hc. rewrite Forall_forall in Hc. apply Hc.
  apply (rep_objs _ _ (srv_represents _ _ Hsrv)). by exists p.
Qed.

(** Requests of one key have the same best scenario. *)
Lemma best_key o q q' best :
  clean q → clean q' → buildCacheKey q = buildCacheKey q' →
  best_among o q (all_pointers r) best → best_among o q' (all_pointers r) best.
Proof using Hsrv Hflag.
  intros Hc Hc' E.
  assert (Hcond : ∀ x, x ∈ all_pointers r → conditions (obj x) o q' = conditions (obj x) o q).
  { intros x Hx. rewrite !served_static by done. f_equal. by apply static_conditions_key. }
  destruct best as [p|]; cbn.
  - intros (Hp & Hcp & Hall). rewrite (Hcond p Hp). split_and!; [done..|].
    intros x Hx Hcx. apply Hall; [done|]. by rewrite <- (Hcond x Hx).
  - intros Hall x Hx. rewrite (Hcond x Hx). by apply Hall.
Qed.

Lemma served_search q :
  clean q → ∃ best q', search r (state_of q) = (Ok best, state_of q') ∧ same_view (bodyPattern r) q q' ∧
                       best_among (bodyPattern r) q (all_pointers r) best.
Proof using Hlaws Hsrv Hflag.
  intros Hq. pose proof (srv_compiled _ _ Hsrv) as Hc. rewrite Forall_forall in Hc.
  destruct (represents_search FindStringSubmatch SubexpNames ParseMediaType ParseIP Contains grow fuel sizes Compile
    r l q (srv_represents _ _ Hsrv)) as (best & q' & ? & ? & Hb & _); [| | |].
  - apply Forall_forall. intros s Hs. by apply Hc.
  - apply Hq.
  - apply Forall_forall. intros s Hs. apply (rep_objs _ _ (srv_represents _ _ Hsrv)) in Hs as (p & Hp & <-).
    by rewrite served_static.
  - exists best, q'. split_and!; [done..|]. eapply best_within_among; [|exact Hb]. intros p Hp.
    apply Hc, (rep_objs _ _ (srv_represents _ _ Hsrv)). by exists p.
Qed.

(** A request is answered by a best scenario for it, cached or not, and the
    cache stays right. *)
Lemma served_answer q :
  clean q → ∃ best q' c, sharded_match r (state_of q) = (Ok best, state_of q', with_cache c r) ∧
    best_among (bodyPattern r) q (all_pointers r) best ∧ serving (with_cache c r) l.
Proof using Hlaws Hsrv Hflag.
  intros Hq. destruct (served_search q Hq) as (best & q' & Hs & Hv & Hb).
  pose proof Hsrv as [Hr Hc Hf Hg He].
  assert (Hkeep : ∀ c, (∀ c' e, c = Some c' → e ∈ c' → ce_generation e ≤ generation r ∧ entry_right r e) →
    serving (with_cache c r) l).
  { intros c Hgood. split; [by apply represents_with_cache|done|done| |].
    - intros c' e Hc' Hin. exact (proj1 (Hgood c' e Hc' Hin)).
    - intros c' e Hc' Hin. refine (proj2 (Hgood c' e _ Hin)). unfold matchCache in Hc'. cbn in Hc'. by rewrite Hflag in Hc'. }
  destruct (matchCache r) as [c|] eqn:Em.
  - assert (Ec : cache r = Some c) by (unfold matchCache in Em; by rewrite Hflag in Em).
    destruct (abs_get_spec (buildCacheKey q) (generation r) c) as [Hget Hsub].
    destruct (abs_get (buildCacheKey q) (generation r) c).1 as [p|] eqn:Ep.
    + rewrite (match_hit r c q p Em Ep). eexists _, _, _. split; [done|]. split.
      * destruct Hget as (e & Hin & Hk & Hgen & <-). destruct (He c e eq_refl Hin Hgen) as (q0 & Hq0 & Hk0 & Hb0).
        apply best_key with q0; [done..| |done]. by rewrite <- Hk0.
      * apply Hkeep. intros c' e [= <-] Hin. apply Hsub in Hin. split; [exact (Hg c e Ec Hin)|exact (He c e eq_refl Hin)].
    + rewrite (match_stored r c q best q' Em Ep Hs). eexists _, _, _. split; [done|]. split; [done|].
      apply Hkeep. intros c' e [= <-] Hin. destruct best as [p|].
      * apply abs_put_elem in Hin as [->|Hin]; [|apply Hsub in Hin; split; [exact (Hg c e Ec Hin)|exact (He c e eq_refl Hin)]].
        split; [done|]. intros _. exists q'. cbn [ce_key ce_scenario]. split_and!; [by eapply clean_view|done|].
        apply best_key with q; [done|by eapply clean_view|symmetry; by eapply buildCacheKey_view|done].
      * apply Hsub in Hin. split; [exact (Hg c e Ec Hin)|exact (He c e eq_refl Hin)].
  - exists best, q', (cache r).
    assert (Hreg : with_cache (cache r) r = r) by by destruct r.
    rewrite Hreg. split; [|by split].
    pose proof (match_uncached r (state_of q) Em) as H2.
    assert (H1 : (sharded_match r (state_of q)).1 = (Ok best, state_of q')).
    { apply (match_missed _ _ _ _ _ _ _ _ r q best q'); [|done]. intros c. by rewrite Em. }
    destruct (sharded_match r (state_of q)) as [res r'] eqn:E. cbn [fst snd] in H1, H2. by subst.
Qed.
End Cached.

Lemma served_serving r l : served r l → serving r l.
Proof using Hlaws.
  induction 1 as [r ps Hs Hps Hc|D r l ps r' _ IH Hps Hc Hre|r l p _ IH Hp Hfresh|r l name _ IH|r l q _ IH Hq].
  - by apply serving_load.
  - by eapply serving_reload.
  - by apply serving_add.
  - by apply serving_remove.
  - destruct (cacheDisabledForComplexMatch r) eqn:Hd.
    + rewrite match_uncached; [done|]. unfold matchCache. by rewrite Hd.
    + destruct (served_answer r l IH Hd q Hq) as (best & q' & c & -> & _ & Hserv). done.
Qed.

(** C22: the match cache cannot be observed. After a [Load] and any sequence of
    [Reload], [Add], [Remove] and of requests, in any order, a request is answered with
    the scenario of the plain registry, or by the default scenario when there is none,
    whether the answer comes from the cache or not - provided that the fields of this and
    the earlier requests that the key is made of have no ['|'] (with one, two requests can
    share a key) and the methods among them are not empty, that the endpoints are ones the index can hold (a single literal
    endpoint has none of ["*?[(+$."] and no endpoint has U+FFFD in it), and that the registry holds no scenario that it
    knows to rule the cache out. *)
Theorem cache_transparent r l q :
  served r l → cacheDisabledForComplexMatch r = false → clean q →
  match (sharded_match r (state_of q)).1.1, (plain_match l (bodyPattern r) (state_of q)).1 with
  | Ok (Some p), Ok s => p ∈ List r ∧ obj p = s
  | Ok None, Err (NoScenarioMatched _) => True
  | _, _ => False
  end.
Proof using Hlaws.
  intros Hs%served_serving Hd Hq. destruct (served_answer r l Hs Hd q Hq) as (best & q' & c & -> & Hb & _).
  assert (He : Forall (λ s, is_ok (conditions s (bodyPattern r) q) = true) l).
  { apply Forall_forall. intros s Hin. apply (rep_objs _ _ (srv_represents _ _ Hs)) in Hin as (p & Hp & <-).
    by rewrite (served_static r l Hs Hd). }
  pose proof (best_is_plain _ _ _ _ _ _ _ _ (λ _, True) r l q best (srv_represents _ _ Hs) He (best_among_within _ _ _ _ _ _ _ _ _ _ _ _ _ Hb)) as Hp.
  cbn [fst]. destruct best as [p|], (plain_match l (bodyPattern r) (state_of q)).1 as [s|e]; try done.
  destruct Hp as (Hin & _ & Hobj). split; [done|by apply Hobj].
Qed.
End Transparent.

(** What the compiler of [Compile] gives for a scenario that was not compiled
    before is what the theorems above ask for. *)
Section Compiled.
Context {Regexp : Type} (FindStringSubmatch : Regexp → string → option (list string)).
Context (SubexpNames : Regexp → list string) (Compile : string → option Regexp).
Context (ParseMediaType : string → option (string * gmap string string)).
Context {IPNet : Type} (ParseCIDR : string → option IPNet) (FileExists : string → bool).

Lemma validated_compiled_for n s s' :
  validateAndCompile FindStringSubmatch Compile ParseMediaType ParseCIDR FileExists s = Ok s' →
  compiledBody s = None → compiledCIDRs s = [] →
  (∀ m path, (m, path) ∈ route_pairs s → path ∈ Paths (Match_ s)) →
  (∀ raw, raw ∈ Paths (Match_ s) → plain raw = true) →
  indexable n s → compiled_for FindStringSubmatch Compile n s'.
Proof using.
  intros Hv Hb Hc Hu Hplain Hi. destruct (validateAndCompile_inv _ _ _ _ _ _ _ Hv) as (_ & Hr & Hp & Hbody & Hrules & Hcidr).
  destruct (compileRules_inv _ _ _ _ _ Hrules) as (lists & hlists & Hl & Hhl & Hm & Hcl & Hchl & _). cbn [fst snd] in *.
  assert (HR : Routes (Match_ s') = Routes (Match_ s)) by by rewrite Hm.
  assert (HP : Paths (Match_ s') = Paths (Match_ s)) by by rewrite Hm.
  split; [|split].
  - split.
    + by rewrite HR.
    + rewrite HP. intros Hne. unfold compilePaths in Hp. rewrite bool_decide_false in Hp by done. cbn [negb] in Hp.
      destruct (mapM _ _); [by injection Hp as ->|done].
    + intros m path. unfold route_pairs. rewrite HR, HP. apply Hu.
    + rewrite HP. exact Hplain.
  - intros path. unfold exactRouteShardEntries, shardSafePath, route_pairs in *. rewrite HR, HP. apply Hi.
  - split.
    + rewrite Hm. cbn. intros E. unfold compileBodyPattern in Hbody. rewrite E in Hbody. cbn in Hbody. congruence.
    + rewrite Hm. cbn. intros ->. unfold compileHeaderListMatchers in Hcl. vm_compute in Hcl. by injection Hcl.
    + rewrite Hm. cbn. intros ->. vm_compute in Hchl. by injection Hchl.
    + rewrite Hm. cbn. intros E. unfold compileCIDRs in Hcidr. rewrite E in Hcidr. cbn in Hcidr. congruence.
Qed.
End Compiled.

Lemma shards_served : served Engine.find Engine.names (λ _, None) Some String.eqb Shards.grow 10 (λ _, 4%nat)
  Engine.Compile (Shards.loaded []) (map obj (Shards.pointers [])).
Proof.
  pose proof (Shards.all_sound []) as Hs. pose proof (Shards.all_indexable []) as Hi. rewrite Forall_forall in Hs, Hi.
  apply served_load; [exact Shards.fresh_sized|split; [apply Shards.all_ok| | |]|].
  - repeat (apply NoDup_cons; split; [set_solver|]). apply NoDup_nil_2.
  - repeat (apply NoDup_cons; split; [set_solver|]). apply NoDup_nil_2.
  - apply Forall_forall. intros p Hp. apply (Hs (obj p)). by apply list_elem_of_fmap_2.
  - apply Forall_forall. intros p Hp. pose proof (list_elem_of_fmap_2 obj _ _ Hp) as Hin.
    split; [by apply Hs|]. split; [by apply Hi|].
    repeat (apply elem_of_cons in Hp as [->|Hp]; [by split|]). by apply elem_of_nil in Hp.
Qed.

Lemma shards_clean uri : bar ∉ bytes_of uri → clean (Shards.request uri).
Proof. intros Hu. split_and!; [done| |done|done]. apply (bool_decide_unpack _). vm_compute. exact I. Qed.

(** The second request is answered from the cache. *)
Lemma cache_transparent_witness :
  let r := (demo_match (Shards.loaded []) (state_of (Shards.request "icap://host/scan"))).2 in
  matchCache r ≠ Some [] ∧
  ∃ p, (demo_match r (state_of (Shards.request "icap://host/scan"))).1.1 = Ok (Some p) ∧ obj p = Shards.scan.
Proof.
  cbv zeta. set (r := (demo_match (Shards.loaded []) (state_of (Shards.request "icap://host/scan"))).2).
  split; [vm_compute; discriminate|].
  assert (Hc : clean (Shards.request "icap://host/scan")).
  { apply shards_clean, (bool_decide_unpack _). vm_compute. exact I. }
  pose proof (served_match _ _ _ _ _ _ _ _ _ (Shards.loaded []) _ _ shards_served Hc) as Hr. fold r in Hr.
  assert (Hd : cacheDisabledForComplexMatch r = false) by (vm_compute; reflexivity).
  pose proof (cache_transparent Engine.find Engine.names (λ _, None) Some String.eqb Shards.grow 10 (λ _, 4%nat)
    Engine.Compile r _ (Shards.request "icap://host/scan") Hr Hd Hc) as Ht.
  assert (Hp : (demo_plain (map obj (Shards.pointers [])) (bodyPattern r)
    (state_of (Shards.request "icap://host/scan"))).1 = Ok Shards.scan) by (vm_compute; reflexivity).
  rewrite Hp in Ht.
  destruct (demo_match r (state_of (Shards.request "icap://host/scan"))).1.1 as [[p|]|e]; [|destruct Ht..].
  exists p. split; [reflexivity|]. exact (proj2 Ht).
Defined.
