(* ===== verification/Router.v ===== *)
(** * Routing: [internal/router/router.go] and the registration of the handlers

    The route table, the pattern routes and the cache in front of them, and
    [registerHandlers] of [cmd/icap-mock/cli_executor.go], which fills them from
    the scenarios of the registry. Handlers are data; what the chosen one does is
    left to its own component. [sync.Map] is a finite map. *)
From S2P Require Import Prelude GoInt GoStrings Keyed Dll RouteCache Scenario Compile.

Local Open Scope Z_scope.

(** ** Paths *)

Definition extractPath (uri : string) : string :=
  if String.eqb uri "" then "/"
  else
    match index_str uri "://" with
    | Some schemeEnd =>
        let rest := str_drop (schemeEnd + 3) uri in
        match index_byte rest "/" with
        | None => "/"
        | Some slashIdx =>
            let path := str_drop slashIdx rest in
            let path := match index_byte path "?" with Some q => str_take q path | None => path end in
            if String.eqb path "" then "/" else path
        end
    | None =>
        let path := match index_byte uri "?" with Some q => str_take q uri | None => uri end in
        match path with
        | String c _ => if Ascii.eqb c "/" then path else "/" +:+ path
        | EmptyString => "/" +:+ path
        end
    end.

Definition buildKey (method path : string) : string := method +:+ ":" +:+ path.

(** The router and the scenarios read the same path from a request URI, as
    [strip_query] leaves it, when the URI has the scheme in lower case and no
    fragment. *)
Lemma cut_at_absent c s : c ∉ bytes_of s → cut_at c s = s.
Proof. intros Hc%index_byte_None. unfold cut_at. by rewrite Hc. Qed.

Lemma bytes_of_take_drop n s c : c ∉ bytes_of s → c ∉ bytes_of (str_take n s) ∧ c ∉ bytes_of (str_drop n s).
Proof. rewrite <- (str_take_drop n s) at 1. rewrite bytes_of_app, elem_of_app. tauto. Qed.

Lemma bytes_of_cut_at c d s : c ∉ bytes_of s → c ∉ bytes_of (cut_at d s).
Proof. intros Hc. unfold cut_at. destruct (index_byte s d); [by apply bytes_of_take_drop|done]. Qed.

Lemma drop_index_byte s c i : index_byte s c = Some i → ∃ r, str_drop i s = String c r.
Proof.
  revert i. induction s as [|d s IH]; intros i; simpl; [done|].
  case_bool_decide as E; [intros [= <-]; subst; by exists s|].
  destruct (index_byte s c) as [j|]; [|done]. intros [= <-]. by apply IH.
Qed.

Lemma paths_agree uri :
  has_prefix uri "icap://" = true → has_prefix (str_drop 7 uri) "icaps://" = false →
  index_byte uri "#" = None →
  extractPath uri = strip_query (Scenario.extractPath uri).
Proof.
  intros (rest & ->)%has_prefix_spec Hs Hf%index_byte_None.
  assert (Hrest : "#"%char ∉ bytes_of rest) by (rewrite bytes_of_app, elem_of_app in Hf; tauto).
  unfold extractPath, Scenario.extractPath. rewrite trim_prefix_app.
  change (String.eqb ("icap://" +:+ rest) "") with false. cbn iota.
  replace (index_str ("icap://" +:+ rest) "://") with (Some 4%nat) by (by destruct rest). cbn iota zeta.
  change (str_drop (4 + 3) ("icap://" +:+ rest)) with rest. change (str_drop 7 ("icap://" +:+ rest)) with rest in Hs.
  unfold trim_prefix. rewrite Hs. destruct (index_byte rest "/") as [i|] eqn:Ei; [|done].
  fold (cut_at "?" (str_drop i rest)). unfold strip_query.
  rewrite (cut_at_absent "#") by (apply bytes_of_cut_at; by apply bytes_of_take_drop).
  destruct (String.eqb_spec (cut_at "?" (str_drop i rest)) "") as [E|]; [|done]. exfalso.
  destruct (drop_index_byte _ _ _ Ei) as [r Hr]. rewrite Hr in E. unfold cut_at in E. simpl in E. by destruct (index_byte r "?").
Qed.

(** ** The router *)

Section Routing.
Context {Handler Regexp : Type} (MatchString : Regexp → string → bool).

Notation RouteCache := (RouteCache (Handler := Handler)).

Record patternRoute := { pr_re : Regexp; pr_h : Handler }.

Record Router := {
  r_cache : RouteCache;
  routes : gmap string Handler;
  patterns : list patternRoute
}.

Definition NewRouterWithCache (maxEntries ttl : Z) : Router :=
  {| r_cache := NewRouteCache maxEntries ttl; routes := ∅; patterns := [] |}.

Definition NewRouter : Router := NewRouterWithCache DefaultMaxEntries DefaultTTL.

Inductive RouterError := PathEmpty | HandlerNil | PatternNil | FuncNil.

Definition Handle (path : string) (h : option Handler) (r : Router) : result RouterError Router :=
  if String.eqb path "" then Err PathEmpty
  else match h with
       | None => Err HandlerNil
       | Some h => Ok {| r_cache := Clear (r_cache r); routes := <[path := h]> (routes r); patterns := patterns r |}
       end.

(** A function becomes a handler by [WrapHandler]. *)
Definition HandleFunc {Fn : Type} (WrapHandler : Fn → Handler) (path : string) (fn : option Fn) (r : Router)
  : result RouterError Router :=
  match fn with
  | None => Err FuncNil
  | Some fn => Handle path (Some (WrapHandler fn)) r
  end.

Definition RoutesList (r : Router) : list (string * Handler) := map_to_list (routes r).

Definition HandlePattern (re : option Regexp) (h : option Handler) (r : Router) : result RouterError Router :=
  match re, h with
  | None, _ => Err PatternNil
  | _, None => Err HandlerNil
  | Some re, Some h =>
      Ok {| r_cache := Clear (r_cache r); routes := routes r; patterns := patterns r ++ [{| pr_re := re; pr_h := h |}] |}
  end.

Definition CacheClear (r : Router) : Router :=
  {| r_cache := Clear (r_cache r); routes := routes r; patterns := patterns r |}.

(** The cached lookup of [cache.go]; the boolean says whether it was a hit. *)
Definition LookupHandlerFunc (now : Z) (lookupFn : string → option Handler) (method uri : string) (c : RouteCache)
  : option (option Handler * bool * RouteCache) :=
  let path := extractPath uri in
  '(h, c) ← Get now (buildKey method path) c;
  match h with
  | Some h => Some (Some h, true, c)
  | None =>
      match lookupFn path with
      | None => Some (None, false, c)
      | Some h => c ← Put now (buildKey method path) h c; Some (Some h, false, c)
      end
  end.

Fixpoint match_patterns (ps : list patternRoute) (path : string) : option Handler :=
  match ps with
  | [] => None
  | p :: ps => if MatchString (pr_re p) path then Some (pr_h p) else match_patterns ps path
  end.

(** The handler that [Serve] delegates to; with [None] it answers 404. The
    outer option is a nil pointer. *)
Definition Serve (now : Z) (method uri : string) (r : Router) : option (option Handler * Router) :=
  '(h, _, c) ← LookupHandlerFunc now (λ path, routes r !! path) method uri (r_cache r);
  let h := match h with
           | Some h => Some h
           | None => match_patterns (patterns r) (extractPath uri)
           end in
  Some (h, {| r_cache := c; routes := routes r; patterns := patterns r |}).

(** ** What the router promises *)

(** The route of a path, without a cache. *)
Definition route (rt : gmap string Handler) (ps : list patternRoute) (path : string) : option Handler :=
  match rt !! path with Some h => Some h | None => match_patterns ps path end.

Inductive router_op :=
| RHandle (path : string) (h : option Handler)
| RHandlePattern (re : option Regexp) (h : option Handler)
| RCacheClear
| RServe (now : Z) (method uri : string).

(** A failed registration leaves the router as it is. *)
Definition keep (old : Router) (res : result RouterError Router) : Router :=
  match res with Ok r => r | Err _ => old end.

Definition router_step (o : router_op) (r : Router) : option (list (option Handler) * Router) :=
  match o with
  | RHandle path h => Some ([], keep r (Handle path h r))
  | RHandlePattern re h => Some ([], keep r (HandlePattern re h r))
  | RCacheClear => Some ([], CacheClear r)
  | RServe now method uri => '(h, r) ← Serve now method uri r; Some ([h], r)
  end.

Fixpoint run_router (ops : list router_op) (r : Router) : option (list (option Handler) * Router) :=
  match ops with
  | [] => Some ([], r)
  | o :: ops => '(hs, r) ← router_step o r; '(hs', r) ← run_router ops r; Some (hs ++ hs', r)
  end.

(** The same calls on the two tables alone. *)
Definition table_step (o : router_op) (rt : gmap string Handler) (ps : list patternRoute)
  : list (option Handler) * gmap string Handler * list patternRoute :=
  match o with
  | RHandle path (Some h) => if String.eqb path "" then ([], rt, ps) else ([], <[path := h]> rt, ps)
  | RHandlePattern (Some re) (Some h) => ([], rt, ps ++ [{| pr_re := re; pr_h := h |}])
  | RServe _ _ uri => ([route rt ps (extractPath uri)], rt, ps)
  | _ => ([], rt, ps)
  end.

Fixpoint run_table (ops : list router_op) (rt : gmap string Handler) (ps : list patternRoute)
  : list (option Handler) * gmap string Handler * list patternRoute :=
  match ops with
  | [] => ([], rt, ps)
  | o :: ops =>
      let '(hs, rt, ps) := table_step o rt ps in
      let '(hs', rt, ps) := run_table ops rt ps in
      (hs ++ hs', rt, ps)
  end.

(** The parser lets only these methods through. *)
Definition plain_method (o : router_op) : Prop :=
  match o with RServe _ method _ => index_byte method ":" = None | _ => True end.

(** ** The cache holds what the table says *)

Lemma buildKey_inj m p m' p' :
  index_byte m ":" = None → index_byte m' ":" = None → buildKey m p = buildKey m' p' → m = m' ∧ p = p'.
Proof using.
  intros Hm%index_byte_None Hm'%index_byte_None E. unfold buildKey in E. cbn [String.append] in E.
  pose proof (index_byte_app m ":" p Hm) as H1. pose proof (index_byte_app m' ":" p' Hm') as H2.
  rewrite E, H2 in H1. injection H1 as Hl.
  assert (m = m') as <- by (rewrite <- (str_take_app m (String ":" p)), <- (str_take_app m' (String ":" p')), E; congruence).
  split; [done|]. apply str_app_inv_l in E. by injection E.
Qed.

Notation CacheEntry := (CacheEntry (Handler := Handler)).

(** An entry that agrees with the route table. *)
Definition entry_true (rt : gmap string Handler) (e : CacheEntry) : Prop :=
  ∃ m p, index_byte m ":" = None ∧ key e = buildKey m p ∧ rt !! p = Some (handler e).

Lemma entry_true_counted rt e : entry_true rt e → entry_true rt (counted e).
Proof using. done. Qed.

Lemma without_true rt k (l : list CacheEntry) : Forall (entry_true rt) l → Forall (entry_true rt) (without key k l).
Proof using. intros Hf. rewrite Forall_forall in *. intros e [He _]%without_elem. by apply Hf. Qed.

Lemma abs_get_true rt life now m p l :
  index_byte m ":" = None → Forall (entry_true rt) l →
  Forall (entry_true rt) (abs_get life now (buildKey m p) l).2 ∧
  ∀ h, (abs_get life now (buildKey m p) l).1 = Some h → rt !! p = Some h.
Proof using.
  intros Hm Hf. unfold abs_get. destruct (find_key key (buildKey m p) l) as [e|] eqn:Ef; [|by split].
  apply find_key_Some in Ef as [Hin Hk]. pose proof Hf as Hf'. rewrite Forall_forall in Hf'. specialize (Hf' _ Hin).
  assert (Hp : rt !! p = Some (handler e)).
  { destruct Hf' as (m' & p' & Hm' & Hk' & Hp). rewrite Hk in Hk'. by destruct (buildKey_inj _ _ _ _ Hm Hm' Hk') as [-> ->]. }
  split_if; [split; [by apply without_true|done]|]. split_if; cbn [fst snd].
  - split; [|by intros ? [= <-]]. apply Forall_cons. split; [by apply entry_true_counted|by apply without_true].
  - split; [|by intros ? [= <-]]. unfold update. apply Forall_map. eapply Forall_impl; [exact Hf|].
    intros x Hx. cbn. destruct (String.eqb _ _); [by apply entry_true_counted|done].
Qed.

Lemma abs_put_true rt max now m p h l :
  index_byte m ":" = None → rt !! p = Some h → Forall (entry_true rt) l →
  Forall (entry_true rt) (abs_put max now (buildKey m p) h l).
Proof using.
  intros Hm Hp Hf. unfold abs_put.
  destruct (find_key _ _ _); (apply Forall_cons; split; [by exists m, p|]); [by apply without_true|by apply Forall_take].
Qed.

(** ** Serving *)

Record router_ok (r : Router) (les : list (nat * CacheEntry)) : Prop := {
  ro_cache : cache_ok (maxEntries (r_cache r)) (ttl (r_cache r)) (r_cache r) les;
  ro_max : 1 ≤ maxEntries (r_cache r);
  ro_true : Forall (entry_true (routes r)) (map snd les)
}.

Lemma cache_ok_self max life c les :
  cache_ok (Handler := Handler) max life c les → cache_ok (maxEntries c) (ttl c) c les ∧ maxEntries c = max ∧ ttl c = life.
Proof using. intros Hok. pose proof Hok as [_ _ -> ->]. done. Qed.

Lemma Clear_ok r rt ps les :
  router_ok r les → router_ok {| r_cache := Clear (r_cache r); routes := rt; patterns := ps |} [].
Proof using.
  intros [Hc Hm _]. split; [|done|constructor].
  refine (Clear_refines (maxEntries (r_cache r)) (ttl (r_cache r)) _ les _ Hc). lia.
Qed.

Lemma Serve_spec now method uri r les :
  index_byte method ":" = None → router_ok r les →
  ∃ r' les', Serve now method uri r = Some (route (routes r) (patterns r) (extractPath uri), r') ∧
             router_ok r' les' ∧ routes r' = routes r ∧ patterns r' = patterns r.
Proof using.
  intros Hm [Hc Hmax Ht]. unfold Serve, LookupHandlerFunc, route.
  set (path := extractPath uri). set (k := buildKey method path).
  destruct (Get_refines _ _ now k _ _ Hc) as (c1 & les1 & -> & Hc1 & Hl1). cbn [mbind option_bind].
  destruct (abs_get_true (routes r) (ttl (r_cache r)) now method path _ Hm Ht) as [Ht1 Hh]. fold k in Ht1, Hh.
  rewrite <- Hl1 in Ht1. destruct (cache_ok_self _ _ _ _ Hc1) as (Hc1' & Hm1 & Hlife1).
  destruct (abs_get _ _ _ _).1 as [h|]; cbn [mbind option_bind].
  { rewrite (Hh h eq_refl). eexists _, les1. split; [done|]. split; [|done]. split; cbn; [done|lia|done]. }
  destruct (routes r !! path) as [h|] eqn:Er; cbn [mbind option_bind].
  2:{ eexists _, les1. split; [done|]. split; [|done]. split; cbn; [done|lia|done]. }
  destruct (Put_refines _ _ now k h _ _ Hmax Hc1) as (c2 & les2 & -> & Hc2 & Hl2). cbn [mbind option_bind].
  destruct (cache_ok_self _ _ _ _ Hc2) as (Hc2' & Hm2 & _).
  eexists _, les2. split; [done|]. split; [|done]. split; cbn; [done|lia|]. rewrite Hl2. by apply abs_put_true.
Qed.

Lemma router_step_ok o r les :
  plain_method o → router_ok r les →
  ∃ r' les', router_step o r = Some ((table_step o (routes r) (patterns r)).1.1, r') ∧ router_ok r' les' ∧
    routes r' = (table_step o (routes r) (patterns r)).1.2 ∧ patterns r' = (table_step o (routes r) (patterns r)).2.
Proof using.
  intros Hm Hok. destruct o as [path h|re h| |now method uri]; cbn [router_step table_step].
  - unfold Handle. destruct (String.eqb path "") eqn:E, h as [h|]; cbn [keep fst snd]; rewrite ?E;
      try (by exists r, les); eexists _, []; (split; [done|]); (split; [by apply Clear_ok with les|done]).
  - destruct re as [re|], h as [h|]; cbn [HandlePattern keep fst snd]; try (by exists r, les).
    eexists _, []. split; [done|]. split; [by apply Clear_ok with les|done].
  - eexists _, []. split; [done|]. split; [by apply Clear_ok with les|done].
  - destruct (Serve_spec now method uri r les Hm Hok) as (r' & les' & -> & ? & ? & ?). by exists r', les'.
Qed.

Lemma run_router_ok ops r les :
  Forall plain_method ops → router_ok r les →
  ∃ r' les', run_router ops r = Some ((run_table ops (routes r) (patterns r)).1.1, r') ∧ router_ok r' les' ∧
    routes r' = (run_table ops (routes r) (patterns r)).1.2 ∧ patterns r' = (run_table ops (routes r) (patterns r)).2.
Proof using.
  intros Hf. revert r les. induction Hf as [|o ops Hm _ IH]; intros r les Hok; cbn [run_router run_table]; [by exists r, les|].
  destruct (router_step_ok o r les Hm Hok) as (r1 & les1 & -> & Hok1 & Hr1 & Hp1). cbn [mbind option_bind].
  destruct (IH r1 les1 Hok1) as (r2 & les2 & -> & Hok2 & Hr2 & Hp2). cbn [mbind option_bind]. rewrite Hr1, Hp1 in *.
  destruct (table_step o (routes r) (patterns r)) as [[hs rt] ps]. cbn [fst snd] in *.
  destruct (run_table ops rt ps) as [[hs' rt'] ps']. by exists r2, les2.
Qed.

Lemma new_router_ok max life : router_ok (NewRouterWithCache max life) [].
Proof using.
  split; cbn [r_cache NewRouterWithCache routes].
  - exact (proj1 (cache_ok_self _ _ _ _ (new_ok max life))).
  - cbn. unfold DefaultMaxEntries. destruct (Z.leb_spec max 0); lia.
  - constructor.
Qed.

(** Whatever is registered, requested and cleared in whatever order, each
    request goes where the tables send it at that moment: to the handler last
    registered for its path, else to the first pattern that matches it, else to
    404. The cache, its lifetime, its size and its evictions never show. *)
Theorem router_serves_tables max life ops :
  Forall plain_method ops →
  ∃ r, run_router ops (NewRouterWithCache max life) = Some ((run_table ops ∅ []).1.1, r).
Proof using.
  intros Hf. destruct (run_router_ok ops _ _ Hf (new_router_ok max life)) as (r & les & E & _). by exists r.
Qed.
End Routing.

Lemma router_serves_tables_witness :
  ∃ r, run_router (λ re s, String.eqb re s)
         [RHandle "/a" (Some 1%nat); RServe 0 "REQMOD" "icap://h/a?x"; RHandle "/a" (Some 2%nat); RHandlePattern (Some "/p") (Some 3%nat);
          RServe 1 "REQMOD" "icap://h/a"; RServe 2 "REQMOD" "icap://h/p"; RServe 3 "REQMOD" "icap://h/q"]
         (NewRouterWithCache 1 0) = Some ([Some 1%nat; Some 2%nat; Some 3%nat; None], r).
Proof.
  refine (router_serves_tables (λ re s, String.eqb re s) 1 0 _ _).
  repeat (apply Forall_cons; split; [first [exact I|reflexivity]|]). apply Forall_nil_2.
Defined.

(** A URI with the scheme in upper case, which the request parser accepts, and a
    scheme-less one with another URI in its query. *)
Lemma paths_differ :
  extractPath "ICAP://host/scan" = "/scan" ∧ Scenario.extractPath "ICAP://host/scan" = "//host/scan" ∧
  extractPath "/scan?u=http://x/y" = "/y" ∧ strip_query (Scenario.extractPath "/scan?u=http://x/y") = "/scan".
Proof. by vm_compute. Qed.
