(* ===== verification/Register.v ===== *)
(** * Registration of the handlers: [cmd/icap-mock/cli_executor.go]

    [registerHandlers] gives the router its routes: the default services, then one
    dispatching handler for every endpoint a scenario declares. With the path of
    the router and the path of the scenarios this decides which requests reach a
    scenario at all. *)
From S2P Require Import Prelude GoInt GoStrings Regexp Keyed Dll RouteCache Header Chunked Message Scenario Responses Compile Router.

Local Open Scope Z_scope.
Local Open Scope go_scope.

(** ** The dispatching handler *)

Inductive Target := ToReqmod | ToRespmod | ToOptions.

Global Instance target_eq_dec : EqDecision Target.
Proof. solve_decision. Defined.

(** [newMethodDispatchHandler]: the handler is the methods it allows. *)
Definition dispatch (allowed : gset string) (method : string) : Target :=
  if String.eqb method MethodREQMOD then ToReqmod
  else if String.eqb method MethodRESPMOD then ToRespmod
  else if String.eqb method MethodOPTIONS && bool_decide (MethodOPTIONS ∈ allowed) then ToOptions
  else ToRespmod.

Definition orderedAllowedMethods (allowed : gset string) : list string :=
  filter (λ m, m ∈ allowed) [MethodREQMOD; MethodRESPMOD; MethodOPTIONS].

(** ** Collecting the endpoints *)

Definition defaultEndpoints : list (string * gset string) :=
  [("/reqmod", {[MethodREQMOD]}); ("/respmod", {[MethodRESPMOD]}); ("/options", {[MethodOPTIONS]})].

(** [registrations]: [None] marks a default endpoint. *)
Definition Registrations : Type := gmap string (option (gset string)) * list string.

Definition collect (ep : string) (methods : list string) (st : Registrations) : Registrations :=
  match st.1 !! ep with
  | Some None => st
  | Some (Some ms) => (<[ep := Some (ms ∪ list_to_set methods)]> st.1, st.2)
  | None => (<[ep := Some (list_to_set methods)]> st.1, st.2 ++ [ep])
  end.

Definition collect_all (l : list (string * list string)) (st : Registrations) : Registrations :=
  foldl (λ st em, collect em.1 em.2 st) st l.

Definition initial : Registrations := (list_to_map (map (λ em, (em.1, None)) defaultEndpoints), []).

(** ** What the declarations collect *)

(** The methods that all declarations give an endpoint. *)
Definition methods_for (ep : string) (l : list (string * list string)) : gset string :=
  list_to_set (flat_map (λ em, if bool_decide (em.1 = ep) then em.2 else []) l).

Definition default_methods (ep : string) : option (gset string) := snd <$> List.find (λ em, bool_decide (em.1 = ep)) defaultEndpoints.

(** The state after the declarations [l]. *)
Definition collected_ok (l : list (string * list string)) (st : Registrations) : Prop :=
  (∀ ep, st.1 !! ep = if bool_decide (is_Some (default_methods ep)) then Some None
                      else if bool_decide (ep ∈ map fst l) then Some (Some (methods_for ep l)) else None) ∧
  (∀ ep, ep ∈ st.2 ↔ ep ∈ map fst l ∧ default_methods ep = None) ∧ NoDup st.2.

Lemma methods_for_snoc ep l em :
  methods_for ep (l ++ [em]) = methods_for ep l ∪ (if bool_decide (em.1 = ep) then list_to_set em.2 else ∅).
Proof.
  unfold methods_for. rewrite flat_map_app. cbn [flat_map]. rewrite app_nil_r, list_to_set_app_L. by case_bool_decide.
Qed.

Lemma methods_for_absent ep l : ep ∉ map fst l → methods_for ep l = ∅.
Proof.
  induction l as [|em l IH]; cbn; [done|]. intros [Hne Hl]%not_elem_of_cons. unfold methods_for. cbn [flat_map].
  rewrite bool_decide_false by congruence. by apply IH.
Qed.

Lemma initial_ok : collected_ok [] initial.
Proof.
  split_and!; [|intros ep; cbn; split; [by intros ?%elem_of_nil|by intros [?%elem_of_nil _]]|constructor].
  intros ep. cbn [initial fst map]. rewrite (bool_decide_false (ep ∈ [])) by apply not_elem_of_nil.
  unfold default_methods, defaultEndpoints. cbn [map fst list_to_map foldr List.find].
  destruct (decide (ep = "/reqmod")) as [->|H1]; [reflexivity|].
  destruct (decide (ep = "/respmod")) as [->|H2]; [reflexivity|].
  destruct (decide (ep = "/options")) as [->|H3]; [reflexivity|].
  rewrite (bool_decide_false ("/reqmod" = ep)), (bool_decide_false ("/respmod" = ep)), (bool_decide_false ("/options" = ep))
    by congruence.
  cbn [fmap option_fmap option_map]. rewrite bool_decide_false by (by intros []).
  unfold list_to_map. cbn. by rewrite !lookup_insert_ne by done.
Qed.

Lemma collect_ok l st em : collected_ok l st → collected_ok (l ++ [em]) (collect em.1 em.2 st).
Proof.
  destruct em as [ep ms]. intros (Hreg & Hord & Hnd). unfold collect. cbn [fst snd]. pose proof (Hreg ep) as Hep.
  assert (Hin : ∀ x, x ∈ map fst (l ++ [(ep, ms)]) ↔ x ∈ map fst l ∨ x = ep).
  { intros x. rewrite map_app, elem_of_app. cbn. by rewrite list_elem_of_singleton. }
  destruct (default_methods ep) as [d|] eqn:Ed.
  - rewrite bool_decide_true in Hep by done. rewrite Hep. split_and!; [| |done].
    + intros x. rewrite Hreg. destruct (decide (x = ep)) as [->|Hne]; [by rewrite !bool_decide_true by (rewrite Ed; done)|].
      rewrite methods_for_snoc, (bool_decide_false (_.1 = x)) by (cbn; congruence). rewrite union_empty_r_L.
      rewrite (bool_decide_ext (x ∈ map fst (l ++ [(ep, ms)])) (x ∈ map fst l)) by (rewrite Hin; tauto). done.
    + intros x. rewrite Hord, Hin. split; [tauto|]. intros [[?| ->] ?]; [done|congruence].
  - rewrite bool_decide_false in Hep by (by intros []).
    assert (Hlk : st.1 !! ep ≠ Some None ∧ collected_ok (l ++ [(ep, ms)])
      (<[ep := Some (methods_for ep l ∪ list_to_set ms)]> st.1, if bool_decide (ep ∈ map fst l) then st.2 else st.2 ++ [ep])).
    { split; [rewrite Hep; by case_bool_decide|]. split_and!; cbn [fst snd].
      - intros x. rewrite methods_for_snoc. cbn [fst snd]. destruct (decide (x = ep)) as [->|Hne].
        + rewrite lookup_insert_eq, Ed, (bool_decide_false (is_Some None)) by (by intros []).
          rewrite (bool_decide_true (ep = ep)) by done. by rewrite bool_decide_true by (rewrite Hin; by right).
        + rewrite lookup_insert_ne, Hreg by done. rewrite (bool_decide_false (ep = x)) by congruence.
          rewrite union_empty_r_L.
          rewrite (bool_decide_ext (x ∈ map fst (l ++ [(ep, ms)])) (x ∈ map fst l)) by (rewrite Hin; tauto). done.
      - intros x. rewrite Hin. case_bool_decide.
        + rewrite Hord. split; [tauto|]. intros [[?| ->] ?]; done.
        + rewrite elem_of_app, list_elem_of_singleton, Hord. split; [intros [[]| ->]; tauto|]. tauto.
      - case_bool_decide; [done|]. apply NoDup_snoc. split; [|done]. rewrite Hord. tauto. }
    destruct Hlk as [_ Hok]. rewrite Hep. case_bool_decide as Hel; [done|].
    rewrite methods_for_absent in Hok by done. by rewrite union_empty_l_L in Hok.
Qed.

Lemma collect_all_ok l : collected_ok l (collect_all l initial).
Proof.
  unfold collect_all. induction l as [|em l IH] using rev_ind; [apply initial_ok|].
  rewrite foldl_app. cbn [foldl]. by apply collect_ok.
Qed.

Definition is_pattern (ep : string) : bool := contains_str ep "{" || has_prefix ep "re:".

Definition literals (eps : list (string * gset string)) : list (string * gset string) :=
  filter (λ em, is_pattern em.1 = false) eps.
Definition pattern_endpoints (eps : list (string * gset string)) : list (string * gset string) :=
  filter (λ em, is_pattern em.1 = true) eps.

Lemma literals_lookup l eps path :
  NoDup eps →
  (list_to_map (literals (map (λ ep, (ep, methods_for ep l)) eps)) : gmap string (gset string)) !! path =
  if bool_decide (path ∈ eps) && negb (is_pattern path) then Some (methods_for path l) else None.
Proof.
  induction 1 as [|ep eps Hep Hnd IH]; [done|]. cbn [map]. unfold literals in *. rewrite filter_cons. cbn [fst].
  destruct (decide (path = ep)) as [->|Hne].
  - rewrite (bool_decide_true (ep ∈ ep :: eps)) by left. destruct (decide (is_pattern ep = false)) as [Ep|Ep].
    + rewrite Ep. apply lookup_insert_eq.
    + rewrite IH, bool_decide_false by done. by destruct (is_pattern ep).
  - assert (E : bool_decide (path ∈ ep :: eps) = bool_decide (path ∈ eps)).
    { apply bool_decide_ext. rewrite elem_of_cons. tauto. }
    rewrite E. destruct (decide (is_pattern ep = false)); [|done]. etrans; [by apply lookup_insert_ne|done].
Qed.

Section Register.
Context {Regexp : Type}.
Context (FindStringSubmatch : Regexp → string → option (list string)).
Context (SubexpNames : Regexp → list string).
Context (Compile : string → option Regexp).
Context {IPNet : Type} {Response : Type}.

Notation Scenario := (Scenario (Regexp := Regexp) (IPNet := IPNet) (Response := Response)).

(** The pairs of an endpoint and methods that a scenario collects, in order. *)
Definition declared (s : Scenario) : list (string * list string) :=
  let m := Match_ s in
  if negb (bool_decide (Routes m = ∅)) then
    flat_map (λ method, map (λ ep, (ep, [method])) (default [] (Routes m !! method))) (Methods m)
  else
    let methods := if bool_decide (Methods m = []) then [MethodRESPMOD] else Methods m in
    let paths := if bool_decide (Paths m = []) && negb (String.eqb (Path m) "") then [Path m] else Paths m in
    map (λ ep, (ep, methods)) paths.

Definition registrations (scenarios : list Scenario) : Registrations :=
  collect_all (flat_map declared scenarios) initial.

(** ** Registering them *)

Inductive RegisterError := BadPattern (ep : string) | BadRoute (e : RouterError).

Notation Router := (Router (Handler := gset string) (Regexp := Regexp)).

Definition CompileEndpointRegex (ep : string) : option (option Regexp) := re <$> compileEndpoint Compile ep.

Definition routed {A} (r : result RouterError A) : result RegisterError A :=
  match r with Ok a => Ok a | Err e => Err (BadRoute e) end.

Definition register_one (ep : string) (allowed : gset string) (rtr : Router) : result RegisterError Router :=
  if is_pattern ep then
    match CompileEndpointRegex ep with
    | None => Err (BadPattern ep)
    | Some r => routed (HandlePattern r (Some allowed) rtr)
    end
  else routed (Handle ep (Some allowed) rtr).

Fixpoint register_all (eps : list (string * gset string)) (rtr : Router) : result RegisterError Router :=
  match eps with
  | [] => Ok rtr
  | (ep, allowed) :: eps => let! rtr := register_one ep allowed rtr in register_all eps rtr
  end.

Fixpoint register_defaults (eps : list (string * gset string)) (rtr : Router) : result RegisterError Router :=
  match eps with
  | [] => Ok rtr
  | (ep, allowed) :: eps => let! rtr := routed (Handle ep (Some allowed) rtr) in register_defaults eps rtr
  end.

(** The endpoints in the order they were first seen, with their methods. *)
Definition collected (st : Registrations) : list (string * gset string) :=
  map (λ ep, (ep, default ∅ (default None (st.1 !! ep)))) st.2.

(** [None] is a missing registry. *)
Definition registerHandlers (registry : option (list Scenario)) (rtr : Router) : result RegisterError Router :=
  let! rtr := register_defaults defaultEndpoints rtr in
  match registry with
  | None => Ok rtr
  | Some scenarios => register_all (collected (registrations scenarios)) rtr
  end.

(** ** What is registered *)

Definition serves_ok (rtr : Router) : Prop := ∃ les, router_ok rtr les.

Lemma Handle_ok ep h rtr rtr' :
  serves_ok rtr → Handle ep (Some h) rtr = Ok rtr' →
  serves_ok rtr' ∧ ep ≠ "" ∧ routes rtr' = <[ep := h]> (routes rtr) ∧ patterns rtr' = patterns rtr.
Proof using.
  intros [les Hok] E. unfold Handle in E. destruct (String.eqb_spec ep "") as [|Hne]; [done|]. injection E as <-.
  split_and!; [|done..]. exists []. by apply Clear_ok with les.
Qed.

Lemma HandlePattern_ok re h rtr rtr' :
  serves_ok rtr → HandlePattern (Some re) (Some h) rtr = Ok rtr' →
  serves_ok rtr' ∧ routes rtr' = routes rtr ∧ patterns rtr' = patterns rtr ++ [{| pr_re := re; pr_h := h |}].
Proof using. intros [les Hok] [= <-]. split_and!; [|done..]. exists []. by apply Clear_ok with les. Qed.

(** The route of a pattern endpoint. *)
Definition pattern_of (em : string * gset string) (p : patternRoute (Handler := gset string) (Regexp := Regexp)) : Prop :=
  CompileEndpointRegex em.1 = Some (Some (pr_re p)) ∧ pr_h p = em.2.

Lemma register_all_ok eps rtr rtr' :
  NoDup (map fst eps) → serves_ok rtr → register_all eps rtr = Ok rtr' →
  serves_ok rtr' ∧ routes rtr' = list_to_map (literals eps) ∪ routes rtr ∧
  ∃ ps, patterns rtr' = patterns rtr ++ ps ∧ Forall2 pattern_of (pattern_endpoints eps) ps.
Proof using.
  revert rtr. induction eps as [|[ep a] eps IH]; intros rtr Hnd Hok E; cbn [register_all] in E.
  { injection E as <-. cbn. rewrite (left_id_L ∅ (∪)). split_and!; [done..|]. exists []. by rewrite app_nil_r. }
  apply result_bind_ok in E as (rtr1 & E1 & E). cbn in Hnd. apply NoDup_cons in Hnd as [Hep Hnd].
  unfold register_one, literals, pattern_endpoints in *. rewrite !filter_cons. cbn [fst].
  destruct (is_pattern ep) eqn:Ep; cbn [decide_rel].
  - destruct (CompileEndpointRegex ep) as [r|] eqn:Er; [|done]. destruct r as [r|]; [|done].
    destruct (HandlePattern (Some r) (Some a) rtr) as [x|] eqn:Eh; [|done]. injection E1 as ->.
    destruct (HandlePattern_ok _ _ _ _ Hok Eh) as (Hok1 & Hr1 & Hp1).
    destruct (IH _ Hnd Hok1 E) as (Hok' & Hr' & ps & Hp' & Hall). rewrite Hr', Hr1, Hp', Hp1.
    split_and!; [done..|]. eexists ({| pr_re := r; pr_h := a |} :: ps). rewrite <- app_assoc. split; [done|].
    constructor; [by split|done].
  - destruct (Handle ep (Some a) rtr) as [x|] eqn:Eh; [|done]. injection E1 as ->.
    destruct (Handle_ok _ _ _ _ Hok Eh) as (Hok1 & Hne & Hr1 & Hp1).
    destruct (IH _ Hnd Hok1 E) as (Hok' & Hr' & ps & Hp' & Hall). rewrite Hr', Hr1, Hp', Hp1.
    split_and!; [done| |by exists ps]. rewrite <- insert_union_r, insert_union_l; [done|]. apply not_elem_of_list_to_map_1. intros Hin. apply Hep.
    apply list_elem_of_fmap in Hin as (em & -> & Hin). apply list_elem_of_filter in Hin as [_ Hin]. by apply list_elem_of_fmap_2.
Qed.

Lemma register_defaults_ok rtr :
  register_defaults defaultEndpoints rtr =
  Ok {| r_cache := Clear (Clear (Clear (r_cache rtr)));
        routes := <["/options" := {[MethodOPTIONS]}]> (<["/respmod" := {[MethodRESPMOD]}]>
                    (<["/reqmod" := {[MethodREQMOD]}]> (routes rtr)));
        patterns := patterns rtr |}.
Proof using. reflexivity. Qed.

Lemma default_lookup path :
  (<["/options" := {[MethodOPTIONS]}]> (<["/respmod" := {[MethodRESPMOD]}]>
     (<["/reqmod" := {[MethodREQMOD]}]> ∅)) : gmap string (gset string)) !! path = default_methods path.
Proof using.
  unfold default_methods, defaultEndpoints. cbn [List.find fst].
  destruct (decide (path = "/options")) as [->|H1]; [by rewrite lookup_insert_eq|]. rewrite lookup_insert_ne by done.
  destruct (decide (path = "/respmod")) as [->|H2]; [by rewrite lookup_insert_eq|]. rewrite lookup_insert_ne by done.
  destruct (decide (path = "/reqmod")) as [->|H3]; [by rewrite lookup_insert_eq|]. rewrite lookup_insert_ne by done.
  by rewrite lookup_empty, (bool_decide_false ("/reqmod" = path)), (bool_decide_false ("/respmod" = path)),
    (bool_decide_false ("/options" = path)) by congruence.
Qed.

Lemma collected_map l st :
  collected_ok l st → collected st = map (λ ep, (ep, methods_for ep l)) st.2.
Proof using.
  intros (Hreg & Hord & _). unfold collected. apply map_ext_in. intros ep Hin. apply list_elem_of_In, Hord in Hin as [Hin Hd].
  rewrite Hreg, Hd, bool_decide_false by (by intros []). by rewrite bool_decide_true.
Qed.

Lemma pattern_of_map l eps ps :
  Forall2 pattern_of (pattern_endpoints (map (λ ep, (ep, methods_for ep l)) eps)) ps →
  Forall2 (λ ep p, CompileEndpointRegex ep = Some (Some (pr_re p)) ∧ pr_h p = methods_for ep l)
          (filter (λ ep, is_pattern ep = true) eps) ps.
Proof using.
  revert ps. induction eps as [|ep eps IH]; intros ps; [by intros ->%Forall2_nil_inv_l|].
  unfold pattern_endpoints. cbn [map]. rewrite !filter_cons. cbn [fst]. case_decide; [|apply IH].
  intros (p & ps' & Hp & Hps & ->)%Forall2_cons_inv_l. constructor; [exact Hp|by apply IH].
Qed.

Lemma registered scenarios max life rtr :
  registerHandlers (Some scenarios) (NewRouterWithCache max life) = Ok rtr →
  let l := flat_map declared scenarios in
  let eps := map (λ ep, (ep, methods_for ep l)) (registrations scenarios).2 in
  collected_ok l (registrations scenarios) ∧ serves_ok rtr ∧
  (∀ path, routes rtr !! path = (list_to_map (literals eps) : gmap string (gset string)) !! path ∪ default_methods path) ∧
  Forall2 pattern_of (pattern_endpoints eps) (patterns rtr).
Proof using.
  intros E l eps. unfold registerHandlers in E. rewrite register_defaults_ok in E. cbn [result_bind] in E.
  pose proof (collect_all_ok l) as Hc. change (collect_all l initial) with (registrations scenarios) in Hc.
  rewrite (collected_map _ _ Hc) in E. split; [done|]. destruct Hc as (_ & _ & Hnd).
  apply register_all_ok in E as (Hok & Hr & ps & Hp & Hall).
  - cbn [patterns routes NewRouterWithCache app] in *. rewrite Hp. split_and!; [done| |done].
    intros path. by rewrite Hr, lookup_union, default_lookup.
  - rewrite map_map. by rewrite map_id.
  - exists []. apply Clear_ok with []. exact (new_router_ok max life).
Qed.

Lemma tables_of scenarios max life rtr :
  registerHandlers (Some scenarios) (NewRouterWithCache max life) = Ok rtr →
  let l := flat_map declared scenarios in
  (∀ path, routes rtr !! path =
     match default_methods path with
     | Some ms => Some ms
     | None => if bool_decide (path ∈ map fst l) && negb (is_pattern path) then Some (methods_for path l) else None
     end) ∧
  ∃ eps, NoDup eps ∧ (∀ ep, ep ∈ eps ↔ ep ∈ map fst l ∧ default_methods ep = None ∧ is_pattern ep = true) ∧
         Forall2 (λ ep p, CompileEndpointRegex ep = Some (Some (pr_re p)) ∧ pr_h p = methods_for ep l) eps (patterns rtr).
Proof using.
  intros E l. destruct (registered _ _ _ _ E) as ((_ & Hord & Hnd) & _ & Hr & Hall). fold l in Hord, Hr, Hall. split.
  - intros path. rewrite Hr, literals_lookup by done.
    rewrite (bool_decide_ext (path ∈ (registrations scenarios).2) (path ∈ map fst l ∧ default_methods path = None)) by done.
    destruct (default_methods path) as [ms|].
    + rewrite bool_decide_false by (by intros []). done.
    + rewrite (bool_decide_ext _ (path ∈ map fst l)) by tauto. by destruct (_ && _).
  - exists (filter (λ ep, is_pattern ep = true) (registrations scenarios).2). split_and!.
    + by apply NoDup_filter.
    + intros ep. rewrite list_elem_of_filter, Hord. tauto.
    + by apply pattern_of_map.
Qed.

(** Registration gives every default service its own method, every other
    endpoint that some scenario declares without a placeholder the methods that
    all declarations give it together, and every endpoint with placeholders a
    pattern with those methods, once each, in the order of first declaration;
    nothing else is served. *)
Theorem registered_tables scenarios max life rtr :
  registerHandlers (Some scenarios) (NewRouterWithCache max life) = Ok rtr →
  let l := flat_map declared scenarios in
  (∀ path, routes rtr !! path =
     match default_methods path with
     | Some ms => Some ms
     | None => if bool_decide (path ∈ map fst l) && negb (is_pattern path) then Some (methods_for path l) else None
     end) ∧
  ∃ eps, NoDup eps ∧ (∀ ep, ep ∈ eps ↔ ep ∈ map fst l ∧ default_methods ep = None ∧ is_pattern ep = true) ∧
         Forall2 (λ ep p, CompileEndpointRegex ep = Some (Some (pr_re p)) ∧ pr_h p = methods_for ep l) eps (patterns rtr).
Proof using. apply tables_of. Qed.

(** ** Requests reach the scenarios *)

Notation run_router := (run_router (MatchString FindStringSubmatch)).
Notation Serve := (Serve (MatchString FindStringSubmatch)).

(** Requests and cache resets, after the registration. *)
Definition request_op (o : router_op (Handler := gset string) (Regexp := Regexp)) : Prop :=
  match o with
  | RServe _ method _ => method ∈ [MethodREQMOD; MethodRESPMOD; MethodOPTIONS]
  | RCacheClear => True
  | _ => False
  end.

Lemma method_plain method : method ∈ [MethodREQMOD; MethodRESPMOD; MethodOPTIONS] → index_byte method ":" = None.
Proof using. intros Hm. rewrite !elem_of_cons, elem_of_nil in Hm. by destruct Hm as [->|[->|[->|[]]]]. Qed.

Lemma requests_keep_tables ops rt ps :
  Forall request_op ops →
  (run_table (MatchString FindStringSubmatch) ops rt ps).1.2 = rt ∧ (run_table (MatchString FindStringSubmatch) ops rt ps).2 = ps.
Proof using.
  induction 1 as [|o ops Ho _ IH]; [done|]. cbn [run_table]. destruct o as [| | |now m uri]; try done; cbn [table_step];
    destruct (run_table _ ops rt ps) as [[hs rt'] ps']; exact IH.
Qed.

Lemma match_patterns_found ps p path :
  p ∈ ps → MatchString FindStringSubmatch (pr_re p) path = true →
  is_Some (match_patterns (MatchString FindStringSubmatch) (Handler := gset string) ps path).
Proof using.
  induction ps as [|q ps IH]; [by intros ?%elem_of_nil|]. intros [->|Hin]%elem_of_cons Hm; cbn [match_patterns].
  - rewrite Hm. by eexists.
  - destruct (MatchString _ (pr_re q) path); [by eexists|by apply IH].
Qed.

Lemma is_pattern_literal ep : is_pattern ep = false → has_prefix ep "re:" = false ∧ Ascii.ascii_of_nat 123 ∉ bytes_of ep.
Proof using.
  intros [Hc Hp]%orb_false_iff. split; [done|]. rewrite contains_str_byte in Hc. by apply bool_decide_eq_false in Hc.
Qed.

Lemma matches_compiled ep path ce :
  compileEndpoint Compile ep = Some ce → is_Some (matchEndpoint FindStringSubmatch SubexpNames [ce] path) →
  ∃ r, re ce = Some r ∧ MatchString FindStringSubmatch r (strip_query path) = true.
Proof using.
  intros _ Hm. unfold matchEndpoint in Hm. fold (strip_query path) in Hm. cbn [matchEndpointLoop] in Hm.
  destruct (re ce) as [r|]; [|by destruct Hm]. exists r. split; [done|]. unfold MatchString.
  destruct (FindStringSubmatch r (strip_query path)); [done|by destruct Hm].
Qed.

Context {Hlaws : RegexpLaws FindStringSubmatch SubexpNames Compile}.

Lemma table_serves scenarios max life rtr ep ms ce uri :
  registerHandlers (Some scenarios) (NewRouterWithCache max life) = Ok rtr →
  plain ep = true → (ep, ms) ∈ flat_map declared scenarios → compileEndpoint Compile ep = Some ce →
  is_Some (matchEndpoint FindStringSubmatch SubexpNames [ce] (Scenario.extractPath uri)) →
  is_Some (route (MatchString FindStringSubmatch) (routes rtr) (patterns rtr) (strip_query (Scenario.extractPath uri))).
Proof using Hlaws.
  intros E Hplain Hin Hce Hm. destruct (tables_of _ _ _ _ E) as (Hr & eps & _ & Heps & Hall).
  set (path := strip_query _). unfold route. apply (list_elem_of_fmap_2 fst) in Hin. cbn [fst] in Hin.
  assert (Hne : ep ≠ "").
  { intros ->. cbn in Hce. injection Hce as <-. by destruct Hm. }
  destruct (matches_compiled _ _ _ Hce Hm) as (r & Hre & Hmatch).
  destruct (routes rtr !! path) as [h|] eqn:Eh; [by eexists|]. rewrite Hr in Eh.
  destruct (default_methods path) eqn:Ed; [done|].
  destruct (is_pattern ep) eqn:Ep.
  - assert (Hep : ep ∈ eps).
    { apply Heps. split_and!; [done| |done]. destruct (default_methods ep) eqn:Ed'; [|done]. exfalso.
      unfold default_methods, defaultEndpoints in Ed'. cbn [List.find fst] in Ed'.
      repeat case_bool_decide; subst; done. }
    apply list_elem_of_lookup in Hep as [i Hi]. destruct (Forall2_lookup_l _ _ _ _ _ Hall Hi) as (p & Hp & Hc & _).
    apply (match_patterns_found _ p); [by eapply list_elem_of_lookup_2|].
    unfold CompileEndpointRegex in Hc. rewrite Hce in Hc. cbn in Hc. rewrite Hre in Hc. by injection Hc as <-.
  - exfalso. destruct (is_pattern_literal _ Ep) as [Hpre Hlit].
    apply (endpoint_literal _ _ _ _ _ _ (or_introl Hplain) Hne Hpre Hlit Hce) in Hm. fold path in Hm. subst ep.
    rewrite bool_decide_true, Ep in Eh by done. done.
Qed.

(** A declared endpoint that the scenarios match is routed. *)
Lemma endpoint_served scenarios max life rtr ep ms ce ops now method uri :
  registerHandlers (Some scenarios) (NewRouterWithCache max life) = Ok rtr →
  plain ep = true → (ep, ms) ∈ flat_map declared scenarios → compileEndpoint Compile ep = Some ce →
  is_Some (matchEndpoint FindStringSubmatch SubexpNames [ce] (Scenario.extractPath uri)) →
  has_prefix uri "icap://" = true → has_prefix (str_drop 7 uri) "icaps://" = false → index_byte uri "#" = None →
  Forall request_op ops → method ∈ [MethodREQMOD; MethodRESPMOD] →
  ∃ hs rtr1 allowed rtr2,
    run_router ops rtr = Some (hs, rtr1) ∧ Serve now method uri rtr1 = Some (Some allowed, rtr2) ∧
    dispatch allowed method = if String.eqb method MethodREQMOD then ToReqmod else ToRespmod.
Proof using Hlaws.
  intros E Hplain Hin Hce Hm Hpre Hs Hf Hops Hmethod. pose proof (table_serves _ _ _ _ _ _ _ _ E Hplain Hin Hce Hm) as Hroute.
  rewrite <- paths_agree in Hroute by done. destruct Hroute as [allowed Ha].
  destruct (registered _ _ _ _ E) as (_ & Hok & _).
  destruct Hok as [les Hok].
  assert (Hpm : Forall plain_method ops).
  { eapply Forall_impl; [exact Hops|]. intros [| | |? m ?]; try done. apply method_plain. }
  destruct (run_router_ok (MatchString FindStringSubmatch) ops rtr les Hpm Hok) as (rtr1 & les1 & Hrun & Hok1 & Hr1 & Hp1).
  destruct (requests_keep_tables ops (routes rtr) (patterns rtr) Hops) as [Ert Eps]. rewrite Ert in Hr1. rewrite Eps in Hp1.
  destruct (Serve_spec (MatchString FindStringSubmatch) now method uri rtr1 les1) as (rtr2 & les2 & Hserve & _); [|done|].
  { apply method_plain. rewrite !elem_of_cons in *. tauto. }
  rewrite Hr1, Hp1, Ha in Hserve. eexists _, rtr1, allowed, rtr2. split; [exact Hrun|]. split; [exact Hserve|].
  unfold dispatch. rewrite !elem_of_cons, elem_of_nil in Hmethod. by destruct Hmethod as [->|[->|[]]].
Qed.

End Register.

(** ** Compiled scenarios *)

Section Served.
Context {Regexp : Type}.
Context (FindStringSubmatch : Regexp → string → option (list string)).
Context (SubexpNames : Regexp → list string).
Context (Compile : string → option Regexp) {Hlaws : RegexpLaws FindStringSubmatch SubexpNames Compile}.
Context (ParseMediaType : string → option (string * gmap string string)).
Context {IPNet : Type} (ParseCIDR : string → option IPNet) (FileExists : string → bool).
Context {R : Type}.

Notation Scenario := (Scenario (Regexp := Regexp) (IPNet := IPNet) (Response := Responses)).
Notation validate := (validateAndCompile FindStringSubmatch Compile ParseMediaType ParseCIDR FileExists).
Notation run_router := (run_router (MatchString FindStringSubmatch)).
Notation Serve := (Serve (MatchString FindStringSubmatch)).

(** The endpoints of a scenario for a method, without the single path of version 1. *)
Definition endpoints (s : Scenario) (method : string) : list string :=
  if bool_decide (Routes (Match_ s) = ∅) then Paths (Match_ s) else default [] (Routes (Match_ s) !! method).

Lemma declared_endpoint s method ep :
  ep ∈ endpoints s method → (∀ m, is_Some (Routes (Match_ s) !! m) → m ∈ Methods (Match_ s)) → ∃ ms, (ep, ms) ∈ declared s.
Proof using.
  unfold endpoints, declared. case_bool_decide as E; cbn [negb].
  - intros Hep _. rewrite (bool_decide_false (Paths (Match_ s) = [])) by (intros E'; rewrite E' in Hep; by apply elem_of_nil in Hep). cbn [andb].
    eexists. by apply (list_elem_of_fmap_2 (λ ep, (ep, _))).
  - intros Hep Hm. destruct (Routes (Match_ s) !! method) as [eps|] eqn:Er; [|by apply elem_of_nil in Hep]. exists [method].
    apply list_elem_of_In, in_flat_map. exists method. split; [apply list_elem_of_In, Hm; by rewrite Er|].
    rewrite Er. apply list_elem_of_In. by apply (list_elem_of_fmap_2 (λ ep, (ep, [method]))).
Qed.

(** What answers is one of the declared endpoints, compiled. *)
Lemma answering_endpoint s0 s (q : Request (R := R)) :
  validate s0 = Ok s → (Routes (Match_ s) = ∅ → Paths (Match_ s) ≠ []) → routeCondition FindStringSubmatch SubexpNames s q = true →
  ∃ ep ce, ep ∈ endpoints s (q_Method q) ∧ compileEndpoint Compile ep = Some ce ∧
           is_Some (matchEndpoint FindStringSubmatch SubexpNames [ce] (Scenario.extractPath (q_URI q))).
Proof using.
  intros Hv Hpaths Hr. destruct (validateAndCompile_inv _ _ _ _ _ _ _ Hv) as (_ & Hroutes & Hp & _ & Hrules & _).
  destruct (compileRules_inv _ _ _ _ _ Hrules) as (l1 & l2 & _ & _ & Hm & _). cbn [fst] in Hm.
  assert (HR : Routes (Match_ s) = Routes (Match_ s0)) by by rewrite Hm.
  assert (HP : Paths (Match_ s) = Paths (Match_ s0)) by by rewrite Hm.
  assert (Hpick : ∀ eps ces, Forall2 (λ e c, compileEndpoint Compile e = Some c) eps ces → eps ≠ [] →
    bool_decide (ces = []) || bool_decide (is_Some (matchEndpoint FindStringSubmatch SubexpNames ces (Scenario.extractPath (q_URI q)))) = true →
    ∃ ep ce, ep ∈ eps ∧ compileEndpoint Compile ep = Some ce ∧
             is_Some (matchEndpoint FindStringSubmatch SubexpNames [ce] (Scenario.extractPath (q_URI q)))).
  { intros eps ces Hf Hne Hb. rewrite bool_decide_false in Hb by (intros ->; by inversion Hf; subst). cbn [orb] in Hb.
    apply bool_decide_eq_true in Hb. destruct (matchEndpoint_elem _ _ _ _ Hb) as (ce & Hce & Hmatch).
    apply list_elem_of_lookup in Hce as [i Hi]. destruct (Forall2_lookup_r _ _ _ _ _ Hf Hi) as (ep & Hep & Hc).
    exists ep, ce. split_and!; [by eapply list_elem_of_lookup_2|done..]. }
  unfold endpoints. apply compileRoutes_inv in Hroutes. unfold routeCondition, routePathsFor in Hr.
  destruct (compiledRoutes s) as [cs|].
  - specialize (Hroutes (q_Method q)). rewrite <- HR in Hroutes. destruct (cs !! q_Method q) as [ces|]; [|done].
    destruct (Routes (Match_ s) !! q_Method q) as [eps|] eqn:Eeps; [|done]. destruct Hroutes as (_ & Hne & Hf).
    rewrite bool_decide_false by (intros E; by rewrite E in Eeps). cbn [default from_option id].
    apply (Hpick eps ces); [|done|done]. eapply Forall2_impl; [exact Hf|]. by intros ? ? [? _].
  - rewrite <- HR in Hroutes. rewrite bool_decide_true by done. destruct (methodMatches _ _); [|done].
    unfold compilePaths in Hp. rewrite <- HP in Hp. specialize (Hpaths Hroutes). rewrite bool_decide_false in Hp by done. cbn [negb] in Hp.
    destruct (mapM _ _) as [ces|] eqn:Em; [|done]. injection Hp as Hp. rewrite <- Hp in Hr. apply mapM_Some in Em.
    by apply (Hpick _ ces).
Qed.

(** C5: whenever the route condition of a scenario of the registry holds of a REQMOD or
    RESPMOD request, the request is not answered 404: after any requests and cache
    resets the router gives it a handler, which sends it to the handler of its own
    method and so to the scenarios. This is about scenarios with endpoints: with routes,
    for whose methods the scenario is, or with paths; the single regular expression
    that scenarios of version 1 have as their path is registered as an endpoint and is
    not covered. The URI has the scheme in lower case and no fragment, for which the
    router and the scenarios read different paths, and no endpoint asks for U+FFFD. *)
Theorem declared_endpoints_served scenarios max life rtr s0 s ops now (q : Request (R := R)) :
  registerHandlers Compile (Some scenarios) (NewRouterWithCache max life) = Ok rtr →
  s ∈ scenarios → validate s0 = Ok s → routeCondition FindStringSubmatch SubexpNames s q = true →
  (Routes (Match_ s) = ∅ → Paths (Match_ s) ≠ []) →
  (∀ m, is_Some (Routes (Match_ s) !! m) → m ∈ Methods (Match_ s)) →
  Forall (λ ep, plain ep = true) (endpoints s (q_Method q)) →
  has_prefix (q_URI q) "icap://" = true → has_prefix (str_drop 7 (q_URI q)) "icaps://" = false → index_byte (q_URI q) "#" = None →
  Forall request_op ops → q_Method q ∈ [MethodREQMOD; MethodRESPMOD] →
  ∃ hs rtr1 allowed rtr2,
    run_router ops rtr = Some (hs, rtr1) ∧ Serve now (q_Method q) (q_URI q) rtr1 = Some (Some allowed, rtr2) ∧
    dispatch allowed (q_Method q) = if String.eqb (q_Method q) MethodREQMOD then ToReqmod else ToRespmod.
Proof using Hlaws.
  intros E Hs Hv Hr Hpaths Hms Hplain Hpre Hsc Hf Hops Hmethod.
  destruct (answering_endpoint s0 s q Hv Hpaths Hr) as (ep & ce & Hep & Hce & Hm).
  destruct (declared_endpoint s _ ep Hep Hms) as [ms Hin]. rewrite Forall_forall in Hplain.
  apply (endpoint_served FindStringSubmatch SubexpNames Compile scenarios max life rtr ep ms ce); try done; [by apply Hplain|].
  apply list_elem_of_In, in_flat_map. exists s. by rewrite <- !list_elem_of_In.
Qed.
End Served.

(** ** Instances *)

Module Served.
Definition rule : MatchRule :=
  {| Routes := ∅; Path := ""; Paths := ["/scan/{id}"; "/reqmod"; "/plain"]; Methods := [MethodREQMOD; MethodOPTIONS];
     mr_HTTPMethod := ""; HTTPURL := ""; Headers := ∅; HeaderContains := ∅; HTTPHeaders := ∅;
     HTTPHeaderContains := ∅; BodyPattern := ""; ClientIP := ""; CIDRRanges := [] |}.
Definition declaration : Scenario (Regexp := list Atom) (IPNet := string) (Response := Responses) :=
  Demo.scenario rule Demo.fresh_rules None.
Definition compiled := validateAndCompile Engine.find Engine.Compile (λ _, None) Some (λ _, true) declaration.
Definition scenario : Scenario (Regexp := list Atom) (IPNet := string) (Response := Responses) :=
  match compiled with Ok s => s | Err _ => declaration end.
Definition uri : string := "icap://localhost:1344/scan/42?preview=1".
Definition request (method uri : string) : Request (R := ChunkedConn) :=
  {| q_Method := method; q_URI := uri; q_Header := ∅; q_HTTPRequest := None; q_HTTPResponse := None;
     q_ClientIP := "10.0.0.1"; q_Preview := 0; q_PreviewSet := false; Captures := None; matchedBranch := 0; matchedBranchSet := false |}.
Definition registration := registerHandlers Engine.Compile (Some [scenario]) (NewRouterWithCache 0 0).

Lemma compiled_ok : compiled = Ok scenario.
Proof. unfold scenario. destruct compiled as [s|] eqn:E; [done|vm_compute in E; discriminate E]. Qed.

(** A scenario of version 1 whose path is a regular expression. *)
Definition legacy_rule : MatchRule :=
  {| Routes := ∅; Path := "^/a\.b$"; Paths := []; Methods := [MethodREQMOD]; mr_HTTPMethod := ""; HTTPURL := ""; Headers := ∅;
     HeaderContains := ∅; HTTPHeaders := ∅; HTTPHeaderContains := ∅; BodyPattern := ""; ClientIP := ""; CIDRRanges := [] |}.
Definition legacy : Scenario (Regexp := list Atom) (IPNet := string) (Response := Responses) :=
  match validateAndCompile Engine.find Engine.Compile (λ _, None) Some (λ _, true) (Demo.scenario legacy_rule Demo.fresh_rules None) with
  | Ok s => s
  | Err _ => declaration
  end.
End Served.

(** The scenario matches the request, and the request is answered 404: the regular
    expression was registered as if it were a path. *)
Example legacy_path_not_served :
  routeCondition Engine.find Engine.names Served.legacy (Served.request "REQMOD" "icap://h/a.b") = true ∧
  match registerHandlers Engine.Compile (Some [Served.legacy]) (NewRouterWithCache 0 0) with
  | Ok rtr => route (MatchString Engine.find) (routes rtr) (patterns rtr) "/a.b" = None
  | Err _ => False
  end.
Proof. split; vm_compute; reflexivity. Qed.

Lemma registered_tables_witness :
  ∃ rtr, Served.registration = Ok rtr ∧ routes rtr !! "/plain" = Some {[ MethodREQMOD; MethodOPTIONS ]} ∧
         routes rtr !! "/reqmod" = Some {[ MethodREQMOD ]} ∧ routes rtr !! "/scan/{id}" = None.
Proof.
  destruct (is_ok_inv Served.registration) as [rtr E]; [vm_compute; reflexivity|]. exists rtr.
  destruct (registered_tables Engine.Compile [Served.scenario] 0 0 rtr E) as [Hr _].
  split; [exact E|]. split; [rewrite Hr; vm_compute; reflexivity|]. split; rewrite Hr; vm_compute; reflexivity.
Defined.

Lemma declared_endpoints_served_witness :
  ∃ rtr hs rtr1 allowed rtr2, Served.registration = Ok rtr ∧
    run_router (MatchString Engine.find) [RServe 5 "REQMOD" "icap://h/plain"; RCacheClear] rtr = Some (hs, rtr1) ∧
    Serve (MatchString Engine.find) 7 "REQMOD" Served.uri rtr1 = Some (Some allowed, rtr2) ∧
    dispatch allowed "REQMOD" = ToReqmod.
Proof.
  destruct (is_ok_inv Served.registration) as [rtr E]; [vm_compute; reflexivity|]. exists rtr.
  destruct (declared_endpoints_served Engine.find Engine.names Engine.Compile (λ _, None) Some (λ _, true) [Served.scenario] 0 0 rtr
    Served.declaration Served.scenario [RServe 5 "REQMOD" "icap://h/plain"; RCacheClear] 7 (Served.request "REQMOD" Served.uri))
    as (hs & rtr1 & allowed & rtr2 & H1 & H2 & H3).
  - exact E.
  - left.
  - exact Served.compiled_ok.
  - vm_compute. reflexivity.
  - intros _. vm_compute. discriminate.
  - intros m. vm_compute. intros [? ?]. discriminate.
  - apply (bool_decide_unpack _). vm_compute. exact I.
  - reflexivity.
  - reflexivity.
  - reflexivity.
  - apply Forall_cons. split; [left|]. apply Forall_singleton. exact I.
  - left.
  - exists hs, rtr1, allowed, rtr2. split; [exact E|]. split; [exact H1|]. split; [exact H2|exact H3].
Defined.
