(* ===== verification/StreamPayload.v ===== *)
(** * Stream payloads: [pkg/icap/stream_payload.go]

    What a streamed body is read from: payloads that open readers, limited to a
    number of bytes, put after one another. [StreamPayload] and [io.ReadCloser]
    are interfaces of the code and classes here; every kind of payload is an
    instance over the payloads it wraps. A call returns the payload or reader as
    it leaves it, since opening and reading change them. Of joined errors the
    first one is kept. *)
From S2P Require Import Prelude GoInt GoStrings Header Chunked Message Scenario.

Local Open Scope Z_scope.

(** ** The interfaces *)

Class Closer (R : Type) := r_close : R → option ReadError * R.

Class Payload (P R : Type) := {
  p_open : P → result ReadError R * P;
  p_size : P → option Z;
  p_replayable : P → bool
}.

Definition join_errors (a b : option ReadError) : option ReadError :=
  match a with Some e => Some e | None => b end.

Definition normalizeSizeHint (sizeHint : Z) : Z := if sizeHint <? 0 then UnknownStreamPayloadSize else sizeHint.
Definition streamPayloadSizeHint (sizeHint : Z) : option Z := if 0 <=? sizeHint then Some sizeHint else None.

(** ** Readers of bytes in memory *)

Record BytesReader := { br_rest : list ascii }.

#[export] Instance BytesReader_Reader : Reader BytesReader := λ len r,
  match br_rest r with
  | [] => ([], Some EOF, r)
  | bs => (take len bs, None, {| br_rest := drop len bs |})
  end.

#[export] Instance BytesReader_Closer : Closer BytesReader := λ r, (None, r).

(** ** Replayable and one-shot payloads *)

Section Kinds.
Context {R : Type} `{Reader R, Closer R}.

(** The factory makes the same reader each time. *)
Record Replayable := { rp_factory : option (result ReadError R); rp_sizeHint : Z }.

Definition NewReplayableStreamPayload (factory : option (result ReadError R)) (sizeHint : Z) : Replayable :=
  {| rp_factory := factory; rp_sizeHint := normalizeSizeHint sizeHint |}.

#[export] Instance Replayable_Payload : Payload Replayable R := {|
  p_open := λ p, (match rp_factory p with None => Err PayloadFactoryNil | Some r => r end, p);
  p_size := λ p, streamPayloadSizeHint (rp_sizeHint p);
  p_replayable := λ _, true
|}.

Record OneShot := { os_reader : R; os_sizeHint : Z; os_opened : bool }.

Definition NewOneShotStreamPayload (reader : R) (sizeHint : Z) : OneShot :=
  {| os_reader := reader; os_sizeHint := normalizeSizeHint sizeHint; os_opened := false |}.

#[export] Instance OneShot_Payload : Payload OneShot R := {|
  p_open := λ p, (if os_opened p then Err PayloadConsumed else Ok (os_reader p),
                  {| os_reader := os_reader p; os_sizeHint := os_sizeHint p; os_opened := true |});
  p_size := λ p, streamPayloadSizeHint (os_sizeHint p);
  p_replayable := λ _, false
|}.

(** ** Limits *)

Record MaxBytes := { mb_reader : R; mb_remaining : Z }.

Definition probeOverflow (r : MaxBytes) : list ascii * option ReadError * MaxBytes :=
  let '(p, e, rd) := reader_read 1 (mb_reader r) in
  let r := {| mb_reader := rd; mb_remaining := mb_remaining r |} in
  if (0 <? length p)%nat then ([], Some StreamBodyTooLarge, r) else ([], e, r).

#[export] Instance MaxBytes_Reader : Reader MaxBytes := λ len r,
  if mb_remaining r =? 0 then probeOverflow r
  else
    let len := if mb_remaining r <? Z.of_nat len then Z.to_nat (mb_remaining r) else len in
    let '(p, e, rd) := reader_read len (mb_reader r) in
    (p, e, {| mb_reader := rd; mb_remaining := sub64 (mb_remaining r) (Z.of_nat (length p)) |}).

#[export] Instance MaxBytes_Closer : Closer MaxBytes := λ r,
  let '(e, rd) := r_close (mb_reader r) in (e, {| mb_reader := rd; mb_remaining := mb_remaining r |}).
End Kinds.
Arguments Replayable : clear implicits.
Arguments OneShot : clear implicits.
Arguments MaxBytes : clear implicits.

Definition NewBorrowedBytesStreamPayload (body : list ascii) : Replayable BytesReader :=
  NewReplayableStreamPayload (Some (Ok {| br_rest := body |})) (Z.of_nat (length body)).

(** The copy of the bytes is the bytes. *)
Definition NewBytesStreamPayload (body : list ascii) : Replayable BytesReader := NewBorrowedBytesStreamPayload body.

(** [limitedReadCloser]: the reader itself when there is no limit. *)
Inductive MaybeLimited (R : Type) :=
| Unlimited (r : R)
| Limited (r : MaxBytes R).
Arguments Unlimited {R} r.
Arguments Limited {R} r.

#[export] Instance MaybeLimited_Reader {R} `{Reader R} : Reader (MaybeLimited R) := λ len r,
  match r with
  | Unlimited r => let '(p, e, r) := reader_read len r in (p, e, Unlimited r)
  | Limited r => let '(p, e, r) := reader_read len r in (p, e, Limited r)
  end.

#[export] Instance MaybeLimited_Closer {R} `{Closer R} : Closer (MaybeLimited R) := λ r,
  match r with
  | Unlimited r => let '(e, r) := r_close r in (e, Unlimited r)
  | Limited r => let '(e, r) := r_close r in (e, Limited r)
  end.

Definition limitedReadCloser {R} (reader : R) (maxBytes : Z) : MaybeLimited R :=
  if maxBytes <=? 0 then Unlimited reader else Limited {| mb_reader := reader; mb_remaining := maxBytes |}.

Section Wrapped.
Context {P R : Type} `{Payload P R}.

(** A limited payload, or with [maxBytes <= 0] the payload as it is. *)
Record LimitedPayload := { lp_payload : P; lp_maxBytes : Z }.

Definition NewLimitedStreamPayload (payload : P) (maxBytes : Z) : result ReadError LimitedPayload :=
  let limited := {| lp_payload := payload; lp_maxBytes := maxBytes |} in
  if maxBytes <=? 0 then Ok limited
  else
    match p_size payload with
    | Some size => if maxBytes <? size then Err StreamBodyTooLarge else Ok limited
    | None => Ok limited
    end.

#[export] Instance LimitedPayload_Payload : Payload LimitedPayload (MaybeLimited R) := {|
  p_open := λ p,
    let '(r, q) := p_open (lp_payload p) in
    (match r with Ok rd => Ok (limitedReadCloser rd (lp_maxBytes p)) | Err e => Err e end,
     {| lp_payload := q; lp_maxBytes := lp_maxBytes p |});
  p_size := λ p, p_size (lp_payload p);
  p_replayable := λ p, p_replayable (lp_payload p)
|}.

(** ** Sequences *)

Fixpoint sequencePayloadMetadata (payloads : list (option P)) (total : Z) (knownTotal replayable : bool) : Z * bool :=
  match payloads with
  | [] => (if knownTotal then total else UnknownStreamPayloadSize, replayable)
  | None :: payloads => sequencePayloadMetadata payloads total false false
  | Some p :: payloads =>
      let replayable := replayable && p_replayable p in
      match p_size p with
      | None => sequencePayloadMetadata payloads total false replayable
      | Some size => sequencePayloadMetadata payloads (add64 total size) knownTotal replayable
      end
  end.

Record SequencePayload := {
  sp_payloads : list (option P);
  sp_sizeHint : Z;
  sp_replayable : bool;
  sp_opened : bool
}.

Definition NewSequenceStreamPayload (payloads : list (option P)) : SequencePayload :=
  let '(sizeHint, replayable) := sequencePayloadMetadata payloads 0 true true in
  {| sp_payloads := payloads; sp_sizeHint := sizeHint; sp_replayable := replayable; sp_opened := false |}.

(** [sq_index] is [None] once the reader is closed; the payloads before it are
    done. *)
Record SequenceReader := {
  sq_current : option R;
  sq_payloads : list (option P);
  sq_index : option nat;
  sq_closeErr : option ReadError
}.

#[export] Instance SequencePayload_Payload : Payload SequencePayload SequenceReader := {|
  p_open := λ p,
    if negb (sp_replayable p) && sp_opened p then (Err PayloadConsumed, p)
    else
      (Ok {| sq_current := None; sq_payloads := sp_payloads p; sq_index := Some O; sq_closeErr := None |},
       {| sp_payloads := sp_payloads p; sp_sizeHint := sp_sizeHint p; sp_replayable := sp_replayable p;
          sp_opened := sp_opened p || negb (sp_replayable p) |});
  p_size := λ p, streamPayloadSizeHint (sp_sizeHint p);
  p_replayable := λ p, sp_replayable p
|}.

Context `{Reader R, Closer R}.

(** The reader with its current one, or the error of opening it. *)
Definition ensureCurrent (i : nat) (r : SequenceReader) : option ReadError * SequenceReader :=
  match sq_current r, sq_payloads r !! i with
  | Some _, _ | _, None => (None, r)
  | None, Some None => (Some PayloadNil, r)
  | None, Some (Some p) =>
      let '(res, p) := p_open p in
      let r := {| sq_current := sq_current r; sq_payloads := <[i := Some p]> (sq_payloads r);
                  sq_index := sq_index r; sq_closeErr := sq_closeErr r |} in
      match res with
      | Err e => (Some e, r)
      | Ok rd => (None, {| sq_current := Some rd; sq_payloads := sq_payloads r; sq_index := sq_index r;
                           sq_closeErr := sq_closeErr r |})
      end
  end.

(** Closes the current reader and goes on to the next payload. *)
Definition advance (cur : R) (i : nat) (r : SequenceReader) : option ReadError * SequenceReader :=
  let '(e, _) := r_close cur in
  (e, {| sq_current := None; sq_payloads := sq_payloads r; sq_index := Some (S i); sq_closeErr := sq_closeErr r |}).

Definition with_current (cur : R) (r : SequenceReader) : SequenceReader :=
  {| sq_current := Some cur; sq_payloads := sq_payloads r; sq_index := sq_index r; sq_closeErr := sq_closeErr r |}.

Definition with_closeErr (e : option ReadError) (r : SequenceReader) : SequenceReader :=
  {| sq_current := sq_current r; sq_payloads := sq_payloads r; sq_index := sq_index r; sq_closeErr := e |}.

Definition is_EOF (e : option ReadError) : bool := bool_decide (e = Some EOF).

(** One round reads from payload [i]; the loop moves on at the end of each, so
    one more round than there are payloads left is enough. *)
Fixpoint readNext (fuel : nat) (len : nat) (i : nat) (r : SequenceReader) : list ascii * option ReadError * SequenceReader :=
  match fuel with
  | O => ([], Some NoProgress, r)
  | S fuel =>
      match ensureCurrent i r with
      | (Some e, r) => ([], Some e, r)
      | (None, r) =>
          match sq_current r with
          | None => ([], Some EOF, r)
          | Some cur =>
              let '(p, e, cur) := reader_read len cur in
              let r := with_current cur r in
              if (0 <? length p)%nat then
                if is_EOF e then
                  let '(ce, r) := advance cur i r in (p, None, with_closeErr (join_errors (sq_closeErr r) ce) r)
                else (p, None, r)
              else if negb (is_EOF e) then ([], e, r)
              else
                match advance cur i r with
                | (Some ce, r) => ([], Some ce, r)
                | (None, r) => readNext fuel len (S i) r
                end
          end
      end
  end.

#[export] Instance SequenceReader_Reader : Reader SequenceReader := λ len r,
  match sq_index r with
  | None => ([], Some ClosedPipe, r)
  | Some i =>
      match sq_closeErr r with
      | Some e => ([], Some e, r)
      | None => if (len =? 0)%nat then ([], None, r) else readNext (S (length (sq_payloads r) - i)) len i r
      end
  end.

#[export] Instance SequenceReader_Closer : Closer SequenceReader := λ r,
  let closed e := {| sq_current := None; sq_payloads := sq_payloads r; sq_index := None; sq_closeErr := sq_closeErr r |} in
  match sq_current r with
  | None => (sq_closeErr r, closed tt)
  | Some cur => let '(e, _) := r_close cur in (join_errors (sq_closeErr r) e, closed tt)
  end.
End Wrapped.
Arguments LimitedPayload : clear implicits.
Arguments SequencePayload : clear implicits.
Arguments SequenceReader : clear implicits.

(** ** Payloads of message bodies *)

Section FromMessage.
Context {R : Type} `{Reader R}.

Definition cachedBodyForStream (m : BodyState R) : option (list ascii) :=
  if bodyLoaded m || (0 <? length (bytes_or_nil (Body m)))%nat then Some (bytes_or_nil (Body m)) else None.

Definition sizeHintExceedsLimit (sizeHint maxBytes : Z) : bool :=
  (0 <? maxBytes) && (0 <=? sizeHint) && (maxBytes <? sizeHint).

Definition claimBodyReaderForStream (maxBytes sizeHint : Z) (m : BodyState R)
  : result ReadError (option (Prefixed R)) * BodyState R :=
  if bool_decide (is_Some (BodyReader m)) && sizeHintExceedsLimit sizeHint maxBytes then (Err StreamBodyTooLarge, m)
  else (Ok (BodyReader m), body_state None (Body m) (bodyLoaded m) (bodyErr m) (bodyOnce m)).

Definition bytesPayloadWithinLimit (body : list ascii) (maxBytes : Z) : result ReadError (Replayable BytesReader) :=
  if (0 <? maxBytes) && (maxBytes <? Z.of_nat (length body)) then Err StreamBodyTooLarge
  else Ok (NewBytesStreamPayload body).

(** [NewHTTPMessageBodyStreamPayload] of a message that is not nil; [sizeHint] is
    its Content-Length hint. *)
Definition NewHTTPMessageBodyStreamPayload (m : BodyState R) (maxBytes sizeHint : Z)
  : result ReadError (Replayable BytesReader + OneShot (MaybeLimited (Prefixed R))) * BodyState R :=
  match cachedBodyForStream m with
  | Some body =>
      (match bytesPayloadWithinLimit body maxBytes with Ok p => Ok (inl p) | Err e => Err e end, m)
  | None =>
      match claimBodyReaderForStream maxBytes sizeHint m with
      | (Err e, m) => (Err e, m)
      | (Ok None, m) => (Ok (inl (NewBytesStreamPayload [])), m)
      | (Ok (Some reader), m) =>
          (Ok (inr (NewOneShotStreamPayload (limitedReadCloser reader maxBytes) sizeHint)), m)
      end
  end.
End FromMessage.

(** ** What the readers deliver *)

#[export] Program Instance BytesReader_Laws : ReaderLaws BytesReader :=
  {| delivers := λ r bs e, br_rest r = bs ∧ e = EOF |}.
Next Obligation.
  intros [bs] bs' e len [Hb ->] Hlen. cbn in Hb. subst bs'. unfold reader_read, BytesReader_Reader. cbn [br_rest].
  destruct bs as [|b bs]; [split_and!; (done || (simpl; lia))|]. destruct len as [|len]; [lia|].
  split; [done|]. split; [rewrite length_take; lia|]. exists (drop (S len) (b :: bs)). by rewrite take_drop.
Qed.

(** Closing a reader that works does not fail. *)
Class CleanCloser (R : Type) `{ReaderLaws R, Closer R} :=
  close_clean : ∀ (r : R) bs e, delivers r bs e → (r_close r).1 = None.

#[export] Instance BytesReader_Clean : CleanCloser BytesReader.
Proof. done. Qed.

Section Limits.
Context {R : Type} `{HL : ReaderLaws R, HC : !Closer R, HCC : !CleanCloser R}.

(** Within the limit the limit does not show. *)
Definition within_limit (r : MaxBytes R) (bs : list ascii) (e : ReadError) : Prop :=
  delivers (mb_reader r) bs e ∧ Z.of_nat (length bs) ≤ mb_remaining r ≤ max_int64.

#[export] Program Instance MaxBytes_Laws : ReaderLaws (MaxBytes R) := {| delivers := within_limit |}.
Next Obligation.
  intros [rd n] bs e len [Hd Hn] Hlen. unfold reader_read, MaxBytes_Reader. cbn [mb_reader mb_remaining] in *.
  destruct (Z.eqb_spec n 0) as [->|Hn0].
  - destruct bs; [|simpl in Hn; lia]. unfold probeOverflow. cbn [mb_reader mb_remaining].
    pose proof (reader_step rd [] e 1 Hd ltac:(lia)) as Hstep. destruct (reader_read 1 rd) as [[p [e'|]] rd'].
    + destruct Hstep as (-> & _ & -> & Hd'). cbn. split_and!; (done || lia).
    + destruct Hstep as (Hp & _ & bs' & E & _). by destruct p.
  - cbv zeta. set (len' := if n <? Z.of_nat len then Z.to_nat n else len).
    assert (Hlen' : (0 < len' ≤ len)%nat ∧ Z.of_nat len' ≤ n) by (unfold len'; destruct (Z.ltb_spec n (Z.of_nat len)); lia).
    pose proof (reader_step rd bs e len' Hd ltac:(lia)) as Hstep.
    destruct (reader_read len' rd) as [[p [e'|]] rd']; unfold within_limit; cbn [mb_reader mb_remaining].
    + destruct Hstep as (-> & Hl & -> & Hd'). unfold sub64. rewrite wrap64_id by (unfold in_int64, min_int64; lia).
      split_and!; [done|lia|done|done|simpl; lia|lia].
    + destruct Hstep as (Hp & Hl & bs' & -> & Hd'). rewrite length_app in Hn. unfold sub64.
      rewrite wrap64_id by (unfold in_int64, min_int64; lia). split_and!; [done|lia|].
      exists bs'. split_and!; [done|done|lia|lia].
Qed.

#[export] Program Instance MaybeLimited_Laws : ReaderLaws (MaybeLimited R) :=
  {| delivers := λ r bs e, match r with Unlimited r => delivers r bs e | Limited r => within_limit r bs e end |}.
Next Obligation.
  intros [r|r] bs e len Hd Hlen; unfold reader_read at 1; cbn.
  - pose proof (reader_step r bs e len Hd Hlen) as Hstep. by destruct (reader_read len r) as [[p [e'|]] r'].
  - pose proof (reader_step (ReaderLaws := MaxBytes_Laws) r bs e len Hd Hlen) as Hstep.
    by destruct (reader_read len r) as [[p [e'|]] r'].
Qed.

#[export] Instance MaxBytes_Clean : CleanCloser (MaxBytes R).
Proof using HCC.
  intros r bs e [Hd _]. unfold r_close, MaxBytes_Closer. pose proof (close_clean (mb_reader r) bs e Hd). by destruct (r_close (mb_reader r)).
Qed.

#[export] Instance MaybeLimited_Clean : CleanCloser (MaybeLimited R).
Proof using HCC.
  intros [r|r] bs e Hd; unfold r_close at 1; cbn; pose proof (close_clean r bs e Hd) as Hr; by destruct (r_close r).
Qed.

Lemma MaxBytes_read len (r : MaxBytes R) :
  reader_read len r =
  if mb_remaining r =? 0 then probeOverflow r
  else
    let len := if mb_remaining r <? Z.of_nat len then Z.to_nat (mb_remaining r) else len in
    let '(p, e, rd) := reader_read len (mb_reader r) in
    (p, e, {| mb_reader := rd; mb_remaining := sub64 (mb_remaining r) (Z.of_nat (length p)) |}).
Proof using. reflexivity. Qed.

(** Beyond it the reader stops at the limit with the error. *)
Lemma readAll_over fuel sizes i n rd bs e acc :
  (∀ i, (0 < sizes i)%nat) → delivers rd bs e → 0 ≤ n < Z.of_nat (length bs) → n ≤ max_int64 → (Z.to_nat n < fuel)%nat →
  ∃ r', readAllLoop fuel sizes i None {| mb_reader := rd; mb_remaining := n |} acc =
        Some (acc ++ take (Z.to_nat n) bs, Some StreamBodyTooLarge, r').
Proof using.
  intros Hs. revert i n rd bs acc. induction fuel as [|fuel IH]; intros i n rd bs acc Hd Hn Hmax Hf; [lia|].
  cbn [readAllLoop limited_read]. rewrite MaxBytes_read. cbn [mb_reader mb_remaining].
  destruct (Z.eqb_spec n 0) as [->|Hn0].
  - unfold probeOverflow. cbn [mb_reader mb_remaining]. pose proof (reader_step rd bs e 1 Hd ltac:(lia)) as Hstep.
    assert (Hp : (0 < length (reader_read 1 rd).1.1)%nat).
    { destruct (reader_read 1 rd) as [[p [e'|]] rd']; cbn [fst].
      - destruct Hstep as (-> & _). lia.
      - destruct Hstep as (Hp & _). destruct p; [done|simpl; lia]. }
    destruct (reader_read 1 rd) as [[p e'] rd']. cbn [fst] in Hp. rewrite (proj2 (Nat.ltb_lt _ _) Hp). by eexists.
  - cbv zeta. set (len' := if n <? Z.of_nat (sizes i) then Z.to_nat n else sizes i).
    assert (Hlen' : (0 < len')%nat ∧ Z.of_nat len' ≤ n).
    { unfold len'. specialize (Hs i). destruct (Z.ltb_spec n (Z.of_nat (sizes i))); lia. }
    pose proof (reader_step rd bs e len' Hd ltac:(lia)) as Hstep.
    destruct (reader_read len' rd) as [[p [e'|]] rd'].
    + destruct Hstep as (-> & Hl & _). lia.
    + destruct Hstep as (Hp & Hl & bs' & -> & Hd'). rewrite length_app in Hn.
      assert (0 < length p)%nat by (destruct p; [done|simpl; lia]).
      unfold sub64. rewrite wrap64_id by (unfold in_int64, min_int64; lia).
      destruct (IH (S i) (n - Z.of_nat (length p)) rd' bs' (acc ++ p) Hd') as (r' & ->); [lia|lia|lia|].
      exists r'. do 3 f_equal. rewrite <- app_assoc. f_equal.
      replace (Z.to_nat (n - Z.of_nat (length p))) with (Z.to_nat n - length p)%nat by lia.
      by rewrite take_app, (take_ge p) by lia.
Qed.

(** Reading a limited reader to its end. *)
Lemma readAll_limited fuel sizes rd bs maxBytes :
  (∀ i, (0 < sizes i)%nat) → delivers rd bs EOF → maxBytes ≤ max_int64 → (length bs < fuel)%nat →
  ∃ r', readAllLoop fuel sizes 0 None (limitedReadCloser rd maxBytes) [] =
    (if (0 <? maxBytes) && (maxBytes <? Z.of_nat (length bs))
     then Some (take (Z.to_nat maxBytes) bs, Some StreamBodyTooLarge, r')
     else Some (bs, None, r')).
Proof using.
  intros Hs Hd Hmax Hf. unfold limitedReadCloser. destruct (Z.leb_spec maxBytes 0).
  { rewrite (proj2 (Z.ltb_ge _ _)) by lia. cbn [andb].
    assert (Hd' : delivers (Unlimited rd) bs EOF) by exact Hd.
    destruct (readAllLoop_unlimited fuel sizes 0 (Unlimited rd) bs EOF [] Hs Hd' Hf) as (r' & E & _). by exists r'. }
  rewrite (proj2 (Z.ltb_lt _ _)) by lia. cbn [andb]. destruct (Z.ltb_spec maxBytes (Z.of_nat (length bs))).
  - assert (Hwrap : ∀ fuel i r acc d e r', readAllLoop fuel sizes i None r acc = Some (d, e, r') →
      readAllLoop fuel sizes i None (Limited (R := R) r) acc = Some (d, e, Limited r')).
    { clear. induction fuel as [|fuel IH]; intros i r acc d e r'; [done|]. cbn [readAllLoop limited_read].
      unfold reader_read at 2. cbn. destruct (reader_read (sizes i) r) as [[p [e'|]] r2]; [by intros [= <- <- <-]|apply IH]. }
    destruct (readAll_over fuel sizes 0 maxBytes rd bs EOF [] Hs Hd) as (r' & E); [lia|lia|lia|].
    exists (Limited r'). by apply Hwrap.
  - assert (Hd' : delivers (Limited {| mb_reader := rd; mb_remaining := maxBytes |}) bs EOF) by (split; [done|cbn; lia]).
    destruct (readAllLoop_unlimited fuel sizes 0 _ bs EOF [] Hs Hd' Hf) as (r' & E & _). by exists r'.
Qed.
End Limits.

(** ** Sequences deliver one payload after the other *)

Section Sequences.
Context {P R : Type} `{HP : Payload P R, HL : ReaderLaws R, HC : !Closer R, HCC : !CleanCloser R}.

Notation SequenceReader := (SequenceReader P R).

(** Opened, the payload delivers the bytes. *)
Definition opens (p : P) (bs : list ascii) : Prop :=
  ∃ rd q, p_open (R := R) p = (Ok rd, q) ∧ delivers rd bs EOF.

Definition part (p : option P) (bs : list ascii) : Prop := ∃ q, p = Some q ∧ opens q bs.

(** The reader is at payload [i] and delivers what is left of it and the rest. *)
Definition sequence_at (r : SequenceReader) (i : nat) (bs : list ascii) : Prop :=
  sq_index r = Some i ∧ sq_closeErr r = None ∧ (i ≤ length (sq_payloads r))%nat ∧
  ∃ cur rest bss, bs = cur ++ concat bss ∧ Forall2 part rest bss ∧
    match sq_current r with
    | Some rd => delivers rd cur EOF ∧ ∃ p, drop i (sq_payloads r) = p :: rest
    | None => cur = [] ∧ rest = drop i (sq_payloads r)
    end.

Definition sequence_delivers (r : SequenceReader) (bs : list ascii) (e : ReadError) : Prop :=
  e = EOF ∧ ∃ i, sequence_at r i bs.

Lemma drop_S_of {A} (l : list A) i p rest : drop i l = p :: rest → drop (S i) l = rest ∧ (i < length l)%nat.
Proof using.
  intros E. split; [by rewrite <- Nat.add_1_r, <- drop_drop, E|].
  destruct (decide (i < length l)%nat); [done|]. by rewrite drop_ge in E by lia.
Qed.

Lemma ensureCurrent_spec i (r : SequenceReader) bs :
  sequence_at r i bs →
  ∃ r', ensureCurrent i r = (None, r') ∧ sequence_at r' i bs ∧
        (sq_current r' = None → bs = [] ∧ i = length (sq_payloads r')) ∧ length (sq_payloads r') = length (sq_payloads r).
Proof using.
  intros (Hi & He & Hl & cur & rest & bss & -> & Hrest & Hcur). unfold ensureCurrent.
  destruct (sq_current r) as [rd|] eqn:Ec.
  { exists r. split; [done|]. split; [|by rewrite Ec]. split_and!; [done..|]. exists cur, rest, bss. by rewrite Ec. }
  destruct Hcur as [-> ->]. destruct (sq_payloads r !! i) as [p|] eqn:Ep.
  - pose proof (drop_S (sq_payloads r) p i Ep) as Ed. rewrite Ed in Hrest.
    apply Forall2_cons_inv_l in Hrest as (bs1 & bss' & (q & -> & rd & q' & Eo & Hd) & Hrest & ->). rewrite Eo.
    eexists. split; [done|]. split; [|split; [done|]]; cbn [sq_payloads]; [|by rewrite length_insert].
    split_and!; [done|done|cbn [sq_payloads]; by rewrite length_insert|].
    exists bs1, (drop (S i) (sq_payloads r)), bss'. cbn [sq_current sq_payloads]. split_and!; [done|done|done|].
    exists (Some q'). rewrite drop_insert_ge by done. rewrite Nat.sub_diag, Ed. done.
  - apply lookup_ge_None in Ep. exists r. rewrite drop_ge in Hrest by lia. apply Forall2_nil_inv_l in Hrest as ->.
    split; [done|]. split; [|split; [split; [done|lia]|done]]. split_and!; [done..|].
    exists [], [], []. rewrite Ec. split_and!; [done..|]. by rewrite drop_ge by lia.
Qed.

Lemma advance_spec cur cb i (r : SequenceReader) p rest bss :
  delivers cur cb EOF → sq_closeErr r = None → drop i (sq_payloads r) = p :: rest → Forall2 part rest bss →
  ∃ r', advance cur i r = (None, r') ∧ sequence_at r' (S i) (concat bss) ∧ sq_closeErr r' = None ∧
        length (sq_payloads r') = length (sq_payloads r).
Proof using HCC.
  intros Hcur He Hd Hrest. destruct (drop_S_of _ _ _ _ Hd) as [Hd' Hi]. unfold advance. pose proof (close_clean cur _ _ Hcur) as Hc.
  destruct (r_close cur) as [e cur']. cbn in Hc. subst e. eexists. split; [done|]. split; [|done].
  split_and!; [done|done|cbn; lia|]. exists [], rest, bss. cbn [sq_current sq_payloads]. by split_and!.
Qed.

Lemma readNext_spec fuel len i (r : SequenceReader) bs :
  (0 < len)%nat → sequence_at r i bs → (length (sq_payloads r) - i < fuel)%nat →
  match readNext fuel len i r with
  | (p, None, r') => p ≠ [] ∧ (length p ≤ len)%nat ∧ ∃ bs', bs = p ++ bs' ∧ sequence_delivers r' bs' EOF
  | (p, Some e, r') => p = bs ∧ (length p ≤ len)%nat ∧ e = EOF ∧ sequence_delivers r' [] EOF
  end.
Proof using HCC HL.
  intros Hlen. revert i r bs. induction fuel as [|fuel IH]; intros i r bs Hat Hf; [lia|]. cbn [readNext].
  destruct (ensureCurrent_spec _ _ _ Hat) as (r1 & -> & Hat1 & Hend & Hl). clear Hat.
  destruct (sq_current r1) as [cur|] eqn:Ec.
  2:{ destruct (Hend eq_refl) as [-> Hi]. split_and!; [done|simpl; lia|done|]. split; [done|]. by exists i. }
  clear Hend. pose proof Hat1 as (Hi & He & Hil & cb & rest & bss & -> & Hrest & Hcur). rewrite Ec in Hcur.
  destruct Hcur as (Hd & p0 & Hdrop). pose proof (reader_step cur cb EOF len Hd Hlen) as Hstep.
  destruct (reader_read len cur) as [[p [e|]] cur'].
  - destruct Hstep as (-> & Hpl & -> & Hd'). unfold is_EOF. rewrite bool_decide_true by done. cbn [negb].
    destruct (advance_spec cur' [] i (with_current cur' r1) p0 rest bss Hd' He Hdrop Hrest) as (r2 & -> & Hat2 & He2 & Hl2).
    destruct cb as [|c cb].
    + cbn [length Nat.ltb Nat.leb app]. apply IH; [done|]. cbn in Hl2. rewrite Hl2.
      apply drop_S_of in Hdrop as [_ Hi']. lia.
    + cbn [length Nat.ltb Nat.leb]. split_and!; [done|done|]. exists (concat bss). split; [done|].
      split; [done|]. exists (S i). destruct Hat2 as (H1 & H2 & H3 & H4). split_and!; [done|cbn; by rewrite H2|done|done].
  - destruct Hstep as (Hp & Hpl & cb' & -> & Hd').
    rewrite (proj2 (Nat.ltb_lt _ _)) by (destruct p; [done|simpl; lia]). unfold is_EOF. rewrite bool_decide_false by done.
    split_and!; [done|done|]. exists (cb' ++ concat bss). rewrite app_assoc. split; [done|]. split; [done|]. exists i.
    split_and!; [done..|]. exists cb', rest, bss. cbn [with_current sq_current sq_payloads]. split_and!; [done..|]. by exists p0.
Qed.

#[export] Program Instance SequenceReader_Laws : ReaderLaws SequenceReader := {| delivers := sequence_delivers |}.
Next Obligation.
  intros r bs e len [-> (i & Hat)] Hlen. pose proof Hat as (Hi & He & _). unfold reader_read, SequenceReader_Reader.
  rewrite Hi, He, (proj2 (Nat.eqb_neq len 0)) by lia. apply readNext_spec; [done|done|lia].
Qed.

#[export] Instance SequenceReader_Clean : CleanCloser SequenceReader.
Proof using HCC.
  intros r bs e [-> (i & _ & He & _ & cur & rest & bss & _ & _ & Hcur)]. unfold r_close, SequenceReader_Closer. rewrite He.
  destruct (sq_current r) as [rd|]; [|done]. destruct Hcur as [Hd _]. pose proof (close_clean rd cur EOF Hd) as Hc.
  by destruct (r_close rd) as [[ce|] rd'].
Qed.

(** What the parts say of themselves. *)
Lemma sequence_metadata (ps : list P) (bss : list (list ascii)) total known repl :
  Forall2 (λ p bs, p_size (R := R) p = None ∨ p_size (R := R) p = Some (Z.of_nat (length bs))) ps bss →
  0 ≤ total → total + Z.of_nat (length (concat bss)) ≤ max_int64 →
  sequencePayloadMetadata (R := R) (Some <$> ps) total known repl =
  (if known && forallb (λ p, bool_decide (is_Some (p_size (R := R) p))) ps
   then total + Z.of_nat (length (concat bss)) else UnknownStreamPayloadSize,
   repl && forallb (p_replayable (R := R)) ps).
Proof using.
  intros Hf. revert total known repl. induction Hf as [|p bs ps bss Hp _ IH]; intros total known repl H0 Hmax; simpl.
  { rewrite !andb_true_r. destruct known; f_equal; lia. }
  simpl in Hmax. rewrite length_app in *. destruct Hp as [-> | ->].
  - rewrite IH by lia. rewrite (bool_decide_false (is_Some None)) by (by intros []). cbn [andb].
    by rewrite andb_false_r, andb_assoc.
  - unfold add64. rewrite wrap64_id by (unfold in_int64, min_int64; lia). rewrite IH by lia.
    rewrite (bool_decide_true (is_Some (Some _))) by done. cbn [andb]. rewrite andb_assoc.
    destruct (known && _); f_equal; lia.
Qed.

(** A part whose size, if it tells one, is right. *)
Definition honest (p : P) (bs : list ascii) : Prop :=
  opens p bs ∧ (p_size (R := R) p = None ∨ p_size (R := R) p = Some (Z.of_nat (length bs))).

Definition exceeds (limit : Z) (bs : list ascii) : bool := (0 <? limit) && (limit <? Z.of_nat (length bs)).

(** A limited sequence of payloads, as the server builds it from the parts of
    a stream, opens and reads as the bytes of its parts one after the other when
    they are within the limit; otherwise it is refused at once, when all parts
    know their sizes, or it delivers exactly the bytes up to the limit and then
    the too-large error. It can be opened again when every part can, and is
    refused as consumed when not. *)
Theorem sequence_payload_reads fuel sizes ps bss limit :
  (∀ i, (0 < sizes i)%nat) → Forall2 honest ps bss → limit ≤ max_int64 →
  Z.of_nat (length (concat bss)) ≤ max_int64 → (length (concat bss) < fuel)%nat →
  match NewLimitedStreamPayload (R := SequenceReader) (NewSequenceStreamPayload (R := R) (Some <$> ps)) limit with
  | Err e => e = StreamBodyTooLarge ∧ exceeds limit (concat bss) = true
  | Ok payload =>
      ∃ rd payload', p_open payload = (Ok rd, payload') ∧
        (∃ rd', readAllLoop fuel sizes 0 None rd [] =
           if exceeds limit (concat bss) then Some (take (Z.to_nat limit) (concat bss), Some StreamBodyTooLarge, rd')
           else Some (concat bss, None, rd')) ∧
        (p_open payload').1 = if forallb (p_replayable (R := R)) ps then Ok rd else Err PayloadConsumed
  end.
Proof using HCC HL.
  intros Hs Hh Hlim Hmax Hf. unfold NewSequenceStreamPayload. rewrite (sequence_metadata ps bss); [|..|lia|lia].
  2:{ eapply Forall2_impl; [exact Hh|]. by intros p bs [_ ?]. }
  cbn [andb]. set (hint := if forallb _ _ then _ else _). set (repl := forallb (p_replayable (R := R)) ps).
  set (sp := {| sp_payloads := _ |}).
  set (rd := {| sq_current := None; sq_payloads := Some <$> ps; sq_index := Some O; sq_closeErr := None |} : SequenceReader).
  assert (Hopen : ∃ lp', p_open {| lp_payload := sp; lp_maxBytes := limit |} = (Ok (limitedReadCloser rd limit), lp') ∧
    (p_open lp').1 = if repl then Ok (limitedReadCloser rd limit) else Err PayloadConsumed).
  { unfold p_open at 1, LimitedPayload_Payload, p_open at 1, SequencePayload_Payload. cbn [lp_payload sp sp_replayable sp_opened].
    rewrite andb_false_r. eexists. split; [done|]. cbn. by destruct repl. }
  destruct Hopen as (lp' & Hopen & Hagain).
  assert (Hd : delivers rd (concat bss) EOF).
  { split; [done|]. exists O. split_and!; [done|done|cbn; lia|]. exists [], (Some <$> ps), bss. cbn. split_and!; [done| |done|done].
    clear -Hh. induction Hh as [|p bs ps bss [Ho _] _ IH]; cbn; constructor; [by exists p|done]. }
  destruct (readAll_limited fuel sizes rd (concat bss) limit Hs Hd Hlim Hf) as (rd' & Hread).
  assert (Hfin : ∃ rd0 payload', p_open {| lp_payload := sp; lp_maxBytes := limit |} = (Ok rd0, payload') ∧
        (∃ rd', readAllLoop fuel sizes 0 None rd0 [] =
           if exceeds limit (concat bss) then Some (take (Z.to_nat limit) (concat bss), Some StreamBodyTooLarge, rd')
           else Some (concat bss, None, rd')) ∧ (p_open payload').1 = if repl then Ok rd0 else Err PayloadConsumed).
  { exists (limitedReadCloser rd limit), lp'. split; [done|]. split; [by exists rd'|done]. }
  unfold NewLimitedStreamPayload. destruct (Z.leb_spec limit 0); [exact Hfin|].
  unfold p_size at 1, SequencePayload_Payload. cbn [sp sp_sizeHint]. unfold streamPayloadSizeHint, hint, UnknownStreamPayloadSize.
  destruct (forallb _ _).
  - rewrite (proj2 (Z.leb_le _ _)) by lia. rewrite Z.add_0_l. destruct (Z.ltb_spec limit (Z.of_nat (length (concat bss)))).
    + split; [done|]. unfold exceeds. bool_to_prop. rewrite (proj2 (Z.ltb_lt _ _)) by lia. by rewrite (proj2 (Z.ltb_lt _ _)) by lia.
    + exact Hfin.
  - exact Hfin.
Qed.
End Sequences.

Definition live_part (s : string) : OneShot BytesReader := NewOneShotStreamPayload {| br_rest := bytes_of s |} (-1).

Lemma sequence_payload_reads_witness :
  match NewLimitedStreamPayload (R := SequenceReader (OneShot BytesReader) BytesReader)
          (NewSequenceStreamPayload (R := BytesReader) (Some <$> [live_part "ab"; live_part "cd"])) 3 with
  | Err e => False
  | Ok payload =>
      ∃ rd payload', p_open payload = (Ok rd, payload') ∧
        (∃ rd', readAllLoop 9 (λ _, 2%nat) 0 None rd [] = Some (bytes_of "abc", Some StreamBodyTooLarge, rd')) ∧
        (p_open (R := MaybeLimited (SequenceReader (OneShot BytesReader) BytesReader)) payload').1 = Err PayloadConsumed
  end.
Proof.
  assert (Hh : ∀ s, honest (live_part s) (bytes_of s)).
  { intros s. split; [|left; reflexivity]. eexists _, _. split; [reflexivity|]. split; reflexivity. }
  pose proof (sequence_payload_reads (P := OneShot BytesReader) (R := BytesReader) 9 (λ _, 2%nat)
    [live_part "ab"; live_part "cd"] [bytes_of "ab"; bytes_of "cd"] 3) as Hread.
  exact (Hread (λ _, Nat.lt_0_2) (List.Forall2_cons _ _ (Hh "ab") (List.Forall2_cons _ _ (Hh "cd") (List.Forall2_nil _)))
    ltac:(discriminate) ltac:(discriminate) ltac:(vm_compute; repeat constructor)).
Defined.
