(* ===== verification/StreamDelivery.v ===== *)
(** * Delivering a stream: [pkg/icap/streaming.go]

    The chunked body of a stream, written chunk by chunk on the plan's schedule.
    The clock, the context and the sleeper are asked many times during a
    delivery; each question takes one tick of the world and what it answers is
    given for every tick. Time is an integer of nanoseconds. *)
From S2P Require Import Prelude GoInt GoStrings Header Chunked Message StreamPlan Scenario StreamPayload.

Local Open Scope Z_scope.

Definition streamWriteBufferSize : Z := 64 * 1024.

Inductive DeliveryError :=
| InvalidPlan
| SourceNil
| OpenFailed (e : ReadError)
| SizeMismatch
| SourceReadFailed (e : ReadError)
| SourceNoProgress
| Cancelled
| WriteFailed (e : WriteError)
| ShortWrite
| FlushFailed
| CloseFailed (e : ReadError).

(** What is outside of the delivery: at each tick, the time, whether the context
    is done, whether a sleep lasts to its end, and whether a flush succeeds.
    [env_guarded] tells whether the writer is a response's [contextWriter], which
    asks the context again before every write and flush. *)
Record Environment := {
  env_now : nat → Z;
  env_cancelled : nat → bool;
  env_sleeps : nat → bool;
  env_flushes : nat → bool;
  env_guarded : bool
}.

Definition partialFinishMode (mode : string) : bool :=
  bool_decide (mode = StreamFinishFIN) || bool_decide (mode = StreamFinishTerm).

Section Delivery.
Context {R : Type} `{Reader R, Closer R}.
Context (env : Environment).

(** The source being read, the writer and what it has counted. *)
Record World := { w_tick : nat; w_reader : R; w_sink : Sink; w_n : Z }.

Definition D (A : Type) : Type := World → result DeliveryError A * World.

Definition dret {A} (a : A) : D A := λ w, (Ok a, w).
Definition derr {A} (e : DeliveryError) : D A := λ w, (Err e, w).
Definition dbind {A B} (m : D A) (k : A → D B) : D B := λ w,
  match m w with (Ok a, w) => k a w | (Err e, w) => (Err e, w) end.
Notation "'do!' x := m 'in' k" := (dbind m (λ x, k)) (at level 10, x pattern, m at level 100, k at level 200).

Definition tick (w : World) : World :=
  {| w_tick := S (w_tick w); w_reader := w_reader w; w_sink := w_sink w; w_n := w_n w |}.
Definition with_reader (r : R) (w : World) : World :=
  {| w_tick := w_tick w; w_reader := r; w_sink := w_sink w; w_n := w_n w |}.
Definition with_sink (s : Sink) (n : Z) (w : World) : World :=
  {| w_tick := w_tick w; w_reader := w_reader w; w_sink := s; w_n := n |}.

(** [ctx.Err()] as an error. *)
Definition ctxErr : D unit := λ w,
  (if env_cancelled env (w_tick w) then Err Cancelled else Ok tt, tick w).

Definition clockNow : D Z := λ w, (Ok (env_now env (w_tick w)), tick w).

(** The error is that of the sleeper or of the context. *)
Definition sleep (delay : Z) : D unit :=
  if delay <=? 0 then ctxErr
  else λ w, (if env_sleeps env (w_tick w) then Ok tt else Err Cancelled, tick w).

(** What a [contextWriter] does before it passes a call on. *)
Definition guard : D unit := if env_guarded env then ctxErr else dret tt.

Definition flushContext : D unit :=
  do! _ := ctxErr in do! _ := guard in λ w, (if env_flushes env (w_tick w) then Ok tt else Err FlushFailed, tick w).

(** ** Writing *)

(** [countingWriter.Write], over a [contextWriter] for a response. *)
Definition countedWrite (p : list ascii) : World → nat * option WriteError * World := λ w,
  match guard w with
  | (Err _, w) => (O, Some WriteCancelled, w)
  | (Ok _, w) =>
      let '(n, e, s) := sink_write p (w_sink w) in (n, e, with_sink s (w_n w + Z.of_nat n) w)
  end.

(** Each round takes a byte at least. *)
Fixpoint writeAllFrom (fuel : nat) (data : list ascii) : D unit := λ w,
  match data, fuel with
  | [], _ => (Ok tt, w)
  | _, O => (Err ShortWrite, w)
  | _, S fuel =>
      (do! _ := ctxErr in λ w,
       match countedWrite data w with
       | (_, Some e, w) => (Err (WriteFailed e), w)
       | (n, None, w) =>
           if (n =? 0)%nat || (length data <? n)%nat then (Err ShortWrite, w)
           else writeAllFrom fuel (drop n data) w
       end) w
  end.

Definition writeAll (data : list ascii) : D unit := writeAllFrom (length data) data.

Definition chunkHeader (size : Z) : list ascii := bytes_of (FormatInt 16 size) ++ [CR; LF].

Definition writeFinalChunkContext : D unit := do! _ := writeAll last_chunk in flushContext.

(** ** Reading *)

(** [io.ReadFull]: reads until [n] bytes are there or an error comes; a reader
    that never makes progress is given up. *)
Fixpoint readFullFrom (fuel : nat) (n : nat) (acc : list ascii) (r : R) : list ascii * option ReadError * R :=
  if (n <=? length acc)%nat then (acc, None, r)
  else
    match fuel with
    | O => (acc, Some NoProgress, r)
    | S fuel =>
        match reader_read (n - length acc)%nat r with
        | (p, None, r) => readFullFrom fuel n (acc ++ p) r
        | (p, Some e, r) =>
            let acc := acc ++ p in
            if (n <=? length acc)%nat then (acc, None, r)
            else if (0 <? length acc)%nat && bool_decide (e = EOF) then (acc, Some ErrUnexpectedEOF, r)
            else (acc, Some e, r)
        end
    end.

Definition readFull (n : nat) (r : R) : list ascii * option ReadError * R := readFullFrom (S n) n [] r.

Definition streamReadError (e : ReadError) : DeliveryError :=
  if bool_decide (e = EOF) || bool_decide (e = ErrUnexpectedEOF) then SizeMismatch else SourceReadFailed e.

(** One block for each round. *)
Fixpoint writeChunkDataFrom (fuel : nat) (buffer remaining : Z) : D unit := λ w,
  if 0 <? remaining then
    match fuel with
    | O => (Ok tt, w)
    | S fuel =>
        let block := minInt64 remaining [buffer] in
        let '(p, e, r) := readFull (Z.to_nat block) (w_reader w) in
        let w := with_reader r w in
        (do! _ := (if (0 <? length p)%nat then writeAll p else dret tt) in
         match e with
         | Some e => derr (streamReadError e)
         | None => writeChunkDataFrom fuel buffer (remaining - Z.of_nat (length p))
         end) w
    end
  else (Ok tt, w).

Definition blocks (size : Z) : nat := S (Z.to_nat (size / streamWriteBufferSize)).

Definition writeChunkData (size : Z) : D unit :=
  writeChunkDataFrom (blocks size) (minInt64 size [streamWriteBufferSize]) size.

Definition writeChunk (size : Z) : D unit :=
  do! _ := writeAll (chunkHeader size) in
  do! _ := writeChunkData size in
  do! _ := writeAll [CR; LF] in
  flushContext.

(** ** The schedule *)

Context (plan : BodyStreamPlan).

Definition partial : bool := partialFinishMode (p_finishMode plan) && (0 <? p_duration plan).

Definition deadlinePassed (started now : Z) : bool := negb (now <? started + p_duration plan).

(** The clock is asked only for a partial delivery. *)
Definition partialDeadlinePassed (started : Z) : D bool :=
  if partial then do! now := clockNow in dret (deadlinePassed started now) else dret false.

(** A sleep that was interrupted is an error only when there was a delay. *)
Definition paced (delay : Z) (m : D unit) : D unit := λ w,
  match m w with
  | (Err e, w) => if 0 <? delay then (Err e, w) else (Ok tt, w)
  | r => r
  end.

Definition waitForChunk (started index : Z) : D bool :=
  do! _ := ctxErr in
  do! passed := partialDeadlinePassed started in
  if passed : bool then dret false
  else
    let offset := default 0 (ChunkOffset plan index) in
    do! now := clockNow in
    let delay := started + offset - now in
    do! _ := paced delay (sleep delay) in
    do! passed := partialDeadlinePassed started in
    dret (negb ((passed : bool) && (offset <? p_duration plan))).

Fixpoint writeChunksFrom (fuel : nat) (started index : Z) : D bool :=
  match fuel with
  | O => dret true
  | S fuel =>
      do! proceed := waitForChunk started index in
      if proceed : bool then
        do! _ := writeChunk (default 0 (ChunkSize plan index)) in
        writeChunksFrom fuel started (index + 1)
      else dret false
  end.

Definition writeChunks (started : Z) : D bool := writeChunksFrom (Z.to_nat (p_chunkCount plan)) started 0.

(** The source has to end after the last byte of a whole delivery. *)
Fixpoint verifySourceEnd (tries : nat) : D unit :=
  match tries with
  | O => derr SourceNoProgress
  | S tries =>
      do! _ := ctxErr in λ w,
      let '(p, e, r) := reader_read 1 (w_reader w) in
      let w := with_reader r w in
      if (0 <? length p)%nat then (Err SizeMismatch, w)
      else match e with
           | Some e => if bool_decide (e = EOF) then (Ok tt, w) else (Err (SourceReadFailed e), w)
           | None => verifySourceEnd tries w
           end
  end.

Definition verifyCompletedSource (completed : bool) : D unit :=
  if completed && (p_bodyBytes plan =? p_sourceSize plan) then verifySourceEnd 100 else dret tt.

(** ** One delivery *)

(** The reader is closed whatever happened; of two errors the first is kept. *)
Definition closing {A} (m : D A) : D A := λ w,
  let '(res, w) := m w in
  let '(ce, r) := r_close (w_reader w) in
  let w := with_reader r w in
  (match res, ce with Ok a, Some e => Err (CloseFailed e) | res, _ => res end, w).

(** [closes] is whether the delivery owns the reader. *)
Definition deliver (closes : bool) : D unit :=
  do! started := clockNow in
  let body :=
    do! completed := writeChunks started in
    verifyCompletedSource completed in
  do! _ := (if closes then closing body else body) in
  if bool_decide (p_finishMode plan = StreamFinishFIN) then dret tt else writeFinalChunkContext.

(** [sizeHint] is the payload's, if the source is a payload. *)
Definition validateOpenedSource (sizeHint : option (option Z)) : result DeliveryError unit :=
  match sizeHint with
  | Some (Some size) => if size =? p_sourceSize plan then Ok tt else Err SizeMismatch
  | _ => Ok tt
  end.

Definition writeOpened (sizeHint : option (option Z)) : D unit :=
  let refuse e : D unit := if bool_decide (is_Some sizeHint) then closing (derr e) else derr e in
  match validateOpenedSource sizeHint with
  | Err e => refuse e
  | Ok _ => λ w,
      match ctxErr w with
      | (Err e, w) => refuse e w
      | (Ok _, w) => deliver (bool_decide (is_Some sizeHint)) w
      end
  end.
End Delivery.
Arguments World : clear implicits.

(** ** Streams *)

Section Streams.
Context {P R : Type} `{Payload P R, Reader R, Closer R}.

(** A clone of a stream that only has a reader has a payload that cannot be
    opened. *)
Record BodyStream := {
  bs_Reader : option R;
  bs_Payload : option (P + unit);
  bs_Plan : BodyStreamPlan
}.

Definition Clone (s : BodyStream) : BodyStream :=
  match bs_Payload s, bs_Reader s with
  | None, Some _ => {| bs_Reader := None; bs_Payload := Some (inr tt); bs_Plan := bs_Plan s |}
  | _, _ => s
  end.

(** The reader of a stream with the size its payload tells; the payload is left
    as opening makes it. *)
Definition openReader (s : BodyStream) : result DeliveryError (R * option (option Z)) * BodyStream :=
  match bs_Payload s with
  | None => (match bs_Reader s with Some r => Ok (r, None) | None => Err SourceNil end, s)
  | Some (inr _) => (Err (OpenFailed PayloadUnavailable), s)
  | Some (inl p) =>
      let '(res, p) := p_open p in
      (match res with Ok r => Ok (r, Some (p_size (R := R) p)) | Err e => Err (OpenFailed e) end,
       {| bs_Reader := bs_Reader s; bs_Payload := Some (inl p); bs_Plan := bs_Plan s |})
  end.

(** [writeToContext] into a writer that is not nil: the number of bytes written
    with the error, the stream, the writer and the time. *)
Definition writeToContext (env : Environment) (tick0 : nat) (sink : Sink) (s : BodyStream)
  : result DeliveryError unit * Z * BodyStream * Sink * nat :=
  if negb (validSelectedFinishMode (p_finishMode (bs_Plan s))) then (Err InvalidPlan, 0, s, sink, tick0)
  else if env_cancelled env tick0 then (Err Cancelled, 0, s, sink, S tick0)
  else
    match openReader s with
    | (Err e, s) => (Err e, 0, s, sink, S tick0)
    | (Ok (r, sizeHint), s) =>
        let '(res, w) := writeOpened env (bs_Plan s) sizeHint
                           {| w_tick := S tick0; w_reader := r; w_sink := sink; w_n := 0 |} in
        (res, w_n w, s, w_sink w, w_tick w)
    end.
End Streams.
Arguments BodyStream : clear implicits.

(** ** What an action writes *)

Section Spec.
Context {R : Type} `{HL : ReaderLaws R, HC : !Closer R, HCC : !CleanCloser R}.
Context (env : Environment).

Notation World := (World R).
Notation D := (D (R := R)).

(** The context stays alive, sleeps and flushes succeed, and so does every write. *)
Definition healthy_env : Prop := ∀ t, env_cancelled env t = false ∧ env_sleeps env t = true ∧ env_flushes env t = true.

Definition healthy (w : World) : Prop := healthy_env ∧ room (w_sink w) = None.

(** The reader is one that works. *)
Definition intact (w : World) : Prop := ∃ bs, delivers (w_reader w) bs EOF.

Definition wrote (w w' : World) (d : list ascii) : Prop :=
  out (w_sink w') = out (w_sink w) ++ d ∧ w_n w' = w_n w + Z.of_nat (length d) ∧
  (room (w_sink w) = None → room (w_sink w') = None).

(** [m] succeeds after writing some [d], or fails after writing a prefix of
    [whole], and then something was not healthy. *)
Definition runs {A} (m : D A) (w : World) (Post : A → list ascii → World → Prop) (whole : list ascii) : Prop :=
  match m w with
  | (Ok a, w') => ∃ d, wrote w w' d ∧ Post a d w'
  | (Err _, w') => (∃ d, d `prefix_of` whole ∧ wrote w w' d) ∧ ¬ healthy w
  end.

Lemma wrote_nil w w' : w_sink w' = w_sink w → w_n w' = w_n w → wrote w w' [].
Proof using. intros E En. unfold wrote. rewrite E, En, app_nil_r. split_and!; [done|simpl; lia|done]. Qed.

Lemma wrote_trans w w1 w2 d1 d2 : wrote w w1 d1 → wrote w1 w2 d2 → wrote w w2 (d1 ++ d2).
Proof using.
  intros (Ho1 & Hn1 & Hr1) (Ho2 & Hn2 & Hr2). unfold wrote. rewrite Ho2, Ho1, Hn2, Hn1, <- app_assoc, length_app.
  split_and!; [done|lia|auto].
Qed.

Lemma healthy_wrote w w' d : wrote w w' d → healthy w → healthy w'.
Proof using. intros (_ & _ & Hr) [He Hs]. split; auto. Qed.

Lemma runs_bind {A B} (m : D A) (k : A → D B) w Post1 Post W1 W :
  runs m w Post1 W1 → W1 `prefix_of` W →
  (∀ a d w1, wrote w w1 d → Post1 a d w1 →
     ∃ W2, (d ++ W2) `prefix_of` W ∧ runs (k a) w1 (λ b d2 w2, Post b (d ++ d2) w2) W2) →
  runs (dbind m k) w Post W.
Proof using.
  intros Hm HW Hk. unfold runs, dbind in *. destruct (m w) as [[a|e] w1].
  - destruct Hm as (d & Hd & Hp). destruct (Hk a d w1 Hd Hp) as (W2 & HW2 & Hr). destruct (k a w1) as [[b|e] w2].
    + destruct Hr as (d2 & Hd2 & Hp2). exists (d ++ d2). split; [by eapply wrote_trans|done].
    + destruct Hr as [(d2 & Hpre & Hd2) Hh]. split; [|intros Hw; apply Hh; exact (healthy_wrote _ _ _ Hd Hw)].
      exists (d ++ d2). split; [|by eapply wrote_trans]. etrans; [by apply prefix_app|done].
  - destruct Hm as [(d & Hpre & Hd) Hh]. split; [|done]. exists d. split; [by etrans|done].
Qed.

Lemma runs_ret {A} (a : A) w (Post : A → list ascii → World → Prop) W : Post a [] w → runs (dret a) w Post W.
Proof using. intros HP. exists []. split; [by apply wrote_nil|done]. Qed.

Lemma runs_weaken {A} (m : D A) w (P Q : A → list ascii → World → Prop) W W' :
  runs m w P W → W `prefix_of` W' → (∀ a d w', wrote w w' d → P a d w' → Q a d w') → runs m w Q W'.
Proof using.
  intros Hm HW Hpq. unfold runs in *. destruct (m w) as [[a|e] w'].
  - destruct Hm as (d & Hd & HP). exists d. split; [done|]. by apply Hpq.
  - destruct Hm as [(d & Hpre & Hd) Hh]. split; [|done]. exists d. split; [by etrans|done].
Qed.

(** An action that only looks at the world. *)
Definition silent {A} (m : D A) (w : World) (Post : A → Prop) : Prop :=
  runs m w (λ a d w', d = [] ∧ w_reader w' = w_reader w ∧ Post a) [].

Lemma silent_tick {A} w (a : A) (b : bool) e (Post : A → Prop) :
  Post a → (healthy w → b = true) → silent (λ w, (if b then Ok a else Err e, tick w)) w Post.
Proof using.
  intros HP Hb. unfold silent, runs. destruct b.
  - exists []. split; [by apply wrote_nil|done].
  - split; [|intros Hh; by specialize (Hb Hh)]. exists []. split; [done|by apply wrote_nil].
Qed.

Lemma ctxErr_spec w : silent (ctxErr env) w (λ _, True).
Proof using.
  unfold silent, ctxErr. pose proof (silent_tick w tt (negb (env_cancelled env (w_tick w))) Cancelled (λ _, True) I) as Hs.
  unfold silent, runs in *. destruct (env_cancelled env (w_tick w)) eqn:E; apply Hs; intros [He _];
    destruct (He (w_tick w)) as (Hc & _); (done || congruence).
Qed.

Lemma clockNow_spec w : silent (clockNow env) w (λ _, True).
Proof using. exists []. split; [by apply wrote_nil|done]. Qed.

Lemma silent_bind {A B} (m : D A) (k : A → D B) w P Q :
  silent m w P → (∀ a w1, P a → silent (k a) w1 Q) → silent (dbind m k) w Q.
Proof using.
  intros Hm Hk. apply (runs_bind _ _ _ _ _ _ _ Hm); [done|]. intros a d w1 _ (-> & Hr & HP). exists []. split; [done|].
  eapply runs_weaken; [apply Hk, HP|done|]. cbn. intros b d w2 _ (-> & Hr2 & HQ). split_and!; [done|congruence|done].
Qed.

Lemma silent_ret {A} (a : A) w (P : A → Prop) : P a → silent (dret a) w P.
Proof using. intros HP. by apply runs_ret. Qed.

Lemma guard_spec w : silent (guard env) w (λ _, True).
Proof using. unfold guard. destruct (env_guarded env); [apply ctxErr_spec|by apply silent_ret]. Qed.

Lemma guard_reader (w : World) : w_reader (guard env w).2 = w_reader w.
Proof using. unfold guard. by destruct (env_guarded env). Qed.

Lemma flushContext_spec w : silent (flushContext env) w (λ _, True).
Proof using.
  apply (silent_bind _ _ _ _ _ (ctxErr_spec w)). intros [] w0 _.
  apply (silent_bind _ _ _ _ _ (guard_spec w0)). intros [] w1 _.
  exact (silent_tick w1 tt (env_flushes env (w_tick w1)) FlushFailed (λ _, True) I (λ Hh, proj2 (proj2 (proj1 Hh (w_tick w1))))).
Qed.

(** ** Writing *)

(** One write: all of the data, or a prefix with an error. *)
Lemma countedWrite_spec data w :
  let '(n, e, w') := countedWrite env data w in
  w_reader w' = w_reader w ∧
  ∃ d, wrote w w' d ∧ n = length d ∧
    match e with None => d = data | Some _ => d `prefix_of` data ∧ ¬ healthy w end.
Proof using.
  unfold countedWrite. pose proof (guard_spec w) as Hg. unfold silent, runs in Hg.
  destruct (guard env w) as [[[]|e] w1] eqn:Eg.
  2:{ destruct Hg as [(d & ->%prefix_nil_inv & Hd) Hh].
      split; [by rewrite <- (guard_reader w), Eg|]. exists []. split_and!; [done|done|apply prefix_nil|done]. }
  destruct Hg as (d & Hd & -> & Hr & _). pose proof (sink_write_spec data (w_sink w1)) as Hs.
  destruct (sink_write data (w_sink w1)) as [[n e] s] eqn:Es. destruct Hs as (Ho & He & Hroom). split; [done|].
  set (took := match room (w_sink w1) with None => data | Some k => take k data end) in *.
  assert (Hn : n = length took).
  { unfold sink_write in Es. unfold took. destruct (room (w_sink w1)) as [k|].
    - rewrite length_take. destruct (Nat.leb_spec (length data) k); injection Es as <- <- <-; lia.
    - by injection Es as <- <- <-. }
  assert (Hw : wrote w1 (with_sink s (w_n w1 + Z.of_nat n) w1) took).
  { split_and!; cbn; [done|lia|]. rewrite Hroom. by intros ->. }
  exists took. split_and!; [exact (wrote_trans _ _ _ _ _ Hd Hw)|done|]. destruct e as [e|].
  - split; [unfold took; destruct (room _); [apply prefix_take|reflexivity]|].
    intros Hh. destruct (healthy_wrote _ _ _ Hd Hh) as [_ Hroom1]. rewrite Hroom1 in He. discriminate (proj2 He I).
  - unfold took. destruct (room (w_sink w1)) as [k|]; [|done]. apply take_ge. by apply He.
Qed.

Lemma writeAll_spec data w :
  runs (writeAll env data) w (λ _ d w', d = data ∧ w_reader w' = w_reader w) data.
Proof using.
  destruct data as [|b data0]; [by apply runs_ret|]. set (data := b :: data0).
  change (writeAll env data) with (dbind (R := R) (ctxErr env) (λ _ w,
    match countedWrite env data w with
    | (_, Some e, w) => (Err (WriteFailed e), w)
    | (n, None, w) => if (n =? 0)%nat || (length data <? n)%nat then (Err ShortWrite, w)
                      else writeAllFrom env (length data0) (drop n data) w
    end)).
  assert (Hpos : length data ≠ 0%nat) by done. clearbody data.
  apply (runs_bind _ _ _ _ _ _ _ (ctxErr_spec w)); [apply prefix_nil|]. intros [] d w1 _ (-> & Hr & _). exists data. split; [done|].
  unfold runs. pose proof (countedWrite_spec data w1) as Hs.
  destruct (countedWrite env data w1) as [[n e] w2]. destruct Hs as (Hr2 & d & Hd & -> & He). destruct e as [e|].
  - split; [|apply He]. exists d. split; [apply He|done].
  - subst d. rewrite (proj2 (Nat.eqb_neq (length data) 0) Hpos), Nat.ltb_irrefl. cbn [orb]. rewrite drop_all.
    assert (Hnil : ∀ f w, writeAllFrom (R := R) env f [] w = (Ok tt, w)) by by intros [].
    rewrite Hnil. exists data. split; [done|]. split; [done|congruence].
Qed.

(** ** Reading *)

Lemma readFullFrom_spec fuel n acc r bs :
  delivers r bs EOF → (n < fuel + length acc)%nat →
  ∃ r', readFullFrom fuel n acc r =
    (if (n <=? length (acc ++ bs))%nat then (acc ++ take (n - length acc) bs, None, r')
     else (acc ++ bs, Some (if (0 <? length (acc ++ bs))%nat then ErrUnexpectedEOF else EOF), r')) ∧
    delivers r' (drop (n - length acc) bs) EOF.
Proof using.
  revert acc r bs. induction fuel as [|fuel IH]; intros acc r bs Hd Hf; cbn [readFullFrom]; rewrite length_app.
  - destruct (Nat.leb_spec n (length acc)) as [Hle|Hlt].
    + exists r. rewrite (proj2 (Nat.leb_le _ _)) by lia. replace (n - length acc)%nat with O by lia.
      by rewrite take_0, drop_0, app_nil_r.
    + lia.
  - destruct (Nat.leb_spec n (length acc)) as [Hle|Hlt].
    { exists r. rewrite (proj2 (Nat.leb_le _ _)) by lia. replace (n - length acc)%nat with O by lia.
      by rewrite take_0, drop_0, app_nil_r. }
    pose proof (reader_step r bs EOF (n - length acc) Hd ltac:(lia)) as Hstep.
    destruct (reader_read (n - length acc) r) as [[p [e|]] r'].
    + destruct Hstep as (-> & Hl & -> & Hd'). exists r'. rewrite length_app, take_ge, drop_ge by lia.
      split; [|done]. destruct (n <=? length acc + length bs)%nat; [done|]. rewrite (bool_decide_true (EOF = EOF)) by done.
      rewrite andb_true_r. by destruct (0 <? _)%nat.
    + destruct Hstep as (Hp & Hl & bs' & -> & Hd'). rewrite length_app in *.
      assert (0 < length p)%nat by (destruct p; [done|simpl; lia]).
      destruct (IH (acc ++ p) r' bs' Hd') as (r2 & -> & Hd2); [rewrite length_app; lia|].
      exists r2. rewrite <- !app_assoc, !length_app. replace (n - (length acc + length p))%nat with (n - length acc - length p)%nat in * by lia.
      rewrite length_app in Hd2. replace (n - (length acc + length p))%nat with (n - length acc - length p)%nat in Hd2 by lia.
      split; [|by rewrite drop_app, (drop_ge p) by lia]. rewrite take_app, (take_ge p) by lia.
      rewrite Nat.add_assoc. done.
Qed.

Lemma readFull_spec n r bs :
  delivers r bs EOF →
  ∃ r', readFull n r = (if (n <=? length bs)%nat then (take n bs, None, r')
                        else (bs, Some (if (0 <? length bs)%nat then ErrUnexpectedEOF else EOF), r')) ∧
        delivers r' (drop n bs) EOF.
Proof using.
  intros Hd. destruct (readFullFrom_spec (S n) n [] r bs Hd) as (r' & E & Hd'); [simpl; lia|].
  exists r'. unfold readFull. rewrite E. cbn [app length]. by rewrite Nat.sub_0_r in *.
Qed.

(** ** Chunks *)

Lemma writeChunkDataFrom_spec fuel buffer remaining w bs :
  0 < buffer → delivers (w_reader w) bs EOF → 0 ≤ remaining ≤ Z.of_nat (length bs) → remaining ≤ Z.of_nat fuel * buffer →
  runs (writeChunkDataFrom env fuel buffer remaining) w
    (λ _ d w', d = take (Z.to_nat remaining) bs ∧ delivers (w_reader w') (drop (Z.to_nat remaining) bs) EOF)
    (take (Z.to_nat remaining) bs).
Proof using.
  intros Hb. revert remaining w bs. induction fuel as [|fuel IH]; intros remaining w bs Hd Hr Hf; cbn [writeChunkDataFrom].
  { assert (remaining = 0) as -> by lia. cbn. exists []. split; [by apply wrote_nil|]. by rewrite drop_0. }
  unfold runs. destruct (Z.ltb_spec 0 remaining).
  2:{ assert (remaining = 0) as -> by lia. exists []. split; [by apply wrote_nil|]. cbn. by rewrite drop_0. }
  rewrite minInt64_1. set (block := Z.to_nat (Z.min remaining buffer)).
  assert (Hblock : (0 < block)%nat ∧ (block <= length bs)%nat ∧ Z.of_nat block = Z.min remaining buffer) by (unfold block; lia).
  destruct (readFull_spec block (w_reader w) bs Hd) as (r' & -> & Hd').
  rewrite (proj2 (Nat.leb_le _ _)) by lia. rewrite length_take, (proj2 (Nat.ltb_lt _ _)) by lia.
  replace (block `min` length bs)%nat with block by lia.
  assert (Hsplit : take (Z.to_nat remaining) bs = take block bs ++ take (Z.to_nat (remaining - Z.of_nat block)) (drop block bs)).
  { replace (Z.to_nat remaining) with (block + Z.to_nat (remaining - Z.of_nat block))%nat by lia. by rewrite take_take_drop. }
  change (runs (dbind (writeAll env (take block bs)) (λ _, writeChunkDataFrom env fuel buffer (remaining - Z.of_nat block)))
    (with_reader r' w)
    (λ _ d w', d = take (Z.to_nat remaining) bs ∧ delivers (w_reader w') (drop (Z.to_nat remaining) bs) EOF)
    (take (Z.to_nat remaining) bs)).
  apply (runs_bind _ _ _ _ _ _ _ (writeAll_spec _ _)); [rewrite Hsplit; by apply prefix_app_r|].
  intros [] d w1 _ [-> Hr1]. cbn in Hr1. eexists. split; [rewrite Hsplit; apply prefix_app; reflexivity|].
  eapply runs_weaken; [apply (IH _ _ (drop block bs)); [by rewrite Hr1|rewrite length_drop; lia|nia]|done|].
  cbn. intros _ d w' _ [-> Hd2]. split; [by rewrite Hsplit|]. rewrite drop_drop in Hd2.
  replace (Z.to_nat remaining) with (block + Z.to_nat (remaining - Z.of_nat block))%nat by lia. done.
Qed.

Lemma writeChunkData_spec size w bs :
  0 < size → delivers (w_reader w) bs EOF → size ≤ Z.of_nat (length bs) →
  runs (writeChunkData env size) w
    (λ _ d w', d = take (Z.to_nat size) bs ∧ delivers (w_reader w') (drop (Z.to_nat size) bs) EOF)
    (take (Z.to_nat size) bs).
Proof using.
  intros Hs Hd Hl. unfold writeChunkData. rewrite minInt64_1. unfold blocks.
  assert (H64 : streamWriteBufferSize = 65536) by done. pose proof (Z.div_mod size streamWriteBufferSize ltac:(lia)).
  pose proof (Z.mod_pos_bound size streamWriteBufferSize ltac:(lia)). pose proof (Z.div_pos size streamWriteBufferSize ltac:(lia) ltac:(lia)).
  apply writeChunkDataFrom_spec; [lia|done|lia|nia].
Qed.

Lemma silent_then {A B} (m : D A) (k : A → D B) w P (Post : B → list ascii → World → Prop) W :
  silent m w P → (∀ a w1, P a → w_reader w1 = w_reader w → runs (k a) w1 Post W) → runs (dbind m k) w Post W.
Proof using.
  intros Hm Hk. apply (runs_bind _ _ _ _ _ _ _ Hm); [apply prefix_nil|]. intros a d w1 _ (-> & Hr & HP).
  exists W. split; [done|]. by apply Hk.
Qed.

Lemma writeChunk_spec size w bs :
  0 < size → delivers (w_reader w) bs EOF → size ≤ Z.of_nat (length bs) →
  runs (writeChunk env size) w
    (λ _ d w', d = enc_chunk (take (Z.to_nat size) bs) ∧ delivers (w_reader w') (drop (Z.to_nat size) bs) EOF)
    (enc_chunk (take (Z.to_nat size) bs)).
Proof using.
  intros Hs Hd Hl. set (p := take (Z.to_nat size) bs).
  assert (Hp : Z.of_nat (length p) = size) by (unfold p; rewrite length_take; lia).
  assert (He : enc_chunk p = chunkHeader size ++ p ++ [CR; LF]).
  { unfold enc_chunk, chunk_header, chunkHeader. destruct p as [|b p']; [simpl in Hp; lia|]. by rewrite Hp. }
  rewrite He. unfold writeChunk. apply (runs_bind _ _ _ _ _ _ _ (writeAll_spec _ _)); [by apply prefix_app_r|].
  intros [] d w1 _ [-> Hr1]. eexists. split; [apply prefix_app; reflexivity|].
  eapply (runs_bind _ _ _ _ _ _ (p ++ [CR; LF])); [apply writeChunkData_spec; [done|by rewrite Hr1|done]|by apply prefix_app_r|].
  intros [] d w2 _ [-> Hd2]. eexists. split; [apply prefix_app; reflexivity|].
  apply (runs_bind _ _ _ _ _ _ _ (writeAll_spec _ _)); [reflexivity|].
  intros [] d w3 _ [-> Hr3]. exists []. split; [by rewrite app_nil_r|].
  eapply runs_weaken; [apply flushContext_spec|done|]. cbn. intros _ d w4 _ (-> & Hr4 & _).
  rewrite ?app_nil_r. split; [done|]. by rewrite Hr4, Hr3.
Qed.

(** ** The schedule *)

Context (plan : BodyStreamPlan) (Hplan : plan_wf plan).

Lemma partialDeadlinePassed_spec started w : silent (partialDeadlinePassed env plan started) w (λ b, b = true → partial plan = true).
Proof using.
  unfold partialDeadlinePassed. destruct (partial plan); [|by apply silent_ret].
  apply (silent_bind _ _ _ _ _ (clockNow_spec w)). intros now w1 _. by apply silent_ret.
Qed.

Lemma paced_spec delay w : silent (paced delay (sleep env delay)) w (λ _, True).
Proof using.
  unfold silent, runs, paced, sleep. destruct (Z.leb_spec delay 0).
  - rewrite (proj2 (Z.ltb_ge 0 delay)) by done. unfold ctxErr. destruct (env_cancelled env (w_tick w));
      (exists []; split; [by apply wrote_nil|done]).
  - rewrite (proj2 (Z.ltb_lt 0 delay)) by done. destruct (env_sleeps env (w_tick w)) eqn:E.
    + exists []. split; [by apply wrote_nil|done].
    + split; [|intros [He _]; destruct (He (w_tick w)) as (_ & Hs & _); congruence].
      exists []. split; [done|by apply wrote_nil].
Qed.

Lemma waitForChunk_spec started index w : silent (waitForChunk env plan started index) w (λ b, b = false → partial plan = true).
Proof using.
  unfold waitForChunk. apply (silent_bind _ _ _ _ _ (ctxErr_spec w)). intros [] w1 _.
  apply (silent_bind _ _ _ _ _ (partialDeadlinePassed_spec started w1)). intros [] w2 Hp; [apply silent_ret; intros _; by apply Hp|].
  cbv zeta. apply (silent_bind _ _ _ _ _ (clockNow_spec w2)). intros now w3 _.
  apply (silent_bind _ _ _ _ _ (paced_spec _ w3)). intros [] w4 _.
  apply (silent_bind _ _ _ _ _ (partialDeadlinePassed_spec started w4)). intros b w5 Hb.
  apply silent_ret. destruct b; [intros _; by apply Hb|done].
Qed.

Definition size_at (index : Z) : Z := default 0 (ChunkSize plan index).

(** The source cut into the chunks of the plan from [index] on. *)
Fixpoint planned (n : nat) (index : Z) (bs : list ascii) : list (list ascii) :=
  match n with
  | O => []
  | S n => take (Z.to_nat (size_at index)) bs :: planned n (index + 1) (drop (Z.to_nat (size_at index)) bs)
  end.

Fixpoint bytes_from (n : nat) (index : Z) : Z :=
  match n with O => 0 | S n => size_at index + bytes_from n (index + 1) end.

Definition planned_chunks (bs : list ascii) : list (list ascii) := planned (Z.to_nat (p_chunkCount plan)) 0 bs.

Lemma size_at_pos index : 0 ≤ index < p_chunkCount plan → ChunkSize plan index = Some (size_at index) ∧ 0 < size_at index.
Proof using Hplan.
  intros Hi. unfold size_at. rewrite (ChunkSize_in plan index Hplan Hi). split; [done|]. cbn [default from_option].
  destruct Hplan as [_ [Hb _] _ Hz Hn _ _]. destruct (decide (p_bodyBytes plan = 0)) as [E|]; [specialize (Hz E); lia|].
  specialize (Hn ltac:(lia)). pose proof (Z.div_le_lower_bound (p_bodyBytes plan) (p_chunkCount plan) 1 ltac:(lia) ltac:(lia)).
  unfold id. destruct (_ <? _); lia.
Qed.

Lemma bytes_from_nonneg n index : 0 ≤ index → index + Z.of_nat n ≤ p_chunkCount plan → 0 ≤ bytes_from n index.
Proof using Hplan.
  revert index. induction n as [|n IH]; intros index H0 Hn; cbn [bytes_from]; [done|].
  destruct (size_at_pos index ltac:(lia)) as [_ Hs]. specialize (IH (index + 1) ltac:(lia) ltac:(lia)). lia.
Qed.

Lemma bytes_from_sum k n :
  Z.of_nat k + Z.of_nat n ≤ p_chunkCount plan →
  zsum (omap (λ i, ChunkSize plan (Z.of_nat i)) (seq k n)) = bytes_from n (Z.of_nat k).
Proof using Hplan.
  revert k. induction n as [|n IH]; intros k Hk; [done|]. cbn [seq omap list_omap bytes_from].
  destruct (size_at_pos (Z.of_nat k) ltac:(lia)) as [-> _]. cbn [zsum]. rewrite IH by lia. do 2 f_equal. lia.
Qed.

Lemma count_nonneg : 0 ≤ p_chunkCount plan.
Proof using Hplan.
  destruct Hplan as [_ [Hb _] _ Hz Hn _ _]. destruct (decide (p_bodyBytes plan = 0)) as [E|]; [rewrite (Hz E); lia|].
  specialize (Hn ltac:(lia)). lia.
Qed.

Lemma bytes_from_all : bytes_from (Z.to_nat (p_chunkCount plan)) 0 = p_bodyBytes plan.
Proof using Hplan.
  rewrite <- (chunk_sizes_sum plan Hplan). unfold chunk_sizes. symmetry. apply (bytes_from_sum 0). pose proof count_nonneg. lia.
Qed.

Lemma planned_concat n index bs :
  0 ≤ index → index + Z.of_nat n ≤ p_chunkCount plan →
  concat (planned n index bs) = take (Z.to_nat (bytes_from n index)) bs.
Proof using Hplan.
  revert index bs. induction n as [|n IH]; intros index bs H0 Hn; cbn [planned concat bytes_from]; [by rewrite take_0|].
  destruct (size_at_pos index ltac:(lia)) as [_ Hs]. pose proof (bytes_from_nonneg n (index + 1) ltac:(lia) ltac:(lia)).
  rewrite IH by lia. rewrite take_take_drop. f_equal. lia.
Qed.

Lemma planned_chunks_concat bs : concat (planned_chunks bs) = take (Z.to_nat (p_bodyBytes plan)) bs.
Proof using Hplan.
  unfold planned_chunks. pose proof count_nonneg. by rewrite planned_concat, bytes_from_all by lia.
Qed.

Lemma encode_take_prefix j (l : list (list ascii)) : encode (take j l) `prefix_of` encode l.
Proof using. rewrite <- (take_drop j l) at 2. unfold encode. rewrite map_app, concat_app. by apply prefix_app_r. Qed.

Lemma writeChunksFrom_spec n started index w bs :
  0 ≤ index → index + Z.of_nat n ≤ p_chunkCount plan → delivers (w_reader w) bs EOF →
  bytes_from n index ≤ Z.of_nat (length bs) →
  runs (writeChunksFrom env plan n started index) w
    (λ b d w', (∃ j, d = encode (take j (planned n index bs))) ∧ (b = false → partial plan = true) ∧
               (b = true → d = encode (planned n index bs) ∧
                           delivers (w_reader w') (drop (Z.to_nat (bytes_from n index)) bs) EOF) ∧ intact w')
    (encode (planned n index bs)).
Proof using Hplan.
  revert index w bs. induction n as [|n IH]; intros index w bs H0 Hn Hd Hl; cbn [writeChunksFrom].
  { apply runs_ret. split; [by exists O|]. split; [done|]. split; [intros _; by rewrite drop_0|by exists bs]. }
  cbn [bytes_from] in Hl. destruct (size_at_pos index ltac:(lia)) as [_ Hs].
  pose proof (bytes_from_nonneg n (index + 1) ltac:(lia) ltac:(lia)) as Hrest.
  apply (silent_then _ _ _ _ _ _ (waitForChunk_spec started index w)). intros [] w1 Hb Hr1.
  2:{ apply runs_ret. split; [by exists O|]. split; [by intros _; apply Hb|]. split; [done|]. exists bs. by rewrite Hr1. }
  fold (size_at index). cbn [planned bytes_from]. set (c := take (Z.to_nat (size_at index)) bs).
  set (bs' := drop (Z.to_nat (size_at index)) bs).
  eapply (runs_bind _ _ _ _ _ _ (enc_chunk c ++ encode (planned n (index + 1) bs'))).
  { apply writeChunk_spec; [done|by rewrite Hr1|lia]. }
  { by apply prefix_app_r. }
  intros [] d w2 _ [-> Hd2]. fold c bs' in Hd2. exists (encode (planned n (index + 1) bs')). split; [done|].
  eapply runs_weaken; [apply (IH (index + 1) w2 bs'); [lia|lia|exact Hd2|unfold bs'; rewrite length_drop; lia]|done|].
  cbn. intros b d w3 _ ((j & ->) & Hf & Ht & Hi). split; [by exists (S j)|]. split; [done|]. split; [|done].
  intros ->. destruct (Ht eq_refl) as [Hdj Hd3]. split; [by rewrite Hdj|]. unfold bs' in Hd3. rewrite drop_drop in Hd3.
  replace (Z.to_nat (size_at index + bytes_from n (index + 1)))
    with (Z.to_nat (size_at index) + Z.to_nat (bytes_from n (index + 1)))%nat by lia. done.
Qed.

Lemma verifySourceEnd_spec w :
  delivers (w_reader w) [] EOF → runs (verifySourceEnd env 100) w (λ _ d w', d = [] ∧ intact w') [].
Proof using.
  intros Hd. change (verifySourceEnd env 100) with (dbind (R := R) (ctxErr env) (λ _ w,
    let '(p, e, r) := reader_read 1 (w_reader w) in
    let w := with_reader r w in
    if (0 <? length p)%nat then (Err SizeMismatch, w)
    else match e with
         | Some e => if bool_decide (e = EOF) then (Ok tt, w) else (Err (SourceReadFailed e), w)
         | None => verifySourceEnd env 99 w
         end)).
  apply (silent_then _ _ _ _ _ _ (ctxErr_spec w)). intros [] w1 _ Hr1. rewrite <- Hr1 in Hd. unfold runs.
  pose proof (reader_step (w_reader w1) [] EOF 1 Hd ltac:(lia)) as Hstep.
  destruct (reader_read 1 (w_reader w1)) as [[p [e|]] r'].
  - destruct Hstep as (-> & _ & -> & Hd'). cbn. exists []. split; [by apply wrote_nil|]. split; [done|by exists []].
  - destruct Hstep as (Hp & _ & bs' & E & _). by destruct p.
Qed.

Lemma closing_spec {A} (m : D A) w (Post : A → list ascii → World → Prop) W :
  (∀ a d w' r, Post a d w' → Post a d (with_reader r w')) →
  runs m w (λ a d w', Post a d w' ∧ intact w') W → runs (closing m) w Post W.
Proof using HCC.
  intros HP Hm. unfold runs, closing in *. destruct (m w) as [res w']. destruct res as [a|e].
  - destruct Hm as (d & Hd & Hp & bs & Hr). pose proof (close_clean (w_reader w') bs EOF Hr) as Hc.
    destruct (r_close (w_reader w')) as [ce r]. cbn in Hc. subst ce. exists d. split; [exact Hd|by apply HP].
  - destruct (r_close (w_reader w')) as [ce r]. destruct Hm as [(d & Hpre & Hd) Hh]. split; [|done]. exists d. by split.
Qed.

(** ** A whole delivery *)

Definition stream_end : list ascii := if bool_decide (p_finishMode plan = StreamFinishFIN) then [] else last_chunk.

(** The result of a delivery of the source [bs] into a sink. *)
Definition delivered (w : World) (bs : list ascii) (res : result DeliveryError unit) (w' : World) : Prop :=
  ∃ j d, wrote w w' d ∧ (partial plan = false → take j (planned_chunks bs) = planned_chunks bs) ∧
    match res with
    | Ok _ => d = encode (take j (planned_chunks bs)) ++ stream_end
    | Err _ => d `prefix_of` encode (take j (planned_chunks bs)) ++ stream_end ∧ ¬ healthy w
    end.

Lemma body_spec started w bs :
  delivers (w_reader w) bs EOF → Z.of_nat (length bs) = p_sourceSize plan →
  runs (dbind (writeChunks env plan started) (verifyCompletedSource env plan)) w
    (λ _ d w', (∃ j, d = encode (take j (planned_chunks bs)) ∧
                   (partial plan = false → take j (planned_chunks bs) = planned_chunks bs)) ∧ intact w')
    (encode (planned_chunks bs)).
Proof using Hplan.
  intros Hd Hl. pose proof bytes_from_all as Hall. destruct Hplan as [_ [Hb _] _ _ _ _ _].
  pose proof count_nonneg as Hcount.
  eapply runs_bind; [apply (writeChunksFrom_spec _ started 0 w bs); [lia|lia|done|lia]|reflexivity|].
  intros b d w1 _ ((j & Hj) & Hf & Ht & Hi). exists []. destruct b.
  - destruct (Ht eq_refl) as [-> Hd1]. split; [by rewrite app_nil_r|]. unfold verifyCompletedSource. cbn [andb].
    assert (Hdone : ∃ j0, encode (planned_chunks bs) = encode (take j0 (planned_chunks bs)) ∧
      (partial plan = false → take j0 (planned_chunks bs) = planned_chunks bs)).
    { exists (length (planned_chunks bs)). by rewrite take_ge. }
    destruct (Z.eqb_spec (p_bodyBytes plan) (p_sourceSize plan)) as [E|E].
    + eapply runs_weaken; [apply verifySourceEnd_spec|done|].
      * rewrite Hall, drop_ge in Hd1 by lia. done.
      * cbn. intros _ d w2 _ [-> Hi2]. by rewrite app_nil_r.
    + apply runs_ret. by rewrite app_nil_r.
  - split; [rewrite app_nil_r, Hj; apply encode_take_prefix|]. apply runs_ret. split; [|done]. exists j. rewrite app_nil_r.
    split; [done|]. intros Hp. by rewrite Hf in Hp.
Qed.

Lemma deliver_spec closes w bs :
  delivers (w_reader w) bs EOF → Z.of_nat (length bs) = p_sourceSize plan →
  delivered w bs (deliver env plan closes w).1 (deliver env plan closes w).2.
Proof using HCC Hplan.
  intros Hd Hl. set (w0 := tick w). set (started := env_now env (w_tick w)).
  set (body := dbind (writeChunks env plan started) (verifyCompletedSource env plan)).
  assert (E : deliver env plan closes w =
    match (if closes then closing body else body) w0 with
    | (Ok _, w1) => (if bool_decide (p_finishMode plan = StreamFinishFIN) then dret tt else writeFinalChunkContext env) w1
    | (Err e, w1) => (Err e, w1)
    end) by reflexivity.
  rewrite E. clear E.
  assert (Hbody : runs (if closes then closing body else body) w0
    (λ _ d _, ∃ j, d = encode (take j (planned_chunks bs)) ∧
                   (partial plan = false → take j (planned_chunks bs) = planned_chunks bs)) (encode (planned_chunks bs))).
  { pose proof (body_spec started w0 bs Hd Hl) as Hb. destruct closes; [by refine (closing_spec body w0 _ _ _ Hb)|].
    eapply runs_weaken; [exact Hb|done|]. by intros _ d w' _ [? _]. }
  unfold runs in Hbody. destruct ((if closes then closing body else body) w0) as [[[]|e] w1].
  - destruct Hbody as (d & Hw & j & -> & Hj). unfold delivered, stream_end. case_bool_decide.
    + exists j, (encode (take j (planned_chunks bs))). cbn [fst snd dret]. split_and!; [exact Hw|exact Hj|by rewrite app_nil_r].
    + assert (Hfin : runs (writeFinalChunkContext env) w1 (λ _ d _, d = last_chunk) last_chunk).
      { apply (runs_bind _ _ _ _ _ _ _ (writeAll_spec _ _)); [reflexivity|]. intros [] d w2 _ [-> _]. exists [].
        split; [by rewrite app_nil_r|]. eapply runs_weaken; [apply flushContext_spec|done|].
        cbn. intros _ d w3 _ (-> & _). done. }
      unfold runs in Hfin. destruct (writeFinalChunkContext env w1) as [[[]|e] w2]; cbn [fst snd].
      * destruct Hfin as (d & Hw2 & ->). eexists j, _. split_and!; [exact (wrote_trans _ _ _ _ _ Hw Hw2)|done|done].
      * destruct Hfin as [(d & Hpre & Hw2) Hh]. eexists j, _. split; [exact (wrote_trans _ _ _ _ _ Hw Hw2)|].
        split; [exact Hj|]. split; [by apply prefix_app|]. intros Hw0. apply Hh. exact (healthy_wrote w0 w1 _ Hw Hw0).
  - destruct Hbody as [(d & Hpre & Hw) Hh]. cbn [fst snd]. exists (length (planned_chunks bs)), d. rewrite take_ge by done.
    do 2 (split; [done|]). split; [by apply prefix_app_r|exact Hh].
Qed.

(** ** Sources of another size than planned *)

(** [m] fails, and in a healthy world because of the size of the source. *)
Definition fails {A} (m : D A) (w : World) : Prop :=
  match m w with (Ok _, _) => False | (Err e, _) => healthy w → e = SizeMismatch end.

Lemma fails_bind {A B} (m : D A) (k : A → D B) w Post W :
  runs m w Post W → (∀ a d w1, wrote w w1 d → Post a d w1 → fails (k a) w1) → fails (dbind m k) w.
Proof using.
  intros Hm Hk. unfold runs, fails, dbind in *. destruct (m w) as [[a|e] w1].
  - destruct Hm as (d & Hd & HP). specialize (Hk a d w1 Hd HP). destruct (k a w1) as [[b|e] w2]; [done|].
    intros Hh. apply Hk. exact (healthy_wrote _ _ _ Hd Hh).
  - by destruct Hm as [_ Hh].
Qed.

Lemma fails_first {A B} (m : D A) (k : A → D B) w : fails m w → fails (dbind m k) w.
Proof using. unfold fails, dbind. by destruct (m w) as [[a|e] w1]. Qed.

Lemma writeChunkDataFrom_short fuel buffer remaining w bs :
  0 < buffer → delivers (w_reader w) bs EOF → Z.of_nat (length bs) < remaining → remaining ≤ Z.of_nat fuel * buffer →
  fails (writeChunkDataFrom env fuel buffer remaining) w.
Proof using.
  intros Hb. revert remaining w bs. induction fuel as [|fuel IH]; intros remaining w bs Hd Hr Hf; [lia|].
  cbn [writeChunkDataFrom]. unfold fails. rewrite (proj2 (Z.ltb_lt 0 remaining)) by lia. rewrite minInt64_1.
  set (block := Z.to_nat (Z.min remaining buffer)). assert (Hblock : Z.of_nat block = Z.min remaining buffer) by (unfold block; lia).
  destruct (readFull_spec block (w_reader w) bs Hd) as (r' & -> & Hd'). destruct (Nat.leb_spec block (length bs)) as [Hle|Hlt].
  - rewrite length_take, (proj2 (Nat.ltb_lt _ _)) by lia. replace (block `min` length bs)%nat with block by lia.
    change (fails (dbind (writeAll env (take block bs)) (λ _, writeChunkDataFrom env fuel buffer (remaining - Z.of_nat block)))
      (with_reader r' w)).
    apply (fails_bind _ _ _ _ _ (writeAll_spec _ _)). intros [] d w1 _ [_ Hr1].
    apply (IH _ _ (drop block bs)); [by rewrite Hr1|rewrite length_drop; lia|nia].
  - set (e := if (0 <? length bs)%nat then ErrUnexpectedEOF else EOF).
    assert (Hw : runs (if (0 <? length bs)%nat then writeAll env bs else dret tt) (with_reader r' w) (λ _ _ _, True) bs).
    { destruct (0 <? length bs)%nat; [|by apply runs_ret]. eapply runs_weaken; [apply writeAll_spec|done|done]. }
    change (fails (dbind (if (0 <? length bs)%nat then writeAll env bs else dret tt) (λ _, derr (A := unit) (streamReadError e))) (with_reader r' w)).
    apply (fails_bind _ _ _ _ _ Hw). intros _ d w1 _ _ _. unfold e. by destruct (0 <? length bs)%nat.
Qed.

Lemma writeChunk_short size w bs :
  0 < size → delivers (w_reader w) bs EOF → Z.of_nat (length bs) < size → fails (writeChunk env size) w.
Proof using.
  intros Hs Hd Hl. apply (fails_bind _ _ _ _ _ (writeAll_spec _ _)). intros [] d w1 _ [_ Hr1]. apply fails_first.
  unfold writeChunkData. rewrite minInt64_1. unfold blocks. assert (H64 : streamWriteBufferSize = 65536) by done.
  pose proof (Z.div_mod size streamWriteBufferSize ltac:(lia)).
  pose proof (Z.mod_pos_bound size streamWriteBufferSize ltac:(lia)). pose proof (Z.div_pos size streamWriteBufferSize ltac:(lia) ltac:(lia)).
  apply (writeChunkDataFrom_short _ _ _ _ bs); [lia|by rewrite Hr1|lia|nia].
Qed.

Lemma writeChunksFrom_short n started index w bs :
  partial plan = false → 0 ≤ index → index + Z.of_nat n ≤ p_chunkCount plan → delivers (w_reader w) bs EOF →
  Z.of_nat (length bs) < bytes_from n index → fails (writeChunksFrom env plan n started index) w.
Proof using Hplan.
  intros Hp. revert index w bs. induction n as [|n IH]; intros index w bs H0 Hn Hd Hl; cbn [writeChunksFrom bytes_from] in *; [lia|].
  destruct (size_at_pos index ltac:(lia)) as [_ Hs]. fold (size_at index).
  apply (fails_bind _ _ _ _ _ (waitForChunk_spec started index w)). intros [] d w1 _ (_ & Hr1 & Hb); [|by rewrite Hb in Hp].
  destruct (Z.le_gt_cases (size_at index) (Z.of_nat (length bs))).
  - apply (fails_bind _ _ _ _ _ (writeChunk_spec (size_at index) w1 bs Hs ltac:(by rewrite Hr1) ltac:(lia))).
    intros [] d2 w2 _ [_ Hd2]. apply (IH (index + 1) w2 _ ltac:(lia) ltac:(lia) Hd2). rewrite length_drop. lia.
  - apply fails_first. apply (writeChunk_short _ _ bs); [done|by rewrite Hr1|lia].
Qed.

Lemma verifySourceEnd_long w bs :
  delivers (w_reader w) bs EOF → bs ≠ [] → fails (verifySourceEnd env 100) w.
Proof using.
  intros Hd Hbs. apply (fails_bind (ctxErr env) _ w _ [] (ctxErr_spec w)). intros [] d w1 _ (_ & Hr1 & _). rewrite <- Hr1 in Hd.
  unfold fails. pose proof (reader_step (w_reader w1) bs EOF 1 Hd ltac:(lia)) as Hstep.
  destruct (reader_read 1 (w_reader w1)) as [[p e] r']. assert (Hp : (0 < length p)%nat).
  { destruct e as [e|]; [destruct Hstep as (-> & _); by destruct bs; [|simpl; lia]|].
    destruct Hstep as (Hp & _). destruct p; [done|simpl; lia]. }
  by rewrite (proj2 (Nat.ltb_lt _ _) Hp).
Qed.

Lemma closing_fails {A} (m : D A) w : fails m w → fails (closing m) w.
Proof using. unfold fails, closing. destruct (m w) as [[a|e] w1]; [done|]. by destruct (r_close (w_reader w1)) as [[ce|] r]. Qed.

Lemma deliver_fails closes w bs :
  partial plan = false → p_bodyBytes plan = p_sourceSize plan → delivers (w_reader w) bs EOF →
  Z.of_nat (length bs) ≠ p_sourceSize plan → fails (deliver env plan closes) w.
Proof using Hplan.
  intros Hp Hall Hd Hl. apply (fails_bind (clockNow env) _ w _ [] (clockNow_spec w)). intros started d w1 _ (_ & Hr1 & _).
  apply fails_first. rewrite <- Hr1 in Hd. clear Hr1.
  assert (Hbody : fails (dbind (writeChunks env plan started) (verifyCompletedSource env plan)) w1).
  2:{ destruct closes; [by apply closing_fails|done]. }
  pose proof bytes_from_all as Hsum. pose proof count_nonneg as Hcount.
  destruct (Z.le_gt_cases (p_sourceSize plan) (Z.of_nat (length bs))).
  - apply (fails_bind _ _ _ _ _ (writeChunksFrom_spec (Z.to_nat (p_chunkCount plan)) started 0 w1 bs ltac:(lia) ltac:(lia) Hd ltac:(lia))).
    intros b d2 w2 _ (_ & Hf & Ht & _). destruct b; [|by rewrite Hf in Hp]. destruct (Ht eq_refl) as [_ Hd2].
    unfold verifyCompletedSource. rewrite (proj2 (Z.eqb_eq _ _) Hall). cbn [andb].
    apply (verifySourceEnd_long _ _ Hd2). intros E. apply (f_equal length) in E. rewrite length_drop, Hsum in E.
    cbn [length] in E. pose proof (wf_bytes _ Hplan). lia.
  - apply fails_first. apply (writeChunksFrom_short _ _ _ _ bs); [done|lia|lia|done|lia].
Qed.
End Spec.

(** ** Streams over a connection *)

Section Streamed.
Context {P R : Type} `{HP : Payload P R, HL : ReaderLaws R, HC : !Closer R, HCC : !CleanCloser R}.
Context (env : Environment).

(** A stream whose payload opens and delivers [bs], of the size that was planned. *)
Record streams (s : BodyStream P R) (bs : list ascii) : Prop := {
  st_payload : ∃ p rd q, bs_Payload s = Some (inl p) ∧ p_open p = (Ok rd, q) ∧ delivers rd bs EOF ∧
                         (p_size (R := R) q = None ∨ p_size (R := R) q = Some (Z.of_nat (length bs)));
  st_plan : plan_wf (bs_Plan s);
  st_size : Z.of_nat (length bs) = p_sourceSize (bs_Plan s)
}.

(** The bytes a call added to the sink, with its result. *)
Definition added (sink : Sink) (call : result DeliveryError unit * Z * BodyStream P R * Sink * nat) (d : list ascii) : Prop :=
  let '(_, n, _, sink', _) := call in
  out sink' = out sink ++ d ∧ n = Z.of_nat (length d) ∧ (room sink = None → room sink' = None).

Lemma writeToContext_spec t0 sink s bs :
  streams s bs →
  let chunks := planned_chunks (bs_Plan s) bs in
  let call := writeToContext env t0 sink s in
  ∃ j d, added sink call d ∧ (partial (bs_Plan s) = false → take j chunks = chunks) ∧
    match call.1.1.1.1 with
    | Ok _ => d = encode (take j chunks) ++ stream_end (bs_Plan s)
    | Err _ => d `prefix_of` encode (take j chunks) ++ stream_end (bs_Plan s) ∧
               ¬ (healthy_env env ∧ room sink = None)
    end.
Proof using HCC.
  intros [(p & rd & q & Ep & Eo & Hd & Hsize) Hwf Hl] chunks call. unfold call, writeToContext.
  rewrite (wf_mode _ Hwf). cbn [negb].
  destruct (env_cancelled env t0) eqn:Ec.
  { exists (length chunks), []. cbn. rewrite app_nil_r, take_ge by done. do 2 (split; [done|]). split; [apply prefix_nil|]. intros [He _]. destruct (He t0) as (Hc & _). congruence. }
  unfold openReader. rewrite Ep, Eo. cbn beta iota zeta delta [bs_Plan]. set (w := {| w_tick := S t0; w_reader := rd; w_sink := sink; w_n := 0 |}).
  unfold writeOpened. rewrite (bool_decide_true (is_Some (Some _))) by done.
  assert (Hv : validateOpenedSource (bs_Plan s) (Some (p_size (R := R) q)) = Ok tt).
  { unfold validateOpenedSource. destruct Hsize as [-> | ->]; [done|]. by rewrite (proj2 (Z.eqb_eq _ _) Hl). }
  rewrite Hv. unfold ctxErr. destruct (env_cancelled env (w_tick w)) eqn:Ec2.
  - unfold closing, derr. cbn [fst snd]. destruct (r_close _) as [ce r]. exists (length chunks), []. cbn. rewrite app_nil_r, take_ge by done.
    assert (Hp : [] `prefix_of` encode chunks ++ stream_end (bs_Plan s) ∧ ¬ (healthy_env env ∧ room sink = None)).
    { split; [apply prefix_nil|]. intros [He _]. destruct (He (w_tick w)) as (Hc & _). congruence. }
    by destruct ce.
  - pose proof (deliver_spec env (bs_Plan s) Hwf true (tick w) bs Hd Hl) as (j & d & (Ho & Hn & Hroom) & Hres).
    destruct (deliver env (bs_Plan s) true (tick w)) as [res w']. cbn in *.
    exists j, d. split; [by split_and!; [done|rewrite Hn|]|]. exact Hres.
Qed.

(** A stream writes its chunks as planned, cut from the source, and then the
    end of the body, or none for a connection that is to be torn down. A delivery
    that may be partial stops between two chunks when its time is over, and only
    then. When it fails it has written a prefix of that, and something outside
    failed: the context, a sleep, a flush or a write. *)
Theorem stream_delivered t0 sink s bs :
  streams s bs →
  ∃ j d, added sink (writeToContext env t0 sink s) d ∧
    concat (planned_chunks (bs_Plan s) bs) = take (Z.to_nat (p_bodyBytes (bs_Plan s))) bs ∧
    (partial (bs_Plan s) = false → take j (planned_chunks (bs_Plan s) bs) = planned_chunks (bs_Plan s) bs) ∧
    match (writeToContext env t0 sink s).1.1.1.1 with
    | Ok _ => d = encode (take j (planned_chunks (bs_Plan s) bs)) ++ stream_end (bs_Plan s)
    | Err _ => d `prefix_of` encode (take j (planned_chunks (bs_Plan s) bs)) ++ stream_end (bs_Plan s) ∧
               ¬ (healthy_env env ∧ room sink = None)
    end.
Proof using HCC.
  intros Hs. destruct (writeToContext_spec t0 sink s bs Hs) as (j & d & Hd & Hres). exists j, d. split; [done|]. split; [|done].
  exact (planned_chunks_concat _ (st_plan _ _ Hs) bs).
Qed.

(** C9: over a connection that stays healthy a stream always comes to its end, and
    the client reads from it, up to the bytes that follow on the connection, the
    first chunks of the source: all that was selected of it, unless the delivery
    may be partial. *)
Theorem stream_reaches_client t0 sink s bs ending sizes rest :
  streams s bs → healthy_env env → room sink = None → p_finishMode (bs_Plan s) ≠ StreamFinishFIN →
  Forall chunk_ok (planned_chunks (bs_Plan s) bs) → (∀ i, (0 < sizes i)%nat) →
  ∃ n s' d body t, writeToContext env t0 sink s = (Ok tt, n, s', {| out := out sink ++ d; room := None |}, t) ∧
    ReadChunkedBody ending sizes (d ++ rest) = Some (body, None, set_finished NewChunkedReader, rest) ∧
    body `prefix_of` bs ∧ (partial (bs_Plan s) = false → body = take (Z.to_nat (p_bodyBytes (bs_Plan s))) bs).
Proof using HCC.
  intros Hs He Hroom Hmode Hok Hsizes. destruct (writeToContext_spec t0 sink s bs Hs) as (j & d & Hd & Hj & Hres).
  destruct (writeToContext env t0 sink s) as [[[[[[]|e] n] s'] [o ro]] t]; cbn [fst] in Hres; [|by destruct Hres as [_ []]].
  destruct Hd as (Ho & _ & Hr). cbn in Ho, Hr. rewrite Ho, (Hr Hroom), Hres.
  unfold stream_end. rewrite bool_decide_false by done. set (cs := planned_chunks (bs_Plan s) bs) in *.
  eexists n, s', _, (concat (take j cs)), t. split; [done|]. rewrite <- app_assoc. split.
  { apply ReadChunkedBody_encode; [done|]. by apply Forall_take. }
  assert (Hcs : concat cs = take (Z.to_nat (p_bodyBytes (bs_Plan s))) bs) by exact (planned_chunks_concat _ (st_plan _ _ Hs) bs).
  split; [|intros Hp; by rewrite Hj].
  etrans; [|apply (prefix_take bs (Z.to_nat (p_bodyBytes (bs_Plan s))))]. rewrite <- Hcs. exists (concat (drop j cs)).
  by rewrite <- concat_app, take_drop.
Qed.

(** A whole delivery never succeeds when the source turns out shorter or
    longer than the plan, whatever the payload said its size was; when nothing
    else fails the error is the size mismatch. *)
Theorem stream_size_checked t0 sink s p rd q bs :
  plan_wf (bs_Plan s) → partial (bs_Plan s) = false → p_bodyBytes (bs_Plan s) = p_sourceSize (bs_Plan s) →
  bs_Payload s = Some (inl p) → p_open p = (Ok rd, q) → delivers rd bs EOF →
  Z.of_nat (length bs) ≠ p_sourceSize (bs_Plan s) →
  ∃ e, (writeToContext env t0 sink s).1.1.1.1 = Err e ∧ (healthy_env env ∧ room sink = None → e = SizeMismatch).
Proof using HL.
  intros Hwf Hp Hall Ep Eo Hd Hl. unfold writeToContext. rewrite (wf_mode _ Hwf). cbn [negb].
  destruct (env_cancelled env t0) eqn:Ec.
  { exists Cancelled. split; [done|]. intros [He _]. destruct (He t0) as (Hc & _). congruence. }
  unfold openReader. rewrite Ep, Eo. cbn beta iota zeta delta [bs_Plan]. set (w := {| w_tick := S t0; w_reader := rd; w_sink := sink; w_n := 0 |}).
  assert (Hf : fails env (writeOpened env (bs_Plan s) (Some (p_size (R := R) q))) w).
  { unfold writeOpened. rewrite (bool_decide_true (is_Some (Some _))) by done. destruct (validateOpenedSource _ _) as [[]|e] eqn:Ev.
    - unfold fails. pose proof (ctxErr_spec env w) as Hc. unfold silent, runs in Hc. destruct (ctxErr env w) as [[[]|e] w1].
      + destruct Hc as (d & Hd1 & _ & Hr & _).
        pose proof (deliver_fails env (bs_Plan s) Hwf true w1 bs Hp Hall ltac:(rewrite Hr; exact Hd) Hl) as Hdel.
        unfold fails in Hdel. destruct (deliver env (bs_Plan s) true w1) as [[u|e] w2]; [done|].
        intros Hh. apply Hdel. exact (healthy_wrote _ _ _ _ Hd1 Hh).
      + destruct Hc as [_ Hh]. unfold closing, derr. by destruct (r_close (w_reader w1)) as [[ce|] r].
    - apply closing_fails. unfold fails, derr. intros _. unfold validateOpenedSource in Ev.
      destruct (p_size q) as [n|]; [|done]. destruct (n =? _); [done|]. by injection Ev as <-. }
  unfold fails in Hf. destruct (writeOpened env (bs_Plan s) (Some (p_size (R := R) q)) w) as [[u|e] w1]; [done|]. by exists e.
Qed.
End Streamed.

(** ** Instances *)

Module Live.
Definition options (mode : string) (size duration : Z) : BodyStreamPlanOptions :=
  {| FinishMode := mode; SourceSize := size; SelectedBytes := 0; TargetChunkSize := 0; Duration := duration;
     Every := 0; TargetChunks := 3; SelectedBytesSet := false |}.

Definition whole_plan : BodyStreamPlan :=
  {| p_finishMode := StreamFinishComplete; p_sourceSize := 9; p_bodyBytes := 9; p_targetChunkSize := 0; p_duration := 0;
     p_every := 0; p_chunkCount := 3; p_targetChunks := 3 |}.

Lemma whole_plan_wf : plan_wf whole_plan.
Proof.
  apply (PlanBodyStream_wf (options StreamFinishComplete 9 0)); [|vm_compute; reflexivity].
  repeat split; vm_compute; discriminate.
Qed.

Definition stream (s : string) : BodyStream (Replayable BytesReader) BytesReader :=
  {| bs_Reader := None; bs_Payload := Some (inl (NewBytesStreamPayload (bytes_of s))); bs_Plan := whole_plan |}.

Definition calm : Environment :=
  {| env_now := λ t, Z.of_nat t; env_cancelled := λ _, false; env_sleeps := λ _, true; env_flushes := λ _, true; env_guarded := false |}.

(** The context is done at the twentieth question. *)
Definition cut_off : Environment :=
  {| env_now := λ t, Z.of_nat t; env_cancelled := λ t, (20 <? t)%nat; env_sleeps := λ _, true; env_flushes := λ _, true; env_guarded := false |}.

Lemma streams_it : streams (stream "streamed!") (bytes_of "streamed!").
Proof.
  split; [|exact whole_plan_wf|reflexivity]. eexists _, _, _. split; [reflexivity|]. split; [reflexivity|].
  split; [split; reflexivity|]. right. reflexivity.
Qed.

Lemma calm_healthy : healthy_env calm.
Proof. done. Qed.
End Live.

Lemma stream_delivered_witness :
  (writeToContext Live.cut_off 0 fresh_sink (Live.stream "streamed!")).1.1.1.1 = Err Cancelled ∧
  ∃ j d, added fresh_sink (writeToContext Live.cut_off 0 fresh_sink (Live.stream "streamed!")) d ∧
    d `prefix_of` encode (take j [bytes_of "str"; bytes_of "eam"; bytes_of "ed!"]) ++ last_chunk.
Proof.
  assert (E : (writeToContext Live.cut_off 0 fresh_sink (Live.stream "streamed!")).1.1.1.1 = Err Cancelled) by (vm_compute; reflexivity).
  split; [exact E|].
  destruct (stream_delivered Live.cut_off 0 fresh_sink (Live.stream "streamed!") (bytes_of "streamed!") Live.streams_it)
    as (j & d & Hd & _ & _ & Hres).
  rewrite E in Hres. exists j, d. split; [exact Hd|exact (proj1 Hres)].
Defined.

Lemma stream_reaches_client_witness :
  ∃ n s' d body t, writeToContext Live.calm 0 fresh_sink (Live.stream "streamed!") = (Ok tt, n, s', {| out := d; room := None |}, t) ∧
    ReadChunkedBody EOF (λ _, 2%nat) (d ++ bytes_of "OPTIONS") = Some (body, None, set_finished NewChunkedReader, bytes_of "OPTIONS") ∧
    body = bytes_of "streamed!".
Proof.
  destruct (stream_reaches_client Live.calm 0 fresh_sink (Live.stream "streamed!") (bytes_of "streamed!") EOF (λ _, 2%nat)
    (bytes_of "OPTIONS") Live.streams_it Live.calm_healthy) as (n & s' & d & body & t & E & Hr & _ & Hb).
  - reflexivity.
  - vm_compute. discriminate.
  - repeat constructor; vm_compute; discriminate.
  - intros i. apply Nat.lt_0_2.
  - exists n, s', d, body, t. split; [exact E|]. split; [exact Hr|]. rewrite Hb by reflexivity. vm_compute. reflexivity.
Defined.

Lemma stream_size_checked_witness :
  ∃ e, (writeToContext Live.calm 0 fresh_sink
          {| bs_Reader := None; bs_Payload := Some (inl (NewOneShotStreamPayload {| br_rest := bytes_of "short" |} (-1)));
             bs_Plan := Live.whole_plan |}).1.1.1.1 = Err e ∧ e = SizeMismatch.
Proof.
  destruct (stream_size_checked (P := OneShot BytesReader) (R := BytesReader) Live.calm 0 fresh_sink
    {| bs_Reader := None; bs_Payload := Some (inl (NewOneShotStreamPayload {| br_rest := bytes_of "short" |} (-1)));
       bs_Plan := Live.whole_plan |} (NewOneShotStreamPayload {| br_rest := bytes_of "short" |} (-1))
    {| br_rest := bytes_of "short" |} {| os_reader := {| br_rest := bytes_of "short" |}; os_sizeHint := -1; os_opened := true |}
    (bytes_of "short")) as (e & E & He).
  - exact Live.whole_plan_wf.
  - reflexivity.
  - reflexivity.
  - reflexivity.
  - reflexivity.
  - split; reflexivity.
  - vm_compute. discriminate.
  - exists e. split; [exact E|]. apply He. split; [exact Live.calm_healthy|reflexivity].
Defined.
