(* ===== verification/IcapResponse.v ===== *)
(** * ICAP responses: [pkg/icap/response.go] and [response_write.go]

    The response a handler returns, the [Encapsulated] header that is built for it
    and the two ways it is written: into a buffer ([String]) and to a connection,
    section by section, with a body streamed in its place ([StreamDelivery]).
    Strings and buffers are byte strings; lengths do not overflow an [int], because
    they are of data in memory. The [BodyReader] of a response is never written. *)
From S2P Require Import Prelude GoInt GoStrings Header Chunked Protocol Message StreamPlan StreamPayload StreamDelivery.

Local Open Scope Z_scope.

Definition Version : string := "ICAP/1.0".

Definition StatusOK : Z := 200.
Definition StatusNoContentNeeded : Z := 204.
Definition StatusBadRequest : Z := 400.
Definition StatusNotFound : Z := 404.
Definition StatusMethodNotAllowed : Z := 405.
Definition StatusInternalServerError : Z := 500.
Definition StatusNotImplemented : Z := 501.
Definition StatusBadGateway : Z := 502.
Definition StatusServiceUnavailable : Z := 503.
Definition StatusVersionNotSupported : Z := 505.

Fixpoint status_lookup (code : Z) (l : list (Z * string)) : option string :=
  match l with
  | [] => None
  | (c, t) :: l => if code =? c then Some t else status_lookup code l
  end.

Definition StatusText (code : Z) : string :=
  default "Unknown" (status_lookup code
    [(StatusOK, "OK"); (StatusNoContentNeeded, "No Content Needed"); (StatusBadRequest, "Bad Request");
     (StatusNotFound, "ICAP Service not found"); (StatusMethodNotAllowed, "Method not allowed");
     (StatusInternalServerError, "Server error"); (StatusNotImplemented, "Not implemented");
     (StatusBadGateway, "Bad Gateway"); (StatusServiceUnavailable, "Service overloaded");
     (StatusVersionNotSupported, "ICAP version not supported")]).

(** [http.StatusText] of the standard library. *)
Definition http_StatusText (code : Z) : string :=
  default "" (status_lookup code
    [(100, "Continue"); (101, "Switching Protocols"); (102, "Processing"); (103, "Early Hints");
     (200, "OK"); (201, "Created"); (202, "Accepted"); (203, "Non-Authoritative Information");
     (204, "No Content"); (205, "Reset Content"); (206, "Partial Content"); (207, "Multi-Status");
     (208, "Already Reported"); (226, "IM Used");
     (300, "Multiple Choices"); (301, "Moved Permanently"); (302, "Found"); (303, "See Other");
     (304, "Not Modified"); (305, "Use Proxy"); (307, "Temporary Redirect"); (308, "Permanent Redirect");
     (400, "Bad Request"); (401, "Unauthorized"); (402, "Payment Required"); (403, "Forbidden");
     (404, "Not Found"); (405, "Method Not Allowed"); (406, "Not Acceptable");
     (407, "Proxy Authentication Required"); (408, "Request Timeout"); (409, "Conflict"); (410, "Gone");
     (411, "Length Required"); (412, "Precondition Failed"); (413, "Request Entity Too Large");
     (414, "Request URI Too Long"); (415, "Unsupported Media Type");
     (416, "Requested Range Not Satisfiable"); (417, "Expectation Failed"); (418, "I'm a teapot");
     (421, "Misdirected Request"); (422, "Unprocessable Entity"); (423, "Locked");
     (424, "Failed Dependency"); (425, "Too Early"); (426, "Upgrade Required");
     (428, "Precondition Required"); (429, "Too Many Requests");
     (431, "Request Header Fields Too Large"); (451, "Unavailable For Legal Reasons");
     (500, "Internal Server Error"); (501, "Not Implemented"); (502, "Bad Gateway");
     (503, "Service Unavailable"); (504, "Gateway Timeout"); (505, "HTTP Version Not Supported");
     (506, "Variant Also Negotiates"); (507, "Insufficient Storage"); (508, "Loop Detected");
     (510, "Not Extended"); (511, "Network Authentication Required")]).

Section Responses.
Context {P R : Type}.

(** ** Data *)

Record HTTPMessage := {
  m_Method : string; m_URI : string; m_Status : string; m_StatusText : string; m_Proto : string;
  m_Header : Header; m_Body : list ascii; m_BodyStream : option (BodyStream P R)
}.

Record Response := {
  rs_Header : Header; rs_HTTPRequest : option HTTPMessage; rs_HTTPResponse : option HTTPMessage;
  rs_Proto : string; rs_Body : list ascii; rs_StatusCode : Z; rs_closeAfterWrite : bool
}.

Definition NewResponse (statusCode : Z) : Response :=
  {| rs_Header := NewHeader; rs_HTTPRequest := None; rs_HTTPResponse := None; rs_Proto := Version;
     rs_Body := []; rs_StatusCode := statusCode; rs_closeAfterWrite := false |}.

Definition SetHeader (key value : string) (r : Response) : Response :=
  {| rs_Header := Set_ (rs_Header r) key value; rs_HTTPRequest := rs_HTTPRequest r;
     rs_HTTPResponse := rs_HTTPResponse r; rs_Proto := rs_Proto r; rs_Body := rs_Body r;
     rs_StatusCode := rs_StatusCode r; rs_closeAfterWrite := rs_closeAfterWrite r |}.

Definition GetHeader (r : Response) (key : string) : option string := Get (rs_Header r) key.

Definition SetBody (body : list ascii) (r : Response) : Response :=
  {| rs_Header := rs_Header r; rs_HTTPRequest := rs_HTTPRequest r;
     rs_HTTPResponse := rs_HTTPResponse r; rs_Proto := rs_Proto r; rs_Body := body;
     rs_StatusCode := rs_StatusCode r; rs_closeAfterWrite := rs_closeAfterWrite r |}.

Definition SetHTTPRequest (m : option HTTPMessage) (r : Response) : Response :=
  {| rs_Header := rs_Header r; rs_HTTPRequest := m;
     rs_HTTPResponse := rs_HTTPResponse r; rs_Proto := rs_Proto r; rs_Body := rs_Body r;
     rs_StatusCode := rs_StatusCode r; rs_closeAfterWrite := rs_closeAfterWrite r |}.

Definition SetHTTPResponse (m : option HTTPMessage) (r : Response) : Response :=
  {| rs_Header := rs_Header r; rs_HTTPRequest := rs_HTTPRequest r;
     rs_HTTPResponse := m; rs_Proto := rs_Proto r; rs_Body := rs_Body r;
     rs_StatusCode := rs_StatusCode r; rs_closeAfterWrite := rs_closeAfterWrite r |}.

Definition MarkCloseAfterWrite (r : Response) : Response :=
  {| rs_Header := rs_Header r; rs_HTTPRequest := rs_HTTPRequest r;
     rs_HTTPResponse := rs_HTTPResponse r; rs_Proto := rs_Proto r; rs_Body := rs_Body r;
     rs_StatusCode := rs_StatusCode r; rs_closeAfterWrite := true |}.

Definition CloseAfterWrite (r : option Response) : bool :=
  match r with Some r => rs_closeAfterWrite r | None => false end.

Definition IsError (r : Response) : bool := 400 <=? rs_StatusCode r.

Definition NewResponseError (statusCode : Z) (message : string) : Response :=
  let body := bytes_of message in
  let statusText := http_StatusText statusCode in
  let statusText := if bool_decide (statusText = "") then StatusText statusCode else statusText in
  let header := Set_ (Set_ NewHeader "Content-Type" "text/plain; charset=utf-8")
                     "Content-Length" (FormatInt 10 (Z.of_nat (length body))) in
  SetHTTPResponse
    (Some {| m_Method := ""; m_URI := ""; m_Status := FormatInt 10 statusCode; m_StatusText := statusText;
             m_Proto := "HTTP/1.1"; m_Header := header; m_Body := body; m_BodyStream := None |})
    (NewResponse statusCode).

Definition NewOptionsResponse (istag : string) (methods : list string) (maxConnections optionsTTL : Z) : Response :=
  let r := NewResponse StatusOK in
  let r := SetHeader "Methods" (join_str ", " methods) r in
  let r := SetHeader "Service" "ICAP-Mock-Server/1.0" r in
  let r := SetHeader "ISTag" istag r in
  let r := SetHeader "Max-Connections" (FormatInt 10 maxConnections) r in
  let r := SetHeader "Options-TTL" (FormatInt 10 optionsTTL) r in
  SetHeader "Allow" "204" r.

(** Maps and bodies are copied; a stream without a payload cannot be shared. *)
Definition cloneHTTPMessage (m : HTTPMessage) : HTTPMessage :=
  {| m_Method := m_Method m; m_URI := m_URI m; m_Status := m_Status m; m_StatusText := m_StatusText m;
     m_Proto := m_Proto m; m_Header := m_Header m; m_Body := m_Body m;
     m_BodyStream := StreamDelivery.Clone <$> m_BodyStream m |}.

Definition Clone (r : Response) : Response :=
  {| rs_Header := rs_Header r; rs_HTTPRequest := cloneHTTPMessage <$> rs_HTTPRequest r;
     rs_HTTPResponse := cloneHTTPMessage <$> rs_HTTPResponse r; rs_Proto := rs_Proto r;
     rs_Body := rs_Body r; rs_StatusCode := rs_StatusCode r; rs_closeAfterWrite := rs_closeAfterWrite r |}.

(** ** The Encapsulated header *)

Definition hasHTTPMessageBody (m : HTTPMessage) : bool :=
  (0 <? length (m_Body m))%nat || bool_decide (is_Some (m_BodyStream m)).

Definition strlen (s : string) : Z := Z.of_nat (String.length s).

Definition calculateHTTPMessageSize (m : HTTPMessage) (isRequest : bool) : Z :=
  let size :=
    if isRequest then strlen (m_Method m) + 1 + strlen (m_URI m) + 1 + strlen (m_Proto m) + 2
    else strlen (m_Proto m) + 1 + strlen (m_Status m) + 1 + strlen (m_StatusText m) + 2 in
  let size := Walk (m_Header m) (λ size key value, (true, size + (strlen key + 2 + strlen value + 2))) size in
  size + 2.

Definition chunkedEncodedSize (bodySize : Z) : Z :=
  strlen (FormatInt 16 bodySize) + bodySize + strlen (crlf +:+ crlf +:+ "0" +:+ crlf +:+ crlf).

Definition calculateHTTPMessageBodySize (m : HTTPMessage) : Z :=
  if (0 <? length (m_Body m))%nat then chunkedEncodedSize (Z.of_nat (length (m_Body m))) else 0.

(** The parts with their offsets, the offset reached and whether the last section
    has a body. *)
Definition encapRequest (r : Response) : list (string * Z) * Z * bool :=
  match rs_HTTPRequest r with
  | None => ([], 0, false)
  | Some m =>
      let parts := [("req-hdr", 0)] in
      let offset := 0 + calculateHTTPMessageSize m true in
      if hasHTTPMessageBody m then
        (parts ++ [("req-body", offset)], offset + calculateHTTPMessageBodySize m, true)
      else (parts, offset, false)
  end.

Definition encapResponse (r : Response) : list (string * Z) * Z * bool :=
  let '(parts, offset, finalSectionHasBody) := encapRequest r in
  match rs_HTTPResponse r with
  | None => (parts, offset, finalSectionHasBody)
  | Some m =>
      let parts := parts ++ [("res-hdr", offset)] in
      let offset := offset + calculateHTTPMessageSize m false in
      if hasHTTPMessageBody m then (parts ++ [("res-body", offset)], offset, true)
      else (parts, offset, false)
  end.

Definition encapParts (r : Response) : list (string * Z) :=
  let '(parts, offset, finalSectionHasBody) := encapResponse r in
  if negb finalSectionHasBody && (length (rs_Body r) =? 0)%nat then
    match parts with
    | [] => [("null-body", 0)]
    | _ => parts ++ [("null-body", offset)]
    end
  else parts.

Definition BuildEncapsulatedHeader (r : Response) : string :=
  join_str ", " (map (λ kv, kv.1 +:+ "=" +:+ FormatInt 10 kv.2) (encapParts r)).

(** ** Into a buffer *)

Definition writeHTTPMessageHead (buf : string) (m : HTTPMessage) (isRequest : bool) : string :=
  let buf :=
    if isRequest then
      buf +:+ m_Method m +:+ " " +:+ m_URI m +:+ " " +:+ m_Proto m +:+ crlf
    else
      buf +:+ m_Proto m +:+ " " +:+ m_Status m +:+ " " +:+ m_StatusText m +:+ crlf in
  let buf := WriteToBuffer (m_Header m) buf in
  buf +:+ crlf.

Definition writeEnvelopeToBuffer (buf : string) (r : Response) : string :=
  let proto := if bool_decide (rs_Proto r = "") then Version else rs_Proto r in
  let buf := buf +:+ proto +:+ " " +:+ FormatInt 10 (rs_StatusCode r) +:+ " " in
  let buf := buf +:+ StatusText (rs_StatusCode r) +:+ crlf in
  let buf := WriteToBuffer (rs_Header r) buf in
  let encap := BuildEncapsulatedHeader r in
  let buf := if bool_decide (encap = "") then buf else buf +:+ "Encapsulated: " +:+ encap +:+ crlf in
  buf +:+ crlf.

(** A [bytes.Buffer] takes all that is written to it. *)
Definition writeHTTPMessage (buf : string) (m : HTTPMessage) (isRequest : bool) : string :=
  let buf := writeHTTPMessageHead buf m isRequest in
  if (0 <? length (m_Body m))%nat then
    let '(_, s) := WriteChunkedBody sink_write {| out := bytes_of buf; room := None |} (m_Body m) in
    string_of (out s)
  else buf.

Definition writeToBuffer (buf : string) (r : Response) : string :=
  let buf := writeEnvelopeToBuffer buf r in
  let buf := match rs_HTTPRequest r with Some m => writeHTTPMessage buf m true | None => buf end in
  let buf := match rs_HTTPResponse r with Some m => writeHTTPMessage buf m false | None => buf end in
  if (0 <? length (rs_Body r))%nat then buf +:+ string_of (rs_Body r) else buf.

Definition toString (r : Response) : string := writeToBuffer "" r.
End Responses.
Arguments HTTPMessage : clear implicits.
Arguments Response : clear implicits.

(** ** To a connection *)

(** The writer of a response asks the context before every write and flush. *)
Definition contextWriter (env : Environment) : Environment :=
  {| env_now := env_now env; env_cancelled := env_cancelled env; env_sleeps := env_sleeps env;
     env_flushes := env_flushes env; env_guarded := true |}.

Section Direct.
Context {P R : Type} `{Payload P R, Reader R, Closer R}.
Context (env : Environment).

(** The world of a delivery, with nothing to read from. *)
Notation World := (World unit).
Notation D := (D (R := unit)).
Notation "'do!' x := m 'in' k" := (dbind m (λ x, k)) (at level 10, x pattern, m at level 100, k at level 200).

(** The buffer is empty afterwards. *)
Definition flushResponseBuffer (buf : string) : D string :=
  if (String.length buf =? 0)%nat then dret buf
  else do! _ := writeAll env (bytes_of buf) in dret "".

(** A response is written once: what the stream is after it is not kept. *)
Definition writeStream (s : BodyStream P R) : D unit := λ w,
  let '(res, n, _, sink, t) := writeToContext env (w_tick w) (w_sink w) s in
  (res, {| w_tick := t; w_reader := tt; w_sink := sink; w_n := w_n w + n |}).

Definition writeHTTPBodyDirect (m : HTTPMessage P R) : D unit :=
  match m_BodyStream m with
  | Some s => writeStream s
  | None =>
      if (0 <? length (m_Body m))%nat then λ w,
        match WriteChunkedBody (countedWrite env) w (m_Body m) with
        | (None, w) => (Ok tt, w)
        | (Some e, w) => (Err (WriteFailed e), w)
        end
      else dret tt
  end.

Definition writeHTTPMessageDirect (buf : string) (m : option (HTTPMessage P R)) (isRequest : bool) : D string :=
  match m with
  | None => dret buf
  | Some m =>
      let buf := writeHTTPMessageHead buf m isRequest in
      do! buf := flushResponseBuffer buf in
      do! _ := writeHTTPBodyDirect m in
      dret buf
  end.

Definition writeICAPBodyDirect (r : Response P R) : D unit :=
  if (length (rs_Body r) =? 0)%nat then dret tt else writeAll env (rs_Body r).

Definition writeResponseParts (r : Response P R) : D unit :=
  let buf := writeEnvelopeToBuffer "" r in
  do! buf := flushResponseBuffer buf in
  do! buf := writeHTTPMessageDirect buf (rs_HTTPRequest r) true in
  do! _ := writeHTTPMessageDirect buf (rs_HTTPResponse r) false in
  writeICAPBodyDirect r.

(** [validateResponseWriter] of a writer that is not nil. *)
Definition validateResponseWriter : D unit := ctxErr env.
End Direct.

(** [WriteToContext]: the number of bytes written with the error, the writer and
    the time. *)
Definition writeDirectToContext {P R} `{Payload P R, Reader R, Closer R} (env : Environment) (tick0 : nat) (sink : Sink)
  (r : Response P R) : result DeliveryError unit * Z * Sink * nat :=
  let w := {| w_tick := tick0; w_reader := tt; w_sink := sink; w_n := 0 |} in
  let '(res, w) :=
    dbind (validateResponseWriter env) (λ _,
      let env := contextWriter env in
      dbind (writeResponseParts env r) (λ _, flushContext env)) w in
  (res, w_n w, w_sink w, w_tick w).

(** ** What a response looks like on the wire *)

Section Spec.
Context {P R : Type} `{HP : Payload P R, HL : ReaderLaws R, HC : !Closer R, HCC : !CleanCloser R}.

Definition head_of (m : HTTPMessage P R) (isRequest : bool) : list ascii := bytes_of (writeHTTPMessageHead "" m isRequest).

Definition envelope (r : Response P R) : list ascii := bytes_of (writeEnvelopeToBuffer "" r).

(** The whole of a body in chunks. *)
Definition chunked (body : list ascii) : list ascii :=
  match body with [] => [] | _ => enc_chunk body ++ last_chunk end.

(** The bytes [d] of the body of [m]: of a stream, the chunks of a delivery. *)
Definition body_output (m : HTTPMessage P R) (d : list ascii) : Prop :=
  match m_BodyStream m with
  | None => d = chunked (m_Body m)
  | Some s => ∃ bs j, streams s bs ∧
      d = encode (take j (planned_chunks (bs_Plan s) bs)) ++ stream_end (bs_Plan s) ∧
      (partial (bs_Plan s) = false → take j (planned_chunks (bs_Plan s) bs) = planned_chunks (bs_Plan s) bs)
  end.

(** The sections of an embedded message by the names they are advertised with. *)
Definition sections_of (hdr body : string) (isRequest : bool) (m : option (HTTPMessage P R)) (d : list ascii) : list (string * list ascii) :=
  match m with
  | None => []
  | Some m => (hdr, head_of m isRequest) :: if hasHTTPMessageBody m then [(body, d)] else []
  end.

Definition sections (r : Response P R) (dq ds : list ascii) : list (string * list ascii) :=
  sections_of "req-hdr" "req-body" true (rs_HTTPRequest r) dq ++
  sections_of "res-hdr" "res-body" false (rs_HTTPResponse r) ds.

Definition message_output (m : option (HTTPMessage P R)) (d : list ascii) : Prop :=
  match m with Some m => body_output m d | None => d = [] end.

(** [d] is a whole response on the wire. *)
Definition outputs (r : Response P R) (d : list ascii) : Prop :=
  ∃ dq ds, message_output (rs_HTTPRequest r) dq ∧ message_output (rs_HTTPResponse r) ds ∧
    d = envelope r ++ concat (map snd (sections r dq ds)) ++ rs_Body r.

(** A message has one body, and a request section that is followed by a response
    section does not stream it. *)
Definition message_ok (m : HTTPMessage P R) : Prop := m_BodyStream m = None ∨ m_Body m = [].

Record response_ok (r : Response P R) : Prop := {
  ro_request : ∀ m, rs_HTTPRequest r = Some m → message_ok m;
  ro_response : ∀ m, rs_HTTPResponse r = Some m → message_ok m;
  ro_streamed : ∀ m, rs_HTTPRequest r = Some m → is_Some (rs_HTTPResponse r) → m_BodyStream m = None
}.

(** Where consecutive sections begin. *)
Fixpoint offsets (o : Z) (ss : list (string * list ascii)) : list (string * Z) :=
  match ss with
  | [] => []
  | (k, d) :: ss => (k, o) :: offsets (o + Z.of_nat (length d)) ss
  end.

(** Cutting a payload at offsets, as the receiver of a response does. *)
Fixpoint cut_at (kvs : list (string * Z)) (payload : list ascii) : list (string * list ascii) :=
  match kvs with
  | [] => []
  | [(k, o)] => [(k, drop (Z.to_nat o) payload)]
  | (k, o) :: (((_, o') :: _) as kvs) =>
      (k, take (Z.to_nat (o' - o)) (drop (Z.to_nat o) payload)) :: cut_at kvs payload
  end.

(** ** Heads and sizes *)

Lemma strlen_app a b : strlen (a +:+ b) = strlen a + strlen b.
Proof using. unfold strlen. rewrite str_length_app. lia. Qed.

Lemma strlen_bytes s : Z.of_nat (length (bytes_of s)) = strlen s.
Proof using. by rewrite length_bytes_of. Qed.

Lemma WriteToBuffer_app h buf : WriteToBuffer h buf = buf +:+ WriteToBuffer h "".
Proof using. unfold WriteToBuffer. rewrite !write_lines. done. Qed.

Lemma head_app buf (m : HTTPMessage P R) b : writeHTTPMessageHead buf m b = buf +:+ writeHTTPMessageHead "" m b.
Proof using.
  unfold writeHTTPMessageHead. cbv zeta. rewrite (WriteToBuffer_app _ (if b then _ else _)).
  rewrite (WriteToBuffer_app _ (if b then "" +:+ _ else _)). destruct b; by rewrite !str_app_assoc.
Qed.

Lemma header_lines_length (l : list (string * string)) buf n :
  strlen buf = n →
  strlen (foldl (λ buf kv, buf +:+ header_line kv.1 kv.2) buf l) =
  foldl (λ size kv, size + (strlen kv.1 + 2 + strlen kv.2 + 2)) n l.
Proof using.
  revert buf n. induction l as [|[k v] l IH]; intros buf n Hn; [done|]. cbn [foldl fst snd].
  apply IH. unfold header_line. rewrite !strlen_app, Hn. change (strlen ": ") with 2. change (strlen crlf) with 2. lia.
Qed.

(** The advertised size of a head is the number of bytes written for it. *)
Lemma head_size (m : HTTPMessage P R) b : Z.of_nat (length (head_of m b)) = calculateHTTPMessageSize m b.
Proof using.
  unfold head_of, calculateHTTPMessageSize, writeHTTPMessageHead, Walk, WriteToBuffer. cbv zeta.
  rewrite strlen_bytes, strlen_app, walk_all. change (strlen crlf) with 2. f_equal. apply header_lines_length.
  destruct b; rewrite !strlen_app; change (strlen " ") with 1; change (strlen crlf) with 2; change (strlen "") with 0; lia.
Qed.

Lemma chunked_size body : body ≠ [] → Z.of_nat (length (chunked body)) = chunkedEncodedSize (Z.of_nat (length body)).
Proof using.
  intros Hb. destruct body as [|c body]; [done|]. unfold chunked, chunkedEncodedSize, enc_chunk, chunk_header.
  rewrite !length_app, length_bytes_of. change (strlen (crlf +:+ crlf +:+ "0" +:+ crlf +:+ crlf)) with 9.
  unfold strlen. cbn [length last_chunk]. lia.
Qed.

Lemma chunked_buffer buf (m : HTTPMessage P R) b :
  m_BodyStream m = None → bytes_of (writeHTTPMessage buf m b) = bytes_of buf ++ head_of m b ++ chunked (m_Body m).
Proof using.
  intros Hs. unfold writeHTTPMessage. rewrite head_app. cbv zeta. destruct (m_Body m) as [|c body] eqn:Eb.
  - cbn. rewrite app_nil_r. apply bytes_of_app.
  - cbn [length Nat.ltb Nat.leb]. pose proof (WriteChunkedBody_spec (c :: body) {| out := bytes_of (buf +:+ writeHTTPMessageHead "" m b); room := None |}) as [Ho _].
    destruct (WriteChunkedBody _ _ _) as [e w]. cbn [snd out] in Ho. rewrite Ho, bytes_of_string. cbn [taken room].
    by rewrite bytes_of_app, <- app_assoc.
Qed.

(** ** Sections *)

Lemma offsets_app o (ss1 ss2 : list (string * list ascii)) :
  offsets o (ss1 ++ ss2) = offsets o ss1 ++ offsets (o + Z.of_nat (length (concat (map snd ss1)))) ss2.
Proof using.
  revert o. induction ss1 as [|[k d] ss1 IH]; intros o; [cbn; by rewrite Z.add_0_r|].
  cbn [app offsets map concat snd]. rewrite IH, length_app. do 3 f_equal. lia.
Qed.

Lemma cut_offsets (ss : list (string * list ascii)) pre :
  cut_at (offsets (Z.of_nat (length pre)) ss) (pre ++ concat (map snd ss)) = ss.
Proof using.
  revert pre. induction ss as [|[k d] ss IH]; intros pre; [done|]. cbn [offsets map concat snd].
  specialize (IH (pre ++ d)). rewrite length_app, Nat2Z.inj_add, <- app_assoc in IH.
  destruct ss as [|[k' d'] ss]; cbn [offsets cut_at] in *.
  - cbn. by rewrite app_nil_r, Nat2Z.id, drop_app_length.
  - rewrite IH. replace (_ + _ - _) with (Z.of_nat (length d)) by lia. by rewrite !Nat2Z.id, drop_app_length, take_app_length.
Qed.

(** The mark of a payload whose last section has no body. *)
Definition has_body (m : option (HTTPMessage P R)) : bool := match m with Some m => hasHTTPMessageBody m | None => false end.

Definition final (r : Response P R) : option (HTTPMessage P R) :=
  match rs_HTTPResponse r with Some m => Some m | None => rs_HTTPRequest r end.

Definition advertised (r : Response P R) (dq ds : list ascii) : list (string * list ascii) :=
  sections r dq ds ++ if has_body (final r) then [] else [("null-body", [])].

Lemma section_length hdr body b (m : HTTPMessage P R) d :
  Z.of_nat (length (concat (map snd (sections_of hdr body b (Some m) d)))) =
  calculateHTTPMessageSize m b + (if hasHTTPMessageBody m then Z.of_nat (length d) else 0).
Proof using.
  cbn. rewrite length_app, Nat2Z.inj_add, head_size. destruct (hasHTTPMessageBody m); cbn; rewrite ?app_nil_r; lia.
Qed.

Lemma offsets_section o hdr body b (m : HTTPMessage P R) d :
  offsets o (sections_of hdr body b (Some m) d) =
  (hdr, o) :: if hasHTTPMessageBody m then [(body, o + calculateHTTPMessageSize m b)] else [].
Proof using. cbn. rewrite head_size. by destruct (hasHTTPMessageBody m). Qed.

Lemma body_size (m : HTTPMessage P R) d :
  m_BodyStream m = None → body_output m d →
  calculateHTTPMessageBodySize m = if hasHTTPMessageBody m then Z.of_nat (length d) else 0.
Proof using.
  unfold body_output, calculateHTTPMessageBodySize, hasHTTPMessageBody. intros -> ->.
  rewrite bool_decide_false by (by intros [? ?]). rewrite orb_false_r.
  destruct (m_Body m) as [|c b] eqn:E; [done|]. symmetry. by apply chunked_size.
Qed.

Lemma encapParts_offsets r dq ds :
  response_ok r → rs_Body r = [] → message_output (rs_HTTPRequest r) dq →
  encapParts r = offsets 0 (advertised r dq ds).
Proof using.
  intros Hr Hb Hq. unfold encapParts, encapResponse, encapRequest, advertised, sections, final. rewrite Hb.
  destruct (rs_HTTPRequest r) as [q|] eqn:Eq, (rs_HTTPResponse r) as [m|] eqn:Em; cbn [has_body].
  - rewrite <- app_assoc, offsets_app, section_length, offsets_section.
    cbn [message_output] in Hq. assert (Hs : m_BodyStream q = None) by (eapply ro_streamed; [done|done|by rewrite Em]).
    pose proof (body_size q dq Hs Hq) as Hsz. rewrite offsets_app, section_length, offsets_section.
    destruct (hasHTTPMessageBody q), (hasHTTPMessageBody m); cbn [app negb andb offsets map concat snd length Nat.eqb]; repeat first [lia | reflexivity | f_equal].
  - change (sections_of "res-hdr" "res-body" false None ds) with (@nil (string * list ascii)). rewrite app_nil_r, offsets_app, section_length, offsets_section.
    destruct (hasHTTPMessageBody q); cbn [app negb andb offsets map concat snd length Nat.eqb]; repeat first [lia | reflexivity | f_equal].
  - change (sections_of "req-hdr" "req-body" true None dq) with (@nil (string * list ascii)). cbn [app]. rewrite offsets_app, section_length, offsets_section.
    destruct (hasHTTPMessageBody m); cbn [app negb andb offsets map concat snd length Nat.eqb]; repeat first [lia | reflexivity | f_equal].
  - done.
Qed.

Lemma encap_text_join kvs : join_str ", " (map (λ kv, kv.1 +:+ "=" +:+ FormatInt 10 kv.2) kvs) = encap_text kvs.
Proof using.
  change (join_str ", " (map encap_part kvs) = encap_text kvs).
  induction kvs as [|kv [|kv' kvs] IH]; [done|done|]. rewrite encap_text_cons, <- IH by done. done.
Qed.

Lemma offsets_ok o (ss : list (string * list ascii)) :
  0 ≤ o → o + Z.of_nat (length (concat (map snd ss))) ≤ max_int64 → Forall (λ s, s.1 ∈ encap_keys) ss →
  Forall encap_pair_ok (offsets o ss).
Proof using.
  intros Ho Hl Hk. revert o Ho Hl. induction Hk as [|[k d] ss Hk _ IH]; intros o Ho Hl; [constructor|].
  cbn [map concat snd] in Hl. rewrite length_app in Hl. constructor; [split; cbn in *; [done|lia]|]. apply IH; lia.
Qed.

Lemma advertised_keys r dq ds : Forall (λ s, s.1 ∈ encap_keys) (advertised r dq ds).
Proof using.
  unfold advertised, sections, sections_of. apply Forall_app. split; [apply Forall_app; split|].
  - destruct (rs_HTTPRequest r) as [m|]; [|done]. constructor; [by apply (bool_decide_unpack _)|].
    destruct (hasHTTPMessageBody m); repeat constructor; by apply (bool_decide_unpack _).
  - destruct (rs_HTTPResponse r) as [m|]; [|done]. constructor; [by apply (bool_decide_unpack _)|].
    destruct (hasHTTPMessageBody m); repeat constructor; by apply (bool_decide_unpack _).
  - destruct (has_body _); repeat constructor; by apply (bool_decide_unpack _).
Qed.

(** ** The receiver *)

Lemma advertised_nonempty r dq ds : offsets 0 (advertised r dq ds) ≠ [].
Proof using.
  unfold advertised, sections, final. by destruct (rs_HTTPRequest r), (rs_HTTPResponse r).
Qed.

(** What the receiver of a response takes from the bytes after its header: the
    head and the body of the last message, and what is left on the connection. *)
Definition receive (ending : ReadError) (sizes : nat → nat) (e : Encapsulated) (input : list ascii)
  : option (list ascii * list ascii * list ascii) :=
  let '(hdr, body) := if ResHdr e =? encapNotSet then (ReqHdr e, ReqBody e) else (ResHdr e, ResBody e) in
  let section o o' := take (Z.to_nat (o' - o)) (drop (Z.to_nat o) input) in
  if body =? encapNotSet then
    if NullBody e =? encapNotSet then None
    else Some (section hdr (NullBody e), [], drop (Z.to_nat (NullBody e)) input)
  else
    match ReadChunkedBody ending sizes (drop (Z.to_nat body) input) with
    | Some (b, None, _, rest) => Some (section hdr body, b, rest)
    | _ => None
    end.

Definition parsed (r : Response P R) (dq ds : list ascii) : Encapsulated :=
  foldl (λ e kv, set_offset kv.1 kv.2 e) NewEncapsulated (offsets 0 (advertised r dq ds)).

Lemma advertised_payload r dq ds : concat (map snd (advertised r dq ds)) = concat (map snd (sections r dq ds)).
Proof using. unfold advertised. rewrite map_app, concat_app. destruct (has_body _); cbn; by rewrite ?app_nil_r. Qed.

Lemma advertised_parsed r dq ds :
  response_ok r → rs_Body r = [] → message_output (rs_HTTPRequest r) dq →
  Z.of_nat (length (concat (map snd (sections r dq ds)))) ≤ max_int64 →
  ParseEncapsulatedHeader (BuildEncapsulatedHeader r) = Ok (parsed r dq ds).
Proof using.
  intros Hr Hb Hq Hl. unfold BuildEncapsulatedHeader, ParseEncapsulatedHeader.
  rewrite (encapParts_offsets r dq ds Hr Hb Hq), encap_text_join.
  apply (parse_encap_text _ NewEncapsulated) with (pre := ""); [|apply advertised_nonempty|by left].
  apply offsets_ok; [done|by rewrite advertised_payload|apply advertised_keys].
Qed.

Definition is_request (r : Response P R) : bool := negb (bool_decide (is_Some (rs_HTTPResponse r))).

Definition final_body (r : Response P R) (dq ds : list ascii) : list ascii := if is_request r then dq else ds.

(** The last message lies where the parsed header says. *)
Lemma final_located r dq ds m :
  final r = Some m →
  let e := parsed r dq ds in
  ∃ pre, concat (map snd (advertised r dq ds)) =
         pre ++ head_of m (is_request r) ++ (if hasHTTPMessageBody m then final_body r dq ds else []) ∧
    let hdr := Z.of_nat (length pre) in
    let body := hdr + Z.of_nat (length (head_of m (is_request r))) in
    (if ResHdr e =? encapNotSet then (ReqHdr e, ReqBody e) else (ResHdr e, ResBody e)) =
      (hdr, if hasHTTPMessageBody m then body else encapNotSet) ∧
    (hasHTTPMessageBody m = false → NullBody e = body).
Proof using.
  unfold parsed, final_body, is_request, advertised, sections, final. intros Hm. cbv zeta.
  destruct (rs_HTTPResponse r) as [m'|].
  - injection Hm as ->. rewrite bool_decide_true by done. cbn [negb has_body].
    exists (concat (map snd (sections_of "req-hdr" "req-body" true (rs_HTTPRequest r) dq))).
    set (pre := sections_of _ _ true _ dq). rewrite <- app_assoc, offsets_app, map_app, concat_app, foldl_app.
    set (e0 := foldl _ _ (offsets 0 pre)). set (o := Z.of_nat (length (concat (map snd pre)))). rewrite Z.add_0_l.
    assert (Ho : 0 ≤ o) by (unfold o; lia).
    assert (He0 : ResBody e0 = encapNotSet).
    { unfold e0, pre. destruct (rs_HTTPRequest r) as [q|]; [|done]. unfold sections_of. by destruct (hasHTTPMessageBody q). }
    clearbody e0 o pre. change encapNotSet with (-1) in *. unfold sections_of. destruct (hasHTTPMessageBody m); cbn [app map snd concat offsets foldl fst];
      rewrite ?app_nil_r; split_and!; try done.
    + cbn. by destruct o.
    + destruct e0. cbn in He0 |- *. subst. by destruct o.
  - subst. rewrite bool_decide_false by (by intros [? ?]). cbn [negb has_body]. rewrite Hm. cbn [has_body]. exists [].
    unfold sections_of. destruct (hasHTTPMessageBody m); cbn; rewrite ?app_nil_r; split_and!; done.
Qed.
End Spec.

(** ** Writing to a connection *)

Section Direct_spec.
Context {P R : Type} `{HP : Payload P R, HL : ReaderLaws R, HC : !Closer R, HCC : !CleanCloser R}.
Context (env : Environment).

Notation World := (World unit).
Notation D := (D (R := unit)).

(** [m] writes one of the outputs [O], or a prefix of one and then fails, because
    something was not healthy. *)
Definition writes {A} (m : D A) (w : World) (Post : A → Prop) (O : list ascii → Prop) : Prop :=
  match m w with
  | (Ok a, w') => ∃ d, wrote w w' d ∧ O d ∧ Post a
  | (Err _, w') => (∃ d o, wrote w w' d ∧ d `prefix_of` o ∧ O o) ∧ ¬ healthy env w
  end.

Definition then_output (O1 O2 : list ascii → Prop) (d : list ascii) : Prop := ∃ d1 d2, d = d1 ++ d2 ∧ O1 d1 ∧ O2 d2.

Lemma writes_bind {A B} (m : D A) (k : A → D B) w P1 Q O1 O2 :
  writes m w P1 O1 → (∃ d, O2 d) → (∀ a w1, P1 a → writes (k a) w1 Q O2) →
  writes (dbind m k) w Q (then_output O1 O2).
Proof using.
  intros Hm [d0 Hd0] Hk. unfold writes, dbind in *. destruct (m w) as [[a|e] w1].
  - destruct Hm as (d & Hd & HO & Ha). specialize (Hk a w1 Ha). destruct (k a w1) as [[b|e] w2].
    + destruct Hk as (d2 & Hd2 & HO2 & Hb). exists (d ++ d2). split_and!; [by eapply wrote_trans|by exists d, d2|done].
    + destruct Hk as [(d2 & o & Hd2 & Hpre & HO2) Hh]. split; [|intros Hw; apply Hh; exact (healthy_wrote _ _ _ _ Hd Hw)].
      exists (d ++ d2), (d ++ o). split; [by eapply wrote_trans|]. split; [by apply prefix_app|by exists d, o].
  - destruct Hm as [(d & o & Hd & Hpre & HO) Hh]. split; [|done]. exists d, (o ++ d0).
    split; [done|]. split; [by apply prefix_app_r|by exists o, d0].
Qed.

Lemma writes_weaken {A} (m : D A) w (P1 P2 : A → Prop) (O1 O2 : list ascii → Prop) :
  writes m w P1 O1 → (∀ a, P1 a → P2 a) → (∀ d, O1 d → O2 d) → writes m w P2 O2.
Proof using.
  intros Hm HP12 HO. unfold writes in *. destruct (m w) as [[a|e] w1]; [|naive_solver].
  destruct Hm as (d & Hd & Hod & Ha). exists d. auto.
Qed.

Lemma writes_ret {A} (a : A) w (Q : A → Prop) : Q a → writes (dret a) w Q (eq []).
Proof using. intros HQ. exists []. split; [by apply wrote_nil|done]. Qed.

Lemma writes_runs {A} (m : D A) w Post W (Q : A → Prop) :
  runs env m w Post W → (∀ a d w', Post a d w' → d = W ∧ Q a) → writes m w Q (eq W).
Proof using.
  intros Hm HQ. unfold runs, writes in *. destruct (m w) as [[a|e] w1].
  - destruct Hm as (d & Hd & Hp). apply HQ in Hp as [-> Ha]. by exists W.
  - destruct Hm as [(d & Hpre & Hd) Hh]. split; [|done]. by exists d, W.
Qed.

Lemma writes_bind_eq {A B} (m : D A) (k : A → D B) w P1 Q a b :
  writes m w P1 (eq a) → (∀ x w1, P1 x → writes (k x) w1 Q (eq b)) → writes (dbind m k) w Q (eq (a ++ b)).
Proof using.
  intros Hm Hk. eapply writes_weaken; [apply (writes_bind _ _ _ _ _ _ _ Hm (ex_intro _ b eq_refl) Hk)|done|].
  by intros d (d1 & d2 & -> & <- & <-).
Qed.

Lemma flushResponseBuffer_spec buf w :
  writes (flushResponseBuffer env buf) w (λ b, b = "") (eq (bytes_of buf)).
Proof using.
  unfold flushResponseBuffer. destruct buf as [|c buf]; [by apply writes_ret|]. cbn [String.length Nat.eqb].
  eapply writes_weaken; [apply (writes_bind_eq _ _ _ (λ _, True) (λ b, b = "") (bytes_of (String c buf)) [])|done|].
  - eapply writes_runs; [apply writeAll_spec|]. cbn. by intros _ d w' [-> _].
  - intros _ w1 _. by apply writes_ret.
  - intros d <-. by rewrite app_nil_r.
Qed.

Definition put (p : list ascii) : D unit := λ w,
  match countedWrite env p w with
  | (_, None, w) => (Ok tt, w)
  | (_, Some e, w) => (Err (WriteFailed e), w)
  end.

Lemma put_spec p w : writes (put p) w (λ _, True) (eq p).
Proof using.
  unfold writes, put. pose proof (countedWrite_spec env p w) as Hs. destruct (countedWrite env p w) as [[n [e|]] w1].
  - destruct Hs as (_ & d & Hd & _ & Hpre & Hh). split; [|done]. by exists d, p.
  - destruct Hs as (_ & d & Hd & _ & ->). by exists p.
Qed.

Lemma puts_spec ps w :
  writes (foldr (λ p k, dbind (put p) (λ _, k)) (dret tt) ps) w (λ _, True) (eq (concat ps)).
Proof using.
  revert w. induction ps as [|p ps IH]; intros w; [by apply writes_ret|].
  apply (writes_bind_eq _ _ _ _ _ _ _ (put_spec p w)). intros _ w1 _. apply IH.
Qed.

Lemma body_puts data w :
  data ≠ [] →
  match WriteChunkedBody (countedWrite env) w data with
  | (None, w) => (Ok tt, w)
  | (Some e, w) => (Err (WriteFailed e), w)
  end =
  foldr (λ p k, dbind (put p) (λ _, k)) (dret tt) [chunk_header data; data; [CR; LF]; last_chunk] w.
Proof using.
  intros Hd. unfold WriteChunkedBody, Write, Close, NewChunkedWriter, dbind, put. cbn [closed cw_w foldr].
  rewrite (proj2 (Nat.eqb_neq (length data) 0)) by by destruct data.
  destruct (countedWrite env (chunk_header data) w) as [[n1 [e|]] w1]; [done|].
  destruct (countedWrite env data w1) as [[n2 [e|]] w2]; [done|].
  destruct (countedWrite env [CR; LF] w2) as [[n3 [e|]] w3]; [done|]. cbn [closed cw_w with_w].
  by destruct (countedWrite env last_chunk w3) as [[n4 [e|]] w4].
Qed.

Lemma stream_outputs (s : BodyStream P R) bs w :
  streams s bs →
  writes (writeStream env s) w (λ _, True) (λ d, ∃ bs j, streams s bs ∧
    d = encode (take j (planned_chunks (bs_Plan s) bs)) ++ stream_end (bs_Plan s) ∧
    (partial (bs_Plan s) = false → take j (planned_chunks (bs_Plan s) bs) = planned_chunks (bs_Plan s) bs)).
Proof using HCC.
  intros Hs. unfold writes, writeStream. pose proof (writeToContext_spec env (w_tick w) (w_sink w) s bs Hs) as (j & d & Hd & Hj & Hres).
  destruct (writeToContext env (w_tick w) (w_sink w) s) as [[[[res n] s'] sink'] t]. cbn [fst] in Hres.
  destruct Hd as (Ho & Hn & Hroom). set (w' := {| w_tick := t; w_reader := tt; w_sink := sink'; w_n := w_n w + n |}).
  assert (Hw : wrote w w' d) by (split_and!; cbn; [done|lia|done]). destruct res as [[]|e].
  - exists d. split; [done|]. split; [|done]. by exists bs, j.
  - destruct Hres as [Hpre Hh]. split; [|exact Hh]. exists d, (encode (take j (planned_chunks (bs_Plan s) bs)) ++ stream_end (bs_Plan s)).
    split_and!; [done|done|]. by exists bs, j.
Qed.

(** A message whose stream can be opened. *)
Definition streamable (m : option (HTTPMessage P R)) : Prop :=
  match m with
  | Some m => match m_BodyStream m with Some s => ∃ bs, streams s bs | None => True end
  | None => True
  end.

Lemma body_outputs (m : HTTPMessage P R) w :
  streamable (Some m) → writes (writeHTTPBodyDirect env m) w (λ _, True) (body_output m).
Proof using HCC.
  unfold streamable, writeHTTPBodyDirect, body_output. destruct (m_BodyStream m) as [s|].
  - intros [bs Hs]. exact (stream_outputs s bs w Hs).
  - intros _. destruct (m_Body m) as [|c body] eqn:E; cbn [length Nat.ltb Nat.leb].
    + eapply writes_weaken; [by apply (writes_ret tt w (λ _, True))|done|]. by intros d <-.
    + rewrite <- E. assert (Hne : m_Body m ≠ []) by by rewrite E.
      unfold writes. rewrite (body_puts _ _ Hne).
      apply (writes_weaken _ _ (λ _, True) _ _ _ (puts_spec _ w)); [done|]. intros d <-.
      unfold chunked, enc_chunk. destruct (m_Body m); [done|]. cbn [concat]. by rewrite app_nil_r, <- !app_assoc.
Qed.

Lemma output_exists m : streamable m → ∃ d, message_output m d.
Proof using.
  destruct m as [m|]; [|by eexists]. cbn. unfold body_output. destruct (m_BodyStream m) as [s|]; [|by eexists].
  intros [bs Hs]. eexists. exists bs, (length (planned_chunks (bs_Plan s) bs)). split; [done|]. split; [reflexivity|].
  intros _. by apply take_ge.
Qed.

(** The bytes of one embedded message with its body. *)
Definition section_output (hdr body : string) (isRequest : bool) (m : option (HTTPMessage P R)) (d : list ascii) : Prop :=
  ∃ db, message_output m db ∧ d = concat (map snd (sections_of hdr body isRequest m db)).

Lemma message_outputs hdr body isRequest m w :
  streamable m →
  writes (writeHTTPMessageDirect env "" m isRequest) w (λ b, b = "") (section_output hdr body isRequest m).
Proof using HCC.
  intros Hm. destruct m as [m|].
  2:{ apply (writes_weaken _ _ (λ b, b = "") _ (eq [])); [by apply writes_ret|done|]. intros d <-. by exists []. }
  pose proof (output_exists (Some m) Hm) as Hex. unfold writeHTTPMessageDirect. cbv zeta.
  eapply writes_weaken; [apply (writes_bind _ _ _ _ (λ b, b = "") _ _ (flushResponseBuffer_spec _ w) Hex)|done|].
  - intros b w1 ->. apply (writes_weaken _ _ (λ b, b = "") _ (then_output (body_output m) (eq [])));
      [eapply writes_bind; [by apply body_outputs|by eexists|intros _ w2 _; by apply writes_ret]|done|].
    intros d (d1 & d2 & -> & Hd1 & <-). by rewrite app_nil_r.
  - intros d (d1 & db & -> & <- & Hdb). exists db. split; [done|]. cbn [sections_of map snd concat]. f_equal.
    cbn in Hdb. unfold body_output in Hdb. unfold hasHTTPMessageBody. destruct (m_BodyStream m) as [s|].
    + rewrite bool_decide_true, orb_true_r by done. cbn. by rewrite app_nil_r.
    + rewrite bool_decide_false by (by intros [? ?]). subst db. destruct (m_Body m); [done|]. cbn [length Nat.ltb Nat.leb orb map concat snd].
      by rewrite app_nil_r.
Qed.

Lemma parts_outputs r w :
  streamable (rs_HTTPRequest r) → streamable (rs_HTTPResponse r) →
  writes (writeResponseParts env r) w (λ _, True) (outputs r).
Proof using HCC.
  intros Hq Hs. unfold writeResponseParts. cbv zeta.
  set (Oq := section_output "req-hdr" "req-body" true (rs_HTTPRequest r)).
  set (Os := section_output "res-hdr" "res-body" false (rs_HTTPResponse r)).
  assert (Eq : ∃ d, Oq d) by (destruct (output_exists _ Hq) as [d Hd]; by exists (concat (map snd (sections_of "req-hdr" "req-body" true (rs_HTTPRequest r) d))), d).
  assert (Es : ∃ d, Os d) by (destruct (output_exists _ Hs) as [d Hd]; by exists (concat (map snd (sections_of "res-hdr" "res-body" false (rs_HTTPResponse r) d))), d).
  assert (Hbody : ∀ w, writes (writeICAPBodyDirect env r) w (λ _, True) (eq (rs_Body r))).
  { intros w'. unfold writeICAPBodyDirect. destruct (rs_Body r) as [|c b] eqn:E; [by apply writes_ret|].
    eapply writes_runs; [apply writeAll_spec|]. cbn. by intros _ d w1 [-> _]. }
  assert (E3 : ∃ d, then_output Os (eq (rs_Body r)) d).
  { destruct Es as [d Hd]. by exists (d ++ rs_Body r), d, (rs_Body r). }
  assert (E2 : ∃ d, then_output Oq (then_output Os (eq (rs_Body r))) d).
  { destruct Eq as [d Hd], E3 as [d' Hd']. by exists (d ++ d'), d, d'. }
  eapply writes_weaken; [apply (writes_bind _ _ _ _ (λ _, True) _ _ (flushResponseBuffer_spec _ w) E2)|done|].
  - intros b w1 ->. apply (writes_bind _ _ _ _ _ _ _ (message_outputs "req-hdr" "req-body" true _ w1 Hq) E3).
    intros b w2 ->. apply (writes_bind _ _ _ _ _ _ _ (message_outputs "res-hdr" "res-body" false _ w2 Hs) (ex_intro _ _ eq_refl)).
    intros _ w3 _. apply Hbody.
  - intros d (d1 & d2 & -> & <- & dq & d3 & -> & (bq & Hbq & ->) & ds & d4 & -> & (bs & Hbs & ->) & <-).
    exists bq, bs. split_and!; [done|done|]. unfold sections. by rewrite map_app, concat_app, <- !app_assoc.
Qed.

(** Without streams there is one output: the buffer's. *)
Definition streamless (r : Response P R) : Prop :=
  (∀ m, rs_HTTPRequest r = Some m → m_BodyStream m = None) ∧ (∀ m, rs_HTTPResponse r = Some m → m_BodyStream m = None).

Lemma message_buffer hdr body buf b (m : HTTPMessage P R) d :
  m_BodyStream m = None → body_output m d →
  bytes_of (writeHTTPMessage buf m b) = bytes_of buf ++ concat (map snd (sections_of hdr body b (Some m) d)).
Proof using.
  intros Hs Hd. rewrite chunked_buffer by done. f_equal. cbn [sections_of map snd concat]. f_equal.
  unfold body_output in Hd. rewrite Hs in Hd. subst d. unfold hasHTTPMessageBody. rewrite Hs, bool_decide_false by (by intros [? ?]).
  destruct (m_Body m); [done|]. cbn [length Nat.ltb Nat.leb orb map concat snd]. by rewrite app_nil_r.
Qed.

Lemma outputs_buffer r d : streamless r → outputs r d → d = bytes_of (toString r).
Proof using.
  intros [Sq Ss] (dq & ds & Hq & Hs & ->). unfold toString, writeToBuffer, envelope, sections. cbv zeta.
  rewrite map_app, concat_app.
  set (b0 := writeEnvelopeToBuffer "" r). set (b1 := match rs_HTTPRequest r with Some m => writeHTTPMessage b0 m true | None => b0 end).
  assert (E1 : bytes_of b1 = bytes_of b0 ++ concat (map snd (sections_of "req-hdr" "req-body" true (rs_HTTPRequest r) dq))).
  { unfold b1. destruct (rs_HTTPRequest r) as [q|]; [|by rewrite app_nil_r]. apply message_buffer; [by apply Sq|done]. }
  set (b2 := match rs_HTTPResponse r with Some m => writeHTTPMessage b1 m false | None => b1 end).
  assert (E2 : bytes_of b2 = bytes_of b1 ++ concat (map snd (sections_of "res-hdr" "res-body" false (rs_HTTPResponse r) ds))).
  { unfold b2. destruct (rs_HTTPResponse r) as [m|]; [|by rewrite app_nil_r]. apply message_buffer; [by apply Ss|done]. }
  destruct (rs_Body r) as [|c b] eqn:Eb; cbn [length Nat.ltb Nat.leb].
  - by rewrite app_nil_r, E2, E1, <- app_assoc.
  - rewrite bytes_of_app, bytes_of_string, E2, E1. by rewrite <- !app_assoc.
Qed.

Lemma silent_writes {A} (m : D A) w (Q : A → Prop) : silent env m w Q → writes m w Q (eq []).
Proof using. intros Hm. apply (writes_runs _ _ _ _ _ Hm). by intros a d w' (-> & _ & Ha). Qed.
End Direct_spec.

(** ** Properties *)

Section Properties.
Context {P R : Type} `{HP : Payload P R, HL : ReaderLaws R, HC : !Closer R, HCC : !CleanCloser R}.
Context (env : Environment).

Lemma whole_outputs r w :
  streamable (rs_HTTPRequest r) → streamable (rs_HTTPResponse r) →
  writes env (dbind (validateResponseWriter env) (λ _, let env := contextWriter env in
    dbind (writeResponseParts env r) (λ _, flushContext env))) w (λ _, True) (outputs r).
Proof using HCC.
  intros Hq Hs. cbv zeta.
  assert (Hparts : ∀ w, writes (contextWriter env) (dbind (writeResponseParts (contextWriter env) r) (λ _, flushContext (contextWriter env))) w
    (λ _, True) (then_output (outputs r) (eq []))).
  { intros w1. apply (writes_bind _ _ _ _ _ _ _ _ (parts_outputs (contextWriter env) r w1 Hq Hs) (ex_intro _ _ eq_refl)).
    intros _ w2 _. apply silent_writes, flushContext_spec. }
  assert (Hex : ∃ d, then_output (outputs r) (eq []) d).
  { destruct (output_exists _ Hq) as [dq Hdq], (output_exists _ Hs) as [ds Hds]. eexists. eexists _, []. split; [reflexivity|].
    split; [|done]. by exists dq, ds. }
  eapply writes_weaken; [apply (writes_bind _ _ _ _ _ (λ _, True) _ _ (silent_writes _ _ _ _ (ctxErr_spec env w)) Hex)|done|].
  - intros [] w1 _. exact (Hparts w1).
  - intros d (? & d2 & -> & <- & d3 & ? & -> & Hd & <-). by rewrite app_nil_r.
Qed.

(** What a connection gets of a response. *)
Lemma written_spec t0 sink r :
  streamable (rs_HTTPRequest r) → streamable (rs_HTTPResponse r) →
  let '(res, n, sink', _) := writeDirectToContext env t0 sink r in
  ∃ d, out sink' = out sink ++ d ∧ n = Z.of_nat (length d) ∧
    match res with
    | Ok _ => outputs r d ∧ (streamless r → d = bytes_of (toString r))
    | Err _ => (∃ o, outputs r o ∧ d `prefix_of` o) ∧ ¬ (healthy_env env ∧ room sink = None)
    end.
Proof using HCC.
  intros Hq Hs. unfold writeDirectToContext. set (w := {| w_tick := t0; w_reader := tt; w_sink := sink; w_n := 0 |}).
  pose proof (whole_outputs r w Hq Hs) as Hw. unfold writes in Hw. destruct (dbind _ _ w) as [[[]|e] w'].
  - destruct Hw as (d & (Ho & Hn & _) & Hd & _). exists d. split_and!; [done|exact Hn|done|]. intros Hr. by apply outputs_buffer.
  - destruct Hw as [(d & o & (Ho & Hn & _) & Hpre & Hd) Hh]. exists d. split_and!; [done|exact Hn|by exists o|exact Hh].
Qed.

(** A response that is written to a connection arrives section by section as
    [String] has it in its buffer, a streamed body in its place; the count that is
    returned is that of the bytes written. When writing fails, a prefix of the
    response was written, and the context, a sleep, a flush or a write had failed. *)
Theorem response_written t0 sink r :
  streamable (rs_HTTPRequest r) → streamable (rs_HTTPResponse r) →
  let '(res, n, sink', _) := writeDirectToContext env t0 sink r in
  ∃ d, out sink' = out sink ++ d ∧ n = Z.of_nat (length d) ∧
    match res with
    | Ok _ => outputs r d ∧ (streamless r → d = bytes_of (toString r))
    | Err _ => (∃ o, outputs r o ∧ d `prefix_of` o) ∧ ¬ (healthy_env env ∧ room sink = None)
    end.
Proof using HCC. apply written_spec. Qed.

(** The [Encapsulated] header of a response tells the truth: the receiver that
    parses it finds at its offsets exactly the sections that were written, in
    order, and at [null-body] the end of a payload without a body. *)
Theorem encapsulated_sections r dq ds :
  response_ok r → rs_Body r = [] →
  message_output (rs_HTTPRequest r) dq → message_output (rs_HTTPResponse r) ds →
  let payload := concat (map snd (sections r dq ds)) in
  Z.of_nat (length payload) ≤ max_int64 →
  cut_at (encapParts r) payload = sections r dq ds ++ (if has_body (final r) then [] else [("null-body", [])]) ∧
  ParseEncapsulatedHeader (BuildEncapsulatedHeader r) =
    Ok (foldl (λ e kv, set_offset kv.1 kv.2 e) NewEncapsulated (encapParts r)).
Proof using.
  intros Hr Hb Hq Hs payload Hl.
  rewrite (advertised_parsed r dq ds Hr Hb Hq Hl). unfold parsed. rewrite (encapParts_offsets r dq ds Hr Hb Hq).
  split; [|done]. unfold payload. rewrite <- advertised_payload. apply (cut_offsets (advertised r dq ds) []).
Qed.

(** What was selected of a message's body: of a stream, the first chunks of the
    source, all of them unless the delivery may be partial. *)
Definition selected (m : HTTPMessage P R) (body : list ascii) : Prop :=
  match m_BodyStream m with
  | None => body = m_Body m
  | Some s => ∃ bs, streams s bs ∧ body `prefix_of` bs ∧
      (partial (bs_Plan s) = false → body = take (Z.to_nat (p_bodyBytes (bs_Plan s))) bs)
  end.

(** A body in chunks that the reader accepts, with an end. *)
Definition readable (m : HTTPMessage P R) : Prop :=
  match m_BodyStream m with
  | None => chunk_ok (m_Body m)
  | Some s => p_finishMode (bs_Plan s) ≠ StreamFinishFIN ∧
      ∀ bs, streams s bs → Forall chunk_ok (planned_chunks (bs_Plan s) bs)
  end.

Lemma body_read ending sizes (m : HTTPMessage P R) d rest :
  (∀ i, (0 < sizes i)%nat) → readable m → body_output m d → hasHTTPMessageBody m = true →
  ∃ body, ReadChunkedBody ending sizes (d ++ rest) = Some (body, None, set_finished NewChunkedReader, rest) ∧ selected m body.
Proof using.
  unfold readable, body_output, selected, hasHTTPMessageBody. intros Hsz. destruct (m_BodyStream m) as [s|].
  - intros [Hmode Hok] (bs & j & Hs & -> & Hj) _. unfold stream_end. rewrite bool_decide_false by done.
    set (cs := planned_chunks (bs_Plan s) bs) in *. exists (concat (take j cs)). rewrite <- app_assoc. split.
    { apply ReadChunkedBody_encode; [done|]. by apply Forall_take, Hok. }
    assert (Hcs : concat cs = take (Z.to_nat (p_bodyBytes (bs_Plan s))) bs) by exact (planned_chunks_concat _ (st_plan _ _ Hs) bs).
    exists bs. split; [done|]. split; [|intros Hp; by rewrite Hj].
    etrans; [|apply (prefix_take bs (Z.to_nat (p_bodyBytes (bs_Plan s))))]. rewrite <- Hcs. exists (concat (drop j cs)).
    by rewrite <- concat_app, take_drop.
  - rewrite bool_decide_false by (by intros [? ?]). intros Hok -> Hb. exists (m_Body m). split; [|done].
    destruct (m_Body m) as [|c b] eqn:E; [done|]. unfold chunked. rewrite <- app_assoc.
    pose proof (ReadChunkedBody_encode ending sizes [c :: b] rest Hsz) as Hr. unfold encode in Hr. cbn [map concat] in Hr.
    rewrite !app_nil_r in Hr. apply Hr. by constructor.
Qed.

(** The receiver's side of an output. *)
Lemma received_spec ending sizes r d rest m :
  response_ok r → rs_Body r = [] → final r = Some m → readable m → (∀ i, (0 < sizes i)%nat) →
  outputs r d → Z.of_nat (length d) ≤ max_int64 →
  ∃ payload e body, d = envelope r ++ payload ∧
    ParseEncapsulatedHeader (BuildEncapsulatedHeader r) = Ok e ∧
    receive ending sizes e (payload ++ rest) = Some (head_of m (is_request r), body, rest) ∧ selected m body.
Proof using.
  intros Hr Hb Hm Hread Hsz (dq & ds & Hq & Hs & ->) Hl. rewrite Hb, app_nil_r in *.
  set (payload := concat (map snd (sections r dq ds))) in *.
  destruct (final_located r dq ds m Hm) as (pre & E & Hoff & Hnull). rewrite advertised_payload in E. fold payload in E.
  assert (Hfb : body_output m (final_body r dq ds)).
  { unfold final in Hm. unfold final_body, is_request. destruct (rs_HTTPResponse r) as [m'|].
    - rewrite bool_decide_true by done. injection Hm as ->. exact Hs.
    - rewrite bool_decide_false by (by intros [? ?]). rewrite Hm in Hq. exact Hq. }
  assert (Hparse : ParseEncapsulatedHeader (BuildEncapsulatedHeader r) = Ok (parsed r dq ds)).
  { apply advertised_parsed; [done|done|done|]. fold payload. rewrite length_app in Hl. lia. }
  exists payload, (parsed r dq ds). cbv zeta in Hoff, Hnull. unfold receive. rewrite Hoff, E, <- !app_assoc.
  destruct (hasHTTPMessageBody m) eqn:Ebody.
  - destruct (body_read ending sizes m _ rest Hsz Hread Hfb Ebody) as (body & Hrd & Hsel). exists body. split_and!; [done|done| |done].
    rewrite (proj2 (Z.eqb_neq _ encapNotSet)) by (unfold encapNotSet; lia).
    rewrite Nat2Z.id, drop_app_length. replace (_ + _ - _) with (Z.of_nat (length (head_of m (is_request r)))) by lia.
    rewrite Nat2Z.id, take_app_length, <- Nat2Z.inj_add, Nat2Z.id, <- length_app, app_assoc, drop_app_length. by rewrite Hrd.
  - exists []. rewrite Hnull by done. rewrite Z.eqb_refl. split_and!; [done|done| |].
    + rewrite (proj2 (Z.eqb_neq _ encapNotSet)) by (unfold encapNotSet; lia).
      rewrite Nat2Z.id, drop_app_length. replace (_ + _ - _) with (Z.of_nat (length (head_of m (is_request r)))) by lia.
      rewrite Nat2Z.id, take_app_length, <- Nat2Z.inj_add, Nat2Z.id, <- length_app, app_assoc, drop_app_length. done.
    + unfold selected, hasHTTPMessageBody in *. apply orb_false_iff in Ebody as [Hbody Hstream]. bool_to_prop.
      destruct (m_BodyStream m) as [s|]; [exfalso; apply Hstream; by eexists|]. destruct (m_Body m); [done|cbn in Hbody; lia].
Qed.
(** C15: from a written response the receiver gets back the head of its last message
    and the body that was selected for it, by the offsets of its [Encapsulated]
    header alone, and finds the next response on the connection where this one
    ends. *)
Theorem response_received ending sizes r d rest m :
  response_ok r → rs_Body r = [] → final r = Some m → readable m → (∀ i, (0 < sizes i)%nat) →
  outputs r d → Z.of_nat (length d) ≤ max_int64 →
  ∃ payload e body, d = envelope r ++ payload ∧
    ParseEncapsulatedHeader (BuildEncapsulatedHeader r) = Ok e ∧
    receive ending sizes e (payload ++ rest) = Some (head_of m (is_request r), body, rest) ∧ selected m body.
Proof using. apply received_spec. Qed.
End Properties.

(** ** Instances *)

Module Wire.
Notation message := (HTTPMessage (Replayable BytesReader) BytesReader).
Notation response := (Response (Replayable BytesReader) BytesReader).

Definition page (body : string) (stream : option (BodyStream (Replayable BytesReader) BytesReader)) : message :=
  {| m_Method := "POST"; m_URI := "/upload"; m_Status := "200"; m_StatusText := "OK"; m_Proto := "HTTP/1.1";
     m_Header := Set_ NewHeader "host" "example.com"; m_Body := bytes_of body; m_BodyStream := stream |}.

(** A request with a body before a response without one. *)
Definition both : response := SetHTTPResponse (Some (page "" None)) (SetHTTPRequest (Some (page "a=1" None)) (NewResponse 200)).

Definition streamed : response := SetHTTPResponse (Some (page "" (Some (Live.stream "streamed!")))) (NewResponse 200).

Lemma streamed_ok : response_ok streamed.
Proof. split; cbn; [done| |done]. intros m [= <-]. by right. Qed.

Definition streamed_bytes : list ascii :=
  envelope streamed ++ head_of (page "" (Some (Live.stream "streamed!"))) false ++
  encode [bytes_of "str"; bytes_of "eam"; bytes_of "ed!"] ++ last_chunk.

Lemma streamed_output : outputs streamed streamed_bytes.
Proof.
  eexists [], _. split; [reflexivity|]. split.
  - exists (bytes_of "streamed!"), 3%nat. split; [apply Live.streams_it|split; [reflexivity|intros _; reflexivity]].
  - cbn [rs_Body streamed SetHTTPResponse NewResponse]. rewrite app_nil_r. reflexivity.
Qed.

Lemma streams_unique bs : streams (Live.stream "streamed!") bs → bs = bytes_of "streamed!".
Proof.
  intros [(p & rd & q & Ep & Eo & Hd & _) _ _]. cbn in Ep. injection Ep as <-. cbn in Eo. injection Eo as <- <-.
  destruct Hd as [Hd _]. exact (eq_sym Hd).
Qed.
End Wire.

Lemma response_written_witness :
  ∃ d sink' t, writeDirectToContext Live.calm 0 fresh_sink Wire.streamed = (Ok tt, Z.of_nat (length d), sink', t) ∧
    out sink' = d ∧ outputs Wire.streamed d.
Proof.
  pose proof (response_written Live.calm 0 fresh_sink Wire.streamed I (ex_intro _ _ Live.streams_it)) as Hw.
  assert (Hok : is_ok (writeDirectToContext Live.calm 0 fresh_sink Wire.streamed).1.1.1 = true) by (vm_compute; reflexivity).
  destruct (writeDirectToContext Live.calm 0 fresh_sink Wire.streamed) as [[[[[]|e] n] sink'] t]; [|discriminate Hok].
  destruct Hw as (d & Ho & -> & Hd & _). exists d, sink', t. split; [reflexivity|]. split; [exact Ho|exact Hd].
Defined.

Lemma encapsulated_sections_witness :
  BuildEncapsulatedHeader Wire.both = "req-hdr=0, req-body=44, res-hdr=57, null-body=95" ∧
  cut_at (encapParts Wire.both) (concat (map snd (sections Wire.both (chunked (bytes_of "a=1")) []))) =
  [("req-hdr", bytes_of ("POST /upload HTTP/1.1" +:+ crlf +:+ "Host: example.com" +:+ crlf +:+ crlf));
   ("req-body", bytes_of ("3" +:+ crlf +:+ "a=1" +:+ crlf +:+ "0" +:+ crlf +:+ crlf));
   ("res-hdr", bytes_of ("HTTP/1.1 200 OK" +:+ crlf +:+ "Host: example.com" +:+ crlf +:+ crlf));
   ("null-body", [])].
Proof.
  split; [vm_compute; reflexivity|].
  destruct (encapsulated_sections Wire.both (chunked (bytes_of "a=1")) []) as [Hc _].
  - split; cbn; intros m; [intros [= <-]; by left|intros [= <-]; by left|by intros [= <-] _].
  - reflexivity.
  - reflexivity.
  - reflexivity.
  - vm_compute. discriminate.
  - rewrite Hc. vm_compute. reflexivity.
Defined.

Lemma response_received_witness :
  ∃ payload e body, receive EOF (λ _, 4%nat) e (payload ++ bytes_of "ICAP/1.0") =
    Some (head_of (Wire.page "" (Some (Live.stream "streamed!"))) false, body, bytes_of "ICAP/1.0") ∧ body = bytes_of "streamed!".
Proof.
  destruct (response_received EOF (λ _, 4%nat) Wire.streamed Wire.streamed_bytes (bytes_of "ICAP/1.0")
    (Wire.page "" (Some (Live.stream "streamed!"))) Wire.streamed_ok eq_refl eq_refl)
    as (payload & e & body & _ & _ & Hr & bs & Hs & _ & Hb).
  - split; [discriminate|]. intros bs Hs. rewrite (Wire.streams_unique bs Hs). repeat constructor; vm_compute; discriminate.
  - intros i. apply Nat.lt_0_succ.
  - exact Wire.streamed_output.
  - vm_compute. discriminate.
  - exists payload, e, body. split; [exact Hr|]. rewrite Hb by reflexivity. rewrite (Wire.streams_unique bs Hs). vm_compute. reflexivity.
Defined.
