(* ===== verification/Substitute.v ===== *)
(** * Captures in responses: [substituteCaptures] of [internal/processor/mock.go]

    The placeholders of a response template are filled with what the endpoint
    captured. The code does it in three passes over a string: the escapes are
    replaced by a mark, the placeholders by their values, the marks by what was
    escaped. The reference is one pass from left to right. *)
From S2P Require Import Prelude GoInt GoStrings Compile StreamPlan StreamSelect StreamSources Responses.

(** ** Rewriting from left to right *)

(** [strings.ReplaceAll] and [regexp.ReplaceAllStringFunc]: where [m] matches, what
    it puts there and how many bytes it takes; matches do not overlap. [skip]
    bytes still belong to the last match. *)
Fixpoint rewrite_at (m : string → option (string * nat)) (skip : nat) (s : string) : string :=
  match s with
  | EmptyString => EmptyString
  | String c s' =>
      match skip with
      | S k => rewrite_at m k s'
      | O =>
          match m s with
          | Some (text, n) => text +:+ rewrite_at m (pred n) s'
          | None => String c (rewrite_at m O s')
          end
      end
  end.

Definition matches_text (old new s : string) : option (string * nat) :=
  if has_prefix s old then Some (new, String.length old) else None.

(** For an [old] that is not empty. *)
Definition ReplaceAll (s old new : string) : string := rewrite_at (matches_text old new) O s.

(** The longest run of identifier characters. *)
Fixpoint ident_run (s : string) : string * string :=
  match s with
  | EmptyString => (EmptyString, EmptyString)
  | String c s' =>
      if ident_char c then let '(name, rest) := ident_run s' in (String c name, rest)
      else (EmptyString, s)
  end.

(** [capturePlaceholder] at the start of a string: the name in it. *)
Definition capturePlaceholder (s : string) : option string :=
  match s with
  | String d (String b s') =>
      if Ascii.eqb d "$" && Ascii.eqb b "{" then
        match ident_run s' with
        | (String c _ as name, String e _) =>
            if ident_start c && Ascii.eqb e "}" then Some name else None
        | _ => None
        end
      else None
  | _ => None
  end.

(** A Go map gives the empty string for a missing key. *)
Definition value_of (vars : gmap string string) (name : string) : string := default "" (vars !! name).

Definition fill (vars : gmap string string) (s : string) : option (string * nat) :=
  match capturePlaceholder s with
  | Some name => Some (value_of vars name, String.length name + 3)
  | None => None
  end.

Definition NUL : ascii := "000"%char.
Definition escaped : string := String NUL ("ESC" +:+ String NUL "").

Definition substituteString (s : string) (vars : gmap string string) : string :=
  if bool_decide (s = "") then s
  else
    let tmp := ReplaceAll s "$${" escaped in
    let tmp := rewrite_at (fill vars) O tmp in
    ReplaceAll tmp escaped "${".

(** ** The templates *)

Definition substituteMap (m vars : gmap string string) : gmap string string := (λ v, substituteString v vars) <$> m.

Definition substituteStringSlice (l : list string) (vars : gmap string string) : list string :=
  map (λ v, substituteString v vars) l.

Definition substituteSource (src : StreamSourceConfig) (vars : gmap string string) : StreamSourceConfig :=
  {| src_From := src_From src; src_Body := substituteString (src_Body src) vars;
     src_BodyFile := substituteString (src_BodyFile src) vars |}.

Definition substituteStreamParts (parts : list StreamSourceConfig) (vars : gmap string string) : list StreamSourceConfig :=
  map (λ p, substituteSource p vars) parts.

Definition substituteStreamFallback (fallback : StreamFallbackConfig) (vars : gmap string string) : StreamFallbackConfig :=
  let raw := fb_RawFile fallback in
  {| fb_Body := substituteString (fb_Body fallback) vars;
     fb_BodyFile := substituteString (fb_BodyFile fallback) vars;
     fb_From := fb_From fallback;
     fb_RawFile := {| raw_Filename := substituteStringSlice (raw_Filename raw) vars;
                      raw_Enabled := raw_Enabled raw; raw_IsSet := raw_IsSet raw |} |}.

Definition substituteStream (stream : Stream) (vars : gmap string string) : Stream :=
  let mp := Multipart stream in
  let files := mp_Files mp in
  {| Fallback := substituteStreamFallback (Fallback stream) vars;
     Source := substituteSource (Source stream) vars;
     Parts := substituteStreamParts (Parts stream) vars;
     From := From stream;
     Body := substituteString (Body stream) vars;
     BodyFile := substituteString (BodyFile stream) vars;
     Multipart := {| mp_Fields := substituteStringSlice (mp_Fields mp) vars;
                     mp_Files := {| files_Filename := substituteStringSlice (files_Filename files) vars;
                                    files_Enabled := files_Enabled files; files_IsSet := files_IsSet files |};
                     mp_AllowEmpty := mp_AllowEmpty mp; mp_IsSet := mp_IsSet mp |};
     Controls := Controls stream;
     PartsSet := PartsSet stream |}.

Definition substituteCaptures (resp : ResponseTemplate) (vars : gmap string string) : ResponseTemplate :=
  {| rt_Headers := substituteMap (rt_Headers resp) vars;
     rt_HTTPHeaders := substituteMap (rt_HTTPHeaders resp) vars;
     rt_DelayRange := rt_DelayRange resp;
     rt_Stream := (λ s, substituteStream s vars) <$> rt_Stream resp;
     rt_Block := rt_Block resp;
     rt_ResponseName := rt_ResponseName resp;
     rt_Use := rt_Use resp;
     rt_Body := substituteString (rt_Body resp) vars;
     rt_BodyFile := substituteString (rt_BodyFile resp) vars;
     rt_HTTPBody := substituteString (rt_HTTPBody resp) vars;
     rt_HTTPBodyFile := substituteString (rt_HTTPBodyFile resp) vars;
     rt_Error := substituteString (rt_Error resp) vars;
     rt_Status := rt_Status resp;
     rt_ICAPStatus := rt_ICAPStatus resp;
     rt_HTTPStatus := rt_HTTPStatus resp;
     rt_Delay := rt_Delay resp |}.

(** ** The reference: one pass *)

(** An escape, or a placeholder, at the start of a string. *)
Definition escape_or_fill (vars : gmap string string) (s : string) : option (string * nat) :=
  if has_prefix s "$${" then Some ("${", 3) else fill vars s.

Definition one_pass (s : string) (vars : gmap string string) : string := rewrite_at (escape_or_fill vars) O s.

(** ** Rewriting lemmas *)

Lemma rewrite_skip m u s : rewrite_at m (String.length u) (u +:+ s) = rewrite_at m O s.
Proof. induction u as [|c u IH]; [by destruct s|]. exact IH. Qed.

Lemma rewrite_match m u s text :
  u ≠ "" → m (u +:+ s) = Some (text, String.length u) → rewrite_at m O (u +:+ s) = text +:+ rewrite_at m O s.
Proof.
  destruct u as [|c u]; [done|]. intros _ Hm. change (String c u +:+ s) with (String c (u +:+ s)) in *.
  cbn [rewrite_at]. rewrite Hm. cbn [String.length pred]. by rewrite rewrite_skip.
Qed.

Lemma rewrite_none m c s : m (String c s) = None → rewrite_at m O (String c s) = String c (rewrite_at m O s).
Proof. intros Hm. cbn [rewrite_at]. by rewrite Hm. Qed.

(** Nothing happens where [m] can not match. *)
Lemma rewrite_plain m u s :
  (∀ c t, c ∈ bytes_of u → m (String c t) = None) → rewrite_at m O (u +:+ s) = u +:+ rewrite_at m O s.
Proof.
  intros Hm. induction u as [|c u IH]; [done|]. change (String c u +:+ s) with (String c (u +:+ s)).
  rewrite rewrite_none by (apply Hm; left). rewrite IH; [done|]. intros d t Hd. apply Hm. by right.
Qed.

Lemma ident_run_spec s name rest :
  ident_run s = (name, rest) → s = name +:+ rest ∧ str_forall ident_char name = true.
Proof.
  revert name rest. induction s as [|c s IH]; intros name rest; cbn [ident_run]; [by intros [= <- <-]|].
  destruct (ident_char c) eqn:Ec; [|by intros [= <- <-]]. destruct (ident_run s) as [n r].
  intros [= <- <-]. destruct (IH _ _ eq_refl) as [-> Hn]. split; [done|]. cbn. unfold str_forall in Hn. by rewrite Ec, Hn.
Qed.

Lemma capturePlaceholder_Some s name :
  capturePlaceholder s = Some name → (∃ t, s = ("${" +:+ name +:+ "}") +:+ t) ∧ str_forall ident_char name = true.
Proof.
  destruct s as [|d [|b s]]; [done|done|]. cbn [capturePlaceholder].
  destruct (Ascii.eqb d "$" && Ascii.eqb b "{") eqn:E; [|done].
  apply andb_true_iff in E as [->%Ascii.eqb_eq ->%Ascii.eqb_eq].
  destruct (ident_run s) as [[|c n] [|e r]] eqn:Er; try done. destruct (ident_start c && _) eqn:E; [|done].
  apply andb_true_iff in E as [_ ->%Ascii.eqb_eq]. apply ident_run_spec in Er as [-> Hn]. intros [= <-].
  split; [|done]. exists r. by rewrite !str_app_assoc.
Qed.

(** ** The passes of the code *)

Local Notation mark s := (ReplaceAll s "$${" escaped).
Local Notation unmark s := (ReplaceAll s escaped "${").

Lemma mark_escape s : mark ("$${" +:+ s) = escaped +:+ mark s.
Proof. apply (rewrite_match (matches_text "$${" escaped) "$${" s escaped); [done|]. unfold matches_text. by rewrite has_prefix_app. Qed.

Lemma mark_char c s : has_prefix (String c s) "$${" = false → mark (String c s) = String c (mark s).
Proof. intros H. apply rewrite_none. unfold matches_text. by rewrite H. Qed.

Lemma not_prefix (p : ascii) old c s : c ≠ p → has_prefix (String c s) (String p old) = false.
Proof.
  intros Hc. unfold has_prefix. cbn [String.prefix]. destruct (Ascii.ascii_dec p c); [by subst|done].
Qed.

Lemma mark_plain u s : "$"%char ∉ bytes_of u → mark (u +:+ s) = u +:+ mark s.
Proof.
  intros Hu. apply rewrite_plain. intros c t Hc. unfold matches_text. rewrite not_prefix; [done|]. by intros ->.
Qed.

Lemma unmark_plain u s : NUL ∉ bytes_of u → unmark (u +:+ s) = u +:+ unmark s.
Proof.
  intros Hu. apply rewrite_plain. intros c t Hc. unfold matches_text, escaped. rewrite not_prefix; [done|]. by intros ->.
Qed.

Lemma unmark_escape s : unmark (escaped +:+ s) = "${" +:+ unmark s.
Proof. apply (rewrite_match (matches_text escaped "${") escaped s "${"); [done|]. unfold matches_text. by rewrite has_prefix_app. Qed.

Lemma ident_not_dollar u : str_forall ident_char u = true → "$"%char ∉ bytes_of u.
Proof. intros Hu. by apply (str_forall_not_in ident_char). Qed.

(** How a marked string begins. *)
Lemma mark_first b s :
  mark (String b s) = String b (mark s) ∨ (b = "$"%char ∧ ∃ t, mark (String b s) = String NUL t).
Proof.
  destruct (has_prefix (String b s) "$${") eqn:E; [right|left; by apply mark_char].
  apply has_prefix_spec in E as [r Hr]. rewrite Hr, mark_escape. injection Hr as -> _. split; [done|by eexists].
Qed.

Lemma ident_run_mark s : ident_run (mark s) = let '(n, r) := ident_run s in (n, mark r).
Proof.
  induction s as [|c s IH]; [done|]. destruct (mark_first c s) as [E|(-> & t & E)].
  - rewrite E. cbn [ident_run]. destruct (ident_char c); [|by rewrite E]. rewrite IH. by destruct (ident_run s).
  - rewrite E. cbn [ident_run]. replace (ident_char NUL) with false by done. replace (ident_char "$") with false by done.
    by rewrite E.
Qed.

Lemma capturePlaceholder_mark c s : capturePlaceholder (String c (mark s)) = capturePlaceholder (String c s).
Proof.
  destruct s as [|b s]; [done|]. destruct (mark_first b s) as [E|(-> & t & E)]; rewrite E; cbn [capturePlaceholder].
  - destruct (Ascii.eqb c "$" && Ascii.eqb b "{"); [|done]. rewrite ident_run_mark. destruct (ident_run s) as [[|d n] [|e r]]; [done|done|done|].
    destruct (mark_first e r) as [->|(-> & t & ->)]; [done|]. by rewrite !andb_false_r.
  - by rewrite !andb_false_r.
Qed.

Lemma fill_none vars c s : c ≠ "$"%char → fill vars (String c s) = None.
Proof. intros Hc. unfold fill, capturePlaceholder. apply Ascii.eqb_neq in Hc. destruct s; [done|]. by rewrite Hc. Qed.

Definition no_NUL (s : string) : Prop := NUL ∉ bytes_of s.

(** No dollar in a given string. *)
Ltac no_dollar := by apply (str_forall_not_in (λ c, negb (Ascii.eqb c "$"))).

Lemma mark_placeholder name t :
  str_forall ident_char name = true → mark (("${" +:+ name +:+ "}") +:+ t) = ("${" +:+ name +:+ "}") +:+ mark t.
Proof.
  intros Hid. change (("${" +:+ name +:+ "}") +:+ t) with (String "$" ("{" +:+ (name +:+ "}") +:+ t)).
  rewrite mark_char by (by destruct name). rewrite mark_plain by no_dollar.
  rewrite mark_plain; [done|]. rewrite bytes_of_app, not_elem_of_app.
  split; [by apply ident_not_dollar|no_dollar].
Qed.

Lemma passes_one_pass n s vars :
  (String.length s ≤ n)%nat → no_NUL s → (∀ name, no_NUL (value_of vars name)) →
  unmark (rewrite_at (fill vars) O (mark s)) = rewrite_at (escape_or_fill vars) O s.
Proof.
  intros Hn Hs Hv. revert s Hn Hs. induction n as [|n IH]; intros s Hn Hs; [by destruct s; [|simpl in Hn; lia]|].
  destruct s as [|c s]; [done|]. unfold no_NUL in Hs.
  destruct (has_prefix (String c s) "$${") eqn:Ee.
  - apply has_prefix_spec in Ee as [t Et]. rewrite Et in *. rewrite mark_escape.
    rewrite (rewrite_match (escape_or_fill vars) "$${" t "${"); [|done|by unfold escape_or_fill; rewrite has_prefix_app].
    rewrite (rewrite_plain (fill vars)).
    2:{ intros d u Hd. apply fill_none. intros ->. revert Hd.
        no_dollar. }
    rewrite unmark_escape, IH; [done| |].
    + rewrite str_length_app in Hn. simpl in Hn. lia.
    + intros Ht. apply Hs. rewrite bytes_of_app. apply elem_of_app. by right.
  - destruct (capturePlaceholder (String c s)) as [name|] eqn:Ep.
    + destruct (capturePlaceholder_Some _ _ Ep) as [[t Et] Hid]. rewrite Et in *.
      assert (Hlen : String.length ("${" +:+ name +:+ "}") = (String.length name + 3)%nat) by (rewrite !str_length_app; simpl; lia).
      assert (Hfill : ∀ u, capturePlaceholder (("${" +:+ name +:+ "}") +:+ u) = Some name →
        fill vars (("${" +:+ name +:+ "}") +:+ u) = Some (value_of vars name, String.length ("${" +:+ name +:+ "}"))).
      { intros u Hu. unfold fill. by rewrite Hu, Hlen. }
      rewrite (rewrite_match (escape_or_fill vars) _ t (value_of vars name)).
      3:{ unfold escape_or_fill. rewrite Ee. by apply Hfill. }
      2:{ done. }
      rewrite mark_placeholder by done. rewrite (rewrite_match (fill vars) _ (mark t) (value_of vars name)).
      3:{ apply Hfill. rewrite <- mark_placeholder by done. etrans; [|exact Ep].
          change (("${" +:+ name +:+ "}") +:+ t) with (String "$" ("{" +:+ (name +:+ "}") +:+ t)).
          rewrite mark_char by exact Ee. apply capturePlaceholder_mark. }
      2:{ done. }
      rewrite unmark_plain by apply Hv. rewrite IH; [done| |].
      * rewrite str_length_app, Hlen in Hn. lia.
      * intros Ht. apply Hs. rewrite bytes_of_app. apply elem_of_app. by right.
    + rewrite mark_char by done.
      rewrite (rewrite_none (escape_or_fill vars)) by (unfold escape_or_fill, fill; by rewrite Ee, Ep).
      rewrite (rewrite_none (fill vars)) by (unfold fill; by rewrite capturePlaceholder_mark, Ep).
      change (String c (rewrite_at (fill vars) 0 (mark s))) with (String c "" +:+ rewrite_at (fill vars) 0 (mark s)).
      rewrite unmark_plain by (cbn; rewrite list_elem_of_singleton; intros <-; apply Hs; by left).
      rewrite IH; [done|simpl in Hn; lia|]. intros Ht. apply Hs. by right.
Qed.

(** ** Templates as written *)

Inductive TemplatePart := Text (t : string) | EscapedBrace | Variable_ (name : string).

Definition part_source (p : TemplatePart) : string :=
  match p with
  | Text t => t
  | EscapedBrace => "$${"
  | Variable_ name => "${" +:+ name +:+ "}"
  end.

Definition part_value (vars : gmap string string) (p : TemplatePart) : string :=
  match p with
  | Text t => t
  | EscapedBrace => "${"
  | Variable_ name => value_of vars name
  end.

Definition is_ident (name : string) : bool :=
  match name with
  | EmptyString => false
  | String c _ => ident_start c && str_forall ident_char name
  end.

(** A text has no dollar of its own. *)
Definition part_ok (p : TemplatePart) : Prop :=
  match p with
  | Text t => "$"%char ∉ bytes_of t ∧ no_NUL t
  | EscapedBrace => True
  | Variable_ name => is_ident name = true
  end.

Lemma ident_run_all name e t :
  str_forall ident_char name = true → ident_char e = false → ident_run (name +:+ String e t) = (name, String e t).
Proof.
  intros Hn He. induction name as [|c name IH]; cbn; [by rewrite He|].
  apply andb_true_iff in Hn as [-> Hn]. by rewrite (IH Hn).
Qed.

Lemma capturePlaceholder_ident name t :
  is_ident name = true → capturePlaceholder (("${" +:+ name +:+ "}") +:+ t) = Some name.
Proof.
  intros Hn. rewrite !str_app_assoc. cbn [capturePlaceholder String.append].
  destruct name as [|c name]; [done|]. apply andb_true_iff in Hn as [Hc Hall].
  change (String c name +:+ "}" +:+ t) with (String c name +:+ String "}" t). rewrite ident_run_all by done.
  cbn. by rewrite Hc.
Qed.

Lemma one_pass_part vars p t :
  part_ok p → one_pass (part_source p +:+ t) vars = part_value vars p +:+ one_pass t vars.
Proof.
  unfold one_pass. destruct p as [u| |name]; cbn [part_ok part_source part_value].
  - intros [Hu _]. apply rewrite_plain. intros c s Hc. assert (c ≠ "$"%char) by (by intros ->).
    unfold escape_or_fill. by rewrite not_prefix, fill_none.
  - intros _. apply (rewrite_match _ "$${"); [done|]. unfold escape_or_fill. by rewrite has_prefix_app.
  - intros Hn. apply (rewrite_match _ ("${" +:+ name +:+ "}")); [done|]. unfold escape_or_fill.
    assert (Hp : has_prefix (("${" +:+ name +:+ "}") +:+ t) "$${" = false) by (by destruct name).
    rewrite Hp. unfold fill. rewrite capturePlaceholder_ident by done. do 2 f_equal.
    rewrite !str_length_app. simpl. lia.
Qed.

Lemma part_source_no_NUL p : part_ok p → no_NUL (part_source p).
Proof.
  unfold no_NUL. destruct p as [u| |name]; cbn [part_ok part_source]; [by intros []|intros _|intros Hn].
  - by apply (str_forall_not_in (λ c, negb (Ascii.eqb c NUL))).
  - apply (str_forall_not_in (λ c, negb (Ascii.eqb c NUL))); [|done]. rewrite !str_forall_app.
    destruct name as [|c name]; [done|]. apply andb_true_iff in Hn as [_ Hall]. rewrite !andb_true_iff. split_and!; [done| |done].
    eapply str_forall_mono; [|exact Hall]. by intros [[] [] [] [] [] [] [] []].
Qed.

(** ** Properties *)

(** Filling the captures into a template is one pass over it from left to
    right: text stays, [$${] becomes a literal [${], a placeholder becomes the
    captured value (nothing when there is none), and a value is never expanded
    again, whatever it holds. The three passes of the code agree with this on every
    string without NUL bytes, well formed or not. *)
Theorem substitute_one_pass vars :
  (∀ name, no_NUL (value_of vars name)) →
  (∀ s, no_NUL s → substituteString s vars = one_pass s vars) ∧
  (∀ ps, Forall part_ok ps →
     substituteString (concat_str (map part_source ps)) vars = concat_str (map (part_value vars) ps)).
Proof.
  intros Hv. assert (H1 : ∀ s, no_NUL s → substituteString s vars = one_pass s vars).
  { intros s Hs. unfold substituteString. case_bool_decide as E; [by rewrite E|]. cbv zeta.
    exact (passes_one_pass (String.length s) s vars (le_n _) Hs Hv). }
  split; [exact H1|]. intros ps Hps. rewrite H1.
  - induction Hps as [|p ps Hp _ IH]; [done|]. cbn [map concat_str foldr]. rewrite one_pass_part by done.
    unfold concat_str in IH. by rewrite IH.
  - unfold no_NUL. induction Hps as [|p ps Hp _ IH]; [apply not_elem_of_nil|]. cbn [map concat_str foldr].
    rewrite bytes_of_app, not_elem_of_app. split; [by apply part_source_no_NUL|exact IH].
Qed.

Lemma substitute_one_pass_witness :
  let vars := <["id" := "${name}$${"]> (<["name" := "x"]> ∅) : gmap string string in
  substituteString "a ${id} $${name} ${none}${name}" vars = "a ${name}$${ ${name} x".
Proof.
  cbv zeta. destruct (substitute_one_pass (<["id" := "${name}$${"]> (<["name" := "x"]> ∅))) as [_ Hp].
  - intros name. unfold value_of, no_NUL. rewrite !lookup_insert. repeat case_decide; cbn [default];
      apply (str_forall_not_in (λ c, negb (Ascii.eqb c NUL))); reflexivity.
  - specialize (Hp [Text "a "; Variable_ "id"; Text " "; EscapedBrace; Text "name} "; Variable_ "none"; Variable_ "name"]).
    etrans; [|etrans; [apply Hp|]]; [reflexivity| |vm_compute; reflexivity].
    repeat constructor; apply (str_forall_not_in (λ c, negb (Ascii.eqb c "$") && negb (Ascii.eqb c NUL))); reflexivity.
Defined.
