(* ===== verification/StreamResolve.v ===== *)
(** * The bytes of a stream: [internal/processor/streaming.go], [stream_multipart.go],
      [stream_payload.go]

    From a stream configuration and a request to a payload: inline bodies, files,
    bodies of the request's messages, parts of a multipart body and their
    fallbacks, sequences of sources. The code has the resolution twice, once into
    payloads and once into a buffer; the buffer is the specification here.
    Resolving loads bodies, so the request is threaded through. The file system
    at the time of the request, [mime.ParseMediaType], the reader of
    [mime/multipart] and the matching of file name patterns are parameters.
    Closing the files of a payload that is dropped is not modelled. *)
From S2P Require Import Prelude GoInt GoStrings Header Chunked Message Scenario StreamSources StreamPayload.

Local Open Scope Z_scope.

(** ** Either of two payloads *)

Section Either.
Context {P1 R1 P2 R2 : Type} `{Payload P1 R1, Payload P2 R2}.

#[export] Instance either_Payload : Payload (P1 + P2) (R1 + R2) := {|
  p_open := λ p,
    match p with
    | inl p => let '(r, p) := p_open p in (match r with Ok rd => Ok (inl rd) | Err e => Err e end, inl p)
    | inr p => let '(r, p) := p_open p in (match r with Ok rd => Ok (inr rd) | Err e => Err e end, inr p)
    end;
  p_size := λ p, match p with inl p => p_size p | inr p => p_size p end;
  p_replayable := λ p, match p with inl p => p_replayable p | inr p => p_replayable p end
|}.

Context `{Reader R1, Reader R2, Closer R1, Closer R2}.

#[export] Instance either_Reader : Reader (R1 + R2) := λ len r,
  match r with
  | inl r => let '(p, e, r) := reader_read len r in (p, e, inl r)
  | inr r => let '(p, e, r) := reader_read len r in (p, e, inr r)
  end.

#[export] Instance either_Closer : Closer (R1 + R2) := λ r,
  match r with
  | inl r => let '(e, r) := r_close r in (e, inl r)
  | inr r => let '(e, r) := r_close r in (e, inr r)
  end.
End Either.

#[export] Program Instance either_Laws {R1 R2} `{HL1 : ReaderLaws R1, HL2 : ReaderLaws R2} : ReaderLaws (R1 + R2) :=
  {| delivers := λ r bs e, match r with inl r => delivers r bs e | inr r => delivers r bs e end |}.
Next Obligation.
  intros R1 R2 H1 HL1 H2 HL2 [r|r] bs e len Hd Hlen; unfold reader_read at 1; cbn.
  - pose proof (reader_step r bs e len Hd Hlen) as Hstep. by destruct (reader_read len r) as [[p [e'|]] r'].
  - pose proof (reader_step r bs e len Hd Hlen) as Hstep. by destruct (reader_read len r) as [[p [e'|]] r'].
Qed.

#[export] Instance either_Clean {R1 R2} `{HL1 : ReaderLaws R1, HL2 : ReaderLaws R2, HC1 : !Closer R1, HC2 : !Closer R2,
  !CleanCloser R1, !CleanCloser R2} : CleanCloser (R1 + R2).
Proof.
  intros [r|r] bs e Hd; unfold r_close at 1; cbn; pose proof (close_clean r bs e Hd) as Hr; by destruct (r_close r).
Qed.

(** ** Payloads of the processor *)

(** Bytes at hand; inline bodies and files, which are limited. *)
Definition PartPayload : Type :=
  Replayable BytesReader + (LimitedPayload (Replayable BytesReader) + LimitedPayload (OneShot BytesReader)).
Definition PartReader : Type := BytesReader + (MaybeLimited BytesReader + MaybeLimited BytesReader).

Definition ProcPayload : Type := PartPayload + LimitedPayload (SequencePayload PartPayload).
Definition ProcReader : Type := PartReader + MaybeLimited (SequenceReader PartPayload PartReader).

Inductive ResolveError :=
| NoHTTPRequest
| NoHTTPResponse
| UnsupportedMethod
| UnsupportedSource
| SourceTooLarge
| BodyFailed (e : BodyError)
| FileNotOpened
| RepeatedLivePart
| ContentTypeRequired
| BoundaryRequired
| NoPartsMatched
| MultipartMalformed
| FallbackEmpty
| RawFileDisabled
| RawFileMultipart
| RawFileNotMatched.

(** A part of a multipart body; [mp_Broken] when it can not be read to its end. *)
Record MimePart := { mp_FormName : string; mp_FileName : string; mp_Content : list ascii; mp_Broken : bool }.

Section Resolve.
Context {R : Type} `{Reader R} (grow : nat → nat → nat) (fuel : nat) (sizes : nat → nat).
Context (ReadFile : string → option (list ascii)).
Context (ParseMediaType : string → option (string * gmap string string)).
(** The parts with a boundary in a body, and whether the last one is followed by
    the end of the body. *)
Context (MultipartParts : string → list ascii → list MimePart * bool).
Context (MatchPattern : string → string → bool).

Notation Request := (Request (R := R)).
Notation Message := (Message (R := R)).

(** Computations that may load bodies of the request. *)
Definition L (A : Type) : Type := Request → result ResolveError A * Request.
Definition lret {A} (a : A) : L A := λ q, (Ok a, q).
Definition lerr {A} (e : ResolveError) : L A := λ q, (Err e, q).
Definition lbind {A B} (m : L A) (k : A → L B) : L B := λ q,
  match m q with (Ok a, q) => k a q | (Err e, q) => (Err e, q) end.
Definition lift {A} (r : result ResolveError A) : L A := λ q, (r, q).
Notation "'load!' x := m 'in' k" := (lbind m (λ x, k)) (at level 10, x pattern, m at level 100, k at level 200).

Definition defaultStreamBodyLimit : Z := 10 * 1024 * 1024.

Definition streamBodyLimitUnlimited (limit : Z) : bool := limit <=? 0.

Definition streamBytesWithinLimit (body : list ascii) (limit : Z) : result ResolveError (list ascii) :=
  if negb (streamBodyLimitUnlimited limit) && (limit <? Z.of_nat (length body)) then Err SourceTooLarge else Ok body.

Definition streamBodyReadError (e : BodyError) : ResolveError :=
  match e with ErrBodyTooLarge _ => SourceTooLarge | e => BodyFailed e end.

(** ** Bodies of the request's messages *)

Definition requestHTTPMessage (q : Request) : result ResolveError Side :=
  match q_HTTPRequest q with Some _ => Ok RequestSide | None => Err NoHTTPRequest end.

Definition responseHTTPMessage (q : Request) : result ResolveError Side :=
  match q_HTTPResponse q with Some _ => Ok ResponseSide | None => Err NoHTTPResponse end.

Definition adaptedHTTPBodyMessage (q : Request) : result ResolveError Side :=
  if bool_decide (q_Method q = MethodREQMOD) then requestHTTPMessage q
  else if bool_decide (q_Method q = MethodRESPMOD) then responseHTTPMessage q
  else Err UnsupportedMethod.

Definition rawHTTPBodySource (from : string) : bool :=
  bool_decide (from ∈ [streamSourceRequestBody; streamSourceRequestHTTPBody; streamSourceResponseBody;
                       streamSourceResponseHTTPBody; streamSourceAdaptedHTTPBody]).

Definition rawHTTPBodyMessage (from : string) (q : Request) : result ResolveError Side :=
  if bool_decide (from ∈ [streamSourceRequestBody; streamSourceRequestHTTPBody]) then requestHTTPMessage q
  else if bool_decide (from ∈ [streamSourceResponseBody; streamSourceResponseHTTPBody]) then responseHTTPMessage q
  else if bool_decide (from = streamSourceAdaptedHTTPBody) then adaptedHTTPBodyMessage q
  else Err UnsupportedSource.

Definition httpBodyContentLength (m : Message) : option Z :=
  match Get (msg_Header m) "Content-Length" with
  | None => None
  | Some value =>
      match parse_int 10 value with
      | Some size => if 0 <=? size then Some size else None
      | None => None
      end
  end.

Definition httpBodySizeExceedsLimit (m : Message) (limit : Z) : bool :=
  match httpBodyContentLength m with
  | Some size => negb (streamBodyLimitUnlimited limit) && (limit <? size)
  | None => false
  end.

(** Loads the body of the message on side [d]. *)
Definition httpMessageBody (d : Side) (limit : Z) : L (list ascii) := λ q,
  match side_message d q with
  | None => (Err (match d with RequestSide => NoHTTPRequest | ResponseSide => NoHTTPResponse end), q)
  | Some m =>
      if httpBodySizeExceedsLimit m limit then (Err SourceTooLarge, q)
      else
        let '(res, b) :=
          if streamBodyLimitUnlimited limit then GetBody grow fuel sizes (contentLengthHint m) (msg_Body m)
          else GetBodyLimited grow fuel sizes limit (contentLengthHint m) (msg_Body m) in
        match res with
        | Err e => (Err (streamBodyReadError e), set_side d (with_msg_body b m) q)
        | Ok body => (Ok (bytes_or_nil body), set_side d (with_msg_body (SetLoadedBody body b) m) q)
        end
  end.

Definition sideBody (find : Request → result ResolveError Side) (limit : Z) : L (list ascii) := λ q,
  match find q with Err e => (Err e, q) | Ok d => httpMessageBody d limit q end.

(** ** Into a buffer *)

(** The limit of the reader is one more than that of the body. *)
Definition readStreamReader (content : list ascii) (limit : Z) : result ResolveError (list ascii) :=
  if streamBodyLimitUnlimited limit then Ok content
  else
    let n := add64 limit 1 in
    streamBytesWithinLimit (take (Z.to_nat n) content) limit.

Definition readStreamFile (path : string) (limit : Z) : result ResolveError (list ascii) :=
  match ReadFile path with
  | None => Err FileNotOpened
  | Some content => readStreamReader content limit
  end.

Definition resolveStreamSourceConfig (src : StreamSourceConfig) (limit : Z) : L (list ascii) :=
  let from := src_From src in
  if bool_decide (from ∈ [streamSourceRequestBody; streamSourceRequestHTTPBody]) then sideBody requestHTTPMessage limit
  else if bool_decide (from ∈ [streamSourceResponseBody; streamSourceResponseHTTPBody]) then sideBody responseHTTPMessage limit
  else if bool_decide (from = streamSourceAdaptedHTTPBody) then sideBody adaptedHTTPBodyMessage limit
  else if bool_decide (from = streamSourceBody) then lift (streamBytesWithinLimit (bytes_of (src_Body src)) limit)
  else if bool_decide (from = streamSourceBodyFile) then lift (readStreamFile (src_BodyFile src) limit)
  else lerr UnsupportedSource.

Definition appendStreamBytes (out body : list ascii) (limit : Z) : result ResolveError (list ascii) :=
  if negb (streamBodyLimitUnlimited limit) && (limit <? Z.of_nat (length out) + Z.of_nat (length body))
  then Err SourceTooLarge else Ok (out ++ body).

Fixpoint resolveStreamPartsFrom (out : list ascii) (parts : list StreamSourceConfig) (limit : Z) : L (list ascii) :=
  match parts with
  | [] => lret out
  | part :: parts =>
      load! body := resolveStreamSourceConfig part limit in
      load! out := lift (appendStreamBytes out body limit) in
      resolveStreamPartsFrom out parts limit
  end.

Definition resolveStreamParts (parts : list StreamSourceConfig) (limit : Z) : L (list ascii) :=
  resolveStreamPartsFrom [] parts limit.

(** ** Multipart bodies *)

Definition multipartMediaPrefix : string := "multipart/".

Definition streamHTTPMessage (from : string) (q : Request) : result ResolveError Side :=
  if bool_decide (from = streamSourceRequestHTTPBody) then requestHTTPMessage q
  else if bool_decide (from = streamSourceResponseHTTPBody) then responseHTTPMessage q
  else if bool_decide (from = streamSourceAdaptedHTTPBody) then adaptedHTTPBodyMessage q
  else Err UnsupportedSource.

(** The header of the message and its body. *)
Definition streamHTTPSource : Type := Header * list ascii.

Definition streamHTTPSourceFor (from : string) (limit : Z) : L streamHTTPSource := λ q,
  match streamHTTPMessage from q with
  | Err e => (Err e, q)
  | Ok d => (load! body := httpMessageBody d limit in
             lret (default ∅ (msg_Header <$> side_message d q), body)) q
  end.

Definition multipartBoundary (h : Header) : result ResolveError string :=
  match Get h "Content-Type" with
  | None => Err ContentTypeRequired
  | Some contentType =>
      match ParseMediaType contentType with
      | None => Err ContentTypeRequired
      | Some (mediaType, params) =>
          if negb (has_prefix mediaType multipartMediaPrefix) then Err ContentTypeRequired
          else
            let boundary := trim_space (default "" (params !! "boundary")) in
            if bool_decide (boundary = "") then Err BoundaryRequired else Ok boundary
      end
  end.

Definition matchesAnyPattern (value : string) (patterns : list string) : bool :=
  existsb (λ pattern, MatchPattern pattern value) patterns.

Definition fieldSelected (name : string) (fields : list string) : bool := existsb (String.eqb name) fields.

Definition fileSelected (filename : string) (cfg : StreamMultipartFilesConfig) : bool :=
  if negb (files_IsSet cfg) || negb (files_Enabled cfg) || String.eqb filename "" then false
  else if bool_decide (files_Filename cfg = []) then true
  else matchesAnyPattern filename (files_Filename cfg).

Definition multipartPartMatches (part : MimePart) (cfg : StreamMultipartConfig) : bool :=
  if fieldSelected (mp_FormName part) (mp_Fields cfg) then true
  else fileSelected (mp_FileName part) (mp_Files cfg).

Definition appendSelectedPart (out : list ascii) (part : MimePart) (cfg : StreamMultipartConfig) (limit : Z)
  : result ResolveError (list ascii) :=
  if negb (multipartPartMatches part cfg) then Ok out
  else
    let copied := if mp_Broken part then Err MultipartMalformed else Ok (out ++ mp_Content part) in
    if streamBodyLimitUnlimited limit then copied
    else
      let remaining := limit - Z.of_nat (length out) in
      if remaining <? 0 then Err SourceTooLarge
      else if remaining <? Z.of_nat (length (mp_Content part)) then Err SourceTooLarge
      else copied.

Fixpoint readSelectedParts (out : list ascii) (parts : list MimePart) (ended : bool) (cfg : StreamMultipartConfig) (limit : Z)
  : result ResolveError (list ascii) :=
  match parts with
  | [] => if ended then Ok out else Err MultipartMalformed
  | part :: parts =>
      match appendSelectedPart out part cfg limit with
      | Err e => Err e
      | Ok out => readSelectedParts out parts ended cfg limit
      end
  end.

Definition selectMultipartBody (source : streamHTTPSource) (cfg : StreamMultipartConfig) (limit : Z)
  : result ResolveError (list ascii) :=
  match multipartBoundary source.1 with
  | Err e => Err e
  | Ok boundary =>
      let '(parts, ended) := MultipartParts boundary source.2 in
      match readSelectedParts [] parts ended cfg limit with
      | Err e => Err e
      | Ok selected => if (length selected =? 0)%nat then Err NoPartsMatched else Ok selected
      end
  end.

Definition fallbackIsSet (f : StreamFallbackConfig) : bool :=
  raw_IsSet (fb_RawFile f) || nonempty (fb_Body f) || nonempty (fb_BodyFile f) || nonempty (fb_From f).

Definition rawContentTypeIsMultipart (raw : string) : bool :=
  has_prefix (to_lower (trim_space raw)) multipartMediaPrefix.

Definition sourceHasMultipartContentType (source : streamHTTPSource) : bool :=
  match Get source.1 "Content-Type" with
  | None => false
  | Some raw =>
      match ParseMediaType raw with
      | None => rawContentTypeIsMultipart raw
      | Some (mediaType, _) => has_prefix (to_lower mediaType) multipartMediaPrefix
      end
  end.

Definition contentDispositionFilename (h : Header) : string :=
  match Get h "Content-Disposition" with
  | None => ""
  | Some raw =>
      match ParseMediaType raw with
      | None => ""
      | Some (_, params) => default "" (params !! "filename")
      end
  end.

Definition resolveRawFileFallback (cfg : StreamRawFileFallback) (source : streamHTTPSource)
  : result ResolveError (list ascii) :=
  if negb (raw_Enabled cfg) then Err RawFileDisabled
  else if sourceHasMultipartContentType source then Err RawFileMultipart
  else if bool_decide (raw_Filename cfg = []) then Ok source.2
  else
    let filename := contentDispositionFilename source.1 in
    if nonempty filename && matchesAnyPattern filename (raw_Filename cfg) then Ok source.2
    else Err RawFileNotMatched.

Definition resolveStreamFallback (fallback : StreamFallbackConfig) (source : streamHTTPSource) (limit : Z) : L (list ascii) :=
  if raw_IsSet (fb_RawFile fallback) then lift (resolveRawFileFallback (fb_RawFile fallback) source)
  else if nonempty (fb_Body fallback) then lift (streamBytesWithinLimit (bytes_of (fb_Body fallback)) limit)
  else if nonempty (fb_BodyFile fallback) then lift (readStreamFile (fb_BodyFile fallback) limit)
  else if nonempty (fb_From fallback) then
    resolveStreamSourceConfig {| src_From := fb_From fallback; src_Body := ""; src_BodyFile := "" |} limit
  else lerr FallbackEmpty.

Definition resolveMultipartSelectorMiss (stream : Stream) (source : streamHTTPSource) (limit : Z) : L (list ascii) :=
  if fallbackIsSet (Fallback stream) && negb (raw_IsSet (fb_RawFile (Fallback stream))) then
    resolveStreamFallback (Fallback stream) source limit
  else if mp_AllowEmpty (Multipart stream) then lret []
  else lerr NoPartsMatched.

Definition resolveMultipartStream (stream : Stream) (limit : Z) : L (list ascii) :=
  load! source := streamHTTPSourceFor (src_From (Source stream)) limit in
  match selectMultipartBody source (Multipart stream) limit with
  | Ok selected => lret selected
  | Err NoPartsMatched => resolveMultipartSelectorMiss stream source limit
  | Err e =>
      if fallbackIsSet (Fallback stream) then resolveStreamFallback (Fallback stream) source limit
      else lerr e
  end.

Definition resolveStreamSourceWithLimit (stream : Stream) (limit : Z) : L (list ascii) :=
  if negb (bool_decide (Parts stream = [])) then resolveStreamParts (Parts stream) limit
  else if mp_IsSet (Multipart stream) then resolveMultipartStream stream limit
  else resolveStreamSourceConfig (Source stream) limit.

Definition resolveStreamSource (stream : Stream) : L (list ascii) :=
  resolveStreamSourceWithLimit stream defaultStreamBodyLimit.

(** ** Into payloads *)

Definition part_of_bytes (body : list ascii) : PartPayload := inl (NewBorrowedBytesStreamPayload body).

(** The error of a payload over the limit. *)
Definition limitStreamPayload {P RD : Type} `{Payload P RD} (payload : P) (limit : Z) : result ResolveError (LimitedPayload P) :=
  match NewLimitedStreamPayload (R := RD) payload limit with
  | Err _ => Err SourceTooLarge
  | Ok p => Ok p
  end.

Definition inlineStreamPayload (body : string) (limit : Z) : result ResolveError PartPayload :=
  match limitStreamPayload (RD := BytesReader) (NewBytesStreamPayload (bytes_of body)) limit with
  | Err e => Err e
  | Ok p => Ok (inr (inl p))
  end.

(** The file is opened now and read during delivery, with the size it has now. *)
Definition fileStreamPayload (path : string) (limit : Z) : result ResolveError PartPayload :=
  match ReadFile path with
  | None => Err FileNotOpened
  | Some content =>
      match limitStreamPayload (RD := BytesReader)
              (NewOneShotStreamPayload {| br_rest := content |} (Z.of_nat (length content))) limit with
      | Err e => Err e
      | Ok p => Ok (inr (inr p))
      end
  end.

Definition rawHTTPBodyStreamPayload (from : string) (limit : Z) : L PartPayload :=
  load! body := sideBody (rawHTTPBodyMessage from) limit in lret (part_of_bytes body).

Definition streamSourcePayload (src : StreamSourceConfig) (limit : Z) : L PartPayload :=
  let from := src_From src in
  if rawHTTPBodySource from then rawHTTPBodyStreamPayload from limit
  else if bool_decide (from = streamSourceBody) then lift (inlineStreamPayload (src_Body src) limit)
  else if bool_decide (from = streamSourceBodyFile) then lift (fileStreamPayload (src_BodyFile src) limit)
  else lerr UnsupportedSource.

Definition canonicalRawHTTPBodySource (from method : string) : option string :=
  if bool_decide (from ∈ [streamSourceRequestBody; streamSourceRequestHTTPBody]) then Some streamSourceRequestHTTPBody
  else if bool_decide (from ∈ [streamSourceResponseBody; streamSourceResponseHTTPBody]) then Some streamSourceResponseHTTPBody
  else if bool_decide (from = streamSourceAdaptedHTTPBody) then
    if bool_decide (method = MethodREQMOD) then Some streamSourceRequestHTTPBody
    else if bool_decide (method = MethodRESPMOD) then Some streamSourceResponseHTTPBody
    else None
  else None.

Definition messageHasCachedStreamBody (m : Message) : bool :=
  bodyLoaded (msg_Body m) || (0 <? length (bytes_or_nil (Message.Body (msg_Body m))))%nat.

Definition liveHTTPBodySource (source : string) (q : Request) : result ResolveError bool :=
  match rawHTTPBodyMessage source q with
  | Err e => Err e
  | Ok d =>
      match side_message d q with
      | None => Err NoHTTPRequest
      | Some m => Ok (bool_decide (is_Some (BodyReader (msg_Body m))) && negb (messageHasCachedStreamBody m))
      end
  end.

(** [seen] are the sources of the parts before. *)
Fixpoint rejectRepeatedFrom (seen : list string) (parts : list StreamSourceConfig) (q : Request) : result ResolveError unit :=
  match parts with
  | [] => Ok tt
  | part :: parts =>
      match canonicalRawHTTPBodySource (src_From part) (q_Method q) with
      | None => rejectRepeatedFrom seen parts q
      | Some source =>
          if bool_decide (source ∈ seen) then
            match liveHTTPBodySource source q with
            | Err e => Err e
            | Ok true => Err RepeatedLivePart
            | Ok false => rejectRepeatedFrom seen parts q
            end
          else rejectRepeatedFrom (source :: seen) parts q
      end
  end.

Definition rejectRepeatedLiveHTTPBodyParts (parts : list StreamSourceConfig) (q : Request) : result ResolveError unit :=
  rejectRepeatedFrom [] parts q.

Fixpoint partPayloads (parts : list StreamSourceConfig) (limit : Z) : L (list PartPayload) :=
  match parts with
  | [] => lret []
  | part :: parts =>
      load! payload := streamSourcePayload part limit in
      load! payloads := partPayloads parts limit in
      lret (payload :: payloads)
  end.

Definition sequenceOf (payloads : list PartPayload) : SequencePayload PartPayload :=
  NewSequenceStreamPayload (R := PartReader) (Some <$> payloads).

Definition streamPartsPayload (parts : list StreamSourceConfig) (limit : Z) : L ProcPayload := λ q,
  match rejectRepeatedLiveHTTPBodyParts parts q with
  | Err e => (Err e, q)
  | Ok _ =>
      (load! payloads := partPayloads parts limit in
       load! p := lift (limitStreamPayload (RD := SequenceReader PartPayload PartReader) (sequenceOf payloads) limit) in
       lret (inr p)) q
  end.

Definition bufferedStreamPayload (stream : Stream) (limit : Z) : L ProcPayload :=
  load! body := resolveStreamSourceWithLimit stream limit in lret (inl (part_of_bytes body)).

Definition resolveStreamPayloadWithLimit (stream : Stream) (limit : Z) : L ProcPayload :=
  if mp_IsSet (Multipart stream) then bufferedStreamPayload stream limit
  else if negb (bool_decide (Parts stream = [])) then streamPartsPayload (Parts stream) limit
  else
    load! p := (if rawHTTPBodySource (src_From (Source stream)) then rawHTTPBodyStreamPayload (src_From (Source stream)) limit
                else streamSourcePayload (Source stream) limit) in
    lret (inl p).
End Resolve.

(** ** Payloads with their bytes *)

Section Sized.
Context {P RD : Type} `{HP : Payload P RD, HL : ReaderLaws RD}.

(** Opened, the payload delivers the bytes, and it knows how many. *)
Definition sized (p : P) (bs : list ascii) : Prop := opens p bs ∧ p_size (R := RD) p = Some (Z.of_nat (length bs)).

Lemma sized_honest p bs : sized p bs → honest p bs.
Proof using. intros [Ho Hs]. split; [done|by right]. Qed.

Lemma limit_sized p bs limit :
  sized p bs → limit ≤ max_int64 →
  if exceeds limit bs then limitStreamPayload (RD := RD) p limit = Err SourceTooLarge
  else limitStreamPayload (RD := RD) p limit = Ok {| lp_payload := p; lp_maxBytes := limit |} ∧
       opens (R := MaybeLimited RD) {| lp_payload := p; lp_maxBytes := limit |} bs ∧
       p_size (R := MaybeLimited RD) {| lp_payload := p; lp_maxBytes := limit |} = Some (Z.of_nat (length bs)).
Proof using.
  intros [(rd & q & Eo & Hd) Hs] Hmax. unfold exceeds, limitStreamPayload, NewLimitedStreamPayload. rewrite Hs.
  assert (Hopen : (0 <? limit) && (limit <? Z.of_nat (length bs)) = false →
    opens (R := MaybeLimited RD) {| lp_payload := p; lp_maxBytes := limit |} bs).
  { intros Hle. unfold opens, p_open, LimitedPayload_Payload. cbn [lp_payload lp_maxBytes]. rewrite Eo. do 2 eexists. split; [reflexivity|].
    unfold limitedReadCloser. destruct (Z.leb_spec limit 0); [exact Hd|].
    split; [exact Hd|]. rewrite (proj2 (Z.ltb_lt 0 limit)) in Hle by lia. cbn [andb] in Hle. apply Z.ltb_ge in Hle. cbn. lia. }
  destruct (Z.leb_spec limit 0).
  - rewrite (proj2 (Z.ltb_ge 0 limit)) in * by lia. cbn [andb] in *. split; [done|]. split; [by apply Hopen|exact Hs].
  - rewrite (proj2 (Z.ltb_lt 0 limit)) in * by lia. cbn [andb] in *. destruct (limit <? _); [done|].
    split; [done|]. split; [by apply Hopen|exact Hs].
Qed.
End Sized.

(** A sequence of payloads that are not opened yet. *)
Lemma sequence_sized {P RD} `{HP : Payload P RD, HL : ReaderLaws RD, HC : !Closer RD, HCC : !CleanCloser RD} (ps : list P) bss :
  Forall2 sized ps bss → Z.of_nat (length (concat bss)) ≤ max_int64 →
  sized (RD := SequenceReader P RD) (NewSequenceStreamPayload (R := RD) (Some <$> ps)) (concat bss).
Proof.
  intros Hps Hmax.
  assert (Hm : ∃ repl, sequencePayloadMetadata (R := RD) (Some <$> ps) 0 true true = (Z.of_nat (length (concat bss)), repl)).
  { rewrite (sequence_metadata ps bss 0 true true); [|by eapply Forall2_impl; [exact Hps|intros p bs [_ Hs]; by right]|done|lia].
    assert (forallb (λ p, bool_decide (is_Some (p_size (R := RD) p))) ps = true) as ->; [|by eexists].
    apply forallb_forall. intros p Hp%list_elem_of_In. apply list_elem_of_lookup in Hp as (i & Hp).
    destruct (Forall2_lookup_l _ _ _ _ _ Hps Hp) as (bs & _ & _ & Hs). rewrite Hs. by apply bool_decide_true. }
  destruct Hm as (repl & Hm). unfold NewSequenceStreamPayload. rewrite Hm. split.
  - unfold opens, p_open, SequencePayload_Payload. cbn [sp_replayable sp_opened]. rewrite andb_false_r. do 2 eexists. split; [reflexivity|].
    split; [done|]. exists O. split; [done|]. split; [done|]. split; [cbn; lia|]. exists [], (Some <$> ps), bss.
    split; [done|]. split; [|done]. apply Forall2_fmap_l. eapply Forall2_impl; [exact Hps|].
    intros p bs [Ho _]. by exists p.
  - unfold p_size, SequencePayload_Payload. cbn [sp_sizeHint]. unfold streamPayloadSizeHint.
    by rewrite (proj2 (Z.leb_le _ _)) by lia.
Qed.

Notation sized_part := (sized (P := PartPayload) (RD := PartReader)).

Lemma bytes_sized body : sized (RD := BytesReader) (NewBytesStreamPayload body) body.
Proof.
  split; [do 2 eexists; split; [reflexivity|by split]|]. unfold p_size, Replayable_Payload. cbn. unfold normalizeSizeHint.
  rewrite (proj2 (Z.ltb_ge _ _)) by lia. unfold streamPayloadSizeHint. by rewrite (proj2 (Z.leb_le _ _)) by lia.
Qed.

Lemma file_sized content :
  sized (RD := BytesReader) (NewOneShotStreamPayload {| br_rest := content |} (Z.of_nat (length content))) content.
Proof.
  split; [do 2 eexists; split; [reflexivity|by split]|]. unfold p_size, OneShot_Payload. cbn. unfold normalizeSizeHint.
  rewrite (proj2 (Z.ltb_ge _ _)) by lia. unfold streamPayloadSizeHint. by rewrite (proj2 (Z.leb_le _ _)) by lia.
Qed.

Lemma part_of_bytes_sized body : sized_part (part_of_bytes body) body.
Proof. split; [do 2 eexists; split; [reflexivity|by split]|]. exact (proj2 (bytes_sized body)). Qed.

Lemma within_exceeds body limit :
  streamBytesWithinLimit body limit = if exceeds limit body then Err SourceTooLarge else Ok body.
Proof.
  unfold streamBytesWithinLimit, exceeds, streamBodyLimitUnlimited. by rewrite <- Z.ltb_antisym.
Qed.

(** Opening a payload does not change its size. *)
Lemma open_size (p : ProcPayload) : p_size (R := ProcReader) (p_open (R := ProcReader) p).2 = p_size (R := ProcReader) p.
Proof.
  destruct p as [[p|[[p m]|[p m]]]|[[ps hint [] []] m]]; try done.
Qed.

Section Equivalence.
Context {R : Type} `{Reader R} (grow : nat → nat → nat) (fuel : nat) (sizes : nat → nat).
Context (ReadFile : string → option (list ascii)).
Context (ParseMediaType : string → option (string * gmap string string)).
Context (MultipartParts : string → list ascii → list MimePart * bool).
Context (MatchPattern : string → string → bool).
Context (limit : Z) (Hlimit : limit < max_int64).

Notation Request := (Request (R := R)).
Notation resolve := (resolveStreamSourceConfig grow fuel sizes ReadFile).
Notation payload := (streamSourcePayload grow fuel sizes ReadFile).

Lemma inline_part body :
  match inlineStreamPayload body limit with
  | Ok p => streamBytesWithinLimit (bytes_of body) limit = Ok (bytes_of body) ∧ sized_part p (bytes_of body)
  | Err e => streamBytesWithinLimit (bytes_of body) limit = Err e
  end.
Proof using Hlimit.
  unfold inlineStreamPayload. rewrite within_exceeds.
  pose proof (limit_sized _ _ limit (bytes_sized (bytes_of body)) ltac:(lia)) as Hl.
  destruct (exceeds limit (bytes_of body)); [by rewrite Hl|]. destruct Hl as (-> & (rd & q & E & Hd) & Hs).
  split; [done|]. split; [|exact Hs]. cbn in E. injection E as <- <-.
  do 2 eexists. split; [reflexivity|exact Hd].
Qed.

Lemma file_part path :
  match fileStreamPayload ReadFile path limit with
  | Ok p => ∃ bs, readStreamFile ReadFile path limit = Ok bs ∧ sized_part p bs
  | Err e => readStreamFile ReadFile path limit = Err e
  end.
Proof using Hlimit.
  unfold fileStreamPayload, readStreamFile. destruct (ReadFile path) as [content|]; [|done].
  assert (Hread : readStreamReader content limit = if exceeds limit content then Err SourceTooLarge else Ok content).
  { unfold readStreamReader, exceeds, streamBodyLimitUnlimited. destruct (Z.leb_spec limit 0).
    - by rewrite (proj2 (Z.ltb_ge 0 limit)) by lia.
    - cbv zeta. unfold add64. rewrite wrap64_id by (unfold in_int64, min_int64; lia).
      rewrite within_exceeds. unfold exceeds. rewrite length_take, (proj2 (Z.ltb_lt 0 limit)) by lia. cbn [andb].
      destruct (Z.ltb_spec limit (Z.of_nat (length content))).
      + rewrite (proj2 (Z.ltb_lt _ _)) by lia. done.
      + rewrite (proj2 (Z.ltb_ge _ _)) by lia. by rewrite take_ge by lia. }
  rewrite Hread. pose proof (limit_sized _ _ limit (file_sized content) ltac:(lia)) as Hl.
  destruct (exceeds limit content); [by rewrite Hl|]. destruct Hl as (-> & (rd & q & E & Hd) & Hs).
  exists content. split; [done|]. split; [|exact Hs]. cbn in E. injection E as <- <-.
  do 2 eexists. split; [reflexivity|exact Hd].
Qed.

(** One source: the same errors, and a payload with the same bytes. *)
Lemma part_equiv src q :
  match payload src limit q with
  | (Ok p, q') => ∃ bs, resolve src limit q = (Ok bs, q') ∧ sized_part p bs
  | (Err e, q') => resolve src limit q = (Err e, q')
  end.
Proof using Hlimit.
  assert (Hraw : ∀ find, rawHTTPBodyMessage (src_From src) q = find q →
    match rawHTTPBodyStreamPayload grow fuel sizes (src_From src) limit q with
    | (Ok p, q') => ∃ bs, sideBody grow fuel sizes find limit q = (Ok bs, q') ∧ sized_part p bs
    | (Err e, q') => sideBody grow fuel sizes find limit q = (Err e, q')
    end).
  { intros find Hf. unfold rawHTTPBodyStreamPayload, lbind, lret. unfold sideBody. rewrite Hf.
    destruct (match find q with Ok d => _ | Err e => _ end) as [[body|e] q']; [|done].
    exists body. split; [done|apply part_of_bytes_sized]. }
  unfold streamSourcePayload, resolveStreamSourceConfig. cbv zeta. unfold rawHTTPBodyMessage in Hraw.
  assert (Hfrom : rawHTTPBodySource (src_From src) =
    bool_decide (src_From src ∈ [streamSourceRequestBody; streamSourceRequestHTTPBody]) ||
    (bool_decide (src_From src ∈ [streamSourceResponseBody; streamSourceResponseHTTPBody]) ||
     bool_decide (src_From src = streamSourceAdaptedHTTPBody))).
  { unfold rawHTTPBodySource. rewrite <- !bool_decide_or. apply bool_decide_ext. set_solver. }
  rewrite Hfrom. destruct (bool_decide (src_From src ∈ [streamSourceRequestBody; _])); [by apply Hraw|].
  destruct (bool_decide (src_From src ∈ [streamSourceResponseBody; _])); [by apply Hraw|].
  destruct (bool_decide (src_From src = streamSourceAdaptedHTTPBody)); [by apply Hraw|]. cbn [orb].
  destruct (bool_decide (src_From src = streamSourceBody)).
  - unfold lift. pose proof (inline_part (src_Body src)) as Hi. destruct (inlineStreamPayload _ _) as [p|e].
    + destruct Hi as [-> Hs]. by eexists.
    + by rewrite Hi.
  - destruct (bool_decide (src_From src = streamSourceBodyFile)); [|done].
    unfold lift. pose proof (file_part (src_BodyFile src)) as Hf. destruct (fileStreamPayload _ _ _) as [p|e].
    + destruct Hf as (bs & -> & Hs). by eexists.
    + by rewrite Hf.
Qed.

Lemma exceeds_app out body : exceeds limit out = true → exceeds limit (out ++ body) = true.
Proof using.
  unfold exceeds. rewrite length_app. destruct (0 <? limit); [|done]. cbn [andb]. rewrite !Z.ltb_lt. lia.
Qed.

Lemma append_exceeds out body :
  appendStreamBytes out body limit = if exceeds limit (out ++ body) then Err SourceTooLarge else Ok (out ++ body).
Proof using.
  unfold appendStreamBytes, exceeds, streamBodyLimitUnlimited. rewrite <- Z.ltb_antisym, length_app, Nat2Z.inj_add. done.
Qed.

Notation resolve_parts := (resolveStreamPartsFrom grow fuel sizes ReadFile).

(** A buffer over the limit is not filled any further. *)
Lemma parts_equiv parts out q :
  exceeds limit out = false →
  match partPayloads grow fuel sizes ReadFile parts limit q with
  | (Ok ps, q') => ∃ bss, Forall2 sized_part ps bss ∧
      if exceeds limit (out ++ concat bss) then (resolve_parts out parts limit q).1 = Err SourceTooLarge
      else resolve_parts out parts limit q = (Ok (out ++ concat bss), q')
  | (Err _, _) => ∃ e, (resolve_parts out parts limit q).1 = Err e
  end.
Proof using Hlimit.
  revert out q. induction parts as [|part parts IH]; intros out q Hout.
  { cbn. exists []. split; [constructor|]. cbn. by rewrite app_nil_r, Hout. }
  cbn [partPayloads resolveStreamPartsFrom]. unfold lbind, lret, lift. pose proof (part_equiv part q) as Hp.
  destruct (payload part limit q) as [[p|e] q1]; [|rewrite Hp; by eexists]. destruct Hp as (bs & -> & Hbs). rewrite append_exceeds.
  destruct (exceeds limit (out ++ bs)) eqn:Ex.
  - specialize (IH [] q1). destruct (partPayloads _ _ _ _ parts limit q1) as [[ps|e] q2]; [|by eexists].
    destruct IH as (bss & Hbss & _); [unfold exceeds; by destruct (0 <? limit) eqn:E0; [apply Z.ltb_lt in E0; apply Z.ltb_ge; simpl; lia|]|].
    exists (bs :: bss). split; [by constructor|]. cbn [concat]. by rewrite app_assoc, exceeds_app.
  - specialize (IH (out ++ bs) q1 Ex). destruct (partPayloads _ _ _ _ parts limit q1) as [[ps|e] q2]; [|done].
    destruct IH as (bss & Hbss & Hres). exists (bs :: bss). split; [by constructor|]. cbn [concat]. by rewrite app_assoc.
Qed.

(** The sizes of the parts together fit into an [int64]. *)
Definition payload_sizes (ps : list PartPayload) : Z := zsum (map (λ p, default 0 (p_size (R := PartReader) p)) ps).

Lemma payload_sizes_concat ps bss : Forall2 sized_part ps bss → payload_sizes ps = Z.of_nat (length (concat bss)).
Proof using.
  induction 1 as [|p bs ps bss [_ Hs] _ IH]; [done|]. unfold payload_sizes in *. cbn [map zsum concat]. rewrite Hs, IH, length_app. cbn. lia.
Qed.

Notation sized_payload := (sized (P := ProcPayload) (RD := ProcReader)).

Lemma inl_sized p bs : sized_part p bs → sized_payload (inl p) bs.
Proof using.
  intros [(rd & r & E & Hd) Hs]. split; [|exact Hs]. exists (inl rd), (inl r). split; [|exact Hd].
  change (p_open (inl p)) with (let '(r, p) := p_open (R := PartReader) p in
    (match r with Ok rd => Ok (inl rd : ProcReader) | Err e => Err e end, inl p : ProcPayload)). by rewrite E.
Qed.

Lemma inr_sized (p : LimitedPayload (SequencePayload PartPayload)) bs :
  sized (RD := MaybeLimited (SequenceReader PartPayload PartReader)) p bs → sized_payload (inr p) bs.
Proof using.
  intros [(rd & r & E & Hd) Hs]. split; [|exact Hs]. exists (inr rd), (inr r). split; [|exact Hd].
  change (p_open (inr p)) with (let '(r, p) := p_open (R := MaybeLimited (SequenceReader PartPayload PartReader)) p in
    (match r with Ok rd => Ok (inr rd : ProcReader) | Err e => Err e end, inr p : ProcPayload)). by rewrite E.
Qed.

Notation resolve_payload := (resolveStreamPayloadWithLimit grow fuel sizes ReadFile ParseMediaType MultipartParts MatchPattern).
Notation resolve_buffer := (resolveStreamSourceWithLimit grow fuel sizes ReadFile ParseMediaType MultipartParts MatchPattern).

(** What a payload is resolved to. *)
Lemma resolve_payload_spec (stream : Stream) (q : Request) :
  (∀ ps q', partPayloads grow fuel sizes ReadFile (Parts stream) limit q = (Ok ps, q') → payload_sizes ps ≤ max_int64) →
  match resolve_payload stream limit q with
  | (Ok p, q') => ∃ bs, resolve_buffer stream limit q = (Ok bs, q') ∧ sized_payload p bs
  | (Err _, _) => (∃ e, (resolve_buffer stream limit q).1 = Err e) ∨ is_ok (rejectRepeatedLiveHTTPBodyParts (Parts stream) q) = false
  end.
Proof using Hlimit.
  intros Hmem. unfold resolveStreamPayloadWithLimit. destruct (mp_IsSet (Multipart stream)) eqn:Emp.
  - unfold bufferedStreamPayload, lbind, lret. destruct (resolve_buffer stream limit q) as [[body|e] q']; [|left; by eexists].
    exists body. split; [done|]. by apply inl_sized, part_of_bytes_sized.
  - unfold resolveStreamSourceWithLimit. destruct (bool_decide (Parts stream = [])) eqn:Eparts; cbn [negb]; rewrite ?Emp.
    + assert (Hraw : (if rawHTTPBodySource (src_From (Source stream)) then rawHTTPBodyStreamPayload grow fuel sizes (src_From (Source stream)) limit
                      else payload (Source stream) limit) = payload (Source stream) limit).
      { unfold streamSourcePayload. cbv zeta. by destruct (rawHTTPBodySource _). }
      unfold lbind, lret. rewrite Hraw. pose proof (part_equiv (Source stream) q) as Hp. destruct (payload (Source stream) limit q) as [[p|e] q'].
      * destruct Hp as (bs & -> & Hs). exists bs. split; [done|]. by apply inl_sized.
      * rewrite Hp. left. by eexists.
    + unfold streamPartsPayload. destruct (rejectRepeatedLiveHTTPBodyParts (Parts stream) q) as [[]|e]; [|by right].
      unfold lbind, lret, lift, resolveStreamParts.
      assert (Hnil : exceeds limit [] = false).
      { unfold exceeds. destruct (Z.ltb_spec 0 limit); [|done]. cbn. apply Z.ltb_ge. lia. }
      pose proof (parts_equiv (Parts stream) [] q Hnil) as Hp. destruct (partPayloads _ _ _ _ _ _ q) as [[ps|e] q'] eqn:Eps.
      2:{ destruct Hp as [e' Hp]. left. by exists e'. }
      destruct Hp as (bss & Hbss & Hres). cbn [app] in Hres.
      assert (Hsz : Z.of_nat (length (concat bss)) ≤ max_int64) by (rewrite <- (payload_sizes_concat _ _ Hbss); by eapply Hmem).
      pose proof (limit_sized (RD := SequenceReader PartPayload PartReader) (sequenceOf ps) (concat bss) limit
        (sequence_sized ps bss Hbss Hsz) ltac:(lia)) as Hlim.
      destruct (exceeds limit (concat bss)).
      * rewrite Hlim. left. by eexists.
      * destruct Hlim as (-> & Ho & Hs). exists (concat bss). split; [done|]. by apply inr_sized.
Qed.
(** The payload that is resolved for a stream delivers exactly the bytes that
    resolving it into a buffer gives, tells their number, and leaves the request the
    same; when there is no payload the buffer fails too, unless the parts were
    refused for streaming a body twice that is not loaded. *)
Theorem stream_payload_equivalent (stream : Stream) (q : Request) :
  (∀ ps q', partPayloads grow fuel sizes ReadFile (Parts stream) limit q = (Ok ps, q') → payload_sizes ps ≤ max_int64) →
  match resolve_payload stream limit q with
  | (Ok p, q') => ∃ bs, resolve_buffer stream limit q = (Ok bs, q') ∧
      opens (R := ProcReader) p bs ∧ p_size (R := ProcReader) p = Some (Z.of_nat (length bs))
  | (Err _, _) => (∃ e, (resolve_buffer stream limit q).1 = Err e) ∨ is_ok (rejectRepeatedLiveHTTPBodyParts (Parts stream) q) = false
  end.
Proof using Hlimit.
  intros Hmem. pose proof (resolve_payload_spec stream q Hmem) as Hp.
  destruct (resolve_payload stream limit q) as [[p|e] q']; [|exact Hp]. destruct Hp as (bs & Hb & Ho & Hs). by exists bs.
Qed.
End Equivalence.

(** ** Instances *)

Module Resolving.
Definition source (from body file : string) : StreamSourceConfig := {| src_From := from; src_Body := body; src_BodyFile := file |}.

Definition stream : Stream :=
  {| Fallback := Fallback demo_stream; Source := source "" "" "";
     Parts := [source "body" "ab" ""; source "request_http_body" "" ""; source "body_file" "" "f"];
     From := ""; Body := ""; BodyFile := "";
     Multipart := {| mp_Fields := []; mp_Files := mp_Files (Multipart demo_stream); mp_AllowEmpty := false; mp_IsSet := false |};
     Controls := Controls demo_stream; PartsSet := true |}.

Definition files (path : string) : option (list ascii) := if String.eqb path "f" then Some (bytes_of "cd") else None.

Definition resolve (limit : Z) :=
  resolveStreamPayloadWithLimit Demo.grow 10 (λ _, 4%nat) files (λ _, None) (λ _ _, ([], true)) (λ _ _, false) stream limit Demo.request.
End Resolving.

Lemma stream_payload_equivalent_witness :
  is_ok (Resolving.resolve 12).1 = false ∧
  ∃ p q' bs, Resolving.resolve 13 = (Ok p, q') ∧ opens (R := ProcReader) p bs ∧ bs = bytes_of "abxxEICARxxcd".
Proof.
  split; [vm_compute; reflexivity|]. assert (Hok : is_ok (Resolving.resolve 13).1 = true) by (vm_compute; reflexivity).
  assert (Hbuf : (resolveStreamSourceWithLimit Demo.grow 10 (λ _, 4%nat) Resolving.files (λ _, None) (λ _ _, ([], true))
    (λ _ _, false) Resolving.stream 13 Demo.request).1 = Ok (bytes_of "abxxEICARxxcd")) by (vm_compute; reflexivity).
  pose proof (stream_payload_equivalent Demo.grow 10 (λ _, 4%nat) Resolving.files (λ _, None) (λ _ _, ([], true)) (λ _ _, false)
    13 eq_refl Resolving.stream Demo.request) as He.
  unfold Resolving.resolve in *. destruct (resolveStreamPayloadWithLimit _ _ _ _ _ _ _ _ _ _) as [[p|e] q']; [|discriminate Hok].
  destruct He as (bs & E & Ho & _).
  - intros ps q2 E. assert (Hp : (partPayloads Demo.grow 10 (λ _, 4%nat) Resolving.files (Parts Resolving.stream) 13 Demo.request).1 = Ok ps) by (by rewrite E).
    vm_compute in Hp. injection Hp as <-. vm_compute. discriminate.
  - rewrite E in Hbuf. exists p, q', bs. split; [reflexivity|]. split; [exact Ho|]. cbn [fst] in Hbuf. by injection Hbuf as ->.
Defined.
