(* ===== verification/Processor.v ===== *)
(** * The mock processor: [internal/processor/mock.go], with [preview.go],
      [processor.go], [echo.go] and [attachStream] of [streaming.go]

    From a request to the response of the scenario that matched it: the branch and
    the variant are chosen, captures are filled in, the body of a preview is
    loaded when it will be needed, the delay is waited for, and the response is
    built from the template and the request's messages. The registry is given by
    its [Match]; the random generator is a state that is threaded through, as is
    the request, whose bodies are loaded on the way. Maps are ranged over in an
    order of the runtime, a parameter. Metrics and logs are left out, except the
    labels that the request information keeps. *)
From S2P Require Import Prelude GoInt GoTime GoStrings Header Chunked Message Scenario.
From S2P Require Import Weight StreamPlan StreamSelect StreamSources Responses Substitute.
From S2P Require Import StreamPayload StreamDelivery IcapResponse StreamResolve.

Local Open Scope Z_scope.

Definition OutcomeAllowed : string := "allowed".
Definition OutcomeBlocked : string := "blocked".
Definition OutcomeError : string := "error".

Inductive ProcessError :=
| ContextDone
| ErrScenarioNotFound
| MatchFailed (e : MatchError)
| BranchPanic
| PreviewNoMessage (e : ResolveError)
| PreviewBodyFailed (e : BodyError)
| ScenarioResponseError (message : string)
| BodyFileFailed
| HTTPBodyFileFailed
| CloneBodyFailed (e : BodyError)
| StreamSourceFailed (e : ResolveError)
| StreamNoTarget
| StreamConfigFailed (e : SelectError).

Section Processor.
Context {Regexp IPNet R : Type} `{HR : Reader R} (grow : nat → nat → nat) (fuel : nat) (sizes : nat → nat).
Context (ReadFile : string → option (list ascii)).
Context (ParseMediaType : string → option (string * gmap string string)).
Context (MultipartParts : string → list ascii → list MimePart * bool).
Context (MatchPattern : string → string → bool).
(** The order in which a map is ranged over. *)
Context (map_order : gmap string string → list (string * string)).
(** [rand.Intn] and [rand.Int63n], and the selector of stream controls. *)
Context {G : Type} (Intn Int63n : G → Z → Z * G) (SelectInclusive : G → Z → Z → Z * G).

Notation Request := (Scenario.Request (R := R)).
Notation Message := (Scenario.Message (R := R)).
Notation Scenario := (Scenario.Scenario (Regexp := Regexp) (IPNet := IPNet) (Response := Responses)).
Notation HTTPMessage := (HTTPMessage ProcPayload ProcReader).
Notation Response := (Response ProcPayload ProcReader).

(** ** The template *)

(** The branch that matched, or the scenario itself. *)
Definition selectedResponses (s : Scenario) (q : Request) : result ProcessError Responses :=
  if bool_decide (Branches s = []) then Ok (s_Response s)
  else
    let '(idx, selected) := MatchedBranch q in
    let idx := if selected : bool then idx else -1 in
    if idx <? 0 then Err ErrScenarioNotFound
    else
      match Branches s !! Z.to_nat idx with
      | Some b => Ok (b_Response b)
      | None => Err BranchPanic
      end.

(** A variant overrides what it sets; the base is copied. *)
Definition mergeVariant (base : ResponseTemplate) (w : WeightedResponse) : ResponseTemplate :=
  {| rt_Headers := if bool_decide (wr_Headers w = ∅) then rt_Headers base else wr_Headers w;
     rt_HTTPHeaders := if bool_decide (wr_HTTPHeaders w = ∅) then rt_HTTPHeaders base else wr_HTTPHeaders w;
     rt_DelayRange := rt_DelayRange base;
     rt_Stream := or_else_opt (wr_Stream w) (rt_Stream base);
     rt_Block := or_else_opt (wr_Block w) (rt_Block base);
     rt_ResponseName := or_else (wr_ResponseName w) (rt_ResponseName base);
     rt_Use := rt_Use base;
     rt_Body := or_else (wr_Body w) (rt_Body base);
     rt_BodyFile := or_else (wr_BodyFile w) (rt_BodyFile base);
     rt_HTTPBody := or_else (wr_HTTPBody w) (rt_HTTPBody base);
     rt_HTTPBodyFile := or_else (wr_HTTPBodyFile w) (rt_HTTPBodyFile base);
     rt_Error := or_else (wr_Error w) (rt_Error base);
     rt_Status := rt_Status base;
     rt_ICAPStatus := or_else_num (wr_ICAPStatus w) (rt_ICAPStatus base);
     rt_HTTPStatus := or_else_num (wr_HTTPStatus w) (rt_HTTPStatus base);
     rt_Delay := rt_Delay base |}.

(** [selectWeightedResponse] on a list that is not empty. *)
Definition selectWeightedResponse (ws : list WeightedResponse) (g : G) : option WeightedResponse * G :=
  match ws with
  | [] => (None, g)
  | w :: _ =>
      let '(n, g) := Intn g (if wr_Weight w =? 0 then Z.of_nat (length ws) else Percentage.TotalUnits) in
      (Variants.selectWeightedResponseAt wr_Weight ws n ≫= λ i, ws !! i, g)
  end.

(** The template with the delay of the variant, if it has one. *)
Definition selectTemplate (r : Responses) (g : G) : ResponseTemplate * option DelayConfig * G :=
  match selectWeightedResponse (default [] (WeightedResponses r)) g with
  | (None, g) => (Responses.Response r, None, g)
  | (Some w, g) =>
      (mergeVariant (Responses.Response r) w,
       if (0 <? delay_Min (wr_Delay w)) || (0 <? delay_Max (wr_Delay w)) then Some (wr_Delay w) else None, g)
  end.

Definition fillCaptures (q : Request) (t : ResponseTemplate) : ResponseTemplate :=
  match Captures q with
  | Some captures => if bool_decide (captures = ∅) then t else substituteCaptures t captures
  | None => t
  end.

Definition responseStatusCode (t : ResponseTemplate) : Z :=
  if rt_ICAPStatus t =? 0 then rt_Status t else rt_ICAPStatus t.

Definition scenarioResponseLabel (t : ResponseTemplate) : string :=
  if nonempty (rt_ResponseName t) then rt_ResponseName t else FormatInt 10 (responseStatusCode t).

(** ** The body of a preview *)

Definition HasPreview (q : Request) : bool := q_PreviewSet q || (0 <? q_Preview q).
Definition IsPreviewMode (q : Request) : bool := HasPreview q.
Definition IsREQMOD (q : Request) : bool := bool_decide (q_Method q = MethodREQMOD).
Definition IsRESPMOD (q : Request) : bool := bool_decide (q_Method q = MethodRESPMOD).

Definition incomingStreamSource (source : string) : bool := rawHTTPBodySource source.

Definition streamNeedsIncomingBody (s : Stream) : bool :=
  mp_IsSet (Multipart s) || incomingStreamSource (src_From (Source s))
  || existsb (λ p, incomingStreamSource (src_From p)) (Parts s).

Definition selectedPreviewNeedsIncomingBody (q : Request) (t : ResponseTemplate) : bool :=
  if negb (IsPreviewMode q) || nonempty (rt_Error t) || (rt_ICAPStatus t =? StatusNoContentNeeded) then false
  else
    match rt_Stream t with
    | Some s => streamNeedsIncomingBody s
    | None =>
        if nonempty (rt_HTTPBody t) || nonempty (rt_HTTPBodyFile t) then false
        else if IsREQMOD q && (0 <? rt_HTTPStatus t) then false
        else
          match adaptedHTTPBodyMessage q with
          | Err _ => false
          | Ok d => match side_message d q with Some m => HasBody (msg_Body m) | None => false end
          end
    end.

(** The body of a message, whole or up to a limit that is positive. *)
Definition loadBody (d : Side) (limit : Z) (q : Request) : result BodyError (list ascii) * Request :=
  match side_message d q with
  | None => (Ok [], q)
  | Some m =>
      let '(res, b) :=
        if limit <=? 0 then GetBody grow fuel sizes (contentLengthHint m) (msg_Body m)
        else GetBodyLimited grow fuel sizes limit (contentLengthHint m) (msg_Body m) in
      (match res with Ok body => Ok (bytes_or_nil body) | Err e => Err e end, set_side d (with_msg_body b m) q)
  end.

Definition materializeSelectedPreviewBody (t : ResponseTemplate) (limit : Z) (q : Request)
  : result ProcessError unit * Request :=
  if negb (selectedPreviewNeedsIncomingBody q t) then (Ok tt, q)
  else
    match adaptedHTTPBodyMessage q with
    | Err e => (Err (PreviewNoMessage e), q)
    | Ok d =>
        match loadBody d limit q with
        | (Ok _, q) => (Ok tt, q)
        | (Err e, q) => (Err (PreviewBodyFailed e), q)
        end
    end.

(** ** Building the response *)

(** The body that replaces the message's, of [http_body] or its file. *)
Definition loadHTTPBody (t : ResponseTemplate) : result ProcessError (list ascii) :=
  if nonempty (rt_HTTPBody t) then Ok (bytes_of (rt_HTTPBody t))
  else if nonempty (rt_HTTPBodyFile t) then
    match ReadFile (rt_HTTPBodyFile t) with Some b => Ok b | None => Err HTTPBodyFileFailed end
  else Ok [].

(** [ResponseTemplate.GetBody]. *)
Definition templateBody (t : ResponseTemplate) : result ProcessError (list ascii) :=
  if nonempty (rt_BodyFile t) then
    match ReadFile (rt_BodyFile t) with Some b => Ok b | None => Err BodyFileFailed end
  else Ok (bytes_of (rt_Body t)).

Definition setBodyContentLength (h : Header) (userHTTPSet : gmap string string) (n : nat) : Header :=
  match userHTTPSet !! "Content-Length" with
  | Some v => if String.eqb v "auto" then Set_ h "Content-Length" (FormatInt 10 (Z.of_nat n)) else h
  | None => Set_ h "Content-Length" (FormatInt 10 (Z.of_nat n))
  end.

Definition setAll (h : Header) (headers : gmap string string) : Header := SetAll h (map_order headers).

Definition with_header (h : Header) (m : HTTPMessage) : HTTPMessage :=
  {| m_Method := m_Method m; m_URI := m_URI m; m_Status := m_Status m; m_StatusText := m_StatusText m;
     m_Proto := m_Proto m; m_Header := h; m_Body := m_Body m; m_BodyStream := m_BodyStream m |}.

Definition with_status_line (status text : string) (m : HTTPMessage) : HTTPMessage :=
  {| m_Method := m_Method m; m_URI := m_URI m; m_Status := status; m_StatusText := text;
     m_Proto := m_Proto m; m_Header := m_Header m; m_Body := m_Body m; m_BodyStream := m_BodyStream m |}.

Definition with_bytes (body : list ascii) (m : HTTPMessage) : HTTPMessage :=
  {| m_Method := m_Method m; m_URI := m_URI m; m_Status := m_Status m; m_StatusText := m_StatusText m;
     m_Proto := m_Proto m; m_Header := m_Header m; m_Body := body; m_BodyStream := m_BodyStream m |}.

Definition with_body_stream (s : option (BodyStream ProcPayload ProcReader)) (m : HTTPMessage) : HTTPMessage :=
  {| m_Method := m_Method m; m_URI := m_URI m; m_Status := m_Status m; m_StatusText := m_StatusText m;
     m_Proto := m_Proto m; m_Header := m_Header m; m_Body := m_Body m; m_BodyStream := s |}.

Definition cloneHTTPMessageMetadata (m : Message) : HTTPMessage :=
  {| m_Method := msg_Method m; m_URI := msg_URI m; m_Status := msg_Status m; m_StatusText := msg_StatusText m;
     m_Proto := msg_Proto m; m_Header := msg_Header m; m_Body := []; m_BodyStream := None |}.

(** The message on side [d], which is there, with its body unless it is skipped. *)
Definition cloneHTTPMessageForResponse (d : Side) (m : Message) (skipBody : bool) (limit : Z) (q : Request)
  : result ProcessError HTTPMessage * Request :=
  let clone := cloneHTTPMessageMetadata m in
  if skipBody then (Ok clone, q)
  else
    match loadBody d limit q with
    | (Err e, q) => (Err (CloneBodyFailed e), q)
    | (Ok body, q) => (Ok (with_bytes body clone), q)
    end.

(** The headers of the template, and its body with its length. *)
Definition overlay (t : ResponseTemplate) (httpBody : list ascii) (m : HTTPMessage) : HTTPMessage :=
  let m := with_header (setAll (m_Header m) (rt_HTTPHeaders t)) m in
  if (0 <? length httpBody)%nat then
    with_header (setBodyContentLength (m_Header m) (rt_HTTPHeaders t) (length httpBody)) (with_bytes httpBody m)
  else m.

Definition shouldSkipOriginalBody (t : ResponseTemplate) (httpBody : list ascii) : bool :=
  bool_decide (is_Some (rt_Stream t)) || (0 <? length httpBody)%nat.

(** An answer in place of the request. *)
Definition blockPage (t : ResponseTemplate) (httpBody : list ascii) : HTTPMessage :=
  overlay t httpBody
    {| m_Method := ""; m_URI := ""; m_Status := FormatInt 10 (rt_HTTPStatus t);
       m_StatusText := http_StatusText (rt_HTTPStatus t); m_Proto := "HTTP/1.1"; m_Header := NewHeader;
       m_Body := []; m_BodyStream := None |}.

Definition modifyRequest (t : ResponseTemplate) (httpBody : list ascii) (limit : Z) (resp : Response) (q : Request)
  : result ProcessError Response * Request :=
  match q_HTTPRequest q with
  | Some m =>
      if negb (IsREQMOD q) then (Ok resp, q)
      else if 0 <? rt_HTTPStatus t then (Ok (SetHTTPResponse (Some (blockPage t httpBody)) resp), q)
      else
        match cloneHTTPMessageForResponse RequestSide m (shouldSkipOriginalBody t httpBody) limit q with
        | (Err e, q) => (Err e, q)
        | (Ok httpReq, q) => (Ok (SetHTTPRequest (Some (overlay t httpBody httpReq)) resp), q)
        end
  | None => (Ok resp, q)
  end.

Definition modifyResponse (t : ResponseTemplate) (httpBody : list ascii) (limit : Z) (resp : Response) (q : Request)
  : result ProcessError Response * Request :=
  match q_HTTPResponse q with
  | Some m =>
      if negb (IsRESPMOD q) then (Ok resp, q)
      else
        match cloneHTTPMessageForResponse ResponseSide m (shouldSkipOriginalBody t httpBody) limit q with
        | (Err e, q) => (Err e, q)
        | (Ok httpResp, q) =>
            let httpResp := if 0 <? rt_HTTPStatus t
                            then with_status_line (FormatInt 10 (rt_HTTPStatus t)) (http_StatusText (rt_HTTPStatus t)) httpResp
                            else httpResp in
            (Ok (SetHTTPResponse (Some (overlay t httpBody httpResp)) resp), q)
        end
  | None => (Ok resp, q)
  end.

Definition setStreamContentLength (h : Header) (size : option Z) : Header :=
  match size with
  | Some n => Set_ h "Content-Length" (FormatInt 10 n)
  | None => Del h "Content-Length"
  end.

(** The message that is streamed, with what puts it back. *)
Definition streamTarget (resp : Response) : option (HTTPMessage * (HTTPMessage → Response)) :=
  match rs_HTTPResponse resp with
  | Some m => Some (m, λ m, SetHTTPResponse (Some m) resp)
  | None =>
      match rs_HTTPRequest resp with
      | Some m => Some (m, λ m, SetHTTPRequest (Some m) resp)
      | None => None
      end
  end.

Definition attachStream (t : ResponseTemplate) (limit : Z) (resp : Response) (q : Request) (g : G)
  : result ProcessError Response * Request * G :=
  match rt_Stream t with
  | None => (Ok resp, q, g)
  | Some stream =>
      match resolveStreamPayloadWithLimit grow fuel sizes ReadFile ParseMediaType MultipartParts MatchPattern stream limit q with
      | (Err e, q) => (Err (StreamSourceFailed e), q, g)
      | (Ok payload, q) =>
          match streamTarget resp with
          | None => (Err StreamNoTarget, q, g)
          | Some (target, put) =>
              let size := p_size (R := ProcReader) payload in
              match newBodyStream SelectInclusive (Controls stream) size g with
              | (Err e, g) => (Err (StreamConfigFailed e), q, g)
              | (Ok plan, g) =>
                  let bodyStream := {| bs_Reader := None; bs_Payload := Some (inl payload); bs_Plan := plan |} in
                  let target := with_body_stream (Some bodyStream) (with_bytes [] target) in
                  let resp := put (with_header (setStreamContentLength (m_Header target) size) target) in
                  (Ok (if bool_decide (p_finishMode plan = StreamFinishFIN) then MarkCloseAfterWrite resp else resp), q, g)
              end
          end
      end
  end.

Definition buildResponse (t : ResponseTemplate) (limit : Z) (q : Request) (g : G) : result ProcessError Response * Request * G :=
  let resp := NewResponse (rt_ICAPStatus t) in
  let resp := foldl (λ resp kv, SetHeader kv.1 kv.2 resp) resp (map_order (rt_Headers t)) in
  if rt_ICAPStatus t =? StatusNoContentNeeded then (Ok resp, q, g)
  else
    match templateBody t with
    | Err e => (Err e, q, g)
    | Ok body =>
        let resp := if (0 <? length body)%nat then SetBody body resp else resp in
        match loadHTTPBody t with
        | Err e => (Err e, q, g)
        | Ok httpBody =>
            match modifyRequest t httpBody limit resp q with
            | (Err e, q) => (Err e, q, g)
            | (Ok resp, q) =>
                match modifyResponse t httpBody limit resp q with
                | (Err e, q) => (Err e, q, g)
                | (Ok resp, q) => attachStream t limit resp q g
                end
            end
        end
    end.

(** ** One request *)

Definition Duration (d : DelayConfig) (g : G) : Z * G :=
  if negb (IsRange d) || (delay_Max d <=? delay_Min d) then (delay_Min d, g)
  else let '(n, g) := Int63n g (sub64 (delay_Max d) (delay_Min d)) in (add64 (delay_Min d) n, g).

Definition selectDelay (selected : option DelayConfig) (t : ResponseTemplate) (g : G) : Z * G :=
  match selected, rt_DelayRange t with
  | Some d, _ => Duration d g
  | None, Some d => Duration d g
  | None, None => (if 0 <? rt_Delay t then rt_Delay t else 0, g)
  end.

Definition isBlockStatus (status : Z) : bool := (400 <=? status) && (status <=? 599).

Definition hasPartialStream (m : option HTTPMessage) : bool :=
  match m with
  | Some m =>
      match m_BodyStream m with
      | Some s => bool_decide (p_finishMode (bs_Plan s) = StreamFinishFIN) || bool_decide (p_finishMode (bs_Plan s) = StreamFinishTerm)
      | None => false
      end
  | None => false
  end.

Definition responseHasSelectedPartialStream (resp : Response) : bool :=
  hasPartialStream (rs_HTTPRequest resp) || hasPartialStream (rs_HTTPResponse resp).

Definition effectiveResponseOutcome (t : ResponseTemplate) (resp : Response) : string :=
  match rt_Block t with
  | Some b => if b : bool then OutcomeBlocked else OutcomeAllowed
  | None =>
      if (StatusBadRequest <=? rs_StatusCode resp) || nonempty (rt_Error t) then ""
      else if responseHasSelectedPartialStream resp || isBlockStatus (rt_HTTPStatus t) then OutcomeBlocked
      else OutcomeAllowed
  end.

(** A response with the labels that are kept for the request. *)
Record Processed := { pr_Response : Response; pr_Scenario : string; pr_Label : string; pr_Outcome : string }.

Section Process.
(** The registry, whether the context is alive, and whether a wait lasts to its
    end; the limit on bodies. *)
Context (Match : Request → result MatchError Scenario * Request) (alive : bool) (waits : Z → bool) (limit : Z).

Definition matchScenario (q : Request) : result ProcessError Scenario * Request :=
  match Match q with
  | (Ok s, q) => (Ok s, q)
  | (Err ContextError, q) => (Err ContextDone, q)
  | (Err (NoScenarioMatched _), q) => (Err ErrScenarioNotFound, q)
  | (Err e, q) => (Err (MatchFailed e), q)
  end.

(** With a template chosen: preview, delay, error, response. *)
Definition respond (name : string) (t : ResponseTemplate) (selectedDelay : option DelayConfig) (q : Request) (g : G)
  : result ProcessError Processed * Request * G :=
  match materializeSelectedPreviewBody t limit q with
  | (Err e, q) => (Err e, q, g)
  | (Ok _, q) =>
      let '(delay, g) := selectDelay selectedDelay t g in
      if (0 <? delay) && negb (waits delay) then (Err ContextDone, q, g)
      else if nonempty (rt_Error t) then (Err (ScenarioResponseError (rt_Error t)), q, g)
      else
        match buildResponse t limit q g with
        | (Err e, q, g) => (Err e, q, g)
        | (Ok resp, q, g) =>
            (Ok {| pr_Response := resp; pr_Scenario := name; pr_Label := scenarioResponseLabel t;
                   pr_Outcome := effectiveResponseOutcome t resp |}, q, g)
        end
  end.

Definition Process (q : Request) (g : G) : result ProcessError Processed * Request * G :=
  if negb alive then (Err ContextDone, q, g)
  else
    match matchScenario q with
    | (Err e, q) => (Err e, q, g)
    | (Ok s, q) =>
        match selectedResponses s q with
        | Err e => (Err e, q, g)
        | Ok r =>
            let '(t, selectedDelay, g) := selectTemplate r g in
            respond (Name s) (fillCaptures q t) selectedDelay q g
        end
    end.
End Process.
End Processor.

(** ** Chains of processors *)

Section Chains.
Context {St : Type}.

(** A processor may answer nothing. *)
Definition Chainable : Type := St → result ProcessError (option (Response ProcPayload ProcReader)) * St.

Fixpoint chainProcess (processors : list Chainable) (s : St) : result ProcessError (Response ProcPayload ProcReader) * St :=
  match processors with
  | [] => (Ok (NewResponse StatusNoContentNeeded), s)
  | p :: processors =>
      match p s with
      | (Err ErrScenarioNotFound, s) => chainProcess processors s
      | (Err e, s) => (Err e, s)
      | (Ok (Some resp), s) => (Ok resp, s)
      | (Ok None, s) => chainProcess processors s
      end
  end.

Definition EchoProcess : Chainable := λ s, (Ok (Some (NewResponse StatusNoContentNeeded)), s).
End Chains.
