(* ===== verification/ProcessorSpec.v ===== *)
(** * What the mock processor answers

    The modification of [Processor] as one function, [adapt], and what it keeps of
    the message: the start line, the header fields that are not overridden, the
    whole of the body unless another one replaces it, and a [Content-Length] that
    tells the truth. Every response it builds can be written and is read back
    ([IcapResponse]); a selected error leaves bodies and files alone. *)
From S2P Require Import Prelude GoInt GoTime GoStrings Header Chunked Protocol Message Scenario.
From S2P Require Import Weight StreamPlan StreamSelect StreamSources Responses Substitute.
From S2P Require Import StreamPayload StreamDelivery IcapResponse StreamResolve Processor.

Local Open Scope Z_scope.

Notation AdaptedMessage := (HTTPMessage ProcPayload ProcReader).
Notation BuiltResponse := (IcapResponse.Response ProcPayload ProcReader).

#[export] Instance Side_eq_dec : EqDecision Side.
Proof. solve_decision. Defined.

(** ** Headers *)

(** The last entry of a list that names the field. *)
Definition named_in (key : string) (kvs : list (string * string)) : option string :=
  snd <$> last (filter (λ kv, equal_fold kv.1 key = true) kvs).

Lemma Values_SetAll kvs h key :
  Values (SetAll h kvs) key = match named_in key kvs with Some v => [v] | None => Values h key end.
Proof.
  unfold SetAll, named_in. revert h. induction kvs as [|[k v] kvs IH] using rev_ind; intros h; [done|].
  rewrite foldl_snoc, filter_app, Values_Set. cbn [fst snd]. rewrite filter_cons. cbn [fst].
  destruct (equal_fold k key) eqn:E.
  - rewrite decide_True by done. cbn. by rewrite last_snoc.
  - rewrite decide_False by done. cbn. by rewrite app_nil_r.
Qed.

Definition content_length : string := "Content-Length".

(** The field a body of [n] bytes declares. *)
Definition declares (h : Header) (n : Z) : Prop := Values h content_length = [FormatInt 10 n].

(** No length, or that of the body. *)
Definition truthful (h : Header) (n : Z) : Prop := Values h content_length = [] ∨ declares h n.

(** ** The modification in one step *)

Section Adapt.
Context {R : Type} `{HR : Reader R} (grow : nat → nat → nat) (fuel : nat) (sizes : nat → nat).
Context (map_order : gmap string string → list (string * string)).

Notation Request := (Scenario.Request (R := R)).
Notation Message := (Scenario.Message (R := R)).
Notation overlay := (overlay map_order).

Definition place (adapted : option (Side * AdaptedMessage)) (resp : BuiltResponse) : BuiltResponse :=
  match adapted with
  | None => resp
  | Some (RequestSide, m) => SetHTTPRequest (Some m) resp
  | Some (ResponseSide, m) => SetHTTPResponse (Some m) resp
  end.

(** The start line a status gives to a message. *)
Definition restart (t : ResponseTemplate) (d : Side) (m : AdaptedMessage) : AdaptedMessage :=
  match d with
  | ResponseSide => if 0 <? rt_HTTPStatus t
                    then with_status_line (FormatInt 10 (rt_HTTPStatus t)) (http_StatusText (rt_HTTPStatus t)) m
                    else m
  | RequestSide => m
  end.

(** The side the method names, with its message. *)
Definition modified (q : Request) : option (Side * Message) :=
  if IsREQMOD q then pair RequestSide <$> q_HTTPRequest q
  else if IsRESPMOD q then pair ResponseSide <$> q_HTTPResponse q
  else None.

Definition adapt (t : ResponseTemplate) (httpBody : list ascii) (limit : Z) (q : Request)
  : result ProcessError (option (Side * AdaptedMessage)) * Request :=
  match modified q with
  | None => (Ok None, q)
  | Some (d, m) =>
      if bool_decide (d = RequestSide) && (0 <? rt_HTTPStatus t)
      then (Ok (Some (ResponseSide, blockPage map_order t httpBody)), q)
      else
        match cloneHTTPMessageForResponse grow fuel sizes d m (shouldSkipOriginalBody t httpBody) limit q with
        | (Err e, q) => (Err e, q)
        | (Ok clone, q) => (Ok (Some (d, overlay t httpBody (restart t d clone))), q)
        end
  end.

Lemma method_sides (q : Request) : IsREQMOD q = true → IsRESPMOD q = false.
Proof using. unfold IsREQMOD, IsRESPMOD. intros E. bool_to_prop. by rewrite E. Qed.

Lemma clone_method d m skip limit (q : Request) :
  q_Method (cloneHTTPMessageForResponse grow fuel sizes d m skip limit q).2 = q_Method q.
Proof using.
  unfold cloneHTTPMessageForResponse, loadBody. destruct skip; [done|]. destruct (side_message d q) as [m'|]; [|done].
  destruct (if limit <=? 0 then _ else _) as [[b|e] s]; by destruct d.
Qed.

(** Both steps of the code, one after the other. *)
Definition modify (t : ResponseTemplate) (httpBody : list ascii) (limit : Z) (resp : BuiltResponse) (q : Request) :=
  match modifyRequest grow fuel sizes map_order t httpBody limit resp q with
  | (Err e, q) => (Err e, q)
  | (Ok resp, q) => modifyResponse grow fuel sizes map_order t httpBody limit resp q
  end.

Lemma modify_adapt t httpBody limit resp q :
  modify t httpBody limit resp q =
    (match (adapt t httpBody limit q).1 with Ok adapted => Ok (place adapted resp) | Err e => Err e end,
     (adapt t httpBody limit q).2).
Proof using.
  assert (Hreq : ∀ r q', IsREQMOD q' = true → modifyResponse grow fuel sizes map_order t httpBody limit r q' = (Ok r, q')).
  { intros r q' Hq. unfold modifyResponse. rewrite (method_sides q' Hq). by destruct (q_HTTPResponse q'). }
  unfold modify, adapt, modified. destruct (IsREQMOD q) eqn:Eq.
  - unfold modifyRequest. rewrite Eq. destruct (q_HTTPRequest q) as [m|]; cbn [fmap option_fmap option_map negb]; [|by rewrite Hreq].
    rewrite bool_decide_true by done. cbn [andb]. destruct (0 <? rt_HTTPStatus t); [by rewrite Hreq|].
    pose proof (clone_method RequestSide m (shouldSkipOriginalBody t httpBody) limit q) as Hm.
    destruct (cloneHTTPMessageForResponse _ _ _ _ _ _ _ _) as [[c|e] q'] eqn:Ec; [|done]. cbn [fst snd].
    rewrite Hreq; [done|]. cbn [snd] in Hm. unfold IsREQMOD in *. by rewrite Hm.
  - assert (modifyRequest grow fuel sizes map_order t httpBody limit resp q = (Ok resp, q)) as ->.
    { unfold modifyRequest. rewrite Eq. by destruct (q_HTTPRequest q). }
    unfold modifyResponse. destruct (IsRESPMOD q); [|by destruct (q_HTTPResponse q)].
    destruct (q_HTTPResponse q) as [m|]; cbn [fmap option_fmap option_map negb]; [|done].
    rewrite bool_decide_false by done. cbn [andb]. by destruct (cloneHTTPMessageForResponse _ _ _ _ _ _ _ _) as [[c|e] q'].
Qed.

(** What the template makes of the header fields of a message. *)
Definition adapted_values (t : ResponseTemplate) (httpBody : list ascii) (h : Header) (key : string) : list string :=
  let declared := rt_HTTPHeaders t !! content_length in
  if (0 <? length httpBody)%nat && equal_fold content_length key && bool_decide (declared = None ∨ declared = Some "auto") then
    [FormatInt 10 (Z.of_nat (length httpBody))]
  else match named_in key (map_order (rt_HTTPHeaders t)) with Some v => [v] | None => Values h key end.

Lemma overlay_values t httpBody m key :
  Values (m_Header (overlay t httpBody m)) key = adapted_values t httpBody (m_Header m) key.
Proof using.
  unfold overlay, adapted_values, setBodyContentLength, setAll. cbv zeta. fold content_length.
  destruct (0 <? length httpBody)%nat; cbn [m_Header with_header with_bytes andb]; [|apply Values_SetAll].
  destruct (rt_HTTPHeaders t !! content_length) as [v|].
  - destruct (String.eqb_spec v "auto") as [->|Hv].
    + rewrite Values_Set, Values_SetAll. rewrite bool_decide_true by by right. by destruct (equal_fold content_length key).
    + rewrite bool_decide_false by (intros [?|?]; congruence). rewrite andb_false_r. apply Values_SetAll.
  - rewrite Values_Set, Values_SetAll. rewrite bool_decide_true by by left. by destruct (equal_fold content_length key).
Qed.

Lemma overlay_body t httpBody m :
  m_Body (overlay t httpBody m) = if (0 <? length httpBody)%nat then httpBody else m_Body m.
Proof using. unfold overlay. cbv zeta. by destruct (0 <? length httpBody)%nat. Qed.

Lemma overlay_stream t httpBody m : m_BodyStream (overlay t httpBody m) = m_BodyStream m.
Proof using. unfold overlay. cbv zeta. by destruct (0 <? length httpBody)%nat. Qed.

Lemma overlay_start t httpBody m :
  let m' := overlay t httpBody m in
  m_Method m' = m_Method m ∧ m_URI m' = m_URI m ∧ m_Proto m' = m_Proto m ∧ m_Status m' = m_Status m ∧ m_StatusText m' = m_StatusText m.
Proof using. unfold overlay. cbv zeta. by destruct (0 <? length httpBody)%nat. Qed.
End Adapt.

(** ** Loading bodies *)

Section Bodies.
Context {R : Type} `{HL : ReaderLaws R} (grow : nat → nat → nat) (fuel : nat) (sizes : nat → nat).
Context (Hgrow : ∀ c n, (n ≤ grow c n)%nat) (Hsizes : ∀ i, (0 < sizes i)%nat).

Notation Request := (Scenario.Request (R := R)).
Notation Message := (Scenario.Message (R := R)).

(** The body of a message is [bs], read or still to be read. *)
Definition holds_body (m : Message) (bs : list ascii) : Prop :=
  ∃ st, body_rel fuel (msg_Body m) st ∧ (st = Unloaded bs ∨ st = Loaded bs).

Lemma within_exceeds_limit limit bs : within (if limit <=? 0 then -1 else limit) bs = negb (exceeds limit bs).
Proof using.
  unfold within, exceeds. destruct (Z.leb_spec limit 0); [by rewrite (proj2 (Z.ltb_ge 0 limit)) by lia|].
  by rewrite (proj2 (Z.ltb_lt 0 limit)), (proj2 (Z.leb_le 0 limit)) by lia.
Qed.

Lemma loadBody_spec d limit (q : Request) m bs :
  limit < max_int64 → side_message d q = Some m → holds_body m bs →
  (loadBody grow fuel sizes d limit q).1 = if exceeds limit bs then Err (ErrBodyTooLarge limit) else Ok bs.
Proof using Hgrow Hsizes.
  intros Hl Em (st & Hrel & Hst). unfold loadBody. rewrite Em.
  assert (Hmax : (if limit <=? 0 then -1 else limit) < max_int64).
  { destruct (limit <=? 0); [|done]. unfold max_int64. lia. }
  destruct (get_refines grow fuel sizes Hgrow Hsizes _ (contentLengthHint m) _ st Hmax Hrel) as (st' & Hstep & _).
  assert (Hcall : (if limit <=? 0 then GetBody grow fuel sizes (contentLengthHint m) (msg_Body m)
                   else GetBodyLimited grow fuel sizes limit (contentLengthHint m) (msg_Body m)) =
    GetBodyLimited grow fuel sizes (if limit <=? 0 then -1 else limit) (contentLengthHint m) (msg_Body m)).
  { unfold GetBody, GetBodyLimited. by destruct (limit <=? 0). }
  rewrite Hcall. clear Hcall. destruct (GetBodyLimited _ _ _ _ _ _) as [res b]. cbn [fst snd] in *.
  assert (Hres : res = if exceeds limit bs then Err (ErrBodyTooLarge limit) else Ok (Some bs)).
  { pose proof (within_exceeds_limit limit bs) as Hw. unfold exceeds in *.
    destruct Hst as [-> | ->]; inversion Hstep; subst; unfold limited_result in *.
    all: destruct (Z.leb_spec limit 0); [try rewrite (proj2 (Z.ltb_ge 0 limit)) in * by lia|try rewrite (proj2 (Z.ltb_lt 0 limit)) in * by lia].
    all: cbn [andb negb] in *; try congruence.
    all: try (destruct (limit <? _) eqn:Ex; cbn [negb] in *; try congruence).
    all: try (by rewrite Hw). }
  rewrite Hres. by destruct (exceeds limit bs).
Qed.

Lemma clone_spec d limit (q : Request) m bs skip :
  limit < max_int64 → side_message d q = Some m → holds_body m bs →
  (cloneHTTPMessageForResponse grow fuel sizes d m skip limit q).1 =
    if skip then Ok (cloneHTTPMessageMetadata m)
    else if exceeds limit bs then Err (CloneBodyFailed (ErrBodyTooLarge limit))
    else Ok (with_bytes bs (cloneHTTPMessageMetadata m)).
Proof using Hgrow Hsizes.
  intros Hl Em Hb. unfold cloneHTTPMessageForResponse. destruct skip; [done|].
  pose proof (loadBody_spec d limit q m bs Hl Em Hb) as Hload. destruct (loadBody _ _ _ _ _ _) as [res q']. cbn [fst] in Hload.
  subst. by destruct (exceeds limit bs).
Qed.

(** The message that is modified is the one the method names. *)
Lemma modified_message (q : Request) d m : modified q = Some (d, m) → side_message d q = Some m.
Proof using.
  unfold modified. destruct (IsREQMOD q); [destruct (q_HTTPRequest q) eqn:E; intros [= <- <-]; exact E|].
  destruct (IsRESPMOD q); [|done]. destruct (q_HTTPResponse q) eqn:E; intros [= <- <-]. exact E.
Qed.
End Bodies.

(** ** Building *)

Section Build.
Context {R : Type} `{HL : ReaderLaws R} (grow : nat → nat → nat) (fuel : nat) (sizes : nat → nat).
Context (ReadFile : string → option (list ascii)).
Context (ParseMediaType : string → option (string * gmap string string)).
Context (MultipartParts : string → list ascii → list MimePart * bool).
Context (MatchPattern : string → string → bool).
Context (map_order : gmap string string → list (string * string)).
Context {G : Type} (SelectInclusive : G → Z → Z → Z * G).

Notation Request := (Scenario.Request (R := R)).
Notation Message := (Scenario.Message (R := R)).
Notation build := (buildResponse grow fuel sizes ReadFile ParseMediaType MultipartParts MatchPattern map_order SelectInclusive).
Notation attach := (attachStream grow fuel sizes ReadFile ParseMediaType MultipartParts MatchPattern SelectInclusive).
Notation resolve_payload := (resolveStreamPayloadWithLimit grow fuel sizes ReadFile ParseMediaType MultipartParts MatchPattern).

(** The envelope, before any message is added. *)
Definition started (t : ResponseTemplate) (body : list ascii) : BuiltResponse :=
  {| rs_Header := SetAll NewHeader (map_order (rt_Headers t)); rs_HTTPRequest := None; rs_HTTPResponse := None;
     rs_Proto := Version; rs_Body := body; rs_StatusCode := rt_ICAPStatus t; rs_closeAfterWrite := false |}.

Lemma start_headers kvs (r : BuiltResponse) :
  foldl (λ resp kv, SetHeader kv.1 kv.2 resp) r kvs =
  {| rs_Header := SetAll (rs_Header r) kvs; rs_HTTPRequest := rs_HTTPRequest r; rs_HTTPResponse := rs_HTTPResponse r;
     rs_Proto := rs_Proto r; rs_Body := rs_Body r; rs_StatusCode := rs_StatusCode r; rs_closeAfterWrite := rs_closeAfterWrite r |}.
Proof using. revert r. induction kvs as [|kv kvs IH]; intros r; [by destruct r|]. cbn [foldl]. by rewrite IH. Qed.

Lemma build_unfold t limit q g :
  build t limit q g =
    if rt_ICAPStatus t =? StatusNoContentNeeded then (Ok (started t []), q, g)
    else
      match templateBody ReadFile t, loadHTTPBody ReadFile t with
      | Err e, _ => (Err e, q, g)
      | Ok _, Err e => (Err e, q, g)
      | Ok body, Ok httpBody =>
          match adapt grow fuel sizes map_order t httpBody limit q with
          | (Err e, q) => (Err e, q, g)
          | (Ok adapted, q) => attach t limit (place adapted (started t body)) q g
          end
      end.
Proof using.
  unfold buildResponse. rewrite start_headers. unfold started. cbn [NewResponse rs_Header rs_HTTPRequest rs_HTTPResponse rs_Proto rs_Body rs_StatusCode rs_closeAfterWrite].
  destruct (rt_ICAPStatus t =? StatusNoContentNeeded); [done|]. destruct (templateBody ReadFile t) as [body|e]; [|done].
  destruct (loadHTTPBody ReadFile t) as [httpBody|e]; [|done].
  set (r0 := if (0 <? length body)%nat then _ else _).
  assert (r0 = started t body) as -> by (unfold r0, started; by destruct body).
  pose proof (modify_adapt grow fuel sizes map_order t httpBody limit (started t body) q) as Hm. unfold modify in Hm.
  destruct (modifyRequest _ _ _ _ _ _ _ _ _) as [[r1|e] q1].
  - rewrite Hm. by destruct (adapt _ _ _ _ _ _ _ _) as [[a|e] q2].
  - destruct (adapt _ _ _ _ _ _ _ _) as [[a|e'] q2]; by inversion Hm.
Qed.

(** A stream that passed the checks of loading. *)
Definition stream_checked (s : Stream) : Prop := ∃ c, config_wf c ∧ validateStreamControls c = Ok (Controls s).

(** Sizes of files and of bytes in memory are [int64]s. *)
Definition sizes_fit (s : Stream) (limit : Z) : Prop := ∀ q : Request,
  (∀ ps q', partPayloads grow fuel sizes ReadFile (Parts s) limit q = (Ok ps, q') → payload_sizes ps ≤ max_int64) ∧
  (∀ p q' n, resolve_payload s limit q = (Ok p, q') → p_size (R := ProcReader) p = Some n → n ≤ max_int64).

Lemma plan_checked s size g plan g' :
  selector_ok SelectInclusive → stream_checked s → 0 ≤ size ≤ max_int64 →
  newBodyStream SelectInclusive (Controls s) (Some size) g = (Ok plan, g') → plan_wf plan ∧ p_sourceSize plan = size.
Proof using.
  intros Hsel (c & Hwf & Hv) Hsize. unfold newBodyStream, bind.
  destruct (wp_options SelectInclusive Hsel size Hsize c _ Hwf Hv g) as (o & g1 & -> & Hp & _).
  pose proof (plannable_outcome size o Hp) as Ho. pose proof (proj1 Hp) as H64.
  destruct (PlanBodyStream o) as [p|e] eqn:E; [|done]. cbn. intros [= <- <-]. destruct Ho as [Hs _].
  split; [|done]. by eapply PlanBodyStream_wf.
Qed.

(** The message of a stream, put back where it was. *)
Lemma attach_spec t limit adapted body q g resp q' g' :
  (∀ s, rt_Stream t = Some s → stream_checked s ∧ sizes_fit s limit) → selector_ok SelectInclusive → limit < max_int64 →
  (∀ d m, adapted = Some (d, m) → m_BodyStream m = None) →
  attach t limit (place adapted (started t body)) q g = (Ok resp, q', g') →
  match rt_Stream t with
  | None => resp = place adapted (started t body)
  | Some s =>
      ∃ d m b bs close, adapted = Some (d, m) ∧ streams b bs ∧
        resp = (if (close : bool) then MarkCloseAfterWrite else id) (place (Some (d, with_body_stream (Some b) (with_bytes []
          (with_header (Set_ (m_Header m) content_length (FormatInt 10 (Z.of_nat (length bs)))) m)))) (started t body))
  end.
Proof using.
  intros Hst Hsel Hl Had. unfold attachStream. destruct (rt_Stream t) as [s|]; [|by intros [= <- _ _]].
  destruct (Hst s eq_refl) as [Hc Hfit]. destruct (Hfit q) as [Hparts Hsz].
  pose proof (resolve_payload_spec grow fuel sizes ReadFile ParseMediaType MultipartParts MatchPattern limit Hl s q Hparts) as Hp.
  destruct (resolve_payload s limit q) as [[p|e] q1]; [|done]. destruct Hp as (bs & _ & (rd & p' & Eo & Hd) & Hs).
  assert (Hbs : 0 ≤ Z.of_nat (length bs) ≤ max_int64) by (split; [lia|by eapply Hsz]).
  assert (Htarget : streamTarget (place adapted (started t body)) =
    match adapted with Some (d, m) => Some (m, λ m, place (Some (d, m)) (started t body)) | None => None end)
    by (by destruct adapted as [[[] m]|]).
  rewrite Htarget. clear Htarget. destruct adapted as [[d m]|]; [|done]. cbv zeta. rewrite Hs.
  destruct (newBodyStream _ _ _ _) as [[plan|e] g1] eqn:Eplan; [|done].
  destruct (plan_checked s _ g plan g1 Hsel Hc Hbs Eplan) as [Hwf Hsrc]. intros [= <- _ _].
  set (b := {| bs_Reader := None; bs_Payload := Some (inl p); bs_Plan := plan |}).
  exists d, m, b, bs, (bool_decide (p_finishMode plan = StreamFinishFIN)). split; [done|]. split.
  - split; [|exact Hwf|exact (eq_sym Hsrc)]. exists p, rd, p'. split_and!; [done|done|done|]. right.
    pose proof (open_size p) as Hos. rewrite Eo in Hos. cbn [snd] in Hos. by rewrite Hos.
  - cbn [setStreamContentLength m_Header with_body_stream with_bytes]. fold content_length. unfold id.
    by case_bool_decide; destruct d.
Qed.

Lemma adapt_unstreamed t httpBody limit (q : Request) d m q' :
  adapt grow fuel sizes map_order t httpBody limit q = (Ok (Some (d, m)), q') → m_BodyStream m = None.
Proof using.
  unfold adapt. destruct (modified q) as [[d0 m0]|]; [|done]. destruct (_ && _).
  - intros [= <- <- <-]. unfold blockPage. by rewrite overlay_stream.
  - unfold cloneHTTPMessageForResponse.
    assert (Hclone : ∀ c, m_BodyStream c = None → m_BodyStream (overlay map_order t httpBody (restart t d0 c)) = None).
    { intros c Hc. rewrite overlay_stream. destruct d0; [done|]. cbn. by destruct (0 <? rt_HTTPStatus t). }
    destruct (shouldSkipOriginalBody t httpBody); [by intros [= <- <- <-]; apply Hclone|].
    destruct (loadBody _ _ _ _ _ _) as [[b|e] q1]; [|done]. intros [= <- <- <-]. by apply Hclone.
Qed.
End Build.

(** ** Properties *)

Section Properties.
Context {R : Type} `{HL : ReaderLaws R} (grow : nat → nat → nat) (fuel : nat) (sizes : nat → nat).
Context (Hgrow : ∀ c n, (n ≤ grow c n)%nat) (Hsizes : ∀ i, (0 < sizes i)%nat).
Context (ReadFile : string → option (list ascii)).
Context (ParseMediaType : string → option (string * gmap string string)).
Context (MultipartParts : string → list ascii → list MimePart * bool).
Context (MatchPattern : string → string → bool).
Context (map_order : gmap string string → list (string * string)).
Context {G : Type} (SelectInclusive : G → Z → Z → Z * G).

Notation Request := (Scenario.Request (R := R)).
Notation Message := (Scenario.Message (R := R)).
Notation build := (buildResponse grow fuel sizes ReadFile ParseMediaType MultipartParts MatchPattern map_order SelectInclusive).
Notation fits := (sizes_fit grow fuel sizes ReadFile ParseMediaType MultipartParts MatchPattern).

Definition has_message (m : AdaptedMessage) (resp : BuiltResponse) : Prop :=
  rs_HTTPRequest resp = Some m ∨ rs_HTTPResponse resp = Some m.

(** The response of a build: no message, an adapted one, or one with a stream. *)
Lemma build_cases t limit q g resp q' g' :
  (∀ s, rt_Stream t = Some s → stream_checked s ∧ fits s limit) → selector_ok SelectInclusive → limit < max_int64 →
  build t limit q g = (Ok resp, q', g') →
  (rt_ICAPStatus t = StatusNoContentNeeded ∧ resp = started map_order t []) ∨
  ∃ body httpBody adapted, templateBody ReadFile t = Ok body ∧ loadHTTPBody ReadFile t = Ok httpBody ∧
    (adapt grow fuel sizes map_order t httpBody limit q).1 = Ok adapted ∧
    (∀ d m, adapted = Some (d, m) → m_BodyStream m = None) ∧
    match rt_Stream t with
    | None => resp = place adapted (started map_order t body)
    | Some s =>
        ∃ d m b bs close, adapted = Some (d, m) ∧ streams b bs ∧
          resp = (if (close : bool) then MarkCloseAfterWrite else id) (place (Some (d, with_body_stream (Some b) (with_bytes []
            (with_header (Set_ (m_Header m) content_length (FormatInt 10 (Z.of_nat (length bs)))) m)))) (started map_order t body))
    end.
Proof using.
  intros Hst Hsel Hl. rewrite build_unfold. destruct (Z.eqb_spec (rt_ICAPStatus t) StatusNoContentNeeded) as [E|E].
  { intros [= <- _ _]. by left. }
  destruct (templateBody ReadFile t) as [body|e]; [|done]. destruct (loadHTTPBody ReadFile t) as [httpBody|e]; [|done].
  destruct (adapt _ _ _ _ _ _ _ _) as [[adapted|e] q1] eqn:Ea; [|done]. intros Hb. right. exists body, httpBody, adapted.
  assert (Hu : ∀ d m, adapted = Some (d, m) → m_BodyStream m = None).
  { intros d m ->. by eapply adapt_unstreamed. }
  split_and!; [done|done|by rewrite Ea|done|]. by eapply attach_spec.
Qed.

(** Every response that the processor builds is one that can be written to the
    connection and read back: its status is the template's, a message in it has a
    body or a stream and not both, only one message is there, and its stream opens
    and has the size that was planned and announced. *)
Theorem built_response_ok t limit q g resp q' g' :
  (∀ s, rt_Stream t = Some s → stream_checked s ∧ fits s limit) → selector_ok SelectInclusive → limit < max_int64 →
  build t limit q g = (Ok resp, q', g') →
  response_ok resp ∧ streamable (rs_HTTPRequest resp) ∧ streamable (rs_HTTPResponse resp) ∧
  rs_StatusCode resp = rt_ICAPStatus t ∧ (rs_HTTPRequest resp = None ∨ rs_HTTPResponse resp = None).
Proof using.
  intros Hst Hsel Hl Hb.
  assert (Hplain : ∀ adapted body, (∀ d m, adapted = Some (d, m) → streamable (Some m) ∧ message_ok m) →
    let r := place adapted (started map_order t body) in
    response_ok r ∧ streamable (rs_HTTPRequest r) ∧ streamable (rs_HTTPResponse r) ∧ rs_StatusCode r = rt_ICAPStatus t ∧
    (rs_HTTPRequest r = None ∨ rs_HTTPResponse r = None)).
  { intros adapted body Had. destruct adapted as [[d m]|].
    - destruct (Had d m eq_refl) as [Hs Hok]. destruct d; cbn [place]; (split; [|split_and!; try done; first [by left|by right]]).
      all: split; cbn; unfold is_Some; naive_solver.
    - cbn [place]. split; [by split|]. split_and!; try done. by left. }
  destruct (build_cases t limit q g resp q' g' Hst Hsel Hl Hb) as [[_ ->]|(body & httpBody & adapted & _ & _ & _ & Hu & Hr)].
  - by apply (Hplain None []).
  - destruct (rt_Stream t) as [s|].
    + destruct Hr as (d & m & b & bs & close & _ & Hbs & ->).
      pose proof (λ Had, Hplain (Some (d, with_body_stream (Some b) (with_bytes []
        (with_header (Set_ (m_Header m) content_length (FormatInt 10 (Z.of_nat (length bs)))) m)))) body Had) as Hp.
      cbv zeta in Hp. destruct Hp as (H1 & H2 & H3 & H4 & H5).
      { intros d' m' [= <- <-]. split; [by exists bs|by right]. }
      destruct close; [|by split_and!]. split_and!; try done. destruct H1 as [A B C]. by split.
    + subst. apply Hplain. intros d m Had. specialize (Hu d m Had). unfold streamable, message_ok. rewrite Hu. split; [done|by left].
Qed.

(** What a message becomes when the template has no stream. *)
Definition adapted_to (t : ResponseTemplate) (httpBody bs : list ascii) (d : Side) (m : Message) (m' : AdaptedMessage) : Prop :=
  m_Method m' = msg_Method m ∧ m_URI m' = msg_URI m ∧ m_Proto m' = msg_Proto m ∧
  (m_Status m', m_StatusText m') =
    (if bool_decide (d = ResponseSide) && (0 <? rt_HTTPStatus t)
     then (FormatInt 10 (rt_HTTPStatus t), http_StatusText (rt_HTTPStatus t))
     else (msg_Status m, msg_StatusText m)) ∧
  (∀ key, Values (m_Header m') key = adapted_values map_order t httpBody (msg_Header m) key) ∧
  m_Body m' = match httpBody with [] => bs | _ => httpBody end ∧ m_BodyStream m' = None.

Lemma adapt_spec t httpBody limit q d m bs :
  rt_Stream t = None → modified q = Some (d, m) → (d = RequestSide → rt_HTTPStatus t ≤ 0) →
  holds_body fuel m bs → limit < max_int64 →
  match (adapt grow fuel sizes map_order t httpBody limit q).1 with
  | Ok adapted => ∃ m', adapted = Some (d, m') ∧ adapted_to t httpBody bs d m m'
  | Err e => httpBody = [] ∧ exceeds limit bs = true ∧ e = CloneBodyFailed (ErrBodyTooLarge limit)
  end.
Proof using Hgrow Hsizes.
  intros Hs Hm Hd Hb Hl. unfold adapt. rewrite Hm.
  assert (bool_decide (d = RequestSide) && (0 <? rt_HTTPStatus t) = false) as ->.
  { case_bool_decide; [|done]. cbn. apply Z.ltb_ge. by apply Hd. }
  pose proof (clone_spec grow fuel sizes Hgrow Hsizes d limit q m bs (shouldSkipOriginalBody t httpBody) Hl (modified_message q d m Hm) Hb) as Hc.
  destruct (cloneHTTPMessageForResponse _ _ _ _ _ _ _ _) as [res q1]. cbn [fst] in Hc. subst res.
  assert (Hskip : shouldSkipOriginalBody t httpBody = match httpBody with [] => false | _ => true end).
  { unfold shouldSkipOriginalBody. rewrite Hs. rewrite bool_decide_false by (by intros [? ?]). by destruct httpBody. }
  assert (Hto : ∀ c, m_Body c = match httpBody with [] => bs | _ => m_Body c end →
    c = with_bytes (m_Body c) (cloneHTTPMessageMetadata m) → adapted_to t httpBody bs d m (overlay map_order t httpBody (restart t d c))).
  { intros c Hbody ->. unfold adapted_to. rewrite overlay_body, overlay_stream.
    destruct (overlay_start map_order t httpBody (restart t d (with_bytes (m_Body c) (cloneHTTPMessageMetadata m)))) as (-> & -> & -> & -> & ->).
    setoid_rewrite overlay_values. destruct d; cbn [restart].
    - rewrite bool_decide_false by done. cbn. split_and!; try done. by destruct httpBody.
    - rewrite bool_decide_true by done. cbn [andb]. destruct (0 <? rt_HTTPStatus t); cbn; split_and!; try done; by destruct httpBody. }
  rewrite Hskip in *. destruct httpBody as [|a httpBody].
  - destruct (exceeds limit bs); [by split_and!|]. eexists. split; [reflexivity|]. by apply Hto.
  - eexists. split; [reflexivity|]. by apply Hto.
Qed.

(** C28: modifying a message keeps what the template does not name: the start line, but
    for a status of the template in a response, every header field that is not
    overridden, and the whole of the body unless the template brings one. A body over
    the limit is an error and never cut. The envelope has the template's status, body
    and header fields, and no other message is in it. *)
Theorem adapted_response t limit q g body httpBody d m bs :
  rt_ICAPStatus t ≠ StatusNoContentNeeded → rt_Stream t = None →
  templateBody ReadFile t = Ok body → loadHTTPBody ReadFile t = Ok httpBody →
  modified q = Some (d, m) → (d = RequestSide → rt_HTTPStatus t ≤ 0) → holds_body fuel m bs → limit < max_int64 →
  match build t limit q g with
  | (Ok resp, _, g') =>
      g' = g ∧ rs_StatusCode resp = rt_ICAPStatus t ∧ rs_Body resp = body ∧ rs_closeAfterWrite resp = false ∧
      (∀ key, Values (rs_Header resp) key = match named_in key (map_order (rt_Headers t)) with Some v => [v] | None => [] end) ∧
      ∃ m', adapted_to t httpBody bs d m m' ∧
        (rs_HTTPRequest resp, rs_HTTPResponse resp) = match d with RequestSide => (Some m', None) | ResponseSide => (None, Some m') end
  | (Err e, _, _) => httpBody = [] ∧ exceeds limit bs = true ∧ e = CloneBodyFailed (ErrBodyTooLarge limit)
  end.
Proof using Hgrow Hsizes.
  intros Hicap Hs Hbody Hhttp Hm Hd Hb Hl. rewrite build_unfold, (proj2 (Z.eqb_neq _ _) Hicap), Hbody, Hhttp.
  pose proof (adapt_spec t httpBody limit q d m bs Hs Hm Hd Hb Hl) as Ha. destruct (adapt _ _ _ _ _ _ _ _) as [[adapted|e] q1]; [|done].
  destruct Ha as (m' & -> & Hto). unfold attachStream. rewrite Hs.
  destruct d; cbn [place SetHTTPRequest SetHTTPResponse started rs_Header rs_StatusCode rs_Body rs_closeAfterWrite];
    (split_and!; [done|done|done|done| |by exists m']).
  all: intros key; rewrite Values_SetAll; by destruct (named_in key _).
Qed.

(** Nothing declares a length by itself in the template. *)
Definition undeclared (t : ResponseTemplate) : Prop :=
  ∀ k v, rt_HTTPHeaders t !! k = Some v → equal_fold k content_length = false.

(** A map is ranged over by its entries. *)
Definition ranges : Prop := ∀ (headers : gmap string string) kv, kv ∈ map_order headers → headers !! kv.1 = Some kv.2.

Lemma undeclared_unnamed t : ranges → undeclared t → named_in content_length (map_order (rt_HTTPHeaders t)) = None.
Proof using.
  intros Hr Hu. unfold named_in. apply fmap_None, last_None. apply elem_of_nil_inv. intros kv [Hf Hkv]%list_elem_of_filter.
  apply Hr, Hu in Hkv. congruence.
Qed.

Lemma overlay_declares t httpBody (c : AdaptedMessage) :
  ranges → undeclared t → truthful (m_Header c) (Z.of_nat (length (m_Body c))) ∨ httpBody ≠ [] →
  truthful (m_Header (overlay map_order t httpBody c)) (Z.of_nat (length (m_Body (overlay map_order t httpBody c)))).
Proof using.
  intros Hr Hu Hc. unfold truthful, declares. rewrite overlay_values, overlay_body. unfold adapted_values. cbv zeta.
  rewrite undeclared_unnamed by done. rewrite bool_decide_true.
  2:{ left. destruct (rt_HTTPHeaders t !! content_length) as [v|] eqn:E; [|done]. apply Hu in E. discriminate E. }
  assert (equal_fold content_length content_length = true) as -> by reflexivity.
  destruct httpBody as [|a httpBody]; cbn [length Nat.ltb Nat.leb andb]; [by destruct Hc|by right].
Qed.

(** C29: the [Content-Length] of a message in a response is that of its body: a length
    that the incoming message declared truthfully stays true, a body of the template
    declares its own, and a stream that of its source, unless the template declares
    the field itself. *)
Theorem content_length_truthful t limit q g resp q' g' m :
  (∀ s, rt_Stream t = Some s → stream_checked s ∧ fits s limit) → selector_ok SelectInclusive → limit < max_int64 →
  ranges → undeclared t →
  (∀ d m0, modified q = Some (d, m0) → ∃ bs, holds_body fuel m0 bs ∧ truthful (msg_Header m0) (Z.of_nat (length bs))) →
  build t limit q g = (Ok resp, q', g') → has_message m resp →
  match m_BodyStream m with
  | None => truthful (m_Header m) (Z.of_nat (length (m_Body m)))
  | Some b => declares (m_Header m) (p_sourceSize (bs_Plan b)) ∧ m_Body m = [] ∧
              ∃ bs, streams b bs ∧ p_sourceSize (bs_Plan b) = Z.of_nat (length bs)
  end.
Proof using Hgrow Hsizes.
  intros Hst Hsel Hl Hr Hu Hin Hb Hm.
  destruct (build_cases t limit q g resp q' g' Hst Hsel Hl Hb) as [[_ ->]|(body & httpBody & adapted & _ & _ & Ha & Hun & Hresp)].
  { by destruct Hm. }
  destruct (rt_Stream t) as [s|] eqn:Es.
  - destruct Hresp as (d & m0 & b & bs & close & _ & Hbs & ->).
    assert (m = with_body_stream (Some b) (with_bytes [] (with_header (Set_ (m_Header m0) content_length (FormatInt 10 (Z.of_nat (length bs)))) m0))) as ->
      by (destruct close, d, Hm as [E|E]; cbn in E; congruence).
    cbn [m_BodyStream with_body_stream m_Header with_bytes with_header m_Body]. rewrite <- (st_size _ _ Hbs).
    split_and!; [|done|by exists bs]. unfold declares. by rewrite Values_Set.
  - subst resp. assert (∃ d, adapted = Some (d, m)) as [d ->].
    { destruct adapted as [[d m0]|]; [|by destruct Hm]. exists d. destruct d, Hm as [E|E]; cbn in E; congruence. }
    rewrite (Hun d m eq_refl). unfold adapt in Ha. destruct (modified q) as [[d0 m0]|] eqn:Em; [|done].
    destruct (_ && _).
    { injection Ha as <- <-. apply overlay_declares; [done|done|]. left. by left. }
    destruct (Hin d0 m0 eq_refl) as (bs & Hbs & Ht).
    pose proof (clone_spec grow fuel sizes Hgrow Hsizes d0 limit q m0 bs (shouldSkipOriginalBody t httpBody) Hl (modified_message q d0 m0 Em) Hbs) as Hc.
    destruct (cloneHTTPMessageForResponse _ _ _ _ _ _ _ _) as [[c|e] q1]; [|done]. cbn [fst] in Hc, Ha. injection Ha as -> <-.
    assert (Hrestart : m_Body (restart t d c) = m_Body c ∧ m_Header (restart t d c) = m_Header c).
    { destruct d; cbn; [done|]. by destruct (0 <? rt_HTTPStatus t). }
    destruct Hrestart as [Hrb Hrh]. apply overlay_declares; [done|done|]. rewrite Hrb, Hrh. unfold shouldSkipOriginalBody in Hc. rewrite Es in Hc.
    rewrite bool_decide_false in Hc by (by intros [? ?]). destruct httpBody as [|a httpBody]; [|by right]. left. cbn in Hc.
    destruct (exceeds limit bs); [done|]. by injection Hc as ->.
Qed.

(** C12: a modified message arrives: over a connection that takes all that is written,
    the receiver that follows the [Encapsulated] header of the response finds the head
    of the adapted message and its whole body - the one that came, or the template's -
    and the next response where this one ends. *)
Theorem adapted_received ending rsizes env t0 sink rest t limit q g resp q' g' httpBody d m bs :
  rt_ICAPStatus t ≠ StatusNoContentNeeded → rt_Stream t = None →
  templateBody ReadFile t = Ok [] → loadHTTPBody ReadFile t = Ok httpBody →
  modified q = Some (d, m) → (d = RequestSide → rt_HTTPStatus t ≤ 0) → holds_body fuel m bs → limit < max_int64 →
  build t limit q g = (Ok resp, q', g') →
  let body := match httpBody with [] => bs | _ => httpBody end in
  chunk_ok body → (∀ i, (0 < rsizes i)%nat) → healthy_env env → room sink = None →
  let '(res, n, sink', _) := writeDirectToContext env t0 sink resp in
  res = Ok tt ∧
  (n ≤ max_int64 → ∃ payload e m', out sink' = out sink ++ envelope resp ++ payload ∧
    ParseEncapsulatedHeader (BuildEncapsulatedHeader resp) = Ok e ∧ adapted_to t httpBody bs d m m' ∧
    receive ending rsizes e (payload ++ rest) = Some (head_of m' (bool_decide (d = RequestSide)), body, rest)).
Proof using Hgrow Hsizes.
  intros Hicap Hs Hbody Hhttp Hm Hd Hb Hl Hbuild body Hok Hsz Henv Hroom.
  rewrite build_unfold, (proj2 (Z.eqb_neq _ _) Hicap), Hbody, Hhttp in Hbuild.
  pose proof (adapt_spec t httpBody limit q d m bs Hs Hm Hd Hb Hl) as Ha. destruct (adapt _ _ _ _ _ _ _ _) as [[adapted|e] q1]; [|done].
  destruct Ha as (m' & -> & Hto). unfold attachStream in Hbuild. rewrite Hs in Hbuild. injection Hbuild as Hr _ _.
  pose proof Hto as (_ & _ & _ & _ & _ & Hm' & Hstream). fold body in Hm'.
  assert (Hresp : response_ok resp ∧ rs_Body resp = [] ∧ final resp = Some m' ∧ is_request resp = bool_decide (d = RequestSide) ∧
    streamable (rs_HTTPRequest resp) ∧ streamable (rs_HTTPResponse resp)).
  { rewrite <- Hr. unfold final, is_request, streamable.
    destruct d; cbn; (split_and!; try done; [split; cbn; unfold is_Some, message_ok; naive_solver|by rewrite ?Hstream]). }
  destruct Hresp as (Hrok & Hrb & Hfin & Hreq & Hsq & Hss).
  pose proof (written_spec env t0 sink resp Hsq Hss) as Hw. destruct (writeDirectToContext env t0 sink resp) as [[[res n] sink'] tk].
  destruct Hw as (o & Hout & Hn & Hw). destruct res as [[]|e]; [|exfalso; by apply Hw]. split; [done|]. intros Hmax.
  assert (Hread : readable m') by (unfold readable; by rewrite Hstream, Hm').
  destruct (received_spec ending rsizes resp o rest m' Hrok Hrb Hfin Hread Hsz (proj1 Hw) ltac:(lia)) as (payload & e & body' & -> & He & Hrec & Hsel).
  exists payload, e, m'. split_and!; [done|done|done|]. unfold selected in Hsel. rewrite Hstream, Hm' in Hsel. by rewrite Hrec, Hreq, Hsel.
Qed.

(** ** Answers that need no body *)

Context (Int63n : G → Z → Z * G) (waits : Z → bool).
Notation respond := (respond grow fuel sizes ReadFile ParseMediaType MultipartParts MatchPattern map_order Int63n SelectInclusive waits).

Lemma materialize_skip t limit q : selectedPreviewNeedsIncomingBody q t = false → materializeSelectedPreviewBody grow fuel sizes t limit q = (Ok tt, q).
Proof using. unfold materializeSelectedPreviewBody. by intros ->. Qed.

(** A selected error and a 204 answer before any body is read: the request is left
    as it was, no file is opened, and after its delay the request ends with the
    template's message, or with an envelope that has no body and says so. *)
Theorem early_answers limit name t selected q g :
  nonempty (rt_Error t) = true ∨ rt_ICAPStatus t = StatusNoContentNeeded →
  let '(delay, g') := selectDelay Int63n selected t g in
  ∃ answer, respond limit name t selected q g = (answer, q, g') ∧
    match answer with
    | Err e => if (0 <? delay) && negb (waits delay) then e = ContextDone
               else nonempty (rt_Error t) = true ∧ e = ScenarioResponseError (rt_Error t)
    | Ok p => (0 <? delay) && negb (waits delay) = false ∧ rt_Error t = "" ∧
              pr_Response p = started map_order t [] ∧ BuildEncapsulatedHeader (pr_Response p) = "null-body=0" ∧
              bytes_of (toString (pr_Response p)) = envelope (pr_Response p)
    end.
Proof using.
  intros Ht. destruct (selectDelay Int63n selected t g) as [delay g'] eqn:Ed. unfold Processor.respond.
  assert (Hneeds : selectedPreviewNeedsIncomingBody q t = false).
  { unfold selectedPreviewNeedsIncomingBody. destruct Ht as [-> | E]; [by rewrite orb_true_r|].
    by rewrite (proj2 (Z.eqb_eq _ _) E), orb_true_r. }
  rewrite (materialize_skip t limit q Hneeds), Ed. destruct ((0 <? delay) && negb (waits delay)); [by eexists|].
  destruct (nonempty (rt_Error t)) eqn:En; [by eexists|]. destruct Ht as [|E]; [done|].
  assert (rt_Error t = "") as Herr.
  { unfold nonempty in En. destruct (String.eqb_spec (rt_Error t) ""); [done|]. by destruct (rt_Error t). }
  rewrite build_unfold, (proj2 (Z.eqb_eq _ _) E). eexists. split; [reflexivity|]. by split_and!.
Qed.

(** The readers of the bodies that are still to come. *)
Definition incoming (q : Request) : option (option (Prefixed R)) * option (option (Prefixed R)) :=
  (BodyReader ∘ msg_Body <$> q_HTTPRequest q, BodyReader ∘ msg_Body <$> q_HTTPResponse q).

Lemma loadBody_bodyless d limit q m : side_message d q = Some m → BodyReader (msg_Body m) = None →
  incoming (loadBody grow fuel sizes d limit q).2 = incoming q.
Proof using.
  intros Em Hr. unfold loadBody. rewrite Em.
  assert (Hload : ∀ maxBytes c, BodyReader (lazyLoadBodyLimitedWithCapacity grow fuel sizes maxBytes c (msg_Body m)).2 = None).
  { intros maxBytes c. unfold lazyLoadBodyLimitedWithCapacity, loadOnce. rewrite Hr.
    destruct (bodyOnce (msg_Body m)); cbn zeta; [destruct (bodyErr (msg_Body m))|cbn; destruct (bodyErr (msg_Body m))];
      try destruct (_ && _); done. }
  unfold GetBody, GetBodyLimited.
  assert (Hin : ∀ b, BodyReader b = None → incoming (set_side d (with_msg_body b m) q) = incoming q).
  { intros b Hb. unfold incoming. destruct d; cbn in Em |- *; rewrite Em; cbn; by rewrite Hb, Hr. }
  destruct (limit <=? 0).
  - specialize (Hload (-1) (contentLengthHint m)). destruct (lazyLoadBodyLimitedWithCapacity _ _ _ _ _ _) as [[b|e] bo]; by apply Hin.
  - specialize (Hload limit (contentLengthHint m)). destruct (lazyLoadBodyLimitedWithCapacity _ _ _ _ _ _) as [[b|e] bo]; by apply Hin.
Qed.

Lemma part_request src limit q : incomingStreamSource (src_From src) = false →
  (streamSourcePayload grow fuel sizes ReadFile src limit q).2 = q.
Proof using.
  unfold incomingStreamSource, streamSourcePayload. intros ->. cbv zeta. unfold lift, lerr.
  by destruct (bool_decide _); [|destruct (bool_decide _)].
Qed.

Lemma parts_request parts limit q : existsb (λ p, incomingStreamSource (src_From p)) parts = false →
  (partPayloads grow fuel sizes ReadFile parts limit q).2 = q.
Proof using.
  revert q. induction parts as [|part parts IH]; intros q Hp; [done|]. cbn in Hp. apply orb_false_iff in Hp as [Hp1 Hp2].
  cbn [partPayloads]. unfold lbind, lret. pose proof (part_request part limit q Hp1) as Hq.
  destruct (streamSourcePayload _ _ _ _ part limit q) as [[p|e] q1]; cbn [snd] in Hq; subst q1; [|done].
  specialize (IH q Hp2). destruct (partPayloads _ _ _ _ parts limit q) as [[ps|e] q1]; exact IH.
Qed.

Lemma stream_request s limit q : streamNeedsIncomingBody s = false →
  (resolveStreamPayloadWithLimit grow fuel sizes ReadFile ParseMediaType MultipartParts MatchPattern s limit q).2 = q.
Proof using.
  unfold streamNeedsIncomingBody. intros [[Hmp Hsrc]%orb_false_iff Hparts]%orb_false_iff. unfold resolveStreamPayloadWithLimit.
  rewrite Hmp. destruct (negb _).
  - unfold streamPartsPayload. destruct (rejectRepeatedLiveHTTPBodyParts _ _); [|done]. unfold lbind, lret, lift.
    pose proof (parts_request (Parts s) limit q Hparts) as Hq. destruct (partPayloads _ _ _ _ _ _ _) as [[ps|e] q1]; [|exact Hq].
    by destruct (limitStreamPayload _ _).
  - unfold lbind, lret. assert (rawHTTPBodySource (src_From (Source s)) = false) as -> by exact Hsrc.
    pose proof (part_request (Source s) limit q Hsrc) as Hq. by destruct (streamSourcePayload _ _ _ _ _ _ _) as [[p|e] q1].
Qed.

Lemma clone_skipped d m limit q : cloneHTTPMessageForResponse grow fuel sizes d m true limit q = (Ok (cloneHTTPMessageMetadata m), q).
Proof using. done. Qed.

Lemma adapt_incoming t httpBody limit q :
  shouldSkipOriginalBody t httpBody = true ∨ IsREQMOD q && (0 <? rt_HTTPStatus t) = true ∨
    (∀ d m, modified q = Some (d, m) → BodyReader (msg_Body m) = None) →
  incoming (adapt grow fuel sizes map_order t httpBody limit q).2 = incoming q.
Proof using.
  intros Hc. unfold adapt. destruct (modified q) as [[d m]|] eqn:Em; [|done]. destruct (bool_decide (d = RequestSide) && _) eqn:Eb; [done|].
  destruct Hc as [-> |[Hc|Hc]]; [done| |].
  - exfalso. unfold modified in Em. apply andb_true_iff in Hc as [Hq Hs]. rewrite Hq in Em. rewrite Hs in Eb.
    destruct (q_HTTPRequest q); [|done]. injection Em as <- _. by rewrite bool_decide_true in Eb.
  - unfold cloneHTTPMessageForResponse. destruct (shouldSkipOriginalBody _ _); [done|].
    pose proof (loadBody_bodyless d limit q m (modified_message q d m Em) (Hc d m eq_refl)) as Hi.
    by destruct (loadBody _ _ _ _ _ _) as [[b|e] q1].
Qed.

(** In preview mode the rest of the body is asked for only when it is needed. When
    the template does not use the incoming body, answering reads nothing of it: both
    messages keep their readers where they are. (A template with a body file must have
    something in it; an empty one falls back to the incoming body.) *)
Theorem preview_untouched limit name t selected q g :
  IsPreviewMode q = true → selectedPreviewNeedsIncomingBody q t = false →
  (loadHTTPBody ReadFile t = Ok [] → rt_HTTPBodyFile t = "") →
  incoming (respond limit name t selected q g).1.2 = incoming q.
Proof using.
  intros Hmode Hneeds Hfile. unfold Processor.respond. rewrite (materialize_skip t limit q Hneeds).
  destruct (selectDelay Int63n selected t g) as [delay g1]. destruct ((0 <? delay) && _); [done|].
  destruct (nonempty (rt_Error t)) eqn:Ee; [done|].
  enough (Hb : incoming (build t limit q g1).1.2 = incoming q).
  { by destruct (build t limit q g1) as [[[r|e] q1] g2]. }
  rewrite build_unfold. unfold selectedPreviewNeedsIncomingBody in Hneeds. rewrite Hmode, Ee in Hneeds. cbn [negb orb] in Hneeds.
  destruct (rt_ICAPStatus t =? StatusNoContentNeeded); [done|]. destruct (templateBody ReadFile t) as [body|e]; [|done].
  destruct (loadHTTPBody ReadFile t) as [httpBody|e] eqn:Eh; [|done].
  assert (Ha : incoming (adapt grow fuel sizes map_order t httpBody limit q).2 = incoming q ∧
    (∀ s, rt_Stream t = Some s → (adapt grow fuel sizes map_order t httpBody limit q).2 = q)).
  { destruct (rt_Stream t) as [s|] eqn:Es.
    - assert (Hskip : shouldSkipOriginalBody t httpBody = true) by (unfold shouldSkipOriginalBody; by rewrite Es).
      split; [apply adapt_incoming; by left|]. intros _ _. unfold adapt. rewrite Hskip. destruct (modified q) as [[d m]|]; [|done].
      by destruct (_ && _).
    - split; [|done]. apply adapt_incoming. destruct (nonempty (rt_HTTPBody t) || nonempty (rt_HTTPBodyFile t)) eqn:Eb.
      + left. unfold shouldSkipOriginalBody. rewrite Es. destruct httpBody as [|c httpBody]; [|done]. exfalso.
        specialize (Hfile eq_refl). rewrite Hfile in Eb. apply orb_true_iff in Eb as [Eb|Eb]; [|done].
        unfold loadHTTPBody in Eh. rewrite Eb in Eh. injection Eh as Eh. by destruct (rt_HTTPBody t).
      + destruct (IsREQMOD q && (0 <? rt_HTTPStatus t)) eqn:Eq; [by right; left|]. right. right. intros d m Hm.
        assert (Hd : adaptedHTTPBodyMessage q = Ok d).
        { unfold modified, IsREQMOD, IsRESPMOD in Hm. unfold adaptedHTTPBodyMessage, requestHTTPMessage, responseHTTPMessage.
          destruct (bool_decide (q_Method q = MethodREQMOD)); [destruct (q_HTTPRequest q); [by injection Hm as <- _|done]|].
          destruct (bool_decide (q_Method q = MethodRESPMOD)); [|done]. destruct (q_HTTPResponse q); [by injection Hm as <- _|done]. }
        rewrite Hd, (modified_message q d m Hm) in Hneeds. unfold HasBody in Hneeds. apply orb_false_iff in Hneeds as [_ Hn].
        apply bool_decide_eq_false in Hn. destruct (BodyReader (msg_Body m)); [|done]. exfalso. apply Hn. by eexists. }
  destruct (adapt _ _ _ _ _ _ _ _) as [[adapted|e] q1]; cbn [fst snd] in *; [|by apply Ha].
  destruct Ha as [Hi Hsame]. unfold attachStream. destruct (rt_Stream t) as [s|]; [|done]. specialize (Hsame s eq_refl). subst q1.
  pose proof (stream_request s limit q Hneeds) as Hr.
  destruct (resolveStreamPayloadWithLimit _ _ _ _ _ _ _ s limit q) as [[p|e] q2]; cbn [snd] in Hr; subst q2; [|done].
  destruct (streamTarget _) as [[target put]|]; [|done]. cbv zeta. by destruct (newBodyStream _ _ _ _) as [[plan|e] g2].
Qed.
End Properties.

(** ** Delays and chains *)

Section Delays.
Context {G : Type} (Int63n : G → Z → Z * G).

(** What a configured delay may be. *)
Definition delay_ok (d : DelayConfig) : Prop := 0 ≤ delay_Min d ∧ delay_Max d ≤ max_int64.

(** The delay that is waited for is in the range of its configuration, of the
    variant before the template, and never negative, whatever the generator draws; no
    subtraction or addition overflows. *)
Theorem delay_in_range selected t g :
  (∀ g n, 0 < n → 0 ≤ (Int63n g n).1 < n) → (∀ d, selected = Some d ∨ rt_DelayRange t = Some d → delay_ok d) →
  let delay := (selectDelay Int63n selected t g).1 in
  match selected, rt_DelayRange t with
  | Some d, _ | None, Some d =>
      delay_Min d ≤ delay ∧ (if IsRange d && (delay_Min d <? delay_Max d) then delay < delay_Max d else delay = delay_Min d)
  | None, None => delay = Z.max 0 (rt_Delay t)
  end.
Proof using.
  intros Hint Hok delay.
  assert (Hd : ∀ d, delay_ok d → delay_Min d ≤ (Duration Int63n d g).1 ∧
    (if IsRange d && (delay_Min d <? delay_Max d) then (Duration Int63n d g).1 < delay_Max d else (Duration Int63n d g).1 = delay_Min d)).
  { intros d [Hmin Hmax]. unfold Duration. destruct (IsRange d); cbn [negb orb andb]; [|split; [cbn; lia|done]].
    destruct (Z.leb_spec (delay_Max d) (delay_Min d)).
    - rewrite (proj2 (Z.ltb_ge _ _)) by lia. split; [cbn; lia|done].
    - rewrite (proj2 (Z.ltb_lt _ _)) by lia. unfold sub64. rewrite wrap64_id by (unfold in_int64, min_int64; lia).
      pose proof (Hint g (delay_Max d - delay_Min d) ltac:(lia)) as Hn. destruct (Int63n g _) as [n g']. cbn in *.
      unfold add64. rewrite wrap64_id by (unfold in_int64, min_int64; lia). lia. }
  unfold delay, selectDelay. destruct selected as [d|]; [apply Hd, Hok; by left|].
  destruct (rt_DelayRange t) as [d|]; [apply Hd, Hok; by right|]. destruct (Z.ltb_spec 0 (rt_Delay t)); cbn; lia.
Qed.
End Delays.

Section Chained.
Context {St : Type}.

(** A processor that leaves the request to the next one. *)
Definition passes (p : Chainable (St := St)) (s s' : St) : Prop := p s = (Err ErrScenarioNotFound, s') ∨ p s = (Ok None, s').

Inductive passes_all : list Chainable → St → St → Prop :=
| passes_nil s : passes_all [] s s
| passes_cons p ps s s1 s2 : passes p s s1 → passes_all ps s1 s2 → passes_all (p :: ps) s s2.

(** A chain answers what its first processor that does not pass the request on
    answers, be it an error, and nothing after it runs; when all pass it on the
    request is left unmodified. *)
Theorem chain_first processors (s : St) :
  (∃ s', passes_all processors s s' ∧ chainProcess processors s = (Ok (NewResponse StatusNoContentNeeded), s')) ∨
  (∃ before p after s1, processors = before ++ p :: after ∧ passes_all before s s1 ∧
     match p s1 with
     | (Ok (Some resp), s2) => chainProcess processors s = (Ok resp, s2)
     | (Err e, s2) => e ≠ ErrScenarioNotFound ∧ chainProcess processors s = (Err e, s2)
     | (Ok None, _) => False
     end).
Proof using.
  revert s. induction processors as [|p ps IH]; intros s; [left; exists s; split; [constructor|done]|].
  assert (Hpass : ∀ s1, passes p s s1 → chainProcess (p :: ps) s = chainProcess ps s1).
  { intros s1 [E|E]; cbn [chainProcess]; by rewrite E. }
  assert (Hrest : ∀ s1, passes p s s1 →
    (∃ s', passes_all (p :: ps) s s' ∧ chainProcess (p :: ps) s = (Ok (NewResponse StatusNoContentNeeded), s')) ∨
    (∃ before p0 after s2, p :: ps = before ++ p0 :: after ∧ passes_all before s s2 ∧
       match p0 s2 with
       | (Ok (Some resp), s3) => chainProcess (p :: ps) s = (Ok resp, s3)
       | (Err e, s3) => e ≠ ErrScenarioNotFound ∧ chainProcess (p :: ps) s = (Err e, s3)
       | (Ok None, _) => False
       end)).
  { intros s1 H1. rewrite (Hpass s1 H1). destruct (IH s1) as [(s' & Hp & E)|(before & p0 & after & s2 & -> & Hp & E)].
    - left. exists s'. split; [by econstructor|done].
    - right. exists (p :: before), p0, after, s2. split; [done|]. split; [by econstructor|done]. }
  destruct (p s) as [[[resp|]|e] s1] eqn:E; [|by apply (Hrest s1); right|].
  - right. exists [], p, ps, s. split; [done|]. split; [constructor|]. cbn [chainProcess]. by rewrite E.
  - destruct e; try (by apply (Hrest s1); left); right; exists [], p, ps, s; (split; [done|]); (split; [constructor|]);
      cbn [chainProcess]; by rewrite E.
Qed.
End Chained.

(** ** Instances *)

Module Answers.
(** Marks what passes. *)
Definition relabel : ResponseTemplate :=
  {| rt_Headers := {["X-Verdict" := "clean"]}; rt_HTTPHeaders := {["X-Scanned" := "yes"]}; rt_DelayRange := None;
     rt_Stream := None; rt_Block := None; rt_ResponseName := ""; rt_Use := ""; rt_Body := ""; rt_BodyFile := "";
     rt_HTTPBody := ""; rt_HTTPBodyFile := ""; rt_Error := ""; rt_Status := 0; rt_ICAPStatus := 200; rt_HTTPStatus := 0;
     rt_Delay := 0 |}.

Definition no_controls : StreamConfig :=
  match validateStreamControls StreamSources.no_controls with Ok c => c | Err _ => StreamSources.no_controls end.

(** Sends a stream in place of the body. *)
Definition stream : Stream :=
  {| Fallback := Fallback Resolving.stream; Source := Resolving.source "body" "streamed!" ""; Parts := [];
     From := ""; Body := ""; BodyFile := ""; Multipart := Multipart Resolving.stream; Controls := no_controls; PartsSet := false |}.
Definition streaming : ResponseTemplate := with_stream (Some stream) relabel.
Definition untouched : ResponseTemplate := with_status 204 relabel.

Definition request (preview : bool) (h : Header) : Scenario.Request (R := ChunkedConn) :=
  {| q_Method := MethodREQMOD; q_URI := q_URI Demo.request; q_Header := ∅;
     q_HTTPRequest := Some {| msg_Method := "POST"; msg_URI := "/"; msg_Status := ""; msg_StatusText := ""; msg_Proto := "HTTP/1.1";
                              msg_Header := h; msg_Body := msg_Body Demo.message |};
     q_HTTPResponse := None; q_ClientIP := ""; q_Preview := 0; q_PreviewSet := preview; Captures := None; matchedBranch := 0;
     matchedBranchSet := false |}.

Definition content : list ascii := bytes_of "xxEICARxx".
Definition sized_header : Header := Set_ ∅ "content-length" "9".

Definition build (t : ResponseTemplate) (limit : Z) (h : Header) :=
  buildResponse Demo.grow 10 (λ _, 4%nat) (λ _, None) (λ _, None) (λ _ _, ([], true)) (λ _ _, false) map_to_list
    always_min t limit (request false h) tt.
Definition respond (t : ResponseTemplate) (preview : bool) :=
  Processor.respond Demo.grow 10 (λ _, 4%nat) (λ _, None) (λ _, None) (λ _ _, ([], true)) (λ _ _, false) map_to_list
    (λ g _, (0, g)) always_min (λ _, true) 0 "s" t None (request preview ∅) tt.

Lemma grows : ∀ c n, (n ≤ Demo.grow c n)%nat.
Proof. intros c n. unfold Demo.grow. lia. Qed.

Lemma sizes_positive : ∀ i : nat, (0 < (λ _ : nat, 4%nat) i)%nat.
Proof. intros i. cbn. lia. Qed.

Lemma holds h m : q_HTTPRequest (request false h) = Some m → holds_body 10 m content.
Proof.
  intros [= <-]. exists (Unloaded content). split; [|by left]. cbn. split_and!; [done|done|done|vm_compute; lia|].
  eexists. split; [reflexivity|]. exists content. split; [done|]. split; [done|]. exists [].
  right; left. exists [bytes_of "xxEICA"; bytes_of "Rxx"]. split_and!; [done| |done|done].
  repeat constructor; vm_compute; discriminate.
Qed.

Lemma always_min_ok : selector_ok always_min.
Proof. intros [] lo hi Hlh. cbn. lia. Qed.

Lemma stream_is_checked limit : stream_checked stream ∧
  sizes_fit (R := ChunkedConn) Demo.grow 10 (λ _, 4%nat) (λ _, None) (λ _, None) (λ _ _, ([], true)) (λ _ _, false) stream limit.
Proof.
  split.
  - exists StreamSources.no_controls. split; [|vm_compute; reflexivity].
    split; try (intros [=]); try (vm_compute; split; congruence).
  - intros q. split.
    + intros ps q' [= <- _]. vm_compute. discriminate.
    + intros p q' n. unfold resolveStreamPayloadWithLimit, streamSourcePayload. cbn -[inlineStreamPayload].
      unfold lbind, lift, lret, inlineStreamPayload, limitStreamPayload, NewLimitedStreamPayload.
      destruct (_ <=? _); [intros [= <- _] [= <-]; vm_compute; discriminate|].
      change (p_size _) with (Some 9). cbn. destruct (_ <? _); [done|].
      intros [= <- _] [= <-]. vm_compute. discriminate.
Qed.

Lemma ranged : ranges map_to_list.
Proof. intros m [k v] Hkv. by apply elem_of_map_to_list in Hkv. Qed.
End Answers.

Lemma built_response_ok_witness :
  ∃ resp q' g', Answers.build Answers.streaming 0 ∅ = (Ok resp, q', g') ∧ response_ok resp ∧
    is_Some (rs_HTTPRequest resp ≫= m_BodyStream) ∧ streamable (rs_HTTPRequest resp).
Proof.
  destruct (Answers.build Answers.streaming 0 ∅) as [[[resp|e] q'] g'] eqn:E; [|vm_compute in E; discriminate E].
  exists resp, q', g'. split; [reflexivity|].
  destruct (built_response_ok Demo.grow 10 (λ _, 4%nat) (λ _, None) (λ _, None) (λ _ _, ([], true)) (λ _ _, false) map_to_list
    always_min Answers.streaming 0 (Answers.request false ∅) tt resp q' g') as (Hok & Hs & _).
  - intros s [= <-]. apply Answers.stream_is_checked.
  - exact Answers.always_min_ok.
  - reflexivity.
  - exact E.
  - split_and!; [exact Hok| |exact Hs].
    assert (Hm : bool_decide (is_Some (match (Answers.build Answers.streaming 0 ∅).1.1 with Ok r => rs_HTTPRequest r ≫= m_BodyStream | Err _ => None end)) = true)
      by (vm_compute; reflexivity).
    rewrite E in Hm. by apply bool_decide_eq_true in Hm.
Defined.

Lemma adapted_response_witness :
  ∃ m', match (Answers.build Answers.relabel 0 ∅).1.1 with Ok resp => rs_HTTPRequest resp = Some m' | Err _ => False end ∧
    m_Body m' = Answers.content ∧ Values (m_Header m') "x-scanned" = ["yes"].
Proof.
  pose proof (adapted_response Demo.grow 10 (λ _, 4%nat) Answers.grows Answers.sizes_positive (λ _, None) (λ _, None) (λ _ _, ([], true))
    (λ _ _, false) map_to_list always_min Answers.relabel 0 (Answers.request false ∅) tt [] [] RequestSide
    _ Answers.content ltac:(done) eq_refl eq_refl eq_refl eq_refl (λ _, ltac:(done)) (Answers.holds ∅ _ eq_refl) eq_refl) as Ha.
  assert (Hok : is_ok (Answers.build Answers.relabel 0 ∅).1.1 = true) by (vm_compute; reflexivity).
  unfold Answers.build in *. destruct (buildResponse _ _ _ _ _ _ _ _ _ _ _ _ _) as [[[resp|e] q'] g']; [|discriminate Hok].
  destruct Ha as (_ & _ & _ & _ & _ & m' & Hto & E). exists m'. injection E as Em _. split; [exact Em|].
  destruct Hto as (_ & _ & _ & _ & Hh & Hb & _). split; [exact Hb|]. rewrite Hh. vm_compute. reflexivity.
Defined.

Lemma content_length_truthful_witness :
  ∃ m, match (Answers.build Answers.relabel 0 Answers.sized_header).1.1 with Ok resp => rs_HTTPRequest resp = Some m | Err _ => False end ∧
    truthful (m_Header m) (Z.of_nat (length (m_Body m))) ∧ declares (m_Header m) 9.
Proof.
  destruct (Answers.build Answers.relabel 0 Answers.sized_header) as [[[resp|e] q'] g'] eqn:E; [|vm_compute in E; discriminate E].
  assert (Hm : match (Answers.build Answers.relabel 0 Answers.sized_header).1.1 with Ok r => (λ m, (m_BodyStream m, Values (m_Header m) content_length)) <$> rs_HTTPRequest r | Err _ => None end = Some (None, ["9"]))
    by (vm_compute; reflexivity).
  rewrite E in Hm. cbn [fst] in Hm |- *. destruct (rs_HTTPRequest resp) as [m|] eqn:Er; [|discriminate Hm].
  injection Hm as Hs Hv. exists m. split; [reflexivity|]. split; [|exact Hv].
  pose proof (content_length_truthful Demo.grow 10 (λ _, 4%nat) Answers.grows Answers.sizes_positive (λ _, None) (λ _, None) (λ _ _, ([], true))
    (λ _ _, false) map_to_list always_min Answers.relabel 0 (Answers.request false Answers.sized_header) tt resp q' g' m) as Ht.
  rewrite Hs in Ht. apply Ht.
  - intros s. discriminate.
  - exact Answers.always_min_ok.
  - reflexivity.
  - exact Answers.ranged.
  - intros k v. cbn [rt_HTTPHeaders Answers.relabel]. rewrite lookup_singleton_Some. intros [<- _]. reflexivity.
  - intros d m0 [= <- <-]. exists Answers.content. split; [exact (Answers.holds _ _ eq_refl)|]. right. vm_compute. reflexivity.
  - exact E.
  - by left.
Defined.

Lemma adapted_received_witness :
  ∃ resp q' g' payload e (m' : AdaptedMessage) n sink' t, Answers.build Answers.relabel 0 ∅ = (Ok resp, q', g') ∧
    writeDirectToContext Live.calm 0 {| out := []; room := None |} resp = (Ok tt, n, sink', t) ∧
    out sink' = envelope resp ++ payload ∧
    receive EOF (λ _, 4%nat) e (payload ++ bytes_of "next") = Some (head_of m' true, Answers.content, bytes_of "next").
Proof.
  destruct (Answers.build Answers.relabel 0 ∅) as [[[resp|e] q'] g'] eqn:E; [|vm_compute in E; discriminate E].
  pose proof (adapted_received Demo.grow 10 (λ _, 4%nat) Answers.grows Answers.sizes_positive (λ _, None) (λ _, None) (λ _ _, ([], true))
    (λ _ _, false) map_to_list always_min EOF (λ _, 4%nat) Live.calm 0 {| out := []; room := None |} (bytes_of "next")
    Answers.relabel 0 (Answers.request false ∅) tt resp q' g' [] RequestSide
    _ Answers.content ltac:(done) eq_refl eq_refl eq_refl eq_refl (λ _, ltac:(done)) (Answers.holds ∅ _ eq_refl) eq_refl E) as Hr.
  cbv zeta in Hr.
  assert (Hn : match (Answers.build Answers.relabel 0 ∅).1.1 with
    | Ok r => (writeDirectToContext Live.calm 0 {| out := []; room := None |} r).1.1.2 <=? max_int64 | Err _ => false end = true) by (vm_compute; reflexivity).
  rewrite E in Hn. cbn [fst] in Hn. destruct (writeDirectToContext _ _ _ resp) as [[[res n] sink'] t] eqn:Ew. cbn [fst snd] in Hn.
  destruct Hr as [Hres Hr]; [vm_compute; discriminate|intros _; lia|intros t0; done|done|].
  destruct Hr as (payload & e & m' & Ho & _ & _ & Hrec); [by apply Z.leb_le|]. subst res.
  exists resp, q', g', payload, e, m', n, sink', t. split_and!; [reflexivity|exact Ew|exact Ho|exact Hrec].
Defined.

Lemma early_answers_witness :
  ∃ answer, Answers.respond Answers.untouched true = (answer, Answers.request true ∅, tt) ∧
    match answer with Ok p => BuildEncapsulatedHeader (pr_Response p) = "null-body=0" | Err _ => False end.
Proof.
  pose proof (early_answers Demo.grow 10 (λ _, 4%nat) (λ _, None) (λ _, None) (λ _ _, ([], true)) (λ _ _, false) map_to_list
    always_min (λ g _, (0, g)) (λ _, true) 0 "s" Answers.untouched None (Answers.request true ∅) tt (or_intror eq_refl)) as Ha.
  cbn [selectDelay rt_DelayRange Answers.untouched with_status Answers.relabel] in Ha.
  destruct Ha as (answer & E & Hans). exists answer. split; [exact E|].
  destruct answer as [p|e]; [by destruct Hans as (_ & _ & _ & He & _)|].
  assert (Hok : is_ok (Answers.respond Answers.untouched true).1.1 = true) by (vm_compute; reflexivity).
  assert (Hres : (Answers.respond Answers.untouched true).1.1 = Err e) by exact (f_equal (λ r, r.1.1) E).
  rewrite Hres in Hok. discriminate Hok.
Defined.

Lemma preview_untouched_witness :
  is_ok (Answers.respond Answers.streaming true).1.1 = true ∧
  incoming (Answers.respond Answers.streaming true).1.2 = incoming (Answers.request true ∅) ∧
  incoming (Answers.respond Answers.relabel true).1.2 ≠ incoming (Answers.request true ∅).
Proof.
  split; [vm_compute; reflexivity|]. split; [|vm_compute; discriminate].
  apply (preview_untouched Demo.grow 10 (λ _, 4%nat) (λ _, None) (λ _, None) (λ _ _, ([], true)) (λ _ _, false) map_to_list
    always_min (λ g _, (0, g)) (λ _, true) 0 "s" Answers.streaming None (Answers.request true ∅) tt); [reflexivity|reflexivity|done].
Defined.

Lemma delay_in_range_witness :
  let d := {| delay_Min := 5; delay_Max := 9; IsRange := true |} in
  let delay := (selectDelay (λ (g : unit) n, (n - 1, g)) (Some d) Answers.relabel tt).1 in
  delay = 8 ∧ 5 ≤ delay ∧ delay < 9.
Proof.
  intros d delay. split; [vm_compute; reflexivity|].
  apply (delay_in_range (λ (g : unit) n, (n - 1, g)) (Some d) Answers.relabel tt).
  - intros g n Hn. cbn. lia.
  - intros d' [[= <-]|[=]]. split; vm_compute; discriminate.
Defined.
