(* ===== verification/Accounting.v ===== *)
(** * Accounting for one request: [internal/server/terminal.go], [internal/server/metrics.go],
    [internal/requestinfo/scenario.go]

    Every request of the server is counted exactly once, with an outcome, labels and
    - when its timing started - a duration; while it is served it counts as in flight,
    and as streaming once its stream started. The collector is the counters that this
    code moves; the values of a request's context live in holders, which are the
    fields of [ReqContext]. Times are nanoseconds. *)
From S2P Require Import Prelude GoInt GoStrings Header StreamPlan StreamSources StreamPayload StreamDelivery IcapResponse Processor.

Local Open Scope Z_scope.

(** ** The context of a request *)

Record ScenarioMetadata := { sm_Scenario : string; sm_Response : string; sm_Outcome : string }.

Definition emptyMetadata : ScenarioMetadata := {| sm_Scenario := ""; sm_Response := ""; sm_Outcome := "" |}.

(** The holders: [None] when they were not installed. [rc_materialized] is inside the
    timing holder, whose start hook is that of the accounting; 0 stands for no time. *)
Record ReqContext := {
  rc_label : option string;
  rc_metadata : option ScenarioMetadata;
  rc_timing : option (option Z)
}.

Definition Background : ReqContext := {| rc_label := None; rc_metadata := None; rc_timing := None |}.

Definition WithContentTypeLabel (label : string) (c : ReqContext) : ReqContext :=
  {| rc_label := Some label; rc_metadata := rc_metadata c; rc_timing := rc_timing c |}.
Definition WithScenarioMetadata (c : ReqContext) : ReqContext :=
  {| rc_label := rc_label c; rc_metadata := Some emptyMetadata; rc_timing := rc_timing c |}.
Definition WithScenarioTimingStart (c : ReqContext) : ReqContext :=
  {| rc_label := rc_label c; rc_metadata := rc_metadata c; rc_timing := Some None |}.

Definition with_metadata (f : ScenarioMetadata → ScenarioMetadata) (c : ReqContext) : ReqContext :=
  {| rc_label := rc_label c; rc_metadata := f <$> rc_metadata c; rc_timing := rc_timing c |}.

Definition SetScenarioMetadata (scenario response : string) : ReqContext → ReqContext :=
  with_metadata (λ m, {| sm_Scenario := scenario; sm_Response := response; sm_Outcome := sm_Outcome m |}).

Definition SetScenarioOutcome (outcome : string) (c : ReqContext) : bool * ReqContext :=
  if negb (bool_decide (outcome = OutcomeAllowed)) && negb (bool_decide (outcome = OutcomeBlocked)) then (false, c)
  else
    match rc_metadata c with
    | None => (false, c)
    | Some _ =>
        (true, with_metadata (λ m, {| sm_Scenario := sm_Scenario m; sm_Response := sm_Response m; sm_Outcome := outcome |}) c)
    end.

Definition MarkScenarioBodyMaterialized (now : Z) (c : ReqContext) : ReqContext :=
  {| rc_label := rc_label c; rc_metadata := rc_metadata c;
     rc_timing := match rc_timing c with Some None => Some (Some now) | t => t end |}.

Definition ScenarioBodyMaterializedAt (c : ReqContext) : option Z := default None (rc_timing c).

Definition ScenarioTimingFallback (c : ReqContext) (routeStarted : Z) : Z := default routeStarted (ScenarioBodyMaterializedAt c).

Definition ContextScenarioMetadata (c : ReqContext) : option ScenarioMetadata :=
  match rc_metadata c with
  | Some m =>
      if nonempty (sm_Scenario m) || nonempty (sm_Response m) || nonempty (sm_Outcome m) then Some m else None
  | None => None
  end.

(** ** The collector *)

Record RequestRecord := { rq_method : string; rq_label : string; rq_outcome : string; rq_response : string; rq_scenario : string }.

Record Collector := {
  mc_inFlight : Z; mc_streaming : Z;
  mc_requests : list RequestRecord;
  mc_durations : list (RequestRecord * Z)
}.

Definition move_gauges (inFlight streaming : Z) (c : Collector) : Collector :=
  {| mc_inFlight := mc_inFlight c + inFlight; mc_streaming := mc_streaming c + streaming;
     mc_requests := mc_requests c; mc_durations := mc_durations c |}.

Definition add_record (r : RequestRecord) (d : option Z) (c : Collector) : Collector :=
  {| mc_inFlight := mc_inFlight c; mc_streaming := mc_streaming c; mc_requests := mc_requests c ++ [r];
     mc_durations := mc_durations c ++ (match d with Some d => [(r, d)] | None => [] end) |}.

Definition NoScenarioMetricLabel : string := "none".

Section Accounting.
Context {P R : Type}.
Notation Response := (Response P R).
Notation HTTPMessage := (HTTPMessage P R).

(** ** Outcomes and labels *)

Definition messageHasPartialStream (m : option HTTPMessage) : bool :=
  match m ≫= m_BodyStream with
  | Some s => bool_decide (p_finishMode (bs_Plan s) = StreamFinishFIN) || bool_decide (p_finishMode (bs_Plan s) = StreamFinishTerm)
  | None => false
  end.

Definition responseHasPartialStream (r : option Response) : bool :=
  match r with
  | Some r => messageHasPartialStream (rs_HTTPRequest r) || messageHasPartialStream (rs_HTTPResponse r)
  | None => false
  end.

Definition encapsulatedHTTPStatusCode (r : option Response) : Z :=
  match r ≫= rs_HTTPResponse with
  | Some m => default 0 (parse_int 10 (m_Status m))
  | None => 0
  end.

Definition requestOutcome (r : option Response) : string :=
  match r with
  | None => OutcomeError
  | Some resp =>
      if StatusBadRequest <=? rs_StatusCode resp then OutcomeError
      else if StatusBadRequest <=? encapsulatedHTTPStatusCode r then OutcomeBlocked
      else OutcomeAllowed
  end.

Definition effectiveRequestOutcome (c : ReqContext) (r : option Response) : string :=
  let fallback := if responseHasPartialStream r then OutcomeBlocked else requestOutcome r in
  match ContextScenarioMetadata c with
  | Some m =>
      if bool_decide (sm_Outcome m = OutcomeAllowed) || bool_decide (sm_Outcome m = OutcomeBlocked) then sm_Outcome m
      else fallback
  | None => fallback
  end.

Definition responseMetricLabel (r : option Response) : string :=
  match r with Some r => FormatInt 10 (rs_StatusCode r) | None => OutcomeError end.

(** The response and the scenario label. *)
Definition requestMetricMetadata (c : ReqContext) (r : option Response) : string * string :=
  match ContextScenarioMetadata c with
  | Some m => (sm_Response m, sm_Scenario m)
  | None => (responseMetricLabel r, NoScenarioMetricLabel)
  end.

(** [canonical] is the label of the request's content type. *)
Definition request_record (method canonical : string) (c : ReqContext) (r : option Response) (outcome : string) : RequestRecord :=
  {| rq_method := method; rq_label := default canonical (rc_label c); rq_outcome := outcome;
     rq_response := (requestMetricMetadata c r).1; rq_scenario := (requestMetricMetadata c r).2 |}.

(** ** The accounting of one request *)

(** [ta_metrics] is whether the server had a collector when the request began. *)
Record terminalAccounting := {
  ta_metrics : bool; ta_method : string; ta_canonical : string; ta_started : Z;
  ta_timingStarted : bool; ta_finished : bool; ta_streamingActive : bool; ta_requestInFlight : bool
}.

Definition newBaseTerminalAccounting (metrics : bool) (method canonical : string) (c : Collector) : terminalAccounting * Collector :=
  ({| ta_metrics := metrics; ta_method := method; ta_canonical := canonical; ta_started := 0; ta_timingStarted := false;
      ta_finished := false; ta_streamingActive := false; ta_requestInFlight := metrics |},
   if metrics then move_gauges 1 0 c else c).

Definition newPendingTerminalAccounting := newBaseTerminalAccounting.

Definition startAt (started : Z) (a : terminalAccounting) : terminalAccounting :=
  if ta_finished a || ta_timingStarted a then a
  else {| ta_metrics := ta_metrics a; ta_method := ta_method a; ta_canonical := ta_canonical a; ta_started := started;
          ta_timingStarted := true; ta_finished := ta_finished a; ta_streamingActive := ta_streamingActive a;
          ta_requestInFlight := ta_requestInFlight a |}.

Definition newTerminalAccounting (metrics : bool) (method canonical : string) (started : Z) (c : Collector) : terminalAccounting * Collector :=
  let '(a, c) := newBaseTerminalAccounting metrics method canonical c in (startAt started a, c).

(** The hook that a preview processor runs. *)
Definition StartScenarioTiming (c : ReqContext) (now : Z) (a : terminalAccounting) : terminalAccounting :=
  match rc_timing c with Some _ => startAt now a | None => a end.

Definition streamingStarted (a : terminalAccounting) (c : Collector) : terminalAccounting * Collector :=
  if ta_finished a || ta_streamingActive a then (a, c)
  else
    ({| ta_metrics := ta_metrics a; ta_method := ta_method a; ta_canonical := ta_canonical a; ta_started := ta_started a;
        ta_timingStarted := ta_timingStarted a; ta_finished := ta_finished a; ta_streamingActive := true;
        ta_requestInFlight := ta_requestInFlight a |},
     if ta_metrics a then move_gauges 0 1 c else c).

(** What was there to be settled, when it was not claimed yet. *)
Definition claimTerminal (a : terminalAccounting) : option (bool * bool * option Z) * terminalAccounting :=
  if ta_finished a then (None, a)
  else
    (Some (ta_streamingActive a, ta_requestInFlight a, if ta_timingStarted a then Some (ta_started a) else None),
     {| ta_metrics := ta_metrics a; ta_method := ta_method a; ta_canonical := ta_canonical a; ta_started := ta_started a;
        ta_timingStarted := ta_timingStarted a; ta_finished := true; ta_streamingActive := false; ta_requestInFlight := false |}).

(** The records go to the collector that the server has now, [metrics]. *)
Definition finalize (metrics : bool) (ctx : ReqContext) (r : option Response) (outcome : string) (now : Z)
    (a : terminalAccounting) (c : Collector) : terminalAccounting * Collector :=
  match claimTerminal a with
  | (None, a) => (a, c)
  | (Some (wasStreaming, inFlight, started), a) =>
      let c := if wasStreaming && ta_metrics a then move_gauges 0 (-1) c else c in
      let c := if inFlight && ta_metrics a then move_gauges (-1) 0 c else c in
      let outcome := if nonempty outcome then outcome else effectiveRequestOutcome ctx r in
      let record := request_record (ta_method a) (ta_canonical a) ctx r outcome in
      (a, if metrics then add_record record ((λ s, now - s) <$> started) c else c)
  end.

(** A request that failed before it had an accounting. *)
Definition recordIncomingRequestOutcome (metrics : bool) (method canonical : string) (ctx : ReqContext) (r : option Response)
    (outcome : string) (c : Collector) : Collector :=
  if metrics then add_record (request_record method canonical ctx r outcome) None c else c.

Definition recordIncomingRequest (metrics : bool) (method canonical : string) (ctx : ReqContext) (r : option Response) (c : Collector) : Collector :=
  recordIncomingRequestOutcome metrics method canonical ctx r (effectiveRequestOutcome ctx r) c.

(** ** Any calls, in any order *)

Inductive acct_op :=
| OpStartAt (t : Z)
| OpStreaming
| OpFinalize (ctx : ReqContext) (r : option Response) (outcome : string) (now : Z).

Definition acct_call (o : acct_op) (s : terminalAccounting * Collector) : terminalAccounting * Collector :=
  match o with
  | OpStartAt t => (startAt t s.1, s.2)
  | OpStreaming => streamingStarted s.1 s.2
  | OpFinalize ctx r outcome now => finalize true ctx r outcome now s.1 s.2
  end.

Definition acct_calls (os : list acct_op) (s : terminalAccounting * Collector) : terminalAccounting * Collector :=
  foldl (λ s o, acct_call o s) s os.

Definition is_finalize (o : acct_op) : bool := match o with OpFinalize _ _ _ _ => true | _ => false end.
Definition is_streaming (o : acct_op) : bool := match o with OpStreaming => true | _ => false end.

Fixpoint first_start (os : list acct_op) : option Z :=
  match os with
  | [] => None
  | OpStartAt t :: _ => Some t
  | _ :: os => first_start os
  end.

(** An accounting before its end, with the collector it began with. *)
Definition running (method canonical : string) (c0 : Collector) (streaming : bool) (started : option Z) (s : terminalAccounting * Collector) : Prop :=
  s = ({| ta_metrics := true; ta_method := method; ta_canonical := canonical; ta_started := default 0 started;
          ta_timingStarted := bool_decide (is_Some started); ta_finished := false; ta_streamingActive := streaming; ta_requestInFlight := true |},
       move_gauges 1 (if streaming then 1 else 0) c0).

Lemma running_calls method canonical c0 os : forallb (λ o, negb (is_finalize o)) os = true →
  ∀ streaming started s, running method canonical c0 streaming started s →
  running method canonical c0 (streaming || existsb is_streaming os) (match started with Some t => Some t | None => first_start os end) (acct_calls os s).
Proof.
  induction os as [|o os IH]; intros Hf streaming started s Hs; [rewrite orb_false_r; by destruct started|].
  cbn [forallb] in Hf. apply andb_true_iff in Hf as [Ho Hf]. cbn [acct_calls foldl].
  rewrite (Hs : s = _). destruct o as [t| |]; [| |done]; cbn [acct_call fst snd existsb first_start is_streaming].
  - destruct started as [t0|]; [by apply (IH Hf streaming (Some t0))|by apply (IH Hf streaming (Some t))].
  - replace (streaming || (true || existsb is_streaming os)) with (true || existsb is_streaming os) by (by destruct streaming).
    apply (IH Hf true started). unfold running, streamingStarted. cbn. destruct streaming; [done|]. cbn.
    f_equal. unfold move_gauges. cbn. f_equal; lia.
Qed.

Lemma finished_calls os s : ta_finished s.1 = true → acct_calls os s = s.
Proof.
  intros Hf. induction os as [|o os IH]; [done|]. cbn [acct_calls foldl]. assert (acct_call o s = s) as ->; [|exact IH].
  destruct s as [a c]. cbn in Hf. destruct o as [t| |]; cbn [acct_call fst snd].
  - unfold startAt. by rewrite Hf.
  - unfold streamingStarted. by rewrite Hf.
  - unfold finalize, claimTerminal. by rewrite Hf.
Qed.

(** A request is accounted for exactly once, whatever the order of the calls:
    until the first settlement it counts as in flight, and as streaming once its stream
    started; the first settlement takes both back and adds one record, with a duration
    exactly when the timing had started, counted from its first start; nothing after it
    counts. *)
Theorem accounted_once method canonical c0 pre ctx r outcome now post :
  forallb (λ o, negb (is_finalize o)) pre = true →
  let s0 := newPendingTerminalAccounting true method canonical c0 in
  let streaming := existsb is_streaming pre in
  let record := request_record method canonical ctx r (if nonempty outcome then outcome else effectiveRequestOutcome ctx r) in
  (acct_calls pre s0).2 = move_gauges 1 (if streaming then 1 else 0) c0 ∧
  (acct_calls (pre ++ OpFinalize ctx r outcome now :: post) s0).2 =
    add_record record ((λ t, now - t) <$> first_start pre) c0.
Proof.
  intros Hpre s0 streaming record.
  assert (Hr : running method canonical c0 false None s0) by done.
  pose proof (running_calls method canonical c0 pre Hpre false None s0 Hr) as Hp. cbn [orb] in Hp. split; [by rewrite Hp|].
  unfold acct_calls in *. rewrite foldl_app. cbn [foldl]. rewrite Hp. cbn [acct_call fst snd].
  fold streaming. set (s1 := finalize _ _ _ _ _ _ _).
  assert (E : ta_finished s1.1 = true ∧ s1.2 = add_record record ((λ t, now - t) <$> first_start pre) c0).
  { unfold s1, finalize, claimTerminal. cbn [ta_finished ta_streamingActive ta_requestInFlight ta_timingStarted ta_started ta_metrics fst snd].
    split; [done|]. destruct c0 as [i st rq ds]. unfold add_record, move_gauges, record, request_record.
    destruct streaming; cbn; (f_equal; [lia|lia|]; by destruct (first_start pre)). }
  destruct E as [Hf Hc]. change (foldl (λ s o, acct_call o s) s1 post) with (acct_calls post s1). by rewrite finished_calls.
Qed.
End Accounting.

Module AExample.
Definition collector : Collector := {| mc_inFlight := 2; mc_streaming := 0; mc_requests := []; mc_durations := [] |}.
Definition resp : Response unit unit := NewResponse 204.
Definition finish : acct_op := OpFinalize Background (Some resp) "" 50.
End AExample.

Lemma accounted_once_witness :
  (acct_calls ([OpStreaming; OpStartAt 10; OpStreaming; OpStartAt 20] ++ AExample.finish :: [AExample.finish; OpStreaming])
     (newPendingTerminalAccounting true "REQMOD" "none" AExample.collector)).2 =
  add_record {| rq_method := "REQMOD"; rq_label := "none"; rq_outcome := OutcomeAllowed; rq_response := "204"; rq_scenario := "none" |}
    (Some 40) AExample.collector.
Proof.
  apply (accounted_once "REQMOD" "none" AExample.collector [OpStreaming; OpStartAt 10; OpStreaming; OpStartAt 20] Background
    (Some AExample.resp) "" 50 [AExample.finish; OpStreaming] eq_refl).
Defined.
