(* ===== verification/Handler.v ===== *)
(** * Handlers and their middleware: [internal/handler], panic recovery of [internal/middleware]

    A handler takes the request of a world [W], which it and its processor may change,
    to a response, an error or a panic. What the metrics collector counts is kept next
    to the world; a handler without a collector counts nothing. Log lines are left out.
    An error is the sentinels that [errors.Is] finds in its chain, whether a [net.Error]
    is in it and timed out, and its message. *)
From S2P Require Import Prelude GoInt GoFloat GoStrings Header StreamPayload IcapResponse Accounting AdaptiveTimeout.

Local Open Scope Z_scope.

(** ** Errors *)

Inductive Sentinel :=
| ECONNRESET | ECONNREFUSED | ETIMEDOUT | ECONNABORTED | EHOSTUNREACH | NetErrClosed
| DeadlineExceeded | Canceled | errTemporary | ErrNilProcessor | ErrNilRequest | OtherError (n : nat).

#[export] Instance Sentinel_dec : EqDecision Sentinel.
Proof. solve_decision. Defined.

Record GoError := { er_chain : list Sentinel; er_netTimeout : option bool; er_message : string }.

(** [errors.Is]. *)
Definition Is (e : GoError) (s : Sentinel) : bool := bool_decide (s ∈ er_chain e).

Definition nilRequest : GoError := {| er_chain := [ErrNilRequest]; er_netTimeout := None; er_message := "request cannot be nil" |}.
Definition nilProcessor : GoError := {| er_chain := [ErrNilProcessor]; er_netTimeout := None; er_message := "processor cannot be nil" |}.

(** How a context ended, and its error. *)
Inductive ContextEnd := CtxCanceled | CtxDeadline.

Definition context_error (e : ContextEnd) : GoError :=
  match e with
  | CtxCanceled => {| er_chain := [Canceled]; er_netTimeout := None; er_message := "context canceled" |}
  | CtxDeadline => {| er_chain := [DeadlineExceeded]; er_netTimeout := Some true; er_message := "context deadline exceeded" |}
  end.

Definition contextCancellationType (e : GoError) : string := if Is e DeadlineExceeded then "deadline_exceeded" else "context_canceled".

(** [util.CheckCancellation]. *)
Definition CheckCancellation (ctx : option ContextEnd) : string * option GoError :=
  match ctx with
  | None => ("", None)
  | Some CtxDeadline => ("deadline_exceeded", Some (context_error CtxDeadline))
  | Some CtxCanceled => ("canceled", Some (context_error CtxCanceled))
  end.

(** ** Metrics *)

Record HMetrics := {
  hm_inFlight : Z; hm_errors : list string; hm_previews : nat; hm_cancellations : list string;
  hm_requestErrors : list (string * string * string * string); hm_retries : list (string * string * string); hm_timeouts : nat
}.

Definition add_inFlight (n : Z) (m : HMetrics) : HMetrics :=
  {| hm_inFlight := hm_inFlight m + n; hm_errors := hm_errors m; hm_previews := hm_previews m; hm_cancellations := hm_cancellations m;
     hm_requestErrors := hm_requestErrors m; hm_retries := hm_retries m; hm_timeouts := hm_timeouts m |}.
Definition add_error (label : string) (m : HMetrics) : HMetrics :=
  {| hm_inFlight := hm_inFlight m; hm_errors := hm_errors m ++ [label]; hm_previews := hm_previews m; hm_cancellations := hm_cancellations m;
     hm_requestErrors := hm_requestErrors m; hm_retries := hm_retries m; hm_timeouts := hm_timeouts m |}.
Definition add_preview (m : HMetrics) : HMetrics :=
  {| hm_inFlight := hm_inFlight m; hm_errors := hm_errors m; hm_previews := S (hm_previews m); hm_cancellations := hm_cancellations m;
     hm_requestErrors := hm_requestErrors m; hm_retries := hm_retries m; hm_timeouts := hm_timeouts m |}.
Definition add_cancellation (reason : string) (m : HMetrics) : HMetrics :=
  {| hm_inFlight := hm_inFlight m; hm_errors := hm_errors m; hm_previews := hm_previews m; hm_cancellations := hm_cancellations m ++ [reason];
     hm_requestErrors := hm_requestErrors m; hm_retries := hm_retries m; hm_timeouts := hm_timeouts m |}.
Definition add_requestError (stage type scenario response : string) (m : HMetrics) : HMetrics :=
  {| hm_inFlight := hm_inFlight m; hm_errors := hm_errors m; hm_previews := hm_previews m; hm_cancellations := hm_cancellations m;
     hm_requestErrors := hm_requestErrors m ++ [(stage, type, scenario, response)]; hm_retries := hm_retries m; hm_timeouts := hm_timeouts m |}.
Definition add_retry (component status type : string) (m : HMetrics) : HMetrics :=
  {| hm_inFlight := hm_inFlight m; hm_errors := hm_errors m; hm_previews := hm_previews m; hm_cancellations := hm_cancellations m;
     hm_requestErrors := hm_requestErrors m; hm_retries := hm_retries m ++ [(component, status, type)]; hm_timeouts := hm_timeouts m |}.
Definition add_timeout (m : HMetrics) : HMetrics :=
  {| hm_inFlight := hm_inFlight m; hm_errors := hm_errors m; hm_previews := hm_previews m; hm_cancellations := hm_cancellations m;
     hm_requestErrors := hm_requestErrors m; hm_retries := hm_retries m; hm_timeouts := S (hm_timeouts m) |}.

Section Handlers.
Context {P R W : Type}.
Notation Response := (IcapResponse.Response P R).
(** What the context of the world's request says when it is asked, whether the request
    is in preview mode, and the labels in its context. *)
Context (ctxErr : W → option ContextEnd) (IsPreviewMode : W → bool) (context_of : W → ReqContext).

Inductive reply := Replies (resp : option Response) (err : option GoError) | Panicked.

Record Handler := { hd_method : string; hd_handle : W * HMetrics → reply * (W * HMetrics) }.

(** ** [handler.go] *)

Definition WrapHandler (f : W * HMetrics → reply * (W * HMetrics)) (method : string) : Handler := {| hd_method := method; hd_handle := f |}.

Fixpoint chainHandle (handlers : list Handler) (s : W * HMetrics) : reply * (W * HMetrics) :=
  match handlers with
  | [] => (Replies (Some (NewResponse StatusNoContentNeeded)) None, s)
  | h :: handlers =>
      match hd_handle h s with
      | (Panicked, s) => (Panicked, s)
      | (Replies _ (Some err), s) => (Replies None (Some err), s)
      | (Replies (Some resp) None, s) => (Replies (Some resp) None, s)
      | (Replies None None, s) => chainHandle handlers s
      end
  end.

Definition Chain (handlers : list Handler) : Handler :=
  WrapHandler (chainHandle handlers) (match handlers with [] => "" | h :: _ => hd_method h end).

Definition Middleware : Type := Handler → Handler.

(** The loop of [Use], from the last middleware down: [i] are left. *)
Fixpoint use_loop (i : nat) (middlewares : list Middleware) (h : Handler) : Handler :=
  match i with
  | O => h
  | S i => use_loop i middlewares (match middlewares !! i with Some m => m h | None => h end)
  end.

Definition Use (h : Handler) (middlewares : list Middleware) : Handler := use_loop (length middlewares) middlewares h.

(** ** Panic recovery *)

Definition PanicRecoveryMiddleware : Middleware := λ next,
  WrapHandler (λ s, match hd_handle next s with
                    | (Panicked, s) => (Replies (Some (NewResponseError StatusInternalServerError "panic recovered in ICAP mock")) None, s)
                    | r => r
                    end) (hd_method next).

(** ** [base_handler.go] *)

Definition Processor : Type := W → reply * W.

Record baseHandler := { bh_method : string; bh_processor : option Processor; bh_metrics : bool }.

Definition newBaseHandlerForServer (method : string) (proc : option Processor) (metrics : bool) : baseHandler :=
  {| bh_method := method; bh_processor := proc; bh_metrics := metrics |}.

Definition SetProcessor (p : option Processor) (h : baseHandler) : baseHandler :=
  match p with None => h | Some p => {| bh_method := bh_method h; bh_processor := Some p; bh_metrics := bh_metrics h |} end.

Definition SetMetrics (m : bool) (h : baseHandler) : baseHandler :=
  if m then {| bh_method := bh_method h; bh_processor := bh_processor h; bh_metrics := true |} else h.

Definition scenarioLabel (w : W) : string := match ContextScenarioMetadata (context_of w) with Some m => sm_Scenario m | None => NoScenarioMetricLabel end.

Definition measured (metrics : bool) (f : HMetrics → HMetrics) (m : HMetrics) : HMetrics := if metrics then f m else m.

Definition recordRequestError (metrics : bool) (stage type response : string) (w : W) : HMetrics → HMetrics :=
  measured metrics (add_requestError stage type (scenarioLabel w) response).

Definition recordRequestMetrics (metrics : bool) (err : option GoError) (label : string) : HMetrics → HMetrics :=
  measured (metrics && bool_decide (is_Some err)) (add_error label).

(** A processing error stays; a context that ended during the processing is an error. *)
Definition checkPostProcessCancellation (metrics : bool) (procErr : option GoError) (w : W) (m : HMetrics) : option GoError * HMetrics :=
  if bool_decide (is_Some procErr) then (None, m)
  else
    match CheckCancellation (ctxErr w) with
    | (_, None) => (None, m)
    | (reason, Some err) =>
        (Some err, recordRequestError metrics "context" (contextCancellationType err) "error" w (measured metrics (add_cancellation reason) m))
    end.

Definition isModifiedResponse (resp : Response) : bool :=
  (0 <? length (rs_Body resp))%nat || bool_decide (is_Some (rs_HTTPRequest resp)) || bool_decide (is_Some (rs_HTTPResponse resp)).

Definition resolvePreviewResponse (resp : Response) : Response :=
  if rs_StatusCode resp =? StatusNoContentNeeded then resp
  else if negb (isModifiedResponse resp) then NewResponse StatusNoContentNeeded
  else resp.

Definition handlePreview (metrics : bool) (p : Processor) (s : W * HMetrics) : reply * (W * HMetrics) :=
  let '(w, m) := s in
  let m := measured metrics add_preview m in
  match p w with
  | (Panicked, w) => (Panicked, (w, m))
  | (Replies resp err, w) =>
      match checkPostProcessCancellation metrics err w m with
      | (Some cancelErr, m) => (Replies None (Some cancelErr), (w, m))
      | (None, m) =>
          match err, resp with
          | None, Some resp => (Replies (Some (resolvePreviewResponse resp)) None, (w, m))
          | _, _ => (Replies resp err, (w, recordRequestMetrics metrics err "preview_processing_error" m))
          end
      end
  end.

Definition handleNonPreview (metrics : bool) (p : Processor) (s : W * HMetrics) : reply * (W * HMetrics) :=
  let '(w, m) := s in
  match p w with
  | (Panicked, w) => (Panicked, (w, m))
  | (Replies resp err, w) =>
      match checkPostProcessCancellation metrics err w m with
      | (Some cancelErr, m) => (Replies None (Some cancelErr), (w, m))
      | (None, m) => (Replies resp err, (w, recordRequestMetrics metrics err "processing_error" m))
      end
  end.

(** [present] is whether the request is not nil. The gauge is lowered on every way
    out, a panic included. *)
Definition handle (h : baseHandler) (present : bool) (s : W * HMetrics) : reply * (W * HMetrics) :=
  let '(w, m) := s in
  let metrics := bh_metrics h in
  if negb present then (Replies None (Some nilRequest), s)
  else
    match ctxErr w with
    | Some e =>
        let err := context_error e in
        (Replies None (Some err), (w, recordRequestError metrics "context" (contextCancellationType err) "error" w m))
    | None =>
        let m := measured metrics (add_inFlight 1) m in
        let '(r, (w, m)) :=
          match bh_processor h with
          | None =>
              (Replies None (Some nilProcessor),
               (w, measured metrics (λ m, recordRequestError metrics "processor_build" "nil_processor" "error" w (add_error "nil_processor" m)) m))
          | Some p => if IsPreviewMode w then handlePreview metrics p (w, m) else handleNonPreview metrics p (w, m)
          end in
        (r, (w, measured metrics (add_inFlight (-1)) m))
    end.

(** [ReqmodHandler] and [RespmodHandler]. *)
Definition NewReqmodHandlerForServer (proc : option Processor) (metrics : bool) : baseHandler := newBaseHandlerForServer "REQMOD" proc metrics.
Definition NewRespmodHandlerForServer (proc : option Processor) (metrics : bool) : baseHandler := newBaseHandlerForServer "RESPMOD" proc metrics.
Definition asHandler (h : baseHandler) : Handler := WrapHandler (handle h true) (bh_method h).
End Handlers.

(** ** [options.go] *)

Record OptionsHandlerConfig := {
  oc_ServiceTag : string; oc_ServiceID : string; oc_Methods : list string; oc_MaxConnections : Z; oc_OptionsTTL : Z; oc_PreviewSize : Z
}.

(** The handler's fields are those of its configuration. *)
Definition OptionsHandler : Type := OptionsHandlerConfig.
Definition NewOptionsHandler (config : OptionsHandlerConfig) : OptionsHandler := config.

Inductive OptionsUpdate :=
| UpdateMethods (methods : list string) | UpdateServiceTag (tag : string) | UpdateServiceID (id : string)
| UpdateMaxConnections (n : Z) | UpdateOptionsTTL (ttl : Z) | UpdatePreviewSize (size : Z).

Definition options_update (u : OptionsUpdate) (h : OptionsHandler) : OptionsHandler :=
  {| oc_ServiceTag := match u with UpdateServiceTag tag => tag | _ => oc_ServiceTag h end;
     oc_ServiceID := match u with UpdateServiceID id => id | _ => oc_ServiceID h end;
     oc_Methods := match u with UpdateMethods methods => methods | _ => oc_Methods h end;
     oc_MaxConnections := match u with UpdateMaxConnections n => n | _ => oc_MaxConnections h end;
     oc_OptionsTTL := match u with UpdateOptionsTTL ttl => ttl | _ => oc_OptionsTTL h end;
     oc_PreviewSize := match u with UpdatePreviewSize size => size | _ => oc_PreviewSize h end |}.

(** [time.Duration.Seconds]. *)
Definition Seconds (d : Z) : float64 := fadd (of_int (Z.quot d second)) (SFdiv 53 1024 (of_int (Z.rem d second)) (of_int second)).

Definition optionsHandle {P R} (unfit : float64 → Z) (h : OptionsHandler) : IcapResponse.Response P R :=
  let resp := NewResponse StatusOK in
  let resp := SetHeader "Methods" (join_str ", " (oc_Methods h)) resp in
  let resp := SetHeader "Service" "ICAP-Mock-Server/1.0" resp in
  let resp := SetHeader "ISTag" (oc_ServiceTag h) resp in
  let resp := SetHeader "Service-ID" (oc_ServiceID h) resp in
  let resp := SetHeader "Max-Connections" (FormatInt 10 (oc_MaxConnections h)) resp in
  let resp := SetHeader "Options-TTL" (FormatInt 10 (to_int64 unfit (Seconds (oc_OptionsTTL h)))) resp in
  let resp := SetHeader "Allow" "204" resp in
  if 0 <=? oc_PreviewSize h then SetHeader "Preview" (FormatInt 10 (oc_PreviewSize h)) resp else resp.

(** ** What a handler answers *)

Section Answers.
Context {P R W : Type} (ctxErr : W → option ContextEnd) (IsPreviewMode : W → bool) (context_of : W → ReqContext).
Notation Response := (IcapResponse.Response P R).
Notation reply := (reply (P := P) (R := R)).
Notation baseHandler := (baseHandler (P := P) (R := R) (W := W)).
Notation handle := (handle ctxErr IsPreviewMode context_of).

Lemma add_inFlight_back metrics (f : HMetrics → HMetrics) m : (∀ m, hm_inFlight (f m) = hm_inFlight m) →
  hm_inFlight (measured metrics (add_inFlight (-1)) (f (measured metrics (add_inFlight 1) m))) = hm_inFlight m.
Proof using. intros Hf. unfold measured. destruct metrics; [|apply Hf]. cbn. rewrite Hf. cbn. lia. Qed.

(** What counts besides the gauge. *)
Definition counts_only (m m' : HMetrics) : Prop := hm_inFlight m' = hm_inFlight m.

Lemma recordRequestError_gauge metrics stage type response w m : counts_only m (recordRequestError (W := W) context_of metrics stage type response w m).
Proof using. unfold counts_only, recordRequestError, measured. by destruct metrics. Qed.

Lemma checkPostProcessCancellation_spec metrics err w m :
  (checkPostProcessCancellation ctxErr context_of metrics err w m).1 = (if bool_decide (is_Some err) then None else context_error <$> ctxErr w) ∧
  counts_only m (checkPostProcessCancellation ctxErr context_of metrics err w m).2.
Proof using.
  unfold checkPostProcessCancellation. case_bool_decide; [done|]. unfold CheckCancellation.
  destruct (ctxErr w) as [[]|]; cbn; (split; [done|]); try done; unfold counts_only; rewrite recordRequestError_gauge; unfold measured; by destruct metrics.
Qed.

(** What becomes of what the processor replied. *)
Definition settled (preview : bool) (ended : option ContextEnd) (r : reply) : reply :=
  match r with
  | Panicked => Panicked
  | Replies resp (Some err) => Replies resp (Some err)
  | Replies resp None =>
      match ended with
      | Some e => Replies None (Some (context_error e))
      | None => Replies (if preview then resolvePreviewResponse <$> resp else resp) None
      end
  end.

Lemma processed (preview metrics : bool) p w m :
  let s := if preview then handlePreview ctxErr context_of metrics p (w, m) else handleNonPreview ctxErr context_of metrics p (w, m) in
  s.1 = settled preview (ctxErr (p w).2) (p w).1 ∧ s.2.1 = (p w).2 ∧ counts_only m s.2.2.
Proof using.
  cbv zeta. unfold handlePreview, handleNonPreview. destruct (p w) as [[resp err|] w']; cbn [fst snd].
  2: { destruct preview; cbn; unfold counts_only, measured; by destruct metrics. }
  assert (Hm : ∀ m0 label, counts_only m0 (recordRequestMetrics metrics err label m0)).
  { intros. unfold counts_only, recordRequestMetrics, measured. by destruct (metrics && _). }
  destruct preview.
  - pose proof (checkPostProcessCancellation_spec metrics err w' (measured metrics add_preview m)) as [He Hg].
    assert (Hp : counts_only m (measured metrics add_preview m)) by (unfold counts_only, measured; by destruct metrics).
    destruct (checkPostProcessCancellation _ _ _ _ _ _) as [c m1]. cbn [fst snd] in *. subst c. unfold counts_only in *.
    destruct err as [err|]; [cbn; by rewrite Hm, Hg|]. cbn. destruct (ctxErr w') as [e|]; cbn; [by rewrite Hg|].
    destruct resp as [resp|]; cbn; [by rewrite Hg|]. unfold recordRequestMetrics, measured. rewrite andb_false_r. by rewrite Hg.
  - pose proof (checkPostProcessCancellation_spec metrics err w' m) as [He Hg].
    destruct (checkPostProcessCancellation _ _ _ _ _ _) as [c m1]. cbn [fst snd] in *. subst c. unfold counts_only in *.
    destruct err as [err|]; [cbn; by rewrite Hm, Hg|]. cbn. destruct (ctxErr w') as [e|]; cbn; [by rewrite Hg|].
    unfold recordRequestMetrics, measured. rewrite andb_false_r. by rewrite Hg.
Qed.

(** What an endpoint's handler does behind the recovery from panics, on every path:
    it never panics, the gauge of requests in processing is where it was, and the
    answer is decided by the context before, the processor, and the context after: a
    context that is over answers with its error and the processor is not asked, or its
    success is dropped; an error of the processor passes; a response passes, in preview
    mode only as a 204 or with content. *)
Theorem handler_replies (h : baseHandler) w m :
  let out := hd_handle (PanicRecoveryMiddleware (asHandler ctxErr IsPreviewMode context_of h)) (w, m) in
  hm_inFlight out.2.2 = hm_inFlight m ∧
  match ctxErr w, bh_processor h with
  | Some e, _ => out.1 = Replies None (Some (context_error e)) ∧ out.2.1 = w
  | None, None => out.1 = Replies None (Some nilProcessor) ∧ out.2.1 = w
  | None, Some p =>
      out.2.1 = (p w).2 ∧
      out.1 = match settled (IsPreviewMode w) (ctxErr (p w).2) (p w).1 with
              | Panicked => Replies (Some (NewResponseError StatusInternalServerError "panic recovered in ICAP mock")) None
              | r => r
              end
  end.
Proof using.
  cbv zeta. unfold PanicRecoveryMiddleware, asHandler, WrapHandler. cbn [hd_handle]. unfold Handler.handle. cbn [negb].
  destruct (ctxErr w) as [e|].
  { cbn. split; [apply recordRequestError_gauge|done]. }
  destruct (bh_processor h) as [p|].
  - pose proof (processed (IsPreviewMode w) (bh_metrics h) p w (measured (bh_metrics h) (add_inFlight 1) m)) as (E1 & E2 & E3).
    destruct (if IsPreviewMode w then _ else _) as [r [w' m']]. cbn [fst snd] in *. subst r w'.
    assert (Hg : hm_inFlight (measured (bh_metrics h) (add_inFlight (-1)) m') = hm_inFlight m).
    { revert E3. unfold counts_only, measured. destruct (bh_metrics h); cbn; lia. }
    destruct (settled _ _ _); cbn; by rewrite Hg.
  - cbn [fst snd]. split; [|done]. unfold measured. destruct (bh_metrics h); cbn -[Z.add]; lia.
Qed.

(** The answer to a preview is 204 or carries a body or a message, whatever the
    processor made of it; any other response, an ICAP error without a body too, loses
    its status and its headers and becomes a plain 204, so the client goes on as if
    the request had been let through. *)
Theorem preview_answer (resp : Response) :
  let r := resolvePreviewResponse resp in
  (rs_StatusCode r = StatusNoContentNeeded ∨ isModifiedResponse r = true) ∧
  (rs_StatusCode resp = StatusNoContentNeeded ∨ isModifiedResponse resp = true → r = resp) ∧
  (rs_StatusCode resp ≠ StatusNoContentNeeded → rs_Body resp = [] → rs_HTTPRequest resp = None → rs_HTTPResponse resp = None → r = NewResponse StatusNoContentNeeded).
Proof using.
  cbv zeta. unfold resolvePreviewResponse. destruct (Z.eqb_spec (rs_StatusCode resp) StatusNoContentNeeded) as [E|Hne].
  - split_and!; [by left|done|done].
  - destruct (isModifiedResponse resp) eqn:Em; cbn [negb]; split_and!; [by right|done| |by left|naive_solver|done].
    intros _ Hb Hq Hr. unfold isModifiedResponse in Em. rewrite Hb, Hq, Hr in Em. discriminate Em.
Qed.

(** Handlers that have nothing to say. *)
Inductive silent : list (Handler (P := P) (R := R) (W := W)) → W * HMetrics → W * HMetrics → Prop :=
| silent_none s : silent [] s s
| silent_more h hs s s1 s2 : hd_handle h s = (Replies None None, s1) → silent hs s1 s2 → silent (h :: hs) s s2.

(** A chain of handlers answers with its first member that has a response or an
    error; those after it are not asked. When all have nothing to say the answer
    is 204. *)
Theorem handler_chain_first pre post s s1 : silent pre s s1 →
  match post with
  | [] => chainHandle pre s = (Replies (Some (NewResponse StatusNoContentNeeded)) None, s1)
  | h :: hs => (hd_handle h s1).1 ≠ Replies None None →
      (chainHandle (pre ++ h :: hs) s).2 = (hd_handle h s1).2 ∧
      (chainHandle (pre ++ h :: hs) s).1 = match (hd_handle h s1).1 with Replies _ (Some err) => Replies None (Some err) | r => r end
  end.
Proof using.
  intros Hpre. induction Hpre as [s|h hs s s1 s2 Hh _ IH].
  - destruct post as [|h hs]; [done|]. intros Hne. cbn [app chainHandle].
    destruct (hd_handle h s) as [[[resp|] [err|]|] s']; cbn [fst snd] in *; done.
  - cbn [app chainHandle]. rewrite Hh. destruct post as [|h' hs']; exact IH.
Qed.

(** The loop of [Use], which applies the middlewares from the last to the first,
    makes the first one the outermost. *)
Theorem use_outermost_first (h : Handler (P := P) (R := R) (W := W)) ms : Use h ms = foldr (λ m h, m h) h ms.
Proof using.
  unfold Use. induction ms as [|m ms IH] using rev_ind in h |- *; [done|].
  rewrite length_app, Nat.add_1_r, foldr_app. cbn [use_loop foldr]. rewrite list_lookup_middle by done. rewrite <- IH. clear IH.
  assert (Hl : ∀ i g, (i ≤ length ms)%nat → use_loop i (ms ++ [m]) g = use_loop i ms g).
  { induction i as [|i IHi]; intros g Hi; [done|]. cbn [use_loop]. rewrite lookup_app_l by exact Hi. apply IHi. by apply Nat.lt_le_incl. }
  by apply Hl.
Qed.
End Answers.

(** Whatever updates came before, the answer to OPTIONS is 200 and states what the
    handler is configured with now; the size of the preview is stated exactly when it
    is not negative. *)
Theorem options_answer {P R} unfit h us :
  let h' := foldl (λ h u, options_update u h) h us in
  let r : IcapResponse.Response P R := optionsHandle unfit h' in
  rs_StatusCode r = StatusOK ∧
  GetHeader r "methods" = Some (join_str ", " (oc_Methods h')) ∧ GetHeader r "ISTag" = Some (oc_ServiceTag h') ∧
  GetHeader r "Service-ID" = Some (oc_ServiceID h') ∧ GetHeader r "Max-Connections" = Some (FormatInt 10 (oc_MaxConnections h')) ∧
  GetHeader r "Options-TTL" = Some (FormatInt 10 (to_int64 unfit (Seconds (oc_OptionsTTL h')))) ∧ GetHeader r "Allow" = Some "204" ∧
  GetHeader r "Preview" = (if 0 <=? oc_PreviewSize h' then Some (FormatInt 10 (oc_PreviewSize h')) else None).
Proof.
  cbv zeta. set (h' := foldl _ h us). clearbody h'. unfold optionsHandle. destruct (0 <=? oc_PreviewSize h'); split_and!; reflexivity.
Qed.

(** ** Examples *)

Module HExample.
Definition W : Type := unit.
Definition metrics : HMetrics :=
  {| hm_inFlight := 2; hm_errors := []; hm_previews := 0; hm_cancellations := []; hm_requestErrors := []; hm_retries := []; hm_timeouts := 0 |}.
Definition answering (resp : option (IcapResponse.Response unit unit)) : Handler (W := W) := WrapHandler (λ s, (Replies resp None, s)) "REQMOD".
(** A scenario that blocks, for a request without an HTTP message. *)
Definition blocked : IcapResponse.Response unit unit := SetHeader "X-Blocked" "yes" (NewResponse 403).
End HExample.

Lemma preview_answer_witness : GetHeader HExample.blocked "X-Blocked" = Some "yes" ∧ resolvePreviewResponse HExample.blocked = NewResponse 204.
Proof.
  split; [reflexivity|]. apply (proj2 (proj2 (preview_answer HExample.blocked))); [discriminate|reflexivity|reflexivity|reflexivity].
Defined.

Lemma handler_chain_first_witness :
  (chainHandle [HExample.answering None; HExample.answering (Some HExample.blocked); HExample.answering None] (tt, HExample.metrics)).1 =
  Replies (Some HExample.blocked) None.
Proof.
  destruct (handler_chain_first [HExample.answering None] [HExample.answering (Some HExample.blocked); HExample.answering None]
    (tt, HExample.metrics) (tt, HExample.metrics)) as [_ H]; [|discriminate|exact H].
  apply (silent_more _ _ _ (tt, HExample.metrics)); [reflexivity|constructor].
Defined.
