(* ===== verification/Retry.v ===== *)
(** * Retries: [internal/handler/retry.go], and the middleware of [adaptive_timeout.go]

    A handler that fails with a transient error is called again after a pause, which
    grows exponentially and is jittered. The random generator and the wait for a pause
    or the end of the context are operations of the world. *)
From S2P Require Import Prelude GoInt GoFloat GoStrings StreamPlan StreamSources StreamPayload IcapResponse Accounting AdaptiveTimeout Handler.

Local Open Scope Z_scope.

(** ** Which errors are transient *)

(** [findSubstring]: the loop from [i] on, with [n] positions left. *)
Fixpoint findSubstring_from (n i : nat) (s sub : string) : bool :=
  match n with
  | O => false
  | S n => if bool_decide (String.substring i (String.length sub) s = sub) then true else findSubstring_from n (S i) s sub
  end.

Definition findSubstring (s sub : string) : bool := findSubstring_from (S (String.length s) - String.length sub) 0 s sub.

Definition contains (s sub : string) : bool :=
  (String.length sub <=? String.length s)%nat &&
  (bool_decide (s = sub) || ((String.length sub <? String.length s)%nat && findSubstring s sub)).

Definition containsAny (msg : string) (subs : list string) : bool := existsb (contains msg) subs.

Definition transientMessages : list string :=
  ["connection reset"; "connection refused"; "broken pipe"; "network is unreachable"; "temporary failure"; "timeout"].

Definition IsRetryable (err : option GoError) : bool :=
  match err with
  | None => false
  | Some e =>
      default false (er_netTimeout e)
      || (Is e ECONNRESET || Is e ECONNREFUSED || Is e ETIMEDOUT || Is e ECONNABORTED || Is e EHOSTUNREACH)
      || Is e DeadlineExceeded || Is e errTemporary || containsAny (er_message e) transientMessages
  end.

Definition getErrorType (err : option GoError) : string :=
  match err with
  | None => "none"
  | Some e =>
      if Is e DeadlineExceeded then "deadline_exceeded"
      else if Is e Canceled then "canceled"
      else if Is e ECONNRESET then "conn_reset"
      else if Is e ECONNREFUSED then "conn_refused"
      else if Is e ETIMEDOUT then "timed_out"
      else if Is e NetErrClosed then "network_error"
      else "unknown"
  end.

Lemma findSubstring_from_spec n : ∀ i s sub, findSubstring_from n i s sub = true ↔
  ∃ j, (i ≤ j < i + n)%nat ∧ String.substring j (String.length sub) s = sub.
Proof.
  induction n as [|n IH]; intros i s sub; cbn [findSubstring_from]; [split; [done|]; intros (j & ? & _); lia|]. case_bool_decide as E.
  - split; [|done]. intros _. exists i. split; [lia|done].
  - rewrite IH. split; intros (j & ? & Hj); exists j; (split; [|done]); [lia|]. destruct (decide (j = i)) as [->|]; [done|lia].
Qed.

Lemma contains_spec s sub : contains s sub = contains_str s sub.
Proof.
  apply eq_true_iff_eq. rewrite contains_str_spec. unfold contains. rewrite andb_true_iff, orb_true_iff, andb_true_iff, bool_decide_eq_true, Nat.leb_le, Nat.ltb_lt.
  unfold findSubstring. rewrite findSubstring_from_spec. split.
  - intros [Hl [->|(Hlt & j & Hj & E)]]; [exists "", ""; by rewrite str_app_nil_r|]. rewrite substring_slice in E.
    exists (str_take j s), (str_drop (String.length sub) (str_drop j s)). rewrite <- E at 1. by rewrite !str_take_drop.
  - intros (a & b & ->). rewrite !str_length_app. split; [lia|].
    destruct (decide (String.length sub = String.length a + (String.length sub + String.length b))%nat) as [E|].
    + left. destruct a; cbn in E; [|lia]. destruct b; cbn in E; [|lia]. by rewrite str_app_nil_r.
    + right. split; [lia|]. exists (String.length a). split; [lia|]. by rewrite substring_slice, str_drop_app, str_take_app.
Qed.

(** ** The pause *)

Inductive JitterStrategy := JitterNone | JitterFull | JitterEqual.

#[export] Instance JitterStrategy_dec : EqDecision JitterStrategy.
Proof. solve_decision. Defined.

(** [base * ... * base], from 1. *)
Fixpoint pow_loop (n : nat) (base result : float64) : float64 :=
  match n with O => result | S n => pow_loop n base (fmul result base) end.
Definition pow (base : float64) (exp : nat) : float64 := pow_loop exp base (of_int 1).

Section Backoff.
Context (unfit : float64 → Z).

(** [r] is the draw of [rand.Float64], in [0, 1). *)
Definition applyJitter (backoff : Z) (strategy : JitterStrategy) (jitterPercent r : float64) : Z :=
  if bool_decide (strategy = JitterNone) || (backoff =? 0) then backoff
  else
    match strategy with
    | JitterFull => to_int64 unfit (fmul (of_int backoff) r)
    | JitterEqual =>
        let jitterPercent := if fle jitterPercent (of_int 0) || negb (fle jitterPercent (of_int 1)) then literal 1 4 else jitterPercent in
        let jitterRange := fmul (of_int backoff) jitterPercent in
        let jitter := fmul (fmul (fsub r (literal 1 2)) (of_int 2)) jitterRange in
        to_int64 unfit (fadd (of_int backoff) jitter)
    | JitterNone => backoff
    end.

Definition calculateBackoffWithJitter (initial : Z) (multiplier : float64) (maxBackoff : Z) (attempt : nat) (strategy : JitterStrategy)
    (jitterPercent r : float64) : Z :=
  let backoff := to_int64 unfit (fmul (of_int initial) (pow multiplier attempt)) in
  let backoff := if maxBackoff <? backoff then maxBackoff else backoff in
  applyJitter backoff strategy jitterPercent r.
End Backoff.

(** ** The configuration *)

Record RetryConfig := {
  rc_metrics : bool; RetryableErrors : option (list Sentinel); MaxRetries : Z; InitialBackoff : Z; MaxBackoff : Z;
  BackoffMultiplier : float64; rc_JitterStrategy : JitterStrategy; JitterPercent : float64
}.

Definition DefaultRetryConfig : RetryConfig :=
  {| rc_metrics := false; RetryableErrors := None; MaxRetries := 3; InitialBackoff := 100 * 1000000; MaxBackoff := 5 * second;
     BackoffMultiplier := of_int 2; rc_JitterStrategy := JitterEqual; JitterPercent := literal 1 4 |}.

Definition applyRetryDefaults (cfg : RetryConfig) : RetryConfig :=
  let d := DefaultRetryConfig in
  {| rc_metrics := rc_metrics cfg; RetryableErrors := RetryableErrors cfg;
     MaxRetries := if MaxRetries cfg <? 0 then MaxRetries d else MaxRetries cfg;
     InitialBackoff := if InitialBackoff cfg <=? 0 then InitialBackoff d else InitialBackoff cfg;
     MaxBackoff := if MaxBackoff cfg <=? 0 then MaxBackoff d else MaxBackoff cfg;
     BackoffMultiplier := if fle (BackoffMultiplier cfg) (of_int 0) then BackoffMultiplier d else BackoffMultiplier cfg;
     rc_JitterStrategy := rc_JitterStrategy cfg;
     JitterPercent := if SFltb (JitterPercent cfg) (of_int 0) || SFltb (of_int 1) (JitterPercent cfg) then JitterPercent d else JitterPercent cfg |}.

Section Retry.
Context (unfit : float64 → Z) {P R W : Type}.
Notation Handler := (Handler (P := P) (R := R) (W := W)).
Notation reply := (Handler.reply (P := P) (R := R)).
Notation State := (W * HMetrics)%type.
(** [Wait d] waits for [d] or for the end of the context, which it then gives. *)
Context (Float64 : W → float64 * W) (Wait : Z → W → option ContextEnd * W) (requestMethod : W → string).

Section Execute.
Context (cfg : RetryConfig) (next : Handler).

Definition retryable (err : GoError) : bool :=
  match RetryableErrors cfg with
  | None => IsRetryable (Some err)
  | Some es => existsb (Is err) es
  end.

Definition recordMetric (component status errorType : string) : HMetrics → HMetrics :=
  measured (rc_metrics cfg) (add_retry component status errorType).

Definition waitBackoff (component : string) (err : GoError) (attempt : nat) (s : State) : option GoError * State :=
  let '(w, m) := s in
  let '(r, w) := Float64 w in
  let backoff := calculateBackoffWithJitter unfit (InitialBackoff cfg) (BackoffMultiplier cfg) (MaxBackoff cfg) attempt
                   (rc_JitterStrategy cfg) (JitterPercent cfg) r in
  let m := recordMetric component "retry" (getErrorType (Some err)) m in
  match Wait backoff w with
  | (None, w) => (None, (w, m))
  | (Some e, w) => (Some (context_error e), (w, recordMetric component "canceled" (getErrorType (Some (context_error e))) m))
  end.

(** The attempts from [attempt] on, [rounds] of them. *)
Fixpoint execute_from (rounds attempt : nat) (component : string) (lastErr : option GoError) (s : State) : reply * State :=
  match rounds with
  | O => (Replies None lastErr, s)
  | S rounds =>
      match hd_handle next s with
      | (Panicked, s) => (Panicked, s)
      | (Replies resp None, (w, m)) =>
          (Replies resp None, (w, if (0 <? attempt)%nat then recordMetric component "success" "" m else m))
      | (Replies _ (Some err), (w, m)) =>
          if negb (retryable err) || (MaxRetries cfg <=? Z.of_nat attempt) then
            (Replies None (Some err),
             (w, recordMetric component (if retryable err then "exhausted" else "non_retryable") (getErrorType (Some err)) m))
          else
            match waitBackoff component err attempt (w, m) with
            | (Some waitErr, s) => (Replies None (Some waitErr), s)
            | (None, s) => execute_from rounds (S attempt) component (Some err) s
            end
      end
  end.

Definition execute (s : State) : reply * State := execute_from (S (Z.to_nat (MaxRetries cfg))) 0 (requestMethod s.1) None s.
End Execute.

Definition RetryMiddleware (cfg : RetryConfig) : Middleware := λ next, WrapHandler (execute (applyRetryDefaults cfg) next) (hd_method next).

(** ** The adaptive timeout around a handler *)

(** [next] is given the timeout of its context, and says whether its deadline passed;
    the clock is that of the tracker. *)
Definition AdaptiveHandle (uri basePath method : string) (metrics : bool) (next : Z → State → reply * bool * Z * State)
    (created checked adjusted : Z) (t : AdaptiveTimeoutTracker) (s : State) : option (reply * AdaptiveTimeoutTracker * State) :=
  let path := if nonempty basePath then basePath else uri in
  let '(r, late, duration, (w, m)) := next (GetTimeout (method, path) t) s in
  t ← RecordDuration unfit (method, path) duration created checked adjusted t;
  Some (r, t, (w, measured (metrics && late) add_timeout m)).

(** ** How often a handler is called *)

(** [k] calls that fail with a transient error, each with the pause after it. *)
Inductive failing (cfg : RetryConfig) (next : Handler) (component : string) : nat → State → State → Prop :=
| failing_none s : failing cfg next component 0 s s
| failing_more k s s1 resp err w m s2 :
    failing cfg next component k s s1 → hd_handle next s1 = (Replies resp (Some err), (w, m)) → retryable cfg err = true →
    waitBackoff cfg component err k (w, m) = (None, s2) → failing cfg next component (S k) s s2.

Lemma execute_failing cfg next component k s s1 : failing cfg next component k s s1 → ∀ rounds lastErr, Z.of_nat k ≤ MaxRetries cfg →
  ∃ lastErr', execute_from cfg next (k + rounds) 0 component lastErr s = execute_from cfg next rounds k component lastErr' s1.
Proof using.
  induction 1 as [s|k s s1 resp err w m s2 Hf IH Hh Hr Hw]; intros rounds lastErr Hk; [by exists lastErr|].
  replace (S k + rounds)%nat with (k + S rounds)%nat by lia. destruct (IH (S rounds) lastErr ltac:(lia)) as (e & ->).
  exists (Some err). cbn [execute_from]. rewrite Hh, Hr. destruct (Z.leb_spec (MaxRetries cfg) (Z.of_nat k)); [lia|]. cbn [negb orb]. by rewrite Hw.
Qed.

(** The retries of a request: after [k] transient failures, [k] at most
    [MaxRetries], the next call decides. Its response is the answer; a permanent error
    is returned at once; the error of call [MaxRetries + 1] is returned whatever it is;
    and a context that ends during a pause is the answer. The world is as these calls
    and pauses leave it. *)
Theorem retry_attempts cfg next s k s1 r w m : 0 ≤ MaxRetries cfg → failing cfg next (requestMethod s.1) k s s1 → Z.of_nat k ≤ MaxRetries cfg →
  hd_handle next s1 = (r, (w, m)) →
  match r with
  | Panicked => execute cfg next s = (Panicked, (w, m))
  | Replies resp None => (execute cfg next s).1 = Replies resp None ∧ (execute cfg next s).2.1 = w
  | Replies _ (Some err) =>
      (retryable cfg err = false ∨ Z.of_nat k = MaxRetries cfg → (execute cfg next s).1 = Replies None (Some err) ∧ (execute cfg next s).2.1 = w) ∧
      (∀ e s2, retryable cfg err = true → Z.of_nat k < MaxRetries cfg → waitBackoff cfg (requestMethod s.1) err k (w, m) = (Some e, s2) →
         execute cfg next s = (Replies None (Some e), s2))
  end.
Proof using.
  intros Hmax Hf Hk Hh. unfold execute. replace (S (Z.to_nat (MaxRetries cfg))) with (k + S (Z.to_nat (MaxRetries cfg) - k))%nat by lia.
  destruct (execute_failing cfg next (requestMethod s.1) k s s1 Hf (S (Z.to_nat (MaxRetries cfg) - k)) None Hk) as (e0 & ->).
  cbn [execute_from]. rewrite Hh. destruct r as [resp [err|]|]; [|done|done]. split.
  - intros [Hr|Hr]; [by rewrite Hr|]. destruct (Z.leb_spec (MaxRetries cfg) (Z.of_nat k)); [|lia]. by rewrite orb_true_r.
  - intros e s2 Hr Hlt Hw. rewrite Hr. destruct (Z.leb_spec (MaxRetries cfg) (Z.of_nat k)); [lia|]. cbn [negb orb]. by rewrite Hw.
Qed.
End Retry.

(** The hand-written substring search is [strings.Contains]. *)
Theorem contains_reference s sub : contains s sub = contains_str s sub.
Proof. apply contains_spec. Qed.

(** The pause overflows: from the attempt on whose exponential pause does not fit
    64 bits, it is negative where a float that does not fit converts to the smallest
    integer; the cap at [MaxBackoff] does not see it, and the retries follow one
    another without any pause. *)
Theorem backoff_overflows attempt r : (37 ≤ attempt ≤ 200)%nat →
  calculateBackoffWithJitter unfit_amd64 (InitialBackoff DefaultRetryConfig) (BackoffMultiplier DefaultRetryConfig) (MaxBackoff DefaultRetryConfig)
    attempt JitterNone (JitterPercent DefaultRetryConfig) r < 0.
Proof.
  intros H. unfold calculateBackoffWithJitter, applyJitter. cbn [bool_decide orb].
  assert (Ha : forallb (λ a, to_int64 unfit_amd64 (fmul (of_int (InitialBackoff DefaultRetryConfig)) (pow (BackoffMultiplier DefaultRetryConfig) a)) <? 0)
    (seq 37 164) = true) by (vm_compute; reflexivity).
  rewrite forallb_forall in Ha. specialize (Ha attempt ltac:(apply in_seq; lia)). apply Z.ltb_lt in Ha.
  rewrite bool_decide_true by done. cbn [orb].
  destruct (Z.ltb_spec (MaxBackoff DefaultRetryConfig)
    (to_int64 unfit_amd64 (fmul (of_int (InitialBackoff DefaultRetryConfig)) (pow (BackoffMultiplier DefaultRetryConfig) attempt)))) as [Hm|]; [|done].
  unfold DefaultRetryConfig in Hm at 1. cbn [MaxBackoff] in Hm. unfold second in Hm. lia.
Qed.

Lemma backoff_overflows_witness :
  calculateBackoffWithJitter unfit_amd64 (100 * 1000000) (of_int 2) (5 * second) 40 JitterNone (literal 1 4) (of_int 0) < 0.
Proof. apply (backoff_overflows 40 (of_int 0)). lia. Defined.

(** The jitter of a quarter is a quarter of the pause to either side, not half of it,
    and comes after the cap. *)
Example jitter_beyond_cap :
  calculateBackoffWithJitter unfit_amd64 (100 * 1000000) (of_int 2) (5 * second) 7 JitterEqual (literal 1 4) (literal 99 100) = 6225 * 1000000 ∧
  calculateBackoffWithJitter unfit_amd64 (100 * 1000000) (of_int 2) (5 * second) 7 JitterEqual (literal 1 4) (of_int 0) = 3750 * 1000000.
Proof. by vm_compute. Qed.

(** ** An example: a handler that fails twice *)

Module RetryExample.
Definition World : Type := nat.
Definition reset : GoError := {| er_chain := [ECONNRESET]; er_netTimeout := None; er_message := "read: connection reset by peer" |}.
Definition h : Handler (P := unit) (R := unit) (W := World) :=
  WrapHandler (λ s, match s.1 with
                    | S n => (Replies None (Some reset), (n, s.2))
                    | O => (Replies (Some (NewResponse 200)) None, s)
                    end) "REQMOD".
Definition rand (w : World) : float64 * World := (literal 1 2, w).
Definition wait (d : Z) (w : World) : option ContextEnd * World := (None, w).
Definition method (_ : World) : string := "REQMOD".
Definition metrics : HMetrics :=
  {| hm_inFlight := 0; hm_errors := []; hm_previews := 0; hm_cancellations := []; hm_requestErrors := []; hm_retries := []; hm_timeouts := 0 |}.
End RetryExample.

Lemma retry_attempts_witness :
  (execute unfit_amd64 RetryExample.rand RetryExample.wait RetryExample.method DefaultRetryConfig RetryExample.h (2%nat, RetryExample.metrics)).1 =
  Replies (Some (NewResponse 200)) None.
Proof.
  refine (proj1 (retry_attempts unfit_amd64 RetryExample.rand RetryExample.wait RetryExample.method DefaultRetryConfig RetryExample.h (2%nat, RetryExample.metrics)
    2 (0%nat, RetryExample.metrics) (Replies (Some (NewResponse 200)) None) 0%nat RetryExample.metrics _ _ _ _)).
  - discriminate.
  - apply (failing_more _ _ _ _ _ _ 1 _ (1%nat, RetryExample.metrics) None RetryExample.reset 0%nat RetryExample.metrics); [|reflexivity..].
    apply (failing_more _ _ _ _ _ _ 0 _ (2%nat, RetryExample.metrics) None RetryExample.reset 1%nat RetryExample.metrics); [constructor|reflexivity..].
  - discriminate.
  - reflexivity.
Defined.
