(* ===== verification/RequestStore.v ===== *)
(** * Storing requests: [internal/storage/filesystem.go], [storage.go]

    Requests are recorded as lines of JSON in batch files. [SaveRequest] puts a record
    into a queue; one writer takes it out and appends it to the current file, another
    goroutine starts a new file when it is told to. The directory is a map from names
    to contents. What the file system answers is an argument of each operation ([IO]).
    The JSON coding of a record is a parameter. Locks make [SaveRequest], one write, one
    rotation, and the operations that wait for the writer first, atomic. *)
From stdpp Require Import sorting.
From S2P Require Import Prelude GoInt GoStrings Header Chunked.

Local Open Scope Z_scope.

(** ** Records *)

Record HTTPMessageRecord := {
  hr_Method : string; hr_URI : string; hr_Status : string; hr_StatusText : string; hr_Proto : string; hr_Headers : Header;
  hr_Body : string; hr_BodyOmittedReason : string; hr_BodyTruncated : bool; hr_BodyLimit : Z
}.

Record StoredRequest := {
  sr_ID : string; sr_Timestamp : Z; sr_Method : string; sr_URI : string; sr_Headers : Header;
  sr_HTTPRequest : option HTTPMessageRecord; sr_HTTPResponse : option HTTPMessageRecord;
  sr_ClientIP : string; sr_RemoteAddr : string; sr_ProcessingTimeMs : Z; sr_ResponseStatus : Z
}.

(** A zero time sets no bound. *)
Record RequestFilter := {
  rf_Start : option Z; rf_End : option Z; rf_Method : string; rf_ClientIP : string; rf_Limit : Z; rf_Offset : Z
}.

Definition matchesFilter (sr : StoredRequest) (f : RequestFilter) : bool :=
  match rf_Start f with Some t => negb (sr_Timestamp sr <? t) | None => true end
  && match rf_End f with Some t => sr_Timestamp sr <? t | None => true end
  && (String.eqb (rf_Method f) "" || String.eqb (sr_Method sr) (rf_Method f))
  && (String.eqb (rf_ClientIP f) "" || String.eqb (sr_ClientIP sr) (rf_ClientIP f)).

(** ** Names *)

Definition extJSONL : string := ".jsonl".

Definition has_suffix (s p : string) : bool :=
  (String.length p <=? String.length s)%nat && String.eqb (str_drop (String.length s - String.length p) s) p.

Definition batchName (date : string) (counter : Z) : string := date +:+ "_batch_" +:+ format_padded 6 counter +:+ extJSONL.

(** [filepath.Glob] lists names in lexical order. *)
Definition name_le (a b : string) : Prop := String.leb a b = true.
#[export] Instance name_le_dec a b : Decision (name_le a b).
Proof. unfold name_le. apply _. Defined.

Definition glob (p : string → bool) (dir : gmap string string) : list string := merge_sort name_le (filter (λ n, p n = true) (map fst (map_to_list dir))).

(** ["*.json"] and then ["*.jsonl"]. *)
Definition requestFiles (dir : gmap string string) : list string :=
  glob (λ n, has_suffix n ".json") dir ++ glob (λ n, has_suffix n extJSONL) dir.

(** [time.Parse("20060102", ...)], printed as ["2006-01-02"]. *)
Definition daysIn (year month : Z) : Z :=
  if month =? 2 then if ((year mod 4 =? 0) && negb (year mod 100 =? 0)) || (year mod 400 =? 0) then 29 else 28
  else if (month =? 4) || (month =? 6) || (month =? 9) || (month =? 11) then 30 else 31.

Definition dashedDate (d : string) : option string :=
  if negb (String.length d =? 8)%nat then None
  else
    let y := str_take 4 d in let m := str_take 2 (str_drop 4 d) in let dd := str_drop 6 d in
    year ← parse_uint 10 y; month ← parse_uint 10 m; day ← parse_uint 10 dd;
    if (1 <=? month) && (month <=? 12) && (1 <=? day) && (day <=? daysIn year month) then Some (y +:+ "-" +:+ m +:+ "-" +:+ dd) else None.

(** The day in the ID of a request, [req-YYYYMMDD-...]. *)
Definition idDate (id : string) : option string :=
  match split_byte id "-" with
  | _ :: d :: _ :: _ => dashedDate d
  | _ => None
  end.

(** ** The state *)

Record StorageConfig := { Enabled : bool; MaxFileSize : Z; RotateAfter : Z }.

(** The file the storage holds; a file that was closed may still be held. *)
Inductive BatchFile := OpenOn (name : string) | ClosedOn (name : string).

Record FileStorage := {
  fs_config : StorageConfig;
  fs_dir : gmap string string;
  fs_currentFile : option BatchFile;
  fs_fileCounter : Z;
  fs_requestCount : Z;
  fs_requestCh : list StoredRequest;
  fs_pendingWrites : Z;
  fs_rotationSignal : nat;
  fs_closed : bool
}.

Definition requestChSize : nat := 1000.
Definition rotationSignalSize : nat := 100.

Definition with_file (dir : gmap string string) (current : option BatchFile) (counter count : Z) (fs : FileStorage) : FileStorage :=
  {| fs_config := fs_config fs; fs_dir := dir; fs_currentFile := current; fs_fileCounter := counter; fs_requestCount := count;
     fs_requestCh := fs_requestCh fs; fs_pendingWrites := fs_pendingWrites fs; fs_rotationSignal := fs_rotationSignal fs; fs_closed := fs_closed fs |}.

Definition with_queue (q : list StoredRequest) (pending : Z) (fs : FileStorage) : FileStorage :=
  {| fs_config := fs_config fs; fs_dir := fs_dir fs; fs_currentFile := fs_currentFile fs; fs_fileCounter := fs_fileCounter fs;
     fs_requestCount := fs_requestCount fs; fs_requestCh := q; fs_pendingWrites := pending;
     fs_rotationSignal := fs_rotationSignal fs; fs_closed := fs_closed fs |}.

Definition with_signals (n : nat) (fs : FileStorage) : FileStorage :=
  {| fs_config := fs_config fs; fs_dir := fs_dir fs; fs_currentFile := fs_currentFile fs; fs_fileCounter := fs_fileCounter fs;
     fs_requestCount := fs_requestCount fs; fs_requestCh := fs_requestCh fs; fs_pendingWrites := fs_pendingWrites fs;
     fs_rotationSignal := n; fs_closed := fs_closed fs |}.

Definition with_closed (fs : FileStorage) : FileStorage :=
  {| fs_config := fs_config fs; fs_dir := fs_dir fs; fs_currentFile := fs_currentFile fs; fs_fileCounter := fs_fileCounter fs;
     fs_requestCount := fs_requestCount fs; fs_requestCh := fs_requestCh fs; fs_pendingWrites := fs_pendingWrites fs;
     fs_rotationSignal := fs_rotationSignal fs; fs_closed := true |}.

(** What the system answers during one operation: the date, whether files can be opened
    (the first and the second one), closed and looked at, rewritten and removed, whether
    the disk has room, and how much of a write goes through before it fails. *)
Record IO := {
  io_date : string; io_open : bool; io_reopen : bool; io_close : bool; io_stat : bool; io_rewrite : bool; io_remove : bool;
  io_space : bool; io_write : option nat
}.

Inductive StorageError :=
| ErrStorageDisabled | ErrRequestNotFound | ErrStorageClosed | QueueFull | EncodeFailed | NoSpace
| OpenFailed | CloseFailed | StatFailed | WriteFailed | RewriteFailed | RemoveFailed.

Section Store.
(** [json.Marshal] and [json.Unmarshal] of a [StoredRequest]. *)
Context (Marshal : StoredRequest → option string) (Unmarshal : string → option StoredRequest).

(** ** Writing *)

(** [os.O_CREATE|os.O_APPEND]: what is in the file stays. *)
Definition openFile (name : string) (dir : gmap string string) : gmap string string := <[name := default "" (dir !! name)]> dir.
Definition appendFile (name data : string) (dir : gmap string string) : gmap string string := <[name := default "" (dir !! name) +:+ data]> dir.

Definition initBatchFile (opens : bool) (io : IO) (fs : FileStorage) : option StorageError * FileStorage :=
  let name := batchName (io_date io) (fs_fileCounter fs) in
  if opens then (None, with_file (openFile name (fs_dir fs)) (Some (OpenOn name)) (fs_fileCounter fs) 0 fs)
  else (Some OpenFailed, fs).

(** Closing a file that was closed fails; syncing is tried before and does not matter. *)
Definition rotateFileLocked (opens : bool) (io : IO) (fs : FileStorage) : option StorageError * FileStorage :=
  let closed :=
    match fs_currentFile fs with
    | None => Ok fs
    | Some (ClosedOn n) => Err fs
    | Some (OpenOn n) =>
        let fs' := with_file (fs_dir fs) (Some (ClosedOn n)) (fs_fileCounter fs) (fs_requestCount fs) fs in
        if io_close io then Ok fs' else Err fs'
    end in
  match closed with
  | Err fs => (Some CloseFailed, fs)
  | Ok fs =>
      let counter := add64 (fs_fileCounter fs) 1 in
      let name := batchName (io_date io) counter in
      if opens then (None, with_file (openFile name (fs_dir fs)) (Some (OpenOn name)) counter 0 fs)
      else (Some OpenFailed, with_file (fs_dir fs) (fs_currentFile fs) counter (fs_requestCount fs) fs)
  end.

Definition encodeStoredRequestLine (sr : StoredRequest) : option string := (λ b, b +:+ String LF "") <$> Marshal sr.

Definition ensureCurrentFileLocked (io : IO) (fs : FileStorage) : option StorageError * FileStorage :=
  match fs_currentFile fs with
  | None => initBatchFile (io_open io) io fs
  | Some _ => (None, fs)
  end.

Definition rotateForSizeIfNeededLocked (io : IO) (recordSize : Z) (fs : FileStorage) : option StorageError * FileStorage :=
  if MaxFileSize (fs_config fs) <=? 0 then (None, fs)
  else
    match fs_currentFile fs with
    | Some (OpenOn n) =>
        if negb (io_stat io) then (Some StatFailed, fs)
        else
          let currentSize := Z.of_nat (String.length (default "" (fs_dir fs !! n))) in
          if (currentSize =? 0) || (currentSize + recordSize <=? MaxFileSize (fs_config fs)) then (None, fs)
          else rotateFileLocked (io_reopen io) io fs
    | _ => (Some StatFailed, fs)
    end.

(** Whether the file is due for rotation now, or why nothing was written. *)
Definition writeEncodedRequestLocked (io : IO) (data : string) (fs : FileStorage) : result StorageError bool * FileStorage :=
  match ensureCurrentFileLocked io fs with
  | (Some e, fs) => (Err e, fs)
  | (None, fs) =>
      match rotateForSizeIfNeededLocked io (Z.of_nat (String.length data)) fs with
      | (Some e, fs) => (Err e, fs)
      | (None, fs) =>
          match fs_currentFile fs with
          | Some (OpenOn n) =>
              match io_write io with
              | None =>
                  let count := add64 (fs_requestCount fs) 1 in
                  (Ok ((0 <? RotateAfter (fs_config fs)) && (RotateAfter (fs_config fs) <=? count)),
                   with_file (appendFile n data (fs_dir fs)) (fs_currentFile fs) (fs_fileCounter fs) count fs)
              | Some k =>
                  (Err WriteFailed,
                   with_file (appendFile n (str_take k data) (fs_dir fs)) (fs_currentFile fs) (fs_fileCounter fs) (fs_requestCount fs) fs)
              end
          | _ => (Err WriteFailed, fs)
          end
      end
  end.

Definition isOversizedRecord (recordSize : Z) (fs : FileStorage) : bool :=
  (0 <? MaxFileSize (fs_config fs)) && (MaxFileSize (fs_config fs) <? recordSize).

Definition signalRotationIfNeeded (needsRotation : bool) (fs : FileStorage) : FileStorage :=
  if needsRotation && (fs_rotationSignal fs <? rotationSignalSize)%nat then with_signals (S (fs_rotationSignal fs)) fs else fs.

(** An oversized record is dropped without an error. *)
Definition writeRequest (io : IO) (sr : StoredRequest) (fs : FileStorage) : option StorageError * FileStorage :=
  match encodeStoredRequestLine sr with
  | None => (Some EncodeFailed, fs)
  | Some data =>
      if isOversizedRecord (Z.of_nat (String.length data)) fs then (None, fs)
      else if negb (io_space io) then (Some NoSpace, fs)
      else
        match writeEncodedRequestLocked io data fs with
        | (Err e, fs) => (Some e, fs)
        | (Ok needsRotation, fs) => (None, signalRotationIfNeeded needsRotation fs)
        end
  end.

(** ** The goroutines *)

Definition NewFileStorage (cfg : StorageConfig) (dir : gmap string string) (io : IO) : option StorageError * FileStorage :=
  let fs := {| fs_config := cfg; fs_dir := dir; fs_currentFile := None; fs_fileCounter := 0; fs_requestCount := 0; fs_requestCh := [];
               fs_pendingWrites := 0; fs_rotationSignal := 0; fs_closed := false |} in
  if Enabled cfg then initBatchFile (io_open io) io fs else (None, fs).

Definition SaveRequest (sr : StoredRequest) (fs : FileStorage) : option StorageError * FileStorage :=
  if negb (Enabled (fs_config fs)) then (Some ErrStorageDisabled, fs)
  else if fs_closed fs then (Some ErrStorageClosed, fs)
  else if (length (fs_requestCh fs) <? requestChSize)%nat then (None, with_queue (fs_requestCh fs ++ [sr]) (fs_pendingWrites fs + 1) fs)
  else (Some QueueFull, fs).

(** One round of [asyncWriter], when there is something in the queue. *)
Definition asyncWrite (io : IO) (fs : FileStorage) : option FileStorage :=
  match fs_requestCh fs with
  | [] => None
  | sr :: q =>
      let fs := (writeRequest io sr (with_queue q (fs_pendingWrites fs) fs)).2 in
      Some (with_queue (fs_requestCh fs) (fs_pendingWrites fs - 1) fs)
  end.

(** Whether that round logs an error. *)
Definition write_failed (io : IO) (fs : FileStorage) : bool :=
  match fs_requestCh fs with
  | [] => false
  | sr :: q => bool_decide (is_Some (writeRequest io sr (with_queue q (fs_pendingWrites fs) fs)).1)
  end.

(** [rotationHandler] takes all signals and then, as another critical section,
    rotates. *)
Definition takeSignals (fs : FileStorage) : option FileStorage :=
  if (0 <? fs_rotationSignal fs)%nat then Some (with_signals 0 fs) else None.

Definition rotateFile (io : IO) (fs : FileStorage) : FileStorage := (rotateFileLocked (io_open io) io fs).2.

(** The end of [Close], when both goroutines are gone. *)
Definition closeFile (io : IO) (fs : FileStorage) : option StorageError * FileStorage :=
  match fs_currentFile fs with
  | None => (None, fs)
  | Some (ClosedOn n) => (Some CloseFailed, fs)
  | Some (OpenOn n) =>
      if io_close io then (None, with_file (fs_dir fs) None (fs_fileCounter fs) (fs_requestCount fs) fs)
      else (Some CloseFailed, with_file (fs_dir fs) (Some (ClosedOn n)) (fs_fileCounter fs) (fs_requestCount fs) fs)
  end.

(** ** Reading *)

Definition readBatch (content : string) : list StoredRequest :=
  omap (λ line, let line := trim_space line in if String.eqb line "" then None else Unmarshal line) (split_byte content LF).

(** A file of the old format is one object; failing that, the first line that is one. *)
Definition readRequestFile (content : string) : option StoredRequest :=
  match Unmarshal content with
  | Some sr => Some sr
  | None => head (readBatch content)
  end.

Definition readFile (dir : gmap string string) (name : string) : list StoredRequest :=
  match dir !! name with
  | None => []
  | Some content => if has_suffix name extJSONL then readBatch content else option_list (readRequestFile content)
  end.

(** Everything on disk, in the order of the files. *)
Definition stored (dir : gmap string string) : list StoredRequest := flat_map (readFile dir) (requestFiles dir).

Definition opened (fs : FileStorage) : option StorageError :=
  if negb (Enabled (fs_config fs)) then Some ErrStorageDisabled else if fs_closed fs then Some ErrStorageClosed else None.

Definition GetRequest (id : string) (fs : FileStorage) : result StorageError StoredRequest :=
  match opened fs with
  | Some e => Err e
  | None =>
      match idDate id with
      | None => Err ErrRequestNotFound
      | Some date =>
          let names := glob (λ n, has_prefix n (date +:+ "_") && has_suffix n ".json") (fs_dir fs)
                       ++ glob (λ n, has_prefix n (date +:+ "_batch_") && has_suffix n extJSONL) (fs_dir fs) in
          match List.find (λ sr, String.eqb (sr_ID sr) id) (flat_map (readFile (fs_dir fs)) names) with
          | Some sr => Ok sr
          | None => Err ErrRequestNotFound
          end
      end
  end.

(** ** Removing *)

(** [None] while writes are pending: the operations wait for the writer, with the lock
    that keeps new requests out. *)
Definition drained (fs : FileStorage) : option FileStorage := if 0 <? fs_pendingWrites fs then None else Some (with_signals 0 fs).

Definition encodeAll (rs : list StoredRequest) : option string :=
  foldr (λ sr acc, l ← encodeStoredRequestLine sr; rest ← acc; Some (l +:+ rest)) (Some "") rs.

(** The current file is closed before it is replaced. *)
Definition rewriteBatchFile (io : IO) (path : string) (rs : list StoredRequest) (fs : FileStorage) : option StorageError * FileStorage :=
  let current := match fs_currentFile fs with
                 | Some (OpenOn n) => if String.eqb n path then None else Some (OpenOn n)
                 | c => c
                 end in
  let fs := with_file (fs_dir fs) current (fs_fileCounter fs) (fs_requestCount fs) fs in
  match (if io_rewrite io then encodeAll rs else None) with
  | None => (Some RewriteFailed, fs)
  | Some content => (None, with_file (<[path := content]> (fs_dir fs)) (fs_currentFile fs) (fs_fileCounter fs) (fs_requestCount fs) fs)
  end.

Definition removeFile (io : IO) (path : string) (fs : FileStorage) : option StorageError * FileStorage :=
  if io_remove io then (None, with_file (delete path (fs_dir fs)) (fs_currentFile fs) (fs_fileCounter fs) (fs_requestCount fs) fs)
  else (Some RemoveFailed, fs).

(** The first file with the ID. *)
Fixpoint deleteFrom (io : IO) (id : string) (names : list string) (fs : FileStorage) : option StorageError * FileStorage :=
  match names with
  | [] => (Some ErrRequestNotFound, fs)
  | n :: names =>
      let rs := readFile (fs_dir fs) n in
      if existsb (λ sr, String.eqb (sr_ID sr) id) rs then
        if has_suffix n extJSONL then rewriteBatchFile io n (List.filter (λ sr, negb (String.eqb (sr_ID sr) id)) rs) fs
        else removeFile io n fs
      else deleteFrom io id names fs
  end.

Definition DeleteRequest (io : IO) (id : string) (fs : FileStorage) : option (option StorageError * FileStorage) :=
  match opened fs with
  | Some e => Some (Some e, fs)
  | None => fs ← drained fs; Some (deleteFrom io id (requestFiles (fs_dir fs)) fs)
  end.

(** A file that cannot be rewritten or removed counts for nothing. *)
Definition deleteRequestsFromFile (io : IO) (f : RequestFilter) (n : string) (fs : FileStorage) : Z * FileStorage :=
  let rs := readFile (fs_dir fs) n in
  let remaining := List.filter (λ sr, negb (matchesFilter sr f)) rs in
  let deleted := Z.of_nat (length (List.filter (λ sr, matchesFilter sr f) rs)) in
  if (length remaining =? length rs)%nat then (0, fs)
  else
    match (if has_suffix n extJSONL then rewriteBatchFile io n remaining fs else removeFile io n fs) with
    | (Some _, fs) => (0, fs)
    | (None, fs) => (deleted, fs)
    end.

Fixpoint deleteRequestsFrom (io : IO) (f : RequestFilter) (names : list string) (deleted : Z) (fs : FileStorage) : Z * FileStorage :=
  match names with
  | [] => (deleted, fs)
  | n :: names => let '(k, fs) := deleteRequestsFromFile io f n fs in deleteRequestsFrom io f names (deleted + k) fs
  end.

Definition DeleteRequests (io : IO) (f : RequestFilter) (fs : FileStorage) : option (option StorageError * Z * FileStorage) :=
  if negb (Enabled (fs_config fs)) then Some (None, 0, fs)
  else if fs_closed fs then Some (Some ErrStorageClosed, 0, fs)
  else fs ← drained fs; let '(n, fs) := deleteRequestsFrom io f (requestFiles (fs_dir fs)) 0 fs in Some (None, n, fs).

Fixpoint clearFrom (io : IO) (names : list string) (count : Z) (fs : FileStorage) : option StorageError * Z * FileStorage :=
  match names with
  | [] => (None, count, with_file (fs_dir fs) (fs_currentFile fs) 0 (fs_requestCount fs) fs)
  | n :: names =>
      let count := count + (if has_suffix n extJSONL then Z.of_nat (length (readFile (fs_dir fs) n)) else 1) in
      match removeFile io n fs with
      | (Some e, fs) => (Some e, count, fs)
      | (None, fs) => clearFrom io names count fs
      end
  end.

Definition Clear (io : IO) (fs : FileStorage) : option (option StorageError * Z * FileStorage) :=
  if negb (Enabled (fs_config fs)) then Some (None, 0, fs)
  else if fs_closed fs then Some (Some ErrStorageClosed, 0, fs)
  else
    fs ← drained fs;
    let fs := match fs_currentFile fs with Some _ => with_file (fs_dir fs) None (fs_fileCounter fs) 0 fs | None => fs end in
    Some (clearFrom io (requestFiles (fs_dir fs)) 0 fs).

(** [sort.Slice] by the time stamp, which is not stable. *)
Context (sortNewest : list StoredRequest → list StoredRequest).

Definition ListRequests (f : RequestFilter) (fs : FileStorage) : result StorageError (list StoredRequest) :=
  match opened fs with
  | Some e => Err e
  | None =>
      let results := sortNewest (List.filter (λ sr, matchesFilter sr f) (stored (fs_dir fs))) in
      let n := Z.of_nat (length results) in
      let results := if (0 <? rf_Offset f) && (rf_Offset f <? n) then drop (Z.to_nat (rf_Offset f)) results
                     else if n <=? rf_Offset f then [] else results in
      Ok (if (0 <? rf_Limit f) && (rf_Limit f <? Z.of_nat (length results)) then take (Z.to_nat (rf_Limit f)) results else results)
  end.
End Store.

(** ** The goroutines together *)

Section Steps.
Context (Marshal : StoredRequest → option string).

(** The storage with its two goroutines and the call of [Close]; [rn_accepted] are the
    requests that were accepted, [rn_taken] those that the writer took, and [rn_failed]
    those of them whose writing ended in an error, which is logged. *)
Record Run := {
  rn_fs : FileStorage; rn_accepted : list StoredRequest; rn_taken : list StoredRequest; rn_failed : list StoredRequest;
  rn_writer : bool; rn_rotator : bool; rn_rotating : bool; rn_cancelled : bool; rn_ended : bool
}.

Definition run_fs (fs : FileStorage) (r : Run) : Run :=
  {| rn_fs := fs; rn_accepted := rn_accepted r; rn_taken := rn_taken r; rn_failed := rn_failed r; rn_writer := rn_writer r; rn_rotator := rn_rotator r;
     rn_rotating := rn_rotating r; rn_cancelled := rn_cancelled r; rn_ended := rn_ended r |}.
Definition run_lists (accepted taken failed : list StoredRequest) (r : Run) : Run :=
  {| rn_fs := rn_fs r; rn_accepted := accepted; rn_taken := taken; rn_failed := failed; rn_writer := rn_writer r; rn_rotator := rn_rotator r;
     rn_rotating := rn_rotating r; rn_cancelled := rn_cancelled r; rn_ended := rn_ended r |}.
Definition run_flags (writer rotator rotating cancelled ended : bool) (r : Run) : Run :=
  {| rn_fs := rn_fs r; rn_accepted := rn_accepted r; rn_taken := rn_taken r; rn_failed := rn_failed r; rn_writer := writer; rn_rotator := rotator;
     rn_rotating := rotating; rn_cancelled := cancelled; rn_ended := ended |}.

Definition start_run (fs : FileStorage) : Run :=
  {| rn_fs := fs; rn_accepted := []; rn_taken := []; rn_failed := []; rn_writer := true; rn_rotator := true; rn_rotating := false; rn_cancelled := false; rn_ended := false |}.

(** [good] is what the system may answer. *)
Inductive store_step (good : IO → Prop) (r : Run) : Run → Prop :=
| step_accepts sr fs : SaveRequest sr (rn_fs r) = (None, fs) → store_step good r (run_lists (rn_accepted r ++ [sr]) (rn_taken r) (rn_failed r) (run_fs fs r))
| step_refuses sr e fs : SaveRequest sr (rn_fs r) = (Some e, fs) → store_step good r (run_fs fs r)
| step_writes io sr q fs : good io → rn_writer r = true → fs_requestCh (rn_fs r) = sr :: q → asyncWrite Marshal io (rn_fs r) = Some fs →
    store_step good r 
      (run_lists (rn_accepted r) (rn_taken r ++ [sr]) (rn_failed r ++ (if write_failed Marshal io (rn_fs r) then [sr] else [])) (run_fs fs r))
| step_takes_signals fs : rn_rotator r = true → rn_rotating r = false → takeSignals (rn_fs r) = Some fs →
    store_step good r (run_flags (rn_writer r) true true (rn_cancelled r) (rn_ended r) (run_fs fs r))
| step_rotates io : good io → rn_rotating r = true →
    store_step good r (run_flags (rn_writer r) (rn_rotator r) false (rn_cancelled r) (rn_ended r) (run_fs (rotateFile io (rn_fs r)) r))
| step_closes : store_step good r (run_fs (with_closed (rn_fs r)) r)
| step_cancels : fs_closed (rn_fs r) = true → store_step good r (run_flags (rn_writer r) (rn_rotator r) (rn_rotating r) true (rn_ended r) r)
| step_writer_ends : rn_cancelled r = true → fs_requestCh (rn_fs r) = [] →
    store_step good r (run_flags false (rn_rotator r) (rn_rotating r) true (rn_ended r) r)
| step_rotator_ends : rn_cancelled r = true → rn_rotating r = false →
    store_step good r (run_flags (rn_writer r) false false true (rn_ended r) r)
| step_ends io : good io → rn_cancelled r = true → rn_writer r = false → rn_rotator r = false → rn_ended r = false →
    store_step good r (run_flags false false (rn_rotating r) true true (run_fs (closeFile io (rn_fs r)).2 r)).
End Steps.
