(* ===== verification/RequestStoreSpec.v ===== *)
(** * What storing requests guarantees

    Every request the writer takes is either on disk, or too long for a file and
    dropped, or lost to a failure of the file system - to none when it works and writes
    are whole - also through rotations and a shutdown; deleting removes exactly what a
    filter selects; the files of this run keep to their size limit. And where they do
    not: a rotation that fails once, the day after the file was opened, and files of an
    earlier run. *)
From stdpp Require Import sorting.
From S2P Require Import Prelude GoInt GoStrings Header Chunked RequestStore.

Local Open Scope Z_scope.

(** What is assumed of the JSON coding: a record becomes one line, which is read back as
    the record with its strings made valid ([json.Marshal] replaces what is not UTF-8);
    what was read is valid. *)
Class Json (Marshal : StoredRequest → option string) (Unmarshal : string → option StoredRequest) (coerced : StoredRequest → StoredRequest) := {
  json_encodes : ∀ sr, is_Some (Marshal sr);
  json_line : ∀ sr b, Marshal sr = Some b → LF ∉ bytes_of b ∧ trim_space b = b ∧ b ≠ "";
  json_decodes : ∀ sr b, Marshal sr = Some b → Unmarshal b = Some (coerced sr);
  json_valid : ∀ b sr, Unmarshal b = Some sr → coerced sr = sr
}.

(** Contents made of whole lines. *)
Inductive whole : string → Prop :=
| whole_nil : whole ""
| whole_line l c : LF ∉ bytes_of l → whole c → whole (l +:+ String LF c).

Lemma whole_app c d : whole c → whole d → whole (c +:+ d).
Proof. induction 1 as [|l c Hl Hc IH]; intros Hd; [done|]. rewrite str_app_assoc. cbn [String.append]. constructor; auto. Qed.

Section Stored.
Context {Marshal : StoredRequest → option string} {Unmarshal : string → option StoredRequest} {coerced : StoredRequest → StoredRequest}.
Context `{HJ : !Json Marshal Unmarshal coerced}.
Notation readBatch := (readBatch Unmarshal).
Notation readFile := (readFile Unmarshal).
Notation stored := (stored Unmarshal).
Notation encodeStoredRequestLine := (encodeStoredRequestLine Marshal).

(** ** Lines *)

Definition readLine (l : string) : list StoredRequest :=
  option_list (let line := trim_space l in if String.eqb line "" then None else Unmarshal line).

Lemma readBatch_nil : readBatch "" = [].
Proof using. done. Qed.

Lemma readBatch_line l c : LF ∉ bytes_of l → readBatch (l +:+ String LF c) = readLine l ++ readBatch c.
Proof using.
  intros Hl. unfold RequestStore.readBatch. rewrite split_byte_app by done. cbn [omap list_omap]. unfold readLine.
  destruct (String.eqb _ _); [done|]. by destruct (Unmarshal _).
Qed.

Lemma readBatch_app c d : whole c → readBatch (c +:+ d) = readBatch c ++ readBatch d.
Proof using.
  induction 1 as [|l c Hl Hc IH]; [done|]. rewrite str_app_assoc. cbn [String.append]. rewrite !readBatch_line by done. by rewrite IH, app_assoc.
Qed.

Lemma encoded_line sr data : encodeStoredRequestLine sr = Some data → readBatch data = [coerced sr] ∧ whole data.
Proof using HJ.
  unfold RequestStore.encodeStoredRequestLine. destruct (Marshal sr) as [b|] eqn:E; [|done]. intros [= <-].
  destruct (json_line sr b E) as (Hl & Ht & Hne). split; [|by constructor; [|constructor]].
  rewrite readBatch_line by done. unfold readLine. rewrite Ht. destruct (String.eqb_spec b ""); [done|]. by rewrite (json_decodes sr b E).
Qed.

Lemma encodes_line sr : ∃ data, encodeStoredRequestLine sr = Some data.
Proof using HJ. destruct (json_encodes sr) as [b Hb]. exists (b +:+ String LF ""). unfold RequestStore.encodeStoredRequestLine. by rewrite Hb. Qed.

Lemma encodeAll_lines rs : ∃ content, encodeAll Marshal rs = Some content ∧ readBatch content = map coerced rs ∧ whole content.
Proof using HJ.
  induction rs as [|sr rs (content & E & Hr & Hw)]; [by exists ""; split_and!; [..|constructor]|].
  destruct (encodes_line sr) as [data Hd]. destruct (encoded_line sr data Hd) as [Hrd Hwd].
  exists (data +:+ content). unfold encodeAll in *. cbn [foldr]. rewrite Hd. cbn [mbind option_bind]. rewrite E. split_and!; [done| |by apply whole_app].
  by rewrite readBatch_app, Hrd, Hr.
Qed.

(** ** Files *)

Lemma has_suffix_spec s p : has_suffix s p = true ↔ ∃ a, s = a +:+ p.
Proof using.
  unfold has_suffix. rewrite andb_true_iff, Nat.leb_le, String.eqb_eq. split.
  - intros [Hl E]. exists (str_take (String.length s - String.length p) s). rewrite <- E at 2. by rewrite str_take_drop.
  - intros [a ->]. rewrite str_length_app. split; [lia|]. replace (String.length a + String.length p - String.length p)%nat with (String.length a) by lia.
    apply str_drop_app.
Qed.

Lemma json_not_jsonl n : has_suffix n ".json" = true → has_suffix n extJSONL = false.
Proof using.
  intros [a Ha]%has_suffix_spec. apply not_true_is_false. intros [b Hb]%has_suffix_spec. subst n. apply (f_equal bytes_of) in Hb.
  rewrite !bytes_of_app in Hb. change (bytes_of ".json") with (bytes_of ".jso" ++ ["n"%char]) in Hb.
  change (bytes_of extJSONL) with (bytes_of ".json" ++ ["l"%char]) in Hb. rewrite !app_assoc in Hb. apply app_inj_tail in Hb as [_ Hb]. discriminate Hb.
Qed.

Lemma batchName_jsonl d k : has_suffix (batchName d k) extJSONL = true.
Proof using. apply has_suffix_spec. exists (d +:+ "_batch_" +:+ format_padded 6 k). unfold batchName. by rewrite !str_app_assoc. Qed.

Definition readEntry (kv : string * string) : list StoredRequest :=
  if has_suffix kv.1 extJSONL then readBatch kv.2
  else if has_suffix kv.1 ".json" then option_list (readRequestFile Unmarshal kv.2) else [].

Lemma glob_perm p dir : glob p dir ≡ₚ filter (λ n, p n = true) (map fst (map_to_list dir)).
Proof using. unfold glob. apply merge_sort_Permutation. Qed.

Lemma stored_entries dir : stored dir ≡ₚ flat_map readEntry (map_to_list dir).
Proof using.
  unfold RequestStore.stored, requestFiles. rewrite flat_map_app.
  rewrite (Permutation_flat_map _ (glob_perm (λ n, has_suffix n ".json") dir)), (Permutation_flat_map _ (glob_perm (λ n, has_suffix n extJSONL) dir)).
  assert (Hl : ∀ n c, (n, c) ∈ map_to_list dir → dir !! n = Some c) by (intros n c; by rewrite elem_of_map_to_list).
  induction (map_to_list dir) as [|[n c] l IH]; [done|]. cbn [map flat_map fst].
  assert (E : dir !! n = Some c) by (apply Hl; left). rewrite <- IH by (intros n' c' H; apply Hl; by right). clear IH Hl.
  unfold readEntry. cbn [fst snd]. destruct (has_suffix n ".json") eqn:Ej.
  - pose proof (json_not_jsonl n Ej) as Ejl. rewrite Ejl. rewrite filter_cons_True, filter_cons_False by (by rewrite ?Ej, ?Ejl).
    cbn [flat_map]. unfold RequestStore.readFile at 1. rewrite E, Ejl. by rewrite <- app_assoc.
  - destruct (has_suffix n extJSONL) eqn:Ejl.
    + rewrite filter_cons_False, filter_cons_True by (by rewrite ?Ej, ?Ejl). cbn [flat_map]. unfold RequestStore.readFile at 2. rewrite E, Ejl.
      rewrite !app_assoc. f_equiv. apply Permutation_app_comm.
    + by rewrite !filter_cons_False by (by rewrite ?Ej, ?Ejl).
Qed.

Lemma stored_insert dir n c : dir !! n = None → stored (<[n := c]> dir) ≡ₚ readEntry (n, c) ++ stored dir.
Proof using. intros Hn. rewrite !stored_entries, map_to_list_insert by done. done. Qed.

Lemma stored_delete dir n c : dir !! n = Some c → stored dir ≡ₚ readEntry (n, c) ++ stored (delete n dir).
Proof using. intros Hn. rewrite <- (insert_delete_id dir n c) at 1 by done. by rewrite stored_insert by apply lookup_delete_eq. Qed.

Lemma stored_update dir n c c' : dir !! n = Some c → stored (<[n := c']> dir) ≡ₚ readEntry (n, c') ++ stored (delete n dir).
Proof using. intros Hn. rewrite <- insert_delete_eq. by rewrite stored_insert by apply lookup_delete_eq. Qed.

(** Opening a batch file adds nothing; a line that is appended adds its record. *)
Lemma stored_open dir n : has_suffix n extJSONL = true → stored (openFile n dir) ≡ₚ stored dir.
Proof using.
  intros Hn. unfold openFile. destruct (dir !! n) as [c|] eqn:E; cbn [default from_option id].
  - by rewrite insert_id.
  - rewrite stored_insert by done. unfold readEntry. cbn [fst snd]. by rewrite Hn.
Qed.

Lemma stored_append dir n sr data : has_suffix n extJSONL = true → whole (default "" (dir !! n)) → encodeStoredRequestLine sr = Some data →
  stored (appendFile n data dir) ≡ₚ stored dir ++ [coerced sr].
Proof using HJ.
  intros Hn Hw Hd. destruct (encoded_line sr data Hd) as [Hr _]. unfold appendFile. destruct (dir !! n) as [c|] eqn:E; cbn [default from_option id] in *.
  - rewrite (stored_update dir n c) by done. rewrite (stored_delete dir n c) by done. unfold readEntry. cbn [fst snd]. rewrite Hn, readBatch_app, Hr by done.
    rewrite <- !app_assoc. f_equiv. apply Permutation_app_comm.
  - rewrite stored_insert by done. unfold readEntry. cbn [fst snd]. rewrite Hn. cbn [String.append]. rewrite Hr. apply Permutation_app_comm.
Qed.
(** ** Writing while the file system works *)

Definition works (io : IO) : Prop :=
  io_open io = true ∧ io_reopen io = true ∧ io_close io = true ∧ io_stat io = true ∧ io_space io = true ∧ io_write io = None.

(** Whether a record is not too large for a file. *)
Definition fits (cfg : StorageConfig) (sr : StoredRequest) : bool :=
  match encodeStoredRequestLine sr with
  | Some data => negb ((0 <? MaxFileSize cfg) && (MaxFileSize cfg <? Z.of_nat (String.length data)))
  | None => false
  end.

Definition batches_whole (dir : gmap string string) : Prop := ∀ n c, has_suffix n extJSONL = true → dir !! n = Some c → whole c.

(** A batch file is open, and all batch files are made of lines. *)
Record writable (fs : FileStorage) : Prop := {
  wr_current : ∃ n, fs_currentFile fs = Some (OpenOn n) ∧ has_suffix n extJSONL = true;
  wr_whole : batches_whole (fs_dir fs)
}.

Lemma whole_open dir n : batches_whole dir → batches_whole (openFile n dir).
Proof using.
  intros H n' c Hn'. unfold openFile. destruct (decide (n = n')) as [->|]; [|rewrite lookup_insert_ne by done; by apply H].
  rewrite lookup_insert_eq. intros [= <-]. destruct (dir !! n') eqn:E; cbn [default from_option id]; [by eapply H|constructor].
Qed.

Lemma whole_append dir n sr data : batches_whole dir → has_suffix n extJSONL = true → encodeStoredRequestLine sr = Some data →
  batches_whole (appendFile n data dir) ∧ whole (default "" (dir !! n)).
Proof using HJ.
  intros H Hn Hd. destruct (encoded_line sr data Hd) as [_ Hw].
  assert (Hc : whole (default "" (dir !! n))) by (destruct (dir !! n) eqn:E; cbn [default from_option id]; [by eapply H|constructor]).
  split; [|done]. intros n' c Hn'. unfold appendFile. destruct (decide (n = n')) as [->|]; [|rewrite lookup_insert_ne by done; by apply H].
  rewrite lookup_insert_eq. intros [= <-]. by apply whole_app.
Qed.

(** What a step of the storage leaves alone. *)
Definition same_queue (fs fs' : FileStorage) : Prop :=
  fs_config fs' = fs_config fs ∧ fs_requestCh fs' = fs_requestCh fs ∧ fs_pendingWrites fs' = fs_pendingWrites fs ∧ fs_closed fs' = fs_closed fs.

Lemma rotate_works io fs : works io → writable fs → ∀ opens, opens = true →
  ∃ fs', rotateFileLocked opens io fs = (None, fs') ∧ writable fs' ∧ same_queue fs fs' ∧ stored (fs_dir fs') ≡ₚ stored (fs_dir fs).
Proof using.
  intros (Ho & Hr & Hc & _) [(n & E & Hn) Hw] opens ->. unfold rotateFileLocked. rewrite E, Hc. eexists. split; [reflexivity|]. split_and!.
  - split; [eexists; split; [reflexivity|apply batchName_jsonl]|]. by apply whole_open.
  - done.
  - cbn. apply stored_open, batchName_jsonl.
Qed.

Lemma write_works io sr fs : works io → writable fs →
  ∃ fs', writeRequest Marshal io sr fs = (None, fs') ∧ writable fs' ∧ same_queue fs fs' ∧
    stored (fs_dir fs') ≡ₚ stored (fs_dir fs) ++ (if fits (fs_config fs) sr then [coerced sr] else []).
Proof using HJ.
  intros Hio Hfs. pose proof Hio as (Ho & Hr & Hc & Hst & Hsp & Hwr). unfold writeRequest, fits.
  destruct (encodes_line sr) as [data Hd]. rewrite Hd. unfold isOversizedRecord. destruct (_ && _); cbn [negb]; [exists fs; split_and!; [done..|by rewrite app_nil_r]|].
  rewrite Hsp. cbn [negb]. unfold writeEncodedRequestLocked, ensureCurrentFileLocked.
  assert (Hcur : ∃ n, fs_currentFile fs = Some (OpenOn n)) by (destruct (wr_current _ Hfs) as (n & ? & _); by exists n).
  destruct Hcur as [n0 E0]. rewrite E0.
  assert (Hsize : ∃ fs1, rotateForSizeIfNeededLocked io (Z.of_nat (String.length data)) fs = (None, fs1) ∧ writable fs1 ∧ same_queue fs fs1 ∧
    stored (fs_dir fs1) ≡ₚ stored (fs_dir fs)).
  { unfold rotateForSizeIfNeededLocked. destruct (_ <=? 0); [by exists fs|]. rewrite E0, Hst. cbn [negb]. destruct (_ || _); [by exists fs|].
    by apply rotate_works. }
  destruct Hsize as (fs1 & -> & Hfs1 & Hq1 & Hs1). destruct (wr_current _ Hfs1) as (n & E & Hn). rewrite E, Hwr.
  destruct (whole_append (fs_dir fs1) n sr data (wr_whole _ Hfs1) Hn Hd) as [Hw Hwc].
  eexists. split; [reflexivity|].
  set (fs2 := with_file _ _ _ _ fs1).
  assert (Hsig : ∀ b, let fs3 := signalRotationIfNeeded b fs2 in fs_dir fs3 = fs_dir fs2 ∧ fs_currentFile fs3 = fs_currentFile fs2 ∧ same_queue fs2 fs3).
  { intros b. unfold signalRotationIfNeeded. by destruct (_ && _). }
  destruct (Hsig ((0 <? RotateAfter (fs_config fs1)) && (RotateAfter (fs_config fs1) <=? add64 (fs_requestCount fs1) 1))) as (Hd3 & Hc3 & Hq3).
  set (fs3 := signalRotationIfNeeded _ fs2) in *. split_and!.
  - split; [rewrite Hc3; by exists n|rewrite Hd3; exact Hw].
  - destruct Hq1 as (? & ? & ? & ?), Hq3 as (? & ? & ? & ?). unfold fs2 in *. cbn in *. split_and!; congruence.
  - rewrite Hd3. unfold fs2. cbn [with_file fs_dir]. rewrite stored_append by done. by rewrite Hs1.
Qed.

(** ** Writing while the file system may fail *)

(** A write goes through as a whole or not at all. *)
Definition whole_writes (io : IO) : Prop := io_write io = None ∨ io_write io = Some 0%nat.

(** The files are made of lines, and the file that is open is a batch file. *)
Record sound_files (fs : FileStorage) : Prop := {
  sf_current : ∀ n, fs_currentFile fs = Some (OpenOn n) → has_suffix n extJSONL = true;
  sf_whole : batches_whole (fs_dir fs)
}.

Lemma writable_sound fs : writable fs → sound_files fs.
Proof using. intros [(n & E & Hn) Hw]. split; [|done]. intros n' E'. congruence. Qed.

(** A step of the storage that adds no record. *)
Definition keeps_records (fs fs' : FileStorage) : Prop :=
  sound_files fs' ∧ same_queue fs fs' ∧ stored (fs_dir fs') ≡ₚ stored (fs_dir fs).

Lemma keeps_refl fs : sound_files fs → keeps_records fs fs.
Proof using. done. Qed.

Lemma keeps_trans fs1 fs2 fs3 : keeps_records fs1 fs2 → keeps_records fs2 fs3 → keeps_records fs1 fs3.
Proof using.
  intros (_ & (Hq1 & Hq2 & Hq3 & Hq4) & Hs) (Hf & (Hr1 & Hr2 & Hr3 & Hr4) & Ht).
  split_and!; [done|split_and!; congruence|by rewrite Ht].
Qed.

Lemma keeps_open fs d k count : sound_files fs →
  keeps_records fs (with_file (openFile (batchName d k) (fs_dir fs)) (Some (OpenOn (batchName d k))) k count fs).
Proof using.
  intros [Hc Hw]. split_and!; [|done|cbn; apply stored_open, batchName_jsonl].
  split; cbn; [intros n [= <-]; apply batchName_jsonl|by apply whole_open].
Qed.

Lemma keeps_rotate opens io fs : sound_files fs → keeps_records fs (rotateFileLocked opens io fs).2.
Proof using.
  intros Hf. unfold rotateFileLocked.
  set (r := match fs_currentFile fs with None => Ok fs | Some (ClosedOn n) => Err fs | Some (OpenOn n) => _ end).
  assert (Hr : ∃ fs', (r = Ok fs' ∨ r = Err fs') ∧ keeps_records fs fs').
  { unfold r. destruct (fs_currentFile fs) as [[n|n]|] eqn:E; [|by exists fs; split; [auto|by apply keeps_refl]..].
    eexists. split; [destruct (io_close io); [by left|by right]|]. destruct Hf as [Hc Hw]. split_and!; [|done|done]. by split. }
  destruct Hr as (fs' & [->| ->] & Hk); [|done]. destruct opens; cbn [snd].
  - eapply keeps_trans; [exact Hk|]. apply keeps_open, Hk.
  - eapply keeps_trans; [exact Hk|]. destruct Hk as ([Hc Hw] & _ & _). split_and!; [|done|done]. by split.
Qed.

Lemma keeps_file io size fs : sound_files fs →
  let fs1 := (ensureCurrentFileLocked io fs).2 in let fs2 := (rotateForSizeIfNeededLocked io size fs1).2 in
  keeps_records fs fs1 ∧ keeps_records fs fs2.
Proof using.
  intros Hf fs1. assert (H1 : keeps_records fs fs1).
  { unfold fs1, ensureCurrentFileLocked, initBatchFile. destruct (fs_currentFile fs); [by apply keeps_refl|].
    destruct (io_open io); [by apply keeps_open|by apply keeps_refl]. }
  cbv zeta. split; [exact H1|]. clearbody fs1. eapply keeps_trans; [exact H1|]. destruct H1 as (Hf1 & _ & _).
  unfold rotateForSizeIfNeededLocked. destruct (_ <=? 0); [by apply keeps_refl|].
  destruct (fs_currentFile fs1) as [[n|n]|]; [|by apply keeps_refl..]. destruct (negb _); [by apply keeps_refl|].
  destruct (_ || _); [by apply keeps_refl|by apply keeps_rotate].
Qed.

(** Writing a record that is not too large adds it, or ends in an error and adds
    nothing; one that is too large is dropped without an error. *)
Lemma write_whole io sr fs : whole_writes io → sound_files fs →
  let '(err, fs') := writeRequest Marshal io sr fs in
  sound_files fs' ∧ same_queue fs fs' ∧
  stored (fs_dir fs') ≡ₚ stored (fs_dir fs) ++ (if fits (fs_config fs) sr && negb (bool_decide (is_Some err)) then [coerced sr] else []) ∧
  (is_Some err → fits (fs_config fs) sr = true).
Proof using HJ.
  intros Hio Hf. unfold writeRequest, fits. destruct (encodes_line sr) as [data Hd]. rewrite Hd. unfold isOversizedRecord.
  destruct (_ && _); cbn [negb andb]; [split_and!; [done..|by rewrite app_nil_r|by intros []]|].
  assert (Hno : ∀ (e : StorageError) fs', keeps_records fs fs' → sound_files fs' ∧ same_queue fs fs' ∧
    stored (fs_dir fs') ≡ₚ stored (fs_dir fs) ++ (if negb (bool_decide (is_Some (Some e))) then [coerced sr] else []) ∧ (is_Some (Some e) → true = true)).
  { intros e fs' (? & ? & Hs). split_and!; [done..| |done]. by rewrite bool_decide_true, app_nil_r by done. }
  destruct (io_space io); cbn [negb]; [|apply Hno; by apply keeps_refl]. unfold writeEncodedRequestLocked.
  destruct (keeps_file io (Z.of_nat (String.length data)) fs Hf) as [H1 H2]. cbv zeta in H1, H2.
  destruct (ensureCurrentFileLocked io fs) as [[e|] fs1]; cbn [snd] in *; [by apply Hno|].
  destruct (rotateForSizeIfNeededLocked io _ fs1) as [[e|] fs2]; cbn [snd] in *; [by apply Hno|].
  destruct (fs_currentFile fs2) as [[n|n]|] eqn:Ec; [|by apply Hno..].
  pose proof H2 as ([Hc Hw] & Hq & Hs). pose proof (Hc n Ec) as Hn. destruct (whole_append (fs_dir fs2) n sr data Hw Hn Hd) as [Hw' Hwc].
  destruct Hio as [->| ->].
  - set (fs3 := with_file _ _ _ _ fs2). rewrite bool_decide_false by (by intros []). cbn [negb].
    assert (H3 : sound_files fs3 ∧ same_queue fs fs3 ∧ stored (fs_dir fs3) ≡ₚ stored (fs_dir fs) ++ [coerced sr]).
    { split_and!; [split; cbn; [by intros n' [= <-]|done]|exact Hq|]. unfold fs3. cbn [with_file fs_dir].
      rewrite stored_append by done. by rewrite Hs. }
    clearbody fs3. destruct H3 as ([? ?] & ? & ?).
    unfold signalRotationIfNeeded. destruct (_ && _); (split_and!; [by split|done|done|by intros []]).
  - apply Hno. eapply keeps_trans; [exact H2|]. cbn [str_take]. split_and!; [|done|].
    + split; cbn; [by intros n' [= <-]|]. intros n' c Hn'. unfold appendFile. rewrite str_app_nil_r.
      by apply whole_open.
    + cbn. unfold appendFile. rewrite str_app_nil_r. by apply stored_open.
Qed.

(** ** Every accepted request is stored once *)

Record run_ok (cfg : StorageConfig) (dir0 : gmap string string) (r : Run) : Prop := {
  ro_config : fs_config (rn_fs r) = cfg;
  ro_files : sound_files (rn_fs r);
  ro_queue : rn_accepted r = rn_taken r ++ fs_requestCh (rn_fs r);
  ro_pending : fs_pendingWrites (rn_fs r) = Z.of_nat (length (fs_requestCh (rn_fs r)));
  ro_stored : stored (fs_dir (rn_fs r)) ++ map coerced (rn_failed r) ≡ₚ stored dir0 ++ map coerced (List.filter (fits cfg) (rn_taken r));
  ro_closed : rn_cancelled r = true → fs_closed (rn_fs r) = true;
  ro_writer : rn_writer r = false → rn_cancelled r = true ∧ fs_requestCh (rn_fs r) = [];
  ro_rotator : rn_rotator r = false → rn_rotating r = false;
  ro_ended : rn_ended r = true → rn_writer r = false ∧ rn_rotator r = false
}.

Context (good : IO → Prop) (Hgood : ∀ io, good io → whole_writes io).

Lemma SaveRequest_refused sr e fs fs' : SaveRequest sr fs = (Some e, fs') → fs' = fs.
Proof using.
  unfold SaveRequest. destruct (negb _); [by intros [= _ <-]|]. destruct (fs_closed _); [by intros [= _ <-]|].
  destruct (_ <? _)%nat; [done|by intros [= _ <-]].
Qed.

Lemma closeFile_keeps io fs : sound_files fs → sound_files (closeFile io fs).2 ∧ fs_dir (closeFile io fs).2 = fs_dir fs ∧ same_queue fs (closeFile io fs).2.
Proof using.
  intros [Hc Hw]. unfold closeFile. destruct (fs_currentFile fs) as [[n|n]|] eqn:E; [destruct (io_close io)|..];
    (split_and!; [split; cbn; by rewrite ?E|done|done]).
Qed.

Lemma store_step_ok cfg dir0 r r' : run_ok cfg dir0 r → store_step Marshal good r r' → run_ok cfg dir0 r'.
Proof using HJ Hgood.
  intros [Hcfg Hf Hq Hp Hs Hcl Hwi Hro Hen] Hstep. destruct Hstep as [sr fs E|sr e fs E|io sr q fs Hio Hw Eq E|fs Hr Hrr E|io Hio Hrr| |Hc|Hc Eq|Hc Hrr|io Hio Hc Hw Hr He].
  - unfold SaveRequest in E. destruct (negb _); [done|]. destruct (fs_closed (rn_fs r)) eqn:Ecl; [done|]. destruct (_ <? _)%nat; [|done]. injection E as <-.
    assert (Hnc : rn_cancelled r = false) by (apply not_true_is_false; intros H; specialize (Hcl H); congruence).
    split; cbn; try done.
    + destruct Hf as [? ?]. by split.
    + by rewrite Hq, app_assoc.
    + rewrite length_app. cbn. lia.
    + congruence.
    + intros H. apply Hwi in H as [H _]. congruence.
  - apply SaveRequest_refused in E as ->. by split.
  - assert (He : rn_ended r = false) by (apply not_true_is_false; intros H; apply Hen in H as [H _]; congruence).
    unfold asyncWrite in E. rewrite Eq in E. unfold write_failed. rewrite Eq.
    assert (Hfs : sound_files (with_queue q (fs_pendingWrites (rn_fs r)) (rn_fs r))) by (destruct Hf as [? ?]; by split).
    pose proof (write_whole io sr _ (Hgood _ Hio) Hfs) as Hwr.
    destruct (writeRequest Marshal io sr (with_queue q _ (rn_fs r))) as [err fs'] eqn:Ew. cbn [fst snd] in *.
    destruct Hwr as ([Hcur Hwh] & (Hq1 & Hq2 & Hq3 & Hq4) & Hst & Hfit). injection E as <-.
    cbn in Hq1, Hq2, Hq3, Hq4, Hst, Hfit. rewrite Hcfg in *. split; cbn; try (congruence || done).
    + rewrite Hq, Eq, Hq2, <- app_assoc. done.
    + rewrite Hq3, Hq2, Hp, Eq. cbn. lia.
    + rewrite List.filter_app, !map_app, Hst. cbn [List.filter].
      trans ((stored (fs_dir (rn_fs r)) ++ map coerced (rn_failed r)) ++ map coerced (if fits cfg sr then [sr] else [])); [|by rewrite Hs, <- app_assoc].
      case_bool_decide as Herr; [rewrite (Hfit Herr)|]; cbn; [by rewrite app_nil_r, app_assoc|].
      rewrite app_nil_r, andb_true_r. destruct (fits cfg sr); cbn; [|by rewrite !app_nil_r].
      rewrite <- !app_assoc. f_equiv. apply Permutation_app_comm.
    + intros H. rewrite Hq4. auto.
  - unfold takeSignals in E. destruct (_ <? _)%nat; [|done]. injection E as <-. split; cbn; try done.
    + destruct Hf as [? ?]. by split.
    + intros He. apply Hen in He as [_ He]. congruence.
  - assert (He : rn_ended r = false).
    { apply not_true_is_false. intros H. apply Hen in H as [_ H]. apply Hro in H. congruence. }
    unfold rotateFile. destruct (keeps_rotate (io_open io) io (rn_fs r) Hf) as (Hf' & (Hq1 & Hq2 & Hq3 & Hq4) & Hst).
    set (fs' := (rotateFileLocked _ io _).2) in *. clearbody fs'. split; cbn; try (congruence || done); [by rewrite Hst|intros H; rewrite ?Hq4, ?Hq2; auto..].
  - split; cbn; try done. destruct Hf as [? ?]. by split.
  - split; cbn; try done; clear Hs; naive_solver.
  - split; cbn; try done; clear Hs; naive_solver.
  - split; cbn; try done; clear Hs; naive_solver.
  - destruct (closeFile_keeps io (rn_fs r) Hf) as (Hf' & Hd & Hq1 & Hq2 & Hq3 & Hq4).
    set (fs' := (closeFile io (rn_fs r)).2) in *. clearbody fs'.
    destruct (Hwi Hw) as [_ Hqe]. split; cbn; intros; rewrite ?Hd, ?Hq2, ?Hq3, ?Hq4; (congruence || done || auto).
Qed.

Lemma NewFileStorage_ok cfg dir0 io fs : Enabled cfg = true → batches_whole dir0 → NewFileStorage cfg dir0 io = (None, fs) →
  run_ok cfg dir0 (start_run fs) ∧ writable fs.
Proof using.
  intros Hen Hw E. unfold NewFileStorage in E. rewrite Hen in E. unfold initBatchFile in E. destruct (io_open io); [|done]. injection E as <-.
  set (fs := with_file _ _ _ _ _).
  assert (Hwr : writable fs) by (split; [eexists; split; [reflexivity|apply batchName_jsonl]|by apply whole_open]).
  split; [|done]. split; cbn; try done; [by apply writable_sound|]. rewrite !app_nil_r. apply stored_open, batchName_jsonl.
Qed.

Lemma store_steps_ok cfg dir0 r r' : run_ok cfg dir0 r → rtc (store_step Marshal good) r r' → run_ok cfg dir0 r'.
Proof using HJ Hgood. intros Hok Hr. induction Hr as [|r1 r2 r3 H _ IH]; [done|]. apply IH. by eapply store_step_ok. Qed.

(** While everything works no writing ends in an error. *)
Definition run_fine (r : Run) : Prop := (rn_ended r = false → writable (rn_fs r)) ∧ rn_failed r = [].

Lemma store_step_fine cfg dir0 r r' : (∀ io, good io → works io) → run_ok cfg dir0 r → run_fine r → store_step Marshal good r r' → run_fine r'.
Proof using HJ.
  intros Hworks [Hcfg _ _ _ _ _ _ Hro Hen] [Hwr Hf] Hstep.
  destruct Hstep as [sr fs E|sr e fs E|io sr q fs Hio Hw Eq E|fs Hr Hrr E|io Hio Hrr| |Hc|Hc Eq|Hc Hrr|io Hio Hc Hw Hr He].
  - unfold SaveRequest in E. destruct (negb _); [done|]. destruct (fs_closed (rn_fs r)); [done|]. destruct (_ <? _)%nat; [|done]. injection E as <-.
    split; cbn; [|done]. intros He. destruct (Hwr He) as [? ?]. by split.
  - apply SaveRequest_refused in E as ->. by split.
  - assert (He : rn_ended r = false) by (apply not_true_is_false; intros H; apply Hen in H as [H _]; congruence).
    unfold asyncWrite in E. rewrite Eq in E. unfold write_failed. rewrite Eq.
    assert (Hfs : writable (with_queue q (fs_pendingWrites (rn_fs r)) (rn_fs r))) by (destruct (Hwr He) as [? ?]; by split).
    destruct (write_works io sr _ (Hworks _ Hio) Hfs) as (fs' & Ew & [Hcur Hwh] & _). rewrite Ew in *. cbn [fst snd] in *. injection E as <-.
    split; cbn; [intros _; by split|]. by rewrite Hf.
  - unfold takeSignals in E. destruct (_ <? _)%nat; [|done]. injection E as <-. split; cbn; [|done].
    intros He. destruct (Hwr He) as [? ?]. by split.
  - split; cbn; [|done]. intros He. unfold rotateFile.
    by destruct (rotate_works io (rn_fs r) (Hworks _ Hio) (Hwr He) (io_open io) (proj1 (Hworks _ Hio))) as (fs' & -> & Hwr' & _).
  - split; cbn; [|done]. intros He. destruct (Hwr He) as [? ?]. by split.
  - by split.
  - by split.
  - by split.
  - by split.
Qed.

Lemma store_steps_fine cfg dir0 r r' : (∀ io, good io → works io) → run_ok cfg dir0 r → run_fine r →
  rtc (store_step Marshal good) r r' → run_fine r'.
Proof using HJ Hgood.
  intros Hworks Hok Hf Hr. induction Hr as [|r1 r2 r3 H _ IH]; [done|]. apply IH; [by eapply store_step_ok|by eapply store_step_fine].
Qed.

Lemma drains cfg dir0 n io : good io → ∀ r, run_ok cfg dir0 r → rn_writer r = true → length (fs_requestCh (rn_fs r)) = n →
  ∃ r', rtc (store_step Marshal good) r r' ∧ fs_requestCh (rn_fs r') = [] ∧ rn_cancelled r' = rn_cancelled r ∧ rn_rotating r' = rn_rotating r ∧
    rn_ended r' = rn_ended r.
Proof using HJ Hgood.
  intros Hio. induction n as [|n IH]; intros r Hok Hw Hn; [exists r; split_and!; try done; by apply nil_length_inv|].
  destruct (fs_requestCh (rn_fs r)) as [|sr q] eqn:Eq; [done|]. injection Hn as Hn.
  destruct (asyncWrite Marshal io (rn_fs r)) as [fs|] eqn:E; [|unfold asyncWrite in E; by rewrite Eq in E].
  pose proof (step_writes Marshal good r io sr q fs Hio Hw Eq E) as Hstep.
  pose proof (store_step_ok _ _ _ _ Hok Hstep) as Hok1. set (r1 := run_lists _ _ _ (run_fs fs r)) in *.
  assert (Hq1 : length (fs_requestCh (rn_fs r1)) = n).
  { pose proof (ro_queue _ _ _ Hok1) as H1. pose proof (ro_queue _ _ _ Hok) as H0. rewrite Eq in H0. unfold r1 in *. cbn in *.
    rewrite H0 in H1. apply (f_equal length) in H1. rewrite !length_app in H1. cbn in H1. lia. }
  destruct (IH r1 Hok1 Hw Hq1) as (r' & Hr & ? & ? & ? & ?). exists r'. split; [by eapply rtc_l|]. done.
Qed.

Lemma close_completes cfg dir0 io r : good io → run_ok cfg dir0 r → rn_cancelled r = true →
  ∃ r', rtc (store_step Marshal good) r r' ∧ rn_ended r' = true.
Proof using HJ Hgood.
  intros Hio Hok Hc. destruct (rn_ended r) eqn:He; [by exists r|].
  assert (H1 : ∃ r1, rtc (store_step Marshal good) r r1 ∧ fs_requestCh (rn_fs r1) = [] ∧ rn_cancelled r1 = true ∧ rn_ended r1 = false).
  { destruct (rn_writer r) eqn:Hw; [|exists r; split_and!; try done; by apply (ro_writer _ _ _ Hok Hw)].
    destruct (drains cfg dir0 _ io Hio r Hok Hw eq_refl) as (r1 & ? & ? & E1 & E2 & E3). exists r1. split_and!; [done|done|congruence|congruence]. }
  destruct H1 as (r1 & Hr1 & Hq1 & Hc1 & He1).
  assert (H2 : ∃ r2, rtc (store_step Marshal good) r1 r2 ∧ fs_requestCh (rn_fs r2) = [] ∧ rn_cancelled r2 = true ∧ rn_ended r2 = false ∧ rn_rotating r2 = false).
  { destruct (rn_rotating r1) eqn:Hrr; [|by exists r1]. pose proof (store_steps_ok _ _ _ _ Hok Hr1) as Hok1.
    eexists. split; [by apply rtc_once, (step_rotates Marshal good r1 io)|]. cbn. split_and!; try done.
    unfold rotateFile. destruct (keeps_rotate (io_open io) io (rn_fs r1) (ro_files _ _ _ Hok1)) as (_ & (_ & Hq & _) & _). congruence. }
  destruct H2 as (r2 & Hr2 & Hq2 & Hc2 & He2 & Hrr2). eexists. split.
  - etrans; [exact Hr1|]. etrans; [exact Hr2|]. eapply rtc_l; [by apply step_writer_ends|].
    eapply rtc_l; [apply step_rotator_ends; [reflexivity|exact Hrr2]|]. apply rtc_once.
    apply (step_ends Marshal good _ io); [exact Hio|reflexivity|reflexivity|reflexivity|exact He2].
  - reflexivity.
Qed.

(** C19: whatever the order in which requests come, are written, files are rotated and
    the storage is closed, and whatever fails - opening, closing or looking at a file, the
    space, a write, as long as a write that fails wrote nothing: the accepted requests are
    taken in their order, and each one that is taken and not too large for a file is
    there exactly once, on disk or among those whose writing ended in an error (which is
    logged), next to what was on disk before; a record that is too large for a file is
    dropped. While everything works there are no errors. After [Close] has begun nothing
    more is accepted, it can always be completed, and when it is, every accepted request
    was taken. *)
Theorem requests_stored cfg dir0 io fs0 r :
  Enabled cfg = true → batches_whole dir0 → good io → NewFileStorage cfg dir0 io = (None, fs0) → rtc (store_step Marshal good) (start_run fs0) r →
  rn_accepted r = rn_taken r ++ fs_requestCh (rn_fs r) ∧
  stored (fs_dir (rn_fs r)) ++ map coerced (rn_failed r) ≡ₚ stored dir0 ++ map coerced (List.filter (fits cfg) (rn_taken r)) ∧
  ((∀ io, good io → works io) → rn_failed r = []) ∧
  (rn_cancelled r = true → (∀ sr, (SaveRequest sr (rn_fs r)).1 = Some ErrStorageClosed) ∧
     ∃ r', rtc (store_step Marshal good) r r' ∧ rn_ended r' = true) ∧
  (rn_ended r = true → rn_accepted r = rn_taken r).
Proof using HJ Hgood.
  intros Hen Hw Hio E Hr. destruct (NewFileStorage_ok _ _ _ _ Hen Hw E) as [Hok0 Hwr0].
  pose proof (store_steps_ok _ _ _ _ Hok0 Hr) as Hok.
  split; [apply Hok|]. split; [apply Hok|]. split; [intros Hworks; apply (store_steps_fine cfg dir0 _ r Hworks Hok0 (conj (λ _, Hwr0) eq_refl) Hr)|]. split.
  - intros Hc. split; [|by eapply close_completes]. intros sr. unfold SaveRequest. rewrite (ro_config _ _ _ Hok), Hen, (ro_closed _ _ _ Hok Hc). done.
  - intros He. destruct (ro_ended _ _ _ Hok He) as [Hwr _]. destruct (ro_writer _ _ _ Hok Hwr) as [_ Hq].
    by rewrite (ro_queue _ _ _ Hok), Hq, app_nil_r.
Qed.
End Stored.

Section Rest.
Context {Marshal : StoredRequest → option string} {Unmarshal : string → option StoredRequest} {coerced : StoredRequest → StoredRequest}.
Context `{HJ : !Json Marshal Unmarshal coerced}.
Notation readBatch := (readBatch Unmarshal).
Notation readFile := (readFile Unmarshal).
Notation stored := (stored Unmarshal).
Notation encodeStoredRequestLine := (encodeStoredRequestLine Marshal).
Notation fits := (fits (Marshal := Marshal)).

(** What works on some day. *)
Definition fine (date : string) : IO :=
  {| io_date := date; io_open := true; io_reopen := true; io_close := true; io_stat := true; io_rewrite := true; io_remove := true;
     io_space := true; io_write := None |}.

Lemma fine_works date : works (fine date).
Proof using. done. Qed.

(** ** Deleting *)

Lemma NoDup_requestFiles dir : NoDup (requestFiles dir).
Proof using.
  assert (Hk : NoDup (map fst (map_to_list dir))) by apply NoDup_fst_map_to_list.
  unfold requestFiles. apply NoDup_app. split_and!.
  - rewrite glob_perm. by apply NoDup_filter.
  - intros n. rewrite !glob_perm, !list_elem_of_filter. intros [Hj%json_not_jsonl _] [Hl _]. congruence.
  - rewrite glob_perm. by apply NoDup_filter.
Qed.

Lemma elem_of_requestFiles dir n :
  n ∈ requestFiles dir ↔ (has_suffix n ".json" = true ∨ has_suffix n extJSONL = true) ∧ is_Some (dir !! n).
Proof using.
  unfold requestFiles. rewrite elem_of_app, !glob_perm, !list_elem_of_filter.
  assert (Hk : n ∈ map fst (map_to_list dir) ↔ is_Some (dir !! n)).
  { rewrite list_elem_of_fmap. split; [intros ([n' c] & -> & H%elem_of_map_to_list); by exists c|].
    intros [c Hc]. exists (n, c). by rewrite elem_of_map_to_list. }
  rewrite Hk. tauto.
Qed.

Lemma filter_same_length {A} (p : A → bool) l : length (List.filter p l) = length l → List.filter p l = l.
Proof using.
  induction l as [|x l IH]; [done|]. cbn. destruct (p x); cbn; [intros [= H]; by rewrite IH|].
  intros H. pose proof (List.filter_length_le p l). lia.
Qed.

Lemma readBatch_valid c : Forall (λ sr, coerced sr = sr) (readBatch c).
Proof using HJ.
  apply Forall_forall. intros sr. unfold RequestStore.readBatch. rewrite list_elem_of_omap. intros (l & _ & E). cbv zeta in E.
  destruct (String.eqb _ _); [done|]. by eapply json_valid.
Qed.

Lemma readFile_valid dir n : map coerced (readFile dir n) = readFile dir n.
Proof using HJ.
  assert (H : Forall (λ sr, coerced sr = sr) (readFile dir n)).
  { unfold RequestStore.readFile. destruct (dir !! n) as [c|]; [|constructor]. destruct (has_suffix n extJSONL); [apply readBatch_valid|].
    unfold readRequestFile. destruct (Unmarshal c) as [sr|] eqn:E; [constructor; [by eapply json_valid|constructor]|].
    pose proof (readBatch_valid c) as Hv. destruct (readBatch c); [constructor|]. cbn. apply Forall_cons in Hv as [? _]. by constructor. }
  induction H as [|sr l Hsr _ IH]; [done|]. cbn. by rewrite Hsr, IH.
Qed.

Lemma map_coerced_filter p l : map coerced l = l → map coerced (List.filter p l) = List.filter p l.
Proof using.
  induction l as [|x l IH]; [done|]. cbn. intros [= Hx Hl]. destruct (p x); cbn; [by rewrite Hx, IH|by apply IH].
Qed.

Definition removes (io : IO) : Prop := io_rewrite io = true ∧ io_remove io = true.

Lemma rewrite_works io n rs fs : removes io → has_suffix n extJSONL = true → ∃ fs' c, rewriteBatchFile Marshal io n rs fs = (None, fs') ∧
  fs_dir fs' = <[n := c]> (fs_dir fs) ∧ readBatch c = map coerced rs.
Proof using HJ.
  intros [Hrw _] Hn. unfold rewriteBatchFile. rewrite Hrw. destruct (encodeAll_lines rs) as (c & E & Hr & _). rewrite E. by do 2 eexists.
Qed.

Section Filtered.
Context (f : RequestFilter).
Notation kept := (λ sr, negb (matchesFilter sr f)).
Notation gone := (λ sr, matchesFilter sr f).

Lemma count_split {A} (p : A → bool) l : (length (List.filter p l) + length (List.filter (λ x, negb (p x)) l) = length l)%nat.
Proof using. induction l as [|x l IH]; [done|]. cbn. destruct (p x); cbn; lia. Qed.

Lemma delete_file io n fs : removes io → n ∈ requestFiles (fs_dir fs) →
  ∃ fs', deleteRequestsFromFile Marshal Unmarshal io f n fs = (Z.of_nat (length (List.filter gone (readFile (fs_dir fs) n))), fs') ∧
    readFile (fs_dir fs') n = List.filter kept (readFile (fs_dir fs) n) ∧ (∀ n', n' ≠ n → fs_dir fs' !! n' = fs_dir fs !! n') ∧
    dom (fs_dir fs') ⊆ dom (fs_dir fs).
Proof using HJ.
  intros Hio Hn. apply elem_of_requestFiles in Hn as [Hext [c Hc]]. unfold deleteRequestsFromFile. cbv zeta.
  pose proof (count_split gone (readFile (fs_dir fs) n)) as Hcount. cbv beta in Hcount.
  destruct (Nat.eqb_spec (length (List.filter kept (readFile (fs_dir fs) n))) (length (readFile (fs_dir fs) n))) as [E|Hne].
  { exists fs. split_and!; [f_equal; lia|by rewrite filter_same_length|done|done]. }
  destruct (has_suffix n extJSONL) eqn:Ejl.
  - destruct (rewrite_works io n (List.filter kept (readFile (fs_dir fs) n)) fs Hio Ejl) as (fs' & c' & -> & Hd & Hr). exists fs'. split_and!.
    + done.
    + unfold RequestStore.readFile at 1. rewrite Hd, lookup_insert_eq, Ejl, Hr. apply map_coerced_filter, readFile_valid.
    + intros n' Hne'. by rewrite Hd, lookup_insert_ne.
    + rewrite Hd, dom_insert_lookup_L by (by exists c). done.
  - unfold removeFile. destruct Hio as [_ ->]. eexists. split; [reflexivity|]. cbn [with_file fs_dir]. split_and!.
    + unfold RequestStore.readFile. rewrite lookup_delete_eq, Hc, Ejl. unfold RequestStore.readFile in Hne. rewrite Hc, Ejl in Hne.
      destruct (readRequestFile Unmarshal c) as [sr|]; [|done]. cbn in Hne |- *. by destruct (matchesFilter sr f).
    + intros n' Hne'. by rewrite lookup_delete_ne.
    + rewrite dom_delete. set_solver.
Qed.

Lemma delete_files io names : removes io → NoDup names → ∀ fs d, (∀ n, n ∈ names → n ∈ requestFiles (fs_dir fs)) →
  ∃ fs', deleteRequestsFrom Marshal Unmarshal io f names d fs =
      (d + Z.of_nat (length (List.filter gone (flat_map (readFile (fs_dir fs)) names))), fs') ∧
    (∀ n, n ∈ names → readFile (fs_dir fs') n = List.filter kept (readFile (fs_dir fs) n)) ∧
    (∀ n, n ∉ names → fs_dir fs' !! n = fs_dir fs !! n) ∧ dom (fs_dir fs') ⊆ dom (fs_dir fs).
Proof using HJ.
  intros Hio Hnd. induction Hnd as [|n names Hn Hnd IH]; intros fs d Hin.
  { exists fs. cbn. split_and!; [f_equal; lia|set_solver|done|done]. }
  cbn [deleteRequestsFrom]. destruct (delete_file io n fs Hio (Hin n ltac:(left))) as (fs1 & -> & Hr1 & Ho1 & Hd1).
  assert (Hsame : ∀ n', n' ∈ names → fs_dir fs1 !! n' = fs_dir fs !! n') by (intros n' Hn'; apply Ho1; set_solver).
  assert (Hread : ∀ n', n' ∈ names → readFile (fs_dir fs1) n' = readFile (fs_dir fs) n').
  { intros n' Hn'. unfold RequestStore.readFile. by rewrite Hsame. }
  destruct (IH fs1 (d + Z.of_nat (length (List.filter gone (readFile (fs_dir fs) n))))) as (fs' & -> & Hr & Ho & Hd).
  { intros n' Hn'. rewrite elem_of_requestFiles, Hsame by done. apply elem_of_requestFiles, Hin. by right. }
  exists fs'. split_and!.
  - f_equal. cbn [flat_map]. rewrite List.filter_app, length_app.
    assert (Hfm : flat_map (readFile (fs_dir fs1)) names = flat_map (readFile (fs_dir fs)) names).
    { clear -Hread. induction names as [|a names IHn]; [done|]. cbn. rewrite Hread by left. rewrite IHn; [done|]. intros. apply Hread. by right. }
    rewrite Hfm. lia.
  - intros n' [->|Hn']%elem_of_cons; [|by rewrite Hr, Hread]. unfold RequestStore.readFile at 1. rewrite Ho by done. exact Hr1.
  - intros n' Hn'. apply not_elem_of_cons in Hn' as [? ?]. by rewrite Ho, Ho1.
  - by etrans.
Qed.

Lemma stored_shrunk dir dir' : dom dir' ⊆ dom dir → stored dir' ≡ₚ flat_map (readFile dir') (requestFiles dir).
Proof using HJ.
  intros Hd. unfold RequestStore.stored. assert (Hp : requestFiles dir' ≡ₚ filter (λ n, is_Some (dir' !! n)) (requestFiles dir)).
  { apply NoDup_Permutation; [apply NoDup_requestFiles|apply NoDup_filter, NoDup_requestFiles|]. intros n.
    rewrite list_elem_of_filter, !elem_of_requestFiles. rewrite <- !elem_of_dom. set_solver. }
  rewrite (Permutation_flat_map _ Hp). clear Hp. induction (requestFiles dir) as [|n names IH]; [done|]. rewrite filter_cons. cbn [flat_map].
  case_decide as Hs; cbn [flat_map]; [by rewrite IH|]. rewrite IH.
  assert (E : readFile dir' n = []); [|by rewrite E]. unfold RequestStore.readFile. by rewrite (proj2 (eq_None_not_Some _) Hs).
Qed.

Lemma flat_map_kept (g : string → list StoredRequest) names : List.filter kept (flat_map g names) = flat_map (λ n, List.filter kept (g n)) names.
Proof using. induction names as [|n names IH]; [done|]. cbn. by rewrite List.filter_app, IH. Qed.

(** Deleting by a filter removes exactly the records the filter selects, from batch
    files and from files of the old format, keeps all others, and says how many it
    removed. While writes are pending it waits for the writer. *)
Theorem delete_exact io fs : removes io → opened fs = None →
  match DeleteRequests Marshal Unmarshal io f fs with
  | Some (err, n, fs') =>
      err = None ∧ n = Z.of_nat (length (List.filter gone (stored (fs_dir fs)))) ∧ stored (fs_dir fs') ≡ₚ List.filter kept (stored (fs_dir fs))
  | None => 0 < fs_pendingWrites fs
  end.
Proof using HJ.
  intros Hio Hop. unfold DeleteRequests, opened in *. destruct (Enabled (fs_config fs)); [|done]. cbn [negb] in *. destruct (fs_closed fs); [done|].
  unfold drained. destruct (Z.ltb_spec 0 (fs_pendingWrites fs)); [done|]. cbn [mbind option_bind].
  destruct (delete_files io (requestFiles (fs_dir fs)) Hio (NoDup_requestFiles _) (with_signals 0 fs) 0) as (fs' & E & Hr & _ & Hd); [done|].
  cbn [with_signals fs_dir] in *. rewrite E. split_and!; [done|done|]. rewrite (stored_shrunk _ _ Hd).
  unfold RequestStore.stored. rewrite flat_map_kept. clear E Hd. induction (requestFiles (fs_dir fs)) as [|n names IH]; [done|].
  cbn [flat_map]. rewrite Hr by left. f_equiv. apply IH. intros. apply Hr. by right.
Qed.
End Filtered.
(** ** The size of files *)

Lemma str_app_inv_r a b c : a +:+ c = b +:+ c → a = b.
Proof using.
  intros H. apply (f_equal bytes_of) in H. rewrite !bytes_of_app in H. apply app_inv_tail in H.
  rewrite <- (string_of_bytes a), <- (string_of_bytes b). by rewrite H.
Qed.

Lemma format_padded_inj k k' : 0 ≤ k → 0 ≤ k' → format_padded 6 k = format_padded 6 k' → k = k'.
Proof using.
  intros Hk Hk'. unfold format_padded. rewrite !(proj2 (Z.ltb_ge _ _)) by done. intros E. apply (f_equal (parse_digits 10 0)) in E.
  rewrite !parse_digits_pad in E by lia. by injection E.
Qed.

Lemma batchName_inj d d' k k' : String.length d = 10%nat → String.length d' = 10%nat → 0 ≤ k → 0 ≤ k' → batchName d k = batchName d' k' → k = k'.
Proof using.
  intros Hd Hd' Hk Hk' E. unfold batchName in E. pose proof (f_equal (str_drop 10) E) as E2.
  rewrite <- Hd in E2 at 1. rewrite <- Hd' in E2. rewrite !str_drop_app in E2. apply str_app_inv_l, str_app_inv_r in E2. by apply format_padded_inj.
Qed.

Definition dated (io : IO) : Prop := String.length (io_date io) = 10%nat.

Definition batch_below (counter : Z) (n : string) : Prop := ∃ d k, n = batchName d k ∧ String.length d = 10%nat ∧ 0 ≤ k ≤ counter.

(** The files that were there when the storage was opened are [old]. *)
Record bounded (cfg : StorageConfig) (old : gset string) (steps : Z) (fs : FileStorage) : Prop := {
  bo_config : fs_config fs = cfg;
  bo_files : ∀ n c, n ∉ old → fs_dir fs !! n = Some c → Z.of_nat (String.length c) ≤ MaxFileSize cfg ∧ batch_below (fs_fileCounter fs) n;
  bo_current : ∀ n, fs_currentFile fs = Some (OpenOn n) → batch_below (fs_fileCounter fs) n;
  bo_counter : 0 ≤ fs_fileCounter fs ≤ steps
}.

Lemma batch_below_mono k k' n : k ≤ k' → batch_below k n → batch_below k' n.
Proof using. intros Hk (d & j & ? & ? & ?). exists d, j. split_and!; [done|done|lia|lia]. Qed.

Lemma bounded_mono cfg old k k' fs : k ≤ k' → bounded cfg old k fs → bounded cfg old k' fs.
Proof using. intros ? [? ? ? ?]. split; try done. lia. Qed.

(** Opening the file of a counter: what was in it, or nothing. *)
Lemma bounded_open cfg old io fs counter count steps : 0 < MaxFileSize cfg → dated io → bounded cfg old steps fs → fs_fileCounter fs ≤ counter ≤ steps →
  let name := batchName (io_date io) counter in bounded cfg old steps (with_file (openFile name (fs_dir fs)) (Some (OpenOn name)) counter count fs).
Proof using.
  intros Hm Hd [Hc Hf Hcur Hn] Hk name. assert (Hb : batch_below counter name) by (exists (io_date io), counter; split_and!; [done|done|lia|lia]).
  split; cbn; [done| | |lia].
  - intros n c. unfold openFile. destruct (decide (name = n)) as [<-|]; [|rewrite lookup_insert_ne by done; intros Ho [? ?]%Hf; [split; [done|by eapply batch_below_mono; [|done]; lia]|done]].
    rewrite lookup_insert_eq. intros Ho [= <-]. split; [|done]. destruct (fs_dir fs !! name) eqn:E; cbn; [by apply (Hf name)|lia].
  - intros n [= <-]. done.
Qed.

Lemma bounded_rotate cfg old io fs opens steps : 0 < MaxFileSize cfg → dated io → steps < max_int64 → bounded cfg old steps fs →
  let fs' := (rotateFileLocked opens io fs).2 in
  bounded cfg old (steps + 1) fs' ∧
  (∀ fs1, rotateFileLocked opens io fs = (None, fs1) → ∃ n, fs_currentFile fs1 = Some (OpenOn n) ∧ (n ∉ old → default "" (fs_dir fs1 !! n) = "")).
Proof using.
  intros Hm Hd Hmax Hb. cbv zeta. unfold rotateFileLocked.
  set (r := match fs_currentFile fs with None => Ok fs | Some (ClosedOn n) => Err fs | Some (OpenOn n) => _ end).
  assert (Hr : ∃ fs', (r = Ok fs' ∨ r = Err fs') ∧ bounded cfg old steps fs' ∧ fs_dir fs' = fs_dir fs ∧ fs_fileCounter fs' = fs_fileCounter fs).
  { unfold r. destruct (fs_currentFile fs) as [[n|n]|] eqn:E; [|by exists fs; split_and!; auto..].
    eexists. split; [destruct (io_close io); [by left|by right]|]. split; [|done]. destruct Hb as [? ? ? ?]. split; done. }
  destruct Hr as (fs' & [->| ->] & Hb' & Hdir & Hcnt); [|split; [by eapply bounded_mono; [|done]; lia|done]].
  pose proof (bo_counter _ _ _ _ Hb') as Hn. assert (Eadd : add64 (fs_fileCounter fs') 1 = fs_fileCounter fs' + 1).
  { unfold add64. apply wrap64_id. unfold in_int64, min_int64, max_int64 in *. lia. }
  rewrite Eadd. destruct opens; cbn [snd].
  - split; [apply (bounded_open cfg old io fs' (fs_fileCounter fs' + 1) 0 (steps + 1)); [done|done|by eapply bounded_mono; [|done]; lia|lia]|].
    intros fs1 [= <-]. eexists. split; [reflexivity|]. intros Ho. cbn [with_file fs_dir]. unfold openFile. rewrite lookup_insert_eq. cbn.
    destruct (fs_dir fs' !! batchName (io_date io) (fs_fileCounter fs' + 1)) as [c|] eqn:E; [|done]. exfalso.
    destruct (bo_files _ _ _ _ Hb' _ _ Ho E) as [_ (d & k & Ename & Hdl & Hk)]. apply batchName_inj in Ename; [lia|done|done|lia|lia].
  - split; [|done]. destruct Hb' as [? Hf Hcur ?]. split; cbn; [done| | |lia].
    + intros n c Ho [? ?]%Hf; [|done]. split; [done|]. eapply batch_below_mono; [|done]. lia.
    + intros n H. eapply batch_below_mono; [|by apply Hcur]. lia.
Qed.

Lemma bounded_append cfg old steps fs n data count : bounded cfg old steps fs → batch_below (fs_fileCounter fs) n →
  (n ∉ old → Z.of_nat (String.length (default "" (fs_dir fs !! n))) + Z.of_nat (String.length data) ≤ MaxFileSize cfg) →
  bounded cfg old steps (with_file (appendFile n data (fs_dir fs)) (fs_currentFile fs) (fs_fileCounter fs) count fs).
Proof using.
  intros [Hc Hf Hcur Hn] Hb Hl. split; cbn; try done. intros n' c Ho. unfold appendFile. destruct (decide (n = n')) as [<-|]; [|rewrite lookup_insert_ne by done; by apply Hf].
  rewrite lookup_insert_eq. intros [= <-]. split; [|done]. rewrite str_length_app. specialize (Hl Ho). lia.
Qed.

Lemma bounded_write cfg old io sr fs steps : 0 < MaxFileSize cfg → dated io → steps < max_int64 → bounded cfg old steps fs →
  bounded cfg old (steps + 1) (writeRequest Marshal io sr fs).2.
Proof using.
  intros Hm Hd Hmax Hb. unfold writeRequest. destruct (encodeStoredRequestLine sr) as [data|]; [|by eapply bounded_mono; [|done]; lia].
  unfold isOversizedRecord. rewrite (bo_config _ _ _ _ Hb). rewrite (proj2 (Z.ltb_lt 0 _)) by done. cbn [andb].
  destruct (Z.ltb_spec (MaxFileSize cfg) (Z.of_nat (String.length data))) as [|Hfit]; [by eapply bounded_mono; [|done]; lia|].
  destruct (negb (io_space io)); [by eapply bounded_mono; [|done]; lia|].
  assert (Hw : bounded cfg old (steps + 1) (writeEncodedRequestLocked io data fs).2).
  { unfold writeEncodedRequestLocked.
    assert (He : bounded cfg old steps (ensureCurrentFileLocked io fs).2).
    { unfold ensureCurrentFileLocked, initBatchFile. destruct (fs_currentFile fs); [done|]. destruct (io_open io); [|done].
      apply bounded_open; [done|done|done|]. pose proof (bo_counter _ _ _ _ Hb). lia. }
    destruct (ensureCurrentFileLocked io fs) as [[e|] fs1]; cbn [snd] in *; [by eapply bounded_mono; [|done]; lia|]. clear Hb.
    assert (Hs : ∃ e fs2, rotateForSizeIfNeededLocked io (Z.of_nat (String.length data)) fs1 = (e, fs2) ∧ bounded cfg old (steps + 1) fs2 ∧
      (e = None → ∀ n, fs_currentFile fs2 = Some (OpenOn n) → n ∉ old →
         Z.of_nat (String.length (default "" (fs_dir fs2 !! n))) + Z.of_nat (String.length data) ≤ MaxFileSize cfg)).
    { unfold rotateForSizeIfNeededLocked. rewrite (bo_config _ _ _ _ He). rewrite (proj2 (Z.leb_gt _ _)) by lia.
      assert (He' : bounded cfg old (steps + 1) fs1) by (by eapply bounded_mono; [|done]; lia).
      destruct (fs_currentFile fs1) as [[n|n]|] eqn:Ec; [|by do 2 eexists..]. destruct (negb (io_stat io)); [by do 2 eexists|].
      destruct (Z.eqb_spec (Z.of_nat (String.length (default "" (fs_dir fs1 !! n)))) 0) as [E0|]; cbn [orb].
      { exists None, fs1. split_and!; [done|done|]. intros _ n' Hn' _. rewrite Ec in Hn'. injection Hn' as <-. lia. }
      destruct (Z.leb_spec (Z.of_nat (String.length (default "" (fs_dir fs1 !! n))) + Z.of_nat (String.length data)) (MaxFileSize cfg)).
      { exists None, fs1. split_and!; [done|done|]. intros _ n' Hn' _. rewrite Ec in Hn'. by injection Hn' as <-. }
      destruct (bounded_rotate cfg old io fs1 (io_reopen io) steps Hm Hd Hmax He) as [Hr1 Hr2].
      destruct (rotateFileLocked (io_reopen io) io fs1) as [e fs2]. exists e, fs2. split_and!; [done|done|]. intros -> n' Hn' Ho.
      destruct (Hr2 fs2 eq_refl) as (n2 & Hn2 & Hemp). rewrite Hn2 in Hn'. injection Hn' as <-. rewrite (Hemp Ho). cbn. lia. }
    destruct Hs as (e & fs2 & -> & Hb2 & Hroom). destruct e as [e|]; [done|].
    destruct (fs_currentFile fs2) as [[n|n]|] eqn:Ec; [|done..]. specialize (Hroom eq_refl n eq_refl). rewrite <- Ec.
    pose proof (bo_current _ _ _ _ Hb2 n Ec) as Hbn. destruct (io_write io) as [j|]; cbn [snd]; apply bounded_append; try done.
    intros Ho. specialize (Hroom Ho). rewrite str_length_take. lia. }
  destruct (writeEncodedRequestLocked io data fs) as [[b|e] fs1]; cbn [snd] in *; [|done].
  unfold signalRotationIfNeeded. destruct (_ && _); [|done]. destruct Hw as [? ? ? ?]. by split.
Qed.

Lemma bounded_step cfg old r r' steps : 0 < MaxFileSize cfg → steps < max_int64 → bounded cfg old steps (rn_fs r) → store_step Marshal dated r r' →
  bounded cfg old (steps + 1) (rn_fs r').
Proof using.
  intros Hm Hmax Hb Hstep. assert (Hb1 : bounded cfg old (steps + 1) (rn_fs r)) by (by eapply bounded_mono; [|done]; lia).
  destruct Hstep as [sr fs E|sr e fs E|io sr q fs Hio Hw Eq E|fs Hr Hrr E|io Hio Hrr| |Hc|Hc Eq|Hc Hrr|io Hio Hc Hw Hr He]; cbn.
  - unfold SaveRequest in E. destruct (negb _); [done|]. destruct (fs_closed _); [done|]. destruct (_ <? _)%nat; [|done]. injection E as <-.
    destruct Hb1 as [? ? ? ?]. by split.
  - unfold SaveRequest in E. destruct (negb _); [by injection E as _ <-|]. destruct (fs_closed _); [by injection E as _ <-|].
    destruct (_ <? _)%nat; [done|by injection E as _ <-].
  - unfold asyncWrite in E. rewrite Eq in E. injection E as <-.
    destruct (bounded_write cfg old io sr (with_queue q (fs_pendingWrites (rn_fs r)) (rn_fs r)) steps Hm Hio Hmax) as [? ? ? ?]; [|by split].
    destruct Hb as [? ? ? ?]. by split.
  - unfold takeSignals in E. destruct (_ <? _)%nat; [|done]. injection E as <-. destruct Hb1 as [? ? ? ?]. by split.
  - by apply bounded_rotate.
  - destruct Hb1 as [? ? ? ?]. by split.
  - done.
  - done.
  - done.
  - unfold closeFile. destruct Hb1 as [? ? ? ?]. destruct (fs_currentFile (rn_fs r)) as [[n|n]|] eqn:Ec; [destruct (io_close io)|..]; cbn; split; cbn; try done; intros ?; congruence.
Qed.

(** C38: a batch file that the storage creates never becomes larger than [MaxFileSize],
    whatever fails and whenever files are rotated; the files that are in the directory
    when the storage starts are left aside (one of an earlier run of the same day is
    opened again, and a record may be appended to it when it is full already). *)
Theorem files_bounded cfg dir0 io fs0 n r name content :
  0 < MaxFileSize cfg → dated io → NewFileStorage cfg dir0 io = (None, fs0) → nsteps (store_step Marshal dated) n (start_run fs0) r →
  Z.of_nat n < max_int64 → dir0 !! name = None → fs_dir (rn_fs r) !! name = Some content →
  Z.of_nat (String.length content) ≤ MaxFileSize cfg.
Proof using.
  intros Hm Hd E Hn Hmax Hnew Hc.
  assert (H0 : bounded cfg (dom dir0) 0 fs0).
  { unfold NewFileStorage in E.
    assert (Hb : bounded cfg (dom dir0) 0 {| fs_config := cfg; fs_dir := dir0; fs_currentFile := None; fs_fileCounter := 0; fs_requestCount := 0; fs_requestCh := [];
      fs_pendingWrites := 0; fs_rotationSignal := 0; fs_closed := false |}).
    { split; cbn; [done| |done|lia]. intros n' c Ho H. apply elem_of_dom_2 in H. done. }
    destruct (Enabled cfg); [|by injection E as <-]. unfold initBatchFile in E. destruct (io_open io); [|done]. injection E as <-.
    apply (bounded_open cfg (dom dir0) io _ 0 0 0 Hm Hd Hb). cbn. lia. }
  assert (H : ∀ k r0, bounded cfg (dom dir0) k (rn_fs r0) → nsteps (store_step Marshal dated) n r0 r → k + Z.of_nat n < max_int64 →
    bounded cfg (dom dir0) (k + Z.of_nat n) (rn_fs r)).
  { clear -Hm. intros k r0 Hb Hn. revert k Hb. induction Hn as [r0|n r0 r1 r2 Hs _ IH]; intros k Hb Hlt; [by rewrite Z.add_0_r|].
    replace (k + Z.of_nat (S n)) with (k + 1 + Z.of_nat n) by lia. apply IH; [|lia]. eapply bounded_step; [done| |done|done]. lia. }
  apply (bo_files _ _ _ _ (H 0 (start_run fs0) H0 Hn ltac:(lia)) name); [by apply not_elem_of_dom|exact Hc].
Qed.
(** ** A rotation that fails once *)

Lemma write_stuck io sr n fs : fs_currentFile fs = Some (ClosedOn n) →
  let out := writeRequest Marshal io sr fs in
  fs_currentFile out.2 = Some (ClosedOn n) ∧ fs_dir out.2 = fs_dir fs ∧ (fits (fs_config fs) sr = true → is_Some out.1).
Proof using.
  intros Hc. cbv zeta. unfold writeRequest, fits, isOversizedRecord. destruct (encodeStoredRequestLine sr) as [data|]; [|done].
  destruct (_ && _); [done|]. destruct (negb (io_space io)); [by split_and!|].
  unfold writeEncodedRequestLocked, ensureCurrentFileLocked. rewrite Hc. unfold rotateForSizeIfNeededLocked. rewrite Hc.
  destruct (_ <=? 0); [rewrite Hc|]; by split_and!.
Qed.

Lemma rotate_stuck opens io n fs : fs_currentFile fs = Some (ClosedOn n) → rotateFileLocked opens io fs = (Some CloseFailed, fs).
Proof using. intros Hc. unfold rotateFileLocked. by rewrite Hc. Qed.

(** C36: A rotation that closes the old file and cannot open the new one stops the storage
    for good: the closed file stays the current one, every later write and every later
    rotation fails, whatever the file system answers then; nothing is written any more
    - while requests are still accepted as before. *)
Theorem rotation_failure_permanent io fs fs1 n r r' :
  rotateFileLocked false io fs = (Some OpenFailed, fs1) → fs_currentFile fs = Some (OpenOn n) →
  rn_fs r = fs1 → rtc (store_step Marshal (λ _, True)) r r' →
  fs_currentFile (rn_fs r') = Some (ClosedOn n) ∧ fs_dir (rn_fs r') = fs_dir fs ∧
  (∀ io' sr, fits (fs_config (rn_fs r')) sr = true → is_Some (writeRequest Marshal io' sr (rn_fs r')).1) ∧
  (∀ sr, Enabled (fs_config (rn_fs r')) = true → fs_closed (rn_fs r') = false → (length (fs_requestCh (rn_fs r')) < requestChSize)%nat →
     (SaveRequest sr (rn_fs r')).1 = None).
Proof using.
  intros E Hn Hr Hsteps.
  assert (H1 : fs_currentFile (rn_fs r) = Some (ClosedOn n) ∧ fs_dir (rn_fs r) = fs_dir fs).
  { unfold rotateFileLocked in E. rewrite Hn in E. destruct (io_close io); [|done]. injection E as <-. by rewrite Hr. }
  clear E Hn Hr. assert (H2 : fs_currentFile (rn_fs r') = Some (ClosedOn n) ∧ fs_dir (rn_fs r') = fs_dir fs).
  { induction Hsteps as [r|r r1 r2 Hstep _ IH]; [done|]. apply IH. clear IH r2. destruct H1 as [Hc Hd].
    destruct Hstep as [sr fs' E|sr e fs' E|io' sr q fs' Hio Hw Eq E|fs' Hr Hrr E|io' Hio Hrr| |Hc'|Hc' Eq|Hc' Hrr|io' Hio Hc' Hw Hr He]; cbn; try done.
    - unfold SaveRequest in E. destruct (negb _); [done|]. destruct (fs_closed _); [done|]. destruct (_ <? _)%nat; [|done]. by injection E as <-.
    - unfold SaveRequest in E. destruct (negb _); [by injection E as _ <-|]. destruct (fs_closed _); [by injection E as _ <-|].
      destruct (_ <? _)%nat; [done|by injection E as _ <-].
    - unfold asyncWrite in E. rewrite Eq in E. injection E as <-. cbn.
      destruct (write_stuck io' sr n (with_queue q (fs_pendingWrites (rn_fs r)) (rn_fs r)) Hc) as (? & E2 & _). split; [done|]. by rewrite E2.
    - unfold takeSignals in E. destruct (_ <? _)%nat; [|done]. by injection E as <-.
    - unfold rotateFile. by rewrite (rotate_stuck _ _ n).
    - unfold closeFile. by rewrite Hc. }
  destruct H2 as [Hc Hd]. split_and!; [done|done| |].
  - intros io' sr. by apply (write_stuck io' sr n).
  - intros sr Hen Hcl Hlen. unfold SaveRequest. rewrite Hen, Hcl. cbn [negb]. by rewrite (proj2 (Nat.ltb_lt _ _) Hlen).
Qed.

(** ** The day of a file and the day of a request *)

Lemma dashedDate_length d d' : dashedDate d = Some d' → String.length d' = 10%nat.
Proof using.
  unfold dashedDate. destruct (Nat.eqb_spec (String.length d) 8) as [E|]; [|done]. cbn [negb]. cbv zeta.
  repeat (destruct (parse_uint 10 _); cbn [mbind option_bind]; try done). destruct (_ && _); [|done]. intros <-%(inj Some).
  rewrite !str_length_app, !str_length_take, !str_length_drop, E. done.
Qed.

Lemma idDate_length id d : idDate id = Some d → String.length d = 10%nat.
Proof using.
  unfold idDate. destruct (split_byte id "-") as [|a [|b [|c l]]]; try done. apply dashedDate_length.
Qed.

Lemma other_day d k d' suffix : String.length d = 10%nat → String.length d' = 10%nat → d ≠ d' → has_prefix (batchName d k) (d' +:+ "_" +:+ suffix) = false.
Proof using.
  intros Hd Hd' Hne. apply not_true_is_false. intros [r E]%has_prefix_spec. apply Hne. unfold batchName in E.
  apply (f_equal (str_take 10)) in E. rewrite <- Hd in E at 1. rewrite str_take_app in E. rewrite str_app_assoc in E. rewrite <- Hd' in E. by rewrite str_take_app in E.
Qed.

Lemma write_empty io sr fs n data : works io → fs_currentFile fs = Some (OpenOn n) → default "" (fs_dir fs !! n) = "" →
  encodeStoredRequestLine sr = Some data → fits (fs_config fs) sr = true → let fs' := (writeRequest Marshal io sr fs).2 in
  fs_dir fs' = appendFile n data (fs_dir fs) ∧ fs_config fs' = fs_config fs ∧ fs_closed fs' = fs_closed fs.
Proof using.
  intros (Ho & Hr & Hc & Hst & Hsp & Hwr) Hcur Hemp Hd Hfit. cbv zeta. unfold writeRequest, fits, isOversizedRecord in *. rewrite Hd in Hfit. rewrite Hd.
  apply negb_true_iff in Hfit. rewrite Hfit, Hsp. cbn [negb]. unfold writeEncodedRequestLocked, ensureCurrentFileLocked. rewrite Hcur.
  assert (E : rotateForSizeIfNeededLocked io (Z.of_nat (String.length data)) fs = (None, fs)).
  { unfold rotateForSizeIfNeededLocked. destruct (_ <=? 0); [done|]. rewrite Hcur, Hst, Hemp. done. }
  rewrite E, Hcur, Hwr. unfold signalRotationIfNeeded. by destruct (_ && (_ <? _)%nat).
Qed.

(** A request is only found by its ID in a file of the day that is in the ID, while a
    file keeps the day on which it was opened: a request that comes after midnight, with
    no rotation since, is stored and listed, but [GetRequest] does not find it. *)
Theorem not_found_after_midnight cfg io io' fs0 fs1 fs2 sr d :
  Enabled cfg = true → works io → works io' → dated io → NewFileStorage cfg ∅ io = (None, fs0) → fits cfg sr = true →
  idDate (sr_ID sr) = Some d → d ≠ io_date io →
  SaveRequest sr fs0 = (None, fs1) → asyncWrite Marshal io' fs1 = Some fs2 →
  stored (fs_dir fs2) ≡ₚ [coerced sr] ∧ GetRequest Unmarshal (sr_ID sr) fs2 = Err ErrRequestNotFound.
Proof using HJ.
  intros Hen (Ho & _) Hio' Hd E0 Hfit Hid Hne E1 E2.
  unfold NewFileStorage in E0. rewrite Hen in E0. unfold initBatchFile in E0. rewrite Ho in E0. injection E0 as <-.
  unfold SaveRequest in E1. cbn [with_file fs_config fs_closed fs_requestCh] in E1. rewrite Hen in E1. cbn in E1. injection E1 as <-.
  set (name := batchName (io_date io) 0) in *. unfold asyncWrite in E2. cbn [with_queue with_file fs_requestCh app] in E2.
  destruct (encodes_line sr) as [data Hdata].
  assert (Hemp : default "" (openFile name ∅ !! name) = "") by (unfold openFile; rewrite lookup_insert_eq, lookup_empty; done).
  set (fs3 := with_queue [] _ _) in E2.
  destruct (write_empty io' sr fs3 name data) as (Hdir & Hcfg & Hcl); [done|done|exact Hemp|done|exact Hfit|].
  set (fs4 := (writeRequest Marshal io' sr fs3).2) in *. clearbody fs4. injection E2 as <-.
  change (fs_dir fs3) with (openFile name ∅) in Hdir. change (fs_config fs3) with cfg in Hcfg. change (fs_closed fs3) with false in Hcl.
  cbn [with_queue fs_dir]. rewrite Hdir. split.
  - rewrite stored_append; [|apply batchName_jsonl|rewrite Hemp; constructor|done]. rewrite stored_open by apply batchName_jsonl. done.
  - unfold GetRequest, opened. cbn [with_queue fs_config fs_closed fs_dir]. rewrite Hcfg, Hen, Hcl. cbn [negb]. rewrite Hid, Hdir.
    assert (Hglob : ∀ p, p name = false → glob p (appendFile name data (openFile name ∅)) = []).
    { intros p Hp. unfold appendFile, openFile. rewrite insert_insert_eq. unfold glob.
      rewrite insert_empty, map_to_list_singleton. cbn [map fst]. by rewrite filter_cons_False by (by rewrite Hp). }
    pose proof (idDate_length _ _ Hid) as Hdl. rewrite !Hglob; [done| |].
    + unfold name. change (d +:+ "_batch_") with (d +:+ "_" +:+ "batch_"). by rewrite other_day.
    + unfold name. replace (d +:+ "_") with (d +:+ "_" +:+ "") by done. by rewrite other_day.
Qed.
End Rest.

(** ** Pages *)

Section Pages.
Context (Unmarshal : string → option StoredRequest) (sortNewest : list StoredRequest → list StoredRequest).

Definition paged (offset limit : Z) (f : RequestFilter) : RequestFilter :=
  {| rf_Start := rf_Start f; rf_End := rf_End f; rf_Method := rf_Method f; rf_ClientIP := rf_ClientIP f; rf_Limit := limit; rf_Offset := offset |}.

Definition listed (f : RequestFilter) (fs : FileStorage) : list StoredRequest :=
  sortNewest (List.filter (λ sr, matchesFilter sr f) (stored Unmarshal (fs_dir fs))).

Lemma list_page f fs offset limit : opened fs = None → 0 ≤ offset → 0 < limit →
  ListRequests Unmarshal sortNewest (paged offset limit f) fs = Ok (take (Z.to_nat limit) (drop (Z.to_nat offset) (listed f fs))).
Proof using.
  intros Hop Ho Hl. unfold ListRequests. rewrite Hop. cbn [paged rf_Offset rf_Limit].
  change (sortNewest (List.filter (λ sr, matchesFilter sr (paged offset limit f)) (stored Unmarshal (fs_dir fs)))) with (listed f fs).
  set (l := listed f fs). rewrite (proj2 (Z.ltb_lt 0 limit)) by done. cbn [andb]. f_equal.
  assert (E : (if (0 <? offset) && (offset <? Z.of_nat (length l)) then drop (Z.to_nat offset) l else if Z.of_nat (length l) <=? offset then [] else l) = drop (Z.to_nat offset) l).
  { destruct (Z.ltb_spec 0 offset); cbn [andb].
    - destruct (Z.ltb_spec offset (Z.of_nat (length l))); [done|]. rewrite (proj2 (Z.leb_le _ _)) by lia. rewrite drop_ge by lia. done.
    - replace offset with 0 by lia. destruct (Z.leb_spec (Z.of_nat (length l)) 0); [|done]. by destruct l; cbn in *; [|lia]. }
  rewrite E. destruct (Z.ltb_spec limit (Z.of_nat (length (drop (Z.to_nat offset) l)))); [done|]. rewrite take_ge by lia. done.
Qed.

(** Pages of any size partition the list: the pages one after the other are all
    requests that the filter selects, newest first, each once. *)
Theorem pages_partition f fs limit n : opened fs = None → 0 < limit → Z.of_nat (length (listed f fs)) ≤ Z.of_nat n * limit →
  ∃ pages, Forall2 (λ k page, ListRequests Unmarshal sortNewest (paged (Z.of_nat k * limit) limit f) fs = Ok page) (seq 0 n) pages ∧
    concat pages = listed f fs.
Proof using.
  intros Hop Hl Hn. exists (map (λ k, take (Z.to_nat limit) (drop (Z.to_nat (Z.of_nat k * limit)) (listed f fs))) (seq 0 n)). split.
  - rewrite Forall2_fmap_r. apply Forall_Forall2_diag. apply Forall_forall. intros k _. apply list_page; [done|lia|done].
  - generalize (listed f fs) Hn. intros l Hn'. clear Hn.
    assert (H : ∀ m j, Z.of_nat (length l) ≤ Z.of_nat (j + m) * limit →
      concat (map (λ k, take (Z.to_nat limit) (drop (Z.to_nat (Z.of_nat k * limit)) l)) (seq j m)) = drop (Z.to_nat (Z.of_nat j * limit)) l).
    { induction m as [|m IH]; intros j Hj; cbn [seq map concat].
      - rewrite drop_ge; [done|]. rewrite Nat.add_0_r in Hj. lia.
      - rewrite IH by (by rewrite Nat.add_succ_l, <- Nat.add_succ_r).
        replace (Z.to_nat (Z.of_nat (S j) * limit)) with (Z.to_nat (Z.of_nat j * limit) + Z.to_nat limit)%nat by lia.
        rewrite <- drop_drop. apply take_drop. }
    rewrite H; [|done]. by rewrite Z.mul_0_l, drop_0.
Qed.
End Pages.

(** ** At concrete inputs: a coding that keeps the ID of a record, bit by bit *)

Definition bit_byte (b : bool) : ascii := if b then "t"%char else "f"%char.

Fixpoint bits_of_id (s : string) : string :=
  match s with
  | String (Ascii.Ascii a b c d e f g h) s =>
      String (bit_byte a) (String (bit_byte b) (String (bit_byte c) (String (bit_byte d)
        (String (bit_byte e) (String (bit_byte f) (String (bit_byte g) (String (bit_byte h) (bits_of_id s))))))))
  | "" => "}"
  end.

Fixpoint id_of_bits (s : string) : string :=
  match s with
  | String a (String b (String c (String d (String e (String f (String g (String h s))))))) =>
      let t x := Ascii.eqb x "t" in String (Ascii.Ascii (t a) (t b) (t c) (t d) (t e) (t f) (t g) (t h)) (id_of_bits s)
  | _ => ""
  end.

Definition only_id (id : string) : StoredRequest :=
  {| sr_ID := id; sr_Timestamp := 0; sr_Method := ""; sr_URI := ""; sr_Headers := NewHeader; sr_HTTPRequest := None; sr_HTTPResponse := None;
     sr_ClientIP := ""; sr_RemoteAddr := ""; sr_ProcessingTimeMs := 0; sr_ResponseStatus := 0 |}.

Definition toy_marshal (sr : StoredRequest) : option string := Some (String "{" (bits_of_id (sr_ID sr))).
Definition toy_unmarshal (s : string) : option StoredRequest :=
  match s with String c s => if Ascii.eqb c "{" then Some (only_id (id_of_bits s)) else None | "" => None end.
Definition toy_coerced (sr : StoredRequest) : StoredRequest := only_id (sr_ID sr).

Lemma id_of_bits_of_id s : id_of_bits (bits_of_id s) = s.
Proof. induction s as [|[a b c d e f g h] s IH]; [done|]. cbn. rewrite IH. by destruct a, b, c, d, e, f, g, h. Qed.

Lemma bits_forall (p : ascii → bool) s : p "t"%char = true → p "f"%char = true → p "}"%char = true → str_forall p (bits_of_id s) = true.
Proof.
  intros Ht Hf He. induction s as [|[a b c d e f g h] s IH]; [cbn; by rewrite He|].
  assert (Hb : ∀ x, p (bit_byte x) = true) by (intros []; done). cbn. rewrite !Hb. exact IH.
Qed.

#[export] Instance toy_json : Json toy_marshal toy_unmarshal toy_coerced.
Proof.
  split; unfold toy_marshal.
  - by eexists.
  - intros sr b [= <-]. split_and!; [|apply trim_space_id|done].
    + apply (str_forall_not_in (λ c, negb (Ascii.eqb c LF))); [|done]. apply (bits_forall _ (sr_ID sr)); done.
    + apply (bits_forall _ (sr_ID sr)); done.
  - intros sr b [= <-]. cbn. by rewrite id_of_bits_of_id.
  - intros [|c s] sr; [done|]. cbn. destruct (Ascii.eqb c "{"); [|done]. by intros [= <-].
Qed.

Definition toy_config : StorageConfig := {| Enabled := true; MaxFileSize := 300; RotateAfter := 1 |}.
Definition toy_day : string := "2026-01-02".
Definition toy_first : StoredRequest := only_id "req-20260102-1".
Definition toy_late : StoredRequest := only_id "req-20260103-2".

Definition toy_start : FileStorage := (NewFileStorage toy_config ∅ (fine toy_day)).2.
Definition toy_saved : FileStorage := (SaveRequest toy_first toy_start).2.
Definition toy_written : FileStorage := default toy_saved (asyncWrite toy_marshal (fine toy_day) toy_saved).

Lemma toy_storage_run good : good (fine toy_day) → ∃ r, nsteps (store_step toy_marshal good) 2 (start_run toy_start) r ∧ rn_fs r = toy_written ∧
  rn_accepted r = [toy_first] ∧ rn_taken r = [toy_first].
Proof.
  intros Hg. eexists. split; [|split; [|split]].
  - eapply nsteps_l; [apply (step_accepts _ _ _ toy_first toy_saved); reflexivity|]. eapply nsteps_l; [|constructor].
    apply (step_writes _ _ _ (fine toy_day) toy_first [] toy_written); [done|reflexivity|reflexivity|reflexivity].
  - reflexivity.
  - reflexivity.
  - reflexivity.
Qed.

Lemma requests_stored_witness : ∃ r, rtc (store_step toy_marshal works) (start_run toy_start) r ∧ rn_taken r = [toy_first] ∧
  stored toy_unmarshal (fs_dir (rn_fs r)) ≡ₚ [toy_first].
Proof.
  destruct (toy_storage_run works (fine_works _)) as (r & Hn & Hfs & Ha & Ht). exists r.
  assert (Hr : rtc (store_step toy_marshal works) (start_run toy_start) r) by (eapply rtc_nsteps_2; exact Hn).
  split; [exact Hr|]. split; [exact Ht|].
  destruct (requests_stored (Marshal := toy_marshal) (Unmarshal := toy_unmarshal) (coerced := toy_coerced)
    works (λ io H, or_introl (proj2 (proj2 (proj2 (proj2 (proj2 H)))))) toy_config ∅ (fine toy_day) toy_start r) as (_ & H & Hf & _);
    [reflexivity|intros n c _; rewrite lookup_empty; discriminate|exact (fine_works _)|reflexivity|exact Hr|].
  rewrite (Hf (λ io H, H)), Ht, app_nil_r in H. exact H.
Defined.

Lemma delete_exact_witness :
  ∃ fs', DeleteRequests toy_marshal toy_unmarshal (fine toy_day)
           {| rf_Start := None; rf_End := None; rf_Method := ""; rf_ClientIP := ""; rf_Limit := 0; rf_Offset := 0 |} toy_written = Some (None, 1, fs') ∧
    stored toy_unmarshal (fs_dir fs') ≡ₚ [].
Proof.
  set (f := {| rf_Start := None; rf_End := None; rf_Method := ""; rf_ClientIP := ""; rf_Limit := 0; rf_Offset := 0 |}).
  pose proof (delete_exact (Marshal := toy_marshal) (Unmarshal := toy_unmarshal) (coerced := toy_coerced) f (fine toy_day) toy_written) as H.
  destruct (DeleteRequests toy_marshal toy_unmarshal (fine toy_day) f toy_written) as [[[err n] fs']|] eqn:E; [|exfalso; vm_compute in E; discriminate].
  destruct H as (-> & -> & H); [split; reflexivity|reflexivity|]. exists fs'. split; [|exact H].
  vm_compute. reflexivity.
Defined.

(** In a directory with a large file of another day. *)
Lemma files_bounded_witness :
  let dir0 := <[batchName "2026-01-01" 0 := string_of (repeat LF 400)]> ∅ in
  let fs0 := (NewFileStorage toy_config dir0 (fine toy_day)).2 in
  ∃ r, nsteps (store_step toy_marshal dated) 2 (start_run fs0) r ∧ rn_taken r = [toy_first] ∧
  Z.of_nat (String.length (default "" (fs_dir (rn_fs r) !! batchName toy_day 0))) ≤ 300.
Proof.
  intros dir0 fs0. set (fs1 := (SaveRequest toy_first fs0).2). set (fs2 := default fs1 (asyncWrite toy_marshal (fine toy_day) fs1)).
  assert (Hr : ∃ r, nsteps (store_step toy_marshal dated) 2 (start_run fs0) r ∧ rn_taken r = [toy_first] ∧ rn_fs r = fs2).
  { eexists. split; [|split].
    - eapply nsteps_l; [apply (step_accepts _ _ _ toy_first fs1); reflexivity|]. eapply nsteps_l; [|constructor].
      apply (step_writes _ _ _ (fine toy_day) toy_first [] fs2); [reflexivity|reflexivity|reflexivity|vm_compute; reflexivity].
    - reflexivity.
    - reflexivity. }
  destruct Hr as (r & Hn & Ht & Hfs). exists r. split; [exact Hn|]. split; [exact Ht|].
  destruct (fs_dir (rn_fs r) !! batchName toy_day 0) as [content|] eqn:Hc; [|rewrite Hfs in Hc; vm_compute in Hc; discriminate Hc].
  refine (files_bounded (Marshal := toy_marshal) toy_config dir0 (fine toy_day) fs0 2 r (batchName toy_day 0) content _ _ _ Hn _ _ Hc);
    [reflexivity|reflexivity|reflexivity|reflexivity|vm_compute; reflexivity].
Defined.

Definition unopenable : IO :=
  {| io_date := toy_day; io_open := false; io_reopen := false; io_close := true; io_stat := true; io_rewrite := true; io_remove := true;
     io_space := true; io_write := None |}.

Lemma rotation_failure_permanent_witness :
  let broken := (rotateFileLocked false unopenable toy_written).2 in
  is_Some (writeRequest toy_marshal (fine toy_day) toy_first broken).1 ∧ (SaveRequest toy_first broken).1 = None.
Proof.
  cbv zeta. set (broken := (rotateFileLocked false unopenable toy_written).2).
  destruct (rotation_failure_permanent (Marshal := toy_marshal) unopenable toy_written broken (batchName toy_day 0) (start_run broken) (start_run broken))
    as (_ & _ & Hw & Hs); [reflexivity|reflexivity|reflexivity|constructor|].
  split; [apply (Hw (fine toy_day) toy_first); reflexivity|apply (Hs toy_first); [reflexivity|reflexivity|apply Nat.ltb_lt; reflexivity]].
Defined.

Lemma not_found_after_midnight_witness : ∃ fs1 fs2,
  SaveRequest toy_late toy_start = (None, fs1) ∧ asyncWrite toy_marshal (fine "2026-01-03") fs1 = Some fs2 ∧
  stored toy_unmarshal (fs_dir fs2) ≡ₚ [toy_late] ∧ GetRequest toy_unmarshal "req-20260103-2" fs2 = Err ErrRequestNotFound.
Proof.
  set (fs1 := (SaveRequest toy_late toy_start).2). set (fs2 := default fs1 (asyncWrite toy_marshal (fine "2026-01-03") fs1)).
  exists fs1, fs2. split; [reflexivity|]. split; [reflexivity|].
  exact (not_found_after_midnight (Marshal := toy_marshal) (Unmarshal := toy_unmarshal) (coerced := toy_coerced)
    toy_config (fine toy_day) (fine "2026-01-03") toy_start fs1 fs2 toy_late "2026-01-03" eq_refl (fine_works _) (fine_works _) eq_refl eq_refl eq_refl eq_refl
    ltac:(discriminate) eq_refl eq_refl).
Defined.

Lemma pages_partition_witness : ∃ pages,
  Forall2 (λ k page, ListRequests toy_unmarshal id (paged (Z.of_nat k * 2) 2
    {| rf_Start := None; rf_End := None; rf_Method := ""; rf_ClientIP := ""; rf_Limit := 0; rf_Offset := 0 |}) toy_written = Ok page) (seq 0 1) pages.
Proof.
  destruct (pages_partition toy_unmarshal id {| rf_Start := None; rf_End := None; rf_Method := ""; rf_ClientIP := ""; rf_Limit := 0; rf_Offset := 0 |}
    toy_written 2 1) as (pages & H & _); [reflexivity|lia|vm_compute; discriminate|]. exists pages. exact H.
Defined.

(** ** After a restart

    The counter starts at 0 again, so the files of an earlier run of the same day are
    opened again: [rotateForSizeIfNeededLocked] looks only at the size of the file it
    leaves, and a record goes into a file that is full already. *)

Definition tight_config : StorageConfig := {| Enabled := true; MaxFileSize := 120; RotateAfter := 0 |}.
Definition toy_line : string := default "" (encodeStoredRequestLine toy_marshal toy_first).
Definition earlier_run : gmap string string := <[batchName toy_day 1 := toy_line]> (<[batchName toy_day 0 := toy_line]> ∅).

Example restart_overfills :
  let fs0 := (NewFileStorage tight_config earlier_run (fine toy_day)).2 in
  let fs1 := (writeRequest toy_marshal (fine toy_day) toy_first fs0).2 in
  MaxFileSize tight_config < Z.of_nat (String.length (default "" (fs_dir fs1 !! batchName toy_day 1))) ∧
  map_Forall (λ _ c, Z.of_nat (String.length c) ≤ MaxFileSize tight_config) earlier_run.
Proof. split; [vm_compute; reflexivity|]. unfold earlier_run. apply (bool_decide_unpack _). vm_compute. exact I. Qed.
