(* ===== verification/Snapshot.v ===== *)
(** * Recording a request: the conversion in [internal/storage/storage.go]

    A handled request becomes a record: its heads are copied, its bodies are taken from
    the messages. A message whose preview left a reader behind is recorded by the preview
    alone, so that recording never asks the client for the rest of a body; any other body
    is loaded within the limit. Loading may read the connection, so the wire is threaded
    as in [Lifecycle]. The clock is outside: the time of the record and the text of its
    date are arguments, the number of the record is the state of the sequence. *)
From S2P Require Import Prelude GoInt GoStrings Header Chunked Protocol Message Connection Lifecycle LifecycleSpec.
From S2P Require Import RequestStore RequestStoreSpec.

Local Open Scope Z_scope.

Definition bodyOmittedTooLarge : string := "body_size_limit_exceeded".
Definition bodyOmittedReadError : string := "body_read_error".
Definition bodyOmittedPreview : string := "preview_remainder_not_materialized".
Definition unlimitedBodyLimit : Z := -1.

(** ** Numbers of records *)

(** [requestIDSequence] before and after; [stamp] is the formatted time. *)
Definition GenerateRequestID (stamp : string) (requestIDSequence : Z) : string * Z :=
  let seq := (requestIDSequence + 1) mod 2 ^ 64 in ("req-" +:+ stamp +:+ "-" +:+ format_padded 6 seq, seq).

(** ** Bodies *)

Definition with_record_body (body reason : string) (truncated : bool) (limit : Z) (record : HTTPMessageRecord) : HTTPMessageRecord :=
  {| hr_Method := hr_Method record; hr_URI := hr_URI record; hr_Status := hr_Status record; hr_StatusText := hr_StatusText record;
     hr_Proto := hr_Proto record; hr_Headers := hr_Headers record;
     hr_Body := body; hr_BodyOmittedReason := reason; hr_BodyTruncated := truncated; hr_BodyLimit := limit |}.

Definition markBodyOmitted (record : HTTPMessageRecord) (err : BodyError) (maxBodySize : Z) : HTTPMessageRecord :=
  let limit := if 0 <? maxBodySize then maxBodySize else hr_BodyLimit record in
  match err with
  | ErrBodyTooLarge _ => with_record_body (hr_Body record) bodyOmittedTooLarge true limit record
  | _ => with_record_body (hr_Body record) bodyOmittedReadError (hr_BodyTruncated record) limit record
  end.

(** [HTTPMessage.PreviewBodySnapshot]: only of the reader itself, not of one that the
    bytes of a preview were put back in front of. *)
Definition messagePreviewSnapshot (m : BodyState BodyRd) : option (list ascii) :=
  match BodyReader m with
  | Some {| segments := []; tail_reader := reader |} => PreviewBodySnapshot reader
  | _ => None
  end.

Section Snapshot.
Context (cfg : ServerConfig) (size : nat) (grow : nat → nat → nat) (fuel : nat) (sizes : nat → nat).
#[local] Existing Instance Wired_Reader.
#[local] Instance Wired : Reader (BodyRd * Wire) := Wired_Reader cfg size.

Definition getHTTPBodyForStorage (maxBodySize hint : Z) (m : BodyState BodyRd) (w : Wire) : body_result * BodyState BodyRd * Wire :=
  let '(res, m') := GetBodyLimited grow fuel sizes (if maxBodySize <=? 0 then unlimitedBodyLimit else maxBodySize) hint (attach w m) in
  (res, detach m', wire_of w m').

Definition copyHTTPBody (record : HTTPMessageRecord) (maxBodySize hint : Z) (m : BodyState BodyRd) (w : Wire)
  : HTTPMessageRecord * BodyState BodyRd * Wire :=
  match messagePreviewSnapshot m with
  | Some preview => (with_record_body (string_of preview) bodyOmittedPreview true (hr_BodyLimit record) record, m, w)
  | None =>
      match getHTTPBodyForStorage maxBodySize hint m w with
      | (Err e, m, w) => (markBodyOmitted record e maxBodySize, m, w)
      | (Ok body, m, w) =>
          (match bytes_or_nil body with
           | [] => record
           | bs => with_record_body (string_of bs) (hr_BodyOmittedReason record) (hr_BodyTruncated record) (hr_BodyLimit record) record
           end, m, w)
      end
  end.

(** ** Messages and requests *)

Definition requestRecord (h : HTTPMessage) : HTTPMessageRecord :=
  {| hr_Method := m_Method h; hr_URI := m_URI h; hr_Status := ""; hr_StatusText := ""; hr_Proto := m_Proto h; hr_Headers := m_Header h;
     hr_Body := ""; hr_BodyOmittedReason := ""; hr_BodyTruncated := false; hr_BodyLimit := 0 |}.

Definition responseRecord (h : HTTPMessage) : HTTPMessageRecord :=
  {| hr_Method := ""; hr_URI := ""; hr_Status := m_Status h; hr_StatusText := m_StatusText h; hr_Proto := m_Proto h; hr_Headers := m_Header h;
     hr_Body := ""; hr_BodyOmittedReason := ""; hr_BodyTruncated := false; hr_BodyLimit := 0 |}.

(** [fromHTTPRequest] and [fromHTTPResponse], of a message that may be absent. *)
Definition fromHTTP (start : HTTPMessage → HTTPMessageRecord) (h : option HTTPMessage) (m : option (BodyState BodyRd)) (maxBodySize : Z) (w : Wire)
  : option HTTPMessageRecord * option (BodyState BodyRd) * Wire :=
  match h, m with
  | Some h, Some m => let '(record, m, w) := copyHTTPBody (start h) maxBodySize (contentLengthHint (Some h)) m w in (Some record, Some m, w)
  | _, m => (None, m, w)
  end.

(** What the record takes from outside the request: the clock, and where it came from. *)
Record Circumstances := { at_time : Z; at_stamp : string; from_ClientIP : string; from_RemoteAddr : string }.

Definition FromICAPRequestWithBodyLimit (at_ : Circumstances) (r : LRequest) (responseStatus processingTime maxBodySize requestIDSequence : Z) (w : Wire)
  : StoredRequest * Z * LRequest * Wire :=
  let '(id, seq) := GenerateRequestID (at_stamp at_) requestIDSequence in
  let '(req, m1, w) := fromHTTP requestRecord (HTTPRequest (l_head r)) (l_request r) maxBodySize w in
  let '(resp, m2, w) := fromHTTP responseRecord (HTTPResponse (l_head r)) (l_response r) maxBodySize w in
  ({| sr_ID := id; sr_Timestamp := at_time at_; sr_Method := r_Method (l_head r); sr_URI := r_URI (l_head r); sr_Headers := r_Header (l_head r);
      sr_HTTPRequest := req; sr_HTTPResponse := resp; sr_ClientIP := from_ClientIP at_; sr_RemoteAddr := from_RemoteAddr at_;
      sr_ProcessingTimeMs := Z.quot processingTime 1000000; sr_ResponseStatus := responseStatus |},
   seq, with_response m2 (with_request m1 r), w).

Definition FromICAPRequest (at_ : Circumstances) (r : LRequest) (responseStatus processingTime requestIDSequence : Z) (w : Wire)
  : StoredRequest * Z * LRequest * Wire :=
  FromICAPRequestWithBodyLimit at_ r responseStatus processingTime 0 requestIDSequence w.

(** ** What is recorded *)

(** A message as the server leaves it for a handler: received, or with the reader of a
    preview. *)
Definition settled_body (m : BodyState BodyRd) : Prop := BodyReader m = None ∨ is_Some (messagePreviewSnapshot m).

Definition settled (r : LRequest) : Prop :=
  (∀ m, l_request r = Some m → settled_body m) ∧ (∀ m, l_response r = Some m → settled_body m).

(** The body, why it is not there, whether something is missing, and the limit. *)
Definition recorded (maxBodySize : Z) (m : BodyState BodyRd) : string * string * bool * Z :=
  match messagePreviewSnapshot m with
  | Some preview => (string_of preview, bodyOmittedPreview, true, 0)
  | None =>
      match bodyErr m with
      | Some (ErrBodyTooLarge _) => ("", bodyOmittedTooLarge, true, Z.max 0 maxBodySize)
      | Some _ => ("", bodyOmittedReadError, false, Z.max 0 maxBodySize)
      | None =>
          let body := bytes_or_nil (Body m) in
          if bool_decide (0 < maxBodySize < Z.of_nat (length body)) then ("", bodyOmittedTooLarge, true, maxBodySize)
          else (string_of body, "", false, 0)
      end
  end.

Definition body_fields (h : HTTPMessageRecord) : string * string * bool * Z :=
  (hr_Body h, hr_BodyOmittedReason h, hr_BodyTruncated h, hr_BodyLimit h).

(** The same message; only that its body was asked for may show. *)
Definition same_body (m m' : BodyState BodyRd) : Prop :=
  BodyReader m' = BodyReader m ∧ Body m' = Body m ∧ bodyLoaded m' = bodyLoaded m ∧ bodyErr m' = bodyErr m.

Definition same_request (r r' : LRequest) : Prop :=
  l_head r' = l_head r ∧ l_raw r' = l_raw r ∧ option_Forall2 same_body (l_request r) (l_request r') ∧ option_Forall2 same_body (l_response r) (l_response r').

Lemma same_body_refl m : same_body m m.
Proof using. done. Qed.

Lemma load_without_reader maxBytes hint m w : BodyReader m = None →
  ∃ m', (lazyLoadBodyLimitedWithCapacity grow fuel sizes maxBytes hint (attach w m)) =
    (match bodyErr m with
     | Some e => Err e
     | None => if (0 <=? maxBytes) && (maxBytes <? Z.of_nat (length (bytes_or_nil (Body m)))) then Err (ErrBodyTooLarge maxBytes) else Ok (Body m)
     end, m') ∧ same_body m (detach m') ∧ wire_of w m' = w.
Proof using.
  intros Hr. unfold lazyLoadBodyLimitedWithCapacity, loadOnce. destruct m as [reader body loaded err once]. cbn in Hr. subst reader.
  destruct once; cbn; (destruct err as [e|]; [by eexists|]); (destruct (_ && _); by eexists).
Qed.

Lemma copyHTTPBody_settled start h maxBodySize hint m w : start = requestRecord ∨ start = responseRecord → settled_body m →
  ∃ record m', copyHTTPBody (start h) maxBodySize hint m w = (record, m', w) ∧ same_body m m' ∧ body_fields record = recorded maxBodySize m ∧
    with_record_body "" "" false 0 record = start h.
Proof using.
  intros Hst Hm. unfold copyHTTPBody, recorded.
  destruct (messagePreviewSnapshot m) as [preview|] eqn:Ep.
  { do 2 eexists. split; [done|]. by destruct Hst as [->| ->]. }
  destruct Hm as [Hm|Hm]; [|destruct Hm; congruence]. unfold getHTTPBodyForStorage, GetBodyLimited.
  edestruct load_without_reader as (m' & -> & Hs & Hw); [exact Hm|]. destruct (bodyErr m) as [e|].
  - do 2 eexists. rewrite Hw. split; [done|]. split; [done|]. unfold markBodyOmitted, body_fields.
    assert (Hl : (if 0 <? maxBodySize then maxBodySize else 0) = Z.max 0 maxBodySize) by (destruct (Z.ltb_spec 0 maxBodySize); lia).
    destruct Hst as [->| ->], e; cbn; by rewrite Hl.
  - set (body := bytes_or_nil (Body m)).
    assert (Hc : (0 <=? (if maxBodySize <=? 0 then unlimitedBodyLimit else maxBodySize)) && ((if maxBodySize <=? 0 then unlimitedBodyLimit else maxBodySize) <? Z.of_nat (length body))
      = bool_decide (0 < maxBodySize < Z.of_nat (length body))).
    { unfold unlimitedBodyLimit. rewrite bool_decide_decide. destruct (decide _), (Z.leb_spec maxBodySize 0), (Z.ltb_spec maxBodySize (Z.of_nat (length body)));
        rewrite ?(proj2 (Z.leb_le 0 maxBodySize)) by lia; cbn; try lia; done. }
    rewrite Hc. case_bool_decide as Hd.
    + do 2 eexists. rewrite Hw. split; [done|]. split; [done|]. unfold markBodyOmitted, body_fields.
      rewrite (proj2 (Z.ltb_lt _ _)) by lia. by destruct Hst as [->| ->].
    + do 2 eexists. rewrite Hw. split; [done|]. split; [done|]. fold body. destruct body; by destruct Hst as [->| ->].
Qed.

Definition recorded_as (start : HTTPMessage → HTTPMessageRecord) (maxBodySize : Z) (h : option HTTPMessage) (m : option (BodyState BodyRd))
    (record : option HTTPMessageRecord) : Prop :=
  match h, m with
  | Some h, Some m => ∃ rec, record = Some rec ∧ body_fields rec = recorded maxBodySize m ∧ with_record_body "" "" false 0 rec = start h
  | _, _ => record = None
  end.

Lemma fromHTTP_settled start h m maxBodySize w : start = requestRecord ∨ start = responseRecord → (∀ b, m = Some b → settled_body b) →
  ∃ record m', fromHTTP start h m maxBodySize w = (record, m', w) ∧ option_Forall2 same_body m m' ∧ recorded_as start maxBodySize h m record.
Proof using.
  intros Hst Hm. assert (Hsame : option_Forall2 same_body m m) by (destruct m; [by apply Some_Forall2, same_body_refl|apply None_Forall2]).
  destruct h as [h|], m as [b|]; [|(exists None; eexists; split; [reflexivity|split; [exact Hsame|reflexivity]])..].
  destruct (copyHTTPBody_settled start h maxBodySize (contentLengthHint (Some h)) b w Hst (Hm b eq_refl)) as (rec & b' & E & Hs & Hf & Hh).
  cbn [fromHTTP]. rewrite E. do 2 eexists. split; [reflexivity|]. split; [by apply Some_Forall2|]. by exists rec.
Qed.

(** Recording a request reads nothing from the connection and sends nothing: of a
    request whose bodies were received, or whose preview left a reader behind, the record
    has the heads, every received body in full or - over the limit, or when it could not
    be received - not at all with the reason, and of a deferred body the preview; the
    request is unchanged and the number of the record is the next one. *)
Theorem snapshot_faithful at_ r responseStatus processingTime maxBodySize seq w :
  settled r →
  ∃ sr r', FromICAPRequestWithBodyLimit at_ r responseStatus processingTime maxBodySize seq w = (sr, (seq + 1) mod 2 ^ 64, r', w) ∧
    same_request r r' ∧
    recorded_as requestRecord maxBodySize (HTTPRequest (l_head r)) (l_request r) (sr_HTTPRequest sr) ∧
    recorded_as responseRecord maxBodySize (HTTPResponse (l_head r)) (l_response r) (sr_HTTPResponse sr) ∧
    (sr_Method sr, sr_URI sr, sr_Headers sr, sr_ResponseStatus sr) = (r_Method (l_head r), r_URI (l_head r), r_Header (l_head r), responseStatus).
Proof using.
  intros [H1 H2]. unfold FromICAPRequestWithBodyLimit. cbn [GenerateRequestID].
  destruct (fromHTTP_settled requestRecord (HTTPRequest (l_head r)) (l_request r) maxBodySize w (or_introl eq_refl) H1) as (q & m1 & -> & ? & ?).
  destruct (fromHTTP_settled responseRecord (HTTPResponse (l_head r)) (l_response r) maxBodySize w (or_intror eq_refl) H2) as (p & m2 & -> & ? & ?).
  do 2 eexists. by split_and!.
Qed.

(** ** Requests as the server receives them *)

(** Only the side of the method carries a body, as in every request of the protocol. *)
Definition own_body (req : Request) : Prop :=
  (bool_decide (r_Method req = MethodREQMOD) = false → ∀ h, HTTPRequest req = Some h → m_Body h = NoBody) ∧
  (bool_decide (r_Method req = MethodRESPMOD) = false → ∀ h, HTTPResponse req = Some h → m_Body h = NoBody).

Lemma settled_None m : BodyReader m = None → settled_body m.
Proof using. by left. Qed.

Lemma received_body maxBytes hint (h : option HTTPMessage) w m' w' :
  receiveHTTPMessageBody cfg size grow fuel sizes maxBytes hint ((λ h, fresh_body (body_reader (m_Body h))) <$> h) w = (None, m', w') →
  ∀ m, m' = Some m → settled_body m.
Proof using.
  destruct h as [h|]; cbn; [|by intros [= <- <-]]. destruct (body_reader (m_Body h)) as [rd|]; cbn.
  - destruct (loadHTTPMessageBody _ _ _ _ _ _ _ _ _) as [[[body|e] m] w1]; [|done]. intros E ? ->. injection E as <- _. by apply settled_None.
  - intros E ? ->. injection E as <- _. by apply settled_None.
Qed.

Lemma previewed_body declared limit c m w m' w' : BodyReader m = Some (plain (Chunks c)) →
  readPreview cfg size fuel sizes declared limit c m w = (None, m', w') → settled_body m'.
Proof using.
  intros Hm. unfold readPreview. destruct (readAllLoop _ _ _ _ _ _) as [[[preview err] [rd w1]]|]; [|done]. destruct err; [done|].
  destruct (_ <? _); [done|]. destruct (PreviewBoundary _) as [[] ieof]; cbn [negb]; [|done]. destruct (_ <? _); [done|].
  destruct ieof; intros [= <- <-]; [by apply settled_None|]. right. by eexists.
Qed.

Notation fresh h := ((λ m, fresh_body (body_reader (m_Body m))) <$> h).

Lemma previewed_side req h put w r w' :
  previewBodyMessage (newLRequest req) = Some (fresh h, put) → receivePreviewBody cfg size fuel sizes (newLRequest req) w = (None, r, w') →
  (r = newLRequest req ∧ ∀ m, fresh h = Some m → settled_body m) ∨ ∃ m, r = put (Some m) ∧ settled_body m.
Proof using.
  intros Hs. unfold receivePreviewBody. rewrite Hs. destruct h as [h|]; cbn; [|by intros [= <- <-]; left].
  destruct (m_Body h) as [| |data]; cbn; [intros [= <- <-]; left; split; [done|]; intros m [= <-]; by apply settled_None|..];
    (destruct (setActiveReadDeadline cfg w) as [[?|] w1]; [done|]);
    destruct (readPreview _ _ _ _ _ _ _ _ _) as [[e m1] w2] eqn:Er; intros E; injection E as -> <- <-; right; exists m1;
    (split; [done|by eapply previewed_body; [|exact Er]]).
Qed.

Lemma no_body_settled h m : (∀ x, h = Some x → m_Body x = NoBody) → fresh h = Some m → settled_body m.
Proof using.
  destruct h as [x|]; [|done]. cbn. intros Hx Em. rewrite (Hx x eq_refl) in Em. injection Em as <-. by apply settled_None.
Qed.

(** Every request a handler gets is one that [snapshot_faithful] is about. *)
Theorem received_settled req w r w' :
  own_body req → receiveRequestBodies cfg size grow fuel sizes (newLRequest req) w = (None, r, w') → settled r.
Proof using.
  intros [Hq Hp] E. unfold receiveRequestBodies, shouldDeferBodyReceive in E. cbn [newLRequest l_head] in E. destruct (IsPreviewMode req).
  - assert (Hqb : bool_decide (r_Method req = MethodREQMOD) = false → ∀ m, fresh (HTTPRequest req) = Some m → settled_body m).
    { intros H m. apply no_body_settled. by apply Hq. }
    assert (Hpb : bool_decide (r_Method req = MethodRESPMOD) = false → ∀ m, fresh (HTTPResponse req) = Some m → settled_body m).
    { intros H m. apply no_body_settled. by apply Hp. }
    destruct (bool_decide (r_Method req = MethodREQMOD)) eqn:Ereq; [|destruct (bool_decide (r_Method req = MethodRESPMOD)) eqn:Eresp].
    + assert (Hr : bool_decide (r_Method req = MethodRESPMOD) = false) by (apply bool_decide_eq_true_1 in Ereq; by rewrite Ereq).
      eapply (previewed_side req (HTTPRequest req)) in E as [[-> Hs]|(m & -> & Hs)];
        [by split; [|apply Hpb]| |by unfold previewBodyMessage; cbn; rewrite Ereq].
      split; [by intros ? [= <-]|by apply Hpb].
    + eapply (previewed_side req (HTTPResponse req)) in E as [[-> Hs]|(m & -> & Hs)];
        [by split; [apply Hqb|]| |by unfold previewBodyMessage; cbn; rewrite Ereq, Eresp].
      split; [by apply Hqb|by intros ? [= <-]].
    + unfold receivePreviewBody, previewBodyMessage in E. cbn in E. rewrite Ereq, Eresp in E. injection E as <- _. split; auto.
  - destruct (setActiveReadDeadline cfg w) as [[?|] w1]; [done|]. unfold receiveBodies, over_bodies in E. cbn [newLRequest l_head l_request l_response] in E.
    destruct (receiveHTTPMessageBody _ _ _ _ _ _ _ _ w1) as [[[e1|] m1] w2] eqn:E1; [done|].
    cbn [with_request l_response] in E.
    destruct (receiveHTTPMessageBody _ _ _ _ _ _ _ _ w2) as [[[e2|] m2] w3] eqn:E2; [done|].
    assert (Hs : (∀ m, m1 = Some m → settled_body m) ∧ (∀ m, m2 = Some m → settled_body m)) by (split; eapply received_body; [exact E1|exact E2]).
    destruct (_ && _); [destruct (receiveRawChunkedBody _ _ _ _ _ _ _) as [[e3 b] w4]; injection E as _ <- _|injection E as <- _]; exact Hs.
Qed.
End Snapshot.

(** ** Numbers do not repeat *)

(** The records of a process, one after the other. *)
Fixpoint GenerateRequestIDs (stamps : list string) (seq : Z) : list string :=
  match stamps with
  | [] => []
  | stamp :: stamps => let '(id, seq) := GenerateRequestID stamp seq in id :: GenerateRequestIDs stamps seq
  end.

Lemma id_number s s' q q' : String.length s = String.length s' →
  (GenerateRequestID s q).1 = (GenerateRequestID s' q').1 → (q + 1) mod 2 ^ 64 = (q' + 1) mod 2 ^ 64.
Proof.
  intros Hl E. unfold GenerateRequestID in E. cbn [fst] in E. apply str_app_inv_l in E. apply (f_equal (str_drop (String.length s))) in E.
  rewrite str_drop_app, Hl, str_drop_app in E. apply str_app_inv_l in E. apply format_padded_inj in E; [done|by apply Z.mod_pos_bound..].
Qed.

Lemma id_later n stamps : ∀ seq q stamp, String.length stamp = n → Forall (λ s, String.length s = n) stamps →
  (GenerateRequestID stamp q).1 ∈ GenerateRequestIDs stamps seq → ∃ k, 0 ≤ k < Z.of_nat (length stamps) ∧ (q + 1) mod 2 ^ 64 = (seq + 1 + k) mod 2 ^ 64.
Proof.
  induction stamps as [|s stamps IH]; intros seq q stamp Hn Hs; [intros Hin; by apply not_elem_of_nil in Hin|]. apply Forall_cons in Hs as [Hs Hss].
  cbn [GenerateRequestIDs]. unfold GenerateRequestID at 2. cbn [fst snd]. intros [E|Hin]%elem_of_cons.
  - exists 0. cbn [length]. split; [lia|]. rewrite Z.add_0_r. apply (id_number stamp s); [congruence|exact E].
  - destruct (IH _ _ _ Hn Hss Hin) as (k & Hk & E). exists (k + 1). cbn [length]. split; [lia|]. rewrite E.
    replace ((seq + 1) mod 2 ^ 64 + 1 + k) with ((seq + 1) mod 2 ^ 64 + (1 + k)) by lia. rewrite Zplus_mod_idemp_l. f_equal. lia.
Qed.

(** No two records of a process have the same ID, whatever the clock does, before
    the 64-bit sequence wraps; the date is printed at a fixed width. *)
Theorem ids_distinct n stamps seq :
  Forall (λ s, String.length s = n) stamps → Z.of_nat (length stamps) ≤ 2 ^ 64 → NoDup (GenerateRequestIDs stamps seq).
Proof.
  revert seq. induction stamps as [|s stamps IH]; intros seq Hs Hl; [constructor|]. apply Forall_cons in Hs as [Hs Hss].
  cbn [GenerateRequestIDs length] in *. unfold GenerateRequestID at 1. cbn [fst snd]. constructor; [|apply IH; [done|lia]].
  intros Hin. destruct (id_later n stamps _ seq s Hs Hss Hin) as (k & Hk & E).
  replace ((seq + 1) mod 2 ^ 64 + 1 + k) with ((seq + 1) mod 2 ^ 64 + (1 + k)) in E by lia. rewrite Zplus_mod_idemp_l in E.
  pose proof (Z.div_mod (seq + 1) (2 ^ 64) ltac:(lia)). pose proof (Z.div_mod (seq + 1 + (1 + k)) (2 ^ 64) ltac:(lia)). nia.
Qed.

Lemma ids_distinct_witness :
  NoDup (GenerateRequestIDs ["20260102-150405.000"; "20260102-150405.000"; "20250101-000000.999"] 999999).
Proof. apply (ids_distinct 19); [by repeat constructor|cbn; lia]. Defined.

(** ** At concrete connections *)

Module SnapshotExample.
Definition circumstances : Circumstances := {| at_time := 0; at_stamp := "20260102-150405.000"; from_ClientIP := "10.0.0.1"; from_RemoteAddr := "10.0.0.1:4000" |}.

(** A request whose preview "pre" left a reader behind, and the connection after it. *)
Definition first_wire : Wire := LExample.wire (encode [bytes_of "pre"] ++ last_chunk ++ encode [bytes_of "view"] ++ last_chunk).

Definition deferred_turn : option LifecycleError * LRequest * Wire :=
  receiveRequestBodies LExample.cfg 16 LExample.grow 20 LExample.sizes (newLRequest (LExample.head (Some 4))) first_wire.

Definition deferred_request : LRequest := Eval vm_compute in deferred_turn.1.2.
Definition deferred_wire : Wire := Eval vm_compute in deferred_turn.2.

Definition record_of (r : LRequest) (w : Wire) : StoredRequest * Z * LRequest * Wire :=
  FromICAPRequestWithBodyLimit LExample.cfg 16 LExample.grow 20 LExample.sizes circumstances r 204 1500000 8 0 w.
End SnapshotExample.

Lemma received_settled_witness : settled SnapshotExample.deferred_request.
Proof.
  refine (received_settled LExample.cfg 16 LExample.grow 20 LExample.sizes (LExample.head (Some 4)) SnapshotExample.first_wire
    SnapshotExample.deferred_request SnapshotExample.deferred_wire _ _); [|vm_compute; reflexivity].
  split; [discriminate|]. intros _ h Hh. discriminate Hh.
Defined.

Lemma snapshot_faithful_witness :
  settled SnapshotExample.deferred_request ∧
  ∃ sr r' h, SnapshotExample.record_of SnapshotExample.deferred_request SnapshotExample.deferred_wire = (sr, 1, r', SnapshotExample.deferred_wire) ∧
    sr_HTTPRequest sr = Some h ∧ body_fields h = ("pre", bodyOmittedPreview, true, 0).
Proof.
  assert (Hs : settled SnapshotExample.deferred_request) by (split; intros m Hm; vm_compute in Hm; [injection Hm as <-; right; by eexists|discriminate Hm]).
  split; [exact Hs|].
  destruct (snapshot_faithful LExample.cfg 16 LExample.grow 20 LExample.sizes SnapshotExample.circumstances SnapshotExample.deferred_request 204 1500000 8 0
    SnapshotExample.deferred_wire Hs) as (sr & r' & E & _ & (h & Hh & Hf & _) & _). exists sr, r', h. split; [exact E|]. split; [exact Hh|exact Hf].
Defined.

(** When a handler read the whole body after the preview, the message still holds the
    reader that the preview left, and so the record has the preview alone and says that
    the rest was not materialized. *)
Example materialized_body_omitted :
  match l_request SnapshotExample.deferred_request with
  | Some m =>
      let '(body, m, w) := loadHTTPMessageBody LExample.cfg 16 LExample.grow 20 LExample.sizes 8 (-1) m SnapshotExample.deferred_wire in
      (body, bodyLoaded m, body_fields <$> sr_HTTPRequest (SnapshotExample.record_of (with_request (Some m) SnapshotExample.deferred_request) w).1.1.1)
  | None => (Ok None, false, None)
  end = (Ok (Some (bytes_of "preview")), true, Some ("pre", bodyOmittedPreview, true, 0)).
Proof. vm_compute. reflexivity. Qed.
