(* ===== verification/StorageQueue.v ===== *)
(** * The queue of recordings: the storage middleware of [internal/middleware/middleware.go]

    After a request was handled its record is offered to a bounded queue, from which a
    pool of workers saves it. Offering and the start of [Shutdown] are critical sections
    of one lock; workers, the callers of [Shutdown] and the handlers interleave. What
    saving a record does is [RequestStore]: here it succeeds, fails or panics. *)
From S2P Require Import Prelude GoInt GoStrings Header Chunked StreamPayload IcapResponse Accounting AdaptiveTimeout.
From S2P Require Import Protocol Message Connection Lifecycle Handler RequestStore Snapshot.

Local Open Scope Z_scope.

(** ** The middleware *)

Record StorageMiddlewareConfig := { Workers : Z; QueueSize : Z; cf_MaxBodySize : Z; cf_metrics : bool }.

Definition DefaultStorageMiddlewareConfig : StorageMiddlewareConfig :=
  {| Workers := 4; QueueSize := 1000; cf_MaxBodySize := 0; cf_metrics := false |}.

(** A worker: receiving from the queue; with a job, before and after it looked whether
    the middleware is shutting down; ended. *)
Inductive Worker := Receiving | Took (job : StoredRequest) | Saving (job : StoredRequest) (draining : bool) | Ended.

(** [jobsLocked]: the lock is held by a call that panicked, and so for good. *)
Record StorageMiddleware := {
  jobs : list StoredRequest; jobsClosed : bool; maxQueueSize : nat; maxBodySize : Z; metrics : bool;
  stopped : bool; jobsLocked : bool; cancelled : bool; rejectedCount : Z; drainedCount : nat; workers : list Worker
}.

(** The queue of a size less than zero cannot be made; [NewStorageMiddlewareWithPool] asks
    for no such queue. *)
Definition StorageMiddlewareWithPool (cfg : StorageMiddlewareConfig) : StorageMiddleware :=
  {| jobs := []; jobsClosed := false; maxQueueSize := Z.to_nat (QueueSize cfg); maxBodySize := cf_MaxBodySize cfg; metrics := cf_metrics cfg;
     stopped := false; jobsLocked := false; cancelled := false; rejectedCount := 0; drainedCount := 0;
     workers := replicate (Z.to_nat (Workers cfg)) Receiving |}.

Definition withDefaults (cfg : StorageMiddlewareConfig) : StorageMiddlewareConfig :=
  {| Workers := if Workers cfg <=? 0 then Workers DefaultStorageMiddlewareConfig else Workers cfg;
     QueueSize := if QueueSize cfg <=? 0 then QueueSize DefaultStorageMiddlewareConfig else QueueSize cfg;
     cf_MaxBodySize := cf_MaxBodySize cfg; cf_metrics := cf_metrics cfg |}.

(** [store]: whether there is a storage. *)
Definition NewStorageMiddlewareWithPool (store : bool) (cfg : StorageMiddlewareConfig) : result string StorageMiddleware :=
  if negb store then Err "store cannot be nil" else Ok (StorageMiddlewareWithPool (withDefaults cfg)).

Definition with_jobs (q : list StoredRequest) (ws : list Worker) (m : StorageMiddleware) : StorageMiddleware :=
  {| jobs := q; jobsClosed := jobsClosed m; maxQueueSize := maxQueueSize m; maxBodySize := maxBodySize m; metrics := metrics m;
     stopped := stopped m; jobsLocked := jobsLocked m; cancelled := cancelled m; rejectedCount := rejectedCount m;
     drainedCount := drainedCount m; workers := ws |}.

Definition with_counts (rejected : Z) (drained : nat) (m : StorageMiddleware) : StorageMiddleware :=
  {| jobs := jobs m; jobsClosed := jobsClosed m; maxQueueSize := maxQueueSize m; maxBodySize := maxBodySize m; metrics := metrics m;
     stopped := stopped m; jobsLocked := jobsLocked m; cancelled := cancelled m; rejectedCount := rejected;
     drainedCount := drained; workers := workers m |}.

Definition with_shutdown (stop closed locked cancel : bool) (m : StorageMiddleware) : StorageMiddleware :=
  {| jobs := jobs m; jobsClosed := closed; maxQueueSize := maxQueueSize m; maxBodySize := maxBodySize m; metrics := metrics m;
     stopped := stop; jobsLocked := locked; cancelled := cancel; rejectedCount := rejectedCount m;
     drainedCount := drainedCount m; workers := workers m |}.

(** ** Offering a job *)

Inductive Sent := Enqueued | Rejected | Dropped.

(** [None]: waits for the lock for ever. *)
Definition trySendJob (job : StoredRequest) (m : StorageMiddleware) : option (Sent * StorageMiddleware) :=
  if jobsLocked m then None
  else if stopped m then Some (Dropped, m)
  else if (length (jobs m) <? maxQueueSize m)%nat then Some (Enqueued, with_jobs (jobs m ++ [job]) (workers m) m)
  else Some (Rejected, with_counts (add64 (rejectedCount m) 1) (drainedCount m) m).

(** ** Workers *)

Inductive SaveOutcome := SaveOk | SaveFails (e : StorageError) | SavePanics.

(** One receive of [range m.jobs]; [None]: waits. *)
Definition receiveJob (i : nat) (m : StorageMiddleware) : option StorageMiddleware :=
  match workers m !! i with
  | Some Receiving =>
      match jobs m with
      | job :: q => Some (with_jobs q (<[i := Took job]> (workers m)) m)
      | [] => if jobsClosed m then Some (with_jobs [] (<[i := Ended]> (workers m)) m) else None
      end
  | _ => None
  end.

Definition lookDraining (i : nat) (m : StorageMiddleware) : option StorageMiddleware :=
  match workers m !! i with
  | Some (Took job) => Some (with_jobs (jobs m) (<[i := Saving job (cancelled m)]> (workers m)) m)
  | _ => None
  end.

(** The end of [processStorageJob]: a panic is recovered before the metrics. *)
Definition processStorageJob (outcome : SaveOutcome) (i : nat) (m : StorageMiddleware) : option (StoredRequest * StorageMiddleware) :=
  match workers m !! i with
  | Some (Saving job draining) =>
      let counts := match outcome with SavePanics => false | _ => metrics m && draining end in
      Some (job, with_counts (rejectedCount m) (if counts then S (drainedCount m) else drainedCount m)
                   (with_jobs (jobs m) (<[i := Receiving]> (workers m)) m))
  | _ => None
  end.

(** ** Shutting down *)

(** Up to the release of the lock: whether the call went on, or panicked by closing the
    queue a second time and kept the lock. *)
Definition ShutdownLocked (m : StorageMiddleware) : option (bool * StorageMiddleware) :=
  if jobsLocked m then None
  else if jobsClosed m then Some (false, with_shutdown true true true (cancelled m) m)
  else Some (true, with_shutdown true true false (cancelled m) m).

Definition cancelWorkers (m : StorageMiddleware) : StorageMiddleware := with_shutdown (stopped m) (jobsClosed m) (jobsLocked m) true m.

Definition workersDone (m : StorageMiddleware) : bool := forallb (λ w, match w with Ended => true | _ => false end) (workers m).

(** Where a call of [Shutdown] is. *)
Inductive ShutdownCall := Closed | Awaiting | Finished | GaveUp | ShutdownPanicked.

(** ** Handlers, workers and shutdown at once *)

(** [mr_accepted] are the records that were queued, [mr_taken] those that a worker took,
    in order, [mr_done] those that were saved or not, with how. *)
Record MwRun := {
  mr_mw : StorageMiddleware; mr_offered : list StoredRequest; mr_accepted : list StoredRequest; mr_taken : list StoredRequest;
  mr_rejected : list StoredRequest; mr_dropped : list StoredRequest; mr_done : list (StoredRequest * SaveOutcome); mr_calls : list ShutdownCall
}.

Definition run_mw (m : StorageMiddleware) (r : MwRun) : MwRun :=
  {| mr_mw := m; mr_offered := mr_offered r; mr_accepted := mr_accepted r; mr_taken := mr_taken r; mr_rejected := mr_rejected r;
     mr_dropped := mr_dropped r; mr_done := mr_done r; mr_calls := mr_calls r |}.
Definition run_taken (jobs : list StoredRequest) (r : MwRun) : MwRun :=
  {| mr_mw := mr_mw r; mr_offered := mr_offered r; mr_accepted := mr_accepted r; mr_taken := jobs; mr_rejected := mr_rejected r;
     mr_dropped := mr_dropped r; mr_done := mr_done r; mr_calls := mr_calls r |}.
Definition run_done (d : list (StoredRequest * SaveOutcome)) (r : MwRun) : MwRun :=
  {| mr_mw := mr_mw r; mr_offered := mr_offered r; mr_accepted := mr_accepted r; mr_taken := mr_taken r; mr_rejected := mr_rejected r;
     mr_dropped := mr_dropped r; mr_done := d; mr_calls := mr_calls r |}.
Definition run_calls (calls : list ShutdownCall) (r : MwRun) : MwRun :=
  {| mr_mw := mr_mw r; mr_offered := mr_offered r; mr_accepted := mr_accepted r; mr_taken := mr_taken r; mr_rejected := mr_rejected r;
     mr_dropped := mr_dropped r; mr_done := mr_done r; mr_calls := calls |}.
Definition run_sent (job : StoredRequest) (s : Sent) (r : MwRun) : MwRun :=
  let also b l := if b : bool then l ++ [job] else l in
  {| mr_mw := mr_mw r; mr_offered := mr_offered r ++ [job];
     mr_accepted := also (match s with Enqueued => true | _ => false end) (mr_accepted r); mr_taken := mr_taken r;
     mr_rejected := also (match s with Rejected => true | _ => false end) (mr_rejected r);
     mr_dropped := also (match s with Dropped => true | _ => false end) (mr_dropped r); mr_done := mr_done r; mr_calls := mr_calls r |}.

Definition start_mw (m : StorageMiddleware) : MwRun :=
  {| mr_mw := m; mr_offered := []; mr_accepted := []; mr_taken := []; mr_rejected := []; mr_dropped := []; mr_done := []; mr_calls := [] |}.

Inductive worker_step (r : MwRun) : MwRun → Prop :=
| step_takes i job q m : jobs (mr_mw r) = job :: q → receiveJob i (mr_mw r) = Some m →
    worker_step r (run_taken (mr_taken r ++ [job]) (run_mw m r))
| step_ends i m : jobs (mr_mw r) = [] → receiveJob i (mr_mw r) = Some m → worker_step r (run_mw m r)
| step_looks i m : lookDraining i (mr_mw r) = Some m → worker_step r (run_mw m r)
| step_saves i outcome job m : processStorageJob outcome i (mr_mw r) = Some (job, m) →
    worker_step r (run_done (mr_done r ++ [(job, outcome)]) (run_mw m r)).

Inductive mw_step (r : MwRun) : MwRun → Prop :=
| step_worker r' : worker_step r r' → mw_step r r'
| step_offers job s m : trySendJob job (mr_mw r) = Some (s, m) → mw_step r (run_sent job s (run_mw m r))
| step_shuts ok m : ShutdownLocked (mr_mw r) = Some (ok, m) →
    mw_step r (run_calls (mr_calls r ++ [if ok : bool then Closed else ShutdownPanicked]) (run_mw m r))
| step_cancels k : mr_calls r !! k = Some Closed → mw_step r (run_calls (<[k := Awaiting]> (mr_calls r)) (run_mw (cancelWorkers (mr_mw r)) r))
| step_returns k : mr_calls r !! k = Some Awaiting → workersDone (mr_mw r) = true → mw_step r (run_calls (<[k := Finished]> (mr_calls r)) r)
| step_gives_up k : mr_calls r !! k = Some Awaiting → mw_step r (run_calls (<[k := GaveUp]> (mr_calls r)) r).

(** ** What happens to an offered record *)

Definition holding (w : Worker) : list StoredRequest := match w with Took job | Saving job _ => [job] | _ => [] end.
Definition held (ws : list Worker) : list StoredRequest := flat_map holding ws.

Lemma held_update ws i w w' : ws !! i = Some w → ∃ rest, held ws ≡ₚ holding w ++ rest ∧ held (<[i := w']> ws) ≡ₚ holding w' ++ rest.
Proof.
  intros Hi. exists (held (take i ws) ++ held (drop (S i) ws)). unfold held.
  assert (i < length ws)%nat by (apply lookup_lt_is_Some; by eexists). split.
  - rewrite <- (take_drop_middle ws i w Hi) at 1. rewrite flat_map_app. cbn [flat_map]. rewrite !app_assoc. f_equiv. apply Permutation_app_comm.
  - rewrite insert_take_drop by done. rewrite flat_map_app. cbn [flat_map]. rewrite !app_assoc. f_equiv. apply Permutation_app_comm.
Qed.

Record queue_ok (r : MwRun) : Prop := {
  qo_sent : mr_offered r ≡ₚ mr_accepted r ++ mr_rejected r ++ mr_dropped r;
  qo_order : mr_accepted r = mr_taken r ++ jobs (mr_mw r);
  qo_done : mr_taken r ≡ₚ held (workers (mr_mw r)) ++ map fst (mr_done r);
  qo_room : (length (jobs (mr_mw r)) ≤ maxQueueSize (mr_mw r))%nat;
  qo_count : rejectedCount (mr_mw r) = wrap64 (Z.of_nat (length (mr_rejected r)));
  qo_ended : ∀ i, workers (mr_mw r) !! i = Some Ended → jobsClosed (mr_mw r) = true ∧ jobs (mr_mw r) = [];
  qo_stopped : stopped (mr_mw r) = jobsClosed (mr_mw r);
  qo_finished : Finished ∈ mr_calls r → workersDone (mr_mw r) = true
}.

Lemma start_ok m : jobs m = [] → rejectedCount m = 0 → stopped m = jobsClosed m → Forall (λ w, w = Receiving) (workers m) → queue_ok (start_mw m).
Proof.
  intros Hj Hc Hs Hw. split; cbn; try (rewrite Hj || rewrite Hc); try done.
  - rewrite app_nil_r. clear -Hw. induction Hw as [|w ws -> _ IH]; [done|exact IH].
  - cbn. lia.
  - intros i Hi. rewrite Forall_lookup in Hw. by specialize (Hw i _ Hi).
  - intros H. by apply not_elem_of_nil in H.
Qed.

Lemma done_worker m i w : workersDone m = true → workers m !! i = Some w → w = Ended.
Proof. unfold workersDone. rewrite forallb_forall. intros H Hi. apply list_elem_of_lookup_2, list_elem_of_In in Hi. specialize (H w Hi). by destruct w. Qed.

Lemma done_held m : workersDone m = true → held (workers m) = [].
Proof.
  unfold workersDone, held. induction (workers m) as [|w ws IH]; [done|]. cbn. intros [Hw H]%andb_true_iff. destruct w; try done. by apply IH.
Qed.

(** A worker that changes from one state to another which is not ended. *)
Lemma busy_worker r m i w w' : queue_ok r → workers (mr_mw r) !! i = Some w → w ≠ Ended → w' ≠ Ended → workers m = <[i := w']> (workers (mr_mw r)) →
  (Finished ∉ mr_calls r) ∧ (∀ j, workers m !! j = Some Ended → workers (mr_mw r) !! j = Some Ended).
Proof.
  intros H Hi Hw Hw' Hm. split.
  - intros Hf. apply Hw. eapply done_worker; [by apply (qo_finished _ H)|exact Hi].
  - intros j Hj. rewrite Hm in Hj. destruct (decide (j = i)) as [->|]; [|by rewrite list_lookup_insert_ne in Hj].
    rewrite list_lookup_insert_eq in Hj by (apply lookup_lt_is_Some; by eexists). congruence.
Qed.

Lemma worker_step_ok r r' : queue_ok r → worker_step r r' → queue_ok r'.
Proof.
  intros H Hs. destruct Hs as [i job q m Hj Hr|i m Hj Hr|i m Hr|i outcome job m Hr].
  - unfold receiveJob in Hr. destruct (workers (mr_mw r) !! i) as [w|] eqn:Ei; [|done]. destruct w; try done. rewrite Hj in Hr. injection Hr as <-.
    destruct (busy_worker r (with_jobs q (<[i := Took job]> (workers (mr_mw r))) (mr_mw r)) i Receiving (Took job) H Ei) as [Hf He]; [done..|].
    destruct (held_update _ i _ (Took job) Ei) as (rest & E1 & E2). pose proof (qo_room _ H) as Hroom. rewrite Hj in Hroom. cbn in Hroom.
    pose proof (qo_order _ H) as Ho. rewrite Hj in Ho. pose proof (qo_done _ H) as Hd. rewrite E1 in Hd.
    split; cbn; [apply H| | |lia|apply H| |apply H|done].
    + rewrite Ho, <- app_assoc. done.
    + rewrite E2, Hd. cbn. rewrite Permutation_app_comm. done.
    + intros j Hj'. apply He in Hj'. apply (qo_ended _ H) in Hj' as [_ ?]. congruence.
  - unfold receiveJob in Hr. destruct (workers (mr_mw r) !! i) as [w|] eqn:Ei; [|done]. destruct w; try done. rewrite Hj in Hr.
    destruct (jobsClosed (mr_mw r)) eqn:Ec; [|done]. injection Hr as <-. destruct (held_update _ i _ Ended Ei) as (rest & E1 & E2).
    split; cbn; [apply H| | |lia|apply H|by rewrite Ec|by rewrite Ec; rewrite <- Ec; apply H|].
    + rewrite (qo_order _ H), Hj. done.
    + rewrite E2, (qo_done _ H), E1. done.
    + intros Hf. apply (qo_finished _ H) in Hf. by pose proof (done_worker _ _ _ Hf Ei).
  - unfold lookDraining in Hr. destruct (workers (mr_mw r) !! i) as [w|] eqn:Ei; [|done]. destruct w as [|job| |]; try done. injection Hr as <-.
    destruct (busy_worker r (with_jobs (jobs (mr_mw r)) (<[i := Saving job (cancelled (mr_mw r))]> (workers (mr_mw r))) (mr_mw r)) i (Took job) (Saving job (cancelled (mr_mw r))) H Ei) as [Hf He]; [done..|].
    destruct (held_update _ i _ (Saving job (cancelled (mr_mw r))) Ei) as (rest & E1 & E2).
    split; cbn; [apply H|apply H| |apply H|apply H| |apply H|done].
    + rewrite E2, (qo_done _ H), E1. done.
    + intros j Hj'. by apply (qo_ended _ H j), He.
  - unfold processStorageJob in Hr. destruct (workers (mr_mw r) !! i) as [w|] eqn:Ei; [|done]. destruct w as [| |job' draining|]; try done. injection Hr as -> <-.
    destruct (busy_worker r (with_jobs (jobs (mr_mw r)) (<[i := Receiving]> (workers (mr_mw r))) (mr_mw r)) i (Saving job draining) Receiving H Ei) as [Hf He]; [done..|].
    destruct (held_update _ i _ Receiving Ei) as (rest & E1 & E2).
    split; cbn; [apply H|apply H| |apply H|apply H| |apply H|done].
    + rewrite E2, (qo_done _ H), E1, map_app. cbn. rewrite (Permutation_app_comm _ [job]). cbn. by rewrite Permutation_middle.
    + intros j Hj'. by apply (qo_ended _ H j), He.
Qed.

Lemma mw_step_ok r r' : queue_ok r → mw_step r r' → queue_ok r'.
Proof.
  intros H Hs. assert (Hcalls : ∀ k c, c ≠ Finished → Finished ∈ <[k := c]> (mr_calls r) → Finished ∈ mr_calls r).
  { intros k c Hc [j Hj]%list_elem_of_lookup. destruct (decide (j = k)) as [->|]; [|rewrite list_lookup_insert_ne in Hj by done; by eapply list_elem_of_lookup_2].
    apply list_lookup_insert_Some in Hj as [(_ & Hj & _)|[Hj _]]; [congruence|done]. }
  destruct Hs as [r' Hs|job s m Hsend|ok m Hlock|k Hk|k Hk Hd|k Hk].
  - by eapply worker_step_ok.
  - unfold trySendJob in Hsend. destruct (jobsLocked (mr_mw r)); [done|]. rewrite (qo_stopped _ H) in Hsend. destruct (jobsClosed (mr_mw r)) eqn:Ec.
    { injection Hsend as <- <-. destruct H as [Hse ? ? ? ? ? ? ?]. split; cbn; try done. by rewrite Hse, <- !app_assoc. }
    destruct (Nat.ltb_spec (length (jobs (mr_mw r))) (maxQueueSize (mr_mw r))); injection Hsend as <- <-; destruct H as [Hse Ho ? ? Hc He ? ?]; split; cbn; try done.
    + rewrite Hse, <- !app_assoc. f_equiv. rewrite app_assoc. apply Permutation_app_comm.
    + by rewrite Ho, app_assoc.
    + rewrite length_app. cbn. lia.
    + intros i Hi. destruct (He i Hi) as [? _]. congruence.
    + rewrite Hse, <- !app_assoc. do 2 f_equiv. apply Permutation_app_comm.
    + rewrite Hc, length_app, Nat2Z.inj_add. unfold add64, wrap64. cbn [length Z.of_nat].
      replace ((Z.of_nat (length (mr_rejected r)) + 2 ^ 63) mod 2 ^ 64 - 2 ^ 63 + 1 + 2 ^ 63)
        with ((Z.of_nat (length (mr_rejected r)) + 2 ^ 63) mod 2 ^ 64 + 1) by lia. rewrite Zplus_mod_idemp_l. do 2 f_equal. lia.
  - unfold ShutdownLocked in Hlock. destruct (jobsLocked (mr_mw r)); [done|].
    assert (Hfin : Finished ∈ mr_calls r ++ [if ok : bool then Closed else ShutdownPanicked] → Finished ∈ mr_calls r).
    { intros [?|Hin]%elem_of_app; [done|]. apply list_elem_of_singleton in Hin. by destruct ok. }
    destruct (jobsClosed (mr_mw r)) eqn:Ec; injection Hlock as <- <-; destruct H as [? ? ? ? ? He ? Hf]; split; cbn; try done; auto.
    all: intros i Hi; destruct (He i Hi) as [? Hj]; split; [reflexivity|exact Hj].
  - destruct H as [? ? ? ? ? ? ? Hf]. split; cbn; try done. intros Hin. apply Hf. eapply Hcalls; [|exact Hin]. done.
  - destruct H as [? ? ? ? ? ? ? Hf]. by split; cbn.
  - destruct H as [? ? ? ? ? ? ? Hf]. split; cbn; try done. intros Hin. apply Hf. eapply Hcalls; [|exact Hin]. done.
Qed.

Lemma mw_reachable_ok r0 r : queue_ok r0 → rtc mw_step r0 r → queue_ok r.
Proof. intros H0 Hr. induction Hr as [r|r r1 r2 Hs _ IH]; [done|]. apply IH. by eapply mw_step_ok. Qed.

(** ** The number of workers and the size of the queue stay *)

Lemma worker_step_shape r r' : worker_step r r' →
  length (workers (mr_mw r')) = length (workers (mr_mw r)) ∧ maxQueueSize (mr_mw r') = maxQueueSize (mr_mw r) ∧
  jobsClosed (mr_mw r') = jobsClosed (mr_mw r) ∧ jobsLocked (mr_mw r') = jobsLocked (mr_mw r).
Proof.
  assert (Hrecv : ∀ i m m', receiveJob i m = Some m' → length (workers m') = length (workers m) ∧ maxQueueSize m' = maxQueueSize m ∧ jobsClosed m' = jobsClosed m ∧ jobsLocked m' = jobsLocked m).
  { unfold receiveJob. intros i m m'. destruct (workers m !! i) as [[]|]; try done. destruct (jobs m); [destruct (jobsClosed m) eqn:E; [|done]|];
      intros [= <-]; cbn; by rewrite length_insert. }
  intros [i job q m _ Hr|i m _ Hr|i m Hr|i o job m Hr]; [by apply (Hrecv i)|by apply (Hrecv i)| |].
  - unfold lookDraining in Hr. destruct (workers (mr_mw r) !! i) as [[]|]; try done. injection Hr as <-. cbn. by rewrite length_insert.
  - unfold processStorageJob in Hr. destruct (workers (mr_mw r) !! i) as [[]|]; try done. injection Hr as <- <-. cbn. by rewrite length_insert.
Qed.

Lemma mw_step_shape r r' : mw_step r r' →
  length (workers (mr_mw r')) = length (workers (mr_mw r)) ∧ maxQueueSize (mr_mw r') = maxQueueSize (mr_mw r) ∧
  (jobsClosed (mr_mw r) = true → jobsClosed (mr_mw r') = true) ∧ (jobsLocked (mr_mw r) = true → jobsLocked (mr_mw r') = true).
Proof.
  intros [r1 Hs|job s m Hsend|ok m Hlock|k _|k _ _|k _]; try (by cbn).
  - apply worker_step_shape in Hs as (-> & -> & -> & ->). done.
  - unfold trySendJob in Hsend. destruct (jobsLocked _); [done|]. destruct (stopped _); [|destruct (_ <? _)%nat]; by injection Hsend as <- <-.
  - unfold ShutdownLocked in Hlock. destruct (jobsLocked _) eqn:El; [done|]. destruct (jobsClosed _); injection Hlock as <- <-; cbn; by rewrite ?El.
Qed.

Lemma mw_reachable_shape r r' : rtc mw_step r r' →
  length (workers (mr_mw r')) = length (workers (mr_mw r)) ∧ maxQueueSize (mr_mw r') = maxQueueSize (mr_mw r) ∧
  (jobsClosed (mr_mw r) = true → jobsClosed (mr_mw r') = true) ∧ (jobsLocked (mr_mw r) = true → jobsLocked (mr_mw r') = true).
Proof.
  intros Hr. induction Hr as [r|r r1 r2 Hs _ (-> & -> & Hc & Hl)]; [done|]. apply mw_step_shape in Hs as (-> & -> & Hc1 & Hl1). split_and!; auto.
Qed.

Definition newMiddleware (cfg : StorageMiddlewareConfig) : StorageMiddleware := StorageMiddlewareWithPool (withDefaults cfg).

Lemma newMiddleware_ok cfg : queue_ok (start_mw (newMiddleware cfg)) ∧ (0 < length (workers (newMiddleware cfg)))%nat ∧ (0 < maxQueueSize (newMiddleware cfg))%nat.
Proof.
  split_and!.
  - apply start_ok; [done..|]. apply Forall_replicate. done.
  - cbn. rewrite length_replicate. case_match eqn:E; [cbn; lia|]. apply Z.leb_gt in E. lia.
  - cbn. case_match eqn:E; [cbn; lia|]. apply Z.leb_gt in E. lia.
Qed.

(** C37: no offered record is lost or saved twice, however handlers, workers and calls of
    Shutdown interleave: each is queued, rejected by a full queue or dropped after the
    shutdown began; those that were queued are taken in order, are in the hands of one
    worker or saved (or failed) once; the queue keeps its bound; and when a call of
    Shutdown has returned without giving up, everything queued was saved or failed. *)
Theorem queue_accounts store cfg m r :
  NewStorageMiddlewareWithPool store cfg = Ok m → rtc mw_step (start_mw m) r →
  mr_offered r ≡ₚ mr_accepted r ++ mr_rejected r ++ mr_dropped r ∧
  mr_accepted r = mr_taken r ++ jobs (mr_mw r) ∧
  mr_taken r ≡ₚ held (workers (mr_mw r)) ++ map fst (mr_done r) ∧
  (length (jobs (mr_mw r)) ≤ maxQueueSize m)%nat ∧
  rejectedCount (mr_mw r) = wrap64 (Z.of_nat (length (mr_rejected r))) ∧
  (Finished ∈ mr_calls r → mr_accepted r ≡ₚ map fst (mr_done r)).
Proof.
  intros Hm Hr. unfold NewStorageMiddlewareWithPool in Hm. destruct store; [|done]. injection Hm as <-. fold (newMiddleware cfg) in *.
  destruct (newMiddleware_ok cfg) as (H0 & Hw & _). pose proof (mw_reachable_ok _ _ H0 Hr) as H. destruct (mw_reachable_shape _ _ Hr) as (Hlen & Hmax & _).
  cbn [mr_mw start_mw] in *. split_and!; [apply H|apply H|apply H|rewrite <- Hmax; apply H|apply H|]. intros Hf. apply (qo_finished _ H) in Hf.
  destruct (lookup_lt_is_Some_2 (workers (mr_mw r)) 0 ltac:(lia)) as [w Ew]. pose proof (done_worker _ _ _ Hf Ew) as ->.
  destruct (qo_ended _ H _ Ew) as [_ Hj]. rewrite (qo_order _ H), Hj, app_nil_r, (qo_done _ H), (done_held _ Hf). done.
Qed.

(** ** The shutdown ends *)

Definition worker_work (w : Worker) : nat := match w with Ended => 0 | Receiving => 1 | Saving _ _ => 2 | Took _ => 3 end.
Definition pending_work (m : StorageMiddleware) : nat := (4 * length (jobs m) + sum_list_with worker_work (workers m))%nat.

Lemma work_update ws i w w' : ws !! i = Some w → (sum_list_with worker_work (<[i := w']> ws) + worker_work w = sum_list_with worker_work ws + worker_work w')%nat.
Proof.
  revert i. induction ws as [|v ws IH]; intros [|i] Hi; [done|done|..].
  - injection Hi as ->. change (<[0%nat := w']> (w :: ws)) with (w' :: ws). cbn [sum_list_with]. lia.
  - change (<[S i := w']> (v :: ws)) with (v :: <[i := w']> ws). cbn [sum_list_with]. specialize (IH i Hi). lia.
Qed.

Lemma worker_step_work r r' : worker_step r r' → (pending_work (mr_mw r') < pending_work (mr_mw r))%nat.
Proof.
  intros [i job q m Hj Hr|i m Hj Hr|i m Hr|i o job m Hr]; unfold pending_work.
  - unfold receiveJob in Hr. destruct (workers (mr_mw r) !! i) as [[]|] eqn:Ei; try done. rewrite Hj in *. injection Hr as <-.
    apply work_update with (w' := Took job) in Ei. cbn [jobs workers with_jobs with_counts mr_mw run_taken run_done run_mw worker_work length] in *. lia.
  - unfold receiveJob in Hr. destruct (workers (mr_mw r) !! i) as [[]|] eqn:Ei; try done. rewrite Hj in *. destruct (jobsClosed _); [|done]. injection Hr as <-.
    apply work_update with (w' := Ended) in Ei. cbn [jobs workers with_jobs with_counts mr_mw run_taken run_done run_mw worker_work length] in *. lia.
  - unfold lookDraining in Hr. destruct (workers (mr_mw r) !! i) as [[|job| |]|] eqn:Ei; try done. injection Hr as <-.
    apply work_update with (w' := Saving job (cancelled (mr_mw r))) in Ei. cbn [jobs workers with_jobs with_counts mr_mw run_taken run_done run_mw worker_work length] in *. lia.
  - unfold processStorageJob in Hr. destruct (workers (mr_mw r) !! i) as [[| |job' d|]|] eqn:Ei; try done. injection Hr as <- <-.
    apply work_update with (w' := Receiving) in Ei. cbn [jobs workers with_jobs with_counts mr_mw run_taken run_done run_mw worker_work length] in *. lia.
Qed.

Lemma workers_stuck r : jobsClosed (mr_mw r) = true → (∀ r', ¬ worker_step r r') → workersDone (mr_mw r) = true.
Proof.
  intros Hc Hend. unfold workersDone. apply forallb_forall. intros w [i Hi]%list_elem_of_In%list_elem_of_lookup. destruct w as [|job|job d|]; [| | |done]; exfalso.
  - destruct (jobs (mr_mw r)) as [|job q] eqn:Ej; eapply Hend; [apply (step_ends r i)|apply (step_takes r i job q)]; try done;
      unfold receiveJob; rewrite Hi, Ej; rewrite ?Hc; reflexivity.
  - eapply Hend, (step_looks r i). unfold lookDraining. rewrite Hi. reflexivity.
  - eapply Hend, (step_saves r i SaveOk). unfold processStorageJob. rewrite Hi. reflexivity.
Qed.

(** A shutdown ends: from the moment the queue is closed, whatever was queued, the
    workers alone reach their end within a number of steps known in advance, without
    another call of anyone, if every save returns, fails or panics; they can only stop
    when everything queued was saved or failed, and then Shutdown can return. *)
Theorem shutdown_drains store cfg m r :
  NewStorageMiddlewareWithPool store cfg = Ok m → rtc mw_step (start_mw m) r → jobsClosed (mr_mw r) = true →
  (∀ n r', nsteps worker_step n r r' → (n ≤ pending_work (mr_mw r))%nat) ∧
  (∀ r', rtc worker_step r r' → (∀ r2, ¬ worker_step r' r2) →
     workersDone (mr_mw r') = true ∧ mr_accepted r' ≡ₚ map fst (mr_done r') ∧ mr_accepted r' = mr_accepted r).
Proof.
  intros Hm Hr Hc. unfold NewStorageMiddlewareWithPool in Hm. destruct store; [|done]. injection Hm as <-. fold (newMiddleware cfg) in *.
  destruct (newMiddleware_ok cfg) as (H0 & Hw & _). split.
  - clear. intros n r' Hn. induction Hn as [r|n r r1 r2 Hs _ IH]; [lia|]. apply worker_step_work in Hs. lia.
  - intros r' Hr' Hend.
    assert (Hall : rtc mw_step (start_mw (newMiddleware cfg)) r').
    { etrans; [exact Hr|]. clear -Hr'. induction Hr' as [|r r1 r2 Hs _ IH]; [done|]. eapply rtc_l; [by apply step_worker|done]. }
    pose proof (mw_reachable_ok _ _ H0 Hall) as H. destruct (mw_reachable_shape _ _ Hall) as (Hlen & _).
    assert (Hsame : jobsClosed (mr_mw r') = true ∧ mr_accepted r' = mr_accepted r).
    { clear -Hr' Hc. induction Hr' as [|r r1 r2 Hs _ IH]; [done|]. pose proof (worker_step_shape _ _ Hs) as (_ & _ & Hcl & _).
      rewrite <- Hcl in Hc. destruct (IH Hc) as [? ->]. split; [done|]. by destruct Hs. }
    destruct Hsame as [Hc' Hacc]. pose proof (workers_stuck r' Hc' Hend) as Hd. split_and!; [done| |done].
    destruct (lookup_lt_is_Some_2 (workers (mr_mw r')) 0 ltac:(cbn in *; lia)) as [w Ew]. pose proof (done_worker _ _ _ Hd Ew) as ->.
    destruct (qo_ended _ H _ Ew) as [_ Hj]. rewrite (qo_order _ H), Hj, app_nil_r, (qo_done _ H), (done_held _ Hd). done.
Qed.

(** A second call of Shutdown closes the closed queue: it panics and keeps the lock, and
    no record can be offered and no Shutdown begun ever again - the handlers that offer
    one wait for ever. *)
Theorem second_shutdown_blocks r r1 r2 m m2 ok :
  ShutdownLocked (mr_mw r) = Some (true, m) → rtc mw_step (run_calls (mr_calls r ++ [Closed]) (run_mw m r)) r1 →
  ShutdownLocked (mr_mw r1) = Some (ok, m2) → rtc mw_step (run_calls (mr_calls r1 ++ [ShutdownPanicked]) (run_mw m2 r1)) r2 →
  ok = false ∧ (∀ job, trySendJob job (mr_mw r2) = None) ∧ ShutdownLocked (mr_mw r2) = None.
Proof.
  intros H1 Hr1 H2 Hr2. destruct (mw_reachable_shape _ _ Hr1) as (_ & _ & Hc & _). destruct (mw_reachable_shape _ _ Hr2) as (_ & _ & _ & Hl).
  assert (jobsClosed (mr_mw r1) = true) as Hc1.
  { apply Hc. unfold ShutdownLocked in H1. destruct (jobsLocked _); [done|]. destruct (jobsClosed _); [done|]. by injection H1 as <-. }
  unfold ShutdownLocked in H2. destruct (jobsLocked (mr_mw r1)); [done|]. rewrite Hc1 in H2. injection H2 as <- <-.
  specialize (Hl eq_refl). unfold trySendJob, ShutdownLocked. by rewrite Hl.
Qed.

(** ** Runs as programs *)

(** A step named by who takes it; [None] when it cannot be taken. *)
Inductive MwOp := OpOffer (job : StoredRequest) | OpReceive (i : nat) | OpLook (i : nat) | OpSave (i : nat) (outcome : SaveOutcome)
| OpShutdown | OpCancel (k : nat) | OpReturn (k : nat) | OpGiveUp (k : nat).

Definition runMwOp (o : MwOp) (r : MwRun) : option MwRun :=
  match o with
  | OpOffer job => '(s, m) ← trySendJob job (mr_mw r); Some (run_sent job s (run_mw m r))
  | OpReceive i =>
      m ← receiveJob i (mr_mw r);
      Some (match jobs (mr_mw r) with job :: _ => run_taken (mr_taken r ++ [job]) (run_mw m r) | [] => run_mw m r end)
  | OpLook i => m ← lookDraining i (mr_mw r); Some (run_mw m r)
  | OpSave i outcome => '(job, m) ← processStorageJob outcome i (mr_mw r); Some (run_done (mr_done r ++ [(job, outcome)]) (run_mw m r))
  | OpShutdown => '(ok, m) ← ShutdownLocked (mr_mw r); Some (run_calls (mr_calls r ++ [if ok : bool then Closed else ShutdownPanicked]) (run_mw m r))
  | OpCancel k => match mr_calls r !! k with Some Closed => Some (run_calls (<[k := Awaiting]> (mr_calls r)) (run_mw (cancelWorkers (mr_mw r)) r)) | _ => None end
  | OpReturn k => match mr_calls r !! k with Some Awaiting => if workersDone (mr_mw r) then Some (run_calls (<[k := Finished]> (mr_calls r)) r) else None | _ => None end
  | OpGiveUp k => match mr_calls r !! k with Some Awaiting => Some (run_calls (<[k := GaveUp]> (mr_calls r)) r) | _ => None end
  end.

Definition runMwOps (os : list MwOp) (r : MwRun) : option MwRun := foldl (λ r o, r ≫= runMwOp o) (Some r) os.

Lemma runMwOp_step o r r' : runMwOp o r = Some r' → mw_step r r'.
Proof.
  destruct o as [job|i|i|i outcome| |k|k|k]; cbn.
  - destruct (trySendJob _ _) as [[s m]|] eqn:E; [|done]. intros [= <-]. by apply step_offers.
  - destruct (receiveJob _ _) as [m|] eqn:E; [|done]. intros [= <-]. apply step_worker.
    destruct (jobs (mr_mw r)) as [|job q] eqn:Ej; [by eapply step_ends|by eapply step_takes].
  - destruct (lookDraining _ _) as [m|] eqn:E; [|done]. intros [= <-]. by eapply step_worker, step_looks.
  - destruct (processStorageJob _ _ _) as [[job m]|] eqn:E; [|done]. intros [= <-]. by eapply step_worker, step_saves.
  - destruct (ShutdownLocked _) as [[ok m]|] eqn:E; [|done]. intros [= <-]. by apply step_shuts.
  - destruct (mr_calls r !! k) as [[]|] eqn:E; try done. intros [= <-]. by apply step_cancels.
  - destruct (mr_calls r !! k) as [[]|] eqn:E; try done. destruct (workersDone _) eqn:Ed; [|done]. intros [= <-]. by apply step_returns.
  - destruct (mr_calls r !! k) as [[]|] eqn:E; try done. intros [= <-]. by apply step_gives_up.
Qed.

Lemma runMwOps_steps os : ∀ r r', runMwOps os r = Some r' → rtc mw_step r r'.
Proof.
  induction os as [|o os IH]; intros r r'; [by intros [= <-]|]. unfold runMwOps. cbn [foldl]. cbn [mbind option_bind].
  destruct (runMwOp o r) as [r1|] eqn:E.
  - intros H. eapply rtc_l; [by eapply runMwOp_step|by apply IH].
  - intros H. exfalso. clear -H. induction os; [done|by apply IHos].
Qed.

(** ** At concrete runs *)

Module QueueExample.
Definition config : StorageMiddlewareConfig := {| Workers := 1; QueueSize := 1; cf_MaxBodySize := 8; cf_metrics := true |}.
Definition middleware : StorageMiddleware := newMiddleware config.

Definition job (id : string) : StoredRequest :=
  {| sr_ID := id; sr_Timestamp := 0; sr_Method := "REQMOD"; sr_URI := ""; sr_Headers := NewHeader; sr_HTTPRequest := None; sr_HTTPResponse := None;
     sr_ClientIP := ""; sr_RemoteAddr := ""; sr_ProcessingTimeMs := 0; sr_ResponseStatus := 204 |}.

Definition after (os : list MwOp) (r : MwRun) : MwRun := default r (runMwOps os r).

(** "a" is in the worker's hands, "b" waits, "c" is rejected; then the shutdown begins. *)
Definition busy : MwRun := Eval vm_compute in after [OpOffer (job "a"); OpReceive 0; OpOffer (job "b"); OpOffer (job "c")] (start_mw middleware).
Definition closing : MwRun := Eval vm_compute in after [OpShutdown] busy.

(** "d" comes too late; saving "a" panics. *)
Definition finished : MwRun := Eval vm_compute in
  after [OpOffer (job "d"); OpCancel 0; OpLook 0; OpSave 0 SavePanics; OpReceive 0; OpLook 0; OpSave 0 SaveOk; OpReceive 0; OpReturn 0] closing.

Lemma closing_reached : rtc mw_step (start_mw middleware) closing.
Proof. apply (runMwOps_steps [OpOffer (job "a"); OpReceive 0; OpOffer (job "b"); OpOffer (job "c"); OpShutdown]). vm_compute. reflexivity. Qed.

Lemma finished_reached : rtc mw_step (start_mw middleware) finished.
Proof.
  etrans; [exact closing_reached|].
  apply (runMwOps_steps [OpOffer (job "d"); OpCancel 0; OpLook 0; OpSave 0 SavePanics; OpReceive 0; OpLook 0; OpSave 0 SaveOk; OpReceive 0; OpReturn 0]).
  vm_compute. reflexivity.
Qed.
End QueueExample.

Lemma queue_accounts_witness :
  mr_calls QueueExample.finished = [Finished] ∧ mr_accepted QueueExample.finished ≡ₚ map fst (mr_done QueueExample.finished) ∧
  map sr_ID (mr_accepted QueueExample.finished) = ["a"; "b"] ∧ map sr_ID (mr_rejected QueueExample.finished) = ["c"] ∧
  map sr_ID (mr_dropped QueueExample.finished) = ["d"] ∧ drainedCount (mr_mw QueueExample.finished) = 1%nat.
Proof.
  destruct (queue_accounts true QueueExample.config QueueExample.middleware QueueExample.finished eq_refl QueueExample.finished_reached) as (_ & _ & _ & _ & _ & H).
  split; [reflexivity|]. split; [apply H; left|]. split_and!; reflexivity.
Defined.

Lemma shutdown_drains_witness :
  jobsClosed (mr_mw QueueExample.closing) = true ∧ ∀ n r', nsteps worker_step n QueueExample.closing r' → (n ≤ 7)%nat.
Proof.
  split; [reflexivity|]. destruct (shutdown_drains true QueueExample.config QueueExample.middleware QueueExample.closing eq_refl QueueExample.closing_reached eq_refl) as [H _].
  exact H.
Defined.

Lemma second_shutdown_blocks_witness :
  ∃ m, ShutdownLocked (mr_mw QueueExample.closing) = Some (false, m) ∧ ∀ job, trySendJob job m = None.
Proof.
  eexists. split; [reflexivity|].
  destruct (second_shutdown_blocks QueueExample.busy QueueExample.closing _ _ _ _ eq_refl (rtc_refl _ _) eq_refl (rtc_refl _ _)) as (_ & H & _). exact H.
Defined.
