(* ===== verification/DiskMonitor.v ===== *)
(** * The disk monitor: [internal/storage/disk_monitor.go], [disk_unix.go]

    Before a record is written, the monitor is asked whether the disk has room; the
    answer is cached for a while. A goroutine also measures from time to time. What the
    operating system says ([Probe]) and the clock are arguments. *)
From S2P Require Import Prelude GoInt GoFloat.

Local Open Scope Z_scope.

Record DiskMonitorConfig := {
  dc_Enabled : bool; dc_UseSyscalls : bool; dc_CheckInterval : Z; dc_CacheInterval : Z; dc_WarningThreshold : float64; dc_ErrorThreshold : float64
}.

Record DiskUsage := { Total : Z; Used : Z; Available : Z; UsagePercent : float64 }.

Definition noUsage : DiskUsage := {| Total := 0; Used := 0; Available := 0; UsagePercent := of_int 0 |}.

(** ** What the operating system says *)

Record Statfs := { st_Bsize : Z; st_Blocks : Z; st_Bfree : Z; st_Bavail : Z }.

Inductive WalkEntry := WalkFile (size : Z) | WalkDir | WalkDenied | WalkFault.

Inductive Probe := NotThere | StatFault | NotDirectory | Directory (statfs : option Statfs) (walk : list WalkEntry).

Inductive DiskFault := StatFailed | PathNotDirectory | WalkFailed.

Definition uint64 (z : Z) : Z := z mod 2 ^ 64.

Definition getDiskUsagePlatform (stat : Statfs) : Z * Z * Z :=
  let blockSize := uint64 (st_Bsize stat) in
  let total := uint64 (blockSize * st_Blocks stat) in
  let freeBytes := uint64 (blockSize * st_Bfree stat) in
  let available := uint64 (blockSize * st_Bavail stat) in
  (total, uint64 (total - freeBytes), available).

Definition getDiskUsageSyscalls (stat : Statfs) : DiskUsage :=
  let '(total, used, available) := getDiskUsagePlatform stat in
  {| Total := wrap64 total; Used := wrap64 used; Available := wrap64 available;
     UsagePercent := if 0 <? total then fdiv (of_int used) (of_int total) else of_int 0 |}.

(** Files that may not be read are passed over; any other fault ends the walk. *)
Fixpoint walkSize (size : Z) (walk : list WalkEntry) : option Z :=
  match walk with
  | [] => Some size
  | WalkFile n :: walk => walkSize (add64 size n) walk
  | WalkDir :: walk | WalkDenied :: walk => walkSize size walk
  | WalkFault :: _ => None
  end.

Definition estimatedTotal : Z := 100 * 1024 * 1024 * 1024.

Definition getDiskUsageWalk (walk : list WalkEntry) : result DiskFault DiskUsage :=
  match walkSize 0 walk with
  | None => Err WalkFailed
  | Some size =>
      Ok {| Total := estimatedTotal; Used := size; Available := sub64 estimatedTotal size; UsagePercent := fdiv (of_int size) (of_int estimatedTotal) |}
  end.

Definition getDiskUsageInternal (cfg : DiskMonitorConfig) (p : Probe) : result DiskFault DiskUsage :=
  match p with
  | NotThere => Ok {| Total := estimatedTotal; Used := 0; Available := estimatedTotal; UsagePercent := of_int 0 |}
  | StatFault => Err StatFailed
  | NotDirectory => Err PathNotDirectory
  | Directory statfs walk =>
      match (if dc_UseSyscalls cfg then statfs else None) with
      | Some stat => Ok (getDiskUsageSyscalls stat)
      | None => getDiskUsageWalk walk
      end
  end.

(** ** The monitor *)

(** [lastError] is an [atomic.Value]: it keeps the type of what was stored first, and
    storing a value of another type panics. An error is stored as a [*fmt.wrapError], the
    absence of one as a nil [*error]. *)
Inductive StoredError := WrapError (e : DiskFault) | NilPointer.

Definition same_type (a b : StoredError) : bool :=
  match a, b with WrapError _, WrapError _ | NilPointer, NilPointer => true | _, _ => false end.

(** The goroutine: not there, about to check for the first time, waiting for a tick. *)
Inductive Loop := NoLoop | Entered | Ticking.

Record DiskMonitor := {
  dm_lastError : option StoredError; dm_currentUsage : DiskUsage; dm_lastCheckTime : option Z;
  dm_isRunning : bool; dm_cancelled : bool; dm_loop : Loop
}.

Definition with_error (e : option StoredError) (dm : DiskMonitor) : DiskMonitor :=
  {| dm_lastError := e; dm_currentUsage := dm_currentUsage dm; dm_lastCheckTime := dm_lastCheckTime dm;
     dm_isRunning := dm_isRunning dm; dm_cancelled := dm_cancelled dm; dm_loop := dm_loop dm |}.
Definition with_usage (u : DiskUsage) (now : Z) (dm : DiskMonitor) : DiskMonitor :=
  {| dm_lastError := dm_lastError dm; dm_currentUsage := u; dm_lastCheckTime := Some now;
     dm_isRunning := dm_isRunning dm; dm_cancelled := dm_cancelled dm; dm_loop := dm_loop dm |}.
Definition with_loop (running cancelled : bool) (l : Loop) (dm : DiskMonitor) : DiskMonitor :=
  {| dm_lastError := dm_lastError dm; dm_currentUsage := dm_currentUsage dm; dm_lastCheckTime := dm_lastCheckTime dm;
     dm_isRunning := running; dm_cancelled := cancelled; dm_loop := l |}.

Inductive MonitorError := InvalidWarning | InvalidError | WarningNotLess.

Definition is_zero (f : float64) : bool := feq f (of_int 0).

Definition withDefaultThresholds (cfg : DiskMonitorConfig) : DiskMonitorConfig :=
  if is_zero (dc_WarningThreshold cfg) && is_zero (dc_ErrorThreshold cfg) then
    {| dc_Enabled := dc_Enabled cfg; dc_UseSyscalls := dc_UseSyscalls cfg; dc_CheckInterval := dc_CheckInterval cfg; dc_CacheInterval := dc_CacheInterval cfg;
       dc_WarningThreshold := literal 80 100; dc_ErrorThreshold := literal 95 100 |}
  else cfg.

Definition outside (f : float64) : bool := flt f (of_int 0) || flt (of_int 1) f.

Definition NewDiskMonitor (cfg : DiskMonitorConfig) : result MonitorError (DiskMonitorConfig * DiskMonitor) :=
  let cfg := withDefaultThresholds cfg in
  if outside (dc_WarningThreshold cfg) then Err InvalidWarning
  else if outside (dc_ErrorThreshold cfg) then Err InvalidError
  else if fle (dc_ErrorThreshold cfg) (dc_WarningThreshold cfg) then Err WarningNotLess
  else Ok (cfg, {| dm_lastError := None; dm_currentUsage := noUsage; dm_lastCheckTime := None; dm_isRunning := false; dm_cancelled := false; dm_loop := NoLoop |}).

Section Monitor.
Context (cfg : DiskMonitorConfig).

Definition cached (now : Z) (dm : DiskMonitor) : bool :=
  match dm_lastCheckTime dm with
  | Some t => now - t <? dc_CacheInterval cfg
  | None => false
  end.

Definition getDiskUsage (now : Z) (p : Probe) (dm : DiskMonitor) : result DiskFault DiskUsage * DiskMonitor :=
  if cached now dm then (Ok (dm_currentUsage dm), dm)
  else
    match getDiskUsageInternal cfg p with
    | Err e => (Err e, dm)
    | Ok usage => (Ok usage, with_usage usage now dm)
    end.

Inductive DiskNote := NoNote | IncStorageDiskErrors | IncStorageDiskWarnings.

Definition CheckDiskSpace (requiredBytes now : Z) (p : Probe) (dm : DiskMonitor) : result DiskFault bool * DiskNote * DiskMonitor :=
  if negb (dc_Enabled cfg) then (Ok true, NoNote, dm)
  else
    match getDiskUsage now p dm with
    | (Err e, dm) => (Err e, NoNote, dm)
    | (Ok usage, dm) =>
        if Available usage <? requiredBytes then (Ok false, IncStorageDiskErrors, dm)
        else if fle (dc_ErrorThreshold cfg) (UsagePercent usage) then (Ok false, IncStorageDiskErrors, dm)
        else if fle (dc_WarningThreshold cfg) (UsagePercent usage) then (Ok true, IncStorageDiskWarnings, dm)
        else (Ok true, NoNote, dm)
    end.

(** The caller, [FileStorage.ensureDiskSpace]: a disk that cannot be looked at does not
    stop a write. *)
Definition ensureDiskSpace (recordSize now : Z) (p : Probe) (dm : DiskMonitor) : bool * DiskMonitor :=
  match CheckDiskSpace recordSize now p dm with
  | (Err _, _, dm) => (true, dm)
  | (Ok canWrite, _, dm) => (canWrite, dm)
  end.

(** [None] is a panic, after the cache was brought up to date. *)
Definition storeError (e : StoredError) (dm : DiskMonitor) : bool * DiskMonitor :=
  match dm_lastError dm with
  | Some old => if same_type old e then (true, with_error (Some e) dm) else (false, dm)
  | None => (true, with_error (Some e) dm)
  end.

Definition checkDiskSpace (now : Z) (p : Probe) (dm : DiskMonitor) : bool * DiskMonitor :=
  match getDiskUsage now p dm with
  | (Err e, dm) => storeError (WrapError e) dm
  | (Ok _, dm) => storeError NilPointer dm
  end.

Definition GetLastError (dm : DiskMonitor) : option DiskFault :=
  match dm_lastError dm with Some (WrapError e) => Some e | _ => None end.

Definition Start (dm : DiskMonitor) : DiskMonitor :=
  if negb (dc_Enabled cfg) then dm
  else if dm_isRunning dm then dm
  else with_loop true (dm_cancelled dm) Entered dm.

(** [Stop] cancels and waits for the goroutine, here as one step. *)
Definition Stop (dm : DiskMonitor) : DiskMonitor :=
  if dm_isRunning dm then with_loop false true NoLoop dm else dm.

(** One check of [monitorLoop]; a panic ends the goroutine and nothing else. A ticker
    with no interval panics too. *)
Definition loopChecks (now : Z) (p : Probe) (dm : DiskMonitor) : DiskMonitor :=
  let '(survives, dm) := checkDiskSpace now p dm in
  with_loop (dm_isRunning dm) (dm_cancelled dm) (if survives then Ticking else NoLoop) dm.

Definition monitorLoop (now : Z) (p : Probe) (dm : DiskMonitor) : DiskMonitor :=
  match dm_loop dm with
  | NoLoop => dm
  | Entered => if dc_CheckInterval cfg <=? 0 then with_loop (dm_isRunning dm) (dm_cancelled dm) NoLoop dm else loopChecks now p dm
  | Ticking => loopChecks now p dm
  end.

(** ** Everything that happens to a monitor *)

(** [mr_outcomes]: whether each check of the goroutine could look at the disk;
    [mr_measured]: what was measured and when, the last first. With an interval that is
    not positive the goroutine panics before its first check. *)
Record MonitorRun := { mr_dm : DiskMonitor; mr_now : Z; mr_outcomes : list bool; mr_measured : list (Z * DiskUsage) }.

Definition measured (now : Z) (p : Probe) (dm : DiskMonitor) (l : list (Z * DiskUsage)) : list (Z * DiskUsage) :=
  if cached now dm then l else match getDiskUsageInternal cfg p with Ok u => (now, u) :: l | Err _ => l end.

Inductive monitor_step (r : MonitorRun) : MonitorRun → Prop :=
| step_start : monitor_step r {| mr_dm := Start (mr_dm r); mr_now := mr_now r; mr_outcomes := mr_outcomes r; mr_measured := mr_measured r |}
| step_writer now p bytes : mr_now r ≤ now → dc_Enabled cfg = true →
    monitor_step r {| mr_dm := (CheckDiskSpace bytes now p (mr_dm r)).2; mr_now := now; mr_outcomes := mr_outcomes r;
                      mr_measured := measured now p (mr_dm r) (mr_measured r) |}
| step_loop now p : mr_now r ≤ now → dm_loop (mr_dm r) ≠ NoLoop → 0 < dc_CheckInterval cfg →
    monitor_step r {| mr_dm := monitorLoop now p (mr_dm r); mr_now := now;
                      mr_outcomes := is_ok (getDiskUsage now p (mr_dm r)).1 :: mr_outcomes r;
                      mr_measured := measured now p (mr_dm r) (mr_measured r) |}
| step_no_ticker now p : mr_now r ≤ now → dm_loop (mr_dm r) = Entered → dc_CheckInterval cfg ≤ 0 →
    monitor_step r {| mr_dm := monitorLoop now p (mr_dm r); mr_now := now; mr_outcomes := mr_outcomes r; mr_measured := mr_measured r |}
| step_stop : monitor_step r {| mr_dm := Stop (mr_dm r); mr_now := mr_now r; mr_outcomes := mr_outcomes r; mr_measured := mr_measured r |}
| step_done : dm_loop (mr_dm r) = Ticking → dm_cancelled (mr_dm r) = true →
    monitor_step r {| mr_dm := with_loop (dm_isRunning (mr_dm r)) true NoLoop (mr_dm r); mr_now := mr_now r;
                      mr_outcomes := mr_outcomes r; mr_measured := mr_measured r |}.

Definition start_monitor (dm : DiskMonitor) (now : Z) : MonitorRun := {| mr_dm := dm; mr_now := now; mr_outcomes := []; mr_measured := [] |}.

(** ** The cache *)

Lemma getDiskUsage_frame now p dm : let dm' := (getDiskUsage now p dm).2 in
  dm_lastError dm' = dm_lastError dm ∧ dm_isRunning dm' = dm_isRunning dm ∧ dm_cancelled dm' = dm_cancelled dm ∧ dm_loop dm' = dm_loop dm.
Proof using. unfold getDiskUsage. destruct (cached now dm); [done|]. by destruct (getDiskUsageInternal cfg p). Qed.

Lemma CheckDiskSpace_usage bytes now p dm : dc_Enabled cfg = true → (CheckDiskSpace bytes now p dm).2 = (getDiskUsage now p dm).2.
Proof using.
  intros He. unfold CheckDiskSpace. rewrite He. cbn [negb]. destruct (getDiskUsage now p dm) as [[u|e] dm']; [|done].
  destruct (_ <? _); [done|]. destruct (fle (dc_ErrorThreshold cfg) _); [done|]. by destruct (fle _ _).
Qed.

Lemma checkDiskSpace_frame now p dm : let dm1 := (getDiskUsage now p dm).2 in let dm' := (checkDiskSpace now p dm).2 in
  dm_currentUsage dm' = dm_currentUsage dm1 ∧ dm_lastCheckTime dm' = dm_lastCheckTime dm1 ∧
  dm_isRunning dm' = dm_isRunning dm1 ∧ dm_cancelled dm' = dm_cancelled dm1 ∧ dm_loop dm' = dm_loop dm1.
Proof using.
  cbv zeta. unfold checkDiskSpace. destruct (getDiskUsage now p dm) as [[e|u] dm']; unfold storeError; destruct (dm_lastError dm') as [o|]; try done; by destruct (same_type _ _).
Qed.

Lemma monitorLoop_usage now p dm : dm_loop dm ≠ NoLoop → 0 < dc_CheckInterval cfg → let dm1 := (getDiskUsage now p dm).2 in
  dm_currentUsage (monitorLoop now p dm) = dm_currentUsage dm1 ∧ dm_lastCheckTime (monitorLoop now p dm) = dm_lastCheckTime dm1.
Proof using.
  intros Hl Hi. cbv zeta. unfold monitorLoop. rewrite (proj2 (Z.leb_gt _ _)) by done. unfold loopChecks.
  destruct (checkDiskSpace_frame now p dm) as (Hu & Ht & _). destruct (checkDiskSpace now p dm) as [s dm']. cbn [snd] in *. by destruct (dm_loop dm).
Qed.

Lemma no_ticker now p dm : dm_loop dm = Entered → dc_CheckInterval cfg ≤ 0 →
  monitorLoop now p dm = with_loop (dm_isRunning dm) (dm_cancelled dm) NoLoop dm.
Proof using. intros Hl Hi. unfold monitorLoop. by rewrite Hl, (proj2 (Z.leb_le _ _)) by done. Qed.

(** What is cached is what was measured last; measurements keep their distance. *)
Fixpoint spaced (l : list (Z * DiskUsage)) : Prop :=
  match l with
  | (t, _) :: ((t', _) :: _) as l' => dc_CacheInterval cfg ≤ t - t' ∧ spaced l'
  | _ => True
  end.

Definition cache_ok (dm : DiskMonitor) (l : list (Z * DiskUsage)) : Prop :=
  spaced l ∧ match l with
             | [] => dm_lastCheckTime dm = None
             | (t, u) :: _ => dm_lastCheckTime dm = Some t ∧ dm_currentUsage dm = u
             end.

Lemma cache_measured now p dm l : cache_ok dm l → cache_ok (getDiskUsage now p dm).2 (measured now p dm l).
Proof using.
  intros [Hs Hl]. unfold getDiskUsage, measured, cached in *. destruct l as [|[t u] l].
  - rewrite Hl. by destruct (getDiskUsageInternal cfg p).
  - destruct Hl as [Ht Hu]. rewrite Ht. destruct (Z.ltb_spec (now - t) (dc_CacheInterval cfg)); [done|]. by destruct (getDiskUsageInternal cfg p).
Qed.

Lemma cache_ok_ext dm dm' l : dm_currentUsage dm' = dm_currentUsage dm → dm_lastCheckTime dm' = dm_lastCheckTime dm → cache_ok dm l → cache_ok dm' l.
Proof using. unfold cache_ok. intros -> ->. done. Qed.

Lemma step_cache r r' : cache_ok (mr_dm r) (mr_measured r) → monitor_step r r' → cache_ok (mr_dm r') (mr_measured r').
Proof using.
  intros H Hs. destruct Hs as [|now p bytes Hn He|now p Hn Hl Hi|now p Hn Hl Hi| |Hl Hc]; cbn.
  - revert H. apply cache_ok_ext; unfold Start; destruct (negb _); try done; by destruct (dm_isRunning (mr_dm r)).
  - rewrite CheckDiskSpace_usage by done. by apply cache_measured.
  - destruct (monitorLoop_usage now p (mr_dm r) Hl Hi) as [Hu Ht]. eapply cache_ok_ext; [exact Hu|exact Ht|]. by apply cache_measured.
  - rewrite no_ticker by done. exact H.
  - revert H. apply cache_ok_ext; unfold Stop; by destruct (dm_isRunning (mr_dm r)).
  - exact H.
Qed.

Lemma steps_cache r r' : cache_ok (mr_dm r) (mr_measured r) → rtc monitor_step r r' → cache_ok (mr_dm r') (mr_measured r').
Proof using. intros H Hs. induction Hs as [r|r r1 r2 Hstep _ IH]; [done|]. by apply IH, (step_cache r). Qed.
End Monitor.

(** The answer about the disk is a measurement of this moment or the last one, less
    than [CacheInterval] ago; and the disk is not measured more often than once in
    [CacheInterval], however many writers ask, as long as it can be measured. *)
Theorem usage_recent cfg0 cfg dm now0 r now p u :
  NewDiskMonitor cfg0 = Ok (cfg, dm) → rtc (monitor_step cfg) (start_monitor dm now0) r →
  (getDiskUsage cfg now p (mr_dm r)).1 = Ok u →
  spaced cfg (mr_measured r) ∧
  (getDiskUsageInternal cfg p = Ok u ∨ ∃ t, head (mr_measured r) = Some (t, u) ∧ now - t < dc_CacheInterval cfg).
Proof.
  intros E Hr Hu. assert (H0 : cache_ok cfg dm []).
  { unfold NewDiskMonitor in E. cbv zeta in E. destruct (outside _); [done|]. destruct (outside _); [done|]. destruct (fle _ _); [done|]. by injection E as <- <-. }
  destruct (steps_cache cfg (start_monitor dm now0) r H0 Hr) as [Hs Hl]. split; [exact Hs|]. unfold getDiskUsage, cached in Hu.
  destruct (mr_measured r) as [|[t u'] l].
  - rewrite Hl in Hu. left. destruct (getDiskUsageInternal cfg p); [|done]. cbn in Hu. by injection Hu as ->.
  - destruct Hl as [Ht Hc]. rewrite Ht in Hu. destruct (Z.ltb_spec (now - t) (dc_CacheInterval cfg)).
    + right. exists t. cbn in Hu. injection Hu as <-. by rewrite Hc.
    + left. destruct (getDiskUsageInternal cfg p); [|done]. cbn in Hu. by injection Hu as ->.
Qed.

(** ** The goroutine *)

Definition mixed (outcomes : list bool) : bool := existsb id outcomes && existsb negb outcomes.

Section Loop.
Context (cfg : DiskMonitorConfig).

Definition kept_error (outcomes : list bool) (e : option StoredError) : Prop :=
  match outcomes, e with
  | [], None => True
  | true :: _, Some NilPointer | false :: _, Some (WrapError _) => True
  | _, _ => False
  end.

(** While the goroutine lives, all its checks ended alike; when it could not begin, there
    were none. *)
Definition loop_ok (r : MonitorRun) : Prop :=
  let dm := mr_dm r in
  dm_cancelled dm = false →
  (dm_loop dm = NoLoop → mr_outcomes r = [] ∧ dm_lastError dm = None ∧ dm_isRunning dm = false ∨ mixed (mr_outcomes r) = true ∧ dm_isRunning dm = true
     ∨ dc_CheckInterval cfg ≤ 0 ∧ mr_outcomes r = [] ∧ dm_isRunning dm = true) ∧
  (dm_loop dm ≠ NoLoop → dm_isRunning dm = true ∧ mixed (mr_outcomes r) = false ∧ kept_error (mr_outcomes r) (dm_lastError dm) ∧
     (dc_CheckInterval cfg ≤ 0 → mr_outcomes r = [])).

Lemma mixed_cons b b' l : mixed (b' :: l) = false → mixed (b :: b' :: l) = negb (eqb b b').
Proof using. unfold mixed. cbn. by destruct b, b', (existsb id l), (existsb negb l). Qed.

Lemma loopChecks_ok now p dm outcomes : mixed outcomes = false → kept_error outcomes (dm_lastError dm) → dm_isRunning dm = true →
  let dm' := loopChecks cfg now p dm in let outcomes' := is_ok (getDiskUsage cfg now p dm).1 :: outcomes in
  dm_isRunning dm' = true ∧ dm_cancelled dm' = dm_cancelled dm ∧
  (dm_loop dm' = NoLoop ∧ mixed outcomes' = true ∨ dm_loop dm' = Ticking ∧ mixed outcomes' = false ∧ kept_error outcomes' (dm_lastError dm')).
Proof using.
  intros Hm Hk Hr. cbv zeta. unfold loopChecks, checkDiskSpace. destruct (getDiskUsage_frame cfg now p dm) as (He & Hr' & Hc & _).
  destruct (getDiskUsage cfg now p dm) as [[u|e] dm1]; cbn [fst snd is_ok] in *; unfold storeError; rewrite He;
    destruct outcomes as [|b' l]; try (rewrite (mixed_cons _ _ _ Hm)); destruct (dm_lastError dm) as [[e'|]|]; try destruct b'; cbn in Hk |- *;
    (try done); rewrite ?Hr', ?Hc; (split; [done|]); (split; [done|]); (by left) || (by right).
Qed.

Lemma step_loop_ok r r' : loop_ok r → monitor_step cfg r r' → loop_ok r'.
Proof using.
  intros H Hs. destruct Hs as [|now p bytes Hn He|now p Hn Hl Hi|now p Hn Hl Hi| |Hl Hc]; unfold loop_ok in *; cbn [mr_dm mr_outcomes] in *.
  - unfold Start. destruct (negb _); [done|]. destruct (dm_isRunning (mr_dm r)) eqn:Er; [by rewrite Er in *|]. cbn. intros Hc. destruct (H Hc) as [H1 H2].
    split; [done|]. intros _. destruct (dm_loop (mr_dm r)); [|by destruct (H2 ltac:(done)) as [? _]..].
    destruct (H1 eq_refl) as [(-> & -> & _)|[[_ ?]|(_ & _ & ?)]]; [|congruence..]. by split_and!.
  - rewrite CheckDiskSpace_usage by done. destruct (getDiskUsage_frame cfg now p (mr_dm r)) as (E1 & E2 & E3 & E4). by rewrite E1, E2, E3, E4.
  - assert (E : monitorLoop cfg now p (mr_dm r) = loopChecks cfg now p (mr_dm r)).
    { unfold monitorLoop. rewrite (proj2 (Z.leb_gt _ _)) by done. by destruct (dm_loop (mr_dm r)). }
    rewrite E. clear E. intros Hc.
    assert (Hc0 : dm_cancelled (mr_dm r) = false).
    { rewrite <- Hc. unfold loopChecks. destruct (checkDiskSpace_frame cfg now p (mr_dm r)) as (_ & _ & _ & E3 & _).
      destruct (getDiskUsage_frame cfg now p (mr_dm r)) as (_ & _ & E3' & _). destruct (checkDiskSpace cfg now p (mr_dm r)). cbn in *. by rewrite E3, E3'. }
    destruct (H Hc0) as [_ H2]. destruct (H2 Hl) as (Hr & Hm & Hk & _).
    destruct (loopChecks_ok now p (mr_dm r) _ Hm Hk Hr) as (Hr' & _ & [[Hn' Hm']|(Ht & Hm' & Hk')]); split; intros Hx; (auto; try congruence).
    split_and!; [done..|lia].
  - rewrite no_ticker by done. cbn. intros Hc. destruct (H Hc) as [_ H2]. destruct (H2 ltac:(congruence)) as (Hr & _ & _ & Ho).
    split; [|done]. intros _. right; right. auto.
  - unfold Stop. destruct (dm_isRunning (mr_dm r)) eqn:Er; [done|]. by rewrite Er in *.
  - done.
Qed.

Lemma step_cancelled r r' : monitor_step cfg r r' → dm_cancelled (mr_dm r) = true → dm_cancelled (mr_dm r') = true.
Proof using.
  intros Hs Hc. destruct Hs as [|now p bytes Hn He|now p Hn Hl Hi|now p Hn Hl Hi| |Hl Hc']; cbn.
  - unfold Start. destruct (negb _); [done|]. by destruct (dm_isRunning _).
  - rewrite CheckDiskSpace_usage by done. destruct (getDiskUsage_frame cfg now p (mr_dm r)) as (_ & _ & E3 & _). by rewrite E3.
  - unfold monitorLoop. destruct (dm_loop (mr_dm r)); [done|..]; try rewrite (proj2 (Z.leb_gt _ _)) by done; unfold loopChecks;
      destruct (checkDiskSpace_frame cfg now p (mr_dm r)) as (_ & _ & _ & E3 & _); destruct (getDiskUsage_frame cfg now p (mr_dm r)) as (_ & _ & E3' & _);
      destruct (checkDiskSpace cfg now p (mr_dm r)); cbn in *; congruence.
  - by rewrite no_ticker by done.
  - unfold Stop. by destruct (dm_isRunning _).
  - done.
Qed.

Lemma steps_cancelled r r' : rtc (monitor_step cfg) r r' → dm_cancelled (mr_dm r') = false → dm_cancelled (mr_dm r) = false.
Proof using.
  intros Hs Hc. destruct (dm_cancelled (mr_dm r)) eqn:E; [|done]. rewrite <- Hc. clear Hc.
  induction Hs as [r|r r1 r2 Hstep _ IH]; [done|]. apply IH. by eapply step_cancelled.
Qed.

Lemma dead_stays r r' : rtc (monitor_step cfg) r r' → dm_cancelled (mr_dm r') = false → dm_loop (mr_dm r) = NoLoop → dm_isRunning (mr_dm r) = true →
  dm_loop (mr_dm r') = NoLoop ∧ dm_isRunning (mr_dm r') = true ∧ mr_outcomes r' = mr_outcomes r.
Proof using.
  intros Hs Hc. induction Hs as [r|r r1 r2 Hstep Hs IH]; [done|]. intros Hl Hr. pose proof (steps_cancelled _ _ Hs Hc) as Hc1.
  assert (H : dm_loop (mr_dm r1) = NoLoop ∧ dm_isRunning (mr_dm r1) = true ∧ mr_outcomes r1 = mr_outcomes r).
  { destruct Hstep as [|now p bytes Hn He|now p Hn Hl' Hi|now p Hn Hl' Hi| |Hl' Hc']; cbn in *.
    - unfold Start. rewrite Hr. by destruct (negb _).
    - rewrite CheckDiskSpace_usage by done. destruct (getDiskUsage_frame cfg now p (mr_dm r)) as (_ & E2 & _ & E4). by rewrite E2, E4.
    - done.
    - congruence.
    - unfold Stop in *. by rewrite Hr in *.
    - done. }
  destruct H as (H1 & H2 & H3). rewrite <- H3. by apply IH.
Qed.
End Loop.

(** C34: The goroutine that measures the disk ends for good as soon as one check has
    failed and another has not, in either order - the second kind of outcome panics when
    it is stored - and only then; the monitor goes on saying that it runs, and [Start]
    does nothing. *)
Theorem monitor_ends_silently cfg0 cfg dm now0 r :
  NewDiskMonitor cfg0 = Ok (cfg, dm) → rtc (monitor_step cfg) (start_monitor dm now0) r → dm_cancelled (mr_dm r) = false → mr_outcomes r ≠ [] →
  (dm_loop (mr_dm r) = NoLoop ↔ mixed (mr_outcomes r) = true) ∧
  (mixed (mr_outcomes r) = true → ∀ r', rtc (monitor_step cfg) r r' → dm_cancelled (mr_dm r') = false →
     mr_outcomes r' = mr_outcomes r ∧ dm_isRunning (mr_dm r') = true).
Proof.
  intros E Hr Hc Hne.
  assert (H0 : loop_ok cfg (start_monitor dm now0)).
  { unfold NewDiskMonitor in E. cbv zeta in E. destruct (outside _); [done|]. destruct (outside _); [done|]. destruct (fle _ _); [done|]. injection E as <- <-.
    intros _. split; [by left|done]. }
  assert (Hok : loop_ok cfg r) by (clear -H0 Hr; induction Hr as [r|r r1 r2 Hstep _ IH]; [done|]; apply IH; by eapply step_loop_ok).
  destruct (Hok Hc) as [H1 H2].
  assert (Hiff : dm_loop (mr_dm r) = NoLoop ↔ mixed (mr_outcomes r) = true).
  { split; intros H; [by destruct (H1 H) as [[? _]|[[? _]|(_ & ? & _)]]|]. destruct (dm_loop (mr_dm r)); [done|..]; destruct (H2 ltac:(done)) as (_ & ? & _ & _); congruence. }
  split; [exact Hiff|]. intros Hm r' Hr' Hc'. apply Hiff in Hm. destruct (H1 Hm) as [[? _]|[[_ Hrun]|(_ & ? & _)]]; [done| |done].
  by destruct (dead_stays cfg r r' Hr' Hc' Hm Hrun) as (_ & ? & ?).
Qed.

(** ** At concrete inputs *)

Definition toy_disk : DiskMonitorConfig :=
  {| dc_Enabled := true; dc_UseSyscalls := true; dc_CheckInterval := 30; dc_CacheInterval := 5; dc_WarningThreshold := of_int 0; dc_ErrorThreshold := of_int 0 |}.
Definition toy_cfg : DiskMonitorConfig := withDefaultThresholds toy_disk.
Definition toy_dm : DiskMonitor :=
  {| dm_lastError := None; dm_currentUsage := noUsage; dm_lastCheckTime := None; dm_isRunning := false; dm_cancelled := false; dm_loop := NoLoop |}.

(** 80 of 100 blocks in use, then a disk that cannot be looked at. *)
Definition toy_statfs : Probe := Directory (Some {| st_Bsize := 4096; st_Blocks := 100; st_Bfree := 20; st_Bavail := 10 |}) [].

Example toy_decisions :
  map (λ bytes, (CheckDiskSpace toy_cfg bytes 0 toy_statfs toy_dm).1) [40960; 40961] = [(Ok true, IncStorageDiskWarnings); (Ok false, IncStorageDiskErrors)] ∧
  ensureDiskSpace toy_cfg 40961 0 StatFault toy_dm = (true, toy_dm).
Proof. split; vm_compute; reflexivity. Qed.

Definition toy_started : MonitorRun := {| mr_dm := Start toy_cfg toy_dm; mr_now := 0; mr_outcomes := []; mr_measured := [] |}.
Definition toy_loop (now : Z) (p : Probe) (r : MonitorRun) : MonitorRun :=
  {| mr_dm := monitorLoop toy_cfg now p (mr_dm r); mr_now := now; mr_outcomes := is_ok (getDiskUsage toy_cfg now p (mr_dm r)).1 :: mr_outcomes r;
     mr_measured := measured toy_cfg now p (mr_dm r) (mr_measured r) |}.
Definition toy_measured : MonitorRun := toy_loop 0 toy_statfs toy_started.
Definition toy_ended : MonitorRun := toy_loop 30 StatFault toy_measured.

Lemma toy_run : rtc (monitor_step toy_cfg) (start_monitor toy_dm 0) toy_measured ∧ monitor_step toy_cfg toy_measured toy_ended.
Proof.
  split.
  - eapply rtc_l; [apply step_start|]. apply rtc_once. apply (step_loop toy_cfg toy_started 0 toy_statfs); [cbn; lia|discriminate|reflexivity].
  - apply (step_loop toy_cfg toy_measured 30 StatFault); [cbn; lia|discriminate|reflexivity].
Qed.

Lemma usage_recent_witness : ∃ u, (getDiskUsage toy_cfg 4 StatFault (mr_dm toy_measured)).1 = Ok u ∧
  (getDiskUsageInternal toy_cfg StatFault = Ok u ∨ ∃ t, head (mr_measured toy_measured) = Some (t, u) ∧ 4 - t < 5).
Proof.
  eexists. split; [vm_compute; reflexivity|]. eapply (usage_recent toy_disk toy_cfg toy_dm 0 toy_measured 4 StatFault).
  - vm_compute. reflexivity.
  - apply toy_run.
  - vm_compute. reflexivity.
Defined.

Lemma monitor_ends_silently_witness : mixed (mr_outcomes toy_ended) = true ∧ dm_loop (mr_dm toy_ended) = NoLoop ∧ dm_isRunning (mr_dm toy_ended) = true.
Proof.
  assert (Hm : mixed (mr_outcomes toy_ended) = true) by (vm_compute; reflexivity). split; [exact Hm|].
  destruct (monitor_ends_silently toy_disk toy_cfg toy_dm 0 toy_ended) as [Hiff H].
  - vm_compute. reflexivity.
  - eapply rtc_r; apply toy_run.
  - vm_compute. reflexivity.
  - vm_compute. discriminate.
  - split; [by apply Hiff|]. by apply (H Hm toy_ended).
Defined.
