(* ===== verification/Watcher.v ===== *)
(** * Watching scenario files: [internal/storage/scenario_watcher.go]

    File system events schedule a reload of the registry after a pause without further
    events. Each event of a path gets the next number of the path and a timer; a timer
    reloads only when its number is still the path's. A timer that has gone off runs its
    function some time later, and stopping it does not take that back. The event library
    and the clock are outside: which event comes, and when timers go off, is any step. *)
From S2P Require Import Prelude GoInt GoStrings.

Local Open Scope Z_scope.

(** ** Which events count *)

Record Event := { ev_Name : string; ev_Write : bool; ev_Create : bool }.

(** [filepath.Ext]: from the last dot of the last element. *)
Fixpoint extFrom (ext : string) (s : string) : string :=
  match s with
  | "" => ext
  | String c s' => if Ascii.eqb c "/" then extFrom "" s' else if Ascii.eqb c "." then extFrom (String c s') s' else extFrom ext s'
  end.

Definition upToSlash (ext : string) : bool := str_forall (λ c, negb (Ascii.eqb c "/")) ext.

Definition Ext (path : string) : string := let e := extFrom "" path in if upToSlash e then e else "".

Record HotReloadConfig := { WatchDirectory : bool }.

Definition isRelevantEvent (cfg : HotReloadConfig) (filePath : string) (event : Event) : bool :=
  (ev_Write event || ev_Create event)
  && (let ext := to_lower (Ext (ev_Name event)) in String.eqb ext ".yaml" || String.eqb ext ".yml")
  && (WatchDirectory cfg || String.eqb (ev_Name event) filePath).

Example relevant :
  map (λ n, isRelevantEvent {| WatchDirectory := true |} "/s/a.yaml" {| ev_Name := n; ev_Write := true; ev_Create := false |})
    ["/s/a.yaml"; "/s/b.YML"; "/s.yaml/a"; "/s/a.yaml.swp"; "/s/.yaml"] = [true; true; false; false; true].
Proof. reflexivity. Qed.

(** ** Timers *)

(** A timer that has not gone off, or whose function runs and waits for the lock. *)
Inductive TimerState := Armed | Fired.

Record Timer := { tm_path : string; tm_seq : Z; tm_state : TimerState }.

Record ScenarioWatcher := {
  debounceSeq : gmap string Z; debounceTim : gmap string nat; timers : gmap nat Timer; nextTimer : nat; cancelled : bool
}.

Definition NewScenarioWatcher : ScenarioWatcher := {| debounceSeq := ∅; debounceTim := ∅; timers := ∅; nextTimer := 0; cancelled := false |}.

(** [Timer.Stop]: nothing happens to one that has gone off. *)
Definition stopTimer (id : nat) (ts : gmap nat Timer) : gmap nat Timer :=
  match ts !! id with
  | Some t => match tm_state t with Armed => delete id ts | Fired => ts end
  | None => ts
  end.

Definition seqOf (path : string) (w : ScenarioWatcher) : Z := default 0 (debounceSeq w !! path).

Definition scheduleReload (path : string) (w : ScenarioWatcher) : ScenarioWatcher :=
  let seq := (seqOf path w + 1) mod 2 ^ 64 in
  let ts := match debounceTim w !! path with Some id => stopTimer id (timers w) | None => timers w end in
  {| debounceSeq := <[path := seq]> (debounceSeq w); debounceTim := <[path := nextTimer w]> (debounceTim w);
     timers := <[nextTimer w := {| tm_path := path; tm_seq := seq; tm_state := Armed |}]> ts; nextTimer := S (nextTimer w); cancelled := cancelled w |}.

Definition handleEvent (cfg : HotReloadConfig) (filePath : string) (event : Event) (w : ScenarioWatcher) : ScenarioWatcher :=
  if isRelevantEvent cfg filePath event then scheduleReload (ev_Name event) w else w.

(** The function of a timer: whether it reloads. *)
Definition runTimer (id : nat) (t : Timer) (w : ScenarioWatcher) : bool * ScenarioWatcher :=
  if negb (seqOf (tm_path t) w =? tm_seq t) then
    (false, {| debounceSeq := debounceSeq w; debounceTim := debounceTim w; timers := delete id (timers w); nextTimer := nextTimer w; cancelled := cancelled w |})
  else
    (true, {| debounceSeq := delete (tm_path t) (debounceSeq w); debounceTim := delete (tm_path t) (debounceTim w); timers := delete id (timers w);
              nextTimer := nextTimer w; cancelled := cancelled w |}).

Definition fireTimer (id : nat) (t : Timer) (w : ScenarioWatcher) : ScenarioWatcher :=
  {| debounceSeq := debounceSeq w; debounceTim := debounceTim w; timers := <[id := {| tm_path := tm_path t; tm_seq := tm_seq t; tm_state := Fired |}]> (timers w);
     nextTimer := nextTimer w; cancelled := cancelled w |}.

(** [Stop] up to the end of its critical section. *)
Definition stopWatcher (w : ScenarioWatcher) : ScenarioWatcher :=
  {| debounceSeq := ∅; debounceTim := ∅; timers := map_fold (λ _ id ts, stopTimer id ts) (timers w) (debounceTim w); nextTimer := nextTimer w; cancelled := true |}.

(** ** Everything that happens *)

(** [wr_loop]: [processEvents] runs; [wr_changed]: the paths with a relevant event that no
    reload has followed yet. *)
Record WatchRun := { wr_w : ScenarioWatcher; wr_loop : bool; wr_changed : gset string; wr_reloads : nat }.

Definition start_watch : WatchRun := {| wr_w := NewScenarioWatcher; wr_loop := true; wr_changed := ∅; wr_reloads := 0 |}.

(** The steps of the timers alone, and all steps. *)
Inductive timer_step (r : WatchRun) : WatchRun → Prop :=
| step_fires id t : timers (wr_w r) !! id = Some t → tm_state t = Armed →
    timer_step r {| wr_w := fireTimer id t (wr_w r); wr_loop := wr_loop r; wr_changed := wr_changed r; wr_reloads := wr_reloads r |}
| step_runs id t : timers (wr_w r) !! id = Some t → tm_state t = Fired →
    timer_step r (let '(reloads, w) := runTimer id t (wr_w r) in
                  {| wr_w := w; wr_loop := wr_loop r; wr_changed := if reloads then wr_changed r ∖ {[tm_path t]} else wr_changed r;
                     wr_reloads := if reloads then S (wr_reloads r) else wr_reloads r |}).

Inductive watch_step (cfg : HotReloadConfig) (filePath : string) (r : WatchRun) : WatchRun → Prop :=
| step_timer r' : timer_step r r' → watch_step cfg filePath r r'
| step_event event : wr_loop r = true →
    watch_step cfg filePath r {| wr_w := handleEvent cfg filePath event (wr_w r); wr_loop := true;
      wr_changed := if isRelevantEvent cfg filePath event then wr_changed r ∪ {[ev_Name event]} else wr_changed r; wr_reloads := wr_reloads r |}
| step_stop : watch_step cfg filePath r {| wr_w := stopWatcher (wr_w r); wr_loop := wr_loop r; wr_changed := wr_changed r; wr_reloads := wr_reloads r |}
| step_loop_ends : cancelled (wr_w r) = true →
    watch_step cfg filePath r {| wr_w := wr_w r; wr_loop := false; wr_changed := wr_changed r; wr_reloads := wr_reloads r |}.

(** ** No change is lost *)

(** Every change has a timer that will find its number; the path's own timer is never one
    that was stopped. *)
Record watch_ok (r : WatchRun) : Prop := {
  wo_live : cancelled (wr_w r) = false → ∀ p, p ∈ wr_changed r → ∃ id t, timers (wr_w r) !! id = Some t ∧ tm_path t = p ∧ seqOf p (wr_w r) = tm_seq t;
  wo_next : ∀ id, is_Some (timers (wr_w r) !! id) → (id < nextTimer (wr_w r))%nat;
  wo_ids : ∀ p id, debounceTim (wr_w r) !! p = Some id → (id < nextTimer (wr_w r))%nat;
  wo_tim : ∀ p id t, debounceTim (wr_w r) !! p = Some id → timers (wr_w r) !! id = Some t → tm_path t = p
}.

Lemma stopTimer_Some id ts j t : stopTimer id ts !! j = Some t → ts !! j = Some t.
Proof.
  unfold stopTimer. destruct (ts !! id) as [t0|]; [|done]. destruct (tm_state t0); [|done]. by intros [_ ?]%lookup_delete_Some.
Qed.

Lemma stopTimer_other id ts j : j ≠ id → stopTimer id ts !! j = ts !! j.
Proof. intros Hj. unfold stopTimer. destruct (ts !! id) as [t0|]; [|done]. destruct (tm_state t0); [|done]. by rewrite lookup_delete_ne. Qed.

Lemma stopped_Some (tim : gmap string nat) ts j t : map_fold (λ _ id ts, stopTimer id ts) ts tim !! j = Some t → ts !! j = Some t.
Proof.
  revert j t. apply (map_fold_weak_ind (λ r _, ∀ j t, r !! j = Some t → ts !! j = Some t)); [done|]. intros p id m r _ IH j t H%stopTimer_Some. by apply IH.
Qed.

Lemma schedule_ok p r : watch_ok r →
  watch_ok {| wr_w := scheduleReload p (wr_w r); wr_loop := true; wr_changed := wr_changed r ∪ {[p]}; wr_reloads := wr_reloads r |}.
Proof.
  intros [Hl Hn Hi Ht]. set (w := wr_w r) in *.
  assert (Hts : ∀ j t, (match debounceTim w !! p with Some id => stopTimer id (timers w) | None => timers w end) !! j = Some t → timers w !! j = Some t).
  { intros j t. destruct (debounceTim w !! p); [apply stopTimer_Some|done]. }
  split; cbn.
  - intros Hc q Hq. destruct (decide (q = p)) as [->|Hqp].
    + exists (nextTimer w). eexists. rewrite lookup_insert_eq. split; [reflexivity|]. unfold seqOf. cbn. by rewrite lookup_insert_eq.
    + assert (Hq' : q ∈ wr_changed r) by set_solver. destruct (Hl Hc q Hq') as (id & t & Hid & Hp & Hs). exists id, t. split_and!; [|done|].
      * assert (Hlt : (id < nextTimer w)%nat) by (apply Hn; by eexists). rewrite lookup_insert_ne by lia.
        destruct (debounceTim w !! p) as [i|] eqn:Ei; [|done]. destruct (decide (id = i)) as [->|]; [|by rewrite stopTimer_other].
        pose proof (Ht p i t Ei Hid). congruence.
      * unfold seqOf in *. cbn. by rewrite lookup_insert_ne.
  - intros id [t Hid]. destruct (decide (id = nextTimer w)) as [->|]; [lia|]. rewrite lookup_insert_ne in Hid by done.
    assert (id < nextTimer w)%nat by (apply Hn; exists t; by apply Hts). lia.
  - intros q id Hq. destruct (decide (q = p)) as [->|Hqp]; [rewrite lookup_insert_eq in Hq; injection Hq as <-; lia|].
    rewrite lookup_insert_ne in Hq by done. specialize (Hi q id Hq). lia.
  - intros q id t Hq Hid. destruct (decide (q = p)) as [->|Hqp].
    + rewrite lookup_insert_eq in Hq. injection Hq as <-. rewrite lookup_insert_eq in Hid. by injection Hid as <-.
    + rewrite lookup_insert_ne in Hq by done. specialize (Hi q id Hq). rewrite lookup_insert_ne in Hid by lia. apply (Ht q id); [done|by apply Hts].
Qed.

Lemma timer_step_ok r r' : watch_ok r → timer_step r r' → watch_ok r'.
Proof.
  intros [Hl Hn Hi Ht] Hs. destruct Hs as [id t Hid Ha|id t Hid Hf].
  - split; cbn.
    + intros Hc p Hp. destruct (Hl Hc p Hp) as (j & u & Hj & Hpu & Hsu). destruct (decide (j = id)) as [->|Hne].
      * exists id. eexists. rewrite lookup_insert_eq. split; [reflexivity|]. cbn. rewrite Hid in Hj. injection Hj as ->. done.
      * exists j, u. by rewrite lookup_insert_ne.
    + intros j Hj. destruct (decide (j = id)) as [->|Hne]; [apply Hn; by eexists|]. rewrite lookup_insert_ne in Hj by done. by apply Hn.
    + done.
    + intros p j u Hp Hj. destruct (decide (j = id)) as [->|Hne].
      * rewrite lookup_insert_eq in Hj. injection Hj as <-. by apply (Ht p id t).
      * rewrite lookup_insert_ne in Hj by done. by apply (Ht p j u).
  - unfold runTimer. destruct (Z.eqb_spec (seqOf (tm_path t) (wr_w r)) (tm_seq t)) as [Hseq|Hseq]; cbn [negb]; split; cbn.
    + intros Hc p [Hp Hne]%elem_of_difference. apply not_elem_of_singleton in Hne. destruct (Hl Hc p Hp) as (j & u & Hj & Hpu & Hsu). exists j, u.
      split_and!; [|done|unfold seqOf in *; cbn; by rewrite lookup_delete_ne by done]. rewrite lookup_delete_ne; [done|]. intros ->. rewrite Hid in Hj. injection Hj as ->. done.
    + intros j [u Hj]. apply lookup_delete_Some in Hj as [_ Hj]. apply Hn. by eexists.
    + intros p j Hp. apply lookup_delete_Some in Hp as [_ Hp]. by eapply Hi.
    + intros p j u Hp Hj. apply lookup_delete_Some in Hp as [_ Hp]. apply lookup_delete_Some in Hj as [_ Hj]. by eapply Ht.
    + intros Hc p Hp. destruct (Hl Hc p Hp) as (j & u & Hj & Hpu & Hsu). exists j, u. split_and!; [|done|done]. rewrite lookup_delete_ne; [done|].
      intros ->. rewrite Hid in Hj. injection Hj as ->. subst p. done.
    + intros j [u Hj]. apply lookup_delete_Some in Hj as [_ Hj]. apply Hn. by eexists.
    + done.
    + intros p j u Hp Hj. apply lookup_delete_Some in Hj as [_ Hj]. by eapply Ht.
Qed.

Lemma watch_step_ok cfg filePath r r' : watch_ok r → watch_step cfg filePath r r' → watch_ok r'.
Proof.
  intros H Hs. destruct Hs as [r' Hs|event Hloop| |Hc].
  - by eapply timer_step_ok.
  - unfold handleEvent. destruct (isRelevantEvent cfg filePath event); [by apply schedule_ok|]. destruct H as [? ? ? ?]. by split.
  - destruct H as [Hl Hn Hi Ht]. split; cbn; [done| |intros p id Hp; by rewrite lookup_empty in Hp|intros p id t Hp; by rewrite lookup_empty in Hp].
    intros id [t Hid]. apply stopped_Some in Hid. apply Hn. by eexists.
  - destruct H as [? ? ? ?]. by split.
Qed.

Lemma watch_reachable_ok cfg filePath r : rtc (watch_step cfg filePath) start_watch r → watch_ok r.
Proof.
  intros Hr. assert (H0 : watch_ok start_watch).
  { split; cbn.
    - intros _ p Hp. set_solver.
    - intros id [t Hid]. by rewrite lookup_empty in Hid.
    - intros p id Hp. by rewrite lookup_empty in Hp.
    - intros p id t Hp. by rewrite lookup_empty in Hp. }
  induction Hr as [r|r r1 r2 Hstep _ IH]; [done|]. apply IH. by eapply watch_step_ok.
Qed.

(** ** Timers run out *)

Definition timer_work (t : Timer) : nat := match tm_state t with Armed => 2 | Fired => 1 end.
Definition work (r : WatchRun) : nat := map_fold (λ _ t n, (timer_work t + n)%nat) 0%nat (timers (wr_w r)).

Definition total_work (ts : gmap nat Timer) : nat := map_fold (λ _ t n, (timer_work t + n)%nat) 0%nat ts.

Lemma total_work_insert id t ts : ts !! id = None → total_work (<[id := t]> ts) = (timer_work t + total_work ts)%nat.
Proof. intros Hid. unfold total_work. rewrite map_fold_insert_L; [done| |done]. intros. lia. Qed.

Lemma total_work_delete id t ts : ts !! id = Some t → total_work ts = (timer_work t + total_work (delete id ts))%nat.
Proof. intros Hid. rewrite <- (insert_delete_id ts id t) at 1 by done. apply total_work_insert, lookup_delete_eq. Qed.

Lemma timer_step_work r r' : timer_step r r' → (work r' < work r)%nat ∧ cancelled (wr_w r') = cancelled (wr_w r).
Proof.
  intros Hs. unfold work. fold (total_work (timers (wr_w r))). fold (total_work (timers (wr_w r'))). destruct Hs as [id t Hid Ha|id t Hid Hf].
  - cbn. rewrite <- (insert_delete_eq (timers (wr_w r)) id), total_work_insert by apply lookup_delete_eq. rewrite (total_work_delete id t _ Hid).
    unfold timer_work. rewrite Ha. cbn. split; [lia|done].
  - rewrite (total_work_delete id t _ Hid). unfold timer_work. rewrite Hf. unfold runTimer. destruct (negb _); cbn; (split; [lia|done]).
Qed.

(** No change of a scenario file is lost, however events, timers and their functions
    interleave: as long as the watcher is not stopped, each changed file has a timer that
    will reload, the timers run out by themselves, and when they have, every change has
    been followed by a reload. *)
Theorem no_change_lost cfg filePath r :
  rtc (watch_step cfg filePath) start_watch r → cancelled (wr_w r) = false →
  (∀ p, p ∈ wr_changed r → ∃ r', rtc timer_step r r' ∧ p ∉ wr_changed r') ∧
  (∀ n r', nsteps timer_step n r r' → (n ≤ work r)%nat) ∧
  (∀ r', rtc timer_step r r' → (∀ r2, ¬ timer_step r' r2) → wr_changed r' = ∅).
Proof.
  intros Hr Hc. pose proof (watch_reachable_ok _ _ _ Hr) as Hok. split_and!.
  - intros p Hp. destruct (wo_live _ Hok Hc p Hp) as (id & t & Hid & <- & Hseq).
    assert (Hrun : ∀ r0 t0, timers (wr_w r0) !! id = Some t0 → tm_state t0 = Fired → tm_path t0 = tm_path t → seqOf (tm_path t0) (wr_w r0) = tm_seq t0 →
      ∃ r', rtc timer_step r0 r' ∧ tm_path t ∉ wr_changed r').
    { intros r0 t0 H0 Hf Hpath Hs0. eexists. split; [apply rtc_once, (step_runs r0 id t0 H0 Hf)|]. unfold runTimer. rewrite (proj2 (Z.eqb_eq _ _)) by done.
      cbn. rewrite Hpath. set_solver. }
    destruct (tm_state t) eqn:Est; [|by apply (Hrun r t)].
    set (r1 := {| wr_w := fireTimer id t (wr_w r); wr_loop := wr_loop r; wr_changed := wr_changed r; wr_reloads := wr_reloads r |}).
    destruct (Hrun r1 {| tm_path := tm_path t; tm_seq := tm_seq t; tm_state := Fired |}) as (r' & Hr' & Hp'); [cbn; by rewrite lookup_insert_eq|done|done|exact Hseq|].
    exists r'. split; [|done]. eapply rtc_l; [by apply (step_fires r id t)|exact Hr'].
  - intros n r' Hn. clear -Hn. induction Hn as [r|n r r1 r2 Hstep _ IH]; [lia|]. apply timer_step_work in Hstep as [? _]. lia.
  - intros r' Hr' Hend. assert (Hok' : watch_ok r' ∧ cancelled (wr_w r') = false).
    { clear -Hok Hc Hr'. induction Hr' as [r|r r1 r2 Hstep _ IH]; [done|]. apply IH; [apply timer_step_work in Hstep as [_ ->]; done|by eapply timer_step_ok]. }
    destruct Hok' as [Hok' Hc']. apply set_eq. intros p. split; [|set_solver]. intros Hp. exfalso. destruct (wo_live _ Hok' Hc' p Hp) as (id & t & Hid & _).
    destruct (tm_state t) eqn:Est; [by eapply Hend, (step_fires r' id t)|by eapply Hend, (step_runs r' id t)].
Qed.

Definition watch_dir : HotReloadConfig := {| WatchDirectory := true |}.
Definition a_yaml : Event := {| ev_Name := "/s/a.yaml"; ev_Write := true; ev_Create := false |}.

Definition after_event : WatchRun :=
  {| wr_w := handleEvent watch_dir "/s/a.yaml" a_yaml NewScenarioWatcher; wr_loop := true; wr_changed := {["/s/a.yaml"]}; wr_reloads := 0 |}.

Lemma after_event_reached : rtc (watch_step watch_dir "/s/a.yaml") start_watch after_event.
Proof. apply rtc_once. exact (step_event watch_dir "/s/a.yaml" start_watch a_yaml eq_refl). Qed.

(** A file written once: its timer reloads. *)
Lemma no_change_lost_witness :
  "/s/a.yaml" ∈ wr_changed after_event ∧ ∃ r', rtc timer_step after_event r' ∧ "/s/a.yaml" ∉ wr_changed r'.
Proof.
  assert (Hin : "/s/a.yaml" ∈ wr_changed after_event) by (cbn; set_solver). split; [exact Hin|].
  destruct (no_change_lost watch_dir "/s/a.yaml" after_event after_event_reached eq_refl) as [H _]. exact (H _ Hin).
Defined.

(** ** What the numbers do not prevent *)

(** A run as a list of operations, for the examples. *)
Inductive WatchOp := OEvent | OFire (id : nat) | ORun (id : nat) | OStop | OLoopEnds.

Definition runOp (o : WatchOp) (r : WatchRun) : WatchRun :=
  match o with
  | OEvent => {| wr_w := handleEvent watch_dir "/s/a.yaml" a_yaml (wr_w r); wr_loop := wr_loop r; wr_changed := wr_changed r ∪ {["/s/a.yaml"]}; wr_reloads := wr_reloads r |}
  | OFire id => match timers (wr_w r) !! id with
                | Some t => {| wr_w := fireTimer id t (wr_w r); wr_loop := wr_loop r; wr_changed := wr_changed r; wr_reloads := wr_reloads r |}
                | None => r
                end
  | ORun id => match timers (wr_w r) !! id with
               | Some t => let '(reloads, w) := runTimer id t (wr_w r) in
                           {| wr_w := w; wr_loop := wr_loop r; wr_changed := if reloads then wr_changed r ∖ {[tm_path t]} else wr_changed r;
                              wr_reloads := if reloads then S (wr_reloads r) else wr_reloads r |}
               | None => r
               end
  | OStop => {| wr_w := stopWatcher (wr_w r); wr_loop := wr_loop r; wr_changed := wr_changed r; wr_reloads := wr_reloads r |}
  | OLoopEnds => {| wr_w := wr_w r; wr_loop := false; wr_changed := wr_changed r; wr_reloads := wr_reloads r |}
  end.

Definition runOps (ops : list WatchOp) : WatchRun := foldl (flip runOp) start_watch ops.

(** A reload forgets the path's number, so the next event has the number 1 again: a timer
    of a first event that waited for the lock all along passes for the timer of a third
    one, and reloads before that event's pause is over; the third event's own timer then
    does nothing. *)
Example number_reused :
  let r := runOps [OEvent; OFire 0; OEvent; OFire 1; ORun 1; OEvent; ORun 0] in
  (wr_reloads r, tm_state <$> timers (wr_w r) !! 2%nat, wr_reloads (runOp (ORun 2) (runOp (OFire 2) r))) = (2%nat, Some Armed, 2%nat).
Proof. vm_compute. reflexivity. Qed.

(** [Stop] waits for the event loop, not for timers: an event taken after its critical
    section leaves a timer that reloads after [Stop] has returned. *)
Example reload_after_stop :
  let r := runOps [OStop; OEvent; OLoopEnds; OFire 0; ORun 0] in (cancelled (wr_w r), wr_loop r, wr_reloads r) = (true, false, 1%nat).
Proof. vm_compute. reflexivity. Qed.
