(* ===== verification/Server.v ===== *)
(** * The server: [internal/server/server.go]

    One connection after the other request ([handleConnection]), the routing and the
    writing of the response being operations of a [Service]; starting the server. The
    steps of many connections at once are in [ServerSteps]. A request leaves the
    connection for the next one, or is the last with a reason. *)
From S2P Require Import Prelude GoInt GoStrings Header Chunked.
From S2P Require Import StreamSources StreamPlan StreamPayload StreamDelivery IcapResponse Processor Accounting.
From S2P Require Import Protocol Message Connection Lifecycle.

Local Open Scope Z_scope.

Definition closeReasonShutdown : string := "shutdown".

Section Server.
Context {P R : Type}.
Notation Response := (IcapResponse.Response P R).

(** ** What a connection needs of the rest *)

(** A handler answers, fails or panics. *)
Inductive served := Answers (r : Response) | Fails (message : string) | Panics.

(** [svc_serve] is the router with everything behind it: it may read the bodies of the
    request, and so the connection, and leaves labels with the context. [svc_write] is
    [WriteToContext], with whether a stream began. *)
Record Service := {
  svc_serve : LRequest → ReqContext → Wire → served * LRequest * ReqContext * Wire;
  svc_write : Response → Wire → option WriteError * bool * Wire
}.

Context (cfg : ServerConfig) (size : nat) (grow : nat → nat → nat) (fuel : nat) (sizes : nat → nat).
(** The router, when one is set; whether there is a collector; the label of a
    request's content type; the write operation. *)
Context (router : option (LRequest → ReqContext → Wire → served * LRequest * ReqContext * Wire)).
Context (write : Response → Wire → option WriteError * bool * Wire).
Context (metrics : bool) (label : Request → string).
(** Whether closing the socket succeeds; the time a request starts and is settled. *)
Context (closes : bool) (started settled : Z).

(** ** One request *)

(** The connection is kept, or left for a reason, with its buffers dropped or flushed. *)
Inductive Outcome := Again | Leave (reason : string) (abort : bool).

Record Turn := { tn_outcome : Outcome; tn_wire : Wire; tn_collector : Collector; tn_request : option LRequest }.

Definition leave (reason : string) (abort : bool) (w : Wire) (c : Collector) (r : option LRequest) : Turn :=
  {| tn_outcome := Leave reason abort; tn_wire := w; tn_collector := c; tn_request := r |}.

(** The read error under an error of the parser. *)
Definition read_cause (e : ProtocolError) : option ReadError := match e with ReadingFailed e => Some e | _ => None end.

(** [NewResponseError] for a handler that failed. *)
Definition error_response (message : string) : Response := NewResponseError StatusInternalServerError message.

(** After the response was written. *)
Definition afterResponse (req : LRequest) (drain : bool) (resp : Response) (w : Wire) : Outcome * LRequest * Wire :=
  let requestClose := headerHasToken (r_Header (l_head req)) "Connection" "close" || negb drain in
  match (if drain then drainRequestBodies cfg size fuel sizes req w else (None, req, w)) with
  | (Some _, req, w) => (Leave "body_drain_error" false, req, w)
  | (None, req, w) =>
      (if requestClose then
         Leave (if headerHasToken (r_Header (l_head req)) "Connection" "close" then "client_requested" else "preview_body_unread") false
       else if shouldCloseAfterResponse (rs_Header resp) (rs_closeAfterWrite resp) then Leave "response_connection_close" false
       else Again, req, w)
  end.

(** Writing the response; the accounting is settled on every path. *)
Definition respondTo (req : LRequest) (resp : Response) (ctx : ReqContext) (w : Wire) (a : terminalAccounting) (c : Collector) : Turn :=
  let settle outcome a c := (finalize metrics ctx (Some resp) outcome settled a c).2 in
  let drain := shouldDrainAfterResponse req in
  match (if 0 <? cfg_WriteTimeout cfg then SetWriteDeadline (Some (cfg_WriteTimeout cfg)) w else (None, w)) with
  | (Some _, w) => leave "write_error" false w (settle OutcomeError a c) (Some req)
  | (None, w) =>
      let '(err, streams, w) := write resp w in
      let '(a, c) := if streams : bool then streamingStarted a c else (a, c) in
      match err with
      | Some _ => leave "write_error" true w (settle OutcomeError a c) (Some req)
      | None =>
          let c := settle (if rs_closeAfterWrite resp && negb closes then OutcomeError else "") a c in
          if rs_closeAfterWrite resp then leave "stream_fin" false w c (Some req)
          else
            let '(o, req, w) := afterResponse req drain resp w in
            {| tn_outcome := o; tn_wire := w; tn_collector := c; tn_request := Some req |}
      end
  end.

(** A received request: context, accounting, routing, response. *)
Definition serveRequest (req : LRequest) (w : Wire) (c : Collector) : Turn :=
  let head := l_head req in
  let ctx := WithScenarioMetadata (WithContentTypeLabel (label head) Background) in
  let '(a, c) := newPendingTerminalAccounting metrics (r_Method head) (label head) c in
  let '(ctx, a) := if IsPreviewMode head then (WithScenarioTimingStart ctx, a) else (ctx, startAt started a) in
  let req := setPreviewContinuationContext false req in
  match router with
  | None => respondTo req (error_response "No router configured") ctx w (startAt (ScenarioTimingFallback ctx started) a) c
  | Some serve =>
      match serve req ctx w with
      | (Panics, req, ctx, w) => leave "panic" true w (finalize (P := P) (R := R) metrics ctx None OutcomeError settled a c).2 (Some req)
      | (Fails message, req, ctx, w) =>
          let a := match ScenarioBodyMaterializedAt ctx with Some t => startAt t a | None => a end in
          respondTo req (error_response message) ctx w a c
      | (Answers resp, req, ctx, w) => respondTo req resp ctx w (startAt (ScenarioTimingFallback ctx started) a) c
      end
  end.

(** The request of a turn, as it was received. *)
Definition seen (req : LRequest) (t : Turn) : Turn :=
  {| tn_outcome := tn_outcome t; tn_wire := tn_wire t; tn_collector := tn_collector t; tn_request := Some req |}.

(** One round of the loop of [handleConnection]. *)
Definition handleOne (stopped keepAliveWait : bool) (w : Wire) (c : Collector) : Turn :=
  if stopped then leave closeReasonShutdown false w c None
  else
    match setWaitReadDeadline cfg keepAliveWait w with
    | (Some e, w) => leave (connectionReadCloseReason e keepAliveWait) false w c None
    | (None, w) =>
        let begun := negb (bool_decide (w_in w = [])) in
        match parseICAPRequest (w_ending w) (w_in w) with
        | (Err e, s) =>
            leave (parseErrorCloseReason (read_cause e) begun keepAliveWait) false (with_in s w) c None
        | (Ok head, s) =>
            let w := (setActiveReadDeadline cfg (with_in s w)).2 in
            match receiveRequestBodies cfg size grow fuel sizes (newLRequest head) w with
            | (Some _, req, w) =>
                leave "body_receive_error" false w
                  (recordIncomingRequest (P := P) (R := R) metrics (r_Method head) (label head) Background None c) (Some req)
            | (None, req, w) => seen req (serveRequest req w c)
            end
        end
    end.

(** The loop; [stop] is what each look at the server's stop channel (and the context of
    the connection) sees, the last one being that of the deferred function. The requests
    that were received, in order, and why the connection ended. *)
Fixpoint handleConnection (rounds : nat) (stop : nat → bool) (count : nat) (w : Wire) (c : Collector)
  : option (list LRequest * string * bool * Wire * Collector) :=
  match rounds with
  | O => None
  | S rounds =>
      let t := handleOne (stop count) (0 <? count)%nat w c in
      let taken := option_list (tn_request t) in
      match tn_outcome t with
      | Leave reason abort =>
          Some (taken, if stop (S count) && negb (bool_decide (reason = "panic")) then closeReasonShutdown else reason, abort,
                tn_wire t, tn_collector t)
      | Again =>
          '(rs, reason, abort, w, c) ← handleConnection rounds stop (S count) (tn_wire t) (tn_collector t);
          Some (taken ++ rs, reason, abort, w, c)
      end
  end.
End Server.
