(* ===== verification/ServerSpec.v ===== *)
(** * Serving a connection

    Requests that follow one another on a connection are served one by one, each from
    exactly its own bytes, and each counted once; what the parser does not take for a
    part of a request becomes the next one. *)
From S2P Require Import Prelude GoInt GoStrings Header Chunked.
From S2P Require Import StreamSources StreamPlan StreamPayload StreamDelivery IcapResponse Processor Accounting.
From S2P Require Import Protocol Message Connection Lifecycle LifecycleSpec Server.

Local Open Scope Z_scope.

Section ServerSpec.
Context {P R : Type}.
Notation Response := (IcapResponse.Response P R).
Context (cfg : ServerConfig) (size : nat) (grow : nat → nat → nat) (fuel : nat) (sizes : nat → nat).
Context (router : option (LRequest → ReqContext → Wire → served (P := P) (R := R) * LRequest * ReqContext * Wire)).
Context (write : Response → Wire → option WriteError * bool * Wire).
Context (label : Request → string) (closes : bool) (started settled : Z).
Notation handleOne := (handleOne cfg size grow fuel sizes router write true label closes started settled).
Notation respondTo := (respondTo cfg size fuel sizes write true closes settled).
Notation serveRequest := (serveRequest cfg size fuel sizes router write true label closes started settled).
Notation handleConnection := (handleConnection cfg size grow fuel sizes router write true label closes started settled).

(** ** Accounting of a turn *)

(** The gauges are back where they were, with [n] requests recorded. *)
Definition counted (n : nat) (c c' : Collector) : Prop :=
  mc_inFlight c' = mc_inFlight c ∧ mc_streaming c' = mc_streaming c ∧ length (mc_requests c') = (length (mc_requests c) + n)%nat.

Lemma counted_refl c : counted 0 c c.
Proof using. split_and!; lia. Qed.

Lemma counted_trans n m c1 c2 c3 : counted n c1 c2 → counted m c2 c3 → counted (n + m) c1 c3.
Proof using. intros (? & ? & ?) (? & ? & ?). split_and!; [lia|lia|]. lia. Qed.

Lemma counted_record r d c : counted 1 c (add_record r d c).
Proof using. split_and!; [done|done|]. cbn. rewrite length_app. cbn. lia. Qed.

(** An accounting under way over the collector [c0]. *)
Definition under_way (c0 : Collector) (a : terminalAccounting) (c : Collector) : Prop :=
  ∃ method canonical streaming started, running method canonical c0 streaming started (a, c).

Lemma under_way_start c0 a c t : under_way c0 a c → under_way c0 (startAt t a) c.
Proof using.
  intros (m & l & s & st & [= -> ->]). exists m, l, s, (match st with Some t0 => Some t0 | None => Some t end). by destruct st.
Qed.

Lemma under_way_stream c0 a c : under_way c0 a c → under_way c0 (streamingStarted a c).1 (streamingStarted a c).2.
Proof using.
  intros (m & l & s & st & [= -> ->]). exists m, l, true, st. unfold running, streamingStarted. cbn. destruct s; [done|]. cbn.
  f_equal. unfold move_gauges. cbn. f_equal; lia.
Qed.

Lemma under_way_settle c0 a c ctx (r : option Response) outcome now : under_way c0 a c →
  counted 1 c0 (finalize true ctx r outcome now a c).2.
Proof using.
  intros (m & l & s & st & [= -> ->]). unfold finalize, claimTerminal. cbn [ta_finished ta_streamingActive ta_requestInFlight ta_timingStarted ta_started ta_metrics fst snd].
  destruct c0 as [i sa rq ds]. unfold add_record, move_gauges. destruct s; cbn; (split_and!; [cbn; lia|cbn; lia|cbn; rewrite length_app; cbn; lia]).
Qed.

Lemma respondTo_counts c0 req resp ctx w a c : under_way c0 a c →
  counted 1 c0 (tn_collector (respondTo req resp ctx w a c)).
Proof using.
  intros Ha. unfold Server.respondTo. destruct (if 0 <? cfg_WriteTimeout cfg then _ else _) as [[e|] w1]; [by apply under_way_settle|].
  destruct (write resp w1) as [[err streams] w2].
  assert (Ha2 : under_way c0 (if streams then streamingStarted a c else (a, c)).1 (if streams then streamingStarted a c else (a, c)).2)
    by (destruct streams; [by apply under_way_stream|done]).
  destruct (if streams then streamingStarted a c else (a, c)) as [a2 c2]. cbn [fst snd] in Ha2.
  destruct err as [e|]; [by apply under_way_settle|].
  destruct (rs_closeAfterWrite resp); [by apply under_way_settle|].
  destruct (afterResponse _ _ _ _ _ _ _ _) as [[o req'] w']. by apply under_way_settle.
Qed.

(** Every request that is taken off a connection is counted exactly once, on every
    path - answered, failed, panicking, refused while its body was received, or with a
    response that could not be written - and whatever the handler does: after its turn
    the gauges of requests in flight and of streams are back where they were. Bytes that
    are no request count for nothing. *)
Theorem turn_counted stopped keepAliveWait w c :
  let t := handleOne stopped keepAliveWait w c in
  counted (if tn_request t then 1 else 0) c (tn_collector t).
Proof using.
  cbv zeta. unfold Server.handleOne. destruct stopped; [apply counted_refl|].
  destruct (setWaitReadDeadline cfg keepAliveWait w) as [[e|] w1]; [apply counted_refl|].
  destruct (parseICAPRequest (w_ending w1) (w_in w1)) as [[head|e] s]; [|apply counted_refl].
  destruct (receiveRequestBodies _ _ _ _ _ _ _) as [[[e|] req] w2]; [apply counted_record|].
  cbn [seen tn_request tn_collector]. unfold Server.serveRequest. cbn zeta.
  assert (H0 : under_way c (newPendingTerminalAccounting true (r_Method (l_head req)) (label (l_head req)) c).1
                           (newPendingTerminalAccounting true (r_Method (l_head req)) (label (l_head req)) c).2)
    by (by exists (r_Method (l_head req)), (label (l_head req)), false, None).
  destruct (newPendingTerminalAccounting _ _ _ _) as [a0 c0]. cbn [fst snd] in H0.
  destruct (if IsPreviewMode (l_head req) then _ else _) as [ctx a] eqn:Ea.
  assert (Ha : under_way c a c0).
  { destruct (IsPreviewMode (l_head req)); injection Ea as _ <-; [done|by apply under_way_start]. }
  clear Ea H0. destruct router as [serve|].
  - destruct (serve _ _ _) as [[[o req'] ctx'] w']. destruct o as [resp|msg|].
    + by apply respondTo_counts, under_way_start.
    + apply respondTo_counts. destruct (ScenarioBodyMaterializedAt ctx'); [by apply under_way_start|done].
    + by apply under_way_settle.
  - by apply respondTo_counts, under_way_start.
Qed.

(** ** One request after the other *)

(** A handler touches the connection only through the readers of the bodies, and the
    parsed head is not its to change; a response is written to the output. *)
Definition same_input (w w' : Wire) : Prop := w_in w' = w_in w ∧ w_ending w' = w_ending w ∧ w_closed w' = w_closed w.

Definition drained (req : LRequest) : Prop := hasHTTPBodyReader req = false ∧ shouldDrainRawBody req = false.

(** The router answers every request whose bodies are loaded, and keeps the connection;
    writing works. *)
Record answering : Prop := {
  serves : ∀ req ctx w, drained req → ∃ serve resp req' ctx' w', router = Some serve ∧ serve req ctx w = (Answers resp, req', ctx', w') ∧
    same_input w w' ∧ drained req' ∧ l_head req' = l_head req ∧
    shouldCloseAfterResponse (rs_Header resp) (rs_closeAfterWrite resp) = false;
  writes : ∀ resp w, w_closed w = false → ∃ streams w', write resp w = (None, streams, w') ∧ same_input w w'
}.

Lemma same_input_refl w : same_input w w.
Proof using. done. Qed.

Lemma same_input_trans w1 w2 w3 : same_input w1 w2 → same_input w2 w3 → same_input w1 w3.
Proof using. intros (? & ? & ?) (? & ? & ?). split_and!; congruence. Qed.

Lemma SetDeadline_input d w : w_closed w = false → ∃ w', SetDeadline d w = (None, w') ∧ same_input w w'.
Proof using.
  intros Hc. destruct (SetDeadline_ok d w Hc) as (w' & E & Hi & He & _ & Hc' & _). exists w'. split; [exact E|].
  split_and!; [done|done|congruence].
Qed.

Lemma drain_nothing req w : drained req → w_closed w = false →
  ∃ w', drainRequestBodies cfg size fuel sizes req w = (None, req, w') ∧ same_input w w'.
Proof using.
  intros (Hb & Hr) Hc. unfold drainRequestBodies, setDrainReadDeadline, SetReadDeadline.
  destruct (SetDeadline_input (ReadBy (Some (activeTimeout cfg))) w Hc) as (w1 & -> & Hs). exists w1. split; [|done].
  unfold hasHTTPBodyReader in Hb. apply orb_false_iff in Hb as [H1 H2].
  assert (Hnone : ∀ m, has_reader m = false → drainHTTPMessageBody cfg size fuel sizes (drainBodyLimit cfg) m w1 = (None, m, w1)).
  { intros [[[?|] b l e o]|] Hm; [discriminate Hm|done..]. }
  unfold drainBodies, over_bodies, hasHTTPBodyReader. rewrite (Hnone _ H1). destruct req as [h m1 m2 raw].
  cbn [l_head l_request l_response l_raw with_request with_response] in *. rewrite (Hnone _ H2).
  unfold with_response, with_request. cbn [l_head l_request l_response l_raw]. by rewrite Hr, andb_false_r.
Qed.

(** A request that is all there: the parser takes its head from [s] up to [s1], its
    bodies are on the connection up to [rest] and within the limit, and the client
    does not ask to close. *)
Definition whole (ending : ReadError) (s : list ascii) (req : Request) (b1 b2 b3 : option (list ascii)) (rest : list ascii) : Prop :=
  s ≠ [] ∧ IsPreviewMode req = false ∧ headerHasToken (r_Header req) "Connection" "close" = false ∧
  (length (default [] b1) + length (default [] b2) + length (default [] b3) < fuel)%nat ∧
  accepts cfg b1 && accepts cfg b2 && accepts cfg b3 = true ∧
  ∃ s1, parseICAPRequest ending s = (Ok req, s1) ∧ carries req b1 b2 b3 s1 rest.

Hypothesis Hgrow : ∀ c n, (n ≤ grow c n)%nat.
Hypothesis Hsizes : ∀ i, (0 < sizes i)%nat.
Hypothesis Hlimit : drainBodyLimit cfg < max_int64.

Lemma received_drained req b1 b2 b3 s rest : carries req b1 b2 b3 s rest → drained (received_request req b1 b2 b3).
Proof using.
  intros Hc. split; [|by eapply received_drains]. unfold hasHTTPBodyReader. cbn [received_request l_request l_response]. by rewrite !received_reader.
Qed.

Lemma receive_whole s req b1 b2 b3 rest w :
  whole (w_ending w) s req b1 b2 b3 rest → w_closed w = false →
  ∀ s1, parseICAPRequest (w_ending w) s = (Ok req, s1) → w_in w = s1 →
  ∃ w', receiveRequestBodies cfg size grow fuel sizes (newLRequest req) w = (None, received_request req b1 b2 b3, w') ∧
    w_in w' = rest ∧ same_conn w w'.
Proof using Hgrow Hsizes Hlimit.
  intros (_ & Hp & _ & Hf & Ha & s1' & Hparse & Hc) Hcl s1 Hparse' Hw. rewrite Hparse in Hparse'. injection Hparse' as ->. subst s1.
  unfold receiveRequestBodies, shouldDeferBodyReceive. cbn [newLRequest l_head]. rewrite Hp. unfold setActiveReadDeadline, SetReadDeadline.
  destruct (SetDeadline_ok (ReadBy (Some (activeTimeout cfg))) w Hcl) as (w1 & -> & Hi1 & He1 & _ & Hc1 & _).
  destruct (receiveBodies_spec cfg size grow fuel sizes Hgrow Hsizes req b1 b2 b3 (w_in w) rest w1 Hc Hi1 Hf Hlimit) as (e & r' & w' & E & Hr).
  rewrite Ha in Hr. destruct Hr as (-> & -> & Hr & [? ?]). exists w'. split_and!; [done|done|split; congruence].
Qed.

(** The turn of a whole request. *)
Lemma turn_whole keepAliveWait w req b1 b2 b3 rest c :
  answering → w_closed w = false → whole (w_ending w) (w_in w) req b1 b2 b3 rest →
  ∃ w' c', handleOne false keepAliveWait w c =
    {| tn_outcome := Again; tn_wire := w'; tn_collector := c'; tn_request := Some (received_request req b1 b2 b3) |} ∧
    w_in w' = rest ∧ same_conn w w'.
Proof using Hgrow Hsizes Hlimit.
  intros Hans Hcl Hwh. pose proof Hwh as (Hne & Hp & Hclose & Hf & Ha & s1 & Hparse & Hcarry). unfold Server.handleOne, setWaitReadDeadline.
  assert (∃ w1, (if waitReadTimeout cfg keepAliveWait <=? 0 then SetReadDeadline None w else SetReadDeadline (Some (waitReadTimeout cfg keepAliveWait)) w) = (None, w1) ∧ same_input w w1)
    as (w1 & -> & Hi1 & He1 & Hc1) by (destruct (_ <=? 0); by apply SetDeadline_input).
  rewrite He1, Hi1, Hparse. unfold setActiveReadDeadline, SetReadDeadline.
  destruct (SetDeadline_input (ReadBy (Some (activeTimeout cfg))) (with_in s1 w1)) as (w2 & -> & Hi2 & He2 & Hc2); [cbn; congruence|].
  cbn [snd with_in w_in w_ending w_closed] in *.
  destruct (receive_whole (w_in w) req b1 b2 b3 rest w2) with (s1 := s1) as (w3 & -> & Hi3 & He3 & Hc3);
    [by rewrite He2, He1|congruence|by rewrite He2, He1|done|].
  unfold Server.serveRequest. cbn [received_request l_head]. rewrite Hp. cbn zeta.
  assert (Hctx : setPreviewContinuationContext false (received_request req b1 b2 b3) = received_request req b1 b2 b3).
  { unfold setPreviewContinuationContext, previewBodyMessage, received_request. cbn [l_head l_request l_response].
    destruct (bool_decide _); [by destruct (HTTPRequest req), b1|]. destruct (bool_decide _); [by destruct (HTTPResponse req), b2|done]. }
  rewrite Hctx. destruct (newPendingTerminalAccounting _ _ _ _) as [a c0].
  destruct (serves Hans (received_request req b1 b2 b3) (WithScenarioMetadata (WithContentTypeLabel (label req) Background)) w3 (received_drained req b1 b2 b3 s1 rest Hcarry))
    as (serve & resp & req' & ctx' & w4 & -> & -> & (Hi4 & He4 & Hc4) & Hdr & Hhead & Hkeep).
  unfold Server.respondTo.
  assert (∃ w5, (if 0 <? cfg_WriteTimeout cfg then SetWriteDeadline (Some (cfg_WriteTimeout cfg)) w4 else (None, w4)) = (None, w5) ∧ same_input w4 w5)
    as (w5 & -> & Hi5 & He5 & Hc5) by (destruct (0 <? _); [apply SetDeadline_input; congruence|by exists w4]).
  destruct (writes Hans resp w5 ltac:(congruence)) as (streams & w6 & -> & Hi6 & He6 & Hc6).
  destruct (if streams then _ else _) as [a2 c2]. unfold shouldCloseAfterResponse in Hkeep. apply orb_false_iff in Hkeep as [Hk1 Hk2]. rewrite Hk1.
  unfold afterResponse, shouldDrainAfterResponse, shouldDeferBodyReceive. rewrite Hhead. cbn [received_request l_head]. rewrite Hp. cbn [negb orb].
  destruct (drain_nothing req' w6 Hdr ltac:(congruence)) as (w7 & -> & Hi7 & He7 & Hc7). rewrite Hhead. cbn [received_request l_head]. rewrite Hclose.
  unfold shouldCloseAfterResponse. rewrite Hk1, Hk2. cbn [orb seen tn_outcome tn_wire tn_collector].
  exists w7. eexists. split; [reflexivity|]. split; [congruence|split; congruence].
Qed.

(** The bodies of a request: that of its HTTP request, that of its HTTP response, and
    its own. *)
Definition bodies : Type := option (list ascii) * option (list ascii) * option (list ascii).

(** Requests one behind the other. *)
Inductive pipeline (ending : ReadError) : list ascii → list (Request * bodies) → list ascii → Prop :=
| pipeline_end s : pipeline ending s [] s
| pipeline_next s req b1 b2 b3 s1 qs rest :
    whole ending s req b1 b2 b3 s1 → pipeline ending s1 qs rest → pipeline ending s ((req, (b1, b2, b3)) :: qs) rest.

Definition received_all (qs : list (Request * bodies)) : list LRequest :=
  map (λ '(req, (b1, b2, b3)), received_request req b1 b2 b3) qs.

(** A pipeline is served. *)
Lemma pipeline_spec qs : ∀ n count w c,
  answering → w_closed w = false → w_ending w = EOF → pipeline EOF (w_in w) qs [] → (length qs < n)%nat →
  ∃ w' c', handleConnection n (λ _, false) count w c =
    Some (received_all qs, "client_closed", false, w', c').
Proof using Hgrow Hsizes Hlimit.
  induction qs as [|[req [[b1 b2] b3]] qs IH]; intros n count w c Hans Hcl He Hp Hn; inversion Hp as [s E1 E2 E3|s ? ? ? ? s1 ? ? Hwh Hrest]; subst.
  - destruct n as [|n]; [simpl in Hn; lia|]. cbn [Server.handleConnection]. unfold Server.handleOne, setWaitReadDeadline.
    assert (∃ w1, (if waitReadTimeout cfg (0 <? count)%nat <=? 0 then SetReadDeadline None w else SetReadDeadline (Some (waitReadTimeout cfg (0 <? count)%nat)) w) = (None, w1) ∧ same_input w w1)
      as (w1 & -> & Hi1 & He1 & Hc1) by (destruct (_ <=? 0); by apply SetDeadline_input).
    assert (Hnil : w_in w = []) by congruence. rewrite He1, He, Hi1, Hnil. by do 2 eexists.
  - destruct n as [|n]; [simpl in Hn; lia|]. cbn [length] in Hn. cbn [Server.handleConnection].
    rewrite <- He in Hwh. destruct (turn_whole (0 <? count)%nat w req b1 b2 b3 s1 c Hans Hcl Hwh) as (w1 & c1 & -> & Hi & He1 & Hc1).
    cbn [tn_request tn_outcome tn_wire tn_collector option_list].
    destruct (IH n (S count) w1 c1 Hans ltac:(congruence) ltac:(congruence) ltac:(by rewrite Hi) ltac:(lia)) as (w2 & c2 & ->). by do 2 eexists.
Qed.
(** C7: requests that a client sends one behind the other, without waiting, are served
    one by one: when each is whole - its head parses, it has no preview, the bodies that
    were announced for its messages, or for the request itself when no message was
    parsed, follow as chunks and are within the limit, and it does not ask to close -
    and the handlers answer, the connection receives exactly these requests in this
    order, each with exactly its own bodies, and ends because the client closed it. *)
Theorem pipeline_served qs : ∀ n count w c,
  answering → w_closed w = false → w_ending w = EOF → pipeline EOF (w_in w) qs [] → (length qs < n)%nat →
  ∃ w' c', handleConnection n (λ _, false) count w c =
    Some (received_all qs, "client_closed", false, w', c').
Proof using Hgrow Hsizes Hlimit. apply pipeline_spec. Qed.

(** What the server makes of a RESPMOD request without an HTTP request head and without
    a body ("res-hdr=0, null-body=n", which RFC 3507 allows): the request is answered as
    if it had no message, and the bytes of the HTTP response head it carries, [s], are
    served as the next ICAP request of the connection when they read as one. *)
Theorem response_bytes_served r v encap s req b1 b2 b3 n w c :
  answering → w_closed w = false → w_ending w = EOF → w_in w = WriteTo r s →
  request_ok r → r_Method r = MethodRESPMOD → Get (r_Header r) "Preview" = None →
  Get (r_Header r) "Encapsulated" = Some v → ParseEncapsulatedHeader v = Ok encap →
  ReqHdr encap = encapNotSet → HasReqBody encap = false → HasResBody encap = false →
  headerHasToken (r_Header r) "Connection" "close" = false →
  whole EOF s req b1 b2 b3 [] → (2 < n)%nat → (0 < fuel)%nat →
  ∃ w' c', handleConnection n (λ _, false) 0 w c =
    Some ([received_request (with_encap encap (parsed_head r)) None None None; received_request req b1 b2 b3], "client_closed", false, w', c').
Proof using Hgrow Hsizes Hlimit.
  intros Hans Hcl He Hi Hr Hm Hp Hv Henc Hh Hb Hrb Hclose Hwh Hn Hfu.
  apply (pipeline_spec [(with_encap encap (parsed_head r), (None, None, None)); (req, (b1, b2, b3))]); [done|done|done| |done].
  apply pipeline_next with s; [|apply pipeline_next with []; [done|constructor]].
  destruct (respmod_unparsed EOF r v encap s Hr Hm Hp Hv Henc Hh Hb) as [Hparse _]. rewrite Hi. split_and!.
  - intros E. rewrite E in Hparse. cbn in Hparse. destruct Hwh as (Hs & _). by vm_compute in Hparse.
  - done.
  - done.
  - done.
  - done.
  - exists s. split; [exact Hparse|]. exists s, s. split; [done|]. split; [done|]. 
    assert (Hraw : shouldDrainRawBody (newLRequest (with_encap encap (parsed_head r))) = false).
    { unfold shouldDrainRawBody, newLRequest. cbn [l_head with_encap r_Encapsulated]. by rewrite Hb, Hrb, andb_false_r. }
    unfold raw_source. by rewrite Hraw.
Qed.
End ServerSpec.

(** ** At concrete connections *)

Module SExample.
Definition respond : IcapResponse.Response unit unit := NewResponse StatusNoContentNeeded.
Definition serve (req : LRequest) (ctx : ReqContext) (w : Wire) : served * LRequest * ReqContext * Wire := (Answers respond, req, ctx, w).
Definition write (resp : IcapResponse.Response unit unit) (w : Wire) : option WriteError * bool * Wire := (None, false, w).
Definition label (_ : Request) : string := "none".
Definition collector : Collector := {| mc_inFlight := 0; mc_streaming := 0; mc_requests := []; mc_durations := [] |}.

Lemma answers : answering (Some serve) write.
Proof.
  split.
  - intros req ctx w Hd. exists serve, respond, req, ctx, w. by split_and!.
  - intros resp w Hw. by exists false, w.
Qed.

Definition CRLF : string := String CR (String LF "").
Definition first : string :=
  "REQMOD icap://h/reqmod ICAP/1.0" +:+ CRLF +:+ "Encapsulated: req-hdr=0, req-body=18" +:+ CRLF +:+ CRLF +:+
  "POST / HTTP/1.1" +:+ CRLF +:+ CRLF.
Definition second : string := "OPTIONS icap://h/options ICAP/1.0" +:+ CRLF +:+ CRLF.

Definition parsed (s : string) : Request :=
  match parseICAPRequest EOF (bytes_of s) with (Ok r, _) => r | _ => parsed_head example_res_only end.

Definition body : list ascii := bytes_of "data".
Definition stream : list ascii := bytes_of first ++ encode [body] ++ last_chunk ++ bytes_of second.

Lemma whole_first : whole LExample.cfg 20 EOF stream (parsed first) (Some body) None None (bytes_of second).
Proof.
  split; [discriminate|]. split; [vm_compute; reflexivity|]. split; [vm_compute; reflexivity|]. split; [vm_compute; lia|].
  split; [vm_compute; reflexivity|]. exists (encode [body] ++ last_chunk ++ bytes_of second). split; [vm_compute; reflexivity|].
  exists (bytes_of second), (bytes_of second). split; [|vm_compute; by split]. exists [body]. split; [by apply LExample.small_chunks|].
  by split; [vm_compute|].
Qed.

Lemma whole_second : whole LExample.cfg 20 EOF (bytes_of second) (parsed second) None None None [].
Proof.
  split; [discriminate|]. split; [vm_compute; reflexivity|]. split; [vm_compute; reflexivity|]. split; [vm_compute; lia|].
  split; [vm_compute; reflexivity|]. exists []. split; [vm_compute; reflexivity|]. exists [], []. vm_compute. by repeat split.
Qed.

(** A request whose HTTP message the parser does not take - it has a body but no head -
    has its body read as its own, and the next request is served. *)
Definition bare : string :=
  "REQMOD icap://h/reqmod ICAP/1.0" +:+ CRLF +:+ "Encapsulated: req-body=0" +:+ CRLF +:+ CRLF.

Lemma whole_bare : whole LExample.cfg 20 EOF (bytes_of bare ++ encode [body] ++ last_chunk ++ stream) (parsed bare) None None (Some body) stream.
Proof.
  split; [discriminate|]. split; [vm_compute; reflexivity|]. split; [vm_compute; reflexivity|]. split; [vm_compute; lia|].
  split; [vm_compute; reflexivity|]. exists (encode [body] ++ last_chunk ++ stream). split; [vm_compute; reflexivity|].
  exists (encode [body] ++ last_chunk ++ stream), (encode [body] ++ last_chunk ++ stream).
  split; [vm_compute; by split|]. split; [vm_compute; by split|].
  assert (Hsrc : raw_source (parsed bare) = ConnectionChunks) by (vm_compute; reflexivity). rewrite Hsrc. exists [body]. split; [by apply LExample.small_chunks|by split].
Qed.

(** A response without a request head and without a body. *)
Definition res_null : Request :=
  {| r_Method := "RESPMOD"; r_URI := "icap://h/respmod"; r_Proto := "ICAP/1.0";
     r_Header := <["Encapsulated" := ["res-hdr=0, null-body=38"]]> ∅;
     r_Preview := 0; r_PreviewSet := false; r_Encapsulated := NewEncapsulated; HTTPRequest := None; HTTPResponse := None |}.

Lemma res_null_ok : request_ok res_null.
Proof.
  split; [vm_compute; reflexivity|vm_compute; reflexivity|by right| | |].
  - apply line_ok_bool; vm_compute; reflexivity.
  - apply header_ok_forallb. vm_compute. reflexivity.
  - apply fields_fit_bool; vm_compute; reflexivity.
Qed.
End SExample.

(** A RESPMOD request with an HTTP response and a body, but no HTTP request head
    ("res-hdr=0, res-body=n"), never reaches a handler: the response is not parsed, its
    head is read as the first chunk line of the body, and the connection is closed. *)
Example response_body_refused :
  option_map (λ r : list LRequest * string * bool * Wire * Collector, let '(taken, reason, _, _, _) := r in (length taken, reason))
    (handleConnection LExample.cfg 16 LExample.grow 20 LExample.sizes (Some SExample.serve) SExample.write true SExample.label true 0 5
      3 (λ _, false) 0
      (LExample.wire (WriteTo example_res_only (bytes_of ("HTTP/1.1 200 OK" +:+ SExample.CRLF +:+ SExample.CRLF) ++ encode [SExample.body] ++ last_chunk)))
      SExample.collector)
  = Some (1%nat, "body_receive_error").
Proof. vm_compute. reflexivity. Qed.

Lemma pipeline_served_witness :
  ∃ w' c', handleConnection LExample.cfg 16 LExample.grow 20 LExample.sizes (Some SExample.serve) SExample.write true SExample.label true 0 5
      6 (λ _, false) 0 (LExample.wire (bytes_of SExample.bare ++ encode [SExample.body] ++ last_chunk ++ SExample.stream)) SExample.collector =
    Some ([received_request (SExample.parsed SExample.bare) None None (Some SExample.body);
           received_request (SExample.parsed SExample.first) (Some SExample.body) None None;
           received_request (SExample.parsed SExample.second) None None None], "client_closed", false, w', c').
Proof.
  apply (pipeline_served LExample.cfg 16 LExample.grow 20 LExample.sizes (Some SExample.serve) SExample.write SExample.label true 0 5
    (λ _ n, le_n n) (λ _, Nat.lt_0_succ 2) eq_refl
    [(SExample.parsed SExample.bare, (None, None, Some SExample.body)); (SExample.parsed SExample.first, (Some SExample.body, None, None));
     (SExample.parsed SExample.second, (None, None, None))]);
    [exact SExample.answers|reflexivity|reflexivity| |vm_compute; lia].
  apply pipeline_next with SExample.stream; [exact SExample.whole_bare|].
  apply pipeline_next with (bytes_of SExample.second); [exact SExample.whole_first|].
  apply pipeline_next with []; [exact SExample.whole_second|constructor].
Defined.

Lemma response_bytes_served_witness :
  let encap := {| ReqHdr := -1; ReqBody := -1; ResHdr := 0; ResBody := -1; NullBody := 38 |} in
  ∃ w' c', handleConnection LExample.cfg 16 LExample.grow 20 LExample.sizes (Some SExample.serve) SExample.write true SExample.label true 0 5
      3 (λ _, false) 0 (LExample.wire (WriteTo SExample.res_null (bytes_of SExample.second))) SExample.collector =
    Some ([received_request (with_encap encap (parsed_head SExample.res_null)) None None None;
           received_request (SExample.parsed SExample.second) None None None], "client_closed", false, w', c').
Proof.
  intros encap. apply (response_bytes_served LExample.cfg 16 LExample.grow 20 LExample.sizes (Some SExample.serve) SExample.write SExample.label true 0 5
    (λ _ n, le_n n) (λ _, Nat.lt_0_succ 2) eq_refl SExample.res_null "res-hdr=0, null-body=38" encap (bytes_of SExample.second)
    (SExample.parsed SExample.second) None None None 3).
  - exact SExample.answers.
  - reflexivity.
  - reflexivity.
  - reflexivity.
  - exact SExample.res_null_ok.
  - reflexivity.
  - vm_compute. reflexivity.
  - vm_compute. reflexivity.
  - vm_compute. reflexivity.
  - reflexivity.
  - reflexivity.
  - reflexivity.
  - vm_compute. reflexivity.
  - exact SExample.whole_second.
  - lia.
  - lia.
Defined.
