(* ===== verification/Management.v ===== *)
(** * Reloading a running server: [internal/management]

    [manager.go], [registry.go] and [config_file.go], and how [cli_executor.go] sets the
    manager up. A running server keeps its scenarios behind registries that can be
    replaced; an administrator reloads the scenarios or the configuration, which builds
    every replacement first and puts them in place together. The registries are those of
    an interface with two implementations (see [Scenario] and [Sharded]); the operating
    system is a value that every operation is given, since files change between two of
    them. Function values that the code keeps in a set are functions here. *)
From stdpp Require Import sorting.
From S2P Require Import Prelude GoInt GoFloat GoStrings Weight StreamSources Scenario Responses Compile ScenarioV2 GoTime Config ConfigLoad ConfigCheck.

Local Open Scope Z_scope.
Local Open Scope go_scope.

(** ** Equality of configurations *)

#[global] Instance BodySizeLimit_eq_dec : EqDecision BodySizeLimit.
Proof. solve_decision. Defined.
#[global] Instance TLSConfig_eq_dec : EqDecision TLSConfig.
Proof. solve_decision. Defined.
#[global] Instance ServerConfig_eq_dec : EqDecision ServerConfig.
Proof. solve_decision. Defined.
#[global] Instance LoggingConfig_eq_dec : EqDecision LoggingConfig.
Proof. solve_decision. Defined.
#[global] Instance MetricsConfig_eq_dec : EqDecision MetricsConfig.
Proof. solve_decision. Defined.
#[global] Instance MockMatchingConfig_eq_dec : EqDecision MockMatchingConfig.
Proof. solve_decision. Defined.
#[global] Instance HotReloadConfig_eq_dec : EqDecision HotReloadConfig.
Proof. solve_decision. Defined.
#[global] Instance MockConfig_eq_dec : EqDecision MockConfig.
Proof. solve_decision. Defined.
#[global] Instance float64_eq_dec : EqDecision float64.
Proof. solve_decision. Defined.
#[global] Instance DiskMonitorConfig_eq_dec : EqDecision DiskMonitorConfig.
Proof. solve_decision. Defined.
#[global] Instance StorageConfig_eq_dec : EqDecision StorageConfig.
Proof. solve_decision. Defined.
#[global] Instance HealthConfig_eq_dec : EqDecision HealthConfig.
Proof. solve_decision. Defined.
#[global] Instance ManagementConfig_eq_dec : EqDecision ManagementConfig.
Proof. solve_decision. Defined.
#[global] Instance ShardingConfig_eq_dec : EqDecision Config.ShardingConfig.
Proof. solve_decision. Defined.
#[global] Instance DefaultsConfig_eq_dec : EqDecision DefaultsConfig.
Proof. solve_decision. Defined.
#[global] Instance InlineWeightedResponse_eq_dec : EqDecision InlineWeightedResponse.
Proof. solve_decision. Defined.
#[global] Instance InlineScenarioEntry_eq_dec : EqDecision InlineScenarioEntry.
Proof. solve_decision. Defined.
#[global] Instance ServerEntryConfig_eq_dec : EqDecision ServerEntryConfig.
Proof. solve_decision. Defined.
#[global] Instance Config_eq_dec : EqDecision Config.
Proof. solve_decision. Defined.

(** ** The operating system and the registries *)

Record FileInfo := { fi_Regular : bool; fi_Size : Z }.

Section Management.
Context {Regexp IPNet : Type}.
Notation Scenario' := (Scenario (Regexp := Regexp) (IPNet := IPNet) (Response := Responses)).

(** What the operating system answers while an operation runs: absolute paths, files,
    the decoded configuration and scenarios of a file, directories in the order of names,
    the environment, and the order in which a map is gone over. *)
Record World := {
  Abs : string → option string;
  Stat : string → result string FileInfo;
  ConfigFile : string → result string Config;
  NotExist : string → bool;
  Environ : Environment;
  ReadDir : string → option (list (string * bool));
  ScenarioFile : string → result string (list Scenario');
  RangeOrder : gmap string InlineScenarioEntry → list string
}.

Inductive RegistryError := FileUnreadable (message : string) | ScenarioRefused (e : CompileError).

(** [storage.ScenarioRegistry], as far as it is used here. *)
Class ScenarioRegistry (R : Type) := {
  List : R → list Scenario';
  LoadFile : result string (list Scenario') → R → result RegistryError R;
  AddScenario : Scenario' → R → result RegistryError R
}.

Inductive SetError := DirUnreadable | SetRefused (e : RegistryError) | InlineRefused (e : ConvertError).

Inductive ManagementError :=
| ContextDone
| ConfigPathRequired
| CurrentConfigPathRequired
| ConfigFileMissing (message : string)
| ConfigFileNotRegular
| ConfigFileTooLarge
| ConfigLoadFailed (e : ConfigError)
| ConfigInvalid (errors : list ValidationError)
| UnsupportedRuntimeChange (reason : string)
| LoadingSet (name : string) (e : SetError)
| ApplyingSet (name : string) (e : SetError).

(** ** Scenarios of a directory *)

Definition DefaultScenario : Scenario' := mkScenario defaultScenarioName anyRule [] {| Response := template204; WeightedResponses := None |} (-1).

Definition no_rule (m : MatchRule) : bool :=
  bool_decide (Routes m = ∅) && String.eqb (Path m) "" && bool_decide (Paths m = []) && bool_decide (Methods m = []) && String.eqb (mr_HTTPMethod m) ""
  && String.eqb (HTTPURL m) "" && bool_decide (Headers m = ∅) && bool_decide (HeaderContains m = ∅) && bool_decide (HTTPHeaders m = ∅)
  && bool_decide (HTTPHeaderContains m = ∅) && String.eqb (BodyPattern m) "" && String.eqb (ClientIP m) "" && bool_decide (CIDRRanges m = []).

Definition is_none {A} (o : option A) : bool := match o with None => true | Some _ => false end.
Definition is_nil {A} (l : list A) : bool := match l with [] => true | _ => false end.

Definition no_compiled (c : CompiledRules (Regexp := Regexp)) : bool :=
  is_nil (map_to_list (compiledHeaders c)) && is_nil (map_to_list (compiledHeaderLists c)) && is_nil (map_to_list (compiledHTTPHeaders c))
  && is_nil (map_to_list (compiledHTTPLists c)) && is_none (compiledHTTPURL c).

Definition bare_204 (r : Responses) : bool :=
  let t := Response r in
  is_none (WeightedResponses r) && bool_decide (rt_Headers t = ∅) && bool_decide (rt_HTTPHeaders t = ∅) && is_none (rt_DelayRange t) && is_none (rt_Stream t)
  && is_none (rt_Block t) && String.eqb (rt_ResponseName t) "" && String.eqb (rt_Use t) "" && String.eqb (rt_Body t) "" && String.eqb (rt_BodyFile t) ""
  && String.eqb (rt_HTTPBody t) "" && String.eqb (rt_HTTPBodyFile t) "" && String.eqb (rt_Error t) "" && (rt_Status t =? 0) && (rt_ICAPStatus t =? 204)
  && (rt_HTTPStatus t =? 0) && (rt_Delay t =? 0).

(** [reflect.DeepEqual] with [DefaultScenario], field by field, the order of declaration
    included; nil and empty are not told apart. *)
Definition isImplicitDefaultScenario (s : Scenario') : bool :=
  String.eqb (Name s) defaultScenarioName && no_rule (Match_ s) && no_compiled (rules s) && is_none (compiledBody s) && is_none (compiledRoutes s)
  && is_nil (compiledPaths s) && is_nil (compiledCIDRs s) && is_nil (Branches s) && bare_204 (s_Response s) && (Priority s =? -1) && (order s =? 0).

Definition isScenarioFile (name : string) : bool :=
  let ends suffix := bool_decide (is_Some (suffix_len name suffix)) in ends ".yaml" || ends ".yml".

(** [filepath.Join], before it is cleaned. *)
Definition Join (dir name : string) : string := dir +:+ "/" +:+ name.

Definition scenarioFilePaths (w : World) (dir : string) : result SetError (list string) :=
  match ReadDir w dir with
  | None => Err DirUnreadable
  | Some entries => Ok (map (λ e, Join dir e.1) (List.filter (λ e, negb e.2 && isScenarioFile e.1) entries))
  end.

Section Registries.
Context {R : Type} `{!ScenarioRegistry R}.

(** The scenarios that were added before one was refused, and the refusal. *)
Fixpoint addAll (scenarios : list Scenario') (registry : R) : option RegistryError * R :=
  match scenarios with
  | [] => (None, registry)
  | s :: scenarios =>
      match AddScenario s registry with
      | Err e => (Some e, registry)
      | Ok registry => addAll scenarios registry
      end
  end.

Definition added (r : option RegistryError * R) : result SetError R :=
  match r with (None, registry) => Ok registry | (Some e, _) => Err (SetRefused e) end.

Definition mergeScenarioFile (w : World) (newRegistry : R) (path : string) (dst : R) : result SetError R :=
  match LoadFile (ScenarioFile w path) newRegistry with
  | Err e => Err (SetRefused e)
  | Ok tmp => added (addAll (List.filter (λ s, negb (isImplicitDefaultScenario s)) (List tmp)) dst)
  end.

Fixpoint mergeScenarioFiles (w : World) (newRegistry : R) (paths : list string) (registry : R) : result SetError R :=
  match paths with
  | [] => Ok registry
  | path :: paths => let! registry := mergeScenarioFile w newRegistry path registry in mergeScenarioFiles w newRegistry paths registry
  end.

Definition LoadScenarioDirectory (w : World) (dir : string) (newRegistry : R) : result SetError R :=
  if String.eqb (trim_space dir) "" then Ok newRegistry
  else let! paths := scenarioFilePaths w dir in mergeScenarioFiles w newRegistry paths newRegistry.

(** ** Scenarios of the configuration *)

Definition inlineScenarioBasePrio : Z := 2000.

Definition NewExactHeaderMatchesV2 (headers : gmap string string) : gmap string HeaderMatchValueV2 :=
  (λ value, {| hm_Scalar := value; hm_Contains := []; hm_IsList := false |}) <$> headers.

Definition inline_fields (set : gmap string string) (body bodyFile delay : string) (status httpStatus : Z) : InlineResponseV2 :=
  {| in_Set := set; in_HTTPSet := ∅; in_Stream := None; in_Block := None; in_Use := ""; in_Body := body; in_BodyFile := bodyFile; in_HTTPBody := "";
     in_HTTPBodyFile := ""; in_Error := ""; in_Delay := delay; in_Status := status; in_HTTPStatus := httpStatus |}.

Definition convertInlineResponses (entries : option (list InlineWeightedResponse)) : option (list WeightedResponseV2) :=
  map (λ r, {| wv_response := inline_fields (iw_Set r) (iw_Body r) "" (iw_Delay r) (iw_Status r) (iw_HTTPStatus r); wv_Weight := iw_Weight r |}) <$> entries.

Definition convertInlineScenarioEntry (e : InlineScenarioEntry) : ScenarioEntryV2 :=
  {| e_When := NewExactHeaderMatchesV2 (ie_When e); e_WhenHTTP := None;
     e_response := inline_fields (ie_Set e) (ie_Body e) (ie_BodyFile e) (ie_Delay e) (ie_Status e) (ie_HTTPStatus e);
     e_Responses := convertInlineResponses (ie_Responses e); e_Routes := None; e_Method := ie_Method e; e_Endpoint := ie_Endpoint e;
     e_routesSet := false; e_methodSet := false; e_endpointSet := false; e_Branches := []; e_Priority := ie_Priority e |}.

Definition noDefaultsV2 : ScenarioDefaultsV2 :=
  {| d_Headers := ∅; d_ResponseTemplates := ∅; d_Use := ""; d_Routes := None; d_Method := []; d_Endpoint := []; d_routesSet := false; d_methodSet := false;
     d_endpointSet := false; d_Status := 0; d_HTTPStatus := 0 |}.

Definition buildInlineScenarioFile (inline : gmap string InlineScenarioEntry) : ScenarioFileV2 :=
  {| f_Scenarios := convertInlineScenarioEntry <$> inline; f_Defaults := noDefaultsV2 |}.

Definition with_priority (p : Z) (s : Scenario') : Scenario' :=
  {| Name := Name s; Match_ := Match_ s; rules := rules s; compiledBody := compiledBody s; compiledRoutes := compiledRoutes s;
     compiledPaths := compiledPaths s; compiledCIDRs := compiledCIDRs s; Branches := Branches s; s_Response := s_Response s; Priority := p; order := order s |}.

Definition prioritizeInlineScenarios (scenarios : list Scenario') : list Scenario' :=
  imap (λ i, with_priority (inlineScenarioBasePrio - Z.of_nat i)) scenarios.

(** [names]: the keys, in the order they are taken. Without templates the conversion does
    not go deeper than one level, so it never runs out (see [inline_converts]). *)
Definition convertInlineScenarios (inline : gmap string InlineScenarioEntry) (names : list string) : result SetError (list Scenario') :=
  if decide (inline = ∅) then Ok []
  else match ConvertV2ToScenarios 2 (Some (buildInlineScenarioFile inline)) names with
       | Some (Ok scenarios) => Ok (prioritizeInlineScenarios scenarios)
       | Some (Err e) => Err (InlineRefused e)
       | None => Err (InlineRefused NilFile)
       end.

(** [inlineScenarioApplier] of a reload: the names come in the order of the map. *)
Definition inlineScenarioApplier (inline : gmap string InlineScenarioEntry) (w : World) (registry : R) : result SetError R :=
  let! scenarios := convertInlineScenarios inline (RangeOrder w inline) in added (addAll scenarios registry).

(** ** Scenario sets *)

(** [ss_Registry]: which managed registry, by its address; [ss_NewRegistry]: a registry
    as the factory makes it. *)
Record ScenarioSet := {
  ss_Apply : option (World → R → result SetError R);
  ss_NewRegistry : option R;
  ss_Registry : option nat;
  ss_Name : string;
  ss_Dir : string;
  ss_Server : ServerConfig
}.

Definition withSpec (spec s : ScenarioSet) : ScenarioSet :=
  {| ss_Apply := ss_Apply spec; ss_NewRegistry := ss_NewRegistry s; ss_Registry := ss_Registry s; ss_Name := ss_Name s; ss_Dir := ss_Dir spec;
     ss_Server := ss_Server spec |}.

Definition sortedServerNames {A : Type} (servers : gmap string A) : list string := merge_sort String.le (map fst (map_to_list servers)).

Definition legacyScenarioSpec (cfg : Config) : ScenarioSet :=
  {| ss_Apply := None; ss_NewRegistry := None; ss_Registry := None; ss_Name := defaultScenarioName; ss_Dir := mk_ScenariosDir (c_Mock cfg);
     ss_Server := c_Server cfg |}.

Definition serverScenarioSpec (name : string) (entry : ServerEntryConfig) (defaults : DefaultsConfig) : ScenarioSet :=
  {| ss_Apply := Some (inlineScenarioApplier (en_Scenarios entry)); ss_NewRegistry := None; ss_Registry := None; ss_Name := name;
     ss_Dir := en_ScenariosDir entry; ss_Server := ToServerConfig entry defaults |}.

Definition scenarioSpecs (cfg : Config) : list ScenarioSet :=
  if decide (c_Servers cfg = ∅) then [legacyScenarioSpec cfg]
  else omap (λ name, (λ entry, serverScenarioSpec name entry (c_Defaults cfg)) <$> c_Servers cfg !! name) (sortedServerNames (c_Servers cfg)).

Definition scenarioSpecsByName (cfg : Config) : gmap string ScenarioSet := list_to_map (map (λ s, (ss_Name s, s)) (scenarioSpecs cfg)).

(** ** What may change while the server runs *)

Definition serverChanged (current next : ServerConfig) : bool := negb (bool_decide (current = zeroServer)) && negb (bool_decide (current = next)).

Definition staticServerEntry (e : ServerEntryConfig) : ServerEntryConfig :=
  {| en_Scenarios := ∅; en_ScenariosDir := ""; en_ServiceID := en_ServiceID e; en_Host := en_Host e; en_Port := en_Port e; en_ReadTimeout := en_ReadTimeout e;
     en_WriteTimeout := en_WriteTimeout e; en_MaxConnections := en_MaxConnections e; en_MaxBodySize := en_MaxBodySize e; en_IdleTimeout := en_IdleTimeout e;
     en_ShutdownTimeout := en_ShutdownTimeout e; en_Streaming := en_Streaming e; en_streamingSet := en_streamingSet e; en_maxBodySizeSet := en_maxBodySizeSet e |}.

(** [staticConfigSnapshot]; the nil map of servers and an empty one are not told apart. *)
Definition staticConfigSnapshot (cfg : Config) (managementLive : bool) : Config :=
  {| c_SourcePath := ""; c_Servers := staticServerEntry <$> c_Servers cfg; c_Health := c_Health cfg;
     c_Management := if managementLive then zeroManagement else c_Management cfg; c_Metrics := c_Metrics cfg;
     c_Mock := {| mk_ScenariosDir := ""; mk_ServiceID := mk_ServiceID (c_Mock cfg); mk_Matching := mk_Matching (c_Mock cfg); mk_HotReload := mk_HotReload (c_Mock cfg);
                  mk_DefaultTimeout := mk_DefaultTimeout (c_Mock cfg) |};
     c_Logging := c_Logging cfg; c_Defaults := c_Defaults cfg; c_Server := c_Server cfg; c_Storage := c_Storage cfg; c_Sharding := c_Sharding cfg;
     c_PprofEnabled := c_PprofEnabled cfg |}.

(** The floats of a configuration, and the configuration without them. *)
Definition thresholds (cfg : Config) : list float64 := let d := st_DiskMonitor (c_Storage cfg) in [dm_WarningThreshold d; dm_ErrorThreshold d].

Definition without_thresholds (cfg : Config) : Config :=
  let s := c_Storage cfg in let d := st_DiskMonitor s in
  {| c_SourcePath := c_SourcePath cfg; c_Servers := c_Servers cfg; c_Health := c_Health cfg; c_Management := c_Management cfg; c_Metrics := c_Metrics cfg;
     c_Mock := c_Mock cfg; c_Logging := c_Logging cfg; c_Defaults := c_Defaults cfg; c_Server := c_Server cfg;
     c_Storage := {| st_RequestsDir := st_RequestsDir s;
                     st_DiskMonitor := {| dm_Path := dm_Path d; dm_CheckInterval := dm_CheckInterval d; dm_WarningThreshold := S754_zero false;
                                          dm_ErrorThreshold := S754_zero false; dm_CacheInterval := dm_CacheInterval d; dm_Enabled := dm_Enabled d;
                                          dm_UseSyscalls := dm_UseSyscalls d |};
                     st_MaxFileSize := st_MaxFileSize s; st_RotateAfter := st_RotateAfter s; st_Workers := st_Workers s; st_QueueSize := st_QueueSize s;
                     st_Enabled := st_Enabled s |};
     c_Sharding := c_Sharding cfg; c_PprofEnabled := c_PprofEnabled cfg |}.

(** [reflect.DeepEqual] of two configurations: floats are compared as numbers. *)
Definition deepEqual (a b : Config) : bool :=
  bool_decide (without_thresholds a = without_thresholds b) && forallb (λ p, feq p.1 p.2) (zip (thresholds a) (thresholds b)).

Definition rejectUnsupportedRuntimeChange (current : option Config) (next : Config) (managementLive : bool) : option ManagementError :=
  match current with
  | None => None
  | Some current =>
      if deepEqual current zeroConfig then None
      else if deepEqual (staticConfigSnapshot current managementLive) (staticConfigSnapshot next managementLive) then None
      else Some (UnsupportedRuntimeChange "static configuration changed")
  end.

Fixpoint updateSets (specs : gmap string ScenarioSet) (sets : list ScenarioSet) : result ManagementError (list ScenarioSet) :=
  match sets with
  | [] => Ok []
  | set :: sets =>
      match specs !! ss_Name set with
      | None => Err (UnsupportedRuntimeChange "server configuration changed")
      | Some spec =>
          if serverChanged (ss_Server set) (ss_Server spec) then Err (UnsupportedRuntimeChange "server configuration changed")
          else result_map (cons (withSpec spec set)) (updateSets specs sets)
      end
  end.

Definition updatedScenarioSets (sets : list ScenarioSet) (cfg : Config) : result ManagementError (list ScenarioSet) :=
  if is_nil sets then Ok []
  else
    let specs := scenarioSpecsByName cfg in
    guard! bool_decide (size specs = length sets) else UnsupportedRuntimeChange "scenario set topology changed" in
    updateSets specs sets.

(** ** The manager *)

(** The managed registries: [active] of each, by address. *)
Notation Registries := (gmap nat R).

Record RuntimeManager := {
  m_newRegistry : R;
  m_cfg : option Config;
  m_configPath : string;
  m_sets : list ScenarioSet;
  m_onApply : list nat
}.

Definition normalizePath (w : World) (path : string) : string :=
  if String.eqb (trim_space path) "" then "" else default path (Abs w path).

Definition NewRuntimeManager (w : World) (newRegistry : R) (cfg : Config) (configPath : string) : RuntimeManager :=
  {| m_newRegistry := newRegistry; m_cfg := Some cfg; m_configPath := normalizePath w configPath; m_sets := []; m_onApply := [] |}.

Definition RegisterScenarioSet (set : ScenarioSet) (m : RuntimeManager) : RuntimeManager :=
  if is_none (ss_Registry set) then m
  else {| m_newRegistry := m_newRegistry m; m_cfg := m_cfg m; m_configPath := m_configPath m; m_sets := m_sets m ++ [set]; m_onApply := m_onApply m |}.

Definition RegisterConfigApplyFunc (fn : nat) (m : RuntimeManager) : RuntimeManager :=
  {| m_newRegistry := m_newRegistry m; m_cfg := m_cfg m; m_configPath := m_configPath m; m_sets := m_sets m; m_onApply := m_onApply m ++ [fn] |}.

(** [alive]: whether the context is still alive, when it is asked for the n-th time. *)
Definition buildScenarioReplacement (w : World) (alive : bool) (set : ScenarioSet) (newRegistry : R) : result ManagementError R :=
  if negb alive then Err ContextDone
  else
    match LoadScenarioDirectory w (ss_Dir set) (default newRegistry (ss_NewRegistry set)) with
    | Err e => Err (LoadingSet (ss_Name set) e)
    | Ok registry =>
        match ss_Apply set with
        | None => Ok registry
        | Some apply => match apply w registry with Err e => Err (ApplyingSet (ss_Name set) e) | Ok registry => Ok registry end
        end
    end.

Definition validateExactRouteTopology (h : Registries) (set : ScenarioSet) (replacement : R) : option ManagementError :=
  match ss_Registry set ≫= (h !!.) with
  | None => None
  | Some current =>
      if ValidateExactRouteTopology (List current) (List replacement) then None else Some (UnsupportedRuntimeChange (ss_Name set))
  end.

Fixpoint buildScenarioReplacements (w : World) (alive : nat → bool) (h : Registries) (newRegistry : R) (i : nat) (sets : list ScenarioSet)
  : result ManagementError (list R) :=
  match sets with
  | [] => Ok []
  | set :: sets =>
      let! registry := buildScenarioReplacement w (alive i) set newRegistry in
      match validateExactRouteTopology h set registry with
      | Some e => Err e
      | None => result_map (cons registry) (buildScenarioReplacements w alive h newRegistry (S i) sets)
      end
  end.

(** What [replaceScenarioSets] has done when it lets go of the locks. *)
Definition replaceScenarioSets (sets : list ScenarioSet) (replacements : list R) (h : Registries) : Registries :=
  foldl (λ h sr, match ss_Registry sr.1 with Some a => <[a := sr.2]> h | None => h end) h (zip sets replacements).

Definition with_applied (cfg : option Config) (path : string) (sets : list ScenarioSet) (m : RuntimeManager) : RuntimeManager :=
  {| m_newRegistry := m_newRegistry m; m_cfg := cfg; m_configPath := path; m_sets := sets; m_onApply := m_onApply m |}.

Definition ReloadScenarios (w : World) (alive : nat → bool) (st : RuntimeManager * Registries) : option ManagementError * (RuntimeManager * Registries) :=
  let (m, h) := st in
  match buildScenarioReplacements w alive h (m_newRegistry m) 0 (m_sets m) with
  | Err e => (Some e, st)
  | Ok replacements => (None, (m, replaceScenarioSets (m_sets m) replacements h))
  end.

Definition MaxConfigFileBytes : Z := 1048576.

Definition validateConfigFile (w : World) (path : string) : option ManagementError :=
  match Stat w path with
  | Err message => Some (ConfigFileMissing message)
  | Ok info =>
      if negb (fi_Regular info) then Some ConfigFileNotRegular
      else if MaxConfigFileBytes <? fi_Size info then Some ConfigFileTooLarge
      else None
  end.

Definition with_source (path : string) (c : Config) : Config :=
  {| c_SourcePath := path; c_Servers := c_Servers c; c_Health := c_Health c; c_Management := c_Management c; c_Metrics := c_Metrics c; c_Mock := c_Mock c;
     c_Logging := c_Logging c; c_Defaults := c_Defaults c; c_Server := c_Server c; c_Storage := c_Storage c; c_Sharding := c_Sharding c;
     c_PprofEnabled := c_PprofEnabled c |}.

(** [filepath.Abs] of a path with something in it is not empty, so a file is loaded. *)
Definition loadAndValidate (unfit : float64 → Z) (w : World) (path : string) : result ManagementError (Config * string) :=
  let absPath := normalizePath w path in
  match validateConfigFile w absPath with
  | Some e => Err e
  | None =>
      match Load unfit (Environ w) (Some (ConfigFile w absPath)) with
      | Err e => Err (ConfigLoadFailed e)
      | Ok cfg =>
          match Validate (NotExist w) cfg with
          | [] => Ok (with_source absPath cfg, absPath)
          | errors => Err (ConfigInvalid errors)
          end
      end
  end.

Definition planConfigApply (w : World) (alive : nat → bool) (m : RuntimeManager) (h : Registries) (cfg : Config)
  : result ManagementError (list ScenarioSet * list R) :=
  match rejectUnsupportedRuntimeChange (m_cfg m) cfg (negb (is_nil (m_onApply m))) with
  | Some e => Err e
  | None =>
      let! sets := updatedScenarioSets (m_sets m) cfg in
      let! replacements := buildScenarioReplacements w (λ i, alive (S i)) h (m_newRegistry m) 0 sets in
      Ok (sets, replacements)
  end.

(** The part of [LoadConfigFromPath] under the manager's lock: the callbacks that are to
    be told, with the configuration, and the state. *)
Definition applyLoaded (w : World) (alive : nat → bool) (loaded : Config * string) (st : RuntimeManager * Registries)
  : result ManagementError (list (nat * Config)) * (RuntimeManager * Registries) :=
  let (m, h) := st in let (cfg, absPath) := loaded in
  match planConfigApply w alive m h cfg with
  | Err e => (Err e, st)
  | Ok (sets, replacements) =>
      (Ok (map (λ fn, (fn, cfg)) (m_onApply m)), (with_applied (Some cfg) absPath sets m, replaceScenarioSets sets replacements h))
  end.

Definition LoadConfigFromPath (unfit : float64 → Z) (w : World) (alive : nat → bool) (path : string) (st : RuntimeManager * Registries)
  : result ManagementError (list (nat * Config)) * (RuntimeManager * Registries) :=
  if negb (alive 0%nat) then (Err ContextDone, st)
  else if String.eqb (trim_space path) "" then (Err ConfigPathRequired, st)
  else
    match loadAndValidate unfit w path with
    | Err e => (Err e, st)
    | Ok loaded => applyLoaded w alive loaded st
    end.

Definition ReloadCurrentConfig (unfit : float64 → Z) (w : World) (alive : nat → bool) (st : RuntimeManager * Registries)
  : result ManagementError (list (nat * Config)) * (RuntimeManager * Registries) :=
  if String.eqb (m_configPath st.1) "" then (Err CurrentConfigPathRequired, st)
  else LoadConfigFromPath unfit w alive (m_configPath st.1) st.

(** ** Counts *)

Definition set_le (x y : ScenarioSet) : Prop := String.le (ss_Name x) (ss_Name y).
#[local] Instance set_le_dec x y : Decision (set_le x y).
Proof. unfold set_le. apply _. Defined.

Definition scenarioSetCount (h : Registries) (set : ScenarioSet) : nat :=
  match ss_Registry set ≫= (h !!.) with None => 0 | Some registry => length (List registry) end.

Definition ScenarioCounts (st : RuntimeManager * Registries) : list (string * nat) :=
  map (λ set, (ss_Name set, scenarioSetCount st.2 set)) (merge_sort set_le (m_sets st.1)).

Definition ScenarioCount (st : RuntimeManager * Registries) : nat := foldr (λ c total, (c.2 + total)%nat) 0%nat (ScenarioCounts st).

(** ** Setting the manager up: [startAllServers] of [cli_executor.go] *)

Record serverEntry := {
  se_inlineScenarios : gmap string InlineScenarioEntry; se_name : string; se_scenariosDir : string; se_serviceID : string; se_serverCfg : ServerConfig
}.

Definition buildServerEntries (cfg : Config) : list serverEntry :=
  if decide (c_Servers cfg = ∅) then
    [{| se_inlineScenarios := ∅; se_name := if String.eqb (sc_Name (c_Server cfg)) "" then "default" else sc_Name (c_Server cfg);
        se_scenariosDir := mk_ScenariosDir (c_Mock cfg); se_serviceID := mk_ServiceID (c_Mock cfg); se_serverCfg := c_Server cfg |}]
  else
    omap (λ name, (λ entry,
      {| se_inlineScenarios := en_Scenarios entry; se_name := name; se_scenariosDir := en_ScenariosDir entry;
         se_serviceID := if String.eqb (en_ServiceID entry) "" then mk_ServiceID (c_Mock cfg) else en_ServiceID entry;
         se_serverCfg := ToServerConfig entry (c_Defaults cfg) |}) <$> c_Servers cfg !! name) (sortedServerNames (c_Servers cfg)).

Definition storageBodyPatternLimit (limit : BodySizeLimit) : Z := if lim_Unlimited limit then -1 else lim_Bytes limit.

Definition bodyPatternOptions (matching : MockMatchingConfig) (serverMaxBodySize : Z) : BodyPatternOptions :=
  {| Limit := storageBodyPatternLimit (EffectiveBodyPatternLimit (mm_BodyPatternLimit matching) serverMaxBodySize);
     LimitAction := to_lower (trim_space (mm_BodyPatternLimitAction matching)) |}.

Definition sortedInlineScenarioNames (scenarios : gmap string InlineScenarioEntry) : list string := sortedServerNames scenarios.

(** [inlineScenarioApplier] of a start: the names are sorted. *)
Definition startInlineScenarios (entry : serverEntry) (registry : R) : result SetError (option RegistryError * R) :=
  let! scenarios := convertInlineScenarios (se_inlineScenarios entry) (sortedInlineScenarioNames (se_inlineScenarios entry)) in
  Ok (addAll scenarios registry).

(** The registry of one server: what cannot be loaded is only logged. *)
Definition startRegistry (w : World) (newRegistry : R) (entry : serverEntry) : R :=
  let registry :=
    if String.eqb (se_scenariosDir entry) "" then newRegistry
    else match LoadScenarioDirectory w (se_scenariosDir entry) newRegistry with Ok loaded => loaded | Err _ => newRegistry end in
  match startInlineScenarios entry registry with Ok (_, registry) => registry | Err _ => registry end.

Definition entrySet (newRegistry : R) (address : nat) (entry : serverEntry) : ScenarioSet :=
  {| ss_Apply := Some (λ _ registry, let! r := startInlineScenarios entry registry in added r); ss_NewRegistry := Some newRegistry;
     ss_Registry := Some address; ss_Name := se_name entry; ss_Dir := se_scenariosDir entry; ss_Server := se_serverCfg entry |}.

(** [newRegistry]: what [newScenarioRegistryFactory] gives for the options of a server. *)
Fixpoint startEntries (w : World) (newRegistry : BodyPatternOptions → R) (matching : MockMatchingConfig) (address : nat) (entries : list serverEntry)
  (st : RuntimeManager * Registries) : RuntimeManager * Registries :=
  match entries with
  | [] => st
  | entry :: entries =>
      let fresh := newRegistry (bodyPatternOptions matching (sc_MaxBodySize (se_serverCfg entry))) in
      startEntries w newRegistry matching (S address) entries
        (RegisterScenarioSet (entrySet fresh address entry) st.1, <[address := startRegistry w fresh entry]> st.2)
  end.

Definition startAllServers (w : World) (newRegistry : BodyPatternOptions → R) (fallback : R) (cfg : Config) : RuntimeManager * Registries :=
  startEntries w newRegistry (mk_Matching (c_Mock cfg)) 0 (buildServerEntries cfg) (NewRuntimeManager w fallback cfg (c_SourcePath cfg), ∅).
End Registries.
End Management.

(** ** What a registry promises *)

Section Promises.
Context {Regexp IPNet R : Type} `{HR : !ScenarioRegistry (Regexp := Regexp) (IPNet := IPNet) R}.
Notation Scenario' := (Scenario (Regexp := Regexp) (IPNet := IPNet) (Response := Responses)).

(** The first of a name. *)
Definition named (n : string) (l : list Scenario') : option Scenario' := List.find (λ s, String.eqb (Name s) n) l.

(** What a registry promises: a scenario that is accepted takes the place of the one of
    its name, in some order of declaration, and nothing else changes. *)
Class RegistryLaws := {
  registry_wf : R → Prop;
  validated : Scenario' → result RegistryError Scenario';
  add_places s r r' : registry_wf r → AddScenario s r = Ok r' →
    registry_wf r' ∧ ∃ s1 k, validated s = Ok s1 ∧ ∀ n, named n (List r') = if decide (n = Name s) then Some (with_order k s1) else named n (List r)
}.
Lemma named_app n l1 l2 : named n (l1 ++ l2) = match named n l1 with Some s => Some s | None => named n l2 end.
Proof using. unfold named. induction l1 as [|s l1 IH]; [done|]. cbn. by destruct (String.eqb _ _). Qed.
End Promises.
