(* ===== verification/RegistrySwap.v ===== *)
(** * Replacing registries under the requests: [registry.go] and [replaceScenarioSets]

    Every request asks a managed registry for its active one under the read lock; a
    reload takes the write locks of all registries, replaces them, and lets go in the
    opposite order. Here both run as interleaved steps. *)
From S2P Require Import Prelude GoStrings Scenario Responses Config Management.

(** What [replaceScenarioSets] does, action by action. *)
Inductive Action (R : Type) := LockA (a : nat) | SetA (a : nat) (next : R) | UnlockA (a : nat).
Arguments LockA {R}.
Arguments SetA {R}.
Arguments UnlockA {R}.

(** A [sync.RWMutex]: whether a writer holds it, and how many readers do. *)
Record RWMutex := { held : bool; readers : nat }.

Definition free_lock : RWMutex := {| held := false; readers := 0 |}.

Section Swap.
Context {Regexp IPNet R : Type}.
Notation Set' := (ScenarioSet (Regexp := Regexp) (IPNet := IPNet) (R := R)).

Definition managed (sets : list Set') : list nat := omap ss_Registry sets.

Definition lockScenarioRegistries (sets : list Set') : list (Action R) := map LockA (managed sets).

Definition unlockScenarioRegistries (registries : list nat) : list (Action R) := map UnlockA (rev registries).

Definition setScenarioRegistries (sets : list Set') (replacements : list R) : list (Action R) :=
  omap (λ sr, (λ a, SetA a sr.2) <$> ss_Registry sr.1) (zip sets replacements).

Definition replace_actions (sets : list Set') (replacements : list R) : list (Action R) :=
  lockScenarioRegistries sets ++ setScenarioRegistries sets replacements ++ unlockScenarioRegistries (managed sets).

(** The locks, the active registries, what is left of the reload, and every answer that
    [current] has given: the registry asked and its active one. *)
Record SwapState := { locks : nat → RWMutex; active : gmap nat R; todo : list (Action R); answers : list (nat * option R) }.

Definition set_lock (a : nat) (l : RWMutex) (locks : nat → RWMutex) (b : nat) : RWMutex := if decide (a = b) then l else locks b.

Definition start_swap (h : gmap nat R) (sets : list Set') (replacements : list R) : SwapState :=
  {| locks := λ _, free_lock; active := h; todo := replace_actions sets replacements; answers := [] |}.

(** One action of the reload; [None] while it has to wait. *)
Definition run_action (act : Action R) (rest : list (Action R)) (s : SwapState) : option SwapState :=
  match act with
  | LockA a =>
      if negb (held (locks s a)) && (readers (locks s a) =? 0)%nat then
        Some {| locks := set_lock a {| held := true; readers := 0 |} (locks s); active := active s; todo := rest; answers := answers s |}
      else None
  | SetA a next => Some {| locks := locks s; active := <[a := next]> (active s); todo := rest; answers := answers s |}
  | UnlockA a =>
      Some {| locks := set_lock a {| held := false; readers := readers (locks s a) |} (locks s); active := active s; todo := rest; answers := answers s |}
  end.

(** [current], by any number of goroutines: RLock, the answer, RUnlock. *)
Definition read_lock (a : nat) (s : SwapState) : option SwapState :=
  if held (locks s a) then None
  else Some {| locks := set_lock a {| held := false; readers := S (readers (locks s a)) |} (locks s); active := active s; todo := todo s; answers := answers s |}.

Definition read_active (a : nat) (s : SwapState) : option SwapState :=
  if (readers (locks s a) =? 0)%nat then None
  else Some {| locks := locks s; active := active s; todo := todo s; answers := answers s ++ [(a, active s !! a)] |}.

Definition read_unlock (a : nat) (s : SwapState) : option SwapState :=
  match readers (locks s a) with
  | O => None
  | S n => Some {| locks := set_lock a {| held := held (locks s a); readers := n |} (locks s); active := active s; todo := todo s; answers := answers s |}
  end.

Inductive swap_step : SwapState → SwapState → Prop :=
| swap_reload act rest s s' : todo s = act :: rest → run_action act rest s = Some s' → swap_step s s'
| swap_rlock a s s' : read_lock a s = Some s' → swap_step s s'
| swap_read a s s' : read_active a s = Some s' → swap_step s s'
| swap_runlock a s s' : read_unlock a s = Some s' → swap_step s s'.

(** ** What the requests see *)

Section Seen.
Context (sets : list Set') (replacements : list R) (before : gmap nat R).

Notation after := (replaceScenarioSets sets replacements before).

(** An answer that is right when the active registries are [h]. *)
Definition answered_from (h : gmap nat R) (x : nat * option R) : Prop := x.2 = h !! x.1.

Definition run_sets (acts : list (Action R)) (h : gmap nat R) : gmap nat R :=
  foldl (λ h act, match act with SetA a next => <[a := next]> h | _ => h end) h acts.

Lemma run_sets_after h : run_sets (setScenarioRegistries sets replacements) h = replaceScenarioSets sets replacements h.
Proof using.
  unfold replaceScenarioSets, setScenarioRegistries. revert h. generalize (zip sets replacements) as l.
  induction l as [|[set next] l IH]; intros h; [done|]. cbn. destruct (ss_Registry set) as [a|]; cbn; apply IH.
Qed.

Definition sets_managed (act : Action R) : Prop := match act with SetA a _ => a ∈ managed sets | _ => False end.

Lemma sets_all_managed : Forall sets_managed (setScenarioRegistries sets replacements).
Proof using.
  apply Forall_forall. intros act (sr & Hin & Ha)%list_elem_of_omap. destruct (ss_Registry sr.1) as [a|] eqn:E; [|done]. injection Ha as <-.
  cbn. apply list_elem_of_omap. exists sr.1. split; [|done]. destruct sr as [s r]. by eapply elem_of_zip_l.
Qed.

Lemma run_sets_other acts h a : Forall sets_managed acts → a ∉ managed sets → run_sets acts h !! a = h !! a.
Proof using.
  unfold run_sets. revert h. induction acts as [|act acts IH]; intros h Hf Ha; [done|]. apply list.Forall_cons_1 in Hf as [Hm Hf]. cbn. rewrite IH by done.
  destruct act as [|b next|]; [done| |done]. apply lookup_insert_ne. intros ->. done.
Qed.

Definition owned (a : nat) (s : SwapState) : Prop := locks s a = {| held := true; readers := 0 |}.

(** Where the reload is: it takes locks, it replaces - and then holds them all - or it
    lets go. *)
Inductive swap_phase (s : SwapState) : Prop :=
| phase_locking got left :
    managed sets = got ++ left → (∀ a, held (locks s a) = true → a ∈ got) →
    todo s = map LockA left ++ setScenarioRegistries sets replacements ++ unlockScenarioRegistries (managed sets) →
    active s = before → Forall (λ a, owned a s) got → Forall (answered_from before) (answers s) → swap_phase s
| phase_setting done left :
    setScenarioRegistries sets replacements = done ++ left →
    todo s = left ++ unlockScenarioRegistries (managed sets) →
    active s = run_sets done before → Forall (λ a, owned a s) (managed sets) → Forall (answered_from before) (answers s) → swap_phase s
| phase_unlocking left old new :
    todo s = map UnlockA left →
    active s = after → answers s = old ++ new → Forall (answered_from before) old → Forall (answered_from after) new → swap_phase s.

Lemma start_phase : swap_phase (start_swap before sets replacements).
Proof using. by apply (phase_locking _ [] (managed sets)). Qed.

Lemma owned_readers a s : owned a s → held (locks s a) = true ∧ readers (locks s a) = 0%nat.
Proof using. unfold owned. by intros ->. Qed.

(** A step that leaves alone what the reload holds. *)
Lemma owned_kept l s s' : (∀ b, b ∈ l → locks s' b = locks s b) → Forall (λ a, owned a s) l → Forall (λ a, owned a s') l.
Proof using. intros Hk. rewrite !list.Forall_forall. intros Ho a Ha. unfold owned. rewrite Hk by done. by apply Ho. Qed.

Lemma set_lock_other a l lk b : b ≠ a → set_lock a l lk b = lk b.
Proof using. intros Hb. unfold set_lock. by destruct (decide (a = b)). Qed.

Lemma set_lock_same a l lk : set_lock a l lk a = l.
Proof using. unfold set_lock. by destruct (decide (a = a)). Qed.

(** A reader changes locks that nobody holds, and nothing else. *)
Lemma reader_phase a l s :
  held (locks s a) = false → held l = false → swap_phase s →
  swap_phase {| locks := set_lock a l (locks s); active := active s; todo := todo s; answers := answers s |}.
Proof using.
  intros Hfree Hl Hs. assert (Hother : ∀ b, held (locks s b) = true → set_lock a l (locks s) b = locks s b) by (intros b Hb; apply set_lock_other; congruence).
  assert (Hkeep : ∀ l0, Forall (λ b, owned b s) l0 → ∀ b, b ∈ l0 → set_lock a l (locks s) b = locks s b).
  { intros l0 Ho b Hb. rewrite list.Forall_forall in Ho. by apply Hother, owned_readers, Ho. }
  destruct Hs as [got left Hm Hh Ht Ha Ho Hans|dn left Hset Ht Ha Ho Hans|left old new Ht Ha Hans Hold Hnew].
  - apply (phase_locking _ got left); try done; [|eapply owned_kept; [|exact Ho]; by apply Hkeep].
    intros b. cbn. destruct (decide (b = a)) as [->|Hb]; [by rewrite set_lock_same, Hl|rewrite set_lock_other by done; apply Hh].
  - apply (phase_setting _ dn left); try done. eapply owned_kept; [|exact Ho]. by apply Hkeep.
  - by apply (phase_unlocking _ left old new).
Qed.

Lemma read_phase a s s' : (∀ b, held (locks s b) = true → readers (locks s b) = 0%nat) → read_active a s = Some s' → swap_phase s → swap_phase s'.
Proof using.
  intros Hex. unfold read_active. destruct (Nat.eqb_spec (readers (locks s a)) 0) as [|Hr]; [done|]. intros [= <-] Hs.
  destruct Hs as [got left Hm Hh Ht Ha Ho Hans|dn left Hset Ht Ha Ho Hans|left old new Ht Ha Hans Hold Hnew].
  - apply (phase_locking _ got left); try done. cbn. apply Forall_app. split; [done|]. apply list.Forall_singleton. cbn. by rewrite Ha.
  - apply (phase_setting _ dn left); try done. cbn. apply Forall_app. split; [done|]. apply list.Forall_singleton. unfold answered_from. cbn.
    rewrite Ha. apply run_sets_other; [|].
    + pose proof sets_all_managed as Hall. rewrite Hset in Hall. by apply Forall_app in Hall as [? _].
    + intros Hin. rewrite list.Forall_forall in Ho. apply Ho, owned_readers in Hin as [_ ?]. done.
  - apply (phase_unlocking _ left old (new ++ [(a, active s !! a)])); try done; cbn.
    + by rewrite Hans, app_assoc.
    + apply Forall_app. split; [done|]. apply list.Forall_singleton. unfold answered_from. cbn. by rewrite Ha.
Qed.

Lemma reload_phase act rest s s' : todo s = act :: rest → run_action act rest s = Some s' → swap_phase s → swap_phase s'.
Proof using.
  intros Htodo Hrun Hs.
  destruct Hs as [got left Hm Hh Ht Ha Ho Hans|dn left Hset Ht Ha Ho Hans|left old new Ht Ha Hans Hold Hnew].
  - destruct left as [|a left].
    + cbn in Ht. rewrite app_nil_r in Hm. subst got.
      assert (Hset : swap_phase s) by (eapply (phase_setting s [] (setScenarioRegistries sets replacements)); done).
      clear Hh. revert Htodo. rewrite Ht. destruct (setScenarioRegistries sets replacements) as [|act0 left] eqn:E.
      * cbn. unfold unlockScenarioRegistries. destruct (rev (managed sets)) as [|b left] eqn:Er; [done|]. cbn. intros [= <- <-]. cbn in Hrun. injection Hrun as <-.
        apply (phase_unlocking _ left (answers s) []); try done; [|by rewrite app_nil_r]. cbn. rewrite <- run_sets_after, E. done.
      * cbn. intros [= <- <-]. pose proof sets_all_managed as Hall. rewrite E in Hall. apply list.Forall_cons_1 in Hall as [Hact _]. destruct act0 as [|b next|]; [done| |done].
        cbn in Hrun. injection Hrun as <-. apply (phase_setting _ [SetA b next] left); try done. cbn. by rewrite Ha.
    + rewrite Ht in Htodo. cbn in Htodo. injection Htodo as <- <-. cbn in Hrun.
      destruct (held (locks s a)) eqn:Eh; [done|]. destruct (readers (locks s a) =? 0)%nat; [|done]. cbn in Hrun. injection Hrun as <-.
      assert (Hnot : ∀ b, b ∈ got → b ≠ a). { intros b Hb ->. rewrite list.Forall_forall in Ho. apply Ho, owned_readers in Hb as [? _]. congruence. }
      apply (phase_locking _ (got ++ [a]) left); try done.
      * by rewrite <- app_assoc.
      * intros b. cbn. destruct (decide (b = a)) as [->|Hb]; [intros _; apply elem_of_app; right; by apply list_elem_of_singleton|].
        rewrite set_lock_other by done. intros Hb'. apply elem_of_app. left. by apply Hh.
      * apply Forall_app. split; [|apply list.Forall_singleton; unfold owned; cbn; by rewrite set_lock_same].
        eapply owned_kept; [|exact Ho]. intros b Hb. cbn. apply set_lock_other. by apply Hnot.
  - destruct left as [|act0 left].
    + cbn in Ht. rewrite app_nil_r in Hset. revert Htodo. rewrite Ht. unfold unlockScenarioRegistries. destruct (rev (managed sets)) as [|b left] eqn:Er; [done|].
      cbn. intros [= <- <-]. cbn in Hrun. injection Hrun as <-. apply (phase_unlocking _ left (answers s) []); try done; [|by rewrite app_nil_r]. cbn.
      by rewrite <- run_sets_after, Hset.
    + rewrite Ht in Htodo. cbn in Htodo. injection Htodo as <- <-. pose proof sets_all_managed as Hall. rewrite Hset in Hall.
      apply Forall_app in Hall as [_ Hact]. apply list.Forall_cons_1 in Hact as [Hact _]. destruct act0 as [|b next|]; [done| |done]. cbn in Hrun. injection Hrun as <-.
      apply (phase_setting _ (dn ++ [SetA b next]) left); try done; [by rewrite <- app_assoc|]. cbn. rewrite Ha. unfold run_sets. by rewrite foldl_app.
  - destruct left as [|b left]; [by rewrite Ht in Htodo|]. rewrite Ht in Htodo. cbn in Htodo. injection Htodo as <- <-. cbn in Hrun. injection Hrun as <-.
    by apply (phase_unlocking _ left old new).
Qed.
(** ** Exclusion and progress *)

(** No reader is inside while the reload holds the lock. *)
Definition exclusive (s : SwapState) : Prop := ∀ b, held (locks s b) = true → readers (locks s b) = 0%nat.

Lemma set_lock_exclusive a l lk : (held l = true → readers l = 0%nat) → (∀ b, held (lk b) = true → readers (lk b) = 0%nat) →
  ∀ b, held (set_lock a l lk b) = true → readers (set_lock a l lk b) = 0%nat.
Proof using. intros Hl Hlk b. unfold set_lock. destruct (decide (a = b)); [exact Hl|apply Hlk]. Qed.

Lemma step_exclusive s s' : swap_step s s' → exclusive s → exclusive s'.
Proof using.
  intros Hst He. destruct Hst as [act rest s s' Ht Hr|a s s' Hr|a s s' Hr|a s s' Hr].
  - destruct act as [a|a next|a]; cbn in Hr; [|by injection Hr as <-|injection Hr as <-; by refine (set_lock_exclusive _ _ _ _ He)].
    destruct (negb _ && _); [|done]. injection Hr as <-. by refine (set_lock_exclusive _ _ _ _ He).
  - unfold read_lock in Hr. destruct (held _); [done|]. injection Hr as <-. by refine (set_lock_exclusive _ _ _ _ He).
  - unfold read_active in Hr. destruct (_ =? 0)%nat; [done|]. by injection Hr as <-.
  - unfold read_unlock in Hr. destruct (readers _) as [|n] eqn:E; [done|]. injection Hr as <-. refine (set_lock_exclusive _ _ _ _ He).
    cbn. intros Hh. pose proof (He _ Hh). congruence.
Qed.

Lemma step_phase s s' : swap_step s s' → exclusive s → swap_phase s → swap_phase s'.
Proof using.
  intros Hst He Hs. destruct Hst as [act rest s s' Ht Hr|a s s' Hr|a s s' Hr|a s s' Hr].
  - by eapply reload_phase.
  - unfold read_lock in Hr. destruct (held _) eqn:E; [done|]. injection Hr as <-. by apply reader_phase.
  - by eapply read_phase.
  - unfold read_unlock in Hr. destruct (readers _) as [|n] eqn:E; [done|]. injection Hr as <-.
    destruct (held (locks s a)) eqn:Eh; [pose proof (He _ Eh); congruence|]. by apply reader_phase.
Qed.

Lemma steps_phase s s' : rtc swap_step s s' → exclusive s → swap_phase s → exclusive s' ∧ swap_phase s'.
Proof using. induction 1 as [s|s s1 s2 Hs _ IH]; [done|]. intros He Hp. apply IH; [by eapply step_exclusive|by eapply step_phase]. Qed.

(** The readers of a lock can leave it. *)
Lemma readers_leave a s : ∃ s', rtc swap_step s s' ∧ locks s' a = {| held := held (locks s a); readers := 0 |} ∧ todo s' = todo s.
Proof using.
  remember (readers (locks s a)) as n eqn:E. revert s E. induction n as [|n IH]; intros s E.
  - exists s. split; [done|]. split; [|done]. destruct (locks s a). cbn in *. congruence.
  - destruct (IH {| locks := set_lock a {| held := held (locks s a); readers := n |} (locks s); active := active s; todo := todo s; answers := answers s |}) as (s' & Hr & Hl & Ht).
    { cbn. by rewrite set_lock_same. }
    exists s'. split; [|split; [|exact Ht]]; [|by rewrite Hl; cbn; rewrite set_lock_same].
    eapply rtc_l; [|exact Hr]. apply (swap_runlock a). unfold read_unlock. by rewrite <- E.
Qed.

(** The reload can always go on: what it waits for are readers, and they leave. *)
Lemma action_possible s act rest : NoDup (managed sets) → todo s = act :: rest → swap_phase s → ∃ s', rtc swap_step s s' ∧ todo s' = rest.
Proof using.
  intros Hnd Ht Hs. destruct act as [a|a next|a].
  - assert (Hfree : held (locks s a) = false).
    { destruct Hs as [got left Hm Hh Ht' _ _ _|dn left Hset Ht' _ _ _|left old new Ht' _ _ _ _].
      - destruct left as [|b left]; cbn in Ht'.
        + exfalso. rewrite Ht in Ht'. pose proof sets_all_managed as Hall. destruct (setScenarioRegistries sets replacements) as [|act l]; cbn in Ht'.
          * unfold unlockScenarioRegistries in Ht'. by destruct (rev _).
          * injection Ht' as <- _. by apply list.Forall_cons_1 in Hall as [? _].
        + rewrite Ht in Ht'. injection Ht' as <- _. rewrite Hm in Hnd. apply NoDup_app in Hnd as (_ & Hd & _).
          destruct (held (locks s a)) eqn:E; [|done]. exfalso. apply (Hd a (Hh a E)). apply elem_of_cons. by left.
      - exfalso. pose proof sets_all_managed as Hall. rewrite Hset in Hall. apply Forall_app in Hall as [_ Hall]. rewrite Ht in Ht'.
        destruct left as [|act l]; cbn in Ht'; [unfold unlockScenarioRegistries in Ht'; by destruct (rev _)|]. injection Ht' as <- _.
        by apply list.Forall_cons_1 in Hall as [? _].
      - exfalso. rewrite Ht in Ht'. by destruct left. }
    destruct (readers_leave a s) as (s1 & Hr & Hl & Ht1). rewrite Hfree in Hl. eexists. split.
    + eapply rtc_r; [exact Hr|]. eapply (swap_reload (LockA a) rest); [by rewrite Ht1|]. cbn. rewrite Hl. reflexivity.
    + reflexivity.
  - eexists. split; [eapply rtc_once, (swap_reload (SetA a next) rest); [exact Ht|reflexivity]|reflexivity].
  - eexists. split; [eapply rtc_once, (swap_reload (UnlockA a) rest); [exact Ht|reflexivity]|reflexivity].
Qed.

Lemma swap_finishes s : NoDup (managed sets) → exclusive s → swap_phase s → ∃ s', rtc swap_step s s' ∧ todo s' = [].
Proof using.
  intros Hnd. remember (todo s) as l eqn:E. revert s E. induction l as [|act rest IH]; intros s E He Hs; [by exists s|].
  destruct (action_possible s act rest Hnd (eq_sym E) Hs) as (s1 & Hr & Ht). destruct (steps_phase _ _ Hr He Hs) as [He1 Hs1].
  destruct (IH s1 (eq_sym Ht) He1 Hs1) as (s2 & Hr2 & Ht2). exists s2. split; [by etrans|done].
Qed.

Lemma finished_active s : swap_phase s → todo s = [] → active s = after.
Proof using.
  intros [got left Hm Hh Ht Ha _ _|dn left Hset Ht Ha _ _|left old new Ht Ha _ _ _] E; rewrite E in Ht; [| |done].
  - symmetry in Ht. apply app_nil in Ht as [_ Ht]. apply app_nil in Ht as [Ht _]. by rewrite Ha, <- run_sets_after, Ht.
  - symmetry in Ht. apply app_nil in Ht as [-> _]. rewrite app_nil_r in Hset. by rewrite Ha, <- run_sets_after, Hset.
Qed.
End Seen.

(** C24: however the requests interleave with a reload, there is one moment at which the
    answers of all registries switch from the old scenarios to the new ones - no request
    sees the new scenarios of one server and a later one the old scenarios of another -
    and the reload always gets to its end, with every replacement in place. *)
Theorem swap_switches_once (sets : list Set') (replacements : list R) before s :
  NoDup (managed sets) → rtc swap_step (start_swap before sets replacements) s →
  let after := replaceScenarioSets sets replacements before in
  (∃ old new, answers s = old ++ new ∧ Forall (answered_from before) old ∧ Forall (answered_from after) new) ∧
  (∃ s', rtc swap_step s s' ∧ todo s' = []) ∧ (todo s = [] → active s = after).
Proof using.
  intros Hnd Hr after. destruct (steps_phase sets replacements before _ _ Hr) as [He Hs]; [done|apply start_phase|]. split_and!.
  - destruct Hs as [got left _ _ _ _ _ Hans|dn left _ _ _ _ Hans|left old new _ _ Hans Hold Hnew]; [exists (answers s), []|exists (answers s), []|by exists old, new];
      (rewrite app_nil_r; split_and!; [done..|by apply Forall_nil_2]).
  - by eapply swap_finishes.
  - by eapply finished_active.
Qed.
End Swap.

(** ** An example *)

Definition demo_sets : list (ScenarioSet (Regexp := unit) (IPNet := unit) (R := nat)) :=
  map (λ a, {| ss_Apply := None; ss_NewRegistry := None; ss_Registry := Some a; ss_Name := "s"; ss_Dir := ""; ss_Server := zeroServer |}) [0; 1]%nat.

Definition demo_before : gmap nat nat := {[0%nat := 10%nat; 1%nat := 11%nat]}.

(** A reader of the first registry before the reload takes its lock, and one of the
    second after the reload has let go of that one but still holds the first. *)
Inductive Move := Reload | RLock (a : nat) | Ask (a : nat) | RUnlock (a : nat).

Definition move (m : Move) (s : SwapState (R := nat)) : option SwapState :=
  match m with
  | Reload => match todo s with [] => None | act :: rest => run_action act rest s end
  | RLock a => read_lock a s
  | Ask a => read_active a s
  | RUnlock a => read_unlock a s
  end.

Lemma moves_steps ms s s' : foldl (λ s m, s ≫= move m) (Some s) ms = Some s' → rtc swap_step s s'.
Proof.
  revert s. induction ms as [|m ms IH]; intros s; cbn; [by intros [= <-]|]. destruct (move m s) as [s1|] eqn:E.
  - intros H. eapply rtc_l; [|by apply IH]. destruct m as [|a|a|a]; cbn in E; [|by eapply swap_rlock|by eapply swap_read|by eapply swap_runlock].
    destruct (todo s) as [|act rest] eqn:Et; [done|]. by eapply swap_reload.
  - intros H. exfalso. clear -H. induction ms; [done|by apply IHms].
Qed.

Definition demo_moves : list Move :=
  [RLock 0; Ask 0; RUnlock 0; Reload; Reload; Reload; Reload; Reload; RLock 1; Ask 1; RUnlock 1; Reload; RLock 0; Ask 0].

Lemma swap_switches_once_witness :
  ∃ s, rtc swap_step (start_swap demo_before demo_sets [20; 21]%nat) s ∧ answers s = [(0, Some 10); (1, Some 21); (0, Some 20)]%nat ∧
    ∃ s', rtc swap_step s s' ∧ todo s' = [].
Proof.
  destruct (foldl (λ s m, s ≫= move m) (Some (start_swap demo_before demo_sets [20; 21]%nat)) demo_moves) as [s|] eqn:E; [|vm_compute in E; discriminate].
  exists s. pose proof (moves_steps _ _ _ E) as Hr. split; [exact Hr|]. split; [vm_compute in E; injection E as <-; reflexivity|].
  assert (Hnd : NoDup (managed demo_sets)) by (apply (bool_decide_unpack _); vm_compute; exact I).
  destruct (swap_switches_once demo_sets [20; 21]%nat demo_before s Hnd Hr) as (_ & Hend & _). exact Hend.
Defined.
