(* ===== verification/PlainRegistry.v ===== *)
(** * The plain registry behind a reload, and what reloads do to it

    [scenarioRegistry] of [scenario.go] keeps the promises of the interface of
    [Management]: [Load], [Add] and [List] around the list of [Scenario]. The examples run
    the manager on it. *)
From S2P Require Import Prelude GoInt GoFloat GoStrings Weight StreamSources Scenario Responses Compile ScenarioV2 GoTime Config ConfigLoad ConfigCheck Management.

Local Open Scope Z_scope.
Local Open Scope go_scope.

Section Plain.
Context {Regexp : Type} (FindStringSubmatch : Regexp → string → option (list string)) (Compile : string → option Regexp).
Context (ParseMediaType : string → option (string * gmap string string)) {IPNet : Type} (ParseCIDR : string → option IPNet) (FileExists : string → bool).
Notation Scenario' := (Scenario (Regexp := Regexp) (IPNet := IPNet) (Response := Responses)).

Record PlainRegistry := { pr_bodyPattern : BodyPatternOptions; pr_scenarios : list Scenario' }.

Definition NewScenarioRegistryWithBodyPatternOptions (options : BodyPatternOptions) : PlainRegistry :=
  {| pr_bodyPattern := normalized options; pr_scenarios := [DefaultScenario] |}.

Definition validate (s : Scenario') : result RegistryError Scenario' :=
  match validateAndCompile FindStringSubmatch Compile ParseMediaType ParseCIDR FileExists s with Ok s => Ok s | Err e => Err (ScenarioRefused e) end.

Fixpoint validateAll (l : list Scenario') : result RegistryError (list Scenario') :=
  match l with
  | [] => Ok []
  | s :: l => let! s := validate s in let! l := validateAll l in Ok (s :: l)
  end.

Definition with_scenarios (l : list Scenario') (r : PlainRegistry) : PlainRegistry := {| pr_bodyPattern := pr_bodyPattern r; pr_scenarios := l |}.

Definition plain_Load (file : result string (list Scenario')) (r : PlainRegistry) : result RegistryError PlainRegistry :=
  match file with
  | Err message => Err (FileUnreadable message)
  | Ok scenarios => let! scenarios := validateAll scenarios in Ok (with_scenarios (installLoaded DefaultScenario scenarios) r)
  end.

Definition plain_Add (s : Scenario') (r : PlainRegistry) : result RegistryError PlainRegistry :=
  let! s := validate s in Ok (with_scenarios (addValidated s (pr_scenarios r)) r).

Definition plain_registry : ScenarioRegistry (Regexp := Regexp) (IPNet := IPNet) PlainRegistry :=
  {| List := pr_scenarios; LoadFile := plain_Load; AddScenario := plain_Add |}.

(** ** The promises *)

Lemma validate_name s s1 : validate s = Ok s1 → Name s1 = Name s.
Proof using.
  unfold validate. destruct (validateAndCompile _ _ _ _ _ s) as [s2|] eqn:E; [|done]. intros [= <-]. unfold validateAndCompile in E.
  destruct (negb _); [|done]. repeat (apply result_bind_ok in E as (? & _ & E)). by injection E as <-.
Qed.

Lemma named_None n (l : list Scenario') : named n l = None ↔ n ∉ map Name l.
Proof using.
  unfold named. induction l as [|s l IH]; cbn; [by split; [intros _ ?%not_elem_of_nil|]|]. rewrite not_elem_of_cons.
  destruct (String.eqb_spec (Name s) n) as [->|]; [split; [done|intros []; done]|]. rewrite IH. split; [by split; [congruence|]|by intros []].
Qed.

Lemma named_elem n s (l : list Scenario') : NoDup (map Name l) → s ∈ l → Name s = n → named n l = Some s.
Proof using.
  unfold named. induction l as [|x l IH]; [by intros _ ?%not_elem_of_nil|]. cbn. intros [Hx Hnd]%NoDup_cons [->|Hin]%elem_of_cons Hn.
  - by rewrite Hn, String.eqb_refl.
  - destruct (String.eqb_spec (Name x) n) as [E|]; [|by apply IH]. exfalso. apply Hx. rewrite E, <- Hn. by apply list_elem_of_fmap_2.
Qed.

Lemma named_perm n (l l' : list Scenario') : NoDup (map Name l) → l ≡ₚ l' → named n l = named n l'.
Proof using.
  intros Hnd Hp. assert (Hnd' : NoDup (map Name l')) by (by rewrite <- Hp). destruct (named n l) as [s|] eqn:E.
  - apply find_some in E as [Hin En]. apply String.eqb_eq in En. symmetry. apply named_elem; [done| |done]. rewrite <- Hp. by apply list_elem_of_In.
  - apply named_None in E. symmetry. apply named_None. by rewrite <- Hp.
Qed.

Lemma addValidated_named s (l : list Scenario') : NoDup (map Name l) →
  NoDup (map Name (addValidated s l)) ∧ ∃ k, ∀ n, named n (addValidated s l) = if decide (n = Name s) then Some (with_order k s) else named n l.
Proof using.
  intros Hnd. unfold addValidated. pose proof (remove_named_spec (Name s) l) as Hr.
  assert (H : ∃ k l', (match remove_named (Name s) l with Some (n, l) => (n, l) | None => (nextScenarioOrder l, l) end) = (k, l') ∧ NoDup (map Name l') ∧ Name s ∉ map Name l' ∧
    ∀ n, n ≠ Name s → named n l' = named n l).
  { destruct (remove_named (Name s) l) as [[k l']|].
    - destruct Hr as (l1 & old & l2 & -> & -> & Hn & _ & _). exists k, (l1 ++ l2). rewrite map_app in Hnd |- *. cbn in Hnd.
      assert (Hp : map Name l1 ++ Name old :: map Name l2 ≡ₚ Name old :: map Name l1 ++ map Name l2) by (by rewrite Permutation_middle).
      rewrite Hp in Hnd. apply NoDup_cons in Hnd as [Hx Hnd]. rewrite <- Hn. split_and!; [done..|]. intros n Hne. rewrite !named_app. cbn.
      by rewrite (proj2 (String.eqb_neq (Name old) n)) by congruence.
    - exists (nextScenarioOrder l), l. split_and!; [done..| |done]. rewrite list.Forall_forall in Hr. intros (x & E & Hin)%list_elem_of_fmap. by apply (Hr x). }
  destruct H as (k & l' & -> & Hnd' & Hout & Hothers).
  assert (Hp : l' ++ [with_order k s] ≡ₚ with_order k s :: l') by (symmetry; apply Permutation_cons_append).
  assert (Hsort : NoDup (map Name (with_order k s :: l'))) by (cbn; apply NoDup_cons; by split).
  split; [by rewrite sort_perm, Hp|]. exists k. intros n. rewrite <- (named_perm n (with_order k s :: l')); [|done|by rewrite sort_perm, Hp]. unfold named at 1. cbn.
  destruct (String.eqb_spec (Name s) n) as [->|Hne]; [by rewrite decide_True|]. rewrite decide_False by congruence. apply Hothers. congruence.
Qed.

Definition plain_laws : RegistryLaws (R := PlainRegistry) (HR := plain_registry).
Proof using.
  refine {| registry_wf := λ r, NoDup (map Name (pr_scenarios r)); validated := validate |}.
  intros s r r' Hwf H. cbn in H. unfold plain_Add in H. apply result_bind_ok in H as (s1 & Hv & H). injection H as <-. cbn.
  destruct (addValidated_named s1 (pr_scenarios r) Hwf) as (Hnd & k & Hn). split; [exact Hnd|]. exists s1, k. rewrite <- (validate_name s s1 Hv). by split.
Defined.
End Plain.

(** ** A server of an example *)

Module Example.

Notation DemoRegistry := (PlainRegistry (Regexp := unit) (IPNet := unit)).

#[export] Instance demo_registry : ScenarioRegistry (Regexp := unit) (IPNet := unit) PlainRegistry :=
  plain_registry (λ _ _, None) (λ _, Some tt) (λ _, None) (λ _, None) (λ _, false).
#[export] Instance demo_laws : RegistryLaws (R := PlainRegistry) (HR := demo_registry) := plain_laws _ _ _ _ _.

Definition demo_scenario (name : string) (path : string) (routes : RouteMap) (status : Z) : Scenario (Regexp := unit) (IPNet := unit) (Response := Responses) :=
  mkScenario name (whenRule routes [] [path] ∅ None) [] {| Response := with_status status template204; WeightedResponses := None |} 5.

Definition no_limit : BodyPatternOptions := {| Limit := 0; LimitAction := "" |}.

Definition fresh (_ : BodyPatternOptions) : DemoRegistry := NewScenarioRegistryWithBodyPatternOptions no_limit.

(** A file of the configuration: the defaults, another port and another directory. *)
Definition demo_config (dir : string) (port : Z) (enabled : bool) : Config :=
  let d := SetDefaults zeroConfig in
  {| c_SourcePath := ""; c_Servers := ∅; c_Health := c_Health d;
     c_Management := {| mg_Token := ""; mg_TokenEnv := ""; mg_Enabled := enabled; mg_ScenarioReloadEnabled := true; mg_ConfigReloadEnabled := true;
                        mg_enabledSet := true; mg_scenarioReloadSet := true; mg_configReloadSet := true |};
     c_Metrics := c_Metrics d;
     c_Mock := {| mk_ScenariosDir := dir; mk_ServiceID := ""; mk_Matching := mk_Matching (c_Mock d); mk_HotReload := mk_HotReload (c_Mock d);
                  mk_DefaultTimeout := mk_DefaultTimeout (c_Mock d) |};
     c_Logging := c_Logging d; c_Defaults := zeroDefaults;
     c_Server := {| sc_ReadTimeout := 0; sc_WriteTimeout := 0; sc_MaxBodySize := 0; sc_IdleTimeout := 0; sc_ShutdownTimeout := 0; sc_Name := ""; sc_Port := port;
                    sc_MaxConnections := 0; sc_Streaming := true; sc_maxBodySizeSet := false; sc_TLS := sc_TLS zeroServer; sc_Host := "" |};
     c_Storage := c_Storage d; c_Sharding := c_Sharding d; c_PprofEnabled := false |}.

(** Two directories: the files of [one] are [a.yaml], with a fallback of its own, and
    [b.yaml]; that of [two] is [c.yml]. *)
Definition demo_dir (dir : string) : option (list (string * bool)) :=
  if String.eqb dir "one" then Some [("a.yaml", false); ("b.yaml", false); ("notes.txt", false); ("old.yaml", true)]
  else if String.eqb dir "two" then Some [("c.yml", false)] else None.

Definition demo_file (path : string) : result string (list (Scenario (Regexp := unit) (IPNet := unit) (Response := Responses))) :=
  if String.eqb path "one/a.yaml" then Ok [demo_scenario "scan" "/scan" ∅ 200; demo_scenario "default" "" ∅ 403]
  else if String.eqb path "one/b.yaml" then Ok [demo_scenario "scan" "/scan" ∅ 204; demo_scenario "other" "/other" ∅ 200]
  else if String.eqb path "two/c.yml" then Ok [demo_scenario "new" "/scan" ∅ 200]
  else Err "no such file".

Definition demo_world (cfg : Config) : World (Regexp := unit) (IPNet := unit) :=
  {| Abs := λ p, Some p; Stat := λ _, Ok {| fi_Regular := true; fi_Size := 100 |}; ConfigFile := λ _, Ok cfg; NotExist := λ _, false; Environ := ∅;
     ReadDir := demo_dir; ScenarioFile := demo_file; RangeOrder := λ inline, map fst (map_to_list inline) |}.

Definition summary (r : DemoRegistry) : list (string * Z) :=
  map (λ s, (Name s, rt_ICAPStatus (Response (s_Response s)))) (pr_scenarios r).

End Example.
