(* ===== verification/ManagementSpec.v ===== *)
(** * What reloading a running server does

    The scenarios a directory gives; that a reload puts everything in place or nothing;
    what no reload can change; and when a reload of the file a server was started from
    is accepted. *)
From stdpp Require Import sorting.
From S2P Require Import Prelude GoInt GoFloat GoStrings Weight StreamSources Scenario Responses Compile ScenarioV2 ScenarioV2Spec GoTime Config ConfigLoad ConfigCheck ConfigSpec Management PlainRegistry.

Local Open Scope Z_scope.
Local Open Scope go_scope.

(** ** Inline scenarios *)

(** The conversion of inline scenarios always has a result. *)
Lemma inline_converts {Regexp IPNet : Type} inline names :
  is_Some (ConvertV2ToScenarios (Regexp := Regexp) (IPNet := IPNet) 2 (Some (buildInlineScenarioFile inline)) names).
Proof.
  apply (conversion_terminates _ (λ _, 0%nat) 1); [|lia|lia]. intros a v Hv. exfalso. unfold variantsOf in Hv. cbn in Hv. by apply not_elem_of_nil in Hv.
Qed.

Section Spec.
Context {Regexp IPNet R : Type} `{HR : !ScenarioRegistry (Regexp := Regexp) (IPNet := IPNet) R}.
Notation Scenario' := (Scenario (Regexp := Regexp) (IPNet := IPNet) (Response := Responses)).
Notation World' := (World (Regexp := Regexp) (IPNet := IPNet)).

(** ** The scenarios of a directory *)

Context `{HL : !RegistryLaws (R := R)}.

(** What a file declares, as a registry that has loaded it lists it. *)
Definition declared (tmp : R) : list Scenario' := List.filter (λ s, negb (isImplicitDefaultScenario s)) (List tmp).

Definition placed_by (s : Scenario') (found : option Scenario') : Prop := ∃ s1 k, validated s = Ok s1 ∧ found = Some (with_order k s1).

(** [r'] is [r] with the scenarios [l], of which the last of a name counts. *)
Definition overlaid (l : list Scenario') (r r' : R) : Prop :=
  registry_wf r' ∧ ∀ n, match named n (rev l) with Some s => placed_by s (named n (List r')) | None => named n (List r') = named n (List r) end.

Lemma overlaid_app l1 l2 r r1 r2 : overlaid l1 r r1 → overlaid l2 r1 r2 → overlaid (l1 ++ l2) r r2.
Proof using.
  intros [_ H1] [Hwf H2]. split; [exact Hwf|]. intros n. rewrite rev_app_distr, named_app. specialize (H1 n). specialize (H2 n).
  destruct (named n (rev l2)); [exact H2|]. rewrite H2. exact H1.
Qed.

Lemma addAll_overlaid l r r' : registry_wf r → addAll l r = (None, r') → overlaid l r r'.
Proof using.
  revert r. induction l as [|s l IH]; intros r Hwf; cbn; [intros [= <-]; by split|]. destruct (AddScenario s r) as [r1|] eqn:E; [|done].
  intros H. destruct (add_places s r r1 Hwf E) as (Hwf1 & s1 & k & Hv & Hn). apply (overlaid_app [s] l r r1 r'); [|by apply IH].
  split; [exact Hwf1|]. intros n. cbn. rewrite Hn. destruct (String.eqb_spec (Name s) n) as [->|Hne].
  - rewrite decide_True by done. by exists s1, k.
  - by rewrite decide_False by congruence.
Qed.

(** The registry of a directory holds what its files declare, a scenario of a later
    file in the place of one of the same name of an earlier file, and the scenarios a new
    registry has otherwise; every file has been loaded. *)
Theorem directory_merged w dir new r :
  registry_wf new → String.eqb (trim_space dir) "" = false → LoadScenarioDirectory w dir new = Ok r →
  ∃ entries tmps, ReadDir w dir = Some entries ∧
    Forall2 (λ e tmp, LoadFile (ScenarioFile w (Join dir e.1)) new = Ok tmp) (List.filter (λ e, negb e.2 && isScenarioFile e.1) entries) tmps ∧
    overlaid (concat (map declared tmps)) new r.
Proof using.
  intros Hwf Hdir. unfold LoadScenarioDirectory, scenarioFilePaths. rewrite Hdir. destruct (ReadDir w dir) as [entries|]; [|done]. cbn [result_bind].
  set (l := List.filter _ entries). intros H. exists entries. fold l.
  assert (Hmerge : ∀ r0, registry_wf r0 → mergeScenarioFiles w new (map (λ e, Join dir e.1) l) r0 = Ok r →
    ∃ tmps, Forall2 (λ e tmp, LoadFile (ScenarioFile w (Join dir e.1)) new = Ok tmp) l tmps ∧ overlaid (concat (map declared tmps)) r0 r).
  { clear H. clearbody l. induction l as [|e l IH]; intros r0 H0; cbn; [intros [= <-]; exists []; split; [constructor|by split]|].
    intros (r1 & Hm & Hrest)%result_bind_ok. unfold mergeScenarioFile in Hm. destruct (LoadFile _ _) as [tmp|] eqn:Et; [|done].
    destruct (addAll _ r0) as [[e0|] r1'] eqn:Ea; cbn in Hm; [done|]. injection Hm as ->. pose proof (addAll_overlaid _ _ _ H0 Ea) as Ho.
    destruct (IH r1 (proj1 Ho) Hrest) as (tmps & Hf & Hot). exists (tmp :: tmps). split; [by constructor|]. cbn. by eapply overlaid_app. }
  destruct (Hmerge new Hwf H) as (tmps & Hf & Ho). by exists tmps.
Qed.
(** ** All or nothing *)

Notation Set' := (ScenarioSet (Regexp := Regexp) (IPNet := IPNet) (R := R)).
Notation Manager' := (RuntimeManager (Regexp := Regexp) (IPNet := IPNet) (R := R)).

(** Every set has a registry of its own. *)
Record manager_ok (st : Manager' * gmap nat R) : Prop := {
  mo_distinct : NoDup (omap ss_Registry (m_sets st.1));
  mo_managed : Forall (λ s, ∃ a current, ss_Registry s = Some a ∧ st.2 !! a = Some current) (m_sets st.1)
}.

(** [rep] is the replacement of a set: built from its directory and its inline scenarios,
    with the endpoints the server was started with where exact routes are concerned. *)
Definition replaces (w : World') (fallback : R) (h : gmap nat R) (set : Set') (rep : R) : Prop :=
  buildScenarioReplacement w true set fallback = Ok rep ∧
  ∀ a current, ss_Registry set = Some a → h !! a = Some current → ValidateExactRouteTopology (List current) (List rep) = true.

Lemma buildScenarioReplacements_ok w alive h fallback i sets reps :
  buildScenarioReplacements w alive h fallback i sets = Ok reps → Forall2 (replaces w fallback h) sets reps.
Proof using.
  revert i reps. induction sets as [|set sets IH]; intros i reps; cbn; [intros [= <-]; constructor|].
  intros (rep & Hb & Hr)%result_bind_ok. unfold validateExactRouteTopology in Hr.
  assert (Hrep : buildScenarioReplacement w true set fallback = Ok rep) by (unfold buildScenarioReplacement in *; destruct (alive i); [exact Hb|done]).
  destruct (ss_Registry set) as [a|] eqn:Ea; cbn in Hr; [destruct (h !! a) as [current|] eqn:Eh; cbn in Hr|]; [destruct (ValidateExactRouteTopology _ _) eqn:Ev; [|done]|..];
    (destruct (buildScenarioReplacements _ _ _ _ _ _) as [reps'|] eqn:E; cbn in Hr; [|done]); injection Hr as <-;
    (constructor; [split; [exact Hrep|]; intros a0 c0; congruence|by eapply IH]).
Qed.

Lemma replaceScenarioSets_other sets (reps : list R) h a : a ∉ omap ss_Registry (sets : list Set') → replaceScenarioSets sets reps h !! a = h !! a.
Proof using.
  unfold replaceScenarioSets. revert reps h. induction sets as [|set sets IH]; intros [|rep reps] h; try done. cbn. destruct (ss_Registry set) as [b|]; cbn.
  - intros [Hb Ha]%not_elem_of_cons. rewrite IH by done. by apply lookup_insert_ne.
  - apply IH.
Qed.

Lemma replaceScenarioSets_active (sets : list Set') reps h :
  NoDup (omap ss_Registry sets) → length sets = length reps →
  Forall2 (λ set rep, ∀ a, ss_Registry set = Some a → replaceScenarioSets sets reps h !! a = Some rep) sets reps.
Proof using.
  revert reps h. induction sets as [|set sets IH]; intros [|rep reps] h Hnd Hl; try done. cbn in Hnd, Hl.
  assert (Hrest : replaceScenarioSets (set :: sets) (rep :: reps) h =
    replaceScenarioSets sets reps (match ss_Registry set with Some a => <[a := rep]> h | None => h end)) by done.
  rewrite Hrest. clear Hrest. destruct (ss_Registry set) as [a|] eqn:Ea; [apply NoDup_cons in Hnd as [Ha Hnd]|];
    (apply Forall2_cons; split; [intros b Hb|apply IH; [done|lia]]); [|congruence].
  injection (eq_trans (eq_sym Ea) Hb) as <-. rewrite replaceScenarioSets_other by done. apply lookup_insert_eq.
Qed.

(** What a set becomes. *)
Definition follows (cfg : Config) (set set' : Set') : Prop :=
  ss_Registry set' = ss_Registry set ∧ ss_Name set' = ss_Name set ∧ ss_NewRegistry set' = ss_NewRegistry set ∧
  (ss_Server set = zeroServer ∨ ss_Server set' = ss_Server set) ∧
  ∃ spec, scenarioSpecsByName cfg !! ss_Name set = Some spec ∧ ss_Dir set' = ss_Dir spec ∧ ss_Apply set' = ss_Apply spec ∧ ss_Server set' = ss_Server spec.

Lemma serverChanged_false current next : serverChanged current next = false → current = zeroServer ∨ next = current.
Proof using. unfold serverChanged. rewrite andb_false_iff, !negb_false_iff, !bool_decide_eq_true. naive_solver. Qed.

Lemma updateSets_ok (cfg : Config) sets sets' : updateSets (scenarioSpecsByName cfg) sets = Ok sets' → Forall2 (follows cfg) sets sets'.
Proof using.
  revert sets'. induction sets as [|set sets IH]; intros sets'; cbn; [intros [= <-]; constructor|].
  destruct (_ !! _) as [spec|] eqn:E; [|done]. destruct (serverChanged _ _) eqn:Ec; [done|]. destruct (updateSets _ _) as [l|]; cbn; [|done]. intros [= <-].
  constructor; [|by apply IH]. apply serverChanged_false in Ec. unfold follows. cbn. split_and!; [done..| |by exists spec]. destruct Ec; [by left|by right].
Qed.

Lemma updatedScenarioSets_ok cfg sets sets' : updatedScenarioSets sets cfg = Ok sets' → Forall2 (follows cfg) sets sets'.
Proof using.
  unfold updatedScenarioSets. destruct sets as [|set sets]; cbn [is_nil]; [intros [= <-]; constructor|]. destruct (bool_decide _); [|done]. apply updateSets_ok.
Qed.

Lemma follows_managed cfg sets sets' : Forall2 (follows cfg) sets sets' → omap ss_Registry sets' = omap ss_Registry sets.
Proof using. induction 1 as [|set set' sets sets' (Hr & _) _ IH]; [done|]. cbn. by rewrite Hr, IH. Qed.

(** The state after replacements for the sets, which have the registries of before. *)
Lemma replaced_ok m h sets reps cfg path :
  manager_ok (m, h) → omap ss_Registry sets = omap ss_Registry (m_sets m) → length sets = length reps →
  Forall (λ s, is_Some (ss_Registry s)) sets → manager_ok (with_applied cfg path sets m, replaceScenarioSets sets reps h).
Proof using.
  intros [Hnd Hm] Hsame Hl Hsome. cbn in *. split; cbn; [by rewrite Hsame|].
  rewrite <- Hsame in Hnd. pose proof (replaceScenarioSets_active sets reps h Hnd Hl) as Ha. apply Forall_lookup_2. intros i set Hi.
  destruct (Forall2_lookup_l _ _ _ _ _ Ha Hi) as (rep & _ & Hrep). destruct (Forall_lookup_1 _ _ _ _ Hsome Hi) as [a Hs]. exists a, rep. split; [done|by apply Hrep].
Qed.

(** C20: loading a configuration puts everything in place or changes nothing. When it is
    accepted the manager has the configuration of the file, validated; every server has
    a registry that was built whole from what the configuration says about it, with no
    change of endpoints where routes are exact; no other registry has changed; and
    everyone who asked is told. *)
Theorem reload_all_or_nothing unfit w alive path st :
  manager_ok st →
  let '(r, st') := LoadConfigFromPath unfit w alive path st in
  match r with
  | Err _ => st' = st
  | Ok told => ∃ cfg absPath reps,
      loadAndValidate unfit w path = Ok (cfg, absPath) ∧ m_cfg st'.1 = Some cfg ∧ m_configPath st'.1 = absPath ∧
      told = map (λ fn, (fn, cfg)) (m_onApply st.1) ∧ Forall2 (follows cfg) (m_sets st.1) (m_sets st'.1) ∧
      Forall2 (λ set rep, replaces w (m_newRegistry st.1) st.2 set rep ∧ ∃ a, ss_Registry set = Some a ∧ st'.2 !! a = Some rep) (m_sets st'.1) reps ∧
      (∀ a, a ∉ omap ss_Registry (m_sets st.1) → st'.2 !! a = st.2 !! a) ∧ manager_ok st'
  end.
Proof using.
  destruct st as [m h]. intros Hok. unfold LoadConfigFromPath. destruct (negb _); [done|]. destruct (String.eqb _ _); [done|].
  destruct (loadAndValidate unfit w path) as [[cfg absPath]|e] eqn:El; [|done]. unfold applyLoaded. destruct (planConfigApply w alive m h cfg) as [[sets reps]|e] eqn:Ep; [|done].
  unfold planConfigApply in Ep. destruct (rejectUnsupportedRuntimeChange _ _ _); [done|].
  apply result_bind_ok in Ep as (sets0 & Hsets & Ep). apply result_bind_ok in Ep as (reps0 & Hreps & Ep). injection Ep as -> ->.
  apply updatedScenarioSets_ok in Hsets. apply buildScenarioReplacements_ok in Hreps. pose proof (follows_managed _ _ _ Hsets) as Hman.
  assert (Hsome : Forall (λ s, is_Some (ss_Registry s)) sets).
  { destruct Hok as [_ Hm]. cbn in Hm. clear -Hsets Hm. induction Hsets as [|set set' l l' (Hr & _) _ IH]; [constructor|]. apply list.Forall_cons_1 in Hm as [(a & c & Ha & _) Hm].
    constructor; [rewrite Hr, Ha; by eexists|by apply IH]. }
  pose proof (Forall2_length _ _ _ Hreps) as Hlen. pose proof (replaced_ok m h sets reps (Some cfg) absPath Hok Hman Hlen Hsome) as Hok'.
  exists cfg, absPath, reps. cbn. split_and!; try done.
  - pose proof (replaceScenarioSets_active sets reps h ltac:(rewrite Hman; apply Hok) Hlen) as Hact.
    apply Forall2_same_length_lookup_2; [done|]. intros i set rep Hi Hj. pose proof (Forall2_lookup_lr _ _ _ _ _ _ Hreps Hi Hj) as Hrep.
    pose proof (Forall2_lookup_lr _ _ _ _ _ _ Hact Hi Hj) as Ha. split; [exact Hrep|]. apply (Forall_lookup_1 _ _ _ _ Hsome) in Hi as [a Hs]. by exists a; split; [|apply Ha].
  - intros a Ha. apply replaceScenarioSets_other. by rewrite Hman.
Qed.
(** ** What no reload can change *)

Inductive management_step (unfit : float64 → Z) : Manager' * gmap nat R → Manager' * gmap nat R → Prop :=
| step_scenarios w alive st : management_step unfit st (ReloadScenarios w alive st).2
| step_load w alive path st : management_step unfit st (LoadConfigFromPath unfit w alive path st).2
| step_current w alive st : management_step unfit st (ReloadCurrentConfig unfit w alive st).2
| step_register fn st : management_step unfit st (RegisterConfigApplyFunc fn st.1, st.2).

(** The settings of a server entry besides its directory and its scenarios. *)
Definition entry_settings (e : ServerEntryConfig) :=
  (en_ServiceID e, en_Host e, en_Port e, (en_ReadTimeout e, en_WriteTimeout e, en_IdleTimeout e, en_ShutdownTimeout e), en_MaxConnections e,
   (en_MaxBodySize e, en_maxBodySizeSet e), (en_Streaming e, en_streamingSet e)).

(** The settings of a configuration besides directories, inline scenarios, the management
    and the two thresholds of the disk monitor, which are compared as numbers. *)
Definition fixed_settings (c : Config) :=
  (c_Server c, c_Defaults c, entry_settings <$> c_Servers c, (c_Logging c, c_Metrics c, c_Health c, c_Sharding c, c_PprofEnabled c),
   let m := c_Mock c in (mk_ServiceID m, mk_Matching m, mk_HotReload m, mk_DefaultTimeout m),
   let s := c_Storage c in (st_RequestsDir s, st_MaxFileSize s, st_RotateAfter s, st_Workers s, st_QueueSize s, st_Enabled s),
   let d := st_DiskMonitor (c_Storage c) in (dm_Path d, dm_CheckInterval d, dm_CacheInterval d, dm_Enabled d, dm_UseSyscalls d)).

Definition identity_of (s : Set') : string * option nat * option R * ServerConfig := (ss_Name s, ss_Registry s, ss_NewRegistry s, ss_Server s).

Lemma snapshot_fixed c live : fixed_settings (without_thresholds (staticConfigSnapshot c live)) = fixed_settings c.
Proof using. unfold fixed_settings. cbn. by rewrite <- map_fmap_compose. Qed.

Lemma deepEqual_fixed a b live : deepEqual (staticConfigSnapshot a live) (staticConfigSnapshot b live) = true → fixed_settings a = fixed_settings b.
Proof using.
  unfold deepEqual. intros [H _]%andb_true_iff. apply bool_decide_eq_true in H. by rewrite <- (snapshot_fixed a live), <- (snapshot_fixed b live), H.
Qed.

(** A configuration that has been loaded is not the zero one. *)
Lemma loaded_not_zero unfit (w : World') path cfg absPath : loadAndValidate unfit w path = Ok (cfg, absPath) → deepEqual cfg zeroConfig = false.
Proof using.
  unfold loadAndValidate. destruct (validateConfigFile _ _); [done|]. destruct (Load _ _ _) as [c|]; [|done]. destruct (Validate _ c) eqn:Ev; [|done]. intros [= <- _].
  unfold Validate in Ev. apply app_nil in Ev as [Ev _]. apply validateServer_nil in Ev as [[Hport _] _]. unfold port_ok in Hport.
  unfold deepEqual. apply andb_false_iff. left. apply bool_decide_eq_false. intros H. apply (f_equal (λ c, sc_Port (c_Server c))) in H. cbn in H. lia.
Qed.

Lemma follows_identity cfg sets sets' :
  Forall (λ s, ss_Server s ≠ zeroServer) sets → Forall2 (follows cfg) sets sets' → map identity_of sets' = map identity_of sets.
Proof using.
  intros Hz H. induction H as [|set set' sets sets' (Hr & Hn & Hf & Hs & _) _ IH]; [done|]. apply list.Forall_cons_1 in Hz as [Hz Hz']. cbn. rewrite IH by done.
  f_equal. unfold identity_of. rewrite Hr, Hn, Hf. by destruct Hs as [?| ->].
Qed.

(** A state with the settings [c] and the servers [ids]. *)
Definition runs_with (c : Config) (ids : list (string * option nat * option R * ServerConfig)) (st : Manager' * gmap nat R) : Prop :=
  (∃ cfg, m_cfg st.1 = Some cfg ∧ deepEqual cfg zeroConfig = false ∧ fixed_settings cfg = fixed_settings c) ∧ map identity_of (m_sets st.1) = ids.

Lemma load_runs_with unfit w alive path st c ids :
  Forall (λ i : string * option nat * option R * ServerConfig, i.2 ≠ zeroServer) ids → runs_with c ids st → runs_with c ids (LoadConfigFromPath unfit w alive path st).2.
Proof using.
  intros Hz [(cfg & Hc & Hnz & Hfix) Hids]. destruct st as [m h]. assert (Hsame : runs_with c ids (m, h)) by (split; [by exists cfg|done]).
  unfold LoadConfigFromPath. destruct (negb _); [done|]. destruct (String.eqb _ _); [done|].
  destruct (loadAndValidate unfit w path) as [[new absPath]|e] eqn:El; [|done]. unfold applyLoaded. destruct (planConfigApply w alive m h new) as [[sets reps]|e] eqn:Ep; [|done].
  cbn in Hc, Hids. unfold planConfigApply, rejectUnsupportedRuntimeChange in Ep. rewrite Hc, Hnz in Ep. destruct (deepEqual (staticConfigSnapshot cfg _) _) eqn:Ed; [|done].
  apply result_bind_ok in Ep as (sets0 & Hsets & Ep). apply result_bind_ok in Ep as (reps0 & _ & Ep). injection Ep as -> ->. apply updatedScenarioSets_ok in Hsets.
  split; cbn.
  - exists new. split; [done|]. split; [by eapply loaded_not_zero|]. rewrite <- Hfix. symmetry. by eapply deepEqual_fixed.
  - rewrite <- Hids in Hz |- *. apply follows_identity with new; [|done]. by rewrite Forall_fmap in Hz.
Qed.

(** C39: whatever is reloaded, from whatever file and in whatever order, a running server
    keeps every setting except the directories and inline scenarios and what the
    management may do, and every server keeps its name, its address and limits, and the
    registry its requests ask. *)
Theorem settings_fixed_at_start unfit st st' cfg :
  rtc (management_step unfit) st st' → m_cfg st.1 = Some cfg → deepEqual cfg zeroConfig = false → Forall (λ s, ss_Server s ≠ zeroServer) (m_sets st.1) →
  (∃ cfg', m_cfg st'.1 = Some cfg' ∧ fixed_settings cfg' = fixed_settings cfg) ∧ map identity_of (m_sets st'.1) = map identity_of (m_sets st.1).
Proof using.
  intros Hr Hc Hnz Hz. remember (map identity_of (m_sets st.1)) as ids eqn:Eids.
  assert (Hz' : Forall (λ i : string * option nat * option R * ServerConfig, i.2 ≠ zeroServer) ids) by (subst; by apply Forall_fmap).
  assert (H0 : runs_with cfg ids st) by (split; [by exists cfg|done]). clear Hc Hnz Hz Eids.
  assert (H' : runs_with cfg ids st'); [|destruct H' as [(cfg' & ? & _ & ?) ?]; split; [by exists cfg'|done]].
  induction Hr as [st|st st1 st2 Hs _ IH]; [done|]. apply IH. destruct Hs as [w alive st|w alive path st|w alive st|fn st].
  - destruct st as [m h]. cbn. by destruct (buildScenarioReplacements _ _ _ _ _ _).
  - by apply load_runs_with.
  - unfold ReloadCurrentConfig. destruct (String.eqb _ _); [done|]. by apply load_runs_with.
  - exact H0.
Qed.
(** ** From the start to a reload *)

Lemma sortedServerNames_perm {A} (servers : gmap string A) : sortedServerNames servers ≡ₚ map fst (map_to_list servers).
Proof using. apply merge_sort_Permutation. Qed.

Lemma elem_of_sortedServerNames {A} (servers : gmap string A) name : name ∈ sortedServerNames servers ↔ is_Some (servers !! name).
Proof using.
  rewrite sortedServerNames_perm, list_elem_of_fmap. split.
  - intros ([k v] & -> & Hin). apply elem_of_map_to_list in Hin. by exists v.
  - intros [v Hv]. exists (name, v). split; [done|]. by apply elem_of_map_to_list.
Qed.

Lemma NoDup_sortedServerNames {A} (servers : gmap string A) : NoDup (sortedServerNames servers).
Proof using. rewrite sortedServerNames_perm. apply NoDup_fst_map_to_list. Qed.

(** Taking the entry of every name. *)
Lemma entries_of_names {A B} (servers : gmap string A) (f : string → A → B) (g : B → string) :
  (∀ name entry, g (f name entry) = name) →
  map g (omap (λ name, f name <$> servers !! name) (sortedServerNames servers)) = sortedServerNames servers.
Proof using.
  intros Hg. assert (Hall : Forall (λ name, is_Some (servers !! name)) (sortedServerNames servers)) by (apply list.Forall_forall; intros; by apply elem_of_sortedServerNames).
  induction Hall as [|name l [entry He] _ IH]; [done|]. cbn. rewrite He. cbn. by rewrite Hg, IH.
Qed.

Lemma entries_elem {A B} (servers : gmap string A) (f : string → A → B) x :
  x ∈ omap (λ name, f name <$> servers !! name) (sortedServerNames servers) ↔ ∃ name entry, servers !! name = Some entry ∧ x = f name entry.
Proof using.
  rewrite list_elem_of_omap. split.
  - intros (name & _ & Hx). destruct (servers !! name) as [entry|] eqn:E; [|done]. injection Hx as <-. by exists name, entry.
  - intros (name & entry & He & ->). exists name. split; [by apply elem_of_sortedServerNames|]. by rewrite He.
Qed.

Lemma scenarioSpecs_names cfg : NoDup (map ss_Name (scenarioSpecs cfg : list Set')).
Proof using.
  unfold scenarioSpecs. destruct (decide _); [apply NoDup_singleton|]. rewrite (entries_of_names _ (λ name entry, serverScenarioSpec name entry (c_Defaults cfg))) by done.
  apply NoDup_sortedServerNames.
Qed.

Lemma specs_lookup cfg (spec : Set') : spec ∈ scenarioSpecs cfg → scenarioSpecsByName cfg !! ss_Name spec = Some spec.
Proof using.
  intros Hin. unfold scenarioSpecsByName. apply elem_of_list_to_map_1.
  - rewrite <- list_fmap_compose. apply scenarioSpecs_names.
  - apply list_elem_of_fmap. by exists spec.
Qed.

Lemma specs_size cfg : size (scenarioSpecsByName cfg : gmap string Set') = length (scenarioSpecs cfg : list Set').
Proof using.
  unfold scenarioSpecsByName. rewrite <- length_map_to_list, map_to_list_to_map; [by rewrite length_fmap|].
  rewrite <- list_fmap_compose. apply scenarioSpecs_names.
Qed.

Lemma length_specs cfg : length (scenarioSpecs cfg : list Set') = if decide (c_Servers cfg = ∅) then 1%nat else size (c_Servers cfg).
Proof using.
  rewrite <- (length_map ss_Name). unfold scenarioSpecs. destruct (decide _); [done|].
  rewrite (entries_of_names _ (λ name entry, serverScenarioSpec name entry (c_Defaults cfg))) by done. by rewrite sortedServerNames_perm, length_map, length_map_to_list.
Qed.

Lemma length_buildServerEntries cfg : length (buildServerEntries cfg) = if decide (c_Servers cfg = ∅) then 1%nat else size (c_Servers cfg).
Proof using.
  rewrite <- (length_map se_name). unfold buildServerEntries. destruct (decide _); [done|].
  rewrite (entries_of_names _ (λ name entry, {| se_inlineScenarios := en_Scenarios entry; se_name := name; se_scenariosDir := en_ScenariosDir entry;
    se_serviceID := if String.eqb (en_ServiceID entry) "" then mk_ServiceID (c_Mock cfg) else en_ServiceID entry;
    se_serverCfg := ToServerConfig entry (c_Defaults cfg) |})) by done. by rewrite sortedServerNames_perm, length_map, length_map_to_list.
Qed.

(** The sets of a started server. *)
Lemma startEntries_state w nr matching address entries (st : Manager' * gmap nat R) :
  let st' := startEntries w nr matching address entries st in
  m_cfg st'.1 = m_cfg st.1 ∧
  m_sets st'.1 = m_sets st.1 ++ imap (λ i e, entrySet (nr (bodyPatternOptions matching (sc_MaxBodySize (se_serverCfg e)))) (address + i) e) entries ∧
  (∀ a, (a < address)%nat → st'.2 !! a = st.2 !! a) ∧ ∀ i, (i < length entries)%nat → is_Some (st'.2 !! (address + i)%nat).
Proof using.
  revert address st. induction entries as [|e entries IH]; intros address st st'; [cbn; rewrite app_nil_r; split_and!; [done..|intros; lia]|].
  set (fresh := nr (bodyPatternOptions matching (sc_MaxBodySize (se_serverCfg e)))).
  destruct (IH (S address) (RegisterScenarioSet (entrySet fresh address e) st.1, <[address := startRegistry w fresh e]> st.2)) as (Hc & Hs & Hlow & Hnew).
  change (startEntries w nr matching (S address) entries _) with st' in Hc, Hs, Hlow, Hnew. split_and!.
  - by rewrite Hc.
  - rewrite Hs. cbn. rewrite <- app_assoc. cbn. rewrite Nat.add_0_r. do 2 f_equal. apply imap_ext. intros i x _. cbn. f_equal. lia.
  - intros a Ha. rewrite Hlow by lia. apply lookup_insert_ne. lia.
  - intros [|i] Hi; [|rewrite Nat.add_succ_r; apply Hnew; cbn in Hi; lia]. rewrite Nat.add_0_r, Hlow by lia. cbn. rewrite lookup_insert_eq. by eexists.
Qed.

Lemma omap_addresses (f : nat → serverEntry → Set') address entries :
  (∀ i e, ss_Registry (f i e) = Some (address + i)%nat) → omap ss_Registry (imap f entries) = seq address (length entries).
Proof using.
  revert address f. induction entries as [|e entries IH]; intros address f Hf; [done|]. cbn. rewrite Hf, Nat.add_0_r. f_equal. apply IH. intros i x. cbn. rewrite Hf. f_equal. lia.
Qed.

Lemma started_ok w nr fallback cfg : manager_ok (startAllServers w nr fallback cfg).
Proof using.
  unfold startAllServers. set (entries := buildServerEntries cfg). set (st0 := (NewRuntimeManager w fallback cfg (c_SourcePath cfg), ∅)).
  destruct (startEntries_state w nr (mk_Matching (c_Mock cfg)) 0 entries st0) as (_ & Hs & _ & Hnew). cbn in Hs. split.
  - rewrite Hs, (omap_addresses _ 0) by done. apply NoDup_seq.
  - rewrite Hs. apply list.Forall_forall. intros set Hin. apply list_elem_of_lookup in Hin as [i Hi]. rewrite list_lookup_imap in Hi.
    destruct (entries !! i) as [e|] eqn:Ee; [|done]. cbn in Hi. injection Hi as <-. destruct (Hnew i) as [r Hr]; [by eapply lookup_lt_Some|]. by exists i, r.
Qed.
(** What two configurations with the same fixed settings have in common. *)
Lemma fixed_common a b : fixed_settings a = fixed_settings b →
  c_Server a = c_Server b ∧ c_Defaults a = c_Defaults b ∧ entry_settings <$> c_Servers a = entry_settings <$> c_Servers b.
Proof using. intros H. injection H as Hserver Hdefaults Hservers _ _ _ _. by split_and!. Qed.

Lemma entry_settings_server e e' d : entry_settings e' = entry_settings e → ToServerConfig e' d = ToServerConfig e d.
Proof using. destruct e, e'. unfold entry_settings. cbn. intros [=]. by subst. Qed.

Lemma fixed_entry a b name e : fixed_settings a = fixed_settings b → c_Servers a !! name = Some e →
  ∃ e', c_Servers b !! name = Some e' ∧ ToServerConfig e' (c_Defaults b) = ToServerConfig e (c_Defaults a).
Proof using.
  intros (_ & Hd & Hs)%fixed_common He. assert (Hl : (entry_settings <$> c_Servers b) !! name = Some (entry_settings e)) by (rewrite <- Hs, lookup_fmap, He; done).
  rewrite lookup_fmap in Hl. destruct (c_Servers b !! name) as [e'|]; [|done]. apply (inj Some) in Hl. exists e'. split; [done|]. rewrite Hd. by apply entry_settings_server.
Qed.

Lemma fixed_size a b : fixed_settings a = fixed_settings b → size (c_Servers a) = size (c_Servers b) ∧ (c_Servers a = ∅ ↔ c_Servers b = ∅).
Proof using.
  intros (_ & _ & Hs)%fixed_common. assert (H : size (c_Servers a) = size (c_Servers b)) by (apply (f_equal size) in Hs; rewrite !map_size_fmap in Hs; exact Hs).
  split; [exact H|]. by rewrite <- !map_size_empty_iff, H.
Qed.

(** A single server of a loaded configuration has the name of the default set. *)
Lemma loaded_name unfit (w : World') path c absPath : loadAndValidate unfit w path = Ok (c, absPath) → sc_Name (c_Server c) = "default".
Proof using.
  unfold loadAndValidate. destruct (validateConfigFile _ _); [done|]. destruct (Load _ _ _) as [c0|] eqn:El; [|done]. destruct (Validate _ c0); [|done]. intros [= <- _].
  apply file_settings_ignored in El as [El _]. apply (f_equal snd) in El. cbn in El. exact El.
Qed.

(** The entry of a started server has its set in the configuration of the file. *)
Lemma entry_spec cfg c e : fixed_settings cfg = fixed_settings c → (c_Servers cfg = ∅ → sc_Name (c_Server cfg) = "default") → e ∈ buildServerEntries cfg →
  ∃ spec : Set', scenarioSpecsByName c !! se_name e = Some spec ∧ ss_Server spec = se_serverCfg e.
Proof using.
  intros Hfix Hname Hin. destruct (fixed_size _ _ Hfix) as [_ Hempty]. unfold buildServerEntries in Hin. destruct (decide (c_Servers cfg = ∅)) as [He|He].
  - apply list_elem_of_singleton in Hin as ->. rewrite Hname by done. cbn. exists (legacyScenarioSpec c). split; [|by destruct (fixed_common _ _ Hfix)].
    apply (specs_lookup c (legacyScenarioSpec c)). unfold scenarioSpecs. rewrite decide_True by tauto. by apply list_elem_of_singleton.
  - apply (entries_elem (c_Servers cfg) (λ name entry, {| se_inlineScenarios := en_Scenarios entry; se_name := name; se_scenariosDir := en_ScenariosDir entry;
      se_serviceID := if String.eqb (en_ServiceID entry) "" then mk_ServiceID (c_Mock cfg) else en_ServiceID entry;
      se_serverCfg := ToServerConfig entry (c_Defaults cfg) |})) in Hin as (name & entry & Hl & ->).
    destruct (fixed_entry _ _ _ _ Hfix Hl) as (entry' & Hl' & Hs). cbn. exists (serverScenarioSpec name entry' (c_Defaults c)). split; [|exact Hs].
    apply (specs_lookup c (serverScenarioSpec name entry' (c_Defaults c))). unfold scenarioSpecs. rewrite decide_False by tauto.
    apply (entries_elem (c_Servers c) (λ name entry, serverScenarioSpec name entry (c_Defaults c))). by exists name, entry'.
Qed.

Lemma updateSets_accepts specs (sets : list Set') :
  Forall (λ set, ∃ spec, specs !! ss_Name set = Some spec ∧ ss_Server spec = ss_Server set) sets →
  ∃ sets', updateSets specs sets = Ok sets' ∧ map identity_of sets' = map identity_of sets.
Proof using.
  induction 1 as [|set sets (spec & Hs & He) _ (sets' & IH & Hids)]; [by exists []|]. exists (withSpec spec set :: sets'). cbn. rewrite Hs.
  unfold serverChanged. rewrite He, (bool_decide_eq_true_2 (ss_Server set = ss_Server set)) by done. rewrite andb_false_r, IH. split; [done|]. cbn. rewrite Hids. f_equal. unfold identity_of. cbn. by rewrite He.
Qed.

(** A server that was started with the settings of a file - whatever directories it
    was started with, and whoever asked to be told - can be reloaded from that file: the
    comparison of settings and servers accepts it, so only scenarios that cannot be
    loaded, or endpoints that differ, can still refuse the reload, and every server
    follows the file. *)
Theorem unchanged_file_accepted unfit (w : World') path c absPath w0 nr fallback cfg fns :
  loadAndValidate unfit w path = Ok (c, absPath) →
  let live := negb (is_nil fns) in
  deepEqual (staticConfigSnapshot cfg live) (staticConfigSnapshot c live) = true →
  let st := startAllServers w0 nr fallback cfg in
  let m := foldl (λ m fn, RegisterConfigApplyFunc fn m) st.1 fns in
  ∃ sets, Forall2 (follows c) (m_sets m) sets ∧ map identity_of sets = map identity_of (m_sets m) ∧
    ∀ w' alive, planConfigApply w' alive m st.2 c =
      let! reps := buildScenarioReplacements w' (λ i, alive (S i)) st.2 (m_newRegistry m) 0 sets in Ok (sets, reps).
Proof using.
  intros Hload live Hsame st m. pose proof (deepEqual_fixed _ _ _ Hsame) as Hfix. destruct (fixed_size _ _ Hfix) as [Hsize Hempty].
  assert (Hregister : ∀ m0 : Manager', let m1 := foldl (λ m fn, RegisterConfigApplyFunc fn m) m0 fns in
    m_cfg m1 = m_cfg m0 ∧ m_sets m1 = m_sets m0 ∧ m_onApply m1 = m_onApply m0 ++ fns).
  { clear. induction fns as [|fn fns IH]; intros m0; cbn; [by rewrite app_nil_r|]. destruct (IH (RegisterConfigApplyFunc fn m0)) as (-> & -> & ->). cbn. by rewrite <- app_assoc. }
  destruct (Hregister st.1) as (Hc & Hs & Ha). fold m in Hc, Hs, Ha.
  destruct (startEntries_state w0 nr (mk_Matching (c_Mock cfg)) 0 (buildServerEntries cfg) (NewRuntimeManager w0 fallback cfg (c_SourcePath cfg), ∅)) as (Hc0 & Hs0 & _).
  fold (startAllServers w0 nr fallback cfg) in Hc0, Hs0. fold st in Hc0, Hs0. cbn in Hc0, Hs0.
  assert (Hon : m_onApply st.1 = []).
  { subst st. unfold startAllServers. generalize (buildServerEntries cfg) as l, 0%nat as a. set (st0 := (NewRuntimeManager _ _ _ _, _)).
    assert (H0 : m_onApply st0.1 = []) by done. clearbody st0. intros l. revert st0 H0. induction l as [|e l IH]; intros st0 H0 a; [done|]. by apply IH. }
  assert (Hspecs : Forall (λ set, ∃ spec, scenarioSpecsByName c !! ss_Name set = Some spec ∧ ss_Server spec = ss_Server set) (m_sets m)).
  { rewrite Hs, Hs0. apply list.Forall_forall. intros set (i & Hi)%list_elem_of_lookup. rewrite list_lookup_imap in Hi.
    destruct (buildServerEntries cfg !! i) as [e|] eqn:Ee; [|done]. injection Hi as <-. apply (entry_spec cfg c e Hfix); [|by eapply list_elem_of_lookup_2].
    intros _. destruct (fixed_common _ _ Hfix) as [-> _]. by eapply loaded_name. }
  destruct (updateSets_accepts _ _ Hspecs) as (sets & Hu & Hids). exists sets. split_and!; [by apply updateSets_ok|done|].
  intros w' alive. unfold planConfigApply, rejectUnsupportedRuntimeChange. rewrite Hc, Hc0, Ha, Hon. cbn [app]. fold live. rewrite Hsame.
  assert (Hupd : updatedScenarioSets (m_sets m) c = Ok sets).
  { assert (Hlen : size (scenarioSpecsByName c : gmap string Set') = length (m_sets m)).
    { rewrite specs_size, length_specs, Hs, Hs0, length_imap, length_buildServerEntries, Hsize.
      destruct (decide (c_Servers c = ∅)), (decide (c_Servers cfg = ∅)); tauto. }
    unfold updatedScenarioSets. rewrite (bool_decide_eq_true_2 _ Hlen). destruct (m_sets m); [|exact Hu]. by injection Hu as <-. }
  rewrite Hupd. by destruct (deepEqual cfg zeroConfig).
Qed.
End Spec.

(** ** On the example server *)

Import PlainRegistry.Example.

Lemma fresh_wf : registry_wf (fresh no_limit).
Proof. apply NoDup_singleton. Qed.

Lemma directory_merged_witness :
  ∃ r, LoadScenarioDirectory (demo_world zeroConfig) "one" (fresh no_limit) = Ok r ∧ ∃ s, named "scan" (List r) = Some s.
Proof.
  destruct (LoadScenarioDirectory (demo_world zeroConfig) "one" (fresh no_limit)) as [r|e] eqn:E; [|vm_compute in E; discriminate].
  exists r. split; [done|]. destruct (directory_merged (demo_world zeroConfig) "one" (fresh no_limit) r fresh_wf eq_refl E) as (entries & tmps & Hd & Hf & _ & Hn).
  injection Hd as <-. specialize (Hn "scan"). cbn in Hf. inversion Hf as [|e1 t1 l1 l2 H1 Hf1]; subst. inversion Hf1 as [|e2 t2 l3 l4 H2 Hf2]; subst. inversion Hf2; subst.
  injection H1 as <-. injection H2 as <-. destruct (named "scan" (rev _)) as [s|] eqn:Es; [|vm_compute in Es; discriminate].
  destruct Hn as (s1 & k & _ & Hs). by eexists.
Defined.

(** The fallback of [a.yaml] is lost: [b.yaml] has none, so loading it adds the default
    scenario - with an order of declaration that the comparison with [DefaultScenario]
    takes for another scenario. *)
Example implicit_default_wins :
  summary <$> match LoadScenarioDirectory (demo_world zeroConfig) "one" (fresh no_limit) with Ok r => Some r | Err _ => None end =
  Some [("scan", 204); ("other", 200); ("default", 204)].
Proof. vm_compute. reflexivity. Qed.
(** The server of [one], started with its file. *)
Definition loaded_config (dir : string) (port : Z) (enabled : bool) : option (Config * string) :=
  match loadAndValidate unfit_amd64 (demo_world (demo_config dir port enabled)) "c.yaml" with Ok l => Some l | Err _ => None end.

Definition started (cfg : Config) : RuntimeManager (Regexp := unit) (IPNet := unit) (R := DemoRegistry) * gmap nat DemoRegistry := startAllServers (demo_world cfg) fresh (fresh no_limit) cfg.

Definition started_config : Config := Eval vm_compute in match loaded_config "one" 1344 true with Some l => l.1 | None => zeroConfig end.

Lemma started_config_loaded : loadAndValidate unfit_amd64 (demo_world (demo_config "one" 1344 true)) "c.yaml" = Ok (started_config, "c.yaml").
Proof. vm_compute. reflexivity. Qed.

Definition outcome_of {A} (x : result ManagementError (list (nat * Config)) * A) : option ManagementError := match x.1 with Ok _ => None | Err e => Some e end.

Definition summaries (st : RuntimeManager (Regexp := unit) (IPNet := unit) (R := DemoRegistry) * gmap nat DemoRegistry) : list (option string * list (string * Z)) :=
  map (λ set, (Some (ss_Dir set), default [] (summary <$> (ss_Registry set ≫= (st.2 !!.))))) (m_sets st.1).

(** The file now names the other directory, and the server has its scenarios. *)
Lemma reload_all_or_nothing_witness :
  let st := started started_config in
  let '(r, st') := LoadConfigFromPath unfit_amd64 (demo_world (demo_config "two" 1344 true)) (λ _, true) "c.yaml" st in
  (∃ told, r = Ok told) ∧ manager_ok st' ∧ summaries st' = [(Some "two", [("new", 200); ("default", 204)])].
Proof.
  intros st. assert (Hok : manager_ok st) by (apply started_ok). pose proof (reload_all_or_nothing unfit_amd64 (demo_world (demo_config "two" 1344 true)) (λ _, true) "c.yaml" st Hok) as H.
  destruct (LoadConfigFromPath _ _ _ _ st) as [r st'] eqn:E. assert (Hr : ∃ told, r = Ok told ∧ summaries st' = [(Some "two", [("new", 200); ("default", 204)])]).
  { apply (f_equal (λ x, (match x.1 with Ok t => Some t | Err _ => None end, summaries x.2))) in E. vm_compute in E. destruct r as [t|e]; [|discriminate E]. exists t. split; [done|].
    apply (f_equal snd) in E. symmetry. exact E. }
  destruct Hr as (told & -> & Hs). destruct H as (cfg & absPath & reps & _ & _ & _ & _ & _ & _ & _ & Hok'). split_and!; [by eexists|exact Hok'|exact Hs].
Defined.

Lemma settings_fixed_at_start_witness :
  let st := started started_config in
  let st' := (LoadConfigFromPath unfit_amd64 (demo_world (demo_config "two" 1344 false)) (λ _, true) "c.yaml" (RegisterConfigApplyFunc 0 st.1, st.2)).2 in
  summaries st' = [(Some "two", [("new", 200); ("default", 204)])] ∧ map identity_of (m_sets st'.1) = map identity_of (m_sets st.1).
Proof.
  intros st st'. split; [vm_compute; reflexivity|].
  refine (proj2 (settings_fixed_at_start unfit_amd64 st st' started_config _ eq_refl _ _)).
  - eapply rtc_l; [apply (step_register _ 0%nat)|]. apply rtc_once, step_load.
  - vm_compute. reflexivity.
  - apply list.Forall_singleton. vm_compute. discriminate.
Defined.

Lemma unchanged_file_accepted_witness :
  let st := started started_config in
  ∃ sets : list (ScenarioSet (Regexp := unit) (IPNet := unit) (R := DemoRegistry)), map identity_of sets = map identity_of (m_sets st.1).
Proof.
  intros st. destruct (unchanged_file_accepted unfit_amd64 _ _ started_config "c.yaml" (demo_world started_config) fresh (fresh no_limit) started_config []
    started_config_loaded ltac:(vm_compute; reflexivity)) as (sets & _ & Hids & _). by exists sets.
Defined.

(** ** What goes wrong *)

Definition given (names : list string) : Flags :=
  {| fl_set := list_to_set names; fl_host := ""; fl_port := 2000; fl_maxConns := 0; fl_maxBodySize := 0; fl_streaming := false;
     fl_readTimeout := ""; fl_writeTimeout := ""; fl_shutdownTimeout := ""; fl_tlsEnable := false; fl_tlsCert := ""; fl_tlsKey := "";
     fl_debugFlag := false; fl_logLevel := ""; fl_logFormat := ""; fl_logOutput := ""; fl_logMaxSize := 0; fl_logMaxBackups := 0; fl_logMaxAge := 0;
     fl_metricsEnabled := false; fl_metricsHost := ""; fl_metricsPort := 0; fl_metricsPath := ""; fl_scenariosDir := "two"; fl_mockTimeout := "";
     fl_storageEnabled := false; fl_storageDir := ""; fl_storageMaxSize := 0; fl_storageRotate := 0; fl_healthEnabled := false; fl_healthPort := 0;
     fl_healthPath := ""; fl_readyPath := ""; fl_pprofEnabled := false |}.

(** A server started with [--server.port] refuses to reload its own, unchanged file. *)
Example flag_blocks_reload :
  outcome_of (LoadConfigFromPath unfit_amd64 (demo_world (demo_config "one" 1344 true)) (λ _, true) "c.yaml" (started (applyOverrides (given ["server.port"]) started_config))) =
  Some (UnsupportedRuntimeChange "static configuration changed").
Proof. vm_compute. reflexivity. Qed.

(** One started with [--mock.scenarios-dir] accepts it, and goes to the directory of the
    file. *)
Example flag_directory_forgotten :
  let st := started (applyOverrides (given ["mock.scenarios-dir"]) started_config) in
  (summaries st, summaries (LoadConfigFromPath unfit_amd64 (demo_world (demo_config "one" 1344 true)) (λ _, true) "c.yaml" st).2) =
  ([(Some "two", [("new", 200); ("default", 204)])], [(Some "one", [("scan", 204); ("other", 200); ("default", 204)])]).
Proof. vm_compute. reflexivity. Qed.

(** The callbacks run after the lock has been given back, so those of an older load can
    come last: here the manager has the configuration that turns the management off, and
    the callback is last told of the one that turns it on. *)
Example callbacks_out_of_order :
  let st := let s := started started_config in (RegisterConfigApplyFunc 0 s.1, s.2) in
  match loaded_config "one" 1344 true, loaded_config "one" 1344 false with
  | Some on, Some off =>
      let (told1, st1) := applyLoaded (demo_world (demo_config "one" 1344 true)) (λ _, true) on st in
      let (told2, st2) := applyLoaded (demo_world (demo_config "one" 1344 false)) (λ _, true) off st1 in
      match told1, told2 with
      | Ok calls1, Ok calls2 =>
          (mg_Enabled ∘ c_Management <$> m_cfg st2.1, last (map (λ call, mg_Enabled (c_Management call.2)) (calls2 ++ calls1))) = (Some false, Some true)
      | _, _ => False
      end
  | _, _ => False
  end.
Proof. vm_compute. reflexivity. Qed.

(** Endpoints must not change where routes are exact - but two reloads can do it, by way
    of scenarios without exact routes. *)
Example two_steps_change_endpoints :
  let routes path : RouteMap := {["REQMOD" := [path]]} in
  let old := [demo_scenario "a" "/a" ∅ 200] in let between := [demo_scenario "a" "/b" ∅ 200] in let new := [demo_scenario "a" "/b" (routes "/b") 200] in
  (ValidateExactRouteTopology old new, ValidateExactRouteTopology old between, ValidateExactRouteTopology between new) = (false, true, true).
Proof. vm_compute. reflexivity. Qed.

Definition inline_entry : InlineScenarioEntry :=
  {| ie_When := ∅; ie_Set := ∅; ie_Method := ["REQMOD"]; ie_Endpoint := ["/scan"]; ie_Body := ""; ie_BodyFile := ""; ie_Delay := ""; ie_Responses := None;
     ie_Status := 204; ie_HTTPStatus := 0; ie_Priority := 0 |}.

(** Inline scenarios get their priorities in the order in which a map is gone over: at the
    start the names are sorted, in a reload they are not. *)
Example inline_priorities :
  let inline : gmap string InlineScenarioEntry := {["a" := inline_entry; "b" := inline_entry]} in
  let priorities names := match convertInlineScenarios (Regexp := unit) (IPNet := unit) inline names with Ok l => map (λ s, (Name s, Priority s)) l | Err _ => [] end in
  (priorities (sortedInlineScenarioNames inline), priorities ["b"; "a"]) = ([("a", 2000); ("b", 1999)], [("b", 2000); ("a", 1999)]).
Proof. vm_compute. reflexivity. Qed.
