(* ===== verification/ManagementApi.v ===== *)
(** * The endpoints that reload a running server: [internal/health/api.go]

    Who may reload what: the switches and the token of the management, the handlers
    around the manager of [Management], the status they answer with, and how a loaded
    configuration changes the switches themselves. HTTP and JSON are libraries: a request
    is its method, its [Authorization] header and the path its body names. Log lines,
    metrics and the reasons in the texts of errors are not here. *)
From S2P Require Import Prelude GoInt GoFloat GoStrings Scenario Responses Config Management PlainRegistry ManagementSpec.

Local Open Scope Z_scope.

(** [decodeConfigLoadPath]: the path of a body that is one JSON object. *)
Record HttpRequest := { hr_Method : string; hr_Authorization : string; hr_Path : option string }.

Record Reply := { status : Z; reply_error : string }.

Definition refuse (status : Z) (message : string) : Reply := {| status := status; reply_error := message |}.
Definition ok_reply : Reply := {| status := 200; reply_error := "" |}.

Inductive Route := ScenariosReload | ConfigReloadCurrent | ConfigLoad.

(** [writeConfigOperationError] *)
Definition writeConfigOperationError (e : ManagementError) : Reply :=
  match e with
  | UnsupportedRuntimeChange _ => refuse 409 "unsupported live config change"
  | ConfigInvalid _ => refuse 400 "config validation failed"
  | ConfigFileMissing _ | ConfigFileNotRegular | ConfigFileTooLarge | ConfigLoadFailed _ => refuse 400 "config load failed"
  | ConfigPathRequired | CurrentConfigPathRequired => refuse 400 "invalid config path"
  | ContextDone | LoadingSet _ _ | ApplyingSet _ _ => refuse 500 "runtime apply failed"
  end.

Section Api.
Context {Regexp IPNet R : Type} `{HR : !ScenarioRegistry (Regexp := Regexp) (IPNet := IPNet) R}.
Context (Sum256 Getenv : string → string) (unfit : float64 → Z).
Notation World' := (World (Regexp := Regexp) (IPNet := IPNet)).
Notation Manager' := (RuntimeManager (Regexp := Regexp) (IPNet := IPNet) (R := R)).

(** [managementState] without the callbacks, and the manager when there is one. *)
Record ManagementState := { ms_cfg : ManagementConfig; ms_token : string; ms_manager : option (Manager' * gmap nat R) }.

Definition NewAPIHandler (apiToken : string) : ManagementState := {| ms_cfg := zeroManagement; ms_token := apiToken; ms_manager := None |}.

Definition SetManager (manager : Manager' * gmap nat R) (s : ManagementState) : ManagementState :=
  {| ms_cfg := ms_cfg s; ms_token := ms_token s; ms_manager := Some manager |}.

Definition resolvedManagementToken (cfg : ManagementConfig) (fallbackToken : string) : string :=
  let token := ResolvedToken Getenv cfg in if String.eqb token "" then fallbackToken else token.

Definition ConfigureManagement (cfg : ManagementConfig) (fallbackToken : string) (s : ManagementState) : ManagementState :=
  {| ms_cfg := cfg; ms_token := resolvedManagementToken cfg fallbackToken; ms_manager := ms_manager s |}.

(** Equality of the digests, in constant time. *)
Definition validBearerToken (auth expected : string) : bool :=
  has_prefix auth "Bearer " && String.eqb (Sum256 expected) (Sum256 (trim_prefix auth "Bearer ")).

(** The callback that [startHealthServer] registers for loaded configurations. *)
Definition notifyConfigApplied (told : list (nat * Config)) (s : ManagementState) : ManagementState :=
  foldl (λ s call, ConfigureManagement (c_Management call.2) (hc_APIToken (c_Health call.2)) s) s told.

Definition handleScenariosReload (w : World') (alive : nat → bool) (r : HttpRequest) (s : ManagementState) : Reply * ManagementState :=
  if negb (String.eqb (hr_Method r) "POST") then (refuse 405 "method not allowed", s)
  else
    match ms_manager s with
    | Some st =>
        if mg_ScenarioReloadEnabled (ms_cfg s) then
          match ReloadScenarios w alive st with
          | (Some _, _) => (refuse 500 "reload failed", s)
          | (None, st) => (ok_reply, SetManager st s)
          end
        else (refuse 403 "disabled", s)
    | None => (refuse 403 "disabled", s)
    end.

(** [allowConfigOperation] *)
Definition allowConfigOperation (r : HttpRequest) (s : ManagementState) : Reply + (Manager' * gmap nat R) :=
  if negb (String.eqb (hr_Method r) "POST") then inl (refuse 405 "method not allowed")
  else
    match ms_manager s with
    | Some st => if mg_ConfigReloadEnabled (ms_cfg s) then inr st else inl (refuse 403 "disabled")
    | None => inl (refuse 403 "disabled")
    end.

(** The answer to a configuration operation, and the callbacks. *)
Definition configOperation (x : result ManagementError (list (nat * Config)) * (Manager' * gmap nat R)) (s : ManagementState) : Reply * ManagementState :=
  match x with
  | (Err e, _) => (writeConfigOperationError e, s)
  | (Ok told, st) => (ok_reply, notifyConfigApplied told (SetManager st s))
  end.

Definition handleConfigReloadCurrent (w : World') (alive : nat → bool) (r : HttpRequest) (s : ManagementState) : Reply * ManagementState :=
  match allowConfigOperation r s with
  | inl reply => (reply, s)
  | inr st => configOperation (ReloadCurrentConfig unfit w alive st) s
  end.

Definition decodeConfigLoadPath (r : HttpRequest) : Reply + string :=
  match hr_Path r with
  | None => inl (refuse 400 "invalid JSON")
  | Some path => if String.eqb (trim_space path) "" then inl (refuse 400 "path is required") else inr path
  end.

Definition handleConfigLoad (w : World') (alive : nat → bool) (r : HttpRequest) (s : ManagementState) : Reply * ManagementState :=
  match allowConfigOperation r s with
  | inl reply => (reply, s)
  | inr st =>
      match decodeConfigLoadPath r with
      | inl reply => (reply, s)
      | inr path => configOperation (LoadConfigFromPath unfit w alive path st) s
      end
  end.

Definition handler (route : Route) : World' → (nat → bool) → HttpRequest → ManagementState → Reply * ManagementState :=
  match route with ScenariosReload => handleScenariosReload | ConfigReloadCurrent => handleConfigReloadCurrent | ConfigLoad => handleConfigLoad end.

(** A request to a route, with [withAuth] around its handler. *)
Definition withAuth (route : Route) (w : World') (alive : nat → bool) (r : HttpRequest) (s : ManagementState) : Reply * ManagementState :=
  if negb (mg_Enabled (ms_cfg s)) then (refuse 403 "disabled", s)
  else if negb (String.eqb (ms_token s) "") && negb (validBearerToken (hr_Authorization r) (ms_token s)) then (refuse 401 "unauthorized", s)
  else handler route w alive r s.

(** ** Who may reload what *)

(** Whether the management, as it is configured now, lets the request do what its route is
    for. *)
Definition permitted (route : Route) (r : HttpRequest) (s : ManagementState) : Prop :=
  mg_Enabled (ms_cfg s) = true ∧ hr_Method r = "POST" ∧
  (ms_token s = "" ∨ ∃ token, hr_Authorization r = "Bearer " +:+ token ∧ Sum256 token = Sum256 (ms_token s)) ∧
  (if route is ScenariosReload then mg_ScenarioReloadEnabled (ms_cfg s) else mg_ConfigReloadEnabled (ms_cfg s)) = true.

Lemma trim_prefix_split s p : has_prefix s p = true → s = p +:+ trim_prefix s p.
Proof using.
  unfold has_prefix, trim_prefix, has_prefix. intros H. rewrite H. revert s H. induction p as [|c p IH]; intros s H; cbn; [done|]. destruct s as [|d s]; [done|]. cbn in *.
  destruct (Ascii.ascii_dec c d) as [->|]; [|done]. f_equal. by apply IH.
Qed.

Lemma validBearerToken_spec auth expected : validBearerToken auth expected = true → ∃ token, auth = "Bearer " +:+ token ∧ Sum256 token = Sum256 expected.
Proof using.
  unfold validBearerToken. intros [Hp He]%andb_true_iff. apply String.eqb_eq in He. exists (trim_prefix auth "Bearer "). split; [by apply trim_prefix_split|done].
Qed.

Lemma withAuth_passes route w alive r s :
  withAuth route w alive r s = handler route w alive r s ∧ mg_Enabled (ms_cfg s) = true ∧
    (ms_token s = "" ∨ ∃ token, hr_Authorization r = "Bearer " +:+ token ∧ Sum256 token = Sum256 (ms_token s)) ∨
  (withAuth route w alive r s).2 = s ∧ (withAuth route w alive r s).1.(status) ≠ 200.
Proof using.
  unfold withAuth. destruct (mg_Enabled (ms_cfg s)); [|by right]. cbn [negb]. destruct (String.eqb_spec (ms_token s) "") as [Ht|Ht]; cbn [negb andb]; [left; split_and!; [done..|by left]|].
  destruct (validBearerToken _ _) eqn:Ev; [|by right]. left. split_and!; [done..|]. right. by apply validBearerToken_spec.
Qed.

Lemma refused_not_ok e : status (writeConfigOperationError e) ≠ 200.
Proof using. by destruct e. Qed.

Lemma configOperation_ok x s : (configOperation x s).2 = s ∧ (configOperation x s).1.(status) ≠ 200 ∨ ∃ told, x.1 = Ok told ∧ configOperation x s = (ok_reply, notifyConfigApplied told (SetManager x.2 s)).
Proof using. destruct x as [[told|e] st]; cbn; [right; by exists told|left; split; [done|apply refused_not_ok]]. Qed.

(** What the answer 200 means. *)
Definition carried_out (route : Route) (w : World') (alive : nat → bool) (r : HttpRequest) (s s' : ManagementState) : Prop :=
  ∃ st, ms_manager s = Some st ∧
    match route with
    | ScenariosReload => ∃ st', ReloadScenarios w alive st = (None, st') ∧ s' = SetManager st' s
    | ConfigReloadCurrent => ∃ told st', ReloadCurrentConfig unfit w alive st = (Ok told, st') ∧ s' = notifyConfigApplied told (SetManager st' s)
    | ConfigLoad => ∃ path told st', hr_Path r = Some path ∧ LoadConfigFromPath unfit w alive path st = (Ok told, st') ∧ s' = notifyConfigApplied told (SetManager st' s)
    end.

Lemma handler_guarded route w alive r s :
  (handler route w alive r s).2 = s ∧ (handler route w alive r s).1.(status) ≠ 200 ∨
  hr_Method r = "POST" ∧ (if route is ScenariosReload then mg_ScenarioReloadEnabled (ms_cfg s) else mg_ConfigReloadEnabled (ms_cfg s)) = true ∧
  (handler route w alive r s).1 = ok_reply ∧ carried_out route w alive r s (handler route w alive r s).2.
Proof using.
  destruct route; cbn [handler]; unfold handleScenariosReload, handleConfigReloadCurrent, handleConfigLoad, allowConfigOperation, carried_out;
    (destruct (String.eqb_spec (hr_Method r) "POST") as [Hp|]; [|by left]); cbn [negb]; (destruct (ms_manager s) as [st|] eqn:Em; [|by left]).
  - destruct (mg_ScenarioReloadEnabled _); [|by left]. destruct (ReloadScenarios w alive st) as [[e|] st'] eqn:Er; [by left|]. right. split_and!; [done..|]. exists st. split; [done|]. by exists st'.
  - destruct (mg_ConfigReloadEnabled _); [|by left]. destruct (ReloadCurrentConfig unfit w alive st) as [x st'] eqn:Er.
    destruct (configOperation_ok (x, st') s) as [?|(told & Hx & ->)]; [by left|]. cbn in Hx. subst x. right. split_and!; [done..|]. exists st. split; [done|]. by exists told, st'.
  - destruct (mg_ConfigReloadEnabled _); [|by left]. unfold decodeConfigLoadPath. destruct (hr_Path r) as [path|]; [|by left]. destruct (String.eqb _ _); [by left|].
    destruct (LoadConfigFromPath unfit w alive path st) as [x st'] eqn:Er. destruct (configOperation_ok (x, st') s) as [?|(told & Hx & ->)]; [by left|]. cbn in Hx. subst x.
    right. split_and!; [done..|]. exists st. split; [done|]. by exists path, told, st'.
Qed.

(** C31: a request to the management endpoints changes something exactly when it is
    answered 200; then the management is on, the request is a POST with the token that is
    asked for, the switch of its operation is on, and the whole operation has been carried
    out. Every other request is refused with another status and changes nothing. *)
Theorem api_guarded route w alive r s :
  let '(reply, s') := withAuth route w alive r s in
  if status reply =? 200 then permitted route r s ∧ carried_out route w alive r s s' else s' = s.
Proof using.
  assert (Hno : ∀ x : Reply * ManagementState, x.2 = s → status x.1 ≠ 200 → let '(reply, s') := x in if status reply =? 200 then permitted route r s ∧ carried_out route w alive r s s' else s' = s).
  { intros [reply s'] Hs Hst. cbn in *. by rewrite (proj2 (Z.eqb_neq _ _) Hst). }
  destruct (withAuth_passes route w alive r s) as [(-> & Hon & Htoken)|[Hs Hst]]; [|by apply Hno].
  destruct (handler_guarded route w alive r s) as [[Hs Hst]|(Hp & Hsw & Hok & Hdone)]; [by apply Hno|].
  destruct (handler route w alive r s) as [reply s']. cbn in Hok, Hdone. subst reply. cbn. split; [by split_and!|done].
Qed.

(** Once a configuration has been loaded through the endpoint, with the callback of
    the server registered, the endpoints ask for what the new configuration says: its
    switches, and its token - the one of the management, else the one of the API. *)
Theorem management_follows_file w alive r s st fn s' :
  ms_manager s = Some st → m_onApply st.1 = [fn] → withAuth ConfigLoad w alive r s = (ok_reply, s') →
  ∃ path cfg absPath, hr_Path r = Some path ∧ loadAndValidate unfit w path = Ok (cfg, absPath) ∧
    ms_cfg s' = c_Management cfg ∧ ms_token s' = resolvedManagementToken (c_Management cfg) (hc_APIToken (c_Health cfg)) ∧
    ∃ st', ms_manager s' = Some st' ∧ m_cfg st'.1 = Some cfg.
Proof using.
  intros Hm Hon H. destruct (withAuth_passes ConfigLoad w alive r s) as [(Hw & _)|[_ Hst]]; [|by rewrite H in Hst]. rewrite Hw in H.
  destruct (handler_guarded ConfigLoad w alive r s) as [[_ Hst]|(_ & _ & _ & st0 & Hm0 & path & told & st' & Hpath & Hload & Hs)]; [by rewrite H in Hst|].
  rewrite H in Hs. cbn in Hs. rewrite Hm in Hm0. injection Hm0 as <-. exists path. unfold LoadConfigFromPath in Hload.
  destruct (negb _); [done|]. destruct (String.eqb _ _); [done|]. destruct (loadAndValidate unfit w path) as [[cfg absPath]|]; [|done]. exists cfg, absPath.
  destruct st as [m h]. cbn in Hload, Hon. destruct (planConfigApply w alive m h cfg) as [[sets reps]|]; [|done]. rewrite Hon in Hload. injection Hload as <- <-. subst s'. cbn.
  split_and!; [done..|]. by eexists.
Qed.
End Api.

(** ** An example *)

Import PlainRegistry.Example.

(** The endpoints of the example server, which ask for the token "secret". *)
Definition demo_api : ManagementState (R := DemoRegistry) :=
  {| ms_cfg := c_Management started_config; ms_token := "secret";
     ms_manager := Some (let s := started started_config in (RegisterConfigApplyFunc 0 s.1, s.2)) |}.

Definition demo_request (auth : string) : HttpRequest := {| hr_Method := "POST"; hr_Authorization := auth; hr_Path := Some "c.yaml" |}.

(** A file that turns the management off is loaded with the token, and then the token is
    of no use. *)
Lemma management_follows_file_witness :
  let w := demo_world (demo_config "two" 1344 false) in
  let x := withAuth id (λ _, "") unfit_amd64 ConfigLoad w (λ _, true) (demo_request "Bearer secret") demo_api in
  x.1 = ok_reply ∧ (∃ cfg, ms_cfg x.2 = c_Management cfg) ∧
  (withAuth id (λ _, "") unfit_amd64 ConfigLoad w (λ _, true) (demo_request "Bearer secret") x.2).1 = refuse 403 "disabled".
Proof.
  intros w x. assert (H : x.1 = ok_reply) by (vm_compute; reflexivity). split; [exact H|]. split; [|vm_compute; reflexivity].
  assert (Hx : x = (ok_reply, x.2)) by (rewrite <- H; apply surjective_pairing).
  destruct (management_follows_file id (λ _, "") unfit_amd64 w (λ _, true) (demo_request "Bearer secret") demo_api _ 0%nat x.2 eq_refl eq_refl Hx) as (path & cfg & absPath & _ & _ & Hcfg & _).
  by exists cfg.
Defined.

Example wrong_token : (withAuth id (λ _, "") unfit_amd64 ConfigLoad (demo_world zeroConfig) (λ _, true) (demo_request "Bearer secre") demo_api).1 = refuse 401 "unauthorized".
Proof. vm_compute. reflexivity. Qed.
