(* ===== verification/Pool.v ===== *)
(** * Reused buffers: [pkg/pool/pool.go]

    [SlicePool] keeps byte slices in three classes. [sync.Pool] gives back something that
    was put in, or nothing - it may forget what it holds at any time - so which buffer a
    [Get] takes is a choice of the environment. A buffer is its address, its length and
    its capacity. *)
From S2P Require Import Prelude.

Local Open Scope Z_scope.

Definition SizeSmall : Z := 4 * 1024.
Definition SizeMedium : Z := 8 * 1024.
Definition SizeLarge : Z := 32 * 1024.

Record Buffer := { bf_addr : nat; bf_len : Z; bf_cap : Z }.

(** [fresh]: the next address that was never used. *)
Record SlicePool := { small : list Buffer; medium : list Buffer; large : list Buffer; fresh : nat }.

Definition NewSlicePool : SlicePool := {| small := []; medium := []; large := []; fresh := 0 |}.

(** [sync.Pool.Get] with its [New]: the buffer at some place, or a new one. *)
Definition take (choice : option nat) (size : Z) (l : list Buffer) (next : nat) : Buffer * list Buffer * nat :=
  match choice ≫= (λ i, (λ b, (b, delete i l)) <$> l !! i) with
  | Some (b, l) => (b, l, next)
  | None => ({| bf_addr := next; bf_len := 0; bf_cap := size |}, l, S next)
  end.

Definition Get (choice : option nat) (size : Z) (p : SlicePool) : Buffer * SlicePool :=
  if size <=? SizeSmall then
    let '(b, l, n) := take choice SizeSmall (small p) (fresh p) in (b, {| small := l; medium := medium p; large := large p; fresh := n |})
  else if size <=? SizeMedium then
    let '(b, l, n) := take choice SizeMedium (medium p) (fresh p) in (b, {| small := small p; medium := l; large := large p; fresh := n |})
  else if size <=? SizeLarge then
    let '(b, l, n) := take choice SizeLarge (large p) (fresh p) in (b, {| small := small p; medium := medium p; large := l; fresh := n |})
  else ({| bf_addr := fresh p; bf_len := size; bf_cap := size |}, {| small := small p; medium := medium p; large := large p; fresh := S (fresh p) |}).

Definition Put (buf : Buffer) (p : SlicePool) : SlicePool :=
  let b := {| bf_addr := bf_addr buf; bf_len := 0; bf_cap := bf_cap buf |} in
  if bf_cap b =? SizeSmall then {| small := small p ++ [b]; medium := medium p; large := large p; fresh := fresh p |}
  else if bf_cap b =? SizeMedium then {| small := small p; medium := medium p ++ [b]; large := large p; fresh := fresh p |}
  else if bf_cap b =? SizeLarge then {| small := small p; medium := medium p; large := large p ++ [b]; fresh := fresh p |}
  else p.

(** The garbage collector forgets. *)
Definition forget (f : Buffer → bool) (p : SlicePool) : SlicePool :=
  {| small := List.filter f (small p); medium := List.filter f (medium p); large := List.filter f (large p); fresh := fresh p |}.

(** The buffers that callers hold. A caller may use a buffer as it likes - it may come
    back as a slice of another length or capacity - and gives back only what it holds. *)
Record PoolRun := { pool : SlicePool; holding : list Buffer }.

Inductive buffer_step : PoolRun → PoolRun → Prop :=
| pool_get choice size b p r : Get choice size (pool r) = (b, p) → buffer_step r {| pool := p; holding := holding r ++ [b] |}
| pool_use l1 b b' l2 r : holding r = l1 ++ b :: l2 → bf_addr b' = bf_addr b → buffer_step r {| pool := pool r; holding := l1 ++ b' :: l2 |}
| pool_put l1 b l2 r : holding r = l1 ++ b :: l2 → buffer_step r {| pool := Put b (pool r); holding := l1 ++ l2 |}
| pool_forget f r : buffer_step r {| pool := forget f (pool r); holding := holding r |}.

Definition pooled (p : SlicePool) : list Buffer := small p ++ medium p ++ large p.

Definition in_class (size : Z) (l : list Buffer) : Prop := Forall (λ b, bf_len b = 0 ∧ bf_cap b = size) l.

(** Every class holds empty buffers of its capacity, and nobody shares a buffer. *)
Record pool_ok (r : PoolRun) : Prop := {
  po_small : in_class SizeSmall (small (pool r));
  po_medium : in_class SizeMedium (medium (pool r));
  po_large : in_class SizeLarge (large (pool r));
  po_distinct : NoDup (map bf_addr (holding r ++ pooled (pool r)));
  po_fresh : Forall (λ b, (bf_addr b < fresh (pool r))%nat) (holding r ++ pooled (pool r))
}.

(** What a [Get] takes from a class: a buffer of that capacity, which the class held or
    which is new. *)
Lemma take_spec choice size l next b l' next' : in_class size l → take choice size l next = (b, l', next') →
  bf_len b = 0 ∧ bf_cap b = size ∧ in_class size l' ∧ (b :: l' ≡ₚ l ∧ next' = next ∨ bf_addr b = next ∧ l' = l ∧ next' = S next).
Proof.
  intros Hl. unfold take. destruct choice as [i|]; cbn; [destruct (l !! i) as [x|] eqn:E; cbn|]; intros [= <- <- <-].
  - destruct (Forall_lookup_1 _ _ _ _ Hl E) as [H0 Hc]. pose proof (delete_Permutation _ _ _ E) as Hp. split_and!; [done..| |by left].
    unfold in_class in *. rewrite Hp in Hl. by apply list.Forall_cons_1 in Hl as [_ ?].
  - split_and!; [done..|by right].
  - split_and!; [done..|by right].
Qed.

(** The addresses after a [Get]: those of before, and perhaps a new one. *)
Lemma taken_ok (b : Buffer) (rest rest' holders : list Buffer) next next' :
  (b :: rest' ≡ₚ rest ∧ next' = next ∨ bf_addr b = next ∧ rest' ≡ₚ rest ∧ next' = S next) →
  NoDup (map bf_addr (holders ++ rest)) → Forall (λ b, (bf_addr b < next)%nat) (holders ++ rest) →
  NoDup (map bf_addr ((holders ++ [b]) ++ rest')) ∧ Forall (λ b, (bf_addr b < next')%nat) ((holders ++ [b]) ++ rest').
Proof.
  intros Ht Hnd Hf. assert (Hp : (holders ++ [b]) ++ rest' ≡ₚ b :: holders ++ rest') by (rewrite <- app_assoc; cbn; symmetry; apply Permutation_middle).
  rewrite Hp. destruct Ht as [[Hr ->]|(Ha & Hr & ->)].
  - assert (Hq : b :: holders ++ rest' ≡ₚ holders ++ rest) by (rewrite <- Hr; apply Permutation_middle). by rewrite Hq.
  - rewrite Hr. split; [|constructor; [lia|eapply Forall_impl; [exact Hf|intros; cbn in *; lia]]]. cbn. apply NoDup_cons. split; [|done].
    intros (x & Hx & Hin)%list_elem_of_fmap. rewrite list.Forall_forall in Hf. apply Hf in Hin. cbn in Hin. lia.
Qed.

Lemma Get_ok choice size r b p : pool_ok r → Get choice size (pool r) = (b, p) →
  pool_ok {| pool := p; holding := holding r ++ [b] |} ∧ size ≤ bf_cap b ∧ (size ≤ SizeLarge → bf_len b = 0).
Proof.
  intros [Hs Hm Hl Hnd Hf] H. unfold Get in H. destruct (Z.leb_spec size SizeSmall); [|destruct (Z.leb_spec size SizeMedium); [|destruct (Z.leb_spec size SizeLarge)]].
  - destruct (take _ _ _ _) as [[b' l] n] eqn:E. injection H as -> <-. destruct (take_spec _ _ _ _ _ _ _ Hs E) as (Hlen & Hc & Hl' & Ht). split; [|split; [lia|done]].
    destruct (taken_ok b (pooled (pool r)) (l ++ medium (pool r) ++ large (pool r)) (holding r) (fresh (pool r)) n) as [? ?]; [|done..|by split].
    destruct Ht as [[Hp ->]|(? & -> & ->)]; [left; split; [|done]; unfold pooled; by rewrite <- Hp|by right].
  - destruct (take _ _ _ _) as [[b' l] n] eqn:E. injection H as -> <-. destruct (take_spec _ _ _ _ _ _ _ Hm E) as (Hlen & Hc & Hl' & Ht). split; [|split; [lia|done]].
    destruct (taken_ok b (pooled (pool r)) (small (pool r) ++ l ++ large (pool r)) (holding r) (fresh (pool r)) n) as [? ?]; [|done..|by split].
    destruct Ht as [[Hp ->]|(? & -> & ->)]; [left; split; [|done]; unfold pooled; rewrite <- Hp; cbn; apply Permutation_middle|by right].
  - destruct (take _ _ _ _) as [[b' l] n] eqn:E. injection H as -> <-. destruct (take_spec _ _ _ _ _ _ _ Hl E) as (Hlen & Hc & Hl' & Ht). split; [|split; [lia|done]].
    destruct (taken_ok b (pooled (pool r)) (small (pool r) ++ medium (pool r) ++ l) (holding r) (fresh (pool r)) n) as [? ?]; [|done..|by split].
    destruct Ht as [[Hp ->]|(? & -> & ->)]; [left; split; [|done]; unfold pooled; rewrite <- Hp, !app_assoc; apply Permutation_middle|by right].
  - injection H as <- <-. split; [|split; [cbn; lia|lia]].
    destruct (taken_ok {| bf_addr := fresh (pool r); bf_len := size; bf_cap := size |} (pooled (pool r)) (pooled (pool r)) (holding r) (fresh (pool r)) (S (fresh (pool r)))) as [? ?];
      [by right|done..|by split].
Qed.

(** [Put] keeps the buffer, emptied, in the class of its capacity, or drops it. *)
Lemma Put_pooled b p : let e := {| bf_addr := bf_addr b; bf_len := 0; bf_cap := bf_cap b |} in
  pooled (Put b p) ≡ₚ e :: pooled p ∨ Put b p = p.
Proof.
  intros e. unfold Put, pooled. cbn. fold e. destruct (_ =? SizeSmall); [|destruct (_ =? SizeMedium); [|destruct (_ =? SizeLarge)]]; cbn; [left..|by right].
  - rewrite <- app_assoc. cbn. symmetry. apply Permutation_middle.
  - rewrite <- !app_assoc. cbn. rewrite !(Permutation_middle (small p)). rewrite (Permutation_middle (medium p)). done.
  - rewrite !app_assoc. symmetry. apply Permutation_cons_append.
Qed.

Lemma Put_classes b p : in_class SizeSmall (small p) → in_class SizeMedium (medium p) → in_class SizeLarge (large p) →
  in_class SizeSmall (small (Put b p)) ∧ in_class SizeMedium (medium (Put b p)) ∧ in_class SizeLarge (large (Put b p)) ∧ fresh (Put b p) = fresh p.
Proof.
  intros Hs Hm Hl. unfold Put, in_class in *. cbn. destruct (Z.eqb_spec (bf_cap b) SizeSmall) as [E|]; [|destruct (Z.eqb_spec (bf_cap b) SizeMedium) as [E|];
    [|destruct (Z.eqb_spec (bf_cap b) SizeLarge) as [E|]]]; cbn; rewrite ?list.Forall_app, ?list.Forall_singleton; by split_and!.
Qed.

Lemma sublist_ok (l l' : list Buffer) n : l' ⊆+ l → NoDup (map bf_addr l) → Forall (λ b, (bf_addr b < n)%nat) l →
  NoDup (map bf_addr l') ∧ Forall (λ b, (bf_addr b < n)%nat) l'.
Proof.
  intros [k Hk]%submseteq_Permutation Hnd Hf. rewrite Hk in Hnd, Hf. rewrite map_app in Hnd. apply NoDup_app in Hnd as [Hnd _]. by apply Forall_app in Hf as [Hf _].
Qed.

Lemma filter_submseteq (f : Buffer → bool) l : List.filter f l ⊆+ l.
Proof. induction l as [|b l IH]; cbn; [done|]. destruct (f b); [by apply submseteq_skip|by apply submseteq_cons]. Qed.

Lemma filter_class (f : Buffer → bool) size l : in_class size l → in_class size (List.filter f l).
Proof. unfold in_class. induction 1 as [|b l Hb _ IH]; cbn; [constructor|]. destruct (f b); [by constructor|done]. Qed.

Lemma buffer_step_ok r r' : buffer_step r r' → pool_ok r → pool_ok r'.
Proof.
  intros Hst Hok. destruct Hst as [choice size b p r Hg|l1 b b' l2 r Hh Ha|l1 b l2 r Hh|f r]; [by destruct (Get_ok _ _ _ _ _ Hok Hg) as [? _]|..]; destruct Hok as [Hs Hm Hl Hnd Hf].
  - rewrite Hh in Hnd, Hf. split; cbn; [done..| |]; rewrite <- app_assoc in *; cbn in *.
    + rewrite map_app in *. cbn in *. by rewrite Ha.
    + rewrite list.Forall_app, list.Forall_cons in *. by rewrite Ha.
  - destruct (Put_classes b (pool r) Hs Hm Hl) as (Hs' & Hm' & Hl' & Hfr). rewrite Hh in Hnd, Hf.
    assert (Hp : (l1 ++ b :: l2) ++ pooled (pool r) ≡ₚ b :: (l1 ++ l2) ++ pooled (pool r)) by (rewrite <- Permutation_middle; done).
    rewrite Hp in Hnd, Hf. split; cbn; [done..| |]; rewrite ?Hfr; destruct (Put_pooled b (pool r)) as [Hq|Hq].
    + rewrite Hq, <- Permutation_middle. exact Hnd.
    + rewrite Hq. by apply NoDup_cons in Hnd as [_ ?].
    + rewrite Hq, <- Permutation_middle. apply list.Forall_cons_1 in Hf as [? ?]. by constructor.
    + rewrite Hq. by apply list.Forall_cons_1 in Hf as [_ ?].
  - assert (Hsub : holding r ++ pooled (forget f (pool r)) ⊆+ holding r ++ pooled (pool r)).
    { apply submseteq_app; [done|]. unfold pooled, forget. cbn. repeat apply submseteq_app; apply filter_submseteq. }
    destruct (sublist_ok _ _ _ Hsub Hnd Hf) as [? ?]. split; cbn; try done; by apply filter_class.
Qed.

(** Whatever callers do with the buffers they hold and give back, and whatever is
    forgotten, two callers never hold the same buffer, no buffer is held and pooled at
    once, and [Get] gives room for the size that was asked for - with length 0 for the
    pooled sizes, so that what an earlier caller left is out of reach. *)
Theorem buffers_exclusive r choice size b p :
  rtc buffer_step {| pool := NewSlicePool; holding := [] |} r → Get choice size (pool r) = (b, p) →
  NoDup (map bf_addr (holding r ++ pooled (pool r))) ∧ bf_addr b ∉ map bf_addr (holding r) ∧ size ≤ bf_cap b ∧ (size ≤ SizeLarge → bf_len b = 0).
Proof.
  intros Hr Hg. assert (Hok : pool_ok r).
  { assert (H0 : pool_ok {| pool := NewSlicePool; holding := [] |}) by (split; constructor). clear Hg. induction Hr as [|r0 r1 r2 Hs _ IH]; [done|]. by apply IH, (buffer_step_ok r0). }
  destruct (Get_ok _ _ _ _ _ Hok Hg) as (Hok' & Hcap & Hlen). split_and!; [apply Hok| |done..].
  pose proof (po_distinct _ Hok') as Hnd. cbn in Hnd. rewrite <- app_assoc, map_app in Hnd. apply NoDup_app in Hnd as (_ & Hd & _).
  intros Hin. apply (Hd _ Hin). cbn. by left.
Qed.

Lemma buffers_exclusive_witness :
  let r := {| pool := Put {| bf_addr := 0; bf_len := 100; bf_cap := SizeMedium |} (Get None 5000 NewSlicePool).2; holding := [] |} in
  ∃ b, (Get (Some 0%nat) 8000 (pool r)).1 = b ∧ bf_addr b = 0%nat ∧ bf_len b = 0.
Proof.
  intros r. eexists. split; [reflexivity|]. split; [vm_compute; reflexivity|].
  refine (proj2 (proj2 (proj2 (buffers_exclusive r (Some 0%nat) 8000 _ _ _ (surjective_pairing _)))) _); [|vm_compute; discriminate].
  eapply rtc_l; [eapply (pool_get None 5000); reflexivity|]. eapply rtc_l; [apply (pool_use [] {| bf_addr := 0; bf_len := 0; bf_cap := SizeMedium |} {| bf_addr := 0; bf_len := 100; bf_cap := SizeMedium |} []); reflexivity|].
  apply rtc_once. exact (pool_put [] {| bf_addr := 0; bf_len := 100; bf_cap := SizeMedium |} [] {| pool := _; holding := _ |} eq_refl).
Defined.
