(* ===== verification/Health.v ===== *)
(** * Health and readiness: [internal/health/health.go]

    The checker of the components' readiness and the two probes. HTTP and JSON are
    libraries: a reply is its status and the fields of its body; the time in it is left
    out. *)
From S2P Require Import Prelude GoStrings.

Local Open Scope Z_scope.

Record Checker := { icapError : string; storageError : string; scenariosCount : Z; icapReady : bool; storageReady : bool }.

Definition NewChecker : Checker := {| icapError := ""; storageError := ""; scenariosCount := 0; icapReady := false; storageReady := false |}.

Definition SetICAPReady (ready : bool) (c : Checker) : Checker :=
  {| icapError := if ready then "" else icapError c; storageError := storageError c; scenariosCount := scenariosCount c; icapReady := ready;
     storageReady := storageReady c |}.

Definition SetStorageReady (ready : bool) (c : Checker) : Checker :=
  {| icapError := icapError c; storageError := if ready then "" else storageError c; scenariosCount := scenariosCount c; icapReady := icapReady c;
     storageReady := ready |}.

Definition SetScenariosCount (count : Z) (c : Checker) : Checker :=
  {| icapError := icapError c; storageError := storageError c; scenariosCount := count; icapReady := icapReady c; storageReady := storageReady c |}.

Definition SetStorageError (err : string) (c : Checker) : Checker :=
  {| icapError := icapError c; storageError := err; scenariosCount := scenariosCount c; icapReady := icapReady c; storageReady := String.eqb err "" |}.

Definition SetICAPError (err : string) (c : Checker) : Checker :=
  {| icapError := err; storageError := storageError c; scenariosCount := scenariosCount c; icapReady := String.eqb err ""; storageReady := storageReady c |}.

Definition IsReady (c : Checker) : bool := icapReady c && storageReady c && String.eqb (icapError c) "" && String.eqb (storageError c) "".

(** A reply: its status, the status in its body, and the checks. *)
Record HealthReply := { hr_Status : Z; hr_body : string; hr_checks : list (string * string); hr_scenarios : option Z }.

Definition methodNotAllowed : HealthReply := {| hr_Status := 405; hr_body := "Method not allowed"; hr_checks := []; hr_scenarios := None |}.

Definition handleHealth (method : string) : HealthReply :=
  if negb (String.eqb method "GET") then methodNotAllowed
  else {| hr_Status := 200; hr_body := "healthy"; hr_checks := []; hr_scenarios := None |}.

Definition check_text (error : string) (ready : bool) : string :=
  if negb (String.eqb error "") then "error: " +:+ error else if ready then "ok" else "starting".

(** [handleReady] looks at the checker twice: [status] for the checks, [now] for the
    verdict. *)
Definition handleReady (method : string) (status now : Checker) : HealthReply :=
  if negb (String.eqb method "GET") then methodNotAllowed
  else
    {| hr_Status := if IsReady now then 200 else 503; hr_body := if IsReady now then "ready" else "not_ready";
       hr_checks := [("icap_server", check_text (icapError status) (icapReady status)); ("storage", check_text (storageError status) (storageReady status))];
       hr_scenarios := Some (scenariosCount status) |}.

(** [apiRoutePattern] and [apiErrorType], the labels of the metrics. *)
Definition apiRoutePattern (path : string) : string :=
  if bool_decide (path ∈ ["/api/v1/scenarios/reload"; "/api/v1/config/reload-current"; "/api/v1/config/load"]) then path else "".

Inductive checker_step : Checker → Checker → Prop :=
| step_icap ready c : checker_step c (SetICAPReady ready c)
| step_storage ready c : checker_step c (SetStorageReady ready c)
| step_count n c : checker_step c (SetScenariosCount n c)
| step_icap_error err c : checker_step c (SetICAPError err c)
| step_storage_error err c : checker_step c (SetStorageError err c).

(** A component with an error is not ready. *)
Definition checker_ok (c : Checker) : Prop := (icapReady c = true → icapError c = "") ∧ (storageReady c = true → storageError c = "").

Lemma checker_step_ok c c' : checker_step c c' → checker_ok c → checker_ok c'.
Proof.
  intros [ready|ready|n|err|err] [Hi Hs]; split; cbn; try done; try (by destruct ready); by intros ?%String.eqb_eq.
Qed.

(** In every state the setters can reach a component with an error is not ready, so
    the readiness probe answers 200 exactly when both components are, and 503 with a check
    that says which is not - as long as nothing changes while it answers. *)
Theorem ready_iff c : rtc checker_step NewChecker c →
  let reply := handleReady "GET" c c in
  (hr_Status reply = 200 ↔ icapReady c = true ∧ storageReady c = true) ∧ (hr_Status reply = 200 ↔ Forall (λ check, check.2 = "ok") (hr_checks reply)) ∧
  (hr_Status reply = 200 ∨ hr_Status reply = 503).
Proof.
  intros Hr reply. assert (Hok : checker_ok c).
  { assert (H0 : checker_ok NewChecker) by done. clear reply. induction Hr as [|c0 c1 c2 Hs _ IH]; [done|]. by apply IH, (checker_step_ok c0). }
  destruct Hok as [Hi Hs]. unfold reply, handleReady, IsReady, check_text. cbn.
  destruct (icapReady c), (storageReady c); rewrite ?(Hi eq_refl), ?(Hs eq_refl); cbn; (split_and!; [by split; [|intros []]| |by auto]); rewrite !list.Forall_cons; cbn;
    (split; [try done; by intros _|]); try done; intros (H1 & H2 & _); exfalso; revert H1 H2; repeat (destruct (String.eqb _ _); cbn); done.
Qed.

Lemma ready_iff_witness :
  let c := SetStorageError "disk full" (SetStorageReady true (SetICAPReady true NewChecker)) in
  hr_checks (handleReady "GET" c c) = [("icap_server", "ok"); ("storage", "error: disk full")] ∧ hr_Status (handleReady "GET" c c) ≠ 200.
Proof.
  intros c. split; [reflexivity|]. destruct (ready_iff c) as [Hiff _].
  - eapply rtc_l; [apply (step_icap true)|]. eapply rtc_l; [apply (step_storage true)|]. apply rtc_once. apply (step_storage_error "disk full").
  - intros [_ H]%Hiff. discriminate.
Defined.

(** Between its two looks the probe can contradict itself. *)
Example ready_while_starting :
  let before := SetICAPReady true NewChecker in
  let reply := handleReady "GET" before (SetStorageReady true before) in
  (hr_Status reply, hr_checks reply) = (200, [("icap_server", "ok"); ("storage", "starting")]).
Proof. reflexivity. Qed.

(** Clearing an error that was never set makes a component ready that never started. *)
Example cleared_into_ready : storageReady (SetStorageError "" NewChecker) = true.
Proof. reflexivity. Qed.
